(* ===== verification/_CoqProject ===== *)
-Q . S2P
Prelude.v
Str.v
Json.v
Errors.v
RunState.v
Context.v
Tools.v
Externals.v
Policy.v
Decision.v
Gate.v
Approval.v
CommandLoop.v
Evidence.v
Facts.v
Events.v
Cache.v
Dispatch.v
Stores.v
Control.v
Controller.v
ControllerSpec.v
ControllerProofs.v
Harness.v
ControllerTheorems.v
FleetRun.v
FleetControl.v
FleetCoordinator.v
FleetInvariant.v
FleetTheorems.v
FleetFacts.v
Process.v
History.v
Rely.v
Observe.v
Execution.v
ExecutionTheorems.v
ChangeSets.v
ChangeSetSafety.v
ChangeSetWarrant.v
ChangeSetTheorems.v
ChangeSetFacts.v
Utf8.v
RemoteExec.v
Previews.v
Sftp.v
SftpTheorems.v
NumText.v
Operations.v
OperationsTheorems.v
Dashboard.v
Probes.v
ProbesTheorems.v
Transfers.v
TransfersTheorems.v
FleetExecution.v
FleetBound.v
FleetExecutionTheorems.v
FleetChanges.v
FleetChangesTheorems.v
Incidents.v
IncidentsTheorems.v
Catalog.v
CatalogTheorems.v
KnownHosts.v
KnownHostsTheorems.v
BastionFlow.v
BastionFlowTheorems.v
PluginExpr.v
PluginPolicy.v
PluginWorkflow.v
PluginTheorems.v
SqliteTables.v
Sqlite.v
SqliteTheorems.v
SqliteFacts.v
SqliteFleet.v
SqliteFleetTheorems.v
SqliteFleetFacts.v
