(* ===== verification/Prelude.v ===== *)
(** * Runory: a verification library of the agent runtime

    Runory is a desktop server console whose Rust backend (src/src-tauri/src)
    lets a language model investigate and repair a server under human control.
    This library models the core of that backend, Agent Runtime V2: what a
    model may propose, what of it may run, who must approve it, how a run
    moves and what is written down about it.

    ** The program

    A run is one [AgentRun] (agent/run.rs) moving along the table of
    [AgentRunStateV2] (agent/state.rs).  The controller (agent/controller.rs)
    drives it.  Each round it builds a bounded, redacted context
    (agentic/context.rs) from the goal, recent observations, working facts
    (agent/facts.rs) and artifact references (agent/artifact.rs); asks the
    reasoner for a decision; validates it (agent/decision.rs); and acts.  Reads
    go to the gate (agent/gate.rs), which asks the policy service
    (policy/service.rs, policy/engine.rs), and then to the dispatcher
    (agent/dispatch.rs) over the typed tools of tools/ and the observation
    cache (agentic/optimization.rs).  Commands and change sets always wait for
    a user: an [ApprovalRequest] (agent/approval.rs) binds the exact action,
    its targets, its session and the policy snapshot, and is validated again
    when the user answers.  Everything is recorded through the stores of
    agent/repository.rs.

    ** The files, and how they correspond to the code

    - [Prelude], [Str], [Json]: results, saturating and clamped integers, the
      library's tactics and the [runory] hint database; Rust's string
      operations on lists of Unicode scalar values; [serde_json::Value].
    - [Errors] (domain/error.rs): the error vocabulary and its payload.
    - [RunState] (agent/state.rs, agent/run.rs): the state machine as a bool
      table and the step relation it decides, and the run record.
    - [Context] (agentic/context.rs): redaction, snapshots, compaction.
    - [Tools] (tools/descriptor.rs, registry.rs, terminal.rs, policy.rs): the
      catalogue with its schemas, the parser of model calls, the allowlist.
    - [Externals]: the class of third-party functions ([ring] SHA-256, [uuid]
      text, [<str as Debug>]) and, in [ExternalLaws], what is documented of
      them.  A lawful instance is given there.
    - [Policy] (policy/model.rs, engine.rs, service.rs): evaluation of a sealed
      rule set, and the service with its bounded audit file.
    - [Decision] (agent/decision.rs): the decision protocol, and in its Module
      [Shell] the classification of a proposed command line.
    - [Gate] (agent/gate.rs, session_dispatch.rs), [Approval]
      (agent/approval.rs): authorization and the binding of approvals.
    - [CommandLoop] (agent/command_loop.rs): which proposals repeat a previous
      one, with [f32] as the binary32 format of [SpecFloat].
    - [Evidence] (tools/result.rs, agentic/state.rs, changes.rs, planning.rs),
      [Facts] (agent/facts.rs, artifact.rs), [Events] (agent/event.rs,
      checkpoint.rs, metrics.rs): what a run knows and records.
    - [Cache] (agentic/optimization.rs), [Dispatch] (agent/dispatch.rs,
      command.rs, tool_error.rs): reads through the cache, batches, commands.
    - [Stores] (agent/repository.rs): each store a map behind a lock that may
      be poisoned; the classes [RunStoreContract] and [EventLogContract] state
      what the traits promise, and the in-memory stores are their instances.
    - [Control], [Controller] (agent/controller.rs, reasoner.rs, changeset.rs):
      [Ctl] is the [AgentController] record; [Req] is every call it makes
      outside itself, answered by an [Environment] that is a parameter; a
      method maps the state and the environment to its result, the new state
      and the log of requests with their answers.  Every method of the file is
      a definition of [Controller], under its own name.
    - [ControllerSpec], [ControllerProofs]: the abstract machine [cstep] that
      says what a controller may do and in which order, and the proof, in a
      small program logic, that every method refines it.
    - [Harness], [ControllerTheorems]: an in-memory environment, sessions of
      public operations, and what holds of all of them.
    - [FleetRun] (agent/fleet_target.rs, fleet_run.rs): targets, drafts with
      Kahn's algorithm, the state table of a fleet.  [FleetControl]
      (fleet_control.rs): its approvals and events.  [FleetCoordinator]
      (fleet_coordinator.rs): the scheduler with every operation.
      [FleetInvariant], [FleetTheorems]: what it keeps, and that it gets on.
      [FleetFacts] (fleet_facts.rs): bounded facts and their comparison.
    - [Process]: services behind a lock as data - sections that hold it, calls
      made without it - with one step, a run alone, and interleavings;
      [follows], a program logic for what an operation asked before it goes
      on, and [widen], an operation of one service inside a larger one.
      [History]: what holds of an interleaving and of the states it passed
      through; [Rely]: operations that rely on an invariant of the state and
      of all that any operation was answered; [Observe]: what an operation
      saw and did, moment by moment, each tied to a state the service was in.
    - [Execution] (tools/execution.rs, audit.rs): the tool service, its audit
      file and the race of a call with its deadline and its cancellation;
      [ExecutionTheorems] what holds of any interleaving of its calls.
    - [ChangeSets] (agentic/changes.rs): every operation of
      [ChangeSetService] as a [Process.proc].  [ChangeSetSafety]: the
      rely-guarantee condition [safe] that each of them meets; and
      [ChangeSetWarrant] the checks that each execution made before it writes.
      [ChangeSetTheorems], [ChangeSetFacts]: what that gives of any
      interleaving, the outcome of an execution, restarts and persistence.
    - [Utf8], [NumText]: lossy UTF-8 of [String::from_utf8_lossy], and the
      parsers and printers of integers and floats of the standard library.
    - [RemoteExec] (ssh/exec.rs): a remote command, how it is rendered for the
      shell and how its output is collected.  [Previews], [Sftp]
      (ssh/sftp.rs): image headers and text; every operation of the SFTP
      channel; [SftpTheorems].
    - [Operations] (operations/service.rs, domain/operations.rs): Docker, PM2,
      systemd, nginx and logs of a server, with [OperationsTheorems];
      [Dashboard] (dashboard/service.rs).
    - [Probes] (tools/change.rs, http.rs, network.rs, nginx.rs, service.rs,
      system.rs, incident.rs, registry.rs): what every native tool sends and
      reads, with [ProbesTheorems].
    - [Transfers] (transfers/queue.rs): the transfer queue, its tasks and calls
      as threads that interleave, with [TransfersTheorems].
    - [FleetExecution] (agentic/fleet.rs, fleet/model.rs, fleet/state.rs): the
      change sets of a fleet - drafts, approval, execution in batches, failure
      policies, verification, rollback, persistence - each operation a
      [Process.proc]; [FleetBound] what ties a run to its approval, section by
      section; [FleetExecutionTheorems], by [Process.traces], what a run alone
      may ask, after calls made one by one, and what its end says.  [FleetChanges]
      (agent/fleet_changeset.rs): the adapter that binds an execution to the
      exact fleet run it was drafted for; [FleetChangesTheorems].
    - [Incidents] (agentic/incident.rs, execute_reads of agentic/runtime.rs):
      investigation by a fixed plan of reads, diagnosis, comparison of targets,
      links to change sets, handover, closure and persistence;
      [IncidentsTheorems], by [Process.guarantees] and [Observe].
    - [Catalog] (storage/catalog_database.rs, groups/service.rs,
      profiles/service.rs): groups and profiles as transactions over two
      tables whose statements may each fail, the import of servers included;
      [CatalogTheorems].  [KnownHosts] (known_hosts/service.rs): host keys,
      from the attempt to its consumption; [KnownHostsTheorems].
    - [BastionFlow] (connection/flow.rs, connection/bastion/): a connection
      through a bastion, from the authentication to its handing over;
      [BastionFlowTheorems].
    - [PluginExpr] (plugins/workflow/ast.rs, validator.rs, expressions.rs):
      the definition of a workflow, its templates and conditions.
      [PluginPolicy] (plugins/permissions/, plugins/changeset/,
      workflow/actions/mod.rs): grants, the tool policy of a planned change,
      the change set of a plan, redaction.  [PluginWorkflow]
      (workflow/planner.rs, executor.rs): every operation of
      [WorkflowExecutor] as a [Process.proc].  [PluginTheorems].
    - [SqliteTables], [Sqlite] (agent/sqlite.rs, sqlite_history.rs): the tables
      of the durable store, a monad of statements that may each fail with
      their transactions, and every operation on runs, events, approvals,
      checkpoints and pending actions; [SqliteTheorems] relates them to the
      stores of [Stores], [SqliteFacts] says what they keep.  [SqliteFleet]:
      the fleets of the same file; [SqliteFleetTheorems], [SqliteFleetFacts].

    ** What the theorems show

    Of the controller, in any session and against any environment: nothing
    executes without its authorization already recorded; saves and events are
    in order; a drive ends within its budget; an unverified change blocks
    completion; with the clock set nothing panics; a new turn settles every
    old approval.  Of approvals: each validates exactly the action it was
    bound to, once.  Of decisions, tools, gate and policy: what is accepted is
    bounded and of its kind, the policy decides as its rules say and is never
    widened, power verbs are always critical.  Of fleets: a draft is accepted
    exactly when its stages are a well-formed acyclic plan; the scheduler keeps
    the plan, its bounds and its order, claims only what a granted approval
    covers, and reaches verification when nothing fails.  Of change sets, under
    any interleaving of calls: each is executed at most once, by one call, as
    the steps it had in a state where it was approved at that version, in order;
    in states of the service before, every step was permitted, every captured
    precondition read again, and the claim saved; no call panics; an execution ends as its reference says; a restart leaves
    metadata only.  Of the tool service: a tool runs only when policy and tool
    policy allow it and its record is saved, and a call ends with its record
    settled as its result says.  Of what reaches a host: the shell reads back
    exactly the arguments given; operations and tools send only their fixed
    scripts; a deletion stays below its root and its bound; a write replaces
    one file; a reported change has been verified, and a patch is undone by
    its reverse.  Of transfers, in any interleaving: two at a time, one for a
    job, under the flag that cancels it, along the table of states, and the
    queue drains.  Of the execution of a fleet, its calls made one by one: it asks
    only for the change sets that its approval binds to its pending targets, each
    read again and unchanged (what another caller may do in between is shown by
    [FleetExecutionTheorems.claimed_after_invalidation] and [executed_twice]);
    a success is earned by every target; a recovered run is inert; a binding
    validates exactly for its run.  Of incidents, in any interleaving: what
    counts as resolved has been verified; the record of one only grows, until it
    is dropped as the oldest; and what an investigation saves can be loaded
    exactly when its signals are short.  Of the catalog: groups and routes stay
    consistent whichever statements fail, but for a profile that an import makes
    its own jump host.  Of host keys: no connection goes
    through on a key that was not confirmed for its endpoint.  Of bastion
    flows: a provider is asked only with what it has answered, and to connect
    with what the flow held and the call confirmed.  Of plugins: an
    action runs only for a step of the plan taken, with its version and its
    permissions asked again, its change set only as the plan binds it; a
    template resolves once, the changes of a plan are all accounted for, and a
    report says, step by step of the plan, what was executed.  Of the durable
    store: for the writes that its columns and its redaction admit it refines
    the stores in memory; it keeps what an approval is bound to, reads back the
    fleets it was given, numbers their log without a gap, and recovery leaves
    no run active.  Of the data: redaction, the snapshot budget, the
    catalogue, the cache, the batch, facts, metrics and stores meet their
    contracts.  The [Example]s record where the code departs
    from its stated intent.

    ** Bounds, fuel and parameters

    Machine integers are [N] with saturation, clamping or a range test where
    the code has them ([sat_add32], [clamp32], [opt_filter]).  Five loops run
    on fuel: [validate_acyclic] on one visit for each stage, which is enough
    ([FleetRun.fleet_metadata_exact]); [drive] on [loop_fuel], one round for each the budget leaves and one
    to report its end ([ControllerTheorems.drive_loop_ends]); and
    [invalidate_pending] on fuel given by the caller, enough as soon as it
    exceeds the number of pending approvals
    ([ControllerTheorems.new_turn_settles_approvals]);
    [Incidents.trim_incidents] on the size of the map, of which each round
    removes one; and [PluginExpr.resolve_from] on the length of the text and
    one ([PluginTheorems.resolve_fuel_enough]).  The readers of image headers
    ([Previews.inspect_jpeg_from]) advance through the bytes in every round, and run on
    their number ([Previews.image_inspection_total]).  [chunks] is
    bounded by the length of its list, each chunk having an element
    ([FleetExecutionTheorems.fleet_batches_exact]).  [strip_echoes] is
    bounded by the length of its text
    ([CommandLoop.normalize_command_terminates]).  Random identifiers and
    clocks are answers of the environment, or arguments; a change set's
    identifier is only assumed not to have been drawn before
    ([ChangeSetTheorems.fresh_call]); the iteration order of a [HashMap] is a
    parameter; hypotheses on SHA-256 are about the two
    texts compared ([Approval.no_collision]).

    ** What is not modelled

    Pure input and output (SSH sessions, HTTP, the Tauri commands), the serde
    derivations (class [Serde]), opening, migrating and encrypting the
    databases, the debug-only traces and assertion of the controller, and the
    product areas that only carry the rest: the agent service that owns the
    controllers (agent/service.rs), the model providers, the bastion providers
    behind their interface, the copying of a transfer's files, tunnels, the
    registry of plugins with their signatures and the remote commands of their
    actions, deployment, cloud and settings.  The actions of a plugin are a
    parameter that says which capabilities an input needs, and are asked to
    plan and to execute.  A future that is dropped in the middle of a section
    is not modelled.  Futures of a batch are joined, so that [execute_reads]
    takes their results as a function of the calls.  The shell and the programs
    of a remote host are answers from outside: a script is the text that is
    sent.  The unbounded growth of a log that only the interface reads, as
    [polled_events], is as in the code. *)

From stdpp Require Export prelude gmap strings list pretty.
From Stdlib Require Export Lia ZArith NArith Sorting.Sorted.

(** ** Results

    Rust's [Result<T, E>], error type first so that [result E] is a monad. *)
Inductive result (E T : Type) : Type :=
  | Ok (t : T)
  | Err (e : E).
Arguments Ok {E T} t.
Arguments Err {E T} e.

#[export] Instance result_ret {E} : MRet (result E) := fun _ t => Ok t.
#[export] Instance result_bind {E} : MBind (result E) := fun _ _ f r =>
  match r with Ok t => f t | Err e => Err e end.
#[export] Instance result_fmap {E} : FMap (result E) := fun _ _ f r =>
  match r with Ok t => Ok (f t) | Err e => Err e end.
#[export] Instance result_eq_dec {E T} `{EqDecision E, EqDecision T} :
  EqDecision (result E T).
Proof. solve_decision. Defined.

Definition is_ok {E T} (r : result E T) : bool :=
  match r with Ok _ => true | Err _ => false end.

(** [Option::ok_or]. *)
Definition ok_or {E T} (o : option T) (e : E) : result E T :=
  match o with Some t => Ok t | None => Err e end.

(** [Option::filter]; also [u32::try_from(n).ok()] and the like, whose test is
    the range of the type. *)
Definition opt_filter {A} (p : A -> bool) (o : option A) : option A :=
  match o with Some a => if p a then Some a else None | None => None end.

(** [if c { return Err(e) }]. *)
Definition reject_if {E} (c : bool) (e : E) : result E unit :=
  if c then Err e else Ok tt.

(** [Iterator::map(f).collect::<Result<Vec<_>, _>>()]: stops at the first error. *)
Fixpoint try_map {E A B} (f : A -> result E B) (l : list A) : result E (list B) :=
  match l with
  | [] => Ok []
  | x :: rest =>
      match f x with
      | Err e => Err e
      | Ok y => match try_map f rest with
                | Err e => Err e
                | Ok ys => Ok (y :: ys)
                end
      end
  end.

Lemma bind_ok {E A B} (m : result E A) (k : A -> result E B) b :
  (m ≫= k) = Ok b <-> exists a, m = Ok a /\ k a = Ok b.
Proof.
  destruct m as [a|e]; cbn; split.
  - intros H. by exists a.
  - intros (a' & [= <-] & H). done.
  - done.
  - intros (a' & ? & ?). done.
Qed.

Lemma fmap_ok {E A B} (f : A -> B) (m : result E A) b :
  (f <$> m) = Ok b <-> exists a, m = Ok a /\ b = f a.
Proof. destruct m; cbn; naive_solver. Qed.

Lemma ok_or_ok {E A} (o : option A) (e : E) a : ok_or o e = Ok a <-> o = Some a.
Proof. destruct o; cbn; naive_solver. Qed.

Lemma opt_filter_some {A} (p : A -> bool) o a :
  opt_filter p o = Some a <-> o = Some a /\ p a = true.
Proof.
  destruct o as [x|]; cbn; [|naive_solver]. split.
  - destruct (p x) eqn:E; [|done]. by intros [= <-].
  - by intros [[= ->] ->].
Qed.

Lemma reject_if_ok {E} c (e : E) u : reject_if c e = Ok u <-> c = false.
Proof. destruct c, u; cbn; naive_solver. Qed.

Lemma try_map_ok {E A B} (f : A -> result E B) l ys :
  try_map f l = Ok ys <-> Forall2 (fun x y => f x = Ok y) l ys.
Proof.
  revert ys. induction l as [|x l IH]; intros ys; cbn.
  - split; [intros [= <-]; constructor | intros H; by inversion H].
  - split.
    + destruct (f x) eqn:Hf; [|done].
      destruct (try_map f l) eqn:Hl; [|done]. intros [= <-].
      constructor; [done|]. by apply IH.
    + intros H. inversion H as [|? y ? ys' Hf Hr]; subst. rewrite Hf.
      apply IH in Hr. by rewrite Hr.
Qed.

(** ** Machine integers

    Unsigned Rust integers are [N]; the saturating operations of [u32] and
    [u64] are written out. *)
Definition U32_MAX : N := 4294967295.
Definition U64_MAX : N := 18446744073709551615.

Definition sat_add (max a b : N) : N := N.min (a + b) max.
Definition sat_add32 : N -> N -> N := sat_add U32_MAX.
Definition sat_add64 : N -> N -> N := sat_add U64_MAX.
(** [saturating_sub] is truncated subtraction, which is [N.sub]. *)
Definition sat_sub (a b : N) : N := (a - b)%N.

(** [u32::try_from(n).unwrap_or(u32::MAX)]. *)
Definition clamp32 (n : N) : N := N.min n U32_MAX.

Definition list_lenN {A} (l : list A) : N := N.of_nat (length l).

Lemma sat_add_le max a b : (sat_add max a b <= max)%N.
Proof. unfold sat_add. lia. Qed.

Lemma sat_add_exact max a b : (a + b <= max)%N -> sat_add max a b = (a + b)%N.
Proof. unfold sat_add. lia. Qed.

(** ** Stable sorts: [slice::sort_by] and [slice::sort_by_key] *)
Lemma StronglySorted_weaken {A} (R S : A -> A -> Prop) l :
  (forall a b, R a b -> S a b) -> StronglySorted R l -> StronglySorted S l.
Proof.
  intros H. induction 1; constructor; [done|]. eapply Forall_impl; [done|]. auto.
Qed.

Section SortBy.
Context {A : Type} (leb : A -> A -> bool).

Fixpoint insert_by (x : A) (l : list A) : list A :=
  match l with
  | [] => [x]
  | y :: rest => if leb x y then x :: l else y :: insert_by x rest
  end.

Definition sort_by (l : list A) : list A := foldr insert_by [] l.

Lemma insert_by_perm x l : insert_by x l ≡ₚ x :: l.
Proof.
  induction l as [|y l IH]; cbn; [done|]. case_match; [done|].
  rewrite IH. apply Permutation_swap.
Qed.

Lemma sort_by_perm l : sort_by l ≡ₚ l.
Proof. induction l as [|x l IH]; cbn; [done|]. by rewrite insert_by_perm, IH. Qed.

Hypothesis leb_total : forall a b, leb a b = false -> leb b a = true.
Hypothesis leb_trans : forall a b c, leb a b = true -> leb b c = true -> leb a c = true.

Lemma insert_by_sorted x l :
  StronglySorted (fun a b => leb a b = true) l ->
  StronglySorted (fun a b => leb a b = true) (insert_by x l).
Proof.
  induction 1 as [|y l Hl IH Hy]; cbn; [repeat constructor|].
  destruct (leb x y) eqn:E.
  - constructor; [by constructor|]. constructor; [done|].
    eapply Forall_impl; [done|]. cbn. eauto.
  - constructor; [done|]. rewrite insert_by_perm. constructor; [auto|done].
Qed.

Lemma sort_by_sorted l : StronglySorted (fun a b => leb a b = true) (sort_by l).
Proof. induction l; cbn; [constructor|]. by apply insert_by_sorted. Qed.
End SortBy.

Section SortByKey.
Context {A : Type} (key : A -> N).

Definition sort_by_key : list A -> list A := sort_by (fun a b => key a <=? key b)%N.

Lemma sort_by_key_perm l : sort_by_key l ≡ₚ l.
Proof. apply sort_by_perm. Qed.

Lemma sort_by_key_sorted l : StronglySorted (fun a b => key a <= key b)%N (sort_by_key l).
Proof.
  eapply StronglySorted_weaken; [intros a b; apply N.leb_le|].
  apply sort_by_sorted; intros *; rewrite ?N.leb_gt, ?N.leb_le; lia.
Qed.

(** Stability: elements of one key keep their order. *)
Lemma insert_by_key_filter x l k :
  StronglySorted (fun a b => key a <= key b)%N l ->
  filter (fun y => key y = k) (insert_by (fun a b => key a <=? key b)%N x l)
  = filter (fun y => key y = k) (x :: l).
Proof.
  induction 1 as [|y l Hl IH Hy]; [done|]. cbn [insert_by].
  destruct (key x <=? key y)%N eqn:E; [done|]. apply N.leb_gt in E.
  rewrite filter_cons, IH, !filter_cons.
  repeat case_decide; by try lia.
Qed.

Lemma sort_by_key_stable l k :
  filter (fun y => key y = k) (sort_by_key l) = filter (fun y => key y = k) l.
Proof.
  induction l as [|x l IH]; [done|].
  change (sort_by_key (x :: l)) with (insert_by (fun a b => key a <=? key b)%N x (sort_by_key l)).
  rewrite insert_by_key_filter by apply sort_by_key_sorted.
  rewrite !filter_cons. case_decide; [f_equal|]; done.
Qed.
End SortByKey.

(** ** [Iterator::min_by_key] keeps the first minimum, [max_by_key] the last maximum *)
Section Extremes.
Context {A : Type} (key : A -> N).

Fixpoint min_by_key (l : list A) : option A :=
  match l with
  | [] => None
  | x :: rest =>
      match min_by_key rest with
      | Some y => if (key x <=? key y)%N then Some x else Some y
      | None => Some x
      end
  end.

Fixpoint max_by_key (l : list A) : option A :=
  match l with
  | [] => None
  | x :: rest =>
      match max_by_key rest with
      | Some y => if (key y <? key x)%N then Some x else Some y
      | None => Some x
      end
  end.

Lemma min_by_key_none l : min_by_key l = None <-> l = [].
Proof. destruct l; cbn; [done|]. repeat case_match; done. Qed.

Lemma max_by_key_none l : max_by_key l = None <-> l = [].
Proof. destruct l; cbn; [done|]. repeat case_match; done. Qed.

Lemma min_by_key_some l x :
  min_by_key l = Some x -> x ∈ l /\ forall y, y ∈ l -> (key x <= key y)%N.
Proof.
  revert x. induction l as [|a l IH]; intros x; cbn; [done|].
  destruct (min_by_key l) as [m|] eqn:E.
  - destruct (IH m eq_refl) as [Hm Hmin].
    destruct (key a <=? key m)%N eqn:L; intros [= <-];
      rewrite ?N.leb_le, ?N.leb_gt in L; (split; [set_solver|]);
      intros y [->|Hy]%elem_of_cons; try lia; specialize (Hmin y Hy); lia.
  - intros [= <-]. apply min_by_key_none in E as ->. split; [set_solver|].
    intros y [->|Hy]%elem_of_cons; [lia|]. by apply elem_of_nil in Hy.
Qed.

Lemma max_by_key_some l x :
  max_by_key l = Some x -> x ∈ l /\ forall y, y ∈ l -> (key y <= key x)%N.
Proof.
  revert x. induction l as [|a l IH]; intros x; cbn; [done|].
  destruct (max_by_key l) as [m|] eqn:E.
  - destruct (IH m eq_refl) as [Hm Hmax].
    destruct (key m <? key a)%N eqn:L; intros [= <-];
      rewrite ?N.ltb_lt, ?N.ltb_ge in L; (split; [set_solver|]);
      intros y [->|Hy]%elem_of_cons; try lia; specialize (Hmax y Hy); lia.
  - intros [= <-]. apply max_by_key_none in E as ->. split; [set_solver|].
    intros y [->|Hy]%elem_of_cons; [lia|]. by apply elem_of_nil in Hy.
Qed.
End Extremes.

Lemma StronglySorted_sublist {A} (R : A -> A -> Prop) l1 l2 :
  l1 `sublist_of` l2 -> StronglySorted R l2 -> StronglySorted R l1.
Proof.
  induction 1 as [|x l1 l2 Hs IH|x l1 l2 Hs IH]; intros HS; [done| |].
  - inversion HS as [|? ? H1 H2]; subst. constructor; [by apply IH|].
    rewrite Forall_forall in *. intros y Hy. apply H2. by eapply elem_of_sublist.
  - inversion HS; subst. by apply IH.
Qed.

(** ** Sums of [N] *)
Definition sumN (l : list N) : N := foldr N.add 0%N l.

(** [.sum::<u32>()] and [u32] addition without overflow checks. *)
Definition wrap32 (n : N) : N := (n mod 4294967296)%N.

Lemma sumN_app a b : sumN (a ++ b) = (sumN a + sumN b)%N.
Proof. induction a as [|x a IH]; cbn [app sumN foldr]; [done|]. fold (sumN (a ++ b)) (sumN a). lia. Qed.

Lemma wrap32_small n : (n <= U32_MAX)%N -> wrap32 n = n.
Proof. unfold wrap32, U32_MAX. intros H. apply N.mod_small. lia. Qed.

(** ** Boolean reflection *)
Create HintDb runory.

Lemma Forallb_forall {A} (f : A -> bool) l :
  forallb f l = true <-> (forall x, x ∈ l -> f x = true).
Proof.
  rewrite forallb_forall. by setoid_rewrite list_elem_of_In.
Qed.

Lemma Existsb_exists {A} (f : A -> bool) l :
  existsb f l = true <-> (exists x, x ∈ l /\ f x = true).
Proof.
  rewrite existsb_exists. by setoid_rewrite list_elem_of_In.
Qed.

Lemma Existsb_false {A} (f : A -> bool) l :
  existsb f l = false <-> (forall x, x ∈ l -> f x = false).
Proof.
  rewrite <- not_true_iff_false, Existsb_exists. split.
  - intros H x Hx. destruct (f x) eqn:E; [|done]. exfalso. eauto.
  - intros H (x & Hx & E). rewrite H in E; done.
Qed.

(** Splits the conjunctions and disjunctions of boolean tests in the context
    into propositions. *)
Ltac breflect :=
  repeat match goal with
  | H : andb _ _ = true |- _ => apply andb_true_iff in H;
      let H1 := fresh H in let H2 := fresh H in destruct H as [H1 H2]
  | H : orb _ _ = false |- _ => apply orb_false_iff in H;
      let H1 := fresh H in let H2 := fresh H in destruct H as [H1 H2]
  | H : negb _ = true |- _ => apply negb_true_iff in H
  | H : negb _ = false |- _ => apply negb_false_iff in H
  | H : bool_decide _ = true |- _ => apply bool_decide_eq_true in H
  | H : bool_decide _ = false |- _ => apply bool_decide_eq_false in H
  | H : N.leb _ _ = true |- _ => apply N.leb_le in H
  | H : N.leb _ _ = false |- _ => apply N.leb_gt in H
  | H : N.ltb _ _ = true |- _ => apply N.ltb_lt in H
  | H : N.ltb _ _ = false |- _ => apply N.ltb_ge in H
  | H : N.eqb _ _ = true |- _ => apply N.eqb_eq in H
  | H : N.eqb _ _ = false |- _ => apply N.eqb_neq in H
  end.

(** Breaks a chain of early returns that ended in [Ok]. *)
Ltac inv_ok :=
  repeat match goal with
  | H : (_ ≫= _) = Ok _ |- _ =>
      apply bind_ok in H; destruct H as (? & ? & H)
  | H : (_ <$> _) = Ok _ |- _ =>
      apply fmap_ok in H; destruct H as (? & H & ->)
  | H : ok_or _ _ = Ok _ |- _ => apply ok_or_ok in H
  | H : reject_if _ _ = Ok _ |- _ => apply reject_if_ok in H
  | H : Ok _ = Ok _ |- _ => injection H as H
  | H : Err _ = Ok _ |- _ => discriminate H
  | H : mret _ = Ok _ |- _ => injection H as H
  end.

(** Cases on every [if]/[match] scrutinee of hypothesis [H]. *)
Ltac break_in H :=
  repeat match type of H with
  | context [match ?x with _ => _ end] => destruct x eqn:?
  end.

(** The last element of a sorted list is above the others. *)
Lemma StronglySorted_last {A} (R : A -> A -> Prop) l x y :
  StronglySorted R l -> last l = Some x -> y ∈ l -> y = x \/ R y x.
Proof.
  induction 1 as [|a l Hl IH Ha]; [done|]. destruct l as [|b l].
  - cbn. intros [= ->] H. left. by apply list_elem_of_singleton in H.
  - rewrite last_cons_cons. intros Hx [->|Hy]%elem_of_cons; [|by apply IH].
    right. rewrite Forall_forall in Ha. apply Ha. apply last_Some_elem_of, Hx.
Qed.

Lemma insert_by_head {A} (leb : A -> A -> bool) x l :
  Forall (fun y => leb x y = true) l -> insert_by leb x l = x :: l.
Proof. destruct 1 as [|y l H]; cbn; [done|]. by rewrite H. Qed.

Lemma sort_by_id {A} (leb : A -> A -> bool) l :
  StronglySorted (fun a b => leb a b = true) l -> sort_by leb l = l.
Proof.
  induction 1 as [|x l Hl IH Hx]; [done|]. cbn [sort_by foldr]. fold (sort_by leb l).
  rewrite IH. by apply insert_by_head.
Qed.

(** Membership in the boolean list operations of the standard library. *)
Lemma elem_of_filterb {A} (f : A -> bool) l x : x ∈ List.filter f l <-> x ∈ l /\ f x = true.
Proof. by rewrite !list_elem_of_In, filter_In. Qed.

Lemma find_some_b {A} (f : A -> bool) l x : find f l = Some x -> x ∈ l /\ f x = true.
Proof. rewrite list_elem_of_In. apply find_some. Qed.

Lemma find_none_b {A} (f : A -> bool) l : find f l = None <-> forall x, x ∈ l -> f x = false.
Proof.
  split; [intros H x; rewrite list_elem_of_In; by apply find_none|].
  induction l as [|a l IH]; [done|]. intros H. cbn. rewrite H by set_solver. apply IH. set_solver.
Qed.
