(* ===== verification/Str.v ===== *)
(** * Rust strings

    A [&str] is the list of its Unicode scalar values; [blen] is [str::len]
    (the UTF-8 byte length).  The operations are those of the Rust standard
    library that the modelled code calls; each is named after its method.
    Offsets into a string that the source computes on bytes are always at ASCII
    delimiters, so that they are list splits here. *)
From S2P Require Import Prelude.
From Stdlib Require Strings.Ascii Strings.String.

Abbreviation chr := N (only parsing).
Abbreviation str := (list N) (only parsing).

(** ** Literals: a Rocq string literal holds UTF-8 bytes *)
Fixpoint utf8_decode (bs : list N) : str :=
  match bs with
  | [] => []
  | b :: t =>
      if (b <? 128)%N then b :: utf8_decode t else
      if (b <? 224)%N then
        match t with
        | b1 :: t1 => ((b - 192) * 64 + (b1 - 128))%N :: utf8_decode t1
        | [] => []
        end else
      if (b <? 240)%N then
        match t with
        | b1 :: b2 :: t2 =>
            ((b - 224) * 4096 + (b1 - 128) * 64 + (b2 - 128))%N :: utf8_decode t2
        | _ => []
        end
      else
        match t with
        | b1 :: b2 :: b3 :: t3 =>
            ((b - 240) * 262144 + (b1 - 128) * 4096 + (b2 - 128) * 64 + (b3 - 128))%N
              :: utf8_decode t3
        | _ => []
        end
  end.

Definition lit (s : string) : str :=
  utf8_decode (map Ascii.N_of_ascii (String.list_ascii_of_string s)).
Arguments lit s%_string : simpl never.

(** ** Characters *)
Definition utf8_len (c : chr) : N :=
  if (c <? 128)%N then 1 else if (c <? 2048)%N then 2
  else if (c <? 65536)%N then 3 else 4.

(** [str::len]: bytes. *)
Fixpoint blen (s : str) : N :=
  match s with [] => 0%N | c :: t => (utf8_len c + blen t)%N end.

Definition between (lo hi c : N) : bool := (lo <=? c)%N && (c <=? hi)%N.

(** [char::is_whitespace]: the Unicode White_Space property. *)
Definition is_whitespace (c : chr) : bool :=
  between 9 13 c || (c =? 32)%N || (c =? 133)%N || (c =? 160)%N || (c =? 5760)%N
  || between 8192 8202 c || (c =? 8232)%N || (c =? 8233)%N || (c =? 8239)%N
  || (c =? 8287)%N || (c =? 12288)%N.

(** [char::is_control]: general category Cc. *)
Definition is_control (c : chr) : bool := between 0 31 c || between 127 159 c.

Definition is_ascii_digit (c : chr) : bool := between 48 57 c.
Definition is_ascii_uppercase (c : chr) : bool := between 65 90 c.
Definition is_ascii_lowercase (c : chr) : bool := between 97 122 c.
Definition is_ascii_alphanumeric (c : chr) : bool :=
  is_ascii_digit c || is_ascii_uppercase c || is_ascii_lowercase c.
Definition is_ascii_hexdigit (c : chr) : bool :=
  is_ascii_digit c || between 65 70 c || between 97 102 c.

Definition to_lower (c : chr) : chr := if is_ascii_uppercase c then (c + 32)%N else c.
Definition to_upper (c : chr) : chr := if is_ascii_lowercase c then (c - 32)%N else c.
Definition to_ascii_lowercase (s : str) : str := map to_lower s.
Definition to_ascii_uppercase (s : str) : str := map to_upper s.

Definition str_eqb (a b : str) : bool := bool_decide (a = b).
Definition eq_ignore_ascii_case (a b : str) : bool :=
  str_eqb (to_ascii_lowercase a) (to_ascii_lowercase b).
Definition is_empty (s : str) : bool := match s with [] => true | _ => false end.

(** [needles.contains(&s)] on a slice of strings. *)
Definition str_in (l : list str) (s : str) : bool := existsb (str_eqb s) l.

(** ** Prefixes, substrings *)
Fixpoint starts_with (s p : str) {struct p} : bool :=
  match p, s with
  | [], _ => true
  | _ :: _, [] => false
  | x :: p', y :: s' => (x =? y)%N && starts_with s' p'
  end.

Fixpoint contains (s needle : str) : bool :=
  starts_with s needle ||
  match s with [] => false | _ :: t => contains t needle end.

Definition contains_char (s : str) (c : chr) : bool := existsb (N.eqb c) s.

Definition strip_prefix (s p : str) : option str :=
  if starts_with s p then Some (drop (length p) s) else None.

(** ** Trimming *)
Fixpoint drop_while (p : chr -> bool) (s : str) : str :=
  match s with
  | [] => []
  | c :: t => if p c then drop_while p t else s
  end.

Definition trim_start_matches (p : chr -> bool) (s : str) : str := drop_while p s.
Definition trim_end_matches (p : chr -> bool) (s : str) : str :=
  rev (drop_while p (rev s)).
Definition trim_matches (p : chr -> bool) (s : str) : str :=
  trim_end_matches p (trim_start_matches p s).
Definition trim_start : str -> str := trim_start_matches is_whitespace.
Definition trim : str -> str := trim_matches is_whitespace.

(** ** Splitting *)

(** [s.split(pred)]: one piece more than there are separators. *)
Fixpoint split (p : chr -> bool) (s : str) : list str :=
  match s with
  | [] => [[]]
  | c :: t =>
      match split p t with
      | piece :: rest => if p c then [] :: piece :: rest else (c :: piece) :: rest
      | [] => [[c]]
      end
  end.

Definition split_whitespace (s : str) : list str :=
  filter (fun p => is_empty p = false) (split is_whitespace s).

(** [s.split_once(pred)]. *)
Fixpoint split_once (p : chr -> bool) (s : str) : option (str * str) :=
  match s with
  | [] => None
  | c :: t => if p c then Some ([], t) else
              match split_once p t with
              | Some (a, b) => Some (c :: a, b)
              | None => None
              end
  end.

(** [s.rsplit_once(char)]. *)
Definition rsplit_once (c : chr) (s : str) : option (str * str) :=
  match split_once (N.eqb c) (rev s) with
  | Some (a, b) => Some (rev b, rev a)
  | None => None
  end.

(** [str::lines]: a final newline opens no line, and each ["\r\n"] is one ending. *)
Definition strip_cr (s : str) : str :=
  match rev s with
  | 13%N :: r => rev r
  | _ => s
  end.

Fixpoint lines_of (pieces : list str) : list str :=
  match pieces with
  | [] => []
  | [last] => if is_empty last then [] else [last]
  | l :: rest => strip_cr l :: lines_of rest
  end.

Definition lines (s : str) : list str := lines_of (split (N.eqb 10) s).

(** [[..].join(sep)]. *)
Fixpoint join (sep : str) (l : list str) : str :=
  match l with
  | [] => []
  | [x] => x
  | x :: rest => x ++ sep ++ join sep rest
  end.

(** [s.replace(from, to)] for a non-empty [from]. *)
Fixpoint replace_go (from to : str) (skip : nat) (s : str) : str :=
  match s with
  | [] => []
  | c :: t =>
      match skip with
      | S k => replace_go from to k t
      | O => if starts_with s from then to ++ replace_go from to (length from - 1) t
             else c :: replace_go from to O t
      end
  end.
Definition replace (s from to : str) : str := replace_go from to 0 s.

(** [str::cmp]: UTF-8 orders texts as their code points do. *)
Fixpoint str_leb (a b : str) : bool :=
  match a, b with
  | [], _ => true
  | _ :: _, [] => false
  | x :: a', y :: b' => (x <? y)%N || (x =? y)%N && str_leb a' b'
  end.

(** [format!("{byte:02x}")] over the bytes of a digest. *)
Definition hex_digit (n : N) : chr := if (n <? 10)%N then (48 + n)%N else (87 + n)%N.
Definition hex_byte (b : N) : str := [hex_digit (b / 16); hex_digit (b mod 16)].
Definition hex_bytes (bs : list N) : str := concat (map hex_byte bs).

(** [n.to_string()] on an unsigned integer. *)
Definition dec (n : N) : str := lit (pretty n).

Definition contains_any (value : str) (needles : list str) : bool :=
  existsb (contains value) needles.
Definition starts_with_any (value : str) (prefixes : list str) : bool :=
  existsb (starts_with value) prefixes.

(** The longest prefix of at most [max] bytes that ends at a character
    boundary: [&s[..end]] after [while !s.is_char_boundary(end) { end -= 1 }]. *)
Fixpoint take_bytes (max : N) (s : str) : str :=
  match s with
  | [] => []
  | c :: t => if (utf8_len c <=? max)%N then c :: take_bytes (max - utf8_len c) t else []
  end.

(** ** Lemmas *)
Lemma str_eqb_eq a b : str_eqb a b = true <-> a = b.
Proof. apply bool_decide_eq_true. Qed.

Lemma str_eqb_refl a : str_eqb a a = true.
Proof. by apply str_eqb_eq. Qed.

Lemma utf8_len_pos c : (1 <= utf8_len c)%N.
Proof. unfold utf8_len. repeat case_match; lia. Qed.

Lemma blen_app a b : blen (a ++ b) = (blen a + blen b)%N.
Proof. induction a as [|c a IH]; cbn [app blen]; lia. Qed.

Lemma blen_length s : (N.of_nat (length s) <= blen s)%N.
Proof.
  induction s as [|c s IH]; cbn [length blen]; [done|].
  pose proof (utf8_len_pos c). lia.
Qed.

Lemma blen_zero s : blen s = 0%N <-> s = [].
Proof.
  split; [|by intros ->]. destruct s as [|c s]; [done|]. cbn [blen].
  pose proof (utf8_len_pos c). lia.
Qed.

Lemma is_empty_true s : is_empty s = true <-> s = [].
Proof. by destruct s. Qed.

Lemma is_empty_false s : is_empty s = false <-> s <> [].
Proof. by destruct s. Qed.

Lemma take_bytes_le max s : (blen (take_bytes max s) <= max)%N.
Proof.
  revert max. induction s as [|c s IH]; intros max; cbn [take_bytes blen]; [lia|].
  destruct (utf8_len c <=? max)%N eqn:E; cbn [blen]; [|lia].
  apply N.leb_le in E. specialize (IH (max - utf8_len c)%N).
  lia.
Qed.

Lemma take_bytes_prefix max s : take_bytes max s `prefix_of` s.
Proof.
  revert max. induction s as [|c s IH]; intros max; cbn; [done|].
  case_match; [by apply prefix_cons, IH | apply prefix_nil].
Qed.

Lemma starts_with_app p s : starts_with (p ++ s) p = true.
Proof. induction p as [|x p IH]; cbn; [done|]. by rewrite N.eqb_refl, IH. Qed.

Lemma starts_with_spec s p : starts_with s p = true <-> exists t, s = p ++ t.
Proof.
  split; [|intros (t & ->); apply starts_with_app].
  revert s. induction p as [|x p IH]; intros s; cbn; [by exists s|].
  destruct s as [|y s]; [done|]. intros H. breflect. subst.
  destruct (IH s) as (t & ->); [done|]. by exists t.
Qed.

Lemma contains_spec s n : contains s n = true <-> exists a b, s = a ++ n ++ b.
Proof.
  split.
  - induction s as [|c s IH]; cbn; rewrite orb_true_iff; intros [H|H]; try done.
    + apply starts_with_spec in H as (t & ->). by exists [], t.
    + apply starts_with_spec in H as (t & ->). by exists [], t.
    + destruct (IH H) as (a & b & ->). by exists (c :: a), b.
  - intros (a & b & ->). induction a as [|c a IH].
    + cbn. destruct (n ++ b) eqn:E.
      * cbn. by rewrite <- E, starts_with_app.
      * cbn [contains]. by rewrite <- E, starts_with_app.
    + cbn. by rewrite IH, orb_true_r.
Qed.

Lemma contains_app_l a s n : contains s n = true -> contains (a ++ s) n = true.
Proof.
  rewrite !contains_spec. intros (x & y & ->). exists (a ++ x), y. by rewrite (assoc_L (++)).
Qed.

Lemma contains_app_r s b n : contains s n = true -> contains (s ++ b) n = true.
Proof.
  rewrite !contains_spec. intros (x & y & ->). exists x, (y ++ b). by rewrite <- !(assoc_L (++)).
Qed.

Lemma drop_while_suffix p s : exists pre, s = pre ++ drop_while p s.
Proof.
  induction s as [|c s IH]; cbn; [by exists []|]. case_match; [|by exists []].
  destruct IH as (pre & IH). exists (c :: pre). by rewrite IH at 1.
Qed.

Lemma drop_while_idem p s : drop_while p (drop_while p s) = drop_while p s.
Proof.
  induction s as [|c s IH]; cbn; [done|]. destruct (p c) eqn:E; [done|].
  cbn. by rewrite E.
Qed.

Lemma drop_while_head p s c t : drop_while p s = c :: t -> p c = false.
Proof.
  induction s as [|x s IH]; cbn; [done|]. destruct (p x) eqn:E; [done|]. congruence.
Qed.

Lemma drop_while_none p s : (forall c, c ∈ s -> p c = false) -> drop_while p s = s.
Proof. destruct s as [|c s]; cbn; [done|]. intros H. rewrite H; [done|set_solver]. Qed.

(** A trimmed string neither begins nor ends with a dropped character. *)
Lemma trim_end_head p s c t :
  trim_end_matches p s = c :: t -> exists t', s = c :: t'.
Proof.
  unfold trim_end_matches. intros H.
  destruct (drop_while_suffix p (rev s)) as (pre & E).
  apply (f_equal (@rev _)) in E. rewrite rev_involutive, rev_app_distr, H in E.
  by exists (t ++ rev pre).
Qed.

Lemma trim_end_idem p s : trim_end_matches p (trim_end_matches p s) = trim_end_matches p s.
Proof. unfold trim_end_matches. by rewrite rev_involutive, drop_while_idem. Qed.

Lemma trim_matches_idem p s : trim_matches p (trim_matches p s) = trim_matches p s.
Proof.
  unfold trim_matches, trim_start_matches.
  assert (drop_while p (trim_end_matches p (drop_while p s)) =
          trim_end_matches p (drop_while p s)) as ->; [|apply trim_end_idem].
  destruct (trim_end_matches p (drop_while p s)) as [|c t] eqn:E; [done|].
  pose proof E as E'. apply trim_end_head in E' as (t' & E').
  cbn. by rewrite (drop_while_head _ _ _ _ E').
Qed.

Lemma trim_idem s : trim (trim s) = trim s.
Proof. apply trim_matches_idem. Qed.

Lemma trim_no_whitespace s : (forall c, c ∈ s -> is_whitespace c = false) -> trim s = s.
Proof.
  intros H. unfold trim, trim_matches, trim_start_matches, trim_end_matches.
  rewrite (drop_while_none _ s), drop_while_none, rev_involutive; [done| |done].
  intros c Hc%list_elem_of_In. apply in_rev, list_elem_of_In in Hc. by apply H.
Qed.

Lemma blen_lowercase s : blen (to_ascii_lowercase s) = blen s.
Proof.
  induction s as [|c s IH]; [done|]. cbn. fold (to_ascii_lowercase s). rewrite IH. f_equal.
  unfold to_lower, utf8_len, is_ascii_uppercase, between.
  destruct ((65 <=? c)%N && (c <=? 90)%N) eqn:E; [|done].
  repeat case_match; breflect; lia.
Qed.

Lemma trim_matches_infix p s : exists a b, s = a ++ trim_matches p s ++ b.
Proof.
  unfold trim_matches, trim_start_matches, trim_end_matches.
  destruct (drop_while_suffix p s) as (a & E1).
  destruct (drop_while_suffix p (rev (drop_while p s))) as (b & E2).
  apply (f_equal (@rev _)) in E2. rewrite rev_involutive, rev_app_distr in E2.
  exists a, (rev b). by rewrite <- E2, <- E1.
Qed.

Lemma trim_length s : (length (trim s) <= length s)%nat.
Proof.
  destruct (trim_matches_infix is_whitespace s) as (a & b & E).
  apply (f_equal length) in E. rewrite !length_app in E. unfold trim. lia.
Qed.

Lemma trim_blen s : (blen (trim s) <= blen s)%N.
Proof.
  destruct (trim_matches_infix is_whitespace s) as (a & b & E).
  apply (f_equal blen) in E. rewrite !blen_app in E. unfold trim. lia.
Qed.

Lemma elem_of_trim c s : c ∈ trim s -> c ∈ s.
Proof.
  intros H. destruct (trim_matches_infix is_whitespace s) as (a & b & E).
  rewrite E. unfold trim in H. set_solver.
Qed.

Lemma split_nonempty p s : split p s <> [].
Proof. destruct s as [|c s]; cbn; [done|]. destruct (split p s); [done|]. by case_match. Qed.

(** The first piece of a split holds no separator. *)
Lemma split_head p s piece rest :
  split p s = piece :: rest -> forall c, c ∈ piece -> p c = false.
Proof.
  revert piece rest. induction s as [|x s IH]; intros piece rest; cbn.
  - intros [= <- <-]. set_solver.
  - destruct (split p s) as [|q r] eqn:E; [by destruct (split_nonempty p s)|].
    destruct (p x) eqn:Ex; intros [= <- <-] c Hc; [set_solver|].
    apply elem_of_cons in Hc as [->|Hc]; [done|]. by eapply IH.
Qed.

Lemma split_none p s : (forall c, c ∈ s -> p c = false) -> split p s = [s].
Proof.
  induction s as [|x s IH]; cbn; [done|]. intros H.
  rewrite IH by set_solver. by rewrite H by set_solver.
Qed.

(** What follows the first separator does not change the first piece. *)
Lemma split_sep p a c b :
  (forall x, x ∈ a -> p x = false) -> p c = true -> split p (a ++ c :: b) = a :: split p b.
Proof.
  intros Ha Hc. induction a as [|x a IH]; cbn.
  - destruct (split p b) eqn:E; [by destruct (split_nonempty p b)|]. by rewrite Hc.
  - rewrite IH by set_solver. by rewrite Ha by set_solver.
Qed.

Lemma lines_none s :
  s <> [] -> (forall c, c ∈ s -> c <> 10%N) -> lines s = [s].
Proof.
  intros Hne H. unfold lines. rewrite split_none.
  - cbn. by destruct s.
  - intros c Hc. apply N.eqb_neq. intros <-. by eapply H.
Qed.

Lemma split_cons p c t :
  exists piece rest, split p t = piece :: rest /\
    split p (c :: t) = if p c then [] :: piece :: rest else (c :: piece) :: rest.
Proof.
  cbn. destruct (split p t) as [|piece rest] eqn:E; [by destruct (split_nonempty p t)|].
  by exists piece, rest.
Qed.

Lemma split_two p s c : c ∈ s -> p c = true -> (2 <= length (split p s))%nat.
Proof.
  intros Hc Hp. induction s as [|x s IH]; [by apply elem_of_nil in Hc|].
  destruct (split_cons p x s) as (piece & rest & E & ->).
  apply elem_of_cons in Hc as [->|Hc]; [rewrite Hp; cbn; lia|].
  specialize (IH Hc). rewrite E in IH. destruct (p x); cbn in *; lia.
Qed.

Lemma split_last_empty p s :
  last (split p s) = Some [] -> s = [] \/ exists c, last s = Some c /\ p c = true.
Proof.
  induction s as [|x s IH]; [by left|]. right.
  destruct (split_cons p x s) as (piece & rest & E & Es). rewrite Es in H. rewrite E in IH.
  destruct (p x) eqn:Hp.
  - change (last (piece :: rest) = Some []) in H.
    destruct (IH H) as [->|(c & Hc & Hpc)]; [by exists x|].
    exists c. split; [|done]. by rewrite last_cons, Hc.
  - destruct rest as [|r rest]; [done|]. change (last (r :: rest) = Some []) in H.
    destruct (IH H) as [->|(c & Hc & Hpc)]; [done|].
    exists c. split; [|done]. by rewrite last_cons, Hc.
Qed.

Lemma lines_of_length ps : last ps <> Some [] -> length (lines_of ps) = length ps.
Proof.
  induction ps as [|l [|q ps] IH]; [done| |].
  - cbn. by destruct l.
  - intros H. change (S (length (lines_of (q :: ps))) = S (length (q :: ps))).
    f_equal. by apply IH.
Qed.

(** A text that does not end in a newline and is one line holds no newline. *)
Lemma lines_count_one s :
  last s <> Some 10%N -> length (lines s) = 1%nat -> 10%N ∉ s.
Proof.
  intros Hl H1 Hin. pose proof (split_two (N.eqb 10) s 10 Hin eq_refl) as H2.
  unfold lines in H1. rewrite lines_of_length in H1; [lia|]. intros Hlast.
  apply split_last_empty in Hlast as [-> | (c & Hc & E)]; [by apply elem_of_nil in Hin|].
  apply N.eqb_eq in E. by subst.
Qed.

(** The last character of a trimmed text is no whitespace. *)
Lemma trim_last s c : last (trim s) = Some c -> is_whitespace c = false.
Proof.
  unfold trim, trim_matches, trim_end_matches.
  destruct (drop_while _ (rev _)) as [|x t] eqn:E; [done|]. cbn. rewrite last_snoc.
  intros [= ->]. by eapply drop_while_head.
Qed.

(** A character outside the pattern survives a replacement. *)
Lemma replace_go_keeps c from to k s :
  c ∈ s -> c ∉ from -> from <> [] -> c ∈ take k s \/ c ∈ replace_go from to k s.
Proof.
  intros Hc Hf Hne. revert k Hc. induction s as [|x s IH]; intros k Hc; [by apply elem_of_nil in Hc|].
  apply elem_of_cons in Hc. destruct k as [|k].
  - right. cbn. destruct (starts_with (x :: s) from) eqn:E.
    + apply starts_with_spec in E as (t & E). destruct from as [|f from]; [done|].
      injection E as -> ->. rewrite elem_of_cons in Hf.
      destruct Hc as [->|Hc]; [by destruct Hf; left|].
      replace (length (f :: from) - 1)%nat with (length from) by (cbn; lia).
      rewrite elem_of_app. right.
      destruct (IH (length from) Hc) as [Ht|]; [|done].
      rewrite take_app_length in Ht. by destruct Hf; right.
    + rewrite elem_of_cons. destruct Hc as [->|Hc]; [by left|right].
      destruct (IH 0%nat Hc) as [Ht|]; [by apply elem_of_nil in Ht|done].
  - cbn. rewrite elem_of_cons. destruct Hc as [->|Hc]; [by left; left|].
    destruct (IH k Hc); tauto.
Qed.

Lemma replace_keeps c s from to :
  c ∈ s -> c ∉ from -> from <> [] -> c ∈ replace s from to.
Proof.
  intros Hc Hf Hne. destruct (replace_go_keeps c from to 0 s Hc Hf Hne) as [H|]; [|done].
  by apply elem_of_nil in H.
Qed.

Lemma contains_elem c s : c ∈ s -> contains s [c] = true.
Proof.
  intros H. apply contains_spec. apply list_elem_of_split in H as (a & b & ->).
  by exists a, b.
Qed.

Lemma str_in_spec l s : str_in l s = true <-> s ∈ l.
Proof.
  unfold str_in. rewrite Existsb_exists. setoid_rewrite str_eqb_eq. naive_solver.
Qed.

Lemma contains_any_false s l n : contains_any s l = false -> n ∈ l -> contains s n = false.
Proof. unfold contains_any. rewrite Existsb_false. auto. Qed.

Lemma to_lower_fixed c x : to_lower x = c -> is_ascii_lowercase c = false -> x = c.
Proof.
  unfold to_lower. destruct (is_ascii_uppercase x) eqn:E; [|done]. intros <- H.
  exfalso. unfold is_ascii_uppercase, is_ascii_lowercase, between in *.
  apply andb_true_iff in E as [E1%N.leb_le E2%N.leb_le].
  apply andb_false_iff in H as [H%N.leb_gt | H%N.leb_gt]; lia.
Qed.

Lemma str_leb_total a b : str_leb a b = false -> str_leb b a = true.
Proof.
  revert b. induction a as [|x a IH]; intros [|y b]; cbn; try done.
  rewrite orb_false_iff, andb_false_iff, N.ltb_ge, N.eqb_neq, orb_true_iff, andb_true_iff,
    N.ltb_lt, N.eqb_eq.
  intros [H [H'|H']]; [left; lia|]. destruct (decide (x = y)) as [->|]; [|left; lia].
  right. split; [done|]. by apply IH.
Qed.

Lemma str_leb_trans a b c : str_leb a b = true -> str_leb b c = true -> str_leb a c = true.
Proof.
  revert b c. induction a as [|x a IH]; intros [|y b] [|z c]; cbn; try done.
  rewrite !orb_true_iff, !andb_true_iff, !N.ltb_lt, !N.eqb_eq.
  intros [H|[-> H]] [H'|[-> H']]; [left; lia|left; lia|left; lia|]. right. eauto.
Qed.

Lemma hex_digit_inj a b : (a < 16)%N -> (b < 16)%N -> hex_digit a = hex_digit b -> a = b.
Proof. unfold hex_digit. intros. repeat case_match; breflect; lia. Qed.

Lemma hex_byte_inj a b : (a < 256)%N -> (b < 256)%N -> hex_byte a = hex_byte b -> a = b.
Proof.
  intros Ha Hb [= H1 H2].
  apply hex_digit_inj in H1; [|by apply N.Div0.div_lt_upper_bound..].
  apply hex_digit_inj in H2; [|by apply N.mod_lt..].
  rewrite (N.div_mod a 16), (N.div_mod b 16) by done. lia.
Qed.

(** A digest is determined by its hexadecimal text. *)
Lemma hex_bytes_inj a b :
  Forall (fun x => x < 256)%N a -> Forall (fun x => x < 256)%N b ->
  hex_bytes a = hex_bytes b -> a = b.
Proof.
  intros Ha. revert b. induction Ha as [|x a Hx Ha IH]; intros [|y b] Hb; try done.
  inversion Hb as [|? ? Hy Hb']; subst. unfold hex_bytes. cbn [map concat].
  change (hex_byte x ++ concat (map hex_byte a)) with (hex_byte x ++ hex_bytes a).
  intros H. apply app_inj_1 in H as [H1 H2]; [|done].
  apply hex_byte_inj in H1; [|done..]. apply IH in H2; [|done]. by subst.
Qed.

(** *** Decimal numerals *)
Lemma utf8_decode_ascii bs : Forall (fun b => (b < 128)%N) bs -> utf8_decode bs = bs.
Proof.
  induction 1 as [|b bs Hb Hbs IH]; [done|]. cbn.
  assert ((b <? 128)%N = true) as -> by by apply N.ltb_lt. by rewrite IH.
Qed.

Lemma pretty_N_go_digits n s :
  Forall (fun c => is_ascii_digit c = true)
    (map Ascii.N_of_ascii (String.list_ascii_of_string s)) ->
  Forall (fun c => is_ascii_digit c = true)
    (map Ascii.N_of_ascii (String.list_ascii_of_string (pretty_N_go n s))).
Proof.
  revert s. induction (N.lt_wf_0 n) as [n _ IH]; intros s Hs.
  destruct (decide (n = 0)%N) as [->|Hn]; [by rewrite pretty_N_go_0|].
  rewrite pretty_N_go_step by lia. apply IH; [apply N.div_lt; lia|].
  cbn. constructor; [|done]. unfold pretty_N_char. by repeat case_match.
Qed.

Lemma pretty_digits (n : N) :
  Forall (fun c => is_ascii_digit c = true)
    (map Ascii.N_of_ascii (String.list_ascii_of_string (pretty n))).
Proof.
  unfold pretty, pretty_N. case_decide; [repeat constructor|].
  by apply pretty_N_go_digits.
Qed.

Lemma is_ascii_digit_spec c : is_ascii_digit c = true <-> (48 <= c <= 57)%N.
Proof. unfold is_ascii_digit, between. rewrite andb_true_iff, !N.leb_le. done. Qed.

Lemma dec_bytes n :
  dec n = map Ascii.N_of_ascii (String.list_ascii_of_string (pretty n)).
Proof.
  unfold dec, lit. apply utf8_decode_ascii.
  eapply Forall_impl; [apply pretty_digits|]. cbn. intros c Hc.
  apply is_ascii_digit_spec in Hc. lia.
Qed.

Lemma dec_digits n c : c ∈ dec n -> is_ascii_digit c = true.
Proof. rewrite dec_bytes. intros Hc. by eapply Forall_forall in Hc; [|apply pretty_digits]. Qed.

Definition ascii_only (s : string) : bool :=
  forallb (fun b => b <? 128)%N (map Ascii.N_of_ascii (String.list_ascii_of_string s)).
Arguments ascii_only s%_string.

Lemma lit_ascii s :
  ascii_only s = true -> lit s = map Ascii.N_of_ascii (String.list_ascii_of_string s).
Proof.
  unfold ascii_only. rewrite Forallb_forall. intros H. apply utf8_decode_ascii.
  apply Forall_forall. intros b Hb. by apply N.ltb_lt, H.
Qed.

Lemma lit_inj a b : ascii_only a = true -> ascii_only b = true -> lit a = lit b -> a = b.
Proof.
  intros Ha Hb. rewrite !lit_ascii by done. intros H.
  assert (Inj (=) (=) Ascii.N_of_ascii) as Hinj.
  { intros x y E. by rewrite <- (Ascii.ascii_N_embedding x), E, Ascii.ascii_N_embedding. }
  apply (inj (fmap Ascii.N_of_ascii)) in H.
  apply (f_equal String.string_of_list_ascii) in H.
  by rewrite !String.string_of_list_ascii_of_string in H.
Qed.

Lemma pretty_ascii (n : N) : ascii_only (pretty n) = true.
Proof.
  unfold ascii_only. apply Forallb_forall. intros c Hc. apply N.ltb_lt.
  pose proof (pretty_digits n) as H. rewrite Forall_forall in H.
  apply H, is_ascii_digit_spec in Hc. lia.
Qed.

#[export] Instance dec_inj : Inj (=) (=) dec.
Proof. intros a b H. apply lit_inj in H; [by apply (inj pretty)|apply pretty_ascii..]. Qed.

(** The text before and after the last separator. *)
Lemma split_once_sep p a c b :
  (forall x, x ∈ a -> p x = false) -> p c = true ->
  split_once p (a ++ c :: b) = Some (a, b).
Proof.
  intros Ha Hc. induction a as [|x a IH]; cbn; [by rewrite Hc|].
  rewrite Ha by set_solver. by rewrite IH by set_solver.
Qed.

Lemma rsplit_once_sep a c b : c ∉ b -> rsplit_once c (a ++ c :: b) = Some (a, b).
Proof.
  intros Hb. unfold rsplit_once. rewrite rev_app_distr. cbn. rewrite <- app_assoc. cbn.
  rewrite split_once_sep; [by rewrite !rev_involutive| |by apply N.eqb_eq].
  intros x Hx. apply N.eqb_neq. intros <-. apply Hb.
  by apply list_elem_of_In, in_rev, list_elem_of_In.
Qed.

#[export] Hint Resolve trim_idem trim_blen take_bytes_le utf8_len_pos : runory.
