(* ===== verification/Json.v ===== *)
(** * JSON values (serde_json::Value)

    The data type that tool schemas, tool arguments, event payloads and error
    payloads are written in.  A [serde_json::Map] holds each key once; a
    literal [json!] object is written with its keys in source order. *)
From S2P Require Import Prelude Str.

Inductive json_number :=
  | JPosInt (n : N)
  | JNegInt (z : Z)
  | JFloat (bits : N).

Inductive json :=
  | JNull
  | JBool (b : bool)
  | JNumber (n : json_number)
  | JString (s : str)
  | JArray (l : list json)
  | JObject (fields : list (str * json)).

(** A [serde_json::Map] holds each key once. *)
Definition json_map : Type := list (str * json).
Definition map_wf (m : json_map) : Prop := NoDup (m.*1).

Fixpoint map_get (m : json_map) (key : str) : option json :=
  match m with
  | [] => None
  | (k, v) :: rest => if str_eqb k key then Some v else map_get rest key
  end.

Definition as_object (v : json) : option json_map :=
  match v with JObject m => Some m | _ => None end.
Definition as_str (v : json) : option str :=
  match v with JString s => Some s | _ => None end.
Definition as_bool (v : json) : option bool :=
  match v with JBool b => Some b | _ => None end.
Definition as_u64 (v : json) : option N :=
  match v with JNumber (JPosInt n) => Some n | _ => None end.
(** [Value::get] with a string index. *)
Definition json_get (v : json) (key : str) : option json :=
  match v with JObject m => map_get m key | _ => None end.

(** [json!({ ... })] builds a map: a key given twice keeps the last value. *)
Definition jobj (fields : list (str * json)) : json := JObject fields.
Definition jint (n : N) : json := JNumber (JPosInt n).
Definition jstr (s : String.string) : json := JString (lit s).

