(* ===== verification/Errors.v ===== *)
(** * Application errors (domain/error.rs)

    The error vocabulary that every backend command returns, the stable code
    the frontend receives for each, and the endpoint that may accompany it. *)
From S2P Require Import Prelude Str Json.

Inductive AppError :=
  | InvalidJumpHost | ProfileInUseAsJumpHost | JumpPreparationExpired | JumpForwardingDenied
  | JumpTargetUnreachable | BastionUnavailable | BastionKokoUnreachable (endpoint : str)
  | BastionGatewayUnreachable (endpoint : str) | BastionProviderNotFound | BastionAuthFailed
  | BastionAwaitingUser | BastionPermissionDenied | HelperMissing | HelperVersionMismatch
  | HelperProxyFailed | TunnelConnectionRequired | TunnelInvalid | TunnelNotFound
  | TunnelRunning | TunnelStopped | TunnelPortInUse | TunnelBindFailed | TunnelDenied
  | TunnelTargetFailed | TunnelSessionMismatch | TunnelLimit | InvalidProfile | ImportInvalid
  | InvalidGroup | ProfileNotFound | GroupNotFound | ConnectionRefused | ConnectionTimeout
  | AuthFailed | PrivateKeyInvalid | PassphraseRequired | HostKeyUnknown | HostKeyChanged
  | HostVerificationExpired | SessionNotFound | ConnectionLost | SftpNotOpen
  | SftpOperationFailed | SftpPathInvalid | SftpNotDirectory | SftpNotFile | SftpNotFound
  | SftpPermissionDenied | SftpAlreadyExists | SftpDeleteLimitExceeded | SftpImageTooLarge
  | SftpImageUnsupported | SftpImageInvalid | SftpTextTooLarge | SftpTextUnsupported
  | SftpTextEncodingUnsupported | LocalFileInvalid | TransferNotFound | TransferStateInvalid
  | TransferCancelled | TransferFailed | ExecFailed | ExecTimedOut | ExecOutputLimit
  | UnsupportedRemote | InvalidOperation | DeploymentNameConflict | DeploymentPathConflict
  | DeploymentServiceConflict | DeploymentGitTargetNotEmpty | DeploymentGitPathDenied
  | AgentFleetTargetInvalid | AgentFleetTargetMismatch | AgentFleetTargetLimit
  | AgentFleetPlanInvalid | AgentFleetPlanCycle | AgentFleetProductionParallelBlocked
  | VaultLocked | VaultInvalid | PlatformKeyStoreUnavailable | CredentialNotFound
  | CloudInvalid | CloudCrypto | CloudDecrypt | CloudImportNotFound | CloudRecoveryRequired
  | CloudPolicyDenied | CloudPolicyUnavailable | ModelInvalid | ModelUnavailable | ModelTimeout
  | ModelAuthFailed | ModelCreditInsufficient | ModelRateLimited | ModelResponseInvalid
  | ModelResponseEmpty | ModelJsonInvalid | ModelDecisionInvalid | ModelCommandInvalid
  | ModelUsageInvalid | ModelProviderResponseInvalid | ModelOauthUnsupported
  | ModelOauthCancelled | UpdateNotConfigured | UpdateCheckFailed | UpdateNotReady
  | UpdateDownloadFailed | UpdateBusy | UpdateInstallFailed | PluginPackageInvalid
  | PluginManifestInvalid | PluginVersionIncompatible | PluginAlreadyInstalled | PluginNotFound
  | PluginDisabled | PluginPermissionDenied | PluginWorkflowNotFound | PluginWorkflowInvalid
  | PluginActionNotFound | PluginPolicyDenied | PluginCancelled | PluginExecutionFailed
  | PluginSignatureMissing | PluginSignatureInvalid | PluginSigningKeyUnknown
  | PluginSigningKeyRevoked | PluginPublisherMismatch | PluginRevoked | PluginVersionRevoked
  | PluginUpdatePermissionReviewRequired | PluginPlanStale | PluginMarketplaceUnavailable
  | PluginHashMismatch | Storage.
Abbreviation AppResult := (result AppError) (only parsing).

Definition error_code_string (e : AppError) : String.string :=
  match e with
  | InvalidJumpHost => "INVALID_JUMP_HOST"
  | ProfileInUseAsJumpHost => "PROFILE_IN_USE_AS_JUMP_HOST"
  | JumpPreparationExpired => "JUMP_PREPARATION_EXPIRED"
  | JumpForwardingDenied => "JUMP_FORWARDING_DENIED"
  | JumpTargetUnreachable => "JUMP_TARGET_UNREACHABLE"
  | BastionUnavailable => "BASTION_UNAVAILABLE"
  | BastionKokoUnreachable _ => "BASTION_KOKO_UNREACHABLE"
  | BastionGatewayUnreachable _ => "BASTION_GATEWAY_UNREACHABLE"
  | BastionProviderNotFound => "BASTION_PROVIDER_NOT_FOUND"
  | BastionAuthFailed => "BASTION_AUTH_FAILED"
  | BastionAwaitingUser => "BASTION_AWAITING_USER"
  | BastionPermissionDenied => "BASTION_PERMISSION_DENIED"
  | HelperMissing => "HELPER_MISSING"
  | HelperVersionMismatch => "HELPER_VERSION_MISMATCH"
  | HelperProxyFailed => "HELPER_PROXY_FAILED"
  | TunnelConnectionRequired => "TUNNEL_CONNECTION_REQUIRED"
  | TunnelInvalid => "TUNNEL_INVALID"
  | TunnelNotFound => "TUNNEL_NOT_FOUND"
  | TunnelRunning => "TUNNEL_RUNNING"
  | TunnelStopped => "TUNNEL_STOPPED"
  | TunnelPortInUse => "TUNNEL_PORT_IN_USE"
  | TunnelBindFailed => "TUNNEL_BIND_FAILED"
  | TunnelDenied => "TUNNEL_DENIED"
  | TunnelTargetFailed => "TUNNEL_TARGET_FAILED"
  | TunnelSessionMismatch => "TUNNEL_SESSION_MISMATCH"
  | TunnelLimit => "TUNNEL_LIMIT"
  | InvalidProfile => "INVALID_PROFILE"
  | ImportInvalid => "IMPORT_INVALID"
  | InvalidGroup => "INVALID_GROUP"
  | ProfileNotFound => "PROFILE_NOT_FOUND"
  | GroupNotFound => "GROUP_NOT_FOUND"
  | ConnectionRefused => "CONNECTION_REFUSED"
  | ConnectionTimeout => "CONNECTION_TIMEOUT"
  | AuthFailed => "AUTH_FAILED"
  | PrivateKeyInvalid => "PRIVATE_KEY_INVALID"
  | PassphraseRequired => "PASSPHRASE_REQUIRED"
  | HostKeyUnknown => "HOST_KEY_UNKNOWN"
  | HostKeyChanged => "HOST_KEY_CHANGED"
  | HostVerificationExpired => "HOST_VERIFICATION_EXPIRED"
  | SessionNotFound => "SESSION_NOT_FOUND"
  | ConnectionLost => "CONNECTION_LOST"
  | SftpNotOpen => "SFTP_NOT_OPEN"
  | SftpOperationFailed => "SFTP_OPERATION_FAILED"
  | SftpPathInvalid => "SFTP_PATH_INVALID"
  | SftpNotDirectory => "SFTP_NOT_DIRECTORY"
  | SftpNotFile => "SFTP_NOT_FILE"
  | SftpNotFound => "SFTP_NOT_FOUND"
  | SftpPermissionDenied => "SFTP_PERMISSION_DENIED"
  | SftpAlreadyExists => "SFTP_ALREADY_EXISTS"
  | SftpDeleteLimitExceeded => "SFTP_DELETE_LIMIT_EXCEEDED"
  | SftpImageTooLarge => "SFTP_IMAGE_TOO_LARGE"
  | SftpImageUnsupported => "SFTP_IMAGE_UNSUPPORTED"
  | SftpImageInvalid => "SFTP_IMAGE_INVALID"
  | SftpTextTooLarge => "SFTP_TEXT_TOO_LARGE"
  | SftpTextUnsupported => "SFTP_TEXT_UNSUPPORTED"
  | SftpTextEncodingUnsupported => "SFTP_TEXT_ENCODING_UNSUPPORTED"
  | LocalFileInvalid => "LOCAL_FILE_INVALID"
  | TransferNotFound => "TRANSFER_NOT_FOUND"
  | TransferStateInvalid => "TRANSFER_STATE_INVALID"
  | TransferCancelled => "TRANSFER_CANCELLED"
  | TransferFailed => "TRANSFER_FAILED"
  | ExecFailed => "EXEC_FAILED"
  | ExecTimedOut => "EXEC_TIMED_OUT"
  | ExecOutputLimit => "EXEC_OUTPUT_LIMIT"
  | UnsupportedRemote => "UNSUPPORTED_REMOTE"
  | InvalidOperation => "INVALID_OPERATION"
  | DeploymentNameConflict => "DEPLOYMENT_NAME_CONFLICT"
  | DeploymentPathConflict => "DEPLOYMENT_PATH_CONFLICT"
  | DeploymentServiceConflict => "DEPLOYMENT_SERVICE_CONFLICT"
  | DeploymentGitTargetNotEmpty => "DEPLOYMENT_GIT_TARGET_NOT_EMPTY"
  | DeploymentGitPathDenied => "DEPLOYMENT_GIT_PATH_DENIED"
  | AgentFleetTargetInvalid => "AGENT_FLEET_TARGET_INVALID"
  | AgentFleetTargetMismatch => "AGENT_FLEET_TARGET_MISMATCH"
  | AgentFleetTargetLimit => "AGENT_FLEET_TARGET_LIMIT"
  | AgentFleetPlanInvalid => "AGENT_FLEET_PLAN_INVALID"
  | AgentFleetPlanCycle => "AGENT_FLEET_PLAN_CYCLE"
  | AgentFleetProductionParallelBlocked => "AGENT_FLEET_PRODUCTION_PARALLEL_BLOCKED"
  | VaultLocked => "VAULT_LOCKED"
  | VaultInvalid => "VAULT_INVALID"
  | PlatformKeyStoreUnavailable => "PLATFORM_KEY_STORE_UNAVAILABLE"
  | CredentialNotFound => "CREDENTIAL_NOT_FOUND"
  | CloudInvalid => "CLOUD_INVALID"
  | CloudCrypto => "CLOUD_CRYPTO_ERROR"
  | CloudDecrypt => "CLOUD_DECRYPT_FAILED"
  | CloudImportNotFound => "CLOUD_IMPORT_NOT_FOUND"
  | CloudRecoveryRequired => "CLOUD_RECOVERY_REQUIRED"
  | CloudPolicyDenied => "CLOUD_POLICY_DENIED"
  | CloudPolicyUnavailable => "CLOUD_POLICY_UNAVAILABLE"
  | ModelInvalid => "MODEL_INVALID"
  | ModelUnavailable => "MODEL_UNAVAILABLE"
  | ModelTimeout => "MODEL_TIMEOUT"
  | ModelAuthFailed => "MODEL_AUTH_FAILED"
  | ModelCreditInsufficient => "MODEL_CREDIT_INSUFFICIENT"
  | ModelRateLimited => "MODEL_RATE_LIMITED"
  | ModelResponseInvalid => "MODEL_RESPONSE_INVALID"
  | ModelResponseEmpty => "MODEL_RESPONSE_EMPTY"
  | ModelJsonInvalid => "MODEL_JSON_INVALID"
  | ModelDecisionInvalid => "MODEL_DECISION_INVALID"
  | ModelCommandInvalid => "MODEL_COMMAND_INVALID"
  | ModelUsageInvalid => "MODEL_USAGE_INVALID"
  | ModelProviderResponseInvalid => "MODEL_PROVIDER_RESPONSE_INVALID"
  | ModelOauthUnsupported => "MODEL_OAUTH_UNSUPPORTED"
  | ModelOauthCancelled => "MODEL_OAUTH_CANCELLED"
  | UpdateNotConfigured => "UPDATE_NOT_CONFIGURED"
  | UpdateCheckFailed => "UPDATE_CHECK_FAILED"
  | UpdateNotReady => "UPDATE_NOT_READY"
  | UpdateDownloadFailed => "UPDATE_DOWNLOAD_FAILED"
  | UpdateBusy => "UPDATE_BUSY"
  | UpdateInstallFailed => "UPDATE_INSTALL_FAILED"
  | PluginPackageInvalid => "PLUGIN_PACKAGE_INVALID"
  | PluginManifestInvalid => "PLUGIN_MANIFEST_INVALID"
  | PluginVersionIncompatible => "PLUGIN_VERSION_INCOMPATIBLE"
  | PluginAlreadyInstalled => "PLUGIN_ALREADY_INSTALLED"
  | PluginNotFound => "PLUGIN_NOT_FOUND"
  | PluginDisabled => "PLUGIN_DISABLED"
  | PluginPermissionDenied => "PLUGIN_PERMISSION_DENIED"
  | PluginWorkflowNotFound => "PLUGIN_WORKFLOW_NOT_FOUND"
  | PluginWorkflowInvalid => "PLUGIN_WORKFLOW_INVALID"
  | PluginActionNotFound => "PLUGIN_ACTION_NOT_FOUND"
  | PluginPolicyDenied => "PLUGIN_POLICY_DENIED"
  | PluginCancelled => "PLUGIN_CANCELLED"
  | PluginExecutionFailed => "PLUGIN_EXECUTION_FAILED"
  | PluginSignatureMissing => "PLUGIN_SIGNATURE_MISSING"
  | PluginSignatureInvalid => "PLUGIN_SIGNATURE_INVALID"
  | PluginSigningKeyUnknown => "PLUGIN_SIGNING_KEY_UNKNOWN"
  | PluginSigningKeyRevoked => "PLUGIN_SIGNING_KEY_REVOKED"
  | PluginPublisherMismatch => "PLUGIN_PUBLISHER_MISMATCH"
  | PluginRevoked => "PLUGIN_REVOKED"
  | PluginVersionRevoked => "PLUGIN_VERSION_REVOKED"
  | PluginUpdatePermissionReviewRequired => "PLUGIN_UPDATE_PERMISSION_REVIEW_REQUIRED"
  | PluginPlanStale => "PLUGIN_PLAN_STALE"
  | PluginMarketplaceUnavailable => "PLUGIN_MARKETPLACE_UNAVAILABLE"
  | PluginHashMismatch => "PLUGIN_HASH_MISMATCH"
  | Storage => "STORAGE_ERROR"
  end%string.

Definition error_code (e : AppError) : str := lit (error_code_string e).

(** [AppError::endpoint]. *)
Definition error_endpoint (e : AppError) : option str :=
  match e with
  | BastionKokoUnreachable endpoint | BastionGatewayUnreachable endpoint => Some endpoint
  | _ => None
  end.

(** [impl Serialize for AppError]: the code, and the endpoint when there is one. *)
Definition error_payload (e : AppError) : json :=
  jobj ((lit "code", JString (error_code e)) ::
        match error_endpoint e with
        | Some endpoint => [(lit "endpoint", JString endpoint)]
        | None => []
        end).

(** [host:port], wrapping IPv6 hosts in brackets. *)
Definition format_ssh_endpoint (host : str) (port : N) : str :=
  if contains_char host 58 && negb (starts_with host (lit "["))
  then lit "[" ++ host ++ lit "]:" ++ dec port
  else host ++ lit ":" ++ dec port.

(** The constructor that a code names, with the endpoint it is given. *)
Definition error_of_code (code : String.string) (endpoint : str) : option AppError :=
  match code with
  | "INVALID_JUMP_HOST" => Some InvalidJumpHost
  | "PROFILE_IN_USE_AS_JUMP_HOST" => Some ProfileInUseAsJumpHost
  | "JUMP_PREPARATION_EXPIRED" => Some JumpPreparationExpired
  | "JUMP_FORWARDING_DENIED" => Some JumpForwardingDenied
  | "JUMP_TARGET_UNREACHABLE" => Some JumpTargetUnreachable
  | "BASTION_UNAVAILABLE" => Some BastionUnavailable
  | "BASTION_KOKO_UNREACHABLE" => Some (BastionKokoUnreachable endpoint)
  | "BASTION_GATEWAY_UNREACHABLE" => Some (BastionGatewayUnreachable endpoint)
  | "BASTION_PROVIDER_NOT_FOUND" => Some BastionProviderNotFound
  | "BASTION_AUTH_FAILED" => Some BastionAuthFailed
  | "BASTION_AWAITING_USER" => Some BastionAwaitingUser
  | "BASTION_PERMISSION_DENIED" => Some BastionPermissionDenied
  | "HELPER_MISSING" => Some HelperMissing
  | "HELPER_VERSION_MISMATCH" => Some HelperVersionMismatch
  | "HELPER_PROXY_FAILED" => Some HelperProxyFailed
  | "TUNNEL_CONNECTION_REQUIRED" => Some TunnelConnectionRequired
  | "TUNNEL_INVALID" => Some TunnelInvalid
  | "TUNNEL_NOT_FOUND" => Some TunnelNotFound
  | "TUNNEL_RUNNING" => Some TunnelRunning
  | "TUNNEL_STOPPED" => Some TunnelStopped
  | "TUNNEL_PORT_IN_USE" => Some TunnelPortInUse
  | "TUNNEL_BIND_FAILED" => Some TunnelBindFailed
  | "TUNNEL_DENIED" => Some TunnelDenied
  | "TUNNEL_TARGET_FAILED" => Some TunnelTargetFailed
  | "TUNNEL_SESSION_MISMATCH" => Some TunnelSessionMismatch
  | "TUNNEL_LIMIT" => Some TunnelLimit
  | "INVALID_PROFILE" => Some InvalidProfile
  | "IMPORT_INVALID" => Some ImportInvalid
  | "INVALID_GROUP" => Some InvalidGroup
  | "PROFILE_NOT_FOUND" => Some ProfileNotFound
  | "GROUP_NOT_FOUND" => Some GroupNotFound
  | "CONNECTION_REFUSED" => Some ConnectionRefused
  | "CONNECTION_TIMEOUT" => Some ConnectionTimeout
  | "AUTH_FAILED" => Some AuthFailed
  | "PRIVATE_KEY_INVALID" => Some PrivateKeyInvalid
  | "PASSPHRASE_REQUIRED" => Some PassphraseRequired
  | "HOST_KEY_UNKNOWN" => Some HostKeyUnknown
  | "HOST_KEY_CHANGED" => Some HostKeyChanged
  | "HOST_VERIFICATION_EXPIRED" => Some HostVerificationExpired
  | "SESSION_NOT_FOUND" => Some SessionNotFound
  | "CONNECTION_LOST" => Some ConnectionLost
  | "SFTP_NOT_OPEN" => Some SftpNotOpen
  | "SFTP_OPERATION_FAILED" => Some SftpOperationFailed
  | "SFTP_PATH_INVALID" => Some SftpPathInvalid
  | "SFTP_NOT_DIRECTORY" => Some SftpNotDirectory
  | "SFTP_NOT_FILE" => Some SftpNotFile
  | "SFTP_NOT_FOUND" => Some SftpNotFound
  | "SFTP_PERMISSION_DENIED" => Some SftpPermissionDenied
  | "SFTP_ALREADY_EXISTS" => Some SftpAlreadyExists
  | "SFTP_DELETE_LIMIT_EXCEEDED" => Some SftpDeleteLimitExceeded
  | "SFTP_IMAGE_TOO_LARGE" => Some SftpImageTooLarge
  | "SFTP_IMAGE_UNSUPPORTED" => Some SftpImageUnsupported
  | "SFTP_IMAGE_INVALID" => Some SftpImageInvalid
  | "SFTP_TEXT_TOO_LARGE" => Some SftpTextTooLarge
  | "SFTP_TEXT_UNSUPPORTED" => Some SftpTextUnsupported
  | "SFTP_TEXT_ENCODING_UNSUPPORTED" => Some SftpTextEncodingUnsupported
  | "LOCAL_FILE_INVALID" => Some LocalFileInvalid
  | "TRANSFER_NOT_FOUND" => Some TransferNotFound
  | "TRANSFER_STATE_INVALID" => Some TransferStateInvalid
  | "TRANSFER_CANCELLED" => Some TransferCancelled
  | "TRANSFER_FAILED" => Some TransferFailed
  | "EXEC_FAILED" => Some ExecFailed
  | "EXEC_TIMED_OUT" => Some ExecTimedOut
  | "EXEC_OUTPUT_LIMIT" => Some ExecOutputLimit
  | "UNSUPPORTED_REMOTE" => Some UnsupportedRemote
  | "INVALID_OPERATION" => Some InvalidOperation
  | "DEPLOYMENT_NAME_CONFLICT" => Some DeploymentNameConflict
  | "DEPLOYMENT_PATH_CONFLICT" => Some DeploymentPathConflict
  | "DEPLOYMENT_SERVICE_CONFLICT" => Some DeploymentServiceConflict
  | "DEPLOYMENT_GIT_TARGET_NOT_EMPTY" => Some DeploymentGitTargetNotEmpty
  | "DEPLOYMENT_GIT_PATH_DENIED" => Some DeploymentGitPathDenied
  | "AGENT_FLEET_TARGET_INVALID" => Some AgentFleetTargetInvalid
  | "AGENT_FLEET_TARGET_MISMATCH" => Some AgentFleetTargetMismatch
  | "AGENT_FLEET_TARGET_LIMIT" => Some AgentFleetTargetLimit
  | "AGENT_FLEET_PLAN_INVALID" => Some AgentFleetPlanInvalid
  | "AGENT_FLEET_PLAN_CYCLE" => Some AgentFleetPlanCycle
  | "AGENT_FLEET_PRODUCTION_PARALLEL_BLOCKED" => Some AgentFleetProductionParallelBlocked
  | "VAULT_LOCKED" => Some VaultLocked
  | "VAULT_INVALID" => Some VaultInvalid
  | "PLATFORM_KEY_STORE_UNAVAILABLE" => Some PlatformKeyStoreUnavailable
  | "CREDENTIAL_NOT_FOUND" => Some CredentialNotFound
  | "CLOUD_INVALID" => Some CloudInvalid
  | "CLOUD_CRYPTO_ERROR" => Some CloudCrypto
  | "CLOUD_DECRYPT_FAILED" => Some CloudDecrypt
  | "CLOUD_IMPORT_NOT_FOUND" => Some CloudImportNotFound
  | "CLOUD_RECOVERY_REQUIRED" => Some CloudRecoveryRequired
  | "CLOUD_POLICY_DENIED" => Some CloudPolicyDenied
  | "CLOUD_POLICY_UNAVAILABLE" => Some CloudPolicyUnavailable
  | "MODEL_INVALID" => Some ModelInvalid
  | "MODEL_UNAVAILABLE" => Some ModelUnavailable
  | "MODEL_TIMEOUT" => Some ModelTimeout
  | "MODEL_AUTH_FAILED" => Some ModelAuthFailed
  | "MODEL_CREDIT_INSUFFICIENT" => Some ModelCreditInsufficient
  | "MODEL_RATE_LIMITED" => Some ModelRateLimited
  | "MODEL_RESPONSE_INVALID" => Some ModelResponseInvalid
  | "MODEL_RESPONSE_EMPTY" => Some ModelResponseEmpty
  | "MODEL_JSON_INVALID" => Some ModelJsonInvalid
  | "MODEL_DECISION_INVALID" => Some ModelDecisionInvalid
  | "MODEL_COMMAND_INVALID" => Some ModelCommandInvalid
  | "MODEL_USAGE_INVALID" => Some ModelUsageInvalid
  | "MODEL_PROVIDER_RESPONSE_INVALID" => Some ModelProviderResponseInvalid
  | "MODEL_OAUTH_UNSUPPORTED" => Some ModelOauthUnsupported
  | "MODEL_OAUTH_CANCELLED" => Some ModelOauthCancelled
  | "UPDATE_NOT_CONFIGURED" => Some UpdateNotConfigured
  | "UPDATE_CHECK_FAILED" => Some UpdateCheckFailed
  | "UPDATE_NOT_READY" => Some UpdateNotReady
  | "UPDATE_DOWNLOAD_FAILED" => Some UpdateDownloadFailed
  | "UPDATE_BUSY" => Some UpdateBusy
  | "UPDATE_INSTALL_FAILED" => Some UpdateInstallFailed
  | "PLUGIN_PACKAGE_INVALID" => Some PluginPackageInvalid
  | "PLUGIN_MANIFEST_INVALID" => Some PluginManifestInvalid
  | "PLUGIN_VERSION_INCOMPATIBLE" => Some PluginVersionIncompatible
  | "PLUGIN_ALREADY_INSTALLED" => Some PluginAlreadyInstalled
  | "PLUGIN_NOT_FOUND" => Some PluginNotFound
  | "PLUGIN_DISABLED" => Some PluginDisabled
  | "PLUGIN_PERMISSION_DENIED" => Some PluginPermissionDenied
  | "PLUGIN_WORKFLOW_NOT_FOUND" => Some PluginWorkflowNotFound
  | "PLUGIN_WORKFLOW_INVALID" => Some PluginWorkflowInvalid
  | "PLUGIN_ACTION_NOT_FOUND" => Some PluginActionNotFound
  | "PLUGIN_POLICY_DENIED" => Some PluginPolicyDenied
  | "PLUGIN_CANCELLED" => Some PluginCancelled
  | "PLUGIN_EXECUTION_FAILED" => Some PluginExecutionFailed
  | "PLUGIN_SIGNATURE_MISSING" => Some PluginSignatureMissing
  | "PLUGIN_SIGNATURE_INVALID" => Some PluginSignatureInvalid
  | "PLUGIN_SIGNING_KEY_UNKNOWN" => Some PluginSigningKeyUnknown
  | "PLUGIN_SIGNING_KEY_REVOKED" => Some PluginSigningKeyRevoked
  | "PLUGIN_PUBLISHER_MISMATCH" => Some PluginPublisherMismatch
  | "PLUGIN_REVOKED" => Some PluginRevoked
  | "PLUGIN_VERSION_REVOKED" => Some PluginVersionRevoked
  | "PLUGIN_UPDATE_PERMISSION_REVIEW_REQUIRED" => Some PluginUpdatePermissionReviewRequired
  | "PLUGIN_PLAN_STALE" => Some PluginPlanStale
  | "PLUGIN_MARKETPLACE_UNAVAILABLE" => Some PluginMarketplaceUnavailable
  | "PLUGIN_HASH_MISMATCH" => Some PluginHashMismatch
  | "STORAGE_ERROR" => Some Storage
  | _ => None
  end%string.

(** ** Lemmas *)
Lemma error_of_code_endpoint e :
  error_of_code (error_code_string e) (default [] (error_endpoint e)) = Some e.
Proof. by destruct e. Qed.

#[export] Instance app_error_eq_dec : EqDecision AppError.
Proof.
  refine (inj_eq_dec (fun e => (error_code_string e, default [] (error_endpoint e)))).
  intros a b [= Hc He].
  assert (Some a = Some b) as [= ->]; [|done].
  by rewrite <- (error_of_code_endpoint a), <- (error_of_code_endpoint b), Hc, He.
Defined.

Lemma error_code_inj a b :
  error_code a = error_code b -> error_code_string a = error_code_string b.
Proof.
  apply lit_inj; [destruct a|destruct b]; by vm_compute.
Qed.

Lemma format_ssh_endpoint_split host port :
  rsplit_once 58 (format_ssh_endpoint host port) =
  Some (if contains_char host 58 && negb (starts_with host (lit "["))
        then lit "[" ++ host ++ lit "]" else host, dec port).
Proof.
  assert (58%N ∉ dec port) as Hd
    by (intros H%dec_digits; by vm_compute in H).
  unfold format_ssh_endpoint. case_match.
  - replace (lit "[" ++ host ++ lit "]:" ++ dec port)
      with ((lit "[" ++ host ++ lit "]") ++ 58%N :: dec port)
      by by rewrite <- !(assoc_L (++)).
    by apply rsplit_once_sep.
  - by apply rsplit_once_sep.
Qed.

(** ** Properties *)

(** What the frontend receives identifies the error: the JSON payload of
    [Serialize for AppError] is different for different errors, so a code
    names one error, and only the two bastion gateway errors add an
    [endpoint] member. *)
Theorem error_payload_identifies_error :
  (forall a b, error_payload a = error_payload b -> a = b) /\
  (forall e ep, json_get (error_payload e) (lit "endpoint") = Some (JString ep) <->
     e = BastionKokoUnreachable ep \/ e = BastionGatewayUnreachable ep).
Proof.
  split.
  - intros a b H. injection H as Hc He. apply error_code_inj in Hc.
    assert (error_endpoint a = error_endpoint b) as Hep
      by (destruct (error_endpoint a), (error_endpoint b); congruence).
    assert (Some a = Some b) as [= ->]; [|done].
    by rewrite <- (error_of_code_endpoint a), <- (error_of_code_endpoint b), Hc, Hep.
  - intros e ep.
    assert (json_get (error_payload e) (lit "endpoint") = JString <$> error_endpoint e) as ->.
    { unfold error_payload. by destruct (error_endpoint e). }
    split; [|by intros [-> | ->]].
    destruct e; cbn; intros H; try done; injection H as ->; tauto.
Qed.

(** [format_ssh_endpoint] loses nothing: the port is what follows the last
    colon, so two endpoints with the same text have the same port, and the same
    host unless one of them was written with brackets by its caller. *)
Theorem format_ssh_endpoint_injective h1 p1 h2 p2 :
  format_ssh_endpoint h1 p1 = format_ssh_endpoint h2 p2 ->
  p1 = p2 /\ (starts_with h1 (lit "[") = starts_with h2 (lit "[") -> h1 = h2).
Proof.
  intros H. apply (f_equal (rsplit_once 58)) in H.
  rewrite !format_ssh_endpoint_split in H. apply (inj Some), pair_eq in H as [Hh Hp].
  split; [by apply (inj dec)|]. intros Hb.
  destruct (contains_char h1 58 && _) eqn:E1, (contains_char h2 58 && _) eqn:E2; [| | |done].
  - injection Hh as Hh. by apply app_inv_tail in Hh.
  - breflect. subst h2. rewrite starts_with_app in Hb. congruence.
  - breflect. subst h1. rewrite starts_with_app in Hb. congruence.
Qed.

Lemma format_ssh_endpoint_injective_witness :
  format_ssh_endpoint (lit "::1") 2222 = lit "[::1]:2222" /\ (2222 = 2222)%N.
Proof.
  split; [by vm_compute|].
  exact (proj1 (format_ssh_endpoint_injective (lit "::1") 2222 (lit "::1") 2222 eq_refl)).
Defined.
