(* ===== verification/RunState.v ===== *)
(** * Agent run state machine (agent/state.rs, agent/run.rs)

    [State] is the sixteen-state machine of Agent Runtime V2 with its
    transition table; [Run] is the [AgentRun] record whose only writers are
    [transition_to], [begin_user_turn] and [next_event_sequence]. *)
From S2P Require Import Prelude Str.

Abbreviation Uuid := N (only parsing).

Inductive AgentRunStateV2 :=
  | Created | Running | Reasoning | Acting | Observing
  | AwaitingApproval | AwaitingUser | Diagnosed | PlanningChange
  | ExecutingChange | Verifying | RollingBack | Paused
  | Completed | Failed | Cancelled.
#[export] Instance run_state_eq_dec : EqDecision AgentRunStateV2.
Proof. solve_decision. Defined.

Record AgentStateError := { err_from : AgentRunStateV2; err_to : AgentRunStateV2 }.
#[export] Instance state_error_eq_dec : EqDecision AgentStateError.
Proof. solve_decision. Defined.

Definition AGENT_INVALID_TRANSITION : str := lit "AGENT_INVALID_TRANSITION".
Definition state_error_code (_ : AgentStateError) : str := AGENT_INVALID_TRANSITION.

(** [AgentRunStateV2::ALL]. *)
Definition ALL_STATES : list AgentRunStateV2 :=
  [Created; Running; Reasoning; Acting; Observing; AwaitingApproval; AwaitingUser;
   Diagnosed; PlanningChange; ExecutingChange; Verifying; RollingBack; Paused;
   Completed; Failed; Cancelled].

Definition is_terminal (s : AgentRunStateV2) : bool :=
  match s with Completed | Failed | Cancelled => true | _ => false end.

Definition is_interrupt (s : AgentRunStateV2) : bool :=
  match s with AwaitingApproval | AwaitingUser | Paused => true | _ => false end.

Definition is_active (s : AgentRunStateV2) : bool :=
  match s with
  | Running | Reasoning | Acting | Observing | Diagnosed | PlanningChange
  | ExecutingChange | Verifying | RollingBack => true
  | _ => false
  end.

Definition can_resume (s : AgentRunStateV2) : bool := is_interrupt s.

Definition can_transition_to (self next : AgentRunStateV2) : bool :=
  if is_terminal self then false else
  match next with
  | Cancelled | Failed => true
  | _ =>
    match self with
    | Created => match next with Running => true | _ => false end
    | Running => match next with Reasoning | Paused => true | _ => false end
    | Reasoning =>
        match next with
        | Acting | AwaitingApproval | AwaitingUser | PlanningChange | Diagnosed
        | Completed | Paused => true
        | _ => false
        end
    | Acting => match next with Observing | AwaitingApproval | Paused => true | _ => false end
    | Observing => match next with Reasoning | Diagnosed | Paused => true | _ => false end
    | AwaitingApproval =>
        match next with Acting | ExecutingChange | Reasoning => true | _ => false end
    | AwaitingUser => match next with Reasoning => true | _ => false end
    | Diagnosed =>
        match next with
        | PlanningChange | Reasoning | Completed | Paused => true | _ => false end
    | PlanningChange =>
        match next with
        | AwaitingApproval | ExecutingChange | Reasoning | Paused => true | _ => false end
    | ExecutingChange =>
        match next with Verifying | RollingBack | Reasoning => true | _ => false end
    | Verifying =>
        match next with Completed | Reasoning | RollingBack => true | _ => false end
    | RollingBack => match next with Reasoning | Completed => true | _ => false end
    | Paused => match next with Running | Reasoning => true | _ => false end
    | Completed | Failed | Cancelled => false
    end
  end.

Definition state_transition_to (self next : AgentRunStateV2) :
    result AgentStateError AgentRunStateV2 :=
  if can_transition_to self next then Ok next
  else Err {| err_from := self; err_to := next |}.

(** The step relation of the table and its reflexive transitive closure. *)
Definition step (a b : AgentRunStateV2) : Prop := can_transition_to a b = true.
Abbreviation steps := (rtc step) (only parsing).

(** Steps that stay clear of a state. *)
Definition step_avoiding (x a b : AgentRunStateV2) : Prop := step a b /\ b <> x.

(** ** The run record *)
Record AgentRun := {
  run_id : Uuid;
  run_state : AgentRunStateV2;
  created_at_epoch_ms : N;
  updated_at_epoch_ms : N;
  next_event_seq : N;
}.
#[export] Instance agent_run_eq_dec : EqDecision AgentRun.
Proof. solve_decision. Defined.

(** [now_epoch_ms] on the milliseconds since the epoch, [None] when the clock
    is before it. *)
Definition now_epoch_ms (since_epoch : option N) : N :=
  match since_epoch with
  | Some ms => if (ms <=? U64_MAX)%N then ms else U64_MAX
  | None => 0%N
  end.

Definition with_created_at (id : Uuid) (created : N) : AgentRun :=
  {| run_id := id; run_state := Created; created_at_epoch_ms := created;
     updated_at_epoch_ms := created; next_event_seq := 1 |}.

Definition from_persisted (id : Uuid) (s : AgentRunStateV2) (created updated seq : N) :
    AgentRun :=
  {| run_id := id; run_state := s; created_at_epoch_ms := created;
     updated_at_epoch_ms := updated; next_event_seq := N.max seq 1 |}.

Definition peek_next_event_seq (r : AgentRun) : N := next_event_seq r.

Definition set_state (r : AgentRun) (s : AgentRunStateV2) (now : N) : AgentRun :=
  {| run_id := run_id r; run_state := s; created_at_epoch_ms := created_at_epoch_ms r;
     updated_at_epoch_ms := N.max now (updated_at_epoch_ms r);
     next_event_seq := next_event_seq r |}.

(** [AgentRun::transition_to]: the state is written only when the table allows
    it; the [?] leaves the run as it was. *)
Definition transition_to (next : AgentRunStateV2) (now : N) (r : AgentRun) :
    result AgentStateError unit * AgentRun :=
  match state_transition_to (run_state r) next with
  | Ok s => (Ok tt, set_state r s now)
  | Err e => (Err e, r)
  end.

(** [AgentRun::begin_user_turn]: the one writer that leaves a terminal state. *)
Definition begin_user_turn (now : N) (r : AgentRun) :
    result AgentStateError unit * AgentRun :=
  if negb (is_terminal (run_state r))
  then (Err {| err_from := run_state r; err_to := Reasoning |}, r)
  else (Ok tt, set_state r Reasoning now).

Definition next_event_sequence (r : AgentRun) : N * AgentRun :=
  (next_event_seq r,
   {| run_id := run_id r; run_state := run_state r;
      created_at_epoch_ms := created_at_epoch_ms r;
      updated_at_epoch_ms := updated_at_epoch_ms r;
      next_event_seq := sat_add64 (next_event_seq r) 1 |}).

(** Everything a holder of [&mut AgentRun] outside the module can do. *)
Inductive run_op :=
  | OpTransition (next : AgentRunStateV2) (now : N)
  | OpUserTurn (now : N)
  | OpSequence.

Definition apply_op (o : run_op) (r : AgentRun) : AgentRun :=
  match o with
  | OpTransition next now => (transition_to next now r).2
  | OpUserTurn now => (begin_user_turn now r).2
  | OpSequence => (next_event_sequence r).2
  end.

Definition apply_ops (os : list run_op) (r : AgentRun) : AgentRun :=
  foldl (fun r o => apply_op o r) r os.

(** The numbers handed out by [OpSequence] along a list of operations. *)
Fixpoint allocated (os : list run_op) (r : AgentRun) : list N :=
  match os with
  | [] => []
  | o :: rest =>
      match o with OpSequence => [next_event_seq r] | _ => [] end
      ++ allocated rest (apply_op o r)
  end.

(** ** Lemmas *)
Lemma all_states_complete s : s ∈ ALL_STATES.
Proof. destruct s; vm_compute; set_solver. Qed.

Lemma all_states_nodup : NoDup ALL_STATES.
Proof. apply (bool_decide_unpack _). by vm_compute. Qed.

Lemma terminal_no_step a b : is_terminal a = true -> ~ step a b.
Proof. unfold step, can_transition_to. by intros ->. Qed.

Lemma step_not_created a b : step a b -> b <> Created.
Proof. intros H ->. by destruct a. Qed.

Lemma transition_err next now r e :
  (transition_to next now r).1 = Err e ->
  (transition_to next now r).2 = r /\ e = {| err_from := run_state r; err_to := next |}.
Proof.
  unfold transition_to, state_transition_to. destruct (can_transition_to _ _); cbn; [done|].
  by intros [= <-].
Qed.

Lemma transition_ok next now r :
  (transition_to next now r).1 = Ok tt <-> step (run_state r) next.
Proof. unfold transition_to, state_transition_to, step. by destruct (can_transition_to _ _). Qed.

Lemma transition_ok_state next now r :
  (transition_to next now r).1 = Ok tt ->
  (transition_to next now r).2 = set_state r next now.
Proof. unfold transition_to, state_transition_to. by destruct (can_transition_to _ _). Qed.

Lemma apply_op_seq o r :
  next_event_seq (apply_op o r) =
  match o with OpSequence => sat_add64 (next_event_seq r) 1 | _ => next_event_seq r end.
Proof.
  destruct o; cbn; [|by unfold begin_user_turn; case_match|done].
  unfold transition_to. by case_match.
Qed.

Lemma apply_op_times o r :
  (updated_at_epoch_ms r <= updated_at_epoch_ms (apply_op o r))%N /\
  created_at_epoch_ms (apply_op o r) = created_at_epoch_ms r /\
  run_id (apply_op o r) = run_id r.
Proof.
  destruct o; cbn.
  - unfold transition_to. case_match; cbn; repeat split; lia.
  - unfold begin_user_turn. case_match; cbn; repeat split; lia.
  - repeat split; lia.
Qed.

Lemma allocated_bounds os r n :
  (next_event_seq r <= U64_MAX)%N ->
  n ∈ allocated os r -> (next_event_seq r <= n)%N.
Proof.
  revert r. induction os as [|o os IH]; intros r Hr; cbn; [set_solver|].
  rewrite elem_of_app. intros [H|H].
  - destruct o; set_solver by lia.
  - apply IH in H.
    + rewrite apply_op_seq in H. unfold sat_add64, sat_add in H. destruct o; lia.
    + rewrite apply_op_seq. unfold sat_add64, sat_add. destruct o; lia.
Qed.

(** ** Properties *)

(** The transition table of [AgentRunStateV2]: every state is exactly one
    of created, active, interrupt or terminal; terminal states have no
    successor and every other state can fail or be cancelled; [Paused] is
    never entered while a change executes, is verified or is rolled back; and
    no state is a dead end, because every non-terminal state can still reach
    [Completed]. *)
Theorem transition_table_sound :
  (forall s, (if decide (s = Created) then 1 else 0) + Nat.b2n (is_active s)
             + Nat.b2n (is_interrupt s) + Nat.b2n (is_terminal s) = 1)%nat /\
  (forall s, is_terminal s = true <-> forall s', ~ step s s') /\
  (forall s, is_terminal s = false -> step s Failed /\ step s Cancelled) /\
  (forall s, step s Paused -> s <> ExecutingChange /\ s <> Verifying /\ s <> RollingBack) /\
  (forall s, is_terminal s = false -> steps s Completed).
Proof.
  split; [by intros []|]. split.
  { intros s. split; [intros Ht s'; by apply terminal_no_step|].
    intros H. destruct (is_terminal s) eqn:E; [done|].
    exfalso. apply (H Failed). unfold step, can_transition_to. by rewrite E. }
  split; [intros s E; unfold step, can_transition_to; by rewrite E|].
  split; [by intros [] H|].
  assert (steps Reasoning Completed) as HR by (by apply rtc_once).
  assert (forall s, step s Reasoning -> steps s Completed) as Hvia
    by (intros s Hs; by eapply rtc_l).
  intros [] Ht; try done; try (by apply Hvia).
  - apply (rtc_l _ _ Running); [done|]. by apply Hvia.
  - apply (rtc_l _ _ Observing); [done|]. by apply Hvia.
Qed.

(** A run completes only after it has reasoned: along the transition
    table every path from [Created] to [Completed] goes through [Reasoning],
    and every path to [ExecutingChange] (a write) does too. *)
Theorem completion_requires_reasoning s :
  rtc (step_avoiding Reasoning) Created s ->
  s <> Completed /\ s <> ExecutingChange /\ s <> Acting /\ s <> Verifying.
Proof.
  intros H.
  assert (s = Created \/ s = Running \/ s = Paused \/ s = Failed \/ s = Cancelled) as Hs.
  { refine (rtc_ind_r (fun s => s = Created \/ s = Running \/ s = Paused \/ s = Failed
                                \/ s = Cancelled) Created _ _ s H); [by left|].
    intros y z _ [Hstep Hne] Hy. unfold step in Hstep.
    destruct Hy as [-> | [-> | [-> | [-> | ->]]]], z; vm_compute in Hstep; try done; tauto. }
  by destruct Hs as [-> | [-> | [-> | [-> | ->]]]].
Qed.

Lemma completion_requires_reasoning_witness :
  rtc (step_avoiding Reasoning) Created Paused /\ Paused <> Completed.
Proof.
  assert (rtc (step_avoiding Reasoning) Created Paused) as H.
  { apply (rtc_l _ _ Running); [by split|]. apply rtc_once. by split. }
  split; [exact H|]. exact (proj1 (completion_requires_reasoning Paused H)).
Defined.

(** The [AgentRun] record under any sequence of its operations: the
    identity and creation time never change, the update time never decreases
    even if the clock does, a rejected transition changes nothing, and the
    event sequence numbers handed out are pairwise distinct and strictly
    increasing as long as the [u64] cursor has not saturated. *)
Theorem run_operations_sound os r :
  (next_event_seq r + N.of_nat (length os) <= U64_MAX)%N ->
  run_id (apply_ops os r) = run_id r /\
  created_at_epoch_ms (apply_ops os r) = created_at_epoch_ms r /\
  (updated_at_epoch_ms r <= updated_at_epoch_ms (apply_ops os r))%N /\
  StronglySorted N.lt (allocated os r) /\
  (forall next now e, (transition_to next now r).1 = Err e ->
                      (transition_to next now r).2 = r).
Proof.
  intros Hb. assert (forall os r, (next_event_seq r + N.of_nat (length os) <= U64_MAX)%N ->
    run_id (apply_ops os r) = run_id r /\
    created_at_epoch_ms (apply_ops os r) = created_at_epoch_ms r /\
    (updated_at_epoch_ms r <= updated_at_epoch_ms (apply_ops os r))%N /\
    StronglySorted N.lt (allocated os r)) as Hall.
  { clear. intros os. induction os as [|o os IH]; intros r Hb; cbn.
    { repeat split; [lia|constructor]. }
    assert (next_event_seq (apply_op o r) + N.of_nat (length os) <= U64_MAX)%N as Hb'.
    { rewrite apply_op_seq. cbn [length] in Hb. unfold sat_add64, sat_add. destruct o; lia. }
    destruct (IH _ Hb') as (H1 & H2 & H3 & H4).
    destruct (apply_op_times o r) as (T1 & T2 & T3).
    unfold apply_ops in *. rewrite H1, H2, T2, T3. repeat split; [lia|].
    destruct o; cbn [app]; try done. constructor; [done|]. apply Forall_forall.
    intros n Hn. apply allocated_bounds in Hn; [|lia].
    rewrite apply_op_seq in Hn. cbn [length] in Hb. unfold sat_add64, sat_add in Hn. lia. }
  destruct (Hall os r Hb) as (H1 & H2 & H3 & H4). repeat split; try done.
  intros next now e H. by apply transition_err in H as [? _].
Qed.

Lemma run_operations_sound_witness :
  let r := with_created_at 7 1000 in
  let os := [OpSequence; OpTransition Running 900; OpSequence; OpTransition Completed 5] in
  allocated os r = [1; 2]%N /\ StronglySorted N.lt (allocated os r).
Proof.
  intros r os. split; [by vm_compute|].
  assert (next_event_seq r + N.of_nat (length os) <= U64_MAX)%N as H by (vm_compute; done).
  exact (proj1 (proj2 (proj2 (proj2 (run_operations_sound os r H))))).
Defined.
