(* ===== verification/Context.v ===== *)
(** * Model context and secret redaction (agentic/context.rs)

    Context items with their trust and freshness, the bounded snapshot built
    for each reasoning round, its compaction to facts, and [redact_secrets],
    which every remote string passes before it reaches a model, an event or a
    store. *)
From S2P Require Import Prelude Str RunState.

Definition MAX_USER_REQUEST_BYTES : N := 8 * 1024.
Definition DEFAULT_CONTEXT_TTL_MS : N := 30000.

Inductive ContextSource :=
  | SrcServer | SrcTerminal | SrcIncident | SrcFiles | SrcLogs | SrcNativeTools
  | SrcMcp | SrcUser | SrcSkill.
#[export] Instance context_source_eq_dec : EqDecision ContextSource.
Proof. solve_decision. Defined.

Inductive ContextTrust :=
  | TrustedUserInstruction | UntrustedRemoteData | UntrustedExternalData
  | ConstrainedSkillGuidance.
#[export] Instance context_trust_eq_dec : EqDecision ContextTrust.
Proof. solve_decision. Defined.

Record ContextFreshness := { observed_at : N; ttl_ms : N }.

Definition is_fresh (f : ContextFreshness) (now : N) : bool :=
  (sat_sub now (observed_at f) <=? ttl_ms f)%N.

Record ContextBudget := { max_items : N; max_bytes : N; max_tokens : N }.

Definition default_context_budget : ContextBudget :=
  {| max_items := 32; max_bytes := 64 * 1024; max_tokens := 8192 |}.

Record ContextFact := {
  cf_source : ContextSource;
  cf_target_id : option Uuid;
  cf_evidence_id : option Uuid;
  cf_key : str;
  cf_value : str;
}.

Record AgentContextItem := {
  ci_id : Uuid;
  ci_source : str;
  ci_source_kind : ContextSource;
  ci_trust : ContextTrust;
  ci_redacted : bool;
  ci_content : str;
  ci_freshness : ContextFreshness;
  ci_estimated_tokens : N;
}.

Record ContextSnapshot := {
  cs_items : list AgentContextItem;
  cs_facts : list ContextFact;
  cs_estimated_tokens : N;
  cs_total_bytes : N;
  cs_compaction_count : N;
}.

(** ** Redaction *)
Definition SECRET_MARKERS : list str :=
  [lit "PASSWORD"; lit "PASSWD"; lit "SECRET"; lit "TOKEN"; lit "API_KEY";
   lit "PRIVATE_KEY"; lit "AUTHORIZATION"; lit "BEARER "; lit "COOKIE";
   lit "DATABASE_URL"].

Definition sensitive_line (line : str) : bool :=
  contains_any (to_ascii_uppercase line) SECRET_MARKERS.

(** [['=', ':']]. *)
Definition key_separator (c : chr) : bool := (c =? 61)%N || (c =? 58)%N.

Definition redaction_key (line : str) : str :=
  match split key_separator line with
  | value :: _ => if (blen value <=? 64)%N then trim value else lit "SENSITIVE_VALUE"
  | [] => lit "SENSITIVE_VALUE"
  end.

Definition redact_line (line : str) : str :=
  if sensitive_line line then redaction_key line ++ lit "=[REDACTED]" else line.

Definition redact_secrets (input : str) : str * bool :=
  (join (lit "
") (map redact_line (lines input)), existsb sensitive_line (lines input)).

(** ** Building and bounding a context *)
Definition estimate_tokens (bytes : N) : N := N.min ((bytes + 3) / 4) U32_MAX.

Definition user_context (id : Uuid) (input : str) (observed : N) : AgentContextItem :=
  let bounded := if (MAX_USER_REQUEST_BYTES <? blen input)%N
                 then take_bytes MAX_USER_REQUEST_BYTES input else input in
  let '(content, redacted) := redact_secrets bounded in
  {| ci_id := id; ci_source := lit "user"; ci_source_kind := SrcUser;
     ci_trust := TrustedUserInstruction; ci_redacted := redacted;
     ci_content := content;
     ci_freshness := {| observed_at := observed; ttl_ms := U64_MAX |};
     ci_estimated_tokens := estimate_tokens (blen bounded) |}.

Definition skill_context (uuid : Uuid) (id instructions : str) (observed : N) :
    AgentContextItem :=
  let '(content, redacted) := redact_secrets instructions in
  {| ci_id := uuid; ci_source := lit "skill:" ++ id; ci_source_kind := SrcSkill;
     ci_trust := ConstrainedSkillGuidance; ci_redacted := redacted;
     ci_content := content;
     ci_freshness := {| observed_at := observed; ttl_ms := DEFAULT_CONTEXT_TTL_MS * 10 |};
     ci_estimated_tokens := estimate_tokens (blen instructions) |}.

Definition source_rank (s : ContextSource) : N :=
  match s with SrcUser => 0 | SrcIncident => 1 | SrcNativeTools => 2 | _ => 3 end.

(** The second [retain] of [snapshot], with the running totals it captures. *)
Fixpoint retain_within (b : ContextBudget) (bytes tokens : N) (l : list AgentContextItem) :
    list AgentContextItem :=
  match l with
  | [] => []
  | item :: rest =>
      let next_bytes := (bytes + blen (ci_content item))%N in
      let next_tokens := sat_add32 tokens (ci_estimated_tokens item) in
      if (next_bytes <=? max_bytes b)%N && (next_tokens <=? max_tokens b)%N
         && (bytes <? max_bytes b)%N
      then item :: retain_within b next_bytes next_tokens rest
      else retain_within b bytes tokens rest
  end.

Definition total_bytes (l : list AgentContextItem) : N :=
  sumN (map (fun i => blen (ci_content i)) l).
Definition total_tokens (l : list AgentContextItem) : N :=
  wrap32 (sumN (map ci_estimated_tokens l)).

Definition snapshot (items : list AgentContextItem) (budget : ContextBudget) (now : N) :
    ContextSnapshot :=
  let fresh := filter (fun i => is_fresh (ci_freshness i) now = true) items in
  let sorted := sort_by_key (fun i => source_rank (ci_source_kind i)) fresh in
  let kept := take (N.to_nat (max_items budget)) (retain_within budget 0 0 sorted) in
  {| cs_items := kept; cs_facts := []; cs_estimated_tokens := total_tokens kept;
     cs_total_bytes := total_bytes kept; cs_compaction_count := 0 |}.

Definition survives_compaction (i : AgentContextItem) : bool :=
  match ci_source_kind i with SrcUser | SrcIncident => true | _ => false end.

Definition compact (s : ContextSnapshot) (facts : list ContextFact) : ContextSnapshot :=
  let facts := cs_facts s ++ facts in
  let items := filter (fun i => survives_compaction i = true) (cs_items s) in
  {| cs_items := items; cs_facts := facts;
     cs_estimated_tokens :=
       wrap32 (total_tokens items
               + wrap32 (sumN (map (fun f =>
                   estimate_tokens (blen (cf_key f) + blen (cf_value f))) facts)));
     cs_total_bytes := total_bytes items;
     cs_compaction_count := sat_add32 (cs_compaction_count s) 1 |}.

(** ** Lemmas *)
Lemma retain_within_sublist b x y l : retain_within b x y l `sublist_of` l.
Proof.
  revert x y. induction l as [|i l IH]; intros x y; cbn; [done|].
  case_match; [by apply sublist_skip | by apply sublist_cons].
Qed.

Lemma retain_within_bytes b x y l :
  (x <= max_bytes b)%N -> (x + total_bytes (retain_within b x y l) <= max_bytes b)%N.
Proof.
  revert x y. induction l as [|i l IH]; intros x y Hx; cbn [retain_within].
  - unfold total_bytes. cbn. lia.
  - case_match; [|by apply IH]. breflect.
    unfold total_bytes. cbn [map sumN foldr].
    opose proof (IH (x + blen (ci_content i))%N (sat_add32 y (ci_estimated_tokens i)) _)
      as IH'; [done|].
    unfold total_bytes, sumN in IH'. lia.
Qed.

Lemma retain_within_tokens b x y l :
  (max_tokens b < U32_MAX)%N -> (y <= max_tokens b)%N ->
  (y + sumN (map ci_estimated_tokens (retain_within b x y l)) <= max_tokens b)%N.
Proof.
  intros Hm. revert x y. induction l as [|i l IH]; intros x y Hy; cbn [retain_within].
  - cbn. lia.
  - case_match; [|by apply IH]. breflect. cbn [map sumN foldr].
    opose proof (IH (x + blen (ci_content i))%N (sat_add32 y (ci_estimated_tokens i)) _)
      as IH'; [done|].
    unfold sumN in IH'. unfold sat_add32, sat_add in *. lia.
Qed.

Lemma sumN_take (f : AgentContextItem -> N) n l :
  (sumN (map f (take n l)) <= sumN (map f l))%N.
Proof.
  revert n. induction l as [|x l IH]; intros [|n]; cbn; try lia.
  specialize (IH n). unfold sumN in IH. lia.
Qed.

Lemma redaction_key_no_sep line c :
  c ∈ redaction_key line -> key_separator c = false.
Proof.
  unfold redaction_key. destruct (split key_separator line) as [|v r] eqn:E.
  - intros H. revert c H. apply Forall_forall. apply (bool_decide_unpack _). by vm_compute.
  - case_match; intros Hc.
    + apply elem_of_trim in Hc. by eapply split_head.
    + revert c Hc. apply Forall_forall. apply (bool_decide_unpack _). by vm_compute.
Qed.

Lemma redaction_key_short line : (blen (redaction_key line) <= 64)%N.
Proof.
  unfold redaction_key. case_match; [by vm_compute|]. case_match; [|by vm_compute].
  breflect. pose proof (trim_blen l). lia.
Qed.

Lemma redaction_key_trimmed line : trim (redaction_key line) = redaction_key line.
Proof. unfold redaction_key. repeat case_match; auto with runory; by vm_compute. Qed.

Lemma redaction_key_stable line rest :
  redaction_key (redaction_key line ++ 61%N :: rest) = redaction_key line.
Proof.
  unfold redaction_key at 1.
  rewrite split_sep; [|by apply redaction_key_no_sep|done].
  pose proof (redaction_key_short line) as H. apply N.leb_le in H. rewrite H.
  apply redaction_key_trimmed.
Qed.

(** ** Properties *)

(** Redaction does not depend on what follows the separator: two lines
    that name the same key before a ['='] or [':'] and carry a marker in that
    key redact to the same text, whatever the values are; redacting a redacted
    line changes nothing; and a text none of whose lines carries a marker is
    returned line by line, unflagged. *)
Theorem redaction_hides_values :
  (forall key sep v1 v2,
     (forall c, c ∈ key -> key_separator c = false) -> key_separator sep = true ->
     sensitive_line key = true ->
     redact_line (key ++ sep :: v1) = redact_line (key ++ sep :: v2)) /\
  (forall line, redact_line (redact_line line) = redact_line line) /\
  (forall text, (redact_secrets text).2 = false ->
     (redact_secrets text).1 = join (lit "
") (lines text)).
Proof.
  split; [|split].
  - intros key sep v1 v2 Hk Hs Hm. unfold redact_line.
    assert (forall v, sensitive_line (key ++ sep :: v) = true) as Hsens.
    { intros v. unfold sensitive_line, contains_any, to_ascii_uppercase in *.
      apply Existsb_exists in Hm as (m & Hin & Hm). apply Existsb_exists.
      exists m. split; [done|]. rewrite map_app. by apply contains_app_r. }
    rewrite !Hsens. f_equal. unfold redaction_key. by rewrite !split_sep.
  - intros line. unfold redact_line at 2 3. destruct (sensitive_line line) eqn:E.
    + unfold redact_line. case_match; [|done].
      change (lit "=[REDACTED]") with (61%N :: lit "[REDACTED]").
      by rewrite redaction_key_stable.
    + unfold redact_line. by rewrite E.
  - intros text H. unfold redact_secrets in *. cbn in *. f_equal.
    apply Existsb_false in H || rewrite Existsb_false in H.
    rewrite <- (map_id (lines text)) at 2. apply map_ext_in. intros l Hl.
    unfold redact_line. rewrite H; [done|]. by apply list_elem_of_In.
Qed.

(** A snapshot never exceeds its budget: at most [max_items] items,
    [max_bytes] bytes and [max_tokens] estimated tokens; the totals it reports
    are those of the items it holds (the [u32] sum cannot wrap); every item is
    fresh and comes from the input; and items are in priority order, user
    instructions first. *)
Theorem snapshot_within_budget items b now :
  (max_tokens b < U32_MAX)%N ->
  let s := snapshot items b now in
  (list_lenN (cs_items s) <= max_items b)%N /\
  (cs_total_bytes s <= max_bytes b)%N /\
  (cs_estimated_tokens s <= max_tokens b)%N /\
  cs_estimated_tokens s = sumN (map ci_estimated_tokens (cs_items s)) /\
  (forall i, i ∈ cs_items s -> i ∈ items /\ is_fresh (ci_freshness i) now = true) /\
  StronglySorted (fun a b => source_rank (ci_source_kind a)
                             <= source_rank (ci_source_kind b))%N (cs_items s).
Proof.
  intros Hm s. subst s. unfold snapshot. cbn [cs_items cs_total_bytes cs_estimated_tokens].
  set (sorted := sort_by_key _ _). set (kept := retain_within b 0 0 sorted).
  assert (sumN (map ci_estimated_tokens (take (N.to_nat (max_items b)) kept))
          <= max_tokens b)%N as Htok.
  { pose proof (sumN_take ci_estimated_tokens (N.to_nat (max_items b)) kept).
    pose proof (retain_within_tokens b 0 0 sorted Hm ltac:(lia)). unfold kept in *. lia. }
  assert (take (N.to_nat (max_items b)) kept `sublist_of` sorted) as Hsub.
  { transitivity kept; [apply sublist_take | apply retain_within_sublist]. }
  repeat apply conj.
  - unfold list_lenN. rewrite length_take. lia.
  - pose proof (sumN_take (fun i => blen (ci_content i)) (N.to_nat (max_items b)) kept).
    pose proof (retain_within_bytes b 0 0 sorted ltac:(lia)).
    unfold total_bytes, kept in *. lia.
  - unfold total_tokens. rewrite wrap32_small; lia.
  - unfold total_tokens. apply wrap32_small. lia.
  - intros i Hi. assert (i ∈ sorted) as Hin by (by eapply elem_of_sublist).
    unfold sorted in Hin. rewrite sort_by_key_perm in Hin.
    apply list_elem_of_filter in Hin. tauto.
  - eapply StronglySorted_sublist; [done|]. apply sort_by_key_sorted.
Qed.

Lemma redaction_hides_values_witness :
  sensitive_line (lit "DB_PASSWORD") = true /\
  redact_line (lit "DB_PASSWORD=hunter2") = redact_line (lit "DB_PASSWORD=s3cret") /\
  redact_line (lit "DB_PASSWORD=hunter2") = lit "DB_PASSWORD=[REDACTED]".
Proof.
  split; [by vm_compute|]. split; [|by vm_compute].
  refine (proj1 redaction_hides_values (lit "DB_PASSWORD") 61%N (lit "hunter2")
            (lit "s3cret") _ _ _); [|by vm_compute|by vm_compute].
  apply Forall_forall. apply (bool_decide_unpack _). by vm_compute.
Defined.

Lemma snapshot_within_budget_witness :
  let items := [user_context 1 (lit "why is nginx down?") 1000;
                skill_context 2 (lit "web") (lit "check the port") 1000] in
  let s := snapshot items default_context_budget 2000 in
  list_lenN (cs_items s) = 2%N /\ (cs_total_bytes s <= 65536)%N.
Proof.
  intros items s. split; [by vm_compute|].
  assert (max_tokens default_context_budget < U32_MAX)%N as H by (by vm_compute).
  exact (proj1 (proj2 (snapshot_within_budget items default_context_budget 2000 H))).
Defined.

(** What redaction does not hide: when a marked line has no ['='] or [':'] and
    is at most 64 bytes long, the "key" is the whole line, so the secret is
    kept, only followed by ["=[REDACTED]"].  The same holds for any such line. *)
Lemma redaction_keeps_unseparated_line line :
  sensitive_line line = true -> (forall c, c ∈ line -> key_separator c = false) ->
  (blen line <= 64)%N ->
  redact_line line = trim line ++ lit "=[REDACTED]".
Proof.
  intros Hs Hc Hl. unfold redact_line, redaction_key. rewrite Hs, split_none by done.
  apply N.leb_le in Hl. by rewrite Hl.
Qed.

Example redaction_leaks_flag_value :
  redact_secrets (lit "mysql -u root --password hunter2")
  = (lit "mysql -u root --password hunter2=[REDACTED]", true).
Proof. by vm_compute. Qed.
