(* ===== verification/Tools.v ===== *)
(** * Native tools (tools/descriptor.rs, tools/registry.rs, tools/terminal.rs)

    The closed vocabulary of tools with their descriptors, and the parser that
    turns a model-proposed call into a typed read invocation, and the tool
    policy (tools/policy.rs) that a batch is admitted by. *)
From S2P Require Import Prelude Str Json Errors.

(** ** Tool names and descriptors *)
Inductive NativeToolName :=
  | SystemInfo | SystemDisk | ServiceStatus | ServiceLogs | NetworkPortCheck
  | HttpRequest | NginxTest | DnsResolve | TlsInspect | NetworkListeners
  | ProcessList | FileInspect | SystemDirectoryUsage | SystemLargeFiles
  | DockerList | DockerInspect | DockerLogs | FilePatch | ServiceRestart
  | ServiceReload | NginxReload | DockerRestart | FilesystemInodeUsage
  | BlockDevicesList | TerminalExecReadonly.
#[export] Instance tool_name_eq_dec : EqDecision NativeToolName.
Proof. solve_decision. Defined.

Definition READ_ONLY : list NativeToolName :=
  [SystemInfo; SystemDisk; ServiceStatus; ServiceLogs; NetworkPortCheck; HttpRequest;
   NginxTest; DnsResolve; TlsInspect; NetworkListeners; ProcessList; FileInspect;
   SystemDirectoryUsage; SystemLargeFiles; DockerList; DockerInspect; DockerLogs;
   FilesystemInodeUsage; BlockDevicesList; TerminalExecReadonly].

Definition ALL_TOOLS : list NativeToolName :=
  [SystemInfo; SystemDisk; ServiceStatus; ServiceLogs; NetworkPortCheck; HttpRequest;
   NginxTest; DnsResolve; TlsInspect; NetworkListeners; ProcessList; FileInspect;
   SystemDirectoryUsage; SystemLargeFiles; DockerList; DockerInspect; DockerLogs;
   FilesystemInodeUsage; BlockDevicesList; TerminalExecReadonly;
   FilePatch; ServiceRestart; ServiceReload; NginxReload; DockerRestart].

Definition tool_as_str (t : NativeToolName) : str :=
  lit match t with
  | SystemInfo => "system.info"
  | SystemDisk => "system.disk_usage"
  | ServiceStatus => "service.status"
  | ServiceLogs => "service.logs"
  | NetworkPortCheck => "network.port_check"
  | HttpRequest => "http.request"
  | NginxTest => "nginx.test"
  | DnsResolve => "dns.resolve"
  | TlsInspect => "tls.inspect"
  | NetworkListeners => "network.listeners"
  | ProcessList => "process.list"
  | FileInspect => "file.inspect"
  | SystemDirectoryUsage => "system.directory_usage"
  | SystemLargeFiles => "system.large_files"
  | DockerList => "docker.list"
  | DockerInspect => "docker.inspect"
  | DockerLogs => "docker.logs"
  | FilePatch => "file.patch"
  | ServiceRestart => "service.restart"
  | ServiceReload => "service.reload"
  | NginxReload => "nginx.reload"
  | DockerRestart => "docker.restart"
  | FilesystemInodeUsage => "filesystem.inode_usage"
  | BlockDevicesList => "block_devices.list"
  | TerminalExecReadonly => "terminal.exec_readonly"
  end%string.

Inductive RiskLevel := R0 | R1 | R2 | R3 | R4.
#[export] Instance risk_level_eq_dec : EqDecision RiskLevel.
Proof. solve_decision. Defined.

(** [format!("{:?}", risk)]. *)
Definition risk_debug (r : RiskLevel) : str :=
  lit match r with R0 => "R0" | R1 => "R1" | R2 => "R2" | R3 => "R3" | R4 => "R4" end%string.

Inductive Mutability := Read | Write.
#[export] Instance mutability_eq_dec : EqDecision Mutability.
Proof. solve_decision. Defined.

Inductive ResourceImpact :=
  | ImpactLow | ImpactMedium | HighIo | HighCpu | LongRunning | ExternalCost.
#[export] Instance resource_impact_eq_dec : EqDecision ResourceImpact.
Proof. solve_decision. Defined.

Inductive ToolScope := ScopeServer | ScopeSession | ScopeWorkspace | ScopeExternal.
#[export] Instance tool_scope_eq_dec : EqDecision ToolScope.
Proof. solve_decision. Defined.

Record ToolDescriptor := {
  td_name : NativeToolName;
  td_description : str;
  td_input_schema : json;
  td_output_schema : json;
  td_risk_level : RiskLevel;
  td_mutability : Mutability;
  td_requires_approval : bool;
  td_supports_rollback : bool;
  td_scope : ToolScope;
  td_resource_impact : ResourceImpact;
  td_timeout_ms : N;
}.

(** *** Schema builders *)
Definition schema_object (properties : json_map) (required : option (list json))
    (closed : bool) : json :=
  jobj ([(lit "type", jstr "object"); (lit "properties", JObject properties)]
        ++ match required with Some l => [(lit "required", JArray l)] | None => [] end
        ++ if closed then [(lit "additionalProperties", JBool false)] else []).

Definition empty_input : json := schema_object [] None true.
Definition object_input (properties : json_map) : json :=
  schema_object properties (Some (map JString (properties.*1))) true.
Definition object_output (properties : json_map) : json :=
  schema_object properties (Some (map JString (properties.*1))) true.
Definition generic_object_output : json := schema_object [] (Some []) false.

Definition s_string : json := jobj [(lit "type", jstr "string")].
Definition s_boolean : json := jobj [(lit "type", jstr "boolean")].
Definition s_string_max (n : N) : json :=
  jobj [(lit "type", jstr "string"); (lit "maxLength", jint n)].
Definition s_string_range (lo hi : N) : json :=
  jobj [(lit "type", jstr "string"); (lit "minLength", jint lo); (lit "maxLength", jint hi)].
Definition s_int_range (lo hi : N) : json :=
  jobj [(lit "type", jstr "integer"); (lit "minimum", jint lo); (lit "maximum", jint hi)].
Definition s_int_min (lo : N) : json :=
  jobj [(lit "type", jstr "integer"); (lit "minimum", jint lo)].
Definition s_number_min (lo : N) : json :=
  jobj [(lit "type", jstr "number"); (lit "minimum", jint lo)].
Definition s_nullable (ty : String.string) (rest : json_map) : json :=
  jobj ((lit "type", JArray [jstr ty; jstr "null"]) :: rest).
Definition s_array (items : json) : json :=
  jobj [(lit "type", jstr "array"); (lit "items", items)].
Definition s_enum (l : list str) : json := jobj [(lit "enum", JArray (map JString l))].

Definition descriptor (name : NativeToolName) (description : str)
    (input_schema output_schema : json) (risk : RiskLevel) (impact : ResourceImpact) :
    ToolDescriptor :=
  {| td_name := name; td_description := description;
     td_input_schema := input_schema; td_output_schema := output_schema;
     td_risk_level := risk; td_mutability := Read; td_requires_approval := false;
     td_supports_rollback := false; td_scope := ScopeSession;
     td_resource_impact := impact; td_timeout_ms := 30000 |}.

Definition write_input_schema (name : NativeToolName) : json :=
  match name with
  | FilePatch =>
      object_input [(lit "path", s_string_range 1 4096);
                    (lit "expected", s_string_range 1 524288);
                    (lit "replacement", s_string_max 524288)]
  | ServiceRestart | ServiceReload => object_input [(lit "service", s_string_range 1 128)]
  | NginxReload => empty_input
  | DockerRestart => object_input [(lit "container", s_string_range 1 256)]
  | _ => empty_input
  end.

Definition write_output_schema (name : NativeToolName) : json :=
  match name with
  | FilePatch => object_output [(lit "path", s_string); (lit "bytes", s_int_min 0);
                                (lit "verified", s_boolean)]
  | _ => object_output [(lit "service", s_string); (lit "action", s_string);
                        (lit "verified", s_boolean)]
  end.

Definition write_descriptor (name : NativeToolName) (description : str) (risk : RiskLevel)
    (supports_rollback : bool) : ToolDescriptor :=
  {| td_name := name; td_description := description;
     td_input_schema := write_input_schema name;
     td_output_schema := write_output_schema name;
     td_risk_level := risk; td_mutability := Write; td_requires_approval := true;
     td_supports_rollback := supports_rollback; td_scope := ScopeSession;
     td_resource_impact := ImpactMedium; td_timeout_ms := 30000 |}.

(** The seven tools of the first tool set. *)
Definition foundation_descriptors : list ToolDescriptor := [
  descriptor SystemInfo (lit "Collect basic operating system and host information.")
    empty_input
    (object_output [(lit "hostname", s_string); (lit "operatingSystem", s_string);
                    (lit "kernelRelease", s_string); (lit "architecture", s_string)])
    R0 ImpactLow;
  descriptor SystemDisk (lit "Collect mounted filesystem capacity and utilization.")
    empty_input
    (object_output [(lit "disks", s_array
       (schema_object
          [(lit "mount", s_string); (lit "usedBytes", s_int_min 0);
           (lit "totalBytes", s_int_min 0); (lit "usagePercent", s_number_min 0)]
          (Some [jstr "mount"; jstr "usedBytes"; jstr "totalBytes"; jstr "usagePercent"])
          true))])
    R0 ImpactLow;
  descriptor ServiceStatus (lit "Read the current status of one system service.")
    (object_input [(lit "service", s_string_range 1 128)])
    (object_output [(lit "service",
       schema_object
         [(lit "name", s_string);
          (lit "status", s_enum [lit "active"; lit "inactive"; lit "failed"; lit "unknown"])]
         (Some [jstr "name"; jstr "status"]) true)])
    R0 ImpactLow;
  descriptor ServiceLogs (lit "Read a bounded tail of logs for one system service.")
    (object_input [(lit "service", s_string_range 1 128); (lit "lines", s_int_range 20 500)])
    (object_output [(lit "service", s_string); (lit "entries", s_array s_string)])
    R1 LongRunning;
  descriptor NetworkPortCheck
    (lit "Check TCP reachability from the selected server session.")
    (object_input [(lit "host", s_string_range 1 255); (lit "port", s_int_range 1 65535)])
    (object_output [(lit "host", s_string); (lit "port", s_int_range 1 65535);
                    (lit "reachable", s_boolean)])
    R1 ImpactMedium;
  descriptor HttpRequest
    (lit "Perform one bounded HTTP GET request from the selected server session.")
    (object_input [(lit "url", s_string_range 8 2048)])
    (object_output [(lit "statusCode", s_int_range 100 599);
                    (lit "contentType", s_nullable "string" []);
                    (lit "bodyPreview", s_string); (lit "bodyBytes", s_int_min 0)])
    R1 ExternalCost;
  descriptor NginxTest (lit "Validate the active Nginx configuration without reloading it.")
    empty_input
    (object_output [(lit "valid", s_boolean); (lit "configFile", s_nullable "string" []);
                    (lit "errorFile", s_nullable "string" []);
                    (lit "errorLine", s_nullable "integer" [(lit "minimum", jint 1)]);
                    (lit "errorMessage", s_nullable "string" []);
                    (lit "rawSummary", s_string_max 16384)])
    R1 ImpactLow].

(** The tools added for incident diagnosis. *)
Definition incident_descriptors : list ToolDescriptor := [
  descriptor DnsResolve (lit "Resolve one DNS name from the target.")
    (object_input [(lit "host", s_string_range 1 255)])
    generic_object_output R1 ImpactMedium;
  descriptor TlsInspect (lit "Inspect one TLS endpoint without sending application data.")
    (object_input [(lit "host", s_string_range 1 255); (lit "port", s_int_range 1 65535)])
    generic_object_output R1 ExternalCost;
  descriptor NetworkListeners (lit "List bounded TCP listeners.")
    empty_input generic_object_output R1 ImpactMedium;
  descriptor ProcessList (lit "List bounded high-CPU processes.")
    empty_input generic_object_output R1 HighCpu;
  descriptor FileInspect
    (lit "Inspect bounded metadata and redacted text for one explicit remote file.")
    (object_input [(lit "path", s_string_range 1 4096)])
    generic_object_output R1 ImpactMedium;
  descriptor SystemDirectoryUsage
    (lit "Measure immediate children of one explicit directory.")
    (object_input [(lit "path", s_string_range 1 4096)])
    generic_object_output R1 HighIo;
  descriptor SystemLargeFiles
    (lit "List bounded large regular files below one explicit directory.")
    (object_input [(lit "path", s_string_range 1 4096);
                   (lit "minimumBytes", s_int_range 1048576 1099511627776)])
    generic_object_output R1 HighIo;
  descriptor DockerList (lit "List bounded Docker container state.")
    empty_input generic_object_output R1 ImpactMedium;
  descriptor DockerInspect (lit "Inspect one validated Docker container.")
    (object_input [(lit "container", s_string_range 1 256)])
    generic_object_output R1 ImpactMedium;
  descriptor DockerLogs (lit "Read a bounded Docker log tail.")
    (object_input [(lit "container", s_string_range 1 256); (lit "lines", s_int_range 20 500)])
    generic_object_output R1 LongRunning;
  descriptor FilesystemInodeUsage
    (lit "Collect inode utilization for mounted filesystems (df -i).")
    empty_input generic_object_output R0 ImpactLow;
  descriptor BlockDevicesList (lit "List block devices and mount relationships (lsblk).")
    empty_input generic_object_output R0 ImpactLow;
  descriptor TerminalExecReadonly
    (lit "Execute one allowlisted read-only command when no typed tool exists.")
    (object_input [(lit "command", s_string_range 1 256)])
    generic_object_output R1 ImpactMedium].

Definition write_descriptors : list ToolDescriptor := [
  write_descriptor FilePatch (lit "Apply one exact bounded text replacement.") R3 true;
  write_descriptor ServiceRestart (lit "Restart one validated system service.") R3 false;
  write_descriptor ServiceReload (lit "Reload one validated system service.") R2 false;
  write_descriptor NginxReload (lit "Reload Nginx after configuration validation.") R2 false;
  write_descriptor DockerRestart (lit "Restart one validated Docker container.") R3 false].

Definition native_descriptors : list ToolDescriptor :=
  foundation_descriptors ++ incident_descriptors ++ write_descriptors.

Definition find_descriptor (name : NativeToolName) : option ToolDescriptor :=
  find (fun d => bool_decide (td_name d = name)) native_descriptors.

Definition resource_impact_for (name : NativeToolName) : ResourceImpact :=
  match find_descriptor name with Some d => td_resource_impact d | None => ImpactMedium end.

(** ** Invocations (tools/registry.rs) *)
Inductive NativeToolInvocation :=
  | InvSystemInfo
  | InvSystemDisk
  | InvServiceStatus (service : str)
  | InvServiceLogs (service : str) (n_lines : N)
  | InvNetworkPortCheck (host : str) (port : N)
  | InvHttpRequest (url : str)
  | InvNginxTest
  | InvDnsResolve (host : str)
  | InvTlsInspect (host : str) (port : N)
  | InvNetworkListeners
  | InvProcessList
  | InvFileInspect (path : str)
  | InvSystemDirectoryUsage (path : str)
  | InvSystemLargeFiles (path : str) (minimum_bytes : N)
  | InvDockerList
  | InvDockerInspect (container : str)
  | InvDockerLogs (container : str) (n_lines : N)
  | InvFilePatch (path expected replacement : str)
  | InvServiceRestart (service : str)
  | InvServiceReload (service : str)
  | InvNginxReload
  | InvDockerRestart (container : str)
  | InvFilesystemInodeUsage
  | InvBlockDevicesList
  | InvTerminalExecReadonly (command : str).
#[export] Instance invocation_eq_dec : EqDecision NativeToolInvocation.
Proof. solve_decision. Defined.

(** [NativeToolInvocation::name]. *)
Definition invocation_name (i : NativeToolInvocation) : NativeToolName :=
  match i with
  | InvSystemInfo => SystemInfo
  | InvSystemDisk => SystemDisk
  | InvServiceStatus _ => ServiceStatus
  | InvServiceLogs _ _ => ServiceLogs
  | InvNetworkPortCheck _ _ => NetworkPortCheck
  | InvHttpRequest _ => HttpRequest
  | InvNginxTest => NginxTest
  | InvDnsResolve _ => DnsResolve
  | InvTlsInspect _ _ => TlsInspect
  | InvNetworkListeners => NetworkListeners
  | InvProcessList => ProcessList
  | InvFileInspect _ => FileInspect
  | InvSystemDirectoryUsage _ => SystemDirectoryUsage
  | InvSystemLargeFiles _ _ => SystemLargeFiles
  | InvDockerList => DockerList
  | InvDockerInspect _ => DockerInspect
  | InvDockerLogs _ _ => DockerLogs
  | InvFilePatch _ _ _ => FilePatch
  | InvServiceRestart _ => ServiceRestart
  | InvServiceReload _ => ServiceReload
  | InvNginxReload => NginxReload
  | InvDockerRestart _ => DockerRestart
  | InvFilesystemInodeUsage => FilesystemInodeUsage
  | InvBlockDevicesList => BlockDevicesList
  | InvTerminalExecReadonly _ => TerminalExecReadonly
  end.

(** *** Argument checks *)
Definition empty (arguments : json_map) : AppResult unit :=
  match arguments with [] => Ok tt | _ => Err ModelResponseInvalid end.

Definition required_string (arguments : json_map) (key : str) : AppResult str :=
  ok_or (map_get arguments key ≫= as_str) ModelResponseInvalid.

Definition only_string (arguments : json_map) (key : str) : AppResult str :=
  if negb (length arguments =? 1)%nat then Err ModelResponseInvalid
  else required_string arguments key.

Definition bounded_string (value : str) (minimum maximum : N) : AppResult str :=
  if between minimum maximum (blen value) && negb (existsb is_control value)
  then Ok value else Err ModelResponseInvalid.

(** [byte.is_ascii_alphanumeric() || matches!(byte, b'.' | b'_' | b'@' | b':' | b'-')];
    a character beyond ASCII has only bytes that are neither. *)
Definition identifier_char (c : chr) : bool :=
  is_ascii_alphanumeric c || contains_char (lit "._@:-") c.

Definition identifier (value : str) (maximum : N) : AppResult str :=
  value ← bounded_string value 1 maximum;
  if forallb identifier_char value then Ok value else Err ModelResponseInvalid.

Definition host (value : str) : AppResult str :=
  value ← bounded_string value 1 255;
  if negb (starts_with value (lit "-")) && negb (existsb is_whitespace value)
  then Ok value else Err ModelResponseInvalid.

Definition path (value : str) : AppResult str :=
  value ← bounded_string value 1 4096;
  if starts_with value (lit "/") then Ok value else Err ModelResponseInvalid.

Definition bounded_u32 (arguments : json_map) (key : str) (minimum maximum : N) :
    AppResult N :=
  if negb (length arguments =? 2)%nat then Err ModelResponseInvalid else
  value ← ok_or (opt_filter (fun value => value <=? U32_MAX)%N
                    (map_get arguments key ≫= as_u64)) ModelResponseInvalid;
  if between minimum maximum value then Ok value else Err ModelResponseInvalid.

Definition bounded_u64 (arguments : json_map) (key : str) (minimum maximum : N) :
    AppResult N :=
  if negb (length arguments =? 2)%nat then Err ModelResponseInvalid else
  ok_or (opt_filter (between minimum maximum) (map_get arguments key ≫= as_u64))
        ModelResponseInvalid.

Definition port (arguments : json_map) : AppResult N :=
  if negb (length arguments =? 2)%nat then Err ModelResponseInvalid else
  ok_or (opt_filter (fun value => 0 <? value)%N
           (opt_filter (fun value => value <=? 65535)%N
              (map_get arguments (lit "port") ≫= as_u64))) ModelResponseInvalid.

(** *** The read-only terminal allowlist (tools/terminal.rs) *)
Definition ALLOWED_READONLY_COMMANDS : list str :=
  map (fun s => lit s)
    ["uptime"; "whoami"; "id"; "uname -a"; "uname -r"; "uname -m"; "free -h"; "free -b";
     "df -h"; "df -i"; "lsblk"; "lsblk -b"; "cat /proc/loadavg"; "cat /proc/meminfo"]%string.

(** [;], [|], [&], [$], [`], [<], [>], newline and carriage return. *)
Definition shell_metacharacter (c : chr) : bool :=
  contains_char [59; 124; 38; 36; 96; 60; 62; 10; 13]%N c.

Definition validate_readonly_command (command : str) : AppResult unit :=
  let trimmed := trim command in
  if is_empty trimmed || (256 <? blen trimmed)%N then Err InvalidOperation else
  if negb (length (lines trimmed) =? 1)%nat || existsb shell_metacharacter trimmed
  then Err InvalidOperation else
  if existsb (eq_ignore_ascii_case trimmed) ALLOWED_READONLY_COMMANDS
  then Ok tt else Err InvalidOperation.

(** [NativeToolInvocation::from_model_read_call]. *)
Definition from_model_read_call (name : NativeToolName) (arguments : json) :
    AppResult NativeToolInvocation :=
  arguments ← ok_or (as_object arguments) ModelResponseInvalid;
  match name with
  | SystemInfo => (fun _ => InvSystemInfo) <$> empty arguments
  | SystemDisk => (fun _ => InvSystemDisk) <$> empty arguments
  | ServiceStatus =>
      s ← only_string arguments (lit "service");
      service ← identifier s 128;
      Ok (InvServiceStatus service)
  | ServiceLogs =>
      s ← required_string arguments (lit "service");
      service ← identifier s 128;
      n ← bounded_u32 arguments (lit "lines") 20 500;
      Ok (InvServiceLogs service n)
  | NetworkPortCheck =>
      s ← required_string arguments (lit "host");
      h ← host s;
      p ← port arguments;
      Ok (InvNetworkPortCheck h p)
  | HttpRequest =>
      s ← only_string arguments (lit "url");
      url ← bounded_string s 8 2048;
      Ok (InvHttpRequest url)
  | NginxTest => (fun _ => InvNginxTest) <$> empty arguments
  | DnsResolve =>
      s ← only_string arguments (lit "host");
      h ← host s;
      Ok (InvDnsResolve h)
  | TlsInspect =>
      s ← required_string arguments (lit "host");
      h ← host s;
      p ← port arguments;
      Ok (InvTlsInspect h p)
  | NetworkListeners => (fun _ => InvNetworkListeners) <$> empty arguments
  | ProcessList => (fun _ => InvProcessList) <$> empty arguments
  | FileInspect =>
      s ← only_string arguments (lit "path");
      p ← path s;
      Ok (InvFileInspect p)
  | SystemDirectoryUsage =>
      s ← only_string arguments (lit "path");
      p ← path s;
      Ok (InvSystemDirectoryUsage p)
  | SystemLargeFiles =>
      s ← required_string arguments (lit "path");
      p ← path s;
      n ← bounded_u64 arguments (lit "minimumBytes") 1048576 1099511627776;
      Ok (InvSystemLargeFiles p n)
  | DockerList => (fun _ => InvDockerList) <$> empty arguments
  | DockerInspect =>
      s ← only_string arguments (lit "container");
      c ← identifier s 256;
      Ok (InvDockerInspect c)
  | DockerLogs =>
      s ← required_string arguments (lit "container");
      c ← identifier s 256;
      n ← bounded_u32 arguments (lit "lines") 20 500;
      Ok (InvDockerLogs c n)
  | FilesystemInodeUsage => (fun _ => InvFilesystemInodeUsage) <$> empty arguments
  | BlockDevicesList => (fun _ => InvBlockDevicesList) <$> empty arguments
  | TerminalExecReadonly =>
      s ← only_string arguments (lit "command");
      command ← bounded_string s 1 256;
      _ ← validate_readonly_command command;
      Ok (InvTerminalExecReadonly command)
  | FilePatch | ServiceRestart | ServiceReload | NginxReload | DockerRestart =>
      Err ModelResponseInvalid
  end.

(** ** The tool policy (tools/policy.rs) *)
Inductive ToolPolicyDenial :=
  | NotAllowlisted | RiskCeilingExceeded | WriteToolsDisabled
  | ApprovalEngineUnavailable | ScopeNotAllowed | AgentPolicyDenied.
#[export] Instance tool_policy_denial_eq_dec : EqDecision ToolPolicyDenial.
Proof. solve_decision. Defined.

Definition denial_code (d : ToolPolicyDenial) : str :=
  lit match d with
  | NotAllowlisted => "TOOL_NOT_ALLOWLISTED"
  | RiskCeilingExceeded => "TOOL_RISK_CEILING_EXCEEDED"
  | WriteToolsDisabled => "TOOL_WRITE_DISABLED"
  | ApprovalEngineUnavailable => "TOOL_APPROVAL_UNAVAILABLE"
  | ScopeNotAllowed => "TOOL_SCOPE_NOT_ALLOWED"
  | AgentPolicyDenied => "AGENT_POLICY_DENIED"
  end%string.

Inductive ToolPolicyDecision :=
  | PolicyAllowed
  | PolicyBlocked (reason : ToolPolicyDenial).
#[export] Instance tool_policy_decision_eq_dec : EqDecision ToolPolicyDecision.
Proof. solve_decision. Defined.

Record ToolPolicy := {
  allowlist : list NativeToolName;
  max_risk : RiskLevel;
  writes_enabled : bool;
  approval_engine_available : bool;
}.

(** The derived [Ord] of [RiskLevel]. *)
Definition risk_rank (r : RiskLevel) : N :=
  match r with R0 => 0 | R1 => 1 | R2 => 2 | R3 => 3 | R4 => 4 end.
Definition risk_min (a b : RiskLevel) : RiskLevel :=
  if (risk_rank a <=? risk_rank b)%N then a else b.

Definition policy_foundation : ToolPolicy :=
  {| allowlist := READ_ONLY; max_risk := R1; writes_enabled := false;
     approval_engine_available := false |}.

Definition policy_restricted (allow : list NativeToolName) (max : RiskLevel) : ToolPolicy :=
  {| allowlist := filter (fun name => name ∈ allowlist policy_foundation) allow;
     max_risk := risk_min max (max_risk policy_foundation);
     writes_enabled := false; approval_engine_available := false |}.

Definition policy_approved_repair : ToolPolicy :=
  {| allowlist := ALL_TOOLS; max_risk := R3; writes_enabled := true;
     approval_engine_available := true |}.

(** [ToolPolicy::evaluate]. *)
Definition policy_evaluate (p : ToolPolicy) (d : ToolDescriptor) : ToolPolicyDecision :=
  let denial :=
    if negb (bool_decide (td_name d ∈ allowlist p)) then Some NotAllowlisted
    else if negb (bool_decide (td_mutability d = Read)) && negb (writes_enabled p)
         then Some WriteToolsDisabled
    else if td_requires_approval d && negb (approval_engine_available p)
         then Some ApprovalEngineUnavailable
    else if negb (bool_decide (td_scope d = ScopeSession)) then Some ScopeNotAllowed
    else if (risk_rank (max_risk p) <? risk_rank (td_risk_level d))%N
         then Some RiskCeilingExceeded
    else None in
  match denial with Some reason => PolicyBlocked reason | None => PolicyAllowed end.

(** ** Specification: what an advertised input schema admits

    The JSON-Schema keywords that the input schemas use, with the standard's
    meaning: [minLength] and [maxLength] count characters. *)
Definition keyword_at_least (schema : json) (keyword : String.string) (n : N) : bool :=
  match json_get schema (lit keyword) ≫= as_u64 with Some lo => (lo <=? n)%N | None => true end.
Definition keyword_at_most (schema : json) (keyword : String.string) (n : N) : bool :=
  match json_get schema (lit keyword) ≫= as_u64 with Some hi => (n <=? hi)%N | None => true end.

Definition leaf_accepts (schema v : json) : bool :=
  match json_get schema (lit "type") ≫= as_str, v with
  | Some ty, JString s =>
      str_eqb ty (lit "string") && keyword_at_least schema "minLength" (list_lenN s)
      && keyword_at_most schema "maxLength" (list_lenN s)
  | Some ty, JNumber (JPosInt n) =>
      str_eqb ty (lit "integer") && keyword_at_least schema "minimum" n
      && keyword_at_most schema "maximum" n
  | _, _ => false
  end.

(** An object schema: every required key present, no other key, values admitted. *)
Definition input_accepts (schema v : json) : bool :=
  match json_get schema (lit "properties") ≫= as_object, v with
  | Some properties, JObject m =>
      forallb (fun kv => match map_get properties kv.1 with
                         | Some s => leaf_accepts s kv.2
                         | None => match json_get schema (lit "additionalProperties") with
                                   | Some (JBool false) => false | _ => true end
                         end) m
      && forallb (fun r => match r with
                           | JString key => bool_decide (is_Some (map_get m key))
                           | _ => false
                           end)
           (match json_get schema (lit "required") with Some (JArray l) => l | _ => [] end)
  | _, _ => false
  end.

(** What a typed read invocation may carry. *)
Definition text_within (lo hi : N) (s : str) : Prop :=
  (lo <= blen s <= hi)%N /\ forall c, c ∈ s -> is_control c = false.

Definition invocation_bounded (i : NativeToolInvocation) : Prop :=
  match i with
  | InvServiceStatus s => text_within 1 128 s /\ forallb identifier_char s = true
  | InvServiceLogs s n =>
      text_within 1 128 s /\ forallb identifier_char s = true /\ (20 <= n <= 500)%N
  | InvDockerInspect s => text_within 1 256 s /\ forallb identifier_char s = true
  | InvDockerLogs s n =>
      text_within 1 256 s /\ forallb identifier_char s = true /\ (20 <= n <= 500)%N
  | InvDnsResolve h =>
      text_within 1 255 h /\ ~ (exists t, h = lit "-" ++ t) /\ existsb is_whitespace h = false
  | InvNetworkPortCheck h p | InvTlsInspect h p =>
      text_within 1 255 h /\ ~ (exists t, h = lit "-" ++ t) /\ existsb is_whitespace h = false
      /\ (1 <= p <= 65535)%N
  | InvHttpRequest url => text_within 8 2048 url
  | InvFileInspect p | InvSystemDirectoryUsage p =>
      text_within 1 4096 p /\ exists t, p = lit "/" ++ t
  | InvSystemLargeFiles p n =>
      text_within 1 4096 p /\ (exists t, p = lit "/" ++ t)
      /\ (1048576 <= n <= 1099511627776)%N
  | InvTerminalExecReadonly c =>
      text_within 1 256 c /\
      exists a, a ∈ ALLOWED_READONLY_COMMANDS /\ eq_ignore_ascii_case (trim c) a = true
  | InvFilePatch _ _ _ | InvServiceRestart _ | InvServiceReload _ | InvNginxReload
  | InvDockerRestart _ => False
  | _ => True
  end.

(** The arguments that ask for an invocation. *)
Definition invocation_arguments (i : NativeToolInvocation) : json :=
  JObject match i with
  | InvServiceStatus s => [(lit "service", JString s)]
  | InvServiceLogs s n => [(lit "service", JString s); (lit "lines", jint n)]
  | InvNetworkPortCheck h p | InvTlsInspect h p =>
      [(lit "host", JString h); (lit "port", jint p)]
  | InvHttpRequest url => [(lit "url", JString url)]
  | InvDnsResolve h => [(lit "host", JString h)]
  | InvFileInspect p | InvSystemDirectoryUsage p => [(lit "path", JString p)]
  | InvSystemLargeFiles p n => [(lit "path", JString p); (lit "minimumBytes", jint n)]
  | InvDockerInspect c => [(lit "container", JString c)]
  | InvDockerLogs c n => [(lit "container", JString c); (lit "lines", jint n)]
  | InvTerminalExecReadonly c => [(lit "command", JString c)]
  | _ => []
  end.

(** ** Lemmas *)
Lemma between_spec lo hi n : between lo hi n = true <-> (lo <= n <= hi)%N.
Proof. unfold between. by rewrite andb_true_iff, !N.leb_le. Qed.

Lemma bounded_string_ok value lo hi s :
  bounded_string value lo hi = Ok s -> s = value /\ text_within lo hi s.
Proof.
  unfold bounded_string. destruct (between _ _ _ && _) eqn:E; [|done]. intros [= <-].
  split; [done|]. breflect. split; [by apply between_spec|]. by apply Existsb_false.
Qed.

Lemma identifier_ok value hi s :
  identifier value hi = Ok s ->
  s = value /\ text_within 1 hi s /\ forallb identifier_char s = true.
Proof.
  unfold identifier. intros H. inv_ok.
  match goal with B : bounded_string _ _ _ = Ok _ |- _ => apply bounded_string_ok in B as [-> B] end.
  destruct (forallb _ _) eqn:E; [|done]. by injection H as <-.
Qed.

Lemma host_ok value s :
  host value = Ok s ->
  s = value /\ text_within 1 255 s /\ ~ (exists t, s = lit "-" ++ t)
  /\ existsb is_whitespace s = false.
Proof.
  unfold host. intros H. inv_ok.
  match goal with B : bounded_string _ _ _ = Ok _ |- _ => apply bounded_string_ok in B as [-> B] end.
  destruct (negb _ && _) eqn:E; [|done]. injection H as <-. breflect.
  split_and!; try done. rewrite <- starts_with_spec. by rewrite E0.
Qed.

Lemma path_ok value s :
  path value = Ok s -> s = value /\ text_within 1 4096 s /\ exists t, s = lit "/" ++ t.
Proof.
  unfold path. intros H. inv_ok.
  match goal with B : bounded_string _ _ _ = Ok _ |- _ => apply bounded_string_ok in B as [-> B] end.
  destruct (starts_with _ _) eqn:E; [|done]. injection H as <-. split_and!; try done.
  by apply starts_with_spec.
Qed.

Lemma as_str_some v s : as_str v = Some s <-> v = JString s.
Proof. destruct v; cbn; naive_solver. Qed.

Lemma as_u64_some v n : as_u64 v = Some n <-> v = JNumber (JPosInt n).
Proof. destruct v as [| |[]| | |]; cbn; naive_solver. Qed.

Lemma required_string_ok m key s :
  required_string m key = Ok s <-> map_get m key = Some (JString s).
Proof.
  unfold required_string. rewrite ok_or_ok, bind_Some. setoid_rewrite as_str_some. naive_solver.
Qed.

Lemma map_get_one m key v : length m = 1%nat -> map_get m key = Some v -> m = [(key, v)].
Proof.
  destruct m as [|[k x] [|]]; try done. cbn. intros _.
  destruct (str_eqb k key) eqn:E; [|done]. apply str_eqb_eq in E. naive_solver.
Qed.

Lemma map_get_two m k1 k2 v1 v2 :
  length m = 2%nat -> k1 <> k2 -> map_get m k1 = Some v1 -> map_get m k2 = Some v2 ->
  m = [(k1, v1); (k2, v2)] \/ m = [(k2, v2); (k1, v1)].
Proof.
  destruct m as [|[a x] [|[b y] [|]]]; try done. cbn. intros _ Hne.
  destruct (str_eqb a k1) eqn:E1, (str_eqb a k2) eqn:E2, (str_eqb b k1) eqn:E3,
    (str_eqb b k2) eqn:E4; try done;
    repeat match goal with H : str_eqb _ _ = true |- _ => apply str_eqb_eq in H end;
    naive_solver.
Qed.

Lemma only_string_ok m key s :
  only_string m key = Ok s -> m = [(key, JString s)].
Proof.
  unfold only_string. destruct (length m =? 1)%nat eqn:E; cbn; [|done].
  apply Nat.eqb_eq in E. rewrite required_string_ok. by apply map_get_one.
Qed.

Lemma u64_arg_ok (p : N -> bool) m key n :
  opt_filter p (map_get m key ≫= as_u64) = Some n <->
  map_get m key = Some (jint n) /\ p n = true.
Proof.
  rewrite opt_filter_some, bind_Some. setoid_rewrite as_u64_some. unfold jint. naive_solver.
Qed.

Lemma bounded_u32_ok m key lo hi n :
  bounded_u32 m key lo hi = Ok n ->
  length m = 2%nat /\ map_get m key = Some (jint n) /\ (lo <= n <= hi)%N.
Proof.
  unfold bounded_u32. destruct (length m =? 2)%nat eqn:E; cbn [negb]; [|done].
  apply Nat.eqb_eq in E. intros H. inv_ok. rewrite u64_arg_ok in H0. destruct H0 as [Hg _].
  destruct (between _ _ _) eqn:Eb; [|done]. injection H as <-. by apply between_spec in Eb.
Qed.

Lemma bounded_u64_ok m key lo hi n :
  bounded_u64 m key lo hi = Ok n ->
  length m = 2%nat /\ map_get m key = Some (jint n) /\ (lo <= n <= hi)%N.
Proof.
  unfold bounded_u64. destruct (length m =? 2)%nat eqn:E; cbn [negb]; [|done].
  apply Nat.eqb_eq in E. intros H. inv_ok. rewrite u64_arg_ok, between_spec in H. tauto.
Qed.

Lemma port_ok m n :
  port m = Ok n ->
  length m = 2%nat /\ map_get m (lit "port") = Some (jint n) /\ (1 <= n <= 65535)%N.
Proof.
  unfold port. destruct (length m =? 2)%nat eqn:E; cbn [negb]; [|done].
  apply Nat.eqb_eq in E. intros H. inv_ok.
  rewrite opt_filter_some, u64_arg_ok in H. destruct H as [[Hg Hu] Hl].
  breflect. split_and!; try done; lia.
Qed.

(** Lower-casing touches ASCII letters only. *)
Lemma to_lower_other c : is_ascii_uppercase c = false -> to_lower c = c.
Proof. unfold to_lower. by intros ->. Qed.

Lemma to_lower_meta c : shell_metacharacter c = true -> to_lower c = c.
Proof.
  intros H. apply to_lower_other. unfold shell_metacharacter, contains_char in H.
  apply Existsb_exists in H as (x & Hx & E). apply N.eqb_eq in E as ->.
  repeat (apply elem_of_cons in Hx as [-> | Hx]; [done|]). by apply elem_of_nil in Hx.
Qed.

Lemma to_lower_utf8_len c : utf8_len (to_lower c) = utf8_len c.
Proof.
  unfold to_lower. destruct (is_ascii_uppercase c) eqn:E; [|done].
  unfold is_ascii_uppercase in E. apply between_spec in E. unfold utf8_len.
  by rewrite !(proj2 (N.ltb_lt _ 128)) by lia.
Qed.

Lemma to_ascii_lowercase_blen s : blen (to_ascii_lowercase s) = blen s.
Proof.
  induction s as [|c s IH]; cbn; [done|]. rewrite to_lower_utf8_len.
  by unfold to_ascii_lowercase in IH; rewrite IH.
Qed.

Lemma same_lowercase_no_meta s a :
  to_ascii_lowercase s = to_ascii_lowercase a ->
  existsb shell_metacharacter (to_ascii_lowercase a) = false ->
  existsb shell_metacharacter s = false.
Proof.
  intros E H. rewrite Existsb_false in H |- *. intros c Hc.
  destruct (shell_metacharacter c) eqn:Em; [|done].
  assert (shell_metacharacter (to_lower c) = false) as H'.
  { apply H. rewrite <- E. unfold to_ascii_lowercase.
    apply list_elem_of_In, in_map, list_elem_of_In, Hc. }
  by rewrite (to_lower_meta _ Em), Em in H'.
Qed.

Lemma allowed_plain :
  forallb (fun a => negb (existsb shell_metacharacter (to_ascii_lowercase a))
                    && (blen a <=? 256)%N && negb (is_empty a)) ALLOWED_READONLY_COMMANDS = true.
Proof. by vm_compute. Qed.

Lemma existsb_eq_ci s l :
  existsb (eq_ignore_ascii_case s) l = true <->
  exists a, a ∈ l /\ eq_ignore_ascii_case s a = true.
Proof. apply Existsb_exists. Qed.

Lemma validate_readonly_command_iff c :
  validate_readonly_command c = Ok tt <->
  exists a, a ∈ ALLOWED_READONLY_COMMANDS /\ eq_ignore_ascii_case (trim c) a = true.
Proof.
  rewrite <- existsb_eq_ci. unfold validate_readonly_command.
  destruct (existsb (eq_ignore_ascii_case (trim c)) _) eqn:E.
  2: { repeat case_match; naive_solver. }
  split; [done|]. intros _. apply Existsb_exists in E as (a & Ha & E).
  apply str_eqb_eq in E.
  pose proof (proj1 (Forallb_forall _ _) allowed_plain a Ha) as Hp. cbn beta in Hp.
  apply andb_true_iff in Hp as [[Hp1 Hp2]%andb_true_iff Hp3].
  apply negb_true_iff in Hp1. apply N.leb_le in Hp2. apply negb_true_iff in Hp3.
  pose proof (same_lowercase_no_meta _ _ E Hp1) as Hm.
  assert (blen (trim c) = blen a) as Hb
    by by rewrite <- (to_ascii_lowercase_blen (trim c)), E, to_ascii_lowercase_blen.
  assert (trim c <> []) as Hne.
  { intros H. rewrite H in Hb. symmetry in Hb. apply blen_zero in Hb. by subst a. }
  rewrite (proj2 (is_empty_false _) Hne), (proj2 (N.ltb_ge _ _)) by lia. cbn [orb].
  rewrite Hm, lines_none; [done|done|]. intros x Hx ->.
  rewrite Existsb_false in Hm. by specialize (Hm _ Hx).
Qed.

(** Schema admission of one- and two-argument inputs. *)
Lemma str_eqb_ne a b : a <> b -> str_eqb a b = false.
Proof. intros H. apply bool_decide_eq_false_2, H. Qed.

Lemma accepts_one k sch v :
  input_accepts (object_input [(k, sch)]) (JObject [(k, v)]) = leaf_accepts sch v.
Proof.
  unfold input_accepts, object_input, schema_object, jobj.
  change (json_get _ _ ≫= _) with (Some [(k, sch)] : option json_map).
  cbn [forallb map_get fst snd]. rewrite str_eqb_refl.
  change (json_get _ (lit "required")) with (Some (JArray [JString k])).
  cbn [forallb map_get]. rewrite str_eqb_refl. rewrite bool_decide_eq_true_2 by done.
  by rewrite !andb_true_r.
Qed.

Lemma accepts_two k1 k2 s1 s2 v1 v2 m :
  k1 <> k2 -> m = [(k1, v1); (k2, v2)] \/ m = [(k2, v2); (k1, v1)] ->
  leaf_accepts s1 v1 = true -> leaf_accepts s2 v2 = true ->
  input_accepts (object_input [(k1, s1); (k2, s2)]) (JObject m) = true.
Proof.
  intros Hne Hm H1 H2. unfold input_accepts, object_input, schema_object, jobj.
  change (json_get _ _ ≫= _) with (Some [(k1, s1); (k2, s2)] : option json_map).
  change (json_get _ (lit "required")) with (Some (JArray [JString k1; JString k2])).
  assert (str_eqb k1 k2 = false) as E12 by by apply str_eqb_ne.
  assert (str_eqb k2 k1 = false) as E21 by by apply str_eqb_ne.
  by destruct Hm as [-> | ->]; cbn [forallb map_get fst snd];
    rewrite ?str_eqb_refl, ?E12, ?E21, ?str_eqb_refl, H1, H2;
    rewrite !bool_decide_eq_true_2 by done.
Qed.

Lemma leaf_string lo hi s :
  (lo <= list_lenN s)%N -> (list_lenN s <= hi)%N ->
  leaf_accepts (s_string_range lo hi) (JString s) = true.
Proof.
  intros. change (leaf_accepts _ _) with
    ((lo <=? list_lenN s)%N && (list_lenN s <=? hi)%N).
  by rewrite andb_true_iff, !N.leb_le.
Qed.

Lemma leaf_int lo hi n :
  (lo <= n <= hi)%N -> leaf_accepts (s_int_range lo hi) (jint n) = true.
Proof.
  intros. change (leaf_accepts _ _) with ((lo <=? n)%N && (n <=? hi)%N).
  by rewrite andb_true_iff, !N.leb_le.
Qed.

(** A text of at least one byte has a character, and at most as many as bytes. *)
Lemma leaf_text hi s :
  text_within 1 hi s -> leaf_accepts (s_string_range 1 hi) (JString s) = true.
Proof.
  intros [[Hlo Hhi] _]. apply leaf_string.
  - destruct s; [by cbn in Hlo|]. unfold list_lenN. cbn [length]. lia.
  - pose proof (blen_length s). unfold list_lenN. lia.
Qed.

Lemma leaf_url lo hi s :
  text_within lo hi s -> (lo <= list_lenN s)%N ->
  leaf_accepts (s_string_range lo hi) (JString s) = true.
Proof.
  intros [[_ Hhi] _] Hlo. apply leaf_string; [done|].
  pose proof (blen_length s). unfold list_lenN. lia.
Qed.

Lemma empty_ok m : empty m = Ok tt -> m = [].
Proof. by destruct m. Qed.

(** Opens the argument checks of an accepted call. *)
Ltac open_checks :=
  repeat match goal with
  | H : only_string _ _ = Ok _ |- _ => apply only_string_ok in H; subst
  | H : required_string _ _ = Ok _ |- _ => apply required_string_ok in H
  | H : identifier _ _ = Ok _ |- _ => apply identifier_ok in H as (-> & ? & ?)
  | H : host _ = Ok _ |- _ => apply host_ok in H as (-> & ? & ? & ?)
  | H : path _ = Ok _ |- _ => apply path_ok in H as (-> & ? & ?)
  | H : bounded_string _ _ _ = Ok _ |- _ => apply bounded_string_ok in H as [-> ?]
  | H : bounded_u32 _ _ _ _ = Ok _ |- _ => apply bounded_u32_ok in H as (? & ? & ?)
  | H : bounded_u64 _ _ _ _ = Ok _ |- _ => apply bounded_u64_ok in H as (? & ? & ?)
  | H : port _ = Ok _ |- _ => apply port_ok in H as (? & ? & ?)
  | H : empty _ = Ok ?u |- _ => destruct u; apply empty_ok in H; subst
  | H : validate_readonly_command _ = Ok ?u |- _ =>
      destruct u; apply validate_readonly_command_iff in H
  | H : as_object ?v = Some _ |- _ => destruct v; try done; injection H as ->
  | H : ?x = ?y |- _ => is_var y; subst y
  end.

Lemma model_call_opened name v inv :
  from_model_read_call name v = Ok inv ->
  invocation_name inv = name /\ invocation_bounded inv /\
  ((forall url, inv = InvHttpRequest url -> (8 <= list_lenN url)%N) ->
   exists d, find_descriptor name = Some d /\ input_accepts (td_input_schema d) v = true).
Proof.
  intros H. unfold from_model_read_call in H.
  destruct name; inv_ok; open_checks; (split; [done|split; [cbn; tauto|]]); intros Hurl;
    (eexists; split; [reflexivity|]);
    cbn [td_input_schema descriptor];
    try (rewrite accepts_one; first [by apply leaf_text | idtac]);
    try (eapply accepts_two;
         [ | eapply map_get_two; [eassumption | | eassumption | eassumption]
         | by apply leaf_text | by apply leaf_int]; by vm_compute);
    try done.
  eapply leaf_url; [eassumption|]. by apply Hurl.
Qed.

(** The checks accept what is within their bounds. *)
Lemma bounded_string_intro lo hi s : text_within lo hi s -> bounded_string s lo hi = Ok s.
Proof.
  intros [H Hc]. unfold bounded_string.
  by rewrite (proj2 (between_spec _ _ _) H), (proj2 (Existsb_false _ _) Hc).
Qed.

Lemma identifier_intro hi s :
  text_within 1 hi s -> forallb identifier_char s = true -> identifier s hi = Ok s.
Proof. intros H Hc. unfold identifier. rewrite bounded_string_intro by done. cbn. by rewrite Hc. Qed.

Lemma host_intro h :
  text_within 1 255 h -> ~ (exists t, h = lit "-" ++ t) -> existsb is_whitespace h = false ->
  host h = Ok h.
Proof.
  intros H Hd Hw. unfold host. rewrite bounded_string_intro by done. cbn [mbind result_bind].
  rewrite Hw. destruct (starts_with h (lit "-")) eqn:E; [|done].
  destruct Hd. by apply starts_with_spec.
Qed.

Lemma path_intro p :
  text_within 1 4096 p -> (exists t, p = lit "/" ++ t) -> path p = Ok p.
Proof.
  intros H Hs. unfold path. rewrite bounded_string_intro by done. cbn [mbind result_bind].
  by rewrite (proj2 (starts_with_spec _ _) Hs).
Qed.

Lemma only_string_intro k s : only_string [(k, JString s)] k = Ok s.
Proof. unfold only_string, required_string. cbn. by rewrite str_eqb_refl. Qed.

Lemma u64_arg_intro k v ks s p n :
  str_eqb ks k = false -> v = jint n -> p n = true ->
  opt_filter p (map_get [(ks, JString s); (k, v)] k ≫= as_u64) = Some n.
Proof. intros E -> Hp. apply u64_arg_ok. cbn. by rewrite E, str_eqb_refl. Qed.

Lemma bounded_u32_intro ks s k lo hi n :
  str_eqb ks k = false -> (hi <= U32_MAX)%N -> (lo <= n <= hi)%N ->
  bounded_u32 [(ks, JString s); (k, jint n)] k lo hi = Ok n.
Proof.
  intros E Hm H. unfold bounded_u32. cbn [length Nat.eqb negb].
  rewrite (u64_arg_intro _ _ _ _ _ n) by (done || apply N.leb_le; lia). cbn.
  by rewrite (proj2 (between_spec _ _ _) H).
Qed.

Lemma bounded_u64_intro ks s k lo hi n :
  str_eqb ks k = false -> (lo <= n <= hi)%N ->
  bounded_u64 [(ks, JString s); (k, jint n)] k lo hi = Ok n.
Proof.
  intros E H. unfold bounded_u64. cbn [length Nat.eqb negb].
  by rewrite (u64_arg_intro _ _ _ _ _ n) by (done || by apply between_spec).
Qed.

Lemma port_intro ks s n :
  str_eqb ks (lit "port") = false -> (1 <= n <= 65535)%N ->
  port [(ks, JString s); (lit "port", jint n)] = Ok n.
Proof.
  intros E H. unfold port. cbn [length Nat.eqb negb].
  rewrite (u64_arg_intro _ _ _ _ _ n) by (done || apply N.leb_le; lia). cbn.
  by rewrite (proj2 (N.ltb_lt _ _)) by lia.
Qed.

Lemma required_string_intro k s rest : required_string ((k, JString s) :: rest) k = Ok s.
Proof. unfold required_string. cbn. by rewrite str_eqb_refl. Qed.

#[export] Hint Rewrite only_string_intro required_string_intro : runory.

Lemma policy_allowed_iff p d :
  policy_evaluate p d = PolicyAllowed <->
  td_name d ∈ allowlist p /\ (td_mutability d = Read \/ writes_enabled p = true) /\
  (td_requires_approval d = false \/ approval_engine_available p = true) /\
  td_scope d = ScopeSession /\ (risk_rank (td_risk_level d) <= risk_rank (max_risk p))%N.
Proof.
  unfold policy_evaluate. repeat case_bool_decide; cbn [negb andb];
    destruct (writes_enabled p), (td_requires_approval d), (approval_engine_available p);
    cbn [negb andb]; try (split; [done|naive_solver]);
    destruct (risk_rank _ <? risk_rank _)%N eqn:E; breflect; naive_solver lia.
Qed.

Lemma risk_min_rank a b : risk_rank (risk_min a b) = N.min (risk_rank a) (risk_rank b).
Proof. by destruct a, b. Qed.

Lemma decide_iff (P Q : Prop) `{Decision P, Decision Q} :
  bool_decide P = bool_decide Q -> (P <-> Q).
Proof. by repeat case_bool_decide. Qed.

Lemma find_descriptor_self d : d ∈ native_descriptors -> find_descriptor (td_name d) = Some d.
Proof.
  revert d. apply Forall_forall.
  unfold native_descriptors, foundation_descriptors, incident_descriptors, write_descriptors.
  cbn [app]. repeat (apply Forall_cons_2; [reflexivity|]). constructor.
Qed.

(** ** Properties *)

(** A model-proposed call is accepted only as the read it names: the
    invocation built is the one of the requested tool, its arguments are within
    their bounds (printable text of bounded length, identifier characters,
    absolute paths, hosts that cannot be read as an option, ports and line
    counts in range, an allowlisted terminal command), they conform to the
    input schema that the catalogue advertises for the tool (an HTTP URL, whose
    lower bound the parser counts in bytes, if it has 8 characters), and the
    foundation policy admits the tool. *)
Theorem model_read_call_sound name v inv :
  from_model_read_call name v = Ok inv ->
  invocation_name inv = name /\ invocation_bounded inv /\
  (exists d, find_descriptor name = Some d /\
     policy_evaluate policy_foundation d = PolicyAllowed /\
     ((forall url, inv = InvHttpRequest url -> (8 <= list_lenN url)%N) ->
      input_accepts (td_input_schema d) v = true)).
Proof.
  intros H. pose proof (model_call_opened _ _ _ H) as (H1 & H2 & H3).
  split; [done|]. split; [done|].
  destruct (find_descriptor name) as [d|] eqn:E; [|by destruct name].
  exists d. split; [done|]. split.
  - destruct name; injection E as <-; first [by vm_compute | by destruct inv].
  - intros Hu. destruct (H3 Hu) as (d' & [= <-] & Hd). done.
Qed.

Lemma model_read_call_sound_witness :
  let v := JObject [(lit "lines", jint 50); (lit "service", jstr "nginx.service")] in
  from_model_read_call ServiceLogs v = Ok (InvServiceLogs (lit "nginx.service") 50) /\
  invocation_name (InvServiceLogs (lit "nginx.service") 50) = ServiceLogs.
Proof.
  intros v. assert (from_model_read_call ServiceLogs v
                    = Ok (InvServiceLogs (lit "nginx.service") 50)) as H by (by vm_compute).
  split; [exact H|]. exact (proj1 (model_read_call_sound _ _ _ H)).
Defined.

(** Nothing within bounds is refused: every read invocation whose
    arguments are within their bounds is what the parser makes of its own
    argument object; and the five write tools are refused whatever the
    arguments. *)
Theorem model_read_call_complete :
  (forall i, invocation_bounded i ->
     from_model_read_call (invocation_name i) (invocation_arguments i) = Ok i) /\
  (forall name v, name ∉ READ_ONLY -> from_model_read_call name v = Err ModelResponseInvalid).
Proof.
  split.
  - intros i H. destruct i; cbn in H; try done;
      unfold from_model_read_call; cbn [invocation_name invocation_arguments as_object ok_or
        mbind result_bind]; autorewrite with runory; cbn [mbind result_bind].
    + rewrite identifier_intro by tauto. done.
    + rewrite identifier_intro by tauto. cbn [mbind result_bind].
      rewrite bounded_u32_intro by (done || tauto). done.
    + rewrite host_intro by tauto. cbn [mbind result_bind]. rewrite port_intro by (done || tauto). done.
    + rewrite bounded_string_intro by tauto. done.
    + rewrite host_intro by tauto. done.
    + rewrite host_intro by tauto. cbn [mbind result_bind]. rewrite port_intro by (done || tauto). done.
    + rewrite path_intro by tauto. done.
    + rewrite path_intro by tauto. done.
    + rewrite path_intro by tauto. cbn [mbind result_bind].
      rewrite bounded_u64_intro by (done || tauto). done.
    + rewrite identifier_intro by tauto. done.
    + rewrite identifier_intro by tauto. cbn [mbind result_bind].
      rewrite bounded_u32_intro by (done || tauto). done.
    + rewrite bounded_string_intro by tauto. cbn [mbind result_bind].
      rewrite (proj2 (validate_readonly_command_iff _)) by tauto. done.
  - intros name v H. unfold from_model_read_call.
    destruct (as_object v); cbn [ok_or mbind result_bind]; [|done].
    destruct name; try done; destruct H; apply (bool_decide_unpack _); by vm_compute.
Qed.

(** The read-only terminal tool runs exactly its allowlist: a command is
    accepted iff, trimmed and up to ASCII case, it is one of the fourteen
    listed commands; none of the earlier checks turns one of them away, and
    what is accepted holds no shell metacharacter. *)
Theorem readonly_terminal_is_its_allowlist c :
  (validate_readonly_command c = Ok tt <->
   exists a, a ∈ ALLOWED_READONLY_COMMANDS /\ eq_ignore_ascii_case (trim c) a = true) /\
  (validate_readonly_command c = Ok tt ->
   forall x, x ∈ trim c -> shell_metacharacter x = false).
Proof.
  split; [apply validate_readonly_command_iff|].
  unfold validate_readonly_command. destruct (_ || _); [done|].
  destruct (_ || existsb _ _) eqn:E; [done|]. intros _.
  apply orb_false_iff in E as [_ E]. by apply Existsb_false.
Qed.

(** The tool policies are ordered: whatever list and ceiling a workspace
    configures, a restricted policy admits only what the foundation policy
    admits, and only listed tools at or below the ceiling; the foundation
    policy admits exactly the read-only tools of the catalogue; and everything
    it admits is admitted for an approved repair. *)
Theorem tool_policies_ordered :
  (forall allow max d, policy_evaluate (policy_restricted allow max) d = PolicyAllowed ->
     policy_evaluate policy_foundation d = PolicyAllowed /\
     td_name d ∈ allow /\ (risk_rank (td_risk_level d) <= risk_rank max)%N) /\
  (forall d, d ∈ native_descriptors ->
     (policy_evaluate policy_foundation d = PolicyAllowed <-> td_name d ∈ READ_ONLY)) /\
  (forall d, policy_evaluate policy_foundation d = PolicyAllowed ->
     policy_evaluate policy_approved_repair d = PolicyAllowed).
Proof.
  split_and!.
  - intros allow max d. rewrite !policy_allowed_iff. cbn.
    intros (Hn & Hm & Ha & Hs & Hr). apply list_elem_of_filter in Hn as [Hf Hn].
    rewrite risk_min_rank in Hr. cbn in Hr. split_and!; try done; lia.
  - intros d Hd. rewrite policy_allowed_iff. split; [tauto|]. intros Hr.
    assert (Forall (fun d => td_name d ∈ READ_ONLY -> td_mutability d = Read /\
      td_requires_approval d = false /\ td_scope d = ScopeSession /\
      (risk_rank (td_risk_level d) <= 1)%N) native_descriptors) as Hall
      by (apply (bool_decide_unpack _); by vm_compute).
    rewrite Forall_forall in Hall. destruct (Hall d Hd Hr) as (? & ? & ? & ?). tauto.
  - intros d. rewrite !policy_allowed_iff. cbn. intros (Hn & Hm & Ha & Hs & Hr).
    split_and!; try tauto; [|lia]. by destruct (td_name d); apply (bool_decide_unpack _); vm_compute.
Qed.

(** The tool catalogue is consistent: every tool of the vocabulary has
    exactly one descriptor, listed in the order of [ALL], and a distinct wire
    name; the mutating tools are exactly those outside [READ_ONLY], they all
    require approval and no read does; reads never exceed R1; and every input
    schema is closed, with each declared property required. *)
Theorem tool_catalogue_consistent :
  map td_name native_descriptors = ALL_TOOLS /\ NoDup ALL_TOOLS /\ (forall t, t ∈ ALL_TOOLS) /\
  NoDup (map tool_as_str ALL_TOOLS) /\
  (forall d, d ∈ native_descriptors ->
     find_descriptor (td_name d) = Some d /\
     (td_mutability d = Read <-> td_name d ∈ READ_ONLY) /\
     (td_requires_approval d = true <-> td_mutability d = Write) /\
     (td_mutability d = Read -> (risk_rank (td_risk_level d) <= 1)%N) /\
     (exists props, td_input_schema d = empty_input \/ td_input_schema d = object_input props)).
Proof.
  split; [by vm_compute|]. split; [apply (bool_decide_unpack _); by vm_compute|].
  split; [intros []; apply (bool_decide_unpack _); by vm_compute|].
  split; [apply (bool_decide_unpack _); by vm_compute|].
  intros d Hd. split; [by apply find_descriptor_self|]. revert d Hd.
  apply Forall_forall. unfold native_descriptors, foundation_descriptors, incident_descriptors,
    write_descriptors. cbn [app].
  repeat (apply Forall_cons_2;
    [split_and!;
      [refine (decide_iff _ _ _); by vm_compute | refine (decide_iff _ _ _); by vm_compute
      | by vm_compute
      | first [exists []; left; reflexivity | eexists; right; reflexivity]]|]).
  constructor.
Qed.
