(* ===== verification/Externals.v ===== *)
(** * Third-party code the model is parametric in

    [Externals] collects the functions that the modelled code calls and that
    are not in the repository, or whose tables are not: the SHA-256 of a text's
    UTF-8 bytes ([ring::digest]), the text of a [uuid::Uuid], and the quoted
    form [<str as Debug>] gives a string.  [ExternalLaws] states what is
    documented of them: a digest is a byte string, different identifiers have
    different texts of hexadecimal digits and hyphens, and a quoted string says where it ends.
    [quoting_externals] is a concrete instance that satisfies the laws. *)
From S2P Require Import Prelude Str RunState.

Class Externals := {
  sha256 : str -> list N;
  uuid_display : Uuid -> str;
  debug_str : str -> str;
}.

Class ExternalLaws `{Externals} := {
  sha256_bytes m : Forall (fun b => b < 256)%N (sha256 m);
  uuid_display_inj a b : uuid_display a = uuid_display b -> a = b;
  uuid_display_chars a c : c ∈ uuid_display a -> is_ascii_hexdigit c = true \/ c = 45%N;
  debug_str_delimits a b x y : debug_str a ++ x = debug_str b ++ y -> a = b /\ x = y;
}.

(** The lower-case hexadecimal digest, as the code renders it everywhere. *)
Definition digest_hex `{Externals} (text : str) : str := hex_bytes (sha256 text).

(** Two texts that SHA-256 tells apart. *)
Definition no_collision `{Externals} (a b : str) : Prop := sha256 a = sha256 b -> a = b.

Lemma digest_hex_eq `{ExternalLaws} a b :
  no_collision a b -> digest_hex a = digest_hex b -> a = b.
Proof. intros Hc E. apply Hc. apply hex_bytes_inj in E; [done|apply sha256_bytes..]. Qed.

(** ** A concrete instance *)
Definition quote_char (c : chr) : str :=
  if (c =? 34)%N || (c =? 92)%N then [92; c]%N else [c].
Definition quote_body (s : str) : str := concat (map quote_char s).

#[local] Instance quoting_externals : Externals := {
  sha256 m := map (fun c => c mod 256)%N m;
  uuid_display := dec;
  debug_str s := 34%N :: quote_body s ++ [34%N];
}.

Lemma quote_body_delimits a b x y :
  quote_body a ++ 34%N :: x = quote_body b ++ 34%N :: y -> a = b /\ x = y.
Proof.
  revert b. induction a as [|c a IH]; intros [|d b].
  - by intros [= ->].
  - unfold quote_body. cbn. unfold quote_char.
    destruct ((d =? 34)%N || (d =? 92)%N) eqn:E; cbn; intros [= <- H]; done.
  - unfold quote_body. cbn. unfold quote_char.
    destruct ((c =? 34)%N || (c =? 92)%N) eqn:E; cbn; intros [= -> H]; done.
  - unfold quote_body. cbn [map concat]. fold (quote_body a) (quote_body b). unfold quote_char.
    destruct ((c =? 34)%N || (c =? 92)%N) eqn:Ec, ((d =? 34)%N || (d =? 92)%N) eqn:Ed;
      cbn [app]; intros H; injection H; intros.
    + subst d. destruct (IH b) as [-> ->]; done.
    + subst d. by vm_compute in Ed.
    + subst c. by vm_compute in Ec.
    + subst d. destruct (IH b) as [-> ->]; done.
Qed.

#[local] Instance quoting_laws : ExternalLaws.
Proof.
  split.
  - intros m. cbn. apply Forall_forall. intros b Hb. apply list_elem_of_In, in_map_iff in Hb.
    destruct Hb as (c & <- & _). by apply N.mod_lt.
  - intros a b H. by apply (inj dec).
  - intros a c Hc. left. cbn in Hc. apply dec_digits in Hc. unfold is_ascii_hexdigit.
    by rewrite Hc.
  - intros a b x y. cbn. rewrite <- !(assoc_L (++)). cbn. intros [= H].
    by apply quote_body_delimits.
Qed.
