(* ===== verification/Policy.v ===== *)
(** * The policy engine (policy/model.rs, policy/engine.rs, policy/service.rs)

    Rules, their matching, sealing and evaluation, the built-in policy, and
    the service that holds the sealed set and keeps the bounded audit file. *)
From S2P Require Import Prelude Str Errors RunState Tools Externals.

(** ** Model *)
Inductive PolicyDecision := Allow | RequireApproval | RequireStepApproval | Deny.
#[export] Instance policy_decision_eq_dec : EqDecision PolicyDecision.
Proof. solve_decision. Defined.

Definition precedence (d : PolicyDecision) : N :=
  match d with Allow => 0 | RequireApproval => 1 | RequireStepApproval => 2 | Deny => 3 end.

Inductive PolicyExecutionStrategy := Sequential | Parallel | Canary | Rolling.
#[export] Instance strategy_eq_dec : EqDecision PolicyExecutionStrategy.
Proof. solve_decision. Defined.

Inductive PolicyInvocationSource :=
  | SourceNativeTool | SourceAgentRuntime | SourceOperationsPack | SourceSkill | SourceMcp
  | SourceMultiServerChangeSet.
#[export] Instance source_eq_dec : EqDecision PolicyInvocationSource.
Proof. solve_decision. Defined.

Inductive PolicyScope :=
  | Global
  | Environment (environment : str)
  | Group (group_id : Uuid)
  | Server (server_id : Uuid)
  | Tool (tool : NativeToolName).
#[export] Instance policy_scope_eq_dec : EqDecision PolicyScope.
Proof. solve_decision. Defined.

Definition specificity (s : PolicyScope) : N :=
  match s with Global => 0 | Environment _ => 1 | Group _ => 2 | Server _ => 3 | Tool _ => 4 end.

Record PolicyTarget := {
  pt_server_id : Uuid;
  pt_group_id : option Uuid;
  pt_environment : option str;
}.

Record PolicyEvaluationRequest := {
  per_target : PolicyTarget;
  per_tool : NativeToolName;
  per_risk_level : RiskLevel;
  per_resource_impact : ResourceImpact;
  per_target_count : N;
  per_execution_strategy : PolicyExecutionStrategy;
  per_source : PolicyInvocationSource;
}.

Definition scope_matches (s : PolicyScope) (target : PolicyTarget) (tool : NativeToolName) : bool :=
  match s with
  | Global => true
  | Environment environment =>
      match pt_environment target with
      | Some value => eq_ignore_ascii_case value environment
      | None => false
      end
  | Group group_id => bool_decide (pt_group_id target = Some group_id)
  | Server server_id => bool_decide (pt_server_id target = server_id)
  | Tool expected => bool_decide (expected = tool)
  end.

Record PolicyCondition := {
  pc_tool : option NativeToolName;
  pc_risk_level : option RiskLevel;
  pc_minimum_target_count : option N;
  pc_execution_strategy : option PolicyExecutionStrategy;
  pc_resource_impact : option ResourceImpact;
}.

Record PolicyEffect := {
  pe_decision : PolicyDecision;
  pe_max_targets : option N;
  pe_reason : str;
}.

Record PolicyRule := {
  rule_id : str;
  rule_scope : PolicyScope;
  rule_condition : PolicyCondition;
  rule_effect : PolicyEffect;
  rule_enabled : bool;
}.

Record PolicySet := {
  policy_version : N;
  policy_hash : str;
  rules : list PolicyRule;
}.

Record PolicyMatchedRule := {
  mr_rule_id : str;
  mr_scope : PolicyScope;
  mr_decision : PolicyDecision;
  mr_reason : str;
}.

Record PolicyEvaluation := {
  ev_decision : PolicyDecision;
  ev_matched_rules : list PolicyMatchedRule;
  ev_reason : str;
  ev_scope : PolicyScope;
  ev_policy_version : N;
  ev_policy_hash : str;
}.

Definition permits_execution (e : PolicyEvaluation) : bool :=
  negb (bool_decide (ev_decision e = Deny)).

Record PolicySnapshot := {
  snap_policy_version : N;
  snap_policy_hash : str;
  snap_decision : PolicyDecision;
  snap_matched_rule_ids : list str;
}.

Definition snapshot_of (e : PolicyEvaluation) : PolicySnapshot :=
  {| snap_policy_version := ev_policy_version e; snap_policy_hash := ev_policy_hash e;
     snap_decision := ev_decision e; snap_matched_rule_ids := map mr_rule_id (ev_matched_rules e) |}.

(** ** Engine *)

(** [Option::is_none_or]. *)
Definition is_none_or {A} (o : option A) (p : A -> bool) : bool :=
  match o with Some a => p a | None => true end.

Definition matches_rule (rule : PolicyRule) (request : PolicyEvaluationRequest) : bool :=
  let c := rule_condition rule in
  scope_matches (rule_scope rule) (per_target request) (per_tool request)
  && is_none_or (pc_tool c) (fun tool => bool_decide (tool = per_tool request))
  && is_none_or (pc_risk_level c) (fun risk => bool_decide (risk = per_risk_level request))
  && is_none_or (pc_minimum_target_count c) (fun count => count <=? per_target_count request)%N
  && is_none_or (pc_execution_strategy c)
       (fun strategy => bool_decide (strategy = per_execution_strategy request))
  && is_none_or (pc_resource_impact c)
       (fun impact => bool_decide (impact = per_resource_impact request)).

(** Less specific scopes first, by identifier within one. *)
Definition match_leb (left right : PolicyRule) : bool :=
  (specificity (rule_scope left) <? specificity (rule_scope right))%N
  || (specificity (rule_scope left) =? specificity (rule_scope right))%N
     && str_leb (rule_id left) (rule_id right).

Definition matching_rules (set : PolicySet) (request : PolicyEvaluationRequest) :
    list PolicyRule :=
  sort_by match_leb
    (List.filter (fun rule => rule_enabled rule && matches_rule rule request) (rules set)).

(** The rule with the smallest target limit, if the request exceeds it. *)
Definition limit_denied (request : PolicyEvaluationRequest) (ms : list PolicyRule) :
    option PolicyRule :=
  fst <$> opt_filter (fun rl : PolicyRule * N => rl.2 <? per_target_count request)%N
    (min_by_key snd
       (omap (fun rule => (fun limit => (rule, limit)) <$> pe_max_targets (rule_effect rule)) ms)).

Definition inherited_deny (ms : list PolicyRule) : option PolicyRule :=
  find (fun rule => bool_decide (pe_decision (rule_effect rule) = Deny)) ms.

(** The strictest of the most specific matches. *)
Definition most_specific (ms : list PolicyRule) : option PolicyRule :=
  match last ms with
  | Some rule =>
      max_by_key (fun rule => precedence (pe_decision (rule_effect rule)))
        (List.filter (fun r => specificity (rule_scope r) =? specificity (rule_scope rule))%N ms)
  | None => None
  end.

Definition evaluate (set : PolicySet) (request : PolicyEvaluationRequest) : PolicyEvaluation :=
  let ms := matching_rules set request in
  let decisive :=
    match limit_denied request ms with
    | Some r => Some r
    | None => match inherited_deny ms with
              | Some r => Some r
              | None => most_specific ms
              end
    end in
  let '(decision, reason, scope) :=
    match limit_denied request ms, decisive with
    | Some rule, _ => (Deny, lit "POLICY_TARGET_LIMIT_EXCEEDED", rule_scope rule)
    | None, Some rule =>
        (pe_decision (rule_effect rule), pe_reason (rule_effect rule), rule_scope rule)
    | None, None => (Deny, lit "POLICY_NO_MATCH", Global)
    end in
  {| ev_decision := decision;
     ev_matched_rules := map (fun rule =>
       {| mr_rule_id := rule_id rule; mr_scope := rule_scope rule;
          mr_decision := pe_decision (rule_effect rule);
          mr_reason := pe_reason (rule_effect rule) |}) ms;
     ev_reason := reason; ev_scope := scope;
     ev_policy_version := policy_version set; ev_policy_hash := policy_hash set |}.

(** [default_policy]. *)
Definition any_condition : PolicyCondition :=
  {| pc_tool := None; pc_risk_level := None; pc_minimum_target_count := None;
     pc_execution_strategy := None; pc_resource_impact := None |}.

Definition global_rule (id : String.string) (risk_level : option RiskLevel)
    (resource_impact : option ResourceImpact) (decision : PolicyDecision)
    (reason : String.string) (max_targets : option N) : PolicyRule :=
  {| rule_id := lit id; rule_scope := Global;
     rule_condition := {| pc_tool := None; pc_risk_level := risk_level;
                          pc_minimum_target_count := None; pc_execution_strategy := None;
                          pc_resource_impact := resource_impact |};
     rule_effect := {| pe_decision := decision; pe_max_targets := max_targets;
                       pe_reason := lit reason |};
     rule_enabled := true |}.

Definition default_policy : PolicySet :=
  {| policy_version := 1; policy_hash := [];
     rules := [
       global_rule "global-agent-baseline" None None Allow "POLICY_GLOBAL_ALLOW" (Some 10%N);
       global_rule "high-io-scan-approval" None (Some HighIo) RequireApproval
         "POLICY_HIGH_IO_APPROVAL_REQUIRED" None;
       global_rule "risk-r2-approval" (Some R2) None RequireApproval
         "POLICY_RISK_APPROVAL_REQUIRED" None;
       global_rule "risk-r3-approval" (Some R3) None RequireApproval
         "POLICY_RISK_APPROVAL_REQUIRED" None;
       global_rule "risk-r4-step-approval" (Some R4) None RequireStepApproval
         "POLICY_STEP_APPROVAL_REQUIRED" None;
       {| rule_id := lit "production-parallel-all-denied";
          rule_scope := Environment (lit "production");
          rule_condition := {| pc_tool := None; pc_risk_level := None;
                               pc_minimum_target_count := Some 2%N;
                               pc_execution_strategy := Some Parallel;
                               pc_resource_impact := None |};
          rule_effect := {| pe_decision := Deny; pe_max_targets := None;
                            pe_reason := lit "POLICY_PRODUCTION_PARALLEL_DENIED" |};
          rule_enabled := true |}] |}.

(** ** Sealing and the service

    [encode_rules] is [serde_json::to_vec] on the rules. *)
Section Service.
Context `{Externals} (encode_rules : list PolicyRule -> str).

Definition id_leb (left right : PolicyRule) : bool := str_leb (rule_id left) (rule_id right).

Definition seal (set : PolicySet) : PolicySet :=
  let rs := sort_by id_leb (rules set) in
  {| policy_version := policy_version set; policy_hash := digest_hex (encode_rules rs);
     rules := rs |}.

Definition MAX_POLICY_AUDIT_RECORDS : nat := 2000.

Record PolicyAuditRecord := {
  par_id : Uuid;
  par_decision : PolicyDecision;
  par_matched_rule_ids : list str;
  par_reason : str;
  par_policy_version : N;
  par_policy_hash : str;
  par_target : Uuid;
  par_tool : str;
  par_source : PolicyInvocationSource;
  par_timestamp_epoch_ms : N;
}.

(** A JSON file: what reading it gives, and whether writing it succeeds. *)
Record JsonFile (T : Type) := { file_load : AppResult T; file_save : AppResult unit }.

(** [AgentPolicyService]: the sealed set, the policy file and the audit file. *)
Record AgentPolicyService := {
  svc_set : PolicySet;
  svc_repository : option (JsonFile PolicySet);
  svc_audit : option (JsonFile (list PolicyAuditRecord));
}.

Definition service_new (set : PolicySet) : AgentPolicyService :=
  {| svc_set := seal set; svc_repository := None; svc_audit := None |}.

(** [AgentPolicyService::load]: the new service state, and what was saved. *)
Definition service_load (svc : AgentPolicyService) :
    AppResult unit * AgentPolicyService * option PolicySet :=
  match svc_repository svc with
  | None => (Ok tt, svc, None)
  | Some f =>
      match file_load _ f with
      | Err e => (Err e, svc, None)
      | Ok loaded =>
          let sealed := match rules loaded with
                        | [] => seal default_policy
                        | _ => seal loaded
                        end in
          match file_save _ f with
          | Err e => (Err e, svc, None)
          | Ok _ => (Ok tt, {| svc_set := sealed; svc_repository := svc_repository svc;
                               svc_audit := svc_audit svc |}, Some sealed)
          end
      end
  end.

Definition current_matches (svc : AgentPolicyService) (s : PolicySnapshot) : bool :=
  (policy_version (svc_set svc) =? snap_policy_version s)%N
  && str_eqb (policy_hash (svc_set svc)) (snap_policy_hash s).

Definition command_approval_identity (svc : AgentPolicyService) : N * str :=
  (policy_version (svc_set svc), policy_hash (svc_set svc)).

Definition audit_record (new_v4 : Uuid) (now : N) (request : PolicyEvaluationRequest)
    (e : PolicyEvaluation) : PolicyAuditRecord :=
  {| par_id := new_v4; par_decision := ev_decision e;
     par_matched_rule_ids := map mr_rule_id (ev_matched_rules e);
     par_reason := ev_reason e; par_policy_version := ev_policy_version e;
     par_policy_hash := ev_policy_hash e; par_target := pt_server_id (per_target request);
     par_tool := tool_as_str (per_tool request); par_source := per_source request;
     par_timestamp_epoch_ms := now |}.

(** [records.drain(..records.len() - MAX)] when there are more than the maximum. *)
Definition bounded_audit (records : list PolicyAuditRecord) : list PolicyAuditRecord :=
  if (MAX_POLICY_AUDIT_RECORDS <? length records)%nat
  then drop (length records - MAX_POLICY_AUDIT_RECORDS) records else records.

(** [AgentPolicyService::evaluate]: the evaluation, and the audit file written. *)
Definition service_evaluate (svc : AgentPolicyService) (new_v4 : Uuid) (now : N)
    (request : PolicyEvaluationRequest) :
    AppResult PolicyEvaluation * option (list PolicyAuditRecord) :=
  let evaluation := evaluate (svc_set svc) request in
  match svc_audit svc with
  | None => (Ok evaluation, None)
  | Some f =>
      match file_load _ f with
      | Err e => (Err e, None)
      | Ok records =>
          let records := bounded_audit (records ++ [audit_record new_v4 now request evaluation]) in
          match file_save _ f with
          | Err e => (Err e, None)
          | Ok _ => (Ok evaluation, Some records)
          end
      end
  end.

Definition effective_for_server (svc : AgentPolicyService) (target : PolicyTarget) :
    list PolicyEvaluation :=
  map (fun d => evaluate (svc_set svc)
         {| per_target := target; per_tool := td_name d; per_risk_level := td_risk_level d;
            per_resource_impact := td_resource_impact d; per_target_count := 1;
            per_execution_strategy := Sequential; per_source := SourceNativeTool |})
    native_descriptors.
End Service.

(** ** Specification *)

(** The rules that bear on a request. *)
Definition bears_on (set : PolicySet) (request : PolicyEvaluationRequest) (rule : PolicyRule) :
    Prop :=
  rule ∈ rules set /\ rule_enabled rule = true /\ matches_rule rule request = true.

Definition over_limit (request : PolicyEvaluationRequest) (rule : PolicyRule) : Prop :=
  exists limit, pe_max_targets (rule_effect rule) = Some limit /\
                (limit < per_target_count request)%N.

Definition decides (rule : PolicyRule) : PolicyDecision := pe_decision (rule_effect rule).
Definition rank (rule : PolicyRule) : N := specificity (rule_scope rule).

(** ** Lemmas *)
Lemma precedence_inj a b : precedence a = precedence b -> a = b.
Proof. by destruct a, b. Qed.

Lemma elem_of_matching set request r :
  r ∈ matching_rules set request <-> bears_on set request r.
Proof.
  unfold matching_rules, bears_on. rewrite sort_by_perm, elem_of_filterb, andb_true_iff. done.
Qed.

Lemma match_leb_total a b : match_leb a b = false -> match_leb b a = true.
Proof.
  unfold match_leb. rewrite orb_false_iff, andb_false_iff, orb_true_iff, andb_true_iff,
    N.ltb_ge, N.eqb_neq, N.ltb_lt, N.eqb_eq.
  intros [H [H'|H']]; [left; lia|]. apply str_leb_total in H'.
  destruct (decide (specificity (rule_scope a) = specificity (rule_scope b))); [right|left]; auto; lia.
Qed.

Lemma match_leb_trans a b c : match_leb a b = true -> match_leb b c = true -> match_leb a c = true.
Proof.
  unfold match_leb. rewrite !orb_true_iff, !andb_true_iff, !N.ltb_lt, !N.eqb_eq.
  intros [H|[E H]] [H'|[E' H']]; [left; lia|left; lia|left; lia|]. right.
  split; [lia|]. by eapply str_leb_trans.
Qed.

Lemma match_leb_rank a b : match_leb a b = true -> (rank a <= rank b)%N.
Proof.
  unfold match_leb, rank. rewrite orb_true_iff, andb_true_iff, N.ltb_lt, N.eqb_eq. lia.
Qed.

Lemma limit_denied_some request ms r :
  limit_denied request ms = Some r -> r ∈ ms /\ over_limit request r.
Proof.
  unfold limit_denied. intros H. apply fmap_Some in H as ([r' limit] & H & ->).
  apply opt_filter_some in H as [H Hl]. apply N.ltb_lt in Hl. cbn in *.
  apply min_by_key_some in H as [H _]. apply list_elem_of_omap in H as (r & Hr & E).
  apply fmap_Some in E as (limit' & E & [= -> ->]). split; [done|]. by exists limit'.
Qed.

Lemma limit_denied_none request ms r :
  limit_denied request ms = None -> r ∈ ms -> ~ over_limit request r.
Proof.
  unfold limit_denied. intros H Hr (limit & El & Hlt). apply fmap_None in H.
  assert ((r, limit) ∈ omap (fun rule => (fun limit => (rule, limit)) <$>
            pe_max_targets (rule_effect rule)) ms) as Hin.
  { apply list_elem_of_omap. exists r. split; [done|]. by rewrite El. }
  destruct (min_by_key _ _) as [[r' l']|] eqn:E.
  - apply min_by_key_some in E as [_ Hmin]. specialize (Hmin _ Hin). cbn in *.
    rewrite (proj2 (N.ltb_lt _ _)) in H; [done|]. lia.
  - apply min_by_key_none in E. rewrite E in Hin. by apply elem_of_nil in Hin.
Qed.

Lemma inherited_deny_some ms r : inherited_deny ms = Some r -> r ∈ ms /\ decides r = Deny.
Proof. intros [H E]%find_some_b. by apply bool_decide_eq_true in E. Qed.

Lemma inherited_deny_none ms r : inherited_deny ms = None -> r ∈ ms -> decides r <> Deny.
Proof. intros H Hr. apply find_none_b with (x := r) in H; [|done]. by apply bool_decide_eq_false in H. Qed.

Lemma most_specific_some set request r :
  most_specific (matching_rules set request) = Some r ->
  bears_on set request r /\
  (forall r', bears_on set request r' -> (rank r' <= rank r)%N) /\
  (forall r', bears_on set request r' -> rank r' = rank r ->
     (precedence (decides r') <= precedence (decides r))%N).
Proof.
  unfold most_specific. destruct (last _) as [top|] eqn:El; [|done].
  intros [Hr Hmax]%max_by_key_some. apply elem_of_filterb in Hr as [Hr Er].
  apply N.eqb_eq in Er.
  assert (forall r', bears_on set request r' -> (rank r' <= rank r)%N) as Htop.
  { intros r' Hr'%elem_of_matching. unfold rank at 2. rewrite Er.
    destruct (StronglySorted_last _ _ _ _
      (sort_by_sorted _ match_leb_total match_leb_trans _) El Hr') as [->|H]; [done|].
    by apply match_leb_rank. }
  split; [by apply elem_of_matching|]. split; [done|].
  intros r' Hr' E. apply (Hmax r'). apply elem_of_filterb.
  split; [by apply elem_of_matching|]. apply N.eqb_eq. unfold rank in E. lia.
Qed.

Lemma most_specific_none ms : most_specific ms = None -> ms = [].
Proof.
  unfold most_specific. destruct (last ms) as [top|] eqn:E.
  - intros H%max_by_key_none. exfalso. apply last_Some_elem_of in E as Hin.
    assert (top ∈ List.filter (fun r => specificity (rule_scope r) =? specificity (rule_scope top))%N ms)
      as Hf by (apply elem_of_filterb; by rewrite N.eqb_refl).
    rewrite H in Hf. by apply elem_of_nil in Hf.
  - by intros _; apply last_None in E.
Qed.

(** What an evaluation decides, in the rules that bear on the request. *)
Lemma evaluate_deny_iff set request :
  ev_decision (evaluate set request) = Deny <->
  (forall r, ~ bears_on set request r) \/
  exists r, bears_on set request r /\ (over_limit request r \/ decides r = Deny).
Proof.
  unfold evaluate. destruct (limit_denied request _) as [r|] eqn:El.
  { split; [|done]. intros _. apply limit_denied_some in El as [Hr%elem_of_matching Ho]. eauto. }
  destruct (inherited_deny _) as [r|] eqn:Ed.
  { apply inherited_deny_some in Ed as [Hr%elem_of_matching Hd]. cbn.
    split; [eauto|done]. }
  destruct (most_specific _) as [r|] eqn:Em; cbn.
  - apply most_specific_some in Em as (Hr & _ & _). split.
    + intros Hd. exfalso. apply elem_of_matching in Hr. by eapply inherited_deny_none.
    + intros [H|(r' & Hr' & [Ho|Hd])]; [by destruct (H r)| |];
        apply elem_of_matching in Hr'.
      * by destruct (limit_denied_none _ _ _ El Hr').
      * by destruct (inherited_deny_none _ _ Ed Hr').
  - split; [|done]. intros _. left. intros r Hr%elem_of_matching.
    apply most_specific_none in Em. rewrite Em in Hr. by apply elem_of_nil in Hr.
Qed.

Lemma evaluate_not_deny set request :
  ev_decision (evaluate set request) <> Deny ->
  exists r, bears_on set request r /\ ev_decision (evaluate set request) = decides r /\
    (forall r', bears_on set request r' -> (rank r' <= rank r)%N) /\
    (forall r', bears_on set request r' -> rank r' = rank r ->
       (precedence (decides r') <= precedence (decides r))%N).
Proof.
  unfold evaluate. destruct (limit_denied request _) as [r|] eqn:El; [done|].
  destruct (inherited_deny _) as [r|] eqn:Ed.
  { apply inherited_deny_some in Ed as [_ Hd]. cbn. by intros []. }
  destruct (most_specific _) as [r|] eqn:Em; cbn; [|done].
  intros _. apply most_specific_some in Em as (? & ? & ?). by exists r.
Qed.

(** The decision depends on the set of rules alone. *)
Lemma evaluate_decision_ext set1 set2 request :
  (forall r, r ∈ rules set1 <-> r ∈ rules set2) ->
  ev_decision (evaluate set1 request) = ev_decision (evaluate set2 request).
Proof.
  intros He. assert (forall r, bears_on set1 request r <-> bears_on set2 request r) as Hb
    by (intros r; unfold bears_on; by rewrite He).
  destruct (decide (ev_decision (evaluate set1 request) = Deny)) as [E1|N1].
  - rewrite E1. symmetry. apply evaluate_deny_iff. apply evaluate_deny_iff in E1.
    setoid_rewrite <- Hb. done.
  - assert (ev_decision (evaluate set2 request) <> Deny) as N2.
    { rewrite evaluate_deny_iff in N1 |- *. setoid_rewrite <- Hb. done. }
    destruct (evaluate_not_deny _ _ N1) as (r1 & B1 & -> & T1 & P1).
    destruct (evaluate_not_deny _ _ N2) as (r2 & B2 & -> & T2 & P2).
    rewrite <- Hb in B2. apply precedence_inj.
    assert (rank r1 = rank r2) as Er.
    { apply N.le_antisymm; [apply T2; by rewrite <- Hb|by apply T1]. }
    apply N.le_antisymm; [apply P2; [by rewrite <- Hb|done]|by apply P1].
Qed.

Lemma id_leb_sort_idem rs : sort_by id_leb (sort_by id_leb rs) = sort_by id_leb rs.
Proof.
  apply sort_by_id, sort_by_sorted; intros *; [apply str_leb_total|apply str_leb_trans].
Qed.

Lemma elem_of_seal `{Externals} encode set r : r ∈ rules (seal encode set) <-> r ∈ rules set.
Proof. cbn. by rewrite sort_by_perm. Qed.

Lemma seal_idem `{Externals} encode set : seal encode (seal encode set) = seal encode set.
Proof. unfold seal. cbn [rules policy_version]. by rewrite id_leb_sort_idem. Qed.

(** The rules of the built-in policy that bear on a request. *)
Definition production_parallel (request : PolicyEvaluationRequest) : bool :=
  scope_matches (Environment (lit "production")) (per_target request) (per_tool request)
  && bool_decide (per_execution_strategy request = Parallel) && (2 <=? per_target_count request)%N.

Lemma default_rules_cases request r :
  bears_on default_policy request r ->
  (r = global_rule "global-agent-baseline" None None Allow "POLICY_GLOBAL_ALLOW" (Some 10%N)) \/
  (per_resource_impact request = HighIo /\ rank r = 0%N /\ decides r = RequireApproval
   /\ pe_max_targets (rule_effect r) = None) \/
  ((per_risk_level request = R2 \/ per_risk_level request = R3) /\ rank r = 0%N
   /\ decides r = RequireApproval /\ pe_max_targets (rule_effect r) = None) \/
  (per_risk_level request = R4 /\ rank r = 0%N /\ decides r = RequireStepApproval
   /\ pe_max_targets (rule_effect r) = None) \/
  (production_parallel request = true /\ decides r = Deny).
Proof.
  intros (Hr & _ & Hm). cbn in Hr.
  repeat (apply elem_of_cons in Hr as [-> | Hr]); [..|by apply elem_of_nil in Hr];
    unfold matches_rule in Hm; cbn -[scope_matches lit] in Hm; [by left|right..].
  - left. by rewrite ?andb_true_r in Hm; apply bool_decide_eq_true in Hm.
  - right; left. rewrite ?andb_true_r in Hm; apply bool_decide_eq_true in Hm. auto.
  - right; left. rewrite ?andb_true_r in Hm; apply bool_decide_eq_true in Hm. auto.
  - do 2 right; left. by rewrite ?andb_true_r in Hm; apply bool_decide_eq_true in Hm.
  - do 3 right. split; [|done]. unfold production_parallel.
    rewrite ?andb_true_r in Hm. 
    apply andb_true_iff in Hm as [[Hs Hc]%andb_true_iff He].
    rewrite Hs, Hc. apply bool_decide_eq_true in He. by rewrite bool_decide_eq_true_2.
Qed.

Lemma default_baseline request :
  bears_on default_policy request
    (global_rule "global-agent-baseline" None None Allow "POLICY_GLOBAL_ALLOW" (Some 10%N)).
Proof. split; [by left|done]. Qed.

Lemma default_production request :
  production_parallel request = true ->
  exists r, bears_on default_policy request r /\ decides r = Deny.
Proof.
  unfold production_parallel. intros H. eexists. split; [split; [|split]|].
  - do 5 right. by left.
  - done.
  - unfold matches_rule. cbn -[scope_matches lit].
    apply andb_true_iff in H as [[Hs Hc]%andb_true_iff He].
    apply bool_decide_eq_true in Hc. rewrite Hs, He. cbn. by rewrite bool_decide_eq_true_2.
  - done.
Qed.

(** Each demanding rule of the built-in policy bears on the requests it is for. *)
Lemma default_demanding request :
  (per_resource_impact request = HighIo \/ per_risk_level request = R2
   \/ per_risk_level request = R3 ->
   exists r, bears_on default_policy request r /\ rank r = 0%N /\ decides r = RequireApproval) /\
  (per_risk_level request = R4 ->
   exists r, bears_on default_policy request r /\ rank r = 0%N /\ decides r = RequireStepApproval).
Proof.
  split.
  - intros [H|[H|H]]; eexists; (split; [split; [|split]|split]).
    1: do 1 right; by left. 5: do 2 right; by left. 9: do 3 right; by left.
    all: try done; unfold matches_rule; cbn -[lit]; by rewrite H.
  - intros H; eexists; (split; [split; [|split]|split]).
    1: do 4 right; by left. all: try done. unfold matches_rule; cbn -[lit]; by rewrite H.
Qed.

Lemma service_evaluate_ok svc new_v4 now request e written :
  service_evaluate svc new_v4 now request = (Ok e, written) ->
  e = evaluate (svc_set svc) request /\
  forall f err, svc_audit svc = Some f -> file_load _ f <> Err err /\ file_save _ f <> Err err.
Proof.
  unfold service_evaluate. destruct (svc_audit svc) as [f|].
  - destruct (file_load _ f) eqn:El; [|done]. destruct (file_save _ f) eqn:Es; [|done].
    intros [= <- _]. split; [done|]. intros f' err [= <-]. by rewrite El, Es.
  - by intros [= <- _].
Qed.

(** ** Properties *)

(** C18. How a policy decides: a request is denied exactly when no enabled rule
    bears on it, when it exceeds the target limit of one that does, or when one
    that does says [Deny], whatever the scopes; otherwise the decision is that
    of a rule of the most specific scope among those that bear on it, the
    strictest of that scope; and the order in which the rules are written does
    not matter. *)
Theorem policy_decision_characterised set request :
  (ev_decision (evaluate set request) = Deny <->
     (forall r, ~ bears_on set request r) \/
     exists r, bears_on set request r /\ (over_limit request r \/ decides r = Deny)) /\
  (ev_decision (evaluate set request) = Deny \/
   exists r, bears_on set request r /\ ev_decision (evaluate set request) = decides r /\
     (forall r', bears_on set request r' -> (rank r' <= rank r)%N) /\
     (forall r', bears_on set request r' -> rank r' = rank r ->
        (precedence (decides r') <= precedence (decides r))%N)) /\
  (forall set', rules set' ≡ₚ rules set ->
     ev_decision (evaluate set' request) = ev_decision (evaluate set request)).
Proof.
  split; [apply evaluate_deny_iff|]. split.
  - destruct (decide (ev_decision (evaluate set request) = Deny)); [by left|right].
    by apply evaluate_not_deny.
  - intros set' Hp. apply evaluate_decision_ext. intros r. by rewrite Hp.
Qed.

(** The built-in policy, sealed: it denies exactly the requests for more
    than ten targets and the parallel ones for several production targets;
    and otherwise asks for step approval at risk R4, for approval at R2 and R3
    and for scans of high input/output impact, and allows the rest. *)
Theorem default_policy_sound `{Externals} encode request :
  let decision := ev_decision (evaluate (seal encode default_policy) request) in
  (decision = Deny <->
     (10 < per_target_count request)%N \/ production_parallel request = true) /\
  (decision <> Deny ->
   decision = match per_risk_level request with
              | R4 => RequireStepApproval
              | R2 | R3 => RequireApproval
              | R0 | R1 => if decide (per_resource_impact request = HighIo)
                           then RequireApproval else Allow
              end).
Proof.
  intros decision.
  assert (decision = ev_decision (evaluate default_policy request)) as ->
    by (apply evaluate_decision_ext; intros; apply elem_of_seal).
  split.
  - rewrite evaluate_deny_iff. split.
    + intros [Hn|(r & Hr & Hd)]; [by destruct (Hn _ (default_baseline request))|].
      unfold over_limit in Hd.
      destruct (default_rules_cases _ _ Hr) as [->|[(_&_&E&L)|[(_&_&E&L)|[(_&_&E&L)|[E _]]]]];
        try rewrite L in Hd; try rewrite E in Hd; [|by naive_solver..].
      destruct Hd as [(limit & [= <-] & Hl)|[=]]. by left.
    + intros [Hl|Hp]; right.
      * eexists. split; [apply default_baseline|]. left. by exists 10%N.
      * destruct (default_production _ Hp) as (r & ? & ?). eauto.
  - intros Hn. destruct (evaluate_not_deny _ _ Hn) as (r & Hr & Hdec & Hrank & Hprec).
    rewrite Hdec in Hn |- *. destruct (default_demanding request) as [D2 D4].
    assert (rank r = 0%N) as Er0.
    { destruct (default_rules_cases _ _ Hr) as [->|[(_&E&_)|[(_&E&_)|[(_&E&_)|[_ E]]]]]; done. }
    assert (forall d, (exists r', bears_on default_policy request r' /\ rank r' = 0%N
              /\ decides r' = d) -> (precedence d <= precedence (decides r))%N) as Hge.
    { intros d (r' & Hr' & E & <-). apply Hprec; [done|congruence]. }
    destruct (default_rules_cases _ _ Hr) as [->|[(E&_&Ed&_)|[(E&_&Ed&_)|[(E&_&Ed&_)|[_ Ed]]]]];
      try rewrite Ed in *; [..|done].
    + destruct (per_risk_level request) eqn:Erisk; cbn in *.
      1, 2: rewrite decide_False; [done|]; intros Hio; specialize (Hge _ (D2 (or_introl Hio))); by cbn in Hge.
      * specialize (Hge _ (D2 ltac:(tauto))). by cbn in Hge.
      * specialize (Hge _ (D2 ltac:(tauto))). by cbn in Hge.
      * specialize (Hge _ (D4 eq_refl)). by cbn in Hge.
    + destruct (per_risk_level request) eqn:Erisk; cbn in *; try done.
      1, 2: by rewrite decide_True.
      specialize (Hge _ (D4 eq_refl)). by cbn in Hge.
    + destruct (per_risk_level request) eqn:Erisk; cbn in *; naive_solver.
    + by rewrite E.
Qed.

(** A sealed set carries its identity: sealing is idempotent, so that
    loading the file a load has saved changes neither rules nor hash and a
    failed load changes nothing; every evaluation's snapshot matches the
    service that made it; and two sets with one hash have the same rules in
    the same order, if the encoding is faithful and SHA-256 tells the two
    encodings apart. *)
Theorem sealed_policy_identity `{ExternalLaws} encode :
  (forall set, seal encode (seal encode set) = seal encode set) /\
  (forall svc f saved svc', svc_repository svc = Some f ->
     service_load encode svc = (Ok tt, svc', Some saved) ->
     service_load encode {| svc_set := svc_set svc; svc_audit := svc_audit svc;
       svc_repository := Some {| file_load := Ok saved; file_save := Ok tt |} |}
     = (Ok tt, {| svc_set := svc_set svc'; svc_audit := svc_audit svc';
                  svc_repository := Some {| file_load := Ok saved; file_save := Ok tt |} |},
        Some saved)) /\
  (forall svc svc' e saved, service_load encode svc = (Err e, svc', saved) -> svc' = svc) /\
  (forall svc request, current_matches svc (snapshot_of (evaluate (svc_set svc) request)) = true) /\
  (forall a b, policy_hash (seal encode a) = policy_hash (seal encode b) ->
     let ra := rules (seal encode a) in let rb := rules (seal encode b) in
     (encode ra = encode rb -> ra = rb) -> no_collision (encode ra) (encode rb) -> ra = rb).
Proof.
  split; [apply seal_idem|]. split.
  { intros svc f saved svc' Hf Hl. unfold service_load in *. rewrite Hf in Hl.
    destruct (file_load _ f) as [loaded|]; [|done].
    destruct (file_save _ f) as [[]|]; [|done]. injection Hl as Hs Hsv. cbn [svc_repository file_load file_save].
    assert (seal encode saved = saved /\ rules saved <> []) as [Hid Hne].
    { rewrite <- Hsv. destruct (rules loaded) eqn:El; rewrite seal_idem; (split; [done|]).
      - assert (global_rule "global-agent-baseline" None None Allow "POLICY_GLOBAL_ALLOW" (Some 10%N)
          ∈ rules (seal encode default_policy)) as Hin by (apply elem_of_seal; by left).
        intros E. rewrite E in Hin. by apply elem_of_nil in Hin.
      - assert (p ∈ rules (seal encode loaded)) as Hin by (apply elem_of_seal; rewrite El; by left).
        intros E. rewrite E in Hin. by apply elem_of_nil in Hin. }
    rewrite <- Hs. destruct (rules saved); [done|]. rewrite Hid, <- Hsv. done. }
  split.
  { intros svc svc' e saved. unfold service_load. repeat case_match; congruence. }
  split.
  { intros svc request. unfold current_matches, snapshot_of, evaluate.
    destruct (limit_denied _ _); [|destruct (inherited_deny _); [|destruct (most_specific _)]];
      cbn; by rewrite N.eqb_refl, str_eqb_refl. }
  intros a b Hh ra rb Hinj Hc. apply Hinj. apply digest_hex_eq; [done|exact Hh].
Qed.

Definition encode_ids (rs : list PolicyRule) : str := concat (map rule_id rs).

Lemma sealed_policy_identity_witness :
  @seal quoting_externals encode_ids (@seal quoting_externals encode_ids default_policy)
  = @seal quoting_externals encode_ids default_policy /\
  rules (@seal quoting_externals encode_ids default_policy) <> [].
Proof.
  split; [|by vm_compute].
  exact (proj1 (@sealed_policy_identity quoting_externals quoting_laws encode_ids) default_policy).
Defined.

(** The policy service fails closed and keeps a bounded audit: it returns an
    evaluation only with the evaluation of its sealed set, after the audit
    file, when there is one, was read and written; what it writes is at most
    2000 records, the newest being the one for this request and the others the
    latest of those that were there; and a file that cannot be read or
    written gives an error, with nothing written. *)
Theorem policy_service_audited svc new_v4 now request :
  match service_evaluate svc new_v4 now request with
  | (Ok e, written) =>
      e = evaluate (svc_set svc) request /\
      match svc_audit svc, written with
      | None, None => True
      | Some f, Some records =>
          exists before kept, file_load _ f = Ok before /\ file_save _ f = Ok tt /\
            kept `suffix_of` before /\
            records = kept ++ [audit_record new_v4 now request e] /\
            (length records <= MAX_POLICY_AUDIT_RECORDS)%nat /\
            (length before < MAX_POLICY_AUDIT_RECORDS -> kept = before)%nat
      | _, _ => False
      end
  | (Err error, written) =>
      written = None /\
      exists f, svc_audit svc = Some f /\ (file_load _ f = Err error \/ file_save _ f = Err error)
  end.
Proof.
  unfold service_evaluate. destruct (svc_audit svc) as [f|]; [|done].
  destruct (file_load _ f) as [before|e] eqn:El; [|split; [done|exists f; auto]].
  destruct (file_save _ f) as [[]|e] eqn:Es; [|split; [done|exists f; auto]].
  split; [done|]. set (r := audit_record _ _ _ _).
  unfold bounded_audit. rewrite length_app. cbn [length].
  destruct (_ <? _)%nat eqn:E; [apply Nat.ltb_lt in E|apply Nat.ltb_ge in E].
  - exists before, (drop (length before + 1 - MAX_POLICY_AUDIT_RECORDS) before).
    assert (0 < MAX_POLICY_AUDIT_RECORDS)%nat as Hmax by (unfold MAX_POLICY_AUDIT_RECORDS; lia).
    revert E Hmax. generalize MAX_POLICY_AUDIT_RECORDS as m. intros m E Hmax.
    rewrite drop_app_le by lia. split_and!; try done.
    + apply suffix_drop.
    + rewrite length_app, length_drop. cbn. lia.
    + lia.
  - exists before, before. rewrite length_app. cbn [length]. by split_and!.
Qed.
