(* ===== verification/Decision.v ===== *)
(** * The decision protocol (agent/decision.rs)

    What a reasoner may propose, its structural validation, and the
    classification that labels a proposed shell command.  [Uuid::new_v4] is
    third-party: its results are an argument. *)
From S2P Require Import Prelude Str Json Errors RunState Context Tools.

Definition AGENT_DECISION_INVALID : str := lit "AGENT_DECISION_INVALID".
Definition MAX_TOOL_CALLS_PER_TURN : nat := 4.
Definition MAX_REASON_SUMMARY_BYTES : N := 300.
Definition MAX_QUESTION_BYTES : N := 2 * 1024.
Definition MAX_FINAL_SUMMARY_BYTES : N := 16 * 1024.
Definition MAX_CHANGE_TITLE_BYTES : N := 256.
Definition MAX_CHANGE_SUMMARY_BYTES : N := 4096.
Definition MAX_CHANGE_STEPS : nat := 4.
Definition MAX_COMMAND_BYTES : N := 16 * 1024.

(** [ChangeStepDraft] (agentic/changes.rs). *)
Inductive ChangeStepDraft :=
  | DraftFilePatch (path expected replacement : str)
  | DraftServiceRestart (service : str)
  | DraftServiceReload (service : str)
  | DraftNginxReload
  | DraftDockerRestart (container : str).
#[export] Instance change_step_draft_eq_dec : EqDecision ChangeStepDraft.
Proof. solve_decision. Defined.

Inductive CommandRisk := RiskLow | RiskMedium | RiskHigh | RiskCritical.
#[export] Instance command_risk_eq_dec : EqDecision CommandRisk.
Proof. solve_decision. Defined.

Definition command_risk_str (r : CommandRisk) : str :=
  lit match r with
  | RiskLow => "low" | RiskMedium => "medium" | RiskHigh => "high" | RiskCritical => "critical"
  end%string.

Inductive CommandMutability := ReadIntent | Mutating | MutabilityUnknown.
#[export] Instance command_mutability_eq_dec : EqDecision CommandMutability.
Proof. solve_decision. Defined.

Definition command_mutability_str (m : CommandMutability) : str :=
  lit match m with
  | ReadIntent => "read" | Mutating => "mutating" | MutabilityUnknown => "unknown"
  end%string.

Record ToolCallRequest := {
  req_tool_name : str;
  req_arguments : json;
  req_reason_summary : str;
}.

Record CommandProposalRequest := {
  prop_command : str;
  prop_reason_summary : str;
  prop_observation_analysis : option str;
}.

Record ChangeProposalRequest := {
  chg_title : str;
  chg_summary : str;
  chg_evidence_ids : list Uuid;
  chg_steps : list ChangeStepDraft;
}.

Inductive AgentDecision :=
  | DToolCalls (requests : list ToolCallRequest)
  | DCommandProposal (proposal : CommandProposalRequest)
  | DAskUser (question : str)
  | DFinal (summary : str)
  | DProposeChangeSet (proposal : ChangeProposalRequest).

Record PreparedToolCall := {
  tool_call_id : Uuid;
  ptc_tool_name : str;
  ptc_reason_summary : str;
  ptc_invocation : NativeToolInvocation;
}.
#[export] Instance prepared_tool_call_eq_dec : EqDecision PreparedToolCall.
Proof. solve_decision. Defined.

Record PreparedCommandProposal := {
  command_id : Uuid;
  cmd_command : str;
  cmd_reason_summary : str;
  cmd_observation_analysis : option str;
  cmd_risk : CommandRisk;
  cmd_mutability : CommandMutability;
}.
#[export] Instance prepared_command_eq_dec : EqDecision PreparedCommandProposal.
Proof. solve_decision. Defined.

Record ValidatedChangeProposal := {
  proposal_id : Uuid;
  vcp_title : str;
  vcp_summary : str;
  vcp_evidence_ids : list Uuid;
  vcp_steps : list ChangeStepDraft;
}.
#[export] Instance validated_change_eq_dec : EqDecision ValidatedChangeProposal.
Proof. solve_decision. Defined.

Inductive ValidatedDecision :=
  | VToolCalls (calls : list PreparedToolCall)
  | VCommandProposal (proposal : PreparedCommandProposal)
  | VAskUser (question : str)
  | VFinal (summary : str)
  | VProposeChangeSet (proposal : ValidatedChangeProposal).

Inductive DecisionError :=
  | EmptyToolCalls | TooManyToolCalls | UnknownTool | WriteToolRejected
  | InvalidArguments | InvalidCommand | InvalidReasonSummary | InvalidQuestion
  | InvalidFinalSummary | InvalidChangeSummary | InvalidChangeTitle
  | InvalidChangeSteps | InvalidChangeEvidence.
#[export] Instance decision_error_eq_dec : EqDecision DecisionError.
Proof. solve_decision. Defined.

Definition decision_error_code (_ : DecisionError) : str := AGENT_DECISION_INVALID.

(** The [#[error]] texts. *)
Definition decision_error_message (e : DecisionError) : str :=
  lit match e with
  | EmptyToolCalls => "decision contained no tool calls"
  | TooManyToolCalls => "decision requested more than 4 tool calls"
  | UnknownTool => "tool name is not in the native tool registry"
  | WriteToolRejected => "write tools cannot be requested by the reasoner"
  | InvalidArguments => "tool arguments failed structural validation"
  | InvalidCommand => "command proposal is empty, multiline, or exceeds the allowed size"
  | InvalidReasonSummary => "reason summary is empty or exceeds the allowed size"
  | InvalidQuestion => "question is empty or exceeds the allowed size"
  | InvalidFinalSummary => "final summary is empty or exceeds the allowed size"
  | InvalidChangeSummary => "change proposal summary is empty or exceeds the allowed size"
  | InvalidChangeTitle => "change proposal title is empty or exceeds the allowed size"
  | InvalidChangeSteps => "change proposal has no steps or exceeds the allowed size"
  | InvalidChangeEvidence => "change proposal evidence list is invalid"
  end%string.

(** Trims, bounds and redacts user-visible text from the model. *)
Definition bounded_user_text (raw : str) (max_bytes : N) : option str :=
  let trimmed := trim raw in
  if is_empty trimmed || (max_bytes <? blen trimmed)%N then None
  else Some (redact_secrets trimmed).1.

Definition parse_tool_name (raw : str) : option NativeToolName :=
  find (fun name => str_eqb (tool_as_str name) raw) ALL_TOOLS.

(** ** Shell text *)
Module Shell.
(** The single and the double quote. *)
Definition SQUOTE : chr := 39%N.
Definition DQUOTE : chr := 34%N.

Definition starts_with_char (s : str) (c : chr) : bool := starts_with s [c].

(** Text up to a separator, trimmed, unless nothing is left. *)
Definition emit (cur : str) : list str :=
  let part := trim (rev cur) in if is_empty part then [] else [part].

(** [&&] and [||]; a single [|] and [;]. *)
Definition is_pair (c d : chr) : bool := ((c =? 38) && (d =? 38) || (c =? 124) && (d =? 124))%N.
Definition is_single (c : chr) : bool := ((c =? 124) || (c =? 59))%N.

(** The byte scan of [shell_segments]; [cur] holds, reversed, the text since
    the last separator. *)
Fixpoint segments_from (cur s : str) : list str :=
  match s with
  | [] => emit cur
  | c :: t =>
      match t with
      | d :: t' =>
          if is_pair c d
          then emit cur ++ segments_from [] t'
          else if is_single c
          then emit cur ++ segments_from [] t
          else segments_from (c :: cur) t
      | [] =>
          if is_single c then emit cur ++ segments_from [] t
          else segments_from (c :: cur) t
      end
  end.
Definition shell_segments (command : str) : list str := segments_from [] command.

(** [token.rsplit('/').next()], quotes trimmed, lower-cased. *)
Definition strip_executable_path (token : str) : str :=
  to_ascii_lowercase
    (trim_matches (fun c => (c =? SQUOTE)%N || (c =? DQUOTE)%N)
       (default token (last (split (N.eqb 47) token)))).

Fixpoint skip_while (p : str -> bool) (tokens : list str) : list str :=
  match tokens with
  | [] => []
  | t :: rest => if p t then skip_while p rest else tokens
  end.

(** A leading [NAME=value] word. *)
Definition assignment_word (t : str) : bool :=
  contains_char t 61 && negb (starts_with_char t 45) && negb (starts_with_char t SQUOTE)
  && negb (starts_with_char t DQUOTE).
(** An assignment after a wrapper such as [env]. *)
Definition wrapped_assignment (t : str) : bool :=
  contains_char t 61 && negb (starts_with_char t 45).

Definition WRAPPERS : list str :=
  map (fun s => lit s) ["sudo"; "doas"; "command"; "time"; "nice"; "nohup"; "env"]%string.
Definition FLAGS_WITH_VALUE : list str :=
  map (fun s => lit s) ["-u"; "-g"; "-p"; "-C"; "--user"; "--group"]%string.
Definition NAME_LOOKUPS : list str :=
  map (fun s => lit s) ["which"; "type"; "whereis"]%string.

(** The flags of a wrapper, with the word that follows a flag that takes one. *)
Fixpoint skip_flags (tokens : list str) : list str :=
  match tokens with
  | [] => []
  | t :: rest =>
      if starts_with_char t 45 then
        if str_in FLAGS_WITH_VALUE t then
          match rest with [] => [] | _ :: rest' => skip_flags rest' end
        else skip_flags rest
      else tokens
  end.

(** The program a wrapper runs, or the wrapper when nothing follows. *)
Definition unwrap (exe : str) (rest : list str) : str :=
  if str_in WRAPPERS exe then
    match skip_while wrapped_assignment (skip_flags rest) with
    | [] => exe
    | t :: _ => strip_executable_path t
    end
  else exe.

Definition primary_executable (segment : str) : option str :=
  match skip_while assignment_word (split_whitespace segment) with
  | [] => None
  | t :: rest => Some (unwrap (strip_executable_path t) rest)
  end.

(** [command -v name] and [command -V name] look a name up. *)
Fixpoint command_lookup (rest : list str) : bool :=
  match rest with
  | [] => false
  | t :: rest' =>
      if starts_with_char t 45
      then str_eqb t (lit "-v") || str_eqb t (lit "-V") || command_lookup rest'
      else false
  end.

Definition executable_being_invoked (segment : str) : option str :=
  match skip_while assignment_word (split_whitespace segment) with
  | [] => None
  | t :: rest =>
      let exe := strip_executable_path t in
      if str_in NAME_LOOKUPS exe then Some exe
      else if str_eqb exe (lit "command") && command_lookup rest then Some exe
      else Some (unwrap exe rest)
  end.

Definition CRITICAL_POWER_VERBS : list str :=
  map (fun s => lit s) ["shutdown"; "poweroff"; "reboot"; "halt"]%string.

Definition command_invokes_critical_power_verb (command : str) : bool :=
  existsb (str_in CRITICAL_POWER_VERBS)
    (omap executable_being_invoked (shell_segments command)).

Definition READ_SAFE_EXECUTABLES : list str :=
  map (fun s => lit s)
    ["uptime"; "date"; "who"; "w"; "whoami"; "id"; "uname"; "last"; "lastb"; "echo";
     "printf"; "true"; "false"; "cat"; "head"; "tail"; "grep"; "egrep"; "fgrep"; "rg";
     "awk"; "sed"; "cut"; "sort"; "uniq"; "wc"; "tr"; "df"; "du"; "free"; "ps"; "vmstat";
     "iostat"; "mpstat"; "pidstat"; "journalctl"; "dmesg"; "ls"; "pwd"; "hostname";
     "timedatectl"; "lsblk"; "findmnt"; "ss"; "ip"; "basename"; "dirname"; "command";
     "type"; "which"; "stat"; "file"; "realpath"; "readlink"; "getent"; "env"; "printenv";
     "lscpu"; "nproc"; "arch"]%string.

Definition SUBSTITUTIONS : list str :=
  map (fun s => lit s) ["$("; "`"; " -exec "; " xargs "; "sh -c"; "bash -c"]%string.

Definition is_read_safe_composition (command : str) : bool :=
  if contains_any command SUBSTITUTIONS then false else
  let segments := shell_segments command in
  match segments with
  | [] => false
  | _ => forallb (fun segment => match primary_executable segment with
                                 | Some exe => str_in READ_SAFE_EXECUTABLES exe
                                 | None => false
                                 end) segments
  end.

Definition CRITICAL_MARKERS : list str :=
  map (fun s => lit s) ["rm -rf"; "mkfs"; "wipefs"; "dd if="; ":(){"]%string.
Definition MUTATING_MARKERS : list str :=
  map (fun s => lit s)
    ["sudo "; " rm "; " mv "; " cp "; " chmod "; " chown "; " mkdir "; " touch "; "sed -i";
     "systemctl start"; "systemctl stop"; "systemctl restart"; "systemctl reload";
     "systemctl enable"; "systemctl disable"; "docker rm"; "docker stop";
     "docker restart"; "docker prune"; "apt install"; "apt-get install"; "dnf install";
     "yum install"; "pacman -s"; " tee "]%string.
Definition MUTATING_PREFIXES : list str :=
  map (fun s => lit s)
    ["rm "; "mv "; "cp "; "chmod "; "chown "; "mkdir "; "touch "]%string.
Definition COMPOSITIONS : list str :=
  map (fun s => lit s)
    ["&&"; "||"; ";"; "$("; "`"; " -exec "; " xargs "; "sh -c"; "bash -c"]%string.

Definition without_fd_redirection (lower : str) : str :=
  replace (replace (replace (replace lower (lit "2>&1") []) (lit "1>&2") [])
             (lit "2>/dev/null") []) (lit ">/dev/null") [].

Definition classify_command (command : str) : CommandRisk * CommandMutability :=
  let lower := to_ascii_lowercase command in
  if contains_any lower CRITICAL_MARKERS || command_invokes_critical_power_verb lower
  then (RiskCritical, Mutating)
  else if contains_any lower MUTATING_MARKERS
          || starts_with_any (trim_start lower) MUTATING_PREFIXES
  then (RiskHigh, Mutating)
  else if contains_any (without_fd_redirection lower) COMPOSITIONS then
    if is_read_safe_composition lower then (RiskLow, ReadIntent)
    else (RiskHigh, MutabilityUnknown)
  else if contains_char (without_fd_redirection lower) 62 then (RiskMedium, Mutating)
  else if contains_any lower [lit "curl "; lit "wget "]
  then (RiskMedium, MutabilityUnknown)
  else (RiskLow, ReadIntent).
End Shell.

(** ** Validation *)
Abbreviation checked := (result DecisionError) (only parsing).

Definition prepare_tool_call (new_v4 : Uuid) (request : ToolCallRequest) :
    checked PreparedToolCall :=
  name ← ok_or (parse_tool_name (req_tool_name request)) UnknownTool;
  descriptor_is_read ← ok_or
    ((fun d => bool_decide (td_mutability d = Read)) <$> find_descriptor name) UnknownTool;
  if negb descriptor_is_read then Err WriteToolRejected else
  invocation ← match from_model_read_call name (req_arguments request) with
               | Ok i => Ok i
               | Err _ => Err InvalidArguments
               end;
  reason_summary ← ok_or (bounded_user_text (req_reason_summary request)
                            MAX_REASON_SUMMARY_BYTES) InvalidReasonSummary;
  Ok {| tool_call_id := new_v4; ptc_tool_name := tool_as_str name;
        ptc_reason_summary := reason_summary; ptc_invocation := invocation |}.

Definition prepare_command_proposal (new_v4 : Uuid) (proposal : CommandProposalRequest) :
    checked PreparedCommandProposal :=
  let command := trim (prop_command proposal) in
  if is_empty command || (MAX_COMMAND_BYTES <? blen command)%N || contains_char command 0
     || negb (length (lines command) =? 1)%nat
  then Err InvalidCommand else
  let '(redacted_command, command_contained_secret) := redact_secrets command in
  if command_contained_secret || negb (str_eqb redacted_command command)
  then Err InvalidCommand else
  reason_summary ← ok_or (bounded_user_text (prop_reason_summary proposal)
                            MAX_REASON_SUMMARY_BYTES) InvalidReasonSummary;
  observation_analysis ←
    match prop_observation_analysis proposal with
    | Some summary =>
        Some <$> ok_or (bounded_user_text summary MAX_FINAL_SUMMARY_BYTES) InvalidFinalSummary
    | None => Ok None
    end;
  let '(risk, mutability) := Shell.classify_command command in
  Ok {| command_id := new_v4; cmd_command := command; cmd_reason_summary := reason_summary;
        cmd_observation_analysis := observation_analysis; cmd_risk := risk;
        cmd_mutability := mutability |}.

Definition prepare_change_proposal (new_v4 : Uuid) (proposal : ChangeProposalRequest) :
    checked ValidatedChangeProposal :=
  title ← ok_or (bounded_user_text (chg_title proposal) MAX_CHANGE_TITLE_BYTES)
                InvalidChangeTitle;
  summary ← ok_or (bounded_user_text (chg_summary proposal) MAX_CHANGE_SUMMARY_BYTES)
                  InvalidChangeSummary;
  let steps := chg_steps proposal in
  let evidence_ids := chg_evidence_ids proposal in
  if (length steps =? 0)%nat || (MAX_CHANGE_STEPS <? length steps)%nat
  then Err InvalidChangeSteps else
  if (length evidence_ids =? 0)%nat || (MAX_CHANGE_STEPS <? length evidence_ids)%nat
     || negb (bool_decide (NoDup evidence_ids))
  then Err InvalidChangeEvidence else
  Ok {| proposal_id := new_v4; vcp_title := title; vcp_summary := summary;
        vcp_evidence_ids := evidence_ids; vcp_steps := steps |}.

(** The calls of [Uuid::new_v4] during one validation return [new_v4 0],
    [new_v4 1], ... *)
Fixpoint prepare_tool_calls (new_v4 : nat -> Uuid) (k : nat) (requests : list ToolCallRequest) :
    checked (list PreparedToolCall) :=
  match requests with
  | [] => Ok []
  | request :: rest =>
      call ← prepare_tool_call (new_v4 k) request;
      calls ← prepare_tool_calls new_v4 (S k) rest;
      Ok (call :: calls)
  end.

Definition validate_decision (new_v4 : nat -> Uuid) (decision : AgentDecision) :
    checked ValidatedDecision :=
  match decision with
  | DToolCalls requests =>
      if (length requests =? 0)%nat then Err EmptyToolCalls else
      if (MAX_TOOL_CALLS_PER_TURN <? length requests)%nat then Err TooManyToolCalls else
      VToolCalls <$> prepare_tool_calls new_v4 0 requests
  | DCommandProposal proposal =>
      VCommandProposal <$> prepare_command_proposal (new_v4 0%nat) proposal
  | DAskUser question =>
      VAskUser <$> ok_or (bounded_user_text question MAX_QUESTION_BYTES) InvalidQuestion
  | DFinal summary =>
      VFinal <$> ok_or (bounded_user_text summary MAX_FINAL_SUMMARY_BYTES) InvalidFinalSummary
  | DProposeChangeSet proposal =>
      VProposeChangeSet <$> prepare_change_proposal (new_v4 0%nat) proposal
  end.

(** ** Specification of a validated decision *)
Definition shown_text (max_bytes : N) (t : str) : Prop :=
  exists raw, trim raw = raw /\ raw <> [] /\ (blen raw <= max_bytes)%N /\
              t = (redact_secrets raw).1.

Definition tool_call_ok (c : PreparedToolCall) : Prop :=
  invocation_name (ptc_invocation c) ∈ READ_ONLY /\
  ptc_tool_name c = tool_as_str (invocation_name (ptc_invocation c)) /\
  invocation_bounded (ptc_invocation c) /\
  shown_text MAX_REASON_SUMMARY_BYTES (ptc_reason_summary c).

Definition command_ok (p : PreparedCommandProposal) : Prop :=
  cmd_command p <> [] /\ trim (cmd_command p) = cmd_command p /\
  (blen (cmd_command p) <= MAX_COMMAND_BYTES)%N /\
  0%N ∉ cmd_command p /\ 10%N ∉ cmd_command p /\
  redact_secrets (cmd_command p) = (cmd_command p, false) /\
  (cmd_risk p, cmd_mutability p) = Shell.classify_command (cmd_command p) /\
  shown_text MAX_REASON_SUMMARY_BYTES (cmd_reason_summary p) /\
  (forall t, cmd_observation_analysis p = Some t -> shown_text MAX_FINAL_SUMMARY_BYTES t).

Definition change_ok (p : ValidatedChangeProposal) : Prop :=
  (1 <= length (vcp_steps p) <= MAX_CHANGE_STEPS)%nat /\
  (1 <= length (vcp_evidence_ids p) <= MAX_CHANGE_STEPS)%nat /\
  NoDup (vcp_evidence_ids p) /\
  shown_text MAX_CHANGE_TITLE_BYTES (vcp_title p) /\
  shown_text MAX_CHANGE_SUMMARY_BYTES (vcp_summary p).

Definition validated_ok (v : ValidatedDecision) : Prop :=
  match v with
  | VToolCalls calls =>
      (1 <= length calls <= MAX_TOOL_CALLS_PER_TURN)%nat /\ Forall tool_call_ok calls
  | VCommandProposal p => command_ok p
  | VAskUser q => shown_text MAX_QUESTION_BYTES q
  | VFinal s => shown_text MAX_FINAL_SUMMARY_BYTES s
  | VProposeChangeSet p => change_ok p
  end.

(** The executables of a command line that its classification looks at. *)
Definition runs_power_verb (command : str) : Prop :=
  exists segment exe, segment ∈ Shell.shell_segments (to_ascii_lowercase command) /\
    Shell.executable_being_invoked segment = Some exe /\ exe ∈ Shell.CRITICAL_POWER_VERBS.

Definition reads_only (command : str) : Prop :=
  forall segment, segment ∈ Shell.shell_segments (to_ascii_lowercase command) ->
    exists exe, Shell.primary_executable segment = Some exe /\ exe ∈ Shell.READ_SAFE_EXECUTABLES.

(** An operator between two commands: [;], [&&], [||], or [|] before a command
    that does not begin with another bar, after text that does not end in half
    an operator. *)
Definition joined_by (a sep b : str) : Prop :=
  (sep = lit ";" \/ sep = lit "&&" \/ sep = lit "||" \/ sep = lit "|" /\ head b <> Some 124%N) /\
  (forall c, last a = Some c -> c <> 38%N /\ c <> 124%N).

(** ** Lemmas *)
Lemma bounded_user_text_ok raw max t :
  bounded_user_text raw max = Some t -> shown_text max t.
Proof.
  unfold bounded_user_text. destruct (_ || _) eqn:E; [done|]. intros [= <-].
  apply orb_false_iff in E as [E1%is_empty_false E2%N.ltb_ge].
  exists (trim raw). split_and!; try done. apply trim_idem.
Qed.

Lemma parse_tool_name_some raw t : parse_tool_name raw = Some t <-> raw = tool_as_str t.
Proof.
  split.
  - intros H. apply find_some in H as [_ H]. by apply str_eqb_eq in H.
  - intros ->. by destruct t; vm_compute.
Qed.

Lemma find_descriptor_read t :
  (fun d => bool_decide (td_mutability d = Read)) <$> find_descriptor t
  = Some (bool_decide (t ∈ READ_ONLY)).
Proof. by destruct t; vm_compute. Qed.

Lemma prepare_tool_call_ok id request c :
  prepare_tool_call id request = Ok c ->
  tool_call_ok c /\ tool_call_id c = id /\ req_tool_name request = ptc_tool_name c.
Proof.
  unfold prepare_tool_call. intros H. inv_ok.
  rewrite find_descriptor_read in *. simplify_eq.
  destruct (negb _) eqn:En; [done|]. apply negb_false_iff, bool_decide_eq_true in En.
  inv_ok. destruct (from_model_read_call _ _) as [i|] eqn:Ei; [|done]. simplify_eq.
  apply model_call_opened in Ei as (<- & Hb & _).
  apply parse_tool_name_some in H0.
  unfold tool_call_ok. cbn. split_and!; try done. by eapply bounded_user_text_ok.
Qed.

Lemma prepare_tool_calls_ok ids k requests calls :
  prepare_tool_calls ids k requests = Ok calls ->
  length calls = length requests /\ Forall tool_call_ok calls /\
  map tool_call_id calls = map ids (seq k (length calls)).
Proof.
  revert k calls. induction requests as [|r rest IH]; cbn; intros k calls H; inv_ok.
  - by subst.
  - subst. apply prepare_tool_call_ok in H0 as (? & ? & ?).
    apply IH in H1 as (? & ? & ?). cbn. split_and!; [by f_equal|by constructor|by f_equal].
Qed.

Lemma prepare_command_ok id proposal p :
  prepare_command_proposal id proposal = Ok p ->
  command_ok p /\ command_id p = id /\ cmd_command p = trim (prop_command proposal).
Proof.
  unfold prepare_command_proposal. cbn zeta.
  destruct (_ || _) eqn:E; [done|].
  apply orb_false_iff in E as [[[E1%is_empty_false E2%N.ltb_ge]%orb_false_iff
                                E3]%orb_false_iff E4].
  apply negb_false_iff, Nat.eqb_eq in E4.
  destruct (redact_secrets _) as [red secret] eqn:Er.
  destruct (secret || _) eqn:Es; [done|].
  apply orb_false_iff in Es as [-> Es]. apply negb_false_iff, str_eqb_eq in Es as ->.
  intros H. inv_ok. destruct (Shell.classify_command _) as [risk mut] eqn:Ec.
  injection H as <-. unfold command_ok. cbn. split; [|done]. split_and!; try done.
  - apply trim_idem.
  - intros Hin. unfold contains_char in E3. rewrite Existsb_false in E3.
    by specialize (E3 _ Hin).
  - apply lines_count_one; [|done]. intros Hl. by apply trim_last in Hl.
  - by eapply bounded_user_text_ok.
  - destruct (prop_observation_analysis proposal); inv_ok; intros t Ht; simplify_eq.
    by eapply bounded_user_text_ok.
Qed.

Lemma prepare_change_ok id proposal p :
  prepare_change_proposal id proposal = Ok p -> change_ok p /\ proposal_id p = id.
Proof.
  unfold prepare_change_proposal. intros H. inv_ok. cbn zeta in *.
  destruct ((_ =? _)%nat || _) eqn:E1 in H; [done|].
  destruct (_ || negb _) eqn:E2; [done|]. injection H as <-.
  apply orb_false_iff in E1 as [E1%Nat.eqb_neq E1'%Nat.ltb_ge].
  apply orb_false_iff in E2 as [[E2%Nat.eqb_neq E2'%Nat.ltb_ge]%orb_false_iff E3].
  apply negb_false_iff, bool_decide_eq_true in E3.
  unfold change_ok. cbn. split_and!; try done; try lia; by eapply bounded_user_text_ok.
Qed.

(** *** Segments of a command line *)
Module ShellFacts.
Import Shell.

Lemma emit_nil : emit [] = [].
Proof. done. Qed.

Lemma segments_nil cur : segments_from cur [] = emit cur.
Proof. done. Qed.

Lemma segments_one cur c : segments_from cur [c] =
  if is_single c then emit cur else segments_from (c :: cur) [].
Proof.
  cbn [segments_from]. case_match; [|done].
  change (emit []) with (@nil (list N)). by rewrite app_nil_r.
Qed.

Lemma segments_two cur c d t : segments_from cur (c :: d :: t) =
  if is_pair c d then emit cur ++ segments_from [] t
  else if is_single c then emit cur ++ segments_from [] (d :: t)
  else segments_from (c :: cur) (d :: t).
Proof. done. Qed.

(** An operator followed by text cuts there. *)
Lemma segments_operator cur a sep b :
  joined_by a sep b -> segments_from cur (sep ++ b) = emit cur ++ segments_from [] b.
Proof.
  intros [[-> | [-> | [-> | [-> Hb]]]] _];
    [destruct b as [|d b]|done|done|destruct b as [|d b]].
  1, 3: rewrite app_nil_r, segments_nil; change (emit []) with (@nil (list N));
    rewrite app_nil_r; by apply segments_one.
  - change (lit ";" ++ d :: b) with (59%N :: d :: b). by rewrite segments_two.
  - change (lit "|" ++ d :: b) with (124%N :: d :: b). rewrite segments_two.
    assert (is_pair 124 d = false) as ->; [|done].
    apply N.eqb_neq. intros ->. by destruct Hb.
Qed.

Lemma joined_tail a c sep b : joined_by (c :: a) sep b -> joined_by a sep b.
Proof.
  intros [H1 H2]. split; [done|]. intros x Hx. apply H2. by rewrite last_cons, Hx.
Qed.

Lemma sep_head a sep b : joined_by a sep b -> exists s t, sep ++ b = s :: t.
Proof. intros [[-> | [-> | [-> | [-> _]]]] _]; by do 2 eexists. Qed.

Lemma joined_no_pair c sep b s : joined_by [c] sep b -> is_pair c s = false /\ (c =? 124)%N = false.
Proof.
  intros [_ H]. destruct (H c eq_refl) as [H1 H2]. unfold is_pair.
  by rewrite (proj2 (N.eqb_neq _ _) H1), (proj2 (N.eqb_neq _ _) H2).
Qed.

(** The segments of two commands joined by an operator are those of the two. *)
Lemma segments_app n cur a sep b :
  (length a <= n)%nat -> joined_by a sep b ->
  segments_from cur (a ++ sep ++ b) = segments_from cur a ++ segments_from [] b.
Proof.
  revert cur a. induction n as [|n IH]; intros cur a Hn Hj.
  { destruct a; [|cbn in Hn; lia]. exact (segments_operator cur [] sep b Hj). }
  destruct a as [|c [|d a]]; [exact (segments_operator cur [] sep b Hj)| |].
  - destruct (sep_head _ _ _ Hj) as (s & t & E). pose proof (joined_no_pair _ _ _ s Hj) as [Hp _].
    change ([c] ++ sep ++ b) with (c :: sep ++ b). rewrite E, segments_two, Hp, segments_one, <- E.
    pose proof (joined_tail _ _ _ _ Hj) as Hj'. rewrite !(segments_operator _ [] _ _ Hj').
    change (emit []) with (@nil (list N)). by case_match.
  - change ((c :: d :: a) ++ sep ++ b) with (c :: d :: (a ++ sep ++ b)).
    rewrite !segments_two.
    pose proof (joined_tail _ _ _ _ Hj) as Hj'. pose proof (joined_tail _ _ _ _ Hj') as Hj''.
    change (d :: a ++ sep ++ b) with ((d :: a) ++ sep ++ b).
    cbn [length] in Hn.
    repeat case_match; rewrite ?IH by (done || cbn [length]; lia); by rewrite <- ?(assoc_L (++)).
Qed.

Lemma shell_segments_app a sep b :
  joined_by a sep b ->
  shell_segments (a ++ sep ++ b) = shell_segments a ++ shell_segments b.
Proof. by apply (segments_app (length a)). Qed.
End ShellFacts.

Lemma joined_lower a sep b :
  joined_by a sep b ->
  joined_by (to_ascii_lowercase a) sep (to_ascii_lowercase b) /\
  to_ascii_lowercase (a ++ sep ++ b) = to_ascii_lowercase a ++ sep ++ to_ascii_lowercase b.
Proof.
  intros [Hs Hl]. split.
  - split.
    + destruct Hs as [H|[H|[H|[H Hb]]]]; try tauto. do 3 right. split; [done|].
      destruct b as [|x b]; [done|]. intros [= E]. apply to_lower_fixed in E as ->; done.
    + intros c Hc. unfold to_ascii_lowercase in Hc. change (map to_lower a) with (to_lower <$> a) in Hc.
      rewrite fmap_last in Hc. destruct (last a) as [x|]; [|done]. cbn in Hc.
      injection Hc as Hc. destruct (Hl x eq_refl) as [H1 H2].
      split; intros ->; apply to_lower_fixed in Hc; done.
  - unfold to_ascii_lowercase. rewrite !map_app.
    by destruct Hs as [-> | [-> | [-> | [-> _]]]].
Qed.

Lemma power_verb_iff c :
  Shell.command_invokes_critical_power_verb (to_ascii_lowercase c) = true <-> runs_power_verb c.
Proof.
  unfold Shell.command_invokes_critical_power_verb, runs_power_verb. rewrite Existsb_exists.
  setoid_rewrite list_elem_of_omap. setoid_rewrite str_in_spec. naive_solver.
Qed.

Lemma runs_power_verb_app a sep b :
  joined_by a sep b ->
  runs_power_verb (a ++ sep ++ b) <-> runs_power_verb a \/ runs_power_verb b.
Proof.
  intros [Hj E]%joined_lower. unfold runs_power_verb.
  rewrite E, ShellFacts.shell_segments_app by done. setoid_rewrite elem_of_app. naive_solver.
Qed.

Lemma reads_only_app a sep b :
  joined_by a sep b -> reads_only (a ++ sep ++ b) <-> reads_only a /\ reads_only b.
Proof.
  intros [Hj E]%joined_lower. unfold reads_only.
  rewrite E, ShellFacts.shell_segments_app by done. setoid_rewrite elem_of_app. naive_solver.
Qed.

Lemma semicolon_survives c :
  59%N ∈ c -> contains_any (Shell.without_fd_redirection c) Shell.COMPOSITIONS = true.
Proof.
  intros H. unfold contains_any. apply Existsb_exists. exists (lit ";"). split.
  - apply (bool_decide_unpack _). by vm_compute.
  - apply contains_elem. unfold Shell.without_fd_redirection.
    by do 4 (apply replace_keeps;
      [|apply (bool_decide_unpack _); by vm_compute|done]).
Qed.

(** The label [(Low, ReadIntent)] opened. *)
Lemma read_intent_opened c :
  Shell.classify_command c = (RiskLow, ReadIntent) ->
  let lower := to_ascii_lowercase c in
  contains_any lower Shell.CRITICAL_MARKERS = false /\
  contains_any lower Shell.MUTATING_MARKERS = false /\
  ~ runs_power_verb c /\
  (59%N ∈ lower -> reads_only c /\ contains_any lower Shell.SUBSTITUTIONS = false).
Proof.
  unfold Shell.classify_command. cbn zeta. intros H.
  destruct (_ || Shell.command_invokes_critical_power_verb _) eqn:E1; [done|].
  apply orb_false_iff in E1 as [E1 E1'].
  destruct (_ || starts_with_any _ _) eqn:E2; [done|]. apply orb_false_iff in E2 as [E2 _].
  split_and!; try done.
  - rewrite <- power_verb_iff. by rewrite E1'.
  - intros Hs. rewrite semicolon_survives in H by done.
    destruct (Shell.is_read_safe_composition _) eqn:E3; [|done].
    unfold Shell.is_read_safe_composition in E3.
    destruct (contains_any _ Shell.SUBSTITUTIONS) eqn:E4; [done|]. split; [|done].
    unfold reads_only. intros seg Hseg.
    destruct (Shell.shell_segments _) as [|x l] eqn:E5; [done|]. rewrite <- E5 in *.
    rewrite Forallb_forall in E3. specialize (E3 seg Hseg). cbn beta in E3.
    destruct (Shell.primary_executable seg) as [exe|]; [|done].
    exists exe. by apply str_in_spec in E3.
Qed.

Lemma power_verb_critical c :
  runs_power_verb c -> Shell.classify_command c = (RiskCritical, Mutating).
Proof. intros H%power_verb_iff. unfold Shell.classify_command. by rewrite H, orb_true_r. Qed.

(** ** Properties *)

(** C16. A decision enters the loop only in a bounded, authority-free form:
    between one and four tool calls, each naming a read-only tool of the
    catalogue by its wire name and carrying a bounded invocation of that very
    tool; a command that is one trimmed line of at most 16 KiB without NUL,
    in which redaction finds nothing to hide, labelled by Rust's own
    classification; user-visible texts that were bounded and redacted; a
    change proposal of one to four steps on one to four distinct evidence
    identifiers.  A call that names a write tool is never prepared. *)
Theorem validate_decision_sound ids d v :
  validate_decision ids d = Ok v ->
  validated_ok v /\
  (forall requests calls, d = DToolCalls requests -> v = VToolCalls calls ->
     map tool_call_id calls = map ids (seq 0 (length requests))) /\
  (forall requests r, d = DToolCalls requests -> r ∈ requests ->
     exists t, t ∈ READ_ONLY /\ parse_tool_name (req_tool_name r) = Some t).
Proof.
  destruct d as [requests|p|q|s|p]; unfold validate_decision; intros H.
  - destruct (length requests =? 0)%nat eqn:E0; [done|].
    destruct (MAX_TOOL_CALLS_PER_TURN <? length requests)%nat eqn:E4; [done|].
    apply Nat.eqb_neq in E0. apply Nat.ltb_ge in E4. inv_ok.
    pose proof (prepare_tool_calls_ok _ _ _ _ H) as (Hl & Hf & Hid).
    split; [split; [lia|done]|]. split.
    { intros ? ? [= <-] [= <-]. by rewrite Hid, Hl. }
    intros ? r [= <-] Hr. clear E0 E4 Hl Hf Hid. revert x H. generalize 0%nat.
    induction requests as [|r' rest IH]; intros k calls H; [by apply elem_of_nil in Hr|].
    cbn in H. inv_ok. apply elem_of_cons in Hr as [->|Hr]; [|by eapply IH].
    apply prepare_tool_call_ok in H0 as ((Hro & Hn & _) & _ & ->).
    eexists. split; [exact Hro|]. by apply parse_tool_name_some.
  - inv_ok. apply prepare_command_ok in H as (? & _). by refine (conj _ (conj _ _)).
  - inv_ok. apply bounded_user_text_ok in H. by refine (conj _ (conj _ _)).
  - inv_ok. apply bounded_user_text_ok in H. by refine (conj _ (conj _ _)).
  - inv_ok. apply prepare_change_ok in H as (? & _). by refine (conj _ (conj _ _)).
Qed.

Lemma validate_decision_sound_witness :
  let d := DToolCalls [{| req_tool_name := lit "service.status";
                          req_arguments := JObject [(lit "service", jstr "nginx")];
                          req_reason_summary := lit " check nginx " |}] in
  let v := VToolCalls [{| tool_call_id := 40; ptc_tool_name := lit "service.status";
                          ptc_reason_summary := lit "check nginx";
                          ptc_invocation := InvServiceStatus (lit "nginx") |}] in
  validate_decision (fun k => 40 + N.of_nat k)%N d = Ok v /\ validated_ok v.
Proof.
  intros d v. assert (validate_decision (fun k => 40 + N.of_nat k)%N d = Ok v) as H
    by (vm_compute; reflexivity).
  split; [exact H|]. exact (proj1 (validate_decision_sound _ _ _ H)).
Defined.

(** A power verb that is executed is always labelled critical, wherever it
    stands on the line: a command one of whose segments invokes [shutdown],
    [poweroff], [reboot] or [halt] (through a path, quotes, assignments or a
    wrapper such as [sudo]) is [(Critical, Mutating)], and joining two
    commands by [;], [&&], [||] or [|] neither hides such an invocation nor
    makes one up. *)
Theorem power_verbs_always_critical :
  (forall c, runs_power_verb c -> Shell.classify_command c = (RiskCritical, Mutating)) /\
  (forall a sep b, joined_by a sep b ->
     (runs_power_verb (a ++ sep ++ b) <-> runs_power_verb a \/ runs_power_verb b)).
Proof.
  split; [apply power_verb_critical|by intros; apply runs_power_verb_app].
Qed.

(** A sequence of commands is presented as a read only if each of them is:
    when [a ; b] is labelled [(Low, ReadIntent)], every segment of both [a]
    and [b] runs an executable of the reader list, nothing is substituted, no
    power verb runs, and none of the critical or mutating markers occurs in
    either part. *)
Theorem read_intent_sequences_only_readers a b :
  joined_by a (lit ";") b ->
  Shell.classify_command (a ++ lit ";" ++ b) = (RiskLow, ReadIntent) ->
  reads_only a /\ reads_only b /\ ~ runs_power_verb a /\ ~ runs_power_verb b /\
  (forall m, m ∈ Shell.CRITICAL_MARKERS \/ m ∈ Shell.MUTATING_MARKERS \/ m ∈ Shell.SUBSTITUTIONS ->
     contains (to_ascii_lowercase a) m = false /\ contains (to_ascii_lowercase b) m = false).
Proof.
  intros Hj H. pose proof (joined_lower _ _ _ Hj) as [_ El].
  apply read_intent_opened in H as (Hc & Hm & Hp & Hr). rewrite El in *.
  destruct Hr as [Hr Hs]; [rewrite elem_of_app; right; rewrite elem_of_app; left;
    apply (bool_decide_unpack _); by vm_compute|].
  rewrite runs_power_verb_app in Hp by done. apply reads_only_app in Hr as [Hra Hrb]; [|done].
  split_and!; try tauto. intros m Hin.
  assert (contains (to_ascii_lowercase a ++ lit ";" ++ to_ascii_lowercase b) m = false) as Hf
    by (destruct Hin as [Hin|[Hin|Hin]]; (eapply contains_any_false; [|exact Hin]; assumption)).
  split; apply not_true_iff_false; intros Ht; rewrite <- not_true_iff_false in Hf; apply Hf.
  - by apply contains_app_r.
  - by apply contains_app_l, contains_app_l.
Qed.

Lemma read_intent_sequences_only_readers_witness :
  joined_by (lit "uptime") (lit ";") (lit " last | head") /\ reads_only (lit " last | head").
Proof.
  assert (joined_by (lit "uptime") (lit ";") (lit " last | head")) as Hj
    by (split; [left; reflexivity | intros c [= <-]; split; intros H; vm_compute in H; discriminate H]).
  split; [exact Hj|].
  exact (proj1 (proj2 (read_intent_sequences_only_readers _ _ Hj
    ltac:(vm_compute; reflexivity)))).
Defined.

(** Wire names and tools correspond: a tool's wire name parses to it, and
    only its wire name does. *)
Theorem tool_names_roundtrip raw t : parse_tool_name raw = Some t <-> raw = tool_as_str t.
Proof. apply parse_tool_name_some. Qed.

(** ** What the classification does not see *)

(** A single [&] also separates commands in a shell; the scan does not cut there. *)
Example background_hides_power_verb :
  Shell.classify_command (lit "uptime & reboot") = (RiskLow, ReadIntent).
Proof. by vm_compute. Qed.

(** A pipe alone is no composition, so that its segments are not looked at. *)
Example pipe_into_shell_is_read_intent :
  Shell.classify_command (lit "cat /tmp/script | sh") = (RiskLow, ReadIntent).
Proof. by vm_compute. Qed.

(** [str::lines] does not split at a bare carriage return, which a terminal
    takes for Enter. *)
Example carriage_return_is_accepted :
  is_ok (prepare_command_proposal 1
    {| prop_command := lit "uptime" ++ [13%N] ++ lit "reboot"; prop_reason_summary := lit "why";
       prop_observation_analysis := None |}) = true /\
  Shell.classify_command (lit "uptime" ++ [13%N] ++ lit "reboot") = (RiskLow, ReadIntent).
Proof. split; by vm_compute. Qed.
