(* ===== verification/Gate.v ===== *)
(** * The authorization gate (agent/gate.rs, agent/session_dispatch.rs)

    Whether a validated call runs by itself, needs approval or is blocked.
    The production gate asks the policy service; a command is never
    authorized without a user. *)
From S2P Require Import Prelude Str Errors RunState Tools Externals Policy Decision.

Definition AGENT_POLICY_DENIED : str := lit "AGENT_POLICY_DENIED".

Inductive Authorization :=
  | Auto
  | AuthRequireApproval (risk : str) (policy_version : N) (policy_hash : str)
  | Blocked (reason_code : str).
#[export] Instance authorization_eq_dec : EqDecision Authorization.
Proof. solve_decision. Defined.

Inductive CommandAuthorization :=
  | CmdRequireApproval (risk : str) (policy_version : N) (policy_hash : str)
  | CmdBlocked (reason_code : str).
#[export] Instance command_authorization_eq_dec : EqDecision CommandAuthorization.
Proof. solve_decision. Defined.

(** The request the gate makes of the policy for one tool on one server. *)
Definition gate_request (server_id : Uuid) (d : ToolDescriptor) : PolicyEvaluationRequest :=
  {| per_target := {| pt_server_id := server_id; pt_group_id := None; pt_environment := None |};
     per_tool := td_name d; per_risk_level := td_risk_level d;
     per_resource_impact := td_resource_impact d; per_target_count := 1;
     per_execution_strategy := Sequential; per_source := SourceAgentRuntime |}.

(** [PolicyAuthorizationGate::authorize], with the audit file it writes. *)
Definition policy_authorize (svc : AgentPolicyService) (server_id new_v4 : Uuid) (now : N)
    (call : PreparedToolCall) : Authorization * option (list PolicyAuditRecord) :=
  match find (fun d => str_eqb (tool_as_str (td_name d)) (ptc_tool_name call)) native_descriptors with
  | None => (Blocked AGENT_POLICY_DENIED, None)
  | Some d =>
      match service_evaluate svc new_v4 now (gate_request server_id d) with
      | (Ok evaluation, written) =>
          (match ev_decision evaluation with
           | Allow => Auto
           | RequireApproval | RequireStepApproval =>
               AuthRequireApproval (risk_debug (td_risk_level d)) (ev_policy_version evaluation)
                 (ev_policy_hash evaluation)
           | Deny => Blocked AGENT_POLICY_DENIED
           end, written)
      | (Err error, written) => (Blocked (error_code error), written)
      end
  end.

(** [SessionPolicyGate::authorize_command]. *)
Definition session_authorize_command (svc : AgentPolicyService)
    (command : PreparedCommandProposal) : CommandAuthorization :=
  if bool_decide (cmd_risk command = RiskCritical)
  then CmdBlocked (lit "COMMAND_CRITICAL_BLOCKED") else
  let '(policy_version, policy_hash) := command_approval_identity svc in
  CmdRequireApproval (command_risk_str (cmd_risk command)) policy_version policy_hash.

(** The trait's default, used where no policy service is wired. *)
Definition default_authorize_command (command : PreparedCommandProposal) : CommandAuthorization :=
  CmdRequireApproval (command_risk_str (cmd_risk command)) 1 (lit "runtime-command-policy-v1").

(** [LivePolicyMatcher::matches]. *)
Definition live_policy_matches (svc : AgentPolicyService) (policy_version : N)
    (policy_hash : str) : bool :=
  current_matches svc {| snap_policy_version := policy_version; snap_policy_hash := policy_hash;
                         snap_decision := Allow; snap_matched_rule_ids := [] |}.

(** ** Lemmas *)
Lemma find_by_wire_name call :
  ptc_tool_name call = tool_as_str (invocation_name (ptc_invocation call)) ->
  find (fun d => str_eqb (tool_as_str (td_name d)) (ptc_tool_name call)) native_descriptors
  = find_descriptor (invocation_name (ptc_invocation call)).
Proof. intros ->. by destruct (invocation_name _); vm_compute. Qed.

Lemma evaluation_identity set request :
  ev_policy_version (evaluate set request) = policy_version set /\
  ev_policy_hash (evaluate set request) = policy_hash set.
Proof.
  unfold evaluate. by destruct (limit_denied _ _); [|destruct (inherited_deny _);
    [|destruct (most_specific _)]].
Qed.

Lemma live_policy_matches_self svc :
  live_policy_matches svc (policy_version (svc_set svc)) (policy_hash (svc_set svc)) = true.
Proof. unfold live_policy_matches, current_matches. cbn. by rewrite N.eqb_refl, str_eqb_refl. Qed.

Definition sample_disk_call (name : str) : PreparedToolCall :=
  {| tool_call_id := 7; ptc_tool_name := name; ptc_reason_summary := lit "why";
     ptc_invocation := InvSystemDisk |}.

(** ** Properties *)

(** C17. The gate never widens the policy: it lets a call run by itself only
    when the live policy allows the named tool on the bound server and the
    evaluation went through; a denial, an unknown name and an unreadable or
    unwritable audit file all block; and the policy identity it asks approval
    under is the live one, so that the approval stays valid until the policy
    changes. *)
Theorem gate_never_widens svc server_id new_v4 now call auth written :
  policy_authorize svc server_id new_v4 now call = (auth, written) ->
  (auth = Auto -> exists d, d ∈ native_descriptors /\ tool_as_str (td_name d) = ptc_tool_name call /\
     ev_decision (evaluate (svc_set svc) (gate_request server_id d)) = Allow) /\
  (forall d, d ∈ native_descriptors -> tool_as_str (td_name d) = ptc_tool_name call ->
     ev_decision (evaluate (svc_set svc) (gate_request server_id d)) = Deny ->
     exists reason, auth = Blocked reason) /\
  ((forall d, d ∈ native_descriptors -> tool_as_str (td_name d) <> ptc_tool_name call) ->
     auth = Blocked AGENT_POLICY_DENIED) /\
  (forall f e, svc_audit svc = Some f -> file_load _ f = Err e \/ file_save _ f = Err e ->
     exists reason, auth = Blocked reason) /\
  (forall risk pv ph, auth = AuthRequireApproval risk pv ph -> live_policy_matches svc pv ph = true).
Proof.
  unfold policy_authorize. intros H.
  destruct (find _ native_descriptors) as [d|] eqn:Ef.
  2: { injection H as <- <-. pose proof (proj1 (find_none_b _ _) Ef) as Hn. cbn in Hn.
       split_and!; try done; try eauto. }
  apply find_some_b in Ef as [Hd En]. apply str_eqb_eq in En.
  assert (forall d', d' ∈ native_descriptors -> tool_as_str (td_name d') = ptc_tool_name call ->
            td_name d' = td_name d) as Huniq.
  { intros d' _ E'. rewrite <- En in E'. apply (f_equal parse_tool_name) in E'.
    rewrite !(proj2 (parse_tool_name_some _ _) eq_refl) in E'. by injection E' as ->. }
  assert (forall d', d' ∈ native_descriptors -> tool_as_str (td_name d') = ptc_tool_name call ->
            d' = d) as Hsame.
  { intros d' Hd' E'. pose proof (Huniq d' Hd' E') as Eq.
    apply find_descriptor_self in Hd', Hd. rewrite Eq, Hd in Hd'. congruence. }
  destruct (service_evaluate _ _ _ _) as [[e|e] w] eqn:Es.
  - apply service_evaluate_ok in Es as [-> Ha]. injection H as <- <-.
    destruct (evaluation_identity (svc_set svc) (gate_request server_id d)) as [-> ->].
    split_and!.
    + intros Hauto. exists d. by destruct (ev_decision _).
    + intros d' Hd' E' Hdeny. rewrite (Hsame d' Hd' E') in Hdeny. rewrite Hdeny. eauto.
    + intros Hno. by destruct (Hno d Hd).
    + intros f e Hf He. destruct (Ha f e Hf) as [Hl Hs]. by destruct He.
    + intros risk pv ph. destruct (ev_decision _); try done; intros [= <- <- <-];
        apply live_policy_matches_self.
  - injection H as <- <-. split_and!; try done; try eauto.
    intros Hno. by destruct (Hno d Hd).
Qed.

Lemma gate_never_widens_witness :
  let svc := {| svc_set := default_policy; svc_repository := None; svc_audit := None |} in
  policy_authorize svc 1 2 3 (sample_disk_call (lit "system.disk_usage")) = (Auto, None) /\
  exists d, d ∈ native_descriptors /\ tool_as_str (td_name d) = lit "system.disk_usage".
Proof.
  intros svc.
  assert (policy_authorize svc 1 2 3 (sample_disk_call (lit "system.disk_usage")) = (Auto, None))
    as H by (vm_compute; reflexivity).
  split; [exact H|].
  destruct (proj1 (gate_never_widens _ _ _ _ _ _ _ H) eq_refl) as (d & Hd & E & _).
  by exists d.
Defined.

(** Critical commands never reach a user: the production gate blocks them,
    so that no approval for a command that runs a power verb can be bound; every
    other command is asked for under the live policy identity, labelled with
    Rust's own risk. *)
Theorem critical_commands_blocked svc ids proposal p :
  prepare_command_proposal ids proposal = Ok p ->
  (runs_power_verb (cmd_command p) ->
     session_authorize_command svc p = CmdBlocked (lit "COMMAND_CRITICAL_BLOCKED")) /\
  (forall risk pv ph, session_authorize_command svc p = CmdRequireApproval risk pv ph ->
     cmd_risk p <> RiskCritical /\ risk = command_risk_str (cmd_risk p) /\
     live_policy_matches svc pv ph = true).
Proof.
  intros H. apply prepare_command_ok in H as [Hok _].
  destruct Hok as (_ & _ & _ & _ & _ & _ & Hc & _). unfold session_authorize_command. split.
  - intros Hp. rewrite power_verb_critical in Hc by done. injection Hc as -> _. done.
  - case_bool_decide as E; [done|]. intros risk pv ph [= <- <- <-].
    split_and!; [done|done|]. apply live_policy_matches_self.
Qed.

Lemma critical_commands_blocked_witness :
  let svc := {| svc_set := default_policy; svc_repository := None; svc_audit := None |} in
  exists p, prepare_command_proposal 1 {| prop_command := lit "uptime; sudo reboot";
              prop_reason_summary := lit "why"; prop_observation_analysis := None |} = Ok p /\
            session_authorize_command svc p = CmdBlocked (lit "COMMAND_CRITICAL_BLOCKED").
Proof.
  intros svc. eexists. split; [vm_compute; reflexivity|].
  refine (proj1 (critical_commands_blocked svc 1 {| prop_command := lit "uptime; sudo reboot";
    prop_reason_summary := lit "why"; prop_observation_analysis := None |} _ _) _).
  - vm_compute; reflexivity.
  - exists (lit "sudo reboot"), (lit "reboot"). split_and!;
      [apply (bool_decide_unpack _); vm_compute; reflexivity | vm_compute; reflexivity
      | apply (bool_decide_unpack _); vm_compute; reflexivity].
Defined.
