(* ===== verification/Approval.v ===== *)
(** * Approval requests (agent/approval.rs)

    The record that binds one user decision to one exact action, and the three
    validations that decide whether it still authorizes that action.  The
    derived [Debug] of an invocation is written out; the quoted form of its
    strings, SHA-256 and the text of identifiers are those of [Externals]. *)
From S2P Require Import Prelude Str RunState Tools Externals Decision.

Definition APPROVAL_REASON_ARGUMENTS_CHANGED : str := lit "APPROVAL_ARGUMENTS_CHANGED".
Definition APPROVAL_REASON_TARGETS_CHANGED : str := lit "APPROVAL_TARGETS_CHANGED".
Definition APPROVAL_REASON_POLICY_CHANGED : str := lit "APPROVAL_POLICY_CHANGED".
Definition APPROVAL_REASON_SESSION_CHANGED : str := lit "APPROVAL_SESSION_CHANGED".
Definition COMMAND_APPROVAL_NAME : str := lit "agent.command".

Inductive ApprovalRequestState := Pending | Granted | Rejected | Invalidated.
#[export] Instance approval_state_eq_dec : EqDecision ApprovalRequestState.
Proof. solve_decision. Defined.

Record ApprovalRequest := {
  ap_id : Uuid;
  ap_run_id : Uuid;
  ap_tool_call_id : Uuid;
  ap_tool_name : str;
  ap_arguments_hash : str;
  ap_target_ids : list Uuid;
  ap_risk : str;
  ap_policy_version : N;
  ap_policy_hash : str;
  ap_precondition_ref : option str;
  ap_change_set_id : option Uuid;
  ap_change_set_version : option N;
  ap_state : ApprovalRequestState;
  ap_created_at_epoch_ms : N;
  ap_decided_at_epoch_ms : option N;
}.
#[export] Instance approval_request_eq_dec : EqDecision ApprovalRequest.
Proof. solve_decision. Defined.

Inductive ApprovalInvalidationReason :=
  | NotPending | ToolCallMismatch | ArgumentsChanged | TargetsChanged | SessionChanged
  | PolicyChanged.
#[export] Instance invalidation_reason_eq_dec : EqDecision ApprovalInvalidationReason.
Proof. solve_decision. Defined.

Definition reason_code (r : ApprovalInvalidationReason) : str :=
  match r with
  | NotPending => lit "APPROVAL_NOT_PENDING"
  | ToolCallMismatch => APPROVAL_REASON_ARGUMENTS_CHANGED
  | ArgumentsChanged => APPROVAL_REASON_ARGUMENTS_CHANGED
  | TargetsChanged => APPROVAL_REASON_TARGETS_CHANGED
  | SessionChanged => APPROVAL_REASON_SESSION_CHANGED
  | PolicyChanged => APPROVAL_REASON_POLICY_CHANGED
  end.

Definition is_change_set (a : ApprovalRequest) : bool := bool_decide (is_Some (ap_change_set_id a)).
Definition is_command (a : ApprovalRequest) : bool :=
  bool_decide (ap_change_set_id a = None) && str_eqb (ap_tool_name a) COMMAND_APPROVAL_NAME.

(** [ApprovalRequest::decide]. *)
Definition decide_approval (s : ApprovalRequestState) (now : N) (a : ApprovalRequest) :
    ApprovalRequest :=
  {| ap_id := ap_id a; ap_run_id := ap_run_id a; ap_tool_call_id := ap_tool_call_id a;
     ap_tool_name := ap_tool_name a; ap_arguments_hash := ap_arguments_hash a;
     ap_target_ids := ap_target_ids a; ap_risk := ap_risk a;
     ap_policy_version := ap_policy_version a; ap_policy_hash := ap_policy_hash a;
     ap_precondition_ref := ap_precondition_ref a; ap_change_set_id := ap_change_set_id a;
     ap_change_set_version := ap_change_set_version a; ap_state := s;
     ap_created_at_epoch_ms := ap_created_at_epoch_ms a; ap_decided_at_epoch_ms := Some now |}.

(** ** The canonical text of a call *)
Section Binding.
Context `{Externals}.

(** [#[derive(Debug)]] on a variant with named fields. *)
Fixpoint debug_fields (fields : list (str * str)) : str :=
  match fields with
  | [] => []
  | [(name, value)] => name ++ lit ": " ++ value ++ lit " }"
  | (name, value) :: rest => name ++ lit ": " ++ value ++ lit ", " ++ debug_fields rest
  end.
Definition debug_struct (variant : str) (fields : list (str * str)) : str :=
  variant ++ lit " { " ++ debug_fields fields.

(** The variants of [NativeToolInvocation] are named as those of [NativeToolName]. *)
Definition variant_name (t : NativeToolName) : str :=
  lit match t with
  | SystemInfo => "SystemInfo" | SystemDisk => "SystemDisk" | ServiceStatus => "ServiceStatus"
  | ServiceLogs => "ServiceLogs" | NetworkPortCheck => "NetworkPortCheck"
  | HttpRequest => "HttpRequest" | NginxTest => "NginxTest" | DnsResolve => "DnsResolve"
  | TlsInspect => "TlsInspect" | NetworkListeners => "NetworkListeners"
  | ProcessList => "ProcessList" | FileInspect => "FileInspect"
  | SystemDirectoryUsage => "SystemDirectoryUsage" | SystemLargeFiles => "SystemLargeFiles"
  | DockerList => "DockerList" | DockerInspect => "DockerInspect" | DockerLogs => "DockerLogs"
  | FilePatch => "FilePatch" | ServiceRestart => "ServiceRestart"
  | ServiceReload => "ServiceReload" | NginxReload => "NginxReload"
  | DockerRestart => "DockerRestart" | FilesystemInodeUsage => "FilesystemInodeUsage"
  | BlockDevicesList => "BlockDevicesList" | TerminalExecReadonly => "TerminalExecReadonly"
  end%string.

(** [format!("{:?}", invocation)]. *)
Definition invocation_debug (i : NativeToolInvocation) : str :=
  let fields := debug_struct (variant_name (invocation_name i)) in
  match i with
  | InvServiceStatus s | InvServiceRestart s | InvServiceReload s =>
      fields [(lit "service", debug_str s)]
  | InvServiceLogs s n => fields [(lit "service", debug_str s); (lit "lines", dec n)]
  | InvNetworkPortCheck h p | InvTlsInspect h p =>
      fields [(lit "host", debug_str h); (lit "port", dec p)]
  | InvHttpRequest u => fields [(lit "url", debug_str u)]
  | InvDnsResolve h => fields [(lit "host", debug_str h)]
  | InvFileInspect p | InvSystemDirectoryUsage p => fields [(lit "path", debug_str p)]
  | InvSystemLargeFiles p n =>
      fields [(lit "path", debug_str p); (lit "minimum_bytes", dec n)]
  | InvDockerInspect c | InvDockerRestart c => fields [(lit "container", debug_str c)]
  | InvDockerLogs c n => fields [(lit "container", debug_str c); (lit "lines", dec n)]
  | InvFilePatch p e r =>
      fields [(lit "path", debug_str p); (lit "expected", debug_str e);
              (lit "replacement", debug_str r)]
  | InvTerminalExecReadonly c => fields [(lit "command", debug_str c)]
  | _ => variant_name (invocation_name i)
  end.

Definition canonical_call (call : PreparedToolCall) : str :=
  ptc_tool_name call ++ lit "
" ++ invocation_debug (ptc_invocation call).

Definition arguments_hash (call : PreparedToolCall) : str := digest_hex (canonical_call call).
Definition command_hash (command : PreparedCommandProposal) : str :=
  digest_hex (cmd_command command).
Definition command_session_ref (session_id : Uuid) : str :=
  lit "session:" ++ uuid_display session_id.

(** ** Binding *)
Definition bind (new_v4 : Uuid) (now : N) (run_id : Uuid) (call : PreparedToolCall)
    (target_ids : list Uuid) (risk : str) (policy_version : N) (policy_hash : str) :
    ApprovalRequest :=
  {| ap_id := new_v4; ap_run_id := run_id; ap_tool_call_id := tool_call_id call;
     ap_tool_name := ptc_tool_name call; ap_arguments_hash := arguments_hash call;
     ap_target_ids := target_ids; ap_risk := risk; ap_policy_version := policy_version;
     ap_policy_hash := policy_hash; ap_precondition_ref := None; ap_change_set_id := None;
     ap_change_set_version := None; ap_state := Pending; ap_created_at_epoch_ms := now;
     ap_decided_at_epoch_ms := None |}.

Definition bind_command (new_v4 : Uuid) (now : N) (run_id : Uuid)
    (command : PreparedCommandProposal) (target_ids : list Uuid) (session_id : Uuid)
    (policy_version : N) (policy_hash : str) : ApprovalRequest :=
  {| ap_id := new_v4; ap_run_id := run_id; ap_tool_call_id := command_id command;
     ap_tool_name := COMMAND_APPROVAL_NAME; ap_arguments_hash := command_hash command;
     ap_target_ids := target_ids; ap_risk := command_risk_str (cmd_risk command);
     ap_policy_version := policy_version; ap_policy_hash := policy_hash;
     ap_precondition_ref := Some (command_session_ref session_id); ap_change_set_id := None;
     ap_change_set_version := None; ap_state := Pending; ap_created_at_epoch_ms := now;
     ap_decided_at_epoch_ms := None |}.

Definition bind_change_set (new_v4 : Uuid) (now : N) (run_id proposal_id change_set_id : Uuid)
    (version : N) (title : str) (target_ids : list Uuid) (risk : str) (policy_version : N)
    (policy_hash : str) (precondition_ref : option str) : ApprovalRequest :=
  {| ap_id := new_v4; ap_run_id := run_id; ap_tool_call_id := proposal_id;
     ap_tool_name := title;
     ap_arguments_hash := lit "changeset:" ++ uuid_display change_set_id ++ lit ":" ++ dec version;
     ap_target_ids := target_ids; ap_risk := risk; ap_policy_version := policy_version;
     ap_policy_hash := policy_hash; ap_precondition_ref := precondition_ref;
     ap_change_set_id := Some change_set_id; ap_change_set_version := Some version;
     ap_state := Pending; ap_created_at_epoch_ms := now; ap_decided_at_epoch_ms := None |}.

(** ** Validation *)
Abbreviation validation := (result ApprovalInvalidationReason unit) (only parsing).

Definition validate_pending_change_set_approval (approval : ApprovalRequest)
    (change_set_id : Uuid) (version : N) (target_ids : list Uuid) (policy_matches : bool) :
    validation :=
  if negb (bool_decide (ap_state approval = Pending)) then Err NotPending else
  if negb (bool_decide (ap_change_set_id approval = Some change_set_id))
     || negb (bool_decide (ap_change_set_version approval = Some version))
  then Err ArgumentsChanged else
  if negb (bool_decide (ap_target_ids approval = target_ids)) then Err TargetsChanged else
  if negb policy_matches then Err PolicyChanged else Ok tt.

Definition validate_pending_approval (approval : ApprovalRequest) (call : PreparedToolCall)
    (target_ids : list Uuid) (policy_matches : bool) : validation :=
  if negb (bool_decide (ap_state approval = Pending)) then Err NotPending else
  if negb (ap_tool_call_id approval =? tool_call_id call)%N then Err ToolCallMismatch else
  if negb (str_eqb (ap_arguments_hash approval) (arguments_hash call))
  then Err ArgumentsChanged else
  if negb (bool_decide (ap_target_ids approval = target_ids)) then Err TargetsChanged else
  if negb policy_matches then Err PolicyChanged else Ok tt.

Definition validate_pending_command_approval (approval : ApprovalRequest)
    (command : PreparedCommandProposal) (target_ids : list Uuid) (session_id : Uuid)
    (policy_matches : bool) : validation :=
  if negb (bool_decide (ap_state approval = Pending)) then Err NotPending else
  if negb (is_command approval) || negb (ap_tool_call_id approval =? command_id command)%N
  then Err ToolCallMismatch else
  if negb (str_eqb (ap_arguments_hash approval) (command_hash command))
  then Err ArgumentsChanged else
  if negb (bool_decide (ap_target_ids approval = target_ids)) then Err TargetsChanged else
  if negb (bool_decide (ap_precondition_ref approval = Some (command_session_ref session_id)))
  then Err SessionChanged else
  if negb policy_matches then Err PolicyChanged else Ok tt.
End Binding.

(** ** Lemmas *)
Definition first_word (s : str) : str := default s (fst <$> split_once (N.eqb 32) s).

Lemma first_word_debug `{Externals} i :
  first_word (invocation_debug i) = variant_name (invocation_name i).
Proof. by destruct i; vm_compute. Qed.

Lemma variant_name_inj a b : variant_name a = variant_name b -> a = b.
Proof.
  intros E. assert (forall t, find (fun u => str_eqb (variant_name u) (variant_name t)) ALL_TOOLS
    = Some t) as Hf by (intros []; by vm_compute).
  assert (Some a = Some b) as [= ->]; [|done]. by rewrite <- (Hf a), <- (Hf b), E.
Qed.

Ltac peel H :=
  repeat first
  [ apply app_inv_head in H
  | apply debug_str_delimits in H; destruct H as [-> H]
  | apply app_inv_tail in H ].

Lemma invocation_debug_inj `{ExternalLaws} a b :
  invocation_debug a = invocation_debug b -> a = b.
Proof.
  intros E. assert (invocation_name a = invocation_name b) as En
    by (apply variant_name_inj; by rewrite <- !first_word_debug, E).
  destruct a, b; try discriminate En; clear En; try done;
    unfold invocation_debug, debug_struct, debug_fields in E; peel E; try done;
    by apply (inj dec) in E as ->.
Qed.

(** A call carries the wire name of its invocation, as every prepared call does. *)
Definition call_named (c : PreparedToolCall) : Prop :=
  ptc_tool_name c = tool_as_str (invocation_name (ptc_invocation c)).

Lemma tool_name_one_line t : 10%N ∉ tool_as_str t.
Proof. destruct t; apply (bool_decide_unpack _); by vm_compute. Qed.

Lemma canonical_call_split `{Externals} c :
  call_named c ->
  split_once (N.eqb 10) (canonical_call c) =
  Some (ptc_tool_name c, invocation_debug (ptc_invocation c)).
Proof.
  intros Hn. apply split_once_sep; [|done]. intros x Hx. apply N.eqb_neq. intros <-.
  rewrite Hn in Hx. by apply tool_name_one_line in Hx.
Qed.

Lemma canonical_call_inj `{ExternalLaws} a b :
  call_named a -> call_named b -> canonical_call a = canonical_call b ->
  ptc_tool_name a = ptc_tool_name b /\ ptc_invocation a = ptc_invocation b.
Proof.
  intros Ha Hb E. apply (f_equal (split_once (N.eqb 10))) in E.
  rewrite !canonical_call_split in E by done. apply (inj Some), pair_eq in E as [E1 E2].
  split; [done|]. by apply invocation_debug_inj.
Qed.

Lemma canonical_call_newline `{Externals} c : 10%N ∈ canonical_call c.
Proof. unfold canonical_call. rewrite !elem_of_app. right; left. by left. Qed.

Lemma session_ref_inj `{ExternalLaws} a b :
  command_session_ref a = command_session_ref b -> a = b.
Proof. unfold command_session_ref. intros E%app_inv_head. by apply uuid_display_inj. Qed.

Ltac guards :=
  repeat match goal with
  | |- context [negb (bool_decide ?P)] =>
      let H := fresh in destruct (bool_decide_reflect P) as [H|H]; cbn [negb orb]
  | |- context [negb ?b] => let E := fresh in destruct b eqn:E; cbn [negb orb]
  end.

(** The validations, read off their guards. *)
Lemma validate_change_set_ok a cs v t pm :
  validate_pending_change_set_approval a cs v t pm = Ok tt <->
  ap_state a = Pending /\ ap_change_set_id a = Some cs /\ ap_change_set_version a = Some v /\
  ap_target_ids a = t /\ pm = true.
Proof. unfold validate_pending_change_set_approval. guards; naive_solver. Qed.

Lemma validate_call_ok `{Externals} a c t pm :
  validate_pending_approval a c t pm = Ok tt <->
  ap_state a = Pending /\ ap_tool_call_id a = tool_call_id c /\
  ap_arguments_hash a = arguments_hash c /\ ap_target_ids a = t /\ pm = true.
Proof.
  unfold validate_pending_approval. rewrite <- (N.eqb_eq (ap_tool_call_id a)).
  rewrite <- (str_eqb_eq (ap_arguments_hash a)). guards; naive_solver.
Qed.

Lemma is_command_iff a :
  is_command a = true <-> ap_change_set_id a = None /\ ap_tool_name a = COMMAND_APPROVAL_NAME.
Proof. unfold is_command. by rewrite andb_true_iff, bool_decide_eq_true, str_eqb_eq. Qed.

Lemma validate_command_ok `{Externals} a c t s pm :
  validate_pending_command_approval a c t s pm = Ok tt <->
  ap_state a = Pending /\ is_command a = true /\ ap_tool_call_id a = command_id c /\
  ap_arguments_hash a = command_hash c /\ ap_target_ids a = t /\
  ap_precondition_ref a = Some (command_session_ref s) /\ pm = true.
Proof.
  unfold validate_pending_command_approval. rewrite <- (N.eqb_eq (ap_tool_call_id a)).
  rewrite <- (str_eqb_eq (ap_arguments_hash a)). guards; naive_solver.
Qed.

(** ** Properties *)

(** C15. A command approval authorizes exactly the reviewed command: bound to
    a command, targets and a session, it validates for a command, targets, a
    session and a live policy iff the command has the same identity and the
    same text, the targets and the session are the same, and the policy still
    matches; provided SHA-256 tells the two command texts apart. *)
Theorem command_approval_exact `{ExternalLaws} id now run c0 t0 s0 pv ph c t s pm :
  no_collision (cmd_command c0) (cmd_command c) ->
  validate_pending_command_approval (bind_command id now run c0 t0 s0 pv ph) c t s pm = Ok tt <->
  command_id c0 = command_id c /\ cmd_command c0 = cmd_command c /\ t0 = t /\ s0 = s /\ pm = true.
Proof.
  intros Hc. rewrite validate_command_ok. cbn. split.
  - intros (_ & _ & Hid & Hh & Ht & Hs & Hp). split_and!; try done.
    + by apply digest_hex_eq.
    + by apply (inj Some), session_ref_inj in Hs.
  - intros (-> & E & -> & -> & ->). split_and!; try done. unfold command_hash. by rewrite E.
Qed.

Definition sample_command (text : str) : PreparedCommandProposal :=
  {| command_id := 3; cmd_command := text; cmd_reason_summary := lit "why";
     cmd_observation_analysis := None; cmd_risk := RiskLow; cmd_mutability := ReadIntent |}.

Lemma command_approval_exact_witness :
  @validate_pending_command_approval quoting_externals
    (@bind_command quoting_externals 1 0 2 (sample_command (lit "df -h")) [9%N] 5 1 (lit "h"))
    (sample_command (lit "df -h")) [9%N] 5 true = Ok tt.
Proof.
  refine (proj2 (@command_approval_exact quoting_externals quoting_laws 1 0 2
    (sample_command (lit "df -h")) [9%N] 5 1 (lit "h")
    (sample_command (lit "df -h")) [9%N] 5 true (fun _ => eq_refl)) _).
  by split_and!.
Defined.

(** A tool approval authorizes exactly the reviewed call: bound to a call,
    it validates for a call, targets and a live policy iff the call has the same
    identity and the same typed invocation, the targets are the same and the
    policy still matches; provided SHA-256 tells the canonical texts of the two
    calls apart.  In particular the canonical text loses no argument. *)
Theorem tool_approval_exact `{ExternalLaws} id now run c0 t0 risk pv ph c t pm :
  call_named c0 -> call_named c -> no_collision (canonical_call c0) (canonical_call c) ->
  validate_pending_approval (bind id now run c0 t0 risk pv ph) c t pm = Ok tt <->
  tool_call_id c0 = tool_call_id c /\ ptc_invocation c0 = ptc_invocation c /\ t0 = t /\ pm = true.
Proof.
  intros Hn0 Hn1 Hc. rewrite validate_call_ok. cbn. split.
  - intros (_ & Hid & Hh & Ht & Hp). split_and!; try done.
    apply digest_hex_eq, canonical_call_inj in Hh as [_ Hi]; done.
  - intros (-> & E & -> & ->). split_and!; try done.
    unfold arguments_hash, canonical_call. unfold call_named in Hn0, Hn1. by rewrite Hn0, Hn1, E.
Qed.

Definition sample_call (service : str) : PreparedToolCall :=
  {| tool_call_id := 7; ptc_tool_name := lit "service.status"; ptc_reason_summary := lit "why";
     ptc_invocation := InvServiceStatus service |}.

Lemma tool_approval_exact_witness :
  @validate_pending_approval quoting_externals
    (@bind quoting_externals 1 0 2 (sample_call (lit "nginx")) [9%N] (lit "R0") 1 (lit "h"))
    (sample_call (lit "nginx")) [9%N] true = Ok tt.
Proof.
  refine (proj2 (@tool_approval_exact quoting_externals quoting_laws 1 0 2
    (sample_call (lit "nginx")) [9%N] (lit "R0") 1 (lit "h")
    (sample_call (lit "nginx")) [9%N] true eq_refl eq_refl (fun _ => eq_refl)) _).
  by split_and!.
Defined.

(** An approval is used once and for its own kind of action: a change-set
    approval validates exactly for its change set, version and targets; once
    an approval is decided, each of the three validations refuses it as not
    pending, before looking at anything else; a tool or change-set approval
    never validates a command; and a command approval never validates a tool
    call, if SHA-256 tells a one-line command from the call's canonical text. *)
Theorem approvals_single_use_and_kind `{ExternalLaws} :
  (forall id now run p cs0 v0 title t0 risk pv ph pre cs v t pm,
     validate_pending_change_set_approval
       (bind_change_set id now run p cs0 v0 title t0 risk pv ph pre) cs v t pm = Ok tt <->
     cs0 = cs /\ v0 = v /\ t0 = t /\ pm = true) /\
  (forall a st now call command cs v t s pm, st <> Pending ->
     validate_pending_change_set_approval (decide_approval st now a) cs v t pm = Err NotPending /\
     validate_pending_approval (decide_approval st now a) call t pm = Err NotPending /\
     validate_pending_command_approval (decide_approval st now a) command t s pm
       = Err NotPending) /\
  (forall id now run call t0 risk pv ph command t s pm, call_named call ->
     validate_pending_command_approval (bind id now run call t0 risk pv ph) command t s pm
       = Err ToolCallMismatch) /\
  (forall id now run p cs v title t0 risk pv ph pre command t s pm,
     validate_pending_command_approval
       (bind_change_set id now run p cs v title t0 risk pv ph pre) command t s pm
       = Err ToolCallMismatch) /\
  (forall id now run c0 t0 s0 pv ph call t pm,
     10%N ∉ cmd_command c0 -> no_collision (cmd_command c0) (canonical_call call) ->
     validate_pending_approval (bind_command id now run c0 t0 s0 pv ph) call t pm <> Ok tt).
Proof.
  split.
  { intros. rewrite validate_change_set_ok. cbn. naive_solver. }
  split.
  { intros a st now call command cs v t s pm Hst.
    unfold validate_pending_change_set_approval, validate_pending_approval,
      validate_pending_command_approval. cbn. by rewrite bool_decide_eq_false_2. }
  split.
  { intros id now run call t0 risk pv ph command t s pm Hn.
    unfold validate_pending_command_approval.
    destruct (is_command _) eqn:E; [|done]. apply is_command_iff in E as [_ E]. exfalso. cbn in E.
    rewrite Hn in E. revert E. by destruct (invocation_name _); vm_compute. }
  split.
  { intros. unfold validate_pending_command_approval.
    by destruct (is_command _) eqn:E; [apply is_command_iff in E as [E _]|]. }
  intros id now run c0 t0 s0 pv ph call t pm Hl Hc. rewrite validate_call_ok. cbn.
  intros (_ & _ & Hh & _). apply Hl. apply digest_hex_eq in Hh as ->; [|done].
  apply canonical_call_newline.
Qed.

Lemma approvals_single_use_and_kind_witness :
  validate_pending_change_set_approval
    (@bind_change_set quoting_externals 1 0 2 3 4 5 (lit "t") [9%N] (lit "R2") 1 (lit "h") None)
    4 5 [9%N] true = Ok tt.
Proof.
  refine (proj2 (proj1 (@approvals_single_use_and_kind quoting_externals quoting_laws)
    1 0 2 3 4 5 (lit "t") [9%N] (lit "R2") 1 (lit "h") None 4 5 [9%N] true)%N _).
  by split_and!.
Defined.

(** ** What the binding leaves out: the run is recorded and never compared *)
Lemma approval_ignores_run `{Externals} id now run1 run2 c0 t0 s0 pv ph c t s pm :
  validate_pending_command_approval (bind_command id now run1 c0 t0 s0 pv ph) c t s pm =
  validate_pending_command_approval (bind_command id now run2 c0 t0 s0 pv ph) c t s pm.
Proof. done. Qed.
