(* ===== verification/CommandLoop.v ===== *)
(** * Redundant command proposals (agent/command_loop.rs)

    The normalisation under which two commands count as the same
    investigation, and the overlap test.  [f32] is the binary32 format of the
    standard library's [SpecFloat]: 24 bits of precision, exponent bound 128. *)
From S2P Require Import Prelude Str RunState.
From Stdlib Require Import Floats.SpecFloat.

(** [Observation] (agent/reasoner.rs). *)
Record Observation := {
  ob_tool_call_id : option Uuid;
  ob_tool_name : option str;
  ob_success : bool;
  ob_error_code : option str;
  ob_summary : str;
  ob_detail : option str;
}.
#[export] Instance observation_eq_dec : EqDecision Observation.
Proof. solve_decision. Defined.

Definition COMMAND_LOOP_DETECTED : str := lit "COMMAND_LOOP_DETECTED".
Definition MIN_TOKEN_LEN : N := 3.

(** ** binary32 *)
Definition f32_of (n : N) : spec_float := binary_normalize 24 128 (Z.of_N n) 0 false.
Definition f32_div (a b : N) : spec_float := SFdiv 24 128 (f32_of a) (f32_of b).
(** The nearest [f32] to 0.82 and to 0.88. *)
Definition HIGH_OVERLAP : spec_float := S754_finite false 13757317 (-24).
Definition SUBSTRING_RATIO : spec_float := S754_finite false 14763950 (-24).

(** ** Normalisation *)
Definition collapse_whitespace (value : str) : str := join (lit " ") (split_whitespace value).

Definition decimal_token (t : str) : bool :=
  forallb is_ascii_digit (trim_start_matches (N.eqb 45) t) && negb (is_empty t).

Fixpoint cosmetics (tokens : list str) : list str :=
  match tokens with
  | [] => []
  | t :: rest =>
      if str_in [lit "--no-pager"; lit "-q"; lit "--quiet"] t then cosmetics rest
      else if str_in [lit "-o"; lit "--output"] t then
        match rest with [] => [] | _ :: rest' => cosmetics rest' end
      else if starts_with t (lit "--output=") then cosmetics rest
      else
        match rest with
        | ht :: rest2 =>
            if str_eqb t (lit "|") && str_in [lit "head"; lit "tail"] ht then
              match rest2 with
              | n :: rest3 =>
                  if str_in [lit "-n"; lit "-c"] n then
                    match rest3 with [] => [] | _ :: rest4 => cosmetics rest4 end
                  else if decimal_token n then cosmetics rest3
                  else cosmetics rest2
              | [] => []
              end
            else t :: cosmetics rest
        | [] => [t]
        end
  end.

Definition strip_output_cosmetics (command : str) : str :=
  join (lit " ") (cosmetics (split_whitespace command)).

(** The text after a closing quote; a backslash skips the next character. *)
Fixpoint after_quote (quote : chr) (s : str) : str :=
  match s with
  | [] => []
  | c :: t =>
      if (c =? quote)%N then t
      else if (c =? 92)%N then match t with [] => [] | _ :: t' => after_quote quote t' end
      else after_quote quote t
  end.

Definition skip_quoted (value : str) (quote : chr) : str :=
  match value with
  | c :: t => if (c =? quote)%N then after_quote quote t else value
  | [] => value
  end.

(** What follows the banner that [echo] prints. *)
Definition echo_rest (after_echo : str) : str :=
  if starts_with after_echo [39%N] then skip_quoted after_echo 39
  else if starts_with after_echo [34%N] then skip_quoted after_echo 34
  else match split_once (contains_char [59; 10]%N) after_echo with
       | Some (_, rest) => rest
       | None => []
       end.

Definition strip_leading_echo (command : str) : str :=
  let trimmed := trim_start command in
  if negb (starts_with trimmed (lit "echo ")) then trimmed else
  let rest := trim_start_matches (contains_char [32; 59; 10; 9]%N) (echo_rest (drop 5 trimmed)) in
  if is_empty rest then trimmed else rest.

(** The loop of [normalize_command]: [fuel] bounds its iterations. *)
Fixpoint strip_echoes (fuel : nat) (value : str) : option str :=
  match fuel with
  | O => None
  | S fuel =>
      let trimmed := strip_leading_echo value in
      if str_eqb trimmed value then Some value else strip_echoes fuel trimmed
  end.

Definition normalize_command (command : str) : str :=
  let value := collapse_whitespace (to_ascii_lowercase (trim command)) in
  let value := default value (strip_echoes (S (length value)) value) in
  collapse_whitespace (strip_output_cosmetics value).

(** ** Overlap *)
Definition token_char (c : chr) : bool :=
  is_ascii_alphanumeric c || (c =? 45)%N || (c =? 95)%N || (c =? 46)%N.

Definition STOP_TOKENS : list str :=
  map (fun s => lit s)
    ["echo"; "head"; "tail"; "pager"; "none"; "true"; "false"; "null"; "and"; "the"; "for";
     "with"]%string.

Definition significant_tokens (command : str) : list str :=
  List.filter (fun t => negb (str_in STOP_TOKENS t))
    (List.filter (fun t => MIN_TOKEN_LEN <=? blen t)%N
       (split (fun c => negb (token_char c)) command)).

Definition token_jaccard (left right : str) : spec_float :=
  let l := significant_tokens left in
  let r := significant_tokens right in
  if (length l <? 3)%nat || (length r <? 3)%nat then S754_zero false else
  let intersection := list_lenN (List.filter (str_in r) l) in
  let union := (list_lenN l + list_lenN r - intersection)%N in
  if (union =? 0)%N then S754_zero false else f32_div intersection union.

Definition commands_overlap (left right : str) : bool :=
  if str_eqb left right then true else
  let '(shorter, longer) := if (blen left <=? blen right)%N then (left, right) else (right, left) in
  if negb (is_empty shorter) && contains longer shorter
     && SFleb SUBSTRING_RATIO (f32_div (blen shorter) (blen longer))
  then true
  else SFleb HIGH_OVERLAP (token_jaccard left right).

Definition overlaps_prior (normalized prior : str) : bool :=
  let other := normalize_command prior in
  negb (is_empty other) && commands_overlap normalized other.

Definition is_redundant_command (candidate : str) (prior_commands : list str) : bool :=
  let normalized := normalize_command candidate in
  if is_empty normalized then false else existsb (overlaps_prior normalized) prior_commands.

Definition redundant_prior_count (candidate : str) (prior_commands : list str) : nat :=
  let normalized := normalize_command candidate in
  if is_empty normalized then 0%nat
  else length (List.filter (overlaps_prior normalized) prior_commands).

(** ** Commands already attempted *)
Fixpoint command_line (ls : list str) : option str :=
  match ls with
  | [] => None
  | line :: rest =>
      match strip_prefix (trim line) (lit "Command:") with
      | Some command =>
          if is_empty (trim command) then command_line rest else Some (trim command)
      | None => command_line rest
      end
  end.

Definition command_line_from_detail (detail : str) : option str := command_line (lines detail).

Definition prior_commands_from_observations (observations : list Observation) : list str :=
  omap (fun o => ob_detail o ≫= command_line_from_detail) observations.

Definition loop_rejection_detail (repeat_count : nat) : str :=
  if (2 <=? repeat_count)%nat
  then lit "This command (or a near-identical variant) was already attempted and did not add new evidence. Evidence has plateaued: propose a materially different command or evidence source, or answer with the best-supported conclusion including what remains unknown."
  else lit "This command (or a near-identical variant) was already attempted. Do not repeat it. Change the query, time window, or evidence source, or answer if the goal is already supported.".

(** ** Lemmas *)
Lemma drop_while_length p s : (length (drop_while p s) <= length s)%nat.
Proof. induction s as [|c s IH]; cbn; [lia|]. case_match; cbn; lia. Qed.

Lemma after_quote_length q s : (length (after_quote q s) <= length s)%nat.
Proof.
  cut (forall n s, (length s <= n)%nat -> (length (after_quote q s) <= length s)%nat); [eauto|].
  clear s. induction n as [|n IH]; intros [|c s] Hn; cbn in *; try lia.
  case_match; [lia|]. case_match.
  - destruct s as [|d s]; cbn in *; [lia|]. specialize (IH s). lia.
  - specialize (IH s). lia.
Qed.

Lemma split_once_length p s a b : split_once p s = Some (a, b) -> (length b < length s)%nat.
Proof.
  revert a. induction s as [|c s IH]; intros a; cbn; [done|].
  case_match; [intros [= _ ->]; lia|]. destruct (split_once p s) as [[x y]|] eqn:E; [|done].
  intros [= _ ->]. specialize (IH _ eq_refl). lia.
Qed.

Lemma echo_rest_length x : (length (echo_rest x) <= length x)%nat.
Proof.
  assert (forall x q, length (skip_quoted x q) <= length x)%nat as Hsq.
  { intros [|c y] q; cbn; [lia|]. case_match; cbn; [|lia]. pose proof (after_quote_length q y). lia. }
  assert (forall x, length (match split_once (contains_char [59; 10]%N) x with
           | Some (_, rest) => rest | None => [] end) <= length x)%nat as Hso.
  { intros y. destruct (split_once _ y) as [[a b]|] eqn:Es; cbn; [|lia].
    apply split_once_length in Es. lia. }
  unfold echo_rest. destruct (starts_with x _); [apply Hsq|].
  destruct (starts_with x _); [apply Hsq | apply Hso].
Qed.

(** Stripping an echo banner never adds text, and shortens what it changes. *)
Lemma strip_leading_echo_shorter s :
  strip_leading_echo s = s \/ (length (strip_leading_echo s) < length s)%nat.
Proof.
  unfold strip_leading_echo.
  assert (trim_start s = s \/ (length (trim_start s) < length s)%nat) as Ht.
  { unfold trim_start, trim_start_matches. destruct (drop_while_suffix is_whitespace s) as (pre & E).
    destruct pre as [|c pre]; [left; by rewrite E at 2|].
    right. rewrite E at 2. rewrite length_app. cbn. lia. }
  destruct (starts_with (trim_start s) (lit "echo ")) eqn:E; cbn [negb]; [|done].
  destruct (is_empty _); [done|]. right.
  apply starts_with_spec in E as (t & E).
  assert (length (drop 5 (trim_start s)) < length (trim_start s))%nat as Hd
    by (rewrite E, length_drop, length_app; change (length (lit "echo ")) with 5%nat; lia).
  assert (length (trim_start s) <= length s)%nat as Hl by (destruct Ht as [-> | Ht]; lia).
  pose proof (echo_rest_length (drop 5 (trim_start s))).
  pose proof (drop_while_length (contains_char [32; 59; 10; 9]%N) (echo_rest (drop 5 (trim_start s)))).
  unfold trim_start_matches. lia.
Qed.

Lemma strip_echoes_total fuel s :
  (length s < fuel)%nat -> exists r, strip_echoes fuel s = Some r /\ strip_leading_echo r = r.
Proof.
  revert s. induction fuel as [|fuel IH]; intros s Hl; [lia|]. cbn.
  destruct (str_eqb _ s) eqn:E; [apply str_eqb_eq in E; eauto|].
  apply IH. destruct (strip_leading_echo_shorter s) as [Hs|]; [|lia].
  rewrite Hs, str_eqb_refl in E. done.
Qed.

Lemma strip_echoes_more fuel fuel' s r :
  strip_echoes fuel s = Some r -> (fuel <= fuel')%nat -> strip_echoes fuel' s = Some r.
Proof.
  revert fuel' s. induction fuel as [|fuel IH]; intros [|fuel'] s; cbn; try done; [lia|].
  destruct (str_eqb _ _); [done|]. intros Hr Hl. apply IH; [done|lia].
Qed.

(** The line the runtime writes for an attempt is read back. *)
Lemma trim_prefix p s :
  (forall c, head p = Some c -> is_whitespace c = false) -> p <> [] ->
  last s <> None -> (forall c, last s = Some c -> is_whitespace c = false) ->
  trim (p ++ s) = p ++ s.
Proof.
  intros Hp Hne Hs Hl. destruct p as [|c p]; [done|].
  unfold trim, trim_matches, trim_start_matches, trim_end_matches. cbn [app drop_while].
  rewrite (Hp c eq_refl).
  destruct s as [|x s'] using rev_ind; [done|]. clear IHs'. rewrite last_snoc in Hl.
  change (c :: p ++ s' ++ [x]) with ((c :: p) ++ s' ++ [x]).
  rewrite !rev_app_distr. cbn [rev app drop_while]. rewrite (Hl x eq_refl).
  change (x :: rev s' ++ rev p ++ [c]) with ([x] ++ rev s' ++ rev (c :: p)).
  rewrite !rev_app_distr, !rev_involutive. cbn [rev app]. by rewrite <- (assoc_L (++)).
Qed.

Lemma command_line_first text after :
  10%N ∉ text -> trim text = text -> text <> [] ->
  command_line_from_detail (lit "Command: " ++ text ++ lit "
" ++ after) = Some text.
Proof.
  intros Hnl Ht Hne. unfold command_line_from_detail, lines.
  change (lit "
" ++ after) with (10%N :: after).
  rewrite (assoc_L (++)). rewrite split_sep; [|intros x Hx; apply N.eqb_neq; intros <-;
    apply elem_of_app in Hx as [Hx|Hx]; [by vm_compute in Hx; set_solver|done]|done].
  destruct (split (N.eqb 10) after) as [|q r] eqn:E; [by destruct (split_nonempty (N.eqb 10) after)|].
  cbn [lines_of].
  assert (exists c, last text = Some c /\ is_whitespace c = false) as (lc & Hlc & Hw).
  { destruct (last text) as [c|] eqn:El; [|by apply last_None in El].
    exists c. split; [done|]. apply trim_last with text. by rewrite Ht. }
  assert (strip_cr (lit "Command: " ++ text) = lit "Command: " ++ text) as ->.
  { unfold strip_cr. destruct text as [|x t'] using rev_ind; [done|]. clear IHt'.
    rewrite last_snoc in Hlc. injection Hlc as ->.
    rewrite (assoc_L (++)), rev_app_distr. cbn [rev app].
    destruct (decide (lc = 13%N)) as [->|]; [by vm_compute in Hw|].
    repeat case_match; done. }
  cbn [command_line]. rewrite trim_prefix;
    [|intros c [= <-]; done|done|by rewrite Hlc|intros c [= <-]%(eq_trans (eq_sym Hlc)); done].
  unfold strip_prefix. rewrite (assoc_L (++) (lit "Command:") [32%N] text) || idtac.
  change (lit "Command: " ++ text) with (lit "Command:" ++ [32%N] ++ text).
  rewrite starts_with_app, drop_app_length.
  assert (trim ([32%N] ++ text) = text) as ->.
  { rewrite <- Ht at 2. unfold trim, trim_matches, trim_start_matches. done. }
  by rewrite (proj2 (is_empty_false _) Hne).
Qed.

(** ** Properties *)

(** The loop of [normalize_command] ends: stripping echo banners reaches
    a text it leaves alone within as many rounds as the text has characters, so
    that the bound in the model is never the reason for a result and any
    larger bound gives the same text. *)
Theorem normalize_command_terminates command fuel :
  let value := collapse_whitespace (to_ascii_lowercase (trim command)) in
  (length value < fuel)%nat ->
  exists r, strip_echoes fuel value = Some r /\ strip_leading_echo r = r /\
    normalize_command command = collapse_whitespace (strip_output_cosmetics r).
Proof.
  intros value Hf. destruct (strip_echoes_total (S (length value)) value) as (r & Hr & Hfix); [lia|].
  exists r. split_and!; [|done|].
  - eapply strip_echoes_more; [exact Hr|lia].
  - unfold normalize_command. fold value. by rewrite Hr.
Qed.

Lemma normalize_command_terminates_witness :
  normalize_command (lit "echo '==='; journalctl -u nginx --no-pager | tail -n 20")
  = lit "journalctl -u nginx" /\
  exists r, strip_echoes 200 (collapse_whitespace (to_ascii_lowercase
    (trim (lit "echo '==='; journalctl -u nginx --no-pager | tail -n 20")))) = Some r.
Proof.
  split; [vm_compute; reflexivity|].
  destruct (normalize_command_terminates
    (lit "echo '==='; journalctl -u nginx --no-pager | tail -n 20") 200) as (r & Hr & _);
    [vm_compute; lia|].
  by exists r.
Defined.

(** What was attempted is recognised: a command whose attempt an observation
    records, in the line the runtime writes for it, is redundant when it is
    proposed again, however it is spaced or cased and whatever line of the same
    normal form it was; an empty normal form is never redundant; and a command
    is redundant exactly when the number of prior attempts it overlaps, which
    selects the wording of the rejection, is not zero. *)
Theorem repeated_command_is_redundant candidate observations :
  (forall o text after, o ∈ observations ->
     ob_detail o = Some (lit "Command: " ++ text ++ lit "
" ++ after) ->
     10%N ∉ text -> trim text = text -> text <> [] ->
     normalize_command candidate = normalize_command text -> normalize_command text <> [] ->
     is_redundant_command candidate (prior_commands_from_observations observations) = true) /\
  (normalize_command candidate = [] ->
     is_redundant_command candidate (prior_commands_from_observations observations) = false) /\
  (is_redundant_command candidate (prior_commands_from_observations observations) = true <->
   redundant_prior_count candidate (prior_commands_from_observations observations) <> 0%nat).
Proof.
  set (ps := prior_commands_from_observations observations).
  assert (forall candidate, is_redundant_command candidate ps = true <->
    redundant_prior_count candidate ps <> 0%nat) as Hcount.
  { intros c. unfold is_redundant_command, redundant_prior_count. destruct (is_empty _); [done|].
    rewrite Existsb_exists. split.
    - intros (x & Hx & E). destruct (List.filter _ ps) eqn:Ef; [|done].
      assert (x ∈ List.filter (overlaps_prior (normalize_command c)) ps) as Hin
        by (by apply elem_of_filterb). rewrite Ef in Hin. by apply elem_of_nil in Hin.
    - intros H. destruct (List.filter _ ps) as [|x l] eqn:Ef; [done|].
      assert (x ∈ List.filter (overlaps_prior (normalize_command c)) ps) as Hin
        by (rewrite Ef; by left). apply elem_of_filterb in Hin. eauto. }
  split_and!; [|intros H; unfold is_redundant_command; by rewrite H|apply Hcount].
  intros o text after Ho Hd Hnl Htrim Hne Hn Hnn.
  assert (text ∈ ps) as Hps.
  { apply list_elem_of_omap. exists o. split; [done|]. rewrite Hd. cbn [mbind option_bind].
    by apply command_line_first. }
  unfold is_redundant_command. rewrite Hn.
  apply is_empty_false in Hnn as He. rewrite He. apply Existsb_exists. exists text. split; [done|].
  unfold overlaps_prior. rewrite He. cbn [negb andb]. unfold commands_overlap.
  by rewrite str_eqb_refl.
Qed.
