(* ===== verification/Evidence.v ===== *)
(** * Tool results, evidence and evidence-bound changes
    (tools/result.rs, agentic/state.rs, agentic/changes.rs, agentic/planning.rs)

    The typed results of read tools, the evidence a run keeps of them, and the
    test that a proposed change rests on evidence and on the user's words. *)
From S2P Require Import Prelude Str Json RunState Context Tools Policy Decision.

(** ** Results (tools/result.rs, domain/dashboard.rs) *)

(** [f64] fields are their bit patterns. *)
Record DiskUsage := { du_mount : str; du_used_bytes : N; du_total_bytes : N; du_usage_percent : N }.

Inductive ServiceStatusKind := SvcActive | SvcInactive | SvcFailed | SvcUnknown.
#[export] Instance service_status_eq_dec : EqDecision ServiceStatusKind.
Proof. solve_decision. Defined.

Record ServiceHealth := { sh_name : str; sh_status : ServiceStatusKind }.
Record DiagnosticData := { dd_category : str; dd_fields : json }.
Record SystemInfoData := {
  si_hostname : str; si_operating_system : str; si_kernel_release : str; si_architecture : str }.
Record ServiceLogsData := { sl_service : str; sl_entries : list str }.
Record NetworkPortCheckData := { np_host : str; np_port : N; np_reachable : bool }.
Record HttpResponseData := {
  hr_status_code : N; hr_content_type : option str; hr_body_preview : str; hr_body_bytes : N }.
Record NginxTestData := {
  nt_valid : bool; nt_config_file : option str; nt_error_file : option str;
  nt_error_line : option N; nt_error_message : option str; nt_raw_summary : str }.
Record FilePatchData := { fp_path : str; fp_bytes : N; fp_verified : bool }.
Record ServiceChangeData := { sc_service : str; sc_action : str; sc_verified : bool }.

Inductive ToolData :=
  | TDSystemInfo (d : SystemInfoData)
  | TDSystemDisk (disks : list DiskUsage)
  | TDServiceStatus (service : ServiceHealth)
  | TDServiceLogs (d : ServiceLogsData)
  | TDNetworkPortCheck (d : NetworkPortCheckData)
  | TDHttpResponse (d : HttpResponseData)
  | TDNginxTest (d : NginxTestData)
  | TDFilePatch (d : FilePatchData)
  | TDServiceChange (d : ServiceChangeData)
  | TDDiagnostic (d : DiagnosticData).

Record ToolResult := {
  tr_invocation_id : Uuid;
  tr_tool_name : NativeToolName;
  tr_success : bool;
  tr_summary : str;
  tr_data : option ToolData;
  tr_error_code : option str;
  tr_warnings : list str;
  tr_started_at_epoch_ms : N;
  tr_duration_ms : N;
  tr_truncated : bool;
  tr_cancelled : bool;
  tr_untrusted_remote_data : bool;
}.

Definition tool_result_failure (invocation_id : Uuid) (name : NativeToolName) (error_code : str)
    (started duration : N) : ToolResult :=
  {| tr_invocation_id := invocation_id; tr_tool_name := name; tr_success := false;
     tr_summary := lit "tool-execution-failed"; tr_data := None;
     tr_error_code := Some error_code; tr_warnings := []; tr_started_at_epoch_ms := started;
     tr_duration_ms := duration; tr_truncated := false; tr_cancelled := false;
     tr_untrusted_remote_data := false |}.

Definition tool_result_cancelled (invocation_id : Uuid) (name : NativeToolName)
    (started duration : N) : ToolResult :=
  {| tr_invocation_id := invocation_id; tr_tool_name := name; tr_success := false;
     tr_summary := lit "tool-execution-cancelled"; tr_data := None;
     tr_error_code := Some (lit "TOOL_CANCELLED"); tr_warnings := [];
     tr_started_at_epoch_ms := started; tr_duration_ms := duration; tr_truncated := false;
     tr_cancelled := true; tr_untrusted_remote_data := false |}.

(** ** Evidence (agentic/state.rs) and change sets (agentic/changes.rs) *)
Record Evidence := {
  evd_id : Uuid;
  evd_source : str;
  evd_invocation_id : Uuid;
  evd_trust : ContextTrust;
  evd_summary : str;
  evd_result : ToolResult;
}.

Inductive ApprovalState := CsDraft | CsApproved | CsRejected | CsInvalidated.
Inductive ExecutionState :=
  | NotStarted | Executing | Committed | ExecFailedState | RolledBack | RollbackFailed | Interrupted.
#[export] Instance execution_state_eq_dec : EqDecision ExecutionState.
Proof. solve_decision. Defined.
Inductive ChangeStepState := StepPending | StepSucceeded | StepFailed | StepRolledBack.
Inductive ChangeSetRecoveryState := Live | MetadataOnly.

Record ChangeStep := {
  cst_id : Uuid; cst_order : N; cst_tool_name : str; cst_risk : RiskLevel; cst_preview : str;
  cst_verification_plan_code : str; cst_rollback_capability : str; cst_state : ChangeStepState;
  cst_error_code : option str }.

Record ChangePrecondition := {
  cp_step_id : Uuid; cp_target_id : Uuid; cp_check_tool : str; cp_observed_at_epoch_ms : N;
  cp_state : str }.

Record ChangeSet := {
  cs_id : Uuid;
  cs_agent_run_id : Uuid;
  cs_session_id : Uuid;
  cs_title : str;
  cs_version : N;
  cs_risk : RiskLevel;
  cs_steps : list ChangeStep;
  cs_approval_state : ApprovalState;
  cs_approved_version : option N;
  cs_execution_state : ExecutionState;
  cs_recovery_state : ChangeSetRecoveryState;
  cs_preconditions : list ChangePrecondition;
  cs_policy_evaluation : option PolicyEvaluation;
  cs_policy_snapshot : option PolicySnapshot;
  cs_approved_step_ids : list Uuid;
}.

(** ** Evidence-bound changes (agentic/planning.rs) *)
Definition CHANGE_WORDS : list str :=
  map (fun s => lit s)
    ["fix"; "repair"; "restart"; "reload"; "remediate"; "resolve"; "apply"; "replace"; "modify";
     "change"; "修复"; "重启"; "重载"; "恢复"; "处理"; "替换"; "修改"; "执行修复"; "应用变更"]%string.

Definition explicit_change_intent (request : str) : bool :=
  contains_any (to_ascii_lowercase request) CHANGE_WORDS.

(** What one piece of evidence must show for one step. *)
Definition field_is (d : DiagnosticData) (key : String.string) (value : str) : bool :=
  match json_get (dd_fields d) (lit key) ≫= as_str with
  | Some s => str_eqb s value
  | None => false
  end.

Definition supports_step (request : str) (item : Evidence) (step : ChangeStepDraft) : bool :=
  match step, tr_data (evd_result item) with
  | DraftFilePatch path expected _, Some (TDDiagnostic d) =>
      str_eqb (dd_category d) (lit "file") && field_is d "path" path
      && match json_get (dd_fields d) (lit "contentPreview") ≫= as_str with
         | Some content => contains content expected
         | None => false
         end
  | (DraftServiceRestart service | DraftServiceReload service), Some (TDServiceStatus s) =>
      str_eqb (sh_name s) service
  | (DraftServiceRestart service | DraftServiceReload service), Some (TDServiceLogs l) =>
      str_eqb (sl_service l) service
  | DraftNginxReload, Some (TDNginxTest t) => nt_valid t
  | DraftDockerRestart container, Some (TDDiagnostic d) =>
      str_eqb (dd_category d) (lit "docker-inspect") && field_is d "container" container
  | _, _ => false
  end.

(** A patch must quote the user and carry no secret. *)
Definition step_requested (request : str) (step : ChangeStepDraft) : bool :=
  match step with
  | DraftFilePatch _ expected replacement =>
      negb ((redact_secrets expected).2 || (redact_secrets replacement).2)
      && contains request expected && contains request replacement
  | _ => true
  end.

Definition change_proposal_is_evidence_bound (request : str) (evidence : list Evidence)
    (evidence_ids : list Uuid) (steps : list ChangeStepDraft) : bool :=
  if negb (explicit_change_intent request) || (length evidence_ids =? 0)%nat
     || (length steps =? 0)%nat
  then false else
  let referenced := List.filter (fun item => bool_decide (evd_id item ∈ evidence_ids)
                                             && tr_success (evd_result item)) evidence in
  if negb (length referenced =? length evidence_ids)%nat then false else
  forallb (fun step => step_requested request step
                       && existsb (fun item => supports_step request item step) referenced) steps.

(** ** Lemmas and properties *)

(** A change enters planning only on the user's word and on live evidence: the
    request asks for a change, every referenced identifier is that of a
    successful observation when the run holds at most one observation per
    identifier, and every step is supported by a successful referenced
    observation of its own kind, a patch moreover by text the user wrote and a
    file preview that contains what it replaces, with no secret in it. *)
Theorem evidence_bound_sound request evidence ids steps :
  change_proposal_is_evidence_bound request evidence ids steps = true ->
  explicit_change_intent request = true /\ ids <> [] /\ steps <> [] /\
  (NoDup ids -> NoDup (map evd_id evidence) ->
   forall i, i ∈ ids -> exists e, e ∈ evidence /\ evd_id e = i /\ tr_success (evd_result e) = true) /\
  (forall step, step ∈ steps -> step_requested request step = true /\
     exists e, e ∈ evidence /\ evd_id e ∈ ids /\ tr_success (evd_result e) = true /\
               supports_step request e step = true).
Proof.
  unfold change_proposal_is_evidence_bound.
  destruct (_ || (length steps =? 0)%nat) eqn:E; [done|].
  apply orb_false_iff in E as [[Ei%negb_false_iff Eids%Nat.eqb_neq]%orb_false_iff Es%Nat.eqb_neq].
  set (ref := List.filter _ evidence).
  destruct (length ref =? length ids)%nat eqn:El; cbn [negb]; [|done].
  apply Nat.eqb_eq in El. rewrite Forallb_forall. intros Hs.
  assert (forall e, e ∈ ref <-> e ∈ evidence /\ evd_id e ∈ ids /\ tr_success (evd_result e) = true)
    as Href.
  { intros e. subst ref. by rewrite elem_of_filterb, andb_true_iff, bool_decide_eq_true. }
  split_and!; [done|by intros ->|by intros ->| |].
  - intros Hids Hev i Hi.
    assert (NoDup (map evd_id ref)) as Hnd.
    { subst ref. clear -Hev. induction evidence as [|e l IH]; cbn; [done|].
      apply NoDup_cons in Hev as [He Hl]. specialize (IH Hl). case_match; [|done].
      cbn. apply NoDup_cons. split; [|done]. intros Hin. apply He.
      apply list_elem_of_fmap in Hin as (x & -> & Hx). apply elem_of_filterb in Hx as [Hx _].
      by apply list_elem_of_fmap_2. }
    assert (ids ⊆+ map evd_id ref) as Hsub.
    { symmetry in El. rewrite <- (length_map evd_id ref) in El.
      assert (map evd_id ref ⊆+ ids) as Hsub.
      { apply NoDup_submseteq; [done|]. intros x Hx. apply list_elem_of_fmap in Hx as (e & -> & He).
        by apply Href in He as (_ & ? & _). }
      apply Permutation_submseteq. symmetry. apply submseteq_length_Permutation; [done|lia]. }
    apply (elem_of_submseteq _ _ i Hi) in Hsub. apply list_elem_of_fmap in Hsub as (e & -> & He).
    apply Href in He as (? & ? & ?). by exists e.
  - intros step Hstep. specialize (Hs step Hstep). apply andb_true_iff in Hs as [Hr Hs].
    split; [done|]. apply Existsb_exists in Hs as (e & He & Hsup). apply Href in He as (?&?&?).
    by exists e.
Qed.

Definition sample_evidence : Evidence :=
  {| evd_id := 5; evd_source := lit "tool.nginx.test"; evd_invocation_id := 6;
     evd_trust := UntrustedRemoteData; evd_summary := lit "ok";
     evd_result := {| tr_invocation_id := 6; tr_tool_name := NginxTest; tr_success := true;
       tr_summary := lit "ok"; tr_data := Some (TDNginxTest {| nt_valid := true;
         nt_config_file := None; nt_error_file := None; nt_error_line := None;
         nt_error_message := None; nt_raw_summary := [] |});
       tr_error_code := None; tr_warnings := []; tr_started_at_epoch_ms := 0;
       tr_duration_ms := 1; tr_truncated := false; tr_cancelled := false;
       tr_untrusted_remote_data := true |} |}.

Lemma evidence_bound_sound_witness :
  explicit_change_intent (lit "please reload nginx") = true.
Proof.
  refine (proj1 (evidence_bound_sound (lit "please reload nginx") [sample_evidence] [5%N]
    [DraftNginxReload] _)).
  vm_compute; reflexivity.
Defined.
