(* ===== verification/Facts.v ===== *)
(** * Working facts and artifacts (agent/facts.rs, agent/artifact.rs)

    Compact facts extracted from typed results, upserted by key and target,
    and the store of large outputs that only a reference of reaches the model.
    The ids of one extraction are the calls of [Uuid::new_v4] in order. *)
From S2P Require Import Prelude Str Json RunState Context Tools Evidence.

Definition DEFAULT_FACT_TTL_MS : N := 30000.

Inductive FactProvenance := ToolObservation | FromUserInput | FromRuntime.
#[export] Instance fact_provenance_eq_dec : EqDecision FactProvenance.
Proof. solve_decision. Defined.

Record WorkingFact := {
  wf_id : Uuid;
  wf_key : str;
  wf_value : str;
  wf_source_event_seq : option N;
  wf_source_tool : option str;
  wf_tool_call_id : option Uuid;
  wf_target_id : option Uuid;
  wf_observed_at : N;
  wf_ttl_ms : N;
  wf_provenance : FactProvenance;
}.
#[export] Instance working_fact_eq_dec : EqDecision WorkingFact.
Proof. solve_decision. Defined.

Definition fact_is_fresh (f : WorkingFact) (now : N) : bool :=
  is_fresh {| observed_at := wf_observed_at f; ttl_ms := wf_ttl_ms f |} now.

Definition fresh_facts (facts : list WorkingFact) (now : N) : list WorkingFact :=
  List.filter (fun f => fact_is_fresh f now) facts.

(** One iteration of [upsert_many]: the set, and the key if it changed. *)
Definition same_slot (a b : WorkingFact) : bool :=
  str_eqb (wf_key a) (wf_key b) && bool_decide (wf_target_id a = wf_target_id b).

Fixpoint upsert (fact : WorkingFact) (facts : list WorkingFact) : list WorkingFact * bool :=
  match facts with
  | [] => ([fact], true)
  | item :: rest =>
      if same_slot item fact then
        if negb (str_eqb (wf_value item) (wf_value fact))
           || negb (wf_observed_at item =? wf_observed_at fact)%N
        then (fact :: rest, true) else (item :: rest, false)
      else let '(rest', changed) := upsert fact rest in (item :: rest', changed)
  end.

Fixpoint upsert_many (incoming facts : list WorkingFact) : list str * list WorkingFact :=
  match incoming with
  | [] => ([], facts)
  | fact :: rest =>
      let '(facts', changed) := upsert fact facts in
      let '(keys, final) := upsert_many rest facts' in
      ((if changed then [wf_key fact] else []) ++ keys, final)
  end.

Definition invalidate_target (target_id : Uuid) (facts : list WorkingFact) : list WorkingFact :=
  List.filter (fun f => negb (bool_decide (wf_target_id f = Some target_id))) facts.

(** ** Extraction *)

(** [format!("{:.0}", x)] on the bits of an [f64]: the nearest integer, ties to even. *)
Definition f64_round0 (bits : N) : str :=
  let sign := if N.testbit bits 63 then lit "-" else [] in
  let e := Z.of_N ((bits / 2 ^ 52) mod 2048) in
  let m := Z.of_N (bits mod 2 ^ 52) in
  if (e =? 2047)%Z then (if (m =? 0)%Z then sign ++ lit "inf" else lit "NaN") else
  let '(mant, ex) := if (e =? 0)%Z then (m, -1074)%Z else (m + 2 ^ 52, e - 1075)%Z in
  let n :=
    if (0 <=? ex)%Z then (mant * 2 ^ ex)%Z else
    let d := (2 ^ (- ex))%Z in
    let q := (mant / d)%Z in
    let r := (mant mod d)%Z in
    if (2 * r <? d)%Z then q else if (d <? 2 * r)%Z then (q + 1)%Z
    else if Z.even q then q else (q + 1)%Z in
  sign ++ dec (Z.to_N n).

Definition bool_str (b : bool) : str := if b then lit "true" else lit "false".

Definition service_status_lower (s : ServiceStatusKind) : str :=
  lit match s with
  | SvcActive => "active" | SvcInactive => "inactive" | SvcFailed => "failed"
  | SvcUnknown => "unknown" end%string.

(** The key and value of each [push_fact] call, in order. *)
Definition fact_pairs (data : ToolData) : list (str * str) :=
  match data with
  | TDSystemInfo info =>
      [(lit "os", si_operating_system info); (lit "hostname", si_hostname info);
       (lit "kernel", si_kernel_release info)]
  | TDSystemDisk disks =>
      map (fun d => (lit "disk.usage." ++ du_mount d, f64_round0 (du_usage_percent d) ++ lit "%"))
          disks
  | TDServiceStatus s =>
      [(lit "service." ++ sh_name s ++ lit ".status", service_status_lower (sh_status s))]
  | TDServiceLogs l =>
      [(lit "service." ++ sl_service l ++ lit ".logs_available",
        bool_str (negb (length (sl_entries l) =? 0)%nat));
       (lit "service." ++ sl_service l ++ lit ".log_lines", dec (list_lenN (sl_entries l)))]
  | TDNetworkPortCheck p =>
      [(lit "port." ++ np_host p ++ lit "." ++ dec (np_port p),
        if np_reachable p then lit "open" else lit "closed")]
  | TDHttpResponse h => [(lit "http.status", dec (hr_status_code h))]
  | TDNginxTest n =>
      (lit "nginx.config_valid", bool_str (nt_valid n))
      :: match nt_config_file n with
         | Some p => [(lit "nginx.config_file", p)]
         | None => []
         end
  | TDDiagnostic d =>
      if str_eqb (dd_category d) (lit "docker-inspect") then
        match json_get (dd_fields d) (lit "container") ≫= as_str with
        | Some container =>
            [(lit "docker." ++ container ++ lit ".running",
              bool_str (default false (json_get (dd_fields d) (lit "running") ≫= as_bool)))]
        | None => []
        end
      else if str_eqb (dd_category d) (lit "file") then
        match json_get (dd_fields d) (lit "path") ≫= as_str with
        | Some p => [(lit "file.exists." ++ p, lit "true")]
        | None => []
        end
      else []
  | TDFilePatch _ | TDServiceChange _ => []
  end.

(** [push_fact]: the value is redacted; an empty key or value is dropped. *)
Definition push_fact (kv : str * str) : option (str * str) :=
  let value := (redact_secrets kv.2).1 in
  if is_empty kv.1 || is_empty value then None else Some (kv.1, value).

Definition extract_facts_from_result (ids : nat -> Uuid) (result : ToolResult)
    (tool_call_id : Uuid) (target_id : option Uuid) (observed_at : N)
    (source_event_seq : option N) : list WorkingFact :=
  if negb (tr_success result) then [] else
  match tr_data result with
  | None => []
  | Some data =>
      imap (fun k kv =>
        {| wf_id := ids k; wf_key := kv.1; wf_value := kv.2;
           wf_source_event_seq := source_event_seq;
           wf_source_tool := Some (tool_as_str (tr_tool_name result));
           wf_tool_call_id := Some tool_call_id; wf_target_id := target_id;
           wf_observed_at := observed_at; wf_ttl_ms := DEFAULT_FACT_TTL_MS;
           wf_provenance := ToolObservation |})
        (omap push_fact (fact_pairs data))
  end.

Definition to_context_fact (f : WorkingFact) : ContextFact :=
  {| cf_source := SrcNativeTools; cf_target_id := wf_target_id f; cf_evidence_id := wf_tool_call_id f;
     cf_key := wf_key f; cf_value := wf_value f |}.

(** ** Artifacts *)
Definition ARTIFACT_INLINE_THRESHOLD_BYTES : N := 4 * 1024.
Definition ARTIFACT_SEARCH_MAX_HITS : nat := 20.

Record ToolArtifact := {
  art_id : Uuid;
  art_run_id : Uuid;
  art_tool_call_id : option Uuid;
  art_tool_name : str;
  art_summary : str;
  art_content : str;
  art_byte_len : N;
  art_created_at : N;
}.

Record ArtifactReference := {
  ar_artifact_id : Uuid; ar_tool_name : str; ar_summary : str; ar_byte_len : N }.

Record ArtifactSearchHit := { hit_line_number : N; hit_line : str }.

Definition truncate_chars (input : str) (max_chars : nat) : str :=
  if (length input <=? max_chars)%nat then input else take max_chars input ++ lit "…".

(** The artifact that [store_large_output] puts into its store. *)
Definition large_output_artifact (new_v4 run_id tool_call_id : Uuid)
    (tool_name summary raw_content : str) (created_at : N) : ToolArtifact :=
  let content := (redact_secrets raw_content).1 in
  let summary := (redact_secrets summary).1 in
  {| art_id := new_v4; art_run_id := run_id; art_tool_call_id := Some tool_call_id;
     art_tool_name := tool_name; art_summary := truncate_chars summary 300;
     art_content := content; art_byte_len := blen content; art_created_at := created_at |}.

Definition should_store_as_artifact (content : str) : bool :=
  (ARTIFACT_INLINE_THRESHOLD_BYTES <? blen content)%N.

Definition artifact_reference (a : ToolArtifact) : ArtifactReference :=
  {| ar_artifact_id := art_id a; ar_tool_name := art_tool_name a; ar_summary := art_summary a;
     ar_byte_len := art_byte_len a |}.

(** The line search of [artifact_search] on an artifact's content. *)
Definition matching_lines (query : str) (content : str) : list ArtifactSearchHit :=
  omap (fun il : N * str =>
          if contains (to_ascii_lowercase il.2) query
          then Some {| hit_line_number := il.1 + 1; hit_line := truncate_chars il.2 400 |}
          else None)
       (imap (fun i line => (N.of_nat i, line)) (lines content)).

Definition artifact_search (artifact : ToolArtifact) (query : str) : list ArtifactSearchHit :=
  let query := trim query in
  if is_empty query then [] else
  take ARTIFACT_SEARCH_MAX_HITS (matching_lines (to_ascii_lowercase query) (art_content artifact)).

(** ** Lemmas *)
Definition slot (f : WorkingFact) : option Uuid * str := (wf_target_id f, wf_key f).
Definition slots (facts : list WorkingFact) : list (option Uuid * str) := map slot facts.
Arguments slots : simpl never.
Lemma slots_cons f facts : slots (f :: facts) = slot f :: slots facts.
Proof. done. Qed.
(** What a reader of the set learns from a fact. *)
Definition reading (f : WorkingFact) : str * N := (wf_value f, wf_observed_at f).

Lemma same_slot_iff a b : same_slot a b = true <-> slot a = slot b.
Proof.
  unfold same_slot, slot. rewrite andb_true_iff, str_eqb_eq, bool_decide_eq_true.
  split; [intros [-> ->]; done | intros [= -> ->]; done].
Qed.

Lemma slots_elem facts f : f ∈ facts -> slot f ∈ slots facts.
Proof. apply list_elem_of_fmap_2. Qed.

Lemma upsert_spec fact facts :
  let '(facts', changed) := upsert fact facts in
  (slots facts' = if bool_decide (slot fact ∈ slots facts) then slots facts
                  else slots facts ++ [slot fact]) /\
  (forall f, f ∈ facts' -> f = fact \/ f ∈ facts) /\
  (exists f, f ∈ facts' /\ slot f = slot fact /\ reading f = reading fact) /\
  (forall f, f ∈ facts -> slot f <> slot fact -> f ∈ facts') /\
  (changed = false -> facts' = facts).
Proof.
  induction facts as [|item rest IH]; cbn.
  { split_and!; try done.
    - intros f Hf%list_elem_of_singleton. by left.
    - exists fact. split_and!; [by left|done|done].
    - intros f Hf. by apply not_elem_of_nil in Hf. }
  destruct (same_slot item fact) eqn:E.
  - apply same_slot_iff in E. rewrite bool_decide_eq_true_2 by (rewrite slots_cons, E; by left).
    destruct (negb _ || negb _) eqn:Ec.
    + split_and!; try done.
      * by rewrite !slots_cons, E.
      * intros f [->|Hf]%elem_of_cons; [by left|right; by right].
      * exists fact. split_and!; [by left|done|done].
      * intros f [->|Hf]%elem_of_cons Hs; [done|by right].
    + apply orb_false_iff in Ec as [E1%negb_false_iff%str_eqb_eq E2%negb_false_iff%N.eqb_eq].
      split_and!; try done; [by auto|]. exists item. unfold reading. rewrite E1, E2.
      split_and!; [by left|done|done].
  - assert (slot item <> slot fact) as Hne by (rewrite <- same_slot_iff; by rewrite E).
    destruct (upsert fact rest) as [rest' changed]. destruct IH as (H1 & H2 & (f & H3 & H4) & H5 & H6).
    split_and!.
    + rewrite !slots_cons, H1. rewrite (bool_decide_ext (slot fact ∈ slot item :: slots rest) (slot fact ∈ slots rest)).
      { by case_bool_decide. }
      rewrite elem_of_cons. split; [by intros [|]|by right].
    + intros g [->|Hg]%elem_of_cons; [right; by left|]. destruct (H2 g Hg); [by left|right; by right].
    + exists f. split; [by right|done].
    + intros g [->|Hg]%elem_of_cons Hs; [by left|right; by apply H5].
    + intros Hc. by rewrite H6.
Qed.

Lemma upsert_slots_nodup fact facts :
  NoDup (slots facts) -> NoDup (slots (upsert fact facts).1).
Proof.
  pose proof (upsert_spec fact facts) as H. destruct (upsert fact facts) as [facts' c].
  cbn [fst]. destruct H as (-> & _). case_bool_decide; [done|]. intros Hn. apply NoDup_app.
  split_and!; [done| |by apply NoDup_singleton].
  intros x Hx Hy. apply list_elem_of_singleton in Hy as ->. done.
Qed.

Lemma upsert_many_nodup incoming facts :
  NoDup (slots facts) -> NoDup (slots (upsert_many incoming facts).2).
Proof.
  revert facts. induction incoming as [|fact rest IH]; intros facts Hn; cbn; [done|].
  pose proof (upsert_slots_nodup fact facts Hn) as Hn'.
  destruct (upsert fact facts) as [facts' c]. specialize (IH facts' Hn').
  by destruct (upsert_many rest facts').
Qed.

Lemma upsert_many_slots incoming facts s :
  s ∈ slots (upsert_many incoming facts).2 <-> s ∈ slots facts \/ s ∈ slots incoming.
Proof.
  revert facts. induction incoming as [|fact rest IH]; intros facts; cbn.
  { change (slots []) with ([] : list (option Uuid * str)). rewrite elem_of_nil. tauto. }
  pose proof (upsert_spec fact facts) as H. destruct (upsert fact facts) as [facts' c].
  specialize (IH facts'). destruct (upsert_many rest facts') as [keys final]. cbn in *.
  rewrite IH. destruct H as (-> & _). rewrite slots_cons, elem_of_cons. case_bool_decide.
  - split; [tauto|]. intros [?|[->|?]]; auto.
  - rewrite elem_of_app, list_elem_of_singleton. tauto.
Qed.

(** A slot that no later fact writes keeps its reading. *)
Lemma upsert_many_keeps incoming facts f :
  f ∈ facts -> (forall g, g ∈ incoming -> slot g <> slot f) -> f ∈ (upsert_many incoming facts).2.
Proof.
  revert facts. induction incoming as [|fact rest IH]; intros facts Hf Hg; cbn; [done|].
  pose proof (upsert_spec fact facts) as H. destruct (upsert fact facts) as [facts' c].
  destruct H as (_ & _ & _ & H5 & _). specialize (IH facts').
  destruct (upsert_many rest facts') as [keys final]. cbn in *. apply IH.
  - apply H5; [done|]. intros E. by destruct (Hg fact (list_elem_of_here _ _)).
  - intros g Hg'. apply Hg. by right.
Qed.

Lemma upsert_many_last before fact after facts :
  (forall g, g ∈ after -> slot g <> slot fact) ->
  exists f, f ∈ (upsert_many (before ++ fact :: after) facts).2 /\
            slot f = slot fact /\ reading f = reading fact.
Proof.
  intros Ha. revert facts. induction before as [|b before IH]; intros facts; cbn.
  - pose proof (upsert_spec fact facts) as H. destruct (upsert fact facts) as [facts' c].
    destruct H as (_ & _ & (f & Hf & Hs & Hr) & _).
    exists f. pose proof (upsert_many_keeps after facts' f Hf) as Hk. rewrite Hs in Hk.
    destruct (upsert_many after facts') as [keys final]. cbn in *. split_and!; auto.
  - destruct (upsert b facts) as [facts' c]. specialize (IH facts').
    by destruct (upsert_many (before ++ fact :: after) facts').
Qed.

Lemma upsert_many_unchanged incoming facts :
  (upsert_many incoming facts).1 = [] -> (upsert_many incoming facts).2 = facts.
Proof.
  revert facts. induction incoming as [|fact rest IH]; intros facts; cbn; [done|].
  pose proof (upsert_spec fact facts) as H. destruct (upsert fact facts) as [facts' c].
  specialize (IH facts'). destruct (upsert_many rest facts') as [keys final]. cbn in *.
  destruct c; [done|]. destruct H as (_ & _ & _ & _ & Hc). rewrite Hc in * by done. exact IH.
Qed.

(** ** Properties *)

(** The working set is a map: upserting keeps one fact per target and key,
    the slots afterwards are those before and those written, the last fact
    written to a slot is what the slot then reads, a slot that is not written
    keeps its fact, and when no key is reported changed nothing changed;
    invalidating a target removes exactly its facts. *)
Theorem working_facts_are_a_map incoming facts :
  (NoDup (slots facts) -> NoDup (slots (upsert_many incoming facts).2)) /\
  (forall s, s ∈ slots (upsert_many incoming facts).2 <-> s ∈ slots facts \/ s ∈ slots incoming) /\
  (forall before fact after, incoming = before ++ fact :: after ->
     (forall g, g ∈ after -> slot g <> slot fact) ->
     exists f, f ∈ (upsert_many incoming facts).2 /\ slot f = slot fact /\ reading f = reading fact) /\
  (forall f, f ∈ facts -> (forall g, g ∈ incoming -> slot g <> slot f) ->
     f ∈ (upsert_many incoming facts).2) /\
  ((upsert_many incoming facts).1 = [] -> (upsert_many incoming facts).2 = facts) /\
  (forall target f, f ∈ invalidate_target target facts <->
     f ∈ facts /\ wf_target_id f <> Some target).
Proof.
  split_and!.
  - apply upsert_many_nodup.
  - apply upsert_many_slots.
  - intros before fact after -> Ha. by apply upsert_many_last.
  - apply upsert_many_keeps.
  - apply upsert_many_unchanged.
  - intros target f. unfold invalidate_target.
    by rewrite elem_of_filterb, negb_true_iff, bool_decide_eq_false.
Qed.
