(* ===== verification/Events.v ===== *)
(** * Events, checkpoints and metrics (agent/event.rs, agent/checkpoint.rs,
    agent/metrics.rs)

    The closed event type of a run with its stable names, the resume point, and
    the counters of one run, which saturate at their machine width. *)
From S2P Require Import Prelude Str RunState.

(** ** The event contract *)
Inductive AgentEvent :=
  | RunCreated | RunStarted | RunResumed | RunPaused | RunCancelled | RunCompleted
  | RunFailed (error_code : str)
  | UserMessageAdded (content : str)
  | AssistantMessageAdded (content : str)
  | ReasoningStarted
  | ProgressUpdated (summary : str)
  | ToolRequested (tool_call_id : Uuid) (tool_name : str)
  | ToolAutoAuthorized (tool_call_id : Uuid)
  | ToolApprovalRequired (tool_call_id : Uuid)
  | ToolStarted (tool_call_id : Uuid)
  | ToolOutputChunk (tool_call_id : Uuid) (chunk : str)
  | ToolCompleted (tool_call_id : Uuid)
  | ToolFailed (tool_call_id : Uuid) (error_code : str)
  | CommandProposed (command_id : Uuid) (command reason risk mutability : str)
  | CommandApprovalRequired (approval_id command_id : Uuid)
  | CommandStarted (command_id : Uuid)
  | CommandCompleted (command_id : Uuid) (exit_code : option N) (output_preview : str)
      (duration_ms : N)
  | CommandFailed (command_id : Uuid) (exit_code : option N) (output_preview error_code : str)
      (duration_ms : N)
  | CommandAnalysisUpdated (command_id : Uuid) (summary : str)
  | ObservationAdded (summary : str)
  | FactsUpdated (fact_keys : list str)
  | UserInputRequired (question : str)
  | UserInputReceived
  | ApprovalGranted (approval_id : Uuid)
  | ApprovalRejected (approval_id : Uuid)
  | ApprovalInvalidated (approval_id : Uuid) (reason_code : str)
  | DiagnosisUpdated (summary : str)
  | RootCauseIdentified (summary : str)
  | ChangeSetProposed (change_set_id : Uuid)
  | ChangeSetApproved (change_set_id : Uuid) (version : N)
  | ChangeSetExecutionStarted (change_set_id : Uuid)
  | ChangeSetExecutionCompleted (change_set_id : Uuid) (success : bool)
  | VerificationStarted
  | VerificationCompleted (success : bool)
  | RollbackStarted
  | RollbackCompleted (success : bool).
#[export] Instance agent_event_eq_dec : EqDecision AgentEvent.
Proof. solve_decision. Defined.

(** [AgentEvent::event_type]. *)
Definition event_type (e : AgentEvent) : str :=
  lit match e with
  | RunCreated => "run_created" | RunStarted => "run_started" | RunResumed => "run_resumed"
  | RunPaused => "run_paused" | RunCancelled => "run_cancelled" | RunCompleted => "run_completed"
  | RunFailed _ => "run_failed"
  | UserMessageAdded _ => "user_message_added"
  | AssistantMessageAdded _ => "assistant_message_added"
  | ReasoningStarted => "reasoning_started"
  | ProgressUpdated _ => "progress_updated"
  | ToolRequested _ _ => "tool_requested"
  | ToolAutoAuthorized _ => "tool_auto_authorized"
  | ToolApprovalRequired _ => "tool_approval_required"
  | ToolStarted _ => "tool_started"
  | ToolOutputChunk _ _ => "tool_output_chunk"
  | ToolCompleted _ => "tool_completed"
  | ToolFailed _ _ => "tool_failed"
  | CommandProposed _ _ _ _ _ => "command_proposed"
  | CommandApprovalRequired _ _ => "command_approval_required"
  | CommandStarted _ => "command_started"
  | CommandCompleted _ _ _ _ => "command_completed"
  | CommandFailed _ _ _ _ _ => "command_failed"
  | CommandAnalysisUpdated _ _ => "command_analysis_updated"
  | ObservationAdded _ => "observation_added"
  | FactsUpdated _ => "facts_updated"
  | UserInputRequired _ => "user_input_required"
  | UserInputReceived => "user_input_received"
  | ApprovalGranted _ => "approval_granted"
  | ApprovalRejected _ => "approval_rejected"
  | ApprovalInvalidated _ _ => "approval_invalidated"
  | DiagnosisUpdated _ => "diagnosis_updated"
  | RootCauseIdentified _ => "root_cause_identified"
  | ChangeSetProposed _ => "change_set_proposed"
  | ChangeSetApproved _ _ => "change_set_approved"
  | ChangeSetExecutionStarted _ => "change_set_execution_started"
  | ChangeSetExecutionCompleted _ _ => "change_set_execution_completed"
  | VerificationStarted => "verification_started"
  | VerificationCompleted _ => "verification_completed"
  | RollbackStarted => "rollback_started"
  | RollbackCompleted _ => "rollback_completed"
  end%string.

Record AgentEventEnvelope := {
  ev_run_id : Uuid;
  ev_seq : N;
  ev_timestamp_epoch_ms : N;
  ev_event : AgentEvent;
}.
#[export] Instance envelope_eq_dec : EqDecision AgentEventEnvelope.
Proof. solve_decision. Defined.

(** ** Checkpoints *)
Inductive PendingInterruptRef :=
  | ApprovalRef (approval_id : Uuid)
  | UserInputRef (question : str).
#[export] Instance pending_interrupt_eq_dec : EqDecision PendingInterruptRef.
Proof. solve_decision. Defined.

Record BudgetCheckpoint := {
  bc_rounds_used : N;
  bc_tool_calls_used : N;
  bc_elapsed_ms : N;
}.
#[export] Instance budget_checkpoint_eq_dec : EqDecision BudgetCheckpoint.
Proof. solve_decision. Defined.

(** The working facts a checkpoint carries are kept as its text,
    [fact_snapshot], the JSON array of [WorkingFactSet::snapshot_json]. *)
Record AgentCheckpoint := {
  cp_run_id : Uuid;
  cp_state : AgentRunStateV2;
  cp_event_cursor : N;
  cp_pending_interrupt : option PendingInterruptRef;
  cp_budget : BudgetCheckpoint;
  cp_target_ids : list Uuid;
  cp_fact_snapshot : str;
  cp_created_at_epoch_ms : N;
}.
#[export] Instance checkpoint_eq_dec : EqDecision AgentCheckpoint.
Proof. solve_decision. Defined.

(** ** Metrics *)
Record RunMetrics := {
  m_run_id : Uuid;
  m_reasoner_rounds : N;
  m_model_calls : N;
  m_tool_calls : N;
  m_auto_authorized_tools : N;
  m_approval_interrupts : N;
  m_rejections : N;
  m_tool_failures : N;
  m_recovery_attempts : N;
  m_context_tokens : N;
  m_artifact_bytes : N;
  m_time_to_first_observation_ms : option N;
  m_time_to_diagnosis_ms : option N;
  m_time_to_resolution_ms : option N;
  m_verification_result : option bool;
  m_rollback_result : option bool;
}.

Definition metrics_new (run_id : Uuid) : RunMetrics :=
  {| m_run_id := run_id; m_reasoner_rounds := 0; m_model_calls := 0; m_tool_calls := 0;
     m_auto_authorized_tools := 0; m_approval_interrupts := 0; m_rejections := 0;
     m_tool_failures := 0; m_recovery_attempts := 0; m_context_tokens := 0; m_artifact_bytes := 0;
     m_time_to_first_observation_ms := None; m_time_to_diagnosis_ms := None;
     m_time_to_resolution_ms := None; m_verification_result := None; m_rollback_result := None |}.

(** The eleven counters, as one operation each on a record with a hole. *)
Definition with_counts (f : N -> N) (m : RunMetrics)
    (rounds models tools autos interrupts rejects failures recoveries : bool)
    (tokens bytes : N) : RunMetrics :=
  let bump (b : bool) (n : N) := if b then f n else n in
  {| m_run_id := m_run_id m;
     m_reasoner_rounds := bump rounds (m_reasoner_rounds m);
     m_model_calls := bump models (m_model_calls m);
     m_tool_calls := bump tools (m_tool_calls m);
     m_auto_authorized_tools := bump autos (m_auto_authorized_tools m);
     m_approval_interrupts := bump interrupts (m_approval_interrupts m);
     m_rejections := bump rejects (m_rejections m);
     m_tool_failures := bump failures (m_tool_failures m);
     m_recovery_attempts := bump recoveries (m_recovery_attempts m);
     m_context_tokens := tokens;
     m_artifact_bytes := bytes;
     m_time_to_first_observation_ms := m_time_to_first_observation_ms m;
     m_time_to_diagnosis_ms := m_time_to_diagnosis_ms m;
     m_time_to_resolution_ms := m_time_to_resolution_ms m;
     m_verification_result := m_verification_result m;
     m_rollback_result := m_rollback_result m |}.
Definition saturating_incr (n : N) : N := sat_add32 n 1.

Definition record_reasoner_round (context_tokens : N) (m : RunMetrics) : RunMetrics :=
  with_counts saturating_incr m true true false false false false false false
    (N.max (m_context_tokens m) context_tokens) (m_artifact_bytes m).
Definition record_tool_call (auto_authorized : bool) (m : RunMetrics) : RunMetrics :=
  with_counts saturating_incr m false false true auto_authorized false false false false
    (m_context_tokens m) (m_artifact_bytes m).
Definition record_approval_interrupt (m : RunMetrics) : RunMetrics :=
  with_counts saturating_incr m false false false false true false false false
    (m_context_tokens m) (m_artifact_bytes m).
Definition record_rejection (m : RunMetrics) : RunMetrics :=
  with_counts saturating_incr m false false false false false true false false
    (m_context_tokens m) (m_artifact_bytes m).
Definition record_tool_failure (m : RunMetrics) : RunMetrics :=
  with_counts saturating_incr m false false false false false false true false
    (m_context_tokens m) (m_artifact_bytes m).
Definition record_recovery_attempt (m : RunMetrics) : RunMetrics :=
  with_counts saturating_incr m false false false false false false false true
    (m_context_tokens m) (m_artifact_bytes m).
Definition record_artifact_bytes (bytes : N) (m : RunMetrics) : RunMetrics :=
  with_counts saturating_incr m false false false false false false false false
    (m_context_tokens m) (sat_add64 (m_artifact_bytes m) bytes).

(** The latencies and results: the first observation and the diagnosis are
    recorded once, the others are overwritten. *)
Definition with_times (m : RunMetrics) (first diagnosis resolution : option N)
    (verification rollback : option bool) : RunMetrics :=
  {| m_run_id := m_run_id m; m_reasoner_rounds := m_reasoner_rounds m;
     m_model_calls := m_model_calls m; m_tool_calls := m_tool_calls m;
     m_auto_authorized_tools := m_auto_authorized_tools m;
     m_approval_interrupts := m_approval_interrupts m; m_rejections := m_rejections m;
     m_tool_failures := m_tool_failures m; m_recovery_attempts := m_recovery_attempts m;
     m_context_tokens := m_context_tokens m; m_artifact_bytes := m_artifact_bytes m;
     m_time_to_first_observation_ms := first; m_time_to_diagnosis_ms := diagnosis;
     m_time_to_resolution_ms := resolution; m_verification_result := verification;
     m_rollback_result := rollback |}.

Definition maybe_record_first_observation (elapsed : N) (m : RunMetrics) : RunMetrics :=
  with_times m
    (match m_time_to_first_observation_ms m with None => Some elapsed | some => some end)
    (m_time_to_diagnosis_ms m) (m_time_to_resolution_ms m) (m_verification_result m)
    (m_rollback_result m).
Definition maybe_record_diagnosis (elapsed : N) (m : RunMetrics) : RunMetrics :=
  with_times m (m_time_to_first_observation_ms m)
    (match m_time_to_diagnosis_ms m with None => Some elapsed | some => some end)
    (m_time_to_resolution_ms m) (m_verification_result m) (m_rollback_result m).
Definition record_resolution (elapsed : N) (m : RunMetrics) : RunMetrics :=
  with_times m (m_time_to_first_observation_ms m) (m_time_to_diagnosis_ms m) (Some elapsed)
    (m_verification_result m) (m_rollback_result m).
Definition record_verification (success : bool) (m : RunMetrics) : RunMetrics :=
  with_times m (m_time_to_first_observation_ms m) (m_time_to_diagnosis_ms m)
    (m_time_to_resolution_ms m) (Some success) (m_rollback_result m).
Definition record_rollback (success : bool) (m : RunMetrics) : RunMetrics :=
  with_times m (m_time_to_first_observation_ms m) (m_time_to_diagnosis_ms m)
    (m_time_to_resolution_ms m) (m_verification_result m) (Some success).

(** Every operation of the metrics, for statements about all of them. *)
Inductive metric_op :=
  | MReasonerRound (context_tokens : N) | MToolCall (auto_authorized : bool)
  | MApprovalInterrupt | MRejection | MToolFailure | MRecoveryAttempt
  | MArtifactBytes (bytes : N) | MFirstObservation (elapsed : N) | MDiagnosis (elapsed : N)
  | MResolution (elapsed : N) | MVerification (success : bool) | MRollback (success : bool).

Definition apply_metric (o : metric_op) : RunMetrics -> RunMetrics :=
  match o with
  | MReasonerRound t => record_reasoner_round t
  | MToolCall a => record_tool_call a
  | MApprovalInterrupt => record_approval_interrupt
  | MRejection => record_rejection
  | MToolFailure => record_tool_failure
  | MRecoveryAttempt => record_recovery_attempt
  | MArtifactBytes b => record_artifact_bytes b
  | MFirstObservation e => maybe_record_first_observation e
  | MDiagnosis e => maybe_record_diagnosis e
  | MResolution e => record_resolution e
  | MVerification s => record_verification s
  | MRollback s => record_rollback s
  end.

(** The counters of a record, in the order of its fields. *)
Definition counters (m : RunMetrics) : list N :=
  [m_reasoner_rounds m; m_model_calls m; m_tool_calls m; m_auto_authorized_tools m;
   m_approval_interrupts m; m_rejections m; m_tool_failures m; m_recovery_attempts m;
   m_context_tokens m].

(** The argument of an operation fits the type it has in the code. *)
Definition metric_op_fits (o : metric_op) : Prop :=
  match o with
  | MReasonerRound t => (t <= U32_MAX)%N
  | MArtifactBytes b | MFirstObservation b | MDiagnosis b | MResolution b => (b <= U64_MAX)%N
  | _ => True
  end.

Definition metrics_fit (m : RunMetrics) : Prop :=
  Forall (fun n => (n <= U32_MAX)%N) (counters m) /\ (m_artifact_bytes m <= U64_MAX)%N.

(** A metric that, once recorded, a run keeps. *)
Definition keeps {A} (before after : option A) : Prop := before <> None -> after = before.

(** ** Lemmas *)
Lemma saturating_incr_bounds n :
  (n <= U32_MAX)%N -> (n <= saturating_incr n <= U32_MAX)%N.
Proof. unfold saturating_incr, sat_add32, sat_add. lia. Qed.

(** What one operation does to a record. *)
Definition metric_step (m m' : RunMetrics) : Prop :=
  metrics_fit m' /\ Forall2 N.le (counters m) (counters m') /\
  (m_artifact_bytes m <= m_artifact_bytes m')%N /\
  ((m_auto_authorized_tools m <= m_tool_calls m)%N ->
   (m_auto_authorized_tools m' <= m_tool_calls m')%N) /\
  keeps (m_time_to_first_observation_ms m) (m_time_to_first_observation_ms m') /\
  keeps (m_time_to_diagnosis_ms m) (m_time_to_diagnosis_ms m') /\
  m_run_id m' = m_run_id m.

Lemma metric_step_refl m : metrics_fit m -> metric_step m m.
Proof.
  intros Hf. unfold metric_step, keeps. split; [exact Hf|].
  split; [|by split_and!]. unfold counters. repeat constructor; lia.
Qed.

Lemma metric_step_trans a b c : metric_step a b -> metric_step b c -> metric_step a c.
Proof.
  unfold metric_step, keeps. intros (F1 & C1 & B1 & A1 & O1 & D1 & I1) (F2 & C2 & B2 & A2 & O2 & D2 & I2).
  split_and!; [done|by etrans; [exact C1|exact C2]|lia|auto| | |congruence].
  - intros Hn. rewrite O2; [by apply O1|]. by rewrite O1.
  - intros Hn. rewrite D2; [by apply D1|]. by rewrite D1.
Qed.

Lemma apply_metric_step o m : metrics_fit m -> metric_op_fits o -> metric_step m (apply_metric o m).
Proof.
  intros [Hc Hb] Ho. unfold counters in Hc.
  repeat match goal with H : Forall _ (_ :: _) |- _ => apply Forall_cons in H as [? H] end.
  unfold metric_step, metrics_fit, counters, keeps.
  destruct o as [t|[]| | | | |b|e|e|e|s|s]; cbn in Ho |- *;
    unfold saturating_incr, sat_add32, sat_add64, sat_add;
    split_and!; repeat (apply Forall_cons_2 || apply Forall2_cons_2 || apply Forall_nil_2 || apply Forall2_nil_2);
    try done; try lia; by destruct (m_time_to_first_observation_ms m), (m_time_to_diagnosis_ms m).
Qed.

(** ** Properties *)

(** The metrics under any sequence of operations: no counter leaves the
    width of its type, no counter and no byte total ever decreases, every
    auto-authorised call is counted as a call, and the first observation and
    the diagnosis time, once recorded, are never overwritten. *)
Theorem metrics_monotone_and_bounded (ops : list metric_op) (m : RunMetrics) :
  metrics_fit m -> Forall metric_op_fits ops ->
  let m' := foldl (fun m o => apply_metric o m) m ops in
  metrics_fit m' /\
  Forall2 N.le (counters m) (counters m') /\
  (m_artifact_bytes m <= m_artifact_bytes m')%N /\
  ((m_auto_authorized_tools m <= m_tool_calls m)%N ->
   (m_auto_authorized_tools m' <= m_tool_calls m')%N) /\
  keeps (m_time_to_first_observation_ms m) (m_time_to_first_observation_ms m') /\
  keeps (m_time_to_diagnosis_ms m) (m_time_to_diagnosis_ms m') /\
  m_run_id m' = m_run_id m.
Proof.
  intros Hf Ho. change (metric_step m (foldl (fun m o => apply_metric o m) m ops)).
  revert m Hf. induction Ho as [|o ops Ho _ IH]; intros m Hf; cbn; [by apply metric_step_refl|].
  pose proof (apply_metric_step o m Hf Ho) as Hs.
  apply (metric_step_trans _ _ _ Hs), IH, Hs.
Qed.

Lemma metrics_monotone_and_bounded_witness :
  let m := metrics_new 7 in
  let ops := [MReasonerRound 512; MToolCall true; MFirstObservation 42; MFirstObservation 90] in
  let m' := foldl (fun m o => apply_metric o m) m ops in
  metrics_fit m' /\ m_time_to_first_observation_ms m' = Some 42%N.
Proof.
  intros m ops m'.
  assert (metrics_fit m) as Hf by (split; [repeat constructor; by vm_compute|by vm_compute]).
  assert (Forall metric_op_fits ops) as Ho by (repeat constructor; by vm_compute).
  split; [exact (proj1 (metrics_monotone_and_bounded ops m Hf Ho))|by vm_compute].
Defined.
