(* ===== verification/Cache.v ===== *)
(** * The observation cache (agentic/optimization.rs)

    Results of read tools by target and invocation, with a time to live per
    tool and a bound on the entries.  Writes have no key, so they are never
    cached.  The order in which a [HashMap] iterates is a parameter. *)
From S2P Require Import Prelude Str RunState Context Tools Externals Evidence.

Definition MAX_CACHE_ENTRIES : nat := N.to_nat 2048.

Record CacheEntry := {
  ce_target_id : Uuid;
  ce_observed_at_epoch_ms : N;
  ce_ttl_ms : N;
  ce_source : str;
  ce_result : ToolResult;
}.

Abbreviation entries := (gmap str CacheEntry).

(** The source a cached result must name. *)
Definition source_of (invocation : NativeToolInvocation) : str :=
  lit "tool." ++ tool_as_str (invocation_name invocation).

Definition entry_fresh (now : N) (e : CacheEntry) : bool :=
  is_fresh {| observed_at := ce_observed_at_epoch_ms e; ttl_ms := ce_ttl_ms e |} now.

(** The text after the target in [cache_key]; [None] for a write. *)
Definition cache_suffix (invocation : NativeToolInvocation) : option str :=
  match invocation with
  | InvSystemInfo => Some (lit "system.info")
  | InvSystemDisk => Some (lit "system.disk_usage")
  | InvServiceStatus service => Some (lit "service.status" ++ lit ":" ++ service)
  | InvServiceLogs service n =>
      Some (lit "service.logs" ++ lit ":" ++ service ++ lit ":" ++ dec n)
  | InvNetworkPortCheck host port =>
      Some (lit "network.port" ++ lit ":" ++ host ++ lit ":" ++ dec port)
  | InvHttpRequest url => Some (lit "http.request" ++ lit ":" ++ url)
  | InvNginxTest => Some (lit "nginx.test")
  | InvDnsResolve host => Some (lit "dns.resolve" ++ lit ":" ++ host)
  | InvTlsInspect host port =>
      Some (lit "tls.inspect" ++ lit ":" ++ host ++ lit ":" ++ dec port)
  | InvNetworkListeners => Some (lit "network.listeners")
  | InvProcessList => Some (lit "process.list")
  | InvFileInspect path => Some (lit "file.inspect" ++ lit ":" ++ path)
  | InvSystemDirectoryUsage path => Some (lit "system.du" ++ lit ":" ++ path)
  | InvSystemLargeFiles path minimum =>
      Some (lit "system.large" ++ lit ":" ++ path ++ lit ":" ++ dec minimum)
  | InvDockerList => Some (lit "docker.list")
  | InvDockerInspect container => Some (lit "docker.inspect" ++ lit ":" ++ container)
  | InvDockerLogs container n =>
      Some (lit "docker.logs" ++ lit ":" ++ container ++ lit ":" ++ dec n)
  | InvFilesystemInodeUsage => Some (lit "filesystem.inode_usage")
  | InvBlockDevicesList => Some (lit "block_devices.list")
  | InvTerminalExecReadonly command => Some (lit "terminal.exec_readonly" ++ lit ":" ++ command)
  | InvFilePatch _ _ _ | InvServiceRestart _ | InvServiceReload _ | InvNginxReload
  | InvDockerRestart _ => None
  end.

Definition cache_ttl_ms (invocation : NativeToolInvocation) : N :=
  match invocation with
  | InvServiceLogs _ _ | InvDockerLogs _ _ => 5000
  | InvHttpRequest _ | InvNetworkPortCheck _ _ | InvNginxTest => 10000
  | _ => 30000
  end.

Section Cache.
Context `{Externals}.
(** [HashMap::iter]. *)
Context (iter_order : entries -> list (str * CacheEntry)).

Definition cache_key (target_id : Uuid) (invocation : NativeToolInvocation) : option str :=
  suffix ← cache_suffix invocation; Some (uuid_display target_id ++ lit ":" ++ suffix).

(** [ObservationCache::get]: a stale or foreign entry is removed. *)
Definition cache_get (target_id : Uuid) (invocation : NativeToolInvocation) (now : N)
    (m : entries) : option ToolResult * entries :=
  match cache_key target_id invocation with
  | None => (None, m)
  | Some key =>
      match m !! key with
      | None => (None, m)
      | Some entry =>
          let fresh := (ce_target_id entry =? target_id)%N
                       && str_eqb (ce_source entry) (source_of invocation)
                       && entry_fresh now entry in
          if negb fresh then (None, delete key m) else (Some (ce_result entry), m)
      end
  end.

Definition new_entry (target_id : Uuid) (invocation : NativeToolInvocation) (observed : N)
    (result : ToolResult) : CacheEntry :=
  {| ce_target_id := target_id; ce_observed_at_epoch_ms := observed;
     ce_ttl_ms := cache_ttl_ms invocation; ce_source := source_of invocation;
     ce_result := result |}.

(** The eviction of [put]: the oldest entry, when the cache is full. *)
Definition evict_oldest (key : str) (m : entries) : entries :=
  if (MAX_CACHE_ENTRIES <=? size m)%nat && bool_decide (m !! key = None) then
    match min_by_key (fun kv => ce_observed_at_epoch_ms kv.2) (iter_order m) with
    | Some (oldest, _) => delete oldest m
    | None => m
    end
  else m.

(** [ObservationCache::put]. *)
Definition cache_put (target_id : Uuid) (invocation : NativeToolInvocation) (observed : N)
    (result : ToolResult) (m : entries) : entries :=
  match cache_key target_id invocation with
  | None => m
  | Some key =>
      let m := filter (fun kv => entry_fresh observed kv.2 = true) m in
      <[key := new_entry target_id invocation observed result]> (evict_oldest key m)
  end.

Definition cache_invalidate_target (target_id : Uuid) (m : entries) : nat * entries :=
  let m' := filter (fun kv => ce_target_id kv.2 <> target_id) m in
  ((size m - size m')%nat, m').

(** ** Every use of the cache, as a sequence of operations *)
Inductive cache_op :=
  | CGet (target_id : Uuid) (invocation : NativeToolInvocation) (now : N)
  | CPut (target_id : Uuid) (invocation : NativeToolInvocation) (observed : N) (r : ToolResult)
  | CInvalidate (target_id : Uuid).

Definition apply_cache (o : cache_op) (m : entries) : entries :=
  match o with
  | CGet t i now => (cache_get t i now m).2
  | CPut t i at_ r => cache_put t i at_ r m
  | CInvalidate t => (cache_invalidate_target t m).2
  end.

Definition run_cache (ops : list cache_op) : entries :=
  foldl (fun m o => apply_cache o m) ∅ ops.
End Cache.

(** ** Lemmas *)

(** The part of a key before its first colon names the tool. *)
Definition cache_tag (invocation : NativeToolInvocation) : string :=
  match invocation with
  | InvSystemInfo => "system.info" | InvSystemDisk => "system.disk_usage"
  | InvServiceStatus _ => "service.status" | InvServiceLogs _ _ => "service.logs"
  | InvNetworkPortCheck _ _ => "network.port" | InvHttpRequest _ => "http.request"
  | InvNginxTest => "nginx.test" | InvDnsResolve _ => "dns.resolve"
  | InvTlsInspect _ _ => "tls.inspect" | InvNetworkListeners => "network.listeners"
  | InvProcessList => "process.list" | InvFileInspect _ => "file.inspect"
  | InvSystemDirectoryUsage _ => "system.du" | InvSystemLargeFiles _ _ => "system.large"
  | InvDockerList => "docker.list" | InvDockerInspect _ => "docker.inspect"
  | InvDockerLogs _ _ => "docker.logs" | InvFilesystemInodeUsage => "filesystem.inode_usage"
  | InvBlockDevicesList => "block_devices.list"
  | InvTerminalExecReadonly _ => "terminal.exec_readonly"
  | _ => ""
  end%string.

(** The part after it, when there is one. *)
Definition cache_args (invocation : NativeToolInvocation) : option str :=
  match invocation with
  | InvServiceStatus s | InvHttpRequest s | InvDnsResolve s | InvFileInspect s
  | InvSystemDirectoryUsage s | InvDockerInspect s | InvTerminalExecReadonly s => Some s
  | InvServiceLogs s n | InvNetworkPortCheck s n | InvTlsInspect s n | InvSystemLargeFiles s n
  | InvDockerLogs s n => Some (s ++ lit ":" ++ dec n)
  | _ => None
  end.

Definition no_colon (s : str) : bool := forallb (fun c => negb (58 =? c)%N) s.

Arguments no_colon : simpl never.
Lemma no_colon_cons c s : no_colon (c :: s) = true -> c <> 58%N /\ no_colon s = true.
Proof.
  intros [Hc Hs]%andb_true_iff. split; [|done]. intros ->. by vm_compute in Hc.
Qed.

Lemma cache_tag_plain i : no_colon (lit (cache_tag i)) = true /\ ascii_only (cache_tag i) = true.
Proof. by destruct i. Qed.

Lemma cache_suffix_shape i s :
  cache_suffix i = Some s ->
  s = lit (cache_tag i) ++ match cache_args i with Some a => 58%N :: a | None => [] end.
Proof. destruct i; cbn; try done; intros [= <-]; by rewrite ?app_nil_r. Qed.

Lemma colon_split_eq a b x y :
  no_colon a = true -> no_colon b = true ->
  a ++ match x with Some s => 58%N :: s | None => [] end
  = b ++ match y with Some s => 58%N :: s | None => [] end ->
  a = b /\ x = y.
Proof.
  revert b. induction a as [|c a IH]; intros [|d b]; cbn.
  - destruct x, y; intros _ _ [=]; by subst.
  - intros _ [Hd _]%no_colon_cons E. destruct x; congruence.
  - intros [Hc _]%no_colon_cons _ E. destruct y; congruence.
  - intros [_ Ha]%no_colon_cons [_ Hb]%no_colon_cons [= -> E].
    by destruct (IH b Ha Hb E) as [-> ->].
Qed.

Lemma number_tail_eq s n s' n' :
  s ++ lit ":" ++ dec n = s' ++ lit ":" ++ dec n' -> s = s' /\ n = n'.
Proof.
  intros E.
  assert (forall k, 58%N ∉ dec k) as Hd by (intros k Hk%dec_digits; done).
  pose proof (rsplit_once_sep s 58%N (dec n) (Hd n)) as H1.
  pose proof (rsplit_once_sep s' 58%N (dec n') (Hd n')) as H2.
  change (lit ":") with [58%N] in E. cbn [app] in E. rewrite E, H2 in H1.
  injection H1 as -> En. by apply (inj dec) in En as ->.
Qed.

Lemma cache_suffix_inj i j s : cache_suffix i = Some s -> cache_suffix j = Some s -> i = j.
Proof.
  intros Hi Hj. pose proof (cache_suffix_shape _ _ Hi) as Ei.
  pose proof (cache_suffix_shape _ _ Hj) as Ej. rewrite Ei in Ej.
  apply colon_split_eq in Ej as [Ht Ha]; try apply cache_tag_plain.
  apply lit_inj in Ht; try apply cache_tag_plain.
  destruct i, j; try discriminate Ht; try discriminate Hi; try done;
    cbn in Ha; injection Ha as Ha; try (by subst); by apply number_tail_eq in Ha as [-> ->].
Qed.

Lemma uuid_no_colon `{ExternalLaws} t : no_colon (uuid_display t) = true.
Proof.
  apply Forallb_forall. intros c Hc. destruct (uuid_display_chars _ _ Hc) as [Hx| ->]; [|done].
  apply negb_true_iff, N.eqb_neq. by intros <-.
Qed.

Lemma cache_key_inj `{ExternalLaws} t i t' i' k :
  cache_key t i = Some k -> cache_key t' i' = Some k -> t = t' /\ i = i'.
Proof.
  unfold cache_key. destruct (cache_suffix i) as [s|] eqn:Hi; cbn; [|done]. intros [= <-].
  destruct (cache_suffix i') as [s'|] eqn:Hj; cbn; [|done].
  change (lit ":") with [58%N]. cbn [app]. intros [= E].
  apply (colon_split_eq _ _ (Some s') (Some s)) in E as [Ht Hs]; try apply uuid_no_colon.
  apply uuid_display_inj in Ht as ->. injection Hs as ->. split; [done|].
  by eapply cache_suffix_inj.
Qed.

(** Operations that leave what was put for a target and an invocation valid. *)
Definition leaves_valid (t : Uuid) (i : NativeToolInvocation) (o : cache_op) : Prop :=
  match o with
  | CGet _ _ _ => True
  | CPut t' i' _ _ => ~ (t' = t /\ i' = i)
  | CInvalidate t' => t' <> t
  end.

(** The operation whose result an entry holds: the last put of its key. *)
Definition put_by `{Externals} (ops : list cache_op) (k : str) (e : CacheEntry) : Prop :=
  exists t i observed r pre post,
    ops = pre ++ CPut t i observed r :: post /\ cache_key t i = Some k /\
    e = new_entry t i observed r /\ Forall (leaves_valid t i) post.

Lemma put_by_snoc `{Externals} ops o k e :
  put_by ops k e ->
  (forall t i, cache_key t i = Some k -> ce_target_id e = t -> leaves_valid t i o) ->
  put_by (ops ++ [o]) k e.
Proof.
  intros (t & i & at_ & r & pre & post & -> & Hk & -> & Hp) Ho.
  exists t, i, at_, r, pre, (post ++ [o]). rewrite <- (assoc_L (++)). split_and!; try done.
  apply Forall_app. split; [done|]. apply Forall_singleton. by apply Ho.
Qed.

Section CacheInvariant.
Context `{ExternalLaws}.
Context (iter_order : entries -> list (str * CacheEntry)).
Context (iter_order_perm : forall m, iter_order m ≡ₚ map_to_list m).

Lemma evict_oldest_sub (key : str) (m : entries) : evict_oldest iter_order key m ⊆ m.
Proof.
  unfold evict_oldest. destruct (_ && _); [|done].
  destruct (min_by_key _ _) as [[oldest ?]|]; [|done]. apply delete_subseteq.
Qed.

Lemma evict_oldest_room (key : str) (m : entries) (e : CacheEntry) :
  (size m <= MAX_CACHE_ENTRIES)%nat ->
  (size (<[key := e]> (evict_oldest iter_order key m)) <= MAX_CACHE_ENTRIES)%nat.
Proof.
  intros Hm. rewrite map_size_insert. unfold evict_oldest.
  destruct (MAX_CACHE_ENTRIES <=? size m)%nat eqn:Ef; cbn [andb].
  2: { apply Nat.leb_gt in Ef. destruct (m !! key); cbn; lia. }
  case_bool_decide as Hk; cbn [andb]; [|destruct (m !! key); [cbn; lia|done]].
  destruct (min_by_key _ _) as [[oldest e']|] eqn:Emin.
  - apply min_by_key_some in Emin as [Hin _]. rewrite iter_order_perm in Hin.
    apply elem_of_map_to_list in Hin. rewrite lookup_delete_ne by congruence. rewrite Hk.
    rewrite map_size_delete_Some by done.
    assert (size m <> 0)%nat by (intros Z%map_size_empty_inv; by subst). cbn. lia.
  - apply min_by_key_none in Emin. pose proof (iter_order_perm m) as P.
    rewrite Emin in P. apply Permutation_nil_l in P. symmetry in P.
    apply map_to_list_empty_iff in P. subst m.
    by vm_compute in Ef.
Qed.

Lemma run_cache_inv ops :
  (size (run_cache iter_order ops) <= MAX_CACHE_ENTRIES)%nat /\
  map_Forall (put_by ops) (run_cache iter_order ops).
Proof.
  induction ops as [|o ops [Hs Hp]] using rev_ind.
  { split; [|apply map_Forall_empty]. unfold run_cache. cbn. rewrite map_size_empty. lia. }
  unfold run_cache in *. rewrite foldl_app. cbn [foldl].
  set (m := foldl _ ∅ ops) in *. clearbody m.
  assert (forall m', m' ⊆ m ->
            (forall k e, m' !! k = Some e -> forall t i, cache_key t i = Some k ->
               ce_target_id e = t -> leaves_valid t i o) ->
            (size m' <= MAX_CACHE_ENTRIES)%nat /\ map_Forall (put_by (ops ++ [o])) m') as Hsub.
  { intros m' Hm' Hv. split; [by etrans; [apply map_subseteq_size|]|].
    intros k e He. apply put_by_snoc; [|by apply Hv]. apply Hp. by eapply lookup_weaken. }
  destruct o as [t i now|t i at_ r|t]; cbn [apply_cache].
  - apply Hsub; [|done]. unfold cache_get. destruct (cache_key t i); [|done].
    destruct (m !! _); [|done]. destruct (negb _); [apply delete_subseteq|done].
  - unfold cache_put. destruct (cache_key t i) as [key|] eqn:Ek.
    2: { apply Hsub; [done|]. intros k e He t' i' Hk' _ [-> ->]. congruence. }
    set (m' := filter _ m).
    assert (m' ⊆ m) as Hm' by apply map_filter_subseteq.
    split.
    + apply evict_oldest_room. etrans; [by apply map_subseteq_size|done].
    + intros k e. rewrite lookup_insert. case_decide as Hk.
      * intros [= <-]. subst k. exists t, i, at_, r, ops, []. by split_and!.
      * intros He. apply put_by_snoc.
        -- apply Hp. eapply lookup_weaken; [|exact Hm']. eapply lookup_weaken; [done|].
           apply evict_oldest_sub.
        -- intros t' i' Hk' _ [-> ->]. congruence.
  - apply Hsub; [apply map_filter_subseteq|].
    intros k e He t' i' _ <- ->. apply map_lookup_filter_Some in He. tauto.
Qed.
End CacheInvariant.

(** ** Properties *)

(** Cache keys are faithful: whatever the arguments contain, two queries
    share a key only when they name the same target and are the same
    invocation, arguments included; and exactly the invocations of tools whose
    catalogue entry says they only read have a key, so no write is ever
    cached. *)
Theorem cache_key_identifies_query `{ExternalLaws} t i t' i' k :
  (cache_key t i = Some k -> cache_key t' i' = Some k -> t' = t /\ i' = i) /\
  (is_Some (cache_key t i) <->
   td_mutability <$> find_descriptor (invocation_name i) = Some Read).
Proof.
  split.
  - intros Hk Hk'. by destruct (cache_key_inj _ _ _ _ _ Hk' Hk).
  - unfold cache_key. split; intros Hx.
    + destruct i; first [by clear Hx; vm_compute | by destruct Hx].
    + destruct i; first [exact (mk_is_Some _ _ eq_refl) | by vm_compute in Hx].
Qed.

(** The cache over any history of uses: it never exceeds its bound, and a
    hit returns the result of the last [put] for exactly that target and
    invocation, no older than its time to live, and not put before the
    target was last invalidated. *)
Theorem observation_cache_sound `{ExternalLaws} iter_order ops t i now r :
  (forall m, iter_order m ≡ₚ map_to_list m) ->
  let m := run_cache iter_order ops in
  (size m <= MAX_CACHE_ENTRIES)%nat /\
  ((cache_get t i now m).1 = Some r ->
   exists observed pre post,
     ops = pre ++ CPut t i observed r :: post /\ Forall (leaves_valid t i) post /\
     (now <= observed + cache_ttl_ms i)%N /\ (cache_ttl_ms i <= 30000)%N).
Proof.
  intros Hp m. destruct (run_cache_inv iter_order Hp ops) as [Hs Hall]. split; [done|].
  unfold cache_get. destruct (cache_key t i) as [k|] eqn:Hk; [|done].
  fold m in Hall. destruct (m !! k) as [e|] eqn:He; [|done].
  destruct (Hall k e He) as (t' & i' & at_ & r' & pre & post & Eo & Hk' & -> & Hv).
  destruct (cache_key_inj _ _ _ _ _ Hk Hk') as [<- <-].
  destruct (negb _) eqn:Hf; [done|]. cbn. intros [= <-].
  apply negb_false_iff in Hf. apply andb_true_iff in Hf as [_ Hf].
  unfold entry_fresh, is_fresh, sat_sub in Hf. cbn in Hf. apply N.leb_le in Hf.
  exists at_, pre, post. split_and!; [done|done|lia|]. by destruct i.
Qed.

Lemma cache_key_identifies_query_witness :
  let k := @cache_key quoting_externals 7 (InvServiceLogs (lit "a:1") 20) in
  k = Some (lit "7:service.logs:a:1:20") /\
  forall i', @cache_key quoting_externals 7 i' = k -> i' = InvServiceLogs (lit "a:1") 20.
Proof.
  intros k. split; [by vm_compute|]. intros i' Hi.
  exact (proj2 (proj1 (@cache_key_identifies_query quoting_externals quoting_laws 7
    (InvServiceLogs (lit "a:1") 20) 7 i' (lit "7:service.logs:a:1:20")) ltac:(by vm_compute)
    ltac:(rewrite Hi; by vm_compute))).
Defined.

Definition sample_result (id : Uuid) : ToolResult :=
  tool_result_failure id SystemDisk (lit "EXEC_FAILED") 0 0.

Lemma observation_cache_sound_witness :
  let ops := [CPut 7 InvSystemDisk 1000 (sample_result 1); CInvalidate 8;
              CPut 7 InvSystemDisk 2000 (sample_result 2); CPut 7 InvNginxTest 2500 (sample_result 3)] in
  let m := @run_cache quoting_externals map_to_list ops in
  (@cache_get quoting_externals 7 InvSystemDisk 32000 m).1 = Some (sample_result 2) /\
  (@cache_get quoting_externals 7 InvSystemDisk 32001 m).1 = None /\
  exists observed pre post,
    ops = pre ++ CPut 7 InvSystemDisk observed (sample_result 2) :: post /\
    Forall (leaves_valid 7 InvSystemDisk) post /\
    (32000 <= observed + cache_ttl_ms InvSystemDisk)%N /\ (cache_ttl_ms InvSystemDisk <= 30000)%N.
Proof.
  intros ops m. split; [by vm_compute|]. split; [by vm_compute|].
  exact (proj2 (@observation_cache_sound quoting_externals quoting_laws map_to_list ops 7
    InvSystemDisk 32000 (sample_result 2) (fun m => Permutation_refl _)) ltac:(by vm_compute)).
Defined.
