(* ===== verification/Dispatch.v ===== *)
(** * Executing tools and commands (agent/dispatch.rs, agent/command.rs,
    agent/tool_error.rs)

    The outcome of a tool call and of an approved command, the batch that
    executes every distinct invocation once, and the reading of a terminal
    transcript as success or failure.  The SSH session, the tool service and
    the serialisation of a result's data are parameters. *)
From S2P Require Import Prelude Str RunState Context Tools Externals Decision Approval Evidence.
From S2P Require Import Cache.

(** ** Error vocabulary *)
Definition classify_tool_error (code : str) : str :=
  if str_in [lit "EXEC_FAILED"; lit "SFTP_NOT_FOUND"; lit "UNSUPPORTED_REMOTE"] code
  then lit "TOOL_EXECUTION_FAILED"
  else if str_in [lit "INVALID_OPERATION"; lit "MODEL_RESPONSE_INVALID"] code
  then lit "TOOL_INPUT_INVALID"
  else if str_in [lit "SESSION_NOT_FOUND"; lit "SESSION_DISCONNECTED"; lit "SSH_NOT_CONNECTED"] code
  then lit "TOOL_SESSION_UNAVAILABLE"
  else if str_eqb code (lit "TOOL_CANCELLED") then lit "TOOL_CANCELLED"
  else if str_in [lit "TOOL_RISK_CEILING_EXCEEDED"; lit "TOOL_POLICY_DENIED";
                  lit "AGENT_POLICY_DENIED"] code
  then lit "TOOL_POLICY_BLOCKED"
  else lit "TOOL_FAILED".

(** ** Tool outcomes *)
Record ToolOutcome := {
  to_tool_call_id : Uuid;
  to_tool_name : str;
  to_success : bool;
  to_summary : str;
  to_error_code : option str;
  to_duration_ms : N;
  to_cancelled : bool;
  to_from_cache : bool;
  to_untrusted_remote_data : bool;
  to_sanitized_data : option str;
  to_tool_result : option ToolResult;
}.

(** [serde_json::to_string] on the data of a result. *)
Abbreviation json_text := (ToolData -> option str).

Definition outcome_from_result (render : json_text) (call : PreparedToolCall) (result : ToolResult)
    (from_cache : bool) : ToolOutcome :=
  {| to_tool_call_id := tool_call_id call; to_tool_name := ptc_tool_name call;
     to_success := tr_success result; to_summary := tr_summary result;
     to_error_code := classify_tool_error <$> tr_error_code result;
     to_duration_ms := tr_duration_ms result; to_cancelled := tr_cancelled result;
     to_from_cache := from_cache; to_untrusted_remote_data := tr_untrusted_remote_data result;
     to_sanitized_data := (fun json => (redact_secrets json).1) <$> (tr_data result ≫= render);
     to_tool_result := if tr_success result then Some result else None |}.

Definition outcome_failure (call : PreparedToolCall) (error_code : str) : ToolOutcome :=
  {| to_tool_call_id := tool_call_id call; to_tool_name := ptc_tool_name call;
     to_success := false; to_summary := lit "tool execution failed";
     to_error_code := Some error_code; to_duration_ms := 0; to_cancelled := false;
     to_from_cache := false; to_untrusted_remote_data := false; to_sanitized_data := None;
     to_tool_result := None |}.

(** The copy a duplicate call receives. *)
Definition relabel (call : PreparedToolCall) (original : ToolOutcome) : ToolOutcome :=
  {| to_tool_call_id := tool_call_id call; to_tool_name := to_tool_name original;
     to_success := to_success original; to_summary := to_summary original;
     to_error_code := to_error_code original; to_duration_ms := to_duration_ms original;
     to_cancelled := to_cancelled original; to_from_cache := true;
     to_untrusted_remote_data := to_untrusted_remote_data original;
     to_sanitized_data := to_sanitized_data original;
     to_tool_result := to_tool_result original |}.

Section Dispatch.
Context `{Externals} (iter_order : entries -> list (str * CacheEntry)) (render : json_text).
(** [NativeToolExecutionService::execute]: the result, or an error's code. *)
Context (execute : PreparedToolCall -> result str ToolResult).

(** [NativeReadDispatcher::execute_one]. *)
Definition execute_one (target_id : Uuid) (call : PreparedToolCall) (now : N) (cache : entries) :
    ToolOutcome * entries :=
  let '(hit, cache) := cache_get target_id (ptc_invocation call) now cache in
  match hit with
  | Some cached => (outcome_from_result render call cached true, cache)
  | None =>
      match execute call with
      | Ok result =>
          (outcome_from_result render call result false,
           if tr_success result && negb (tr_cancelled result)
           then cache_put iter_order target_id (ptc_invocation call) now result cache else cache)
      | Err code => (outcome_failure call code, cache)
      end
  end.

(** The first loop of [execute_reads]: the indices to execute, and each
    duplicate with the index it repeats.  [first_by_key] is the [HashMap]. *)
Fixpoint plan_reads (index : nat) (calls : list PreparedToolCall) (first_by_key : gmap str nat) :
    list nat * list (nat * nat) :=
  match calls with
  | [] => ([], [])
  | call :: rest =>
      let key := invocation_debug (ptc_invocation call) in
      match first_by_key !! key with
      | Some source =>
          let '(unique, duplicates) := plan_reads (S index) rest first_by_key in
          (unique, (index, source) :: duplicates)
      | None =>
          let '(unique, duplicates) := plan_reads (S index) rest (<[key := index]> first_by_key) in
          (index :: unique, duplicates)
      end
  end.

(** [outcomes[index] = Some(outcome)] over the executed indices. *)
Definition place_executed (executed : list (nat * ToolOutcome))
    (outcomes : list (option ToolOutcome)) : list (option ToolOutcome) :=
  foldl (fun os io => <[io.1 := Some io.2]> os) outcomes executed.

Definition place_duplicates (calls : list PreparedToolCall) (duplicates : list (nat * nat))
    (outcomes : list (option ToolOutcome)) : list (option ToolOutcome) :=
  foldl (fun os ds =>
           match os !! ds.2, calls !! ds.1 with
           | Some (Some original), Some call => <[ds.1 := Some (relabel call original)]> os
           | _, _ => os
           end) outcomes duplicates.

(** [execute_reads], where [run] is what the joined executions return, one
    outcome for each index to execute. *)
Definition execute_reads (run : list PreparedToolCall -> list ToolOutcome)
    (calls : list PreparedToolCall) : list ToolOutcome :=
  let '(unique, duplicates) := plan_reads 0 calls ∅ in
  let executed := run (omap (fun index => calls !! index) unique) in
  let outcomes := place_executed (zip unique executed) (replicate (length calls) None) in
  omap id (place_duplicates calls duplicates outcomes).

(** The executions of one batch one after the other, on the shared cache. *)
Fixpoint execute_in_order (target_id : Uuid) (now : N) (calls : list PreparedToolCall)
    (cache : entries) : list ToolOutcome * entries :=
  match calls with
  | [] => ([], cache)
  | call :: rest =>
      let '(outcome, cache) := execute_one target_id call now cache in
      let '(outcomes, cache) := execute_in_order target_id now rest cache in
      (outcome :: outcomes, cache)
  end.
End Dispatch.

(** ** Approved commands *)
Definition COMMAND_EXIT_NON_ZERO : str := lit "COMMAND_EXIT_NON_ZERO".
Definition COMMAND_CANCELLED : str := lit "COMMAND_CANCELLED".
Definition COMMAND_TARGET_MISMATCH : str := lit "COMMAND_TARGET_MISMATCH".
Definition OBSERVATION_TEXT_LIMIT : N := 64 * 1024.

Record CommandOutcome := {
  co_command_id : Uuid;
  co_success : bool;
  co_exit_code : option N;
  co_stdout : str;
  co_stderr : str;
  co_error_code : option str;
  co_duration_ms : N;
  co_cancelled : bool;
}.

Definition command_failure (command_id : Uuid) (error_code : str) : CommandOutcome :=
  {| co_command_id := command_id; co_success := false; co_exit_code := None; co_stdout := [];
     co_stderr := []; co_error_code := Some error_code; co_duration_ms := 0;
     co_cancelled := false |}.

Definition bounded (value : str) : str := take (N.to_nat OBSERVATION_TEXT_LIMIT) value.

(** Whether the byte at an index is the given ASCII character. *)
Fixpoint byte_at_is (index : N) (ascii : chr) (s : str) : bool :=
  match s with
  | [] => false
  | c :: t =>
      if (index =? 0)%N then (c =? ascii)%N
      else if (index <? utf8_len c)%N then false else byte_at_is (index - utf8_len c) ascii t
  end.

Definition MONTHS : list str :=
  map lit ["Jan"; "Feb"; "Mar"; "Apr"; "May"; "Jun"; "Jul"; "Aug"; "Sep"; "Oct"; "Nov"; "Dec"]%string.

Definition line_starts_with_syslog_timestamp (line : str) : bool :=
  let parts := split_whitespace line in
  let part n := default [] (parts !! n) in
  if str_in MONTHS (part 0%nat) && forallb is_ascii_digit (part 1%nat)
     && contains (part 2%nat) (lit ":") then true
  else
    let head := take 10 line in
    (blen head =? 10)%N && byte_at_is 4 45 head && byte_at_is 7 45 head
    && forallb is_ascii_digit (List.filter (fun c => negb (c =? 45)%N) head).

Definition LOG_MARKERS : list str :=
  map lit ["sshd["; "systemd["; "kernel:"; " cron["; "sudo["; " failed password";
           " invalid user "]%string.

Definition looks_like_log_or_service_line (line : str) : bool :=
  contains_any (to_ascii_lowercase line) LOG_MARKERS || line_starts_with_syslog_timestamp line.

Definition line_looks_like_shell_failure (line : str) : bool :=
  let trimmed := trim line in
  if is_empty trimmed || looks_like_log_or_service_line trimmed then false else
  let lower := to_ascii_lowercase trimmed in
  if contains_any lower [lit "cannot be installed without"; lit "command not found";
                         lit "syntax error"] then true else
  if negb (contains_any lower [lit "no such file or directory"; lit "permission denied";
                               lit "operation not permitted"]) then false else
  if match split_once (N.eqb 58) trimmed with
     | Some (head, rest) =>
         let head := trim head in
         negb (is_empty head) && (blen head <=? 64)%N && negb (contains head (lit " "))
         && negb (is_empty (trim rest))
     | None => false
     end then true
  else str_eqb lower (lit "permission denied") || str_eqb lower (lit "operation not permitted")
       || starts_with lower (lit "permission denied:")
       || starts_with lower (lit "operation not permitted:").

Definition looks_like_shell_failure (value : str) : bool :=
  existsb line_looks_like_shell_failure (lines value).

(** What [execute_terminal_command] returns of the interactive terminal. *)
Record TerminalResult := { term_output : str; term_timed_out : bool }.

(** [AgentCommandExecutionService::execute]: [profile] is the target the
    session is bound to, [terminal] the transcript, or [None] when the
    cancellation is seen first. *)
Definition execute_command (cancelled : bool) (profile : result str Uuid) (target_id : Uuid)
    (command : PreparedCommandProposal) (terminal : option (result str TerminalResult))
    (duration_ms : N) : CommandOutcome :=
  let id := command_id command in
  let with_timing (c : bool) (o : CommandOutcome) :=
    {| co_command_id := co_command_id o; co_success := co_success o;
       co_exit_code := co_exit_code o; co_stdout := co_stdout o; co_stderr := co_stderr o;
       co_error_code := co_error_code o; co_duration_ms := duration_ms; co_cancelled := c |} in
  if cancelled then
    {| co_command_id := id; co_success := false; co_exit_code := None; co_stdout := [];
       co_stderr := []; co_error_code := Some COMMAND_CANCELLED; co_duration_ms := 0;
       co_cancelled := true |}
  else if negb match profile with Ok bound => (bound =? target_id)%N | Err _ => false end
  then command_failure id COMMAND_TARGET_MISMATCH
  else match terminal with
  | None => with_timing true (command_failure id COMMAND_CANCELLED)
  | Some (Ok r) =>
      let output := (redact_secrets (term_output r)).1 in
      let success := negb (term_timed_out r) && negb (looks_like_shell_failure output) in
      {| co_command_id := id; co_success := success; co_exit_code := None;
         co_stdout := bounded output; co_stderr := [];
         co_error_code :=
           if term_timed_out r then Some (lit "COMMAND_TERMINAL_TIMEOUT")
           else if success then None else Some COMMAND_EXIT_NON_ZERO;
         co_duration_ms := duration_ms; co_cancelled := false |}
  | Some (Err code) => with_timing false (command_failure id code)
  end.

(** ** Lemmas on batches *)

(** The index of the first call of an invocation. *)
Fixpoint first_with (inv : NativeToolInvocation) (calls : list PreparedToolCall) : option nat :=
  match calls with
  | [] => None
  | c :: rest => if decide (ptc_invocation c = inv) then Some 0%nat else S <$> first_with inv rest
  end.

Lemma first_with_app inv a b :
  first_with inv (a ++ b)
  = match first_with inv a with Some i => Some i | None => (Nat.add (length a)) <$> first_with inv b end.
Proof.
  induction a as [|c a IH]; cbn; [by destruct (first_with inv b)|].
  case_decide; [done|]. rewrite IH. by destruct (first_with inv a), (first_with inv b).
Qed.

Lemma first_with_some inv calls i :
  first_with inv calls = Some i ->
  exists c, calls !! i = Some c /\ ptc_invocation c = inv.
Proof.
  revert i. induction calls as [|c calls IH]; intros i; cbn; [done|].
  case_decide; [intros [= <-]; by exists c|].
  destruct (first_with inv calls); [|done]. intros [= <-]. by apply IH.
Qed.

Lemma first_with_none inv calls c :
  first_with inv calls = None -> c ∈ calls -> ptc_invocation c <> inv.
Proof.
  induction calls as [|d calls IH]; cbn; [by intros _ ?%not_elem_of_nil|].
  case_decide; [done|]. destruct (first_with inv calls); [done|].
  intros _ [->|]%elem_of_cons; auto.
Qed.

Lemma first_with_le inv calls i c :
  calls !! i = Some c -> ptc_invocation c = inv -> exists j, first_with inv calls = Some j /\ (j <= i)%nat.
Proof.
  revert i. induction calls as [|d calls IH]; intros [|i]; cbn; try done.
  - intros [= ->] <-. rewrite decide_True by done. eauto with lia.
  - intros Hi Hc. case_decide; [eauto with lia|]. destruct (IH i Hi Hc) as (j & -> & Hj).
    exists (S j). split; [done|lia].
Qed.

(** The index [i] of a batch is executed, or repeats an earlier one. *)
Definition planned (calls : list PreparedToolCall) (from : nat) (unique : list nat)
    (duplicates : list (nat * nat)) : Prop :=
  (forall i, i ∈ unique <->
     (from <= i)%nat /\ exists c, calls !! i = Some c /\ first_with (ptc_invocation c) calls = Some i) /\
  (forall i s, (i, s) ∈ duplicates <->
     (from <= i)%nat /\ exists c, calls !! i = Some c /\ first_with (ptc_invocation c) calls = Some s
                                  /\ s <> i) /\
  NoDup unique /\ NoDup (duplicates.*1).

Section Planning.
Context (pre suf : list PreparedToolCall) (call : PreparedToolCall).
Let inv := ptc_invocation call.
Let calls := pre ++ call :: suf.

Lemma first_with_here :
  calls !! length pre = Some call /\
  first_with inv calls = Some (default (length pre) (first_with inv pre)).
Proof.
  unfold calls, inv. split; [by apply list_lookup_middle|].
  rewrite first_with_app. destruct (first_with _ pre); [done|]. cbn.
  rewrite decide_True by done. cbn. f_equal. lia.
Qed.

Lemma first_with_snoc inv' :
  first_with inv' (pre ++ [call]) =
  match first_with inv' pre with
  | Some i => Some i
  | None => if decide (inv = inv') then Some (length pre) else None
  end.
Proof.
  rewrite first_with_app. cbn. destruct (first_with inv' pre); [done|].
  fold inv. case_decide; cbn; [f_equal; lia|done].
Qed.

Lemma planned_repeat source unique duplicates :
  first_with inv pre = Some source ->
  planned calls (S (length pre)) unique duplicates ->
  planned calls (length pre) unique ((length pre, source) :: duplicates).
Proof.
  intros Es (H1 & H2 & H3 & H4). destruct first_with_here as [Hat Hfirst].
  rewrite Es in Hfirst. cbn in Hfirst.
  assert (source < length pre)%nat as Hs.
  { apply first_with_some in Es as (c & Hc & _). by eapply lookup_lt_Some. }
  split_and!; [| |done|].
  - intros i. rewrite H1. split; [intros [? ?]; split; [lia|done]|].
    intros (Hi & c & Hc & Hf). split; [|eauto].
    destruct (decide (i = length pre)) as [->|]; [|lia].
    rewrite Hat in Hc. injection Hc as <-. fold inv in Hf. rewrite Hfirst in Hf. injection Hf. lia.
  - intros i s. rewrite elem_of_cons, H2. split.
    + intros [[= -> ->]|(Hi & Hc)]; [|split; [lia|done]]. split; [lia|].
      exists call. split_and!; [done|done|lia].
    + intros (Hi & c & Hc & Hf & Hne).
      destruct (decide (i = length pre)) as [->|]; [|right; split; [lia|eauto]].
      left. rewrite Hat in Hc. injection Hc as <-. fold inv in Hf. congruence.
  - cbn. apply NoDup_cons. split; [|done]. rewrite list_elem_of_fmap.
    intros ([i s] & Ei & Hin). cbn in Ei. subst i. apply H2 in Hin as [? _]. lia.
Qed.

Lemma planned_new unique duplicates :
  first_with inv pre = None ->
  planned calls (S (length pre)) unique duplicates ->
  planned calls (length pre) (length pre :: unique) duplicates.
Proof.
  intros Es (H1 & H2 & H3 & H4). destruct first_with_here as [Hat Hfirst].
  rewrite Es in Hfirst. cbn in Hfirst. split_and!; [| | |done].
  - intros i. rewrite elem_of_cons, H1. split.
    + intros [->|[? ?]]; [|split; [lia|done]]. split; [lia|eauto].
    + intros (Hi & c & Hc & Hf). destruct (decide (i = length pre)) as [->|]; [by left|].
      right. split; [lia|eauto].
  - intros i s. rewrite H2. split; [intros [? ?]; split; [lia|done]|].
    intros (Hi & c & Hc & Hf & Hne). split; [|eauto].
    destruct (decide (i = length pre)) as [->|]; [|lia].
    rewrite Hat in Hc. injection Hc as <-. fold inv in Hf. congruence.
  - apply NoDup_cons. split; [|done]. rewrite H1. intros [? _]. lia.
Qed.
End Planning.

Lemma plan_reads_spec `{ExternalLaws} (suf pre : list PreparedToolCall) (m : gmap str nat) :
  (forall inv, m !! invocation_debug inv = first_with inv pre) ->
  let '(unique, duplicates) := plan_reads (length pre) suf m in
  planned (pre ++ suf) (length pre) unique duplicates.
Proof.
  revert pre m. induction suf as [|call suf IH]; intros pre m Hm; cbn.
  { rewrite app_nil_r. split_and!; try constructor; intros Hx; try (by apply not_elem_of_nil in Hx);
      destruct Hx as (Hi & c & Hc & _); apply lookup_lt_Some in Hc; lia. }
  specialize (IH (pre ++ [call])). rewrite length_app, Nat.add_1_r, <- (assoc_L (++)) in IH.
  rewrite (Hm (ptc_invocation call)).
  destruct (first_with (ptc_invocation call) pre) as [source|] eqn:Es.
  - specialize (IH m). destruct (plan_reads _ suf m) as [unique duplicates].
    apply planned_repeat; [done|]. apply IH. intros inv. rewrite first_with_snoc, Hm.
    destruct (first_with inv pre) eqn:E; [done|]. rewrite decide_False; [done|].
    intros <-. congruence.
  - specialize (IH (<[invocation_debug (ptc_invocation call) := length pre]> m)).
    destruct (plan_reads _ suf _) as [unique duplicates].
    apply planned_new; [done|]. apply IH. intros inv. rewrite first_with_snoc. case_decide as E.
    + subst inv. by rewrite Es, lookup_insert_eq.
    + rewrite lookup_insert_ne, Hm; [by destruct (first_with inv pre)|].
      by intros ?%invocation_debug_inj.
Qed.

Lemma place_executed_spec l os :
  NoDup (l.*1) ->
  length (place_executed l os) = length os /\
  (forall i o, (i, o) ∈ l -> (i < length os)%nat -> place_executed l os !! i = Some (Some o)) /\
  (forall i, i ∉ l.*1 -> place_executed l os !! i = os !! i).
Proof.
  unfold place_executed. revert os. induction l as [|[j p] l IH]; intros os; cbn.
  { intros _. split_and!; [done| |done]. by intros i o ?%not_elem_of_nil. }
  intros [Hj Hl]%NoDup_cons. destruct (IH (<[j := Some p]> os) Hl) as (H1 & H2 & H3).
  rewrite length_insert in H1, H2. split_and!; [done| |].
  - intros i o [[= -> ->]|Hi]%elem_of_cons Hlen; [|by apply H2].
    rewrite H3 by done. by apply list_lookup_insert_eq.
  - intros i [Hne Hi]%not_elem_of_cons. rewrite H3 by done. by apply list_lookup_insert_ne.
Qed.

Lemma place_duplicates_spec calls ds os :
  NoDup (ds.*1) -> (forall d s, (d, s) ∈ ds -> s ∉ ds.*1) ->
  (forall d s call o, (d, s) ∈ ds -> calls !! d = Some call -> os !! s = Some (Some o) ->
     (d < length os)%nat -> place_duplicates calls ds os !! d = Some (Some (relabel call o))) /\
  (forall i, i ∉ ds.*1 -> place_duplicates calls ds os !! i = os !! i) /\
  length (place_duplicates calls ds os) = length os.
Proof.
  unfold place_duplicates. revert os. induction ds as [|[d s] ds IH]; intros os Hn Hs; cbn.
  { split_and!; [|done..]. by intros d s c o ?%not_elem_of_nil. }
  apply NoDup_cons in Hn as [Hd Hn]. cbn in Hd.
  set (os' := match os !! s with Some (Some _) => _ | _ => os end).
  destruct (IH os' Hn) as (H1 & H2 & H3).
  { intros d' s' Hin. destruct (not_elem_of_cons (ds.*1) s' d) as [Hx _].
    apply Hx, (Hs d' s'). by right. }
  assert (length os' = length os) as Hlen.
  { subst os'. repeat case_match; try done. apply length_insert. }
  assert (forall i, i <> d -> os' !! i = os !! i) as Hother.
  { intros i Hi. subst os'. repeat case_match; try done. by apply list_lookup_insert_ne. }
  split_and!; [| |congruence].
  - intros d' s' call o [[= -> ->]|Hin]%elem_of_cons Hc Ho Hl.
    + rewrite H2 by done. subst os'. rewrite Ho, Hc. by apply list_lookup_insert_eq.
    + apply (H1 _ s'); [done|done| |lia]. rewrite Hother; [done|].
      intros ->. apply (Hs d' d); [by right|]. by left.
  - intros i [Hne Hi]%not_elem_of_cons. rewrite H2 by done. by apply Hother.
Qed.

Lemma zip_executed (calls : list PreparedToolCall) (exec : PreparedToolCall -> ToolOutcome) unique :
  (forall i, i ∈ unique -> is_Some (calls !! i)) ->
  (zip unique (map exec (omap (fun i => calls !! i) unique))).*1 = unique /\
  forall i c, i ∈ unique -> calls !! i = Some c ->
    (i, exec c) ∈ zip unique (map exec (omap (fun i => calls !! i) unique)).
Proof.
  induction unique as [|i unique IH]; intros Hu; cbn.
  { split; [done|]. by intros i c ?%not_elem_of_nil. }
  destruct (Hu i) as [c Hc]; [by left|]. rewrite Hc. cbn.
  destruct IH as [IH1 IH2]; [intros j Hj; apply Hu; by right|]. split; [by rewrite IH1|].
  intros j d [->|Hj]%elem_of_cons Hd; [|right; by apply IH2].
  assert (d = c) as -> by congruence. by left.
Qed.

Lemma omap_id_somes {A} (l : list A) : omap id (Some <$> l) = l.
Proof. induction l as [|x l IH]; cbn; [done|]. by rewrite IH. Qed.

(** The outcome the call at an index of a batch must receive. *)
Definition expected_outcome (exec : PreparedToolCall -> ToolOutcome)
    (calls : list PreparedToolCall) (i : nat) (call : PreparedToolCall) : ToolOutcome :=
  match first_with (ptc_invocation call) calls ≫= (fun j => pair j <$> calls !! j) with
  | Some (j, source) => if decide (j = i) then exec call else relabel call (exec source)
  | None => exec call
  end.

(** The calls a batch really executes. *)
Definition executed_calls `{Externals} (calls : list PreparedToolCall) : list PreparedToolCall :=
  omap (fun i => calls !! i) (plan_reads 0 calls ∅).1.

Lemma batch_plan `{ExternalLaws} calls :
  planned calls 0 (plan_reads 0 calls ∅).1 (plan_reads 0 calls ∅).2.
Proof.
  pose proof (plan_reads_spec calls [] ∅ (fun inv => lookup_empty _)) as Hp.
  cbn [length app] in Hp. by destruct (plan_reads 0 calls ∅).
Qed.

(** No duplicate is the source of another. *)
Lemma planned_sources calls from unique ds d s :
  planned calls from unique ds -> (d, s) ∈ ds -> s ∉ ds.*1.
Proof.
  intros (_ & H2 & _) (_ & c & Hc & Hf & _)%H2 ([s' s2] & Es & Hin)%list_elem_of_fmap.
  cbn in Es. subst s'. apply H2 in Hin as (_ & c' & Hc' & Hf' & Hne).
  apply first_with_some in Hf as Hs. destruct Hs as (c2 & Hc2 & Ei). congruence.
Qed.

Lemma execute_reads_expected `{ExternalLaws} exec calls :
  execute_reads (map exec) calls = imap (expected_outcome exec calls) calls.
Proof.
  unfold execute_reads. pose proof (batch_plan calls) as Hplan.
  destruct (plan_reads 0 calls ∅) as [unique ds]. cbn in Hplan.
  pose proof (fun d s => planned_sources _ _ _ _ d s Hplan) as Hsrc.
  destruct Hplan as (H1 & H2 & H3 & H4).
  destruct (zip_executed calls exec unique) as [Hz Hzin].
  { intros i (_ & c & Hc & _)%H1. eauto. }
  set (z := zip _ _) in *. set (os0 := replicate _ None).
  destruct (place_executed_spec z os0) as (E1 & E2 & _); [by rewrite Hz|].
  destruct (place_duplicates_spec calls ds (place_executed z os0) H4 Hsrc) as (D1 & D2 & D3).
  assert (length os0 = length calls) as Hlen by apply length_replicate.
  assert (forall i c, calls !! i = Some c -> first_with (ptc_invocation c) calls = Some i ->
            place_executed z os0 !! i = Some (Some (exec c))) as Hexec.
  { intros i c Hc Hf. apply E2; [|rewrite Hlen; by eapply lookup_lt_Some].
    apply Hzin; [apply H1; split; [lia|eauto]|done]. }
  rewrite <- (omap_id_somes (imap _ calls)). f_equal. apply list_eq. intros i.
  rewrite list_lookup_fmap, list_lookup_imap. destruct (calls !! i) as [c|] eqn:Hc; cbn.
  2: { apply lookup_ge_None. rewrite D3, E1, Hlen. by apply lookup_ge_None. }
  destruct (first_with_le _ _ _ _ Hc eq_refl) as (j & Hj & Hle).
  destruct (first_with_some _ _ _ Hj) as (cj & Hcj & Ei).
  unfold expected_outcome. rewrite Hj. cbn. rewrite Hcj. cbn. case_decide as Hd.
  - subst j. rewrite D2; [by apply Hexec|]. intros ([i' s] & Es & Hin)%list_elem_of_fmap.
    cbn in Es. subst i'. apply H2 in Hin as (_ & c' & Hc' & Hf & Hne). congruence.
  - apply (D1 _ j); [apply H2; split; [lia|eauto]|done| |].
    + apply Hexec; [done|]. by rewrite Ei.
    + rewrite E1, Hlen. by eapply lookup_lt_Some.
Qed.

Lemma omap_lookup_nodup {A B} (f : A -> B) (l : list A) (idx : list nat) :
  (forall i, i ∈ idx -> is_Some (l !! i)) -> NoDup idx ->
  (forall i j a b, i ∈ idx -> j ∈ idx -> l !! i = Some a -> l !! j = Some b -> f a = f b -> i = j) ->
  NoDup (f <$> omap (fun i => l !! i) idx).
Proof.
  induction idx as [|i idx IH]; intros Hall Hn Hf; cbn; [constructor|].
  apply NoDup_cons in Hn as [Hi Hn]. destruct (Hall i) as [a Ha]; [by left|]. rewrite Ha. cbn.
  apply NoDup_cons. split.
  - intros (b & Eb & (j & Hj & Hb)%list_elem_of_omap)%list_elem_of_fmap.
    apply Hi. rewrite (Hf i j a b); [done|by left|by right|done..].
  - apply IH; [intros j Hj; apply Hall; by right|done|].
    intros j k b c Hj Hk. apply Hf; by right.
Qed.

Lemma executed_calls_nodup `{ExternalLaws} calls : NoDup (ptc_invocation <$> executed_calls calls).
Proof.
  pose proof (batch_plan calls) as (H1 & _ & H3 & _). apply omap_lookup_nodup; [|done|].
  - intros i (_ & c & Hc & _)%H1. eauto.
  - intros i j a b (_ & c & Hc & Hi)%H1 (_ & d & Hd & Hj)%H1 Ha Hb E. congruence.
Qed.

Lemma executed_calls_cover `{ExternalLaws} calls c :
  c ∈ calls -> exists d, d ∈ executed_calls calls /\ ptc_invocation d = ptc_invocation c.
Proof.
  intros [i Hi]%list_elem_of_lookup. destruct (first_with_le _ _ _ _ Hi eq_refl) as (j & Hj & _).
  destruct (first_with_some _ _ _ Hj) as (d & Hd & E). exists d. split; [|done].
  apply list_elem_of_omap. exists j. split; [|done].
  apply (batch_plan calls). split; [lia|]. exists d. split; [done|]. by rewrite E.
Qed.

Lemma transcript_dec cancelled (profile : result str Uuid) target_id
    (terminal : option (result str TerminalResult)) :
  let got := cancelled = false /\ profile = Ok target_id /\ exists r, terminal = Some (Ok r) in
  got \/ ~ got.
Proof.
  intros got. subst got. destruct cancelled; [right; naive_solver|].
  destruct profile as [b|]; [|right; naive_solver].
  destruct (decide (b = target_id)) as [->|]; [|right; naive_solver].
  destruct terminal as [[r|]|]; [left; eauto|right; naive_solver..].
Qed.

(** A command that does not reach the terminal, or gets no transcript from it. *)
Lemma execute_command_refused cancelled profile target_id command terminal duration :
  ~ (cancelled = false /\ profile = Ok target_id /\ exists r, terminal = Some (Ok r)) ->
  let o := execute_command cancelled profile target_id command terminal duration in
  co_command_id o = command_id command /\ co_success o = false /\ co_stdout o = [] /\
  is_Some (co_error_code o).
Proof.
  unfold execute_command. intros Hnot. destruct cancelled; [by split_and!|].
  destruct profile as [bound|e]; [|by split_and!].
  destruct (bound =? target_id)%N eqn:Eb; [apply N.eqb_eq in Eb as ->|by split_and!].
  destruct terminal as [[r|e]|]; [|by split_and!..]. destruct Hnot. eauto.
Qed.

(** ** Properties *)

(** A batch of reads: every distinct invocation is executed once and no
    other call is; there is one outcome per call, in the order of the calls
    and under each call's id; the first call of an invocation receives what
    its execution returned, and a repetition a copy of that, marked as cached. *)
Theorem execute_reads_exact `{ExternalLaws} exec calls :
  (forall c, to_tool_call_id (exec c) = tool_call_id c) ->
  let outcomes := execute_reads (map exec) calls in
  NoDup (ptc_invocation <$> executed_calls calls) /\
  (forall c, c ∈ calls ->
     exists d, d ∈ executed_calls calls /\ ptc_invocation d = ptc_invocation c) /\
  to_tool_call_id <$> outcomes = tool_call_id <$> calls /\
  (forall i c, calls !! i = Some c ->
     exists j d, first_with (ptc_invocation c) calls = Some j /\ calls !! j = Some d /\
       outcomes !! i = Some (if decide (j = i) then exec c else relabel c (exec d))).
Proof.
  intros Hid outcomes. subst outcomes. rewrite execute_reads_expected.
  split_and!; [apply executed_calls_nodup|apply executed_calls_cover| |].
  - apply list_eq. intros i. rewrite !list_lookup_fmap, list_lookup_imap.
    destruct (calls !! i) as [c|]; cbn; [|done]. f_equal. unfold expected_outcome.
    destruct (first_with _ _ ≫= _) as [[j d]|]; [case_decide|]; by rewrite ?Hid.
  - intros i c Hc. destruct (first_with_le _ _ _ _ Hc eq_refl) as (j & Hj & _).
    destruct (first_with_some _ _ _ Hj) as (d & Hd & _). exists j, d. split_and!; [done..|].
    rewrite list_lookup_imap, Hc. cbn. f_equal. unfold expected_outcome. rewrite Hj. cbn.
    by rewrite Hd.
Qed.

Definition sample_read (id : Uuid) (invocation : NativeToolInvocation) : PreparedToolCall :=
  {| tool_call_id := id; ptc_tool_name := tool_as_str (invocation_name invocation);
     ptc_invocation := invocation; ptc_reason_summary := lit "check" |}.

Lemma execute_reads_exact_witness :
  let calls := [sample_read 1 InvSystemDisk; sample_read 2 (InvServiceStatus (lit "nginx"));
                sample_read 3 InvSystemDisk] in
  let exec c := outcome_failure c (lit "EXEC_FAILED") in
  (tool_call_id <$> @executed_calls quoting_externals calls) = [1; 2]%N /\
  to_tool_call_id <$> @execute_reads quoting_externals (map exec) calls = [1; 2; 3]%N.
Proof.
  intros calls exec. split; [by vm_compute|].
  destruct (@execute_reads_exact quoting_externals quoting_laws exec calls (fun c => eq_refl))
    as (_ & _ & Hids & _).
  exact Hids.
Defined.

(** The outcome of an approved command: it carries the command's id, it is
    a success exactly when the run was not cancelled, the session is bound to
    the approved target, the terminal answered in time and no line of the
    redacted transcript reads as a shell failure; a failure always names an
    error; and the text kept is a prefix of the redacted transcript of at most
    64 KiB characters, empty when nothing was executed. *)
Theorem execute_command_sound cancelled profile target_id command terminal duration :
  let o := execute_command cancelled profile target_id command terminal duration in
  co_command_id o = command_id command /\
  (co_success o = true <->
     cancelled = false /\ profile = Ok target_id /\
     exists r, terminal = Some (Ok r) /\ term_timed_out r = false /\
       forall line, line ∈ lines (redact_secrets (term_output r)).1 ->
         line_looks_like_shell_failure line = false) /\
  (co_success o = false <-> is_Some (co_error_code o)) /\
  (list_lenN (co_stdout o) <= OBSERVATION_TEXT_LIMIT)%N /\
  (co_stdout o <> [] -> exists r, cancelled = false /\ profile = Ok target_id /\
     terminal = Some (Ok r) /\ co_stdout o `prefix_of` (redact_secrets (term_output r)).1).
Proof.
  intros o.
  destruct (transcript_dec cancelled profile target_id terminal) as [(-> & -> & r & ->)|Hnot].
  2: { destruct (execute_command_refused cancelled profile target_id command terminal duration Hnot)
         as (H1 & H2 & H3 & H4). fold o in H1, H2, H3, H4. rewrite H2, H3.
       split_and!; [done| |done|done|done].
       split; [done|]. intros (Hc & Hp & r & Ht & _). destruct Hnot. eauto. }
  subst o. unfold execute_command. rewrite N.eqb_refl. cbn [negb].
  set (output := (redact_secrets (term_output r)).1).
  cbn [co_command_id co_success co_error_code co_stdout]. split_and!; [done| | | |].
  - rewrite andb_true_iff, !negb_true_iff. unfold looks_like_shell_failure.
    rewrite Existsb_false. split.
    + intros [Ht Hl]. split_and!; [done..|]. by exists r.
    + by intros (_ & _ & r' & [= <-] & Ht & Hl).
  - destruct (term_timed_out r), (looks_like_shell_failure output); cbn; naive_solver.
  - unfold list_lenN, bounded. rewrite length_take. lia.
  - intros _. exists r. split_and!; try done. unfold bounded. apply prefix_take.
Qed.
