(* ===== verification/Stores.v ===== *)
(** * Persistence contracts and their in-memory implementation (agent/repository.rs)

    Each store is a map behind an [RwLock]: a poisoned lock makes every
    operation fail with [StoreUnavailable] and change nothing. *)
From stdpp Require Import sorting.
From S2P Require Import Prelude Str RunState Externals Decision Approval Events.

Definition AGENT_RUN_NOT_FOUND : str := lit "AGENT_RUN_NOT_FOUND".
Definition AGENT_RUN_ALREADY_EXISTS : str := lit "AGENT_RUN_ALREADY_EXISTS".
Definition AGENT_EVENT_SEQUENCE_INVALID : str := lit "AGENT_EVENT_SEQUENCE_INVALID".
Definition AGENT_APPROVAL_NOT_FOUND : str := lit "AGENT_APPROVAL_NOT_FOUND".
Definition AGENT_STORE_CORRUPT : str := lit "AGENT_STORE_CORRUPT".
Definition AGENT_STORE_MIGRATION_FAILED : str := lit "AGENT_STORE_MIGRATION_FAILED".
Definition AGENT_STORE_UNAVAILABLE : str := lit "AGENT_STORE_UNAVAILABLE".
Definition AGENT_PERSISTENCE_FAILED : str := lit "AGENT_PERSISTENCE_FAILED".

Inductive AgentStoreError :=
  | RunNotFound | RunAlreadyExists
  | EventSequenceInvalid (last attempted : N)
  | ApprovalNotFound | StoreCorrupt | MigrationFailed | PersistenceFailed | StoreUnavailable.
#[export] Instance store_error_eq_dec : EqDecision AgentStoreError.
Proof. solve_decision. Defined.

Definition store_error_code (e : AgentStoreError) : str :=
  match e with
  | RunNotFound => AGENT_RUN_NOT_FOUND
  | RunAlreadyExists => AGENT_RUN_ALREADY_EXISTS
  | EventSequenceInvalid _ _ => AGENT_EVENT_SEQUENCE_INVALID
  | ApprovalNotFound => AGENT_APPROVAL_NOT_FOUND
  | StoreCorrupt => AGENT_STORE_CORRUPT
  | MigrationFailed => AGENT_STORE_MIGRATION_FAILED
  | PersistenceFailed => AGENT_PERSISTENCE_FAILED
  | StoreUnavailable => AGENT_STORE_UNAVAILABLE
  end.

(** ** A value behind an [RwLock] *)
Record Locked (A : Type) := { poisoned : bool; held : A }.
Arguments poisoned {A}.
Arguments held {A}.

(** An operation on a store: the result and the store afterwards. *)
Definition store_op (A B : Type) : Type := Locked A -> result AgentStoreError B * Locked A.

(** [.write().map_err(|_| StoreUnavailable)?], then the body. *)
Definition with_write {A B} (body : A -> result AgentStoreError B * A) : store_op A B := fun l =>
  if poisoned l then (Err StoreUnavailable, l)
  else let '(r, a) := body (held l) in (r, {| poisoned := false; held := a |}).

Definition with_read {A B} (body : A -> B) (l : Locked A) : result AgentStoreError B :=
  if poisoned l then Err StoreUnavailable else Ok (body (held l)).

(** ** Runs *)
Abbreviation run_map := (gmap N AgentRun).

Definition run_insert (run : AgentRun) : store_op run_map unit := with_write (fun runs =>
  if bool_decide (is_Some (runs !! run_id run)) then (Err RunAlreadyExists, runs)
  else (Ok tt, <[run_id run := run]> runs)).
Definition run_get (id : Uuid) : Locked run_map -> result AgentStoreError (option AgentRun) :=
  with_read (fun runs => runs !! id).
Definition run_save (run : AgentRun) : store_op run_map unit := with_write (fun runs =>
  if negb (bool_decide (is_Some (runs !! run_id run))) then (Err RunNotFound, runs)
  else (Ok tt, <[run_id run := run]> runs)).
(** The trait's default body, which the in-memory store keeps. *)
Definition run_save_metrics (id : Uuid) (metrics : RunMetrics) : result AgentStoreError unit := Ok tt.

(** ** Events *)
Abbreviation event_map := (gmap N (list AgentEventEnvelope)).

Definition event_append (envelope : AgentEventEnvelope) : store_op event_map unit :=
  with_write (fun events =>
    let log := default [] (events !! ev_run_id envelope) in
    let last := from_option ev_seq 0%N (last log) in
    if (ev_seq envelope <=? last)%N
    then (Err (EventSequenceInvalid last (ev_seq envelope)), <[ev_run_id envelope := log]> events)
    else (Ok tt, <[ev_run_id envelope := log ++ [envelope]]> events)).

Definition events_after (id : Uuid) (after_seq : N) :
    Locked event_map -> result AgentStoreError (list AgentEventEnvelope) :=
  with_read (fun events =>
    List.filter (fun e => after_seq <? ev_seq e)%N (default [] (events !! id))).
Definition all_events (id : Uuid) : Locked event_map -> result AgentStoreError (list AgentEventEnvelope) :=
  events_after id 0.

(** ** Approvals *)
Abbreviation approval_map := (gmap N ApprovalRequest).

Definition approval_insert (a : ApprovalRequest) : store_op approval_map unit :=
  with_write (fun m => (Ok tt, <[ap_id a := a]> m)).
Definition approval_get (id : Uuid) :
    Locked approval_map -> result AgentStoreError (option ApprovalRequest) :=
  with_read (fun m => m !! id).
Definition approval_save (a : ApprovalRequest) : store_op approval_map unit := with_write (fun m =>
  if negb (bool_decide (is_Some (m !! ap_id a))) then (Err ApprovalNotFound, m)
  else (Ok tt, <[ap_id a := a]> m)).

Definition pending_of (id : Uuid) (a : ApprovalRequest) : bool :=
  (ap_run_id a =? id)%N && bool_decide (ap_state a = Pending).
(** [values] is the order in which the [HashMap] yields its values. *)
Definition pending_for_run (values : approval_map -> list ApprovalRequest) (id : Uuid) :
    Locked approval_map -> result AgentStoreError (option ApprovalRequest) :=
  with_read (fun m => find (pending_of id) (values m)).

(** ** Checkpoints and pending actions *)
Definition checkpoint_save (c : AgentCheckpoint) : store_op (gmap N AgentCheckpoint) unit :=
  with_write (fun m => (Ok tt, <[cp_run_id c := c]> m)).
Definition checkpoint_get (id : Uuid) :
    Locked (gmap N AgentCheckpoint) -> result AgentStoreError (option AgentCheckpoint) :=
  with_read (fun m => m !! id).

Definition pending_put (call : PreparedToolCall) : store_op (gmap N PreparedToolCall) unit :=
  with_write (fun m => (Ok tt, <[tool_call_id call := call]> m)).
Definition pending_get (id : Uuid) :
    Locked (gmap N PreparedToolCall) -> result AgentStoreError (option PreparedToolCall) :=
  with_read (fun m => m !! id).
Definition pending_remove (id : Uuid) : store_op (gmap N PreparedToolCall) unit :=
  with_write (fun m => (Ok tt, delete id m)).
Definition put_command (c : PreparedCommandProposal) :
    store_op (gmap N PreparedCommandProposal) unit :=
  with_write (fun m => (Ok tt, <[command_id c := c]> m)).
Definition get_command (id : Uuid) : Locked (gmap N PreparedCommandProposal) ->
    result AgentStoreError (option PreparedCommandProposal) :=
  with_read (fun m => m !! id).
Definition remove_command (id : Uuid) : store_op (gmap N PreparedCommandProposal) unit :=
  with_write (fun m => (Ok tt, delete id m)).

(** ** What the traits promise *)

(** The contract of [AgentRunStore]: the laws a client may rely on, whatever
    implements it. *)
Class RunStoreContract (S : Type) (insert save : AgentRun -> S -> result AgentStoreError unit * S)
    (get : Uuid -> S -> result AgentStoreError (option AgentRun)) := {
  rsc_insert_known run s : get (run_id run) s <> Ok None -> (insert run s).1 <> Ok tt;
  rsc_save_unknown run s : get (run_id run) s = Ok None -> (save run s).1 = Err RunNotFound;
  rsc_insert_get run s : (insert run s).1 = Ok tt -> get (run_id run) (insert run s).2 = Ok (Some run);
  rsc_save_get run s : (save run s).1 = Ok tt -> get (run_id run) (save run s).2 = Ok (Some run);
  rsc_insert_other run s id : id <> run_id run -> get id (insert run s).2 = get id s;
  rsc_save_other run s id : id <> run_id run -> get id (save run s).2 = get id s;
  rsc_unavailable run s e : get (run_id run) s = Err e -> (save run s).1 <> Ok tt;
  rsc_insert_err run s e : (insert run s).1 = Err e -> (insert run s).2 = s;
  rsc_save_err run s e : (save run s).1 = Err e -> (save run s).2 = s;
}.

(** The contract of [AgentEventRepository]. *)
Class EventLogContract (S : Type) (append : AgentEventEnvelope -> S -> result AgentStoreError unit * S)
    (after : Uuid -> N -> S -> result AgentStoreError (list AgentEventEnvelope)) (ok : S -> Prop) := {
  elc_append_ok e s : ok s -> ok (append e s).2;
  elc_sorted s id n l : ok s -> after id n s = Ok l ->
    StronglySorted (fun a b => ev_seq a < ev_seq b)%N l /\
    Forall (fun e => ev_run_id e = id /\ n < ev_seq e)%N l;
  elc_append_end e s l : ok s -> after (ev_run_id e) 0%N s = Ok l -> (append e s).1 = Ok tt ->
    after (ev_run_id e) 0%N (append e s).2 = Ok (l ++ [e]);
  elc_append_iff e s l : ok s -> after (ev_run_id e) 0%N s = Ok l ->
    (append e s).1 = Ok tt <-> (from_option ev_seq 0%N (last l) < ev_seq e)%N;
  elc_append_err e s err : (append e s).1 = Err err -> forall id n, after id n (append e s).2 = after id n s;
  elc_append_other e s id n : id <> ev_run_id e -> after id n (append e s).2 = after id n s;
  elc_replay s id n l : ok s -> after id 0%N s = Ok l ->
    exists seen rest, l = seen ++ rest /\ after id n s = Ok rest /\
      Forall (fun e => ev_seq e <= n)%N seen;
}.

(** The in-memory event store in reachable states. *)
Definition log_ok (id : Uuid) (log : list AgentEventEnvelope) : Prop :=
  StronglySorted (fun a b => ev_seq a < ev_seq b)%N log /\
  Forall (fun e => ev_run_id e = id /\ 0 < ev_seq e)%N log.
Definition events_ok (l : Locked event_map) : Prop := map_Forall log_ok (held l).

(** ** Lemmas *)
Lemma with_write_poisoned {A B} (body : A -> result AgentStoreError B * A) l :
  poisoned l = true -> with_write body l = (Err StoreUnavailable, l).
Proof. unfold with_write. by intros ->. Qed.

#[export] Instance memory_run_store : RunStoreContract _ run_insert run_save run_get.
Proof.
  split; intros run [[] m]; unfold run_insert, run_save, run_get, with_write, with_read; cbn;
    try done; try (case_bool_decide as Hb; cbn; try done).
  - intros Hn _. destruct Hb. destruct (m !! _); [eauto|]. by destruct Hn.
  - intros [= Hn]. rewrite Hn in Hb. by destruct Hb.
  - intros _. by rewrite lookup_insert_eq.
  - intros _. by rewrite lookup_insert_eq.
  - intros id Hid. by rewrite lookup_insert_ne.
  - intros id Hid. by rewrite lookup_insert_ne.
Qed.

Lemma filter_above_split (n : N) (l : list AgentEventEnvelope) :
  StronglySorted (fun a b => ev_seq a < ev_seq b)%N l ->
  exists seen, l = seen ++ List.filter (fun e => n <? ev_seq e)%N l /\
               Forall (fun e => ev_seq e <= n)%N seen.
Proof.
  induction 1 as [|a l Hs (seen & E & Hseen) Ha]; cbn; [by exists []|].
  destruct (n <? ev_seq a)%N eqn:En.
  - apply N.ltb_lt in En. exists []. split; [|constructor]. cbn. f_equal. symmetry.
    clear E. induction Ha as [|b l Hb Ha IH]; cbn; [done|].
    replace (n <? ev_seq b)%N with true by (symmetry; apply N.ltb_lt; lia).
    f_equal. apply IH. by inversion Hs.
  - apply N.ltb_ge in En. exists (a :: seen). split; [by cbn; f_equal|by constructor].
Qed.

Lemma filter_above_zero id l : log_ok id l -> List.filter (fun e => 0 <? ev_seq e)%N l = l.
Proof.
  intros [_ Hl]. induction Hl as [|e l [_ He] _ IH]; cbn; [done|].
  apply N.ltb_lt in He. by rewrite He, IH.
Qed.

Lemma log_ok_snoc id l e :
  log_ok id l -> ev_run_id e = id -> (from_option ev_seq 0%N (last l) < ev_seq e)%N ->
  log_ok id (l ++ [e]).
Proof.
  intros [Hs Hl] Hid Hlt. split.
  - assert (forall x, x ∈ l -> (ev_seq x <= from_option ev_seq 0%N (last l))%N) as Hmax.
    { intros x Hx. destruct (last l) as [y|] eqn:Ey; cbn.
      - destruct (StronglySorted_last _ _ y x Hs Ey Hx) as [->|]; lia.
      - apply last_None in Ey. subst l. by apply not_elem_of_nil in Hx. }
    clear Hl. induction Hs as [|a l Hs IH Ha]; cbn; [repeat constructor|]. constructor.
    + apply IH.
      * destruct l; cbn in *; [lia|done].
      * intros x Hx. specialize (Hmax x (list_elem_of_further _ _ _ Hx)).
        destruct l; [by apply not_elem_of_nil in Hx|done].
    + apply Forall_app. split; [done|]. apply Forall_singleton.
      specialize (Hmax a (list_elem_of_here _ _)). lia.
  - apply Forall_app. split; [done|]. apply Forall_singleton. split; [done|lia].
Qed.

Lemma log_ok_default id (events : event_map) :
  map_Forall log_ok events -> log_ok id (default [] (events !! id)).
Proof.
  intros Hok. destruct (events !! id) as [log|] eqn:E; cbn; [by apply Hok|].
  split; constructor.
Qed.

#[export] Instance memory_event_log :
  EventLogContract _ event_append (fun id n s => events_after id n s) events_ok.
Proof.
  split; unfold events_ok.
  - intros e [[] m] Hok; unfold event_append, with_write; cbn; [done|].
    pose proof (log_ok_default (ev_run_id e) m Hok) as Hl.
    destruct (_ <=? _)%N eqn:E; cbn; apply map_Forall_insert_2; try done.
    apply N.leb_gt in E. by apply log_ok_snoc.
  - intros [[] m] id n l Hok; unfold events_after, with_read; cbn; [done|]. intros [= <-].
    destruct (log_ok_default id m Hok) as [Hs Hf]. split.
    + destruct (filter_above_split n _ Hs) as (seen & E & _). rewrite E in Hs.
      by apply sorting.StronglySorted_app_1_r in Hs.
    + apply Forall_forall. intros x [Hx Hn%N.ltb_lt]%elem_of_filterb.
      rewrite Forall_forall in Hf. split; [by apply Hf|done].
  - intros e [[] m] l Hok; unfold events_after, event_append, with_read, with_write; cbn; [done|].
    pose proof (log_ok_default (ev_run_id e) m Hok) as Hl.
    rewrite (filter_above_zero _ _ Hl). intros [= <-].
    destruct (_ <=? _)%N eqn:E; cbn; [done|]. intros _. rewrite lookup_insert_eq. cbn.
    apply N.leb_gt in E. f_equal. apply (filter_above_zero (ev_run_id e)). by apply log_ok_snoc.
  - intros e [[] m] l Hok; unfold events_after, event_append, with_read, with_write; cbn; [done|].
    rewrite (filter_above_zero _ _ (log_ok_default (ev_run_id e) m Hok)). intros [= <-].
    destruct (_ <=? _)%N eqn:E; cbn; [apply N.leb_le in E|apply N.leb_gt in E]; split; try done. lia.
  - intros e [[] m] err; unfold events_after, event_append, with_read, with_write; cbn; [done|].
    destruct (_ <=? _)%N eqn:E; cbn; [|done]. intros _ id n.
    destruct (decide (id = ev_run_id e)) as [->|Hne]; [by rewrite lookup_insert_eq|].
    by rewrite lookup_insert_ne.
  - intros e [[] m] id n Hne; unfold events_after, event_append, with_read, with_write; cbn; [done|].
    destruct (_ <=? _)%N; cbn; by rewrite lookup_insert_ne.
  - intros [[] m] id n l Hok; unfold events_after, with_read; cbn; [done|].
    pose proof (log_ok_default id m Hok) as Hl. rewrite (filter_above_zero _ _ Hl). intros [= <-].
    destruct (filter_above_split n _ (proj1 Hl)) as (seen & E & Hseen). eauto.
Qed.

(** ** Clients of the contracts *)
Inductive run_write := WInsert (run : AgentRun) | WSave (run : AgentRun).
Definition written (w : run_write) : AgentRun := match w with WInsert r | WSave r => r end.

Section RunClient.
Context {S insert save get} `{RunStoreContract S insert save get}.

Definition apply_write (w : run_write) (s : S) : S :=
  match w with WInsert r => (insert r s).2 | WSave r => (save r s).2 end.
Definition apply_writes (ws : list run_write) (s : S) : S := foldl (fun s w => apply_write w s) s ws.

Lemma apply_write_other w s id : id <> run_id (written w) -> get id (apply_write w s) = get id s.
Proof. destruct w; cbn; [apply rsc_insert_other|apply rsc_save_other]. Qed.

(** A record that a store holds was inserted, and is the one last written. *)
Lemma run_writes_sound ws s id r :
  get id s = Ok None -> get id (apply_writes ws s) = Ok (Some r) ->
  run_id r = id /\ r ∈ map written ws /\ exists r0, WInsert r0 ∈ ws /\ run_id r0 = id.
Proof.
  intros Hs. revert r. induction ws as [|w ws IH] using rev_ind; intros r; cbn.
  { rewrite Hs. by intros [=]. }
  unfold apply_writes in *. rewrite foldl_app. cbn. set (s' := foldl _ s ws) in *. intros Hg.
  assert (get id s' = Ok (Some r) ->
    run_id r = id /\ r ∈ map written (ws ++ [w]) /\
    exists r0, WInsert r0 ∈ ws ++ [w] /\ run_id r0 = id) as Hkeep.
  { intros (H1 & H2 & r0 & H3 & H4)%IH. rewrite map_app. split_and!; [done|set_solver|].
    exists r0. split; [set_solver|done]. }
  destruct (decide (id = run_id (written w))) as [->|Hne].
  2: { rewrite apply_write_other in Hg by done. by apply Hkeep. }
  destruct w as [x|x]; cbn in *.
  - destruct (insert x s').1 as [[]|e] eqn:E.
    + rewrite rsc_insert_get in Hg by done. injection Hg as ->. rewrite map_app.
      split_and!; [done|set_solver|]. exists r. split; [set_solver|done].
    + apply rsc_insert_err in E. rewrite E in Hg. by apply Hkeep.
  - destruct (save x s').1 as [[]|e] eqn:E.
    + pose proof E as Eg. rewrite rsc_save_get in Hg by done. injection Hg as ->.
      rewrite map_app. split_and!; [done|set_solver|].
      destruct (get (run_id r) s') as [[r'|]|e] eqn:Eold.
      * destruct (IH r' eq_refl) as (_ & _ & r0 & H3 & H4). exists r0. split; [set_solver|done].
      * apply rsc_save_unknown in Eold. congruence.
      * by apply rsc_unavailable in Eold.
    + apply rsc_save_err in E. rewrite E in Hg. by apply Hkeep.
Qed.
End RunClient.

(** The event log under a list of appends. *)
Definition appends (es : list AgentEventEnvelope) (s : Locked event_map) : Locked event_map :=
  foldl (fun s e => (event_append e s).2) s es.
Definition of_run (id : Uuid) (e : AgentEventEnvelope) : bool := (ev_run_id e =? id)%N.

Lemma appends_ok es s : events_ok s -> events_ok (appends es s).
Proof.
  revert s. induction es as [|e es IH]; intros s Hs; cbn; [done|]. apply IH.
  exact (elc_append_ok (EventLogContract := memory_event_log) e s Hs).
Qed.

Lemma append_extends e s id l :
  events_ok s -> all_events id s = Ok l ->
  exists more, all_events id (event_append e s).2 = Ok (l ++ more) /\
    more `sublist_of` List.filter (of_run id) [e].
Proof.
  intros Hok Hl. cbn. unfold of_run.
  destruct (decide (ev_run_id e = id)) as [<-|Hne].
  - rewrite N.eqb_refl. destruct (event_append e s).1 as [[]|err] eqn:E.
    + exists [e]. split; [|done].
      exact (elc_append_end (EventLogContract := memory_event_log) e s l Hok Hl E).
    + exists []. split; [|apply sublist_nil_l]. rewrite app_nil_r. unfold all_events.
      by rewrite (elc_append_err (EventLogContract := memory_event_log) e s err E).
  - exists []. rewrite app_nil_r. split; [|apply sublist_nil_l]. unfold all_events.
    rewrite (elc_append_other (EventLogContract := memory_event_log)); [done|]. congruence.
Qed.

Lemma appends_extend es s id l :
  events_ok s -> all_events id s = Ok l ->
  exists more, all_events id (appends es s) = Ok (l ++ more) /\
    more `sublist_of` List.filter (of_run id) es.
Proof.
  revert s l. induction es as [|e es IH]; intros s l Hok Hl.
  { exists []. rewrite app_nil_r. split; [done|apply sublist_nil_l]. }
  destruct (append_extends e s id l Hok Hl) as (m1 & H1 & S1).
  destruct (IH (event_append e s).2 (l ++ m1)) as (m2 & H2 & S2); [|done|].
  { exact (elc_append_ok (EventLogContract := memory_event_log) e s Hok). }
  exists (m1 ++ m2). rewrite (assoc_L (++)). split; [exact H2|].
  change (e :: es) with ([e] ++ es). rewrite List.filter_app. by apply sublist_app.
Qed.

Lemma filter_above_app n (a b : list AgentEventEnvelope) :
  Forall (fun e => ev_seq e <= n)%N a -> Forall (fun e => n < ev_seq e)%N b ->
  List.filter (fun e => n <? ev_seq e)%N (a ++ b) = b.
Proof.
  intros Ha Hb. rewrite List.filter_app.
  induction Ha as [|x a Hx _ IH]; cbn.
  - induction Hb as [|x b Hx _ IH]; cbn; [done|].
    rewrite (proj2 (N.ltb_lt _ _) Hx). cbn in IH. by rewrite IH.
  - by rewrite (proj2 (N.ltb_ge _ _) Hx).
Qed.

(** The cursor of the last event read splits a sorted log where it was read. *)
Lemma cursor_splits (l more : list AgentEventEnvelope) :
  StronglySorted (fun a b => ev_seq a < ev_seq b)%N (l ++ more) ->
  Forall (fun e => 0 < ev_seq e)%N (l ++ more) ->
  let n := from_option ev_seq 0%N (last l) in
  Forall (fun e => ev_seq e <= n)%N l /\ Forall (fun e => n < ev_seq e)%N more.
Proof.
  intros Hs Hpos n. subst n. destruct (last l) as [y|] eqn:Ey; cbn.
  - split; apply Forall_forall; intros x Hx.
    + apply sorting.StronglySorted_app_1_l in Hs.
      destruct (StronglySorted_last _ _ y x Hs Ey Hx) as [->|]; lia.
    + apply last_Some_elem_of in Ey. by apply (sorting.StronglySorted_app_1_elem_of _ _ _ y x Hs).
  - apply last_None in Ey. subst l. by split.
Qed.

(** ** Properties *)

(** Run records: no sequence of inserts and saves, whatever the store
    behind the contract answers to each, makes a record appear that was never
    inserted, and a record that is read is one that was written, under its
    own id; [save] never becomes an insert. *)
Theorem run_store_sound ws s id r :
  run_get id s = Ok None -> run_get id (@apply_writes _ run_insert run_save ws s) = Ok (Some r) ->
  run_id r = id /\ r ∈ map written ws /\ exists r0, WInsert r0 ∈ ws /\ run_id r0 = id.
Proof. apply (run_writes_sound (H := memory_run_store)). Qed.

(** The event log is append-only, ordered and replayable: whatever envelopes
    are appended (stale, repeated or of other runs), the events of a run
    already read stay where they are, what is added is taken in order from the
    envelopes of that run, the whole log has strictly increasing sequence
    numbers, and a reader that has seen the log up to some event receives
    exactly the rest by asking for what follows that event's number. *)
Theorem event_log_append_only es s id l :
  events_ok s -> all_events id s = Ok l ->
  exists more,
    all_events id (appends es s) = Ok (l ++ more) /\
    more `sublist_of` List.filter (of_run id) es /\
    StronglySorted (fun a b => ev_seq a < ev_seq b)%N (l ++ more) /\
    events_after id (from_option ev_seq 0%N (last l)) (appends es s) = Ok more.
Proof.
  intros Hok Hl. destruct (appends_extend es s id l Hok Hl) as (more & H1 & H2).
  exists more. pose proof (appends_ok es s Hok) as Hok'.
  destruct (elc_sorted (EventLogContract := memory_event_log) _ _ _ _ Hok' H1) as [Hs Hf].
  split_and!; [done..|].
  destruct (elc_replay (EventLogContract := memory_event_log) _ id
              (from_option ev_seq 0%N (last l)) _ Hok' H1) as (seen & rest & E & Hr & Hseen).
  destruct (elc_sorted (EventLogContract := memory_event_log) _ _ _ _ Hok' Hr) as [_ Hrest].
  destruct (cursor_splits l more Hs) as [Hlow Hhigh].
  { apply Forall_impl with (1 := Hf). by intros e []. }
  rewrite Hr. f_equal. rewrite <- (filter_above_app _ _ _ Hlow Hhigh), E. symmetry.
  apply filter_above_app; [done|]. apply Forall_impl with (1 := Hrest). by intros e [].
Qed.

Lemma run_store_sound_witness :
  let r := with_created_at 7 1000 in
  let s := {| poisoned := false; held := ∅ |} : Locked run_map in
  let ws := [WSave r; WInsert r; WSave (set_state r Running 2000)] in
  run_get 7 (@apply_writes _ run_insert run_save ws s) = Ok (Some (set_state r Running 2000)) /\
  exists r0, WInsert r0 ∈ ws /\ run_id r0 = 7%N.
Proof.
  intros r s ws.
  assert (run_get 7 (@apply_writes _ run_insert run_save ws s) = Ok (Some (set_state r Running 2000)))
    as Hg by (by vm_compute).
  split; [exact Hg|].
  exact (proj2 (proj2 (run_store_sound ws s 7 _ ltac:(by vm_compute) Hg))).
Defined.

Lemma event_log_append_only_witness :
  let e n := {| ev_run_id := 7; ev_seq := n; ev_timestamp_epoch_ms := 0; ev_event := RunStarted |} in
  let s := {| poisoned := false; held := {[ 7%N := [e 1%N] ]} |} : Locked event_map in
  all_events 7 (appends [e 1%N; e 4%N; e 3%N] s) = Ok [e 1; e 4]%N /\
  exists more, all_events 7 (appends [e 1%N; e 4%N; e 3%N] s) = Ok ([e 1%N] ++ more) /\
    events_after 7 1 (appends [e 1%N; e 4%N; e 3%N] s) = Ok more.
Proof.
  intros e s. split; [by vm_compute|].
  assert (events_ok s) as Hok.
  { apply map_Forall_singleton. split; repeat constructor. }
  destruct (event_log_append_only [e 1%N; e 4%N; e 3%N] s 7 [e 1%N] Hok ltac:(by vm_compute))
    as (more & H1 & _ & _ & H2).
  exists more. split; [exact H1|exact H2].
Defined.
