(* ===== verification/Control.v ===== *)
(** * The controller: state, environment and primitives (agent/controller.rs,
    agent/reasoner.rs, agent/changeset.rs)

    [Ctl] is the [AgentController] record; what it only reads is [Config].
    Everything the controller calls outside itself is a request [Req] with a
    typed response, answered by an environment that is a parameter: stores,
    reasoner, gate, dispatcher, change-set executor, clocks, identifiers and
    the cancellation flag.  A method is a function from the state and the
    environment to a result, the new state, and the requests it made with
    their responses, newest first; the state survives an error, as [&mut self]
    does. *)
From S2P Require Import Prelude Str RunState Context Tools Policy Externals Decision Gate.
From S2P Require Import Approval CommandLoop Evidence Facts Events Dispatch Stores.

(** ** Constants *)
Definition AGENT_BUDGET_EXCEEDED : str := lit "AGENT_BUDGET_EXCEEDED".
Definition AGENT_TIME_BUDGET_EXCEEDED : str := lit "AGENT_TIME_BUDGET_EXCEEDED".
Definition AGENT_GOAL_INVALID : str := lit "AGENT_GOAL_INVALID".
Definition AGENT_NOT_AWAITING_USER : str := lit "AGENT_NOT_AWAITING_USER".
Definition AGENT_NOT_AWAITING_APPROVAL : str := lit "AGENT_NOT_AWAITING_APPROVAL".
Definition AGENT_INVALID_USER_INPUT : str := lit "AGENT_INVALID_USER_INPUT".
Definition AGENT_REASONER_FAILED : str := lit "AGENT_REASONER_FAILED".
Definition CHANGE_PROPOSAL_NOT_EVIDENCE_BOUND : str := lit "CHANGE_PROPOSAL_NOT_EVIDENCE_BOUND".
Definition CHANGESET_POLICY_BLOCKED : str := lit "CHANGESET_POLICY_BLOCKED".
Definition CHANGESET_EXECUTION_FAILED : str := lit "CHANGESET_EXECUTION_FAILED".
Definition MAX_GOAL_BYTES : N := 8 * 1024.
Definition OBSERVATION_CONTEXT_TTL_MS : N := 30000.
Definition GENERIC_TOOL_FAILURE_CODE : str := lit "TOOL_FAILED".
Definition COMMAND_EVENT_PREVIEW_CHARS : nat := N.to_nat (8 * 1024).
Definition MAX_REASONER_RECOVERIES : N := 2.
Definition RECENT_OBSERVATIONS : nat := 8.

Definition recoverable_reasoner_error (code : str) : bool :=
  str_in [lit "MODEL_JSON_INVALID"; lit "MODEL_RESPONSE_INVALID"; lit "MODEL_RESPONSE_EMPTY";
          lit "MODEL_DECISION_INVALID"] code.

Record RunBudget := {
  max_reasoner_rounds : N;
  max_tool_calls : N;
  time_budget_ms : N;
}.
Definition default_budget : RunBudget :=
  {| max_reasoner_rounds := 50; max_tool_calls := 20; time_budget_ms := 5 * 60 * 1000 |}.

Inductive RunOutcome :=
  | OutCompleted (summary : str)
  | OutAwaitingUser (question : str)
  | OutAwaitingApproval (approval_id tool_call_id : Uuid)
  | OutCancelled
  | OutFailed (error_code : str).
#[export] Instance run_outcome_eq_dec : EqDecision RunOutcome.
Proof. solve_decision. Defined.

Inductive AgentControllerError :=
  | ErrStore (e : AgentStoreError) | ErrState (e : AgentStateError)
  | ErrInvalidGoal | ErrMissingSession | ErrNotAwaitingUser | ErrNotAwaitingApproval
  | ErrInvalidUserInput | ErrApprovalNotFound | ErrAlreadyTerminal | ErrNotFailed.

Definition controller_error_code (e : AgentControllerError) : str :=
  match e with
  | ErrStore e => store_error_code e
  | ErrState e => state_error_code e
  | ErrInvalidGoal => AGENT_GOAL_INVALID
  | ErrMissingSession => lit "AGENT_SESSION_REQUIRED"
  | ErrNotAwaitingUser => AGENT_NOT_AWAITING_USER
  | ErrNotAwaitingApproval => AGENT_NOT_AWAITING_APPROVAL
  | ErrInvalidUserInput => AGENT_INVALID_USER_INPUT
  | ErrApprovalNotFound => AGENT_APPROVAL_NOT_FOUND
  | ErrAlreadyTerminal => lit "AGENT_ALREADY_TERMINAL"
  | ErrNotFailed => lit "AGENT_NOT_FAILED"
  end.

Inductive ChangeSetExecutorError :=
  | CseStore (code : str) | CsePolicyBlocked | CseExecutionFailed | CseInvalidOperation.
Definition changeset_error_code (e : ChangeSetExecutorError) : str :=
  match e with
  | CseStore code => code
  | CsePolicyBlocked => CHANGESET_POLICY_BLOCKED
  | CseExecutionFailed => CHANGESET_EXECUTION_FAILED
  | CseInvalidOperation => lit "INVALID_OPERATION"
  end.

(** Why a method stops: its error, a panic of [expect], or, in this model
    only, a bound on a loop that was too small. *)
Inductive abort := Error (e : AgentControllerError) | Panicked | OutOfFuel.

(** ** The controller's fields *)
Record Config := {
  goal : str;
  target_ids : list Uuid;
  session_id : option Uuid;
  budget : RunBudget;
}.

Record Ctl := {
  config : Config;
  run : AgentRun;
  observations : list Observation;
  evidence : list Evidence;
  working_facts : list WorkingFact;
  artifact_refs : list ArtifactReference;
  metrics : RunMetrics;
  user_replies : list str;
  rounds_used : N;
  tool_calls_used : N;
  pending_command_verification : bool;
  pending_command_analysis : option Uuid;
  consecutive_reasoner_recoveries : N;
  loop_started_at : option N;
}.

(** Assignments to the fields. *)
Definition set_run (x : AgentRun) (c : Ctl) : Ctl :=
    {| config := config c; run := x; observations := observations c; evidence := evidence c;
     working_facts := working_facts c; artifact_refs := artifact_refs c; metrics := metrics c;
     user_replies := user_replies c; rounds_used := rounds_used c; tool_calls_used :=
     tool_calls_used c; pending_command_verification := pending_command_verification c;
     pending_command_analysis := pending_command_analysis c; consecutive_reasoner_recoveries :=
     consecutive_reasoner_recoveries c; loop_started_at := loop_started_at c |}.
Definition set_observations (x : list Observation) (c : Ctl) : Ctl :=
    {| config := config c; run := run c; observations := x; evidence := evidence c; working_facts
     := working_facts c; artifact_refs := artifact_refs c; metrics := metrics c; user_replies :=
     user_replies c; rounds_used := rounds_used c; tool_calls_used := tool_calls_used c;
     pending_command_verification := pending_command_verification c; pending_command_analysis :=
     pending_command_analysis c; consecutive_reasoner_recoveries :=
     consecutive_reasoner_recoveries c; loop_started_at := loop_started_at c |}.
Definition set_evidence (x : list Evidence) (c : Ctl) : Ctl :=
    {| config := config c; run := run c; observations := observations c; evidence := x;
     working_facts := working_facts c; artifact_refs := artifact_refs c; metrics := metrics c;
     user_replies := user_replies c; rounds_used := rounds_used c; tool_calls_used :=
     tool_calls_used c; pending_command_verification := pending_command_verification c;
     pending_command_analysis := pending_command_analysis c; consecutive_reasoner_recoveries :=
     consecutive_reasoner_recoveries c; loop_started_at := loop_started_at c |}.
Definition set_working_facts (x : list WorkingFact) (c : Ctl) : Ctl :=
    {| config := config c; run := run c; observations := observations c; evidence := evidence c;
     working_facts := x; artifact_refs := artifact_refs c; metrics := metrics c; user_replies :=
     user_replies c; rounds_used := rounds_used c; tool_calls_used := tool_calls_used c;
     pending_command_verification := pending_command_verification c; pending_command_analysis :=
     pending_command_analysis c; consecutive_reasoner_recoveries :=
     consecutive_reasoner_recoveries c; loop_started_at := loop_started_at c |}.
Definition set_artifact_refs (x : list ArtifactReference) (c : Ctl) : Ctl :=
    {| config := config c; run := run c; observations := observations c; evidence := evidence c;
     working_facts := working_facts c; artifact_refs := x; metrics := metrics c; user_replies :=
     user_replies c; rounds_used := rounds_used c; tool_calls_used := tool_calls_used c;
     pending_command_verification := pending_command_verification c; pending_command_analysis :=
     pending_command_analysis c; consecutive_reasoner_recoveries :=
     consecutive_reasoner_recoveries c; loop_started_at := loop_started_at c |}.
Definition set_metrics (x : RunMetrics) (c : Ctl) : Ctl :=
    {| config := config c; run := run c; observations := observations c; evidence := evidence c;
     working_facts := working_facts c; artifact_refs := artifact_refs c; metrics := x;
     user_replies := user_replies c; rounds_used := rounds_used c; tool_calls_used :=
     tool_calls_used c; pending_command_verification := pending_command_verification c;
     pending_command_analysis := pending_command_analysis c; consecutive_reasoner_recoveries :=
     consecutive_reasoner_recoveries c; loop_started_at := loop_started_at c |}.
Definition set_user_replies (x : list str) (c : Ctl) : Ctl :=
    {| config := config c; run := run c; observations := observations c; evidence := evidence c;
     working_facts := working_facts c; artifact_refs := artifact_refs c; metrics := metrics c;
     user_replies := x; rounds_used := rounds_used c; tool_calls_used := tool_calls_used c;
     pending_command_verification := pending_command_verification c; pending_command_analysis :=
     pending_command_analysis c; consecutive_reasoner_recoveries :=
     consecutive_reasoner_recoveries c; loop_started_at := loop_started_at c |}.
Definition set_rounds_used (x : N) (c : Ctl) : Ctl :=
    {| config := config c; run := run c; observations := observations c; evidence := evidence c;
     working_facts := working_facts c; artifact_refs := artifact_refs c; metrics := metrics c;
     user_replies := user_replies c; rounds_used := x; tool_calls_used := tool_calls_used c;
     pending_command_verification := pending_command_verification c; pending_command_analysis :=
     pending_command_analysis c; consecutive_reasoner_recoveries :=
     consecutive_reasoner_recoveries c; loop_started_at := loop_started_at c |}.
Definition set_tool_calls_used (x : N) (c : Ctl) : Ctl :=
    {| config := config c; run := run c; observations := observations c; evidence := evidence c;
     working_facts := working_facts c; artifact_refs := artifact_refs c; metrics := metrics c;
     user_replies := user_replies c; rounds_used := rounds_used c; tool_calls_used := x;
     pending_command_verification := pending_command_verification c; pending_command_analysis :=
     pending_command_analysis c; consecutive_reasoner_recoveries :=
     consecutive_reasoner_recoveries c; loop_started_at := loop_started_at c |}.
Definition set_pending_command_verification (x : bool) (c : Ctl) : Ctl :=
    {| config := config c; run := run c; observations := observations c; evidence := evidence c;
     working_facts := working_facts c; artifact_refs := artifact_refs c; metrics := metrics c;
     user_replies := user_replies c; rounds_used := rounds_used c; tool_calls_used :=
     tool_calls_used c; pending_command_verification := x; pending_command_analysis :=
     pending_command_analysis c; consecutive_reasoner_recoveries :=
     consecutive_reasoner_recoveries c; loop_started_at := loop_started_at c |}.
Definition set_pending_command_analysis (x : option Uuid) (c : Ctl) : Ctl :=
    {| config := config c; run := run c; observations := observations c; evidence := evidence c;
     working_facts := working_facts c; artifact_refs := artifact_refs c; metrics := metrics c;
     user_replies := user_replies c; rounds_used := rounds_used c; tool_calls_used :=
     tool_calls_used c; pending_command_verification := pending_command_verification c;
     pending_command_analysis := x; consecutive_reasoner_recoveries :=
     consecutive_reasoner_recoveries c; loop_started_at := loop_started_at c |}.
Definition set_consecutive_reasoner_recoveries (x : N) (c : Ctl) : Ctl :=
    {| config := config c; run := run c; observations := observations c; evidence := evidence c;
     working_facts := working_facts c; artifact_refs := artifact_refs c; metrics := metrics c;
     user_replies := user_replies c; rounds_used := rounds_used c; tool_calls_used :=
     tool_calls_used c; pending_command_verification := pending_command_verification c;
     pending_command_analysis := pending_command_analysis c; consecutive_reasoner_recoveries := x;
     loop_started_at := loop_started_at c |}.
Definition set_loop_started_at (x : option N) (c : Ctl) : Ctl :=
    {| config := config c; run := run c; observations := observations c; evidence := evidence c;
     working_facts := working_facts c; artifact_refs := artifact_refs c; metrics := metrics c;
     user_replies := user_replies c; rounds_used := rounds_used c; tool_calls_used :=
     tool_calls_used c; pending_command_verification := pending_command_verification c;
     pending_command_analysis := pending_command_analysis c; consecutive_reasoner_recoveries :=
     consecutive_reasoner_recoveries c; loop_started_at := x |}.

(** ** What the reasoner sees *)
Record BudgetStatus := {
  bs_rounds_used : N; bs_max_rounds : N; bs_tool_calls_used : N; bs_max_tool_calls : N;
  bs_elapsed_ms : N; bs_time_budget_ms : N }.

Record ReasonerInput := {
  ri_run_id : Uuid;
  ri_session_id : option Uuid;
  ri_target_ids : list Uuid;
  ri_goal : str;
  ri_round : N;
  ri_observations : list Observation;
  ri_user_replies : list str;
  ri_budget : BudgetStatus;
  ri_verification_required : bool;
  ri_context : ContextSnapshot;
}.

(** ** Requests to the environment *)
Inductive Req : Type -> Type :=
  | RunInsert (r : AgentRun) : Req (result AgentStoreError unit)
  | RunSave (r : AgentRun) : Req (result AgentStoreError unit)
  | SaveMetrics (id : Uuid) (metrics_json : str) : Req (result AgentStoreError unit)
  | AppendEvent (e : AgentEventEnvelope) : Req (result AgentStoreError unit)
  | ApprovalInsert (a : ApprovalRequest) : Req (result AgentStoreError unit)
  | ApprovalGet (id : Uuid) : Req (result AgentStoreError (option ApprovalRequest))
  | ApprovalSave (a : ApprovalRequest) : Req (result AgentStoreError unit)
  | ApprovalPending (run_id : Uuid) : Req (result AgentStoreError (option ApprovalRequest))
  | CheckpointSave (c : AgentCheckpoint) : Req (result AgentStoreError unit)
  | PendingPut (call : PreparedToolCall) : Req (result AgentStoreError unit)
  | PendingGet (id : Uuid) : Req (result AgentStoreError (option PreparedToolCall))
  | PendingRemove (id : Uuid) : Req (result AgentStoreError unit)
  | PutCommand (c : PreparedCommandProposal) : Req (result AgentStoreError unit)
  | GetCommand (id : Uuid) : Req (result AgentStoreError (option PreparedCommandProposal))
  | RemoveCommand (id : Uuid) : Req (result AgentStoreError unit)
  | Decide (input : ReasonerInput) : Req (result str AgentDecision)
  | Authorize (call : PreparedToolCall) : Req Authorization
  | AuthorizeCommand (c : PreparedCommandProposal) : Req CommandAuthorization
  | PolicyMatches (version : N) (hash : str) : Req bool
  | ExecuteReads (run_id : Uuid) (calls : list PreparedToolCall) : Req (list ToolOutcome)
  | ExecuteCommand (run_id : Uuid) (c : PreparedCommandProposal) : Req CommandOutcome
  | CsDraft (run_id : Uuid) (title : str) (steps : list ChangeStepDraft) :
      Req (result ChangeSetExecutorError ChangeSet)
  | CsApprove (id : Uuid) (version : N) : Req (result ChangeSetExecutorError ChangeSet)
  | CsExecute (id : Uuid) (version : N) : Req (result ChangeSetExecutorError ChangeSet)
  | CsVerify (id : Uuid) (version : N) : Req (result ChangeSetExecutorError bool)
  | CsRollback (id : Uuid) (version : N) : Req (result ChangeSetExecutorError ChangeSet)
  | ArtifactPut (a : ToolArtifact) : Req (result unit unit)
  | FreshIds : Req (nat -> Uuid)            (* the next results of [Uuid::new_v4] *)
  | EpochClock : Req (option N)             (* milliseconds since the epoch *)
  | InstantClock : Req N                    (* the monotonic clock, in milliseconds *)
  | IsCancelled : Req bool.

(** One request and its response. *)
Inductive action := | Act {X : Type} (q : Req X) (x : X).

Class Environment (W : Type) := answer : forall X, Req X -> W -> X * W.
Arguments answer {W _ X}.

(** The derived serialisations of the types the controller stores as text. *)
Class Serde := {
  facts_to_json : list WorkingFact -> option str;
  facts_of_json : str -> option (list WorkingFact);
  metrics_to_json : RunMetrics -> option str;
}.

(** ** The monad *)
Section Monad.
Context {W : Type} `{Environment W}.

Definition method (A : Type) : Type := Ctl -> W -> result abort A * Ctl * W * list action.

#[local] Abbreviation M := method.

#[export] Instance m_ret : MRet M := fun _ a c w => (Ok a, c, w, []).
#[export] Instance m_bind : MBind M := fun _ _ k m c w =>
  match m c w with
  | (Ok a, c', w', l) => let '(r, c'', w'', l') := k a c' w' in (r, c'', w'', l' ++ l)
  | (Err e, c', w', l) => (Err e, c', w', l)
  end.

Definition throw {A} (e : AgentControllerError) : M A := fun c w => (Err (Error e), c, w, []).
Definition panic {A} : M A := fun c w => (Err Panicked, c, w, []).
Definition out_of_fuel {A} : M A := fun c w => (Err OutOfFuel, c, w, []).
Definition gets {A} (f : Ctl -> A) : M A := fun c w => (Ok (f c), c, w, []).
Definition modify (f : Ctl -> Ctl) : M unit := fun c w => (Ok tt, f c, w, []).
Definition perform {X} (q : Req X) : M X := fun c w =>
  let '(x, w') := answer q w in (Ok x, c, w', [Act q x]).

(** [?] on the response of a store. *)
Definition store {A} (q : Req (result AgentStoreError A)) : M A :=
  r ← perform q; match r with Ok a => mret a | Err e => throw (ErrStore e) end.
Definition unwrap_or_throw {A} (o : option A) (e : AgentControllerError) : M A :=
  match o with Some a => mret a | None => throw e end.

(** [now_epoch_ms()] and [elapsed_ms(started)]. *)
Definition now_ms : M N := t ← perform EpochClock; mret (now_epoch_ms t).
Definition elapsed_ms (started : N) : M N :=
  now ← perform InstantClock; mret (N.min (now - started) U64_MAX).
Definition new_id : M Uuid := ids ← perform FreshIds; mret (ids 0%nat).

Fixpoint m_iter {A} (f : A -> M unit) (l : list A) : M unit :=
  match l with
  | [] => mret tt
  | a :: rest => f a ;; m_iter f rest
  end.
End Monad.
Arguments method W A : clear implicits.

(** ** Primitives *)
Section Primitives.
Context {W : Type} `{Environment W} `{Externals} `{Serde}.
#[local] Abbreviation M := (method W).

Definition emit_event (event : AgentEvent) : M unit :=
  r ← gets run;
  let '(seq, r') := next_event_sequence r in
  modify (set_run r') ;;
  now ← now_ms;
  store (AppendEvent {| ev_run_id := run_id r'; ev_seq := seq; ev_timestamp_epoch_ms := now;
                        ev_event := event |}) ;;
  r ← gets run; store (RunSave r).

Definition persist_metrics : M unit :=
  m ← gets metrics;
  r ← gets run;
  json ← unwrap_or_throw (metrics_to_json m) (ErrStore PersistenceFailed);
  store (SaveMetrics (run_id r) json).

(** [self.run.transition_to(next)?] *)
Definition run_transition (next : AgentRunStateV2) : M unit :=
  now ← now_ms;
  r ← gets run;
  match transition_to next now r with
  | (Ok _, r') => modify (set_run r')
  | (Err e, _) => throw (ErrState e)
  end.

Definition transition (next : AgentRunStateV2) : M unit :=
  run_transition next ;;
  r ← gets run;
  store (RunSave r) ;;
  if is_terminal next then persist_metrics else mret tt.

(** [self.run.begin_user_turn()?; self.run_store.save(&self.run)?] *)
Definition begin_turn : M unit :=
  now ← now_ms;
  r ← gets run;
  match begin_user_turn now r with
  | (Ok _, r') => modify (set_run r')
  | (Err e, _) => throw (ErrState e)
  end ;;
  r ← gets run; store (RunSave r).

Definition push_observation (o : Observation) : M unit :=
  modify (fun c => set_observations (observations c ++ [o]) c).
Definition update_metrics (f : RunMetrics -> RunMetrics) : M unit :=
  modify (fun c => set_metrics (f (metrics c)) c).

(** The observation of a failed or rejected action and its event. *)
Definition observe (id : option Uuid) (name : option str) (success : bool) (code : option str)
    (summary : str) (detail : option str) : M unit :=
  emit_event (ObservationAdded summary) ;;
  push_observation {| ob_tool_call_id := id; ob_tool_name := name; ob_success := success;
                      ob_error_code := code; ob_summary := summary; ob_detail := detail |}.

Definition save_checkpoint (pending : option PendingInterruptRef) (started : N) : M unit :=
  elapsed ← elapsed_ms started;
  now ← now_ms;
  c ← gets id;
  store (CheckpointSave
    {| cp_run_id := run_id (run c); cp_state := run_state (run c);
       cp_event_cursor := sat_sub (peek_next_event_seq (run c)) 1;
       cp_pending_interrupt := pending;
       cp_budget := {| bc_rounds_used := rounds_used c; bc_tool_calls_used := tool_calls_used c;
                       bc_elapsed_ms := elapsed |};
       cp_target_ids := target_ids (config c);
       cp_fact_snapshot := default (lit "[]") (facts_to_json (working_facts c));
       cp_created_at_epoch_ms := now |}).

Definition finish_cancelled : M RunOutcome :=
  transition RunState.Cancelled ;; emit_event RunCancelled ;; mret OutCancelled.

Definition fail (error_code : str) : M RunOutcome :=
  transition Failed ;; emit_event (RunFailed error_code) ;; mret (OutFailed error_code).

Definition fail_reasoner (code : str) : M RunOutcome :=
  transition Failed ;; emit_event (RunFailed code) ;; mret (OutFailed AGENT_REASONER_FAILED).

(** [self.loop_started_at.map(elapsed_ms).unwrap_or(0)] *)
Definition loop_elapsed : M N :=
  started ← gets loop_started_at;
  match started with Some s => elapsed_ms s | None => mret 0%N end.

(** [self.loop_started_at.expect("loop clock initialized")] *)
Definition loop_clock : M N :=
  started ← gets loop_started_at;
  match started with Some s => mret s | None => panic end.

(** ** Context *)
Definition artifact_item (now : N) (r : ArtifactReference) : AgentContextItem :=
  let content := lit "Artifact " ++ uuid_display (ar_artifact_id r) ++ lit " (" ++ dec (ar_byte_len r)
                 ++ lit " bytes): " ++ ar_summary r in
  {| ci_id := ar_artifact_id r; ci_source := lit "artifact:" ++ ar_tool_name r;
     ci_source_kind := SrcLogs; ci_trust := UntrustedRemoteData; ci_redacted := true;
     ci_content := content;
     ci_freshness := {| observed_at := now; ttl_ms := OBSERVATION_CONTEXT_TTL_MS |};
     ci_estimated_tokens := N.max (clamp32 (blen content / 4)) 1 |}.

Definition observation_item (id : Uuid) (now : N) (o : Observation) : AgentContextItem :=
  let content := ob_summary o ++ match ob_detail o with
    | Some detail => lit "
" ++ (if (2048 <? blen detail)%N then take_bytes 2048 detail else detail)
    | None => [] end in
  {| ci_id := id;
     ci_source := match ob_tool_name o with
                  | Some name => lit "tool:" ++ name | None => lit "runtime:decision" end;
     ci_source_kind := SrcNativeTools; ci_trust := UntrustedRemoteData; ci_redacted := true;
     ci_content := content;
     ci_freshness := {| observed_at := now; ttl_ms := OBSERVATION_CONTEXT_TTL_MS |};
     ci_estimated_tokens := N.max (clamp32 (blen content / 4)) 1 |}.

Definition attach_reference (now : N) (s : ContextSnapshot) (r : ArtifactReference) :
    ContextSnapshot :=
  let item := artifact_item now r in
  {| cs_items := cs_items s ++ [item]; cs_facts := cs_facts s;
     cs_estimated_tokens := sat_add32 (cs_estimated_tokens s) (ci_estimated_tokens item);
     cs_total_bytes := sat_add64 (cs_total_bytes s) (blen (ci_content item));
     cs_compaction_count := cs_compaction_count s |}.

(** [build_context] on the ids it draws: the goal's, then one per observation. *)
Definition build_context (ids : nat -> Uuid) (now : N) (c : Ctl) : ContextSnapshot :=
  let recent := drop (length (observations c) - RECENT_OBSERVATIONS)%nat (observations c) in
  let items := user_context (ids 0%nat) (goal (config c)) (created_at_epoch_ms (run c))
               :: imap (fun k o => observation_item (ids (S k)) now o) recent in
  let snap := snapshot items default_context_budget now in
  let facts := map to_context_fact (fresh_facts (working_facts c) now) in
  let snap := match facts with [] => snap | _ => compact snap facts end in
  foldl (attach_reference now) snap (artifact_refs c).
End Primitives.
