(* ===== verification/Controller.v ===== *)
(** * The controller's methods (agent/controller.rs)

    The loop and the public operations, each as the code composes it.
    [drive_loop] runs on fuel: a round either ends the drive or uses up one of
    the [max_reasoner_rounds], so [loop_fuel] is always enough.  The debug
    traces of [trace_runtime] are not modelled. *)
From S2P Require Import Prelude Str RunState Context Tools Policy Externals Decision Gate.
From S2P Require Import Approval CommandLoop Evidence Facts Events Dispatch Stores Control.

Section Controller.
Context {W : Type} `{Environment W} `{Externals} `{Serde}.
#[local] Abbreviation M := (method W).

(** ** Outcomes become observations *)
Definition maybe_store_artifact (outcome : ToolOutcome) : M (option str) :=
  match to_sanitized_data outcome with
  | None => mret None
  | Some raw =>
      if negb (should_store_as_artifact raw) then mret (Some raw) else
      now ← now_ms;
      id ← new_id;
      r ← gets run;
      let artifact := large_output_artifact id (run_id r) (to_tool_call_id outcome)
                        (to_tool_name outcome) (to_summary outcome) raw now in
      put ← perform (ArtifactPut artifact);
      match put with
      | Err _ => throw (ErrStore PersistenceFailed)
      | Ok _ =>
          let reference := artifact_reference artifact in
          modify (fun c => set_artifact_refs (artifact_refs c ++ [reference]) c) ;;
          update_metrics (record_artifact_bytes (art_byte_len artifact)) ;;
          mret (Some (lit "artifact:" ++ uuid_display (ar_artifact_id reference) ++ lit " bytes="
                      ++ dec (ar_byte_len reference) ++ lit " summary=" ++ ar_summary reference))
      end
  end.

Definition evidence_of (outcome : ToolOutcome) (result : ToolResult) : Evidence :=
  {| evd_id := to_tool_call_id outcome;
     evd_source := lit "tool." ++ tool_as_str (tr_tool_name result);
     evd_invocation_id := tr_invocation_id result; evd_trust := UntrustedRemoteData;
     evd_summary := tr_summary result; evd_result := result |}.

(** The facts and the evidence of a typed result. *)
Definition learn (outcome : ToolOutcome) (result : ToolResult) : M unit :=
  now ← now_ms;
  ids ← perform FreshIds;
  c ← gets id;
  let extracted := extract_facts_from_result ids result (to_tool_call_id outcome)
                     (head (target_ids (config c))) now
                     (Some (sat_sub (peek_next_event_seq (run c)) 1)) in
  let '(changed, facts) := upsert_many extracted (working_facts c) in
  modify (set_working_facts facts) ;;
  (if (length changed =? 0)%nat then mret tt else emit_event (FactsUpdated changed)) ;;
  modify (fun c => set_evidence (evidence c ++ [evidence_of outcome result]) c).

Definition record_outcome (outcome : ToolOutcome) : M unit :=
  elapsed ← loop_elapsed;
  (if to_success outcome then update_metrics (maybe_record_first_observation elapsed)
   else update_metrics record_tool_failure ;; update_metrics record_recovery_attempt) ;;
  (if to_success outcome then emit_event (ToolCompleted (to_tool_call_id outcome))
   else emit_event (ToolFailed (to_tool_call_id outcome)
                      (default GENERIC_TOOL_FAILURE_CODE (to_error_code outcome)))) ;;
  let status := if to_success outcome then lit "succeeded" else lit "failed" in
  let summary := to_tool_name outcome ++ lit " " ++ status ++ lit ": " ++ to_summary outcome in
  emit_event (ObservationAdded summary) ;;
  detail ← maybe_store_artifact outcome;
  push_observation {| ob_tool_call_id := Some (to_tool_call_id outcome);
                      ob_tool_name := Some (to_tool_name outcome);
                      ob_success := to_success outcome; ob_error_code := to_error_code outcome;
                      ob_summary := summary; ob_detail := detail |} ;;
  match to_tool_result outcome with Some result => learn outcome result | None => mret tt end.

Definition command_output_preview (o : CommandOutcome) : str :=
  let out := trim (co_stdout o) in
  let err := trim (co_stderr o) in
  let source :=
    if is_empty err then out else if is_empty out then err else out ++ lit "
" ++ err in
  let preview := take COMMAND_EVENT_PREVIEW_CHARS source in
  if (COMMAND_EVENT_PREVIEW_CHARS <? length source)%nat then preview ++ lit "
…" else preview.

(** The verification a command leaves outstanding. *)
Definition verification_after (m : CommandMutability) (success pending : bool) : bool :=
  match m with
  | Mutating | MutabilityUnknown => true
  | ReadIntent => if success then false else pending
  end.

Definition record_command_outcome (command : PreparedCommandProposal) (o : CommandOutcome) :
    M unit :=
  modify (fun c => set_pending_command_verification
            (verification_after (cmd_mutability command) (co_success o)
               (pending_command_verification c)) c) ;;
  elapsed ← loop_elapsed;
  (if co_success o then
     update_metrics (maybe_record_first_observation elapsed) ;;
     emit_event (CommandCompleted (command_id command) (co_exit_code o)
                   (command_output_preview o) (co_duration_ms o))
   else
     update_metrics record_tool_failure ;; update_metrics record_recovery_attempt ;;
     emit_event (CommandFailed (command_id command) (co_exit_code o) (command_output_preview o)
                   (default (lit "COMMAND_FAILED") (co_error_code o)) (co_duration_ms o))) ;;
  let exit := match co_exit_code o with Some code => dec code | None => lit "unavailable" end in
  let summary := (if co_success o then lit "Command completed with exit code "
                  else lit "Command failed with exit code ") ++ exit in
  let detail := lit "Command: " ++ cmd_command command ++ lit "
Exit code: " ++ exit ++ lit "
stdout:
" ++ co_stdout o ++ lit "
stderr:
" ++ co_stderr o in
  push_observation {| ob_tool_call_id := Some (command_id command);
                      ob_tool_name := Some (lit "agent.command"); ob_success := co_success o;
                      ob_error_code := co_error_code o; ob_summary := summary;
                      ob_detail := Some detail |} ;;
  modify (set_pending_command_analysis (Some (command_id command))).

Definition record_change_rejection (code : str) : M unit :=
  observe None None false (Some code) (lit "Change proposal rejected (" ++ code ++ lit ")") None.

Definition record_blocked_call (call : PreparedToolCall) (reason : str) : M unit :=
  observe (Some (tool_call_id call)) (Some (ptc_tool_name call)) false (Some reason)
    (ptc_tool_name call ++ lit " blocked by policy") None.

Definition record_rejected_decision (e : DecisionError) : M unit :=
  observe None None false (Some AGENT_DECISION_INVALID)
    (lit "Decision rejected: " ++ decision_error_message e) None.

(** ** Asking for approval *)
Definition interrupt_for_approval (call : PreparedToolCall) (risk : str) (policy_version : N)
    (policy_hash : str) (started : N) : M RunOutcome :=
  emit_event (ToolApprovalRequired (tool_call_id call)) ;;
  now ← now_ms;
  new_v4 ← new_id;
  c ← gets id;
  let approval := bind new_v4 now (run_id (run c)) call (target_ids (config c)) risk
                    policy_version policy_hash in
  store (ApprovalInsert approval) ;;
  store (PendingPut call) ;;
  update_metrics record_approval_interrupt ;;
  transition AwaitingApproval ;;
  save_checkpoint (Some (ApprovalRef (ap_id approval))) started ;;
  mret (OutAwaitingApproval (ap_id approval) (tool_call_id call)).

Definition request_command_approval (command : PreparedCommandProposal) (started : N) :
    M (option RunOutcome) :=
  emit_event (ProgressUpdated (cmd_reason_summary command)) ;;
  emit_event (CommandProposed (command_id command) (cmd_command command)
                (cmd_reason_summary command) (command_risk_str (cmd_risk command))
                (command_mutability_str (cmd_mutability command))) ;;
  obs ← gets observations;
  let prior := prior_commands_from_observations obs in
  let id := Some (command_id command) in
  let name := Some (lit "agent.command") in
  if is_redundant_command (cmd_command command) prior then
    let repeats := redundant_prior_count (cmd_command command) prior in
    observe id name false (Some COMMAND_LOOP_DETECTED)
      (lit "Repeated command rejected (" ++ COMMAND_LOOP_DETECTED ++ lit ")")
      (Some (lit "Command: " ++ cmd_command command ++ lit "
" ++ loop_rejection_detail repeats)) ;;
    mret None
  else
  authorization ← perform (AuthorizeCommand command);
  match authorization with
  | CmdBlocked reason =>
      observe id name false (Some reason)
        (lit "Command proposal blocked by policy (" ++ reason ++ lit ")")
        (Some (lit "Command: " ++ cmd_command command ++ lit "
Policy blocked this proposal.")) ;;
      mret None
  | CmdRequireApproval _ policy_version policy_hash =>
      c ← gets Datatypes.id;
      session ← unwrap_or_throw (session_id (config c)) ErrMissingSession;
      now ← now_ms;
      new_v4 ← new_id;
      let approval := bind_command new_v4 now (run_id (run c)) command (target_ids (config c))
                        session policy_version policy_hash in
      store (PutCommand command) ;;
      store (ApprovalInsert approval) ;;
      emit_event (CommandApprovalRequired (ap_id approval) (command_id command)) ;;
      transition AwaitingApproval ;;
      save_checkpoint (Some (ApprovalRef (ap_id approval))) started ;;
      mret (Some (OutAwaitingApproval (ap_id approval) (command_id command)))
  end.

Definition propose_change_set (proposal : ValidatedChangeProposal) (started : N) :
    M (option RunOutcome) :=
  c ← gets id;
  if negb (change_proposal_is_evidence_bound (goal (config c)) (evidence c)
             (vcp_evidence_ids proposal) (vcp_steps proposal)) then
    record_change_rejection CHANGE_PROPOSAL_NOT_EVIDENCE_BOUND ;; mret None
  else
  transition PlanningChange ;;
  emit_event (ProgressUpdated (vcp_summary proposal)) ;;
  c ← gets id;
  drafted ← perform (CsDraft (run_id (run c)) (vcp_title proposal) (vcp_steps proposal));
  match drafted with
  | Err e =>
      record_change_rejection (changeset_error_code e) ;;
      transition Reasoning ;;
      mret None
  | Ok change_set =>
      policy ← unwrap_or_throw (cs_policy_evaluation change_set) (ErrStore StoreCorrupt);
      emit_event (ChangeSetProposed (cs_id change_set)) ;;
      emit_event (ToolApprovalRequired (proposal_id proposal)) ;;
      now ← now_ms;
      new_v4 ← new_id;
      c ← gets id;
      let approval := bind_change_set new_v4 now (run_id (run c)) (proposal_id proposal)
            (cs_id change_set) (cs_version change_set) (vcp_title proposal) (target_ids (config c))
            (risk_debug (cs_risk change_set)) (ev_policy_version policy) (ev_policy_hash policy)
            (Evidence.cp_state <$> head (cs_preconditions change_set)) in
      store (ApprovalInsert approval) ;;
      update_metrics record_approval_interrupt ;;
      transition AwaitingApproval ;;
      save_checkpoint (Some (ApprovalRef (ap_id approval))) started ;;
      mret (Some (OutAwaitingApproval (ap_id approval) (proposal_id proposal)))
  end.

(** ** Authorized reads *)

(** The loop over the calls of a decision: the first that needs approval ends
    the method, whatever was authorized before it; the others are kept. *)
Fixpoint authorize_calls (started : N) (calls auto_calls : list PreparedToolCall) :
    M (RunOutcome + list PreparedToolCall) :=
  match calls with
  | [] => mret (inr auto_calls)
  | call :: rest =>
      emit_event (ProgressUpdated (ptc_reason_summary call)) ;;
      emit_event (ToolRequested (tool_call_id call) (ptc_tool_name call)) ;;
      authorization ← perform (Authorize call);
      match authorization with
      | Auto =>
          emit_event (ToolAutoAuthorized (tool_call_id call)) ;;
          update_metrics (record_tool_call true) ;;
          authorize_calls started rest (auto_calls ++ [call])
      | AuthRequireApproval risk policy_version policy_hash =>
          outcome ← interrupt_for_approval call risk policy_version policy_hash started;
          mret (inl outcome)
      | Blocked reason =>
          record_blocked_call call reason ;;
          authorize_calls started rest auto_calls
      end
  end.

Definition execute_authorized_calls (calls : list PreparedToolCall) (started : N) :
    M (option RunOutcome) :=
  transition Acting ;;
  authorized ← authorize_calls started calls [];
  match authorized with
  | inl outcome => mret (Some outcome)
  | inr auto_calls =>
      if (length auto_calls =? 0)%nat then mret None else
      m_iter (fun call => emit_event (ToolStarted (tool_call_id call))) auto_calls ;;
      c ← gets id;
      outcomes ← perform (ExecuteReads (run_id (run c)) auto_calls);
      modify (fun c => set_tool_calls_used
                (sat_add32 (tool_calls_used c) (clamp32 (list_lenN auto_calls))) c) ;;
      transition Observing ;;
      m_iter record_outcome outcomes ;;
      mret None
  end.

(** ** The loop *)
Definition analysis_of (decision : ValidatedDecision) : str :=
  match decision with
  | VCommandProposal command =>
      default (cmd_reason_summary command) (cmd_observation_analysis command)
  | VFinal summary => summary
  | VAskUser question => question
  | VToolCalls calls =>
      match calls with
      | call :: _ => ptc_reason_summary call
      | [] => lit "Continuing the investigation based on the command result."
      end
  | VProposeChangeSet proposal => vcp_summary proposal
  end.

Definition emit_pending_command_analysis (decision : ValidatedDecision) : M unit :=
  pending ← gets pending_command_analysis;
  match pending with
  | None => mret tt
  | Some id =>
      emit_event (CommandAnalysisUpdated id (analysis_of decision)) ;;
      modify (set_pending_command_analysis None)
  end.

(** Parking the run until the user answers. *)
Definition await_user (question : str) (started : N) : M RunOutcome :=
  emit_event (UserInputRequired question) ;;
  transition AwaitingUser ;;
  save_checkpoint (Some (UserInputRef question)) started ;;
  mret (OutAwaitingUser question).

Definition VERIFICATION_QUESTION : str := lit "A mutating or unknown command still requires a successful read-only verification command before completion. Propose a verification command, or stop the run.".
Definition VERIFICATION_SUMMARY : str := lit "A mutating or unknown command requires a successful follow-up verification command before completion.".

Definition on_final (summary : str) (started : N) : M (option RunOutcome) :=
  c ← gets id;
  if pending_command_verification c then
    let already_notified :=
      match last (observations c) with
      | Some o => bool_decide (ob_error_code o = Some (lit "COMMAND_VERIFICATION_REQUIRED"))
      | None => false
      end in
    if already_notified then
      outcome ← await_user VERIFICATION_QUESTION started; mret (Some outcome)
    else
      observe None (Some (lit "agent.command.verification")) false
        (Some (lit "COMMAND_VERIFICATION_REQUIRED")) VERIFICATION_SUMMARY None ;;
      mret None
  else
    emit_event (AssistantMessageAdded summary) ;;
    resolved ← elapsed_ms started;
    update_metrics (record_resolution resolved) ;;
    diagnosed ← elapsed_ms started;
    update_metrics (maybe_record_diagnosis diagnosed) ;;
    transition Completed ;;
    emit_event RunCompleted ;;
    mret (Some (OutCompleted summary)).

(** The [match validated] of the loop: [Some] ends the drive. *)
Definition act_on (validated : ValidatedDecision) (started : N) : M (option RunOutcome) :=
  match validated with
  | VFinal summary => on_final summary started
  | VAskUser question => outcome ← await_user question started; mret (Some outcome)
  | VToolCalls calls =>
      c ← gets id;
      if (max_tool_calls (budget (config c)) <?
          sat_add32 (tool_calls_used c) (clamp32 (list_lenN calls)))%N
      then outcome ← fail AGENT_BUDGET_EXCEEDED; mret (Some outcome)
      else execute_authorized_calls calls started
  | VCommandProposal command =>
      c ← gets id;
      if (max_tool_calls (budget (config c)) <? sat_add32 (tool_calls_used c) 1)%N
      then outcome ← fail AGENT_BUDGET_EXCEEDED; mret (Some outcome)
      else request_command_approval command started
  | VProposeChangeSet proposal => propose_change_set proposal started
  end.

Definition RECOVERY_DETAIL : str := lit "The model returned incomplete or invalid JSON. Do not repeat the last command; synthesize from evidence or propose a different next step.".

(** What a round does with the reasoner's answer. *)
Definition on_decision (decision : result str AgentDecision) (started : N) :
    M (option RunOutcome) :=
  match decision with
  | Err code =>
      recoveries ← gets consecutive_reasoner_recoveries;
      if recoverable_reasoner_error code && (recoveries <? MAX_REASONER_RECOVERIES)%N then
        modify (set_consecutive_reasoner_recoveries (sat_add32 recoveries 1)) ;;
        observe None None false (Some code)
          (lit "Model reply was unusable (" ++ code
           ++ lit "); continuing with existing evidence") (Some RECOVERY_DETAIL) ;;
        mret None
      else outcome ← fail_reasoner code; mret (Some outcome)
  | Ok decision =>
      modify (set_consecutive_reasoner_recoveries 0) ;;
      cancelled ← perform IsCancelled;
      if cancelled : bool then outcome ← finish_cancelled; mret (Some outcome) else
      ids ← perform FreshIds;
      match validate_decision ids decision with
      | Err e => record_rejected_decision e ;; mret None
      | Ok validated =>
          emit_pending_command_analysis validated ;;
          act_on validated started
      end
  end.

(** The input of a round. *)
Definition reasoner_input (c : Ctl) (elapsed : N) (context : ContextSnapshot) : ReasonerInput :=
  {| ri_run_id := run_id (run c); ri_session_id := session_id (config c);
     ri_target_ids := target_ids (config c); ri_goal := goal (config c);
     ri_round := rounds_used c; ri_observations := observations c;
     ri_user_replies := user_replies c;
     ri_budget := {| bs_rounds_used := rounds_used c;
                     bs_max_rounds := max_reasoner_rounds (budget (config c));
                     bs_tool_calls_used := tool_calls_used c;
                     bs_max_tool_calls := max_tool_calls (budget (config c));
                     bs_elapsed_ms := elapsed;
                     bs_time_budget_ms := time_budget_ms (budget (config c)) |};
     ri_verification_required := pending_command_verification c;
     ri_context := context |}.

(** The reasoning half of a round, once the budgets allow it. *)
Definition reason (started : N) : M (option RunOutcome) :=
  c ← gets id;
  (if bool_decide (run_state (run c) = Reasoning) then mret tt else transition Reasoning) ;;
  emit_event ReasoningStarted ;;
  modify (fun c => set_rounds_used (rounds_used c + 1)%N c) ;;
  now ← now_ms;
  ids ← perform FreshIds;
  c ← gets id;
  elapsed ← elapsed_ms started;
  let context := build_context ids now c in
  decision ← perform (Decide (reasoner_input c elapsed context));
  update_metrics (record_reasoner_round (cs_estimated_tokens context)) ;;
  on_decision decision started.

(** One iteration of the loop: [None] is [continue]. *)
Definition loop_round (started : N) : M (option RunOutcome) :=
  cancelled ← perform IsCancelled;
  if cancelled : bool then outcome ← finish_cancelled; mret (Some outcome) else
  elapsed ← elapsed_ms started;
  c ← gets id;
  if (time_budget_ms (budget (config c)) <=? elapsed)%N
  then outcome ← fail AGENT_TIME_BUDGET_EXCEEDED; mret (Some outcome)
  else if (max_reasoner_rounds (budget (config c)) <=? rounds_used c)%N
  then outcome ← fail AGENT_BUDGET_EXCEEDED; mret (Some outcome)
  else reason started.

Fixpoint drive (fuel : nat) (started : N) : M RunOutcome :=
  match fuel with
  | O => out_of_fuel
  | S fuel =>
      ended ← loop_round started;
      match ended with Some outcome => mret outcome | None => drive fuel started end
  end.

(** One round for each the budget still allows, and one to report its end. *)
Definition loop_fuel (c : Ctl) : nat :=
  S (N.to_nat (max_reasoner_rounds (budget (config c)) - rounds_used c)).
Definition drive_loop (started : N) : M RunOutcome :=
  fuel ← gets loop_fuel; drive fuel started.

(** ** Resuming *)

(** [self.emit(RunResumed)?; ... self.drive_loop(expect("loop clock initialized"))] *)
Definition resume_drive : M RunOutcome :=
  emit_event RunResumed ;;
  started ← loop_clock;
  drive_loop started.
Definition reason_again : M RunOutcome := transition Reasoning ;; resume_drive.

Definition invalid_state_error (c : Ctl) (to : AgentRunStateV2) : AgentControllerError :=
  ErrState {| err_from := run_state (run c); err_to := to |}.

(** [self.loop_started_at.unwrap_or_else(Instant::now)] *)
Definition clock_or_now : M N :=
  started ← gets loop_started_at;
  match started with Some s => mret s | None => perform InstantClock end.

Definition pausable (s : AgentRunStateV2) : bool :=
  match s with
  | Running | Reasoning | Acting | Observing | Diagnosed | PlanningChange => true
  | _ => false
  end.

Definition pause : M unit :=
  c ← gets id;
  if negb (pausable (run_state (run c))) then throw (invalid_state_error c Paused) else
  transition Paused ;;
  emit_event RunPaused ;;
  started ← clock_or_now;
  save_checkpoint None started.

Definition resume : M RunOutcome :=
  c ← gets id;
  if negb (bool_decide (run_state (run c) = Paused))
  then throw (invalid_state_error c Running) else
  transition Running ;;
  emit_event RunResumed ;;
  started ← clock_or_now;
  drive_loop started.

(** [*self.loop_started_at.get_or_insert_with(Instant::now)] *)
Definition start_clock : M N :=
  started ← gets loop_started_at;
  match started with
  | Some s => mret s
  | None => now ← perform InstantClock; modify (set_loop_started_at (Some now)) ;; mret now
  end.

Definition run_to_interrupt : M RunOutcome :=
  c ← gets id;
  (if bool_decide (run_state (run c) = Created)
   then transition Running ;; emit_event RunStarted else mret tt) ;;
  started ← start_clock;
  drive_loop started.

(** The [while let] over the pending approvals of the run, on fuel: it ends
    when the store reports none. *)
Fixpoint invalidate_pending (fuel : nat) (reason : str) : M unit :=
  match fuel with
  | O => out_of_fuel
  | S fuel =>
      r ← gets run;
      pending ← store (ApprovalPending (run_id r));
      match pending with
      | None => mret tt
      | Some approval =>
          now ← now_ms;
          let approval := decide_approval Invalidated now approval in
          store (ApprovalSave approval) ;;
          emit_event (ApprovalInvalidated (ap_id approval) reason) ;;
          invalidate_pending fuel reason
      end
  end.

Definition RETRY_SUMMARY : str := lit "Retrying after a transient model or infrastructure failure".
Definition RETRY_DETAIL : str := lit "The previous reasoner call failed; continue with existing observations on the same run.".

(** The clock of a new turn. *)
Definition restart_clock : M N :=
  started ← perform InstantClock;
  modify (set_loop_started_at (Some started)) ;;
  modify (set_pending_command_analysis None) ;;
  mret started.

Definition retry_after_failure (fuel : nat) : M RunOutcome :=
  c ← gets id;
  if negb (bool_decide (run_state (run c) = Failed)) then throw ErrNotFailed else
  invalidate_pending fuel (lit "APPROVAL_RETRY_AFTER_FAILURE") ;;
  begin_turn ;;
  started ← restart_clock;
  push_observation {| ob_tool_call_id := None; ob_tool_name := None; ob_success := true;
                      ob_error_code := None; ob_summary := RETRY_SUMMARY;
                      ob_detail := Some RETRY_DETAIL |} ;;
  emit_event (ObservationAdded RETRY_SUMMARY) ;;
  emit_event RunResumed ;;
  save_checkpoint None started ;;
  drive_loop started.

(** The trimmed input, when it is neither empty nor too large. *)
Definition accepted_text (text : str) : option str :=
  let trimmed := trim text in
  if is_empty trimmed || (MAX_GOAL_BYTES <? blen trimmed)%N then None else Some trimmed.

Definition add_reply (content : str) : M unit :=
  modify (fun c => set_user_replies (user_replies c ++ [content]) c) ;;
  push_observation {| ob_tool_call_id := None; ob_tool_name := None; ob_success := true;
                      ob_error_code := None; ob_summary := lit "User replied: " ++ content;
                      ob_detail := Some content |}.

Definition invalidate_targets (c : Ctl) : Ctl :=
  set_working_facts (foldl (fun facts t => invalidate_target t facts) (working_facts c)
                       (target_ids (config c))) c.

Definition continue_conversation (fuel : nat) (answer : str) : M RunOutcome :=
  trimmed ← unwrap_or_throw (accepted_text answer) ErrInvalidUserInput;
  c ← gets id;
  if negb (is_terminal (run_state (run c))) then throw ErrNotAwaitingUser else
  invalidate_pending fuel (lit "APPROVAL_NEW_USER_TURN") ;;
  begin_turn ;;
  modify (set_rounds_used 0) ;;
  modify (set_tool_calls_used 0) ;;
  started ← restart_clock;
  modify invalidate_targets ;;
  let content := (redact_secrets trimmed).1 in
  emit_event (UserMessageAdded content) ;;
  add_reply content ;;
  emit_event RunResumed ;;
  save_checkpoint None started ;;
  drive_loop started.

Definition resume_with_user_input (answer : str) : M RunOutcome :=
  c ← gets id;
  if negb (bool_decide (run_state (run c) = AwaitingUser)) then throw ErrNotAwaitingUser else
  trimmed ← unwrap_or_throw (accepted_text answer) ErrInvalidUserInput;
  let content := (redact_secrets trimmed).1 in
  emit_event (UserMessageAdded content) ;;
  emit_event UserInputReceived ;;
  add_reply content ;;
  emit_event RunResumed ;;
  transition Reasoning ;;
  started ← loop_clock;
  drive_loop started.

(** ** Deciding an approval *)

(** [approval.decide(state); self.approvals.save(&approval)?] *)
Definition save_decision (approval : ApprovalRequest) (s : ApprovalRequestState) : M unit :=
  now ← now_ms;
  store (ApprovalSave (decide_approval s now approval)).

(** The recorded approval and what the live policy says of its snapshot. *)
Definition load_approval (id : Uuid) : M ApprovalRequest :=
  c ← gets Datatypes.id;
  if negb (bool_decide (run_state (run c) = AwaitingApproval))
  then throw ErrNotAwaitingApproval else
  found ← store (ApprovalGet id);
  unwrap_or_throw found ErrApprovalNotFound.
Definition policy_still_matches (approval : ApprovalRequest) : M bool :=
  perform (PolicyMatches (ap_policy_version approval) (ap_policy_hash approval)).
Definition load_call (approval : ApprovalRequest) : M PreparedToolCall :=
  found ← store (PendingGet (ap_tool_call_id approval)); unwrap_or_throw found ErrApprovalNotFound.
Definition load_command (approval : ApprovalRequest) : M PreparedCommandProposal :=
  found ← store (GetCommand (ap_tool_call_id approval)); unwrap_or_throw found ErrApprovalNotFound.

Definition invalidate_approval_and_resume (approval : ApprovalRequest)
    (reason : ApprovalInvalidationReason) (call : PreparedToolCall) : M RunOutcome :=
  save_decision approval Invalidated ;;
  store (PendingRemove (ap_tool_call_id approval)) ;;
  emit_event (ApprovalInvalidated (ap_id approval) (reason_code reason)) ;;
  update_metrics record_recovery_attempt ;;
  observe (Some (tool_call_id call)) (Some (ptc_tool_name call)) false (Some (reason_code reason))
    (lit "Approval invalidated (" ++ reason_code reason ++ lit ") for " ++ ptc_tool_name call) None ;;
  reason_again.

Definition approve_tool (id : Uuid) (approval : ApprovalRequest) : M RunOutcome :=
  call ← load_call approval;
  policy_matches ← policy_still_matches approval;
  c ← gets Datatypes.id;
  match validate_pending_approval approval call (target_ids (config c)) policy_matches with
  | Err reason => invalidate_approval_and_resume approval reason call
  | Ok _ =>
      save_decision approval Granted ;;
      emit_event (ApprovalGranted id) ;;
      store (PendingRemove (ap_tool_call_id approval)) ;;
      transition Acting ;;
      emit_event (ToolStarted (tool_call_id call)) ;;
      c ← gets Datatypes.id;
      outcomes ← perform (ExecuteReads (run_id (run c)) [call]);
      modify (fun c => set_tool_calls_used (sat_add32 (tool_calls_used c) 1) c) ;;
      transition Observing ;;
      m_iter record_outcome outcomes ;;
      resume_drive
  end.

Definition invalidate_command_approval_and_resume (approval : ApprovalRequest)
    (reason : ApprovalInvalidationReason) (command : PreparedCommandProposal) : M RunOutcome :=
  save_decision approval Invalidated ;;
  store (RemoveCommand (command_id command)) ;;
  emit_event (ApprovalInvalidated (ap_id approval) (reason_code reason)) ;;
  observe (Some (command_id command)) (Some (lit "agent.command")) false (Some (reason_code reason))
    (lit "Command approval invalidated (" ++ reason_code reason ++ lit ")") None ;;
  reason_again.

Definition approve_command (id : Uuid) (approval : ApprovalRequest) : M RunOutcome :=
  command ← load_command approval;
  policy_matches ← policy_still_matches approval;
  c ← gets Datatypes.id;
  session ← unwrap_or_throw (session_id (config c)) ErrMissingSession;
  match validate_pending_command_approval approval command (target_ids (config c)) session
          policy_matches with
  | Err reason => invalidate_command_approval_and_resume approval reason command
  | Ok _ =>
      save_decision approval Granted ;;
      store (RemoveCommand (command_id command)) ;;
      emit_event (ApprovalGranted id) ;;
      transition Acting ;;
      emit_event (CommandStarted (command_id command)) ;;
      c ← gets Datatypes.id;
      outcome ← perform (ExecuteCommand (run_id (run c)) command);
      modify (fun c => set_tool_calls_used (sat_add32 (tool_calls_used c) 1) c) ;;
      transition Observing ;;
      record_command_outcome command outcome ;;
      resume_drive
  end.

Definition invalidate_change_set_approval (approval : ApprovalRequest)
    (reason : ApprovalInvalidationReason) (id : Uuid) : M RunOutcome :=
  save_decision approval Invalidated ;;
  emit_event (ApprovalInvalidated id (reason_code reason)) ;;
  observe (Some (ap_tool_call_id approval)) (Some (ap_tool_name approval)) false
    (Some (reason_code reason))
    (lit "ChangeSet approval invalidated (" ++ reason_code reason ++ lit ")") None ;;
  reason_again.

(** The rollback of an executed change that was not verified. *)
Definition roll_back (change_set_id version : N) : M unit :=
  transition RollingBack ;;
  emit_event RollbackStarted ;;
  rolled ← perform (CsRollback change_set_id version);
  let rollback_ok := match rolled with
    | Ok cs => match cs_execution_state cs with RolledBack | Committed => true | _ => false end
    | Err _ => false end in
  emit_event (RollbackCompleted rollback_ok) ;;
  update_metrics (record_rollback rollback_ok).

(** From the granted approval to the outcome of verification. *)
Definition run_change_set (change_set_id version : N) : M bool :=
  approved ← perform (CsApprove change_set_id version);
  (if is_ok approved then mret tt else throw ErrApprovalNotFound) ;;
  transition ExecutingChange ;;
  emit_event (ChangeSetExecutionStarted change_set_id) ;;
  result ← perform (CsExecute change_set_id version);
  executed ← unwrap_or_throw (match result with Ok cs => Some cs | Err _ => None end)
               ErrApprovalNotFound;
  let execution_success := bool_decide (cs_execution_state executed = Committed) in
  emit_event (ChangeSetExecutionCompleted change_set_id execution_success) ;;
  transition Verifying ;;
  emit_event VerificationStarted ;;
  verified ← (if execution_success then
                v ← perform (CsVerify change_set_id version);
                mret (match v with Ok b => b | Err _ => false end)
              else mret false);
  emit_event (VerificationCompleted verified) ;;
  update_metrics (record_verification verified) ;;
  (if negb verified && execution_success then roll_back change_set_id version else mret tt) ;;
  mret verified.

Definition approve_change_set (id : Uuid) (approval : ApprovalRequest) : M RunOutcome :=
  change_set_id ← unwrap_or_throw (ap_change_set_id approval) ErrApprovalNotFound;
  version ← unwrap_or_throw (ap_change_set_version approval) ErrApprovalNotFound;
  policy_matches ← policy_still_matches approval;
  c ← gets Datatypes.id;
  match validate_pending_change_set_approval approval change_set_id version (target_ids (config c))
          policy_matches with
  | Err reason => invalidate_change_set_approval approval reason id
  | Ok _ =>
      save_decision approval Granted ;;
      emit_event (ApprovalGranted id) ;;
      emit_event (ChangeSetApproved change_set_id version) ;;
      verified ← run_change_set change_set_id version;
      let summary := lit "ChangeSet " ++ uuid_display change_set_id ++
        (if verified : bool then lit " verified successfully" else lit " failed verification") in
      modify invalidate_targets ;;
      observe None (Some (lit "change_set")) verified
        (if verified then None else Some (changeset_error_code CseExecutionFailed)) summary None ;;
      reason_again
  end.

Definition approve (id : Uuid) : M RunOutcome :=
  approval ← load_approval id;
  if is_change_set approval then approve_change_set id approval
  else if is_command approval then approve_command id approval
  else approve_tool id approval.

(** ** Rejecting an approval *)
Definition reject_change_set (id : Uuid) (approval : ApprovalRequest) : M RunOutcome :=
  save_decision approval Rejected ;;
  emit_event (ApprovalRejected id) ;;
  observe (Some (ap_tool_call_id approval)) (Some (ap_tool_name approval)) false None
    (lit "User rejected ChangeSet " ++ uuid_display (default 0%N (ap_change_set_id approval))) None ;;
  reason_again.

Definition reject_command (id : Uuid) (approval : ApprovalRequest) : M RunOutcome :=
  command ← load_command approval;
  save_decision approval Rejected ;;
  store (RemoveCommand (command_id command)) ;;
  emit_event (ApprovalRejected id) ;;
  update_metrics record_rejection ;;
  observe (Some (command_id command)) (Some (lit "agent.command")) false None
    (lit "User rejected the proposed command")
    (Some (lit "Rejected command: " ++ cmd_command command)) ;;
  reason_again.

Definition reject_tool (id : Uuid) (approval : ApprovalRequest) : M RunOutcome :=
  call ← load_call approval;
  save_decision approval Rejected ;;
  store (PendingRemove (ap_tool_call_id approval)) ;;
  emit_event (ApprovalRejected id) ;;
  update_metrics record_rejection ;;
  observe (Some (tool_call_id call)) (Some (ptc_tool_name call)) false None
    (lit "User rejected " ++ ptc_tool_name call) None ;;
  reason_again.

Definition reject (id : Uuid) : M RunOutcome :=
  approval ← load_approval id;
  if is_change_set approval then reject_change_set id approval
  else if is_command approval then reject_command id approval
  else reject_tool id approval.

Definition cancel : M RunOutcome :=
  c ← gets id;
  if is_terminal (run_state (run c)) then throw ErrAlreadyTerminal else finish_cancelled.

(** ** Restoring *)
Definition restore_facts_from_checkpoint (checkpoint : AgentCheckpoint) : M unit :=
  let snapshot := cp_fact_snapshot checkpoint in
  if is_empty snapshot || str_eqb snapshot (lit "{}") then mret tt else
  match facts_of_json snapshot with
  | Some set => modify (set_working_facts set)
  | None => mret tt
  end.
Definition restore_pending_command_verification (required : bool) : M unit :=
  modify (set_pending_command_verification required).
End Controller.

(** ** Construction *)
Section Construction.
Context {W : Type} `{Environment W} `{Externals} `{Serde}.

(** The record literal of [new] and [attach]. *)
Definition initial_ctl (r : AgentRun) (goal : str) (targets : list Uuid) (session : option Uuid)
    (b : RunBudget) (obs : list Observation) (replies : list str) (rounds calls : N)
    (started : option N) : Ctl :=
  {| config := {| goal := goal; target_ids := targets; session_id := session; budget := b |};
     run := r; observations := obs; evidence := []; working_facts := []; artifact_refs := [];
     metrics := metrics_new (run_id r); user_replies := replies; rounds_used := rounds;
     tool_calls_used := calls; pending_command_verification := false;
     pending_command_analysis := None; consecutive_reasoner_recoveries := 0;
     loop_started_at := started |}.

(** [attach]: the clock is set back by the time already used. *)
Definition attach (r : AgentRun) (goal : str) (targets : list Uuid) (session : option Uuid)
    (b : RunBudget) (obs : list Observation) (replies : list str) (rounds calls elapsed now : N) :
    result AgentControllerError Ctl :=
  match accepted_text goal with
  | None => Err ErrInvalidGoal
  | Some trimmed =>
      let started := if (elapsed <=? now)%N then (now - elapsed)%N else now in
      Ok (initial_ctl r (redact_secrets trimmed).1 targets session b obs replies rounds calls
            (Some started))
  end.

(** The events that open a run. *)
Definition bootstrap : method W unit :=
  emit_event RunCreated ;;
  c ← gets id;
  emit_event (UserMessageAdded (goal (config c))).

Definition open_run (r : AgentRun) : method W unit := store (RunInsert r) ;; bootstrap.

(** [new]: the run is inserted before the controller exists, so a failure of
    the store is an error without one. *)
Definition new (goal : str) (targets : list Uuid) (session : option Uuid) (b : RunBudget)
    (id : Uuid) (created : N) (w : W) : result abort unit * option Ctl * W * list action :=
  match accepted_text goal with
  | None => (Err (Error ErrInvalidGoal), None, w, [])
  | Some trimmed =>
      let r := with_created_at id created in
      let c := initial_ctl r (redact_secrets trimmed).1 targets session b [] [] 0 0 None in
      match open_run r c w with
      | (Ok _, c', w', l) => (Ok tt, Some c', w', l)
      | (Err e, _, w', l) => (Err e, None, w', l)
      end
  end.

(** [attach_created]: only a [Created] run, and the same opening events. *)
Definition attach_created (r : AgentRun) (goal : str) (targets : list Uuid) (session : option Uuid)
    (b : RunBudget) (now : N) (w : W) : result abort unit * option Ctl * W * list action :=
  if negb (bool_decide (run_state r = Created))
  then (Err (Error (ErrState {| err_from := run_state r; err_to := Running |})), None, w, [])
  else match attach r goal targets session b [] [] 0 0 0 now with
  | Err e => (Err (Error e), None, w, [])
  | Ok c =>
      match bootstrap c w with
      | (Ok _, c', w', l) => (Ok tt, Some c', w', l)
      | (Err e, _, w', l) => (Err e, None, w', l)
      end
  end.
End Construction.
