(* ===== verification/ControllerSpec.v ===== *)
(** * What a controller may do: an abstract machine

    A state is the controller's record with the log of its requests, newest
    first.  [cstep] says which moves are allowed: the run changes state only
    along the table or by an explicit new turn, and is saved each time; an
    event takes the next sequence number; and every execution needs its
    authorization already in the log.  [ControllerProofs] shows that every
    method only makes such moves; the invariants here are by induction on
    them, whatever the environment answers. *)
From stdpp Require Import sorting.
From S2P Require Import Prelude Str RunState Externals Decision Gate Approval CommandLoop.
From S2P Require Import Evidence Events Dispatch Stores Control Controller.

Abbreviation log := (list action).

(** ** Authorization, as it shows in the log *)
Section Spec.
Context `{Externals}.

(** The approval was read, and its granting was saved, before. *)
Definition granted (l : log) (a : ApprovalRequest) : Prop :=
  (exists id, Act (ApprovalGet id) (Ok (Some a)) ∈ l) /\
  (exists now, Act (ApprovalSave (decide_approval Granted now a)) (Ok tt) ∈ l) /\
  Act (PolicyMatches (ap_policy_version a) (ap_policy_hash a)) true ∈ l.

Definition call_approved (cfg : Config) (l : log) (call : PreparedToolCall) : Prop :=
  exists a, granted l a /\ validate_pending_approval a call (target_ids cfg) true = Ok tt.

Definition reads_allowed (cfg : Config) (l : log) (calls : list PreparedToolCall) : Prop :=
  (forall call, call ∈ calls -> Act (Authorize call) Auto ∈ l) \/
  (exists call, calls = [call] /\ call_approved cfg l call).

Definition command_allowed (cfg : Config) (l : log) (command : PreparedCommandProposal) : Prop :=
  exists a session, session_id cfg = Some session /\ granted l a /\
    validate_pending_command_approval a command (target_ids cfg) session true = Ok tt.

Definition change_approved (cfg : Config) (l : log) (id version : N) : Prop :=
  exists a, granted l a /\
    validate_pending_change_set_approval a id version (target_ids cfg) true = Ok tt.

(** The change set was executed before, under an approval, and committed. *)
Definition change_committed (l : log) (id version : N) : Prop :=
  exists cs, Act (CsExecute id version) (Ok cs) ∈ l /\ cs_execution_state cs = Committed.

(** What a request needs in the log before it. *)
Definition allowed {X} (cfg : Config) (l : log) (q : Req X) : Prop :=
  match q with
  | ExecuteReads _ calls => reads_allowed cfg l calls
  | ExecuteCommand _ command => command_allowed cfg l command
  | CsApprove id version => change_approved cfg l id version
  | CsExecute id version =>
      change_approved cfg l id version /\ exists cs, Act (CsApprove id version) (Ok cs) ∈ l
  | CsVerify id version => change_committed l id version
  | CsRollback id version =>
      change_committed l id version /\
      exists r, Act (CsVerify id version) r ∈ l /\ r <> Ok true
  | Decide input => (1 <= ri_round input <= max_reasoner_rounds (budget cfg))%N
  | RunSave _ | AppendEvent _ | RunInsert _ => False
  | _ => True
  end.

(** ** The moves *)

(** What the bookkeeping of a method leaves alone. *)
Definition key (c : Ctl) : Config * bool * N :=
  (config c, pending_command_verification c, rounds_used c).

(** The clock of the loop, once started, is not forgotten. *)
Definition clock_kept (c c' : Ctl) : Prop :=
  is_Some (loop_started_at c) -> is_Some (loop_started_at c').

Definition with_state (s : AgentRunStateV2) (now : N) (c : Ctl) : Ctl :=
  set_run (set_state (run c) s now) c.
Definition with_next_seq (c : Ctl) : Ctl := set_run (next_event_sequence (run c)).2 c.

(** The moves of every method but the recording of a command's outcome. *)
Inductive qstep : Ctl * log -> Ctl * log -> Prop :=
  | cs_request c l X (q : Req X) x :
      allowed (config c) l q -> qstep (c, l) (c, Act q x :: l)
  | cs_update c l c' :
      run c' = run c -> key c' = key c -> clock_kept c c' -> qstep (c, l) (c', l)
  | cs_round c l n : qstep (c, l) (set_rounds_used n c, l)
  | cs_emit c l e t x :
      qstep (c, l)
        (with_next_seq c,
         Act (AppendEvent {| ev_run_id := run_id (run c); ev_seq := next_event_seq (run c);
                             ev_timestamp_epoch_ms := t; ev_event := e |}) x :: l)
  | cs_save c l x : qstep (c, l) (c, Act (RunSave (run c)) x :: l)
  | cs_transition c l next now x :
      step (run_state (run c)) next ->
      (next = Completed -> pending_command_verification c = false) ->
      qstep (c, l) (with_state next now c, Act (RunSave (set_state (run c) next now)) x :: l)
  | cs_turn c l now x :
      is_terminal (run_state (run c)) = true ->
      qstep (c, l)
        (with_state Reasoning now c, Act (RunSave (set_state (run c) Reasoning now)) x :: l).

Inductive cstep : Ctl * log -> Ctl * log -> Prop :=
  | cs_quiet s s' : qstep s s' -> cstep s s'
  | cs_verification c l rid command o :
      Act (ExecuteCommand rid command) o ∈ l ->
      cstep (c, l)
        (set_pending_command_verification
           (verification_after (cmd_mutability command) (co_success o)
              (pending_command_verification c)) c, l).

Definition csteps : Ctl * log -> Ctl * log -> Prop := rtc cstep.

(** ** Invariants *)

Lemma csteps_clock s s' : csteps s s' -> clock_kept s.1 s'.1.
Proof.
  unfold clock_kept. induction 1 as [|s1 s2 s3 H1 _ IH]; [done|]. intros Hc. apply IH.
  destruct H1 as [s s' []|]; cbn in *; auto.
Qed.

(** Every request was allowed by what came before it. *)
Fixpoint justified (cfg : Config) (l : log) : Prop :=
  match l with
  | [] => True
  | Act q _ :: older =>
      match q with
      | RunSave _ | AppendEvent _ | RunInsert _ => True
      | _ => allowed cfg older q
      end /\ justified cfg older
  end.

Lemma justified_cons {X} cfg (q : Req X) x l :
  allowed cfg l q -> justified cfg l -> justified cfg (Act q x :: l).
Proof. intros Hq Hl. cbn. split; [by destruct q|done]. Qed.

Lemma cstep_config s s' : cstep s s' -> config s'.1 = config s.1.
Proof.
  destruct 1 as [s s' []|]; try done. cbn. unfold key in *. congruence.
Qed.

Lemma csteps_config s s' : csteps s s' -> config s'.1 = config s.1.
Proof. induction 1 as [|s1 s2 s3 H1 _ IH]; [done|]. by rewrite IH, (cstep_config _ _ H1). Qed.

Lemma csteps_justified s s' :
  csteps s s' -> justified (config s.1) s.2 -> justified (config s'.1) s'.2.
Proof.
  induction 1 as [|s1 s2 s3 H1 _ IH]; [done|]. intros Hj. apply IH.
  rewrite (cstep_config _ _ H1). destruct H1 as [s s' []|]; cbn in *; try done. by apply justified_cons.
Qed.

(** Any execution in a justified log was allowed when it was made. *)
Lemma justified_at cfg newer older {X} (q : Req X) x :
  justified cfg (newer ++ Act q x :: older) ->
  match q with
  | RunSave _ | AppendEvent _ | RunInsert _ => True
  | _ => allowed cfg older q
  end.
Proof.
  induction newer as [|[Y p y] newer IH]; cbn; [by intros [? _]|]. intros [_ Hj]. by apply IH.
Qed.

(** ** The persisted run and its events *)
Definition saved (a : action) : option AgentRun :=
  match a with Act q _ => match q with RunSave r => Some r | _ => None end end.
Definition appended (a : action) : option AgentEventEnvelope :=
  match a with Act q _ => match q with AppendEvent e => Some e | _ => None end end.

(** One save after another: the same run, later, in the same state, in one
    the table allows next, or in a new turn. *)
Definition advances (before after : AgentRun) : Prop :=
  run_id after = run_id before /\
  created_at_epoch_ms after = created_at_epoch_ms before /\
  (updated_at_epoch_ms before <= updated_at_epoch_ms after)%N /\
  (next_event_seq before <= next_event_seq after)%N /\
  (run_state after = run_state before \/ step (run_state before) (run_state after) \/
   (is_terminal (run_state before) = true /\ run_state after = Reasoning)).

(** The saves of a log, newest first, and the run in memory: nothing but its
    sequence cursor is ahead of the newest save. *)
Fixpoint save_chain (l : list AgentRun) : Prop :=
  match l with
  | after :: (before :: _) as rest => advances before after /\ save_chain rest
  | _ => True
  end.
Definition in_step (r : AgentRun) (l : list AgentRun) : Prop :=
  match l with
  | [] => True
  | newest :: _ => run_id r = run_id newest /\ run_state r = run_state newest /\
      created_at_epoch_ms r = created_at_epoch_ms newest /\
      updated_at_epoch_ms r = updated_at_epoch_ms newest /\
      (next_event_seq newest <= next_event_seq r)%N
  end.

(** The events of a log, newest first: of this run, numbered downwards from
    below the cursor. *)
Definition events_numbered (r : AgentRun) (l : list AgentEventEnvelope) : Prop :=
  StronglySorted (fun a b => ev_seq b < ev_seq a)%N l /\
  Forall (fun e => ev_run_id e = run_id r /\ ev_seq e < next_event_seq r)%N l.

Definition persisted_ok (s : Ctl * log) : Prop :=
  save_chain (omap saved s.2) /\ in_step (run s.1) (omap saved s.2) /\
  events_numbered (run s.1) (omap appended s.2).

Lemma advances_save r r' l :
  advances r r' -> in_step r l -> save_chain l -> save_chain (r' :: l).
Proof.
  intros Ha Hs Hc. destruct l as [|newest l]; [done|]. split; [|done].
  destruct Ha as (A1 & A2 & A3 & A4 & A5), Hs as (S1 & S2 & S3 & S4 & S5).
  unfold advances. rewrite <- S1, <- S2, <- S3, <- S4. split_and!; try done; lia.
Qed.

Lemma advances_refl r : advances r r.
Proof. unfold advances. split_and!; try done; [lia..|auto]. Qed.

Lemma in_step_self r l : in_step r (r :: l).
Proof. cbn. split_and!; done || apply N.le_refl. Qed.

(** The quiet part of a log says nothing about saves and events. *)
Lemma allowed_quiet {X} cfg l (q : Req X) x :
  allowed cfg l q ->
  omap saved (Act q x :: l) = omap saved l /\ omap appended (Act q x :: l) = omap appended l.
Proof. by destruct q. Qed.

Lemma events_numbered_run r r' l :
  run_id r' = run_id r -> next_event_seq r' = next_event_seq r ->
  events_numbered r l -> events_numbered r' l.
Proof. unfold events_numbered. by intros -> ->. Qed.

Lemma set_state_advances r next now :
  (run_state r = next \/ step (run_state r) next \/
   (is_terminal (run_state r) = true /\ next = Reasoning)) -> advances r (set_state r next now).
Proof.
  intros Hs. unfold advances, set_state. cbn. split_and!; try done; [lia..|naive_solver].
Qed.

Lemma moved_persisted c l next now x :
  (step (run_state (run c)) next \/
   (is_terminal (run_state (run c)) = true /\ next = Reasoning)) ->
  persisted_ok (c, l) ->
  persisted_ok (with_state next now c, Act (RunSave (set_state (run c) next now)) x :: l).
Proof.
  intros Hs (H1 & H2 & H3). cbn in *. split_and!.
  - eapply advances_save; [|done..]. apply set_state_advances. tauto.
  - apply in_step_self.
  - by apply (events_numbered_run (run c)).
Qed.

Lemma emit_persisted c l e t x :
  (next_event_seq (run c) < U64_MAX)%N ->
  persisted_ok (c, l) ->
  persisted_ok
    (with_next_seq c,
     Act (AppendEvent {| ev_run_id := run_id (run c); ev_seq := next_event_seq (run c);
                         ev_timestamp_epoch_ms := t; ev_event := e |}) x :: l).
Proof.
  intros Hmax (H1 & H2 & H3 & H4). cbn [fst snd] in *.
  assert (sat_add64 (next_event_seq (run c)) 1 = next_event_seq (run c) + 1)%N as Hseq
    by (apply sat_add_exact; lia).
  split; [exact H1|]. split.
  - change (in_step (with_next_seq c).(run) (omap saved l)).
    destruct (omap saved l) as [|newest rest]; [done|]. cbn in *. rewrite Hseq.
    destruct H2 as (S1 & S2 & S3 & S4 & S5). split_and!; try done. lia.
  - split; cbn.
    + constructor; [done|]. apply Forall_impl with (1 := H4). cbn. intros a [_ Ha]. lia.
    + constructor; cbn; rewrite Hseq; [split; [done|lia]|].
      apply Forall_impl with (1 := H4). intros a [-> Ha]. split; [done|lia].
Qed.

Lemma cstep_seq s s' :
  cstep s s' -> (next_event_seq (run s'.1) < U64_MAX)%N ->
  (next_event_seq (run s.1) <= next_event_seq (run s'.1))%N.
Proof.
  destruct 1 as [s s' [? ? ? ? ? ?|? ? ? Hr ? ?| | | | |]|]; cbn; try lia.
  - by rewrite Hr.
  - unfold sat_add64, sat_add. lia.
Qed.

Lemma csteps_seq s s' :
  csteps s s' -> (next_event_seq (run s'.1) < U64_MAX)%N ->
  (next_event_seq (run s.1) <= next_event_seq (run s'.1))%N.
Proof.
  induction 1 as [|s1 s2 s3 H1 _ IH]; [done|]. intros Hm. specialize (IH Hm).
  pose proof (cstep_seq _ _ H1). lia.
Qed.

Lemma cstep_persisted s s' :
  cstep s s' -> (next_event_seq (run s'.1) < U64_MAX)%N -> persisted_ok s -> persisted_ok s'.
Proof.
  intros Hstep Hm Hok. pose proof (cstep_seq _ _ Hstep Hm) as Hle.
  destruct Hstep as [s s' [c l X q x Hq|c l c' Hr _ _|c l n|c l e t x|c l x|c l next now x Hs _
    |c l now x Ht]|c l rid command o _]; cbn in Hm, Hle; try exact Hok.
  - destruct (allowed_quiet _ _ _ x Hq) as [E1 E2]. unfold persisted_ok. cbn [fst snd].
    by rewrite E1, E2.
  - unfold persisted_ok in *. cbn in *. by rewrite Hr.
  - apply emit_persisted; [cbn in *; lia|done].
  - destruct Hok as (H1 & H2 & H3). cbn in *. split_and!; [|apply in_step_self|done].
    by eapply advances_save; [apply advances_refl| |].
  - apply moved_persisted; [by left|done].
  - apply moved_persisted; [by right|done].
Qed.

Lemma csteps_persisted s s' :
  csteps s s' -> (next_event_seq (run s'.1) < U64_MAX)%N -> persisted_ok s -> persisted_ok s'.
Proof.
  induction 1 as [|s1 s2 s3 H1 H2 IH]; [done|]. intros Hm Hok. apply IH; [done|].
  eapply cstep_persisted; [exact H1| |done]. pose proof (csteps_seq _ _ H2 Hm). lia.
Qed.

(** ** Completion *)

(** As long as no command's outcome is recorded, a machine whose verification
    is outstanding stays so and does not complete. *)
Definition unverified (s : Ctl * log) : Prop :=
  pending_command_verification s.1 = true /\ run_state (run s.1) <> Completed.

Lemma qsteps_unverified s s' : rtc qstep s s' -> unverified s -> unverified s'.
Proof.
  induction 1 as [|s1 s2 s3 H1 _ IH]; [done|]. intros [Hp Hs]. apply IH. clear IH.
  unfold unverified.
  destruct H1 as [|c l c' Hr Hk _| | | |c l next now x _ Hdone|]; cbn in *; try done.
  - unfold key in Hk. split; congruence.
  - split; [done|]. intros ->. rewrite Hdone in Hp; done.
Qed.
End Spec.
