(* ===== verification/ControllerProofs.v ===== *)
(** * The controller refines the abstract machine

    A program logic for the methods: [hoare] speaks of the state and the log
    before and after, on success and on every way to stop.  [quiet_method] is
    the judgement of most methods: they make only moves of [cstep], keep what
    [Stable] facts speak of, and stop only with an error.  Its rules are
    collected in the [quiet] hint database. *)
From S2P Require Import Prelude Str RunState Context Tools Policy Externals Decision Gate.
From S2P Require Import Approval CommandLoop Evidence Facts Events Dispatch Stores Control.
From S2P Require Import Controller ControllerSpec.

Create HintDb quiet discriminated.
#[export] Hint Constants Opaque : quiet.

Section Logic.
Context {W : Type} `{Environment W} `{Externals} `{Serde}.
#[local] Abbreviation M := (method W).
Implicit Types P G : Ctl -> log -> Prop.

Definition hoare {A} (P : Ctl -> log -> Prop) (m : M A) (Q : A -> Ctl -> log -> Prop)
    (E : abort -> Ctl -> log -> Prop) : Prop :=
  forall c w l, P c l ->
    match m c w with
    | (Ok a, c', _, new) => Q a c' (new ++ l)
    | (Err e, c', _, new) => E e c' (new ++ l)
    end.

Lemma hoare_ret {A} (a : A) P E : hoare P (mret a) (fun x c l => x = a /\ P c l) E.
Proof. by intros c w l HP. Qed.

Lemma hoare_bind {A B} (m : M A) (k : A -> M B) P Q R E :
  hoare P m Q E -> (forall a, hoare (Q a) (k a) R E) -> hoare P (m ≫= k) R E.
Proof.
  intros Hm Hk c w l HP. specialize (Hm c w l HP). unfold mbind, m_bind.
  destruct (m c w) as [[[[a|e] c'] w'] new]; [|done].
  specialize (Hk a c' w' (new ++ l) Hm). destruct (k a c' w') as [[[[b|e] c''] w''] new'];
    by rewrite <- (assoc_L (++)).
Qed.

Lemma hoare_conseq {A} (m : M A) P P' Q Q' E E' :
  hoare P' m Q' E' -> (forall c l, P c l -> P' c l) ->
  (forall a c l, Q' a c l -> Q a c l) -> (forall e c l, E' e c l -> E e c l) -> hoare P m Q E.
Proof.
  intros Hm HP HQ HE c w l Hc. specialize (Hm c w l (HP _ _ Hc)).
  destruct (m c w) as [[[[a|e] c'] w'] new]; auto.
Qed.

Lemma hoare_pre {A} (m : M A) P P' Q E :
  (forall c l, P c l -> P' c l) -> hoare P' m Q E -> hoare P m Q E.
Proof. intros HP Hm. by apply (hoare_conseq m P P' Q Q E E). Qed.

Lemma hoare_gets {A} (f : Ctl -> A) P E :
  hoare P (gets f) (fun x c l => x = f c /\ P c l) E.
Proof. by intros c w l HP. Qed.

Lemma hoare_modify f P (Q : unit -> Ctl -> log -> Prop) E :
  (forall c l, P c l -> Q tt (f c) l) -> hoare P (modify f) Q E.
Proof. intros HQ c w l HP. by apply HQ. Qed.

Lemma hoare_ask {X} (q : Req X) P (Q : X -> Ctl -> log -> Prop) E :
  (forall x c l, P c l -> Q x c (Act q x :: l)) -> hoare P (perform q) Q E.
Proof. intros HQ c w l HP. unfold perform. destruct (answer q w) as [x w']. by apply HQ. Qed.

Lemma hoare_store {A} (q : Req (result AgentStoreError A)) P (Q : A -> Ctl -> log -> Prop) E :
  (forall a c l, P c l -> Q a c (Act q (Ok a) :: l)) ->
  (forall e c l, P c l -> E (Error (ErrStore e)) c (Act q (Err e) :: l)) ->
  hoare P (store q) Q E.
Proof.
  intros HQ HE. eapply (hoare_bind _ _ _ (fun x c l => exists l', l = Act q x :: l' /\ P c l')).
  - apply hoare_ask. eauto.
  - intros [a|e] c w l (l' & -> & HP); [by apply HQ|by apply HE].
Qed.

(** Facts that the bookkeeping of a method keeps: they speak of the
    configuration, the verification flag, the rounds and what is in the log. *)
Class Stable (G : Ctl -> log -> Prop) :=
  stable c c' l new : key c' = key c -> G c l -> G c' (new ++ l).
(** Those that do not speak of the rounds. *)
Class RoundFree (G : Ctl -> log -> Prop) :=
  round_free c l n : G c l -> G (set_rounds_used n c) l.

#[export] Instance stable_true : Stable (fun _ _ => True).
Proof. by intros c c' l new. Qed.
#[export] Instance stable_and G G' `{!Stable G, !Stable G'} : Stable (fun c l => G c l /\ G' c l).
Proof. intros c c' l new Hk [? ?]. split; by eapply stable. Qed.
#[export] Instance stable_in a : Stable (fun _ l => a ∈ l).
Proof. intros c c' l new _ Ha. apply elem_of_app. by right. Qed.
#[export] Instance stable_key (F : Config * bool * N -> Prop) : Stable (fun c _ => F (key c)).
Proof. intros c c' l new Hk. by rewrite Hk. Qed.
#[export] Instance stable_config (F : Config -> Prop) : Stable (fun c _ => F (config c)).
Proof. intros c c' l new Hk. unfold key in Hk. by injection Hk as -> _ _. Qed.
#[export] Instance stable_pending (F : bool -> Prop) :
  Stable (fun c _ => F (pending_command_verification c)).
Proof. intros c c' l new Hk. unfold key in Hk. by injection Hk as _ -> _. Qed.
#[export] Instance stable_rounds (F : N -> Prop) : Stable (fun c _ => F (rounds_used c)).
Proof. intros c c' l new Hk. unfold key in Hk. by injection Hk as _ _ ->. Qed.

(** Where a method starts, and the moves it may make: the quiet ones at least. *)
Record origin := {
  from : Ctl * log;
  moves : Ctl * log -> Ctl * log -> Prop;
  quiet_moves s s' : qstep s s' -> moves s s';
}.

Section Reach.
Context (s0 : origin).
Definition reach (c : Ctl) (l : log) : Prop := rtc (moves s0) (from s0) (c, l).

(** A method stops with an error of the code, not by a panic or for want of fuel. *)
Definition is_error (e : abort) : Prop := exists x, e = Error x.
Definition stopped (e : abort) (c : Ctl) (l : log) : Prop := reach c l /\ is_error e.

Definition quiet_in {A} (G : Ctl -> log -> Prop) (m : M A) : Prop :=
  hoare (fun c l => reach c l /\ G c l) m (fun _ c l => reach c l /\ G c l) stopped.
End Reach.

Definition quiet_method {A} (m : M A) : Prop :=
  forall s0 G, Stable G -> quiet_in s0 G m.

(** ** Rules *)
Lemma quiet_ret {A} (a : A) : quiet_method (mret a).
Proof. by intros s0 G HG c w l HP. Qed.

Lemma quiet_bind {A B} (m : M A) (k : A -> M B) :
  quiet_method m -> (forall a, quiet_method (k a)) -> quiet_method (m ≫= k).
Proof.
  intros Hm Hk s0 G HG. eapply hoare_bind; [by apply Hm|]. intros a. by apply Hk.
Qed.

Lemma quiet_throw {A} e : quiet_method (throw e : M A).
Proof. intros s0 G HG c w l [Hr _]. split; [done|by eexists]. Qed.

Lemma quiet_gets {A} (f : Ctl -> A) : quiet_method (gets f).
Proof. by intros s0 G HG c w l HP. Qed.

Lemma reach_step s0 c l c' l' : reach s0 c l -> qstep (c, l) (c', l') -> reach s0 c' l'.
Proof. intros Hr Hs. eapply rtc_r; [exact Hr|by apply quiet_moves]. Qed.

Lemma quiet_modify f :
  (forall c, run (f c) = run c /\ key (f c) = key c /\ clock_kept c (f c)) ->
  quiet_method (modify f).
Proof.
  intros Hf s0 G HG c w l [Hr HGc]. cbn. destruct (Hf c) as (H1' & H2' & H3'). split.
  - eapply reach_step; [done|]. by apply cs_update.
  - by apply (stable c (f c) l []).
Qed.

Definition ordinary {X} (q : Req X) : Prop := forall cfg l, allowed cfg l q.

(** A request, given that what is known allows it; its answer is then known too. *)
Lemma hoare_perform {X} (q : Req X) s0 G `{!Stable G} :
  (forall c l, reach s0 c l -> G c l -> allowed (config c) l q) ->
  hoare (fun c l => reach s0 c l /\ G c l) (perform q)
    (fun x c l => reach s0 c l /\ (G c l /\ Act q x ∈ l)) (fun e c l => stopped s0 e c l).
Proof.
  intros Hq c w l [Hr HG]. unfold perform. destruct (answer q w) as [x w']. cbn. split.
  - eapply reach_step; [exact Hr|]. by apply cs_request, Hq.
  - split; [by apply (stable c c l [_])|]. by left.
Qed.

Lemma quiet_perform {X} (q : Req X) : ordinary q -> quiet_method (perform q).
Proof.
  intros Hq s0 G HG. eapply hoare_conseq; [apply (hoare_perform q s0 G)|done| |done].
  - intros c l _ _. apply Hq.
  - by intros x c l (? & ? & _).
Qed.

Lemma quiet_unwrap {A} (o : option A) e : quiet_method (unwrap_or_throw o e : M A).
Proof. destruct o; [apply quiet_ret|apply quiet_throw]. Qed.

Lemma quiet_store {A} (q : Req (result AgentStoreError A)) :
  ordinary q -> quiet_method (store q).
Proof.
  intros Hq. apply quiet_bind; [by apply quiet_perform|]. intros [a|e]; [apply quiet_ret|apply quiet_throw].
Qed.

Lemma quiet_iter {A} (f : A -> M unit) l : (forall a, quiet_method (f a)) -> quiet_method (m_iter f l).
Proof.
  intros Hf. induction l as [|a l IH]; cbn; [apply quiet_ret|]. by apply quiet_bind.
Qed.
End Logic.

#[export] Hint Resolve quiet_ret quiet_bind quiet_throw quiet_gets quiet_perform quiet_unwrap
  quiet_store quiet_iter : quiet.
#[export] Hint Extern 1 (ordinary _) => (by intros ? ?) : quiet.
#[export] Hint Extern 1 (quiet_method (modify _)) => (apply quiet_modify; intros ?; split_and!; [done|done|first [exact (fun x => x) | intros _; exact (mk_is_Some _ _ eq_refl)]]) : quiet.

(** Decomposes a method down to the rules of the database. *)
Ltac quiet :=
  repeat (cbn beta iota zeta; lazymatch goal with
    | |- quiet_method (_ ≫= _) => apply quiet_bind; [|intros ?]
    | |- quiet_method (match ?x with _ => _ end) => destruct x
    | |- quiet_method _ => solve [eauto 2 with quiet]
    end).

(** ** The primitives *)
Section PrimitiveRules.
Context {W : Type} `{Environment W} `{Externals} `{Serde}.
#[local] Abbreviation M := (method W).

Lemma quiet_now : quiet_method (now_ms : M _).
Proof. unfold now_ms. quiet. Qed.
Lemma quiet_elapsed started : quiet_method (elapsed_ms started : M _).
Proof. unfold elapsed_ms. quiet. Qed.
Lemma quiet_new_id : quiet_method (new_id : M _).
Proof. unfold new_id. quiet. Qed.
Lemma quiet_push o : quiet_method (push_observation o : M _).
Proof. unfold push_observation. quiet. Qed.
Lemma quiet_update_metrics f : quiet_method (update_metrics f : M _).
Proof. unfold update_metrics. quiet. Qed.
Lemma quiet_loop_elapsed : quiet_method (loop_elapsed : M _).
Proof. unfold loop_elapsed. apply quiet_bind; [apply quiet_gets|]. intros [s|]; [apply quiet_elapsed|apply quiet_ret]. Qed.
Lemma quiet_persist_metrics : quiet_method (persist_metrics : M _).
Proof. unfold persist_metrics. quiet. Qed.

Lemma quiet_save_run : quiet_method (r ← gets run; store (RunSave r) : M unit).
Proof.
  intros s0 G HG. eapply hoare_bind; [apply hoare_gets|]. intros r.
  apply hoare_store; intros ? c l (-> & Hr & HGc).
  - split; [|by apply (stable c c l [_])]. eapply reach_step; [exact Hr|apply cs_save].
  - split; [|by eexists]. eapply reach_step; [exact Hr|apply cs_save].
Qed.

Lemma hoare_now P E :
  (forall x c l, P c l -> P c (Act EpochClock x :: l)) -> hoare P (now_ms : M _) (fun _ => P) E.
Proof.
  intros HP. eapply hoare_bind; [apply (hoare_ask _ _ (fun _ => P)); exact HP|].
  intros t. by intros c w l Hc.
Qed.

Lemma hoare_quiet {A} (m : M A) s0 G `{!Stable G} :
  quiet_method m -> hoare (fun c l => reach s0 c l /\ G c l) m
    (fun _ c l => reach s0 c l /\ G c l) (stopped s0).
Proof. intros Hm. by apply Hm. Qed.

Lemma hoare_exists {A B} (P : B -> Ctl -> log -> Prop) (m : M A) Q E :
  (forall b, hoare (P b) m Q E) -> hoare (fun c l => exists b, P b c l) m Q E.
Proof. intros Hm c w l [b Hb]. by apply (Hm b). Qed.

(** The run in memory has moved from a reachable state, and is not yet saved. *)
Definition moved (move : Ctl -> Ctl) (F : Ctl -> Prop) s0 (G : Ctl -> log -> Prop) (c : Ctl)
    (l : log) : Prop :=
  exists c0, c = move c0 /\ F c0 /\ reach s0 c0 l /\ G c0 l.

Lemma quiet_emit e : quiet_method (emit_event e : M unit).
Proof.
  unfold emit_event. intros s0 G HG. eapply hoare_bind; [apply hoare_gets|]. intros r.
  unfold next_event_sequence. cbn beta iota zeta. set (r' := Build_AgentRun _ _ _ _ _).
  set (P := fun c l => exists c0, c = set_run r' c0 /\ r = run c0 /\ reach s0 c0 l /\ G c0 l).
  eapply (hoare_bind _ _ _ (fun _ => P)).
  { apply hoare_modify. intros c l (-> & Hr & HGc). by exists c. }
  intros []. eapply (hoare_bind _ _ _ (fun _ => P)).
  { apply hoare_now. intros x c l (c0 & -> & -> & Hr & HGc). exists c0. split_and!; try done.
    - eapply reach_step; [exact Hr|]. by apply cs_request.
    - by apply (stable c0 c0 l [_]). }
  intros t. eapply (hoare_bind _ _ _ (fun _ c l => reach s0 c l /\ G c l));
    [|intros []; by apply (hoare_quiet _ s0 G), quiet_save_run].
  apply hoare_store.
  - intros [] c l (c0 & -> & -> & Hr & HGc). split; [|by apply (stable c0 _ l [_])].
    eapply reach_step; [exact Hr|]. apply cs_emit.
  - intros err c l (c0 & -> & -> & Hr & HGc). split; [|by eexists].
    eapply reach_step; [exact Hr|]. apply cs_emit.
Qed.

(** Saving a run that has just been moved along [cstep]. *)
Lemma hoare_save_moved next now F s0 G `{!Stable G} :
  (forall c l x, G c l -> F c ->
     qstep (c, l) (with_state next now c, Act (RunSave (set_state (run c) next now)) x :: l)) ->
  hoare (moved (with_state next now) F s0 G) (r ← gets run; store (RunSave r) : M unit)
    (fun _ c l => reach s0 c l /\ G c l) (stopped s0).
Proof.
  intros Hstep. eapply hoare_bind; [apply hoare_gets|]. intros r.
  apply hoare_store; intros x c l (-> & c0 & -> & HF & Hr & HGc).
  - split; [eapply reach_step; [exact Hr|by apply Hstep]|by apply (stable c0 _ l [_])].
  - split; [|by eexists]. eapply reach_step; [exact Hr|by apply Hstep].
Qed.

Lemma bind_assoc {A B C} (m : M A) (f : A -> M B) (g : B -> M C) P Q E :
  hoare P ((m ≫= f) ≫= g) Q E -> hoare P (m ≫= (fun a => f a ≫= g)) Q E.
Proof.
  intros Hh c w l HP. specialize (Hh c w l HP). unfold mbind, m_bind in *.
  destruct (m c w) as [[[[a|e] c1] w1] l1]; [|done].
  destruct (f a c1 w1) as [[[[b|e] c2] w2] l2]; [|done].
  destruct (g b c2 w2) as [[[[d|e] c3] w3] l3]; by rewrite <- (assoc_L (++) l3 l2 l1).
Qed.

Lemma bind_unassoc {A B C} (m : M A) (f : A -> M B) (g : B -> M C) P Q E :
  hoare P (m ≫= (fun a => f a ≫= g)) Q E -> hoare P ((m ≫= f) ≫= g) Q E.
Proof.
  intros Hh c w l HP. specialize (Hh c w l HP). unfold mbind, m_bind in *.
  destruct (m c w) as [[[[a|e] c1] w1] l1]; [|done].
  destruct (f a c1 w1) as [[[[b|e] c2] w2] l2]; [|done].
  destruct (g b c2 w2) as [[[[d|e] c3] w3] l3]; by rewrite (assoc_L (++) l3 l2 l1).
Qed.

Lemma hoare_transition next s0 G `{!Stable G} :
  (forall c l, G c l -> next = Completed -> pending_command_verification c = false) ->
  hoare (fun c l => reach s0 c l /\ G c l) (transition next : M unit)
    (fun _ c l => reach s0 c l /\ G c l) (stopped s0).
Proof.
  intros Hdone. unfold transition.
  eapply (hoare_bind _ _ _ (fun _ c l => exists now,
    moved (with_state next now) (fun c => step (run_state (run c)) next) s0 G c l)).
  { unfold run_transition. eapply hoare_bind; [by apply (hoare_quiet _ s0 G), quiet_now|].
    intros now. eapply hoare_bind; [apply hoare_gets|]. intros r.
    unfold transition_to, state_transition_to.
    destruct (can_transition_to (run_state r) next) eqn:Hs.
    - apply hoare_modify. intros c l (-> & Hr & HGc). by exists now, c.
    - intros c w l (-> & Hr & HGc). split; [done|by eexists]. }
  intros []. apply hoare_exists. intros now. apply bind_assoc.
  eapply hoare_bind.
  - apply (hoare_save_moved next now _ s0 G). intros c l x HG Hs. apply cs_transition; [done|].
    by eapply Hdone.
  - intros []. apply (hoare_quiet _ s0 G). destruct (is_terminal next);
      [apply quiet_persist_metrics|apply quiet_ret].
Qed.

Lemma quiet_transition next : next <> Completed -> quiet_method (transition next : M unit).
Proof. intros Hne s0 G HG. by apply hoare_transition. Qed.

Lemma quiet_begin_turn : quiet_method (begin_turn : M unit).
Proof.
  intros s0 G HG. unfold begin_turn.
  eapply hoare_bind; [by apply (hoare_quiet _ s0 G), quiet_now|]. intros now.
  apply bind_assoc. eapply (hoare_bind _ _ _ (fun _ => moved (with_state Reasoning now)
    (fun c => is_terminal (run_state (run c)) = true) s0 G)).
  - eapply hoare_bind; [apply hoare_gets|]. intros r. unfold begin_user_turn.
    destruct (is_terminal (run_state r)) eqn:Ht; cbn.
    + apply hoare_modify. intros c l (-> & Hr & HGc). by exists c.
    + intros c w l (-> & Hr & HGc). split; [done|by eexists].
  - intros []. apply (hoare_save_moved _ _ _ s0 G). intros c l x _ Ht. by apply cs_turn.
Qed.
End PrimitiveRules.

#[export] Hint Resolve quiet_now quiet_elapsed quiet_new_id quiet_push quiet_update_metrics
  quiet_loop_elapsed quiet_emit quiet_begin_turn : quiet.
#[export] Hint Extern 1 (quiet_method (transition _)) => (by apply quiet_transition) : quiet.

(** ** The quiet methods *)
Section QuietMethods.
Context {W : Type} `{Environment W} `{Externals} `{Serde}.
#[local] Abbreviation M := (method W).

Lemma quiet_observe i n s k t d : quiet_method (observe i n s k t d : M unit).
Proof. unfold observe. quiet. Qed.
Lemma quiet_save_checkpoint p started : quiet_method (save_checkpoint p started : M unit).
Proof. unfold save_checkpoint. quiet. Qed.
Hint Resolve quiet_observe quiet_save_checkpoint : quiet.

Lemma quiet_finish_cancelled : quiet_method (finish_cancelled : M _).
Proof. unfold finish_cancelled. quiet. Qed.
Lemma quiet_fail code : quiet_method (fail code : M _).
Proof. unfold fail. quiet. Qed.
Lemma quiet_fail_reasoner code : quiet_method (fail_reasoner code : M _).
Proof. unfold fail_reasoner. quiet. Qed.
Lemma quiet_maybe_store_artifact o : quiet_method (maybe_store_artifact o : M _).
Proof. unfold maybe_store_artifact. quiet. Qed.
Lemma quiet_learn o r : quiet_method (learn o r : M _).
Proof. unfold learn. quiet. Qed.
Hint Resolve quiet_finish_cancelled quiet_fail quiet_fail_reasoner quiet_maybe_store_artifact
  quiet_learn : quiet.

Lemma quiet_record_outcome o : quiet_method (record_outcome o : M _).
Proof. unfold record_outcome. quiet. Qed.
Lemma quiet_record_change_rejection k : quiet_method (record_change_rejection k : M _).
Proof. unfold record_change_rejection. quiet. Qed.
Lemma quiet_record_blocked_call call r : quiet_method (record_blocked_call call r : M _).
Proof. unfold record_blocked_call. quiet. Qed.
Lemma quiet_record_rejected_decision e : quiet_method (record_rejected_decision e : M _).
Proof. unfold record_rejected_decision. quiet. Qed.
Hint Resolve quiet_record_outcome quiet_record_change_rejection quiet_record_blocked_call
  quiet_record_rejected_decision : quiet.

Lemma quiet_interrupt_for_approval call r v h started :
  quiet_method (interrupt_for_approval call r v h started : M _).
Proof. unfold interrupt_for_approval. quiet. Qed.
Lemma quiet_request_command_approval command started :
  quiet_method (request_command_approval command started : M _).
Proof. unfold request_command_approval. quiet. Qed.
Lemma quiet_propose_change_set proposal started :
  quiet_method (propose_change_set proposal started : M _).
Proof. unfold propose_change_set. quiet. Qed.
Lemma quiet_emit_pending_command_analysis d :
  quiet_method (emit_pending_command_analysis d : M _).
Proof. unfold emit_pending_command_analysis. quiet. Qed.
Lemma quiet_await_user q started : quiet_method (await_user q started : M _).
Proof. unfold await_user. quiet. Qed.
Lemma quiet_clock_or_now : quiet_method (clock_or_now : M _).
Proof. unfold clock_or_now. quiet. Qed.
Lemma quiet_start_clock : quiet_method (start_clock : M _).
Proof. unfold start_clock. quiet. Qed.
Lemma quiet_restart_clock : quiet_method (restart_clock : M _).
Proof. unfold restart_clock. quiet. Qed.
Lemma quiet_add_reply content : quiet_method (add_reply content : M _).
Proof. unfold add_reply. quiet. Qed.
Lemma quiet_save_decision a s : quiet_method (save_decision a s : M _).
Proof. unfold save_decision. quiet. Qed.
Lemma quiet_load_call a : quiet_method (load_call a : M _).
Proof. unfold load_call. quiet. Qed.
Lemma quiet_load_command a : quiet_method (load_command a : M _).
Proof. unfold load_command. quiet. Qed.
Lemma quiet_pause : quiet_method (pause : M _).
Proof. unfold pause. pose proof quiet_clock_or_now. quiet. Qed.
Lemma quiet_cancel : quiet_method (cancel : M _).
Proof. unfold cancel. quiet. Qed.
Lemma quiet_restore_facts cp : quiet_method (restore_facts_from_checkpoint cp : M _).
Proof. unfold restore_facts_from_checkpoint. quiet. Qed.
Lemma quiet_bootstrap : quiet_method (bootstrap : M _).
Proof. unfold bootstrap. quiet. Qed.
End QuietMethods.

#[export] Hint Resolve quiet_observe quiet_save_checkpoint quiet_finish_cancelled quiet_fail
  quiet_fail_reasoner quiet_record_outcome quiet_record_change_rejection quiet_record_blocked_call
  quiet_record_rejected_decision quiet_interrupt_for_approval quiet_request_command_approval
  quiet_propose_change_set quiet_emit_pending_command_analysis quiet_await_user quiet_clock_or_now
  quiet_start_clock quiet_restart_clock quiet_add_reply quiet_save_decision quiet_load_call
  quiet_load_command quiet_pause quiet_cancel : quiet.

(** ** Under a fact *)
Section Given.
Context {W : Type} `{Environment W} `{Externals} `{Serde}.
#[local] Abbreviation M := (method W).

#[export] Instance stable_key_is c0 : Stable (fun c _ => key c = key c0).
Proof. apply (stable_key (fun k => k = key c0)). Qed.
#[export] Instance stable_pending_is b : Stable (fun c _ => pending_command_verification c = b).
Proof. apply (stable_pending (fun p => p = b)). Qed.
#[export] Instance stable_config_is cfg : Stable (fun c _ => config c = cfg).
Proof. apply (stable_config (fun x => x = cfg)). Qed.
#[export] Instance stable_rounds_is n : Stable (fun c _ => rounds_used c = n).
Proof. apply (stable_rounds (fun x => x = n)). Qed.
(** Calls that the gate has authorized by itself. *)
Definition authorized (calls : list PreparedToolCall) (_ : Ctl) (l : log) : Prop :=
  forall call, call ∈ calls -> Act (Authorize call) Auto ∈ l.
#[export] Instance stable_authorized calls : Stable (authorized calls).
Proof. intros c c' l new _ Ha call Hc. apply elem_of_app. right. by apply Ha. Qed.

(** Quiet where a stable fact holds. *)
Definition quiet_given {A} (F : Ctl -> log -> Prop) (m : M A) : Prop :=
  forall s0 G, Stable G ->
    hoare (fun c l => reach s0 c l /\ (G c l /\ F c l)) m (fun _ c l => reach s0 c l /\ G c l)
      (stopped s0).

Lemma given_quiet {A} F (m : M A) : quiet_method m -> quiet_given F m.
Proof.
  intros Hm s0 G HG. eapply hoare_conseq; [apply (hoare_quiet m s0 G Hm)|naive_solver|done..].
Qed.

Lemma given_bind {A B} F `{!Stable F} (m : M A) (k : A -> M B) :
  quiet_method m -> (forall a, quiet_given F (k a)) -> quiet_given F (m ≫= k).
Proof.
  intros Hm Hk s0 G HG. eapply hoare_bind; [apply (hoare_quiet m s0 (fun c l => G c l /\ F c l) Hm)|].
  intros a. by apply Hk.
Qed.

(** A fact that a request leaves behind. *)
Lemma given_perform {X B} F `{!Stable F} (q : Req X) (k : X -> M B) :
  (forall c l, F c l -> allowed (config c) l q) ->
  (forall x, quiet_given (fun c l => F c l /\ Act q x ∈ l) (k x)) ->
  quiet_given F (perform q ≫= k).
Proof.
  intros Hq Hk s0 G HG.
  eapply hoare_bind; [apply (hoare_perform q s0 (fun c l => G c l /\ F c l)); naive_solver|].
  intros x. eapply hoare_conseq; [apply (Hk x s0 G HG)|naive_solver|done..].
Qed.

Lemma given_perform_last {X} F `{!Stable F} (q : Req X) :
  (forall c l, F c l -> allowed (config c) l q) -> quiet_given F (perform q).
Proof.
  intros Hq s0 G HG. eapply hoare_conseq;
    [apply (hoare_perform q s0 (fun c l => G c l /\ F c l)); naive_solver|naive_solver|naive_solver|done].
Qed.

Lemma given_store {A B} F `{!Stable F} (q : Req (result AgentStoreError A)) (k : A -> M B) :
  ordinary q -> (forall a, quiet_given (fun c l => F c l /\ Act q (Ok a) ∈ l) (k a)) ->
  quiet_given F (store q ≫= k).
Proof.
  intros Hq Hk s0 G HG. eapply (hoare_bind _ _ _ (fun a c l =>
    reach s0 c l /\ (G c l /\ (F c l /\ Act q (Ok a) ∈ l)))); [|intros a; by apply Hk].
  apply hoare_store.
  - intros a c l (Hr & HGc & HF). split.
    + eapply reach_step; [exact Hr|]. by apply cs_request.
    + split; [by apply (stable c c l [_])|]. split; [by apply (stable c c l [_])|by left].
  - intros e c l (Hr & _). split; [|by eexists]. eapply reach_step; [exact Hr|]. by apply cs_request.
Qed.

Lemma given_unwrap {A B} F (o : option A) e (k : A -> M B) :
  (forall a, o = Some a -> quiet_given F (k a)) -> quiet_given F (unwrap_or_throw o e ≫= k).
Proof.
  intros Hk s0 G HG c w l Hc. destruct o as [a|]; cbn.
  - pose proof (Hk a eq_refl s0 G HG c w l Hc) as Hr. unfold mbind, m_bind, mret, m_ret. cbn.
    destruct (k a c w) as [[[[b|e'] c'] w'] new]; by rewrite app_nil_r.
  - destruct Hc. split; [done|by eexists].
Qed.

Lemma given_ret {A B} F (a : A) (k : A -> M B) :
  quiet_given F (k a) -> quiet_given F (mret a ≫= k).
Proof. intros Hk. by apply (given_unwrap F (Some a) ErrNotFailed k); intros ? [= <-]. Qed.

Lemma given_seq {A B} F (m : M A) (k : A -> M B) :
  quiet_given F m -> (forall a, quiet_method (k a)) -> quiet_given F (m ≫= k).
Proof.
  intros Hm Hk s0 G HG. eapply hoare_bind; [apply (Hm s0 G HG)|]. intros a.
  by apply (hoare_quiet _ s0 G).
Qed.

Lemma given_assoc {A B C} F (m : M A) (f : A -> M B) (g : B -> M C) :
  quiet_given F (m ≫= (fun a => f a ≫= g)) -> quiet_given F ((m ≫= f) ≫= g).
Proof. intros Hm s0 G HG. by apply bind_unassoc, Hm. Qed.

(** What a method reads of its own configuration stays true. *)
Lemma given_read {B} F `{!Stable F} (k : Ctl -> M B) :
  (forall c0, quiet_given (fun c l => F c l /\ key c = key c0) (k c0)) ->
  quiet_given F (gets id ≫= k).
Proof.
  intros Hk s0 G HG. eapply hoare_bind; [apply hoare_gets|]. intros c0.
  eapply hoare_conseq; [apply (Hk c0 s0 G HG)| |done..]. by intros c l (-> & Hr & HGc & HF).
Qed.

Lemma given_weaken {A} (F F' : Ctl -> log -> Prop) (m : M A) :
  quiet_given F' m -> (forall c l, F c l -> F' c l) -> quiet_given F m.
Proof.
  intros Hm HF s0 G HG. eapply hoare_conseq; [apply (Hm s0 G HG)| |done..]. naive_solver.
Qed.

Lemma given_true {A} (m : M A) : quiet_given (fun _ _ => True) m -> quiet_method m.
Proof.
  intros Hm s0 G HG. eapply hoare_conseq; [apply (Hm s0 G HG)| |done..]. naive_solver.
Qed.

Lemma given_complete : quiet_given (fun c _ => pending_command_verification c = false)
  (transition Completed : M unit).
Proof.
  intros s0 G HG. eapply hoare_conseq;
    [apply (hoare_transition Completed s0
       (fun c l => G c l /\ pending_command_verification c = false)); naive_solver
    |naive_solver|naive_solver|done].
Qed.

Lemma quiet_on_final summary started : quiet_method (on_final summary started : M _).
Proof.
  apply given_true, given_read; [exact _|]. intros c0.
  destruct (pending_command_verification c0) eqn:Hp; [apply given_quiet; quiet|].
  apply (given_weaken _ (fun c _ => pending_command_verification c = false)).
  2: { intros c l [_ Hk]. unfold key in Hk. congruence. }
  do 5 (apply given_bind; [exact _|quiet|intros ?]).
  intros s0 G HG. eapply hoare_bind; [apply given_complete, HG|]. intros []. 
  apply (hoare_quiet _ s0 G). quiet.
Qed.

Lemma hoare_authorize_calls started calls auto s0 G `{!Stable G} :
  hoare (fun c l => reach s0 c l /\ (G c l /\ authorized auto c l))
    (authorize_calls started calls auto : M _)
    (fun r c l => reach s0 c l /\
       (G c l /\ match r with inl _ => True | inr kept => authorized kept c l end)) (stopped s0).
Proof.
  revert auto. induction calls as [|call calls IH]; intros auto; cbn [authorize_calls].
  { by intros c w l Hc. }
  set (G' := fun c l => G c l /\ authorized auto c l).
  assert (Stable G') as HG' by exact _.
  do 2 (eapply hoare_bind; [apply (hoare_quiet _ s0 G'); quiet|intros []]).
  eapply hoare_bind; [by apply (hoare_perform _ s0 G')|]. intros [|risk v h|reason].
  - set (G'' := fun c l => G c l /\ authorized (auto ++ [call]) c l).
    assert (Stable G'') as HG'' by exact _.
    apply (hoare_pre _ _ (fun c l => reach s0 c l /\ G'' c l)).
    + intros c l (Hr & [HGc Ha] & Hin). split; [done|]. split; [done|].
      intros x [Hx| ->%list_elem_of_singleton]%elem_of_app; [by apply Ha|done].
    + do 2 (eapply hoare_bind; [apply (hoare_quiet _ s0 G''); quiet|intros []]). apply IH.
  - apply (hoare_pre _ _ (fun c l => reach s0 c l /\ G' c l)); [naive_solver|].
    eapply hoare_bind; [apply (hoare_quiet _ s0 G'); quiet|]. intros o.
    by intros c w l (Hr & HGc & _).
  - apply (hoare_pre _ _ (fun c l => reach s0 c l /\ G' c l)); [naive_solver|].
    eapply hoare_bind; [apply (hoare_quiet _ s0 G'); quiet|]. intros []. apply IH.
Qed.

Lemma quiet_execute_authorized_calls calls started :
  quiet_method (execute_authorized_calls calls started : M _).
Proof.
  intros s0 G HG. unfold execute_authorized_calls.
  eapply hoare_bind; [apply (hoare_quiet _ s0 G); quiet|]. intros [].
  eapply hoare_bind.
  { apply (hoare_pre _ _ (fun c l => reach s0 c l /\ (G c l /\ authorized [] c l))).
    - intros c l [Hr HGc]. split; [done|]. split; [done|]. by intros x ?%not_elem_of_nil.
    - by apply hoare_authorize_calls. }
  intros [o|kept]; [by intros c w l (Hr & HGc & _)|].
  enough (quiet_given (authorized kept) (if (length kept =? 0)%nat then mret None else _)) as Hq
    by (apply Hq, HG).
  destruct (length kept =? 0)%nat; [apply given_quiet; quiet|].
  apply given_bind; [exact _|quiet|intros []]. apply given_read; [exact _|]. intros c0.
  apply given_perform; [exact _| |intros outcomes; apply given_quiet; quiet].
  intros c l [Ha _]. by left.
Qed.
End Given.

#[export] Hint Resolve quiet_on_final quiet_execute_authorized_calls : quiet.

(** ** The loop *)
Section LoopRules.
Context {W : Type} `{Environment W} `{Externals} `{Serde}.
#[local] Abbreviation M := (method W).

Lemma quiet_act_on v started : quiet_method (act_on v started : M _).
Proof. unfold act_on. quiet. Qed.
Hint Resolve quiet_act_on : quiet.
Lemma quiet_on_decision d started : quiet_method (on_decision d started : M _).
Proof. unfold on_decision. quiet. Qed.
Hint Resolve quiet_on_decision : quiet.

(** The rounds counted include the one under way, and the budget covers it. *)
Definition in_round (c : Ctl) (_ : log) : Prop :=
  (1 <= rounds_used c <= max_reasoner_rounds (budget (config c)))%N.
#[export] Instance stable_in_round : Stable in_round.
Proof. exact (stable_key (fun k => (1 <= k.2 <= max_reasoner_rounds (budget k.1.1))%N)). Qed.

Lemma given_ask started :
  quiet_given in_round
    (now ← now_ms;
     ids ← perform FreshIds;
     c ← gets id;
     elapsed ← elapsed_ms started;
     let context := build_context ids now c in
     decision ← perform (Decide (reasoner_input c elapsed context));
     update_metrics (record_reasoner_round (cs_estimated_tokens context)) ;;
     on_decision decision started : M _).
Proof.
  do 2 (apply given_bind; [exact _|quiet|intros ?]). apply given_read; [exact _|]. intros c0.
  apply given_bind; [exact _|quiet|intros elapsed].
  apply given_perform; [exact _| |intros d; apply given_quiet; quiet].
  intros c l [Hround Hk]. unfold key in Hk. injection Hk as Hc _ Hn. cbn.
  unfold in_round in Hround. by rewrite Hc, Hn in *.
Qed.

(** A round that reasons counts as one. *)
Lemma hoare_reason started n max s0 G `{!Stable G, !RoundFree G} :
  (n < max)%N -> (forall c l, G c l -> max_reasoner_rounds (budget (config c)) = max) ->
  hoare (fun c l => reach s0 c l /\ (G c l /\ rounds_used c = n)) (reason started : M _)
    (fun _ c l => reach s0 c l /\ (G c l /\ rounds_used c = (n + 1)%N)) (stopped s0).
Proof.
  intros Hlt Hmax. unfold reason. set (Gn k := fun c l => G c l /\ rounds_used c = k).
  assert (forall k, Stable (Gn k)) as HGn by (intros k; exact _).
  eapply hoare_bind; [apply (hoare_quiet _ s0 (Gn n)); quiet|]. intros c0.
  do 2 (eapply hoare_bind; [apply (hoare_quiet _ s0 (Gn n)); quiet|intros []]).
  eapply (hoare_bind _ _ _ (fun _ c l => reach s0 c l /\ (Gn (n + 1)%N c l /\ in_round c l))).
  { apply hoare_modify. intros c l (Hr & HGc & Hn). split.
    - eapply reach_step; [exact Hr|]. apply cs_round.
    - specialize (Hmax c l HGc). split; [split; [by apply round_free|]|].
      + cbn. by rewrite Hn.
      + unfold in_round. cbn. lia. }
  intros []. apply (given_ask started s0 (Gn (n + 1)%N)). exact _.
Qed.

Lemma hoare_loop_round started n max s0 G `{!Stable G, !RoundFree G} :
  hoare (fun c l => reach s0 c l /\
           ((G c l /\ max_reasoner_rounds (budget (config c)) = max) /\ rounds_used c = n))
    (loop_round started : M _)
    (fun r c l => reach s0 c l /\
       match r with
       | Some _ => G c l
       | None => (n < max)%N /\
           ((G c l /\ max_reasoner_rounds (budget (config c)) = max) /\ rounds_used c = (n + 1)%N)
       end) (stopped s0).
Proof.
  set (Gm := fun c l => G c l /\ max_reasoner_rounds (budget (config c)) = max).
  assert (Stable Gm) as HGm.
  { apply stable_and; [exact _|].
    apply (stable_config (fun x => max_reasoner_rounds (budget x) = max)). }
  assert (RoundFree Gm) as HRm by (intros c l k [HGc Hmax]; split; [by apply round_free|done]).
  set (Gn := fun c l => Gm c l /\ rounds_used c = n).
  assert (Stable Gn) as HGn by exact _.
  assert (forall o : M RunOutcome, quiet_method o ->
    hoare (fun c l => reach s0 c l /\ Gn c l) (x ← o; mret (Some x))
      (fun r c l => reach s0 c l /\ match r with
         | Some _ => G c l | None => (n < max)%N /\ (Gm c l /\ rounds_used c = (n + 1)%N) end)
      (stopped s0)) as Hend.
  { intros o Ho. eapply hoare_bind; [apply (hoare_quiet _ s0 Gn Ho)|].
    intros x c w l (Hr & [HGc _] & _). by split. }
  unfold loop_round. eapply hoare_bind; [apply (hoare_quiet _ s0 Gn); quiet|].
  intros [|]; [apply Hend; quiet|].
  eapply hoare_bind; [apply (hoare_quiet _ s0 Gn); quiet|]. intros elapsed.
  eapply hoare_bind; [apply hoare_gets|]. intros c0.
  destruct (time_budget_ms _ <=? elapsed)%N.
  { eapply hoare_pre; [|apply Hend; quiet]. by intros c l (_ & Hr & HGc). }
  destruct (max_reasoner_rounds _ <=? rounds_used c0)%N eqn:Hmax.
  { eapply hoare_pre; [|apply Hend; quiet]. by intros c l (_ & Hr & HGc). }
  apply N.leb_gt in Hmax.
  apply (hoare_pre _ _ (fun c l => (n < max)%N /\ (reach s0 c l /\ (Gm c l /\ rounds_used c = n)))).
  { intros c l (-> & Hr & [[HGc Hm] Hn]). cbn in *. split; [|done]. by rewrite <- Hm, <- Hn. }
  intros c w l [Hlt Hpre]. 
  pose proof (hoare_reason started n max s0 Gm Hlt (fun c l Hg => proj2 Hg) c w l Hpre) as Hreason.
  destruct (reason started c w) as [[[[[o|]|e] c'] w'] new]; [|by destruct Hreason|done].
  destruct Hreason as (Hr & [HGc _] & _). by split.
Qed.

(** The fuel of a drive outlasts the rounds the budget leaves. *)
Lemma hoare_drive fuel started n max s0 G `{!Stable G, !RoundFree G} :
  (N.to_nat (max - n) < fuel)%nat ->
  hoare (fun c l => reach s0 c l /\
           ((G c l /\ max_reasoner_rounds (budget (config c)) = max) /\ rounds_used c = n))
    (drive fuel started : M _) (fun _ c l => reach s0 c l /\ G c l) (stopped s0).
Proof.
  revert n. induction fuel as [|fuel IH]; intros n Hfuel; [lia|]. cbn [drive].
  eapply hoare_bind; [by apply hoare_loop_round|]. intros [o|]; [by intros c w l Hc|].
  intros c w l (Hr & Hlt & Hc). apply (IH (n + 1)%N); [lia|]. by split.
Qed.

(** Quiet for facts that do not speak of the rounds. *)
Definition driving {A} (m : M A) : Prop :=
  forall s0 G, Stable G -> RoundFree G -> quiet_in s0 G m.

Lemma driving_loop started : driving (drive_loop started : M _).
Proof.
  intros s0 G HG HR. unfold drive_loop. eapply hoare_bind; [apply hoare_gets|]. intros fuel.
  intros c w l (-> & Hr & HGc). unfold loop_fuel.
  eapply (hoare_drive _ _ (rounds_used c) (max_reasoner_rounds (budget (config c))) s0 G);
    [lia|by split_and!].
Qed.
End LoopRules.

(** ** The public operations *)
Section SoundMethods.
Context {W : Type} `{Environment W} `{Externals} `{Serde}.
#[local] Abbreviation M := (method W).

(** A public operation may make any move. *)
Record start := { at_start : Ctl * log }.
Definition full (s : start) : origin := {| from := at_start s; moves := cstep; quiet_moves := cs_quiet |}.
Coercion full : start >-> origin.

(** How a public operation may stop: an error, or the panic of an unset clock. *)
Definition ends s0 (e : abort) (c : Ctl) (l : log) : Prop :=
  reach s0 c l /\ (is_error e \/ (e = Panicked /\ loop_started_at c = None)).

Definition sound_given {A} (F : Ctl -> log -> Prop) (m : M A) : Prop :=
  forall s0 : start,
    hoare (fun c l => reach s0 c l /\ F c l) m (fun _ c l => reach s0 c l) (ends s0).
Definition sound {A} (m : M A) : Prop := sound_given (fun _ _ => True) m.

Lemma quiet_sound {A} F (m : M A) : quiet_method m -> sound_given F m.
Proof.
  intros Hm s0. eapply hoare_conseq; [apply (hoare_quiet m s0 (fun _ _ => True) Hm)|naive_solver|naive_solver|].
  intros e c l [Hr He]. split; [done|by left].
Qed.

Lemma driving_sound {A} F (m : M A) : driving m -> sound_given F m.
Proof.
  intros Hm s0. eapply hoare_conseq; [apply (Hm s0 (fun _ _ => True)); done|naive_solver|naive_solver|].
  intros e c l [Hr He]. split; [done|by left].
Qed.

Lemma sound_forget {A} F (m : M A) : sound m -> sound_given F m.
Proof. intros Hm s0. eapply hoare_pre; [|apply Hm]. naive_solver. Qed.

Lemma sound_weaken {A} (F F' : Ctl -> log -> Prop) (m : M A) :
  (forall c l, F c l -> F' c l) -> sound_given F' m -> sound_given F m.
Proof. intros HF Hm s0. eapply hoare_pre; [|apply Hm]. naive_solver. Qed.

Lemma sound_bind {A B} F `{!Stable F} (m : M A) (k : A -> M B) :
  quiet_method m -> (forall a, sound_given F (k a)) -> sound_given F (m ≫= k).
Proof.
  intros Hm Hk s0. eapply (hoare_bind _ _ _ (fun _ c l => reach s0 c l /\ F c l)).
  - eapply hoare_conseq; [apply (hoare_quiet m s0 F Hm)|done|done|].
    intros e c l [Hr He]. split; [done|by left].
  - intros a. by apply Hk.
Qed.

Lemma sound_perform {X B} F `{!Stable F} (q : Req X) (k : X -> M B) :
  (forall c l, F c l -> allowed (config c) l q) ->
  (forall x, sound_given (fun c l => F c l /\ Act q x ∈ l) (k x)) ->
  sound_given F (perform q ≫= k).
Proof.
  intros Hq Hk s0. eapply (hoare_bind _ _ _ (fun x c l => reach s0 c l /\ (F c l /\ Act q x ∈ l))).
  - eapply hoare_conseq; [apply (hoare_perform q s0 F); naive_solver|done|done|].
    intros e c l [Hr He]. split; [done|by left].
  - intros x. by apply Hk.
Qed.

Lemma sound_store {A B} F `{!Stable F} (q : Req (result AgentStoreError A)) (k : A -> M B) :
  ordinary q -> (forall a, sound_given (fun c l => F c l /\ Act q (Ok a) ∈ l) (k a)) ->
  sound_given F (store q ≫= k).
Proof.
  intros Hq Hk s0.
  eapply (hoare_bind _ _ _ (fun a c l => reach s0 c l /\ (F c l /\ Act q (Ok a) ∈ l)));
    [|intros a; by apply Hk].
  apply hoare_store.
  - intros a c l (Hr & HF). split; [|split; [by apply (stable c c l [_])|by left]].
    eapply reach_step; [exact Hr|]. by apply cs_request.
  - intros e c l (Hr & _). split; [|left; by eexists]. eapply reach_step; [exact Hr|].
    by apply cs_request.
Qed.

Lemma sound_read {B} F `{!Stable F} (k : Ctl -> M B) :
  (forall c0, sound_given (fun c l => F c l /\ key c = key c0) (k c0)) ->
  sound_given F (gets id ≫= k).
Proof.
  intros Hk s0. eapply hoare_bind; [apply hoare_gets|]. intros c0.
  eapply hoare_pre; [|apply (Hk c0 s0)]. by intros c l (-> & Hr & HF).
Qed.

Lemma sound_throw {A} F e : sound_given F (throw e : M A).
Proof. apply quiet_sound, quiet_throw. Qed.

(** A value that must be there: the method goes on with it, or ends. *)
Lemma sound_unwrap {A B} F (o : option A) e (k : A -> M B) :
  (forall a, o = Some a -> sound_given F (k a)) -> sound_given F (unwrap_or_throw o e ≫= k).
Proof.
  intros Hk s0 c w l Hc. destruct o as [a|]; cbn.
  - pose proof (Hk a eq_refl s0 c w l Hc) as Hr. unfold mbind, m_bind, mret, m_ret. cbn.
    destruct (k a c w) as [[[[b|e'] c'] w'] new]; by rewrite app_nil_r.
  - destruct Hc. split; [done|left; by eexists].
Qed.

Lemma sound_loop_drive : sound (started ← loop_clock; drive_loop started : M _).
Proof.
  intros s0. eapply (hoare_bind _ _ _ (fun _ c l => reach s0 c l /\ True)).
  - intros c w l [Hr _]. unfold loop_clock, mbind, m_bind, gets.
    destruct (loop_started_at c) as [s|] eqn:Hs; [by split|]. split; [done|by right].
  - intros started. by apply driving_sound, driving_loop.
Qed.

Lemma sound_resume_drive F : sound_given F (resume_drive : M _).
Proof.
  apply sound_forget. unfold resume_drive. apply sound_bind; [exact _|quiet|intros []].
  apply sound_loop_drive.
Qed.
Lemma sound_reason_again F : sound_given F (reason_again : M _).
Proof.
  apply sound_forget. unfold reason_again. apply sound_bind; [exact _|quiet|intros []].
  apply sound_resume_drive.
Qed.

Lemma sound_seq {A B} F (m : M A) (k : A -> M B) :
  sound_given F m -> (forall a, sound (k a)) -> sound_given F (m ≫= k).
Proof.
  intros Hm Hk s0. eapply hoare_bind; [apply Hm|]. intros a.
  eapply hoare_pre; [|apply Hk]. by split.
Qed.

(** The flag of verification moves only with the outcome of a command. *)
Lemma sound_record_command_outcome rid command o :
  sound_given (fun _ l => Act (ExecuteCommand rid command) o ∈ l)
    (record_command_outcome command o : M _).
Proof.
  unfold record_command_outcome. apply sound_seq.
  - intros s0. apply hoare_modify. intros c l [Hr Ho]. eapply rtc_r; [exact Hr|].
    by eapply cs_verification.
  - intros []. apply quiet_sound. quiet.
Qed.

(** ** Granting *)
#[export] Instance stable_exists {B} (P : B -> Ctl -> log -> Prop) `{!forall b, Stable (P b)} :
  Stable (fun c l => exists b, P b c l).
Proof. intros c c' l new Hk [b Hb]. exists b. by eapply stable. Qed.
#[export] Instance stable_granted a : Stable (fun _ l => granted l a).
Proof. unfold granted. exact _. Qed.

Definition read_approval (id : Uuid) (a : ApprovalRequest) (_ : Ctl) (l : log) : Prop :=
  Act (ApprovalGet id) (Ok (Some a)) ∈ l.
Definition policy_live (a : ApprovalRequest) (_ : Ctl) (l : log) : Prop :=
  Act (PolicyMatches (ap_policy_version a) (ap_policy_hash a)) true ∈ l.
#[export] Instance stable_read_approval id a : Stable (read_approval id a).
Proof. apply stable_in. Qed.
#[export] Instance stable_policy_live a : Stable (policy_live a).
Proof. apply stable_in. Qed.

(** An approval that was read and that the live policy backs, once saved as
    granted, is granted for the rest of the method. *)
Lemma sound_grant {X} id a F `{!Stable F} (k : unit -> M X) :
  (forall c l, F c l -> read_approval id a c l /\ policy_live a c l) ->
  (forall u, sound_given (fun c l => F c l /\ granted l a) (k u)) ->
  sound_given F (save_decision a Granted ≫= k).
Proof.
  intros HF Hk s0.
  eapply (hoare_bind _ _ _ (fun _ c l => reach s0 c l /\ (F c l /\ granted l a)));
    [|intros u; by apply Hk].
  unfold save_decision.
  eapply (hoare_bind _ _ _ (fun _ c l => reach s0 c l /\ F c l)).
  { eapply hoare_conseq; [apply (hoare_quiet _ s0 F); apply quiet_now|done|done|].
    intros e c l [Hr He]. split; [done|by left]. }
  intros now. apply hoare_store.
  - intros [] c l (Hr & HFc). split; [eapply reach_step; [exact Hr|]; by apply cs_request|].
    split; [by apply (stable c c l [_])|]. destruct (HF c l HFc) as [Hg Hp].
    split_and!; [exists id; by right|exists now; by left|by right].
  - intros e c l (Hr & _). split; [eapply reach_step; [exact Hr|]; by apply cs_request|].
    left. by eexists.
Qed.

Lemma call_validated a call ts m :
  validate_pending_approval a call ts m = Ok tt -> m = true.
Proof. unfold validate_pending_approval. repeat case_match; try done. by destruct m. Qed.
Lemma command_validated a command ts session m :
  validate_pending_command_approval a command ts session m = Ok tt -> m = true.
Proof. unfold validate_pending_command_approval. repeat case_match; try done. by destruct m. Qed.
Lemma change_validated a id v ts m :
  validate_pending_change_set_approval a id v ts m = Ok tt -> m = true.
Proof. unfold validate_pending_change_set_approval. repeat case_match; try done. by destruct m. Qed.

Ltac sound_step :=
  lazymatch goal with
  | |- sound (_ ≫= _) => unfold sound; apply sound_bind; [exact _|quiet|intros ?]
  | |- sound_given _ (_ ≫= _) => apply sound_bind; [exact _|quiet|intros ?]
  end.

Lemma sound_invalidate_command F a reason command :
  sound_given F (invalidate_command_approval_and_resume a reason command : M _).
Proof.
  apply sound_forget. unfold invalidate_command_approval_and_resume.
  repeat sound_step. apply sound_reason_again.
Qed.
Lemma sound_invalidate_tool F a reason call :
  sound_given F (invalidate_approval_and_resume a reason call : M _).
Proof.
  apply sound_forget. unfold invalidate_approval_and_resume.
  repeat sound_step. apply sound_reason_again.
Qed.
Lemma sound_invalidate_change F a reason id :
  sound_given F (invalidate_change_set_approval a reason id : M _).
Proof.
  apply sound_forget. unfold invalidate_change_set_approval.
  repeat sound_step. apply sound_reason_again.
Qed.

Lemma sound_approve_command id a : sound_given (read_approval id a) (approve_command id a : M _).
Proof.
  unfold approve_command. sound_step. rename a0 into command.
  apply sound_perform; [exact _|done|]. intros m.
  apply sound_read; [exact _|]. intros c0. apply sound_unwrap. intros session Hs.
  destruct (validate_pending_command_approval _ _ _ _ _) as [[]|reason] eqn:Hv;
    [|apply sound_invalidate_command].
  pose proof (command_validated _ _ _ _ _ Hv) as ->.
  apply (sound_grant id a); [exact _| |intros _]. { intros c l [[Hg Hp] _]. by split. }
  do 4 sound_step. apply sound_read; [exact _|]. intros c1.
  apply sound_perform; [exact _| |].
  { intros c l [[[_ Hk] Hgr] _]. unfold key in Hk. injection Hk as -> _ _.
    by exists a, session. }
  intros o. do 2 sound_step. apply sound_seq; [|intros _; apply sound_resume_drive].
  eapply sound_weaken; [|apply sound_record_command_outcome]. by intros c l [_ Ho].
Qed.

Lemma sound_approve_tool id a : sound_given (read_approval id a) (approve_tool id a : M _).
Proof.
  unfold approve_tool. sound_step. rename a0 into call.
  apply sound_perform; [exact _|done|]. intros m. apply sound_read; [exact _|]. intros c0.
  destruct (validate_pending_approval _ _ _ _) as [[]|reason] eqn:Hv;
    [|apply sound_invalidate_tool].
  pose proof (call_validated _ _ _ _ Hv) as ->.
  apply (sound_grant id a); [exact _| |intros _]. { intros c l [[Hg Hp] _]. by split. }
  do 4 sound_step. apply sound_read; [exact _|]. intros c1.
  apply sound_perform; [exact _| |].
  { intros c l [[[_ Hk] Hgr] _]. unfold key in Hk. injection Hk as -> _ _.
    right. exists call. split; [done|]. by exists a. }
  intros o. do 3 sound_step. apply sound_resume_drive.
Qed.

Lemma sound_roll_back cs id v :
  quiet_given (fun _ l => (Act (CsExecute id v) (Ok cs) ∈ l /\ cs_execution_state cs = Committed) /\
                          exists r, Act (CsVerify id v) r ∈ l /\ r <> Ok true)
    (roll_back id v : M _).
Proof.
  assert (forall p, Stable (fun _ _ => p)) as Hp by (by intros p c c' l new).
  unfold roll_back. do 2 (apply given_bind; [exact _|quiet|intros ?]).
  apply given_perform; [exact _| |intros x; apply given_quiet; quiet].
  intros c l [[He Hc] Hv]. split; [by exists cs|exact Hv].
Qed.

(** The change set that [run_change_set] works on is the approved one. *)
Lemma given_run_change_set cfg id v :
  quiet_given (fun c l => config c = cfg /\ change_approved cfg l id v) (run_change_set id v : M _).
Proof.
  assert (Stable (fun _ l => change_approved cfg l id v)) as Hs.
  { assert (forall p, Stable (fun _ _ => p)) as Hp by (by intros p c c' l new).
    unfold change_approved. exact _. }
  unfold run_change_set. apply given_perform; [exact _| |]. { by intros c l [-> Ha]. }
  intros [cs0|e]; [|intros s0 G HG c w l (Hr & _); split; [done|by eexists]].
  do 3 (apply given_bind; [exact _|cbn; quiet|intros ?]).
  apply given_perform; [exact _| |]. { intros c l [[-> Ha] Happ]. split; [done|by exists cs0]. }
  intros r. apply given_unwrap. intros cs Hcs. destruct r as [cs'|]; [|done]. injection Hcs as ->.
  case_bool_decide as Hc.
  2: { apply given_quiet. do 6 (apply quiet_bind; [quiet|intros ?]). rewrite andb_false_r. quiet. }
  do 3 (apply given_bind; [exact _|quiet|intros ?]).
  apply given_assoc, given_perform; [exact _|by intros c l [_ He]; exists cs|]. intros verified.
  apply given_ret. do 2 (apply given_bind; [exact _|quiet|intros ?]).
  destruct (negb _ && true) eqn:Hv; [|apply given_quiet; quiet].
  apply given_seq; [|intros ?; quiet]. eapply given_weaken; [apply (sound_roll_back cs)|].
  intros c l [[_ He] Hver]. split; [done|]. exists verified. split; [done|].
  intros ->. by rewrite andb_false_l in Hv.
Qed.

Lemma sound_approve_change_set id a :
  sound_given (read_approval id a) (approve_change_set id a : M _).
Proof.
  unfold approve_change_set. apply sound_unwrap. intros cs Hcs. apply sound_unwrap. intros v Hver.
  apply sound_perform; [exact _|done|]. intros m. apply sound_read; [exact _|]. intros c0.
  destruct (validate_pending_change_set_approval _ _ _ _ _) as [[]|reason] eqn:Hv;
    [|apply sound_invalidate_change].
  pose proof (change_validated _ _ _ _ _ Hv) as ->.
  apply (sound_grant id a); [exact _| |intros _]. { intros c l [[Hg Hp] _]. by split. }
  do 2 sound_step. apply sound_seq.
  - intros s0. eapply hoare_conseq; [apply (given_run_change_set (config c0) cs v s0 (fun _ _ => True))
      |..]; [exact _| |naive_solver|].
    + intros c l (Hr & [_ Hk] & Hg). unfold key in Hk. split; [done|]. split; [done|].
      split; [congruence|]. by exists a.
    + intros e c l [Hr He]. split; [done|by left].
  - intros verified. do 2 sound_step. apply sound_reason_again.
Qed.

Lemma hoare_load_approval id s0 :
  hoare (reach s0) (load_approval id : M _)
    (fun a c l => reach s0 c l /\ read_approval id a c l) (ends s0).
Proof.
  unfold load_approval.
  eapply (hoare_bind _ _ _ (fun _ c l => reach s0 c l /\ True)).
  { intros c w l Hr. by split. }
  intros c0. destruct (negb _).
  { intros c w l [Hr _]. split; [done|left; by eexists]. }
  eapply (hoare_bind _ _ _ (fun found c l => reach s0 c l /\ Act (ApprovalGet id) (Ok found) ∈ l)).
  { apply hoare_store.
    - intros found c l [Hr _]. split; [|by left]. eapply reach_step; [exact Hr|]. by apply cs_request.
    - intros e c l [Hr _]. split; [|left; by eexists]. eapply reach_step; [exact Hr|].
      by apply cs_request. }
  intros [a|] c w l [Hr Hin]; [by split|]. split; [done|left; by eexists].
Qed.

Lemma sound_approve id : sound (approve id : M _).
Proof.
  intros s0. eapply hoare_pre; [|eapply hoare_bind; [apply (hoare_load_approval id)|]].
  { by intros c l [Hr _]. }
  intros a. destruct (is_change_set a); [apply sound_approve_change_set|].
  destruct (is_command a); [apply sound_approve_command|apply sound_approve_tool].
Qed.

Lemma sound_reject id : sound (reject id : M _).
Proof.
  intros s0. eapply hoare_pre; [|eapply hoare_bind; [apply (hoare_load_approval id)|]].
  { by intros c l [Hr _]. }
  intros a. set (F := read_approval id a). revert s0.
  assert (forall m : M RunOutcome, sound m -> sound_given F m) as Hf by (intros m; apply sound_forget).
  destruct (is_change_set a); [|destruct (is_command a)]; apply Hf.
  - unfold reject_change_set. repeat sound_step. apply sound_reason_again.
  - unfold reject_command. repeat sound_step. apply sound_reason_again.
  - unfold reject_tool. repeat sound_step. apply sound_reason_again.
Qed.

Lemma sound_drive started : sound (drive_loop started : M _).
Proof. apply driving_sound, driving_loop. Qed.

Lemma sound_resume : sound (resume : M _).
Proof.
  unfold resume. sound_step. destruct (negb _); [apply sound_throw|].
  repeat sound_step. apply sound_drive.
Qed.

Lemma sound_run_to_interrupt : sound (run_to_interrupt : M _).
Proof. unfold run_to_interrupt. repeat sound_step. apply sound_drive. Qed.

Lemma sound_resume_with_user_input answer : sound (resume_with_user_input answer : M _).
Proof.
  unfold resume_with_user_input. sound_step. destruct (negb _); [apply sound_throw|].
  repeat (lazymatch goal with
          | |- sound_given _ (loop_clock ≫= _) => fail
          | _ => sound_step
          end).
  apply sound_loop_drive.
Qed.

(** *** The loops over the pending approvals need the store's help to end *)
Definition sound_or_fuel {A} (m : M A) : Prop :=
  forall s0 : start, hoare (reach s0) m (fun _ c l => reach s0 c l)
    (fun e c l => ends s0 e c l \/ (e = OutOfFuel /\ reach s0 c l)).

Lemma fuel_sound {A} (m : M A) : sound m -> sound_or_fuel m.
Proof.
  intros Hm s0. eapply hoare_conseq; [apply Hm|by split|done|]. by left.
Qed.
Lemma fuel_bind {A B} (m : M A) (k : A -> M B) :
  sound_or_fuel m -> (forall a, sound_or_fuel (k a)) -> sound_or_fuel (m ≫= k).
Proof. intros Hm Hk s0. eapply hoare_bind; [apply Hm|]. intros a. apply Hk. Qed.
Lemma fuel_quiet {A} (m : M A) : quiet_method m -> sound_or_fuel m.
Proof. intros Hm. by apply fuel_sound, quiet_sound. Qed.
Lemma fuel_round n : sound_or_fuel (modify (set_rounds_used n) : M _).
Proof. intros s0. apply hoare_modify. intros c l Hr. eapply reach_step; [exact Hr|apply cs_round]. Qed.

Lemma fuel_invalidate_pending fuel reason : sound_or_fuel (invalidate_pending fuel reason : M _).
Proof.
  induction fuel as [|fuel IH]; cbn [invalidate_pending].
  { intros s0 c w l Hr. by right. }
  apply fuel_bind; [apply fuel_quiet; quiet|]. intros r.
  apply fuel_bind; [apply fuel_quiet; quiet|]. intros [a|]; [|apply fuel_quiet; quiet].
  do 3 (apply fuel_bind; [apply fuel_quiet; quiet|intros ?]). apply IH.
Qed.

Lemma fuel_retry fuel : sound_or_fuel (retry_after_failure fuel : M _).
Proof.
  unfold retry_after_failure. apply fuel_bind; [apply fuel_quiet; quiet|]. intros c.
  destruct (negb _); [apply fuel_quiet; quiet|].
  apply fuel_bind; [apply fuel_invalidate_pending|intros []].
  do 6 (apply fuel_bind; [apply fuel_quiet; quiet|intros ?]). apply fuel_sound, sound_drive.
Qed.

Lemma quiet_invalidate_targets : quiet_method (modify invalidate_targets : M _).
Proof. apply quiet_modify. intros c. split; [done|]. split; [done|exact (fun x => x)]. Qed.

Lemma fuel_continue fuel answer : sound_or_fuel (continue_conversation fuel answer : M _).
Proof.
  unfold continue_conversation. apply fuel_bind; [apply fuel_quiet; quiet|]. intros trimmed.
  apply fuel_bind; [apply fuel_quiet; quiet|]. intros c.
  destruct (negb _); [apply fuel_quiet; quiet|].
  apply fuel_bind; [apply fuel_invalidate_pending|intros []].
  apply fuel_bind; [apply fuel_quiet; quiet|intros []].
  apply fuel_bind; [apply fuel_round|intros []].
  do 2 (apply fuel_bind; [apply fuel_quiet; quiet|intros ?]).
  apply fuel_bind; [apply fuel_quiet, quiet_invalidate_targets|intros []].
  do 4 (apply fuel_bind; [apply fuel_quiet; quiet|intros ?]). apply fuel_sound, sound_drive.
Qed.
End SoundMethods.
