(* ===== verification/Harness.v ===== *)
(** * A controller on the in-memory stores

    An environment made of the stores of [Stores], a scripted reasoner, gate
    and dispatcher, counters for identifiers and clocks.  It closes the model:
    the runs of [ControllerTheorems] are evaluated in it. *)
From S2P Require Import Prelude Str RunState Tools Externals Decision Gate Approval Evidence.
From S2P Require Import Events Dispatch Stores Control.

Record World := {
  w_runs : Locked run_map;
  w_events : Locked event_map;
  w_approvals : Locked approval_map;
  w_calls : Locked (gmap N PreparedToolCall);
  w_commands : Locked (gmap N PreparedCommandProposal);
  w_checkpoints : Locked (gmap N AgentCheckpoint);
  w_decisions : list (result str AgentDecision);
  w_gate : PreparedToolCall -> Authorization;
  w_command_gate : PreparedCommandProposal -> CommandAuthorization;
  w_policy : N -> str -> bool;
  w_read : PreparedToolCall -> ToolOutcome;
  w_command : PreparedCommandProposal -> CommandOutcome;
  w_next_id : N;
  w_time : N;
}.

Definition set_runs (x : Locked run_map) (w : World) : World :=
  {| w_runs := x; w_events := w_events w; w_approvals := w_approvals w; w_calls := w_calls w;
     w_commands := w_commands w; w_checkpoints := w_checkpoints w; w_decisions := w_decisions w;
     w_gate := w_gate w; w_command_gate := w_command_gate w; w_policy := w_policy w;
     w_read := w_read w; w_command := w_command w; w_next_id := w_next_id w; w_time := w_time w |}.
Definition set_events (x : Locked event_map) (w : World) : World :=
  {| w_runs := w_runs w; w_events := x; w_approvals := w_approvals w; w_calls := w_calls w;
     w_commands := w_commands w; w_checkpoints := w_checkpoints w; w_decisions := w_decisions w;
     w_gate := w_gate w; w_command_gate := w_command_gate w; w_policy := w_policy w;
     w_read := w_read w; w_command := w_command w; w_next_id := w_next_id w; w_time := w_time w |}.
Definition set_approvals (x : Locked approval_map) (w : World) : World :=
  {| w_runs := w_runs w; w_events := w_events w; w_approvals := x; w_calls := w_calls w;
     w_commands := w_commands w; w_checkpoints := w_checkpoints w; w_decisions := w_decisions w;
     w_gate := w_gate w; w_command_gate := w_command_gate w; w_policy := w_policy w;
     w_read := w_read w; w_command := w_command w; w_next_id := w_next_id w; w_time := w_time w |}.
Definition set_pending (x : Locked (gmap N PreparedToolCall))
    (y : Locked (gmap N PreparedCommandProposal)) (w : World) : World :=
  {| w_runs := w_runs w; w_events := w_events w; w_approvals := w_approvals w; w_calls := x;
     w_commands := y; w_checkpoints := w_checkpoints w; w_decisions := w_decisions w;
     w_gate := w_gate w; w_command_gate := w_command_gate w; w_policy := w_policy w;
     w_read := w_read w; w_command := w_command w; w_next_id := w_next_id w; w_time := w_time w |}.
Definition set_checkpoints (x : Locked (gmap N AgentCheckpoint)) (w : World) : World :=
  {| w_runs := w_runs w; w_events := w_events w; w_approvals := w_approvals w; w_calls := w_calls w;
     w_commands := w_commands w; w_checkpoints := x; w_decisions := w_decisions w;
     w_gate := w_gate w; w_command_gate := w_command_gate w; w_policy := w_policy w;
     w_read := w_read w; w_command := w_command w; w_next_id := w_next_id w; w_time := w_time w |}.
(** The next decision, id or instant. *)
Definition advance (ds : list (result str AgentDecision)) (id time : N) (w : World) : World :=
  {| w_runs := w_runs w; w_events := w_events w; w_approvals := w_approvals w; w_calls := w_calls w;
     w_commands := w_commands w; w_checkpoints := w_checkpoints w; w_decisions := ds;
     w_gate := w_gate w; w_command_gate := w_command_gate w; w_policy := w_policy w;
     w_read := w_read w; w_command := w_command w; w_next_id := id; w_time := time |}.

Definition on_store {A B} (op : store_op A B) (get : World -> Locked A)
    (set : Locked A -> World -> World) (w : World) : result AgentStoreError B * World :=
  let '(r, s) := op (get w) in (r, set s w).

Definition approval_values (m : approval_map) : list ApprovalRequest := (map_to_list m).*2.

#[export] Instance memory_environment : Environment World := fun X q w =>
  match q in Req X return X * World with
  | RunInsert r => on_store (run_insert r) w_runs set_runs w
  | RunSave r => on_store (run_save r) w_runs set_runs w
  | SaveMetrics _ _ => (Ok tt, w)
  | AppendEvent e => on_store (event_append e) w_events set_events w
  | ApprovalInsert a => on_store (approval_insert a) w_approvals set_approvals w
  | ApprovalGet id => (approval_get id (w_approvals w), w)
  | ApprovalSave a => on_store (approval_save a) w_approvals set_approvals w
  | ApprovalPending id => (pending_for_run approval_values id (w_approvals w), w)
  | CheckpointSave c => on_store (checkpoint_save c) w_checkpoints set_checkpoints w
  | PendingPut call => on_store (pending_put call) w_calls (fun s => set_pending s (w_commands w)) w
  | PendingGet id => (pending_get id (w_calls w), w)
  | PendingRemove id => on_store (pending_remove id) w_calls (fun s => set_pending s (w_commands w)) w
  | PutCommand c => on_store (put_command c) w_commands (set_pending (w_calls w)) w
  | GetCommand id => (get_command id (w_commands w), w)
  | RemoveCommand id => on_store (remove_command id) w_commands (set_pending (w_calls w)) w
  | Decide _ =>
      match w_decisions w with
      | d :: rest => (d, advance rest (w_next_id w) (w_time w) w)
      | [] => (Err (lit "MODEL_UNAVAILABLE"), w)
      end
  | Authorize call => (w_gate w call, w)
  | AuthorizeCommand c => (w_command_gate w c, w)
  | PolicyMatches v h => (w_policy w v h, w)
  | ExecuteReads _ calls => (map (w_read w) calls, w)
  | ExecuteCommand _ c => (w_command w c, w)
  | CsDraft _ _ _ => (Err CsePolicyBlocked, w)
  | CsApprove _ _ | CsExecute _ _ | CsRollback _ _ => (Err CseExecutionFailed, w)
  | CsVerify _ _ => (Err CseExecutionFailed, w)
  | ArtifactPut _ => (Ok tt, w)
  | FreshIds =>
      (fun k => (w_next_id w + N.of_nat k)%N,
       advance (w_decisions w) (w_next_id w + 100) (w_time w) w)
  | EpochClock => (Some (1000 + w_time w)%N, w)
  | InstantClock => (w_time w, advance (w_decisions w) (w_next_id w) (w_time w + 1) w)
  | IsCancelled => (false, w)
  end.

#[export] Instance plain_serde : Serde := {|
  facts_to_json _ := None; facts_of_json _ := None; metrics_to_json _ := Some [] |}.

(** Empty stores, permissive scripts. *)
Definition unlocked {A} (a : A) : Locked A := {| poisoned := false; held := a |}.
Definition fresh_world (decisions : list (result str AgentDecision)) : World :=
  {| w_runs := unlocked ∅; w_events := unlocked ∅; w_approvals := unlocked ∅;
     w_calls := unlocked ∅; w_commands := unlocked ∅; w_checkpoints := unlocked ∅;
     w_decisions := decisions; w_gate _ := Auto;
     w_command_gate c := CmdRequireApproval (command_risk_str (cmd_risk c)) 1 (lit "hash");
     w_policy v h := (v =? 1)%N && str_eqb h (lit "hash");
     w_read call := outcome_failure call (lit "EXEC_FAILED");
     w_command c := {| co_command_id := command_id c; co_success := true; co_exit_code := Some 0%N;
                       co_stdout := lit "ok"; co_stderr := []; co_error_code := None;
                       co_duration_ms := 5; co_cancelled := false |};
     w_next_id := 100; w_time := 0 |}.
