(* ===== verification/ControllerTheorems.v ===== *)
(** * What the controller guarantees, whatever its environment answers

    Sessions of public operations on one controller, and the guarantees over
    all of them: every execution was authorized, the persisted run and its
    events are in order, the loop ends within its budget, a run does not
    complete with a verification outstanding, no operation panics once the
    clock is set, a new turn settles the old approvals.  The runs at the end
    show where the code misses its intent. *)
From stdpp Require Import sorting.
From S2P Require Import Prelude Str RunState Context Tools Policy Externals Decision Gate.
From S2P Require Import Approval CommandLoop Evidence Facts Events Dispatch Stores Control.
From S2P Require Import Controller ControllerSpec ControllerProofs Harness.

Section Sessions.
Context {W : Type} `{Environment W} `{Externals} `{Serde}.

(** The public operations; the fuel is for their loop over pending approvals. *)
Inductive operation :=
  | Pause | Resume | RunToInterrupt | Cancel
  | RetryAfterFailure (fuel : nat)
  | ContinueConversation (fuel : nat) (answer : str)
  | ResumeWithUserInput (answer : str)
  | Approve (id : Uuid)
  | Reject (id : Uuid)
  | RestoreFacts (checkpoint : AgentCheckpoint).

Definition no_outcome (m : method W unit) : method W (option RunOutcome) := m ;; mret None.
Definition with_outcome (m : method W RunOutcome) : method W (option RunOutcome) :=
  o ← m; mret (Some o).

Definition run_operation (o : operation) : method W (option RunOutcome) :=
  match o with
  | Pause => no_outcome pause
  | Resume => with_outcome resume
  | RunToInterrupt => with_outcome run_to_interrupt
  | Cancel => with_outcome cancel
  | RetryAfterFailure fuel => with_outcome (retry_after_failure fuel)
  | ContinueConversation fuel answer => with_outcome (continue_conversation fuel answer)
  | ResumeWithUserInput answer => with_outcome (resume_with_user_input answer)
  | Approve id => with_outcome (approve id)
  | Reject id => with_outcome (reject id)
  | RestoreFacts checkpoint => no_outcome (restore_facts_from_checkpoint checkpoint)
  end.

(** Operations one after the other on the same controller, whatever each
    returns; the log holds the requests of all of them, newest first. *)
Fixpoint run_session (ops : list operation) (c : Ctl) (w : W) : Ctl * W * log :=
  match ops with
  | [] => (c, w, [])
  | o :: rest =>
      let '(_, c, w, l) := run_operation o c w in
      let '(c, w, l') := run_session rest c w in
      (c, w, l' ++ l)
  end.

Lemma operation_sound o : sound_or_fuel (run_operation o).
Proof.
  assert (forall A (m : method W A), sound m -> sound_or_fuel m) as Hf by (intros; by apply fuel_sound).
  destruct o; apply fuel_bind; try (intros; apply fuel_quiet; quiet; fail).
  - apply Hf, sound_resume.
  - apply Hf, sound_run_to_interrupt.
  - apply fuel_retry.
  - apply fuel_continue.
  - apply Hf, sound_resume_with_user_input.
  - apply Hf, sound_approve.
  - apply Hf, sound_reject.
  - apply fuel_quiet, quiet_restore_facts.
Qed.

(** The moves of an operation, and how it may stop. *)
Lemma operation_ends o c w l :
  let '(r, c', _, new) := run_operation o c w in
  csteps (c, l) (c', new ++ l) /\
  match r with
  | Err Panicked => loop_started_at c' = None
  | _ => True
  end.
Proof.
  pose proof (operation_sound o {| at_start := (c, l) |} c w l (rtc_refl _ _)) as Ho.
  destruct (run_operation o c w) as [[[[a|e] c'] w'] new]; [by split|].
  destruct Ho as [[Hr [[x ->]|[-> Hc]]]|[-> Hr]]; by split.
Qed.

Lemma operation_steps o c w l :
  let '(_, c', _, new) := run_operation o c w in csteps (c, l) (c', new ++ l).
Proof. pose proof (operation_ends o c w l) as Ho. by destruct (run_operation o c w) as [[[? ?] ?] ?], Ho. Qed.

Lemma session_steps ops c w l :
  let '(c', _, new) := run_session ops c w in csteps (c, l) (c', new ++ l).
Proof.
  revert c w l. induction ops as [|o ops IH]; intros c w l; cbn; [constructor|].
  pose proof (operation_steps o c w l) as Ho.
  destruct (run_operation o c w) as [[[r c1] w1] l1]. specialize (IH c1 w1 (l1 ++ l)).
  destruct (run_session ops c1 w1) as [[c2 w2] l2]. rewrite <- (assoc_L (++)).
  by etrans; [exact Ho|].
Qed.

Lemma session_justified ops c w :
  let '(_, _, l) := run_session ops c w in justified (config c) l.
Proof.
  pose proof (session_steps ops c w []) as Hs.
  destruct (run_session ops c w) as [[c' w'] l]. rewrite app_nil_r in Hs.
  pose proof (csteps_justified _ _ Hs I) as Hj. by rewrite (csteps_config _ _ Hs) in Hj.
Qed.
End Sessions.

(** The flag that the outcome of a command leaves. *)
Lemma hoare_recorded `{Environment W} `{Externals} `{Serde} command o (c : Ctl) (w : W) :
  match record_command_outcome command o c w with
  | (Ok _, c', _, _) =>
      pending_command_verification c'
      = verification_after (cmd_mutability command) (co_success o) (pending_command_verification c)
  | (Err _, _, _, _) => True
  end.
Proof.
  set (b := verification_after _ _ _).
  set (G := fun (c : Ctl) (_ : log) => pending_command_verification c = b).
  assert (hoare (fun c' _ => c' = c) (record_command_outcome command o : method W unit)
            (fun _ => G) (fun _ _ _ => True)) as Hh.
  { unfold record_command_outcome.
    eapply (hoare_bind _ _ _ (fun _ c' l' => exists s0, reach s0 c' l' /\ G c' l')).
    - apply hoare_modify. intros c' l' ->.
      exists {| from := (set_pending_command_verification b c, l'); moves := qstep;
                quiet_moves := fun _ _ s => s |}. by split; [constructor|].
    - intros []. apply hoare_exists. intros s0.
      eapply hoare_conseq; [apply (hoare_quiet _ s0 G)|done| |done]; [quiet|naive_solver]. }
  specialize (Hh c w [] eq_refl).
  by destruct (record_command_outcome command o c w) as [[[[u|e] c'] w'] l'].
Qed.

(** The clock is set when a first drive ends. *)
Lemma clock_after_start `{Environment W} `{Externals} `{Serde} (c : Ctl) (w : W) o c1 w1 l1 :
  run_to_interrupt c w = (Ok o, c1, w1, l1) -> is_Some (loop_started_at c1).
Proof.
  intros Hr. set (P := fun (c : Ctl) (_ : log) => is_Some (loop_started_at c)).
  assert (forall A (m : method W A), driving m -> hoare P m (fun _ => P) (fun _ _ _ => True)) as Hd.
  { intros A m Hm c0 w0 l0 Hc0.
    pose proof (Hm {| from := (c0, l0); moves := qstep; quiet_moves := fun _ _ s => s |}
      (fun _ _ => True) _ ltac:(done) c0 w0 l0 (conj (rtc_refl _ _) I)) as Hx.
    destruct (m c0 w0) as [[[[a|e] c2] w2] l2]; [|done]. destruct Hx as [Hx _].
    exact (csteps_clock _ _ (rtc_subrel _ _ _ _ (fun a b => cs_quiet a b) Hx) Hc0). }
  assert (hoare (fun _ _ => True) (run_to_interrupt : method W _) (fun _ => P) (fun _ _ _ => True)) as Hh.
  { unfold run_to_interrupt. apply (hoare_bind _ _ _ (fun _ _ _ => True)); [done|]. intros c0.
    apply (hoare_bind _ _ _ (fun _ _ _ => True)).
    { intros c2 w2 l2 _. by repeat case_match. }
    intros []. apply (hoare_bind _ _ _ (fun _ => P)); [|intros s; apply Hd, driving_loop].
    intros c2 w2 l2 _. unfold start_clock, mbind, m_bind, gets.
    destruct (loop_started_at c2) eqn:Hs; cbn; [by eexists|].
    unfold perform. destruct (answer InstantClock w2). by eexists. }
  specialize (Hh c w [] I). by rewrite Hr in Hh.
Qed.

(** ** The loop over pending approvals, on the in-memory stores *)
Section PendingLoop.
Context `{Externals} `{Serde}.

(** Every approval is stored under its own id. *)
Definition approvals_keyed (m : approval_map) : Prop := map_Forall (fun k a => ap_id a = k) m.
#[export] Instance approvals_keyed_dec m : Decision (approvals_keyed m).
Proof. unfold approvals_keyed. exact _. Defined.
Definition pending_in (id : Uuid) (m : approval_map) : approval_map :=
  filter (fun ka => pending_of id ka.2 = true) m.

(** What becomes of an approval: invalidated if it was pending for the run. *)
Definition settled (id : Uuid) (before after : option ApprovalRequest) : Prop :=
  match before with
  | Some a => if pending_of id a then exists now, after = Some (decide_approval Invalidated now a)
              else after = Some a
  | None => after = None
  end.

Lemma emit_in_memory e (c : Ctl) (w : World) :
  let '(r, c', w', _) := emit_event e c w in
  w_approvals w' = w_approvals w /\ run_id (run c') = run_id (run c) /\
  match r with Err x => is_error x | Ok _ => True end.
Proof.
  unfold emit_event, now_ms, store, perform, mbind, m_bind, gets, modify. cbn.
  unfold on_store. destruct (event_append _ _) as [[u|x] ev]; cbn; [|by split_and!; try eexists].
  destruct (run_save _ _) as [[u'|x] rs]; cbn; by split_and!; try eexists.
Qed.

Lemma pending_for_run_some id m a :
  pending_for_run approval_values id (unlocked m) = Ok (Some a) ->
  exists k, m !! k = Some a /\ pending_of id a = true.
Proof.
  unfold pending_for_run, with_read. cbn. intros [= [Hin Hp]%find_some].
  apply list_elem_of_In, list_elem_of_fmap in Hin as ([k a'] & -> & Hm).
  exists k. split; [by apply elem_of_map_to_list in Hm|done].
Qed.
Lemma pending_for_run_none id m :
  pending_for_run approval_values id (unlocked m) = Ok None ->
  forall k a, m !! k = Some a -> pending_of id a = false.
Proof.
  unfold pending_for_run, with_read. cbn. intros [= Hn] k a Hk.
  apply (find_none _ _ Hn), list_elem_of_In, list_elem_of_fmap. exists (k, a).
  split; [done|by apply elem_of_map_to_list].
Qed.

Lemma decided_not_pending id s now a :
  s <> Pending -> pending_of id (decide_approval s now a) = false.
Proof. intros Hs. unfold pending_of. cbn. rewrite bool_decide_false by done. apply andb_false_r. Qed.

Lemma pending_in_decided id (m : approval_map) k a now :
  m !! k = Some a -> pending_of id a = true ->
  (size (pending_in id (<[k := decide_approval Invalidated now a]> m)) < size (pending_in id m))%nat.
Proof.
  intros Hk Hp. unfold pending_in.
  rewrite map_filter_insert_False by (cbn; by rewrite decided_not_pending).
  rewrite map_filter_delete, map_size_delete_Some; [|by eexists; apply map_lookup_filter_Some].
  assert (size (filter (fun ka => pending_of id ka.2 = true) m) <> 0)%nat; [|lia].
  intros Hz%map_size_empty_inv. apply (map_filter_empty_not_lookup _ _ k a Hz); done.
Qed.

Lemma settled_step id (m : approval_map) k a now (m' : approval_map) :
  m !! k = Some a -> pending_of id a = true ->
  (forall j, settled id (<[k := decide_approval Invalidated now a]> m !! j) (m' !! j)) ->
  forall j, settled id (m !! j) (m' !! j).
Proof.
  intros Hk Hp Hs j. specialize (Hs j). destruct (decide (j = k)) as [->|Hne].
  - rewrite lookup_insert_eq in Hs. cbn in Hs. rewrite decided_not_pending in Hs by done.
    rewrite Hk. cbn. rewrite Hp. by eexists.
  - by rewrite lookup_insert_ne in Hs.
Qed.

(** Running a method without looking at its log. *)
Definition outcome {W A} (m : method W A) (c : Ctl) (w : W) : result abort A * Ctl * W := (m c w).1.
Lemma outcome_bind {W A B} (m : method W A) (k : A -> method W B) c w :
  outcome (m ≫= k) c w = match outcome m c w with
    | (Ok a, c', w') => outcome (k a) c' w'
    | (Err e, c', w') => (Err e, c', w') end.
Proof.
  unfold outcome, mbind, m_bind. destruct (m c w) as [[[[a|e] c'] w'] l]; [|done]. cbn.
  by destruct (k a c' w') as [[[]]].
Qed.
Lemma outcome_store {W A} `{Environment W} (q : Req (result AgentStoreError A)) (c : Ctl) (w : W) :
  outcome (store q) c w = match answer q w with
    | (Ok a, w') => (Ok a, c, w')
    | (Err e, w') => (Err (Error (ErrStore e)), c, w') end.
Proof.
  unfold outcome, store, mbind, m_bind, perform. by destruct (answer q w) as [[a|e] w'].
Qed.

Lemma outcome_gets {W A} (f : Ctl -> A) c (w : W) : outcome (gets f) c w = (Ok (f c), c, w).
Proof. done. Qed.
Lemma outcome_now c (w : World) :
  outcome now_ms c w = (Ok (now_epoch_ms (Some (1000 + w_time w)%N)), c, w).
Proof. done. Qed.

Lemma invalidate_pending_in_memory fuel reason (c : Ctl) (w : World) :
  approvals_keyed (held (w_approvals w)) ->
  (size (pending_in (run_id (run c)) (held (w_approvals w))) < fuel)%nat ->
  let '(r, c', w') := outcome (invalidate_pending fuel reason) c w in
  match r with
  | Ok _ => run_id (run c') = run_id (run c) /\
            forall k, settled (run_id (run c)) (held (w_approvals w) !! k) (held (w_approvals w') !! k)
  | Err e => is_error e
  end.
Proof.
  revert c w. induction fuel as [|fuel IH]; intros c w Hkeyed Hsize; [lia|].
  destruct (w_approvals w) as [p m] eqn:Hw. cbn [held] in *. cbn [invalidate_pending].
  rewrite outcome_bind, outcome_gets, outcome_bind, outcome_store.
  cbn [answer memory_environment]. rewrite Hw.
  destruct p; [by eexists|]. change {| poisoned := false; held := m |} with (unlocked m).
  destruct (pending_for_run approval_values (run_id (run c)) (unlocked m)) as [[a|]|e] eqn:Hq;
    [| |by eexists].
  2: { split; [done|]. intros k. rewrite Hw. cbn. unfold settled.
       destruct (m !! k) as [a|] eqn:Hk; [|done]. by rewrite (pending_for_run_none _ m Hq k a Hk). }
  destruct (pending_for_run_some _ m a Hq) as (k & Hk & Hp).
  pose proof (Hkeyed k a Hk) as <-.
  rewrite outcome_bind, outcome_now, outcome_bind, outcome_store. cbn [answer memory_environment].
  set (a' := decide_approval Invalidated _ a). unfold on_store. rewrite Hw.
  unfold approval_save, with_write. cbn [poisoned held unlocked ap_id decide_approval a'].
  rewrite bool_decide_true by (by eexists). cbn [negb].
  rewrite outcome_bind.
  pose proof (emit_in_memory (ApprovalInvalidated (ap_id a) reason) c
    (set_approvals {| poisoned := false; held := <[ap_id a := a']> m |} w)) as Hemit.
  unfold outcome in Hemit |- * at 1.
  destruct (emit_event _ _ _) as [[[[u|e] c1] w1] l1]; destruct Hemit as (Hw1 & Hid & He); [|exact He].
  assert (held (w_approvals w1) = <[ap_id a := a']> m) as Hm1 by by rewrite Hw1.
  specialize (IH c1 w1). rewrite Hm1, Hid in IH.
  pose proof (pending_in_decided (run_id (run c)) m (ap_id a) a
    (now_epoch_ms (Some (1000 + w_time w)%N)) Hk Hp) as Hless. fold a' in Hless.
  specialize (IH ltac:(apply map_Forall_insert_2; done) ltac:(lia)).
  cbn. destruct (outcome (invalidate_pending fuel reason) c1 w1) as [[[u'|e] c2] w2]; [|exact IH].
  destruct IH as [Hid2 Hs]. split; [congruence|]. by eapply settled_step.
Qed.

(** Methods that end on their own. *)
Definition ends_by_itself {W A} (m : method W A) : Prop :=
  forall c w, (outcome m c w).1.1 <> Err OutOfFuel.
Lemma ends_bind {W A B} (m : method W A) (k : A -> method W B) :
  ends_by_itself m -> (forall a, ends_by_itself (k a)) -> ends_by_itself (m ≫= k).
Proof.
  intros Hm Hk c w. rewrite outcome_bind. specialize (Hm c w).
  destruct (outcome m c w) as [[[a|e] c'] w']; [by apply Hk|]. cbn in *. congruence.
Qed.
Lemma ends_sound {W A} `{Environment W} (m : method W A) : sound m -> ends_by_itself m.
Proof.
  intros Hm c w. specialize (Hm {| at_start := (c, []) |} c w [] (conj (rtc_refl _ _) I)).
  unfold outcome. destruct (m c w) as [[[[a|e] c'] w'] l]; cbn; [done|].
  by destruct Hm as [_ [[x ->]|[-> _]]].
Qed.
Lemma ends_quiet {W A} `{Environment W} (m : method W A) : quiet_method m -> ends_by_itself m.
Proof. intros Hm. by apply ends_sound, quiet_sound. Qed.

Lemma ends_after_pending {A} fuel reason (k : unit -> method World A) (c : Ctl) (w : World) :
  approvals_keyed (held (w_approvals w)) ->
  (size (pending_in (run_id (run c)) (held (w_approvals w))) < fuel)%nat ->
  (forall a, ends_by_itself (k a)) ->
  (outcome (invalidate_pending fuel reason ≫= k) c w).1.1 <> Err OutOfFuel.
Proof.
  intros Hkeyed Hsize Hk. rewrite outcome_bind.
  pose proof (invalidate_pending_in_memory fuel reason c w Hkeyed Hsize) as Hp.
  destruct (outcome (invalidate_pending fuel reason) c w) as [[[a|e] c'] w']; [by apply Hk|].
  destruct Hp as [x ->]. done.
Qed.

Lemma retry_ends fuel (c : Ctl) (w : World) :
  approvals_keyed (held (w_approvals w)) ->
  (size (pending_in (run_id (run c)) (held (w_approvals w))) < fuel)%nat ->
  (outcome (retry_after_failure fuel) c w).1.1 <> Err OutOfFuel.
Proof.
  intros Hkeyed Hsize. unfold retry_after_failure. rewrite outcome_bind, outcome_gets.
  destruct (negb _); [done|]. apply ends_after_pending; [done..|]. intros [].
  do 6 (apply ends_bind; [apply ends_quiet; quiet|intros ?]). apply ends_sound, sound_drive.
Qed.
Lemma continue_ends fuel answer (c : Ctl) (w : World) :
  approvals_keyed (held (w_approvals w)) ->
  (size (pending_in (run_id (run c)) (held (w_approvals w))) < fuel)%nat ->
  (outcome (continue_conversation fuel answer) c w).1.1 <> Err OutOfFuel.
Proof.
  intros Hkeyed Hsize. unfold continue_conversation. rewrite outcome_bind.
  destruct (accepted_text answer) as [trimmed|]; [|done]. cbn [unwrap_or_throw outcome fst mret m_ret].
  rewrite outcome_bind, outcome_gets. destruct (negb _); [done|].
  apply ends_after_pending; [done..|]. intros [].
  apply ends_bind; [apply ends_quiet; quiet|intros ?]. apply ends_bind; [done|intros ?].
  do 2 (apply ends_bind; [apply ends_quiet; quiet|intros ?]).
  apply ends_bind; [apply ends_quiet, quiet_invalidate_targets|intros ?].
  do 4 (apply ends_bind; [apply ends_quiet; quiet|intros ?]). apply ends_sound, sound_drive.
Qed.
End PendingLoop.

(** ** Properties *)

(** C1. Nothing runs without authorization. In any session of operations on a
    controller, against any environment: a command that reaches the
    dispatcher was bound to an approval that was read while pending, for that
    command id, the hash of that very text, the run's targets and session,
    under a policy snapshot still live, and whose granting was saved first; a
    batch of reads was either auto-authorized by the gate call by call, or is
    the one call of such an approval; a change set is executed only under an
    approval of its id and version, after its service accepted it, and rolled
    back only if it had committed and its verification did not succeed. *)
Theorem controller_executes_only_authorized `{Environment W} `{Externals} `{Serde}
    (ops : list operation) (c : Ctl) (w : W) X (q : Req X) x newer older :
  (run_session ops c w).2 = newer ++ Act q x :: older ->
  let cfg := config c in
  match q with
  | ExecuteCommand _ command =>
      exists a session, granted older a /\ session_id cfg = Some session /\
        ap_state a = Pending /\ is_command a = true /\ ap_tool_call_id a = command_id command /\
        ap_arguments_hash a = command_hash command /\ ap_target_ids a = target_ids cfg /\
        ap_precondition_ref a = Some (command_session_ref session)
  | ExecuteReads _ calls =>
      (forall call, call ∈ calls -> Act (Authorize call) Auto ∈ older) \/
      exists call a, calls = [call] /\ granted older a /\
        ap_state a = Pending /\ ap_tool_call_id a = tool_call_id call /\
        ap_arguments_hash a = arguments_hash call /\ ap_target_ids a = target_ids cfg
  | CsExecute id version =>
      (exists a, granted older a /\ ap_state a = Pending /\ ap_change_set_id a = Some id /\
         ap_change_set_version a = Some version /\ ap_target_ids a = target_ids cfg) /\
      exists cs, Act (CsApprove id version) (Ok cs) ∈ older
  | CsRollback id version =>
      (exists cs, Act (CsExecute id version) (Ok cs) ∈ older /\
                  cs_execution_state cs = Committed) /\
      exists r, Act (CsVerify id version) r ∈ older /\ r <> Ok true
  | _ => True
  end.
Proof.
  intros Hl cfg. subst cfg. pose proof (session_justified ops c w) as Hj.
  destruct (run_session ops c w) as [[c' w'] l]. cbn in Hl. subst l.
  apply justified_at in Hj. destruct q; try done.
  - destruct Hj as [Ha|(call & -> & a & Hg & Hv)]; [by left|]. right. exists call, a.
    apply validate_call_ok in Hv. naive_solver.
  - destruct Hj as (a & session & Hs & Hg & Hv). exists a, session.
    apply validate_command_ok in Hv. naive_solver.
  - destruct Hj as [(a & Hg & Hv) Ha]. split; [|done]. exists a.
    apply validate_change_set_ok in Hv. naive_solver.
Qed.

(** C3. The persisted run and its events are in order, in any session and
    whatever the stores answer: from one save to the next a run keeps its
    identity, its times and cursor do not go back, and its state is the same,
    the next in the table, or [Reasoning] after a terminal one; the run in
    memory is never ahead of the last save but in its cursor; and every event
    appended is of this run, each with a higher number than those before it
    (while the [u64] cursor has not saturated). *)
Theorem controller_persists_in_order `{Environment W} `{Externals} `{Serde}
    (ops : list operation) (c : Ctl) (w : W) :
  let '(c', _, l) := run_session ops c w in
  (next_event_seq (run c') < U64_MAX)%N ->
  (forall newer after before older,
     omap saved l = newer ++ after :: before :: older -> advances before after) /\
  in_step (run c') (omap saved l) /\
  StronglySorted (fun a b => ev_seq b < ev_seq a)%N (omap appended l) /\
  Forall (fun e => ev_run_id e = run_id (run c') /\ ev_seq e < next_event_seq (run c'))%N
    (omap appended l).
Proof.
  pose proof (session_steps ops c w []) as Hs.
  destruct (run_session ops c w) as [[c' w'] l]. rewrite app_nil_r in Hs. intros Hm.
  destruct (csteps_persisted _ _ Hs Hm) as (Hc & Hi & He & Hf).
  { split; [done|]. split; [done|]. split; constructor. }
  cbn in *. split; [|by split_and!].
  intros newer after before older E. rewrite E in Hc. clear -Hc.
  induction newer as [|r newer IH]; cbn in Hc; [by destruct Hc|].
  destruct newer; cbn in *; destruct Hc; auto.
Qed.


(** C4. The loop ends by itself: a drive from any state, against any
    environment, returns an outcome or an error within one round for each the
    budget still allows and one to report it, without a panic; and in any
    session the reasoner is only ever asked in a round the budget covers. *)
Theorem drive_loop_ends `{Environment W} `{Externals} `{Serde} (c : Ctl) (w : W) (started : N) :
  match (drive_loop started c w).1.1.1 with Ok _ | Err (Error _) => True | _ => False end /\
  forall ops X (q : Req X) x newer older,
    (run_session ops c w).2 = newer ++ Act q x :: older ->
    match q with
    | Decide input => (1 <= ri_round input <= max_reasoner_rounds (budget (config c)))%N
    | _ => True
    end.
Proof.
  split.
  - pose proof (driving_loop started {| from := (c, []); moves := qstep; quiet_moves := fun _ _ s => s |}
                  (fun _ _ => True) _ ltac:(done) c w [] (conj (rtc_refl _ _) I)) as Hd.
    destruct (drive_loop started c w) as [[[[o|e] c'] w'] l]; cbn; [done|].
    by destruct Hd as [_ [x ->]].
  - intros ops X q x newer older Hl. pose proof (session_justified ops c w) as Hj.
    destruct (run_session ops c w) as [[c' w'] l]. cbn in Hl. subst l.
    apply justified_at in Hj. by destruct q.
Qed.

(** C2. Outstanding verification blocks completion: while a mutating or
    unknown command still needs its read-only verification, no drive of the
    loop, against any environment and whatever the reasoner answers, completes
    the run or drops the requirement; and recording the outcome of a command
    leaves the requirement set after every mutating or unknown command, and
    lifts it only for a successful read. *)
Theorem verification_blocks_completion `{Environment W} `{Externals} `{Serde}
    (c : Ctl) (w : W) :
  (forall started, pending_command_verification c = true -> run_state (run c) <> Completed ->
   let '(_, c', _) := outcome (drive_loop started) c w in
   pending_command_verification c' = true /\ run_state (run c') <> Completed) /\
  (forall command o,
   match outcome (record_command_outcome command o) c w with
   | (Ok _, c', _) =>
       pending_command_verification c' = false <->
       cmd_mutability command = ReadIntent /\
       (co_success o = true \/ pending_command_verification c = false)
   | (Err _, _, _) => True
   end).
Proof.
  unfold outcome. set (s0 := {| from := (c, []); moves := qstep; quiet_moves := fun _ _ s => s |}).
  split.
  - intros started Hp Hs. pose proof (driving_loop started s0
                  (fun _ _ => True) _ ltac:(done) c w [] (conj (rtc_refl _ _) I)) as Hd.
    destruct (drive_loop started c w) as [[[[o|e] c'] w'] l]; destruct Hd as [Hr _];
      exact (qsteps_unverified _ _ Hr (conj Hp Hs)).
  - intros command o. pose proof (hoare_recorded command o c w) as Hr.
    destruct (record_command_outcome command o c w) as [[[[u|e] c'] w'] l]; [|done].
    cbn. rewrite Hr. by destruct (cmd_mutability command), (co_success o),
      (pending_command_verification c); cbn; naive_solver.
Qed.

(** No operation panics once the loop's clock is set, and it stays set: a
    controller that was attached to a persisted run, or that has once begun to
    drive, answers every later operation with an outcome or an error, whatever
    came before and whatever the environment answers; [attach] sets the clock,
    and so does every [run_to_interrupt] that gets to drive. *)
Theorem operations_never_panic `{Environment W} `{Externals} `{Serde}
    (ops : list operation) (o : operation) (c : Ctl) (w : W) :
  (is_Some (loop_started_at c) ->
   let '(c', w', _) := run_session ops c w in
   is_Some (loop_started_at c') /\ (run_operation o c' w').1.1.1 <> Err Panicked) /\
  (forall r goal targets session b obs replies rounds calls elapsed now c1,
     attach r goal targets session b obs replies rounds calls elapsed now = Ok c1 ->
     exists started, loop_started_at c1 = Some started /\ (started <= now)%N) /\
  (forall outcome c1 w1 l1,
     run_to_interrupt c w = (Ok outcome, c1, w1, l1) -> is_Some (loop_started_at c1)).
Proof.
  split; [|split].
  - intros Hc. pose proof (session_steps ops c w []) as Hs.
    destruct (run_session ops c w) as [[c' w'] l]. pose proof (csteps_clock _ _ Hs Hc) as Hc'.
    split; [exact Hc'|]. pose proof (operation_ends o c' w' []) as Ho.
    destruct (run_operation o c' w') as [[[r c2] w2] l2]. destruct Ho as [Hs2 Hr]. cbn.
    intros ->. cbn in Hr. pose proof (csteps_clock _ _ Hs2 Hc') as [s Hx]. cbn in Hx. congruence.
  - intros r g ts se b obs reps rs cs el now c1. unfold attach.
    destruct (accepted_text g); [|done]. intros [= <-]. cbn.
    destruct (N.leb_spec el now); eexists; (split; [done|lia]).
  - intros outcome c1 w1 l1 Hr. exact (clock_after_start c w outcome c1 w1 l1 Hr).
Qed.

(** A new turn leaves no old approval behind, and gets there: on the
    in-memory stores the loop over the run's pending approvals needs no more
    rounds than there are such approvals and one, so that a retry and a new
    message always return; when it ends well, every approval that was pending
    for the run is recorded as invalidated and no other approval has changed. *)
Theorem new_turn_settles_approvals `{Externals} `{Serde} fuel reason (c : Ctl) (w : World) :
  approvals_keyed (held (w_approvals w)) ->
  (size (pending_in (run_id (run c)) (held (w_approvals w))) < fuel)%nat ->
  (let '(r, c', w') := outcome (invalidate_pending fuel reason) c w in
   match r with
   | Ok _ => run_id (run c') = run_id (run c) /\
       forall k, settled (run_id (run c)) (held (w_approvals w) !! k) (held (w_approvals w') !! k)
   | Err e => is_error e
   end) /\
  (outcome (retry_after_failure fuel) c w).1.1 <> Err OutOfFuel /\
  (forall answer, (outcome (continue_conversation fuel answer) c w).1.1 <> Err OutOfFuel).
Proof.
  intros Hkeyed Hsize. split; [by apply invalidate_pending_in_memory|].
  split; [by apply retry_ends|]. intros answer. by apply continue_ends.
Qed.

(** ** Runs *)
#[local] Existing Instance quoting_externals.
#[local] Existing Instance quoting_laws.

Definition sample_session (decisions : list (result str AgentDecision)) (mode : World -> World) :
    result abort unit * option Ctl * World * log :=
  new (lit "check nginx") [7%N] (Some 8%N) default_budget 1 1000 (mode (fresh_world decisions)).

(** The controller of a session, and the world it is in. *)
Definition opened (s : result abort unit * option Ctl * World * log) : Ctl * World :=
  match s with
  | (_, Some c, w, _) => (c, w)
  | (_, None, w, _) =>
      (initial_ctl (with_created_at 0 0) [] [] None default_budget [] [] 0 0 None, w)
  end.

Definition restart_proposal : result str AgentDecision :=
  Ok (DCommandProposal {| prop_command := lit "systemctl restart nginx";
                          prop_reason_summary := lit "restart";
                          prop_observation_analysis := None |}).
Definition done_decision : result str AgentDecision := Ok (DFinal (lit "done")).
(** A run that proposes a restart, has it approved, and then wants to end. *)
Definition restart_run : Ctl * World :=
  opened (sample_session [restart_proposal; done_decision; done_decision] (fun w => w)).
Definition restart_ops : list operation := [RunToInterrupt; Approve 300].
Definition restart_command : PreparedCommandProposal :=
  {| command_id := 200; cmd_command := lit "systemctl restart nginx";
     cmd_reason_summary := lit "restart"; cmd_observation_analysis := None;
     cmd_risk := RiskHigh; cmd_mutability := Mutating |}.

Lemma controller_executes_only_authorized_witness :
  let l := (run_session restart_ops restart_run.1 restart_run.2).2 in
  let o := w_command (fresh_world []) restart_command in
  l !! 47%nat = Some (Act (ExecuteCommand 1 restart_command) o) /\
  exists a, granted (drop 48 l) a /\ ap_arguments_hash a = command_hash restart_command.
Proof.
  intros l o.
  assert (l !! 47%nat = Some (Act (ExecuteCommand 1 restart_command) o)) as Hat
    by (vm_compute; reflexivity).
  split; [exact Hat|].
  destruct (controller_executes_only_authorized restart_ops restart_run.1 restart_run.2
              _ (ExecuteCommand 1 restart_command) o (take 47 l) (drop 48 l)
              (eq_sym (take_drop_middle l 47 _ Hat)))
    as (a & session & Hg & _ & _ & _ & _ & Hh & _).
  exists a. split; [exact Hg|exact Hh].
Defined.

Lemma controller_persists_in_order_witness :
  let '(c', _, l) := run_session restart_ops restart_run.1 restart_run.2 in
  (next_event_seq (run c') = 17)%N /\
  StronglySorted (fun a b => ev_seq b < ev_seq a)%N (omap appended l).
Proof.
  pose proof (controller_persists_in_order restart_ops restart_run.1 restart_run.2) as Hp.
  destruct (run_session restart_ops restart_run.1 restart_run.2) as [[c' w'] l] eqn:E.
  assert (next_event_seq (run c') = 17)%N as Hn.
  { change (next_event_seq (run c')) with (next_event_seq (run (c', w', l).1.1)). rewrite <- E.
    vm_compute. reflexivity. }
  split; [exact Hn|]. apply Hp. rewrite Hn. reflexivity.
Defined.

Lemma drive_loop_ends_witness :
  let l := (run_session restart_ops restart_run.1 restart_run.2).2 in
  exists input x, l !! 83%nat = Some (Act (Decide input) x) /\ (1 <= ri_round input <= 50)%N.
Proof.
  intros l.
  assert (match l !! 83%nat with
          | Some (Act q _) => match q with Decide _ => True | _ => False end
          | None => False end) as Hat by (vm_compute; exact I).
  revert Hat. generalize (eq_refl (l !! 83%nat)). generalize (l !! 83%nat) at 2 3. intros o.
  destruct o as [[X q x]|]; [|intros _ []]. intros E Hat.
  destruct q as [| | | | | | | | | | | | | | |input| | | | | | | | | | | | | | |];
    try (exfalso; exact Hat).
  exists input, x. split; [exact E|].
  exact (proj2 (drive_loop_ends restart_run.1 restart_run.2 5) restart_ops _ (Decide input) x
           (take 83 l) (drop 84 l) (eq_sym (take_drop_middle l 83 _ E))).
Defined.

Lemma verification_blocks_completion_witness :
  let c := (run_session restart_ops restart_run.1 restart_run.2).1.1 in
  let w := (run_session restart_ops restart_run.1 restart_run.2).1.2 in
  pending_command_verification c = true /\
  (let '(_, c', _) := outcome (drive_loop 5) c w in
   pending_command_verification c' = true /\ run_state (run c') <> Completed).
Proof.
  intros c w.
  assert (pending_command_verification c = true) as Hp by (vm_compute; reflexivity).
  split; [exact Hp|].
  apply (proj1 (verification_blocks_completion c w) 5%N Hp). vm_compute. discriminate.
Defined.

Definition reattached : result AgentControllerError Ctl :=
  attach (with_created_at 1 1000) (lit "check nginx") [7%N] (Some 8%N) default_budget [] [] 3 2 60 100.
Lemma operations_never_panic_witness :
  match reattached with
  | Ok c => loop_started_at c = Some 40%N /\
      let '(c', w', _) := run_session [RunToInterrupt] c (fresh_world [restart_proposal]) in
      (run_operation (Approve 300) c' w').1.1.1 <> Err Panicked
  | Err _ => False
  end.
Proof.
  assert (match reattached with Ok c => loop_started_at c = Some 40%N | Err _ => False end) as Hc
    by (vm_compute; reflexivity).
  destruct reattached as [c|e]; [|exact Hc]. split; [exact Hc|].
  pose proof (proj1 (operations_never_panic [RunToInterrupt] (Approve 300) c
                       (fresh_world [restart_proposal])) (mk_is_Some _ _ Hc)) as Hp.
  destruct (run_session [RunToInterrupt] c (fresh_world [restart_proposal])) as [[c' w'] l].
  exact (proj2 Hp).
Defined.

(** The same run, waiting for its approval. *)
Definition waiting : Ctl * World := (run_session [RunToInterrupt] restart_run.1 restart_run.2).1.
Lemma new_turn_settles_approvals_witness :
  (size (pending_in 1 (held (w_approvals waiting.2))) = 1)%nat /\
  (outcome (retry_after_failure 2) waiting.1 waiting.2).1.1 <> Err OutOfFuel.
Proof.
  assert (size (pending_in 1 (held (w_approvals waiting.2))) = 1)%nat as Hn by (vm_compute; reflexivity).
  split; [exact Hn|].
  assert (run_id (run waiting.1) = 1%N) as Hid by (vm_compute; reflexivity).
  assert (approvals_keyed (held (w_approvals waiting.2))) as Hkeyed
    by (apply (bool_decide_unpack _ (dec := approvals_keyed_dec _)); vm_compute; exact I).
  assert (size (pending_in (run_id (run waiting.1)) (held (w_approvals waiting.2))) < 2)%nat as Hsize
    by (rewrite Hid, Hn; constructor).
  pose proof (new_turn_settles_approvals 2 [] waiting.1 waiting.2 Hkeyed Hsize) as (_ & Hr & _).
  exact Hr.
Defined.

(** *** Where the code misses its intent *)

Definition with_gate (gate : PreparedToolCall -> Authorization) (w : World) : World :=
  {| w_runs := w_runs w; w_events := w_events w; w_approvals := w_approvals w;
     w_calls := w_calls w; w_commands := w_commands w; w_checkpoints := w_checkpoints w;
     w_decisions := w_decisions w; w_gate := gate; w_command_gate := w_command_gate w;
     w_policy := w_policy w; w_read := w_read w; w_command := w_command w;
     w_next_id := w_next_id w; w_time := w_time w |}.
Definition read_request (name : string) (args : Json.json_map) : ToolCallRequest :=
  {| req_tool_name := lit name; req_arguments := Json.jobj args; req_reason_summary := lit "why" |}.
Definition batch_run (gate : PreparedToolCall -> Authorization) (requests : list ToolCallRequest) :
    Ctl * World :=
  opened (sample_session [Ok (DToolCalls requests); done_decision] (with_gate gate)).

(** A batch whose every call the policy blocks does not become a failed
    observation the reasoner can react to: the round leaves the run [Acting],
    and the next one ends in a state-machine error. *)
Example denied_batch_ends_the_drive :
  let c := batch_run (fun _ => Blocked AGENT_POLICY_DENIED) [read_request "system.disk_usage" []] in
  (run_operation RunToInterrupt c.1 c.2).1.1.1
  = Err (Error (ErrState {| err_from := Acting; err_to := Reasoning |})).
Proof. vm_compute. reflexivity. Qed.

Definition executed_reads (l : log) : list (list PreparedToolCall) :=
  omap (fun a => match a with Act q _ =>
                   match q with ExecuteReads _ calls => Some calls | _ => None end end) (rev l).
Definition mixed_gate (call : PreparedToolCall) : Authorization :=
  if bool_decide (ptc_invocation call = InvSystemDisk) then Auto
  else AuthRequireApproval (lit "R1") 1 (lit "hash").

(** A read that was authorized in the same batch before one that needs
    approval is announced as authorized and never executed, not even once the
    approval is granted. *)
Example authorized_read_is_dropped :
  let c := batch_run mixed_gate
    [read_request "system.disk_usage" [];
     read_request "service.status" [(lit "service", Json.jstr "nginx")]] in
  let l := (run_session [RunToInterrupt; Approve 300] c.1 c.2).2 in
  existsb (fun e => bool_decide (ev_event e = ToolAutoAuthorized 200)) (omap appended l) = true /\
  map (map ptc_invocation) (executed_reads l) = [[InvServiceStatus (lit "nginx")]].
Proof. vm_compute. split; reflexivity. Qed.

(** A first drive that fails between its transition and its clock leaves a
    running controller without one.  [Pause] and [Resume] go on without it, so
    that the answer to the next question panics.  Here the event log refuses
    the third event, because another writer has used its number. *)
Definition question_decision : result str AgentDecision := Ok (DAskUser (lit "Which host?")).
Definition stray_event : AgentEventEnvelope :=
  {| ev_run_id := 1; ev_seq := 3; ev_timestamp_epoch_ms := 1000; ev_event := RunPaused |}.
Example unset_clock_panics :
  let '(c, w) := opened (sample_session [question_decision] (fun w => w)) in
  let w := set_events (event_append stray_event (w_events w)).2 w in
  let '(c, w, _) := run_session [RunToInterrupt; Pause; Resume] c w in
  run_state (run c) = AwaitingUser /\ loop_started_at c = None /\
  (run_operation (ResumeWithUserInput (lit "web-1")) c w).1.1.1 = Err Panicked.
Proof. vm_compute. repeat split. Qed.
