(* ===== verification/FleetRun.v ===== *)
(** * Fleet targets and fleet plans (agent/fleet_target.rs, agent/fleet_run.rs)

    A fleet run orchestrates a graph of stages over two to ten exact
    profile/session pairs.  The file holds the shape check of the targets, the
    state table of a fleet, the validation of a draft's stages with Kahn's
    algorithm as the code writes it, and [validate_metadata].

    Kahn's loop has three ways to stop besides its result: it can subtract
    from a count that is zero, it can miss a count, and here it can run out of
    fuel.  [plan_stop] keeps them apart, and the theorems exclude the ones the
    code must not have.  The order in which a [HashMap] lists its entries is
    the argument [order] of the check. *)
From S2P Require Import Prelude Str Errors RunState Context Externals.
From Stdlib Require Import ZifyBool.

Definition MIN_FLEET_TARGETS : N := 2.
Definition MAX_FLEET_TARGETS : N := 10.
Definition MAX_FLEET_ROLE_BYTES : N := 48.
Definition MAX_FLEET_STAGES : N := 64.
Definition MAX_STAGE_SUMMARY_BYTES : N := 512.

(** ** Targets (agent/fleet_target.rs) *)
Record FleetTargetRequest := {
  ftr_profile_id : Uuid; ftr_session_id : Uuid; ftr_role : option str }.

Record FleetTargetBinding := {
  ftb_profile_id : Uuid; ftb_session_id : Uuid; ftb_role : option str; ftb_ordinal : N }.
#[export] Instance fleet_target_eq_dec : EqDecision FleetTargetBinding.
Proof. solve_decision. Defined.

(** The bytes of a role: a scalar value above 127 has no such byte. *)
Definition role_byte (c : chr) : bool :=
  is_ascii_alphanumeric c || (c =? 46)%N || (c =? 95)%N || (c =? 45)%N.

Definition normalized_role (role : option str) : result AppError (option str) :=
  match role with
  | None => Ok None
  | Some role =>
      let role := trim role in
      if is_empty role || (MAX_FLEET_ROLE_BYTES <? blen role)%N || negb (forallb role_byte role)
      then Err AgentFleetTargetInvalid
      else Ok (Some (to_ascii_lowercase role))
  end.

Fixpoint target_shape_loop (profiles sessions : gset Uuid) (l : list FleetTargetRequest) :
    result AppError (list (option str)) :=
  match l with
  | [] => Ok []
  | t :: rest =>
      if bool_decide (ftr_profile_id t ∈ profiles) || bool_decide (ftr_session_id t ∈ sessions)
      then Err AgentFleetTargetInvalid
      else
        role ← normalized_role (ftr_role t);
        roles ← target_shape_loop ({[ ftr_profile_id t ]} ∪ profiles)
                                  ({[ ftr_session_id t ]} ∪ sessions) rest;
        Ok (role :: roles)
  end.

Definition validate_fleet_target_shape (targets : list FleetTargetRequest) :
    result AppError (list (option str)) :=
  if (list_lenN targets <? MIN_FLEET_TARGETS)%N then Err AgentFleetTargetInvalid
  else if (MAX_FLEET_TARGETS <? list_lenN targets)%N then Err AgentFleetTargetLimit
  else target_shape_loop ∅ ∅ targets.

(** [validate] is [ServerSessionManager::validate_profile_session]. *)
Definition validate_fleet_target_sessions (validate : Uuid -> Uuid -> result AppError unit)
    (targets : list FleetTargetBinding) : result AppError unit :=
  _ ← try_map (fun t => validate (ftb_session_id t) (ftb_profile_id t)) targets; Ok tt.

(** ** The states of a fleet *)
Inductive FleetRunStateV2 :=
  | FlDraft | FlValidatingTargets | FlInvestigating | FlPlanning | FlAwaitingApproval
  | FlApproved | FlExecuting | FlVerifying | FlPausedForReview | FlSucceeded | FlFailed
  | FlRollingBack | FlRolledBack | FlRollbackFailed | FlInterrupted | FlCancelled.
#[export] Instance fleet_state_eq_dec : EqDecision FleetRunStateV2.
Proof. solve_decision. Defined.

Definition fleet_is_terminal (s : FleetRunStateV2) : bool :=
  match s with
  | FlSucceeded | FlFailed | FlRolledBack | FlRollbackFailed | FlInterrupted | FlCancelled => true
  | _ => false
  end.

Definition fleet_is_in_flight (s : FleetRunStateV2) : bool :=
  match s with
  | FlValidatingTargets | FlInvestigating | FlPlanning | FlExecuting | FlVerifying
  | FlRollingBack => true
  | _ => false
  end.

Definition fleet_can_transition_to (self next : FleetRunStateV2) : bool :=
  if fleet_is_terminal self then false else
  match next with
  | FlCancelled | FlFailed | FlInterrupted => true
  | _ =>
    match self with
    | FlDraft => match next with FlValidatingTargets => true | _ => false end
    | FlValidatingTargets => match next with FlInvestigating => true | _ => false end
    | FlInvestigating => match next with FlPlanning | FlPausedForReview => true | _ => false end
    | FlPlanning => match next with FlAwaitingApproval | FlPausedForReview => true | _ => false end
    | FlAwaitingApproval => match next with FlApproved | FlPlanning => true | _ => false end
    | FlApproved => match next with FlExecuting | FlPlanning => true | _ => false end
    | FlExecuting =>
        match next with FlVerifying | FlPausedForReview | FlRollingBack => true | _ => false end
    | FlVerifying =>
        match next with FlSucceeded | FlPausedForReview | FlRollingBack => true | _ => false end
    | FlPausedForReview =>
        match next with
        | FlInvestigating | FlPlanning | FlExecuting | FlRollingBack => true | _ => false end
    | FlRollingBack => match next with FlRolledBack | FlRollbackFailed => true | _ => false end
    | FlSucceeded | FlFailed | FlRolledBack | FlRollbackFailed | FlInterrupted
    | FlCancelled => false
    end
  end.

Inductive FleetStageStateV2 :=
  | StPending | StReady | StRunning | StAwaitingApproval | StVerifying | StSucceeded | StFailed
  | StBlocked | StCancelled | StRollbackPending | StRolledBack | StRollbackFailed.
#[export] Instance stage_state_eq_dec : EqDecision FleetStageStateV2.
Proof. solve_decision. Defined.

Inductive FleetExecutionStrategyV2 := FxSequential | FxCanary | FxRollingBatch | FxParallel.
#[export] Instance fleet_strategy_eq_dec : EqDecision FleetExecutionStrategyV2.
Proof. solve_decision. Defined.

Inductive FleetFailurePolicyV2 := FpStop | FpPauseForReview | FpContinue | FpRollback.
#[export] Instance fleet_failure_policy_eq_dec : EqDecision FleetFailurePolicyV2.
Proof. solve_decision. Defined.

Inductive FleetRecoveryStateV2 := FrLive | FrMetadataOnly.
#[export] Instance fleet_recovery_eq_dec : EqDecision FleetRecoveryStateV2.
Proof. solve_decision. Defined.

Record FleetStageDraft := {
  fsd_id : Uuid;
  fsd_summary : str;
  fsd_target_ids : list Uuid;
  fsd_depends_on : list Uuid;
  fsd_strategy : FleetExecutionStrategyV2;
  fsd_concurrency_limit : N;
}.

Record FleetStage := {
  fs_id : Uuid;
  fs_summary : str;
  fs_target_ids : list Uuid;
  fs_depends_on : list Uuid;
  fs_strategy : FleetExecutionStrategyV2;
  fs_concurrency_limit : N;
  fs_state : FleetStageStateV2;
}.
#[export] Instance fleet_stage_eq_dec : EqDecision FleetStage.
Proof. solve_decision. Defined.

Record FleetChildRun := {
  fc_stage_id : Uuid;
  fc_target_id : Uuid;
  fc_agent_run_id : option Uuid;
  fc_attempt : N;
  fc_state : FleetStageStateV2;
  fc_error_code : option str;
}.
#[export] Instance fleet_child_eq_dec : EqDecision FleetChildRun.
Proof. solve_decision. Defined.

Record FleetRunV2 := {
  fr_id : Uuid;
  fr_version : N;
  fr_state : FleetRunStateV2;
  fr_production : bool;
  fr_failure_policy : FleetFailurePolicyV2;
  fr_targets : list FleetTargetBinding;
  fr_stages : list FleetStage;
  fr_children : list FleetChildRun;
  fr_graph_digest : str;
  fr_recovery_state : FleetRecoveryStateV2;
  fr_created_at : N;
  fr_updated_at : N;
}.
#[export] Instance fleet_run_eq_dec : EqDecision FleetRunV2.
Proof. solve_decision. Defined.

Record FleetRunDraft := {
  frd_production : bool;
  frd_failure_policy : FleetFailurePolicyV2;
  frd_targets : list FleetTargetBinding;
  frd_stages : list FleetStageDraft;
}.

Inductive FleetPlanError :=
  | FpeInvalidTargets | FpeInvalidStages | FpeUnknownTarget | FpeInvalidDependency
  | FpeDependencyCycle | FpeProductionParallel | FpeInvalidTransition.
#[export] Instance fleet_plan_error_eq_dec : EqDecision FleetPlanError.
Proof. solve_decision. Defined.

(** How a plan check stops: with the code's error, at a subtraction below
    zero, or here out of fuel. *)
Inductive plan_stop := PlanError (e : FleetPlanError) | PlanUnderflow | PlanOutOfFuel.
#[export] Instance plan_stop_eq_dec : EqDecision plan_stop.
Proof. solve_decision. Defined.

(** ** The state of a run *)
Definition set_fleet_state (s : FleetRunStateV2) (now : N) (r : FleetRunV2) : FleetRunV2 :=
  {| fr_id := fr_id r; fr_version := fr_version r; fr_state := s;
     fr_production := fr_production r; fr_failure_policy := fr_failure_policy r;
     fr_targets := fr_targets r; fr_stages := fr_stages r; fr_children := fr_children r;
     fr_graph_digest := fr_graph_digest r; fr_recovery_state := fr_recovery_state r;
     fr_created_at := fr_created_at r; fr_updated_at := now |}.

Definition fleet_transition_to (next : FleetRunStateV2) (now : N) (r : FleetRunV2) :
    result FleetPlanError FleetRunV2 :=
  if negb (bool_decide (fr_recovery_state r = FrLive))
     || negb (fleet_can_transition_to (fr_state r) next)
  then Err FpeInvalidTransition
  else Ok (set_fleet_state next now r).

Definition from_metadata (id : Uuid) (version : N) (state : FleetRunStateV2) (production : bool)
    (failure_policy : FleetFailurePolicyV2) (targets : list FleetTargetBinding)
    (stages : list FleetStage) (children : list FleetChildRun) (graph_digest : str)
    (recovery_state : FleetRecoveryStateV2) (created updated : N) : FleetRunV2 :=
  {| fr_id := id; fr_version := version; fr_state := state; fr_production := production;
     fr_failure_policy := failure_policy; fr_targets := targets; fr_stages := stages;
     fr_children := children; fr_graph_digest := graph_digest;
     fr_recovery_state := recovery_state; fr_created_at := created; fr_updated_at := updated |}.

(** ** Validation *)

(** [iter().collect::<HashSet<_>>()]. *)
Definition hash_set (l : list Uuid) : gset Uuid := list_to_set l.
Definition set_len (s : gset Uuid) : N := N.of_nat (size s).

Fixpoint targets_loop (ordinal : N) (profiles sessions : gset Uuid)
    (l : list FleetTargetBinding) : bool :=
  match l with
  | [] => true
  | t :: rest =>
      if negb (ftb_ordinal t =? ordinal)%N || bool_decide (ftb_profile_id t ∈ profiles)
         || bool_decide (ftb_session_id t ∈ sessions)
      then false
      else targets_loop (ordinal + 1) ({[ ftb_profile_id t ]} ∪ profiles)
                        ({[ ftb_session_id t ]} ∪ sessions) rest
  end.

Definition validate_targets (targets : list FleetTargetBinding) : result plan_stop unit :=
  if negb ((2 <=? list_lenN targets)%N && (list_lenN targets <=? MAX_FLEET_TARGETS)%N)
  then Err (PlanError FpeInvalidTargets)
  else if targets_loop 0 ∅ ∅ targets then Ok tt else Err (PlanError FpeInvalidTargets).

(** ** Kahn's algorithm *)
Definition incoming_counts (stages : list FleetStage) : gmap Uuid N :=
  foldl (fun m s => <[fs_id s := list_lenN (fs_depends_on s)]> m) ∅ stages.

(** [entry(dependency).or_default().push(stage.id)]. *)
Definition push_dependant (stage : Uuid) (m : gmap Uuid (list Uuid)) (dependency : Uuid) :
    gmap Uuid (list Uuid) :=
  <[dependency := default [] (m !! dependency) ++ [stage]]> m.

Definition dependants_of (stages : list FleetStage) : gmap Uuid (list Uuid) :=
  foldl (fun m s => foldl (push_dependant (fs_id s)) m (fs_depends_on s)) ∅ stages.

(** One visit: the dependants of the popped stage lose one incoming edge. *)
Fixpoint release (incoming : gmap Uuid N) (ready : list Uuid) (l : list Uuid) :
    result plan_stop (gmap Uuid N * list Uuid) :=
  match l with
  | [] => Ok (incoming, ready)
  | d :: rest =>
      match incoming !! d with
      | None => Err (PlanError FpeInvalidDependency)
      | Some count =>
          if (count =? 0)%N then Err PlanUnderflow
          else release (<[d := count - 1]> incoming)
                       (if (count - 1 =? 0)%N then ready ++ [d] else ready) rest
      end
  end%N.

Fixpoint kahn (fuel : nat) (dependants : gmap Uuid (list Uuid)) (incoming : gmap Uuid N)
    (ready : list Uuid) (visited : N) : result plan_stop N :=
  match ready with
  | [] => Ok visited
  | id :: rest =>
      match fuel with
      | O => Err PlanOutOfFuel
      | S fuel =>
          match release incoming rest (default [] (dependants !! id)) with
          | Err e => Err e
          | Ok (incoming', ready') => kahn fuel dependants incoming' ready' (visited + 1)
          end
      end
  end.

(** [order] lists the entries of a [HashMap]. *)
Definition validate_acyclic (order : gmap Uuid N -> list (Uuid * N)) (stages : list FleetStage) :
    result plan_stop unit :=
  let incoming := incoming_counts stages in
  let ready := omap (fun e => if (e.2 =? 0)%N then Some e.1 else None) (order incoming) in
  visited ← kahn (length stages) (dependants_of stages) incoming ready 0;
  if (visited =? list_lenN stages)%N then Ok tt else Err (PlanError FpeDependencyCycle).

(** ** Stages and drafts *)
Definition validate_stage (production : bool) (known_targets known_stages : gset Uuid)
    (draft : FleetStageDraft) : result plan_stop FleetStage :=
  let summary := (redact_secrets (trim (fsd_summary draft))).1 in
  if is_empty summary || (MAX_STAGE_SUMMARY_BYTES <? blen summary)%N
  then Err (PlanError FpeInvalidStages) else
  let unique_targets := hash_set (fsd_target_ids draft) in
  if bool_decide (fsd_target_ids draft = [])
     || negb (set_len unique_targets =? list_lenN (fsd_target_ids draft))%N
  then Err (PlanError FpeInvalidStages) else
  if negb (bool_decide (unique_targets ⊆ known_targets)) then Err (PlanError FpeUnknownTarget) else
  let unique_dependencies := hash_set (fsd_depends_on draft) in
  if negb (set_len unique_dependencies =? list_lenN (fsd_depends_on draft))%N
     || bool_decide (fsd_id draft ∈ unique_dependencies)
     || negb (bool_decide (unique_dependencies ⊆ known_stages))
  then Err (PlanError FpeInvalidDependency) else
  if (fsd_concurrency_limit draft =? 0)%N
     || (list_lenN (fsd_target_ids draft) <? fsd_concurrency_limit draft)%N
  then Err (PlanError FpeInvalidStages) else
  if bool_decide (fsd_strategy draft = FxSequential) && negb (fsd_concurrency_limit draft =? 1)%N
  then Err (PlanError FpeInvalidStages) else
  if production && bool_decide (fsd_strategy draft = FxParallel)
  then Err (PlanError FpeProductionParallel) else
  Ok {| fs_id := fsd_id draft; fs_summary := summary; fs_target_ids := fsd_target_ids draft;
        fs_depends_on := fsd_depends_on draft; fs_strategy := fsd_strategy draft;
        fs_concurrency_limit := fsd_concurrency_limit draft; fs_state := StPending |}.

Definition validate_stages (order : gmap Uuid N -> list (Uuid * N)) (production : bool)
    (targets : list FleetTargetBinding) (drafts : list FleetStageDraft) :
    result plan_stop (list FleetStage) :=
  if bool_decide (drafts = []) || (MAX_FLEET_STAGES <? list_lenN drafts)%N
  then Err (PlanError FpeInvalidStages) else
  let known_targets := hash_set (map ftb_profile_id targets) in
  let known_stages := hash_set (map fsd_id drafts) in
  if negb (set_len known_stages =? list_lenN drafts)%N then Err (PlanError FpeInvalidStages) else
  stages ← try_map (validate_stage production known_targets known_stages) drafts;
  _ ← validate_acyclic order stages;
  Ok stages.

(** The derived serialization of [GraphDigestInput], [None] when it fails. *)
Class FleetSerde := {
  encode_graph : bool -> FleetFailurePolicyV2 -> list FleetTargetBinding -> list FleetStage ->
                 option str;
}.

Definition graph_digest `{Externals, FleetSerde} (production : bool)
    (failure_policy : FleetFailurePolicyV2) (targets : list FleetTargetBinding)
    (stages : list FleetStage) : result plan_stop str :=
  encoded ← ok_or (encode_graph production failure_policy targets stages)
                  (PlanError FpeInvalidStages);
  Ok (digest_hex encoded).

Definition fleet_draft `{Externals, FleetSerde} (order : gmap Uuid N -> list (Uuid * N))
    (new_v4 : Uuid) (request : FleetRunDraft) (now : N) : result plan_stop FleetRunV2 :=
  _ ← validate_targets (frd_targets request);
  stages ← validate_stages order (frd_production request) (frd_targets request)
                           (frd_stages request);
  digest ← graph_digest (frd_production request) (frd_failure_policy request)
                        (frd_targets request) stages;
  Ok {| fr_id := new_v4; fr_version := 1; fr_state := FlDraft;
        fr_production := frd_production request; fr_failure_policy := frd_failure_policy request;
        fr_targets := frd_targets request; fr_stages := stages; fr_children := [];
        fr_graph_digest := digest; fr_recovery_state := FrLive;
        fr_created_at := now; fr_updated_at := now |}.

(** ** [validate_metadata] *)
Definition stage_metadata_ok (target_ids stage_ids : gset Uuid) (stage : FleetStage) : bool :=
  let selected := hash_set (fs_target_ids stage) in
  let dependencies := hash_set (fs_depends_on stage) in
  negb (bool_decide (selected = ∅)
     || negb (set_len selected =? list_lenN (fs_target_ids stage))%N
     || negb (bool_decide (selected ⊆ target_ids))
     || negb (set_len dependencies =? list_lenN (fs_depends_on stage))%N
     || bool_decide (fs_id stage ∈ dependencies)
     || negb (bool_decide (dependencies ⊆ stage_ids))
     || (fs_concurrency_limit stage =? 0)%N
     || (list_lenN (fs_target_ids stage) <? fs_concurrency_limit stage)%N
     || (bool_decide (fs_strategy stage = FxSequential)
         && negb (fs_concurrency_limit stage =? 1)%N)).

Fixpoint stages_metadata (production : bool) (target_ids stage_ids : gset Uuid)
    (l : list FleetStage) : result plan_stop unit :=
  match l with
  | [] => Ok tt
  | stage :: rest =>
      if negb (stage_metadata_ok target_ids stage_ids stage)
      then Err (PlanError FpeInvalidStages)
      else if production && bool_decide (fs_strategy stage = FxParallel)
      then Err (PlanError FpeProductionParallel)
      else stages_metadata production target_ids stage_ids rest
  end.

(** The error code of a child: at most 96 bytes of A-Z and underscore. *)
Definition error_code_byte (c : chr) : bool := is_ascii_uppercase c || (c =? 95)%N.
Definition bad_error_code (code : option str) : bool :=
  match code with
  | None => false
  | Some code => is_empty code || (96 <? blen code)%N || negb (forallb error_code_byte code)
  end.

Fixpoint children_metadata (target_ids stage_ids : gset Uuid)
    (keys : gset (Uuid * Uuid * N)) (l : list FleetChildRun) : bool :=
  match l with
  | [] => true
  | c :: rest =>
      let key := (fc_stage_id c, fc_target_id c, fc_attempt c) in
      if negb (bool_decide (fc_stage_id c ∈ stage_ids))
         || negb (bool_decide (fc_target_id c ∈ target_ids)) || (fc_attempt c =? 0)%N
         || bool_decide (key ∈ keys) || bad_error_code (fc_error_code c)
      then false
      else children_metadata target_ids stage_ids ({[ key ]} ∪ keys) rest
  end.

Definition validate_metadata (order : gmap Uuid N -> list (Uuid * N)) (r : FleetRunV2) :
    result plan_stop unit :=
  _ ← validate_targets (fr_targets r);
  if bool_decide (fr_stages r = []) || (MAX_FLEET_STAGES <? list_lenN (fr_stages r))%N
  then Err (PlanError FpeInvalidStages) else
  let target_ids := hash_set (map ftb_profile_id (fr_targets r)) in
  let stage_ids := hash_set (map fs_id (fr_stages r)) in
  if negb (set_len stage_ids =? list_lenN (fr_stages r))%N
     || negb (blen (fr_graph_digest r) =? 64)%N
     || negb (forallb is_ascii_hexdigit (fr_graph_digest r))
  then Err (PlanError FpeInvalidStages) else
  _ ← stages_metadata (fr_production r) target_ids stage_ids (fr_stages r);
  _ ← validate_acyclic order (fr_stages r);
  if children_metadata target_ids stage_ids ∅ (fr_children r) then Ok tt
  else Err (PlanError FpeInvalidStages).

(** ** What a plan must be *)

(** [x] depends on [y]. *)
Definition depends (stages : list FleetStage) (x y : Uuid) : Prop :=
  exists s, s ∈ stages /\ fs_id s = x /\ y ∈ fs_depends_on s.

(** No stage depends on itself, directly or through others. *)
Definition acyclic (stages : list FleetStage) : Prop := forall x, ~ tc (depends stages) x x.

Definition closed_deps (stages : list FleetStage) : Prop :=
  forall s, s ∈ stages -> forall d, d ∈ fs_depends_on s -> d ∈ map fs_id stages.

Record stage_wf (production : bool) (target_ids stage_ids : list Uuid) (s : FleetStage) : Prop := {
  sw_targets_ne : fs_target_ids s <> [];
  sw_targets_nodup : NoDup (fs_target_ids s);
  sw_targets_known : fs_target_ids s ⊆ target_ids;
  sw_deps_nodup : NoDup (fs_depends_on s);
  sw_deps_known : fs_depends_on s ⊆ stage_ids;
  sw_not_self : fs_id s ∉ fs_depends_on s;
  sw_limit_pos : (0 < fs_concurrency_limit s)%N;
  sw_limit : (fs_concurrency_limit s <= list_lenN (fs_target_ids s))%N;
  sw_sequential : fs_strategy s = FxSequential -> fs_concurrency_limit s = 1%N;
  sw_parallel : production = true -> fs_strategy s <> FxParallel;
}.

Record targets_wf (targets : list FleetTargetBinding) : Prop := {
  tw_min : (2 <= length targets)%nat;
  tw_max : (length targets <= 10)%nat;
  tw_ordinals : forall i t, targets !! i = Some t -> ftb_ordinal t = N.of_nat i;
  tw_profiles : NoDup (map ftb_profile_id targets);
  tw_sessions : NoDup (map ftb_session_id targets);
}.

Record plan_wf (production : bool) (targets : list FleetTargetBinding)
    (stages : list FleetStage) : Prop := {
  pw_targets : targets_wf targets;
  pw_stages_ne : stages <> [];
  pw_stages_max : (length stages <= 64)%nat;
  pw_ids : NoDup (map fs_id stages);
  pw_each : forall s, s ∈ stages ->
    stage_wf production (map ftb_profile_id targets) (map fs_id stages) s;
  pw_acyclic : acyclic stages;
}.

(** What is said of the [HashMap] order: it lists every entry once. *)
Definition lists_entries (order : gmap Uuid N -> list (Uuid * N)) : Prop :=
  forall m, order m ≡ₚ map_to_list m.

Definition child_wf (target_ids stage_ids : list Uuid) (c : FleetChildRun) : Prop :=
  fc_stage_id c ∈ stage_ids /\ fc_target_id c ∈ target_ids /\ (0 < fc_attempt c)%N /\
  bad_error_code (fc_error_code c) = false.

Definition child_key (c : FleetChildRun) : Uuid * Uuid * N :=
  (fc_stage_id c, fc_target_id c, fc_attempt c).

(** ** Lemmas *)

Lemma elem_of_hash_set x l : x ∈ hash_set l <-> x ∈ l.
Proof. apply elem_of_list_to_set. Qed.

Lemma hash_set_subseteq l k : hash_set l ⊆ hash_set k <-> l ⊆ k.
Proof.
  split; intros H x; specialize (H x); rewrite ?elem_of_hash_set in *; done.
Qed.

Lemma set_len_nodup l : set_len (hash_set l) = list_lenN l <-> NoDup l.
Proof.
  unfold set_len, list_lenN, hash_set. split.
  - intros H%Nat2N.inj. induction l as [|x l IH]; [constructor|].
    cbn in H. apply NoDup_cons.
    assert (size (list_to_set l : gset Uuid) <= length l)%nat as Hle.
    { clear. induction l as [|y l IH]; cbn; [by rewrite size_empty|].
      rewrite size_union_alt, size_singleton.
      pose proof (subseteq_size (list_to_set l ∖ {[y]} : gset Uuid) (list_to_set l)
        ltac:(set_solver)). lia. }
    destruct (decide (x ∈ l)) as [Hx|Hx].
    + assert ({[ x ]} ∪ list_to_set l = (list_to_set l : gset Uuid)) as E by set_solver.
      rewrite E in H. lia.
    + split; [done|]. apply IH. rewrite size_union in H by set_solver.
      rewrite size_singleton in H. lia.
  - intros H. by rewrite size_list_to_set.
Qed.

Lemma set_len_neqb l :
  negb (set_len (hash_set l) =? list_lenN l)%N = false <-> NoDup l.
Proof. by rewrite negb_false_iff, N.eqb_eq, set_len_nodup. Qed.

(** ** Kahn's algorithm *)

Lemma sn_irreflexive {A} (R : relation A) x : sn R x -> ~ tc R x x.
Proof.
  induction 1 as [x _ IH]. intros H. inversion H as [? ? Hx|? y ? Hxy Hyx]; subst.
  - apply (IH x Hx H).
  - apply (IH y Hxy). by eapply tc_r.
Qed.

Lemma push_dependants_lookup s deps m y : NoDup deps ->
  default [] (foldl (push_dependant s) m deps !! y) =
  default [] (m !! y) ++ (if decide (y ∈ deps) then [s] else []).
Proof.
  revert m. induction deps as [|d l IH]; intros m Hnd; cbn.
  { by rewrite app_nil_r. }
  apply NoDup_cons in Hnd as [Hd Hl]. rewrite IH by done. unfold push_dependant.
  destruct (decide (d = y)) as [->|Hne].
  - rewrite lookup_insert_eq. cbn. rewrite (decide_False (P := y ∈ l)) by done.
    rewrite decide_True by set_solver. by rewrite app_nil_r.
  - rewrite lookup_insert_ne by done. f_equal.
    destruct (decide (y ∈ l)) as [Hy|Hy]; [rewrite decide_True by set_solver|
      rewrite decide_False by set_solver]; done.
Qed.

Lemma release_spec l incoming ready :
  NoDup l -> (forall d, d ∈ l -> exists c, incoming !! d = Some (N.succ c)) ->
  exists incoming' pushed, release incoming ready l = Ok (incoming', ready ++ pushed) /\
    (forall x, incoming' !! x = if decide (x ∈ l) then N.pred <$> incoming !! x
                                else incoming !! x) /\
    (forall x, x ∈ pushed <-> x ∈ l /\ incoming !! x = Some 1%N) /\ NoDup pushed.
Proof.
  revert incoming ready. induction l as [|d l IH]; intros inc ready Hnd Hpos; cbn [release].
  { exists inc, []. rewrite app_nil_r. split_and!; [done|done|set_solver|constructor]. }
  apply NoDup_cons in Hnd as [Hd Hl].
  destruct (Hpos d) as (c & Hc); [by left|]. rewrite Hc.
  rewrite (proj2 (N.eqb_neq (N.succ c) 0)) by lia.
  assert (N.succ c - 1 = c)%N as -> by lia.
  destruct (IH (<[d:=c]> inc) (if (c =? 0)%N then ready ++ [d] else ready) Hl)
    as (inc' & pushed & E & Hinc & Hp & Hpn).
  { intros d' Hd'. rewrite lookup_insert_ne by (intros ->; done). apply Hpos. by right. }
  exists inc', ((if (c =? 0)%N then [d] else []) ++ pushed). split_and!.
  - rewrite E. destruct (c =? 0)%N; cbn; by rewrite <- ?(assoc_L (++)).
  - intros x. rewrite Hinc. destruct (decide (d = x)) as [->|Hne].
    + rewrite (decide_False (P := x ∈ l)) by done. rewrite decide_True by by left.
      rewrite lookup_insert_eq, Hc. cbn. by rewrite N.pred_succ.
    + rewrite lookup_insert_ne by done.
      destruct (decide (x ∈ l)); [rewrite decide_True by set_solver|
        rewrite decide_False by set_solver]; done.
  - intros x. rewrite elem_of_app, Hp, elem_of_cons. destruct (decide (d = x)) as [->|Hne].
    + rewrite Hc. destruct (N.eqb_spec c 0) as [->|Hc0]; split.
      * intros _. by split; [left|].
      * intros _. left. by left.
      * intros [H|[H _]]; [by apply not_elem_of_nil in H|done].
      * intros [_ [= H]]. lia.
    + rewrite lookup_insert_ne by done. destruct (N.eqb_spec c 0) as [->|Hc0].
      * rewrite list_elem_of_singleton. split; [intros [->|[??]]; [done|]; auto|].
        intros [[->|?] ?]; [done|auto].
      * split; [intros [Hx|[??]]; [by apply not_elem_of_nil in Hx|]; auto|].
        intros [[->|?] ?]; [done|auto].
  - destruct (c =? 0)%N; cbn; [|done]. apply NoDup_cons. split; [|done].
    intros [H _]%Hp. done.
Qed.

Section Kahn.
Context (stages : list FleetStage).
Hypothesis Hids : NoDup (map fs_id stages).
Hypothesis Hdeps : forall s, s ∈ stages -> NoDup (fs_depends_on s).

Lemma stage_by_id s s' : s ∈ stages -> s' ∈ stages -> fs_id s = fs_id s' -> s = s'.
Proof.
  clear Hdeps. induction stages as [|a l IH]; intros H H' E; [by apply not_elem_of_nil in H|].
  apply NoDup_cons in Hids as [Ha Hl].
  apply elem_of_cons in H as [->|H]; apply elem_of_cons in H' as [->|H'];
    [done| | |by apply IH].
  - destruct Ha. rewrite E. by apply list_elem_of_fmap_2.
  - destruct Ha. rewrite <- E. by apply list_elem_of_fmap_2.
Qed.

Lemma incoming_counts_lookup s :
  s ∈ stages -> incoming_counts stages !! fs_id s = Some (list_lenN (fs_depends_on s)).
Proof.
  unfold incoming_counts. clear Hdeps. generalize (∅ : gmap Uuid N).
  induction stages as [|a l IH]; intros m Hs; [by apply not_elem_of_nil in Hs|].
  apply NoDup_cons in Hids as [Ha Hl]. cbn.
  apply elem_of_cons in Hs as [->|Hs]; [|by apply IH].
  clear IH Hl. assert (forall m' : gmap Uuid N, m' !! fs_id a = Some (list_lenN (fs_depends_on a)) ->
    foldl (fun m s => <[fs_id s := list_lenN (fs_depends_on s)]> m) m' l !! fs_id a
      = Some (list_lenN (fs_depends_on a))) as G.
  { clear m. induction l as [|b l IH]; intros m' Hm; cbn; [done|].
    cbn in Ha. apply not_elem_of_cons in Ha as [Hab Ha]. apply IH; [done|].
    by rewrite lookup_insert_ne. }
  apply G. apply lookup_insert_eq.
Qed.

Lemma incoming_counts_keys x c : incoming_counts stages !! x = Some c -> x ∈ map fs_id stages.
Proof.
  unfold incoming_counts. clear Hdeps Hids.
  assert (forall m : gmap Uuid N, foldl (fun m s => <[fs_id s := list_lenN (fs_depends_on s)]> m) m stages !! x
    = Some c -> m !! x = Some c \/ x ∈ map fs_id stages) as G.
  { induction stages as [|a l IH]; intros m H; cbn in *; [by left|].
    apply IH in H as [H|H]; [|right; by apply elem_of_cons; right].
    destruct (decide (fs_id a = x)) as [<-|Hne]; [right; apply elem_of_cons; by left|].
    left. by rewrite lookup_insert_ne in H. }
  intros H. by apply G in H as [H|H]; [rewrite lookup_empty in H|].
Qed.

Lemma dependants_of_lookup y :
  default [] (dependants_of stages !! y) =
  map fs_id (filter (fun s => y ∈ fs_depends_on s) stages).
Proof.
  unfold dependants_of. clear Hids. transitivity (default [] ((∅ : gmap Uuid (list Uuid)) !! y) ++
    map fs_id (filter (fun s => y ∈ fs_depends_on s) stages)); [|by rewrite lookup_empty].
  generalize (∅ : gmap Uuid (list Uuid)).
  induction stages as [|a l IH]; intros m; cbn [foldl]; [by rewrite app_nil_r|].
  rewrite IH by set_solver. rewrite push_dependants_lookup by set_solver.
  rewrite filter_cons. destruct (decide (y ∈ fs_depends_on a)); cbn [map];
    [by rewrite <- (assoc_L (++))|by rewrite app_nil_r].
Qed.

Lemma elem_of_dependants x y :
  x ∈ default [] (dependants_of stages !! y) <-> depends stages x y.
Proof.
  rewrite dependants_of_lookup, list_elem_of_fmap. unfold depends. split.
  - intros (s & -> & [H1 H2]%list_elem_of_filter). by exists s.
  - intros (s & H1 & <- & H2). exists s. split; [done|]. by apply list_elem_of_filter.
Qed.

Lemma dependants_nodup y : NoDup (default [] (dependants_of stages !! y)).
Proof.
  rewrite dependants_of_lookup. clear Hdeps. induction stages as [|a l IH]; [constructor|].
  apply NoDup_cons in Hids as [Ha Hl]. rewrite filter_cons. case_decide; [|by apply IH].
  cbn. apply NoDup_cons. split; [|by apply IH]. contradict Ha.
  apply list_elem_of_fmap in Ha as (s & E & [_ H']%list_elem_of_filter). rewrite E.
  by apply list_elem_of_fmap_2.
Qed.


(** The state of the loop after visiting [visited]. *)
Definition open_deps (visited : list Uuid) (s : FleetStage) : list Uuid :=
  filter (fun d => d ∉ visited) (fs_depends_on s).

Record kahn_inv (visited : list Uuid) (incoming : gmap Uuid N) (ready : list Uuid) : Prop := {
  ki_nodup : NoDup (visited ++ ready);
  ki_known : visited ++ ready ⊆ map fs_id stages;
  ki_count : forall s, s ∈ stages -> incoming !! fs_id s = Some (list_lenN (open_deps visited s));
  ki_ready : forall s, s ∈ stages -> fs_id s ∈ visited ++ ready <-> open_deps visited s = [];
  ki_sn : forall v, v ∈ visited -> sn (depends stages) v;
}.

Lemma list_lenN_zero {A} (l : list A) : list_lenN l = 0%N <-> l = [].
Proof. unfold list_lenN. destruct l; cbn; split; try done; lia. Qed.

Lemma depends_own s y : s ∈ stages -> depends stages (fs_id s) y <-> y ∈ fs_depends_on s.
Proof.
  intros Hs. split; [|intros; by exists s]. intros (s' & Hs' & E & H).
  by rewrite (stage_by_id s s') by done.
Qed.

(** Visiting [id] closes one dependency of exactly its dependants. *)
Lemma open_deps_visit visited id s :
  s ∈ stages -> id ∉ visited ->
  list_lenN (open_deps visited s) =
    (list_lenN (open_deps (id :: visited) s)
     + if decide (id ∈ fs_depends_on s) then 1 else 0)%N.
Proof.
  intros Hs Hid. assert (NoDup (fs_depends_on s)) as Hnd by by apply Hdeps.
  unfold open_deps, list_lenN. induction (fs_depends_on s) as [|d l IH]; [done|].
  apply NoDup_cons in Hnd as [Hd Hl]. specialize (IH Hl). rewrite !filter_cons.
  destruct (decide (d = id)) as [->|Hne].
  - rewrite (decide_True (P := id ∉ visited)) by done.
    rewrite (decide_False (P := id ∉ id :: visited)) by (rewrite elem_of_cons; tauto).
    rewrite (decide_True (P := id ∈ id :: l)) by by left.
    rewrite (decide_False (P := id ∈ l)) in IH by done. cbn [length]. lia.
  - assert (d ∉ id :: visited <-> d ∉ visited) as E by (rewrite elem_of_cons; tauto).
    assert (id ∈ d :: l <-> id ∈ l) as E' by (rewrite elem_of_cons; naive_solver).
    rewrite (decide_ext _ _ _ _ E').
    repeat case_decide; cbn [length]; try tauto; lia.
Qed.

Lemma depends_stage x y : depends stages x y -> exists s, s ∈ stages /\ x = fs_id s /\ y ∈ fs_depends_on s.
Proof. intros (s & ? & <- & ?). by exists s. Qed.

Lemma open_deps_nil visited s :
  open_deps visited s = [] <-> forall d, d ∈ fs_depends_on s -> d ∈ visited.
Proof using Type.
  unfold open_deps. split.
  - intros E d Hd. destruct (decide (d ∈ visited)) as [|Hn]; [done|].
    exfalso. apply (not_elem_of_nil d). rewrite <- E. by apply list_elem_of_filter.
  - intros H. destruct (filter _ _) as [|d l] eqn:E; [done|]. exfalso.
    assert (d ∈ d :: l) as Hd by by left. rewrite <- E in Hd.
    apply list_elem_of_filter in Hd as [Hn Hd]. auto.
Qed.

Lemma kahn_step visited incoming id rest :
  kahn_inv visited incoming (id :: rest) ->
  exists incoming' pushed,
    release incoming rest (default [] (dependants_of stages !! id)) = Ok (incoming', rest ++ pushed)
    /\ kahn_inv (id :: visited) incoming' (rest ++ pushed).
Proof.
  intros [Hnd Hkn Hct Hrd Hsn].
  assert (NoDup (id :: visited ++ rest)) as Hnd'.
  { rewrite <- Permutation_middle in Hnd. done. }
  assert (id ∉ visited) as Hid by (apply NoDup_cons in Hnd' as [H _]; set_solver).
  assert (forall s, s ∈ stages -> id ∈ fs_depends_on s -> exists c,
    incoming !! fs_id s = Some (N.succ c) /\ list_lenN (open_deps (id :: visited) s) = c) as Hpos.
  { intros s Hs Hd. rewrite Hct by done. rewrite (open_deps_visit visited id s), decide_True by done.
    eexists. split; [|done]. f_equal. lia. }
  destruct (release_spec (default [] (dependants_of stages !! id)) incoming rest)
    as (inc' & pushed & E & Hinc & Hp & Hpn).
  { by apply dependants_nodup. }
  { intros d (s & Hs & -> & Hd)%elem_of_dependants%depends_stage.
    destruct (Hpos s Hs Hd) as (c & Hc & _). by exists c. }
  exists inc', pushed. split; [done|].
  assert (forall x, x ∈ pushed <-> exists s, s ∈ stages /\ x = fs_id s /\ id ∈ fs_depends_on s /\
    open_deps (id :: visited) s = []) as Hpush.
  { intros x. rewrite Hp, elem_of_dependants. split.
    - intros [(s & Hs & -> & Hd)%depends_stage H1]. exists s. split_and!; [done..|].
      apply list_lenN_zero. destruct (Hpos s Hs Hd) as (c & Hc & <-).
      rewrite Hc in H1. injection H1 as H1. lia.
    - intros (s & Hs & -> & Hd & Ho). split; [by apply depends_own|].
      destruct (Hpos s Hs Hd) as (c & Hc & Hc'). rewrite Hc, <- Hc', Ho. done. }
  split.
  - cbn. rewrite (assoc_L (++)). apply (NoDup_app (id :: visited ++ rest)).
    split_and!; [done| |done]. intros x Hx (s & Hs & -> & Hd & _)%Hpush.
    assert (fs_id s ∈ visited ++ id :: rest) as Hx' by set_solver.
    apply Hrd in Hx'; [|done]. apply Hid. by apply open_deps_nil with (d := id) in Hx'.
  - intros x Hx. assert (x ∈ visited ++ id :: rest \/ x ∈ pushed) as [H|H] by set_solver.
    + by apply Hkn.
    + apply Hpush in H as (s & Hs & -> & _). by apply list_elem_of_fmap_2.
  - intros s Hs. rewrite Hinc, (Hct s Hs), (open_deps_visit visited id s) by done.
    rewrite (decide_ext _ (id ∈ fs_depends_on s)) by (by rewrite elem_of_dependants, depends_own).
    case_decide; cbn; f_equal; lia.
  - intros s Hs. rewrite (assoc_L (++)), elem_of_app, Hpush.
    pose proof (Hrd s Hs) as Hr. rewrite !open_deps_nil in *.
    assert (fs_id s ∈ (id :: visited) ++ rest <-> fs_id s ∈ visited ++ id :: rest) as ->
      by set_solver.
    rewrite Hr. split.
    + intros [H|(s' & Hs' & E' & Hd & H)]; [intros d Hd; right; by apply H|].
      rewrite (stage_by_id s s') by done. by apply open_deps_nil.
    + intros H. destruct (decide (id ∈ fs_depends_on s)) as [Hd|Hd].
      * right. exists s. split_and!; [done..|]. by apply open_deps_nil.
      * left. intros d Hd'. apply H in Hd' as Hd''. apply elem_of_cons in Hd'' as [->|]; done.
  - intros v [->|Hv]%elem_of_cons; [|by apply Hsn].
    constructor. intros y (s & Hs & -> & Hd)%depends_stage. apply Hsn.
    apply (open_deps_nil visited s); [|done]. apply Hrd; [done|]. set_solver.
Qed.

Lemma kahn_run fuel visited incoming ready :
  kahn_inv visited incoming ready -> (length stages <= length visited + fuel)%nat ->
  exists visited' incoming',
    kahn fuel (dependants_of stages) incoming ready (list_lenN visited) = Ok (list_lenN visited')
    /\ kahn_inv visited' incoming' [].
Proof.
  revert visited incoming ready. induction fuel as [|fuel IH]; intros V inc [|id rest] HI Hf; cbn.
  1,3: by exists V, inc.
  - exfalso. pose proof (ki_nodup _ _ _ HI) as Hnd.
    apply (NoDup_submseteq _ (map fs_id stages)) in Hnd; [|apply (ki_known _ _ _ HI)].
    apply submseteq_length in Hnd. rewrite length_app, length_map in Hnd. cbn in Hnd. lia.
  - destruct (kahn_step V inc id rest HI) as (inc' & pushed & -> & HI').
    replace (list_lenN V + 1)%N with (list_lenN (id :: V)) by (unfold list_lenN; cbn; lia).
    apply IH; [done|]. cbn. lia.
Qed.

Lemma kahn_start order : lists_entries order ->
  kahn_inv [] (incoming_counts stages)
    (omap (fun e => if (e.2 =? 0)%N then Some e.1 else None) (order (incoming_counts stages))).
Proof.
  intros Hord. specialize (Hord (incoming_counts stages)). set (ready := omap _ _).
  assert (forall x, x ∈ ready <-> incoming_counts stages !! x = Some 0%N) as Hr.
  { intros x. subst ready. rewrite list_elem_of_omap. split.
    - intros ([y c] & Hy & E). rewrite Hord, elem_of_map_to_list in Hy. cbn in E.
      destruct (N.eqb_spec c 0) as [->|]; by simplify_eq.
    - intros H. exists (x, 0%N). split; [|done]. rewrite Hord. by apply elem_of_map_to_list. }
  assert (NoDup ready) as Hnd.
  { subst ready. rewrite Hord. pose proof (NoDup_fst_map_to_list (incoming_counts stages)) as H.
    clear Hord Hr. induction (map_to_list _) as [|[x c] l IH]; [constructor|].
    apply NoDup_cons in H as [Hx Hl]. specialize (IH Hl). cbn. destruct (c =? 0)%N; [|done].
    cbn. apply NoDup_cons. split; [|done]. contradict Hx.
    apply list_elem_of_omap in Hx as ([y d] & Hy & E). cbn in E.
    destruct (d =? 0)%N; simplify_eq. by apply (list_elem_of_fmap_2 fst) in Hy. }
  assert (forall s, open_deps [] s = fs_depends_on s) as Hopen.
  { intros s. unfold open_deps. induction (fs_depends_on s) as [|d l IH]; [done|].
    rewrite filter_cons, decide_True by apply not_elem_of_nil. by rewrite IH. }
  split; cbn [app].
  - done.
  - intros x Hx%Hr. by eapply incoming_counts_keys.
  - intros s Hs. rewrite Hopen. by apply incoming_counts_lookup.
  - intros s Hs. rewrite Hr, Hopen, incoming_counts_lookup by done.
    rewrite <- list_lenN_zero. split; [by intros [= H]|by intros ->].
  - intros v Hv. by apply not_elem_of_nil in Hv.
Qed.

Hypothesis Hclosed : closed_deps stages.

Lemma depends_finite x : pred_finite (tc (depends stages) x).
Proof.
  exists (map fs_id stages). intros y H. induction H as [x y (s & Hs & _ & Hd)|]; [|done].
  by eapply Hclosed.
Qed.

Lemma kahn_complete visited incoming :
  kahn_inv visited incoming [] -> acyclic stages <-> list_lenN visited = list_lenN stages.
Proof.
  intros [Hnd Hkn _ Hrd Hsn]. setoid_rewrite app_nil_r in Hrd. rewrite app_nil_r in Hnd, Hkn.
  assert (acyclic stages <-> map fs_id stages ⊆ visited) as ->.
  - split.
    + intros Hac x Hx. assert (sn (depends stages) x) as Hx'.
      { apply tc_finite_sn; [exact Hac|apply depends_finite]. }
      induction Hx' as [x _ IH]. apply list_elem_of_fmap in Hx as (s & -> & Hs).
      apply (Hrd s Hs), open_deps_nil. intros d Hd.
      apply IH; [by exists s|]. by eapply Hclosed.
    + intros Hsub x Hx. assert (sn (depends stages) x) as Hs; [|by apply sn_irreflexive in Hs].
      assert (exists y, depends stages x y) as (y & s & Hs & <- & _) by (inversion Hx; eauto).
      by apply Hsn, Hsub, list_elem_of_fmap_2.
  - apply (NoDup_submseteq visited) in Hkn as Hle; [|done]. split.
    + intros Hsub. apply (NoDup_submseteq (map fs_id stages)) in Hsub; [|done].
      apply submseteq_length in Hle, Hsub. rewrite length_map in *. unfold list_lenN. lia.
    + intros E. unfold list_lenN in E. apply submseteq_length_Permutation in Hle.
      * intros x. by rewrite Hle.
      * rewrite length_map. lia.
Qed.

Lemma validate_acyclic_result order : lists_entries order ->
  (acyclic stages /\ validate_acyclic order stages = Ok tt) \/
  (~ acyclic stages /\ validate_acyclic order stages = Err (PlanError FpeDependencyCycle)).
Proof.
  intros Hord. destruct (kahn_run (length stages) [] _ _ (kahn_start order Hord)) as (V & inc & E & HI).
  { cbn. lia. }
  change (list_lenN (@nil Uuid)) with 0%N in E.
  unfold validate_acyclic. rewrite E. cbn [mbind result_bind]. rewrite (kahn_complete V inc HI).
  destruct (N.eqb_spec (list_lenN V) (list_lenN stages)); [by left|by right].
Qed.

End Kahn.

(** ** The checks against their specifications *)

Lemma targets_loop_spec k profiles sessions l :
  targets_loop k profiles sessions l = true <->
  (forall i t, l !! i = Some t -> ftb_ordinal t = (k + N.of_nat i)%N) /\
  NoDup (map ftb_profile_id l) /\ NoDup (map ftb_session_id l) /\
  (forall t, t ∈ l -> ftb_profile_id t ∉ profiles /\ ftb_session_id t ∉ sessions).
Proof.
  revert k profiles sessions. induction l as [|t l IH]; intros k P Q; cbn [targets_loop map].
  { split; [|done]. intros _. split_and!; [done|constructor..|]. intros ? []%not_elem_of_nil. }
  rewrite !NoDup_cons. destruct (negb _ || _ || _) eqn:E; split; try done.
  - intros (Ho & [Hp _] & [Hs _] & Hn). destruct (Hn t) as [HnP HnQ]; [by left|].
    specialize (Ho 0%nat t eq_refl). rewrite !orb_true_iff in E.
    destruct E as [[E|E]|E]; breflect; [lia|done|done].
  - intros (Ho & Hp & Hs & Hn)%IH. breflect. split_and!.
    + intros [|i] t' Ht; cbn in Ht; [injection Ht as <-; lia|]. apply Ho in Ht. lia.
    + intros (t' & Et & Ht)%list_elem_of_fmap. destruct (Hn t' Ht). set_solver.
    + done.
    + intros (t' & Et & Ht)%list_elem_of_fmap. destruct (Hn t' Ht). set_solver.
    + done.
    + intros t' [->|Ht]%elem_of_cons; [done|]. destruct (Hn t' Ht). set_solver.
  - intros (Ho & [Hp Hp'] & [Hs Hs'] & Hn). apply IH. split_and!; [|done..|].
    + intros i t' Ht. specialize (Ho (S i) t' Ht). lia.
    + intros t' Ht. destruct (Hn t') as [H1 H2]; [by right|].
      apply (list_elem_of_fmap_2 ftb_profile_id) in Ht as Ht1.
      apply (list_elem_of_fmap_2 ftb_session_id) in Ht as Ht2. set_solver.
Qed.

Lemma validate_targets_spec targets :
  (targets_wf targets /\ validate_targets targets = Ok tt) \/
  (~ targets_wf targets /\ validate_targets targets = Err (PlanError FpeInvalidTargets)).
Proof.
  unfold validate_targets, list_lenN, MAX_FLEET_TARGETS.
  destruct (negb _) eqn:E.
  { right. split; [|done]. intros [? ? _ _ _]. apply negb_true_iff, andb_false_iff in E.
    destruct E; breflect; lia. }
  apply negb_false_iff in E. breflect. destruct (targets_loop _ _ _ _) eqn:El.
  - apply targets_loop_spec in El as (? & ? & ? & _). left. split; [|done].
    split; [lia|lia| |done..]. intros. rewrite <- (N.add_0_l (N.of_nat _)). eauto.
  - right. split; [|done]. intros [_ _ Ho Hp Hs]. apply not_true_iff_false in El. apply El.
    apply targets_loop_spec. split_and!; [by intros; rewrite N.add_0_l; apply Ho|done..|set_solver].
Qed.

Lemma stage_metadata_ok_spec production target_ids stage_ids s :
  stage_metadata_ok (hash_set target_ids) (hash_set stage_ids) s = true ->
  (production && bool_decide (fs_strategy s = FxParallel)) = false ->
  stage_wf production target_ids stage_ids s.
Proof.
  unfold stage_metadata_ok. intros H Hp. apply negb_true_iff in H.
  rewrite !orb_false_iff, !set_len_neqb in H.
  destruct H as [[[[[[[[H1 H2] H3] H4] H5] H6] H7] H8] H9]. breflect.
  split; try done.
  - intros E. apply H1. by rewrite E.
  - by apply hash_set_subseteq.
  - by apply hash_set_subseteq.
  - by rewrite <- elem_of_hash_set.
  - lia.
  - intros E. rewrite E, bool_decide_true in H9 by done. cbn in H9. breflect. done.
  - intros -> E. by rewrite E in Hp.
Qed.

Lemma stage_wf_metadata_ok production target_ids stage_ids s :
  stage_wf production target_ids stage_ids s ->
  stage_metadata_ok (hash_set target_ids) (hash_set stage_ids) s = true /\
  (production && bool_decide (fs_strategy s = FxParallel)) = false.
Proof.
  intros [H1 H2 H3 H4 H5 H6 H7 H8 H9 H10]. unfold stage_metadata_ok. split.
  - apply negb_true_iff. rewrite !orb_false_iff, !set_len_neqb, !negb_false_iff.
    rewrite !bool_decide_eq_true, !bool_decide_eq_false, N.eqb_neq, N.ltb_ge.
    rewrite !hash_set_subseteq, elem_of_hash_set. split_and!; try done; [|lia|].
    + destruct (fs_target_ids s) as [|x l]; [done|]. intros E.
      assert (x ∈ (∅ : gset Uuid)) as []%not_elem_of_empty. rewrite <- E. apply elem_of_hash_set.
      by left.
    + case_bool_decide; [|done]. rewrite H9 by done. done.
  - destruct production; [|done]. cbn. apply bool_decide_eq_false. by apply H10.
Qed.

Lemma stages_metadata_spec production target_ids stage_ids l :
  (stages_metadata production (hash_set target_ids) (hash_set stage_ids) l = Ok tt /\
   forall s, s ∈ l -> stage_wf production target_ids stage_ids s) \/
  (exists e, stages_metadata production (hash_set target_ids) (hash_set stage_ids) l
               = Err (PlanError e) /\
   exists s, s ∈ l /\ ~ stage_wf production target_ids stage_ids s).
Proof.
  induction l as [|s l IH]; cbn [stages_metadata].
  { left. split; [done|]. intros ? []%not_elem_of_nil. }
  destruct (stage_metadata_ok _ _ s) eqn:E; cbn [negb].
  - destruct (production && _) eqn:Ep.
    + right. eexists. split; [done|]. exists s. split; [by left|].
      intros [_ Hw]%stage_wf_metadata_ok. by rewrite Ep in Hw.
    + pose proof (stage_metadata_ok_spec _ _ _ _ E Ep) as Hs.
      destruct IH as [[-> IH]|(e & -> & s' & Hs' & Hn)].
      * left. split; [done|]. by intros s' [->|?]%elem_of_cons; [|apply IH].
      * right. exists e. split; [done|]. exists s'. split; [by right|done].
  - right. eexists. split; [done|]. exists s. split; [by left|].
    intros [Hw _]%stage_wf_metadata_ok. by rewrite E in Hw.
Qed.

Lemma children_metadata_spec target_ids stage_ids keys l :
  children_metadata (hash_set target_ids) (hash_set stage_ids) keys l = true <->
  Forall (child_wf target_ids stage_ids) l /\ NoDup (map child_key l) /\
  (forall c, c ∈ l -> child_key c ∉ keys).
Proof.
  revert keys. induction l as [|c l IH]; intros keys; cbn [children_metadata map].
  { split; [|done]. intros _. split_and!; [constructor..|]. intros ? []%not_elem_of_nil. }
  rewrite Forall_cons, NoDup_cons. unfold child_wf at 1. fold (child_key c).
  destruct (negb _ || _ || _ || _ || _) eqn:E; split; try done.
  - intros ([(H1 & H2 & H3 & H4) _] & _ & Hk). specialize (Hk c ltac:(by left)).
    rewrite !orb_true_iff in E. destruct E as [[[[E|E]|E]|E]|E]; breflect;
      rewrite ?elem_of_hash_set in *; try done; [lia|by rewrite H4 in E].
  - intros (Hw & Hk & Hn)%IH. breflect. rewrite elem_of_hash_set in *.
    split_and!; try done; [lia| |].
    + intros (c' & Ec & Hc)%list_elem_of_fmap. specialize (Hn c' Hc).
      apply not_elem_of_union in Hn as [Hn _].
      apply not_elem_of_singleton in Hn. by destruct (Hn (eq_sym Ec)).
    + intros c' [->|Hc]%elem_of_cons; [done|]. specialize (Hn c' Hc).
      by apply not_elem_of_union in Hn as [_ Hn].
  - intros ([_ Hw] & [Hk Hk'] & Hn). apply IH. split_and!; [done..|]. intros c' Hc.
    specialize (Hn c' ltac:(by right)). apply (list_elem_of_fmap_2 child_key) in Hc.
    apply not_elem_of_union. split; [|done]. apply not_elem_of_singleton. intros E'.
    by rewrite E' in Hc.
Qed.

(** The stage a draft stands for, and the bound on its summary. *)
Definition stage_of (d : FleetStageDraft) : FleetStage :=
  {| fs_id := fsd_id d; fs_summary := (redact_secrets (trim (fsd_summary d))).1;
     fs_target_ids := fsd_target_ids d; fs_depends_on := fsd_depends_on d;
     fs_strategy := fsd_strategy d; fs_concurrency_limit := fsd_concurrency_limit d;
     fs_state := StPending |}.

Definition summary_ok (s : FleetStage) : Prop :=
  fs_summary s <> [] /\ (blen (fs_summary s) <= MAX_STAGE_SUMMARY_BYTES)%N.

Lemma validate_stage_ok production target_ids stage_ids d s :
  validate_stage production (hash_set target_ids) (hash_set stage_ids) d = Ok s <->
  s = stage_of d /\ stage_wf production target_ids stage_ids (stage_of d) /\
  summary_ok (stage_of d).
Proof.
  unfold validate_stage, summary_ok. cbn [fs_summary stage_of]. split.
  - intros H. repeat match type of H with
      | (if ?b then _ else _) = _ => destruct b eqn:?; [discriminate H|] end.
    injection H as <-. split; [done|]. split.
    + repeat match goal with E : (_ || _) = false |- _ => apply orb_false_iff in E as [? ?] end.
      rewrite !set_len_neqb in *. breflect.
      split; cbn; try done; rewrite <- ?hash_set_subseteq, <- ?elem_of_hash_set; try done; try lia.
      * intros E. rewrite bool_decide_true in * by done. cbn in *. by breflect.
      * intros -> E. rewrite (bool_decide_true (fsd_strategy d = FxParallel)) in * by done. done.
    + breflect. split; [by apply is_empty_false|lia].
  - intros (-> & [H1 H2 H3 H4 H5 H6 H7 H8 H9 H10] & Hne & Hle).
    cbn in *. apply is_empty_false in Hne. rewrite Hne. apply N.ltb_ge in Hle. rewrite Hle. cbn.
    apply set_len_neqb in H2, H4. rewrite H2, H4, (bool_decide_false (_ = [])) by done. cbn.
    rewrite (bool_decide_true (hash_set (fsd_target_ids d) ⊆ _)) by by apply hash_set_subseteq.
    rewrite (bool_decide_false (_ ∈ _)) by by rewrite elem_of_hash_set. cbn.
    rewrite (bool_decide_true (_ ⊆ _)) by by apply hash_set_subseteq. cbn.
    rewrite (proj2 (N.eqb_neq _ _)) by lia. rewrite (proj2 (N.ltb_ge _ _)) by done. cbn.
    assert (bool_decide (fsd_strategy d = FxSequential)
            && negb (fsd_concurrency_limit d =? 1)%N = false) as ->.
    { case_bool_decide as Es; [|done]. by rewrite H9. }
    destruct production; cbn; [|done]. by rewrite bool_decide_false by by apply H10.
Qed.

Lemma validate_stage_err production target_ids stage_ids d e :
  validate_stage production target_ids stage_ids d = Err e -> exists e', e = PlanError e'.
Proof. unfold validate_stage. intros H. break_in H; simplify_eq; eauto. Qed.

Lemma try_map_validate_stage production target_ids stage_ids ds stages :
  try_map (validate_stage production (hash_set target_ids) (hash_set stage_ids)) ds = Ok stages <->
  stages = map stage_of ds /\
  forall s, s ∈ stages -> stage_wf production target_ids stage_ids s /\ summary_ok s.
Proof.
  rewrite try_map_ok. split.
  - intros H. induction H as [|d s ds ss Hd _ [-> IH]]; cbn.
    { split; [done|]. intros ? []%not_elem_of_nil. }
    apply validate_stage_ok in Hd as (-> & ? & ?). split; [done|].
    by intros s' [->|?]%elem_of_cons; [|apply IH].
  - intros [-> H]. induction ds as [|d ds IH]; cbn; constructor.
    + apply validate_stage_ok. split; [done|]. apply H. by left.
    + apply IH. intros s Hs. apply H. by right.
Qed.

Lemma try_map_plan_err {A B} (f : A -> result plan_stop B) l e :
  (forall x e, f x = Err e -> exists e', e = PlanError e') ->
  try_map f l = Err e -> exists e', e = PlanError e'.
Proof.
  intros Hf. induction l as [|a l IH]; cbn; [done|]. destruct (f a) eqn:E; cbn.
  - destruct (try_map f l); cbn; [done|]. intros [= <-]. by apply IH.
  - intros [= <-]. by eapply Hf.
Qed.

(** A plan check on stages whose identifiers and dependencies are in order. *)
Lemma validate_acyclic_wf order production target_ids stages :
  lists_entries order -> NoDup (map fs_id stages) ->
  (forall s, s ∈ stages -> stage_wf production target_ids (map fs_id stages) s) ->
  (acyclic stages /\ validate_acyclic order stages = Ok tt) \/
  (~ acyclic stages /\ validate_acyclic order stages = Err (PlanError FpeDependencyCycle)).
Proof.
  intros Hord Hids Hs. apply validate_acyclic_result; [done| | |done].
  - intros s H. apply (sw_deps_nodup _ _ _ _ (Hs s H)).
  - intros s H d Hd. by apply (sw_deps_known _ _ _ _ (Hs s H)).
Qed.

Lemma validate_stages_ok order production targets drafts stages :
  lists_entries order -> targets_wf targets ->
  validate_stages order production targets drafts = Ok stages <->
  stages = map stage_of drafts /\ plan_wf production targets stages /\
  forall s, s ∈ stages -> summary_ok s.
Proof.
  intros Hord Ht. unfold validate_stages, MAX_FLEET_STAGES.
  assert (forall ds, map fs_id (map stage_of ds) = map fsd_id ds) as Eids.
  { intros. rewrite map_map. done. }
  assert (list_lenN drafts = list_lenN (map fsd_id drafts)) as El.
  { unfold list_lenN. by rewrite length_map. }
  split.
  - intros H. destruct (bool_decide _ || _) eqn:E; [done|]. breflect.
    destruct (negb _) eqn:E'; [done|]. rewrite El in E'. apply set_len_neqb in E'.
    destruct (try_map _ drafts) as [ss|] eqn:Et; [|done].
    apply try_map_validate_stage in Et as (-> & Hs). cbn [mbind result_bind] in H.
    destruct (validate_acyclic _ _) eqn:Ea; [|done]. injection H as <-.
    rewrite <- Eids in Hs, E'. split; [done|]. split; [|intros s ?; by apply Hs].
    split; [done| | |done|intros s ?; by apply Hs|].
    + by destruct drafts.
    + rewrite length_map. unfold list_lenN in *. lia.
    + destruct (validate_acyclic_wf order production (map ftb_profile_id targets)
        (map stage_of drafts)) as [[? _]|[_ Hx]]; try done; [intros s ?; by apply Hs|congruence].
  - intros (-> & [_ Hne Hmax Hids Heach Hac] & Hsum).
    rewrite bool_decide_false by (by intros ->). unfold list_lenN in El |- *.
    rewrite length_map in Hmax. rewrite (proj2 (N.ltb_ge _ _)) by lia. cbn [orb].
    rewrite El. fold (list_lenN (map fsd_id drafts)). rewrite <- Eids.
    rewrite (proj2 (set_len_neqb _)) by done.
    rewrite (proj2 (try_map_validate_stage _ _ _ drafts (map stage_of drafts))) by auto.
    cbn [mbind result_bind].
    destruct (validate_acyclic_wf order production (map ftb_profile_id targets)
      (map stage_of drafts)) as [[_ ->]|[? _]]; done.
Qed.

Lemma validate_stages_err order production targets drafts e :
  lists_entries order ->
  validate_stages order production targets drafts = Err e -> exists e', e = PlanError e'.
Proof.
  intros Hord. unfold validate_stages. destruct (_ || _); [intros [= <-]; eauto|].
  destruct (negb _) eqn:E'; [intros [= <-]; eauto|].
  assert (list_lenN drafts = list_lenN (map fsd_id drafts)) as El.
  { unfold list_lenN. by rewrite length_map. }
  rewrite El in E'. apply set_len_neqb in E'.
  destruct (try_map _ _) as [stages|e'] eqn:Et; cbn [mbind result_bind].
  - apply try_map_validate_stage in Et as (-> & Hs).
    destruct (validate_acyclic_wf order production (map ftb_profile_id targets)
      (map stage_of drafts)) as [[_ ->]|[_ ->]]; cbn; try done.
    + by rewrite map_map.
    + rewrite map_map. intros s ?. by apply Hs.
    + intros [= <-]; eauto.
  - intros [= <-]. eapply try_map_plan_err; [|done]. intros x e0. apply validate_stage_err.
Qed.

(** What makes a stored fleet admissible, besides its plan. *)
Definition digest_shape (d : str) : Prop :=
  blen d = 64%N /\ Forall (fun c => is_ascii_hexdigit c = true) d.

Record metadata_wf (r : FleetRunV2) : Prop := {
  mw_plan : plan_wf (fr_production r) (fr_targets r) (fr_stages r);
  mw_digest : digest_shape (fr_graph_digest r);
  mw_children : Forall (child_wf (map ftb_profile_id (fr_targets r)) (map fs_id (fr_stages r)))
                       (fr_children r);
  mw_keys : NoDup (map child_key (fr_children r));
}.

(** Running the three list checks of [validate_metadata] in the order of the
    code, each against its specification. *)
Lemma validate_metadata_cases order r : lists_entries order ->
  (metadata_wf r /\ validate_metadata order r = Ok tt) \/
  (~ metadata_wf r /\ exists e, validate_metadata order r = Err (PlanError e)).
Proof.
  intros Hord. unfold validate_metadata, MAX_FLEET_STAGES.
  destruct (validate_targets_spec (fr_targets r)) as [[Ht ->]|[Ht ->]]; cbn [mbind result_bind];
    [|right; split; [by intros [[]]|eauto]].
  assert (list_lenN (fr_stages r) = list_lenN (map fs_id (fr_stages r))) as El
    by (unfold list_lenN; by rewrite length_map).
  destruct (bool_decide _ || _) eqn:E1.
  { right. split; [|eauto]. intros [[_ Hne Hmax _ _ _] _ _ _]. apply orb_true_iff in E1.
    unfold list_lenN in E1. destruct E1; breflect; [done|lia]. }
  destruct (negb _ || _ || _) eqn:E2.
  { right. split; [|eauto]. intros [[_ _ _ Hids _ _] [Hl Hh] _ _].
    rewrite El, (proj2 (set_len_neqb _) Hids), Hl in E2. cbn in E2. apply negb_true_iff in E2.
    by rewrite (proj2 (Forallb_forall _ _)) in E2 by by apply Forall_forall. }
  apply orb_false_iff in E2 as [[E2 E3]%orb_false_iff E4]. rewrite El in E2.
  apply set_len_neqb in E2. breflect.
  destruct (stages_metadata_spec (fr_production r) (map ftb_profile_id (fr_targets r))
    (map fs_id (fr_stages r)) (fr_stages r)) as [[-> Hs]|(e & -> & s & Hs & Hn)];
    cbn [mbind result_bind];
    [|right; split; [intros [[_ _ _ _ He _] _ _ _]; by apply Hn, He|eauto]].
  destruct (validate_acyclic_wf order (fr_production r) (map ftb_profile_id (fr_targets r))
    (fr_stages r)) as [[Hac ->]|[Hac ->]]; [done..| |]; cbn [mbind result_bind];
    [|right; split; [by intros [[]]|eauto]].
  destruct (children_metadata _ _ _ _) eqn:Ec.
  - left. split; [|done]. apply children_metadata_spec in Ec as (Hc & Hk & _). split; [|split|done..].
    + split; try done. unfold list_lenN in *. lia.
    + done.
    + apply Forall_forall. by apply Forallb_forall.
  - right. split; [|eauto]. intros [_ _ Hc Hk]. apply not_true_iff_false in Ec. apply Ec.
    apply children_metadata_spec. split_and!; [done..|set_solver].
Qed.

(** ** Properties *)

(** C14. A stored fleet passes the metadata check exactly when it is well formed:
    two to ten targets in ordinal order with distinct profiles and sessions,
    one to sixty-four stages with distinct names whose targets and
    dependencies are known and distinct, concurrency limits that fit, nothing
    parallel in production, an acyclic dependency graph, a digest of sixty-four
    hexadecimal digits, and children that name known stages and targets with
    distinct attempts.  The check always ends: Kahn's loop needs no more
    visits than there are stages, no count is taken below zero, and the order
    in which the hash map lists its entries does not matter. *)
Theorem fleet_metadata_exact order r : lists_entries order ->
  (validate_metadata order r = Ok tt <-> metadata_wf r) /\
  (validate_metadata order r <> Ok tt -> exists e, validate_metadata order r = Err (PlanError e)).
Proof.
  intros Hord. destruct (validate_metadata_cases order r Hord) as [[Hw ->]|[Hw (e & ->)]].
  - split; [by split|done].
  - split; [by split|eauto].
Qed.

(** A draft is accepted exactly when its targets and stages are well formed
    after each summary is trimmed and redacted, its graph is acyclic and can be
    serialized; the run then starts as version 1 in [Draft], live, with no
    child, every stage pending, and a digest of exactly that graph.  A refusal
    is always one of the code's own errors. *)
Theorem fleet_draft_exact `{Externals, FleetSerde} order new_v4 request now :
  lists_entries order ->
  (forall r, fleet_draft order new_v4 request now = Ok r <->
     plan_wf (frd_production request) (frd_targets request) (map stage_of (frd_stages request)) /\
     (forall s, s ∈ map stage_of (frd_stages request) -> summary_ok s) /\
     exists encoded,
       encode_graph (frd_production request) (frd_failure_policy request) (frd_targets request)
                    (map stage_of (frd_stages request)) = Some encoded /\
       r = from_metadata new_v4 1 FlDraft (frd_production request) (frd_failure_policy request)
             (frd_targets request) (map stage_of (frd_stages request)) [] (digest_hex encoded)
             FrLive now now) /\
  (forall e, fleet_draft order new_v4 request now = Err e -> exists e', e = PlanError e').
Proof.
  intros Hord. unfold fleet_draft, graph_digest.
  destruct (validate_targets_spec (frd_targets request)) as [[Ht ->]|[Ht ->]];
    cbn [mbind result_bind].
  - destruct (validate_stages order _ _ _) as [stages|e] eqn:Es; cbn [mbind result_bind].
    + apply validate_stages_ok in Es as (-> & Hp & Hs); [|done..].
      destruct (encode_graph _ _ _ _) as [encoded|]; cbn; split.
      * intros r. split; [intros [= <-]; eauto 10|]. by intros (_ & _ & ? & [= <-] & ->).
      * done.
      * intros r. split; [done|]. by intros (_ & _ & ? & ? & _).
      * intros e [= <-]; eauto.
    + split.
      * intros r. split; [done|]. intros (Hp & Hs & _).
        destruct (validate_stages_ok order (frd_production request) (frd_targets request)
          (frd_stages request) (map stage_of (frd_stages request)) Hord Ht) as [_ G].
        rewrite G in Es by done. done.
      * intros e' [= <-]. by eapply validate_stages_err.
  - split; [|intros e [= <-]; eauto]. intros r. split; [done|]. by intros ([] & _).
Qed.

Lemma fleet_transition_ok next now r r' :
  fleet_transition_to next now r = Ok r' <->
  fr_recovery_state r = FrLive /\ fleet_can_transition_to (fr_state r) next = true /\
  r' = set_fleet_state next now r.
Proof.
  unfold fleet_transition_to. destruct (negb _ || _) eqn:E.
  - split; [done|]. intros (Hr & Ht & _). rewrite Hr, Ht in E. by rewrite bool_decide_true in E.
  - breflect. split; [by intros [= <-]|]. by intros (_ & _ & ->).
Qed.

(** A terminal fleet state has no successor; execution is entered only from
    [Approved] or from review; approval only from a pending approval. *)
Lemma fleet_execution_entry s : fleet_can_transition_to s FlExecuting = true ->
  s = FlApproved \/ s = FlPausedForReview.
Proof. destruct s; cbn; auto; done. Qed.

Lemma role_byte_lower x : role_byte x = true ->
  role_byte (to_lower x) = true /\ is_whitespace (to_lower x) = false /\
  to_lower (to_lower x) = to_lower x.
Proof.
  unfold role_byte, is_ascii_alphanumeric, is_whitespace, to_lower, is_ascii_uppercase,
    is_ascii_lowercase, is_ascii_digit, between. intros H.
  destruct ((65 <=? x)%N && (x <=? 90)%N) eqn:E.
  - replace ((65 <=? x + 32)%N && (x + 32 <=? 90)%N) with false by lia. split_and!; [lia|lia|done].
  - rewrite E. split_and!; [lia|lia|done].
Qed.

(** A role that was accepted is its own normal form. *)
Lemma normalized_role_idem role r :
  normalized_role role = Ok (Some r) -> normalized_role (Some r) = Ok (Some r).
Proof.
  destruct role as [role|]; cbn; [|done]. destruct (is_empty _ || _ || _) eqn:E; [done|].
  apply orb_false_iff in E as [[Hne Hlen]%orb_false_iff Hb%negb_false_iff]. intros [= <-].
  set (t := trim role) in *. rewrite Forallb_forall in Hb. apply is_empty_false in Hne.
  assert (forall c, c ∈ to_ascii_lowercase t ->
    role_byte c = true /\ is_whitespace c = false /\ to_lower c = c) as Hc.
  { intros c (x & -> & Hx)%list_elem_of_fmap. specialize (Hb x Hx). by apply role_byte_lower. }
  assert (to_ascii_lowercase (to_ascii_lowercase t) = to_ascii_lowercase t) as Hlow.
  { unfold to_ascii_lowercase at 1. rewrite <- (map_id (to_ascii_lowercase t)) at 2.
    apply map_ext_in. intros c H. by apply Hc, list_elem_of_In. }
  rewrite (trim_no_whitespace (to_ascii_lowercase t)) by (intros; by apply Hc).
  rewrite Hlow. rewrite (proj2 (is_empty_false _)) by (by destruct t).
  rewrite (blen_lowercase t), Hlen. cbn [orb].
  by rewrite (proj2 (Forallb_forall _ _)) by (intros; by apply Hc).
Qed.

Lemma target_shape_loop_spec profiles sessions l roles :
  target_shape_loop profiles sessions l = Ok roles <->
  Forall2 (fun t r => normalized_role (ftr_role t) = Ok r) l roles /\
  NoDup (map ftr_profile_id l) /\ NoDup (map ftr_session_id l) /\
  (forall t, t ∈ l -> ftr_profile_id t ∉ profiles /\ ftr_session_id t ∉ sessions).
Proof.
  revert profiles sessions roles. induction l as [|t l IH]; intros P Q roles;
    cbn [target_shape_loop map].
  { split.
    - intros [= <-]. split_and!; [constructor..|]. intros ? []%not_elem_of_nil.
    - intros (H & _). by inversion H. }
  rewrite !NoDup_cons. destruct (_ || _) eqn:E.
  { split; [done|]. intros (_ & _ & _ & Hn). destruct (Hn t) as [H1 H2]; [by left|].
    rewrite !bool_decide_false in E by done. done. }
  apply orb_false_iff in E as [E1 E2]. breflect. split.
  - intros H. destruct (normalized_role _) as [role|] eqn:Er; [|done]. cbn [mbind result_bind] in H.
    destruct (target_shape_loop _ _ l) as [roles'|] eqn:El; [|done]. injection H as <-.
    apply IH in El as (Hf & Hp & Hs & Hn). split_and!; [by constructor| |done| |done|].
    + intros (t' & Et & Ht)%list_elem_of_fmap. destruct (Hn t' Ht). set_solver.
    + intros (t' & Et & Ht)%list_elem_of_fmap. destruct (Hn t' Ht). set_solver.
    + intros t' [->|Ht]%elem_of_cons; [done|]. destruct (Hn t' Ht). set_solver.
  - intros (Hf & [Hp Hp'] & [Hs Hs'] & Hn). inversion Hf as [|? role ? roles' Hr Hf']; subst.
    rewrite Hr. cbn [mbind result_bind].
    destruct (IH ({[ftr_profile_id t]} ∪ P) ({[ftr_session_id t]} ∪ Q) roles') as [_ ->]; [done|].
    split_and!; [done..|]. intros t' Ht. destruct (Hn t') as [H1 H2]; [by right|].
    apply (list_elem_of_fmap_2 ftr_profile_id) in Ht as Ht1.
    apply (list_elem_of_fmap_2 ftr_session_id) in Ht as Ht2. set_solver.
Qed.

(** The target shape is accepted exactly when there are two to ten targets, no
    profile or session twice, and every role given is a name of at most 48
    bytes; the roles come back in order, and a normalized role is its own
    normal form. *)
Theorem fleet_target_shape_exact targets roles :
  (validate_fleet_target_shape targets = Ok roles <->
   (2 <= length targets <= 10)%nat /\ NoDup (map ftr_profile_id targets) /\
   NoDup (map ftr_session_id targets) /\
   Forall2 (fun t r => normalized_role (ftr_role t) = Ok r) targets roles) /\
  (validate_fleet_target_shape targets = Ok roles ->
   forall r, Some r ∈ roles -> normalized_role (Some r) = Ok (Some r)).
Proof.
  assert (validate_fleet_target_shape targets = Ok roles <->
   (2 <= length targets <= 10)%nat /\ NoDup (map ftr_profile_id targets) /\
   NoDup (map ftr_session_id targets) /\
   Forall2 (fun t r => normalized_role (ftr_role t) = Ok r) targets roles) as Hiff.
  { unfold validate_fleet_target_shape, list_lenN, MIN_FLEET_TARGETS, MAX_FLEET_TARGETS.
    destruct (N.ltb_spec (N.of_nat (length targets)) 2); [split; [done|lia]|].
    destruct (N.ltb_spec 10 (N.of_nat (length targets))); [split; [done|lia]|].
    rewrite target_shape_loop_spec. split; [intros (?&?&?&_); split_and!; [lia|lia|done..]|].
    intros (_ & Hp & Hs & Hf). split_and!; [exact Hf|exact Hp|exact Hs|].
    intros t _. split; apply not_elem_of_empty. }
  split; [done|]. intros (_ & _ & _ & Hf)%Hiff r Hr.
  apply list_elem_of_lookup in Hr as (i & Hi).
  destruct (Forall2_lookup_r _ _ _ _ _ Hf Hi) as (t & _ & Ht). by eapply normalized_role_idem.
Qed.
