(* ===== verification/FleetControl.v ===== *)
(** * Fleet approvals and events (agent/fleet_control.rs)

    A fleet approval seals one validated orchestration graph: it names the
    version, the digest, the exact targets and the policy snapshot, and is
    checked against the run again when it is decided. *)
From S2P Require Import Prelude Str RunState FleetRun.

Definition FLEET_APPROVAL_GRAPH_CHANGED : str := lit "FLEET_APPROVAL_GRAPH_CHANGED".
Definition FLEET_APPROVAL_TARGETS_CHANGED : str := lit "FLEET_APPROVAL_TARGETS_CHANGED".
Definition FLEET_APPROVAL_POLICY_CHANGED : str := lit "FLEET_APPROVAL_POLICY_CHANGED".
Definition FLEET_APPROVAL_NOT_PENDING : str := lit "FLEET_APPROVAL_NOT_PENDING".
Definition FLEET_APPROVAL_RECOVERED : str := lit "FLEET_APPROVAL_RECOVERED".

Inductive FleetApprovalStateV2 := FaPending | FaGranted | FaRejected | FaInvalidated.
#[export] Instance fleet_approval_state_eq_dec : EqDecision FleetApprovalStateV2.
Proof. solve_decision. Defined.

Record FleetApprovalV2 := {
  fa_id : Uuid;
  fa_fleet_run_id : Uuid;
  fa_fleet_version : N;
  fa_graph_digest : str;
  fa_targets : list FleetTargetBinding;
  fa_policy_version : N;
  fa_policy_hash : str;
  fa_state : FleetApprovalStateV2;
  fa_invalidation_code : option str;
  fa_created_at : N;
  fa_decided_at : option N;
}.
#[export] Instance fleet_approval_eq_dec : EqDecision FleetApprovalV2.
Proof. solve_decision. Defined.

Definition fleet_bind (new_v4 : Uuid) (run : FleetRunV2) (policy_version : N)
    (policy_hash : str) (now : N) : result str FleetApprovalV2 :=
  if negb (bool_decide (fr_recovery_state run = FrLive))
     || negb (bool_decide (fr_state run = FlAwaitingApproval))
  then Err FLEET_APPROVAL_RECOVERED
  else Ok {| fa_id := new_v4; fa_fleet_run_id := fr_id run; fa_fleet_version := fr_version run;
             fa_graph_digest := fr_graph_digest run; fa_targets := fr_targets run;
             fa_policy_version := policy_version; fa_policy_hash := policy_hash;
             fa_state := FaPending; fa_invalidation_code := None; fa_created_at := now;
             fa_decided_at := None |}.

Definition fleet_validate (self : FleetApprovalV2) (run : FleetRunV2) (policy_version : N)
    (policy_hash : str) : result str unit :=
  if negb (bool_decide (fa_state self = FaPending)) then Err FLEET_APPROVAL_NOT_PENDING
  else if negb (bool_decide (fr_recovery_state run = FrLive)) then Err FLEET_APPROVAL_RECOVERED
  else if negb (bool_decide (fr_state run = FlAwaitingApproval))
  then Err FLEET_APPROVAL_GRAPH_CHANGED
  else if negb (fa_fleet_run_id self =? fr_id run)%N
          || negb (fa_fleet_version self =? fr_version run)%N
          || negb (str_eqb (fa_graph_digest self) (fr_graph_digest run))
  then Err FLEET_APPROVAL_GRAPH_CHANGED
  else if negb (bool_decide (fa_targets self = fr_targets run))
  then Err FLEET_APPROVAL_TARGETS_CHANGED
  else if negb (fa_policy_version self =? policy_version)%N
          || negb (str_eqb (fa_policy_hash self) policy_hash)
  then Err FLEET_APPROVAL_POLICY_CHANGED
  else Ok tt.

Definition fleet_decide (self : FleetApprovalV2) (state : FleetApprovalStateV2) (now : N) :
    FleetApprovalV2 :=
  {| fa_id := fa_id self; fa_fleet_run_id := fa_fleet_run_id self;
     fa_fleet_version := fa_fleet_version self; fa_graph_digest := fa_graph_digest self;
     fa_targets := fa_targets self; fa_policy_version := fa_policy_version self;
     fa_policy_hash := fa_policy_hash self; fa_state := state;
     fa_invalidation_code := fa_invalidation_code self; fa_created_at := fa_created_at self;
     fa_decided_at := Some now |}.

Definition fleet_invalidate (self : FleetApprovalV2) (code : str) (now : N) : FleetApprovalV2 :=
  {| fa_id := fa_id self; fa_fleet_run_id := fa_fleet_run_id self;
     fa_fleet_version := fa_fleet_version self; fa_graph_digest := fa_graph_digest self;
     fa_targets := fa_targets self; fa_policy_version := fa_policy_version self;
     fa_policy_hash := fa_policy_hash self; fa_state := FaInvalidated;
     fa_invalidation_code := Some code; fa_created_at := fa_created_at self;
     fa_decided_at := Some now |}.

Inductive FleetEventKindV2 :=
  | FeDraftCreated | FeApprovalRequired | FeApprovalGranted | FeApprovalRejected
  | FeApprovalInvalidated | FeChildClaimed | FeStateChanged | FeRecoveryInterrupted.
#[export] Instance fleet_event_kind_eq_dec : EqDecision FleetEventKindV2.
Proof. solve_decision. Defined.

Record FleetEventEnvelopeV2 := {
  fev_fleet_run_id : Uuid;
  fev_seq : N;
  fev_timestamp_ms : N;
  fev_kind : FleetEventKindV2;
  fev_state : FleetRunStateV2;
  fev_approval_id : option Uuid;
  fev_code : option str;
}.
#[export] Instance fleet_event_eq_dec : EqDecision FleetEventEnvelopeV2.
Proof. solve_decision. Defined.

(** ** What an approval seals *)

(** The parts of a run and of the policy an approval is about. *)
Definition sealed_by (a : FleetApprovalV2) (run : FleetRunV2) (version : N) (hash : str) : Prop :=
  fa_fleet_run_id a = fr_id run /\ fa_fleet_version a = fr_version run /\
  fa_graph_digest a = fr_graph_digest run /\ fa_targets a = fr_targets run /\
  fa_policy_version a = version /\ fa_policy_hash a = hash.

Lemma fleet_validate_ok a run version hash :
  fleet_validate a run version hash = Ok tt <->
  fa_state a = FaPending /\ fr_recovery_state run = FrLive /\
  fr_state run = FlAwaitingApproval /\ sealed_by a run version hash.
Proof.
  unfold fleet_validate, sealed_by, str_eqb. split.
  - intros H. break_in H; simplify_eq. breflect. done.
  - intros (-> & -> & -> & -> & -> & -> & -> & -> & ->).
    by rewrite !bool_decide_true, !N.eqb_refl by done.
Qed.

(** An approval is bound only to a live run that awaits one, seals exactly its
    identity, version, graph digest, targets and policy, and validates against
    another moment of the program exactly when that moment agrees with all of
    them and the approval is still undecided; deciding or invalidating it
    changes nothing it seals and ends its use. *)
Theorem fleet_approval_exact new_v4 run version hash now a :
  fleet_bind new_v4 run version hash now = Ok a ->
  fr_recovery_state run = FrLive /\ fr_state run = FlAwaitingApproval /\
  sealed_by a run version hash /\ fleet_validate a run version hash = Ok tt /\
  (forall run' version' hash',
     fleet_validate a run' version' hash' = Ok tt <->
     fr_recovery_state run' = FrLive /\ fr_state run' = FlAwaitingApproval /\
     (fr_id run', fr_version run', fr_graph_digest run', fr_targets run', version', hash') =
     (fr_id run, fr_version run, fr_graph_digest run, fr_targets run, version, hash)) /\
  (forall run' version' hash' later code state, state <> FaPending ->
     fleet_validate (fleet_decide a state later) run' version' hash'
       = Err FLEET_APPROVAL_NOT_PENDING /\
     fleet_validate (fleet_invalidate a code later) run' version' hash'
       = Err FLEET_APPROVAL_NOT_PENDING /\
     sealed_by (fleet_decide a state later) run version hash /\
     sealed_by (fleet_invalidate a code later) run version hash).
Proof.
  unfold fleet_bind. destruct (negb _ || _) eqn:E; [done|]. breflect. intros [= <-].
  split_and!; [done..|apply fleet_validate_ok; done| |].
  - intros run' version' hash'. rewrite fleet_validate_ok. unfold sealed_by. cbn. split.
    + by intros (_ & -> & -> & -> & -> & -> & -> & -> & ->).
    + by intros (-> & -> & [= -> -> -> -> -> ->]).
  - intros run' version' hash' later code state Hs. unfold fleet_validate; cbn.
    by rewrite bool_decide_false.
Qed.
