(* ===== verification/FleetCoordinator.v ===== *)
(** * The fleet scheduler (agent/fleet_coordinator.rs)

    The coordinator hands out leases for exact target/session pairs, records
    their outcomes, pauses, continues and cancels.  The code mutates the run
    in place, and some operations fail after a first mutation, so an operation
    here returns its result together with the run it leaves.  [CoordPanic] is
    the index of an empty target list.  The identifiers a claim draws are the
    argument [ids], in order. *)
From S2P Require Import Prelude Str RunState FleetRun FleetControl.

Definition MAX_FLEET_ACTIVE_CHILDREN : N := 10.

Record FleetChildLeaseV2 := {
  fl_fleet_run_id : Uuid;
  fl_fleet_version : N;
  fl_graph_digest : str;
  fl_approval_id : Uuid;
  fl_stage_id : Uuid;
  fl_agent_run_id : Uuid;
  fl_target : FleetTargetBinding;
  fl_attempt : N;
  fl_policy_version : N;
  fl_policy_hash : str;
}.

Inductive FleetChildOutcomeV2 := OutSucceeded | OutFailed | OutCancelled.
#[export] Instance fleet_outcome_eq_dec : EqDecision FleetChildOutcomeV2.
Proof. solve_decision. Defined.

Inductive FleetCoordinatorError := InvalidAuthority | InvalidState | InvalidChild.
#[export] Instance fleet_coordinator_error_eq_dec : EqDecision FleetCoordinatorError.
Proof. solve_decision. Defined.

Inductive coord_stop := CoordError (e : FleetCoordinatorError) | CoordPanic.
#[export] Instance coord_stop_eq_dec : EqDecision coord_stop.
Proof. solve_decision. Defined.

(** ** Updates of a run *)
Definition set_children (l : list FleetChildRun) (r : FleetRunV2) : FleetRunV2 :=
  {| fr_id := fr_id r; fr_version := fr_version r; fr_state := fr_state r;
     fr_production := fr_production r; fr_failure_policy := fr_failure_policy r;
     fr_targets := fr_targets r; fr_stages := fr_stages r; fr_children := l;
     fr_graph_digest := fr_graph_digest r; fr_recovery_state := fr_recovery_state r;
     fr_created_at := fr_created_at r; fr_updated_at := fr_updated_at r |}.

Definition set_stages (l : list FleetStage) (r : FleetRunV2) : FleetRunV2 :=
  {| fr_id := fr_id r; fr_version := fr_version r; fr_state := fr_state r;
     fr_production := fr_production r; fr_failure_policy := fr_failure_policy r;
     fr_targets := fr_targets r; fr_stages := l; fr_children := fr_children r;
     fr_graph_digest := fr_graph_digest r; fr_recovery_state := fr_recovery_state r;
     fr_created_at := fr_created_at r; fr_updated_at := fr_updated_at r |}.

Definition touch (now : N) (r : FleetRunV2) : FleetRunV2 := set_fleet_state (fr_state r) now r.

Definition set_stage_state (st : FleetStageStateV2) (s : FleetStage) : FleetStage :=
  {| fs_id := fs_id s; fs_summary := fs_summary s; fs_target_ids := fs_target_ids s;
     fs_depends_on := fs_depends_on s; fs_strategy := fs_strategy s;
     fs_concurrency_limit := fs_concurrency_limit s; fs_state := st |}.

Definition set_child_state (st : FleetStageStateV2) (c : FleetChildRun) : FleetChildRun :=
  {| fc_stage_id := fc_stage_id c; fc_target_id := fc_target_id c;
     fc_agent_run_id := fc_agent_run_id c; fc_attempt := fc_attempt c; fc_state := st;
     fc_error_code := fc_error_code c |}.

(** ** Helpers *)
Definition validate_authority_for_states (run : FleetRunV2) (approval : FleetApprovalV2)
    (policy_version : N) (policy_hash : str) (allowed_states : list FleetRunStateV2) : bool :=
  negb (negb (bool_decide (fr_recovery_state run = FrLive))
     || negb (bool_decide (fr_state run ∈ allowed_states))
     || negb (bool_decide (fa_state approval = FaGranted))
     || negb (fa_fleet_run_id approval =? fr_id run)%N
     || negb (fa_fleet_version approval =? fr_version run)%N
     || negb (str_eqb (fa_graph_digest approval) (fr_graph_digest run))
     || negb (bool_decide (fa_targets approval = fr_targets run))
     || negb (fa_policy_version approval =? policy_version)%N
     || negb (str_eqb (fa_policy_hash approval) policy_hash)).

Definition validate_authority (run : FleetRunV2) (approval : FleetApprovalV2)
    (policy_version : N) (policy_hash : str) : bool :=
  validate_authority_for_states run approval policy_version policy_hash [FlApproved; FlExecuting].

Definition child_is_active (s : FleetStageStateV2) : bool :=
  match s with StRunning | StAwaitingApproval | StVerifying => true | _ => false end.

Definition child_is_settled (s : FleetStageStateV2) : bool :=
  match s with
  | StSucceeded | StFailed | StCancelled | StRolledBack | StRollbackFailed => true
  | _ => false
  end.

Definition active_children (l : list FleetChildRun) : list FleetChildRun :=
  List.filter (fun c => child_is_active (fc_state c)) l.

Definition active_agent_ids (run : FleetRunV2) : list Uuid :=
  omap fc_agent_run_id (active_children (fr_children run)).

(** The children of one stage, and of one of its targets. *)
Definition of_stage (stage : Uuid) (c : FleetChildRun) : bool := (fc_stage_id c =? stage)%N.
Definition of_pair (stage target : Uuid) (c : FleetChildRun) : bool :=
  (fc_stage_id c =? stage)%N && (fc_target_id c =? target)%N.

(** Every active child becomes [st]. *)
Definition retire_active (st : FleetStageStateV2) (l : list FleetChildRun) : list FleetChildRun :=
  map (fun c => if child_is_active (fc_state c) then set_child_state st c else c) l.

Definition failed_or_blocked (s : FleetStageStateV2) : bool :=
  match s with StFailed | StBlocked => true | _ => false end.

Definition refresh_blocked_stages (run : FleetRunV2) : FleetRunV2 :=
  let failed := hash_set (map fs_id (List.filter (fun s => failed_or_blocked (fs_state s))
                                                 (fr_stages run))) in
  set_stages (map (fun s =>
      if bool_decide (fs_state s = StPending)
         && existsb (fun id => bool_decide (id ∈ failed)) (fs_depends_on s)
      then set_stage_state StBlocked s else s) (fr_stages run)) run.

(** The state [refresh_stage] gives one stage from its children. *)
Definition refreshed (children : list FleetChildRun) (s : FleetStage) : FleetStage :=
  if existsb (fun c => bool_decide (fc_state c = StFailed)) children
  then set_stage_state StFailed s
  else if forallb (fun t => existsb (fun c => (fc_target_id c =? t)%N
                                              && bool_decide (fc_state c = StSucceeded)) children)
                  (fs_target_ids s)
  then set_stage_state StSucceeded s
  else if existsb (fun c => child_is_active (fc_state c)) children
  then set_stage_state StRunning s
  else s.

(** [iter_mut().find(..)]: the first element with the property is replaced. *)
Fixpoint update_first {A} (p : A -> bool) (f : A -> A) (l : list A) : list A :=
  match l with
  | [] => []
  | x :: rest => if p x then f x :: rest else x :: update_first p f rest
  end.

Definition refresh_stage (stage_id : Uuid) (run : FleetRunV2) : FleetRunV2 :=
  let children := List.filter (of_stage stage_id) (fr_children run) in
  set_stages (update_first (fun s => (fs_id s =? stage_id)%N) (refreshed children)
                           (fr_stages run)) run.

Definition failure_target (p : FleetFailurePolicyV2) : option FleetRunStateV2 :=
  match p with
  | FpStop => Some FlFailed
  | FpPauseForReview => Some FlPausedForReview
  | FpRollback => Some FlRollingBack
  | FpContinue => None
  end.

(** [transition_to(..).map_err(|_| InvalidState)]. *)
Definition coord_transition (next : FleetRunStateV2) (now : N) (run : FleetRunV2) :
    result coord_stop unit * FleetRunV2 :=
  match fleet_transition_to next now run with
  | Ok run' => (Ok tt, run')
  | Err _ => (Err (CoordError InvalidState), run)
  end.

Definition apply_failure_policy (now : N) (run : FleetRunV2) :
    result coord_stop unit * FleetRunV2 :=
  if negb (existsb (fun s => bool_decide (fs_state s = StFailed)) (fr_stages run))
  then (Ok tt, run)
  else match failure_target (fr_failure_policy run) with
       | Some next => coord_transition next now run
       | None => (Ok tt, run)
       end.

(** ** [claim_ready] *)
Definition target_map (targets : list FleetTargetBinding) : gmap Uuid FleetTargetBinding :=
  foldl (fun m t => <[ftb_profile_id t := t]> m) ∅ targets.

(** [map(attempt).max().unwrap_or(0).saturating_add(1)]. *)
Definition next_attempt (children : list FleetChildRun) (stage target : Uuid) : N :=
  sat_add32 (foldr N.max 0%N (map fc_attempt (List.filter (of_pair stage target) children))) 1.

(** What a claim has done so far. *)
Record claim_acc := {
  ca_children : list FleetChildRun;
  ca_leases : list FleetChildLeaseV2;
  ca_capacity : N;
}.

(** [stage_active], the room it leaves, [completed.contains(..)] and
    [canary_ready] of a stage at its turn. *)
Definition stage_active (stage : Uuid) (children : list FleetChildRun) : N :=
  list_lenN (active_children (List.filter (of_stage stage) children)).

Definition available_for (s : FleetStage) (children : list FleetChildRun) (capacity : N) : N :=
  let active := stage_active (fs_id s) children in
  if bool_decide (fs_strategy s = FxSequential) && (0 <? active)%N then 0%N
  else N.min capacity (sat_sub (fs_concurrency_limit s) active).

Definition first_done (children : list FleetChildRun) (s : FleetStage) (first : Uuid) : bool :=
  bool_decide (first ∈ map fc_target_id
    (List.filter (fun c => of_stage (fs_id s) c && bool_decide (fc_state c = StSucceeded)) children)).

Definition canary_ready (children : list FleetChildRun) (s : FleetStage) (first : Uuid) : bool :=
  negb (bool_decide (fs_strategy s = FxCanary)) || first_done children s first
  || negb (existsb (of_stage (fs_id s)) children).

Section Claim.
Context (run : FleetRunV2) (approval : FleetApprovalV2) (policy_version : N) (policy_hash : str).
Context (ids : nat -> Uuid).

Definition lease_for (stage : Uuid) (agent_run_id : Uuid) (target : FleetTargetBinding)
    (attempt : N) : FleetChildLeaseV2 :=
  {| fl_fleet_run_id := fr_id run; fl_fleet_version := fr_version run;
     fl_graph_digest := fr_graph_digest run; fl_approval_id := fa_id approval;
     fl_stage_id := stage; fl_agent_run_id := agent_run_id; fl_target := target;
     fl_attempt := attempt; fl_policy_version := policy_version; fl_policy_hash := policy_hash |}.

(** A target of a stage that is settled or active there is skipped. *)
Definition engaged (children : list FleetChildRun) (stage target : Uuid) : bool :=
  existsb (fun c => of_pair stage target c && child_is_settled (fc_state c)) children
  || existsb (fun c => of_pair stage target c && child_is_active (fc_state c)) children.

(** One claim: the child pushed and the lease that names it. *)
Definition push_claim (stage target_id : Uuid) (target : FleetTargetBinding) (acc : claim_acc) :
    claim_acc :=
  let attempt := next_attempt (ca_children acc) stage target_id in
  let agent_run_id := ids (length (ca_leases acc)) in
  {| ca_children := ca_children acc ++
       [{| fc_stage_id := stage; fc_target_id := target_id; fc_agent_run_id := Some agent_run_id;
           fc_attempt := attempt; fc_state := StRunning; fc_error_code := None |}];
     ca_leases := ca_leases acc ++ [lease_for stage agent_run_id target attempt];
     ca_capacity := ca_capacity acc - 1 |}.

(** The targets of one stage.  [first] is its first target, [first_done] whether
    that has succeeded, [ready] is [canary_ready]. *)
Fixpoint claim_targets (stage : Uuid) (canary : bool) (first : Uuid) (first_done ready : bool)
    (l : list Uuid) (available : N) (acc : claim_acc) : result coord_stop unit * claim_acc :=
  match l with
  | [] => (Ok tt, acc)
  | t :: rest =>
      if (available =? 0)%N then (Ok tt, acc)
      else if engaged (ca_children acc) stage t
      then claim_targets stage canary first first_done ready rest available acc
      else if canary && negb (t =? first)%N && negb ready
      then claim_targets stage canary first first_done ready rest available acc
      else match target_map (fr_targets run) !! t with
           | None => (Err (CoordError InvalidChild), acc)
           | Some target =>
               let acc := push_claim stage t target acc in
               if canary && negb first_done then (Ok tt, acc)
               else claim_targets stage canary first first_done ready rest (available - 1) acc
           end
  end%N.

Definition stage_claimable (succeeded : gset Uuid) (s : FleetStage) : bool :=
  match fs_state s with StPending | StRunning => true | _ => false end
  && forallb (fun id => bool_decide (id ∈ succeeded)) (fs_depends_on s).

Definition claim_stage (succeeded : gset Uuid) (s : FleetStage) (acc : claim_acc) :
    result coord_stop unit * FleetStage * claim_acc :=
  if (ca_capacity acc =? 0)%N || negb (stage_claimable succeeded s) then (Ok tt, s, acc) else
  let canary := bool_decide (fs_strategy s = FxCanary) in
  match fs_target_ids s with
  | [] => (if canary then Err CoordPanic else Ok tt, s, acc)
  | first :: _ =>
      let '(r, acc') :=
        claim_targets (fs_id s) canary first (first_done (ca_children acc) s first)
          (canary_ready (ca_children acc) s first) (fs_target_ids s)
          (available_for s (ca_children acc) (ca_capacity acc)) acc in
      (r, if (length (ca_leases acc) <? length (ca_leases acc'))%nat
          then set_stage_state StRunning s else s, acc')
  end.

Fixpoint claim_stages (succeeded : gset Uuid) (l : list FleetStage) (acc : claim_acc) :
    result coord_stop unit * list FleetStage * claim_acc :=
  match l with
  | [] => (Ok tt, [], acc)
  | s :: rest =>
      match claim_stage succeeded s acc with
      | (Err e, s', acc') => (Err e, s' :: rest, acc')
      | (Ok _, s', acc') =>
          let '(r, rest', acc'') := claim_stages succeeded rest acc' in (r, s' :: rest', acc'')
      end
  end.

End Claim.

Definition succeeded_stages (run : FleetRunV2) : gset Uuid :=
  hash_set (map fs_id (List.filter (fun s => bool_decide (fs_state s = StSucceeded))
                                   (fr_stages run))).

(** The run as it enters the loop over its stages. *)
Definition claim_begin (now : N) (run : FleetRunV2) : result coord_stop unit * FleetRunV2 :=
  if bool_decide (fr_state run = FlApproved) then coord_transition FlExecuting now run
  else if negb (bool_decide (fr_state run = FlExecuting)) then (Err (CoordError InvalidState), run)
  else (Ok tt, run).

Definition claim_ready (approval : FleetApprovalV2) (policy_version : N) (policy_hash : str)
    (requested_capacity now : N) (ids : nat -> Uuid) (run : FleetRunV2) :
    result coord_stop (list FleetChildLeaseV2) * FleetRunV2 :=
  if negb (validate_authority run approval policy_version policy_hash)
  then (Err (CoordError InvalidAuthority), run) else
  if (requested_capacity =? 0)%N then (Ok [], run) else
  match claim_begin now run with
  | (Err e, run) => (Err e, run)
  | (Ok _, run) =>
      let run := refresh_blocked_stages run in
      let active := list_lenN (active_children (fr_children run)) in
      let capacity := sat_sub (N.min requested_capacity MAX_FLEET_ACTIVE_CHILDREN) active in
      let '(r, stages, acc) :=
        claim_stages run approval policy_version policy_hash ids (succeeded_stages run)
          (fr_stages run)
          {| ca_children := fr_children run; ca_leases := []; ca_capacity := capacity |} in
      let run := set_children (ca_children acc) (set_stages stages run) in
      match r with
      | Err e => (Err e, run)
      | Ok _ => (Ok (ca_leases acc), touch now run)
      end
  end.

(** ** The other operations *)
Definition outcome_state (o : FleetChildOutcomeV2) : FleetStageStateV2 :=
  match o with
  | OutSucceeded => StSucceeded | OutFailed => StFailed | OutCancelled => StCancelled end.

Definition settle_child (o : FleetChildOutcomeV2) (error_code : option str) (c : FleetChildRun) :
    FleetChildRun :=
  {| fc_stage_id := fc_stage_id c; fc_target_id := fc_target_id c;
     fc_agent_run_id := fc_agent_run_id c; fc_attempt := fc_attempt c;
     fc_state := outcome_state o; fc_error_code := error_code |}.

Definition awaits_outcome (agent_run_id : Uuid) (c : FleetChildRun) : bool :=
  bool_decide (fc_agent_run_id c = Some agent_run_id) && child_is_active (fc_state c).

Definition record_outcome (agent_run_id : Uuid) (outcome : FleetChildOutcomeV2)
    (error_code : option str) (now : N) (run : FleetRunV2) :
    result coord_stop unit * FleetRunV2 :=
  if negb (bool_decide (fr_recovery_state run = FrLive))
     || negb (bool_decide (fr_state run = FlExecuting))
  then (Err (CoordError InvalidState), run) else
  if bad_error_code error_code
     || (bool_decide (outcome = OutSucceeded) && bool_decide (error_code <> None))
  then (Err (CoordError InvalidChild), run) else
  match find (awaits_outcome agent_run_id) (fr_children run) with
  | None => (Err (CoordError InvalidChild), run)
  | Some child =>
      let run := set_children (update_first (awaits_outcome agent_run_id)
                                 (settle_child outcome error_code) (fr_children run)) run in
      let run := refresh_stage (fc_stage_id child) run in
      match apply_failure_policy now run with
      | (Err e, run) => (Err e, run)
      | (Ok _, run) =>
          let run := if bool_decide (fr_state run = FlPausedForReview)
                     then set_children (retire_active StBlocked (fr_children run)) run
                     else run in
          if bool_decide (fr_state run = FlExecuting)
             && forallb (fun s => bool_decide (fs_state s = StSucceeded)) (fr_stages run)
          then match coord_transition FlVerifying now run with
               | (Err e, run) => (Err e, run)
               | (Ok _, run) => (Ok tt, touch now run)
               end
          else (Ok tt, touch now run)
      end
  end.

Definition fleet_pause (now : N) (run : FleetRunV2) :
    result coord_stop (list Uuid) * FleetRunV2 :=
  if negb (bool_decide (fr_recovery_state run = FrLive))
     || negb (bool_decide (fr_state run = FlExecuting))
  then (Err (CoordError InvalidState), run) else
  let active := active_agent_ids run in
  match coord_transition FlPausedForReview now run with
  | (Err e, run) => (Err e, run)
  | (Ok _, run) => (Ok active, set_children (retire_active StBlocked (fr_children run)) run)
  end.

(** A failed or blocked stage with a target left to run is running again. *)
Definition reopened (children : list FleetChildRun) (s : FleetStage) : FleetStage :=
  if failed_or_blocked (fs_state s)
     && existsb (fun t => negb (existsb (fun c => of_pair (fs_id s) t c
                                                  && child_is_settled (fc_state c)) children))
                (fs_target_ids s)
  then set_stage_state StRunning s else s.

Definition continue_after_review (approval : FleetApprovalV2) (policy_version : N)
    (policy_hash : str) (now : N) (run : FleetRunV2) :
    result coord_stop (list Uuid) * FleetRunV2 :=
  if negb (validate_authority_for_states run approval policy_version policy_hash
             [FlPausedForReview])
  then (Err (CoordError InvalidAuthority), run) else
  let paused := omap fc_agent_run_id
    (List.filter (fun c => bool_decide (fc_state c = StBlocked)) (fr_children run)) in
  let run := set_stages (map (reopened (fr_children run)) (fr_stages run)) run in
  match coord_transition FlExecuting now run with
  | (Err e, run) => (Err e, run)
  | (Ok _, run) => (Ok paused, run)
  end.

Definition fleet_cancel (now : N) (run : FleetRunV2) :
    result coord_stop (list Uuid) * FleetRunV2 :=
  if negb (bool_decide (fr_recovery_state run = FrLive)) || fleet_is_terminal (fr_state run)
  then (Err (CoordError InvalidState), run) else
  let active := active_agent_ids run in
  let run := set_children (retire_active StCancelled (fr_children run)) run in
  match coord_transition FlCancelled now run with
  | (Err e, run) => (Err e, run)
  | (Ok _, run) => (Ok active, run)
  end.
