(* ===== verification/FleetInvariant.v ===== *)
(** * What every reachable fleet satisfies

    [sched_ok] is the scheduler's invariant on the stages and children of a
    run; [fleet_exec] applies one operation of the coordinator, or one state
    transition of the service, with whatever it leaves on failure.  The file
    proves that the invariant holds of every run reachable from a draft. *)
From S2P Require Import Prelude Str RunState FleetRun FleetControl FleetCoordinator.

(** ** The invariant *)
Definition plan_of (s : FleetStage) : FleetStage := set_stage_state StPending s.

Definition same_pair (c c' : FleetChildRun) : Prop :=
  fc_stage_id c = fc_stage_id c' /\ fc_target_id c = fc_target_id c'.

(** An earlier child of the same stage and target was paused, and the later
    one is a fresh attempt. *)
Definition earlier_paused (c c' : FleetChildRun) : Prop :=
  same_pair c c' ->
  fc_state c = StBlocked /\ (fc_attempt c < fc_attempt c' \/ U32_MAX <= fc_attempt c')%N.

Definition scheduler_state (s : FleetStageStateV2) : bool :=
  match s with StRunning | StSucceeded | StFailed | StCancelled | StBlocked => true | _ => false end.

Definition total_active (l : list FleetChildRun) : N := list_lenN (active_children l).

Definition succeeded_on (l : list FleetChildRun) (stage target : Uuid) : Prop :=
  exists c, c ∈ l /\ of_pair stage target c = true /\ fc_state c = StSucceeded.

(** Every dependency of the stage has succeeded. *)
Definition released (stages : list FleetStage) (s : FleetStage) : Prop :=
  forall d, d ∈ fs_depends_on s ->
    exists s', s' ∈ stages /\ fs_id s' = d /\ fs_state s' = StSucceeded.

Record child_ok (stages : list FleetStage) (c : FleetChildRun) : Prop := {
  ck_stage : exists s, s ∈ stages /\ fs_id s = fc_stage_id c /\ fc_target_id c ∈ fs_target_ids s /\
                       released stages s;
  ck_state : scheduler_state (fc_state c) = true;
  ck_attempt : (0 < fc_attempt c)%N;
  ck_code : bad_error_code (fc_error_code c) = false;
}.

Record sched_ok (stages : list FleetStage) (l : list FleetChildRun) : Prop := {
  so_child : forall c, c ∈ l -> child_ok stages c;
  so_attempts : forall c, c ∈ l -> (fc_attempt c <= list_lenN l)%N;
  so_pairs : StronglySorted earlier_paused l;
  so_limit : forall s, s ∈ stages -> (stage_active (fs_id s) l <= fs_concurrency_limit s)%N;
  so_total : (total_active l <= MAX_FLEET_ACTIVE_CHILDREN)%N;
  so_done : forall s, s ∈ stages -> fs_state s = StSucceeded ->
              forall t, t ∈ fs_target_ids s -> succeeded_on l (fs_id s) t;
  so_canary : forall s first rest, s ∈ stages -> fs_strategy s = FxCanary ->
                fs_target_ids s = first :: rest ->
                forall c, c ∈ l -> fc_stage_id c = fs_id s -> fc_target_id c <> first ->
                  succeeded_on l (fs_id s) first;
}.

(** ** The operations on a fleet *)
Inductive fleet_op :=
  | OpTransition (next : FleetRunStateV2) (now : N)
  | OpClaim (approval : FleetApprovalV2) (version : N) (hash : str) (capacity now : N)
            (ids : nat -> Uuid)
  | OpOutcome (agent_run_id : Uuid) (outcome : FleetChildOutcomeV2) (code : option str) (now : N)
  | OpPause (now : N)
  | OpContinue (approval : FleetApprovalV2) (version : N) (hash : str) (now : N)
  | OpCancel (now : N).

Definition fleet_exec (o : fleet_op) (r : FleetRunV2) : FleetRunV2 :=
  match o with
  | OpTransition next now => match fleet_transition_to next now r with Ok r' => r' | Err _ => r end
  | OpClaim a v h cap now ids => (claim_ready a v h cap now ids r).2
  | OpOutcome id out code now => (record_outcome id out code now r).2
  | OpPause now => (fleet_pause now r).2
  | OpContinue a v h now => (continue_after_review a v h now r).2
  | OpCancel now => (fleet_cancel now r).2
  end.

Definition fleet_exec_all (os : list fleet_op) (r : FleetRunV2) : FleetRunV2 :=
  foldl (fun r o => fleet_exec o r) r os.

(** ** Stages that differ only in their state *)

Definition stage_like (s s' : FleetStage) : Prop :=
  plan_of s = plan_of s' /\ (fs_state s = StSucceeded <-> fs_state s' = StSucceeded).

Lemma plan_of_set st s : plan_of (set_stage_state st s) = plan_of s.
Proof. by destruct s. Qed.

Lemma plan_of_fields s s' : plan_of s = plan_of s' ->
  fs_id s = fs_id s' /\ fs_target_ids s = fs_target_ids s' /\ fs_depends_on s = fs_depends_on s' /\
  fs_strategy s = fs_strategy s' /\ fs_concurrency_limit s = fs_concurrency_limit s'.
Proof. destruct s, s'. by intros [= -> -> -> -> -> ->]. Qed.

Lemma stage_like_refl s : stage_like s s.
Proof. by split. Qed.

(** What the children of a fleet allow a stage to become. *)
Definition stage_advances (l : list FleetChildRun) (s s' : FleetStage) : Prop :=
  plan_of s = plan_of s' /\ (fs_state s = StSucceeded -> fs_state s' = StSucceeded) /\
  (fs_state s' = StSucceeded -> forall t, t ∈ fs_target_ids s' -> succeeded_on l (fs_id s') t).

Lemma Forall2_elem {A B} (R : A -> B -> Prop) l l' : Forall2 R l l' ->
  (forall x, x ∈ l -> exists y, y ∈ l' /\ R x y) /\
  (forall y, y ∈ l' -> exists x, x ∈ l /\ R x y).
Proof.
  intros H. split; intros x Hx; apply list_elem_of_lookup in Hx as (i & Hi).
  - destruct (Forall2_lookup_l _ _ _ _ _ H Hi) as (y & Hy & ?). exists y.
    split; [by eapply list_elem_of_lookup_2|done].
  - destruct (Forall2_lookup_r _ _ _ _ _ H Hi) as (y & Hy & ?). exists y.
    split; [by eapply list_elem_of_lookup_2|done].
Qed.

Lemma sched_ok_advance stages stages' l :
  Forall2 (stage_advances l) stages stages' -> sched_ok stages l -> sched_ok stages' l.
Proof.
  intros Hl [H1 H2 H3 H4 H5 H6 H7]. pose proof (Forall2_elem _ _ _ Hl) as [Hto Hfrom].
  split; [|done|done| |done| |].
  - intros c Hc. destruct (H1 c Hc) as [(s & Hs & E & Ht & Hr) ? ? ?]. split; [|done..].
    destruct (Hto s Hs) as (s' & Hs' & Hp & _). exists s'. split; [done|].
    pose proof (plan_of_fields s s' Hp) as (<- & <- & Ed & _). split_and!; [done..|].
    intros d Hd. rewrite <- Ed in Hd. destruct (Hr d Hd) as (x & Hx & <- & Hxs).
    destruct (Hto x Hx) as (x' & Hx' & Hp' & Hxs' & _). exists x'. split; [done|].
    apply plan_of_fields in Hp' as (<- & _). split; [done|by apply Hxs'].
  - intros s' Hs'. destruct (Hfrom s' Hs') as (s & Hs & Hp & _).
    apply plan_of_fields in Hp as (<- & _ & _ & _ & <-). by apply H4.
  - intros s' Hs' Hst. destruct (Hfrom s' Hs') as (s & Hs & _ & _ & Hd). by apply Hd.
  - intros s' first rest Hs' Hst Ht. destruct (Hfrom s' Hs') as (s & Hs & Hp & _).
    apply plan_of_fields in Hp as (<- & Et & _ & Es & _). by eapply H7; [|rewrite Es|rewrite Et].
Qed.

Lemma sched_ok_like stages stages' l :
  Forall2 stage_like stages stages' -> sched_ok stages l -> sched_ok stages' l.
Proof.
  intros Hl Hok. apply (sched_ok_advance stages); [|done]. pose proof (so_done _ _ Hok) as Hd.
  clear Hok. induction Hl as [|s s' k k' [Hp Hi] _ IH]; constructor.
  - split_and!; [done|by apply Hi|]. intros Hs. pose proof (plan_of_fields _ _ Hp) as (<- & <- & _).
    apply Hd; [by left|by apply Hi].
  - apply IH. intros x Hx. apply Hd. by right.
Qed.

(** ** Counting active children *)

Lemma active_app a b : active_children (a ++ b) = active_children a ++ active_children b.
Proof. apply List.filter_app. Qed.

Lemma total_active_app a b : total_active (a ++ b) = (total_active a + total_active b)%N.
Proof. unfold total_active, list_lenN. rewrite active_app, length_app. lia. Qed.

Lemma stage_active_app s a b : stage_active s (a ++ b) = (stage_active s a + stage_active s b)%N.
Proof.
  unfold stage_active, list_lenN. rewrite List.filter_app, active_app, length_app. lia.
Qed.

Lemma of_pair_true s t c : of_pair s t c = true <-> fc_stage_id c = s /\ fc_target_id c = t.
Proof. unfold of_pair. by rewrite andb_true_iff, !N.eqb_eq. Qed.

Lemma succeeded_on_app_l a b s t : succeeded_on a s t -> succeeded_on (a ++ b) s t.
Proof. intros (c & ? & ?). exists c. split; [|done]. apply elem_of_app. by left. Qed.

(** What a target that is not engaged has behind it: paused attempts only. *)
Lemma not_engaged l s t : engaged l s t = false ->
  forall c, c ∈ l -> scheduler_state (fc_state c) = true -> of_pair s t c = true ->
    fc_state c = StBlocked.
Proof.
  unfold engaged. rewrite orb_false_iff, !Existsb_false. intros [H1 H2] c Hc Hs Hp.
  specialize (H1 c Hc). specialize (H2 c Hc). rewrite Hp in *. cbn in *.
  by destruct (fc_state c).
Qed.

Lemma next_attempt_bounds l s t :
  (0 < next_attempt l s t)%N /\
  (forall c, c ∈ l -> of_pair s t c = true ->
     (fc_attempt c < next_attempt l s t \/ U32_MAX <= next_attempt l s t)%N) /\
  ((forall c, c ∈ l -> (fc_attempt c <= list_lenN l)%N) ->
   (next_attempt l s t <= list_lenN l + 1)%N).
Proof.
  unfold next_attempt. set (m := foldr N.max 0%N _).
  assert (forall c, c ∈ l -> of_pair s t c = true -> (fc_attempt c <= m)%N) as Hm.
  { intros c Hc Hp. subst m. assert (c ∈ List.filter (of_pair s t) l) as H by by apply elem_of_filterb.
    clear Hc. induction (List.filter _ l) as [|x k IH]; [by apply not_elem_of_nil in H|].
    cbn. apply elem_of_cons in H as [->|H]; [lia|]. specialize (IH H). lia. }
  assert ((forall c, c ∈ l -> (fc_attempt c <= list_lenN l)%N) -> (m <= list_lenN l)%N) as Hb.
  { intros H. subst m. assert (forall c, c ∈ List.filter (of_pair s t) l ->
      (fc_attempt c <= list_lenN l)%N) as H' by (intros c [? _]%elem_of_filterb; by apply H).
    clear H Hm. induction (List.filter _ l) as [|x k IH]; cbn; [lia|].
    pose proof (H' x ltac:(by left)). specialize (IH ltac:(intros; apply H'; by right)). lia. }
  unfold sat_add32, sat_add, U32_MAX. split; [|split].
  - lia.
  - intros c Hc Hp. specialize (Hm c Hc Hp). lia.
  - intros H. specialize (Hb H). lia.
Qed.

Lemma StronglySorted_snoc {A} (R : A -> A -> Prop) l x :
  StronglySorted R l -> (forall y, y ∈ l -> R y x) -> StronglySorted R (l ++ [x]).
Proof.
  induction 1 as [|a l Hl IH Ha]; intros Hx; cbn; [by repeat constructor|]. constructor.
  - apply IH. intros y Hy. apply Hx. by right.
  - apply Forall_app. split; [done|]. constructor; [|done]. apply Hx. by left.
Qed.

(** ** Pushing one claim *)

(** A claim of target [t] of stage [s] keeps the invariant when the target is
    not engaged, the stage is released and below its limit, the fleet is below
    its own, and a canary claim is the first target or comes after it. *)
Lemma push_sched_ok stages l s t id :
  s ∈ stages -> NoDup (map fs_id stages) -> t ∈ fs_target_ids s -> released stages s ->
  engaged l (fs_id s) t = false ->
  (stage_active (fs_id s) l < fs_concurrency_limit s)%N ->
  (total_active l < MAX_FLEET_ACTIVE_CHILDREN)%N ->
  (fs_strategy s = FxCanary -> forall first rest, fs_target_ids s = first :: rest ->
     t = first \/ succeeded_on l (fs_id s) first) ->
  sched_ok stages l ->
  sched_ok stages (l ++ [{| fc_stage_id := fs_id s; fc_target_id := t; fc_agent_run_id := Some id;
    fc_attempt := next_attempt l (fs_id s) t; fc_state := StRunning; fc_error_code := None |}]).
Proof.
  intros Hs Hids Ht Hrel Heng Hlim Htot Hcan [H1 H2 H3 H4 H5 H6 H7].
  destruct (next_attempt_bounds l (fs_id s) t) as (Hpos & Hlt & Hle). specialize (Hle H2).
  set (c := {| fc_stage_id := fs_id s |}).
  assert (list_lenN (l ++ [c]) = list_lenN l + 1)%N as El.
  { unfold list_lenN. rewrite length_app. cbn. lia. }
  split.
  - intros c' [Hc|Hc%list_elem_of_singleton]%elem_of_app; [by apply H1|]. subst c'.
    split; [by exists s|done..].
  - rewrite El. intros c' [Hc|Hc%list_elem_of_singleton]%elem_of_app; [|by subst c'].
    specialize (H2 c' Hc). lia.
  - apply StronglySorted_snoc; [done|]. intros c' Hc' [E1 E2]. cbn in E1, E2.
    assert (of_pair (fs_id s) t c' = true) as Hp by by apply of_pair_true.
    split; [|by apply Hlt]. eapply not_engaged; [done..| |done]. apply (ck_state _ _ (H1 c' Hc')).
  - intros s' Hs'. rewrite stage_active_app. specialize (H4 s' Hs').
    destruct (decide (fs_id s' = fs_id s)) as [E|E].
    + rewrite (stage_by_id stages Hids s' s) by done.
      unfold stage_active at 2, list_lenN, of_stage. cbn. rewrite N.eqb_refl. cbn. lia.
    + unfold stage_active at 2, list_lenN, of_stage. cbn.
      rewrite (proj2 (N.eqb_neq _ _)) by done. cbn. lia.
  - rewrite total_active_app. unfold total_active at 2, list_lenN. cbn. lia.
  - intros s' Hs' Hst t' Ht'. by apply succeeded_on_app_l, H6.
  - intros s' first rest Hs' Hst Hf c' [Hc|Hc%list_elem_of_singleton]%elem_of_app E Hne;
      apply succeeded_on_app_l; [by eapply H7|]. subst c'. cbn in E, Hne.
    assert (s = s') as <- by by apply (stage_by_id stages Hids).
    destruct (Hcan Hst first rest Hf) as [->|]; done.
Qed.

Lemma first_done_spec l s first : first_done l s first = true <-> succeeded_on l (fs_id s) first.
Proof.
  unfold first_done, succeeded_on. rewrite bool_decide_eq_true, list_elem_of_fmap. split.
  - intros (c & -> & [Hc [Ho Hs]%andb_true_iff]%elem_of_filterb). breflect. exists c.
    split_and!; [done| |done]. apply of_pair_true. split; [by apply N.eqb_eq|done].
  - intros (c & Hc & [Ho <-]%of_pair_true & Hs). exists c. split; [done|].
    apply elem_of_filterb. unfold of_stage. by rewrite Ho, N.eqb_refl, bool_decide_true.
Qed.

(** A stage without children has no engaged target. *)
Lemma canary_ready_fresh l s first : fs_strategy s = FxCanary ->
  negb (bool_decide (fs_strategy s = FxCanary)) || false || negb (existsb (of_stage (fs_id s)) l)
    = true ->
  engaged l (fs_id s) first = false.
Proof.
  intros Hc. rewrite bool_decide_true by done. cbn. rewrite negb_true_iff, Existsb_false. intros H.
  unfold engaged. rewrite orb_false_iff, !Existsb_false.
  assert (forall c, c ∈ l -> of_pair (fs_id s) first c = false) as Hno.
  { intros c Hc'. specialize (H c Hc'). unfold of_stage in H. unfold of_pair. by rewrite H. }
  split; intros c Hc'; by rewrite (Hno c Hc').
Qed.

Lemma target_map_lookup targets t b : target_map targets !! t = Some b ->
  b ∈ targets /\ ftb_profile_id b = t.
Proof.
  unfold target_map. assert (forall l (m : gmap Uuid FleetTargetBinding),
    (forall t b, m !! t = Some b -> b ∈ targets /\ ftb_profile_id b = t) -> l ⊆ targets ->
    foldl (fun m t => <[ftb_profile_id t := t]> m) m l !! t = Some b ->
    b ∈ targets /\ ftb_profile_id b = t) as G.
  { induction l as [|x l IH]; intros m H Hl; cbn [foldl]; [by apply H|].
    apply IH; [|intros y Hy; apply Hl; by right]. intros t' b' Hb.
    destruct (decide (ftb_profile_id x = t')) as [<-|E].
    - rewrite lookup_insert_eq in Hb. injection Hb as <-. split; [|done]. apply Hl. by left.
    - rewrite lookup_insert_ne in Hb by done. by apply H. }
  apply G; [|done]. intros t' b' Hb. by rewrite lookup_empty in Hb.
Qed.

(** ** The claim loops *)
Section Claims.
Context (run : FleetRunV2) (approval : FleetApprovalV2) (version : N) (hash : str).
Context (ids : nat -> Uuid) (stages : list FleetStage).
Hypothesis Hids : NoDup (map fs_id stages).
Hypothesis Htargets : forall s t, s ∈ stages -> t ∈ fs_target_ids s ->
  is_Some (target_map (fr_targets run) !! t).

(** A sequence of claims of targets of stage [s], each of a target that is not
    engaged and, for a canary whose first target has not succeeded, of that
    target only; at most [n] of them. *)
Inductive pushes (s : FleetStage) (first_done : bool) : N -> claim_acc -> claim_acc -> Prop :=
  | pushes_nil n acc : pushes s first_done n acc acc
  | pushes_cons n acc t target acc' :
      (0 < n)%N -> t ∈ fs_target_ids s -> engaged (ca_children acc) (fs_id s) t = false ->
      target_map (fr_targets run) !! t = Some target ->
      (fs_strategy s = FxCanary -> first_done = true \/ head (fs_target_ids s) = Some t) ->
      pushes s first_done (n - 1) (push_claim run approval version hash ids (fs_id s) t target acc)
             acc' ->
      pushes s first_done n acc acc'.

Context (bound : N).
Hypothesis Hbound : (bound <= MAX_FLEET_ACTIVE_CHILDREN)%N.

Definition acc_ok (acc : claim_acc) : Prop :=
  sched_ok stages (ca_children acc) /\
  (total_active (ca_children acc) + ca_capacity acc <= bound)%N.

Lemma push_active s t target acc :
  total_active (ca_children (push_claim run approval version hash ids s t target acc))
    = (total_active (ca_children acc) + 1)%N /\
  stage_active s (ca_children (push_claim run approval version hash ids s t target acc))
    = (stage_active s (ca_children acc) + 1)%N.
Proof.
  cbn. rewrite total_active_app, stage_active_app. unfold total_active at 2, stage_active at 2.
  unfold of_stage, list_lenN. cbn. by rewrite N.eqb_refl.
Qed.

Lemma pushes_ok s fd n acc acc' : pushes s fd n acc acc' ->
  s ∈ stages -> released stages s -> acc_ok acc -> (n <= ca_capacity acc)%N ->
  (stage_active (fs_id s) (ca_children acc) + n <= fs_concurrency_limit s)%N ->
  (fd = true -> forall first rest, fs_target_ids s = first :: rest ->
     succeeded_on (ca_children acc) (fs_id s) first) ->
  acc_ok acc'.
Proof.
  induction 1 as [|n acc t target acc' Hn Ht He Htm Hc Hp IH]; intros Hs Hr [Hok Hcap] Hle Hlim Hfd;
    [done|].
  destruct (push_active (fs_id s) t target acc) as [Et Es].
  apply IH; [done|done| | | |].
  - split; [|rewrite Et; cbn; lia]. apply push_sched_ok; try done; [lia|lia|].
    intros Hst first rest Hf. destruct (Hc Hst) as [->|E]; [right; by eapply Hfd|].
    left. rewrite Hf in E. cbn in E. by injection E.
  - cbn. lia.
  - rewrite Es. lia.
  - intros Hd first rest Hf. apply succeeded_on_app_l. by eapply Hfd.
Qed.

(** A lease is for a new running child, on an exact target of the run, under the
    authority the claim was made with. *)
Definition lease_of (c : FleetChildRun) (l : FleetChildLeaseV2) : Prop :=
  fc_state c = StRunning /\ fc_agent_run_id c = Some (fl_agent_run_id l) /\
  fl_target l ∈ fr_targets run /\ fc_target_id c = ftb_profile_id (fl_target l) /\
  l = lease_for run approval version hash (fc_stage_id c) (fl_agent_run_id l) (fl_target l)
        (fc_attempt c).

(** What claims add: running children with a lease each. *)
Definition grows (acc acc' : claim_acc) : Prop :=
  exists new leases, ca_children acc' = ca_children acc ++ new /\
    ca_leases acc' = ca_leases acc ++ leases /\ Forall2 lease_of new leases.

Lemma grows_refl acc : grows acc acc.
Proof. exists [], []. rewrite !app_nil_r. split_and!; [done..|constructor]. Qed.

Lemma grows_trans a b c : grows a b -> grows b c -> grows a c.
Proof.
  intros (n1 & l1 & E1 & F1 & R1) (n2 & l2 & E2 & F2 & R2).
  exists (n1 ++ n2), (l1 ++ l2). rewrite E2, E1, F2, F1, !(assoc_L (++)).
  split_and!; [done|done|by apply Forall2_app].
Qed.

Lemma pushes_grow s fd n acc acc' : pushes s fd n acc acc' -> grows acc acc'.
Proof.
  induction 1 as [n acc|n acc t target acc' _ _ _ Ht _ _ IH]; [apply grows_refl|].
  apply target_map_lookup in Ht as [Ht Et].
  eapply grows_trans; [|exact IH]. eexists [_], [_]. cbn.
  split_and!; [done..|]. constructor; [|constructor]. by split_and!.
Qed.

Lemma pushes_strict s fd n acc acc' : pushes s fd n acc acc' ->
  acc' = acc \/ (length (ca_leases acc) < length (ca_leases acc'))%nat.
Proof.
  destruct 1 as [n acc|n acc t target acc' _ _ _ _ _ Hp]; [by left|right].
  apply pushes_grow in Hp as (new & leases & _ & E & _). rewrite E. cbn.
  rewrite !length_app. cbn. lia.
Qed.

Lemma claim_targets_pushes s first fd ready l n acc :
  s ∈ stages -> l ⊆ fs_target_ids s -> head (fs_target_ids s) = Some first ->
  (fs_strategy s = FxCanary -> fd = false -> ready = true ->
     head l = Some first /\ engaged (ca_children acc) (fs_id s) first = false) ->
  exists acc', claim_targets run approval version hash ids (fs_id s)
      (bool_decide (fs_strategy s = FxCanary)) first fd ready l n acc = (Ok tt, acc') /\
    pushes s fd n acc acc'.
Proof.
  intros Hs. revert n acc. induction l as [|t l IH]; intros n acc Hl Hf Hrdy; cbn [claim_targets].
  { exists acc. split; [done|constructor]. }
  assert (t ∈ fs_target_ids s) as Ht by (apply Hl; by left).
  assert (l ⊆ fs_target_ids s) as Hl' by (intros x Hx; apply Hl; by right).
  destruct (N.eqb_spec n 0) as [->|Hn]; [exists acc; split; [done|constructor]|].
  destruct (engaged _ _ t) eqn:He.
  { apply IH; [done|done|]. intros H1 H2 H3. destruct (Hrdy H1 H2 H3) as [Hh Hn']. cbn in Hh.
    injection Hh as ->. congruence. }
  destruct (bool_decide (fs_strategy s = FxCanary) && negb (t =? first)%N && negb ready) eqn:Ec.
  { apply IH; [done|done|]. intros H1 H2 H3. subst ready. by rewrite andb_false_r in Ec. }
  destruct (Htargets s t Hs Ht) as (target & Htm). rewrite Htm.
  assert (fs_strategy s = FxCanary -> fd = true \/ head (fs_target_ids s) = Some t) as Hok.
  { intros Hc. destruct fd; [by left|]. right. rewrite Hf. f_equal. rewrite bool_decide_true in Ec by done.
    destruct ready.
    - destruct (Hrdy Hc eq_refl eq_refl) as [Hh _]. cbn in Hh. congruence.
    - destruct (N.eqb_spec t first) as [->|]; done. }
  destruct (bool_decide (fs_strategy s = FxCanary) && negb fd) eqn:Eb.
  - eexists. split; [done|]. eapply pushes_cons; [lia|done..|constructor].
  - destruct (IH (n - 1)%N (push_claim run approval version hash ids (fs_id s) t target acc) Hl' Hf)
      as (acc' & E & Hp).
    { intros H1 H2. rewrite bool_decide_true, H2 in Eb by done. done. }
    exists acc'. split; [exact E|]. eapply pushes_cons; [lia|done..].
Qed.

(** With room left and a target that may start, something is claimed. *)
Lemma claim_targets_progress s first fd ready l n acc t :
  s ∈ stages -> l ⊆ fs_target_ids s -> (0 < n)%N -> t ∈ l ->
  engaged (ca_children acc) (fs_id s) t = false ->
  (bool_decide (fs_strategy s = FxCanary) && negb (t =? first)%N && negb ready) = false ->
  (length (ca_leases acc) < length (ca_leases (claim_targets run approval version hash ids (fs_id s)
      (bool_decide (fs_strategy s = FxCanary)) first fd ready l n acc).2))%nat.
Proof.
  intros Hs. revert acc. induction l as [|x l IH]; intros acc Hl Hn Ht He Hc;
    [by apply not_elem_of_nil in Ht|]. cbn [claim_targets].
  rewrite (proj2 (N.eqb_neq n 0)) by lia.
  assert (l ⊆ fs_target_ids s) as Hl' by (intros y Hy; apply Hl; by right).
  destruct (engaged _ _ x) eqn:Ex.
  { apply IH; [done|done| |done|done]. apply elem_of_cons in Ht as [->|]; [congruence|done]. }
  destruct (_ && negb (x =? first)%N && _) eqn:Ec.
  { apply IH; [done|done| |done|done]. apply elem_of_cons in Ht as [->|]; [congruence|done]. }
  destruct (Htargets s x Hs) as (target & ->); [apply Hl; by left|].
  assert (forall b f1 f2 f3 l n acc, (length (ca_leases acc) <=
    length (ca_leases (claim_targets run approval version hash ids (fs_id s) b f1 f2 f3 l n acc).2))%nat)
    as Hmono.
  { clear. intros b f1 f2 f3 l. induction l as [|y l IH]; intros n acc; cbn [claim_targets]; [done|].
    repeat case_match; cbn [snd]; try lia; try apply IH.
    - cbn. rewrite length_app. cbn. lia.
    - etrans; [|apply IH]. cbn. rewrite length_app. cbn. lia. }
  destruct (_ && negb fd); [cbn; rewrite length_app; cbn; lia|].
  eapply Nat.lt_le_trans; [|apply Hmono]. cbn. rewrite length_app. cbn. lia.
Qed.

(** ** One stage, and all of them *)

Hypothesis Hne : forall s, s ∈ stages -> fs_target_ids s <> [].
Context (succeeded : gset Uuid).
Hypothesis Hsucc : forall id, id ∈ succeeded <->
  exists s, s ∈ stages /\ fs_id s = id /\ fs_state s = StSucceeded.

Lemma stage_claimable_released s : s ∈ stages -> stage_claimable succeeded s = true ->
  released stages s /\ (fs_state s = StPending \/ fs_state s = StRunning).
Proof.
  unfold stage_claimable. intros Hs [H1 H2]%andb_true_iff. split.
  - intros d Hd. rewrite Forallb_forall in H2. specialize (H2 d Hd). breflect. by apply Hsucc.
  - destruct (fs_state s); auto; done.
Qed.

Lemma claim_stage_ok s acc : s ∈ stages -> acc_ok acc ->
  exists s' acc', claim_stage run approval version hash ids succeeded s acc = (Ok tt, s', acc') /\
    acc_ok acc' /\ grows acc acc' /\ stage_like s s' /\
    (s' = s \/ (s' = set_stage_state StRunning s /\ stage_claimable succeeded s = true)) /\
    (acc' = acc \/ (length (ca_leases acc) < length (ca_leases acc'))%nat).
Proof.
  intros Hs Hok. unfold claim_stage. destruct ((ca_capacity acc =? 0)%N || _) eqn:E.
  { exists s, acc. split_and!; [done..|apply grows_refl|apply stage_like_refl|by left|by left]. }
  apply orb_false_iff in E as [Ecap Hcl%negb_false_iff].
  destruct (stage_claimable_released s Hs Hcl) as [Hrel Hst].
  destruct (fs_target_ids s) as [|first rest] eqn:Et; [by destruct (Hne s Hs)|].
  rewrite <- Et. set (fd := first_done _ s first). set (n := available_for s _ _).
  destruct (claim_targets_pushes s first fd (canary_ready (ca_children acc) s first)
    (fs_target_ids s) n acc) as (acc' & -> & Hp); [done|done|by rewrite Et| |].
  { intros Hc Hfd Hrdy. rewrite Et. split; [done|].
    apply canary_ready_fresh; [done|]. unfold canary_ready in Hrdy. fold fd in Hrdy.
    by rewrite Hfd in Hrdy. }
  eexists _, acc'. split; [done|]. destruct Hok as [Hok Hcap].
  pose proof (so_limit _ _ Hok s Hs) as Hlim. split_and!.
  - eapply pushes_ok; [exact Hp|done|done|by split| | |].
    + subst n. unfold available_for. destruct (_ && _); lia.
    + subst n. unfold available_for, sat_sub. destruct (_ && _); lia.
    + intros Hd f r' Hf. rewrite Et in Hf. injection Hf as <- <-. by apply first_done_spec.
  - by eapply pushes_grow.
  - destruct (_ <? _)%nat; [|apply stage_like_refl]. split; [by rewrite plan_of_set|].
    cbn. destruct Hst as [-> | ->]; done.
  - destruct (_ <? _)%nat; auto.
  - by eapply pushes_strict.
Qed.

Lemma claim_stages_ok l acc : l ⊆ stages -> acc_ok acc ->
  exists l' acc', claim_stages run approval version hash ids succeeded l acc = (Ok tt, l', acc') /\
    acc_ok acc' /\ grows acc acc' /\ Forall2 stage_like l l' /\
    Forall2 (fun s s' => s' = s \/ (s' = set_stage_state StRunning s /\
                                     stage_claimable succeeded s = true)) l l'.
Proof.
  revert acc. induction l as [|s l IH]; intros acc Hl Hok; cbn [claim_stages].
  { exists [], acc. split_and!; [done..|apply grows_refl|constructor|constructor]. }
  destruct (claim_stage_ok s acc) as (s' & acc1 & -> & Hok1 & Hg1 & Hs1 & Hs2 & _);
    [apply Hl; by left|done|].
  destruct (IH acc1) as (l' & acc2 & -> & Hok2 & Hg2 & Hl2 & Hl3); [|done|].
  { intros x Hx. apply Hl. by right. }
  exists (s' :: l'), acc2. split_and!; [done|done| |by constructor|by constructor].
  by eapply grows_trans.
Qed.

(** A stage at its turn with nothing active, room and a target to run. *)
Definition startable (s : FleetStage) (acc : claim_acc) : Prop :=
  (0 < ca_capacity acc)%N /\ stage_claimable succeeded s = true /\
  (0 < fs_concurrency_limit s)%N /\ stage_active (fs_id s) (ca_children acc) = 0%N /\
  exists t, t ∈ fs_target_ids s /\ engaged (ca_children acc) (fs_id s) t = false /\
    (head (fs_target_ids s) = Some t \/
     forall first, head (fs_target_ids s) = Some first ->
       succeeded_on (ca_children acc) (fs_id s) first).

Lemma claim_stage_progress s acc : s ∈ stages -> startable s acc ->
  (length (ca_leases acc) <
   length (ca_leases (claim_stage run approval version hash ids succeeded s acc).2))%nat.
Proof.
  intros Hs (Hcap & Hcl & Hlim & Hact & t & Ht & He & Hc). unfold claim_stage.
  rewrite (proj2 (N.eqb_neq _ _)), Hcl by lia. cbn [orb negb].
  destruct (fs_target_ids s) as [|first rest] eqn:Et; [by apply not_elem_of_nil in Ht|].
  rewrite <- Et.
  pose proof (claim_targets_progress s first (first_done (ca_children acc) s first)
    (canary_ready (ca_children acc) s first) (fs_target_ids s)
    (available_for s (ca_children acc) (ca_capacity acc)) acc t) as G.
  destruct (claim_targets _ _ _ _ _ _ _ _ _ _ _ _ _) as [r acc'] in G |- *. cbn [snd] in *.
  apply G; [done|done| |by rewrite Et|done|].
  - unfold available_for, sat_sub. rewrite Hact. cbn. rewrite andb_false_r. lia.
  - cbn in Hc. destruct Hc as [[= ->]|Hc].
    + rewrite N.eqb_refl. cbn. by rewrite andb_false_r.
    + unfold canary_ready. rewrite (proj2 (first_done_spec _ _ _)) by by apply Hc.
      by rewrite orb_true_r, andb_false_r.
Qed.

Lemma claim_stages_progress l s acc : l ⊆ stages -> s ∈ l -> acc_ok acc -> startable s acc ->
  (length (ca_leases acc) <
   length (ca_leases (claim_stages run approval version hash ids succeeded l acc).2))%nat.
Proof.
  revert acc. induction l as [|x l IH]; intros acc Hl Hs Hok Hst; [by apply not_elem_of_nil in Hs|].
  cbn [claim_stages]. destruct (claim_stage_ok x acc) as (x' & acc1 & E & Hok1 & _ & _ & _ & Hd);
    [apply Hl; by left|done|]. rewrite E.
  assert (l ⊆ stages) as Hl' by (intros y Hy; apply Hl; by right).
  destruct (claim_stages_ok l acc1 Hl' Hok1) as (l' & acc2 & E2 & _ & Hg & _).
  destruct Hg as (new & leases & _ & Eg & _).
  assert (length (ca_leases acc) < length (ca_leases acc1) \/ (acc1 = acc /\ s ∈ l))%nat as [Hlt|[-> Hin]].
  { destruct Hd as [->|Hd]; [|by left]. apply elem_of_cons in Hs as [->|Hs]; [|by right].
    exfalso. pose proof (claim_stage_progress x acc ltac:(apply Hl; by left) Hst) as G.
    rewrite E in G. cbn in G. lia. }
  - rewrite E2. cbn. rewrite Eg, length_app. lia.
  - specialize (IH acc Hl' Hin Hok Hst). by destruct (claim_stages _ _ _ _ _ _ l acc) as [[? ?] ?].
Qed.

End Claims.

(** ** Settling and retiring children *)

Lemma update_first_split {A} (p : A -> bool) f l x : find p l = Some x ->
  exists a b, l = a ++ x :: b /\ update_first p f l = a ++ f x :: b /\ p x = true.
Proof.
  induction l as [|y l IH]; cbn; [done|]. destruct (p y) eqn:E.
  - intros [= ->]. by exists [], l.
  - intros H. destruct (IH H) as (a & b & -> & -> & Hx). by exists (y :: a), b.
Qed.

Lemma stage_active_cons s c l :
  stage_active s (c :: l) = ((if of_stage s c && child_is_active (fc_state c) then 1 else 0)
                             + stage_active s l)%N.
Proof.
  change (c :: l) with ([c] ++ l). rewrite stage_active_app. f_equal.
  unfold stage_active, list_lenN. cbn. destruct (of_stage s c); cbn; [|done].
  by destruct (child_is_active _).
Qed.

Lemma total_active_cons c l :
  total_active (c :: l) = ((if child_is_active (fc_state c) then 1 else 0) + total_active l)%N.
Proof.
  change (c :: l) with ([c] ++ l). rewrite total_active_app. f_equal.
  unfold total_active, list_lenN. cbn. by destruct (child_is_active _).
Qed.

Lemma StronglySorted_map {A B} (R : A -> A -> Prop) (S : B -> B -> Prop) (f : A -> B) l :
  (forall x y, R x y -> S (f x) (f y)) -> StronglySorted R l -> StronglySorted S (map f l).
Proof.
  intros H. induction 1 as [|x l _ IH Hx]; cbn; constructor; [done|].
  apply Forall_map. eapply Forall_impl; [exact Hx|]. intros y Hy. by apply H.
Qed.

(** Ending the activity of children: each child keeps who it ran for, the idle
    ones keep their state, the active ones may be settled or paused. *)
Definition ends_activity (c c' : FleetChildRun) : Prop :=
  fc_stage_id c' = fc_stage_id c /\ fc_target_id c' = fc_target_id c /\
  fc_attempt c' = fc_attempt c /\ (child_is_active (fc_state c) = false -> c' = c) /\
  (scheduler_state (fc_state c) = true -> scheduler_state (fc_state c') = true) /\
  (bad_error_code (fc_error_code c) = false -> bad_error_code (fc_error_code c') = false).

Lemma ends_activity_refl c : ends_activity c c.
Proof. done. Qed.

Lemma ends_activity_counts l l' : Forall2 ends_activity l l' ->
  (total_active l' <= total_active l)%N /\
  forall s, (stage_active s l' <= stage_active s l)%N.
Proof.
  induction 1 as [|c c' l l' (E1 & E2 & E3 & E4 & _) _ [IH1 IH2]]; [done|].
  assert (child_is_active (fc_state c') = true -> child_is_active (fc_state c) = true) as Ha.
  { destruct (child_is_active (fc_state c)) eqn:E; [done|]. rewrite E4 by done. by rewrite E. }
  split; [|intros s].
  - rewrite !total_active_cons. destruct (child_is_active (fc_state c')); [|lia].
    rewrite Ha by done. lia.
  - rewrite !stage_active_cons. specialize (IH2 s). unfold of_stage. rewrite E1.
    destruct (fc_stage_id c =? s)%N; cbn; [|lia].
    destruct (child_is_active (fc_state c')); [|lia]. rewrite Ha by done. lia.
Qed.

Lemma ends_activity_succeeded l l' s t : Forall2 ends_activity l l' ->
  succeeded_on l s t -> succeeded_on l' s t.
Proof.
  intros Hl (c & Hc & Hp & Hs). destruct (proj1 (Forall2_elem _ _ _ Hl) c Hc) as (c' & Hc' & E).
  destruct E as (_ & _ & _ & E & _). rewrite E in Hc' by by rewrite Hs. by exists c.
Qed.

Lemma ends_activity_pairs l l' : Forall2 ends_activity l l' ->
  StronglySorted earlier_paused l -> StronglySorted earlier_paused l'.
Proof.
  induction 1 as [|c c' l l' Hc Hl IH]; [done|]. intros Hs. inversion Hs as [|? ? Hs' Hf]; subst.
  constructor; [by apply IH|]. apply Forall_forall. intros d' Hd' [P1 P2].
  destruct (proj2 (Forall2_elem _ _ _ Hl) d' Hd') as (d & Hd & (D1 & D2 & D3 & _)).
  destruct Hc as (C1 & C2 & C3 & C4 & _). rewrite Forall_forall in Hf.
  destruct (Hf d Hd) as [Hb Ha]; [split; congruence|].
  rewrite C4 by by rewrite Hb. by rewrite D3.
Qed.

Lemma sched_ok_ends stages l l' : Forall2 ends_activity l l' -> sched_ok stages l -> sched_ok stages l'.
Proof.
  intros Hl [H1 H2 H3 H4 H5 H6 H7]. destruct (ends_activity_counts _ _ Hl) as [Htot Hst].
  pose proof (proj2 (Forall2_elem _ _ _ Hl)) as Hfrom. apply Forall2_length in Hl as Hlen.
  split.
  - intros c' Hc'. destruct (Hfrom c' Hc') as (c & Hc & (E1 & E2 & E3 & E4 & E5 & E6)).
    destruct (H1 c Hc) as [Hs ? ? ?]. split; [by rewrite E1, E2|auto|by rewrite E3|auto].
  - intros c' Hc'. destruct (Hfrom c' Hc') as (c & Hc & (E1 & E2 & E3 & _)).
    unfold list_lenN. rewrite E3, <- Hlen. by apply H2.
  - by eapply ends_activity_pairs.
  - intros s Hs. specialize (H4 s Hs). specialize (Hst (fs_id s)). lia.
  - lia.
  - intros s Hs Hd t Ht. eapply ends_activity_succeeded; [done|]. by apply H6.
  - intros s first rest Hs Hc Hf c' Hc' Es Et. eapply ends_activity_succeeded; [done|].
    destruct (Hfrom c' Hc') as (c & Hc0 & (E1 & E2 & _)). eapply H7; try done; congruence.
Qed.

Lemma retire_ends st l : scheduler_state st = true -> Forall2 ends_activity l (retire_active st l).
Proof.
  intros Hst. unfold retire_active. induction l as [|c l IH]; cbn; constructor; [|done].
  destruct (child_is_active (fc_state c)) eqn:E; [|done].
  split_and!; try done. by rewrite E.
Qed.

(** An active child and a finished one cannot be of the same pair. *)
Lemma pairs_exclusive l c c' : StronglySorted earlier_paused l -> c ∈ l -> c' ∈ l ->
  same_pair c c' -> fc_state c <> StBlocked -> fc_state c' <> StBlocked -> c = c'.
Proof.
  induction 1 as [|d l Hl IH Hd]; [by intros []%not_elem_of_nil|]. rewrite Forall_forall in Hd.
  intros Hc Hc' Hp Hb Hb'. apply elem_of_cons in Hc as [->|Hc]; apply elem_of_cons in Hc' as [->|Hc'].
  - done.
  - by destruct (Hd c' Hc' Hp).
  - destruct (Hd c Hc); [|done]. destruct Hp. by split.
  - by apply IH.
Qed.

(** ** The operations preserve the invariant *)
Record fleet_ok (r : FleetRunV2) : Prop := {
  fo_plan : plan_wf (fr_production r) (fr_targets r) (fr_stages r);
  fo_sched : sched_ok (fr_stages r) (fr_children r);
}.

(** What no operation changes: the parts an approval seals, and the plan. *)
Definition same_fleet (r r' : FleetRunV2) : Prop :=
  (fr_id r', fr_version r', fr_production r', fr_failure_policy r', fr_targets r',
   fr_graph_digest r', fr_recovery_state r')
  = (fr_id r, fr_version r, fr_production r, fr_failure_policy r, fr_targets r,
     fr_graph_digest r, fr_recovery_state r) /\
  map plan_of (fr_stages r') = map plan_of (fr_stages r).

Lemma same_fleet_refl r : same_fleet r r.
Proof. done. Qed.

Lemma same_fleet_trans a b c : same_fleet a b -> same_fleet b c -> same_fleet a c.
Proof. intros [E1 E2] [F1 F2]. split; congruence. Qed.

Lemma plans_elem (stages stages' : list FleetStage) s :
  map plan_of stages' = map plan_of stages -> s ∈ stages' ->
  exists s', s' ∈ stages /\ plan_of s' = plan_of s.
Proof.
  intros E Hs. apply (list_elem_of_fmap_2 plan_of) in Hs. setoid_rewrite E in Hs.
  apply list_elem_of_fmap in Hs as (s' & ? & ?). by exists s'.
Qed.

Lemma plans_ids stages stages' :
  map plan_of stages' = map plan_of stages -> map fs_id stages' = map fs_id stages.
Proof.
  intros E. assert (forall l, map fs_id l = map fs_id (map plan_of l)) as H.
  { intros l. rewrite map_map. done. }
  by rewrite (H stages'), E, <- H.
Qed.

Lemma tc_mono {A} (R S : relation A) x y : (forall a b, R a b -> S a b) -> tc R x y -> tc S x y.
Proof. intros H. induction 1; [by apply tc_once, H|]. eapply tc_l; [by apply H|done]. Qed.

Lemma plan_wf_same production targets stages stages' :
  map plan_of stages' = map plan_of stages -> plan_wf production targets stages ->
  plan_wf production targets stages'.
Proof.
  intros E [H1 H2 H3 H4 H5 H6]. pose proof (plans_ids _ _ E) as Ei. split.
  - done.
  - intros ->. by destruct stages.
  - apply (f_equal length) in E. rewrite !length_map in E. by rewrite E.
  - by rewrite Ei.
  - rewrite Ei. intros s Hs. destruct (plans_elem _ _ _ E Hs) as (s' & Hs' & Hp).
    destruct (H5 s' Hs') as [W1 W2 W3 W4 W5 W6 W7 W8 W9 W10].
    apply plan_of_fields in Hp as (F1 & F2 & F3 & F4 & F5).
    split; rewrite <- ?F1, <- ?F2, <- ?F3, <- ?F4, <- ?F5; done.
  - intros x Hx. apply (H6 x). clear -Hx E.
    assert (forall a b, depends stages' a b -> depends stages a b) as Hd.
    { intros a b (s & Hs & <- & Hb). destruct (plans_elem _ _ _ E Hs) as (s' & Hs' & Hp).
      apply plan_of_fields in Hp as (Eid & _ & Ed & _). exists s'. rewrite Eid, Ed. done. }
    by eapply tc_mono.
Qed.

Lemma like_plans (R : FleetStage -> FleetStage -> Prop) stages stages' :
  (forall s s', R s s' -> plan_of s = plan_of s') -> Forall2 R stages stages' ->
  map plan_of stages' = map plan_of stages.
Proof. intros H. induction 1; cbn; [done|]. f_equal; [symmetry; auto|done]. Qed.

(** A run with other stages of the same plans and other children. *)
Lemma fleet_ok_update r r' :
  fleet_ok r -> same_fleet r r' -> sched_ok (fr_stages r') (fr_children r') -> fleet_ok r'.
Proof.
  intros [Hp Hs] [E1 E2] Hs'. injection E1 as _ _ Ep _ Et _ _. split; [|done].
  rewrite Ep, Et. by eapply plan_wf_same.
Qed.

Lemma fleet_ok_state r st now : fleet_ok r -> fleet_ok (set_fleet_state st now r).
Proof. intros [? ?]. by split. Qed.

Lemma coord_transition_cases next now r :
  coord_transition next now r = (Err (CoordError InvalidState), r) \/
  (coord_transition next now r = (Ok tt, set_fleet_state next now r) /\
   fr_recovery_state r = FrLive /\ fleet_can_transition_to (fr_state r) next = true).
Proof.
  unfold coord_transition. destruct (fleet_transition_to _ _ _) eqn:E; [right|by left].
  apply fleet_transition_ok in E as (? & ? & ->). done.
Qed.

Lemma target_map_some targets t : t ∈ map ftb_profile_id targets ->
  exists b, target_map targets !! t = Some b /\ b ∈ targets /\ ftb_profile_id b = t.
Proof.
  unfold target_map. intros Ht.
  assert (forall l (m : gmap Uuid FleetTargetBinding),
    (exists b, m !! t = Some b /\ b ∈ targets /\ ftb_profile_id b = t) \/ t ∈ map ftb_profile_id l ->
    l ⊆ targets ->
    exists b, foldl (fun m t => <[ftb_profile_id t := t]> m) m l !! t = Some b /\
              b ∈ targets /\ ftb_profile_id b = t) as G.
  { induction l as [|x l IH]; intros m H Hl; cbn [foldl].
    { destruct H as [H|[]%not_elem_of_nil]; done. }
    apply IH; [|intros y Hy; apply Hl; by right].
    destruct (decide (ftb_profile_id x = t)) as [E|E].
    - left. exists x. rewrite E, lookup_insert_eq. split_and!; [done| |done]. apply Hl. by left.
    - rewrite lookup_insert_ne by done. destruct H as [H|H]; [by left|]. right.
      cbn in H. apply elem_of_cons in H as [->|H]; done. }
  apply G; [by right|done].
Qed.

Lemma refresh_blocked_like r : Forall2 stage_like (fr_stages r) (fr_stages (refresh_blocked_stages r)).
Proof.
  cbn. generalize (hash_set (map fs_id (List.filter (fun s => failed_or_blocked (fs_state s))
    (fr_stages r)))). intros failed. induction (fr_stages r) as [|s l IH]; constructor; [|done].
  case_match eqn:E; [|apply stage_like_refl]. apply andb_true_iff in E as [E _]. breflect.
  split; [by rewrite plan_of_set|]. rewrite E. cbn. done.
Qed.

Lemma elem_of_succeeded_stages r id : id ∈ succeeded_stages r <->
  exists s, s ∈ fr_stages r /\ fs_id s = id /\ fs_state s = StSucceeded.
Proof.
  unfold succeeded_stages. rewrite elem_of_hash_set, list_elem_of_fmap. split.
  - intros (s & -> & [? ?]%elem_of_filterb). breflect. by exists s.
  - intros (s & Hs & <- & E). exists s. split; [done|]. apply elem_of_filterb.
    by rewrite bool_decide_true.
Qed.

(** The loop of [claim_ready] on a well-formed run with blocked stages marked. *)
Lemma claim_loop_ok r approval version hash ids capacity :
  fleet_ok r -> (total_active (fr_children r) + capacity <= MAX_FLEET_ACTIVE_CHILDREN)%N ->
  exists l' acc',
    claim_stages r approval version hash ids (succeeded_stages r) (fr_stages r)
      {| ca_children := fr_children r; ca_leases := []; ca_capacity := capacity |}
      = (Ok tt, l', acc') /\
    sched_ok l' (ca_children acc') /\
    (total_active (ca_children acc') <= total_active (fr_children r) + capacity)%N /\
    grows r approval version hash {| ca_children := fr_children r; ca_leases := []; ca_capacity := capacity |} acc' /\
    Forall2 stage_like (fr_stages r) l' /\
    Forall2 (fun s s' => s' = s \/ (s' = set_stage_state StRunning s /\
               stage_claimable (succeeded_stages r) s = true)) (fr_stages r) l' /\
    ((exists s, s ∈ fr_stages r /\ startable (succeeded_stages r) s
        {| ca_children := fr_children r; ca_leases := []; ca_capacity := capacity |}) ->
     ca_leases acc' <> []).
Proof.
  intros [Hp Hs] Hcap.
  assert (forall s t, s ∈ fr_stages r -> t ∈ fs_target_ids s ->
    is_Some (target_map (fr_targets r) !! t)) as Htg.
  { intros s t Hin Ht. destruct (target_map_some (fr_targets r) t) as (b & Hb & _); [|by exists b].
    by apply (sw_targets_known _ _ _ _ (pw_each _ _ _ Hp s Hin)). }
  assert (forall s, s ∈ fr_stages r -> fs_target_ids s <> []) as Hne.
  { intros s Hin. apply (sw_targets_ne _ _ _ _ (pw_each _ _ _ Hp s Hin)). }
  set (acc0 := {| ca_children := fr_children r |}).
  assert (acc_ok (fr_stages r) (total_active (fr_children r) + capacity) acc0) as Hok0 by by split.
  destruct (claim_stages_ok r approval version hash ids (fr_stages r) (pw_ids _ _ _ Hp) Htg _ Hcap
    Hne (succeeded_stages r) (elem_of_succeeded_stages r) (fr_stages r) acc0)
    as (l' & acc' & E & [Hok Hb] & Hg & Hl & Hl'); [done|done|].
  exists l', acc'. split_and!; [done|by eapply sched_ok_like|lia|done..|].
  intros (s & Hin & Hst) Hnil.
  pose proof (claim_stages_progress r approval version hash ids (fr_stages r) (pw_ids _ _ _ Hp) Htg _
    Hcap Hne (succeeded_stages r) (elem_of_succeeded_stages r) (fr_stages r) s acc0) as G.
  rewrite E in G. cbn in G. rewrite Hnil in G. cbn in G. specialize (G ltac:(done) Hin Hok0 Hst). lia.
Qed.

(** ** Claims *)

(** How an authorized claim on a well-formed run ends: nothing is done, or the
    loop over the stages ran to its end. *)
Definition claim_capacity (requested : N) (r : FleetRunV2) : N :=
  sat_sub (N.min requested MAX_FLEET_ACTIVE_CHILDREN) (total_active (fr_children r)).

Record claimed (approval : FleetApprovalV2) (version : N) (hash : str) (requested now : N) (r : FleetRunV2)
    (leases : list FleetChildLeaseV2) (r' : FleetRunV2) (acc : claim_acc) : Prop := {
  cd_state : fr_state r = FlApproved \/ fr_state r = FlExecuting;
  cd_state' : fr_state r' = FlExecuting;
  cd_leases : ca_leases acc = leases;
  cd_children : ca_children acc = fr_children r';
  cd_bound : (total_active (fr_children r') <=
              total_active (fr_children r) + claim_capacity requested r)%N;
  cd_grows : grows r' approval version hash {| ca_children := fr_children r; ca_leases := [];
                      ca_capacity := claim_capacity requested r |} acc;
  cd_same : same_fleet r r';
  cd_like : Forall2 stage_like (fr_stages r) (fr_stages r');
  cd_steps : Forall2 (fun s s' => s' = s \/ (s' = set_stage_state StRunning s /\
               stage_claimable (succeeded_stages r) s = true))
             (fr_stages (refresh_blocked_stages r)) (fr_stages r');
  cd_progress : forall s, s ∈ fr_stages (refresh_blocked_stages r) ->
    startable (succeeded_stages r) s {| ca_children := fr_children r; ca_leases := [];
      ca_capacity := claim_capacity requested r |} -> leases <> [];
}.

Lemma Forall2_stage_like_trans a b c :
  Forall2 stage_like a b -> Forall2 stage_like b c -> Forall2 stage_like a c.
Proof.
  intros H1. revert c. induction H1 as [|x y k l [E1 I1] _ IH]; intros c H2; inversion H2; subst;
    constructor; [|by apply IH].
  destruct H1 as [E2 I2]. split; [congruence|]. by rewrite I1, I2.
Qed.

Lemma claim_begin_ok approval version hash now r :
  validate_authority r approval version hash = true ->
  exists r0, claim_begin now r = (Ok tt, r0) /\ fr_state r0 = FlExecuting /\
    (fr_state r = FlApproved \/ fr_state r = FlExecuting) /\ same_fleet r r0 /\
    fr_children r0 = fr_children r /\ fr_stages r0 = fr_stages r.
Proof.
  intros Ea. unfold claim_begin, validate_authority, validate_authority_for_states in *.
  apply negb_true_iff in Ea. rewrite !orb_false_iff, !negb_false_iff, !bool_decide_eq_true in Ea.
  destruct Ea as [[[[[[[[Hlive Hst] _] _] _] _] _] _] _].
  apply elem_of_cons in Hst as [Hst|Hst%list_elem_of_singleton].
  - rewrite (bool_decide_true (_ = FlApproved)) by done.
    unfold coord_transition, fleet_transition_to. rewrite Hlive, Hst, bool_decide_true by done.
    cbn. eexists. split; [done|]. cbn. split_and!; try done. by left.
  - rewrite (bool_decide_false (_ = FlApproved)), (bool_decide_true (_ = FlExecuting)) by congruence.
    exists r. split_and!; try done. by right.
Qed.

Lemma succeeded_stages_refresh r : succeeded_stages (refresh_blocked_stages r) = succeeded_stages r.
Proof.
  apply set_eq. intros id. rewrite !elem_of_succeeded_stages.
  pose proof (Forall2_elem _ _ _ (refresh_blocked_like r)) as [Hto Hfrom]. split.
  - intros (s & Hs & <- & Hst). destruct (Hfrom s Hs) as (s' & Hs' & Hp & Hi). exists s'.
    apply plan_of_fields in Hp as (-> & _). split_and!; [done..|by apply Hi].
  - intros (s & Hs & <- & Hst). destruct (Hto s Hs) as (s' & Hs' & Hp & Hi). exists s'.
    apply plan_of_fields in Hp as (-> & _). split_and!; [done..|by apply Hi].
Qed.

Lemma claim_ready_cases approval version hash requested now ids r : fleet_ok r ->
  (validate_authority r approval version hash = false /\
   claim_ready approval version hash requested now ids r = (Err (CoordError InvalidAuthority), r)) \/
  (requested = 0%N /\ claim_ready approval version hash requested now ids r = (Ok [], r)) \/
  (exists leases r' acc, (0 < requested)%N /\
     validate_authority r approval version hash = true /\
     claim_ready approval version hash requested now ids r = (Ok leases, r') /\
     claimed approval version hash requested now r leases r' acc /\ fleet_ok r').
Proof.
  intros Hok. unfold claim_ready.
  destruct (validate_authority _ _ _ _) eqn:Ea; cbn [negb]; [|by left].
  destruct (N.eqb_spec requested 0) as [->|Hreq]; [by right; left|].
  destruct (claim_begin_ok approval version hash now r Ea)
    as (r0 & Eb & Es & Es' & Hsame & Ec & Est).
  rewrite Eb. clear Eb. right. right.
  assert (fleet_ok r0) as Hok0.
  { eapply fleet_ok_update; [exact Hok|done|]. rewrite Est, Ec. apply Hok. }
  pose proof (refresh_blocked_like r0) as Hlike. set (r1 := refresh_blocked_stages r0) in *.
  assert (fleet_ok r1) as Hok1.
  { eapply fleet_ok_update; [exact Hok0| |].
    - split; [done|]. eapply like_plans; [|exact Hlike]. by intros ? ? [? _].
    - eapply sched_ok_like; [exact Hlike|apply Hok0]. }
  change (fr_children r1) with (fr_children r0). rewrite Ec.
  fold (total_active (fr_children r)). fold (claim_capacity requested r).
  destruct (claim_loop_ok r1 approval version hash ids (claim_capacity requested r) Hok1)
    as (l' & acc & El & Hs & Hbd & Hg & Hl & Hst & Hpr).
  { change (fr_children r1) with (fr_children r0). rewrite Ec.
    pose proof (so_total _ _ (fo_sched _ Hok)). unfold claim_capacity, sat_sub. lia. }
  change (fr_children r1) with (fr_children r0) in El, Hg, Hbd. rewrite Ec in El, Hg, Hbd.
  rewrite El.
  eexists _, _, acc. split; [lia|]. split; [done|]. split; [done|].
  assert (Forall2 stage_like (fr_stages r) l') as Hl'.
  { eapply Forall2_stage_like_trans; [|exact Hl]. by rewrite <- Est. }
  assert (same_fleet r (touch now (set_children (ca_children acc) (set_stages l' r1)))) as Hsame'.
  { destruct Hsame as [E1 _]. split; [exact E1|]. cbn. eapply like_plans; [|exact Hl'].
    by intros ? ? [? _]. }
  assert (fr_stages r1 = fr_stages (refresh_blocked_stages r)) as Er1 by (cbn; by rewrite Est).
  assert (succeeded_stages r1 = succeeded_stages r) as Esu.
  { unfold r1. rewrite succeeded_stages_refresh. unfold succeeded_stages. by rewrite Est. }
  rewrite Er1, Esu in Hst, Hpr. split; [|by eapply fleet_ok_update; [exact Hok| |]].
  split; try done. intros s Hin Hsta. apply Hpr. exists s. split; [done|].
  change (fr_children r1) with (fr_children r0). by rewrite Ec.
Qed.

(** ** Outcomes *)
Lemma settle_ends o code c : child_is_active (fc_state c) = true -> bad_error_code code = false ->
  ends_activity c (settle_child o code c).
Proof.
  intros Ha Hc. split_and!; try done.
  - by rewrite Ha.
  - by destruct o.
Qed.

Lemma find_settled id o code l child : find (awaits_outcome id) l = Some child ->
  bad_error_code code = false ->
  child ∈ l /\ child_is_active (fc_state child) = true /\
  Forall2 ends_activity l (update_first (awaits_outcome id) (settle_child o code) l).
Proof.
  intros Hf Hc. destruct (update_first_split _ (settle_child o code) _ _ Hf) as (a & b & -> & -> & Hp).
  unfold awaits_outcome in Hp. apply andb_true_iff in Hp as [_ Hp].
  split_and!; [set_solver|done|]. apply Forall2_app; [|constructor; [by apply settle_ends|]].
  - clear. induction a; by constructor.
  - clear. induction b; by constructor.
Qed.

(** A stage with an active child has not succeeded. *)
Lemma active_not_succeeded stages l s c : NoDup (map fs_id stages) -> sched_ok stages l ->
  s ∈ stages -> c ∈ l -> fc_stage_id c = fs_id s -> child_is_active (fc_state c) = true ->
  fs_state s <> StSucceeded.
Proof.
  intros Hids Hok Hs Hc E Ha Hsu. destruct (ck_stage _ _ (so_child _ _ Hok c Hc)) as (s' & Hs' & E' & Ht & _).
  assert (s = s') as <- by (apply (stage_by_id stages Hids); congruence).
  destruct (so_done _ _ Hok s Hs Hsu _ Ht) as (c' & Hc' & [P1 P2]%of_pair_true & Hst).
  assert (c = c') as ->.
  { eapply pairs_exclusive; [apply (so_pairs _ _ Hok)|done|done|split; congruence|by intros X; rewrite X in Ha|by rewrite Hst]. }
  by rewrite Hst in Ha.
Qed.

Lemma refreshed_advances l s children :
  children = List.filter (of_stage (fs_id s)) l -> fs_state s <> StSucceeded ->
  stage_advances l s (refreshed children s).
Proof.
  intros -> Hn. unfold refreshed.
  destruct (existsb _ _); [by split_and!; [by rewrite plan_of_set|..]|].
  destruct (forallb _ _) eqn:E.
  - split_and!; [by rewrite plan_of_set|done|]. intros _ t Ht. cbn in Ht |- *.
    rewrite Forallb_forall in E. specialize (E t Ht). apply Existsb_exists in E as (c & Hc & E).
    breflect. apply elem_of_filterb in Hc as [Hc Ho]. exists c. split; [done|]. split; [|done].
    apply of_pair_true. split; [by apply N.eqb_eq|done].
  - destruct (existsb _ _); [by split_and!; [by rewrite plan_of_set|..]|done].
Qed.

Lemma update_first_Forall2 {A} (R : A -> A -> Prop) p f (l : list A) :
  (forall x, x ∈ l -> R x x) -> (forall x, x ∈ l -> p x = true -> R x (f x)) ->
  Forall2 R l (update_first p f l).
Proof.
  intros H1 H2. induction l as [|x l IH]; cbn; [constructor|].
  assert (Forall2 R l l) as Hl.
  { clear IH. apply Forall2_same_length_lookup_2; [done|]. intros i y z Hy Hz.
    assert (y = z) as -> by congruence. apply H1. right. by eapply list_elem_of_lookup_2. }
  destruct (p x) eqn:E; constructor; [apply H2; [by left|done]|done|apply H1; by left|].
  apply IH; [intros y Hy; apply H1; by right|intros y Hy; apply H2; by right].
Qed.

Lemma refresh_stage_ok r id child l :
  fleet_ok r -> child ∈ fr_children r -> child_is_active (fc_state child) = true ->
  Forall2 ends_activity (fr_children r) l -> id = fc_stage_id child ->
  fleet_ok (refresh_stage id (set_children l r)) /\
  same_fleet r (refresh_stage id (set_children l r)).
Proof.
  intros Hok Hc Ha Hl ->. pose proof (fo_sched _ Hok) as Hs.
  pose proof (sched_ok_ends _ _ _ Hl Hs) as Hs'.
  assert (Forall2 (stage_advances l) (fr_stages r)
    (update_first (fun s => (fs_id s =? fc_stage_id child)%N)
       (refreshed (List.filter (of_stage (fc_stage_id child)) l)) (fr_stages r))) as Hadv.
  { apply update_first_Forall2.
    - intros s Hin. split_and!; [done..|]. intros Hd. by apply (so_done _ _ Hs').
    - intros s Hin E%N.eqb_eq. apply refreshed_advances; [by rewrite E|].
      eapply active_not_succeeded;
        [apply (pw_ids _ _ _ (fo_plan _ Hok))|exact Hs|done|exact Hc|done|done]. }
  assert (same_fleet r (refresh_stage (fc_stage_id child) (set_children l r))) as Hsame.
  { split; [done|]. cbn. eapply like_plans; [|exact Hadv]. by intros ? ? [? _]. }
  split; [|done]. eapply fleet_ok_update; [exact Hok|done|].
  cbn. by eapply sched_ok_advance.
Qed.

Lemma apply_failure_policy_cases now r :
  exists res r', apply_failure_policy now r = (res, r') /\
    (r' = r \/ exists st, failure_target (fr_failure_policy r) = Some st /\
                          r' = set_fleet_state st now r) /\
    res <> Err CoordPanic.
Proof.
  unfold apply_failure_policy. destruct (negb _); [by eexists _, _; split_and!; [|left|]|].
  destruct (failure_target _) as [st|] eqn:E; [|by eexists _, _; split_and!; [|left|]].
  destruct (coord_transition_cases st now r) as [->|[-> _]]; eexists _, _; split_and!; eauto; done.
Qed.

Lemma fleet_ok_retire st r : scheduler_state st = true -> fleet_ok r ->
  fleet_ok (set_children (retire_active st (fr_children r)) r).
Proof.
  intros Hst Hok. eapply fleet_ok_update; [exact Hok|done|]. cbn.
  eapply sched_ok_ends; [by apply retire_ends|apply Hok].
Qed.

Lemma record_outcome_ok id o code now r : fleet_ok r ->
  fleet_ok (record_outcome id o code now r).2 /\ same_fleet r (record_outcome id o code now r).2.
Proof.
  intros Hok. unfold record_outcome.
  destruct (negb _ || _); [done|]. destruct (bad_error_code code || _) eqn:Ec; [done|].
  apply orb_false_iff in Ec as [Ec _].
  destruct (find _ _) as [child|] eqn:Ef; [|done].
  destruct (find_settled _ o _ _ _ Ef Ec) as (Hc & Ha & Hl).
  destruct (refresh_stage_ok r _ child _ Hok Hc Ha Hl eq_refl) as [Hok1 Hs1].
  set (r1 := refresh_stage _ _) in *.
  destruct (apply_failure_policy_cases now r1) as (res & r2 & -> & Hr2 & _).
  assert (fleet_ok r2 /\ same_fleet r r2) as [Hok2 Hs2].
  { destruct Hr2 as [->|(st & _ & ->)]; [done|]. split; [by apply fleet_ok_state|done]. }
  destruct res as [u|e]; [|done].
  set (r3 := if bool_decide (fr_state r2 = FlPausedForReview) then _ else r2).
  assert (fleet_ok r3 /\ same_fleet r r3) as [Hok3 Hs3].
  { subst r3. case_bool_decide; [|done]. split; [by apply fleet_ok_retire|done]. }
  destruct (_ && _); [|split; [by apply fleet_ok_state|done]].
  destruct (coord_transition_cases FlVerifying now r3) as [->|[-> _]]; cbn; [done|].
  split; [by do 2 apply fleet_ok_state|done].
Qed.

Lemma reopened_like l stages : Forall2 stage_like stages (map (reopened l) stages).
Proof.
  induction stages as [|s k IH]; cbn; constructor; [|done]. unfold reopened.
  destruct (_ && _) eqn:E; [|apply stage_like_refl]. apply andb_true_iff in E as [E _].
  split; [by rewrite plan_of_set|]. cbn. by destruct (fs_state s).
Qed.

(** Every operation keeps a well-formed run well formed and its identity. *)
Lemma fleet_exec_ok o r : fleet_ok r -> fleet_ok (fleet_exec o r) /\ same_fleet r (fleet_exec o r).
Proof.
  intros Hok. destruct o as [next now|a v h cap now ids|id out code now|now|a v h now|now];
    cbn [fleet_exec].
  - destruct (fleet_transition_to _ _ _) as [r'|] eqn:E; [|done].
    apply fleet_transition_ok in E as (_ & _ & ->). split; [by apply fleet_ok_state|done].
  - destruct (claim_ready_cases a v h cap now ids r Hok)
      as [[_ ->]|[[_ ->]|(leases & r' & acc & _ & _ & -> & Hcl & Hok')]]; [done..|].
    split; [done|]. apply Hcl.
  - by apply record_outcome_ok.
  - unfold fleet_pause. destruct (negb _ || _); [done|].
    destruct (coord_transition_cases FlPausedForReview now r) as [->|[-> _]]; cbn; [done|].
    split; [|done].
    exact (fleet_ok_retire StBlocked (set_fleet_state FlPausedForReview now r) eq_refl
             (fleet_ok_state _ _ _ Hok)).
  - unfold continue_after_review. destruct (negb _); [done|].
    set (r1 := set_stages _ r). pose proof (reopened_like (fr_children r) (fr_stages r)) as Hl.
    assert (same_fleet r r1) as Hs.
    { split; [done|]. cbn. eapply like_plans; [|exact Hl]. by intros ? ? [? _]. }
    assert (fleet_ok r1) as Hok1.
    { eapply fleet_ok_update; [exact Hok|done|]. cbn. eapply sched_ok_like; [exact Hl|apply Hok]. }
    destruct (coord_transition_cases FlExecuting now r1) as [->|[-> _]]; cbn; [done|].
    split; [by apply fleet_ok_state|done].
  - unfold fleet_cancel. destruct (negb _ || _); [done|].
    pose proof (fleet_ok_retire StCancelled r eq_refl Hok) as Hok1.
    destruct (coord_transition_cases FlCancelled now
      (set_children (retire_active StCancelled (fr_children r)) r)) as [->|[-> _]]; cbn; [done|].
    split; [by apply fleet_ok_state|done].
Qed.

Lemma fleet_exec_all_ok os r : fleet_ok r ->
  fleet_ok (fleet_exec_all os r) /\ same_fleet r (fleet_exec_all os r).
Proof.
  unfold fleet_exec_all. revert r. induction os as [|o os IH]; intros r Hok; cbn; [done|].
  destruct (fleet_exec_ok o r Hok) as [Hok' Hs']. destruct (IH _ Hok') as [? ?].
  split; [done|]. by eapply same_fleet_trans.
Qed.
