(* ===== verification/FleetTheorems.v ===== *)
(** * Fleets: what holds of every schedule, and that fleets finish

    Safety of every sequence of operations from an accepted draft, the
    authority behind every lease, progress: a healthy fleet reaches
    [Verifying] however its claims and outcomes interleave, and, as
    [Example]s, fleets that cannot leave [Executing]. *)
From S2P Require Import Prelude Str RunState Context Externals FleetRun FleetControl.
From S2P Require Import FleetCoordinator FleetInvariant.
From stdpp Require sorting.

(** ** Safety of schedules *)

Lemma plan_wf_draft_sched production targets stages :
  plan_wf production targets stages -> (forall s, s ∈ stages -> fs_state s = StPending) ->
  sched_ok stages [].
Proof.
  intros _ Hp. split; try (intros ? []%not_elem_of_nil).
  - constructor.
  - intros s _. apply N.le_0_l.
  - apply N.le_0_l.
  - intros s Hs E. rewrite Hp in E; done.
  - intros s first rest _ _ _ c []%not_elem_of_nil.
Qed.

Lemma fleet_draft_ok `{Externals, FleetSerde} order new_v4 request now r :
  lists_entries order -> fleet_draft order new_v4 request now = Ok r -> fleet_ok r.
Proof.
  intros Hord Hr. apply (fleet_draft_exact order new_v4 request now Hord) in Hr
    as (Hp & _ & encoded & _ & ->).
  split; [done|]. cbn. eapply plan_wf_draft_sched; [done|].
  by intros s (d & -> & _)%list_elem_of_fmap.
Qed.

Lemma StronglySorted_lookup {A} (R : A -> A -> Prop) l i j x y :
  StronglySorted R l -> (i < j)%nat -> l !! i = Some x -> l !! j = Some y -> R x y.
Proof.
  intros H. revert i j. induction H as [|a l _ IH Ha]; intros i j Hij Hi Hj; [done|].
  destruct j as [|j]; [lia|]. destruct i as [|i]; cbn in Hi, Hj.
  - injection Hi as ->. rewrite Forall_forall in Ha. apply Ha. by eapply list_elem_of_lookup_2.
  - eapply (IH i j); [lia|done..].
Qed.

Lemma attempts_distinct stages l : sched_ok stages l -> (list_lenN l < U32_MAX)%N ->
  NoDup (map child_key l).
Proof.
  intros [_ Ha Hp _ _ _ _] Hlen.
  assert (forall c, c ∈ l -> fc_attempt c < U32_MAX)%N as Hb.
  { intros c Hc. specialize (Ha c Hc). lia. }
  clear Ha Hlen. induction Hp as [|c l Hl IH Hc]; cbn; [constructor|].
  apply NoDup_cons. split; [|apply IH; intros; apply Hb; by right].
  intros (c' & E & Hc')%list_elem_of_fmap. unfold child_key in E. injection E as E1 E2 E3.
  rewrite Forall_forall in Hc. destruct (Hc c' Hc') as [_ [?|?]]; [done|lia|].
  specialize (Hb c' ltac:(by right)). lia.
Qed.

(** C11. Whatever is done to an accepted fleet, by anyone and in any order, its
    identity, targets, policy and plan stay those of the draft; at most ten of
    its children are active, and no more of a stage than its limit; a child
    exists only where every dependency of its stage has succeeded; a stage
    counts as succeeded only when it succeeded on each of its targets; no
    target of a canary stage is tried before the first one succeeded; of two
    children for the same stage and target the earlier one was paused, so that
    what succeeded, failed or was cancelled is never run again; and, while
    fewer than 2^32 - 1 children were made and the digest is a digest, the run
    still passes the check that is applied to stored fleets. *)
Theorem fleet_schedule_safe `{Externals, FleetSerde} order new_v4 request now r0 os :
  lists_entries order -> fleet_draft order new_v4 request now = Ok r0 ->
  let r := fleet_exec_all os r0 in
  same_fleet r0 r /\
  (total_active (fr_children r) <= MAX_FLEET_ACTIVE_CHILDREN)%N /\
  (forall s, s ∈ fr_stages r ->
     (stage_active (fs_id s) (fr_children r) <= fs_concurrency_limit s)%N /\
     (fs_state s = StSucceeded -> forall t, t ∈ fs_target_ids s ->
        succeeded_on (fr_children r) (fs_id s) t) /\
     (forall c, c ∈ fr_children r -> fc_stage_id c = fs_id s ->
        fc_target_id c ∈ fs_target_ids s /\ released (fr_stages r) s /\
        (fs_strategy s = FxCanary -> forall first rest, fs_target_ids s = first :: rest ->
           fc_target_id c = first \/ succeeded_on (fr_children r) (fs_id s) first))) /\
  (forall i j c c', (i < j)%nat -> fr_children r !! i = Some c -> fr_children r !! j = Some c' ->
     same_pair c c' -> fc_state c = StBlocked) /\
  (digest_shape (fr_graph_digest r0) -> (list_lenN (fr_children r) < U32_MAX)%N ->
     validate_metadata order r = Ok tt).
Proof.
  intros Hord Hdraft r. pose proof (fleet_draft_ok _ _ _ _ _ Hord Hdraft) as Hok0.
  destruct (fleet_exec_all_ok os r0 Hok0) as [[Hp Hs] Hsame]. fold r in Hp, Hs, Hsame.
  split; [done|]. split; [apply Hs|]. split; [|split].
  - intros s Hin. split; [by apply Hs|]. split; [by apply Hs|]. intros c Hc E.
    destruct (ck_stage _ _ (so_child _ _ Hs c Hc)) as (s' & Hs' & E' & Ht & Hr).
    assert (s = s') as <- by (apply (stage_by_id _ (pw_ids _ _ _ Hp)); congruence).
    split_and!; [done..|]. intros Hcan first rest Hf.
    destruct (decide (fc_target_id c = first)) as [|Hne]; [by left|right].
    by eapply (so_canary _ _ Hs).
  - intros i j c c' Hij Hi Hj Hpair. pose proof (so_pairs _ _ Hs) as Hsort.
    destruct (StronglySorted_lookup earlier_paused _ i j c c' Hsort Hij Hi Hj Hpair). done.
  - intros Hd Hlen. destruct (fleet_metadata_exact order r Hord) as [Hm _]. apply Hm.
    destruct Hsame as [E _]. injection E as _ _ _ _ _ Eg _. split; [done|by rewrite Eg| |].
    + apply Forall_forall. intros c Hc. destruct (so_child _ _ Hs c Hc) as [(s & Hin & E & Ht & _) _ ? ?].
      split_and!; [| |done|done].
      * rewrite <- E. by apply list_elem_of_fmap_2.
      * by apply (sw_targets_known _ _ _ _ (pw_each _ _ _ Hp s Hin)).
    + by eapply attempts_distinct.
Qed.

(** ** The authority behind a lease *)

Lemma validate_authority_iff r a version hash states :
  validate_authority_for_states r a version hash states = true <->
  fr_recovery_state r = FrLive /\ fr_state r ∈ states /\ fa_state a = FaGranted /\
  sealed_by a r version hash.
Proof.
  unfold validate_authority_for_states, sealed_by, str_eqb.
  rewrite negb_true_iff, !orb_false_iff, !negb_false_iff, !bool_decide_eq_true, !N.eqb_eq. tauto.
Qed.

Lemma lease_count r0 r r' a version hash new leases :
  Forall2 (lease_of r0 a version hash) new leases -> fr_children r' = fr_children r ++ new ->
  total_active (fr_children r') = (total_active (fr_children r) + list_lenN leases)%N.
Proof.
  intros Hl ->. rewrite total_active_app. f_equal.
  induction Hl as [|c l new leases (Hs & _) _ IH]; [done|].
  rewrite total_active_cons, Hs, IH. unfold list_lenN. cbn. lia.
Qed.

(** C13. Leases are given only in a live, approved or executing run whose approval
    was granted for exactly this run, version, graph, targets and policy.  Each
    lease names that authority and one exact target of the run, and a running
    child made for it, whose stage has only succeeded dependencies and whose
    target was neither active nor settled there; there are never more than the
    requested capacity, of at most ten, has room for.  On any other call the
    run is left as it was; a claim never panics and never meets an unknown
    target. *)
Theorem fleet_claims_authorized r a version hash requested now ids :
  fleet_ok r ->
  match claim_ready a version hash requested now ids r with
  | (Ok leases, r') =>
      leases <> [] ->
      fr_recovery_state r = FrLive /\ (fr_state r = FlApproved \/ fr_state r = FlExecuting) /\
      fa_state a = FaGranted /\ sealed_by a r version hash /\ fr_state r' = FlExecuting /\
      (total_active (fr_children r) + list_lenN leases <= N.min requested 10)%N /\
      exists new, fr_children r' = fr_children r ++ new /\
        Forall2 (lease_of r a version hash) new leases /\
        forall c, c ∈ new ->
          (exists s, s ∈ fr_stages r /\ fs_id s = fc_stage_id c /\
             fc_target_id c ∈ fs_target_ids s /\ released (fr_stages r) s) /\
          (forall c', c' ∈ fr_children r -> same_pair c' c -> fc_state c' = StBlocked)
  | (Err e, r') => r' = r /\ exists e', e = CoordError e'
  end.
Proof.
  intros Hok. destruct (claim_ready_cases a version hash requested now ids r Hok)
    as [[_ ->]|[[-> ->]|(leases & r' & acc & Hreq & Ha & -> & Hcl & Hok')]].
  - split; [done|by eexists].
  - done.
  - intros Hne. apply validate_authority_iff in Ha as (Hlive & _ & Hg & Hseal).
    destruct Hcl as [Hst Hst' El Ec Hb (new & leases' & Eg & El' & Hf) Hsame Hlike _ _].
    cbn in Eg, El'. rewrite Ec in Eg. rewrite El in El'. subst leases'.
    assert (Forall2 (lease_of r a version hash) new leases) as Hf'.
    { eapply Forall2_impl; [exact Hf|]. destruct Hsame as [E _].
      injection E as E1 E2 _ _ E5 E6 _. unfold lease_of, lease_for.
      by rewrite E1, E2, E5, E6. }
    split_and!; [done..| |].
    + rewrite <- (lease_count r r r' a version hash new leases) by done.
      rewrite (lease_count r r r' a version hash new leases) in Hb |- * by done.
      unfold claim_capacity, sat_sub, MAX_FLEET_ACTIVE_CHILDREN in Hb.
      destruct leases; [done|]. unfold list_lenN in *. cbn [length] in *. lia.
    + exists new. split_and!; [done..|]. intros c Hc.
      assert (c ∈ fr_children r') as Hc' by (rewrite Eg; apply elem_of_app; by right). split.
      * destruct (ck_stage _ _ (so_child _ _ (fo_sched _ Hok') c Hc')) as (s' & Hs' & E & Ht & Hr).
        destruct (proj2 (Forall2_elem _ _ _ Hlike) s' Hs') as (s & Hs & Hp & _).
        apply plan_of_fields in Hp as (E1 & E2 & E3 & _). exists s. rewrite E1, E2.
        split_and!; [done..|]. intros d Hd. rewrite E3 in Hd. destruct (Hr d Hd) as (x' & Hx' & <- & Hxs).
        destruct (proj2 (Forall2_elem _ _ _ Hlike) x' Hx') as (x & Hx & Hp & Hi).
        apply plan_of_fields in Hp as (<- & _). exists x. split_and!; [done..|by apply Hi].
      * intros c' Hc0 Hpair. pose proof (so_pairs _ _ (fo_sched _ Hok')) as Hsort.
        rewrite Eg in Hsort. rewrite Eg in Hc'.
        by apply (sorting.StronglySorted_app_1_elem_of _ _ _ c' c Hsort Hc0 Hc).
Qed.

(** ** Progress *)

(** A fleet in which nothing has failed, been cancelled or paused. *)
Record healthy (r : FleetRunV2) : Prop := {
  hl_ok : fleet_ok r;
  hl_children : forall c, c ∈ fr_children r ->
    fc_agent_run_id c <> None /\ (fc_state c = StRunning \/ fc_state c = StSucceeded);
  hl_stages : forall s, s ∈ fr_stages r ->
    (fs_state s = StPending \/ fs_state s = StRunning \/ fs_state s = StSucceeded) /\
    ((forall t, t ∈ fs_target_ids s -> succeeded_on (fr_children r) (fs_id s) t) ->
     fs_state s = StSucceeded);
}.

Definition all_succeeded (r : FleetRunV2) : bool :=
  forallb (fun s => bool_decide (fs_state s = StSucceeded)) (fr_stages r).

(** A stage that may start: all before it is done, and it is not. *)
Lemma next_stage stages : NoDup (map fs_id stages) -> closed_deps stages -> acyclic stages ->
  (exists s, s ∈ stages /\ fs_state s <> StSucceeded) ->
  exists s, s ∈ stages /\ fs_state s <> StSucceeded /\ released stages s.
Proof.
  intros Hids Hcl Hac (s & Hs & Hn).
  assert (sn (depends stages) (fs_id s)) as Hsn.
  { apply tc_finite_sn; [exact Hac|by apply depends_finite]. }
  remember (fs_id s) as x eqn:Ex. revert s Hs Hn Ex.
  induction Hsn as [x _ IH]; intros s Hs Hn ->.
  destruct (forallb (fun d => existsb (fun s' => (fs_id s' =? d)%N
    && bool_decide (fs_state s' = StSucceeded)) stages) (fs_depends_on s)) eqn:E.
  - exists s. split_and!; [done..|]. intros d Hd. rewrite Forallb_forall in E.
    specialize (E d Hd). apply Existsb_exists in E as (s' & Hs' & E). breflect. by exists s'.
  - assert (exists d, d ∈ fs_depends_on s /\ existsb (fun s' => (fs_id s' =? d)%N
      && bool_decide (fs_state s' = StSucceeded)) stages = false) as (d & Hd & Ed).
    { clear -E. induction (fs_depends_on s) as [|d l IH]; [done|]. cbn in E.
      apply andb_false_iff in E as [E|E]; [exists d; split; [by left|done]|].
      destruct (IH E) as (y & ? & ?). exists y. split; [by right|done]. }
    pose proof (Hcl s Hs d Hd) as Hd'. apply list_elem_of_fmap in Hd' as (s' & -> & Hs').
    apply (IH (fs_id s')) with s'; [by exists s|done| |done].
    rewrite Existsb_false in Ed. specialize (Ed s' Hs'). rewrite N.eqb_refl in Ed. cbn in Ed.
    by breflect.
Qed.

Lemma succeeded_on_dec l s t : succeeded_on l s t \/ ~ succeeded_on l s t.
Proof.
  destruct (existsb (fun c => of_pair s t c && bool_decide (fc_state c = StSucceeded)) l) eqn:E.
  - left. apply Existsb_exists in E as (c & Hc & E). breflect. by exists c.
  - right. intros (c & Hc & Hp & Hs). rewrite Existsb_false in E. specialize (E c Hc).
    by rewrite Hp, bool_decide_true in E.
Qed.

Lemma dec_or P `{Decision P} : P \/ ~ P.
Proof. destruct (decide P); auto. Qed.

Lemma not_all_elem {A} (P : A -> Prop) (l : list A) : (forall x, P x \/ ~ P x) ->
  (forall x, x ∈ l -> P x) \/ exists x, x ∈ l /\ ~ P x.
Proof.
  intros Hd. induction l as [|x l [IH|(y & ? & ?)]].
  - left. intros ? []%not_elem_of_nil.
  - destruct (Hd x); [left|right; exists x; split; [by left|done]].
    by intros y [->|?]%elem_of_cons; [|apply IH].
  - right. exists y. split; [by right|done].
Qed.

Lemma healthy_not_blocked r : healthy r -> fr_stages (refresh_blocked_stages r) = fr_stages r.
Proof.
  intros Hh. cbn. assert (List.filter (fun s => failed_or_blocked (fs_state s)) (fr_stages r) = []) as ->.
  { destruct (List.filter _ _) as [|s l] eqn:E; [done|]. exfalso.
    assert (s ∈ s :: l) as Hs by by left. rewrite <- E in Hs. apply elem_of_filterb in Hs as [Hs Hf].
    destruct (hl_stages _ Hh s Hs) as [[Hst|[Hst|Hst]] _]; by rewrite Hst in Hf. }
  cbn. rewrite <- (map_id (fr_stages r)) at 2. apply map_ext. intros s.
  destruct (_ && _) eqn:E; [|done]. apply andb_true_iff in E as [_ E].
  apply Existsb_exists in E as (d & _ & Hd). breflect. by apply not_elem_of_empty in Hd.
Qed.

(** A healthy fleet with nothing active and something left to do has a stage
    that can start. *)
Lemma healthy_startable r requested : healthy r -> (0 < requested)%N ->
  total_active (fr_children r) = 0%N -> all_succeeded r = false ->
  exists s, s ∈ fr_stages r /\ startable (succeeded_stages r) s
    {| ca_children := fr_children r; ca_leases := []; ca_capacity := claim_capacity requested r |}.
Proof.
  intros Hh Hreq Hact Hall. destruct (hl_ok _ Hh) as [Hp Hs].
  destruct (next_stage (fr_stages r) (pw_ids _ _ _ Hp)) as (s & Hin & Hn & Hrel).
  { intros s Hin d Hd. by apply (sw_deps_known _ _ _ _ (pw_each _ _ _ Hp s Hin)). }
  { apply Hp. }
  { destruct (not_all_elem (fun s => fs_state s = StSucceeded) (fr_stages r)
      (fun s => dec_or (fs_state s = StSucceeded))) as [H|H]; [|done].
    exfalso. apply not_true_iff_false in Hall. apply Hall. apply Forallb_forall.
    intros s Hin. apply bool_decide_eq_true. by apply H. }
  assert (forall c, c ∈ fr_children r -> fc_state c = StSucceeded) as Hdone.
  { intros c Hc. destruct (hl_children _ Hh c Hc) as [_ [E|E]]; [exfalso|done].
    apply list_elem_of_split in Hc as (a & b & Eab). rewrite Eab, total_active_app, total_active_cons, E in Hact.
    cbn in Hact. lia. }
  destruct (not_all_elem (succeeded_on (fr_children r) (fs_id s)) (fs_target_ids s)
    (succeeded_on_dec _ _)) as [Hd|(t & Ht & Hd)].
  { by destruct (hl_stages _ Hh s Hin) as [_ G]; specialize (G Hd). }
  assert (forall t, ~ succeeded_on (fr_children r) (fs_id s) t ->
    engaged (fr_children r) (fs_id s) t = false) as Heng.
  { intros t' Hd'. unfold engaged. rewrite orb_false_iff, !Existsb_false.
    split; intros c Hc; rewrite (Hdone c Hc); cbn; rewrite ?andb_true_r, ?andb_false_r; [|done].
    destruct (of_pair _ _ c) eqn:E; [|done]. destruct Hd'. exists c. split_and!; auto. }
  exists s. split; [done|]. split_and!; cbn.
  - unfold claim_capacity, sat_sub, MAX_FLEET_ACTIVE_CHILDREN. rewrite Hact. lia.
  - unfold stage_claimable. destruct (hl_stages _ Hh s Hin) as [[E|[E|E]] _]; [..|done]; rewrite E; cbn;
      apply Forallb_forall; intros d Hdd; apply bool_decide_eq_true, elem_of_succeeded_stages, (Hrel d Hdd).
  - apply (sw_limit_pos _ _ _ _ (pw_each _ _ _ Hp s Hin)).
  - assert (forall l, (stage_active (fs_id s) l <= total_active l)%N) as Hle.
    { clear. induction l as [|c l IH]; [done|]. rewrite stage_active_cons, total_active_cons.
      destruct (of_stage _ _), (child_is_active _); cbn; lia. }
    specialize (Hle (fr_children r)). lia.
  - destruct (fs_target_ids s) as [|first rest] eqn:Et; [by apply not_elem_of_nil in Ht|].
    destruct (succeeded_on_dec (fr_children r) (fs_id s) first) as [Hfd|Hfd].
    + exists t. split_and!; [done|by apply Heng|]. right. by intros ? [= <-].
    + exists first. split_and!; [by left|by apply Heng|by left].
Qed.

(** ** Rounds of a healthy fleet *)

(** One round: a claim, then the success of any one of the active children. *)
Inductive success_round (a : FleetApprovalV2) (version : N) (hash : str) (requested : N) :
    FleetRunV2 -> FleetRunV2 -> Prop :=
  | round_intro r leases r1 now ids c x r' now' :
      claim_ready a version hash requested now ids r = (Ok leases, r1) ->
      c ∈ fr_children r1 -> child_is_active (fc_state c) = true ->
      fc_agent_run_id c = Some x ->
      record_outcome x OutSucceeded None now' r1 = (Ok tt, r') ->
      success_round a version hash requested r r'.

(** What is left: the targets of stages that have not succeeded there. *)
Definition pairs_of (stages : list FleetStage) : list (Uuid * Uuid) :=
  concat (map (fun s => map (pair (fs_id s)) (fs_target_ids s)) stages).
Definition pair_done (l : list FleetChildRun) (p : Uuid * Uuid) : bool :=
  existsb (fun c => of_pair p.1 p.2 c && bool_decide (fc_state c = StSucceeded)) l.
Definition work (r : FleetRunV2) : nat :=
  length (List.filter (fun p => negb (pair_done (fr_children r) p)) (pairs_of (fr_stages r))).

Lemma pair_done_spec l s t : pair_done l (s, t) = true <-> succeeded_on l s t.
Proof.
  unfold pair_done, succeeded_on. rewrite Existsb_exists. split; intros (c & Hc & E); exists c.
  - by breflect.
  - destruct E as [E1 E2]. cbn. by rewrite E1, bool_decide_true.
Qed.

Lemma pairs_of_plans stages stages' : map plan_of stages' = map plan_of stages ->
  pairs_of stages' = pairs_of stages.
Proof.
  intros E. assert (forall l, pairs_of l = pairs_of (map plan_of l)) as G.
  { intros l. unfold pairs_of. rewrite map_map. done. }
  by rewrite (G stages'), E, <- G.
Qed.

Lemma filter_length_lt {A} (f g : A -> bool) l y :
  (forall x, g x = true -> f x = true) -> y ∈ l -> f y = true -> g y = false ->
  (length (List.filter g l) < length (List.filter f l))%nat.
Proof.
  intros H. assert (forall k, (length (List.filter g k) <= length (List.filter f k))%nat) as Hle.
  { induction k as [|x k IH]; cbn; [done|]. specialize (H x).
    destruct (g x); [rewrite H by done; cbn; lia|]. destruct (f x); cbn; lia. }
  induction l as [|x l IH]; intros Hy Hf Hg; [by apply not_elem_of_nil in Hy|]. cbn.
  specialize (Hle l). apply elem_of_cons in Hy as [<-|Hy].
  - rewrite Hf, Hg. cbn. lia.
  - specialize (IH Hy Hf Hg). specialize (H x).
    destruct (g x); [rewrite H by done; cbn; lia|]. destruct (f x); cbn; lia.
Qed.

Lemma succeeded_on_app l new s t : (forall c, c ∈ new -> fc_state c = StRunning) ->
  succeeded_on (l ++ new) s t <-> succeeded_on l s t.
Proof.
  intros Hn. split; [|apply succeeded_on_app_l]. intros (c & [Hc|Hc]%elem_of_app & Hp & Hs).
  - by exists c.
  - by rewrite Hn in Hs.
Qed.

Lemma work_like r r' : same_fleet r r' ->
  (forall s t, succeeded_on (fr_children r') s t <-> succeeded_on (fr_children r) s t) ->
  work r' = work r.
Proof.
  intros [_ E] H. unfold work. rewrite (pairs_of_plans _ _ E). f_equal.
  apply List.filter_ext. intros [s t]. f_equal. apply eq_true_iff_eq.
  by rewrite !pair_done_spec.
Qed.

Lemma all_succeeded_like r r' : Forall2 stage_like (fr_stages r) (fr_stages r') ->
  all_succeeded r' = all_succeeded r.
Proof.
  unfold all_succeeded. induction 1 as [|s s' l l' [_ Hs] _ IH]; cbn; [done|].
  rewrite IH. f_equal. by apply bool_decide_ext.
Qed.

Lemma claim_healthy a version hash requested now ids r :
  healthy r -> validate_authority r a version hash = true -> (0 < requested)%N ->
  exists leases r1, claim_ready a version hash requested now ids r = (Ok leases, r1) /\
    healthy r1 /\ same_fleet r r1 /\ fr_state r1 = FlExecuting /\ work r1 = work r /\
    all_succeeded r1 = all_succeeded r /\
    (all_succeeded r = false -> (0 < total_active (fr_children r1))%N).
Proof.
  intros Hh Ha Hreq.
  destruct (claim_ready_cases a version hash requested now ids r (hl_ok _ Hh))
    as [[E _]|[[-> _]|(leases & r1 & acc & _ & _ & E & Hcl & Hok1)]]; [congruence|lia|].
  exists leases, r1. split; [done|].
  destruct Hcl as [_ Hst1 El Ec Hb (new & leases' & Eg & El' & Hf) Hsame Hlike Hsteps Hprog].
  cbn in Eg, El'. rewrite Ec in Eg. rewrite El in El'. subst leases'.
  assert (forall c, c ∈ new -> fc_agent_run_id c <> None /\ fc_state c = StRunning) as Hnew.
  { intros c Hc. destruct (proj1 (Forall2_elem _ _ _ Hf) c Hc) as (l & _ & Hs & Hi & _).
    by rewrite Hi. }
  assert (forall s t, succeeded_on (fr_children r1) s t <-> succeeded_on (fr_children r) s t) as Hsu.
  { intros s t. rewrite Eg. apply succeeded_on_app. intros c Hc. by apply Hnew. }
  split; [|split; [done|split; [done|split; [by apply work_like|split; [by apply all_succeeded_like|]]]]].
  - split; [done| |].
    + rewrite Eg. intros c [Hc|Hc]%elem_of_app; [by apply Hh|]. destruct (Hnew c Hc); auto.
    + rewrite (healthy_not_blocked r Hh) in Hsteps. intros s' Hs'.
      destruct (proj2 (Forall2_elem _ _ _ Hsteps) s' Hs') as (s & Hs & Hd).
      destruct (hl_stages _ Hh s Hs) as [H1 H2].
      destruct Hd as [->|[-> Hcb]].
      * split; [done|]. intros Hall. apply H2. intros t Ht. by apply Hsu, Hall.
      * split; [auto|]. intros Hall. exfalso.
        assert (fs_state s = StSucceeded) as Es.
        { apply H2. intros t Ht. by apply Hsu, Hall. }
        unfold stage_claimable in Hcb. by rewrite Es in Hcb.
  - intros Hall. destruct (decide (total_active (fr_children r) = 0%N)) as [Hz|Hz].
    + destruct (healthy_startable r requested Hh Hreq Hz Hall) as (s & Hs & Hsta).
      assert (leases <> []) as Hne.
      { apply (Hprog s); [by rewrite healthy_not_blocked|done]. }
      rewrite (lease_count r1 r r1 a version hash new leases), Hz by done.
      unfold list_lenN. destruct leases; [done|]. cbn. lia.
    + rewrite Eg, total_active_app. lia.
Qed.

Lemma healthy_state r st now : healthy r -> healthy (set_fleet_state st now r).
Proof. intros [? ? ?]. split; [by apply fleet_ok_state|done..]. Qed.

Lemma update_stage_all (P : FleetStage -> Prop) id f stages :
  NoDup (map fs_id stages) ->
  (forall s, s ∈ stages -> (fs_id s =? id)%N = false -> P s) ->
  (forall s, s ∈ stages -> (fs_id s =? id)%N = true -> P (f s)) ->
  forall s, s ∈ update_first (fun s => (fs_id s =? id)%N) f stages -> P s.
Proof.
  intros Hn H1 H2. induction stages as [|x l IH]; intros s Hs; cbn in Hs; [by apply not_elem_of_nil in Hs|].
  apply NoDup_cons in Hn as [Hx Hl]. destruct (fs_id x =? id)%N eqn:E.
  - apply elem_of_cons in Hs as [->|Hs]; [apply H2; [by left|done]|].
    apply H1; [by right|]. apply N.eqb_eq in E as <-. apply N.eqb_neq. intros E. apply Hx.
    rewrite <- E. by apply list_elem_of_fmap_2.
  - apply elem_of_cons in Hs as [->|Hs]; [apply H1; [by left|done]|].
    apply IH; [done| | |done]; intros y Hy; [apply H1|apply H2]; by right.
Qed.

(** The success of one active child. *)
Lemma refresh_healthy r child l : healthy r ->
  child ∈ fr_children r -> child_is_active (fc_state child) = true ->
  (exists p q, fr_children r = p ++ child :: q /\
               l = p ++ settle_child OutSucceeded None child :: q) ->
  healthy (refresh_stage (fc_stage_id child) (set_children l r)) /\
  (work (refresh_stage (fc_stage_id child) (set_children l r)) < work r)%nat.
Proof.
  intros Hh Hch Hcha (p & q & Ep & El). pose proof (hl_ok _ Hh) as Hok.
  assert (Forall2 ends_activity (fr_children r) l) as Hl.
  { rewrite Ep, El. apply Forall2_app; [|constructor; [by apply settle_ends|]].
    - clear. induction p; by constructor.
    - clear. induction q; by constructor. }
  destruct (refresh_stage_ok r _ child l Hok Hch Hcha Hl eq_refl) as [Hok1 Hsame1].
  assert (forall c, c ∈ l -> fc_agent_run_id c <> None /\ (fc_state c = StRunning \/ fc_state c = StSucceeded))
    as Hchildren.
  { rewrite El. intros c Hc. destruct (hl_children _ Hh child Hch) as [Hid _].
    apply elem_of_app in Hc as [Hc|[->|Hc]%elem_of_cons]; [|by auto|];
      apply (hl_children _ Hh); rewrite Ep, elem_of_app, elem_of_cons; auto. }
  assert (forall s t, succeeded_on l s t <->
    succeeded_on (fr_children r) s t \/ of_pair s t child = true) as Hsu.
  { intros s t. rewrite Ep, El. split.
    - intros (c & Hc & Hp & Hs). apply elem_of_app in Hc as [Hc|[->|Hc]%elem_of_cons].
      + left. exists c. split; [|done]. apply elem_of_app. by left.
      + by right.
      + left. exists c. split; [|done]. apply elem_of_app. right. by right.
    - intros [(c & Hc & Hp & Hs)|Hp].
      + apply elem_of_app in Hc as [Hc|[->|Hc]%elem_of_cons].
        * exists c. split; [|done]. apply elem_of_app. by left.
        * by rewrite Hs in Hcha.
        * exists c. split; [|done]. apply elem_of_app. right. by right.
      + exists (settle_child OutSucceeded None child). split; [|done].
        apply elem_of_app. right. by left. }
  split.
  - split; [done|done|]. cbn. apply update_stage_all; [apply (pw_ids _ _ _ (fo_plan _ Hok))| |].
    + intros s Hs Hne. destruct (hl_stages _ Hh s Hs) as [H1 H2]. split; [done|]. intros Hd.
      apply H2. intros t Ht. destruct (proj1 (Hsu _ _) (Hd t Ht)) as [|[E _]%of_pair_true]; [done|].
      by rewrite E, N.eqb_refl in Hne.
    + intros s Hs E%N.eqb_eq. destruct (hl_stages _ Hh s Hs) as [H1 _].
      unfold refreshed.
      destruct (existsb (fun c => bool_decide (fc_state c = StFailed)) _) eqn:Ef.
      { exfalso. apply Existsb_exists in Ef as (c & Hc & Ef). breflect.
        apply elem_of_filterb in Hc as [Hc _].
        by destruct (Hchildren c Hc) as [_ [E'|E']]; rewrite E' in Ef. }
      destruct (forallb _ _) eqn:Ea; [by split; [right; right|]|].
      assert (forall s', plan_of s' = plan_of s -> (fs_state s' = StPending \/ fs_state s' = StRunning \/ fs_state s' = StSucceeded) ->
        (fs_state s' = StPending \/ fs_state s' = StRunning \/ fs_state s' = StSucceeded) /\
        ((forall t, t ∈ fs_target_ids s' -> succeeded_on l (fs_id s') t) -> fs_state s' = StSucceeded)) as G.
      { intros s' Hp Hst'. split; [done|]. intros Hd. exfalso.
        apply plan_of_fields in Hp as (Ei & Et & _). apply not_true_iff_false in Ea. apply Ea.
        apply Forallb_forall. intros t Ht. rewrite <- Et in Ht.
        destruct (Hd t Ht) as (c & Hc & [P1 P2]%of_pair_true & Hcs). apply Existsb_exists.
        exists c. split; [|by rewrite P2, N.eqb_refl, bool_decide_true].
        apply elem_of_filterb. split; [done|]. unfold of_stage. rewrite P1, Ei, E. apply N.eqb_refl. }
      apply G; destruct (existsb (fun c => child_is_active (fc_state c)) _); cbn;
        rewrite ?plan_of_set; auto.
  - unfold work. rewrite (pairs_of_plans (fr_stages r)) by apply Hsame1.
    cbn [fr_children refresh_stage set_stages set_children].
    destruct (ck_stage _ _ (so_child _ _ (fo_sched _ Hok) child Hch)) as (s & Hs & E & Ht & _).
    apply filter_length_lt with (fc_stage_id child, fc_target_id child).
    + intros [s' t']. rewrite !negb_true_iff, <- !not_true_iff_false, !pair_done_spec, Hsu. tauto.
    + unfold pairs_of. apply list_elem_of_In, in_concat. exists (map (pair (fs_id s)) (fs_target_ids s)).
      split; apply list_elem_of_In; [by apply (list_elem_of_fmap_2 (fun s => map (pair (fs_id s)) (fs_target_ids s)))|].
      rewrite <- E. by apply (list_elem_of_fmap_2 (pair (fs_id s))).
    + rewrite negb_true_iff, <- not_true_iff_false, pair_done_spec. intros (c' & Hc' & [P1 P2]%of_pair_true & Hcs).
      assert (child = c') as <-.
      { eapply pairs_exclusive; [apply (so_pairs _ _ (fo_sched _ Hok))|done|done|by split| |by rewrite Hcs].
        intros X. by rewrite X in Hcha. }
      by rewrite Hcs in Hcha.
    + rewrite negb_false_iff, pair_done_spec, Hsu. right. by apply of_pair_true.
Qed.

Lemma record_healthy r c x now :
  healthy r -> fr_recovery_state r = FrLive -> fr_state r = FlExecuting ->
  c ∈ fr_children r -> child_is_active (fc_state c) = true -> fc_agent_run_id c = Some x ->
  exists r', record_outcome x OutSucceeded None now r = (Ok tt, r') /\
    healthy r' /\ same_fleet r r' /\ (work r' < work r)%nat /\
    fr_state r' = if all_succeeded r' then FlVerifying else FlExecuting.
Proof.
  intros Hh Hlive Hst Hc Ha Hx. pose proof (hl_ok _ Hh) as Hok.
  unfold record_outcome. rewrite Hlive, Hst, !bool_decide_true by done. cbn [negb orb andb bad_error_code].
  rewrite (bool_decide_false (None <> None)) by by intros [].
  destruct (find (awaits_outcome x) (fr_children r)) as [child|] eqn:Ef.
  2:{ exfalso. rewrite find_none_b in Ef. specialize (Ef c Hc). unfold awaits_outcome in Ef.
      by rewrite Hx, bool_decide_true, Ha in Ef. }
  destruct (find_settled _ OutSucceeded None _ _ Ef eq_refl) as (Hch & Hcha & Hl).
  set (l := update_first _ _ _) in *.
  destruct (refresh_stage_ok r _ child l Hok Hch Hcha Hl eq_refl) as [Hok1 Hsame1].
  destruct (refresh_healthy r child l Hh Hch Hcha) as (Hh1 & Hwork).
  { destruct (update_first_split _ (settle_child OutSucceeded None) _ _ Ef) as (p & q & E1 & E2 & _).
    by exists p, q. }
  set (r1 := refresh_stage (fc_stage_id child) (set_children l r)) in *.
  assert (apply_failure_policy now r1 = (Ok tt, r1)) as ->.
  { unfold apply_failure_policy. destruct (existsb _ _) eqn:E; [|done]. exfalso.
    apply Existsb_exists in E as (s & Hs & E). breflect.
    by destruct (hl_stages _ Hh1 s Hs) as [[E'|[E'|E']] _]; rewrite E' in E. }
  cbv beta iota zeta. assert (fr_state r1 = FlExecuting) as Hst1 by done.
  rewrite Hst1, (bool_decide_false (FlExecuting = FlPausedForReview)) by done.
  rewrite Hst1, (bool_decide_true (FlExecuting = FlExecuting)) by done.
  cbn [andb]. fold (all_succeeded r1). destruct (all_succeeded r1) eqn:Eall.
  - unfold coord_transition, fleet_transition_to.
    change (fr_recovery_state r1) with (fr_recovery_state r). rewrite Hlive, Hst1, bool_decide_true by done.
    cbn [negb orb fleet_can_transition_to fleet_is_terminal]. eexists. split; [done|].
    split; [by apply healthy_state, healthy_state|]. split; [done|]. split; [done|].
    change (all_succeeded _) with (all_succeeded r1). by rewrite Eall.
  - eexists. split; [done|]. split; [by apply healthy_state|]. split; [done|]. split; [done|].
    change (all_succeeded _) with (all_succeeded r1). by rewrite Eall.
Qed.

Lemma authority_after r r' a version hash :
  validate_authority r a version hash = true -> same_fleet r r' -> fr_state r' = FlExecuting ->
  validate_authority r' a version hash = true.
Proof.
  unfold validate_authority. rewrite !validate_authority_iff. unfold sealed_by.
  intros (H1 & _ & H3 & H4 & H5 & H6 & H7 & H8) [E _] Hs. injection E as E1 E2 _ _ E5 E6 E7.
  rewrite E1, E2, E5, E6, E7, Hs. split_and!; [done| |done..|apply H8|apply H8].
  right. by left.
Qed.

Lemma round_result a version hash requested r r' :
  healthy r -> validate_authority r a version hash = true -> all_succeeded r = false ->
  (0 < requested)%N -> success_round a version hash requested r r' ->
  healthy r' /\ (work r' < work r)%nat /\
  (fr_state r' = FlVerifying \/
   (validate_authority r' a version hash = true /\ all_succeeded r' = false)).
Proof.
  intros Hh Ha Hall Hreq Hr. revert Hh Ha Hall.
  destruct Hr as [r0 leases r1 now ids c x r2 now' Ec Hc Hca Hx Er]. intros Hh Ha Hall.
  destruct (claim_healthy a version hash requested now ids r0 Hh Ha Hreq)
    as (leases' & r1' & Ec' & Hh1 & Hs1 & Hst1 & Hw & _ & _).
  rewrite Ec in Ec'. injection Ec' as <- <-.
  assert (fr_recovery_state r1 = FrLive) as Hlive.
  { unfold validate_authority in Ha. apply validate_authority_iff in Ha as (Hl & _).
    destruct Hs1 as [E _]. injection E as _ _ _ _ _ _ E. congruence. }
  destruct (record_healthy r1 c x now' Hh1 Hlive Hst1 Hc Hca Hx) as (r2' & Er' & Hh2 & Hs2 & Hw2 & Hst2).
  rewrite Er in Er'. injection Er' as <-. split; [done|]. split; [lia|].
  destruct (all_succeeded r2); [by left|right]. split; [|done].
  eapply authority_after; [exact Ha| |done]. by eapply same_fleet_trans.
Qed.

Lemma round_exists a version hash requested r :
  healthy r -> validate_authority r a version hash = true -> all_succeeded r = false ->
  (0 < requested)%N -> exists r', success_round a version hash requested r r'.
Proof.
  intros Hh Ha Hall Hreq.
  destruct (claim_healthy a version hash requested 0 (fun n => N.of_nat n) r Hh Ha Hreq)
    as (leases & r1 & Ec & Hh1 & Hs1 & Hst1 & _ & _ & Hact). specialize (Hact Hall).
  assert (exists c, c ∈ fr_children r1 /\ child_is_active (fc_state c) = true) as (c & Hc & Hca).
  { unfold total_active, list_lenN in Hact. destruct (active_children (fr_children r1)) as [|c l] eqn:E;
      [cbn in Hact; lia|]. exists c. assert (c ∈ c :: l) as Hc by by left. rewrite <- E in Hc.
    by apply elem_of_filterb in Hc. }
  assert (fr_recovery_state r1 = FrLive) as Hlive.
  { unfold validate_authority in Ha. apply validate_authority_iff in Ha as (Hl & _).
    destruct Hs1 as [E _]. injection E as _ _ _ _ _ _ E. congruence. }
  destruct (hl_children _ Hh1 c Hc) as [Hid _].
  destruct (fc_agent_run_id c) as [x|] eqn:Hx; [|done].
  destruct (record_healthy r1 c x 0 Hh1 Hlive Hst1 Hc Hca Hx) as (r2 & Er & _).
  exists r2. by econstructor.
Qed.

Lemma verifying_no_round a version hash requested r r' :
  fr_state r = FlVerifying -> ~ success_round a version hash requested r r'.
Proof.
  intros Hst Hr. revert Hst. destruct Hr as [r0 leases r1 now ids c x r2 now' Ec _ _ _ _].
  intros Hst. unfold claim_ready in Ec.
  destruct (validate_authority r0 a version hash) eqn:E; [|done].
  unfold validate_authority in E. apply validate_authority_iff in E as (_ & E & _).
  rewrite Hst in E. apply elem_of_cons in E as [?|E%list_elem_of_singleton]; done.
Qed.

(** C12. In a healthy fleet whose stages are not all done, rounds follow one another
    until it is verifying: as long as it is not there another round exists,
    whatever the claims drew and whichever active child finished first, and no
    sequence of rounds is longer than the number of targets left.  So a fleet
    in which nothing fails always ends in [Verifying]. *)
Theorem fleet_reaches_verifying a version hash requested r n r' :
  healthy r -> validate_authority r a version hash = true -> all_succeeded r = false ->
  (0 < requested)%N ->
  nsteps (success_round a version hash requested) n r r' ->
  (n <= work r)%nat /\
  (fr_state r' = FlVerifying \/ exists r'', success_round a version hash requested r' r'').
Proof.
  intros Hh Ha Hall Hreq Hn. revert Hh Ha Hall.
  induction Hn as [r|n r r1 r2 Hr Hn IH]; intros Hh Ha Hall.
  - split; [lia|right]. by apply round_exists.
  - destruct (round_result _ _ _ _ _ _ Hh Ha Hall Hreq Hr) as (Hh1 & Hw & Hd).
    destruct Hd as [Hv|[Ha1 Hall1]].
    + inversion Hn as [|? ? ? ? Hr' _]; subst; [split; [lia|by left]|].
      exfalso. by eapply verifying_no_round.
    + destruct (IH Hh1 Ha1 Hall1) as [Hle He]. split; [lia|done].
Qed.

(** ** A concrete fleet *)

Definition sample_order (m : gmap Uuid N) : list (Uuid * N) := map_to_list m.

Lemma sample_order_lists : lists_entries sample_order.
Proof. intros m. unfold sample_order. reflexivity. Qed.

#[local] Instance sample_serde : FleetSerde := {
  encode_graph _ _ _ stages := Some (map fs_id stages) }.

Definition sample_stage_draft (id : Uuid) (targets deps : list Uuid)
    (strategy : FleetExecutionStrategyV2) (limit : N) : FleetStageDraft :=
  {| fsd_id := id; fsd_summary := lit "Inspect"; fsd_target_ids := targets; fsd_depends_on := deps;
     fsd_strategy := strategy; fsd_concurrency_limit := limit |}.

Definition sample_binding (k : N) : FleetTargetBinding :=
  {| ftb_profile_id := k + 1; ftb_session_id := k + 11; ftb_role := None; ftb_ordinal := k |}.

(** A canary stage over two targets, and a rolling stage after it. *)
Definition sample_stages : list FleetStageDraft :=
  [sample_stage_draft 101 [1; 2] [] FxCanary 2; sample_stage_draft 102 [1; 2] [101] FxRollingBatch 2]%N.

Definition sample_fleet_request (policy : FleetFailurePolicyV2) (stages : list FleetStageDraft) :
    FleetRunDraft :=
  {| frd_production := true; frd_failure_policy := policy;
     frd_targets := [sample_binding 0; sample_binding 1]; frd_stages := stages |}.

Definition empty_fleet : FleetRunV2 :=
  from_metadata 0 0 FlDraft false FpStop [] [] [] [] FrMetadataOnly 0 0.

Definition sample_fleet (policy : FleetFailurePolicyV2) (stages : list FleetStageDraft) : FleetRunV2 :=
  match fleet_draft (H := quoting_externals) sample_order 7 (sample_fleet_request policy stages) 1 with
  | Ok r => r
  | Err _ => empty_fleet
  end.

(** The transitions of [request_fleet_approval] and of a granted decision. *)
Definition to_approved : list fleet_op :=
  map (fun s => OpTransition s 2)
    [FlValidatingTargets; FlInvestigating; FlPlanning; FlAwaitingApproval; FlApproved].

Definition approved_fleet (policy : FleetFailurePolicyV2) (stages : list FleetStageDraft) : FleetRunV2 :=
  fleet_exec_all to_approved (sample_fleet policy stages).

Definition sample_approval (r : FleetRunV2) : FleetApprovalV2 :=
  {| fa_id := 9; fa_fleet_run_id := fr_id r; fa_fleet_version := fr_version r;
     fa_graph_digest := fr_graph_digest r; fa_targets := fr_targets r; fa_policy_version := 3;
     fa_policy_hash := lit "p"; fa_state := FaGranted; fa_invalidation_code := None;
     fa_created_at := 1; fa_decided_at := Some 2%N |}.

(** Claims draw identifiers from [base] upwards. *)
Definition sample_claim (r : FleetRunV2) (base : nat) : fleet_op :=
  OpClaim (sample_approval r) 3 (lit "p") 4 5 (fun n => N.of_nat (base + n)).

Lemma sample_fleet_drafted policy :
  fleet_draft (H := quoting_externals) sample_order 7 (sample_fleet_request policy sample_stages) 1
  = Ok (sample_fleet policy sample_stages).
Proof. destruct policy; vm_compute; reflexivity. Defined.

Lemma fleet_metadata_exact_witness :
  validate_metadata sample_order empty_fleet <> Ok tt /\
  exists e, validate_metadata sample_order empty_fleet = Err (PlanError e).
Proof.
  pose proof (fleet_metadata_exact sample_order empty_fleet sample_order_lists) as [_ H].
  assert (validate_metadata sample_order empty_fleet <> Ok tt) as Hn by done.
  exact (conj Hn (H Hn)).
Defined.

Lemma fleet_draft_exact_witness :
  plan_wf true [sample_binding 0; sample_binding 1] (map stage_of sample_stages).
Proof.
  pose proof (fleet_draft_exact (H := quoting_externals) sample_order 7
    (sample_fleet_request FpStop sample_stages) 1 sample_order_lists) as [H _].
  apply (H (sample_fleet FpStop sample_stages)). vm_compute. reflexivity.
Defined.

Lemma fleet_target_shape_exact_witness :
  normalized_role (Some (lit "db")) = Ok (Some (lit "db")).
Proof.
  pose proof (fleet_target_shape_exact
    [{| ftr_profile_id := 1; ftr_session_id := 2; ftr_role := Some (lit " DB ") |};
     {| ftr_profile_id := 3; ftr_session_id := 4; ftr_role := None |}]
    [Some (lit "db"); None]) as [_ H].
  apply H; [vm_compute; reflexivity|by left].
Defined.

Definition awaiting_fleet : FleetRunV2 :=
  set_fleet_state FlAwaitingApproval 2 (sample_fleet FpStop sample_stages).

Lemma fleet_approval_exact_witness :
  exists a, fleet_bind 9 awaiting_fleet 3 (lit "p") 4 = Ok a /\
            fleet_validate a awaiting_fleet 3 (lit "p") = Ok tt.
Proof.
  destruct (fleet_bind 9 awaiting_fleet 3 (lit "p") 4) as [a|e] eqn:E;
    [|vm_compute in E; discriminate E].
  pose proof (fleet_approval_exact 9 awaiting_fleet 3 (lit "p") 4 a E) as (_ & _ & _ & H & _).
  by exists a.
Defined.

Lemma fleet_schedule_safe_witness :
  (total_active (fr_children (fleet_exec_all (to_approved ++ [sample_claim (sample_fleet FpStop sample_stages) 0])
     (sample_fleet FpStop sample_stages))) <= 10)%N.
Proof.
  pose proof (fleet_schedule_safe (H := quoting_externals) sample_order 7
    (sample_fleet_request FpStop sample_stages) 1 (sample_fleet FpStop sample_stages)
    (to_approved ++ [sample_claim (sample_fleet FpStop sample_stages) 0]) sample_order_lists
    (sample_fleet_drafted FpStop)) as (_ & H & _).
  exact H.
Defined.

Lemma approved_fleet_ok policy : fleet_ok (approved_fleet policy sample_stages).
Proof.
  apply fleet_exec_all_ok. eapply fleet_draft_ok; [apply sample_order_lists|apply sample_fleet_drafted].
Qed.

Lemma fleet_claims_authorized_witness :
  match claim_ready (sample_approval (approved_fleet FpStop sample_stages)) 3 (lit "p") 4 5
          (fun n => N.of_nat (50 + n)) (approved_fleet FpStop sample_stages) with
  | (Ok leases, r') => leases <> [] /\ fr_state r' = FlExecuting
  | (Err _, _) => False
  end.
Proof.
  pose proof (fleet_claims_authorized (approved_fleet FpStop sample_stages)
    (sample_approval (approved_fleet FpStop sample_stages)) 3 (lit "p") 4 5
    (fun n => N.of_nat (50 + n)) (approved_fleet_ok FpStop)) as H.
  assert (match claim_ready (sample_approval (approved_fleet FpStop sample_stages)) 3 (lit "p") 4 5
          (fun n => N.of_nat (50 + n)) (approved_fleet FpStop sample_stages) with
    | (Ok leases, _) => bool_decide (length leases = 1%nat) | _ => false end = true) as Hl
    by (vm_compute; reflexivity).
  destruct (claim_ready _ _ _ _ _ _ _) as [[leases|e] r']; [|discriminate Hl].
  assert (leases <> []) as Hn by (intros ->; discriminate Hl).
  exact (conj Hn (proj1 (proj2 (proj2 (proj2 (proj2 (H Hn))))))).
Defined.

Lemma approved_fleet_healthy : healthy (approved_fleet FpStop sample_stages).
Proof.
  assert (fr_children (approved_fleet FpStop sample_stages) = []) as Ec by (vm_compute; reflexivity).
  split; [apply approved_fleet_ok|rewrite Ec; intros c []%not_elem_of_nil|].
  intros s Hs. assert (fs_state s = StPending /\ exists t, t ∈ fs_target_ids s) as [E (t & Ht)].
  { vm_compute in Hs. apply elem_of_cons in Hs as [->|Hs%list_elem_of_singleton];
      [split; [done|exists 1%N; by left]|subst s; split; [done|exists 1%N; by left]]. }
  split; [by left|]. rewrite Ec. intros Hd. by destruct (Hd t Ht) as (c & []%not_elem_of_nil & _).
Qed.

Lemma fleet_reaches_verifying_witness :
  exists r'', success_round (sample_approval (approved_fleet FpStop sample_stages)) 3 (lit "p") 2
                (approved_fleet FpStop sample_stages) r''.
Proof.
  pose proof (fleet_reaches_verifying (sample_approval (approved_fleet FpStop sample_stages)) 3 (lit "p") 2
    (approved_fleet FpStop sample_stages) 0 (approved_fleet FpStop sample_stages)
    approved_fleet_healthy ltac:(vm_compute; reflexivity) ltac:(vm_compute; reflexivity)
    ltac:(lia) (nsteps_O _ _)) as [_ [H|H]]; [vm_compute in H; discriminate H|exact H].
Defined.

(** ** Fleets that do not finish *)

(** What a scheduled fleet shows: its state, its stages, its children. *)
Definition fleet_view (r : FleetRunV2) :
    FleetRunStateV2 * list FleetStageStateV2 * list (Uuid * Uuid * FleetStageStateV2) :=
  (fr_state r, map fs_state (fr_stages r),
   map (fun c => (fc_stage_id c, fc_target_id c, fc_state c)) (fr_children r)).

Definition two_stages : list FleetStageDraft :=
  [sample_stage_draft 101 [1] [] FxSequential 1; sample_stage_draft 102 [2] [] FxSequential 1]%N.

Definition run_fleet (policy : FleetFailurePolicyV2) (stages : list FleetStageDraft)
    (os : list fleet_op) : FleetRunV2 :=
  fleet_exec_all os (approved_fleet policy stages).

Definition claim_at (policy : FleetFailurePolicyV2) (stages : list FleetStageDraft) (base : nat) :
    fleet_op := sample_claim (approved_fleet policy stages) base.

(** A child whose outcome is [Cancelled] fails no stage, so no failure policy
    applies; its target is settled, so it is not run again; and its stage stays
    [Running].  The fleet stays in [Executing] with nothing active and nothing
    to claim, under every failure policy. *)
Example cancelled_child_stalls :
  forall policy, fleet_view (run_fleet policy two_stages
    [claim_at policy two_stages 50; OpOutcome 50 OutSucceeded None 6;
     OpOutcome 51 OutCancelled None 7; claim_at policy two_stages 60])
  = (FlExecuting, [StSucceeded; StRunning], [(101, 1, StSucceeded); (102, 2, StCancelled)])%N.
Proof. intros []; vm_compute; reflexivity. Qed.

(** With the policy [Stop], the failure of one child ends the fleet while its
    sibling is still running; the sibling stays recorded as running, and its
    outcome is refused. *)
Example stop_leaves_children_running :
  fleet_view (run_fleet FpStop two_stages
    [claim_at FpStop two_stages 50; OpOutcome 50 OutFailed None 6; OpOutcome 51 OutSucceeded None 7])
  = (FlFailed, [StFailed; StRunning], [(101, 1, StFailed); (102, 2, StRunning)])%N.
Proof. vm_compute; reflexivity. Qed.

(** With the policy [Continue], a failed stage keeps the fleet in [Executing]
    after everything else has succeeded. *)
Example continue_never_ends :
  fleet_view (run_fleet FpContinue two_stages
    [claim_at FpContinue two_stages 50; OpOutcome 50 OutFailed None 6;
     OpOutcome 51 OutSucceeded None 7; claim_at FpContinue two_stages 60])
  = (FlExecuting, [StFailed; StSucceeded], [(101, 1, StFailed); (102, 2, StSucceeded)])%N.
Proof. vm_compute; reflexivity. Qed.

(** After a review the failed stage is still failed, so the next outcome, a
    success of another stage, pauses the fleet for review again. *)
Example review_pauses_again :
  let paused := [claim_at FpPauseForReview two_stages 50; OpOutcome 50 OutFailed None 6;
                 OpContinue (sample_approval (approved_fleet FpPauseForReview two_stages)) 3 (lit "p") 7;
                 claim_at FpPauseForReview two_stages 60; OpOutcome 60 OutSucceeded None 8] in
  fleet_view (run_fleet FpPauseForReview two_stages paused)
  = (FlPausedForReview, [StFailed; StSucceeded],
     [(101, 1, StFailed); (102, 2, StBlocked); (102, 2, StSucceeded)])%N.
Proof. vm_compute; reflexivity. Qed.
