(* ===== verification/FleetFacts.v ===== *)
(** * Fleet investigation facts (agent/fleet_facts.rs)

    The facts a fleet gathers from its targets: a bounded map from target and
    key to a value backed by a typed tool result, and the comparison of its
    targets.  The [BTreeMap] is a list kept in the order of its keys: targets
    first, then the text of the key. *)
From S2P Require Import Prelude Str RunState Context Facts FleetRun.

Definition MAX_FLEET_FACTS : N := 512.
Definition MAX_FLEET_FACTS_PER_TARGET : N := 96.
Definition MAX_FLEET_FACT_KEY_BYTES : N := 192.
Definition MAX_FLEET_FACT_VALUE_CHARS : nat := 512.
Definition FLEET_CHILD_TOOL_CALL_BUDGET : N := 12.

Inductive FleetFactError := FfTargetMismatch | FfEvidenceRequired | FfLimitExceeded.
#[export] Instance fleet_fact_error_eq_dec : EqDecision FleetFactError.
Proof. solve_decision. Defined.

Record FleetFactView := {
  ffv_target_id : Uuid;
  ffv_role : option str;
  ffv_key : str;
  ffv_value : str;
  ffv_evidence_id : Uuid;
  ffv_observed_at : N;
  ffv_expires_at : N;
}.
#[export] Instance fleet_fact_view_eq_dec : EqDecision FleetFactView.
Proof. solve_decision. Defined.

Inductive FleetComparisonStatus := FcsUniform | FcsDivergent | FcsMissing.
#[export] Instance fleet_comparison_status_eq_dec : EqDecision FleetComparisonStatus.
Proof. solve_decision. Defined.

Inductive FleetComparisonKind := FckRole | FckVersion | FckService | FckConfigurationDigest.
#[export] Instance fleet_comparison_kind_eq_dec : EqDecision FleetComparisonKind.
Proof. solve_decision. Defined.

Record FleetComparisonValue := {
  fcv_target_id : Uuid;
  fcv_role : option str;
  fcv_value : option str;
  fcv_evidence_id : option Uuid;
}.

Record FleetFactComparison := {
  ffc_kind : FleetComparisonKind;
  ffc_key : str;
  ffc_status : FleetComparisonStatus;
  ffc_targets : list FleetComparisonValue;
}.

Record FleetInvestigationView := {
  fiv_facts : list FleetFactView;
  fiv_comparisons : list FleetFactComparison;
}.

(** ** The ordered map *)
Abbreviation fact_key := (Uuid * str)%type.
Abbreviation fact_map := (list (fact_key * FleetFactView)).

Definition key_eqb (a b : fact_key) : bool := (a.1 =? b.1)%N && str_eqb a.2 b.2.
Definition key_ltb (a b : fact_key) : bool :=
  (a.1 <? b.1)%N || ((a.1 =? b.1)%N && str_leb a.2 b.2 && negb (str_eqb a.2 b.2)).

Fixpoint bt_insert (k : fact_key) (v : FleetFactView) (m : fact_map) : fact_map :=
  match m with
  | [] => [(k, v)]
  | (k', v') :: rest =>
      if key_eqb k k' then (k, v) :: rest
      else if key_ltb k k' then (k, v) :: m
      else (k', v') :: bt_insert k v rest
  end.

Definition bt_contains (k : fact_key) (m : fact_map) : bool := existsb (fun e => key_eqb k e.1) m.

Record FleetFactSet := { ffs_targets : list FleetTargetBinding; ffs_facts : fact_map }.

Definition fleet_fact_set_new (targets : list FleetTargetBinding) : FleetFactSet :=
  {| ffs_targets := targets; ffs_facts := [] |}.

(** ** Merging *)
Definition validated_view (binding : FleetTargetBinding) (expected_target_id : Uuid)
    (fact : WorkingFact) : result FleetFactError FleetFactView :=
  if negb (bool_decide (wf_target_id fact = Some expected_target_id)) then Err FfTargetMismatch else
  if negb (bool_decide (wf_provenance fact = ToolObservation))
     || is_empty (default [] (wf_source_tool fact)) || bool_decide (wf_tool_call_id fact = None)
  then Err FfEvidenceRequired else
  if is_empty (wf_key fact) || (MAX_FLEET_FACT_KEY_BYTES <? blen (wf_key fact))%N
  then Err FfLimitExceeded else
  let value := take MAX_FLEET_FACT_VALUE_CHARS (redact_secrets (wf_value fact)).1 in
  evidence ← ok_or (wf_tool_call_id fact) FfEvidenceRequired;
  Ok {| ffv_target_id := expected_target_id; ffv_role := ftb_role binding; ffv_key := wf_key fact;
        ffv_value := value; ffv_evidence_id := evidence; ffv_observed_at := wf_observed_at fact;
        ffv_expires_at := sat_add64 (wf_observed_at fact) (wf_ttl_ms fact) |}.

Fixpoint stage_facts (binding : FleetTargetBinding) (expected_target_id now : N)
    (facts : list WorkingFact) (staged : fact_map) : result FleetFactError fact_map :=
  match facts with
  | [] => Ok staged
  | fact :: rest =>
      if negb (fact_is_fresh fact now) then stage_facts binding expected_target_id now rest staged
      else
        view ← validated_view binding expected_target_id fact;
        stage_facts binding expected_target_id now rest
          (bt_insert (expected_target_id, ffv_key view) view staged)
  end.

Definition insert_all (staged facts : fact_map) : fact_map :=
  foldl (fun m e => bt_insert e.1 e.2 m) facts staged.

Definition fleet_facts_merge (expected_target_id : Uuid) (source : list WorkingFact) (now : N)
    (self : FleetFactSet) : result FleetFactError N * FleetFactSet :=
  match find (fun t => (ftb_profile_id t =? expected_target_id)%N) (ffs_targets self) with
  | None => (Err FfTargetMismatch, self)
  | Some binding =>
      match stage_facts binding expected_target_id now source [] with
      | Err e => (Err e, self)
      | Ok staged =>
          let facts := ffs_facts self in
          let new_keys := list_lenN (List.filter (fun e => negb (bt_contains e.1 facts)) staged) in
          let target_existing :=
            list_lenN (List.filter (fun e => (e.1.1 =? expected_target_id)%N) facts) in
          if (MAX_FLEET_FACTS <? sat_add64 (list_lenN facts) new_keys)%N
             || (MAX_FLEET_FACTS_PER_TARGET <? sat_add64 target_existing new_keys)%N
          then (Err FfLimitExceeded, self)
          else (Ok (list_lenN staged),
                {| ffs_targets := ffs_targets self; ffs_facts := insert_all staged facts |})
      end
  end.

(** ** The view *)
Definition ends_with (s p : str) : bool := starts_with (rev s) (rev p).

Definition comparison_kind (key : str) : option FleetComparisonKind :=
  if str_eqb key (lit "os") || str_eqb key (lit "kernel") || ends_with key (lit ".version")
  then Some FckVersion
  else if starts_with key (lit "service.") && ends_with key (lit ".status") then Some FckService
  else if ends_with key (lit ".config_digest") then Some FckConfigurationDigest
  else None.

Definition comparison_status (targets : list FleetComparisonValue) : FleetComparisonStatus :=
  if existsb (fun t => bool_decide (fcv_value t = None)) targets then FcsMissing else
  let values := omap fcv_value targets in
  match values with
  | [] => FcsUniform
  | first :: rest => if forallb (fun v => str_eqb v first) rest then FcsUniform else FcsDivergent
  end.

Definition role_comparison (self : FleetFactSet) : FleetFactComparison :=
  let targets := map (fun t => {| fcv_target_id := ftb_profile_id t; fcv_role := ftb_role t;
                                  fcv_value := ftb_role t; fcv_evidence_id := None |})
                     (ffs_targets self) in
  {| ffc_kind := FckRole; ffc_key := lit "fleet.role"; ffc_status := comparison_status targets;
     ffc_targets := targets |}.

(** [Vec::dedup]: one of equal neighbours stays. *)
Fixpoint dedup {A} `{EqDecision A} (l : list A) : list A :=
  match l with
  | [] => []
  | x :: rest => match rest with
                 | y :: _ => if decide (x = y) then dedup rest else x :: dedup rest
                 | [] => [x]
                 end
  end.

Definition comparison_row (self : FleetFactSet) (facts : list FleetFactView)
    (kk : FleetComparisonKind * str) : FleetFactComparison :=
  let targets := map (fun binding =>
    let fact := find (fun f => (ffv_target_id f =? ftb_profile_id binding)%N
                               && str_eqb (ffv_key f) kk.2) facts in
    {| fcv_target_id := ftb_profile_id binding; fcv_role := ftb_role binding;
       fcv_value := ffv_value <$> fact; fcv_evidence_id := ffv_evidence_id <$> fact |})
    (ffs_targets self) in
  {| ffc_kind := kk.1; ffc_key := kk.2; ffc_status := comparison_status targets;
     ffc_targets := targets |}.

Definition fleet_facts_view (now : N) (self : FleetFactSet) : FleetInvestigationView :=
  let facts := List.filter (fun f => (now <? ffv_expires_at f)%N) (map snd (ffs_facts self)) in
  let keys := omap (fun f => (fun kind => (kind, ffv_key f)) <$> comparison_kind (ffv_key f)) facts in
  let keys := sort_by (fun a b : FleetComparisonKind * str => str_leb a.2 b.2) keys in
  let keys := dedup keys in
  {| fiv_facts := facts;
     fiv_comparisons := role_comparison self :: map (comparison_row self facts) keys |}.

(** ** The order of the map *)

Lemma str_leb_antisym a b : str_leb a b = true -> str_leb b a = true -> a = b.
Proof.
  revert b. induction a as [|x a IH]; intros [|y b]; cbn; try done.
  destruct (N.ltb_spec x y) as [H|H], (N.ltb_spec y x) as [H'|H']; try lia; try done.
  intros H1 H2. assert (x = y) as -> by lia. rewrite N.eqb_refl in *. f_equal. by apply IH.
Qed.

Definition key_lt (a b : fact_key) : Prop := key_ltb a b = true.

Lemma key_lt_iff a b : key_lt a b <->
  (a.1 < b.1)%N \/ (a.1 = b.1 /\ str_leb a.2 b.2 = true /\ a.2 <> b.2).
Proof.
  unfold key_lt, key_ltb. rewrite orb_true_iff, !andb_true_iff, negb_true_iff, N.ltb_lt, N.eqb_eq.
  unfold str_eqb. rewrite bool_decide_eq_false. tauto.
Qed.

Lemma key_lt_trans a b c : key_lt a b -> key_lt b c -> key_lt a c.
Proof.
  rewrite !key_lt_iff. intros [H1|(H1 & H1' & H1'')] [H2|(H2 & H2' & H2'')]; [left; lia..|right].
  split_and!; [lia|by eapply str_leb_trans|]. intros E. rewrite <- E in H2'.
  by apply H1'', str_leb_antisym.
Qed.

Lemma key_lt_irrefl a : ~ key_lt a a.
Proof. rewrite key_lt_iff. intros [H|(_ & _ & H)]; [lia|done]. Qed.

Lemma key_eqb_eq a b : key_eqb a b = true <-> a = b.
Proof.
  unfold key_eqb. rewrite andb_true_iff, N.eqb_eq, str_eqb_eq. destruct a, b. cbn. naive_solver.
Qed.

Lemma key_lt_total a b : a <> b -> key_lt a b \/ key_lt b a.
Proof.
  intros Hne. rewrite !key_lt_iff. destruct a as [t x], b as [u y]. cbn.
  destruct (N.lt_trichotomy t u) as [H|[->|H]]; [auto| |auto].
  assert (x <> y) by (intros ->; done).
  destruct (str_leb x y) eqn:E; [left; right; done|]. apply str_leb_total in E. right; right; auto.
Qed.

Definition sorted_map (m : fact_map) : Prop := StronglySorted key_lt (map fst m).

Lemma bt_insert_keys k v m x : x ∈ map fst (bt_insert k v m) <-> x = k \/ x ∈ map fst m.
Proof.
  induction m as [|[k' v'] m IH]; cbn; [by rewrite elem_of_cons|].
  destruct (key_eqb k k') eqn:E.
  - apply key_eqb_eq in E as ->. cbn. rewrite !elem_of_cons. tauto.
  - destruct (key_ltb k k'); cbn; rewrite !elem_of_cons; [done|]. rewrite IH. tauto.
Qed.

Lemma bt_insert_sorted k v m : sorted_map m -> sorted_map (bt_insert k v m).
Proof.
  unfold sorted_map. induction m as [|[k' v'] m IH]; cbn; [repeat constructor|].
  intros Hs. inversion Hs as [|? ? Hs' Hf]; subst. destruct (key_eqb k k') eqn:E.
  - apply key_eqb_eq in E as ->. by constructor.
  - destruct (key_ltb k k') eqn:El; cbn.
    + constructor; [done|]. constructor; [done|]. eapply Forall_impl; [exact Hf|].
      intros x Hx. by eapply key_lt_trans.
    + constructor; [by apply IH|]. apply Forall_forall. intros x [->|Hx]%bt_insert_keys.
      * destruct (key_lt_total k k') as [H|H]; [|unfold key_lt in H; congruence|done].
        intros ->. by rewrite (proj2 (key_eqb_eq k' k')) in E.
      * rewrite Forall_forall in Hf. by apply Hf.
Qed.

Lemma sorted_map_nodup m : sorted_map m -> NoDup (map fst m).
Proof.
  unfold sorted_map. induction 1 as [|k l _ IH Hf]; constructor; [|done].
  rewrite Forall_forall in Hf. intros Hk. by apply (key_lt_irrefl k), Hf.
Qed.

Lemma bt_contains_spec k m : bt_contains k m = true <-> k ∈ map fst m.
Proof.
  unfold bt_contains. rewrite Existsb_exists, list_elem_of_fmap. split; intros (e & H1 & H2); exists e.
  - apply key_eqb_eq in H2. done.
  - subst. split; [done|]. by apply key_eqb_eq.
Qed.

(** What an insertion into a sorted map adds: the entry, and the old ones of
    other keys. *)
Lemma bt_insert_elem k v m e : sorted_map m ->
  e ∈ bt_insert k v m <-> e = (k, v) \/ (e ∈ m /\ e.1 <> k).
Proof.
  unfold sorted_map. induction m as [|[k' v'] m IH]; cbn; intros Hs.
  { rewrite list_elem_of_singleton. split; [by left|]. by intros [->|[[]%not_elem_of_nil _]]. }
  inversion Hs as [|? ? Hs' Hf]; subst. rewrite Forall_forall in Hf.
  assert (forall e', e' ∈ m -> e'.1 ∈ map fst m) as Hk by (intros; by apply list_elem_of_fmap_2).
  destruct (key_eqb k k') eqn:E.
  - apply key_eqb_eq in E as ->. rewrite !elem_of_cons. split.
    + intros [->|He]; [by left|]. right. split; [by right|]. intros Ek.
      apply (key_lt_irrefl k'). rewrite <- Ek at 2. by apply Hf, Hk.
    + intros [->|[[->|He] Hne]]; [by left|done|by right].
  - assert (k <> k') as Hne by (intros ->; by rewrite (proj2 (key_eqb_eq k' k')) in E).
    destruct (key_ltb k k') eqn:El.
    + rewrite (elem_of_cons ((k', v') :: m)). split; [|by intros [->|[He _]]; [left|right]].
      intros [->|He]; [by left|]. right. split; [done|].
      apply elem_of_cons in He as [->|He]; [done|]. intros Ek. apply (key_lt_irrefl k).
      rewrite <- Ek at 2. eapply key_lt_trans; [exact El|]. by apply Hf, Hk.
    + rewrite !elem_of_cons, IH by done. split.
      * intros [->|[->|[He Hne']]]; [right; split; [by left|done]|by left|].
        right. split; [by right|done].
      * intros [->|[[->|He] Hne']]; [by right; left|by left|]. right. right. done.
Qed.

(** Counting the entries whose key satisfies a test. *)
Definition count_keys (p : fact_key -> bool) (m : fact_map) : N :=
  list_lenN (List.filter (fun e => p e.1) m).

Lemma count_keys_cons p e m : count_keys p (e :: m) = ((if p e.1 then 1 else 0) + count_keys p m)%N.
Proof. unfold count_keys, list_lenN. cbn. destruct (p e.1); cbn; lia. Qed.

Lemma bt_insert_count p k v m : sorted_map m ->
  count_keys p (bt_insert k v m)
  = (count_keys p m + if p k && negb (bt_contains k m) then 1 else 0)%N.
Proof.
  unfold sorted_map. induction m as [|[k' v'] m IH]; intros Hs.
  { unfold count_keys, list_lenN. cbn. destruct (p k); done. }
  cbn in Hs. inversion Hs as [|? ? Hs' Hf]; subst. cbn [bt_insert bt_contains existsb].
  fold (bt_contains k m). cbn [fst]. destruct (key_eqb k k') eqn:E.
  - apply key_eqb_eq in E as ->. rewrite !count_keys_cons. cbn. rewrite andb_false_r. lia.
  - cbn [orb]. destruct (key_ltb k k') eqn:El.
    + rewrite !(count_keys_cons p (_, _)). cbn [fst].
      assert (bt_contains k m = false) as ->.
      { apply not_true_iff_false. rewrite bt_contains_spec. intros Hk. rewrite Forall_forall in Hf.
        apply (key_lt_irrefl k). eapply key_lt_trans; [exact El|by apply Hf]. }
      cbn. destruct (p k), (p k'); cbn; lia.
    + rewrite !count_keys_cons, IH by done. cbn [fst]. lia.
Qed.

Lemma insert_all_sorted staged m : sorted_map m -> sorted_map (insert_all staged m).
Proof.
  unfold insert_all. revert m. induction staged as [|[k v] l IH]; intros m Hm; cbn; [done|].
  apply IH. by apply bt_insert_sorted.
Qed.

Lemma insert_all_elem staged m e : sorted_map m -> NoDup (map fst staged) ->
  e ∈ insert_all staged m <-> e ∈ staged \/ (e ∈ m /\ e.1 ∉ map fst staged).
Proof.
  unfold insert_all. revert m. induction staged as [|[k v] l IH]; intros m Hm Hn; cbn.
  { split; [intros H; right; split; [done|apply not_elem_of_nil]|].
    by intros [[]%not_elem_of_nil|[? _]]. }
  apply NoDup_cons in Hn as [Hk Hn]. rewrite IH by (done || by apply bt_insert_sorted).
  rewrite bt_insert_elem by done. rewrite !elem_of_cons. split.
  - intros [H|[[->|[He Hne]] Hx]]; [by left; right|by left; left|].
    right. split; [done|]. by intros [?|?].
  - intros [[->|H]|[He Hx]]; [right; split; [by left|done]|by left|].
    right. split; [right; split; [done|]|]; intros H; apply Hx; auto.
Qed.

Lemma insert_all_count p staged m : sorted_map m -> NoDup (map fst staged) ->
  count_keys p (insert_all staged m)
  = (count_keys p m + count_keys (fun k => p k && negb (bt_contains k m)) staged)%N.
Proof.
  unfold insert_all. revert m. induction staged as [|[k v] l IH]; intros m Hm Hn; cbn [foldl].
  { unfold count_keys at 3, list_lenN. cbn. lia. }
  apply NoDup_cons in Hn as [Hk Hn]. rewrite IH by (done || by apply bt_insert_sorted).
  cbn [fst snd]. rewrite bt_insert_count, count_keys_cons by done. cbn [fst].
  rewrite <- N.add_assoc. f_equal. f_equal. unfold count_keys, list_lenN. do 2 f_equal.
  apply List.filter_ext_in. intros [k' v'] Hin. cbn. do 2 f_equal. apply eq_true_iff_eq.
  rewrite !bt_contains_spec, bt_insert_keys. split; [|by right]. intros [->|?]; [|done].
  destruct Hk. apply list_elem_of_In in Hin. by apply (list_elem_of_fmap_2 fst) in Hin.
Qed.

(** ** The contract of the set *)

(** A stored view and the fact it was made from. *)
Definition view_from (targets : list FleetTargetBinding) (target now : N) (fact : WorkingFact)
    (v : FleetFactView) : Prop :=
  fact_is_fresh fact now = true /\ wf_target_id fact = Some target /\
  wf_provenance fact = ToolObservation /\ default [] (wf_source_tool fact) <> [] /\
  wf_tool_call_id fact = Some (ffv_evidence_id v) /\
  (exists b, b ∈ targets /\ ftb_profile_id b = target /\ ffv_role v = ftb_role b) /\
  ffv_target_id v = target /\ ffv_key v = wf_key fact /\
  ffv_key v <> [] /\ (blen (ffv_key v) <= MAX_FLEET_FACT_KEY_BYTES)%N /\
  ffv_value v = take MAX_FLEET_FACT_VALUE_CHARS (redact_secrets (wf_value fact)).1 /\
  ffv_observed_at v = wf_observed_at fact /\
  ffv_expires_at v = sat_add64 (wf_observed_at fact) (wf_ttl_ms fact).

Lemma validated_view_ok targets binding target now fact v :
  binding ∈ targets -> ftb_profile_id binding = target -> fact_is_fresh fact now = true ->
  validated_view binding target fact = Ok v -> view_from targets target now fact v.
Proof.
  intros Hb Ht Hf. unfold validated_view. intros H. break_in H; try discriminate H.
  destruct (wf_tool_call_id fact) as [e|] eqn:Ee; cbn in H; [|discriminate H].
  injection H as <-. breflect. unfold view_from. cbn.
  split_and!; try done; try (by apply is_empty_false). by exists binding.
Qed.

(** Everything staged comes from a fresh, typed fact of this merge. *)
Definition staged_ok (targets : list FleetTargetBinding) (target now : N) (source : list WorkingFact)
    (m : fact_map) : Prop :=
  sorted_map m /\ forall e, e ∈ m -> e.1 = (target, ffv_key e.2) /\
    exists fact, fact ∈ source /\ view_from targets target now fact e.2.

Lemma stage_facts_ok targets binding target now facts source m m' :
  binding ∈ targets -> ftb_profile_id binding = target -> facts ⊆ source ->
  staged_ok targets target now source m ->
  stage_facts binding target now facts m = Ok m' -> staged_ok targets target now source m'.
Proof.
  intros Hb Ht. revert m. induction facts as [|f l IH]; intros m Hl Hm; cbn; [by intros [= <-]|].
  assert (l ⊆ source) as Hl' by (intros x Hx; apply Hl; by right).
  destruct (fact_is_fresh f now) eqn:Ef; cbn; [|by apply IH].
  destruct (validated_view _ _ f) as [v|] eqn:Ev; cbn; [|done]. apply IH; [done|].
  destruct Hm as [Hs He]. split; [by apply bt_insert_sorted|].
  pose proof (validated_view_ok targets _ _ now _ _ Hb Ht Ef Ev) as Hv.
  intros e [->|[Hin _]]%bt_insert_elem; [|by apply He|done]. split; [done|].
  exists f. split; [apply Hl; by left|done].
Qed.

Record fact_set_ok (ops : list (Uuid * list WorkingFact * N)) (self : FleetFactSet) : Prop := {
  fso_sorted : sorted_map (ffs_facts self);
  fso_total : (list_lenN (ffs_facts self) <= MAX_FLEET_FACTS)%N;
  fso_target : forall t, (count_keys (fun k => k.1 =? t)%N (ffs_facts self)
                          <= MAX_FLEET_FACTS_PER_TARGET)%N;
  fso_views : forall e, e ∈ ffs_facts self -> e.1 = (ffv_target_id e.2, ffv_key e.2) /\
    exists target source now fact, (target, source, now) ∈ ops /\ fact ∈ source /\
      view_from (ffs_targets self) target now fact e.2;
}.

Lemma sat_add64_le a b m : (m < U64_MAX)%N -> (sat_add64 a b <= m)%N -> (a + b <= m)%N.
Proof. unfold sat_add64, sat_add. lia. Qed.

Lemma count_keys_total m : count_keys (fun _ => true) m = list_lenN m.
Proof. unfold count_keys. f_equal. induction m; cbn; congruence. Qed.

Lemma count_keys_ext p q m : (forall k, k ∈ map fst m -> p k = q k) -> count_keys p m = count_keys q m.
Proof.
  intros H. unfold count_keys, list_lenN. do 2 f_equal. apply List.filter_ext_in.
  intros e He. apply H, list_elem_of_fmap_2. by apply list_elem_of_In.
Qed.

Lemma count_keys_none p m : (forall k, k ∈ map fst m -> p k = false) -> count_keys p m = 0%N.
Proof.
  intros H. rewrite (count_keys_ext p (fun _ => false)) by done.
  clear H. by induction m as [|e m IH].
Qed.

Lemma fleet_facts_merge_ok ops target source now self : fact_set_ok ops self ->
  fact_set_ok (ops ++ [(target, source, now)]) (fleet_facts_merge target source now self).2 /\
  ffs_targets (fleet_facts_merge target source now self).2 = ffs_targets self /\
  (forall e, (fleet_facts_merge target source now self).1 = Err e ->
     (fleet_facts_merge target source now self).2 = self).
Proof.
  intros Hok. assert (fact_set_ok (ops ++ [(target, source, now)]) self) as Hself.
  { destruct Hok as [H1 H2 H3 H4]. split; [done..|]. intros e He. destruct (H4 e He) as [H5 (t & s & n & f & Ho & ?)].
    split; [done|]. exists t, s, n, f. split; [apply elem_of_app; by left|done]. }
  unfold fleet_facts_merge. destruct (find _ _) as [binding|] eqn:Eb; [|done].
  apply find_some_b in Eb as [Hb Ht%N.eqb_eq].
  destruct (stage_facts _ _ _ _ _) as [staged|] eqn:Es; [|done].
  apply (stage_facts_ok (ffs_targets self) _ _ _ _ source) in Es as [Hsorted Hst]; [|done..|].
  2:{ split; [constructor|]. intros e []%not_elem_of_nil. }
  destruct ((MAX_FLEET_FACTS <? _)%N || _) eqn:E; [done|]. apply orb_false_iff in E as [E1 E2].
  apply N.ltb_ge, sat_add64_le in E1, E2; [|done|done].
  pose proof (sorted_map_nodup _ Hsorted) as Hn. destruct Hok as [H1 H2 H3 H4].
  fold (count_keys (fun k => k.1 =? target)%N (ffs_facts self)) in E2.
  change (list_lenN (List.filter (fun e => negb (bt_contains e.1 (ffs_facts self))) staged))
    with (count_keys (fun k => negb (bt_contains k (ffs_facts self))) staged) in E1, E2.
  assert (forall k, k ∈ map fst staged -> k.1 = target) as Hkt.
  { intros k (e & -> & He)%list_elem_of_fmap. destruct (Hst e He) as [-> _]. done. }
  cbn [fst snd]. split; [|done]. split; cbn [ffs_facts ffs_targets].
  - by apply insert_all_sorted.
  - rewrite <- count_keys_total, insert_all_count, count_keys_total by done. cbn [andb]. done.
  - intros t. rewrite insert_all_count by done. destruct (decide (t = target)) as [->|Hne].
    + rewrite (count_keys_ext (fun k => (k.1 =? target)%N && _)
        (fun k => negb (bt_contains k (ffs_facts self)))); [done|].
      intros k Hk. by rewrite (Hkt k Hk), N.eqb_refl.
    + rewrite (count_keys_none (fun k => (k.1 =? t)%N && _)); [specialize (H3 t); lia|].
      intros k Hk. rewrite (Hkt k Hk). by rewrite (proj2 (N.eqb_neq target t)).
  - intros e [He|[He _]]%insert_all_elem; [|by apply Hself|done..].
    destruct (Hst e He) as [Hk (f & Hf & Hv)]. split.
    + rewrite Hk. f_equal. by destruct Hv as (_ & _ & _ & _ & _ & _ & -> & _).
    + exists target, source, now, f. split; [|done]. apply elem_of_app. right. by left.
Qed.

Definition merge_all (ops : list (Uuid * list WorkingFact * N)) (self : FleetFactSet) : FleetFactSet :=
  foldl (fun s o => (fleet_facts_merge o.1.1 o.1.2 o.2 s).2) self ops.

(** A comparison is [Missing] when a target has no value, [Uniform] when all
    have the same, [Divergent] otherwise. *)
Lemma comparison_status_spec targets :
  match comparison_status targets with
  | FcsMissing => exists t, t ∈ targets /\ fcv_value t = None
  | FcsUniform => exists v, forall t, t ∈ targets -> fcv_value t = Some v
  | FcsDivergent => exists t u v w, t ∈ targets /\ u ∈ targets /\ fcv_value t = Some v /\
                      fcv_value u = Some w /\ v <> w
  end.
Proof.
  unfold comparison_status. destruct (existsb _ targets) eqn:E.
  { apply Existsb_exists in E as (t & ? & ?). breflect. by exists t. }
  rewrite Existsb_false in E.
  assert (forall t, t ∈ targets -> exists v, fcv_value t = Some v /\ v ∈ omap fcv_value targets) as Hv.
  { intros t Ht. specialize (E t Ht). breflect. destruct (fcv_value t) as [v|] eqn:Ev; [|done].
    exists v. split; [done|]. apply list_elem_of_omap. by exists t. }
  assert (forall v, v ∈ omap fcv_value targets -> exists t, t ∈ targets /\ fcv_value t = Some v) as Hv'.
  { intros v (t & ? & ?)%list_elem_of_omap. by exists t. }
  destruct (omap fcv_value targets) as [|first rest] eqn:Eo.
  { exists []. intros t Ht. by destruct (Hv t Ht) as (v & _ & []%not_elem_of_nil). }
  destruct (forallb _ rest) eqn:Ef.
  - exists first. rewrite Forallb_forall in Ef. intros t Ht. destruct (Hv t Ht) as (v & -> & Hin).
    apply elem_of_cons in Hin as [->|Hin]; [done|]. specialize (Ef v Hin). by apply str_eqb_eq in Ef as ->.
  - assert (exists v, v ∈ rest /\ v <> first) as (v & Hin & Hne).
    { clear -Ef. induction rest as [|v l IH]; [done|]. cbn in Ef. apply andb_false_iff in Ef as [Ef|Ef].
      - exists v. split; [by left|]. intros ->. by rewrite str_eqb_refl in Ef.
      - destruct (IH Ef) as (w & ? & ?). exists w. split; [by right|done]. }
    destruct (Hv' v) as (t & Ht & Et); [by right|]. destruct (Hv' first) as (u & Hu & Eu); [by left|].
    by exists t, u, v, first.
Qed.

(** Whatever is merged into a fleet's facts and in whatever order, at most 512
    facts are kept and at most 96 of one target, one for each target and key;
    every fact kept was made from a fact that was fresh when it was merged,
    observed by a tool on that very target, with its tool call as evidence, a
    key of at most 192 bytes and its redacted value cut at 512 characters; a
    refused merge changes nothing.  The view shows exactly the facts that have
    not expired. *)
Theorem fleet_facts_bounded targets ops :
  let self := merge_all ops (fleet_fact_set_new targets) in
  ffs_targets self = targets /\ fact_set_ok ops self /\ NoDup (map fst (ffs_facts self)) /\
  (forall target source now e, (fleet_facts_merge target source now self).1 = Err e ->
     (fleet_facts_merge target source now self).2 = self) /\
  (forall now f, f ∈ fiv_facts (fleet_facts_view now self) <->
     f ∈ map snd (ffs_facts self) /\ (now < ffv_expires_at f)%N).
Proof.
  intros self. assert (ffs_targets self = targets /\ fact_set_ok ops self) as [Ht Hok].
  { subst self. unfold merge_all.
    assert (forall done set, ffs_targets set = targets -> fact_set_ok done set ->
      ffs_targets (foldl (fun s o => (fleet_facts_merge o.1.1 o.1.2 o.2 s).2) set ops) = targets /\
      fact_set_ok (done ++ ops) (foldl (fun s o => (fleet_facts_merge o.1.1 o.1.2 o.2 s).2) set ops)) as G.
    { induction ops as [|[[t s] n] l IH]; intros d set Et Hs; cbn.
      { by rewrite app_nil_r. }
      destruct (fleet_facts_merge_ok d t s n set Hs) as (Hs' & Et' & _).
      destruct (IH (d ++ [(t, s, n)]) _ (eq_trans Et' Et) Hs') as [? Hr].
      by rewrite <- (assoc_L (++)) in Hr. }
    apply (G [] (fleet_fact_set_new targets)); [done|]. split; cbn.
    - constructor.
    - apply N.le_0_l.
    - intros t. apply N.le_0_l.
    - intros e []%not_elem_of_nil. }
  split_and!; [done|done|by apply sorted_map_nodup, Hok| |].
  - intros target source now e. by apply (fleet_facts_merge_ok ops).
  - intros now f. cbn. rewrite elem_of_filterb, N.ltb_lt. done.
Qed.

Definition sample_fleet_fact : WorkingFact :=
  {| wf_id := 1; wf_key := lit "os"; wf_value := lit "linux"; wf_source_event_seq := None;
     wf_source_tool := Some (lit "system.info"); wf_tool_call_id := Some 5%N;
     wf_target_id := Some 3%N; wf_observed_at := 10; wf_ttl_ms := 30000;
     wf_provenance := ToolObservation |}.

Definition sample_fact_targets : list FleetTargetBinding :=
  [{| ftb_profile_id := 3; ftb_session_id := 4; ftb_role := None; ftb_ordinal := 0 |}].

Lemma fleet_facts_bounded_witness :
  ffs_targets (merge_all [(3%N, [sample_fleet_fact], 11%N)] (fleet_fact_set_new sample_fact_targets))
    = sample_fact_targets /\
  length (ffs_facts (merge_all [(3%N, [sample_fleet_fact], 11%N)]
                               (fleet_fact_set_new sample_fact_targets))) = 1%nat.
Proof.
  split; [|vm_compute; reflexivity].
  pose proof (fleet_facts_bounded sample_fact_targets [(3%N, [sample_fleet_fact], 11%N)]) as (H & _).
  exact H.
Defined.
