(* ===== verification/Process.v ===== *)
(** * Services behind a lock

    A service of the program is a shared state behind one asynchronous lock,
    and operations that alternate between sections that hold the lock and
    calls made without it.  [proc] is such an operation as data: a tree whose
    nodes are the sections and the calls, over any state [S], any records [R]
    a section may save while it holds the lock, and any calls [Q] with their
    answers.  [advance] is one step of one operation; [run] runs an operation
    alone; [pool_step] interleaves any number of them.

    A section that saves keeps the lock until the save has answered, so that
    no other section sees the state in between. *)
From S2P Require Import Prelude Errors.

Section Process.
Context {S R Q : Type} {Ans : Q -> Type}.

(** What a section does with the state it finds: leave it changed, or write
    [s] in memory, save [records], and go on with the answer of the save. *)
Inductive held (X : Type) : Type :=
  | Leave (s : S) (r : AppResult X)
  | Save (s : S) (records : R) (k : AppResult unit -> S * AppResult X).

Inductive proc (A : Type) : Type :=
  | Done (r : AppResult A)
  | Panicked
  | Locked (X : Type) (section : S -> held X) (k : AppResult X -> proc A)
  | Asking (q : Q) (k : Ans q -> proc A).

#[local] Arguments Leave {X}.
#[local] Arguments Save {X}.
#[local] Arguments Done {A}.
#[local] Arguments Panicked {A}.
#[local] Arguments Locked {A X}.
#[local] Arguments Asking {A}.

(** [?] and sequencing. *)
Fixpoint proc_bind {A B} (f : A -> proc B) (p : proc A) : proc B :=
  match p with
  | Done (Ok a) => f a
  | Done (Err e) => Done (Err e)
  | Panicked => Panicked
  | Locked section k => Locked section (fun x => proc_bind f (k x))
  | Asking q k => Asking q (fun a => proc_bind f (k a))
  end.

Definition lift {A} (r : AppResult A) : proc A := Done r.
Definition locked {X} (section : S -> held X) : proc X := Locked section Done.
Definition ask (q : Q) : proc (Ans q) := Asking q (fun a => Done (Ok a)).

(** [option.ok_or] on an index: [v[i]] panics outside its range. *)
Definition indexed {A} (o : option A) : proc A :=
  match o with Some a => Done (Ok a) | None => Panicked end.

(** ** Steps *)
Inductive event : Type :=
  | EvSaved (records : R) (answer : AppResult unit)
  | EvAsked (q : Q) (a : Ans q).

(** What a save finds on disk afterwards. *)
Definition after_save (disk records : R) (answer : AppResult unit) : R :=
  match answer with Ok _ => records | Err _ => disk end.

(** One step of an operation, given the answers of the outside: the state, the
    disk, what is left of the operation, and what happened. *)
Definition advance {A} (ans : forall q, Ans q) (saved : AppResult unit) (s : S) (disk : R)
    (p : proc A) : S * R * proc A * list event :=
  match p with
  | Done r => (s, disk, Done r, [])
  | Panicked => (s, disk, Panicked, [])
  | Locked section k =>
      match section s with
      | Leave s' r => (s', disk, k r, [])
      | Save _ records h =>
          let '(s', r) := h saved in
          (s', after_save disk records saved, k r, [EvSaved records saved])
      end
  | Asking q k => (s, disk, k (ans q), [EvAsked q (ans q)])
  end.

(** An operation alone, in an environment with a state of its own. *)
Section Run.
Context {E : Type} (answer : E -> forall q, Ans q * E) (save : E -> R -> AppResult unit * E).

Fixpoint run {A} (p : proc A) (s : S) (env : E) (log : list event) :
    option (AppResult A) * S * E * list event :=
  match p with
  | Done r => (Some r, s, env, log)
  | Panicked => (None, s, env, log)
  | Locked section k =>
      match section s with
      | Leave s' r => run (k r) s' env log
      | Save _ records h =>
          let '(saved, env') := save env records in
          let '(s', r) := h saved in
          run (k r) s' env' (log ++ [EvSaved records saved])
      end
  | Asking q k =>
      let '(a, env') := answer env q in run (k a) s env' (log ++ [EvAsked q a])
  end.

Lemma run_bind {A B} (p : proc A) (f : A -> proc B) s env log :
  run (proc_bind f p) s env log =
  match run p s env log with
  | (Some (Ok a), s', env', log') => run (f a) s' env' log'
  | (Some (Err e), s', env', log') => (Some (Err e), s', env', log')
  | (None, s', env', log') => (None, s', env', log')
  end.
Proof.
  revert s env log. induction p as [[a|e]| |X sec k IH|q k IH]; intros s env log; cbn; try done.
  - destruct (sec s) as [s' r|s0 records h]; [apply IH|].
    destruct (save env records) as [saved env']. destruct (h saved) as [s' r]. apply IH.
  - destruct (answer env q) as [a env']. apply IH.
Qed.
End Run.

(** ** Interleaving

    Operations are numbered, and each is kept with the call that started it.
    A call may be made at any time, under a condition [admits] on the pool. *)
Section Pool.
Context {C A : Type} (body : C -> proc A).

Record pool := {
  pl_state : S;
  pl_disk : R;
  pl_threads : gmap nat (C * proc A);
  pl_log : list (nat * event);
}.

Inductive pool_step (admits : pool -> C -> Prop) : pool -> pool -> Prop :=
  | pool_spawn w i c :
      pl_threads w !! i = None -> admits w c ->
      pool_step admits w {| pl_state := pl_state w; pl_disk := pl_disk w;
                            pl_threads := <[i := (c, body c)]> (pl_threads w);
                            pl_log := pl_log w |}
  | pool_advance w i c p ans saved s' d' p' evs :
      pl_threads w !! i = Some (c, p) ->
      advance ans saved (pl_state w) (pl_disk w) p = (s', d', p', evs) ->
      pool_step admits w {| pl_state := s'; pl_disk := d';
                            pl_threads := <[i := (c, p')]> (pl_threads w);
                            pl_log := pl_log w ++ map (pair i) evs |}.

Definition pool_init (s : S) (d : R) : pool :=
  {| pl_state := s; pl_disk := d; pl_threads := ∅; pl_log := [] |}.

(** *** Schedules

    A schedule plays one interleaving; a call that is not admitted, or the
    turn of an operation that does not exist, changes nothing. *)
Inductive act :=
  | ActCall (i : nat) (c : C)
  | ActTurn (i : nat) (ans : forall q, Ans q) (saved : AppResult unit).

Context (admits : pool -> C -> Prop) `{forall w c, Decision (admits w c)}.

Definition play (w : pool) (a : act) : pool :=
  match a with
  | ActCall i c =>
      match pl_threads w !! i with
      | Some _ => w
      | None => if decide (admits w c)
                then {| pl_state := pl_state w; pl_disk := pl_disk w;
                        pl_threads := <[i := (c, body c)]> (pl_threads w); pl_log := pl_log w |}
                else w
      end
  | ActTurn i ans saved =>
      match pl_threads w !! i with
      | None => w
      | Some (c, p) =>
          let '(s', d', p', evs) := advance ans saved (pl_state w) (pl_disk w) p in
          {| pl_state := s'; pl_disk := d'; pl_threads := <[i := (c, p')]> (pl_threads w);
             pl_log := pl_log w ++ map (pair i) evs |}
      end
  end.

Lemma play_steps w a : rtc (pool_step admits) w (play w a).
Proof.
  destruct a as [i c|i ans saved]; cbn.
  - destruct (pl_threads w !! i) eqn:Hi; [done|]. case_decide; [|done].
    by apply rtc_once, pool_spawn.
  - destruct (pl_threads w !! i) as [[c p]|] eqn:Hi; [|done].
    destruct (advance ans saved _ _ p) as [[[s' d'] p'] evs] eqn:Ha.
    by apply rtc_once, (pool_advance _ _ _ _ _ _ _ _ _ _ _ Hi Ha).
Qed.

Lemma plays_steps l w : rtc (pool_step admits) w (foldl play w l).
Proof.
  revert w. induction l as [|a l IH]; intros w; [done|]. cbn.
  etransitivity; [apply play_steps|apply IH].
Qed.
End Pool.

(** What one operation did. *)
Definition thread_log (i : nat) (log : list (nat * event)) : list event :=
  map snd (filter (fun x => fst x = i) log).

Lemma thread_log_app i l1 l2 : thread_log i (l1 ++ l2) = thread_log i l1 ++ thread_log i l2.
Proof. unfold thread_log. by rewrite filter_app, map_app. Qed.

Lemma thread_log_own i evs : thread_log i (map (pair i) evs) = evs.
Proof.
  unfold thread_log. induction evs as [|e evs IH]; [done|]. cbn [map].
  rewrite filter_cons_True by done. cbn. by rewrite IH.
Qed.

Lemma thread_log_other i j evs : i <> j -> thread_log i (map (pair j) evs) = [].
Proof.
  intros Hn. unfold thread_log. induction evs as [|e evs IH]; [done|]. cbn [map].
  by rewrite filter_cons_False by (cbn; congruence).
Qed.

(** ** Reasoning about one operation *)

(** Whatever the answers: [Post] of the state and the result it ends with. *)
Fixpoint wp {A} (s : S) (p : proc A) (Post : S -> AppResult A -> Prop) : Prop :=
  match p with
  | Done r => Post s r
  | Panicked => False
  | Locked section k =>
      match section s with
      | Leave s' r => wp s' (k r) Post
      | Save _ _ h => forall saved, let '(s', r) := h saved in wp s' (k r) Post
      end
  | Asking q k => forall a, wp s (k a) Post
  end.

Lemma wp_bind {A B} s (p : proc A) (f : A -> proc B) Post :
  wp s p (fun s' r => match r with Ok a => wp s' (f a) Post | Err e => Post s' (Err e) end) ->
  wp s (proc_bind f p) Post.
Proof.
  revert s. induction p as [[a|e]| |X sec k IH|q k IH]; intros s; cbn; auto.
  destruct (sec s) as [s' r|s0 records h]; [apply IH|].
  intros Hw saved. specialize (Hw saved). destruct (h saved) as [s' r]. by apply IH.
Qed.

Lemma wp_run {A E} (answer : E -> forall q, Ans q * E) (save : E -> R -> AppResult unit * E)
    s (p : proc A) Post env log r s' env' log' :
  wp s p Post -> run answer save p s env log = (r, s', env', log') ->
  exists r', r = Some r' /\ Post s' r'.
Proof.
  revert s env log. induction p as [r0| |X sec k IH|q k IH]; intros s env log Hw Hr; cbn in Hw, Hr.
  - injection Hr as <- <- _ _. eauto.
  - done.
  - destruct (sec s) as [s1 r1|s0 records h]; [by eapply IH|].
    destruct (save env records) as [saved env1]. specialize (Hw saved).
    destruct (h saved) as [s1 r1]. by eapply IH.
  - destruct (answer env q) as [a env1]. by eapply IH.
Qed.

(** Every call it makes satisfies [P] of what it did before, and [Post] holds of
    what it did when it ends. *)
Fixpoint follows {A} (P : list event -> Q -> Prop) (past : list event) (p : proc A)
    (Post : list event -> A -> Prop) : Prop :=
  match p with
  | Done (Ok a) => Post past a
  | Done (Err _) => True
  | Panicked => True
  | Locked section k =>
      forall s, match section s with
      | Leave _ r => follows P past (k r) Post
      | Save _ records h => forall saved,
          follows P (past ++ [EvSaved records saved]) (k (snd (h saved))) Post
      end
  | Asking q k => P past q /\ forall a, follows P (past ++ [EvAsked q a]) (k a) Post
  end.

Lemma follows_bind {A B} P past (p : proc A) (f : A -> proc B) Post :
  follows P past p (fun past' a => follows P past' (f a) Post) ->
  follows P past (proc_bind f p) Post.
Proof.
  revert past. induction p as [[a|e]| |X sec k IH|q k IH]; intros past; cbn; try done.
  - intros Hf s. specialize (Hf s). destruct (sec s) as [s' r|s0 records h]; [by apply IH|].
    intros saved. by apply IH.
  - intros [HP Hf]. split; [done|]. intros a. by apply IH.
Qed.

Lemma follows_mono {A} P past (p : proc A) (Post Post' : list event -> A -> Prop) :
  follows P past p Post -> (forall past' a, Post past' a -> Post' past' a) -> follows P past p Post'.
Proof.
  intros Hf HP. revert past Hf. induction p as [[a|e]| |X sec k IH|q k IH]; intros past; cbn; auto.
  - intros Hf s. specialize (Hf s). destruct (sec s) as [s' r|s0 records h]; [by apply IH|].
    intros saved. by apply IH.
  - intros [Hq Hf]. auto.
Qed.

Lemma follows_advance {A} P past s d (p p' : proc A) ans saved s' d' evs Post :
  follows P past p Post -> advance ans saved s d p = (s', d', p', evs) ->
  follows P (past ++ evs) p' Post /\
  forall l1 q a l2, evs = l1 ++ EvAsked q a :: l2 -> P (past ++ l1) q.
Proof.
  intros Hf Ha. destruct p as [r| |X sec k|q k]; cbn in Hf, Ha.
  - injection Ha as <- <- <- <-. rewrite app_nil_r. split; [done|]. by intros [|] * [=].
  - injection Ha as <- <- <- <-. rewrite app_nil_r. split; [done|]. by intros [|] * [=].
  - specialize (Hf s). destruct (sec s) as [s1 r1|s0 records h].
    + injection Ha as <- <- <- <-. rewrite app_nil_r. split; [done|]. by intros [|] * [=].
    + specialize (Hf saved). destruct (h saved) as [s1 r1]. injection Ha as <- <- <- <-.
      split; [done|]. by intros [|? [|]] * [=].
  - destruct Hf as [HP Hf]. injection Ha as <- <- <- <-. split; [apply Hf|].
    intros [|? [|]] q' a l2 [=]; [|done..]. subst q'. by rewrite app_nil_r.
Qed.

(** What an operation that ended with a value did. *)
Lemma follows_run {A E} (answer : E -> forall q, Ans q * E) (save : E -> R -> AppResult unit * E)
    P past (p : proc A) Post s env log a s' env' log' :
  follows P past p Post -> run answer save p s env log = (Some (Ok a), s', env', log') ->
  exists evs, log' = log ++ evs /\ Post (past ++ evs) a.
Proof.
  revert past s env log. induction p as [r| |X sec k IH|q k IH]; intros past s env log Hf Hr; cbn in Hf, Hr.
  - injection Hr as -> <- _ <-. exists []. by rewrite !app_nil_r.
  - done.
  - specialize (Hf s). destruct (sec s) as [s1 r1|s0 records h]; [by eapply IH|].
    destruct (save env records) as [saved env1]. specialize (Hf saved).
    destruct (h saved) as [s1 r1]. destruct (IH _ _ _ _ _ Hf Hr) as (evs & -> & HP).
    exists (EvSaved records saved :: evs). by rewrite <- !app_assoc in *.
  - destruct Hf as [_ Hf]. destruct (answer env q) as [a1 env1].
    destruct (IH _ _ _ _ _ (Hf a1) Hr) as (evs & -> & HP).
    exists (EvAsked q a1 :: evs). by rewrite <- !app_assoc in *.
Qed.

(** Every call of a run follows what the run did before it. *)
Lemma follows_run_calls {A E} (answer : E -> forall q, Ans q * E) (save : E -> R -> AppResult unit * E)
    P past (p : proc A) Post s env log r s' env' log' :
  follows P past p Post -> run answer save p s env log = (r, s', env', log') ->
  exists evs, log' = log ++ evs /\ forall l1 q a l2, evs = l1 ++ EvAsked q a :: l2 -> P (past ++ l1) q.
Proof.
  revert past s env log. induction p as [r0| |X sec k IH|q k IH]; intros past s env log Hf Hr; cbn in Hf, Hr.
  - injection Hr as _ _ _ <-. exists []. rewrite app_nil_r. split; [done|]. by intros [|] *.
  - injection Hr as _ _ _ <-. exists []. rewrite app_nil_r. split; [done|]. by intros [|] *.
  - specialize (Hf s). destruct (sec s) as [s1 r1|s0 records h]; [by eapply IH|].
    destruct (save env records) as [saved env1]. specialize (Hf saved).
    destruct (h saved) as [s1 r1]. destruct (IH _ _ _ _ _ Hf Hr) as (evs & -> & HP).
    exists (EvSaved records saved :: evs). rewrite <- !app_assoc. split; [done|].
    intros [|x l1] q a l2 [=]; subst. specialize (HP l1 q a l2 eq_refl). by rewrite <- app_assoc in HP.
  - destruct Hf as [Hq Hf]. destruct (answer env q) as [a1 env1].
    destruct (IH _ _ _ _ _ (Hf a1) Hr) as (evs & -> & HP).
    exists (EvAsked q a1 :: evs). rewrite <- !app_assoc. split; [done|].
    intros [|x l1] q' a l2 [=]; subst; [by rewrite app_nil_r|].
    specialize (HP l1 q' a l2 eq_refl). by rewrite <- app_assoc in HP.
Qed.

(** Operations that follow [P] one by one follow it in any interleaving. *)
Definition pool_follows_ok {C A} P (w : @pool C A) : Prop :=
  (forall i c p, pl_threads w !! i = Some (c, p) ->
     follows P (thread_log i (pl_log w)) p (fun _ _ => True)) /\
  (forall i, pl_threads w !! i = None -> thread_log i (pl_log w) = []) /\
  forall l1 i q a l2, pl_log w = l1 ++ (i, EvAsked q a) :: l2 -> P (thread_log i l1) q.

Lemma pool_follows_advance {C A} P (w : @pool C A) i c p ans saved s' d' p' evs :
  pool_follows_ok P w -> pl_threads w !! i = Some (c, p) ->
  advance ans saved (pl_state w) (pl_disk w) p = (s', d', p', evs) ->
  pool_follows_ok P {| pl_state := s'; pl_disk := d'; pl_threads := <[i := (c, p')]> (pl_threads w);
                       pl_log := pl_log w ++ map (pair i) evs |}.
Proof.
  intros (IH1 & IH2 & IH3) Hi Ha.
  destruct (follows_advance _ _ _ _ _ _ _ _ _ _ _ _ (IH1 i c p Hi) Ha) as [Hf Hnew].
  unfold pool_follows_ok; cbn [pl_log pl_threads]. split_and!.
  - intros j c1 p1. rewrite thread_log_app. destruct (decide (i = j)) as [<-|Hne].
    + rewrite lookup_insert_eq. intros [= <- <-]. by rewrite thread_log_own.
    + rewrite lookup_insert_ne by done. rewrite thread_log_other, app_nil_r by done. apply IH1.
  - intros j Hj. destruct (decide (i = j)) as [<-|Hne]; [by rewrite lookup_insert_eq in Hj|].
    rewrite lookup_insert_ne in Hj by done. rewrite thread_log_app, thread_log_other, app_nil_r by done.
    by apply IH2.
  - intros l1 j q a l2 Heq. apply app_eq_app in Heq as (m & [(H1 & H2)|(H1 & H2)]).
    + destruct m as [|x m]; cbn in H2.
      * rewrite app_nil_r in H1. subst l1. destruct evs as [|e evs]; [done|]. injection H2 as -> <- _.
        specialize (Hnew [] q a evs eq_refl). by rewrite app_nil_r in Hnew.
      * injection H2 as <- _. by eapply IH3.
    + subst l1. apply map_eq_app in H2 as (e1 & e2 & -> & <- & He2).
      destruct e2 as [|e e2]; [done|]. injection He2 as -> -> _.
      rewrite thread_log_app, thread_log_own. by eapply Hnew.
Qed.

(** What an operation that has ended did, in any interleaving. *)
Lemma pool_follows_done {C A} (body : C -> proc A) admits P (Post : C -> list event -> A -> Prop) s d w :
  (forall c, follows P [] (body c) (Post c)) ->
  rtc (pool_step body admits) (pool_init s d) w ->
  forall i c a, pl_threads w !! i = Some (c, Done (Ok a)) -> Post c (thread_log i (pl_log w)) a.
Proof.
  intros Hbody Hr.
  enough (Hok : (forall i c p, pl_threads w !! i = Some (c, p) -> follows P (thread_log i (pl_log w)) p (Post c)) /\
                (forall i, pl_threads w !! i = None -> thread_log i (pl_log w) = [])).
  { intros i c a Hi. destruct Hok as [Hok _]. apply (Hok i c _ Hi). }
  assert (Hinit : (forall i c p, pl_threads (@pool_init C A s d) !! i = Some (c, p) ->
                     follows P (thread_log i (pl_log (@pool_init C A s d))) p (Post c)) /\
                  (forall i, pl_threads (@pool_init C A s d) !! i = None -> thread_log i (pl_log (@pool_init C A s d)) = [])).
  { split; [by intros i c p Hi|done]. }
  revert Hinit. induction Hr as [w|w1 w2 w3 Hstep _ IH]; [done|]. intros [H1 H2]. apply IH. clear IH.
  destruct Hstep as [w i c Hi Hadm|w i c p ans saved s' d' p' evs Hi Ha]; cbn [pl_log pl_threads].
  - split; intros j.
    + intros c' p' [[<- [= <- <-]]|[_ Hj]]%lookup_insert_Some; [|by apply H1]. rewrite H2 by done. apply Hbody.
    + intros [Hj _]%lookup_insert_None. by apply H2.
  - destruct (follows_advance _ _ _ _ _ _ _ _ _ _ _ _ (H1 i c p Hi) Ha) as [Hf _]. split; intros j.
    + rewrite thread_log_app. intros c' q [[<- [= <- <-]]|[Hne Hj]]%lookup_insert_Some.
      * by rewrite thread_log_own.
      * rewrite thread_log_other, app_nil_r by done. by apply H1.
    + intros [Hj Hne]%lookup_insert_None. rewrite thread_log_app, thread_log_other, app_nil_r by done. by apply H2.
Qed.

Lemma pool_follows {C A} (body : C -> proc A) admits P s d w :
  (forall c, follows P [] (body c) (fun _ _ => True)) ->
  rtc (pool_step body admits) (pool_init s d) w ->
  forall l1 i q a l2, pl_log w = l1 ++ (i, EvAsked q a) :: l2 -> P (thread_log i l1) q.
Proof.
  intros Hbody Hr. enough (pool_follows_ok P w) as (_ & _ & ?) by done.
  assert (Hinit : pool_follows_ok P (@pool_init C A s d)).
  { split_and!; [by intros i c p Hi|done|by intros [|] *]. }
  revert Hinit. induction Hr as [w|w1 w2 w3 Hstep _ IH]; [done|]. intros Hok. apply IH.
  destruct Hstep as [w i c Hi Hadm|w i c p ans saved s' d' p' evs Hi Ha];
    [|by eapply pool_follows_advance].
  destruct Hok as (IH1 & IH2 & IH3). unfold pool_follows_ok; cbn [pl_log pl_threads]. split_and!; [| |done].
  - intros j c' p'. destruct (decide (i = j)) as [<-|Hne].
    + rewrite lookup_insert_eq. intros [= <- <-]. rewrite IH2 by done. apply Hbody.
    + rewrite lookup_insert_ne by done. apply IH1.
  - intros j Hj. apply IH2. destruct (decide (i = j)) as [<-|Hne]; [by rewrite lookup_insert_eq in Hj|].
    by rewrite lookup_insert_ne in Hj.
Qed.
End Process.

Arguments held : clear implicits.
Arguments proc : clear implicits.
Arguments event : clear implicits.
Arguments pool : clear implicits.
Arguments pool_step {S R Q Ans C A} body admits.
Arguments act : clear implicits.
Arguments ActCall {Q Ans C} i c.
Arguments ActTurn {Q Ans C} i ans saved.
Arguments play {S R Q Ans C A} body admits {_} w a.
Arguments plays_steps {S R Q Ans C A} body admits {_} l w.
Arguments Leave {S R X} s r.
Arguments Save {S R X} s records k.
Arguments Done {S R Q Ans A} r.
Arguments Panicked {S R Q Ans A}.
Arguments Locked {S R Q Ans A X} section k.
Arguments Asking {S R Q Ans A} q k.
Arguments EvSaved {R Q Ans} records answer.
Arguments EvAsked {R Q Ans} q a.

#[export] Instance proc_ret {S R Q} {Ans : Q -> Type} : MRet (proc S R Q Ans) :=
  fun _ a => Done (Ok a).
#[export] Instance proc_mbind {S R Q} {Ans : Q -> Type} : MBind (proc S R Q Ans) :=
  fun _ _ f p => proc_bind f p.

(** ** The rules with the monad's notation *)
Section Rules.
Context {S R Q : Type} {Ans : Q -> Type}.

Lemma follows_mbind {A B} P past (p : proc S R Q Ans A) (f : A -> proc S R Q Ans B) Post :
  follows P past p (fun past' a => follows P past' (f a) Post) -> follows P past (p ≫= f) Post.
Proof. apply follows_bind. Qed.

Lemma follows_ask P past (q : Q) (Post : list (event R Q Ans) -> Ans q -> Prop) :
  P past q -> (forall a, Post (past ++ [EvAsked q a]) a) ->
  follows P past (ask (S := S) (R := R) q) Post.
Proof. by split. Qed.

Lemma follows_lift {A} P past (r : AppResult A) Post :
  (forall a, r = Ok a -> Post past a) -> follows P past (lift (S := S) (R := R) (Q := Q) (Ans := Ans) r) Post.
Proof. destruct r; cbn; auto. Qed.

Lemma wp_mbind {A B} s (p : proc S R Q Ans A) (f : A -> proc S R Q Ans B) Post :
  wp s p (fun s' r => match r with Ok a => wp s' (f a) Post | Err e => Post s' (Err e) end) ->
  wp s (p ≫= f) Post.
Proof. apply wp_bind. Qed.

Lemma wp_ask s (q : Q) (Post : S -> AppResult (Ans q) -> Prop) :
  (forall a, Post s (Ok a)) -> wp s (ask (R := R) q) Post.
Proof. done. Qed.

Lemma wp_lift {A} s (r : AppResult A) (Post : S -> AppResult A -> Prop) :
  Post s r -> wp s (lift (R := R) (Q := Q) (Ans := Ans) r) Post.
Proof. done. Qed.

Lemma wp_weaken {A} s (p : proc S R Q Ans A) (Post Post' : S -> AppResult A -> Prop) :
  wp s p Post -> (forall s' r, Post s' r -> Post' s' r) -> wp s p Post'.
Proof.
  revert s. induction p as [r| |X sec k IH|q k IH]; intros s; cbn; auto.
  destruct (sec s) as [s' r|s0 records h]; [auto|].
  intros Hw HP saved. specialize (Hw saved). destruct (h saved) as [s' r]. auto.
Qed.
End Rules.

(** [async { .. }.await] as a value: the error of an operation is its result. *)
Fixpoint caught {S R Q} {Ans : Q -> Type} {A} (p : proc S R Q Ans A) : proc S R Q Ans (AppResult A) :=
  match p with
  | Done r => Done (Ok r)
  | Panicked => Panicked
  | Locked section k => Locked section (fun x => caught (k x))
  | Asking q k => Asking q (fun a => caught (k a))
  end.

Lemma follows_caught {S R Q} {Ans : Q -> Type} {A} P past (p : proc S R Q Ans A) Post Post' :
  follows P past p Post ->
  (forall past' r, match r with Ok a => Post past' a | Err _ => True end -> Post' past' r) ->
  follows P past (caught p) Post'.
Proof.
  intros Hf HP. revert past Hf. induction p as [[a|e]| |X sec k IH|q k IH]; intros past; cbn.
  - intros Ha. exact (HP past (Ok a) Ha).
  - intros _. exact (HP past (Err e) I).
  - done.
  - intros Hf s. specialize (Hf s). destruct (sec s) as [s' r|s0 records h]; [by apply IH|].
    intros saved. by apply IH.
  - intros [Hq Hf]. split; [done|]. intros a. by apply IH.
Qed.

(** Also when it fails the past is one that goes on from before. *)
Lemma follows_caught_past {S R Q} {Ans : Q -> Type} {A} P past (p : proc S R Q Ans A) Post Post' :
  follows P past p Post ->
  (forall past' r, past `prefix_of` past' -> match r with Ok a => Post past' a | Err _ => True end -> Post' past' r) ->
  follows P past (caught p) Post'.
Proof.
  intros Hf HP. revert past Hf HP. induction p as [[a|e]| |X sec k IH|q k IH]; intros past; cbn.
  - intros Ha HP. exact (HP past (Ok a) ltac:(reflexivity) Ha).
  - intros _ HP. exact (HP past (Err e) ltac:(reflexivity) I).
  - done.
  - intros Hf HP s. specialize (Hf s). destruct (sec s) as [s' r|s0 records h]; [by apply IH|].
    intros saved. apply IH; [done|]. intros past' r Hl. apply HP. by eapply prefix_app_l.
  - intros [Hq Hf] HP. split; [done|]. intros a. apply IH; [done|]. intros past' r Hl. apply HP. by eapply prefix_app_l.
Qed.

Lemma run_caught {S R Q} {Ans : Q -> Type} {A E} (answer : E -> forall q, Ans q * E)
    (save : E -> R -> AppResult unit * E) (p : proc S R Q Ans A) s env log :
  run answer save (caught p) s env log =
  match run answer save p s env log with
  | (Some r, s', env', log') => (Some (Ok r), s', env', log')
  | (None, s', env', log') => (None, s', env', log')
  end.
Proof.
  revert s env log. induction p as [r| |X sec k IH|q k IH]; intros s env log; cbn; try done.
  - destruct (sec s) as [s' r|s0 records h]; [apply IH|].
    destruct (save env records) as [saved env']. destruct (h saved) as [s' r]. apply IH.
  - destruct (answer env q) as [a env']. apply IH.
Qed.

(** ** One operation alone, with its state and its history

    Whatever the answers of the outside: every call satisfies [P] of the state
    and of what happened before it, nothing panics, and [Post] holds of the
    state, of the history and of the result at the end. *)
Section Traces.
Context {S R Q : Type} {Ans : Q -> Type} (P : S -> list (event R Q Ans) -> Q -> Prop).

Fixpoint traces {A} (s : S) (past : list (event R Q Ans)) (p : proc S R Q Ans A)
    (Post : S -> list (event R Q Ans) -> AppResult A -> Prop) : Prop :=
  match p with
  | Done r => Post s past r
  | Panicked => False
  | Locked section k =>
      match section s with
      | Leave s' r => traces s' past (k r) Post
      | Save _ records h => forall saved,
          let '(s', r) := h saved in traces s' (past ++ [EvSaved records saved]) (k r) Post
      end
  | Asking q k => P s past q /\ forall a, traces s (past ++ [EvAsked q a]) (k a) Post
  end.

Lemma traces_bind {A B} s past (p : proc S R Q Ans A) (f : A -> proc S R Q Ans B) Post :
  traces s past p (fun s' past' r =>
    match r with Ok a => traces s' past' (f a) Post | Err e => Post s' past' (Err e) end) ->
  traces s past (p ≫= f) Post.
Proof.
  revert s past. change (p ≫= f) with (proc_bind f p).
  induction p as [[a|e]| |X sec k IH|q k IH]; intros s past; cbn; auto.
  - destruct (sec s) as [s' r|s0 records h]; [apply IH|].
    intros Hw saved. specialize (Hw saved). destruct (h saved) as [s' r]. by apply IH.
  - intros [Hq Hw]. split; [done|]. intros a. by apply IH.
Qed.

Lemma traces_mono {A} s past (p : proc S R Q Ans A) (Post Post' : S -> list (event R Q Ans) -> AppResult A -> Prop) :
  traces s past p Post -> (forall s' past' r, Post s' past' r -> Post' s' past' r) -> traces s past p Post'.
Proof.
  intros Hw HP. revert s past Hw. induction p as [r| |X sec k IH|q k IH]; intros s past; cbn; auto.
  - destruct (sec s) as [s' r|s0 records h]; [apply IH|].
    intros Hw saved. specialize (Hw saved). destruct (h saved) as [s' r]. by apply IH.
  - intros [Hq Hw]. auto.
Qed.

Lemma traces_ask s past (q : Q) (Post : S -> list (event R Q Ans) -> AppResult (Ans q) -> Prop) :
  P s past q -> (forall a, Post s (past ++ [EvAsked q a]) (Ok a)) -> traces s past (ask q) Post.
Proof. by split. Qed.

Lemma traces_lift {A} s past (r : AppResult A) (Post : S -> list (event R Q Ans) -> AppResult A -> Prop) :
  Post s past r -> traces s past (lift r) Post.
Proof. done. Qed.

Lemma traces_run {A E} (answer : E -> forall q, Ans q * E) (save : E -> R -> AppResult unit * E)
    s (p : proc S R Q Ans A) Post env log o s' env' log' :
  traces s log p Post -> run answer save p s env log = (o, s', env', log') ->
  (exists r, o = Some r /\ Post s' log' r) /\
  exists evs, log' = log ++ evs /\
    forall l1 q a l2, evs = l1 ++ EvAsked q a :: l2 -> exists s1, P s1 (log ++ l1) q.
Proof.
  revert s env log. induction p as [r| |X sec k IH|q k IH]; intros s env log Hw Hr; cbn in Hw, Hr.
  - injection Hr as <- <- _ <-. split; [eauto|]. exists []. rewrite app_nil_r. split; [done|]. by intros [|] *.
  - done.
  - destruct (sec s) as [s1 r1|s0 records h]; [by eapply IH|].
    destruct (save env records) as [saved env1]. specialize (Hw saved). destruct (h saved) as [s1 r1].
    destruct (IH _ _ _ _ Hw Hr) as (Hres & evs & -> & Hcalls). split; [done|].
    exists (EvSaved records saved :: evs). rewrite <- app_assoc. split; [done|].
    intros [|x l1] q a l2 [=]; subst. destruct (Hcalls l1 q a l2 eq_refl) as [s2 H2].
    exists s2. by rewrite <- app_assoc in H2.
  - destruct Hw as [Hq Hw]. destruct (answer env q) as [a env1].
    destruct (IH _ _ _ _ (Hw a) Hr) as (Hres & evs & -> & Hcalls). split; [done|].
    exists (EvAsked q a :: evs). rewrite <- app_assoc. split; [done|].
    intros [|x l1] q1 a1 l2 [=]; subst; [exists s; by rewrite app_nil_r|].
    destruct (Hcalls l1 q1 a1 l2 eq_refl) as [s2 H2]. exists s2. by rewrite <- app_assoc in H2.
Qed.
End Traces.

(** A weaker condition on the calls. *)
Lemma traces_allow {S R Q} {Ans : Q -> Type} {A} (P P' : S -> list (event R Q Ans) -> Q -> Prop) s past
    (p : proc S R Q Ans A) Post :
  (forall s past q, P s past q -> P' s past q) -> traces P s past p Post -> traces P' s past p Post.
Proof.
  intros HP. revert s past. induction p as [r| |X sec k IH|q k IH]; intros s past; cbn; auto.
  - destruct (sec s) as [s' r|s0 records h]; [apply IH|].
    intros Hw saved. specialize (Hw saved). destruct (h saved) as [s' r]. by apply IH.
  - intros [Hq Hw]. auto.
Qed.

(** ** A service used by another

    An operation whose calls are among the calls of a larger vocabulary, [name]
    saying which. *)
Section Widen.
Context {S R Q Q' : Type} {Ans : Q -> Type} {Ans' : Q' -> Type}
  (name : Q -> Q') (unname : forall q, Ans' (name q) -> Ans q).

Fixpoint widen {A} (p : proc S R Q Ans A) : proc S R Q' Ans' A :=
  match p with
  | Done r => Done r
  | Panicked => Panicked
  | Locked section k => Locked section (fun x => widen (k x))
  | Asking q k => Asking (name q) (fun a => widen (k (unname q a)))
  end.

Fixpoint widen_log (log : list (event R Q Ans)) (log' : list (event R Q' Ans')) : Prop :=
  match log, log' with
  | [], [] => True
  | EvSaved r a :: l, EvSaved r' a' :: l' => r = r' /\ a = a' /\ widen_log l l'
  | EvAsked q a :: l, e :: l' => (exists a', e = EvAsked (name q) a' /\ a = unname q a') /\ widen_log l l'
  | _, _ => False
  end.

(** Its run is the run of the operation itself, against the same outside. *)
Lemma run_widen {A E} (answer : E -> forall q, Ans' q * E) (save : E -> R -> AppResult unit * E)
    (p : proc S R Q Ans A) s env log0 log0' :
  let answer0 e q := let '(a, e') := answer e (name q) in (unname q a, e') in
  let '(o, s', env', log) := run answer0 save p s env log0 in
  exists evs evs', log = log0 ++ evs /\ widen_log evs evs' /\
    run answer save (widen p) s env log0' = (o, s', env', log0' ++ evs').
Proof.
  cbn zeta. revert s env log0 log0'. induction p as [r| |X sec k IH|q k IH]; intros s env log0 log0'; cbn.
  - exists [], []. by rewrite !app_nil_r.
  - exists [], []. by rewrite !app_nil_r.
  - destruct (sec s) as [s1 r1|s0 records h]; [apply IH|].
    destruct (save env records) as [saved env1]. destruct (h saved) as [s1 r1].
    specialize (IH r1 s1 env1 (log0 ++ [EvSaved records saved]) (log0' ++ [EvSaved records saved])).
    destruct (run _ _ (k r1) _ _ _) as [[[o s2] env2] log]. destruct IH as (evs & evs' & -> & Hw & ->).
    exists (EvSaved records saved :: evs), (EvSaved records saved :: evs'). by rewrite <- !app_assoc.
  - destruct (answer env (name q)) as [a env1]. cbn.
    specialize (IH (unname q a) s env1 (log0 ++ [EvAsked q (unname q a)]) (log0' ++ [EvAsked (name q) a])).
    destruct (run _ _ (k (unname q a)) _ _ _) as [[[o s2] env2] log]. destruct IH as (evs & evs' & -> & Hw & ->).
    exists (EvAsked q (unname q a) :: evs), (EvAsked (name q) a :: evs'). rewrite <- !app_assoc.
    split_and!; [done| |done]. cbn. split; [eauto|done].
Qed.
End Widen.

Lemma traces_widen_bind {S R Q Q'} {Ans : Q -> Type} {Ans' : Q' -> Type} (name : Q -> Q')
    (unname : forall q, Ans' (name q) -> Ans q) {A B} P s past
    (p : proc S R Q Ans A) (f : A -> proc S R Q Ans B) Post :
  traces P s past (widen name unname p) (fun s' past' r =>
    match r with Ok a => traces P s' past' (widen name unname (f a)) Post | Err e => Post s' past' (Err e) end) ->
  traces P s past (widen name unname (p ≫= f)) Post.
Proof.
  revert s past. change (p ≫= f) with (proc_bind f p).
  induction p as [[a|e]| |X sec k IH|q k IH]; intros s past; cbn; auto.
  - destruct (sec s) as [s' r|s0 records h]; [apply IH|].
    intros Hw saved. specialize (Hw saved). destruct (h saved) as [s' r]. by apply IH.
  - intros [Hq Hw]. split; [done|]. intros a. by apply IH.
Qed.

(** Outsides that answer alike. *)
Lemma run_ext {S R Q} {Ans : Q -> Type} {A E} (answer answer' : E -> forall q, Ans q * E)
    (save : E -> R -> AppResult unit * E) (p : proc S R Q Ans A) s env log :
  (forall e q, answer e q = answer' e q) -> run answer save p s env log = run answer' save p s env log.
Proof.
  intros Hext. revert s env log. induction p as [r| |X sec k IH|q k IH]; intros s env log; cbn; try done.
  - destruct (sec s) as [s' r|s0 records h]; [apply IH|].
    destruct (save env records) as [saved env']. destruct (h saved) as [s' r]. apply IH.
  - rewrite <- Hext. destruct (answer env q) as [a env']. apply IH.
Qed.

(** ** What an operation does to the state

    Every section takes the state from [s] to [s'] as [G] allows, given what the
    operation did before; whatever other operations do in between. *)
Section Guarantees.
Context {S R Q : Type} {Ans : Q -> Type}.
#[local] Abbreviation history := (list (event R Q Ans)).

Fixpoint guarantees {A} (G : history -> S -> S -> Prop) (past : history) (p : proc S R Q Ans A)
    (Post : history -> A -> Prop) : Prop :=
  match p with
  | Done (Ok a) => Post past a
  | Done (Err _) => True
  | Panicked => True
  | Locked section k =>
      forall s, match section s with
      | Leave s' r => G past s s' /\ guarantees G past (k r) Post
      | Save _ records h => forall saved,
          let '(s', r) := h saved in
          G past s s' /\ guarantees G (past ++ [EvSaved records saved]) (k r) Post
      end
  | Asking q k => forall a, guarantees G (past ++ [EvAsked q a]) (k a) Post
  end.

Lemma guarantees_bind {A B} G past (p : proc S R Q Ans A) (f : A -> proc S R Q Ans B) Post :
  guarantees G past p (fun past' a => guarantees G past' (f a) Post) -> guarantees G past (p ≫= f) Post.
Proof.
  revert past. change (p ≫= f) with (proc_bind f p).
  induction p as [[a|e]| |X sec k IH|q k IH]; intros past; cbn; auto.
  - intros Hg s. specialize (Hg s). destruct (sec s) as [s' r|s0 records h]; [naive_solver|].
    intros saved. specialize (Hg saved). destruct (h saved) as [s' r]. naive_solver.
Qed.

Lemma guarantees_mono {A} G past (p : proc S R Q Ans A) (Post Post' : history -> A -> Prop) :
  guarantees G past p Post -> (forall past' a, Post past' a -> Post' past' a) -> guarantees G past p Post'.
Proof.
  intros Hg HP. revert past Hg. induction p as [[a|e]| |X sec k IH|q k IH]; intros past; cbn; auto.
  - intros Hg s. specialize (Hg s). destruct (sec s) as [s' r|s0 records h]; [naive_solver|].
    intros saved. specialize (Hg saved). destruct (h saved) as [s' r]. naive_solver.
Qed.

(** An operation that only asks. *)
Fixpoint section_free {A} (p : proc S R Q Ans A) : Prop :=
  match p with
  | Done _ | Panicked => True
  | Locked _ _ => False
  | Asking q k => forall a, section_free (k a)
  end.

Lemma section_free_bind {A B} (p : proc S R Q Ans A) (f : A -> proc S R Q Ans B) :
  section_free p -> (forall a, section_free (f a)) -> section_free (p ≫= f).
Proof.
  change (p ≫= f) with (proc_bind f p). intros Hp Hf.
  induction p as [[a|e]| |X sec k IH|q k IH]; cbn in *; auto.
Qed.

Lemma guarantees_free {A} G past (p : proc S R Q Ans A) Post :
  section_free p -> (forall past' a, Post (past ++ past') a) -> guarantees G past p Post.
Proof.
  revert past. induction p as [[a|e]| |X sec k IH|q k IH]; intros past; cbn; [|done..|].
  - intros _ HP. specialize (HP [] a). by rewrite app_nil_r in HP.
  - intros Hf HP a. apply IH; [done|]. intros past' b. rewrite <- app_assoc. apply HP.
Qed.

Lemma guarantees_advance {A} G past s d (p p' : proc S R Q Ans A) ans saved s' d' evs Post :
  guarantees G past p Post -> advance ans saved s d p = (s', d', p', evs) ->
  guarantees G (past ++ evs) p' Post /\ (G past s s' \/ s' = s).
Proof.
  intros Hg Ha. destruct p as [r| |X sec k|q k]; cbn in Hg, Ha.
  - injection Ha as <- <- <- <-. rewrite app_nil_r. auto.
  - injection Ha as <- <- <- <-. auto.
  - specialize (Hg s). destruct (sec s) as [s1 r1|s0 records h].
    + injection Ha as <- <- <- <-. rewrite app_nil_r. tauto.
    + specialize (Hg saved). destruct (h saved) as [s1 r1]. injection Ha as <- <- <- <-. tauto.
  - injection Ha as <- <- <- <-. auto.
Qed.

(** What follows of any interleaving, [J] being kept by every section. *)
Lemma pool_guarantees {C A} (body : C -> proc S R Q Ans A) admits (G : C -> history -> S -> S -> Prop)
    (J : gmap nat C -> S -> list (nat * event R Q Ans) -> Prop) s d w :
  (forall c, guarantees (G c) [] (body c) (fun _ _ => True)) ->
  J ∅ s [] ->
  (forall calls s log i c, calls !! i = None -> J calls s log -> J (<[i := c]> calls) s log) ->
  (forall calls s log i c s' evs, calls !! i = Some c -> J calls s log ->
     G c (thread_log i log) s s' \/ s' = s -> J calls s' (log ++ map (pair i) evs)) ->
  rtc (pool_step body admits) (pool_init s d) w ->
  J (fst <$> pl_threads w) (pl_state w) (pl_log w).
Proof.
  intros Hbody Hinit Hspawn Hstep Hr.
  set (inv (w : pool S R Q Ans C A) := J (fst <$> pl_threads w) (pl_state w) (pl_log w) /\
    (forall i c p, pl_threads w !! i = Some (c, p) -> guarantees (G c) (thread_log i (pl_log w)) p (fun _ _ => True)) /\
    (forall i, pl_threads w !! i = None -> thread_log i (pl_log w) = [])).
  enough (inv w) as [? _] by done.
  assert (Hinv : inv (pool_init s d)).
  { split_and!; cbn; [by rewrite fmap_empty|by intros i c p Hi|done]. }
  revert Hinv. clear Hinit. induction Hr as [w|w1 w2 w3 Hs _ IH]; [done|]. intros (HJ & Hg & Hno). apply IH. clear IH.
  destruct Hs as [w i c Hi Hadm|w i c p ans saved s' d' p' evs Hi Ha]; unfold inv; cbn [pl_state pl_threads pl_log].
  - split_and!.
    + rewrite fmap_insert. apply Hspawn; [by rewrite lookup_fmap, Hi|done].
    + intros j c' p'. destruct (decide (i = j)) as [<-|Hne].
      * rewrite lookup_insert_eq. intros [= <- <-]. rewrite Hno by done. apply Hbody.
      * rewrite lookup_insert_ne by done. apply Hg.
    + intros j Hj. apply Hno. destruct (decide (i = j)) as [<-|Hne]; [by rewrite lookup_insert_eq in Hj|].
      by rewrite lookup_insert_ne in Hj.
  - destruct (guarantees_advance _ _ _ _ _ _ _ _ _ _ _ _ (Hg i c p Hi) Ha) as [Hp' HG]. split_and!.
    + rewrite fmap_insert, insert_id by (by rewrite lookup_fmap, Hi).
      eapply Hstep; [by rewrite lookup_fmap, Hi|done|done].
    + intros j c1 p1. rewrite thread_log_app. destruct (decide (i = j)) as [<-|Hne].
      * rewrite lookup_insert_eq. intros [= <- <-]. by rewrite thread_log_own.
      * rewrite lookup_insert_ne by done. rewrite thread_log_other, app_nil_r by done. apply Hg.
    + intros j Hj. destruct (decide (i = j)) as [<-|Hne]; [by rewrite lookup_insert_eq in Hj|].
      rewrite lookup_insert_ne in Hj by done. rewrite thread_log_app, thread_log_other, app_nil_r by done. by apply Hno.
Qed.
End Guarantees.

(** Every section of it takes the state from [s] to [s'] as [I] allows, whatever the
    operation did before. *)
Fixpoint sections_do {S R Q} {Ans : Q -> Type} {A} (I : S -> S -> Prop) (p : proc S R Q Ans A) : Prop :=
  match p with
  | Done _ | Panicked => True
  | Locked section k =>
      (forall s, match section s with
       | Leave s' _ => I s s'
       | Save _ _ h => forall saved, I s (fst (h saved))
       end) /\ forall x, sections_do I (k x)
  | Asking q k => forall a, sections_do I (k a)
  end.

Lemma sections_bind {S R Q} {Ans : Q -> Type} {A B} I (p : proc S R Q Ans A) (f : A -> proc S R Q Ans B) :
  sections_do I p -> (forall a, sections_do I (f a)) -> sections_do I (p ≫= f).
Proof.
  change (p ≫= f) with (proc_bind f p). intros Hp Hf.
  induction p as [[a|e]| |X sec k IH|q k IH]; cbn in *; naive_solver.
Qed.

Lemma sections_caught {S R Q} {Ans : Q -> Type} {A} I (p : proc S R Q Ans A) : sections_do I p -> sections_do I (caught p).
Proof. induction p as [[a|e]| |X sec k IH|q k IH]; cbn in *; naive_solver. Qed.

Lemma sections_any {S R Q} {Ans : Q -> Type} {A} (p : proc S R Q Ans A) : sections_do (fun _ _ => True) p.
Proof.
  induction p as [r| |X sec k IH|q k IH]; cbn; [done..| |done].
  split; [|done]. intros s. by destruct (sec s).
Qed.

Lemma sections_free {S R Q} {Ans : Q -> Type} {A} I (p : proc S R Q Ans A) : section_free p -> sections_do I p.
Proof. induction p as [[a|e]| |X sec k IH|q k IH]; cbn in *; naive_solver. Qed.

(** A state that every section keeps [J] of. *)
Lemma traces_kept {S R Q} {Ans : Q -> Type} {A} (J : S -> Prop) P s past (p : proc S R Q Ans A) Post :
  sections_do (fun s s' => J s -> J s') p -> J s -> traces P s past p Post ->
  traces P s past p (fun s' past' r => J s' /\ Post s' past' r).
Proof.
  revert s past. induction p as [r| |X sec k IH|q k IH]; intros s past; cbn; [done|done|..].
  - intros [Hs Hk] HJ. specialize (Hs s). destruct (sec s) as [s' r|s0 records h]; [by auto|].
    intros Ht saved. specialize (Hs saved). specialize (Ht saved). destruct (h saved) as [s' r]. auto.
  - intros Hk HJ [Hq Ht]. split; [done|]. intros a. by apply IH.
Qed.

Lemma run_kept {S R Q} {Ans : Q -> Type} {A E} (answer : E -> forall q, Ans q * E) (save : E -> R -> AppResult unit * E)
    (J : S -> Prop) (p : proc S R Q Ans A) s env log o s' env' log' :
  sections_do (fun s s' => J s -> J s') p -> J s -> run answer save p s env log = (o, s', env', log') -> J s'.
Proof.
  revert s env log. induction p as [r| |X sec k IH|q k IH]; intros s env log; cbn.
  - by intros _ HJ [= _ <- _ _].
  - by intros _ HJ [= _ <- _ _].
  - intros [Hs Hk] HJ. specialize (Hs s). destruct (sec s) as [s1 r|s0 records h]; [apply IH; auto|].
    destruct (save env records) as [saved env1]. specialize (Hs saved). destruct (h saved) as [s1 r]. apply IH; auto.
  - intros Hk HJ. destruct (answer env q) as [a env1]. by apply IH.
Qed.
