(* ===== verification/History.v ===== *)
(** * Interleaved operations, with the states they passed through

    [certifies] is a rely-guarantee condition on one operation: of every section, [G]
    holds of the states so far and of the two states it is between; and [Post] of the
    states so far and of the result at the end.  [pool_history] lifts it to any
    interleaving, for which there is then one sequence of states that every
    operation, and every result, can be read against. *)
From S2P Require Import Prelude Errors Process.

Section History.
Context {S R Q : Type} {Ans : Q -> Type}.

Fixpoint certifies {A} (G : list S -> S -> S -> Prop) (past : list S) (p : proc S R Q Ans A)
    (Post : list S -> AppResult A -> Prop) : Prop :=
  match p with
  | Done r => Post past r
  | Panicked => False
  | Locked section k =>
      forall past' s, past `prefix_of` past' ++ [s] ->
      match section s with
      | Leave s' r => G past' s s' /\ certifies G (past' ++ [s; s']) (k r) Post
      | Save _ _ h => forall saved,
          let '(s', r) := h saved in G past' s s' /\ certifies G (past' ++ [s; s']) (k r) Post
      end
  | Asking q k => forall a, certifies G past (k a) Post
  end.

Lemma certifies_mono {A} G past (p : proc S R Q Ans A) (Post Post' : list S -> AppResult A -> Prop) :
  certifies G past p Post -> (forall past' r, Post past' r -> Post' past' r) -> certifies G past p Post'.
Proof.
  intros Hc HP. revert past Hc. induction p as [r| |X sec k IH|q k IH]; intros past; cbn; auto.
  - intros Hc past' s Hp. specialize (Hc past' s Hp). destruct (sec s) as [s' r|s0 records h]; [naive_solver|].
    intros saved. specialize (Hc saved). destruct (h saved) as [s' r]. naive_solver.
Qed.

Lemma certifies_bind {A B} G past (p : proc S R Q Ans A) (f : A -> proc S R Q Ans B) Post :
  certifies G past p (fun past' r =>
    match r with Ok a => certifies G past' (f a) Post | Err e => Post past' (Err e) end) ->
  certifies G past (p ≫= f) Post.
Proof.
  revert past. change (p ≫= f) with (proc_bind f p).
  induction p as [[a|e]| |X sec k IH|q k IH]; intros past; cbn; auto.
  - intros Hc past' s Hp. specialize (Hc past' s Hp). destruct (sec s) as [s' r|s0 records h]; [naive_solver|].
    intros saved. specialize (Hc saved). destruct (h saved) as [s' r]. naive_solver.
Qed.

Lemma certifies_lift {A} G past (r : AppResult A) (Post : list S -> AppResult A -> Prop) :
  Post past r -> certifies G past (lift (S := S) (R := R) (Q := Q) (Ans := Ans) r) Post.
Proof. done. Qed.

(** ** A pool with its states *)
Context {C A : Type} (body : C -> proc S R Q Ans A) (admits : pool S R Q Ans C A -> C -> Prop)
  (G : C -> list S -> S -> S -> Prop) (Post : C -> list S -> AppResult A -> Prop).

(** Consecutive states are equal, or one call's step. *)
Definition steps_of (calls : gmap nat (C * proc S R Q Ans A)) (states : list S) : Prop :=
  forall l s s' rest, states = l ++ s :: s' :: rest -> s' = s \/ exists t c p, calls !! t = Some (c, p) /\ G c l s s'.

Definition historied (s0 : S) (w : pool S R Q Ans C A) (states : list S) : Prop :=
  head states = Some s0 /\ last states = Some (pl_state w) /\ steps_of (pl_threads w) states /\
  forall t c p, pl_threads w !! t = Some (c, p) ->
    exists past, past `prefix_of` states /\ certifies (G c) past p (Post c).

Lemma steps_of_mono calls calls' states :
  (forall t c p, calls !! t = Some (c, p) -> exists p', calls' !! t = Some (c, p')) ->
  steps_of calls states -> steps_of calls' states.
Proof.
  intros Hc Hs l s s' rest Heq. destruct (Hs l s s' rest Heq) as [->|(t & c & p & Ht & HG)]; [by left|].
  destruct (Hc t c p Ht) as [p' Hp']. right. by exists t, c, p'.
Qed.

Lemma steps_of_snoc calls states s s' :
  last states = Some s -> steps_of calls states ->
  (s' = s \/ exists t c p l, states = l ++ [s] /\ calls !! t = Some (c, p) /\ G c l s s') ->
  steps_of calls (states ++ [s']).
Proof.
  intros Hl Hs Hnew l x y rest Heq. apply last_Some in Hl as [l0 ->].
  destruct rest as [|z rest] using rev_ind.
  - assert (l = l0 /\ x = s /\ y = s') as (-> & -> & ->).
    { rewrite <- app_assoc in Heq. cbn in Heq. change (l ++ [x; y]) with (l ++ [x] ++ [y]) in Heq.
      rewrite app_assoc in Heq. change ([s; s']) with ([s] ++ [s']) in Heq. rewrite app_assoc in Heq.
      apply app_inj_tail in Heq as [Heq ->]. by apply app_inj_tail in Heq as [-> ->]. }
    destruct Hnew as [->|(t & c & p & l1 & Hl1 & Ht & HG)]; [by left|]. apply app_inj_tail in Hl1 as [-> _].
    right. by exists t, c, p.
  - clear IHrest. change (x :: y :: rest ++ [z]) with ((x :: y :: rest) ++ [z]) in Heq. rewrite app_assoc in Heq.
    apply app_inj_tail in Heq as [Heq _]. by eapply Hs.
Qed.

Hypothesis body_ok : forall c, certifies (G c) [] (body c) (Post c).

Lemma certifies_advance c past states s d (p p' : proc S R Q Ans A) ans saved s' d' evs :
  certifies (G c) past p (Post c) -> past `prefix_of` states -> last states = Some s ->
  advance ans saved s d p = (s', d', p', evs) ->
  exists past', past' `prefix_of` states ++ [s'] /\ certifies (G c) past' p' (Post c) /\
    (s' = s \/ exists l, states = l ++ [s] /\ G c l s s').
Proof.
  intros Hc Hp Hl Ha. destruct p as [r| |X sec k|q k]; cbn in Hc, Ha.
  - injection Ha as <- <- <- <-. exists past. split_and!; [by apply prefix_app_r|done|by left].
  - done.
  - apply last_Some in Hl as [l0 ->]. specialize (Hc l0 s Hp). destruct (sec s) as [s1 r1|s0 records h].
    + injection Ha as <- <- <- <-. destruct Hc as [HG Hc]. exists (l0 ++ [s; s1]).
      split_and!; [by rewrite <- app_assoc|done|right; eauto].
    + specialize (Hc saved). destruct (h saved) as [s1 r1]. injection Ha as <- <- <- <-. destruct Hc as [HG Hc].
      exists (l0 ++ [s; s1]). split_and!; [by rewrite <- app_assoc|done|right; eauto].
  - injection Ha as <- <- <- <-. exists past. split_and!; [by apply prefix_app_r|apply Hc|by left].
Qed.

Lemma pool_history s0 d w :
  rtc (pool_step body admits) (pool_init s0 d) w -> exists states, historied s0 w states.
Proof.
  intros Hr. assert (Hinit : exists states, historied s0 (pool_init (C := C) (A := A) s0 d) states).
  { exists [s0]. split_and!; [done|done| |by intros t c p Ht]. intros [|x [|y l]] s s' rest Heq; discriminate Heq. }
  revert Hinit. induction Hr as [w|w1 w2 w3 Hstep _ IH]; [done|]. intros (states & Hh & Hl & Hs & Ht). apply IH. clear IH.
  destruct Hstep as [w i c Hi Hadm|w i c p ans saved s' d' p' evs Hi Ha].
  - exists states. split_and!; [done|done| |]; cbn [pl_threads].
    + eapply steps_of_mono; [|exact Hs]. intros t c' p' Htc. exists p'. rewrite lookup_insert_ne; [done|]. intros ->. congruence.
    + intros t c' p' [[_ [= <- <-]]|[_ Htc]]%lookup_insert_Some; [|by apply (Ht t)]. exists []. split; [apply prefix_nil|apply body_ok].
  - destruct (Ht i c p Hi) as (past & Hp & Hc).
    destruct (certifies_advance c past states _ _ p p' ans saved s' d' evs Hc Hp Hl Ha) as (past' & Hp' & Hc' & Hnew).
    assert (Hcalls : forall t c1 p1, pl_threads w !! t = Some (c1, p1) -> exists p2, <[i:=(c, p')]> (pl_threads w) !! t = Some (c1, p2)).
    { intros t c1 p1 Htc. destruct (decide (i = t)) as [<-|Hne]; [|exists p1; by rewrite lookup_insert_ne].
      exists p'. rewrite lookup_insert_eq. congruence. }
    exists (states ++ [s']). split_and!; cbn [pl_state pl_threads].
    + by destruct states.
    + by rewrite last_snoc.
    + eapply steps_of_snoc; [exact Hl|by eapply steps_of_mono|]. destruct Hnew as [->|(l & Hstates & HG)]; [by left|right].
      destruct (Hcalls i c p Hi) as [p2 Hp2]. by exists i, c, p2, l.
    + intros t c1 p1 [[_ [= <- <-]]|[_ Htc]]%lookup_insert_Some; [by exists past'|].
      destruct (Ht t c1 p1 Htc) as (past1 & Hp1 & Hc1). exists past1. split; [by apply prefix_app_r|done].
Qed.
End History.

(** What holds of every state on the way, given the states before it. *)
Lemma historied_states {S R Q} {Ans : Q -> Type} {C A} (G : C -> list S -> S -> S -> Prop)
    (Post : C -> list S -> AppResult A -> Prop) s0 (w : pool S R Q Ans C A) states (J : list S -> S -> Prop) :
  historied G Post s0 w states -> J [] s0 ->
  (forall l s s', J l s -> s' = s \/ (exists t c p, pl_threads w !! t = Some (c, p) /\ G c l s s') -> J (l ++ [s]) s') ->
  forall l s rest, states = l ++ s :: rest -> J l s.
Proof.
  intros (Hh & _ & Hs & _) Hinit Hstep l. induction l as [|x l IH] using rev_ind; intros s rest ->.
  - cbn in Hh. by injection Hh as ->.
  - rewrite <- app_assoc in Hs, Hh. cbn in Hs, Hh. apply Hstep; [apply (IH x (s :: rest)); by rewrite <- app_assoc|].
    by apply (Hs l x s rest).
Qed.
