(* ===== verification/Rely.v ===== *)
(** * Interleaved operations that rely on an invariant

    [relies] is a rely-guarantee condition on one operation of a service behind a lock:
    whenever it enters a section the invariant [J] holds of the state and of all that
    any operation has been answered so far, which includes what this one knows, and
    the section leaves [J] true; every question satisfies [P] of all the answers so
    far, and the result [Post].  [pool_relies] lifts it to any interleaving. *)
From S2P Require Import Prelude Errors Process.

Section Rely.
Context {S R Q : Type} {Ans : Q -> Type}.
#[local] Abbreviation history := (list (event R Q Ans)).
Context (J : history -> S -> Prop) (P : history -> Q -> Prop).

Fixpoint relies {A} (past : history) (p : proc S R Q Ans A) (Post : history -> AppResult A -> Prop) : Prop :=
  match p with
  | Done r => Post past r
  | Panicked => True
  | Locked section k =>
      forall log s, past `prefix_of` log -> J log s ->
      match section s with
      | Leave s' r => J log s' /\ relies log (k r) Post
      | Save _ records h => forall saved,
          let '(s', r) := h saved in
          J (log ++ [EvSaved records saved]) s' /\ relies (log ++ [EvSaved records saved]) (k r) Post
      end
  | Asking q k => forall log, past `prefix_of` log -> P log q /\ forall a, relies (log ++ [EvAsked q a]) (k a) Post
  end.

Lemma relies_mono {A} past (p : proc S R Q Ans A) (Post Post' : history -> AppResult A -> Prop) :
  relies past p Post -> (forall log r, past `prefix_of` log -> Post log r -> Post' log r) -> relies past p Post'.
Proof.
  revert past. induction p as [r| |X sec k IH|q k IH]; intros past; cbn; auto.
  - intros Hc HP log s Hlog HJ. specialize (Hc log s Hlog HJ). destruct (sec s) as [s' r|s0 records h].
    + destruct Hc as [HJ' Hc]. split; [done|]. eapply IH; [done|]. intros log' r' Hl. apply HP. by etransitivity.
    + intros saved. specialize (Hc saved). destruct (h saved) as [s' r]. destruct Hc as [HJ' Hc]. split; [done|].
      eapply IH; [done|]. intros log' r' Hl. apply HP. etransitivity; [exact Hlog|]. by eapply prefix_app_l.
  - intros Hc HP log Hlog. destruct (Hc log Hlog) as [Hq Ha]. split; [done|]. intros a. eapply IH; [done|].
    intros log' r' Hl. apply HP. etransitivity; [exact Hlog|]. by eapply prefix_app_l.
Qed.

Lemma relies_bind {A B} past (p : proc S R Q Ans A) (f : A -> proc S R Q Ans B) Post :
  relies past p (fun log r => match r with Ok a => relies log (f a) Post | Err e => Post log (Err e) end) ->
  relies past (p ≫= f) Post.
Proof.
  revert past. change (p ≫= f) with (proc_bind f p).
  induction p as [[a|e]| |X sec k IH|q k IH]; intros past; cbn; auto.
  - intros Hc log s Hlog HJ. specialize (Hc log s Hlog HJ). destruct (sec s) as [s' r|s0 records h]; [naive_solver|].
    intros saved. specialize (Hc saved). destruct (h saved) as [s' r]. naive_solver.
  - intros Hc log Hlog. destruct (Hc log Hlog) as [Hq Ha]. split; [done|]. intros a. by apply IH.
Qed.

Lemma relies_ask past q (Post : history -> AppResult (Ans q) -> Prop) :
  (forall log, past `prefix_of` log -> P log q /\ forall a, Post (log ++ [EvAsked q a]) (Ok a)) -> relies past (ask q) Post.
Proof. done. Qed.
Lemma relies_lift {A} past (r : AppResult A) (Post : history -> AppResult A -> Prop) :
  Post past r -> relies past (lift (S := S) (R := R) (Q := Q) (Ans := Ans) r) Post.
Proof. done. Qed.
Lemma relies_locked {X} past (section : S -> held S R X) (Post : history -> AppResult X -> Prop) :
  (forall log s, past `prefix_of` log -> J log s ->
     match section s with
     | Leave s' r => J log s' /\ Post log r
     | Save _ records h => forall saved, let '(s', r) := h saved in
         J (log ++ [EvSaved records saved]) s' /\ Post (log ++ [EvSaved records saved]) r
     end) -> relies past (locked section) Post.
Proof. done. Qed.
Lemma relies_caught {A} past (p : proc S R Q Ans A) (Post : history -> AppResult (AppResult A) -> Prop) :
  relies past p (fun log r => Post log (Ok r)) -> relies past (caught p) Post.
Proof.
  revert past. induction p as [r| |X sec k IH|q k IH]; intros past; cbn; auto.
  - intros Hc log s Hlog HJ. specialize (Hc log s Hlog HJ). destruct (sec s) as [s' r|s0 records h]; [naive_solver|].
    intros saved. specialize (Hc saved). destruct (h saved) as [s' r]. naive_solver.
  - intros Hc log Hlog. destruct (Hc log Hlog) as [Hq Ha]. split; [done|]. intros a. by apply IH.
Qed.

(** ** In any interleaving *)
Hypothesis J_grows : forall log e s, J log s -> J (log ++ [e]) s.

Definition all_events {C A} (w : pool S R Q Ans C A) : history := map snd (pl_log w).

Definition relied {C A} (Post : C -> history -> AppResult A -> Prop) (w : pool S R Q Ans C A) : Prop :=
  J (all_events w) (pl_state w) /\
  (forall l1 q a l2, all_events w = l1 ++ EvAsked q a :: l2 -> P l1 q) /\
  forall t c p, pl_threads w !! t = Some (c, p) -> exists past, past `prefix_of` all_events w /\ relies past p (Post c).

Lemma snoc_split {X} (l1 l2 l : list X) x y : l ++ [x] = l1 ++ y :: l2 -> (exists l2', l = l1 ++ y :: l2') \/ (l1 = l /\ y = x).
Proof.
  destruct l2 as [|z l2 _] using rev_ind.
  - intros [-> ->]%app_inj_tail. by right.
  - rewrite app_comm_cons, app_assoc. intros [-> _]%app_inj_tail. left. eauto.
Qed.

Lemma pool_relies {C A} (body : C -> proc S R Q Ans A) admits (Post : C -> history -> AppResult A -> Prop) s d w :
  (forall c, relies [] (body c) (Post c)) -> J [] s ->
  rtc (pool_step body admits) (pool_init s d) w -> relied Post w.
Proof.
  intros Hbody Hinit Hr.
  assert (H0 : relied (C := C) (A := A) Post (pool_init s d)).
  { split_and!; [done|by intros [|] *|by intros t c p Ht]. }
  revert H0. clear Hinit. induction Hr as [w|w1 w2 w3 Hstep _ IH]; [done|]. intros (HJ & HP & Ht). apply IH. clear IH.
  destruct Hstep as [w i c Hi Hadm|w i c p ans saved s' d' p' evs Hi Ha].
  { split_and!; [done|done|]. cbn [pl_threads]. intros t c' p' [[_ [= <- <-]]|[_ Htc]]%lookup_insert_Some; [|by apply (Ht t)].
    exists []. split; [apply prefix_nil|apply Hbody]. }
  destruct (Ht i c p Hi) as (past & Hpast & Hrel).
  assert (Hnew : exists past', past' `prefix_of` all_events w ++ evs /\ relies past' p' (Post c) /\
            J (all_events w ++ evs) s' /\
            forall l1 q a l2, all_events w ++ evs = l1 ++ EvAsked q a :: l2 -> P l1 q).
  { destruct p as [r| |X sec k|q k]; cbn in Hrel, Ha.
    - injection Ha as <- <- <- <-. rewrite app_nil_r. eauto.
    - injection Ha as <- <- <- <-. rewrite app_nil_r. eauto 10.
    - specialize (Hrel _ _ Hpast HJ). destruct (sec (pl_state w)) as [s1 r1|s0 records h].
      + injection Ha as <- <- <- <-. rewrite app_nil_r. destruct Hrel. exists (all_events w). split_and!; done.
      + specialize (Hrel saved). destruct (h saved) as [s1 r1]. injection Ha as <- <- <- <-. destruct Hrel as [HJ' Hrel].
        exists (all_events w ++ [EvSaved records saved]). split_and!; [done..|].
        intros l1 q a l2 [[l2' Hl]|[_ [=]]]%snoc_split. by eapply HP.
    - injection Ha as <- <- <- <-. destruct (Hrel _ Hpast) as [Hq Hans].
      exists (all_events w ++ [EvAsked q (ans q)]). split_and!; [done|apply Hans|by apply J_grows|].
      intros l1 q' a l2 [[l2' Hl]|[-> Heq]]%snoc_split; [by eapply HP|]. injection Heq as <- _. done. }
  destruct Hnew as (past' & Hpast' & Hrel' & HJ' & HP').
  assert (Hall : all_events {| pl_state := s'; pl_disk := d'; pl_threads := <[i := (c, p')]> (pl_threads w);
                               pl_log := pl_log w ++ map (pair i) evs |} = all_events w ++ evs).
  { unfold all_events. cbn. rewrite map_app, map_map, map_id. done. }
  unfold relied. rewrite Hall. cbn [pl_state pl_threads]. split_and!; [done|done|].
  intros t c1 p1 [[_ [= <- <-]]|[_ Htc]]%lookup_insert_Some; [by exists past'|].
  destruct (Ht t c1 p1 Htc) as (past1 & Hp1 & Hc1). exists past1. split; [by apply prefix_app_r|done].
Qed.
End Rely.
