(* ===== verification/Observe.v ===== *)
(** * What an operation saw, and when

    A [moment] of an operation is a state that one of its sections found, or an event
    of its own.  [observes] is a condition on one operation over its moments: every
    question satisfies [P] of the moments before it, every section takes the state it
    finds to another as [G] allows, and [Post] holds of the moments and the result at
    the end.  [pool_observes] lifts it to any interleaving and ties each moment to a
    state the service really was in: [lived t ms w] says that operation [t] had the
    moments [ms] on the way to [w], and [lived_split] finds the pool of each of them. *)
From S2P Require Import Prelude Errors Process.

Section Observe.
Context {S R Q : Type} {Ans : Q -> Type}.

Inductive moment : Type :=
  | Saw (s : S)
  | Did (e : event R Q Ans).

Definition did (m : moment) : option (event R Q Ans) :=
  match m with Saw _ => None | Did e => Some e end.

Definition events_of (ms : list moment) : list (event R Q Ans) := omap did ms.

Lemma events_of_app m1 m2 : events_of (m1 ++ m2) = events_of m1 ++ events_of m2.
Proof. apply omap_app. Qed.

Context (P : list moment -> Q -> Prop) (G : list moment -> S -> S -> Prop).

Fixpoint observes {A} (past : list moment) (p : proc S R Q Ans A) (Post : list moment -> A -> Prop) : Prop :=
  match p with
  | Done (Ok a) => Post past a
  | Done (Err _) => True
  | Panicked => True
  | Locked section k =>
      forall s, match section s with
      | Leave s' r => G past s s' /\ observes (past ++ [Saw s]) (k r) Post
      | Save _ records h => forall saved,
          let '(s', r) := h saved in
          G past s s' /\ observes (past ++ [Saw s; Did (EvSaved records saved)]) (k r) Post
      end
  | Asking q k => P past q /\ forall a, observes (past ++ [Did (EvAsked q a)]) (k a) Post
  end.

(** ** Rules *)
Lemma observes_bind {A B} past (p : proc S R Q Ans A) (f : A -> proc S R Q Ans B) Post :
  observes past p (fun past' a => observes past' (f a) Post) -> observes past (p ≫= f) Post.
Proof.
  revert past. change (p ≫= f) with (proc_bind f p).
  induction p as [[a|e]| |X sec k IH|q k IH]; intros past; cbn; auto.
  - intros Ho s. specialize (Ho s). destruct (sec s) as [s' r|s0 records h]; [naive_solver|].
    intros saved. specialize (Ho saved). destruct (h saved) as [s' r]. naive_solver.
  - intros [Hq Ho]. split; [done|]. intros a. by apply IH.
Qed.

Lemma observes_mono {A} past (p : proc S R Q Ans A) (Post Post' : list moment -> A -> Prop) :
  observes past p Post -> (forall past' a, Post past' a -> Post' past' a) -> observes past p Post'.
Proof.
  intros Ho HP. revert past Ho. induction p as [[a|e]| |X sec k IH|q k IH]; intros past; cbn; auto.
  - intros Ho s. specialize (Ho s). destruct (sec s) as [s' r|s0 records h]; [naive_solver|].
    intros saved. specialize (Ho saved). destruct (h saved) as [s' r]. naive_solver.
  - intros [Hq Ho]. auto.
Qed.

Lemma observes_ask past q (Post : list moment -> Ans q -> Prop) :
  P past q -> (forall a, Post (past ++ [Did (EvAsked q a)]) a) -> observes past (ask q) Post.
Proof. by split. Qed.

Lemma observes_lift {A} past (r : AppResult A) (Post : list moment -> A -> Prop) :
  (forall a, r = Ok a -> Post past a) -> observes past (lift (S := S) (R := R) (Q := Q) (Ans := Ans) r) Post.
Proof. destruct r; cbn; auto. Qed.

Lemma observes_indexed {A} past (o : option A) (Post : list moment -> A -> Prop) :
  (forall a, o = Some a -> Post past a) -> observes past (indexed (S := S) (R := R) (Q := Q) (Ans := Ans) o) Post.
Proof. destruct o; cbn; auto. Qed.

Lemma observes_caught {A} past (p : proc S R Q Ans A) (Post : list moment -> AppResult A -> Prop) :
  observes past p (fun past' a => Post past' (Ok a)) -> (forall past' e, past `prefix_of` past' -> Post past' (Err e)) ->
  observes past (caught p) Post.
Proof.
  intros Ho HE. revert past HE Ho. induction p as [[a|e]| |X sec k IH|q k IH]; intros past HE; cbn; auto.
  - intros Ho s. specialize (Ho s). destruct (sec s) as [s' r|s0 records h].
    + destruct Ho as [HG Ho]. split; [done|]. apply IH; [|done]. intros past' e Hp. apply HE. by eapply prefix_app_l.
    + intros saved. specialize (Ho saved). destruct (h saved) as [s' r]. destruct Ho as [HG Ho]. split; [done|].
      apply IH; [|done]. intros past' e Hp. apply HE. by eapply prefix_app_l.
  - intros [Hq Ho]. split; [done|]. intros a. apply IH; [|done]. intros past' e Hp. apply HE. by eapply prefix_app_l.
Qed.
End Observe.

#[global] Arguments moment : clear implicits.

(** Only the weakest of conditions: for a part of an operation. *)
Lemma observes_weaken {S R Q} {Ans : Q -> Type} {A} (P P' : list (moment S R Q Ans) -> Q -> Prop)
    (G G' : list (moment S R Q Ans) -> S -> S -> Prop) past (p : proc S R Q Ans A) Post :
  (forall past q, P past q -> P' past q) -> (forall past s s', G past s s' -> G' past s s') ->
  observes P G past p Post -> observes P' G' past p Post.
Proof.
  intros HP HG. revert past. induction p as [[a|e]| |X sec k IH|q k IH]; intros past; cbn; auto.
  - intros Ho s. specialize (Ho s). destruct (sec s) as [s' r|s0 records h]; [naive_solver|].
    intros saved. specialize (Ho saved). destruct (h saved) as [s' r]. naive_solver.
  - intros [Hq Ho]. auto.
Qed.

(** What is known of the events of an operation, and of its sections. *)
Lemma observes_follows {S R Q} {Ans : Q -> Type} {A} (P : list (event R Q Ans) -> Q -> Prop)
    (P' : list (moment S R Q Ans) -> Q -> Prop) (G : list (moment S R Q Ans) -> S -> S -> Prop) (I : S -> S -> Prop)
    ms (p : proc S R Q Ans A) (Post : list (event R Q Ans) -> A -> Prop) :
  (forall ms' q, ms `prefix_of` ms' -> P (events_of ms') q -> P' ms' q) ->
  (forall ms' s s', I s s' -> G ms' s s') ->
  sections_do I p -> follows P (events_of ms) p Post ->
  observes P' G ms p (fun ms' a => ms `prefix_of` ms' /\ Post (events_of ms') a).
Proof.
  intros HP HG. revert ms HP. induction p as [[a|e]| |X sec k IH|q k IH]; intros ms HP; cbn; [done..| |].
  - intros [HI Hsec] Hf s. specialize (Hf s). specialize (HI s). destruct (sec s) as [s' r|s0 records h].
    + split; [auto|]. eapply observes_mono; [apply IH; [|done|]|].
      * intros ms' q Hp. apply HP. by eapply prefix_app_l.
      * rewrite events_of_app. cbn. by rewrite app_nil_r.
      * intros ms' a [Hp HPost]. split; [by eapply prefix_app_l|done].
    + intros saved. specialize (Hf saved). specialize (HI saved). destruct (h saved) as [s' r]. split; [auto|].
      eapply observes_mono; [apply IH; [|done|]|].
      * intros ms' q Hp. apply HP. by eapply prefix_app_l.
      * rewrite events_of_app. exact Hf.
      * intros ms' a [Hp HPost]. split; [by eapply prefix_app_l|done].
  - intros Hsec [Hq Hf]. split; [by apply HP|]. intros a. eapply observes_mono; [apply IH; [|done|]|].
    + intros ms' q' Hp. apply HP. by eapply prefix_app_l.
    + rewrite events_of_app. apply Hf.
    + intros ms' a' [Hp HPost]. split; [by eapply prefix_app_l|done].
Qed.

(** The guarantee of every section, as a condition of this kind. *)
Lemma guarantees_observes {S R Q} {Ans : Q -> Type} {A} (G : list (event R Q Ans) -> S -> S -> Prop) ms (p : proc S R Q Ans A) :
  guarantees G (events_of ms) p (fun _ _ => True) ->
  observes (fun _ _ => True) (fun ms s s' => G (events_of ms) s s') ms p (fun _ _ => True).
Proof.
  revert ms. induction p as [[a|e]| |X sec k IH|q k IH]; intros ms; cbn; [done..| |].
  - intros Hg s. specialize (Hg s). destruct (sec s) as [s' r|s0 records h].
    + destruct Hg as [HG Hg]. split; [done|]. apply IH. rewrite events_of_app. cbn. by rewrite app_nil_r.
    + intros saved. specialize (Hg saved). destruct (h saved) as [s' r]. destruct Hg as [HG Hg]. split; [done|].
      apply IH. rewrite events_of_app. exact Hg.
  - intros Hg. split; [done|]. intros a. apply IH. rewrite events_of_app. exact (Hg a).
Qed.

(** An operation that asks nothing but what [ok] allows. *)
Fixpoint asks_only {S R Q} {Ans : Q -> Type} {A} (ok : Q -> Prop) (p : proc S R Q Ans A) : Prop :=
  match p with
  | Done _ | Panicked => True
  | Locked _ k => forall x, asks_only ok (k x)
  | Asking q k => ok q /\ forall a, asks_only ok (k a)
  end.

Lemma asks_only_bind {S R Q} {Ans : Q -> Type} {A B} ok (p : proc S R Q Ans A) (f : A -> proc S R Q Ans B) :
  asks_only ok p -> (forall a, asks_only ok (f a)) -> asks_only ok (p ≫= f).
Proof.
  change (p ≫= f) with (proc_bind f p). intros Hp Hf.
  induction p as [[a|e]| |X sec k IH|q k IH]; cbn in *; naive_solver.
Qed.

Lemma asks_only_caught {S R Q} {Ans : Q -> Type} {A} ok (p : proc S R Q Ans A) : asks_only ok p -> asks_only ok (caught p).
Proof. induction p as [[a|e]| |X sec k IH|q k IH]; cbn in *; naive_solver. Qed.

Lemma observes_asks_only {S R Q} {Ans : Q -> Type} {A} ok (P : list (moment S R Q Ans) -> Q -> Prop) ms (p : proc S R Q Ans A) :
  (forall ms q, ok q -> P ms q) -> asks_only ok p -> observes P (fun _ _ _ => True) ms p (fun _ _ => True).
Proof.
  intros HP. revert ms. induction p as [[a|e]| |X sec k IH|q k IH]; intros ms; cbn; [done..| |naive_solver].
  intros Hk s. destruct (sec s) as [s' r|s0 records h]; [auto|]. intros saved. destruct (h saved). auto.
Qed.

(** ** In any interleaving *)
Section Lived.
Context {S R Q : Type} {Ans : Q -> Type} {C A : Type}.
Context (body : C -> proc S R Q Ans A) (admits : pool S R Q Ans C A -> C -> Prop) (s0 : S) (d0 : R).
#[local] Abbreviation Moment := (moment S R Q Ans).
#[local] Abbreviation Pool := (pool S R Q Ans C A).

(** Later in the same run. *)
Definition later : Pool -> Pool -> Prop := rtc (pool_step body admits).

Definition reached (w : Pool) : Prop := later (pool_init s0 d0) w.

Lemma reached_later w w' : reached w -> later w w' -> reached w'.
Proof. unfold reached, later. intros H1 H2. by etransitivity. Qed.

(** The log only grows, ... *)
Lemma later_log w w' : later w w' -> pl_log w `prefix_of` pl_log w'.
Proof.
  induction 1 as [|w1 w2 w3 Hstep _ IH]; [done|]. etransitivity; [|exact IH].
  destruct Hstep; [done|]. by eexists.
Qed.

(** ... and an operation keeps its call. *)
Lemma later_call w w' t c p :
  later w w' -> pl_threads w !! t = Some (c, p) -> exists p', pl_threads w' !! t = Some (c, p').
Proof.
  intros Hr. revert p. induction Hr as [w|w1 w2 w3 Hstep _ IH]; intros p Ht; [eauto|].
  assert (exists p', pl_threads w2 !! t = Some (c, p')) as [p' Hp']; [|by eapply IH].
  destruct Hstep as [w i c' Hi|w i c' q ans saved s' d' q' evs Hi]; cbn [pl_threads].
  - exists p. rewrite lookup_insert_ne; [done|]. intros ->. congruence.
  - destruct (decide (i = t)) as [<-|Hne]; [|exists p; by rewrite lookup_insert_ne].
    exists q'. rewrite lookup_insert_eq. congruence.
Qed.

(** An operation that has ended stays so. *)
Lemma later_done w w' t c r : later w w' -> pl_threads w !! t = Some (c, Done r) -> pl_threads w' !! t = Some (c, Done r).
Proof.
  induction 1 as [|w1 w2 w3 Hstep _ IH]; [done|]. intros Ht. apply IH.
  destruct Hstep as [w i c' Hi|w i c' q ans saved s' d' q' evs Hi Ha]; cbn [pl_threads].
  - rewrite lookup_insert_ne; [done|]. intros ->. congruence.
  - destruct (decide (i = t)) as [<-|Hne]; [|by rewrite lookup_insert_ne].
    rewrite Ht in Hi. injection Hi as <- <-. cbn in Ha. injection Ha as _ _ <- _. by rewrite lookup_insert_eq.
Qed.

Lemma reached_ind (I : Pool -> Prop) :
  I (pool_init s0 d0) -> (forall w w', reached w -> I w -> pool_step body admits w w' -> I w') ->
  forall w, reached w -> I w.
Proof.
  intros Hinit Hstep w Hr. refine (rtc_ind_r (R := pool_step body admits) I (pool_init s0 d0) Hinit _ w Hr).
  intros w1 w2 H1 H2 HI. by apply (Hstep w1).
Qed.

(** Operation [t] had the moments [ms] up to [w]: each state it saw is that of a pool of
    the run, each event of its own is the step of the run that did it. *)
Inductive lived (t : nat) : list Moment -> Pool -> Prop :=
  | lived_start w : reached w -> thread_log t (pl_log w) = [] -> lived t [] w
  | lived_wait ms w w' :
      lived t ms w -> later w w' -> thread_log t (pl_log w') = thread_log t (pl_log w) -> lived t ms w'
  | lived_saw ms w : lived t ms w -> lived t (ms ++ [Saw (pl_state w)]) w
  | lived_did ms w w' e :
      lived t ms w -> pool_step body admits w w' ->
      thread_log t (pl_log w') = thread_log t (pl_log w) ++ [e] -> lived t (ms ++ [Did e]) w'.

Lemma lived_reached t ms w : lived t ms w -> reached w.
Proof.
  induction 1 as [w Hr|ms w w' _ IH Hl|ms w _ IH|ms w w' e _ IH Hs]; [done| |done|].
  - unfold reached, later in *. by etransitivity.
  - unfold reached, later in *. by eapply rtc_r.
Qed.

Lemma lived_log t ms w : lived t ms w -> thread_log t (pl_log w) = events_of ms.
Proof.
  induction 1 as [w Hr Hl|ms w w' _ IH _ Hl|ms w _ IH|ms w w' e _ IH _ Hl]; [done|congruence| |].
  - by rewrite events_of_app, IH, app_nil_r.
  - by rewrite events_of_app, Hl, IH.
Qed.

(** From [w1] to [w2] operation [t] did [evs]. *)
Definition since (t : nat) (w1 : Pool) (evs : list (event R Q Ans)) (w2 : Pool) : Prop :=
  later w1 w2 /\ thread_log t (pl_log w2) = thread_log t (pl_log w1) ++ evs.

(** The pool of a moment, and what the operation did since. *)
Lemma lived_split t m1 s m2 w :
  lived t (m1 ++ Saw s :: m2) w ->
  exists w0, lived t m1 w0 /\ pl_state w0 = s /\ since t w0 (events_of m2) w.
Proof.
  remember (m1 ++ Saw s :: m2) as ms eqn:Hms. intros Hl. revert m2 Hms.
  induction Hl as [w Hr Hlog|ms w w' _ IH Hs Hlog|ms w Hl IH|ms w w' e _ IH Hs Hlog]; intros m2 Hms.
  - by destruct m1.
  - destruct (IH m2 Hms) as (w0 & Hl0 & Hs0 & Hlater & Hev). exists w0. split; [done|]. split; [done|].
    split; [|by rewrite Hlog]. unfold later in *. by etransitivity.
  - destruct m2 as [|x m2 _] using rev_ind.
    + apply app_inj_tail in Hms as [-> [= <-]]. exists w. split; [done|]. split; [done|].
      split; [done|by rewrite app_nil_r].
    + rewrite app_comm_cons, app_assoc in Hms. apply app_inj_tail in Hms as [-> <-].
      destruct (IH m2 eq_refl) as (w0 & Hl0 & Hs0 & Hlater & Hev). exists w0. split; [done|]. split; [done|].
      split; [done|]. by rewrite events_of_app, app_nil_r.
  - destruct m2 as [|x m2 _] using rev_ind; [by apply app_inj_tail in Hms as [_ [=]]|].
    rewrite app_comm_cons, app_assoc in Hms. apply app_inj_tail in Hms as [-> <-].
    destruct (IH m2 eq_refl) as (w0 & Hl0 & Hs0 & Hlater & Hev). exists w0. split; [done|]. split; [done|]. split.
    + unfold later in *. by eapply rtc_r.
    + rewrite events_of_app, Hlog, Hev. by rewrite <- app_assoc.
Qed.

Context (P : C -> list Moment -> Q -> Prop) (G : C -> list Moment -> S -> S -> Prop) (Post : C -> list Moment -> A -> Prop).

(** The next step of the operation: the moments it adds, its questions and its section. *)
Lemma observes_advance c t ms w (p p' : proc S R Q Ans A) ans saved s' d' evs :
  lived t ms w -> observes (P c) (G c) ms p (Post c) ->
  pl_threads w !! t = Some (c, p) -> advance ans saved (pl_state w) (pl_disk w) p = (s', d', p', evs) ->
  let w' := {| pl_state := s'; pl_disk := d'; pl_threads := <[t := (c, p')]> (pl_threads w);
               pl_log := pl_log w ++ map (pair t) evs |} in
  (exists ms', lived t ms' w' /\ observes (P c) (G c) ms' p' (Post c)) /\
  (s' = pl_state w \/ G c ms (pl_state w) s') /\
  ((forall q a, evs <> [EvAsked q a]) \/ exists q a, evs = [EvAsked q a] /\ P c ms q) /\
  length evs <= 1.
Proof.
  intros Hl Ho Ht Ha w'. pose proof (pool_advance body admits _ _ _ _ _ _ _ _ _ _ Ht Ha) as Hstep. fold w' in Hstep.
  assert (Hlog : thread_log t (pl_log w') = thread_log t (pl_log w) ++ evs).
  { unfold w'. cbn [pl_log]. by rewrite thread_log_app, thread_log_own. }
  assert (Hwait : forall m, lived t m w -> evs = [] -> lived t m w').
  { intros m Hm He. eapply lived_wait; [exact Hm|by apply rtc_once|]. by rewrite Hlog, He, app_nil_r. }
  destruct p as [r| |X sec k|q k]; cbn in Ho, Ha.
  - injection Ha as <- <- <- <-. split_and!; [exists ms; auto|by left|by left|cbn; lia].
  - injection Ha as <- <- <- <-. split_and!; [exists ms; auto|by left|by left|cbn; lia].
  - specialize (Ho (pl_state w)). destruct (sec (pl_state w)) as [s1 r1|s1 records h].
    + destruct Ho as [HG Ho]. injection Ha as <- <- <- <-.
      split_and!; [|by right|by left|cbn; lia]. eexists. split; [|exact Ho]. apply Hwait; [by apply lived_saw|done].
    + specialize (Ho saved). destruct (h saved) as [s2 r2]. destruct Ho as [HG Ho]. injection Ha as <- <- <- <-.
      split_and!; [|by right|by left|cbn; lia]. eexists. split; [|exact Ho].
      replace (ms ++ [Saw (pl_state w); Did (EvSaved records saved)])
        with ((ms ++ [Saw (pl_state w)]) ++ [Did (EvSaved (Q := Q) (Ans := Ans) records saved)]) by (by rewrite <- app_assoc).
      eapply lived_did; [by apply lived_saw|exact Hstep|done].
  - destruct Ho as [HP Ho]. injection Ha as <- <- <- <-. split_and!; [|by left| |cbn; lia].
    + eexists. split; [|apply Ho]. by eapply lived_did.
    + right. by exists q, (ans q).
Qed.

Definition observed (w : Pool) : Prop :=
  forall t, match pl_threads w !! t with
  | Some (c, p) => exists ms, lived t ms w /\ observes (P c) (G c) ms p (Post c)
  | None => thread_log t (pl_log w) = []
  end.

Hypothesis body_ok : forall c, observes (P c) (G c) [] (body c) (Post c).

Lemma lived_other t i ms w w' evs :
  t <> i -> lived t ms w -> later w w' -> pl_log w' = pl_log w ++ map (pair i) evs -> lived t ms w'.
Proof.
  intros Hne Hl Hw Hlog. eapply lived_wait; [done..|]. by rewrite Hlog, thread_log_app, thread_log_other, app_nil_r.
Qed.

Lemma observed_step w w' : reached w -> observed w -> pool_step body admits w w' -> observed w'.
Proof using body_ok.
  intros Hr Ho Hstep t. pose proof (rtc_once _ _ Hstep : later w w') as Hlater. specialize (Ho t) as Hot.
  destruct Hstep as [w i c Hi Hadm|w i c p ans saved s' d' p' evs Hi Ha]; cbn [pl_threads pl_log].
  - destruct (decide (i = t)) as [<-|Hne].
    + rewrite lookup_insert_eq. rewrite Hi in Hot. exists []. split; [|apply body_ok].
      eapply lived_wait; [by apply lived_start|exact Hlater|done].
    + rewrite lookup_insert_ne by done. destruct (pl_threads w !! t) as [[c' p']|]; [|done].
      destruct Hot as (ms & Hl & Hobs). exists ms. split; [|done]. by eapply lived_wait.
  - destruct (decide (i = t)) as [<-|Hne].
    + rewrite lookup_insert_eq. rewrite Hi in Hot. destruct Hot as (ms & Hl & Hobs).
      by destruct (observes_advance c i ms w p p' ans saved s' d' evs Hl Hobs Hi Ha) as (Hnew & _).
    + rewrite lookup_insert_ne by done. destruct (pl_threads w !! t) as [[c' p1]|].
      * destruct Hot as (ms & Hl & Hobs). exists ms. split; [|done]. by eapply lived_other.
      * by rewrite thread_log_app, thread_log_other, app_nil_r.
Qed.

Lemma pool_observed w : reached w -> observed w.
Proof using body_ok.
  revert w. apply reached_ind; [|intros w w' Hr Ho Hstep; by eapply observed_step].
  intros t. cbn. by rewrite lookup_empty.
Qed.

(** Every result is read against the moments of its call, ... *)
Lemma pool_observes_done w t c a :
  reached w -> pl_threads w !! t = Some (c, Done (Ok a)) -> exists ms, lived t ms w /\ Post c ms a.
Proof using body_ok. intros Hr Ht. specialize (pool_observed w Hr t). by rewrite Ht. Qed.

(** ... every change of the state is a section of some call, ... *)
Lemma pool_observes_state w w' :
  reached w -> pool_step body admits w w' ->
  pl_state w' = pl_state w \/
  exists t c p ms, pl_threads w !! t = Some (c, p) /\ (forall r, p <> Done r) /\ lived t ms w /\
    G c ms (pl_state w) (pl_state w').
Proof using body_ok.
  intros Hr Hstep. pose proof (pool_observed w Hr) as Ho.
  destruct Hstep as [w i c Hi Hadm|w i c p ans saved s' d' p' evs Hi Ha]; cbn [pl_state]; [by left|].
  specialize (Ho i). rewrite Hi in Ho. destruct Ho as (ms & Hl & Hobs).
  destruct (observes_advance c i ms w p p' ans saved s' d' evs Hl Hobs Hi Ha) as (_ & [->|HG] & _); [by left|].
  destruct p as [r| |X sec k|q k]; [left; by injection Ha as <- _ _ _|right..]; eexists i, c, _, ms; (split; [done|by split]).
Qed.

(** ... and every question of the log is asked by a call, at a pool of the run. *)
Lemma pool_observes w l1 t q a l2 :
  reached w -> pl_log w = l1 ++ (t, EvAsked q a) :: l2 ->
  exists w1 c p ms, later w1 w /\ pl_log w1 = l1 /\ pl_threads w1 !! t = Some (c, p) /\ lived t ms w1 /\ P c ms q.
Proof using body_ok.
  intros Hr. revert w Hr l2. refine (reached_ind _ _ _); [intros l2 Hlog; by destruct l1|].
  intros w w' Hr IH Hstep l2 Hlog.
  pose proof (pool_observed w Hr) as Ho. pose proof (rtc_once _ _ Hstep : later w w') as Hlater.
  assert (Hold : forall l2', pl_log w = l1 ++ (t, EvAsked q a) :: l2' -> exists w1 c p ms,
    later w1 w' /\ pl_log w1 = l1 /\ pl_threads w1 !! t = Some (c, p) /\ lived t ms w1 /\ P c ms q).
  { intros l2' Hl. destruct (IH l2' Hl) as (w1 & c & p & ms & Hw & Hrest). exists w1, c, p, ms. split; [|done].
    unfold later in *. by etransitivity. }
  destruct Hstep as [w i c Hi Hadm|w i c p ans saved s' d' p' evs Hi Ha]; cbn [pl_log] in Hlog; [by eapply Hold|].
  specialize (Ho i). rewrite Hi in Ho. destruct Ho as (ms & Hl & Hobs).
  destruct (observes_advance c i ms w p p' ans saved s' d' evs Hl Hobs Hi Ha) as (_ & _ & Hq & Hlen).
  destruct evs as [|e [|]]; [|cbn in Hlog|cbn in Hlen; lia].
  { rewrite app_nil_r in Hlog. by eapply Hold. }
  destruct l2 as [|x l2 _] using rev_ind.
  - apply app_inj_tail in Hlog as [<- [= -> ->]]. exists w, c, p, ms. split_and!; try done.
    destruct Hq as [Hn|(q' & a' & [= ->] & HP)]; [by destruct (Hn q a)|done].
  - rewrite app_comm_cons, app_assoc in Hlog. apply app_inj_tail in Hlog as [Hlog _]. by eapply Hold.
Qed.
End Lived.
