(* ===== verification/Execution.v ===== *)
(** * The execution of tools (tools/execution.rs, tools/audit.rs)

    The requests the execution service takes, the audit file it keeps, and the
    service itself: the policy and the tool policy decide, the decision is
    written down, and only then is the tool run and its result written down.

    The audit file is the shared state of the service's [proc]s; its lock is
    held for each read and write of it.  A file that cannot be read fails a
    section as a failed save does: both are [Storage] and leave the file. *)
From S2P Require Import Prelude Str Errors RunState Tools Policy Decision Evidence Process.

(** ** Requests *)

(** The change set that a write is executed for. *)
Record ToolExecutionAuthority := {
  au_agent_run_id : Uuid;
  au_change_set_id : Uuid;
  au_change_set_version : N;
  au_rollback : bool;
}.
#[export] Instance authority_eq_dec : EqDecision ToolExecutionAuthority.
Proof. solve_decision. Defined.

(** [request_id] and [invocation_id] are drawn when a request is built and only
    read by the service: they are arguments of its [execute].  The receiver of
    a cancellation is whether the request has one. *)
Record NativeToolRequest := {
  nr_session_id : Uuid;
  nr_invocation : NativeToolInvocation;
  nr_cancellation : bool;
  nr_agent_run_id : option Uuid;
  nr_authority : option ToolExecutionAuthority;
}.

Definition request_new (session_id : Uuid) (invocation : NativeToolInvocation) : NativeToolRequest :=
  {| nr_session_id := session_id; nr_invocation := invocation; nr_cancellation := false;
     nr_agent_run_id := None; nr_authority := None |}.

Definition request_with_cancellation (session_id : Uuid) (invocation : NativeToolInvocation) :
    NativeToolRequest :=
  {| nr_session_id := session_id; nr_invocation := invocation; nr_cancellation := true;
     nr_agent_run_id := None; nr_authority := None |}.

Definition request_for_agent (agent_run_id session_id : Uuid) (invocation : NativeToolInvocation) :
    NativeToolRequest :=
  {| nr_session_id := session_id; nr_invocation := invocation; nr_cancellation := true;
     nr_agent_run_id := Some agent_run_id; nr_authority := None |}.

Definition request_approved (session_id : Uuid) (invocation : NativeToolInvocation)
    (authority : ToolExecutionAuthority) : NativeToolRequest :=
  {| nr_session_id := session_id; nr_invocation := invocation; nr_cancellation := false;
     nr_agent_run_id := Some (au_agent_run_id authority); nr_authority := Some authority |}.

Definition request_approved_rollback (session_id : Uuid) (invocation : NativeToolInvocation)
    (authority : ToolExecutionAuthority) : NativeToolRequest :=
  request_approved session_id invocation
    {| au_agent_run_id := au_agent_run_id authority;
       au_change_set_id := au_change_set_id authority;
       au_change_set_version := au_change_set_version authority; au_rollback := true |}.

(** ** Sanitized inputs *)
Inductive SanitizedToolInput :=
  | SanitizedNone
  | SanitizedService (name : option str) (n_lines : option N)
  | SanitizedEndpoint (host : option str) (port : N)
  | SanitizedOrigin (origin : option str)
  | SanitizedPath (path : option str).
#[export] Instance sanitized_eq_dec : EqDecision SanitizedToolInput.
Proof. solve_decision. Defined.

(** [(condition).then(|| value)]. *)
Definition then_some {A} (condition : bool) (value : A) : option A :=
  if condition then Some value else None.

Definition sanitized_remote_path (path : str) : option str :=
  then_some (negb (is_empty path) && (blen path <=? 4096)%N && negb (existsb is_control path)) path.

Definition sanitized_identifier (value : str) (max_bytes : N) : option str :=
  then_some (negb (is_empty value) && (blen value <=? max_bytes)%N
    && forallb (fun c => is_ascii_alphanumeric c || existsb (N.eqb c) (lit "._@:-")) value) value.

Definition sanitized_host (host : str) : option str :=
  then_some (negb (is_empty host) && (blen host <=? 255)%N && negb (starts_with host (lit "-"))
    && negb (existsb (fun c => is_whitespace c || is_control c) host)) host.

Definition url_delimiter (c : chr) : bool := existsb (N.eqb c) (lit "/?#").

Definition sanitized_http_origin (url : str) : option str :=
  if (2048 <? blen url)%N || contains_char url 64
     || existsb (fun c => is_whitespace c || is_control c) url
  then None
  else
    split_scheme ←
      match strip_prefix url (lit "http://") with
      | Some value => Some (lit "http", value)
      | None => (fun value => (lit "https", value)) <$> strip_prefix url (lit "https://")
      end;
    authority ← head (split url_delimiter (snd split_scheme));
    if is_empty authority then None else Some (fst split_scheme ++ lit "://" ++ authority).

Definition sanitized_input (i : NativeToolInvocation) : SanitizedToolInput :=
  match i with
  | InvSystemInfo | InvSystemDisk | InvNginxTest | InvNginxReload | InvNetworkListeners
  | InvProcessList | InvDockerList | InvFilesystemInodeUsage | InvBlockDevicesList => SanitizedNone
  | InvServiceStatus service | InvServiceRestart service | InvServiceReload service =>
      SanitizedService (sanitized_identifier service 128) None
  | InvServiceLogs service n_lines => SanitizedService (sanitized_identifier service 128) (Some n_lines)
  | InvNetworkPortCheck host port | InvTlsInspect host port =>
      SanitizedEndpoint (sanitized_host host) port
  | InvDnsResolve host => SanitizedEndpoint (sanitized_host host) 0
  | InvHttpRequest url => SanitizedOrigin (sanitized_http_origin url)
  | InvFilePatch path _ _ | InvFileInspect path | InvSystemDirectoryUsage path
  | InvSystemLargeFiles path _ => SanitizedPath (sanitized_remote_path path)
  | InvDockerInspect container | InvDockerRestart container =>
      SanitizedService (sanitized_identifier container 256) None
  | InvDockerLogs container n_lines =>
      SanitizedService (sanitized_identifier container 256) (Some n_lines)
  | InvTerminalExecReadonly command =>
      SanitizedOrigin (then_some ((blen command <=? 256)%N && negb (existsb is_control command)) command)
  end.

(** ** The audit file (tools/audit.rs) *)
Definition MAX_TOOL_AUDIT_RECORDS : nat := 2000.

Inductive ToolAuditStatus := AuditPolicyBlocked | AuditInProgress | AuditSucceeded | AuditFailed | AuditCancelled.
#[export] Instance audit_status_eq_dec : EqDecision ToolAuditStatus.
Proof. solve_decision. Defined.
Inductive ToolApprovalAudit := ApprovalNotRequired | ApprovalApproved | ApprovalUnavailable.
Inductive ToolVerificationAudit :=
  | VerificationNotApplicable | VerificationPending | VerificationSucceeded | VerificationFailed.
Inductive ToolRollbackAudit :=
  | RollbackNotSupported | RollbackAvailable | RollbackExecuted | RollbackAuditFailed.
#[export] Instance rollback_audit_eq_dec : EqDecision ToolRollbackAudit.
Proof. solve_decision. Defined.

Record ToolAuditRecord := {
  tar_id : Uuid;
  tar_request_id : Uuid;
  tar_invocation_id : Uuid;
  tar_agent_run_id : option Uuid;
  tar_model : option str;
  tar_change_set_id : option Uuid;
  tar_change_set_version : option N;
  tar_profile_id : option Uuid;
  tar_session_id : Uuid;
  tar_tool_name : NativeToolName;
  tar_sanitized_input : SanitizedToolInput;
  tar_risk_level : RiskLevel;
  tar_mutability : Mutability;
  tar_scope : ToolScope;
  tar_policy_decision : ToolPolicyDecision;
  tar_approval : ToolApprovalAudit;
  tar_status : ToolAuditStatus;
  tar_verification : ToolVerificationAudit;
  tar_rollback : ToolRollbackAudit;
  tar_started_at_epoch_ms : N;
  tar_completed_at_epoch_ms : option N;
  tar_cancellation_requested_at_epoch_ms : option N;
  tar_duration_ms : option N;
  tar_succeeded : option bool;
  tar_error_code : option str;
  tar_truncated : bool;
}.

(** What [complete] writes over a record. *)
Definition completed_record (profile_id : option Uuid) (result : ToolResult) (completed_at : N)
    (r : ToolAuditRecord) : ToolAuditRecord :=
  {| tar_id := tar_id r; tar_request_id := tar_request_id r; tar_invocation_id := tar_invocation_id r;
     tar_agent_run_id := tar_agent_run_id r; tar_model := tar_model r;
     tar_change_set_id := tar_change_set_id r; tar_change_set_version := tar_change_set_version r;
     tar_profile_id := profile_id; tar_session_id := tar_session_id r;
     tar_tool_name := tar_tool_name r; tar_sanitized_input := tar_sanitized_input r;
     tar_risk_level := tar_risk_level r; tar_mutability := tar_mutability r; tar_scope := tar_scope r;
     tar_policy_decision := tar_policy_decision r; tar_approval := tar_approval r;
     tar_status := if tr_cancelled result then AuditCancelled
                   else if tr_success result then AuditSucceeded else AuditFailed;
     tar_verification :=
       if decide (tar_mutability r = Write)
       then (if tr_success result then VerificationSucceeded else VerificationFailed)
       else tar_verification r;
     tar_rollback :=
       if decide (tar_mutability r = Write /\ tar_rollback r = RollbackExecuted
                  /\ tr_success result = false)
       then RollbackAuditFailed else tar_rollback r;
     tar_started_at_epoch_ms := tar_started_at_epoch_ms r;
     tar_completed_at_epoch_ms := Some completed_at;
     tar_cancellation_requested_at_epoch_ms := tar_cancellation_requested_at_epoch_ms r;
     tar_duration_ms := Some (tr_duration_ms result); tar_succeeded := Some (tr_success result);
     tar_error_code := tr_error_code result; tar_truncated := tr_truncated result |}.

Definition cancellation_marked (requested_at : N) (r : ToolAuditRecord) : ToolAuditRecord :=
  {| tar_id := tar_id r; tar_request_id := tar_request_id r; tar_invocation_id := tar_invocation_id r;
     tar_agent_run_id := tar_agent_run_id r; tar_model := tar_model r;
     tar_change_set_id := tar_change_set_id r; tar_change_set_version := tar_change_set_version r;
     tar_profile_id := tar_profile_id r; tar_session_id := tar_session_id r;
     tar_tool_name := tar_tool_name r; tar_sanitized_input := tar_sanitized_input r;
     tar_risk_level := tar_risk_level r; tar_mutability := tar_mutability r; tar_scope := tar_scope r;
     tar_policy_decision := tar_policy_decision r; tar_approval := tar_approval r;
     tar_status := tar_status r; tar_verification := tar_verification r;
     tar_rollback := tar_rollback r; tar_started_at_epoch_ms := tar_started_at_epoch_ms r;
     tar_completed_at_epoch_ms := tar_completed_at_epoch_ms r;
     tar_cancellation_requested_at_epoch_ms := Some requested_at;
     tar_duration_ms := tar_duration_ms r; tar_succeeded := tar_succeeded r;
     tar_error_code := tar_error_code r; tar_truncated := tar_truncated r |}.

(** [iter_mut().find(..)], the first record of the invocation, updated. *)
Fixpoint update_record (invocation_id : Uuid) (f : ToolAuditRecord -> ToolAuditRecord)
    (records : list ToolAuditRecord) : option (list ToolAuditRecord) :=
  match records with
  | [] => None
  | r :: rest =>
      if (tar_invocation_id r =? invocation_id)%N then Some (f r :: rest)
      else cons r <$> update_record invocation_id f rest
  end.

Definition appended (records : list ToolAuditRecord) (record : ToolAuditRecord) : list ToolAuditRecord :=
  let records := records ++ [record] in
  if (MAX_TOOL_AUDIT_RECORDS <? length records)%nat
  then drop (length records - MAX_TOOL_AUDIT_RECORDS) records else records.

(** ** Calls *)

(** How the race of a run with its timeout and its cancellation ended. *)
Inductive Raced := RacedResult (result : ToolResult) | RacedTimeout | RacedCancelled.

Inductive TxQuery :=
  | TxNow                                               (* now_epoch_ms() *)
  | TxElapsed                                           (* elapsed_ms(started) *)
  | TxProfile (session_id : Uuid)                       (* sessions.profile_id *)
  | TxPolicy (request : PolicyEvaluationRequest)        (* agent_policy.evaluate *)
  | TxCancelRequested                                   (* *receiver.borrow() *)
  | TxRun (session_id invocation_id : Uuid) (invocation : NativeToolInvocation) (timeout_ms : N)
  | TxRunCancellable (session_id invocation_id : Uuid) (invocation : NativeToolInvocation)
      (timeout_ms : N).

(** [TxRun] has no receiver to cancel it: [None] is the timeout. *)
Definition TxAnswer (q : TxQuery) : Type :=
  match q with
  | TxNow | TxElapsed => N
  | TxProfile _ => AppResult Uuid
  | TxPolicy _ => AppResult PolicyEvaluation
  | TxCancelRequested => bool
  | TxRun _ _ _ _ => option ToolResult
  | TxRunCancellable _ _ _ _ => Raced
  end.

Abbreviation Audit := (list ToolAuditRecord) (only parsing).
Abbreviation TxProc := (proc Audit Audit TxQuery TxAnswer) (only parsing).

(** The section of an update: the new file, or the old one if it is not written. *)
Definition writing (records : Audit) (records' : Audit) : held Audit Audit unit :=
  Save records' records' (fun saved =>
    match saved with Ok _ => (records', Ok tt) | Err e => (records, Err e) end).

Definition audit_append (record : ToolAuditRecord) : TxProc unit :=
  locked (fun records => writing records (appended records record)).

Definition audit_update (invocation_id : Uuid) (f : ToolAuditRecord -> ToolAuditRecord) : TxProc unit :=
  locked (fun records =>
    match update_record invocation_id f records with
    | None => Leave records (Err Storage)
    | Some records' => writing records records'
    end).

Definition audit_complete (invocation_id : Uuid) (profile_id : option Uuid) (result : ToolResult)
    (completed_at : N) : TxProc unit :=
  audit_update invocation_id (completed_record profile_id result completed_at).

Definition mark_cancellation_requested (invocation_id : Uuid) (requested_at : N) : TxProc unit :=
  audit_update invocation_id (cancellation_marked requested_at).

Definition audit_list : TxProc Audit := locked (fun records => Leave records (Ok records)).

(** ** The service *)
Section ExecutionService.
(** The tool policy of the service. *)
Context (policy : ToolPolicy).

Definition decide_tool (evaluation : PolicyEvaluation) (d : ToolDescriptor)
    (authority : option ToolExecutionAuthority) : ToolPolicyDecision :=
  let decision := if permits_execution evaluation then policy_evaluate policy d
                  else PolicyBlocked AgentPolicyDenied in
  if td_requires_approval d && bool_decide (authority = None)
  then PolicyBlocked ApprovalEngineUnavailable else decision.

Definition approval_audit (d : ToolDescriptor) (authority : option ToolExecutionAuthority) :
    ToolApprovalAudit :=
  if td_requires_approval d && negb (bool_decide (authority = None)) then ApprovalApproved
  else if td_requires_approval d then ApprovalUnavailable else ApprovalNotRequired.

Definition rollback_audit (d : ToolDescriptor) (authority : option ToolExecutionAuthority) :
    ToolRollbackAudit :=
  if match authority with Some a => au_rollback a | None => false end then RollbackExecuted
  else if td_supports_rollback d then RollbackAvailable else RollbackNotSupported.

Definition audited_run (r : NativeToolRequest) : option Uuid :=
  match nr_authority r with Some a => Some (au_agent_run_id a) | None => nr_agent_run_id r end.

(** The record of the decision; [blocked] is when a blocked call ended and how
    long it took. *)
Definition decision_record (id request_id invocation_id : Uuid) (r : NativeToolRequest)
    (d : ToolDescriptor) (decision : ToolPolicyDecision) (started : N) (blocked : option (N * N)) :
    ToolAuditRecord :=
  {| tar_id := id; tar_request_id := request_id; tar_invocation_id := invocation_id;
     tar_agent_run_id := audited_run r;
     tar_model := (fun _ => lit "runory-local-doctor-v1") <$> audited_run r;
     tar_change_set_id := au_change_set_id <$> nr_authority r;
     tar_change_set_version := au_change_set_version <$> nr_authority r; tar_profile_id := None;
     tar_session_id := nr_session_id r; tar_tool_name := invocation_name (nr_invocation r);
     tar_sanitized_input := sanitized_input (nr_invocation r); tar_risk_level := td_risk_level d;
     tar_mutability := td_mutability d; tar_scope := td_scope d; tar_policy_decision := decision;
     tar_approval := approval_audit d (nr_authority r);
     tar_status := match decision with PolicyAllowed => AuditInProgress
                                     | PolicyBlocked _ => AuditPolicyBlocked end;
     tar_verification := if decide (td_mutability d = Write) then VerificationPending
                         else VerificationNotApplicable;
     tar_rollback := rollback_audit d (nr_authority r); tar_started_at_epoch_ms := started;
     tar_completed_at_epoch_ms := snd <$> blocked; tar_cancellation_requested_at_epoch_ms := None;
     tar_duration_ms := fst <$> blocked; tar_succeeded := (fun _ => false) <$> blocked;
     tar_error_code := match decision with PolicyAllowed => None
                                         | PolicyBlocked reason => Some (denial_code reason) end;
     tar_truncated := false |}.

Definition tool_policy_request (server_id : Uuid) (d : ToolDescriptor) (name : NativeToolName) :
    PolicyEvaluationRequest :=
  {| per_target := {| pt_server_id := server_id; pt_group_id := None; pt_environment := None |};
     per_tool := name; per_risk_level := td_risk_level d; per_resource_impact := td_resource_impact d;
     per_target_count := 1; per_execution_strategy := Sequential; per_source := SourceNativeTool |}.

(** The end of a call: the result written down, and returned. *)
Definition finish (invocation_id : Uuid) (profile_id : option Uuid) (result : ToolResult) :
    TxProc ToolResult :=
  now ← ask TxNow;
  audit_complete invocation_id profile_id result now ;;
  mret result.

Definition timed_out (invocation_id : Uuid) (name : NativeToolName) (started : N) : TxProc ToolResult :=
  duration ← ask TxElapsed;
  mret (tool_result_failure invocation_id name (lit "EXEC_TIMED_OUT") started duration).

(** The run of an allowed tool on its session. *)
Definition run_tool (invocation_id : Uuid) (r : NativeToolRequest) (d : ToolDescriptor) (started : N) :
    TxProc ToolResult :=
  let name := invocation_name (nr_invocation r) in
  if nr_cancellation r then
    raced ← ask (TxRunCancellable (nr_session_id r) invocation_id (nr_invocation r) (td_timeout_ms d));
    match raced with
    | RacedResult result => mret result
    | RacedTimeout => timed_out invocation_id name started
    | RacedCancelled =>
        now ← ask TxNow;
        mark_cancellation_requested invocation_id now ;;
        duration ← ask TxElapsed;
        mret (tool_result_cancelled invocation_id name started duration)
    end
  else
    result ← ask (TxRun (nr_session_id r) invocation_id (nr_invocation r) (td_timeout_ms d));
    match result with
    | Some result => mret result
    | None => timed_out invocation_id name started
    end.

(** After an allowed decision: cancelled before it starts, without a session,
    or run. *)
Definition run_allowed (invocation_id : Uuid) (r : NativeToolRequest) (d : ToolDescriptor) (started : N) :
    TxProc ToolResult :=
  let name := invocation_name (nr_invocation r) in
  cancelled ← (if nr_cancellation r then ask TxCancelRequested else mret false);
  if (cancelled : bool) then
    duration ← ask TxElapsed;
    let result := tool_result_cancelled invocation_id name started duration in
    now ← ask TxNow;
    mark_cancellation_requested invocation_id now ;;
    finish invocation_id None result
  else
    profile ← ask (TxProfile (nr_session_id r));
    match profile with
    | Err error =>
        duration ← ask TxElapsed;
        finish invocation_id None
          (tool_result_failure invocation_id name (error_code error) started duration)
    | Ok profile_id =>
        result ← run_tool invocation_id r d started;
        finish invocation_id (Some profile_id) result
    end.

(** [NativeToolExecutionService::execute]; [id] is drawn for the audit record,
    [request_id] and [invocation_id] were drawn with the request. *)
Definition execute_tool (id request_id invocation_id : Uuid) (r : NativeToolRequest) : TxProc ToolResult :=
  started ← ask TxNow;
  let name := invocation_name (nr_invocation r) in
  d ← lift (ok_or (find_descriptor name) InvalidOperation);
  profile ← ask (TxProfile (nr_session_id r));
  let server_id := match profile with Ok p => p | Err _ => nr_session_id r end in
  answer ← ask (TxPolicy (tool_policy_request server_id d name));
  evaluation ← lift answer;
  match decide_tool evaluation d (nr_authority r) with
  | PolicyBlocked reason =>
      duration ← ask TxElapsed;
      completed ← ask TxNow;
      audit_append (decision_record id request_id invocation_id r d (PolicyBlocked reason) started
                      (Some (duration, completed))) ;;
      mret (tool_result_failure invocation_id name (denial_code reason) started duration)
  | PolicyAllowed =>
      audit_append (decision_record id request_id invocation_id r d PolicyAllowed started None) ;;
      run_allowed invocation_id r d started
  end.
End ExecutionService.
