(* ===== verification/ExecutionTheorems.v ===== *)
(** * What the tool service promises

    No tool runs unless policy and tool policy allowed it and the decision is
    on disk; a write only under the authority of a change set; what is written
    down at the end agrees with what is returned; and what is written down of
    an input is bounded and free of contents. *)
From S2P Require Import Prelude Str Errors RunState Tools Externals Policy Decision Evidence.
From S2P Require Import Process Execution.

Abbreviation TxEv := (event (list ToolAuditRecord) TxQuery TxAnswer) (only parsing).

(** One call of [execute], with the identifiers drawn for it. *)
Record TxCall := {
  tc_id : Uuid;
  tc_request_id : Uuid;
  tc_invocation_id : Uuid;
  tc_request : NativeToolRequest;
}.

Definition tx_body (policy : ToolPolicy) (c : TxCall) :
    proc (list ToolAuditRecord) (list ToolAuditRecord) TxQuery TxAnswer ToolResult :=
  execute_tool policy (tc_id c) (tc_request_id c) (tc_invocation_id c) (tc_request c).

(** ** The gate *)
(** A record of the call in progress, naming its change set, is in the saved file. *)
Definition recorded (past : list TxEv) (session_id invocation_id : Uuid) (r : NativeToolRequest) : Prop :=
  exists records record,
    EvSaved records (Ok tt) ∈ past /\ record ∈ records /\
    tar_invocation_id record = invocation_id /\ tar_session_id record = session_id /\
    tar_status record = AuditInProgress /\
    tar_change_set_id record = au_change_set_id <$> nr_authority r.

Definition cleared (policy : ToolPolicy) (past : list TxEv) (session_id invocation_id : Uuid)
    (i : NativeToolInvocation) : Prop :=
  exists (r : NativeToolRequest) d e server_id,
    nr_session_id r = session_id /\ nr_invocation r = i /\
    find_descriptor (invocation_name i) = Some d /\
    EvAsked (TxPolicy (tool_policy_request server_id d (invocation_name i))) (Ok e) ∈ past /\
    permits_execution e = true /\ policy_evaluate policy d = PolicyAllowed /\
    (td_mutability d = Write -> writes_enabled policy = true /\ nr_authority r <> None) /\
    recorded past session_id invocation_id r.

Definition run_is_cleared (policy : ToolPolicy) (past : list TxEv) (q : TxQuery) : Prop :=
  match q with
  | TxRun session_id invocation_id i _ | TxRunCancellable session_id invocation_id i _ =>
      cleared policy past session_id invocation_id i
  | _ => True
  end.

Lemma writes_need_approval d : d ∈ native_descriptors -> td_mutability d = Write -> td_requires_approval d = true.
Proof.
  intros Hd Hw. assert (Hall : forallb (fun d => bool_decide (td_mutability d = Read) || td_requires_approval d)
    native_descriptors = true) by (vm_compute; reflexivity).
  rewrite Forallb_forall in Hall. specialize (Hall d Hd). rewrite Hw in Hall. by cbn in Hall.
Qed.

Lemma find_descriptor_in name d : find_descriptor name = Some d -> d ∈ native_descriptors.
Proof. intros Hf. by apply find_some_b in Hf as [? _]. Qed.

Lemma decide_allowed policy e d authority :
  decide_tool policy e d authority = PolicyAllowed ->
  permits_execution e = true /\ policy_evaluate policy d = PolicyAllowed /\
  (td_requires_approval d = true -> authority <> None).
Proof.
  unfold decide_tool. destruct (td_requires_approval d) eqn:Hr; cbn.
  - case_bool_decide; [done|]. by destruct (permits_execution e).
  - by destruct (permits_execution e).
Qed.

Lemma policy_allows_writes policy d :
  policy_evaluate policy d = PolicyAllowed -> td_mutability d = Write -> writes_enabled policy = true.
Proof.
  unfold policy_evaluate. intros Hp Hw. rewrite Hw, (bool_decide_eq_false_2 (Write = Read)) in Hp by done.
  destruct (writes_enabled policy); [done|]. cbn in Hp. by destruct (negb _) in Hp.
Qed.

(** The record just appended survives the bound. *)
Lemma appended_last records record : exists n, appended records record = drop n records ++ [record].
Proof.
  unfold appended, MAX_TOOL_AUDIT_RECORDS. case_match eqn:E; [|exists 0; by rewrite drop_0].
  apply Nat.ltb_lt in E. eexists. rewrite drop_app_le; [reflexivity|]. rewrite length_app in *. cbn in *. lia.
Qed.

Lemma appended_bounded records record :
  length records <= MAX_TOOL_AUDIT_RECORDS -> length (appended records record) <= MAX_TOOL_AUDIT_RECORDS.
Proof.
  intros Hl. unfold appended. case_match eqn:E; [|by apply Nat.ltb_ge].
  apply Nat.ltb_lt in E. rewrite length_drop. lia.
Qed.

Section Follows.
Context (policy : ToolPolicy).
Abbreviation obeys past p := (follows (run_is_cleared policy) past p (fun _ _ => True)) (only parsing).

Lemma update_obeys past invocation_id f : obeys past (audit_update invocation_id f).
Proof.
  intros records. destruct (update_record invocation_id f records) as [records'|]; [|done].
  intros [[]|e]; done.
Qed.

Lemma ask_obeys past (q : TxQuery) (Post : list TxEv -> TxAnswer q -> Prop) :
  run_is_cleared policy past q -> (forall a, Post (past ++ [EvAsked q a]) a) ->
  follows (run_is_cleared policy) past (ask (S := list ToolAuditRecord) q) Post.
Proof. by split. Qed.

(** One step of such a proof. *)
Ltac step_ask := apply follows_mbind, ask_obeys; [done|].
Ltac step_update :=
  apply follows_mbind; eapply follows_mono; [apply update_obeys|]; intros ?past _ _.

Lemma finish_obeys past invocation_id profile_id result : obeys past (finish invocation_id profile_id result).
Proof. unfold finish. step_ask. intros now. by step_update. Qed.

Lemma run_tool_obeys past invocation_id r d started :
  cleared policy past (nr_session_id r) invocation_id (nr_invocation r) ->
  obeys past (run_tool invocation_id r d started).
Proof.
  intros Hc. unfold run_tool, timed_out. destruct (nr_cancellation r); step_ask.
  - intros [result| |]; [done|by step_ask|]. step_ask. intros now. step_update. by step_ask.
  - intros [result|]; [done|by step_ask].
Qed.

Lemma cleared_mono past past' session_id invocation_id i :
  past ⊆ past' -> cleared policy past session_id invocation_id i ->
  cleared policy past' session_id invocation_id i.
Proof.
  intros Hp (r & d & e & server & A & B & Cd & D & F & G & I & records & record & J & K).
  exists r, d, e, server. split_and!; auto. exists records, record. auto.
Qed.

Lemma past_step (past : list TxEv) e : past ⊆ past ++ [e].
Proof. intros x Hx. apply elem_of_app. by left. Qed.

Lemma run_allowed_obeys past invocation_id r d started :
  cleared policy past (nr_session_id r) invocation_id (nr_invocation r) ->
  obeys past (run_allowed invocation_id r d started).
Proof.
  intros Hc. unfold run_allowed. apply follows_mbind.
  assert (Hgo : forall Post : list TxEv -> bool -> Prop,
    (forall past' cancelled, past ⊆ past' -> Post past' cancelled) ->
    follows (run_is_cleared policy) past
      (if nr_cancellation r then ask TxCancelRequested else mret false : TxProc bool) Post).
  { intros Post HP. destruct (nr_cancellation r); [|by apply HP].
    apply ask_obeys; [done|]. intros a. apply HP, past_step. }
  apply Hgo. clear Hgo. intros past' [|] Hp.
  - step_ask. intros duration. step_ask. intros now. step_update. apply finish_obeys.
  - step_ask. intros [profile|error].
    + apply follows_mbind. eapply follows_mono.
      * apply run_tool_obeys. eapply cleared_mono; [|exact Hc]. etransitivity; [exact Hp|apply past_step].
      * intros past2 result _. apply finish_obeys.
    + step_ask. intros duration. apply finish_obeys.
Qed.

Lemma append_obeys past record (Post : list TxEv -> unit -> Prop) :
  (forall records, record ∈ records -> Post (past ++ [EvSaved records (Ok tt)]) tt) ->
  follows (run_is_cleared policy) past (audit_append record) Post.
Proof.
  intros HP records [[]|e]; [|done]. cbn. apply HP.
  destruct (appended_last records record) as [n ->]. apply elem_of_app. right. by apply list_elem_of_singleton.
Qed.

Lemma execute_obeys c : obeys [] (tx_body policy c).
Proof.
  destruct c as [id request_id invocation_id r]. unfold tx_body, execute_tool.
  cbn [tc_id tc_request_id tc_invocation_id tc_request].
  step_ask. intros started. apply follows_mbind, follows_lift. intros d Hd. apply ok_or_ok in Hd.
  step_ask. intros profile. step_ask. intros answer. apply follows_mbind, follows_lift. intros e ->.
  set (server_id := match profile with Ok p => p | Err _ => nr_session_id r end).
  destruct (decide_tool policy e d (nr_authority r)) as [|reason] eqn:Hdec.
  - apply follows_mbind, append_obeys. intros records Hin. apply run_allowed_obeys.
    destruct (decide_allowed _ _ _ _ Hdec) as (Hperm & Hpol & Happ).
    exists r, d, e, server_id. split_and!; try done.
    + apply elem_of_app. left. apply elem_of_app. right. by apply list_elem_of_singleton.
    + intros Hw. split; [by eapply policy_allows_writes|]. apply Happ.
      eapply writes_need_approval; [by eapply find_descriptor_in|done].
    + eexists records, _. split_and!; [|exact Hin|done..].
      apply elem_of_app. right. by apply list_elem_of_singleton.
  - step_ask. intros duration. step_ask. intros completed.
    by apply follows_mbind, append_obeys.
Qed.
End Follows.

(** C9. However calls of the service interleave, whatever policy, sessions and
    disk answer: when a tool is run, the policy service has permitted it, the
    tool policy allows it, a tool that writes is under the authority of a
    change set, and a record of the call in progress, naming that change set,
    is already in the saved audit file. *)
Theorem tool_runs_are_cleared policy records disk w l1 i q a l2 :
  rtc (pool_step (tx_body policy) (fun _ _ => True)) (pool_init records disk) w ->
  pl_log w = l1 ++ (i, EvAsked q a) :: l2 ->
  match q with
  | TxRun session_id invocation_id tool _ | TxRunCancellable session_id invocation_id tool _ =>
      cleared policy (thread_log i l1) session_id invocation_id tool
  | _ => True
  end.
Proof.
  intros Hr Hlog.
  exact (pool_follows (tx_body policy) _ (run_is_cleared policy) records disk w
           (execute_obeys policy) Hr l1 i q a l2 Hlog).
Qed.

(** ** The audit file *)
Definition settled (invocation_id : Uuid) (result : ToolResult) (r : ToolAuditRecord) : Prop :=
  tar_invocation_id r = invocation_id /\
  (tar_status r = (if tr_cancelled result then AuditCancelled
                   else if tr_success result then AuditSucceeded else AuditFailed) \/
   tar_status r = AuditPolicyBlocked /\ tr_success result = false) /\
  tar_succeeded r = Some (tr_success result) /\ tar_error_code r = tr_error_code result /\
  tar_duration_ms r = Some (tr_duration_ms result).

Definition unsettled (invocation_id : Uuid) (r : ToolAuditRecord) : Prop :=
  tar_invocation_id r = invocation_id /\ tar_status r = AuditInProgress.

(** The records before the last are of other invocations. *)
Definition others (invocation_id : Uuid) (records : list ToolAuditRecord) : Prop :=
  Forall (fun r => tar_invocation_id r <> invocation_id) records.

Lemma update_last invocation_id f earlier r :
  others invocation_id earlier -> tar_invocation_id r = invocation_id ->
  update_record invocation_id f (earlier ++ [r]) = Some (earlier ++ [f r]).
Proof.
  intros Ho Hr. induction Ho as [|x l Hx _ IH]; cbn.
  - by rewrite Hr, N.eqb_refl.
  - rewrite (proj2 (N.eqb_neq _ _) Hx). by rewrite IH.
Qed.

(** How a call ends: its record settled as the result says, or in progress
    with an error, or nothing written. *)
Definition ended (invocation_id : Uuid) (before after : list ToolAuditRecord) (r : AppResult ToolResult) :
    Prop :=
  match r with
  | Ok result => exists earlier record, after = earlier ++ [record] /\ others invocation_id earlier /\
                   settled invocation_id result record
  | Err _ => after = before \/
             exists earlier record, after = earlier ++ [record] /\ others invocation_id earlier /\
               unsettled invocation_id record
  end.

Section Ends.
Context (policy : ToolPolicy) (invocation_id : Uuid) (before : list ToolAuditRecord).

(** The file while the call is in progress. *)
Definition in_progress (records : list ToolAuditRecord) : Prop :=
  exists earlier record, records = earlier ++ [record] /\ others invocation_id earlier /\
    unsettled invocation_id record.

Lemma wp_tx_ask records (q : TxQuery) (Post : list ToolAuditRecord -> AppResult (TxAnswer q) -> Prop) :
  (forall a, Post records (Ok a)) -> wp records (ask (R := list ToolAuditRecord) q) Post.
Proof. done. Qed.

Lemma finish_ends records profile_id result :
  in_progress records ->
  wp records (finish invocation_id profile_id result) (ended invocation_id before).
Proof.
  intros (earlier & record & -> & Ho & Hi & Hs). unfold finish.
  apply wp_mbind, wp_tx_ask. intros now. apply wp_mbind. cbn.
  rewrite update_last by done. intros [[]|e]; cbn.
  - exists earlier. eexists. split; [done|]. split; [done|]. unfold settled; cbn. split_and!; auto.
  - right. exists earlier, record. done.
Qed.

Lemma mark_keeps records now (Post : list ToolAuditRecord -> AppResult unit -> Prop) :
  in_progress records ->
  (forall records' r, in_progress records' -> Post records' r) ->
  wp records (mark_cancellation_requested invocation_id now) Post.
Proof.
  intros (earlier & record & -> & Ho & Hi & Hs) HP. cbn. rewrite update_last by done.
  intros [[]|e]; apply HP.
  - exists earlier. eexists. split; [done|]. split; [done|]. by split.
  - by exists earlier, record.
Qed.

Lemma run_allowed_ends r d started records :
  in_progress records ->
  wp records (run_allowed invocation_id r d started) (ended invocation_id before).
Proof.
  intros Hp. unfold run_allowed. apply wp_mbind.
  assert (Hstop : forall records' e, in_progress records' -> ended invocation_id before records' (Err e))
    by (intros; right; done).
  assert (Hgo : forall Post : list ToolAuditRecord -> AppResult bool -> Prop,
    (forall b, Post records (Ok b)) ->
    wp records (if nr_cancellation r then ask TxCancelRequested else mret false : TxProc bool) Post).
  { intros Post HP. destruct (nr_cancellation r); [by apply wp_tx_ask|apply HP]. }
  apply Hgo. intros [|].
  - apply wp_mbind, wp_tx_ask. intros duration. apply wp_mbind, wp_tx_ask. intros now.
    apply wp_mbind, mark_keeps; [done|]. intros records' [[]|e] Hp'; [by apply finish_ends|auto].
  - apply wp_mbind, wp_tx_ask. intros [profile|error].
    + apply wp_mbind. unfold run_tool, timed_out. destruct (nr_cancellation r); apply wp_mbind, wp_tx_ask.
      * intros [result| |]; [by apply finish_ends| |].
        -- apply wp_mbind, wp_tx_ask. intros duration. by apply finish_ends.
        -- apply wp_mbind, wp_tx_ask. intros now. apply wp_mbind, mark_keeps; [done|].
           intros records' [[]|e] Hp'; [|by apply Hstop].
           apply wp_mbind, wp_tx_ask. intros duration. by apply finish_ends.
      * intros [result|]; [by apply finish_ends|].
        apply wp_mbind, wp_tx_ask. intros duration. by apply finish_ends.
    + apply wp_mbind, wp_tx_ask. intros duration. by apply finish_ends.
Qed.

Lemma append_ends record (Post : list ToolAuditRecord -> AppResult unit -> Prop) :
  others invocation_id before ->
  (forall earlier, others invocation_id earlier -> Post (earlier ++ [record]) (Ok tt)) ->
  (forall e, Post before (Err e)) ->
  wp before (audit_append record) Post.
Proof.
  intros Ho HP He. cbn. intros [[]|e]; [|apply He].
  destruct (appended_last before record) as [n ->]. apply HP. by apply Forall_drop.
Qed.

Lemma execute_ends id request_id r :
  others invocation_id before ->
  wp before (execute_tool policy id request_id invocation_id r) (ended invocation_id before).
Proof.
  intros Ho. unfold execute_tool.
  assert (Hnone : forall e, ended invocation_id before before (Err e)) by (intros; by left).
  apply wp_mbind, wp_tx_ask. intros started. apply wp_mbind, wp_lift.
  destruct (find_descriptor _) as [d|]; [cbn [ok_or]|apply Hnone].
  apply wp_mbind, wp_tx_ask. intros profile. apply wp_mbind, wp_tx_ask. intros [e|error];
    apply wp_mbind, wp_lift; [|apply Hnone].
  destruct (decide_tool policy e d (nr_authority r)) as [|reason].
  - apply wp_mbind, append_ends; [done| |apply Hnone]. intros earlier He. apply run_allowed_ends.
    by eexists earlier, _.
  - apply wp_mbind, wp_tx_ask. intros duration. apply wp_mbind, wp_tx_ask. intros completed.
    apply wp_mbind, append_ends; [done| |apply Hnone]. intros earlier He.
    exists earlier. eexists. split; [done|]. split; [done|]. unfold settled; cbn. split_and!; auto.
Qed.
End Ends.

(** *** Where a result comes from *)

(** The tool itself answered the result. *)
Definition answered (past : list TxEv) (invocation_id : Uuid) (r : NativeToolRequest) (result : ToolResult) :
    Prop :=
  exists timeout,
    EvAsked (TxRun (nr_session_id r) invocation_id (nr_invocation r) timeout) (Some result) ∈ past \/
    EvAsked (TxRunCancellable (nr_session_id r) invocation_id (nr_invocation r) timeout)
      (RacedResult result) ∈ past.

Definition sourced (invocation_id : Uuid) (r : NativeToolRequest) (past : list TxEv) (result : ToolResult) :
    Prop :=
  answered past invocation_id r result \/ tr_success result = false.

Section Sources.
Context (policy : ToolPolicy) (invocation_id : Uuid) (r : NativeToolRequest).
Abbreviation free := (fun (_ : list TxEv) (_ : TxQuery) => True) (only parsing).

Lemma ask_free past (q : TxQuery) (Post : list TxEv -> TxAnswer q -> Prop) :
  (forall a, Post (past ++ [EvAsked q a]) a) -> follows free past (ask (S := list ToolAuditRecord) q) Post.
Proof. by split. Qed.

Lemma sourced_mono past past' result :
  past ⊆ past' -> sourced invocation_id r past result -> sourced invocation_id r past' result.
Proof. intros Hp [(t & [?|?])|?]; [left; exists t; left|left; exists t; right|right]; auto. Qed.

Lemma update_free past f (Post : list TxEv -> unit -> Prop) :
  (forall past', past ⊆ past' -> Post past' tt) -> follows free past (audit_update invocation_id f) Post.
Proof.
  intros HP records. destruct (update_record invocation_id f records); [|done].
  intros [[]|e]; [|done]. apply HP, past_step.
Qed.

Lemma finish_sourced past profile_id result :
  sourced invocation_id r past result ->
  follows free past (finish invocation_id profile_id result) (sourced invocation_id r).
Proof.
  intros Hs. unfold finish. apply follows_mbind, ask_free. intros now. apply follows_mbind, update_free.
  intros past' Hp. eapply sourced_mono; [|exact Hs]. etransitivity; [apply past_step|exact Hp].
Qed.

Lemma run_tool_sourced past d started :
  follows free past (run_tool invocation_id r d started) (sourced invocation_id r).
Proof.
  unfold run_tool, timed_out. destruct (nr_cancellation r); apply follows_mbind, ask_free.
  - intros [result| |].
    + left. eexists. right. apply elem_of_app. right. by apply list_elem_of_singleton.
    + apply follows_mbind, ask_free. intros duration. by right.
    + apply follows_mbind, ask_free. intros now. apply follows_mbind, update_free. intros past' _.
      apply follows_mbind, ask_free. intros duration. by right.
  - intros [result|].
    + left. eexists. left. apply elem_of_app. right. by apply list_elem_of_singleton.
    + apply follows_mbind, ask_free. intros duration. by right.
Qed.

Lemma run_allowed_sourced past d started :
  follows free past (run_allowed invocation_id r d started) (sourced invocation_id r).
Proof.
  unfold run_allowed. apply follows_mbind.
  match goal with |- follows _ _ _ (fun past' a => follows _ past' (@?f a) _) =>
    enough (Hgo : forall past' (c : bool), follows free past' (f c) (sourced invocation_id r))
  end.
  { destruct (nr_cancellation r); [apply ask_free; intros a|]; apply Hgo. }
  intros past' [|].
  - apply follows_mbind, ask_free. intros duration. apply follows_mbind, ask_free. intros now.
    apply follows_mbind, update_free. intros past2 _. apply finish_sourced. by right.
  - apply follows_mbind, ask_free. intros [profile|error].
    + apply follows_mbind. eapply follows_mono; [apply run_tool_sourced|]. intros past2 result Hs.
      by apply finish_sourced.
    + apply follows_mbind, ask_free. intros duration. apply finish_sourced. by right.
Qed.

Lemma execute_sourced id request_id :
  follows free [] (execute_tool policy id request_id invocation_id r) (sourced invocation_id r).
Proof.
  assert (Happend : forall past record (Post : list TxEv -> unit -> Prop),
    (forall past', Post past' tt) -> follows free past (audit_append record) Post).
  { intros past record Post HP records. by intros [[]|e]; cbn. }
  unfold execute_tool. apply follows_mbind, ask_free. intros started.
  apply follows_mbind, follows_lift. intros d _. apply follows_mbind, ask_free. intros profile.
  apply follows_mbind, ask_free. intros answer. apply follows_mbind, follows_lift. intros e _.
  destruct (decide_tool policy e d (nr_authority r)) as [|reason].
  - apply follows_mbind, Happend. intros past. apply run_allowed_sourced.
  - apply follows_mbind, ask_free. intros duration. apply follows_mbind, ask_free. intros completed.
    apply follows_mbind, Happend. intros past. by right.
Qed.
End Sources.

(** C10. When a call of [execute] ends with a result the last record of the audit
    file is its own, settled exactly as the result says - succeeded, failed,
    cancelled or blocked, with its error code and duration; when it ends with
    an error nothing was written or its record is still in progress.  A success
    is what the tool itself answered.  The call never panics, in any
    environment. *)
Theorem tool_audit_agrees {E} policy id request_id invocation_id r before
    (answer : E -> forall q, TxAnswer q * E) (save : E -> list ToolAuditRecord -> AppResult unit * E)
    env res after env' log :
  others invocation_id before ->
  run answer save (execute_tool policy id request_id invocation_id r) before env [] = (res, after, env', log) ->
  exists result, res = Some result /\ ended invocation_id before after result /\
    forall value, result = Ok value -> answered log invocation_id r value \/ tr_success value = false.
Proof.
  intros Ho Hrun.
  destruct (wp_run _ _ _ _ _ _ _ _ _ _ _ (execute_ends policy invocation_id before id request_id r Ho) Hrun)
    as (result & -> & He).
  exists result. split; [done|]. split; [done|]. intros value ->.
  by destruct (follows_run _ _ _ _ _ _ _ _ _ _ _ _ _
                 (execute_sourced policy invocation_id r id request_id) Hrun) as (evs & -> & Hs).
Qed.

(** ** What is written of an input *)
Definition written_text (s : SanitizedToolInput) : option str :=
  match s with
  | SanitizedNone => None
  | SanitizedService text _ | SanitizedEndpoint text _ | SanitizedOrigin text | SanitizedPath text => text
  end.

(** What the invocation names: all that may be written of it. *)
Definition named_text (i : NativeToolInvocation) : str :=
  match i with
  | InvServiceStatus t | InvServiceRestart t | InvServiceReload t | InvServiceLogs t _
  | InvNetworkPortCheck t _ | InvTlsInspect t _ | InvDnsResolve t | InvHttpRequest t
  | InvFilePatch t _ _ | InvFileInspect t | InvSystemDirectoryUsage t | InvSystemLargeFiles t _
  | InvDockerInspect t | InvDockerRestart t | InvDockerLogs t _ | InvTerminalExecReadonly t => t
  | _ => []
  end.

Definition clean (text : str) : Prop := forall c, c ∈ text -> is_control c = false.

Lemma then_some_inv {A} b (x y : A) : then_some b x = Some y -> b = true /\ x = y.
Proof. unfold then_some. destruct b; [|done]. by intros [= ->]. Qed.

Lemma existsb_false_all {A} (f : A -> bool) l : existsb f l = false -> forall x, x ∈ l -> f x = false.
Proof.
  intros He x Hx. destruct (f x) eqn:E; [|done]. rewrite <- He. symmetry.
  apply existsb_exists. exists x. by rewrite <- list_elem_of_In.
Qed.

Lemma identifier_clean value max text :
  sanitized_identifier value max = Some text -> text = value /\ (blen text <= max)%N /\ clean text.
Proof.
  intros [Hb ->]%then_some_inv. apply andb_prop in Hb as [[_ Hl]%andb_prop Ha].
  split; [done|]. split; [by apply N.leb_le|]. intros c Hc.
  rewrite forallb_forall in Ha. apply list_elem_of_In in Hc. specialize (Ha c Hc). clear -Ha.
  change (lit "._@:-") with [46; 95; 64; 58; 45]%N in Ha.
  unfold is_control, is_ascii_alphanumeric, is_ascii_digit, is_ascii_uppercase, is_ascii_lowercase, between in *.
  cbn in Ha. repeat setoid_rewrite orb_true_iff in Ha. repeat setoid_rewrite andb_true_iff in Ha.
  rewrite !N.leb_le, !N.eqb_eq in Ha. apply orb_false_iff. rewrite !andb_false_iff, !N.leb_gt. lia.
Qed.

Lemma host_clean value text :
  sanitized_host value = Some text -> text = value /\ (blen text <= 255)%N /\ clean text.
Proof.
  intros [Hb ->]%then_some_inv. apply andb_prop in Hb as [[[_ Hl]%andb_prop _]%andb_prop Hc].
  split; [done|]. split; [by apply N.leb_le|]. intros c Hin.
  apply negb_true_iff in Hc. pose proof (existsb_false_all _ _ Hc c Hin) as [_ ?]%orb_false_iff. done.
Qed.

Lemma path_clean value text :
  sanitized_remote_path value = Some text -> text = value /\ (blen text <= 4096)%N /\ clean text.
Proof.
  intros [Hb ->]%then_some_inv. apply andb_prop in Hb as [[_ Hl]%andb_prop Hc].
  split; [done|]. split; [by apply N.leb_le|]. apply negb_true_iff in Hc. exact (existsb_false_all _ _ Hc).
Qed.

(** An origin: a scheme and an authority, without path, query or fragment. *)
Definition origin_of (url text : str) : Prop :=
  exists scheme authority, text = scheme ++ lit "://" ++ authority /\
    (scheme = lit "http" \/ scheme = lit "https") /\ authority <> [] /\ prefix text url /\
    forall c, c ∈ authority -> (c ∉ lit "/?#@") /\ is_whitespace c = false.

Lemma split_head_prefix p s piece rest : split p s = piece :: rest -> prefix piece s.
Proof.
  revert piece rest. induction s as [|x s IH]; intros piece rest; cbn; [by intros [= <- _]|].
  destruct (split p s) as [|q r] eqn:E; [by destruct (split_nonempty p s)|].
  destruct (p x); intros [= <- _]; [apply prefix_nil|]. by eapply prefix_cons, IH.
Qed.

Lemma origin_clean url text :
  sanitized_http_origin url = Some text ->
  (blen text <= 2048)%N /\ clean text /\ origin_of url text.
Proof.
  unfold sanitized_http_origin. case_match eqn:Hg; [done|].
  apply orb_false_iff in Hg as [[Hl Hat]%orb_false_iff Hc]. apply N.ltb_ge in Hl.
  intros Ho. apply bind_Some in Ho as ([scheme rest] & Hs & Ho).
  apply bind_Some in Ho as (authority & Hh & Ho). cbn [fst snd] in Hh, Ho.
  destruct (is_empty authority) eqn:He; [done|]. injection Ho as <-.
  destruct (split url_delimiter rest) as [|piece pieces] eqn:Hsp; [done|]. injection Hh as ->.
  assert (Hurl : url = scheme ++ lit "://" ++ rest /\ (scheme = lit "http" \/ scheme = lit "https")).
  { unfold strip_prefix in Hs. destruct (starts_with url (lit "http://")) eqn:H1.
    - injection Hs as <- <-. apply starts_with_spec in H1 as (t & ->). by split; [|left].
    - destruct (starts_with url (lit "https://")) eqn:H2; [|done].
      injection Hs as <- <-. apply starts_with_spec in H2 as (t & ->). by split; [|right]. }
  destruct Hurl as [Hurl Hscheme]. destruct (split_head_prefix _ _ _ _ Hsp) as [tail Htail].
  assert (Hpre : prefix (scheme ++ lit "://" ++ authority) url).
  { exists tail. by rewrite Hurl, Htail, <- !app_assoc. }
  assert (Hin : forall c, c ∈ scheme ++ lit "://" ++ authority -> c ∈ url)
    by (intros c Hc'; eapply elem_of_prefix; done).
  split; [|split].
  - destruct Hpre as [k Hk]. rewrite Hk, (blen_app _ k) in Hl. etransitivity; [apply N.le_add_r|exact Hl].
  - intros c Hc'. by pose proof (existsb_false_all _ _ Hc c (Hin c Hc')) as [_ ?]%orb_false_iff.
  - exists scheme, authority. split_and!; [done|done|by apply is_empty_false|done|]. intros c Hc'.
    assert (Hcu : c ∈ url) by (apply Hin; rewrite !elem_of_app; auto).
    split; [|by pose proof (existsb_false_all _ _ Hc c Hcu) as [? _]%orb_false_iff].
    pose proof (split_head _ _ _ _ Hsp c Hc') as Hd.
    pose proof (existsb_false_all _ _ Hat c Hcu) as Ha. apply N.eqb_neq in Ha.
    clear -Hd Ha. unfold url_delimiter in Hd. change (lit "/?#") with [47; 63; 35]%N in Hd.
    change (lit "/?#@") with [47; 63; 35; 64]%N. cbn in Hd. rewrite !orb_false_iff, !N.eqb_neq in Hd. set_solver.
Qed.

(** What is written of an input is a text the invocation names or, of a URL,
    its origin; at most 4096 bytes, without control characters; and of a file
    patch nothing of either content is written. *)
Theorem sanitized_input_sound i :
  match i with
  | InvFilePatch path _ _ =>
      forall expected replacement, sanitized_input i = sanitized_input (InvFilePatch path expected replacement)
  | _ => True
  end /\
  forall text, written_text (sanitized_input i) = Some text ->
    (blen text <= 4096)%N /\ clean text /\
    match i with InvHttpRequest url => origin_of url text | _ => text = named_text i end.
Proof.
  split; [by destruct i|]. intros text. destruct i; cbn; try done;
    try (intros (-> & Hl & Hc)%identifier_clean; split_and!; [lia|done|done]);
    try (intros (-> & Hl & Hc)%host_clean; split_and!; [lia|done|done]);
    try (intros (-> & Hl & Hc)%path_clean; by split_and!).
  - intros (Hl & Hc & Ho)%origin_clean. split_and!; [lia|done|done].
  - intros [[Hl%N.leb_le Hc%negb_true_iff]%andb_prop ->]%then_some_inv.
    split_and!; [lia| |done]. exact (existsb_false_all _ _ Hc).
Qed.

(** ** Concrete calls *)
#[local] Existing Instance quoting_externals.

Definition patch_invocation : NativeToolInvocation := InvFilePatch (lit "/etc/motd") (lit "old") (lit "new").
Definition patch_call : TxCall :=
  {| tc_id := 1; tc_request_id := 2; tc_invocation_id := 3;
     tc_request := request_approved 4 patch_invocation
       {| au_agent_run_id := 5; au_change_set_id := 6; au_change_set_version := 1; au_rollback := false |} |}.

Definition patch_result : ToolResult :=
  {| tr_invocation_id := 3; tr_tool_name := FilePatch; tr_success := true; tr_summary := []; tr_data := None;
     tr_error_code := None; tr_warnings := []; tr_started_at_epoch_ms := 10; tr_duration_ms := 7;
     tr_truncated := false; tr_cancelled := false; tr_untrusted_remote_data := true |}.

(** A session, the built-in policy, and tools that succeed. *)
Definition tx_answers (q : TxQuery) : TxAnswer q :=
  match q with
  | TxNow => 10%N
  | TxElapsed => 7%N
  | TxProfile _ => Ok 8%N
  | TxPolicy request => Ok (evaluate (seal (fun _ => []) default_policy) request)
  | TxCancelRequested => false
  | TxRun _ _ _ _ => Some patch_result
  | TxRunCancellable _ _ _ _ => RacedResult patch_result
  end.

Definition patched_pool :=
  foldl (play (tx_body policy_approved_repair) (fun _ _ => True)) (pool_init [] [])
    (ActCall 0 patch_call :: repeat (ActTurn 0 tx_answers (Ok tt)) 8).

Lemma tool_runs_are_cleared_witness :
  cleared policy_approved_repair (thread_log 0 (take 5 (pl_log patched_pool))) 4 3 patch_invocation.
Proof.
  refine (tool_runs_are_cleared policy_approved_repair [] [] patched_pool (take 5 (pl_log patched_pool)) 0
            (TxRun 4 3 patch_invocation 30000) (Some patch_result) (drop 6 (pl_log patched_pool))
            (plays_steps _ _ _ _) _).
  vm_compute. reflexivity.
Defined.

(** Saves answered from a list. *)
Definition next_answer (saves : list (AppResult unit)) (q : TxQuery) :
    TxAnswer q * list (AppResult unit) := (tx_answers q, saves).
Definition next_save (saves : list (AppResult unit)) (_ : list ToolAuditRecord) :
    AppResult unit * list (AppResult unit) := (default (Err Storage) (head saves), tail saves).
Definition tx_run (saves : list (AppResult unit)) :=
  run next_answer next_save (execute_tool policy_approved_repair 1 2 3 (tc_request patch_call)) [] saves [].

(** How a call ended: its result, and the state of the records. *)
Definition tx_outcome {B D} (o : option (AppResult ToolResult) * list ToolAuditRecord * B * D) :
    option (AppResult bool) * list (ToolAuditStatus * option bool) :=
  let '(r, records, _, _) := o in
  ((fun r => match r with Ok v => Ok (tr_success v) | Err e => Err e end) <$> r,
   map (fun record => (tar_status record, tar_succeeded record)) records).

Lemma tool_audit_agrees_witness :
  exists result after env log,
    run next_answer next_save (execute_tool policy_approved_repair 1 2 3 (tc_request patch_call)) []
      [Ok tt; Ok tt] [] = (Some result, after, env, log) /\ ended 3 [] after result.
Proof.
  destruct (run next_answer next_save
    (execute_tool policy_approved_repair 1 2 3 (tc_request patch_call)) [] [Ok tt; Ok tt] [])
    as [[[res after] env] log] eqn:E.
  destruct (tool_audit_agrees policy_approved_repair 1 2 3 (tc_request patch_call) [] next_answer next_save
              [Ok tt; Ok tt] res after env log (List.Forall_nil _) E) as (result & -> & He & _).
  by exists result, after, env, log.
Defined.

Example patch_is_audited :
  tx_outcome (tx_run [Ok tt; Ok tt]) = (Some (Ok true), [(AuditSucceeded, Some true)]).
Proof. by vm_compute. Qed.

(** The end of the call cannot be written: the tool has succeeded, the call is
    an error, and the record says that it is still in progress. *)
Example unwritten_end_hides_success :
  tx_outcome (tx_run [Ok tt; Err Storage])
  = (Some (Err Storage), [(AuditInProgress, None)]) /\
  EvAsked (TxRun 4 3 patch_invocation 30000) (Some patch_result)
    ∈ snd (tx_run [Ok tt; Err Storage]).
Proof.
  split; [by vm_compute|]. apply list_elem_of_lookup_2 with 5. by vm_compute.
Qed.

Lemma sanitized_input_sound_witness :
  origin_of (lit "https://example.com/a?token=secret") (lit "https://example.com").
Proof.
  refine (proj2 (proj2 (proj2 (sanitized_input_sound (InvHttpRequest (lit "https://example.com/a?token=secret")))
            (lit "https://example.com") _))).
  by vm_compute.
Defined.
