(* ===== verification/ChangeSets.v ===== *)
(** * The change-set service (agentic/changes.rs)

    A change set is drafted, checked against the policy, has its
    preconditions captured, is approved, executed step by step with each
    completed patch reversed when a later step fails, verified, and kept as
    metadata across restarts.  Every operation of [ChangeSetService] is a
    [proc]: its sections hold the lock on [items], its calls are [CsQuery].

    The definitions are those of a production build ([cfg!(test)] is false);
    [execute], which is compiled for tests only, is not modelled. *)
From S2P Require Import Prelude Str Json Errors RunState Tools Externals Policy Decision Evidence.
From S2P Require Import Process Execution.

Definition MAX_STEPS : nat := 12.
Definition MAX_PATCH_BYTES : N := 524288.
Definition MAX_PERSISTED_CHANGE_SETS : nat := 2000.
Definition CHANGE_SET_SCHEMA_VERSION : N := 1.

#[export] Instance approval_state_eq_dec : EqDecision ApprovalState.
Proof. solve_decision. Defined.
#[export] Instance change_step_state_eq_dec : EqDecision ChangeStepState.
Proof. solve_decision. Defined.
#[export] Instance recovery_state_eq_dec : EqDecision ChangeSetRecoveryState.
Proof. solve_decision. Defined.

(** ** Data *)
Record ChangeSetDraftRequest := {
  dr_agent_run_id : Uuid;
  dr_session_id : Uuid;
  dr_title : str;
  dr_steps : list ChangeStepDraft;
}.

(** The digest is its 32 bytes. *)
Record PreconditionBinding := {
  pb_invocation : NativeToolInvocation;
  pb_digest : list N;
}.

Record ChangePolicyBinding := {
  cpb_target : PolicyTarget;
  cpb_target_count : N;
  cpb_execution_strategy : PolicyExecutionStrategy;
  cpb_source : PolicyInvocationSource;
}.

Record PolicyCheckContext := {
  pcc_target : PolicyTarget;
  pcc_target_count : N;
  pcc_execution_strategy : PolicyExecutionStrategy;
  pcc_source : PolicyInvocationSource;
}.

Record StoredChangeSet := {
  scs_public : ChangeSet;
  scs_payloads : list ChangeStepDraft;
  scs_precondition_bindings : list PreconditionBinding;
  scs_policy_binding : option ChangePolicyBinding;
}.

Record PersistedChangeStep := {
  pst_id : Uuid;
  pst_order : N;
  pst_tool_name : str;
  pst_risk : RiskLevel;
  pst_verification_plan_code : str;
  pst_rollback_capability : str;
  pst_state : ChangeStepState;
  pst_error_code : option str;
}.

Record PersistedChangeSet := {
  pcs_schema_version : N;
  pcs_id : Uuid;
  pcs_agent_run_id : Uuid;
  pcs_session_id : Uuid;
  pcs_version : N;
  pcs_risk : RiskLevel;
  pcs_steps : list PersistedChangeStep;
  pcs_execution_state : ExecutionState;
  pcs_policy_snapshot : option PolicySnapshot;
  pcs_approved_step_ids : list Uuid;
}.

(** *** Field updates *)
Definition with_approval (approval : ApprovalState) (version : option N) (c : ChangeSet) : ChangeSet :=
  {| cs_id := cs_id c; cs_agent_run_id := cs_agent_run_id c; cs_session_id := cs_session_id c;
     cs_title := cs_title c; cs_version := cs_version c; cs_risk := cs_risk c;
     cs_steps := cs_steps c; cs_approval_state := approval; cs_approved_version := version;
     cs_execution_state := cs_execution_state c; cs_recovery_state := cs_recovery_state c;
     cs_preconditions := cs_preconditions c; cs_policy_evaluation := cs_policy_evaluation c;
     cs_policy_snapshot := cs_policy_snapshot c; cs_approved_step_ids := cs_approved_step_ids c |}.

Definition with_progress (execution : ExecutionState) (steps : list ChangeStep) (c : ChangeSet) :
    ChangeSet :=
  {| cs_id := cs_id c; cs_agent_run_id := cs_agent_run_id c; cs_session_id := cs_session_id c;
     cs_title := cs_title c; cs_version := cs_version c; cs_risk := cs_risk c; cs_steps := steps;
     cs_approval_state := cs_approval_state c; cs_approved_version := cs_approved_version c;
     cs_execution_state := execution; cs_recovery_state := cs_recovery_state c;
     cs_preconditions := cs_preconditions c; cs_policy_evaluation := cs_policy_evaluation c;
     cs_policy_snapshot := cs_policy_snapshot c; cs_approved_step_ids := cs_approved_step_ids c |}.

Definition with_execution (execution : ExecutionState) (c : ChangeSet) : ChangeSet :=
  with_progress execution (cs_steps c) c.

Definition with_preconditions (preconditions : list ChangePrecondition) (c : ChangeSet) : ChangeSet :=
  {| cs_id := cs_id c; cs_agent_run_id := cs_agent_run_id c; cs_session_id := cs_session_id c;
     cs_title := cs_title c; cs_version := cs_version c; cs_risk := cs_risk c;
     cs_steps := cs_steps c; cs_approval_state := cs_approval_state c;
     cs_approved_version := cs_approved_version c; cs_execution_state := cs_execution_state c;
     cs_recovery_state := cs_recovery_state c; cs_preconditions := preconditions;
     cs_policy_evaluation := cs_policy_evaluation c; cs_policy_snapshot := cs_policy_snapshot c;
     cs_approved_step_ids := cs_approved_step_ids c |}.

Definition with_policy (evaluation : option PolicyEvaluation) (snapshot : option PolicySnapshot)
    (c : ChangeSet) : ChangeSet :=
  {| cs_id := cs_id c; cs_agent_run_id := cs_agent_run_id c; cs_session_id := cs_session_id c;
     cs_title := cs_title c; cs_version := cs_version c; cs_risk := cs_risk c;
     cs_steps := cs_steps c; cs_approval_state := cs_approval_state c;
     cs_approved_version := cs_approved_version c; cs_execution_state := cs_execution_state c;
     cs_recovery_state := cs_recovery_state c; cs_preconditions := cs_preconditions c;
     cs_policy_evaluation := evaluation; cs_policy_snapshot := snapshot;
     cs_approved_step_ids := cs_approved_step_ids c |}.

Definition with_approved_steps (ids : list Uuid) (c : ChangeSet) : ChangeSet :=
  {| cs_id := cs_id c; cs_agent_run_id := cs_agent_run_id c; cs_session_id := cs_session_id c;
     cs_title := cs_title c; cs_version := cs_version c; cs_risk := cs_risk c;
     cs_steps := cs_steps c; cs_approval_state := cs_approval_state c;
     cs_approved_version := cs_approved_version c; cs_execution_state := cs_execution_state c;
     cs_recovery_state := cs_recovery_state c; cs_preconditions := cs_preconditions c;
     cs_policy_evaluation := cs_policy_evaluation c; cs_policy_snapshot := cs_policy_snapshot c;
     cs_approved_step_ids := ids |}.

Definition step_outcome (state : ChangeStepState) (error_code : option str) (s : ChangeStep) :
    ChangeStep :=
  {| cst_id := cst_id s; cst_order := cst_order s; cst_tool_name := cst_tool_name s;
     cst_risk := cst_risk s; cst_preview := cst_preview s;
     cst_verification_plan_code := cst_verification_plan_code s;
     cst_rollback_capability := cst_rollback_capability s; cst_state := state;
     cst_error_code := error_code |}.

Definition with_public (c : ChangeSet) (s : StoredChangeSet) : StoredChangeSet :=
  {| scs_public := c; scs_payloads := scs_payloads s;
     scs_precondition_bindings := scs_precondition_bindings s;
     scs_policy_binding := scs_policy_binding s |}.

(** ** Steps *)
Definition valid_service (service : str) : bool :=
  negb (is_empty service) && (blen service <=? 128)%N
  && forallb (fun c => is_ascii_alphanumeric c || existsb (N.eqb c) (lit "._@:-")) service.

Definition valid_step (step : ChangeStepDraft) : bool :=
  match step with
  | DraftFilePatch path expected replacement =>
      negb (is_empty path) && (blen path <=? 4096)%N && negb (is_empty expected)
      && negb (str_eqb expected replacement) && (blen expected <=? MAX_PATCH_BYTES)%N
      && (blen replacement <=? MAX_PATCH_BYTES)%N
  | DraftServiceRestart service | DraftServiceReload service => valid_service service
  | DraftNginxReload => true
  | DraftDockerRestart container => valid_service container
  end.

Definition validate_draft (request : ChangeSetDraftRequest) : AppResult unit :=
  reject_if (is_empty (trim (dr_title request)) || (256 <? blen (dr_title request))%N
             || bool_decide (dr_steps request = [])
             || (MAX_STEPS <? length (dr_steps request))%nat) InvalidOperation ;;
  reject_if (negb (forallb valid_step (dr_steps request))) InvalidOperation.

Definition preview_line (value : str) : str :=
  let first := default [] (head (lines value)) in
  if (blen first <=? 160)%N then first else take_bytes 160 first ++ lit "…".

Definition public_step (new_v4 : Uuid) (index : nat) (step : ChangeStepDraft) : ChangeStep :=
  let '(tool_name, risk, preview, verification, rollback) :=
    match step with
    | DraftFilePatch path expected replacement =>
        (lit "file.patch", R3,
         lit "--- " ++ path ++ [10%N] ++ lit "+++ " ++ path ++ [10%N] ++ lit "-"
         ++ preview_line expected ++ [10%N] ++ lit "+" ++ preview_line replacement,
         lit "read-back-exact-content", lit "snapshot-and-reverse-patch")
    | DraftServiceRestart service =>
        (lit "service.restart", R3, lit "restart " ++ service, lit "service-active",
         lit "not-supported")
    | DraftServiceReload service =>
        (lit "service.reload", R2, lit "reload " ++ service, lit "service-active",
         lit "not-supported")
    | DraftNginxReload =>
        (lit "nginx.reload", R2, lit "reload nginx", lit "nginx-test-before-and-after",
         lit "not-supported")
    | DraftDockerRestart container =>
        (lit "docker.restart", R3, lit "restart docker container " ++ container,
         lit "container-running", lit "not-supported")
    end in
  {| cst_id := new_v4; cst_order := N.of_nat index + 1; cst_tool_name := tool_name;
     cst_risk := risk; cst_preview := preview; cst_verification_plan_code := verification;
     cst_rollback_capability := rollback; cst_state := StepPending; cst_error_code := None |}.

(** The steps of a request; [ids index] is the identifier drawn for step [index]. *)
Definition public_steps (ids : nat -> Uuid) (steps : list ChangeStepDraft) : list ChangeStep :=
  imap (fun index step => public_step (ids index) index step) steps.

(** [.map(|step| step.risk).max().unwrap_or(RiskLevel::R2)]. *)
Definition steps_risk (steps : list ChangeStep) : RiskLevel :=
  default R2 (max_by_key risk_rank (map cst_risk steps)).

Definition invocation (step : ChangeStepDraft) : NativeToolInvocation :=
  match step with
  | DraftFilePatch path expected replacement => InvFilePatch path expected replacement
  | DraftServiceRestart service => InvServiceRestart service
  | DraftServiceReload service => InvServiceReload service
  | DraftNginxReload => InvNginxReload
  | DraftDockerRestart container => InvDockerRestart container
  end.

Definition precondition_invocation (step : ChangeStepDraft) : NativeToolInvocation :=
  match step with
  | DraftFilePatch path _ _ => InvFileInspect path
  | DraftServiceRestart service | DraftServiceReload service => InvServiceStatus service
  | DraftNginxReload => InvNginxTest
  | DraftDockerRestart container => InvDockerInspect container
  end.

Definition verification_invocation (step : ChangeStepDraft) : NativeToolInvocation :=
  precondition_invocation step.

Definition verification_plan_satisfied (plan : str) (result : ToolResult) : bool :=
  if str_eqb plan (lit "service-active") then
    match tr_data result with
    | Some (TDServiceStatus service) => bool_decide (sh_status service = SvcActive)
    | _ => false
    end
  else if str_eqb plan (lit "nginx-test-before-and-after") then
    match tr_data result with Some (TDNginxTest data) => nt_valid data | _ => false end
  else if str_eqb plan (lit "container-running") then
    match tr_data result with
    | Some (TDDiagnostic data) =>
        str_eqb (dd_category data) (lit "docker-inspect")
        && default false (json_get (dd_fields data) (lit "running") ≫= as_bool)
    | _ => false
    end
  else tr_success result.

(** ** Policy *)

(** [Vec::dedup_by]: an element equal to the last one kept is dropped. *)
Fixpoint dedup_from {A} (same : A -> A -> bool) (kept : A) (l : list A) : list A :=
  match l with
  | [] => []
  | x :: rest => if same x kept then dedup_from same kept rest else x :: dedup_from same x rest
  end.

Definition dedup_by {A} (same : A -> A -> bool) (l : list A) : list A :=
  match l with [] => [] | x :: rest => x :: dedup_from same x rest end.

Definition matched_rule_leb (left right : PolicyMatchedRule) : bool :=
  str_leb (mr_rule_id left) (mr_rule_id right).

Definition combine_policy_evaluations (evaluations : list PolicyEvaluation) :
    AppResult PolicyEvaluation :=
  first ← ok_or (head evaluations) InvalidOperation;
  reject_if (existsb (fun e => negb (ev_policy_version e =? ev_policy_version first)%N
                               || negb (str_eqb (ev_policy_hash e) (ev_policy_hash first)))
               evaluations) InvalidOperation ;;
  decisive ← ok_or (max_by_key (fun e => precedence (ev_decision e)) evaluations) InvalidOperation;
  let matched_rules := sort_by matched_rule_leb (concat (map ev_matched_rules evaluations)) in
  Ok {| ev_decision := ev_decision decisive;
        ev_matched_rules := dedup_by (fun left right => str_eqb (mr_rule_id left) (mr_rule_id right))
                              matched_rules;
        ev_reason := ev_reason decisive; ev_scope := ev_scope decisive;
        ev_policy_version := ev_policy_version first; ev_policy_hash := ev_policy_hash first |}.

(** ** Persistence *)
Definition persisted_step (step : ChangeStep) : PersistedChangeStep :=
  {| pst_id := cst_id step; pst_order := cst_order step; pst_tool_name := cst_tool_name step;
     pst_risk := cst_risk step; pst_verification_plan_code := cst_verification_plan_code step;
     pst_rollback_capability := cst_rollback_capability step; pst_state := cst_state step;
     pst_error_code := cst_error_code step |}.

Definition persisted_change_set (stored : StoredChangeSet) : PersistedChangeSet :=
  let public := scs_public stored in
  {| pcs_schema_version := CHANGE_SET_SCHEMA_VERSION; pcs_id := cs_id public;
     pcs_agent_run_id := cs_agent_run_id public; pcs_session_id := cs_session_id public;
     pcs_version := cs_version public; pcs_risk := cs_risk public;
     pcs_steps := map persisted_step (cs_steps public);
     pcs_execution_state := cs_execution_state public;
     pcs_policy_snapshot := cs_policy_snapshot public;
     pcs_approved_step_ids := cs_approved_step_ids public |}.

(** A code read back is one of those the program writes, or the file is bad. *)
Definition known_code (codes : list String.string) (value : str) : AppResult str :=
  if str_in (map lit codes) value then Ok value else Err Storage.

Definition persisted_tool_name : str -> AppResult str :=
  known_code ["file.patch"; "service.restart"; "service.reload"; "nginx.reload"]%string.

Definition persisted_verification_code : str -> AppResult str :=
  known_code ["read-back-exact-content"; "service-active"; "nginx-test-before-and-after"]%string.

Definition persisted_rollback_code : str -> AppResult str :=
  known_code ["snapshot-and-reverse-patch"; "not-supported"]%string.

Definition valid_stable_code (value : str) : bool :=
  negb (is_empty value) && (blen value <=? 64)%N
  && forallb (fun c => is_ascii_uppercase c || is_ascii_digit c || (c =? 95)%N) value.

Definition recovered_step (step : PersistedChangeStep) : AppResult ChangeStep :=
  tool_name ← persisted_tool_name (pst_tool_name step);
  verification ← persisted_verification_code (pst_verification_plan_code step);
  rollback ← persisted_rollback_code (pst_rollback_capability step);
  Ok {| cst_id := pst_id step; cst_order := pst_order step; cst_tool_name := tool_name;
        cst_risk := pst_risk step; cst_preview := lit "recovery-payload-unavailable";
        cst_verification_plan_code := verification; cst_rollback_capability := rollback;
        cst_state := pst_state step;
        cst_error_code := opt_filter valid_stable_code (pst_error_code step) |}.

Definition recovered_execution (state : ExecutionState) : ExecutionState :=
  if decide (state = Executing) then Interrupted else state.

Definition recovered_change_set (record : PersistedChangeSet) : AppResult ChangeSet :=
  steps ← try_map recovered_step (pcs_steps record);
  Ok {| cs_id := pcs_id record; cs_agent_run_id := pcs_agent_run_id record;
        cs_session_id := pcs_session_id record; cs_title := lit "recovered-change-set";
        cs_version := pcs_version record; cs_risk := pcs_risk record; cs_steps := steps;
        cs_approval_state := CsInvalidated; cs_approved_version := None;
        cs_execution_state := recovered_execution (pcs_execution_state record);
        cs_recovery_state := MetadataOnly; cs_preconditions := []; cs_policy_evaluation := None;
        cs_policy_snapshot := pcs_policy_snapshot record;
        cs_approved_step_ids := pcs_approved_step_ids record |}.

(** [self.items]. *)
Abbreviation Items := (gmap Uuid StoredChangeSet) (only parsing).

(** What [persist_locked] writes.  The values of a [HashMap] come in any order;
    they are sorted by their identifiers. *)
Definition persisted_records (items : Items) : list PersistedChangeSet :=
  let records := sort_by_key pcs_id (map persisted_change_set (map snd (map_to_list items))) in
  if (MAX_PERSISTED_CHANGE_SETS <? length records)%nat
  then drop (length records - MAX_PERSISTED_CHANGE_SETS) records else records.

(** ** Calls *)
Inductive CsQuery :=
  | QExecute (request : NativeToolRequest)       (* tools.execute *)
  | QEvaluate (request : PolicyEvaluationRequest) (* policies.evaluate *)
  | QMatches (snapshot : PolicySnapshot)          (* policies.current_matches *)
  | QLoad.                                        (* repository.load_or_default *)

Definition CsAnswer (q : CsQuery) : Type :=
  match q with
  | QExecute _ => AppResult ToolResult
  | QEvaluate _ => AppResult PolicyEvaluation
  | QMatches _ => bool
  | QLoad => AppResult (list PersistedChangeSet)
  end.

Abbreviation Held := (held Items (list PersistedChangeSet)) (only parsing).
Abbreviation CsProc := (proc Items (list PersistedChangeSet) CsQuery CsAnswer) (only parsing).

(** What the service takes from outside the repository: the JSON text of
    [result_digest], and the SHA-256 of bytes. *)
Class ChangeExternals := {
  serialize_result : NativeToolName -> bool -> option ToolData -> option str -> AppResult str;
  sha256_of_bytes : list N -> list N;
}.

Section Service.
Context `{Externals} `{ChangeExternals}.
(** Whether the service has a repository ([at_path]) or not ([default]). *)
Context (durable : bool).

(** [persist_locked] in a section: without a repository it is [Ok]. *)
Definition persisting {X} (items : Items) (k : AppResult unit -> Items * AppResult X) : Held X :=
  if durable then Save items (persisted_records items) k
  else let '(items', r) := k (Ok tt) in Leave items' r.

(** [persist_locked(&items).await?] and then the output. *)
Definition save_then {X} (items : Items) (output : X) : Held X :=
  persisting items (fun saved => (items, saved ≫= fun _ => Ok output)).

(** ... with [items.insert(id, previous)] when the save fails. *)
Definition save_or_restore {X} (items : Items) (id : Uuid) (stored previous : StoredChangeSet)
    (output : X) : Held X :=
  let items' := <[id := stored]> items in
  persisting items' (fun saved =>
    match saved with
    | Ok _ => (items', Ok output)
    | Err e => (<[id := previous]> items', Err e)
    end).

(** A section on one change set, which must exist and pass a check. *)
Definition with_stored {X} (id : Uuid) (refuse : StoredChangeSet -> bool)
    (k : Items -> StoredChangeSet -> Held X) : CsProc X :=
  locked (fun items =>
    match items !! id with
    | None => Leave items (Err InvalidOperation)
    | Some stored => if refuse stored then Leave items (Err InvalidOperation) else k items stored
    end).

(** A read of one change set. *)
Definition reading {X} (id : Uuid) (refuse : StoredChangeSet -> bool) (f : StoredChangeSet -> X) :
    CsProc X :=
  with_stored id refuse (fun items stored => Leave items (Ok (f stored))).

Definition version_is (version : N) (s : StoredChangeSet) : bool :=
  (cs_version (scs_public s) =? version)%N.
Definition not_started (s : StoredChangeSet) : bool :=
  bool_decide (cs_execution_state (scs_public s) = NotStarted).
Definition is_live (s : StoredChangeSet) : bool :=
  bool_decide (cs_recovery_state (scs_public s) = Live).

(** ** Drafts and revisions *)
Definition drafted (request : ChangeSetDraftRequest) (id : Uuid) (ids : nat -> Uuid) : ChangeSet :=
  let steps := public_steps ids (dr_steps request) in
  {| cs_id := id; cs_agent_run_id := dr_agent_run_id request; cs_session_id := dr_session_id request;
     cs_title := dr_title request; cs_version := 1; cs_risk := steps_risk steps; cs_steps := steps;
     cs_approval_state := CsDraft; cs_approved_version := None; cs_execution_state := NotStarted;
     cs_recovery_state := Live; cs_preconditions := []; cs_policy_evaluation := None;
     cs_policy_snapshot := None; cs_approved_step_ids := [] |}.

(** [draft]; [id] and [ids] are the identifiers drawn.  The insertion, the save
    and the removal are three sections. *)
Definition changeset_draft (request : ChangeSetDraftRequest) (id : Uuid) (ids : nat -> Uuid) :
    CsProc ChangeSet :=
  lift (validate_draft request) ;;
  let change_set := drafted request id ids in
  locked (fun items =>
    Leave (<[id := {| scs_public := change_set; scs_payloads := dr_steps request;
                      scs_precondition_bindings := []; scs_policy_binding := None |}]> items)
      (Ok tt)) ;;
  saved ← locked (fun items => persisting items (fun saved => (items, Ok saved)));
  match saved with
  | Ok _ => mret change_set
  | Err error => locked (fun items => Leave (delete id items) (Ok tt)) ;; lift (Err error)
  end.

Definition changeset_get (id : Uuid) : CsProc ChangeSet := reading id (fun _ => false) scs_public.

Definition precondition_binding_digest (id : Uuid) (version : N) : CsProc str :=
  reading id (fun s => negb (version_is version s) || negb (is_live s)
                       || negb (length (scs_precondition_bindings s)
                                =? length (cs_steps (scs_public s)))%nat)
    (fun s => hex_bytes (sha256_of_bytes (concat (map pb_digest (scs_precondition_bindings s))))).

Definition changeset_list : CsProc (list ChangeSet) :=
  locked (fun items =>
    Leave items (Ok (sort_by_key cs_id (map scs_public (map snd (map_to_list items)))))).

Definition revised (request : ChangeSetDraftRequest) (ids : nat -> Uuid) (stored : StoredChangeSet) :
    StoredChangeSet :=
  let public := scs_public stored in
  let steps := public_steps ids (dr_steps request) in
  {| scs_public :=
       {| cs_id := cs_id public; cs_agent_run_id := dr_agent_run_id request;
          cs_session_id := dr_session_id request; cs_title := dr_title request;
          cs_version := sat_add64 (cs_version public) 1; cs_risk := steps_risk steps;
          cs_steps := steps; cs_approval_state := CsInvalidated; cs_approved_version := None;
          cs_execution_state := cs_execution_state public;
          cs_recovery_state := cs_recovery_state public; cs_preconditions := [];
          cs_policy_evaluation := None; cs_policy_snapshot := None; cs_approved_step_ids := [] |};
     scs_payloads := dr_steps request; scs_precondition_bindings := []; scs_policy_binding := None |}.

Definition changeset_revise (id : Uuid) (request : ChangeSetDraftRequest) (ids : nat -> Uuid) :
    CsProc ChangeSet :=
  lift (validate_draft request) ;;
  with_stored id (fun s => negb (not_started s) || negb (is_live s))
    (fun items stored =>
      let stored' := revised request ids stored in
      save_or_restore items id stored' stored (scs_public stored')).

(** ** Approval *)
Definition approve_refused (version : N) (s : StoredChangeSet) : bool :=
  let public := scs_public s in
  negb (version_is version s) || negb (not_started s) || negb (is_live s)
  || (is_none_or (cs_policy_evaluation public) (fun e => negb (permits_execution e))
      || bool_decide (cs_policy_snapshot public = None))
  || match cs_policy_evaluation public with
     | Some e => bool_decide (ev_decision e = RequireStepApproval)
     | None => false
     end.

Definition changeset_approve (id : Uuid) (version : N) : CsProc ChangeSet :=
  with_stored id (approve_refused version)
    (fun items stored =>
      let public := with_approval CsApproved (Some version) (scs_public stored) in
      save_or_restore items id (with_public public stored) stored public).

(** [if !contains { push; sort }]. *)
Definition add_step_id (step_id : Uuid) (ids : list Uuid) : list Uuid :=
  if decide (step_id ∈ ids) then ids else sort_by_key (fun x => x) (ids ++ [step_id]).

Definition approve_step_refused (version : N) (step_id : Uuid) (s : StoredChangeSet) : bool :=
  let public := scs_public s in
  negb (version_is version s) || negb (not_started s) || negb (is_live s)
  || bool_decide (cs_policy_snapshot public = None)
  || is_none_or (cs_policy_evaluation public)
       (fun e => negb (bool_decide (ev_decision e = RequireStepApproval)))
  || negb (existsb (fun step => cst_id step =? step_id)%N (cs_steps public)).

Definition step_approved (version : N) (step_id : Uuid) (public : ChangeSet) : ChangeSet :=
  let public := with_approved_steps (add_step_id step_id (cs_approved_step_ids public)) public in
  if (length (cs_approved_step_ids public) =? length (cs_steps public))%nat
  then with_approval CsApproved (Some version) public else public.

Definition changeset_approve_step (id : Uuid) (version : N) (step_id : Uuid) : CsProc ChangeSet :=
  with_stored id (approve_step_refused version step_id)
    (fun items stored =>
      let public := step_approved version step_id (scs_public stored) in
      save_or_restore items id (with_public public stored) stored public).

Definition changeset_reject (id : Uuid) (version : N) : CsProc ChangeSet :=
  with_stored id (fun s => negb (version_is version s) || negb (not_started s) || negb (is_live s))
    (fun items stored =>
      let public := with_approval CsRejected None (scs_public stored) in
      save_or_restore items id (with_public public stored) stored public).

(** ** Policy and preconditions *)
Definition policy_request (context : PolicyCheckContext) (step : ChangeStep)
    (payload : ChangeStepDraft) : PolicyEvaluationRequest :=
  let tool := invocation_name (invocation payload) in
  {| per_target := pcc_target context; per_tool := tool; per_risk_level := cst_risk step;
     per_resource_impact := resource_impact_for tool; per_target_count := pcc_target_count context;
     per_execution_strategy := pcc_execution_strategy context; per_source := pcc_source context |}.

Fixpoint evaluate_payloads (context : PolicyCheckContext) (steps : list ChangeStep) (index : nat)
    (payloads : list ChangeStepDraft) : CsProc (list PolicyEvaluation) :=
  match payloads with
  | [] => mret []
  | payload :: rest =>
      step ← indexed (steps !! index);
      answer ← ask (QEvaluate (policy_request context step payload));
      evaluation ← lift answer;
      evaluations ← evaluate_payloads context steps (S index) rest;
      mret (evaluation :: evaluations)
  end.

Definition policy_checked (context : PolicyCheckContext) (evaluation : PolicyEvaluation)
    (stored : StoredChangeSet) : StoredChangeSet :=
  let public := with_policy (Some evaluation) (Some (snapshot_of evaluation)) (scs_public stored) in
  {| scs_public := if permits_execution evaluation then public
                   else with_approval CsInvalidated None public;
     scs_payloads := scs_payloads stored;
     scs_precondition_bindings := scs_precondition_bindings stored;
     scs_policy_binding :=
       Some {| cpb_target := pcc_target context; cpb_target_count := pcc_target_count context;
               cpb_execution_strategy := pcc_execution_strategy context;
               cpb_source := pcc_source context |} |}.

Definition check_policy (id : Uuid) (version : N) (context : PolicyCheckContext) : CsProc ChangeSet :=
  found ← reading id (fun s => negb (version_is version s) || negb (is_live s)
                               || (pcc_target_count context =? 0)%N)
            (fun s => (scs_public s, scs_payloads s));
  evaluations ← evaluate_payloads context (cs_steps (fst found)) 0 (snd found);
  evaluation ← lift (combine_policy_evaluations evaluations);
  with_stored id (fun s => negb (version_is version s))
    (fun items stored =>
      let stored' := policy_checked context evaluation stored in
      save_then (<[id := stored']> items) (scs_public stored')).

Definition result_digest (result : ToolResult) : AppResult (list N) :=
  bytes ← serialize_result (tr_tool_name result) (tr_success result) (tr_data result)
            (tr_error_code result);
  Ok (sha256 bytes).

Fixpoint capture_payloads (public : ChangeSet) (index : nat) (payloads : list ChangeStepDraft) :
    CsProc (list (PreconditionBinding * ChangePrecondition)) :=
  match payloads with
  | [] => mret []
  | payload :: rest =>
      let check := precondition_invocation payload in
      answer ← ask (QExecute (request_new (cs_session_id public) check));
      result ← lift answer;
      lift (reject_if (negb (tr_success result)) InvalidOperation) ;;
      digest ← lift (result_digest result);
      step ← indexed (cs_steps public !! index);
      captured ← capture_payloads public (S index) rest;
      mret (({| pb_invocation := check; pb_digest := digest |},
             {| cp_step_id := cst_id step; cp_target_id := cs_session_id public;
                cp_check_tool := tool_as_str (invocation_name check);
                cp_observed_at_epoch_ms := tr_started_at_epoch_ms result;
                cp_state := lit "captured" |}) :: captured)
  end.

Definition with_captured (captured : list (PreconditionBinding * ChangePrecondition))
    (stored : StoredChangeSet) : StoredChangeSet :=
  {| scs_public := with_preconditions (map snd captured) (scs_public stored);
     scs_payloads := scs_payloads stored; scs_precondition_bindings := map fst captured;
     scs_policy_binding := scs_policy_binding stored |}.

Definition capture_preconditions (id : Uuid) (version : N) : CsProc ChangeSet :=
  found ← reading id (fun s => negb (version_is version s) || negb (not_started s)
                               || negb (is_live s))
            (fun s => (scs_public s, scs_payloads s));
  captured ← capture_payloads (fst found) 0 (snd found);
  with_stored id (fun s => negb (version_is version s) || negb (not_started s))
    (fun items stored =>
      let stored' := with_captured captured stored in
      save_then (<[id := stored']> items) (scs_public stored')).

Definition approve_with_preconditions (id : Uuid) (version : N) : CsProc ChangeSet :=
  capture_preconditions id version ;; changeset_approve id version.

Definition invalidated (public : ChangeSet) : ChangeSet := with_approval CsInvalidated None public.

Definition precondition_changed (p : ChangePrecondition) : ChangePrecondition :=
  {| cp_step_id := cp_step_id p; cp_target_id := cp_target_id p; cp_check_tool := cp_check_tool p;
     cp_observed_at_epoch_ms := cp_observed_at_epoch_ms p; cp_state := lit "changed" |}.

Definition invalidate_for_precondition_change (id : Uuid) (version : N) : CsProc unit :=
  with_stored id (fun s => negb (version_is version s))
    (fun items stored =>
      let public := invalidated (scs_public stored) in
      let public := with_preconditions (map precondition_changed (cs_preconditions public)) public in
      save_then (<[id := with_public public stored]> items) tt).

Definition invalidate_for_policy_change (id : Uuid) (version : N) : CsProc unit :=
  with_stored id (fun s => negb (version_is version s))
    (fun items stored =>
      save_then (<[id := with_public (invalidated (scs_public stored)) stored]> items) tt).

(** ** Execution *)
Definition store_execution_snapshot (id : Uuid) (public : ChangeSet) : CsProc unit :=
  with_stored id (fun _ => false)
    (fun items stored => save_then (<[id := with_public public stored]> items) tt).

(** [public.steps[index].state = ...; public.steps[index].error_code = ...]. *)
Definition set_step (public : ChangeSet) (index : nat) (f : ChangeStep -> ChangeStep) :
    CsProc ChangeSet :=
  step ← indexed (cs_steps public !! index);
  mret (with_progress (cs_execution_state public) (<[index := f step]> (cs_steps public)) public).

(** The loop of [rollback_files] over the completed steps, last first. *)
Fixpoint reverse_patches (authority : ToolExecutionAuthority) (public : ChangeSet)
    (attempted failed : bool) (completed : list (nat * ChangeStepDraft)) :
    CsProc (ChangeSet * bool * bool) :=
  match completed with
  | [] => mret (public, attempted, failed)
  | (index, DraftFilePatch path expected replacement) :: rest =>
      answer ← ask (QExecute (request_approved_rollback (cs_session_id public)
                               (InvFilePatch path replacement expected) authority));
      match answer with
      | Ok result =>
          if tr_success result then
            public ← set_step public index (fun s => step_outcome StepRolledBack (cst_error_code s) s);
            reverse_patches authority public true failed rest
          else reverse_patches authority public true true rest
      | Err _ => reverse_patches authority public true true rest
      end
  | _ :: rest => reverse_patches authority public attempted failed rest
  end.

Definition is_file_patch (step : ChangeStepDraft) : bool :=
  match step with DraftFilePatch _ _ _ => true | _ => false end.

Definition rollback_files (public : ChangeSet) (completed : list (nat * ChangeStepDraft))
    (authority : ToolExecutionAuthority) : CsProc ChangeSet :=
  outcome ← reverse_patches authority public false
              (existsb (fun c => negb (is_file_patch (snd c))) completed) (rev completed);
  let '(public, attempted, failed) := outcome in
  mret (if (attempted : bool)
        then with_execution (if (failed : bool) then RollbackFailed else RolledBack) public
        else public).

(** The loop over the payloads of a claimed change set.  The two branches of
    a failure are a call that fails, whose outcome is saved at once, and a
    result that is not a success. *)
Fixpoint run_payloads (id : Uuid) (authority : ToolExecutionAuthority) (public : ChangeSet)
    (completed : list (nat * ChangeStepDraft)) (index : nat) (payloads : list ChangeStepDraft) :
    CsProc ChangeSet :=
  match payloads with
  | [] => mret public
  | payload :: rest =>
      answer ← ask (QExecute (request_approved (cs_session_id public) (invocation payload) authority));
      match answer with
      | Err error =>
          public ← set_step public index (step_outcome StepFailed (Some (error_code error)));
          public ← rollback_files (with_execution ExecFailedState public) completed authority;
          store_execution_snapshot id public ;;
          mret public
      | Ok result =>
          if tr_success result then
            public ← set_step public index (fun s => step_outcome StepSucceeded (cst_error_code s) s);
            store_execution_snapshot id public ;;
            run_payloads id authority public (completed ++ [(index, payload)]) (S index) rest
          else
            public ← set_step public index (step_outcome StepFailed (tr_error_code result));
            rollback_files (with_execution ExecFailedState public) completed authority
      end
  end.

(** The check of the captured preconditions before the claim. *)
Fixpoint check_preconditions (id : Uuid) (version : N) (session_id : Uuid)
    (bindings : list PreconditionBinding) : CsProc unit :=
  match bindings with
  | [] => mret tt
  | binding :: rest =>
      answer ← ask (QExecute (request_new session_id (pb_invocation binding)));
      result ← lift answer;
      same ← (if tr_success result then
                digest ← lift (result_digest result);
                mret (bool_decide (digest = pb_digest binding))
              else mret false);
      if (same : bool) then check_preconditions id version session_id rest
      else invalidate_for_precondition_change id version ;; lift (Err InvalidOperation)
  end.

Definition claim_refused (version : N) (s : StoredChangeSet) : bool :=
  let public := scs_public s in
  negb (version_is version s) || negb (bool_decide (cs_approved_version public = Some version))
  || negb (bool_decide (cs_approval_state public = CsApproved)) || negb (not_started s)
  || negb (is_live s) || negb (length (scs_payloads s) =? length (cs_steps public))%nat.

(** The durable claim before the first remote side effect. *)
Definition claim_execution (id : Uuid) (version : N) : CsProc (ChangeSet * list ChangeStepDraft) :=
  with_stored id (claim_refused version)
    (fun items stored =>
      let public := with_execution Executing (scs_public stored) in
      save_or_restore items id (with_public public stored) stored (public, scs_payloads stored)).

Definition execution_authority (public : ChangeSet) (rollback : bool) : ToolExecutionAuthority :=
  {| au_agent_run_id := cs_agent_run_id public; au_change_set_id := cs_id public;
     au_change_set_version := cs_version public; au_rollback := rollback |}.

(** What follows the claim. *)
Definition run_claimed (id : Uuid) (public : ChangeSet) (payloads : list ChangeStepDraft) :
    CsProc ChangeSet :=
  public ← run_payloads id (execution_authority public false) public [] 0 payloads;
  let public := if decide (cs_execution_state public = Executing)
                then with_execution Committed public else public in
  store_execution_snapshot id public ;;
  mret public.

Definition context_of (binding : ChangePolicyBinding) : PolicyCheckContext :=
  {| pcc_target := cpb_target binding; pcc_target_count := cpb_target_count binding;
     pcc_execution_strategy := cpb_execution_strategy binding; pcc_source := cpb_source binding |}.

Definition execute_with_policy (id : Uuid) (version : N) : CsProc ChangeSet :=
  found ← reading id (fun _ => false)
            (fun s => (cs_policy_snapshot (scs_public s), scs_policy_binding s));
  match found with
  | (Some snapshot, Some binding) =>
      matches ← ask (QMatches snapshot);
      if negb matches then
        invalidate_for_policy_change id version ;; lift (Err InvalidOperation)
      else
        checked ← check_policy id version (context_of binding);
        lift (reject_if (is_none_or (cs_policy_evaluation checked)
                           (fun e => negb (permits_execution e))) InvalidOperation) ;;
        conditions ← reading id
          (fun s => negb (length (scs_precondition_bindings s) =? length (scs_payloads s))%nat)
          (fun s => (cs_session_id (scs_public s), scs_precondition_bindings s));
        check_preconditions id version (fst conditions) (snd conditions) ;;
        claimed ← claim_execution id version;
        run_claimed id (fst claimed) (snd claimed)
  | _ => lift (Err InvalidOperation)
  end.

(** ** Verification and rollback *)
Fixpoint verify_steps (session_id : Uuid) (payloads : list ChangeStepDraft) (index : nat)
    (steps : list ChangeStep) : CsProc bool :=
  match steps with
  | [] => mret true
  | step :: rest =>
      if negb (bool_decide (cst_state step = StepSucceeded)) then mret false
      else
        payload ← lift (ok_or (payloads !! index) InvalidOperation);
        answer ← ask (QExecute (request_new session_id (verification_invocation payload)));
        result ← lift answer;
        if negb (tr_success result)
           || negb (verification_plan_satisfied (cst_verification_plan_code step) result)
        then mret false
        else verify_steps session_id payloads (S index) rest
  end.

Definition verify_execution (id : Uuid) (version : N) : CsProc bool :=
  found ← reading id (fun s => negb (version_is version s)) (fun s => (scs_public s, scs_payloads s));
  let '(public, payloads) := found in
  if negb (bool_decide (cs_execution_state public = Committed)) then mret false
  else verify_steps (cs_session_id public) payloads 0 (cs_steps public).

Definition rollback_refused (version : N) (s : StoredChangeSet) : bool :=
  let public := scs_public s in
  negb (version_is version s) || negb (is_live s)
  || negb (bool_decide (cs_execution_state public = Committed)
           || bool_decide (cs_execution_state public = ExecFailedState))
  || negb (length (scs_payloads s) =? length (cs_steps public))%nat.

(** [.enumerate().filter(|(index, _)| steps[*index].state == Succeeded)]. *)
Fixpoint succeeded_steps (steps : list ChangeStep) (index : nat) (payloads : list ChangeStepDraft) :
    CsProc (list (nat * ChangeStepDraft)) :=
  match payloads with
  | [] => mret []
  | payload :: rest =>
      step ← indexed (steps !! index);
      completed ← succeeded_steps steps (S index) rest;
      mret (if decide (cst_state step = StepSucceeded) then (index, payload) :: completed
            else completed)
  end.

Definition changeset_rollback (id : Uuid) (version : N) : CsProc ChangeSet :=
  found ← reading id (rollback_refused version) (fun s => (scs_public s, scs_payloads s));
  let '(public, payloads) := found in
  completed ← succeeded_steps (cs_steps public) 0 payloads;
  public ← rollback_files public completed (execution_authority public true);
  let public := if decide (cs_execution_state public = RolledBack
                           \/ cs_execution_state public = RollbackFailed)
                then public else with_execution RollbackFailed public in
  store_execution_snapshot id public ;;
  mret public.

(** ** Loading *)
Definition recovered_stored (public : ChangeSet) : StoredChangeSet :=
  {| scs_public := public; scs_payloads := []; scs_precondition_bindings := [];
     scs_policy_binding := None |}.

(** The loop of [load]: a record that cannot be read back ends it. *)
Fixpoint load_records (items : Items) (records : list PersistedChangeSet) : Items * AppResult unit :=
  match records with
  | [] => (items, Ok tt)
  | record :: rest =>
      match recovered_change_set record with
      | Err e => (items, Err e)
      | Ok public => load_records (<[cs_id public := recovered_stored public]> items) rest
      end
  end.

Definition changeset_load : CsProc unit :=
  if negb durable then mret tt
  else
    answer ← ask QLoad;
    persisted ← lift answer;
    locked (fun _ =>
      let current := List.filter (fun r => pcs_schema_version r =? CHANGE_SET_SCHEMA_VERSION)%N
                       persisted in
      match load_records ∅ (take MAX_PERSISTED_CHANGE_SETS current) with
      | (items, Ok _) => save_then items tt
      | (items, Err e) => Leave items (Err e)
      end).

(** ** The service as a whole *)
Inductive CsCall :=
  | CallLoad
  | CallDraft (request : ChangeSetDraftRequest) (id : Uuid) (ids : nat -> Uuid)
  | CallGet (id : Uuid)
  | CallDigest (id : Uuid) (version : N)
  | CallList
  | CallRevise (id : Uuid) (request : ChangeSetDraftRequest) (ids : nat -> Uuid)
  | CallApprove (id : Uuid) (version : N)
  | CallApproveStep (id : Uuid) (version : N) (step_id : Uuid)
  | CallReject (id : Uuid) (version : N)
  | CallCheckPolicy (id : Uuid) (version : N) (context : PolicyCheckContext)
  | CallCapture (id : Uuid) (version : N)
  | CallApproveWith (id : Uuid) (version : N)
  | CallExecute (id : Uuid) (version : N)
  | CallVerify (id : Uuid) (version : N)
  | CallRollback (id : Uuid) (version : N).

Inductive CsReply :=
  | ReplyUnit
  | ReplySet (c : ChangeSet)
  | ReplySets (l : list ChangeSet)
  | ReplyText (s : str)
  | ReplyBool (b : bool).

Definition replying {A} (f : A -> CsReply) (p : CsProc A) : CsProc CsReply :=
  a ← p; mret (f a).

Definition cs_body (call : CsCall) : CsProc CsReply :=
  match call with
  | CallLoad => replying (fun _ => ReplyUnit) changeset_load
  | CallDraft request id ids => replying ReplySet (changeset_draft request id ids)
  | CallGet id => replying ReplySet (changeset_get id)
  | CallDigest id version => replying ReplyText (precondition_binding_digest id version)
  | CallList => replying ReplySets changeset_list
  | CallRevise id request ids => replying ReplySet (changeset_revise id request ids)
  | CallApprove id version => replying ReplySet (changeset_approve id version)
  | CallApproveStep id version step_id => replying ReplySet (changeset_approve_step id version step_id)
  | CallReject id version => replying ReplySet (changeset_reject id version)
  | CallCheckPolicy id version context => replying ReplySet (check_policy id version context)
  | CallCapture id version => replying ReplySet (capture_preconditions id version)
  | CallApproveWith id version => replying ReplySet (approve_with_preconditions id version)
  | CallExecute id version => replying ReplySet (execute_with_policy id version)
  | CallVerify id version => replying ReplyBool (verify_execution id version)
  | CallRollback id version => replying ReplySet (changeset_rollback id version)
  end.
End Service.
