(* ===== verification/ChangeSetSafety.v ===== *)
(** * Change sets under any interleaving

    Any number of calls of the service run at once, in any order, with any
    answers from tools, policy and disk.  [safe] is the rely-guarantee
    condition of one call: what it may do with the shared change sets
    ([future], [well_kept]) and with its [token], the right to insert a drafted
    change set or to execute a claimed one.  Every call of the service is
    [safe]. *)
From S2P Require Import Prelude Str Json Errors RunState Tools Externals Policy Decision Evidence.
From S2P Require Import Process Execution ChangeSets.

(** ** What the calls keep of the shared change sets *)
Definition read_only (i : NativeToolInvocation) : Prop :=
  exists step, i = precondition_invocation step.

Definition can_start (s : StoredChangeSet) : Prop :=
  cs_recovery_state (scs_public s) = Live /\ cs_execution_state (scs_public s) = NotStarted.

Definition revision (s : StoredChangeSet) : N := cs_version (scs_public s).

(** The binding [b] was captured for the step [p]. *)
Definition captured_for (b : PreconditionBinding) (p : ChangeStepDraft) : Prop :=
  pb_invocation b = precondition_invocation p.

(** A world is the change sets and the identifiers ever drafted. *)
Definition world : Type := gmap Uuid StoredChangeSet * gset Uuid.

(** What is captured belongs to the steps there are.  A version counts the revisions
    until it saturates. *)
Definition startable_ok (s : StoredChangeSet) : Prop :=
  (revision s <= U64_MAX)%N /\
  ((revision s < U64_MAX)%N -> scs_precondition_bindings s = [] \/
     Forall2 captured_for (scs_precondition_bindings s) (scs_payloads s)).

Definition entry_ok (ins : gset Uuid) (id : Uuid) (s : StoredChangeSet) : Prop :=
  cs_id (scs_public s) = id /\
  (cs_recovery_state (scs_public s) = Live -> id ∈ ins) /\
  length (scs_payloads s) <= length (cs_steps (scs_public s)) /\
  Forall (fun b => read_only (pb_invocation b)) (scs_precondition_bindings s) /\
  (can_start s -> startable_ok s).

Definition well_kept (w : world) : Prop := map_Forall (entry_ok (snd w)) (fst w).

(** [id] was drafted, can start no more, and holds at most [n] payloads. *)
Definition spent (w : world) (id : Uuid) (n : nat) : Prop :=
  id ∈ snd w /\
  forall s, fst w !! id = Some s -> ~ can_start s /\ length (scs_payloads s) <= n.

(** [id] was drafted, and while it can start its version is at least [v] and its steps
    at version [v] are [payloads]. *)
Definition pinned (w : world) (id : Uuid) (v : N) (payloads : list ChangeStepDraft) : Prop :=
  id ∈ snd w /\
  forall s, fst w !! id = Some s -> can_start s ->
    (v <= revision s)%N /\ (revision s = v -> (v < U64_MAX)%N -> scs_payloads s = payloads).

Definition future (w w' : world) : Prop :=
  snd w ⊆ snd w' /\ (forall id n, spent w id n -> spent w' id n) /\
  (forall id v payloads, pinned w id v payloads -> pinned w' id v payloads).

#[export] Instance future_preorder : PreOrder future.
Proof.
  split; [by split|].
  intros w1 w2 w3 (A1 & B1 & C1) (A2 & B2 & C2). split_and!; [by etransitivity|auto..].
Qed.

(** [s'] replaces [s]: a version is never taken back, nor its steps changed. *)
Definition keeps_version (s s' : StoredChangeSet) : Prop :=
  (revision s <= revision s')%N /\
  (revision s' = revision s -> (revision s < U64_MAX)%N -> scs_payloads s' = scs_payloads s).

Lemma future_update items ins id s s' :
  items !! id = Some s ->
  (can_start s' -> can_start s /\ keeps_version s s') ->
  (~ can_start s -> length (scs_payloads s') <= length (scs_payloads s)) ->
  future (items, ins) (<[id := s']> items, ins).
Proof.
  intros Hs Hc Hp. split_and!; [done| |].
  - intros id' n [Hin H]. split; [done|]. cbn. intros t [[<- <-]|[Hne Ht]]%lookup_insert_Some; [|by apply H].
    destruct (H _ Hs) as [Hn Hl]. split; [tauto|]. specialize (Hp Hn). cbn in *. lia.
  - intros id' v P [Hin H]. split; [done|]. cbn. intros t [[<- <-]|[Hne Ht]]%lookup_insert_Some Hst; [|by apply H].
    destruct (Hc Hst) as [Hst0 [Hle Hsame]]. destruct (H _ Hs Hst0) as [Hv HP].
    split; [lia|]. intros Hrev Hmax. rewrite Hsame; [apply HP|..]; lia.
Qed.

Lemma future_insert items ins id s :
  id ∉ ins -> future (items, ins) (<[id := s]> items, {[id]} ∪ ins).
Proof.
  intros Hid. split_and!; [apply union_subseteq_r| |].
  - intros id' n [Hin H]. split; [by apply elem_of_union_r|].
    cbn. intros t [[-> _]|[_ Ht]]%lookup_insert_Some; [done|by apply H].
  - intros id' v P [Hin H]. split; [by apply elem_of_union_r|].
    cbn. intros t [[-> _]|[_ Ht]]%lookup_insert_Some; [done|by apply H].
Qed.

Lemma future_delete items ins id : future (items, ins) (delete id items, ins).
Proof.
  split_and!; [done| |].
  - intros id' n [Hin H]. split; [done|]. cbn. intros t [_ Ht]%lookup_delete_Some. by apply H.
  - intros id' v P [Hin H]. split; [done|]. cbn. intros t [_ Ht]%lookup_delete_Some. by apply H.
Qed.

Lemma well_kept_insert items ins id s :
  well_kept (items, ins) -> entry_ok ins id s -> well_kept (<[id := s]> items, ins).
Proof. intros Hw Hs. by apply map_Forall_insert_2. Qed.

Lemma well_kept_grow items ins ins' :
  well_kept (items, ins) -> ins ⊆ ins' -> well_kept (items, ins').
Proof.
  intros Hw Hi id s Hs. destruct (Hw id s Hs) as (A & B & Cs). split_and!; naive_solver.
Qed.

(** Well kept by what a [HashMap] lost. *)
Lemma well_kept_delete items ins id : well_kept (items, ins) -> well_kept (delete id items, ins).
Proof. intros Hw. by apply map_Forall_delete. Qed.

Lemma spent_future w w' id n : spent w id n -> future w w' -> spent w' id n.
Proof. intros H (_ & HG & _). auto. Qed.

(** Between two worlds where [id] can start at version [v] it had the same steps. *)
Lemma pinned_start w id s :
  well_kept w -> fst w !! id = Some s -> can_start s -> pinned w id (revision s) (scs_payloads s).
Proof.
  intros Hw Hs Hst. destruct (Hw id s Hs) as (_ & Hin & _). split; [by apply Hin, Hst|].
  intros s' Hs' _. rewrite Hs in Hs'. injection Hs' as <-. split; [lia|done].
Qed.

#[export] Instance can_start_dec s : Decision (can_start s).
Proof. unfold can_start. apply _. Defined.

(** What can start now could before. *)
Lemma can_start_before w w' id s s' :
  id ∈ snd w -> future w w' -> fst w !! id = Some s -> fst w' !! id = Some s' -> can_start s' -> can_start s.
Proof.
  intros Hin (_ & Hsp & _) Hs Hs' Hst. destruct (decide (can_start s)) as [|Hno]; [done|].
  destruct (Hsp id (length (scs_payloads s))) as [_ H].
  { split; [done|]. intros t Ht. rewrite Hs in Ht. by injection Ht as <-. }
  by destruct (H s' Hs') as [? _].
Qed.

Lemma later_version w w' id s s' :
  well_kept w -> future w w' -> fst w !! id = Some s -> can_start s ->
  fst w' !! id = Some s' -> can_start s' -> (revision s <= revision s')%N.
Proof.
  intros Hw (_ & _ & Hp) Hs Hst Hs' Hst'. destruct (Hp _ _ _ (pinned_start w id s Hw Hs Hst)) as [_ H].
  by destruct (H s' Hs' Hst').
Qed.

Lemma same_steps w w' id s s' :
  well_kept w -> future w w' -> fst w !! id = Some s -> can_start s ->
  fst w' !! id = Some s' -> can_start s' -> revision s' = revision s -> (revision s < U64_MAX)%N ->
  scs_payloads s' = scs_payloads s.
Proof.
  intros Hw (_ & _ & Hp) Hs Hst Hs' Hst' Hv Hmax. destruct (Hp _ _ _ (pinned_start w id s Hw Hs Hst)) as [_ H].
  destruct (H s' Hs' Hst') as [_ Hsame]. by apply Hsame.
Qed.

(** ** Tokens *)
Inductive token :=
  | TNone
  | TDraft (id : Uuid)
  | TClaim (id : Uuid).

#[export] Instance token_eq_dec : EqDecision token.
Proof. solve_decision. Defined.

Abbreviation Ev := (event (list PersistedChangeSet) CsQuery CsAnswer) (only parsing).
Abbreviation CsProc := (proc (gmap Uuid StoredChangeSet) (list PersistedChangeSet) CsQuery CsAnswer)
  (only parsing).

Definition succeeded (a : AppResult ToolResult) : bool :=
  match a with Ok result => tr_success result | Err _ => false end.

(** A request that writes for a change set: it carries its authority, and not to undo. *)
Definition writes_for (r : NativeToolRequest) : option ToolExecutionAuthority :=
  match nr_authority r with
  | Some au => if au_rollback au then None else Some au
  | None => None
  end.

Section Safety.
Context `{Externals} `{ChangeExternals} (durable : bool).

(** A call that does not hold the claim of [id] may not make it startable
    again, and may insert [id] only with its draft token. *)
Definition move (T : token) (w : world) (T' : token) (w' : world) : Prop :=
  well_kept w' /\ future w w' /\
  ((T' = T /\ snd w' = snd w) \/
   (exists id, T = TDraft id /\ T' = TNone /\ snd w' = {[id]} ∪ snd w) \/
   (exists id s,
      T = TNone /\ T' = TClaim id /\ fst w !! id = Some s /\ can_start s /\
      spent w' id (length (scs_payloads s)) /\ snd w' = snd w)).

(** It writes for the change set whose claim it holds. *)
Definition asks (T : token) (q : CsQuery) : Prop :=
  match q with
  | QExecute r => forall au, writes_for r = Some au -> T = TClaim (au_change_set_id au)
  | _ => True
  end.

Fixpoint safe {A} (T : token) (w : world) (p : CsProc A) (Q : token -> world -> A -> Prop) : Prop :=
  match p with
  | Done (Ok a) => Q T w a
  | Done (Err _) => True
  | Panicked => False
  | Locked section k =>
      forall w1, well_kept w1 -> future w w1 -> (forall id, T = TDraft id -> id ∉ snd w1) ->
      match section (fst w1) with
      | Leave items' r =>
          exists T' ins', move T w1 T' (items', ins') /\ safe T' (items', ins') (k r) Q
      | Save _ _ h => forall saved,
          exists T' ins',
            let '(items', r) := h saved in
            move T w1 T' (items', ins') /\ safe T' (items', ins') (k r) Q
      end
  | Asking q k => asks T q /\ forall a, safe T w (k a) Q
  end.

Lemma safe_bind {A B} T w (p : CsProc A) (f : A -> CsProc B) Q :
  safe T w p (fun T' w' a => safe T' w' (f a) Q) -> safe T w (p ≫= f) Q.
Proof.
  unfold mbind, proc_mbind. revert T w. induction p as [[a|e]| |X sec k IH|q k IH];
    intros T w; cbn [proc_bind safe]; try done.
  - intros Hs w1 H1 H2 H3. specialize (Hs w1 H1 H2 H3). destruct (sec (fst w1)) as [items' r|s rec h].
    + destruct Hs as (T' & ins' & Hm & Hk). eauto.
    + intros saved. destruct (Hs saved) as (T' & ins' & Hk). exists T', ins'.
      destruct (h saved) as [items' r]. destruct Hk as [Hm Hk]. eauto.
  - intros [Hq Hs]. auto.
Qed.

Lemma safe_mono {A} T w (p : CsProc A) (Q Q' : token -> world -> A -> Prop) :
  safe T w p Q -> (forall T' w' a, Q T' w' a -> Q' T' w' a) -> safe T w p Q'.
Proof.
  intros Hs HQ. revert T w Hs. induction p as [[a|e]| |X sec k IH|q k IH];
    intros T w; cbn [safe]; auto.
  - intros Hs w1 H1 H2 H3. specialize (Hs w1 H1 H2 H3). destruct (sec (fst w1)) as [items' r|s rec h].
    + destruct Hs as (T' & ins' & Hm & Hk). eauto.
    + intros saved. destruct (Hs saved) as (T' & ins' & Hk). exists T', ins'.
      destruct (h saved) as [items' r]. destruct Hk as [Hm Hk]. eauto.
  - intros [Hq Hs]. auto.
Qed.

(** The others may move the world. *)
Lemma safe_future {A} T w w1 (p : CsProc A) (Q : token -> world -> A -> Prop) :
  safe T w p Q -> future w w1 ->
  (forall T' w' w1' a, Q T' w' a -> future w' w1' -> Q T' w1' a) ->
  safe T w1 p Q.
Proof.
  intros Hs Hw HQ. revert T w w1 Hw Hs. induction p as [[a|e]| |X sec k IH|q k IH];
    intros T w w1 Hw; cbn [safe]; eauto.
  - intros Hs w2 H1 H2 H3. apply Hs; [done|by etransitivity|done].
  - intros [Hq Hs]. eauto.
Qed.

(** ** Rules *)
Lemma move_stay T w items' :
  well_kept (items', snd w) -> future w (items', snd w) -> move T w T (items', snd w).
Proof. unfold move. auto. Qed.

Lemma safe_leave {X B} T w items (f : gmap Uuid StoredChangeSet -> held _ _ X)
    (k : AppResult X -> CsProc B) Q :
  (forall w1, well_kept w1 -> future w w1 -> (forall id, T = TDraft id -> id ∉ snd w1) ->
     exists r, f (fst w1) = Leave (items (fst w1)) r /\
       well_kept (items (fst w1), snd w1) /\ future w1 (items (fst w1), snd w1) /\
       safe T (items (fst w1), snd w1) (k r) Q) ->
  safe T w (Locked f k) Q.
Proof.
  intros Hf w1 H1 H2 H3. destruct (Hf w1 H1 H2 H3) as (r & -> & Hw & HG & Hs).
  exists T, (snd w1). split; [by apply move_stay|done].
Qed.

(** Replacing one entry. *)
Definition entry_update (ins : gset Uuid) (id : Uuid) (s s' : StoredChangeSet) : Prop :=
  entry_ok ins id s' /\ (can_start s' -> can_start s /\ keeps_version s s') /\
  (~ can_start s -> length (scs_payloads s') <= length (scs_payloads s)).

Lemma entry_update_kept w id s s' :
  well_kept w -> fst w !! id = Some s -> entry_update (snd w) id s s' ->
  well_kept (<[id := s']> (fst w), snd w) /\ future w (<[id := s']> (fst w), snd w).
Proof.
  destruct w as [items ins]. intros Hw Hs (A & B & C). split; [by apply well_kept_insert|].
  by eapply future_update.
Qed.

Lemma safe_reading {X} T w id refuse (f : StoredChangeSet -> X) Q :
  (forall w1 s, well_kept w1 -> future w w1 -> fst w1 !! id = Some s -> refuse s = false ->
     Q T w1 (f s)) ->
  safe T w (reading id refuse f) Q.
Proof.
  intros HQ w1 H1 H2 H3. unfold reading.
  assert (move T w1 T (fst w1, snd w1)) by (apply move_stay; by destruct w1).
  destruct (fst w1 !! id) as [s|] eqn:Hs; [|by exists T, (snd w1)].
  destruct (refuse s) eqn:Hr; [by exists T, (snd w1)|]. exists T, (snd w1). split; [done|].
  destruct w1. cbn. eauto.
Qed.

(** A section that updates an entry and saves. *)
Lemma safe_update {X} T w id refuse (f : StoredChangeSet -> StoredChangeSet)
    (out : StoredChangeSet -> X) (restore : bool) Q :
  (forall w1 s, well_kept w1 -> future w w1 -> fst w1 !! id = Some s -> refuse s = false ->
     entry_update (snd w1) id s (f s) /\ Q T (<[id := f s]> (fst w1), snd w1) (out s)) ->
  safe T w
    (with_stored id refuse (fun items s =>
       if restore then save_or_restore durable items id (f s) s (out s)
       else save_then durable (<[id := f s]> items) (out s))) Q.
Proof.
  intros HQ w1 H1 H2 H3.
  assert (move T w1 T (fst w1, snd w1)) by (apply move_stay; by destruct w1).
  destruct (fst w1 !! id) as [s|] eqn:Hs; [|by exists T, (snd w1)].
  destruct (refuse s) eqn:Hr; [by exists T, (snd w1)|].
  destruct (HQ w1 s H1 H2 Hs Hr) as [Hu Hk]. destruct (entry_update_kept w1 id s (f s)) as [Hw HG]; try done.
  assert (Hback : <[id := s]> (<[id := f s]> (fst w1)) = fst w1)
    by (by rewrite insert_insert_eq, insert_id).
  destruct restore; unfold save_or_restore, save_then, persisting; cbn.
  - destruct durable.
    + intros [[]|e]; exists T, (snd w1).
      * split; [by apply move_stay|done].
      * rewrite Hback. split; [|done]. apply move_stay; by destruct w1.
    + exists T, (snd w1). split; [by apply move_stay|done].
  - destruct durable.
    + intros [[]|e]; exists T, (snd w1); (split; [by apply move_stay|done]).
    + exists T, (snd w1). split; [by apply move_stay|done].
Qed.

Lemma safe_lift {A} T w (r : AppResult A) Q :
  (forall a, r = Ok a -> Q T w a) -> safe T w (lift r) Q.
Proof. destruct r; cbn; auto. Qed.

Lemma safe_ask T w q (Q : token -> world -> CsAnswer q -> Prop) :
  asks T q -> (forall a, Q T w a) -> safe T w (ask q) Q.
Proof. by split. Qed.

Lemma safe_indexed {A} T w (o : option A) Q :
  (exists a, o = Some a /\ Q T w a) -> safe T w (indexed o) Q.
Proof. by intros (a & -> & HQ). Qed.

Lemma safe_replying {A} T w (f : A -> CsReply) (p : CsProc A) :
  safe T w p (fun _ _ _ => True) ->
  safe T w (replying f p) (fun _ _ _ => True).
Proof. intros Hp. apply safe_bind. eapply safe_mono; [done|]. done. Qed.

(** ** The calls *)
Abbreviation safe_call p := (forall w, safe TNone w p (fun _ _ _ => True)) (only parsing).

(** An update that keeps what [entry_ok] and [can_start] read. *)
Lemma entry_update_keep ins id s s' :
  entry_ok ins id s ->
  cs_id (scs_public s') = cs_id (scs_public s) ->
  cs_recovery_state (scs_public s') = cs_recovery_state (scs_public s) ->
  cs_execution_state (scs_public s') = cs_execution_state (scs_public s) ->
  cs_version (scs_public s') = cs_version (scs_public s) ->
  length (cs_steps (scs_public s')) = length (cs_steps (scs_public s)) ->
  scs_payloads s' = scs_payloads s ->
  Forall (fun b => read_only (pb_invocation b)) (scs_precondition_bindings s') ->
  (can_start s -> startable_ok s') ->
  entry_update ins id s s'.
Proof.
  intros (A & B & C & D & F) E1 E2 E3 E4 E5 E6 E7 E8.
  unfold entry_update, entry_ok, can_start, keeps_version, revision in *.
  rewrite E1, E2, E3, E4, E5, E6. split_and!; auto.
Qed.

Lemma entry_of w id s : well_kept w -> fst w !! id = Some s -> entry_ok (snd w) id s.
Proof. intros Hw. apply Hw. Qed.

Lemma entry_bindings ins id s :
  entry_ok ins id s -> Forall (fun b => read_only (pb_invocation b)) (scs_precondition_bindings s).
Proof. by intros (_ & _ & _ & H' & _). Qed.

Lemma entry_startable ins id s : entry_ok ins id s -> can_start s -> startable_ok s.
Proof. by intros (_ & _ & _ & _ & H'). Qed.

(** The case of a section that only changes the public part. *)
Lemma entry_update_public w id s public :
  well_kept w -> fst w !! id = Some s ->
  cs_id public = cs_id (scs_public s) ->
  cs_recovery_state public = cs_recovery_state (scs_public s) ->
  cs_execution_state public = cs_execution_state (scs_public s) ->
  cs_version public = cs_version (scs_public s) ->
  length (cs_steps public) = length (cs_steps (scs_public s)) ->
  entry_update (snd w) id s (with_public public s).
Proof.
  intros Hw Hs A B C D E. pose proof (entry_of _ _ _ Hw Hs) as He.
  apply entry_update_keep; auto; [exact (entry_bindings _ _ _ He)|].
  intros Hst. pose proof (entry_startable _ _ _ He Hst) as Hok.
  unfold startable_ok, revision in *. cbn. rewrite D. auto.
Qed.

Lemma approve_safe id version : safe_call (changeset_approve durable id version).
Proof.
  intros w. apply (safe_update _ _ _ _ (fun s =>
    with_public (with_approval CsApproved (Some version) (scs_public s)) s)
    (fun s => with_approval CsApproved (Some version) (scs_public s)) true).
  intros w1 s Hw _ Hs _. split; [|done]. by apply entry_update_public.
Qed.

Lemma step_approved_keeps version step_id c :
  cs_id (step_approved version step_id c) = cs_id c /\
  cs_recovery_state (step_approved version step_id c) = cs_recovery_state c /\
  cs_execution_state (step_approved version step_id c) = cs_execution_state c /\
  cs_version (step_approved version step_id c) = cs_version c /\
  cs_steps (step_approved version step_id c) = cs_steps c.
Proof. unfold step_approved. by case_match. Qed.

Lemma approve_step_safe id version step_id : safe_call (changeset_approve_step durable id version step_id).
Proof.
  intros w. apply (safe_update _ _ _ _ (fun s =>
    with_public (step_approved version step_id (scs_public s)) s)
    (fun s => step_approved version step_id (scs_public s)) true).
  intros w1 s Hw _ Hs _. split; [|done].
  destruct (step_approved_keeps version step_id (scs_public s)) as (A & B & C & D & E).
  by apply entry_update_public; rewrite ?E.
Qed.

Lemma reject_safe id version : safe_call (changeset_reject durable id version).
Proof.
  intros w. apply (safe_update _ _ _ _ (fun s =>
    with_public (with_approval CsRejected None (scs_public s)) s)
    (fun s => with_approval CsRejected None (scs_public s)) true).
  intros w1 s Hw _ Hs _. split; [|done]. by apply entry_update_public.
Qed.

Lemma public_steps_length ids steps : length (public_steps ids steps) = length steps.
Proof. apply length_imap. Qed.

Lemma startable_iff s : can_start s <-> not_started s = true /\ is_live s = true.
Proof. unfold can_start, not_started, is_live. rewrite !bool_decide_eq_true. tauto. Qed.

Lemma revise_safe id request ids : safe_call (changeset_revise durable id request ids).
Proof.
  intros w. apply safe_bind, safe_lift. intros _ _.
  apply (safe_update _ _ _ _ (revised request ids) (fun s => scs_public (revised request ids s)) true).
  intros w1 s Hw _ Hs Hr. split; [|done]. breflect.
  assert (can_start s) by (by apply startable_iff).
  destruct (entry_of _ _ _ Hw Hs) as (A & B & C & D & F). destruct (F ltac:(done)) as [Hmax _].
  assert (Hv : revision (revised request ids s) = N.min (revision s + 1) U64_MAX) by done.
  split_and!; [| |done].
  - unfold entry_ok; cbn. rewrite public_steps_length. split_and!; auto. intros _. split; [lia|by left].
  - intros _. split; [done|]. split; lia.
Qed.

Lemma draft_safe request id ids w :
  safe (TDraft id) w (changeset_draft durable request id ids) (fun _ _ _ => True).
Proof.
  apply safe_bind, safe_lift. intros _ _. cbn -[drafted].
  intros [items ins] H1 H2 H3. specialize (H3 id eq_refl). cbn in *.
  exists TNone, ({[id]} ∪ ins). split.
  { split_and!; [|by apply future_insert|right; left; eauto].
    apply well_kept_insert; [eapply well_kept_grow; [done|set_solver]|].
    unfold entry_ok; cbn. rewrite public_steps_length. split_and!; [done|set_solver|lia|constructor|]. intros _. split; [done|by left]. }
  intros w2 K1 K2 _. unfold persisting.
  assert (forall e, safe TNone w2
    (Locked (fun items0 => Leave (delete id items0) (Ok tt)) (fun x : AppResult unit =>
       proc_bind (fun _ => lift (Err e)) (Done x))) (fun _ _ (_ : ChangeSet) => True)) as Hdel.
  { intros e. apply (safe_leave _ _ (delete id)). intros [items3 ins3] K3 _ _.
    exists (Ok tt). split_and!; [done| |apply future_delete|done]. by apply well_kept_delete. }
  destruct durable; cbn.
  - intros [[]|e]; exists TNone, (snd w2); (split; [apply move_stay; by destruct w2|]); [done|].
    destruct w2. apply Hdel.
  - exists TNone, (snd w2). split; [apply move_stay; by destruct w2|done].
Qed.

Lemma get_safe id : safe_call (changeset_get id).
Proof. intros w. by apply safe_reading. Qed.

Lemma digest_safe id version : safe_call (precondition_binding_digest id version).
Proof. intros w. by apply safe_reading. Qed.

Lemma list_safe : safe_call changeset_list.
Proof.
  intros w. apply (safe_leave _ _ (fun items => items)). intros w1 H1 _ _. eexists.
  split; [done|]. by destruct w1.
Qed.

(** Every [Locked] of [load]: what was recovered cannot start. *)
Definition metadata_only (items : gmap Uuid StoredChangeSet) : Prop :=
  map_Forall (fun id s => cs_id (scs_public s) = id /\
    cs_recovery_state (scs_public s) = MetadataOnly /\ scs_payloads s = [] /\
    scs_precondition_bindings s = []) items.

Lemma recovered_metadata record public :
  recovered_change_set record = Ok public ->
  cs_recovery_state public = MetadataOnly /\ cs_approval_state public = CsInvalidated /\
  cs_approved_version public = None /\ cs_execution_state public <> Executing.
Proof.
  unfold recovered_change_set. intros Hr. inv_ok. subst public. cbn. split_and!; try done.
  unfold recovered_execution. by case_decide.
Qed.

Lemma load_records_metadata records items :
  metadata_only items -> metadata_only (fst (load_records items records)).
Proof.
  revert items. induction records as [|r records IH]; intros items Hi; [done|]. cbn.
  destruct (recovered_change_set r) as [public|e] eqn:Hr; [|done].
  apply IH. apply map_Forall_insert_2; [|done]. cbn.
  by destruct (recovered_metadata _ _ Hr) as (-> & _).
Qed.

Lemma metadata_kept items ins : metadata_only items -> well_kept (items, ins).
Proof.
  intros Hm id s Hs. destruct (Hm id s Hs) as (A & B & C & D). unfold entry_ok.
  unfold can_start. rewrite B, C, D. split_and!; cbn; try done; try lia. by intros [? _].
Qed.

Lemma metadata_future w items : metadata_only items -> future w (items, snd w).
Proof.
  intros Hm. assert (Hno : forall id s, items !! id = Some s -> ~ can_start s /\ scs_payloads s = []).
  { intros id s Hs. destruct (Hm id s Hs) as (A & B & C & D). split; [|done]. unfold can_start. rewrite B. by intros [? _]. }
  split_and!; [done| |].
  - intros id n [Hin _]. split; [done|]. intros s Hs. destruct (Hno id s Hs) as [? ->]. split; [done|cbn; lia].
  - intros id v P [Hin _]. split; [done|]. intros s Hs Hst. by destruct (Hno id s Hs) as [? _].
Qed.

Lemma load_safe : safe_call (changeset_load durable).
Proof.
  intros w. unfold changeset_load, save_then, persisting. case_match eqn:Hd; [done|].
  apply safe_bind, safe_ask; [done|]. intros a.
  apply safe_bind, safe_lift. intros records _. intros w1 H1 _ _.
  match goal with |- context [load_records ∅ ?l] =>
    pose proof (load_records_metadata l ∅ (map_Forall_empty _)) as Hm;
    destruct (load_records ∅ l) as [items r] end. cbn in Hm.
  assert (forall T, move T w1 T (items, snd w1)) as Hmove.
  { intros T. apply move_stay; [by apply metadata_kept|by apply metadata_future]. }
  destruct r as [[]|e]; [|exists TNone, (snd w1); by split].
  destruct durable; [|done]. intros [[]|e]; exists TNone, (snd w1); by split.
Qed.

(** *** Checks *)
Lemma evaluate_safe context steps T w index payloads :
  index + length payloads <= length steps ->
  safe T w (evaluate_payloads context steps index payloads) (fun T' w' _ => T' = T /\ w' = w).
Proof.
  revert index. induction payloads as [|payload rest IH]; intros index Hlen; cbn in Hlen; [done|].
  apply safe_bind, safe_indexed.
  destruct (lookup_lt_is_Some_2 steps index) as [step Hstep]; [lia|]. exists step. split; [done|].
  apply safe_bind, safe_ask; [done|]. intros a. apply safe_bind, safe_lift. intros e _. apply safe_bind.
  eapply safe_mono; [apply IH; lia|done].
Qed.

Lemma check_policy_safe id version context w :
  safe TNone w (check_policy durable id version context)
    (fun T' _ public => T' = TNone /\ is_Some (cs_policy_evaluation public)).
Proof.
  apply safe_bind, safe_reading. intros w1 s Hw1 HG Hs Hr. cbn [fst snd].
  destruct (entry_of _ _ _ Hw1 Hs) as (_ & _ & Hlen & _).
  apply safe_bind. eapply safe_mono; [apply evaluate_safe; cbn; lia|].
  intros T' w' es [-> ->]. apply safe_bind, safe_lift. intros e He.
  apply (safe_update _ _ _ _ (policy_checked context e)
           (fun s => scs_public (policy_checked context e s)) false).
  intros w2 s2 Hw2 _ Hs2 _. pose proof (entry_of _ _ _ Hw2 Hs2) as He2. split.
  - apply entry_update_keep; unfold policy_checked; cbn; try (by case_match); try done.
    + exact (entry_bindings _ _ _ He2).
    + intros Hst. pose proof (entry_startable _ _ _ He2 Hst) as Hok. unfold startable_ok, revision in *.
      cbn. case_match; auto.
  - split; [done|]. unfold policy_checked. cbn. case_match; cbn; eauto.
Qed.

Lemma read_asks T session_id i : asks T (QExecute (request_new session_id i)).
Proof. done. Qed.

Lemma capture_payloads_safe public w index payloads :
  index + length payloads <= length (cs_steps public) ->
  safe TNone w (capture_payloads public index payloads)
    (fun T' w' captured => T' = TNone /\ w' = w /\ Forall2 captured_for (map fst captured) payloads).
Proof.
  revert index. induction payloads as [|payload rest IH]; intros index Hlen; cbn in Hlen.
  { split_and!; [done..|constructor]. }
  apply safe_bind, safe_ask; [apply read_asks|]. intros a.
  apply safe_bind, safe_lift. intros result _. apply safe_bind, safe_lift. intros _ _.
  apply safe_bind, safe_lift. intros digest _. apply safe_bind, safe_indexed.
  destruct (lookup_lt_is_Some_2 (cs_steps public) index) as [step Hstep]; [lia|].
  exists step. split; [done|]. apply safe_bind. eapply safe_mono; [apply IH; lia|].
  intros T' w' captured (-> & -> & Hc). split_and!; [done..|]. by constructor.
Qed.

Lemma capture_safe id version w :
  safe TNone w (capture_preconditions durable id version) (fun T' _ _ => T' = TNone).
Proof.
  apply safe_bind, safe_reading. intros w1 s Hw1 HG Hs Hr. cbn [fst snd].
  apply orb_false_iff in Hr as [Hr Hlive]. apply orb_false_iff in Hr as [Hv Hns].
  apply negb_false_iff in Hv, Hns, Hlive. apply N.eqb_eq in Hv.
  assert (Hst : can_start s) by (by apply startable_iff).
  destruct (entry_of _ _ _ Hw1 Hs) as (_ & _ & Hlen & _).
  apply safe_bind. eapply safe_mono; [apply capture_payloads_safe; cbn; lia|].
  intros T' w' captured (-> & -> & Hc).
  apply (safe_update _ _ _ _ (with_captured captured)
           (fun s => scs_public (with_captured captured s)) false).
  intros w2 s2 Hw2 Hf Hs2 Hr2. split; [|done].
  apply (entry_update_keep _ _ _ (with_captured captured s2) (entry_of _ _ _ Hw2 Hs2)); try done.
  { cbn. clear - Hc. induction Hc as [|b p bs ps Hb _ IH]; constructor; [by exists p|done]. }
  intros Hst2. destruct (entry_startable _ _ _ (entry_of _ _ _ Hw2 Hs2) Hst2) as [Hmax _].
  apply orb_false_iff in Hr2 as [Hv2 _]. apply negb_false_iff, N.eqb_eq in Hv2.
  split; [done|]. intros Hlt. right. cbn in Hlt |- *.
  rewrite (same_steps w1 w2 id s s2); try done; unfold revision in *; cbn in *; lia.
Qed.

Lemma approve_with_safe id version : safe_call (approve_with_preconditions durable id version).
Proof.
  intros w. apply safe_bind. eapply safe_mono; [apply capture_safe|].
  intros T' w' a ->. apply approve_safe.
Qed.

Lemma invalidate_policy_safe id version w :
  safe TNone w (invalidate_for_policy_change durable id version) (fun T' _ _ => T' = TNone).
Proof.
  apply (safe_update _ _ _ _ (fun s => with_public (invalidated (scs_public s)) s) (fun _ => tt) false).
  intros w1 s Hw _ Hs _. split; [|done]. by apply entry_update_public.
Qed.

Lemma invalidate_precondition_safe id version w :
  safe TNone w (invalidate_for_precondition_change durable id version)
    (fun T' _ _ => T' = TNone).
Proof.
  apply (safe_update _ _ _ _ (fun s =>
    let public := invalidated (scs_public s) in
    with_public (with_preconditions (map precondition_changed (cs_preconditions public)) public) s)
    (fun _ => tt) false).
  intros w1 s Hw _ Hs _. split; [|done]. by apply entry_update_public.
Qed.

Lemma preconditions_safe id version session_id bindings w :
  safe TNone w (check_preconditions durable id version session_id bindings) (fun T' _ _ => T' = TNone).
Proof.
  revert w. induction bindings as [|b rest IH]; intros w; [done|].
  apply safe_bind, safe_ask; [apply read_asks|]. intros a. apply safe_bind, safe_lift. intros result _.
  apply safe_bind.
  assert (Hstop : safe TNone w
    (_ ← invalidate_for_precondition_change durable id version; lift (Err InvalidOperation))
    (fun T' _ (_ : unit) => T' = TNone)).
  { apply safe_bind. by eapply safe_mono; [apply invalidate_precondition_safe|]. }
  destruct (tr_success result); [|exact Hstop].
  apply safe_bind, safe_lift. intros digest _. cbn. case_bool_decide; [apply IH|exact Hstop].
Qed.

(** *** Execution *)

(** [c'] is [c] with other states of its steps and of its execution. *)
Definition progressed (c c' : ChangeSet) : Prop :=
  exists execution steps, c' = with_progress execution steps c /\ length steps = length (cs_steps c).

Lemma progressed_refl c : progressed c c.
Proof. exists (cs_execution_state c), (cs_steps c). by destruct c. Qed.

Lemma progressed_trans a b c : progressed a b -> progressed b c -> progressed a c.
Proof.
  intros (e & s & -> & H1) (e' & s' & -> & H2). exists e', s'. split; [done|]. cbn in H2. congruence.
Qed.

Lemma progressed_execution e c : progressed c (with_execution e c).
Proof. by exists e, (cs_steps c). Qed.

Lemma progressed_steps c c' : progressed c c' -> length (cs_steps c') = length (cs_steps c).
Proof. by intros (e & s & -> & ?). Qed.

Lemma safe_set_step T w public index f Q :
  index < length (cs_steps public) ->
  (forall public', progressed public public' ->
     cs_execution_state public' = cs_execution_state public -> Q T w public') ->
  safe T w (set_step public index f) Q.
Proof.
  intros Hi HQ. apply safe_bind, safe_indexed.
  destruct (lookup_lt_is_Some_2 _ _ Hi) as [step Hs]. exists step. split; [done|].
  apply HQ; [|done]. eexists _, _. split; [done|]. apply length_insert.
Qed.

Definition in_range (public : ChangeSet) (completed : list (nat * ChangeStepDraft)) : Prop :=
  Forall (fun c => fst c < length (cs_steps public)) completed.

Lemma in_range_progressed a b completed : progressed a b -> in_range a completed -> in_range b completed.
Proof. intros Hp. unfold in_range. by rewrite (progressed_steps _ _ Hp). Qed.

Lemma reverse_safe authority T w public attempted failed completed :
  in_range public completed ->
  safe T w (reverse_patches authority public attempted failed completed)
    (fun T' w' r => T' = T /\ w' = w /\ progressed public (fst (fst r)) /\
       cs_execution_state (fst (fst r)) = cs_execution_state public).
Proof.
  revert public attempted failed.
  induction completed as [|[index step] rest IH]; intros public attempted failed Hr.
  { split_and!; [done..|apply progressed_refl|done]. }
  apply Forall_cons in Hr as [Hi Hr].
  destruct step as [path expected replacement| | | |]; try by apply IH.
  apply safe_bind, safe_ask; [done|]. intros a.
  assert (Hgo : forall f b public1, progressed public public1 ->
    cs_execution_state public1 = cs_execution_state public ->
    safe T w (reverse_patches authority public1 b f rest)
      (fun T' w' r => T' = T /\ w' = w /\ progressed public (fst (fst r)) /\
         cs_execution_state (fst (fst r)) = cs_execution_state public)).
  { intros f b public1 Hp He. eapply safe_mono; [apply IH; by eapply in_range_progressed|].
    intros T' w' r (-> & -> & B & C). split_and!; [done|done| |congruence].
    by eapply progressed_trans. }
  destruct a as [result|e]; [|apply Hgo; [apply progressed_refl|done]].
  destruct (tr_success result); [|apply Hgo; [apply progressed_refl|done]].
  apply safe_bind, safe_set_step; [done|]. intros public1 Hp He. by apply Hgo.
Qed.

Lemma rollback_files_safe authority T w public completed :
  in_range public completed -> cs_execution_state public <> NotStarted ->
  safe T w (rollback_files public completed authority)
    (fun T' w' public' => T' = T /\ w' = w /\ progressed public public' /\
       cs_execution_state public' <> NotStarted).
Proof.
  intros Hr He. apply safe_bind. eapply safe_mono.
  { apply reverse_safe. unfold in_range. by rewrite <- Permutation_rev. }
  intros T' w' [[public' attempted] failed] (-> & -> & Hg & Hx). cbn in *.
  destruct attempted; cbn; split_and!; try done; try congruence.
  - eapply progressed_trans; [done|apply progressed_execution].
  - by destruct failed.
Qed.

(** A thread may store its copy of a change set that can start no more. *)
Definition storable (w : world) (id : Uuid) (public : ChangeSet) : Prop :=
  spent w id (length (cs_steps public)) /\ cs_id public = id /\
  cs_execution_state public <> NotStarted.

Lemma storable_progressed w w' id public public' :
  storable w id public -> future w w' -> progressed public public' ->
  cs_execution_state public' <> NotStarted -> storable w' id public'.
Proof.
  intros (A & B & C) Hw Hp He. unfold storable. rewrite (progressed_steps _ _ Hp).
  split_and!; [by eapply spent_future|by destruct Hp as (? & ? & -> & _)|done].
Qed.

Lemma store_safe T w id public :
  storable w id public ->
  safe T w (store_execution_snapshot durable id public) (fun T' w' _ => T' = T /\ storable w' id public).
Proof.
  intros Hst. apply (safe_update _ _ _ _ (with_public public) (fun _ => tt) false).
  intros w1 s Hw1 HG Hs _.
  assert (Hst1 : storable w1 id public).
  { eapply storable_progressed; [done..|apply progressed_refl|by destruct Hst as (_ & _ & ?)]. }
  destruct Hst1 as ([Hin Hsp] & Hid & He). destruct (Hsp _ Hs) as [Hn Hlen].
  assert (Hu : entry_update (snd w1) id s (with_public public s)).
  { split_and!; cbn; [|by intros [_ ?]|done]. split_and!; cbn; try done; [|by intros [_ ?]].
    exact (entry_bindings _ _ _ (entry_of _ _ _ Hw1 Hs)). }
  split; [done|]. split; [done|].
  destruct (entry_update_kept w1 id s _ Hw1 Hs Hu) as [_ Hf].
  eapply storable_progressed; [|done|apply progressed_refl|done]. by split_and!.
Qed.

(** A claimed change set: its steps run under the claim. *)
Lemma run_payloads_safe id authority payloads w public completed index :
  au_change_set_id authority = id ->
  storable w id public -> in_range public completed ->
  index + length payloads <= length (cs_steps public) ->
  safe (TClaim id) w (run_payloads durable id authority public completed index payloads)
    (fun _ w' public' => storable w' id public').
Proof.
  intros Hid. revert w public completed index.
  induction payloads as [|payload rest IH]; intros w public completed index Hst Hr Hlen; cbn in Hlen; [done|].
  assert (Hi : index < length (cs_steps public)) by lia.
  apply safe_bind, safe_ask.
  { intros au. unfold writes_for. cbn. case_match; [done|]. intros [= <-]. by rewrite Hid. }
  intros a.
  (* Both failures: the step is marked, and the completed patches reversed. *)
  assert (Hback : forall T public1, progressed public public1 ->
    safe T w (rollback_files (with_execution ExecFailedState public1) completed authority)
      (fun T' w' public' => w' = w /\ storable w id public')).
  { intros T public1 Hg1.
    assert (Hg : progressed public (with_execution ExecFailedState public1))
      by (eapply progressed_trans; [done|apply progressed_execution]).
    eapply safe_mono.
    - apply rollback_files_safe; [|done]. by eapply in_range_progressed.
    - intros T' w' public2 (-> & -> & Hg2 & He2). split; [done|].
      eapply storable_progressed; [done..| |done]. by eapply progressed_trans. }
  destruct a as [result|e].
  - destruct (tr_success result).
    + apply safe_bind, safe_set_step; [done|]. intros public1 Hg1 He1.
      apply safe_bind. eapply safe_mono; [apply store_safe|].
      { eapply storable_progressed; [done..|]. rewrite He1. by destruct Hst as (_ & _ & ?). }
      intros T' w' _ (-> & Hst'). apply IH; [done| |].
      * apply Forall_app. split; [by eapply in_range_progressed|].
        apply Forall_singleton. cbn. by rewrite (progressed_steps _ _ Hg1).
      * rewrite (progressed_steps _ _ Hg1). lia.
    + apply safe_bind, safe_set_step; [done|]. intros public1 Hg1 _.
      eapply safe_mono; [by apply Hback|]. naive_solver.
  - apply safe_bind, safe_set_step; [done|]. intros public1 Hg1 _.
    apply safe_bind. eapply safe_mono; [by apply Hback|]. intros T' w' public2 [-> Hst2].
    apply safe_bind. eapply safe_mono; [by apply store_safe|]. by intros T2 w2 _ (_ & ?).
Qed.

Lemma claim_refused_start version s :
  claim_refused version s = false ->
  can_start s /\ cs_version (scs_public s) = version /\
  length (scs_payloads s) = length (cs_steps (scs_public s)).
Proof.
  unfold claim_refused, version_is. intros Hr. breflect.
  split_and!; [by apply startable_iff|done|by apply Nat.eqb_eq].
Qed.

Lemma claim_safe id version w :
  safe TNone w (claim_execution durable id version)
    (fun T' w' claimed =>
       T' = TClaim id /\ storable w' id (fst claimed) /\
       length (snd claimed) = length (cs_steps (fst claimed))).
Proof.
  intros w1 H1 H2 _.
  assert (Hstay : forall T, move T w1 T (fst w1, snd w1)) by (intros T; apply move_stay; by destruct w1).
  unfold claim_execution, with_stored, locked.
  destruct (fst w1 !! id) as [s|] eqn:Hs; [|by exists TNone, (snd w1)].
  destruct (claim_refused version s) eqn:Hr; [by exists TNone, (snd w1)|].
  destruct (claim_refused_start _ _ Hr) as (Hstart & Hv & Hlen).
  set (s' := with_public (with_execution Executing (scs_public s)) s).
  pose proof (entry_of _ _ _ H1 Hs) as (E1 & E2 & E3 & E4 & _).
  assert (Hu : entry_update (snd w1) id s s').
  { split_and!; cbn; [|by intros [_ ?]|done]. split_and!; cbn; try done. by intros [_ ?]. }
  destruct (entry_update_kept w1 id s s' H1 Hs Hu) as [Hw HG].
  assert (Hspent : spent (<[id := s']> (fst w1), snd w1) id (length (scs_payloads s))).
  { split; [by destruct Hstart; auto|]. cbn. intros t Ht. rewrite lookup_insert_eq in Ht.
    injection Ht as <-. split; [by intros [_ ?]|done]. }
  assert (Hmove : move TNone w1 (TClaim id) (<[id := s']> (fst w1), snd w1)).
  { split_and!; [done..|]. right. right. exists id, s. by split_and!. }
  assert (Hst : storable (<[id := s']> (fst w1), snd w1) id (with_execution Executing (scs_public s))).
  { split_and!; [|done|done]. cbn. by rewrite <- Hlen. }
  unfold save_or_restore, persisting. fold s'. destruct durable eqn:Hd.
  - intros [[]|e].
    + eexists _, _. split; [exact Hmove|]. by split_and!.
    + exists TNone, (snd w1). rewrite insert_insert_eq, insert_id by done. by split.
  - eexists _, _. split; [exact Hmove|]. by split_and!.
Qed.

Lemma run_claimed_safe id w public payloads :
  storable w id public -> length payloads = length (cs_steps public) ->
  safe (TClaim id) w (run_claimed durable id public payloads) (fun _ _ _ => True).
Proof.
  intros Hst Hlen. apply safe_bind. eapply safe_mono.
  { apply run_payloads_safe; try done; [|by constructor|lia]. by destruct Hst as (_ & ? & _). }
  intros T' w' public' Hst'. apply safe_bind. eapply safe_mono; [apply store_safe|intros; exact I].
  case_decide; [|done].
  by eapply storable_progressed; [exact Hst'|reflexivity|apply progressed_execution|].
Qed.

Lemma execute_safe id version : safe_call (execute_with_policy durable id version).
Proof.
  intros w. apply safe_bind, safe_reading. intros w1 s1 _ _ _ _.
  destruct (cs_policy_snapshot (scs_public s1)) as [snapshot|]; [|done].
  destruct (scs_policy_binding s1) as [binding|]; [|done].
  apply safe_bind, safe_ask; [done|]. intros [|].
  2: { apply safe_bind. by eapply safe_mono; [apply invalidate_policy_safe|]. }
  apply safe_bind. eapply safe_mono; [apply check_policy_safe|].
  intros T2 w2 public2 [-> _]. apply safe_bind, safe_lift. intros [] _.
  apply safe_bind, safe_reading. intros w3 s3 _ _ _ _.
  apply safe_bind. eapply safe_mono; [apply preconditions_safe|]. intros T4 w4 [] ->.
  apply safe_bind. eapply safe_mono; [apply claim_safe|].
  intros T5 w5 [public payloads] (-> & Hst & Hlen). by apply run_claimed_safe.
Qed.

(** *** Verification and rollback *)
Lemma verify_steps_safe session_id payloads T w index steps :
  safe T w (verify_steps session_id payloads index steps) (fun _ _ _ => True).
Proof.
  revert index. induction steps as [|step rest IH]; intros index; [done|].
  cbn [verify_steps]. case_match; [done|].
  apply safe_bind, safe_lift. intros payload _. apply safe_bind, safe_ask; [apply read_asks|]. intros a.
  apply safe_bind, safe_lift. intros result _. case_match; [done|]. apply IH.
Qed.

Lemma verify_safe id version : safe_call (verify_execution id version).
Proof.
  intros w. apply safe_bind, safe_reading. intros w1 s _ _ _ _.
  case_match; [done|]. apply verify_steps_safe.
Qed.

Lemma succeeded_safe T w steps index payloads :
  index + length payloads <= length steps ->
  safe T w (succeeded_steps steps index payloads)
    (fun T' w' completed => T' = T /\ w' = w /\
       Forall (fun c => fst c < length steps) completed).
Proof.
  revert index. induction payloads as [|payload rest IH]; intros index Hlen; cbn in Hlen.
  { by split_and!. }
  apply safe_bind, safe_indexed.
  destruct (lookup_lt_is_Some_2 steps index) as [step Hstep]; [lia|]. exists step. split; [done|].
  apply safe_bind. eapply safe_mono; [apply IH; lia|]. intros T' w' completed (-> & -> & Hc).
  split_and!; [done..|]. case_decide; [|done]. constructor; [cbn; lia|done].
Qed.

Lemma rollback_safe id version : safe_call (changeset_rollback durable id version).
Proof.
  intros w. apply safe_bind, safe_reading. intros w1 s Hw1 _ Hs Hr.
  unfold rollback_refused in Hr. apply orb_false_iff in Hr as [Hr Hlen].
  apply orb_false_iff in Hr as [Hr Hex]. apply orb_false_iff in Hr as [_ Hlive].
  apply negb_false_iff, Nat.eqb_eq in Hlen. apply negb_false_iff in Hex, Hlive.
  apply bool_decide_eq_true in Hlive.
  assert (He : cs_execution_state (scs_public s) <> NotStarted).
  { intros E. rewrite E in Hex. by vm_compute in Hex. }
  destruct (entry_of _ _ _ Hw1 Hs) as (E1 & E2 & E3 & E4 & _).
  assert (Hst : storable w1 id (scs_public s)).
  { split_and!; [|done|done]. split; [auto|]. intros t Ht. rewrite Hs in Ht. injection Ht as <-.
    split; [by intros [_ ?]|lia]. }
  apply safe_bind. eapply safe_mono; [apply succeeded_safe; cbn; lia|].
  intros T' w' completed (-> & -> & Hc).
  apply safe_bind. eapply safe_mono; [by apply rollback_files_safe|].
  intros T2 w2 public' (-> & -> & Hg & He').
  apply safe_bind. eapply safe_mono; [apply store_safe|intros; exact I].
  eapply storable_progressed; [done..| |].
  - destruct (decide _); [done|]. eapply progressed_trans; [done|apply progressed_execution].
  - by destruct (decide _).
Qed.

(** ** Every call is safe *)
Definition call_token (call : CsCall) : token :=
  match call with CallDraft _ id _ => TDraft id | _ => TNone end.

Lemma body_safe call w :
  safe (call_token call) w (cs_body durable call) (fun _ _ _ => True).
Proof.
  destruct call; cbn [call_token cs_body]; apply safe_replying.
  - apply load_safe.
  - apply draft_safe.
  - apply get_safe.
  - apply digest_safe.
  - apply list_safe.
  - apply revise_safe.
  - apply approve_safe.
  - apply approve_step_safe.
  - apply reject_safe.
  - by eapply safe_mono; [apply check_policy_safe|].
  - by eapply safe_mono; [apply capture_safe|].
  - apply approve_with_safe.
  - apply execute_safe.
  - apply verify_safe.
  - apply rollback_safe.
Qed.
End Safety.
