(* ===== verification/ChangeSetWarrant.v ===== *)
(** * What an execution saw before it writes

    A call of the change-set service asks for a write only as part of
    [execute_with_policy], after its checks, and as the next step of the change set it
    claimed.  [warranted] says what the call saw and did before, moment by moment;
    every call of the service satisfies it of every write ([body_entitled]).  Each
    state that it names is a state of the shared service ([Observe.lived_split]). *)
From S2P Require Import Prelude Str Json Errors RunState Tools Externals Policy Decision Evidence.
From S2P Require Import Process Observe Execution ChangeSets ChangeSetSafety.

Abbreviation Items := (gmap Uuid StoredChangeSet) (only parsing).
Abbreviation Moment := (moment (gmap Uuid StoredChangeSet) (list PersistedChangeSet) CsQuery CsAnswer)
  (only parsing).

(** The writes among the events of a call, with whether each succeeded. *)
Definition write_in (e : Ev) : option (NativeToolInvocation * bool) :=
  match e with
  | EvSaved _ _ => None
  | EvAsked q a =>
      match q as q0 return CsAnswer q0 -> _ with
      | QExecute r => fun a =>
          match writes_for r with Some _ => Some (nr_invocation r, succeeded a) | None => None end
      | _ => fun _ => None
      end a
  end.

Definition own_writes (evs : list Ev) : list (NativeToolInvocation * bool) := omap write_in evs.

Lemma own_writes_app l1 l2 : own_writes (l1 ++ l2) = own_writes l1 ++ own_writes l2.
Proof. apply omap_app. Qed.

(** A change set that may be executed: approved at its version, live, not started. *)
Record ready (version : N) (s : StoredChangeSet) : Prop := {
  ready_version : cs_version (scs_public s) = version;
  ready_approval : cs_approval_state (scs_public s) = CsApproved;
  ready_approved_version : cs_approved_version (scs_public s) = Some version;
  ready_live : cs_recovery_state (scs_public s) = Live;
  ready_not_started : cs_execution_state (scs_public s) = NotStarted;
  ready_steps : length (scs_payloads s) = length (cs_steps (scs_public s));
}.

Lemma ready_can_start version s : ready version s -> can_start s.
Proof. by intros []. Qed.

Lemma claim_refused_ready version s : claim_refused version s = false -> ready version s.
Proof.
  unfold claim_refused, version_is, not_started, is_live. intros Hr.
  repeat match goal with H : _ || _ = false |- _ => apply orb_false_iff in H as [H ?] end.
  repeat match goal with H : negb _ = false |- _ => apply negb_false_iff in H end.
  repeat match goal with H : bool_decide _ = true |- _ => apply bool_decide_eq_true in H end.
  split; try done; [by apply N.eqb_eq|by apply Nat.eqb_eq].
Qed.

Section Warrant.
Context `{Externals} `{ChangeExternals} (durable : bool).

(** Every step was put to the policy, in order, in the context [context], and answered. *)
Definition evaluated (context : PolicyCheckContext) (steps : list ChangeStep)
    (payloads : list ChangeStepDraft) (evaluations : list PolicyEvaluation) (evs : list Ev) : Prop :=
  length evs = length payloads /\ length evaluations = length payloads /\
  evs = zip_with (fun x e => EvAsked (QEvaluate (policy_request context (fst x) (snd x))) (Ok e))
          (zip steps payloads) evaluations.

(** The precondition that [b] binds was read again, and read the same. *)
Definition rechecked (session_id : Uuid) (b : PreconditionBinding) (e : Ev) : Prop :=
  exists result, e = EvAsked (QExecute (request_new session_id (pb_invocation b))) (Ok result) /\
    tr_success result = true /\ result_digest result = Ok (pb_digest b).

Definition a_save (e : Ev) : Prop := exists records answer, e = EvSaved records answer.

(** *** The checks of an execution

    The change sets it found when it read the policy snapshot ([ck_bound]), when it read
    the steps to evaluate ([ck_judged]), when it stored the decision, when it read the
    preconditions ([ck_read]) and when it claimed ([ck_claimed]), with the change set it
    executes in each, and its events in between. *)
Record checks := {
  ck_bound : Items; ck_bound_set : StoredChangeSet;
  ck_snapshot : PolicySnapshot; ck_binding : ChangePolicyBinding;
  ck_judged : Items; ck_judged_set : StoredChangeSet;
  ck_evaluations : list PolicyEvaluation; ck_evaluation : PolicyEvaluation; ck_policy_events : list Ev;
  ck_decided : Items; ck_decision_saved : list Ev;
  ck_read : Items; ck_read_set : StoredChangeSet; ck_readings : list Ev;
  ck_claimed : Items; ck_claimed_set : StoredChangeSet; ck_claim_saved : list Ev;
}.

Definition claim_of (id : Uuid) (items : Items) (s : StoredChangeSet) : Items :=
  <[id := with_public (with_execution Executing (scs_public s)) s]> items.

Record checks_pass (id : Uuid) (version : N) (k : checks) : Prop := {
  ckp_bound : ck_bound k !! id = Some (ck_bound_set k) /\
    cs_policy_snapshot (scs_public (ck_bound_set k)) = Some (ck_snapshot k) /\
    scs_policy_binding (ck_bound_set k) = Some (ck_binding k);
  ckp_judged : ck_judged k !! id = Some (ck_judged_set k) /\
    cs_version (scs_public (ck_judged_set k)) = version /\
    cs_recovery_state (scs_public (ck_judged_set k)) = Live /\
    evaluated (context_of (ck_binding k)) (cs_steps (scs_public (ck_judged_set k)))
      (scs_payloads (ck_judged_set k)) (ck_evaluations k) (ck_policy_events k);
  ckp_decision : combine_policy_evaluations (ck_evaluations k) = Ok (ck_evaluation k) /\
    permits_execution (ck_evaluation k) = true;
  ckp_saved : Forall a_save (ck_decision_saved k);
  ckp_read : ck_read k !! id = Some (ck_read_set k) /\
    length (scs_precondition_bindings (ck_read_set k)) = length (scs_payloads (ck_read_set k)) /\
    Forall2 (rechecked (cs_session_id (scs_public (ck_read_set k))))
      (scs_precondition_bindings (ck_read_set k)) (ck_readings k);
  ckp_claimed : ck_claimed k !! id = Some (ck_claimed_set k) /\ ready version (ck_claimed_set k) /\
    ck_claim_saved k =
      if durable then [EvSaved (persisted_records (claim_of id (ck_claimed k) (ck_claimed_set k))) (Ok tt)] else [];
}.

(** The moments of an execution up to its claim. *)
Definition moments_to_claim (k : checks) : list Moment :=
  [Saw (ck_bound k); Did (EvAsked (QMatches (ck_snapshot k)) true); Saw (ck_judged k)]
  ++ map Did (ck_policy_events k) ++ [Saw (ck_decided k)] ++ map Did (ck_decision_saved k)
  ++ [Saw (ck_read k)] ++ map Did (ck_readings k).

Definition moments_of (k : checks) : list Moment :=
  moments_to_claim k ++ [Saw (ck_claimed k)] ++ map Did (ck_claim_saved k).

(** The next step of the claimed change set, those before it having succeeded. *)
Definition next_write (s : StoredChangeSet) (since : list Ev) (r : NativeToolRequest) : Prop :=
  exists passed p, passed ++ [p] `prefix_of` scs_payloads s /\
    own_writes since = map (fun p => (invocation p, true)) passed /\
    r = request_approved (cs_session_id (scs_public s)) (invocation p)
          (execution_authority (scs_public s) false).

Definition warranted (id : Uuid) (version : N) (ms : list Moment) (r : NativeToolRequest) : Prop :=
  exists k rest, ms = moments_of k ++ rest /\ checks_pass id version k /\
    next_write (ck_claimed_set k) (events_of rest) r.

(** A reading without authority: the check of some step, or of a binding it found. *)
Definition may_read (ms : list Moment) (i : NativeToolInvocation) : Prop :=
  read_only i \/
  exists items id s b, Saw items ∈ ms /\ items !! id = Some s /\ b ∈ scs_precondition_bindings s /\
    i = pb_invocation b.

Definition entitled (call : CsCall) (ms : list Moment) (q : CsQuery) : Prop :=
  match q with
  | QExecute r =>
      match nr_authority r with
      | None => may_read ms (nr_invocation r)
      | Some au =>
          if au_rollback au then exists path e x, nr_invocation r = InvFilePatch path e x
          else exists id version, call = CallExecute id version /\ warranted id version ms r
      end
  | _ => True
  end.

(** ** Rules *)
Abbreviation obs call ms p Post := (observes (entitled call) (fun _ _ _ => True) ms p Post) (only parsing).

Lemma ask_obs call ms q (Post : list Moment -> CsAnswer q -> Prop) :
  entitled call ms q -> (forall a, Post (ms ++ [Did (EvAsked q a)]) a) -> obs call ms (ask q) Post.
Proof. by split. Qed.

Lemma obs_reading {X} call ms id refuse (f : StoredChangeSet -> X) Post :
  (forall items s, items !! id = Some s -> refuse s = false -> Post (ms ++ [Saw items]) (f s)) ->
  obs call ms (reading id refuse f) Post.
Proof.
  intros HP items. destruct (items !! id) as [s|] eqn:Hs; [|done]. destruct (refuse s) eqn:Hr; [done|].
  split; [done|]. by apply HP.
Qed.

(** A section that updates a change set and saves. *)
Lemma obs_update {X} call ms id refuse (f : Items -> StoredChangeSet -> held _ (list PersistedChangeSet) X) Post :
  (forall items s, items !! id = Some s -> refuse s = false ->
     match f items s with
     | Leave _ (Ok x) => Post (ms ++ [Saw items]) x
     | Leave _ (Err _) => True
     | Save _ records h => forall saved,
         match snd (h saved) with
         | Ok x => Post (ms ++ [Saw items; Did (EvSaved records saved)]) x
         | Err _ => True
         end
     end) ->
  obs call ms (with_stored id refuse f) Post.
Proof.
  intros HP items. destruct (items !! id) as [s|] eqn:Hs; [|done]. destruct (refuse s) eqn:Hr; [done|].
  specialize (HP items s Hs Hr). destruct (f items s) as [s' r|s' records h].
  - split; [done|]. by destruct r.
  - intros saved. specialize (HP saved). destruct (h saved) as [s2 r]. split; [done|]. by destruct r.
Qed.

Lemma obs_save_then {X} call ms id refuse (g : Items -> StoredChangeSet -> Items) (out : StoredChangeSet -> X) Post :
  (forall items s evs, items !! id = Some s -> refuse s = false -> Forall a_save evs ->
     Post (ms ++ [Saw items] ++ map Did evs) (out s)) ->
  obs call ms (with_stored id refuse (fun items s => save_then durable (g items s) (out s))) Post.
Proof.
  intros HP. apply obs_update. intros items s Hs Hr. unfold save_then, persisting. destruct durable; cbn.
  - intros [[]|e]; [|done]. apply (HP items s [EvSaved _ _]); [done..|]. constructor; [|constructor]. by eexists _, _.
  - apply (HP items s []); [done..|constructor].
Qed.

Lemma obs_replying {A} call ms (f : A -> CsReply) (p : CsProc A) :
  obs call ms p (fun _ _ => True) -> obs call ms (replying f p) (fun _ _ => True).
Proof. intros Hp. apply observes_bind. by eapply observes_mono. Qed.

Lemma obs_any_update {X} call ms id refuse (f : Items -> StoredChangeSet -> held _ (list PersistedChangeSet) X) :
  obs call ms (with_stored id refuse f) (fun _ _ => True).
Proof. apply obs_update. intros items s _ _. destruct (f items s) as [? []|]; [done..|]. intros saved. by case_match. Qed.

(** ** The parts that do not write *)
Lemma entitled_step call ms session_id payload :
  entitled call ms (QExecute (request_new session_id (precondition_invocation payload))).
Proof. left. by exists payload. Qed.

Lemma capture_payloads_obs call ms public index payloads :
  obs call ms (capture_payloads public index payloads) (fun _ _ => True).
Proof.
  revert ms index. induction payloads as [|payload rest IH]; intros ms index; [done|].
  apply observes_bind, ask_obs; [apply entitled_step|]. intros a.
  apply observes_bind, observes_lift. intros result _. apply observes_bind, observes_lift. intros _ _.
  apply observes_bind, observes_lift. intros digest _. apply observes_bind, observes_indexed. intros step _.
  apply observes_bind. eapply observes_mono; [apply IH|done].
Qed.

Lemma capture_obs call ms id version : obs call ms (capture_preconditions durable id version) (fun _ _ => True).
Proof.
  apply observes_bind, obs_reading. intros items s _ _. apply observes_bind.
  eapply observes_mono; [apply capture_payloads_obs|]. intros ms' captured _. apply obs_any_update.
Qed.

Lemma verify_steps_obs call ms session_id payloads index steps :
  obs call ms (verify_steps session_id payloads index steps) (fun _ _ => True).
Proof.
  revert ms index. induction steps as [|step rest IH]; intros ms index; [done|].
  cbn [verify_steps]. case_match; [done|]. apply observes_bind, observes_lift. intros payload _.
  apply observes_bind, ask_obs; [apply entitled_step|]. intros a.
  apply observes_bind, observes_lift. intros result _. case_match; [done|]. apply IH.
Qed.

(** A reversal is made under the rollback authority, and only patches files. *)
Lemma reverse_obs call ms authority public attempted failed completed :
  obs call ms (reverse_patches authority public attempted failed completed) (fun _ _ => True).
Proof.
  revert ms public attempted failed.
  induction completed as [|[index step] rest IH]; intros ms public attempted failed; [done|].
  destruct step as [path expected replacement| | | |]; try by apply IH.
  apply observes_bind, ask_obs; [by eexists _, _, _|]. intros [result|e]; [|apply IH].
  destruct (tr_success result); [|apply IH].
  apply observes_bind, observes_bind, observes_indexed. intros st _. apply IH.
Qed.

Lemma rollback_files_obs call ms public completed authority :
  obs call ms (rollback_files public completed authority) (fun _ _ => True).
Proof.
  apply observes_bind. eapply observes_mono; [apply reverse_obs|]. by intros ms' [[public' attempted] failed] _.
Qed.

Lemma succeeded_obs call ms steps index payloads : obs call ms (succeeded_steps steps index payloads) (fun _ _ => True).
Proof.
  revert ms index. induction payloads as [|payload rest IH]; intros ms index; [done|].
  apply observes_bind, observes_indexed. intros st _. apply observes_bind. eapply observes_mono; [apply IH|done].
Qed.

Lemma rollback_obs call ms id version : obs call ms (changeset_rollback durable id version) (fun _ _ => True).
Proof.
  apply observes_bind, obs_reading. intros items s _ _. apply observes_bind.
  eapply observes_mono; [apply succeeded_obs|]. intros ms1 completed _. apply observes_bind.
  eapply observes_mono; [apply rollback_files_obs|]. intros ms2 public _. apply observes_bind.
  eapply observes_mono; [apply obs_any_update|done].
Qed.

(** ** The policy *)
Lemma evaluate_obs call ms context steps index payloads :
  obs call ms (evaluate_payloads context steps index payloads) (fun ms' evaluations =>
    exists evs, ms' = ms ++ map Did evs /\ evaluated context (drop index steps) payloads evaluations evs).
Proof.
  revert ms index. induction payloads as [|payload rest IH]; intros ms index.
  { exists []. rewrite app_nil_r. split; [done|]. split_and!; [done..|]. by destruct (drop index steps). }
  apply observes_bind, observes_indexed. intros step Hstep.
  apply observes_bind, ask_obs; [done|]. intros answer. apply observes_bind, observes_lift. intros evaluation ->.
  apply observes_bind. eapply observes_mono; [apply IH|]. intros ms' evaluations (evs & -> & H1 & H2 & ->).
  exists (EvAsked (QEvaluate (policy_request context step payload)) (Ok evaluation)
          :: zip_with (fun x e => EvAsked (QEvaluate (policy_request context (fst x) (snd x))) (Ok e))
               (zip (drop (S index) steps) rest) evaluations).
  split; [by rewrite <- app_assoc|]. rewrite (drop_S _ _ _ Hstep). split_and!; [cbn; by f_equal..|done].
Qed.

Lemma check_policy_obs call ms id version context :
  obs call ms (check_policy durable id version context) (fun ms' public =>
    exists items s evaluations evaluation evs items' saved,
      ms' = ms ++ [Saw items] ++ map Did evs ++ [Saw items'] ++ map Did saved /\
      items !! id = Some s /\ cs_version (scs_public s) = version /\ cs_recovery_state (scs_public s) = Live /\
      evaluated context (cs_steps (scs_public s)) (scs_payloads s) evaluations evs /\
      combine_policy_evaluations evaluations = Ok evaluation /\ Forall a_save saved /\
      cs_policy_evaluation public = Some evaluation).
Proof.
  apply observes_bind, obs_reading. intros items s Hs Hr. cbn [fst snd].
  apply orb_false_iff in Hr as [Hr _]. apply orb_false_iff in Hr as [Hv Hl].
  apply negb_false_iff in Hv, Hl. apply N.eqb_eq in Hv. apply bool_decide_eq_true in Hl.
  apply observes_bind. eapply observes_mono; [apply evaluate_obs|]. cbn beta.
  intros ms1 evaluations (evs & -> & Hev). apply observes_bind, observes_lift. intros evaluation He.
  apply (obs_save_then call _ id _ (fun items s => <[id := policy_checked context evaluation s]> items)
           (fun s => scs_public (policy_checked context evaluation s))).
  intros items' s' saved _ _ Hsaved. exists items, s, evaluations, evaluation, evs, items', saved.
  rewrite <- !app_assoc. split_and!; try done. unfold policy_checked. cbn. by case_match.
Qed.

(** ** The preconditions *)
Lemma recheck_obs call ms id version session_id bindings :
  (forall b ms', b ∈ bindings -> ms `prefix_of` ms' -> may_read ms' (pb_invocation b)) ->
  obs call ms (check_preconditions durable id version session_id bindings) (fun ms' _ =>
    exists evs, ms' = ms ++ map Did evs /\ Forall2 (rechecked session_id) bindings evs).
Proof.
  revert ms. induction bindings as [|b rest IH]; intros ms Hb.
  { exists []. rewrite app_nil_r. split; [done|constructor]. }
  apply observes_bind, ask_obs; [by apply Hb; [left|]|]. intros answer.
  apply observes_bind, observes_lift. intros result ->. apply observes_bind.
  assert (Hstop : forall ms' (Post : list Moment -> unit -> Prop), obs call ms'
    (_ ← invalidate_for_precondition_change durable id version; lift (Err InvalidOperation)) Post).
  { intros ms' Post. apply observes_bind. eapply observes_mono; [apply obs_any_update|done]. }
  destruct (tr_success result) eqn:Hok; [|apply Hstop].
  apply observes_bind, observes_lift. intros digest Hd. cbn. case_bool_decide as Heq; [|apply Hstop].
  eapply observes_mono; [apply IH|].
  { intros b' ms' Hb' Hp. apply Hb; [by right|]. by eapply prefix_app_l. }
  intros ms' _ (evs & -> & Hevs).
  exists (EvAsked (QExecute (request_new session_id (pb_invocation b))) (Ok result) :: evs).
  split; [by rewrite <- app_assoc|]. constructor; [|done]. exists result. by subst digest.
Qed.

(** ** The run of a claimed change set *)
Lemma own_writes_saves evs : Forall a_save evs -> own_writes evs = [].
Proof. induction 1 as [|e evs (records & answer & ->) _ IH]; [done|exact IH]. Qed.

Lemma events_of_did evs : events_of (map Did evs : list Moment) = evs.
Proof. induction evs as [|e evs IH]; [done|]. cbn. by f_equal. Qed.

Lemma set_step_obs call ms public index f (Post : list Moment -> ChangeSet -> Prop) :
  (forall public', cs_session_id public' = cs_session_id public -> Post ms public') ->
  obs call ms (set_step public index f) Post.
Proof. intros HP. apply observes_bind, observes_indexed. intros st _. by apply HP. Qed.

Lemma run_payloads_obs id version k public completed index payloads rest passed :
  checks_pass id version k ->
  cs_session_id public = cs_session_id (scs_public (ck_claimed_set k)) ->
  own_writes (events_of rest) = map (fun p => (invocation p, true)) passed ->
  passed ++ payloads = scs_payloads (ck_claimed_set k) ->
  obs (CallExecute id version) (moments_of k ++ rest)
    (run_payloads durable id (execution_authority (scs_public (ck_claimed_set k)) false) public completed index payloads)
    (fun _ _ => True).
Proof.
  intros Hk. revert public completed index rest passed.
  induction payloads as [|payload payloads IH]; intros public completed index rest passed Hs Hrest Hall; [done|].
  apply observes_bind, ask_obs.
  { exists id, version. split; [done|]. exists k, rest. split_and!; [done..|]. exists passed, payload.
    split_and!; [|done|by rewrite Hs]. exists payloads. by rewrite <- Hall, <- app_assoc. }
  intros [result|e].
  - destruct (tr_success result) eqn:Hok.
    + apply observes_bind, set_step_obs. intros public1 Hs1. apply observes_bind.
      apply (obs_save_then _ _ id _ (fun items s => <[id := with_public public1 s]> items) (fun _ => tt)).
      intros items s evs _ _ Hevs. rewrite <- !app_assoc. apply (IH _ _ _ _ (passed ++ [payload])).
      * congruence.
      * rewrite !events_of_app, events_of_did. cbn [events_of did omap list_omap].
        rewrite !own_writes_app, Hrest, (own_writes_saves evs Hevs), map_app. cbn. by rewrite Hok.
      * by rewrite <- app_assoc.
    + apply observes_bind, set_step_obs. intros public1 _. apply rollback_files_obs.
  - apply observes_bind, set_step_obs. intros public1 _. apply observes_bind.
    eapply observes_mono; [apply rollback_files_obs|]. intros ms1 public2 _. apply observes_bind.
    eapply observes_mono; [apply obs_any_update|done].
Qed.

Lemma run_claimed_obs id version k :
  checks_pass id version k ->
  obs (CallExecute id version) (moments_of k)
    (run_claimed durable id (with_execution Executing (scs_public (ck_claimed_set k))) (scs_payloads (ck_claimed_set k)))
    (fun _ _ => True).
Proof.
  intros Hk. apply observes_bind. eapply observes_mono.
  { rewrite <- (app_nil_r (moments_of k)). by apply (run_payloads_obs id version k _ [] 0 _ [] []). }
  intros ms public _. apply observes_bind. eapply observes_mono; [apply obs_any_update|done].
Qed.

Lemma claim_obs call ms id version (Post : list Moment -> ChangeSet * list ChangeStepDraft -> Prop) :
  (forall items s, items !! id = Some s -> ready version s ->
     Post (ms ++ [Saw items] ++ map Did (if durable then [EvSaved (persisted_records (claim_of id items s)) (Ok tt)] else []))
       (with_execution Executing (scs_public s), scs_payloads s)) ->
  obs call ms (claim_execution durable id version) Post.
Proof.
  intros HP. apply obs_update. intros items s Hs Hr. specialize (HP items s Hs (claim_refused_ready _ _ Hr)).
  unfold save_or_restore, persisting. destruct durable; [|exact HP]. intros [[]|e]; [exact HP|done].
Qed.

Lemma change_obs id version :
  obs (CallExecute id version) [] (execute_with_policy durable id version) (fun _ _ => True).
Proof.
  apply observes_bind, obs_reading. intros bound b Hb _.
  destruct (cs_policy_snapshot (scs_public b)) as [snapshot|] eqn:Hsnap; [|done].
  destruct (scs_policy_binding b) as [binding|] eqn:Hbind; [|done].
  apply observes_bind, ask_obs; [done|]. intros [|].
  2: { apply observes_bind. eapply observes_mono; [apply obs_any_update|done]. }
  apply observes_bind. eapply observes_mono; [apply check_policy_obs|]. cbn beta.
  intros ms1 public (judged & j & evaluations & evaluation & evs & decided & saved & -> & Hj & Hv & Hl & Hev & Hcomb & Hsaved & Hpe).
  apply observes_bind, observes_lift. intros [] Hpermits. rewrite Hpe in Hpermits.
  apply reject_if_ok in Hpermits. cbn in Hpermits. apply negb_false_iff in Hpermits.
  apply observes_bind, obs_reading. intros read r Hr Hlen. apply negb_false_iff, Nat.eqb_eq in Hlen.
  apply observes_bind. eapply observes_mono.
  { apply recheck_obs. intros x ms' Hx Hp. right. exists read, id, r, x. split_and!; [|done..].
    eapply elem_of_prefix; [|exact Hp]. apply elem_of_app. right. by left. }
  cbn beta. intros ms2 _ (readings & -> & Hre). apply observes_bind, claim_obs. intros claimed c Hc Hready.
  set (k := {| ck_bound := bound; ck_bound_set := b; ck_snapshot := snapshot; ck_binding := binding;
               ck_judged := judged; ck_judged_set := j; ck_evaluations := evaluations; ck_evaluation := evaluation;
               ck_policy_events := evs; ck_decided := decided; ck_decision_saved := saved;
               ck_read := read; ck_read_set := r; ck_readings := readings; ck_claimed := claimed; ck_claimed_set := c;
               ck_claim_saved := if durable then [EvSaved (persisted_records (claim_of id claimed c)) (Ok tt)] else [] |}).
  assert (Hk : checks_pass id version k) by by split.
  match goal with |- observes _ _ ?ms _ _ => replace ms with (moments_of k) end; [exact (run_claimed_obs id version k Hk)|].
  unfold moments_of, moments_to_claim. cbn -[map app]. by rewrite <- !app_assoc.
Qed.

(** ** Every call *)
Lemma body_entitled call : obs call [] (cs_body durable call) (fun _ _ => True).
Proof.
  destruct call; cbn [cs_body]; apply obs_replying; try apply obs_any_update.
  - unfold changeset_load. destruct durable; [|done]. cbn [negb]. apply observes_bind, ask_obs; [done|]. intros a.
    apply observes_bind, observes_lift. intros records _ items.
    destruct (load_records _ _) as [items' [[]|e]]; cbn; [|done]. by intros [[]|e].
  - apply observes_bind, observes_lift. intros _ _. apply observes_bind. intros items. split; [done|].
    apply observes_bind. intros items1. unfold persisting. destruct durable; [|done].
    intros [[]|e]; (split; [done|]); [done|]. apply observes_bind. intros items2. by split.
  - intros items. by split.
  - apply observes_bind, observes_lift. intros _ _. apply obs_any_update.
  - eapply observes_mono; [apply check_policy_obs|done].
  - apply capture_obs.
  - apply observes_bind. eapply observes_mono; [apply capture_obs|]. intros ms' a _. apply obs_any_update.
  - apply change_obs.
  - apply observes_bind, obs_reading. intros items s _ _. case_match; [done|]. apply verify_steps_obs.
  - apply rollback_obs.
Qed.
End Warrant.
