(* ===== verification/ChangeSetTheorems.v ===== *)
(** * What holds of change sets

    The pool of calls ([pool_ok]) and the theorems on it: a change set is
    executed at most once, by one call, in order, after its checks, each made on
    what the service held then ([checks_made]); no call panics. *)
From S2P Require Import Prelude Str Json Errors RunState Tools Externals Policy Decision Evidence.
From S2P Require Import Process Observe Execution ChangeSets ChangeSetSafety ChangeSetWarrant.

Abbreviation Ev := (event (list PersistedChangeSet) CsQuery CsAnswer) (only parsing).
Abbreviation CsPool :=
  (pool (gmap Uuid StoredChangeSet) (list PersistedChangeSet) CsQuery CsAnswer CsCall CsReply)
  (only parsing).

(** ** The pool *)
Definition call_drafts (call : CsCall) : option Uuid :=
  match call with CallDraft _ id _ => Some id | _ => None end.

(** A drawn identifier was not drawn before. *)
Definition fresh_call (w : CsPool) (call : CsCall) : Prop :=
  forall i c p id, pl_threads w !! i = Some (c, p) -> call_drafts call = Some id ->
    call_drafts c <> Some id.

(** The writes executed for change set [id], with whether each succeeded. *)
Definition write_of (id : Uuid) (x : nat * Ev) : option (nat * NativeToolInvocation * bool) :=
  match snd x with
  | EvSaved _ _ => None
  | EvAsked q a =>
      match q as q0 return CsAnswer q0 -> _ with
      | QExecute r => fun a =>
          match writes_for r with
          | Some au => if (au_change_set_id au =? id)%N
                       then Some (fst x, nr_invocation r, succeeded a) else None
          | None => None
          end
      | _ => fun _ => None
      end a
  end.

Definition writes (id : Uuid) (log : list (nat * Ev)) : list (nat * NativeToolInvocation * bool) :=
  omap (write_of id) log.

Lemma writes_app id l1 l2 : writes id (l1 ++ l2) = writes id l1 ++ writes id l2.
Proof. apply omap_app. Qed.

(** One call runs [all] in order and stops at the first failure. *)
Definition one_run (i : nat) (all : list NativeToolInvocation)
    (ws : list (nat * NativeToolInvocation * bool)) : Prop :=
  exists passed, passed `prefix_of` all /\
    (ws = map (fun x => (i, x, true)) passed \/
     exists last, passed ++ [last] `prefix_of` all /\
       ws = map (fun x => (i, x, true)) passed ++ [(i, last, false)]).

Section Pool.
Context `{Externals} `{ChangeExternals} (durable : bool).

Definition all_safe (ins : gset Uuid) (toks : gmap nat token) (w : CsPool) : Prop :=
  forall i c p, pl_threads w !! i = Some (c, p) -> exists T, toks !! i = Some T /\
    safe T (pl_state w, ins) p (fun _ _ _ => True).

Record drafts_ok (ins : gset Uuid) (toks : gmap nat token) (w : CsPool) : Prop := {
  dok_waiting i id : toks !! i = Some (TDraft id) ->
    id ∉ ins /\ exists c p, pl_threads w !! i = Some (c, p) /\ call_drafts c = Some id;
  dok_drafted id : id ∈ ins ->
    exists i c p, pl_threads w !! i = Some (c, p) /\ call_drafts c = Some id;
  dok_distinct i j c d p q id :
    pl_threads w !! i = Some (c, p) -> pl_threads w !! j = Some (d, q) ->
    call_drafts c = Some id -> call_drafts d = Some id -> i = j;
}.

(** All the writes for a change set are those of the call that claimed it. *)
Record claims_ok (ins : gset Uuid) (toks : gmap nat token) (w : CsPool) : Prop := {
  cok_claim i id : toks !! i = Some (TClaim id) ->
    (exists n, spent (pl_state w, ins) id n) /\ Forall (fun x => fst (fst x) = i) (writes id (pl_log w));
  cok_unique i j id : toks !! i = Some (TClaim id) -> toks !! j = Some (TClaim id) -> i = j;
  cok_unclaimed id : (forall i, toks !! i <> Some (TClaim id)) -> writes id (pl_log w) = [];
  cok_threads i T : toks !! i = Some T -> is_Some (pl_threads w !! i);
}.

Definition pool_ok_at (ins : gset Uuid) (toks : gmap nat token) (w : CsPool) : Prop :=
  well_kept (pl_state w, ins) /\ all_safe ins toks w /\ drafts_ok ins toks w /\ claims_ok ins toks w.

Definition pool_ok (w : CsPool) : Prop := exists ins toks, pool_ok_at ins toks w.

(** *** One step of one call *)
Definition effect (T : token) (w : world) (evs : list Ev) (T' : token) (w' : world) : Prop :=
  (move T w T' w' /\ (evs = [] \/ exists records saved, evs = [EvSaved records saved])) \/
  (w' = w /\ T' = T /\ exists q a, evs = [EvAsked q a] /\ asks T q).

Lemma safe_advance {A} T s ins d (p p' : proc _ _ CsQuery CsAnswer A) ans saved s' d' evs Q :
  safe T (s, ins) p Q ->
  well_kept (s, ins) -> (forall id, T = TDraft id -> id ∉ ins) ->
  advance ans saved s d p = (s', d', p', evs) ->
  exists T' ins', effect T (s, ins) evs T' (s', ins') /\ safe T' (s', ins') p' Q.
Proof.
  intros Hs Hw Hd Ha. destruct p as [r| |X sec k|q k]; cbn in Hs.
  - injection Ha as <- <- <- <-. exists T, ins. split; [|done]. left. split; [by apply move_stay|by left].
  - done.
  - specialize (Hs (s, ins) Hw (PreOrder_Reflexive _) Hd). cbn in Hs, Ha.
    destruct (sec s) as [items r|items records h].
    + injection Ha as <- <- <- <-. destruct Hs as (T' & ins' & Hm & Hk). exists T', ins'.
      split; [left; auto|done].
    + specialize (Hs saved). destruct Hs as (T' & ins' & Hk).
      destruct (h saved) as [items' r]. injection Ha as <- <- <- <-. destruct Hk as [Hm Hk].
      exists T', ins'. split; [left; eauto|done].
  - injection Ha as <- <- <- <-. destruct Hs as [Hq Hk]. exists T, ins.
    split; [right; split_and!; eauto|apply Hk].
Qed.

Lemma effect_facts T w evs T' w' :
  well_kept w -> effect T w evs T' w' ->
  well_kept w' /\ future w w' /\
  (snd w' = snd w \/ exists id, T = TDraft id /\ T' = TNone /\ snd w' = {[id]} ∪ snd w) /\
  (forall id, T' = TDraft id -> T = TDraft id /\ snd w' = snd w).
Proof.
  intros Hw [[(Hw' & Hf & Hm) _]|(-> & -> & _)].
  - split_and!; [done..| |]; clear Hw Hw' Hf; naive_solver.
  - split_and!; [done..|by left|done].
Qed.

(** The writes of one step are the claim's. *)
Lemma effect_writes i T w evs T' w' id :
  effect T w evs T' w' ->
  writes id (map (pair i) evs) = [] \/
  T = TClaim id /\ T' = T /\ exists x b, writes id (map (pair i) evs) = [(i, x, b)].
Proof.
  intros [[_ [->|(r & sv & ->)]]|(-> & -> & q & a & -> & Hq)]; [by left..|].
  destruct q as [r| | |]; [|by left..]. unfold writes. cbn in *.
  destruct (writes_for r) as [au|]; [|by left]. specialize (Hq au eq_refl).
  destruct (au_change_set_id au =? id)%N eqn:E; [|by left]. apply N.eqb_eq in E as <-.
  right. split_and!; [done..|]. eexists _, _. reflexivity.
Qed.

(** A claim is kept, or was just taken of a change set that could start. *)
Lemma effect_claim T w evs T' w' id :
  effect T w evs T' w' -> T' = TClaim id ->
  T = TClaim id \/
  T = TNone /\ (exists s, fst w !! id = Some s /\ can_start s) /\ exists n, spent w' id n.
Proof.
  intros [[(_ & _ & [[-> _]|[(id0 & _ & -> & _)|(id0 & s & -> & -> & Hs & Hst & Hsp & _)]]) _]|(_ & -> & _)] E; [by left|done| |by left].
  injection E as <-. right. eauto 6.
Qed.

Lemma effect_keeps T w evs T' w' id : effect T w evs T' w' -> T = TClaim id -> T' = T.
Proof.
  intros [[(_ & _ & [[-> _]|[(id0 & -> & _)|(id0 & s & -> & _)]]) _]|(_ & -> & _)] E; done.
Qed.

(** *** The invariant *)
Lemma pool_ok_init disk : pool_ok (pool_init ∅ disk).
Proof.
  exists ∅, ∅. split_and!.
  - apply map_Forall_empty.
  - intros i c p Hi. cbn in Hi. by rewrite lookup_empty in Hi.
  - split; cbn; [intros i id Hi|intros id Hid|intros i j c d p q id Hi]; try by rewrite lookup_empty in Hi.
    by apply not_elem_of_empty in Hid.
  - split; [intros i id Hi|intros i j id Hi|done|intros i T Hi]; by rewrite lookup_empty in Hi.
Qed.

Lemma pool_ok_spawn ins toks w i c :
  pool_ok_at ins toks w -> pl_threads w !! i = None -> fresh_call w c ->
  exists toks', pool_ok_at ins toks'
    {| pl_state := pl_state w; pl_disk := pl_disk w;
       pl_threads := <[i := (c, cs_body durable c)]> (pl_threads w); pl_log := pl_log w |}.
Proof.
  intros (Hw & Hs & [D1 D2 D3] & [C1 C2 C3 C4]) Hi Hfresh.
  assert (Hti : toks !! i = None).
  { destruct (toks !! i) as [T|] eqn:E; [|done]. apply C4 in E as [x Hx]. congruence. }
  assert (Hnew : forall id, call_drafts c = Some id -> id ∉ ins).
  { intros id Hid Hin. destruct (D2 id Hin) as (j & d & q & Hj & Hd). by eapply Hfresh. }
  exists (<[i := call_token c]> toks). split_and!; [done| | |].
  - intros j d q Hj. cbn in *. destruct (decide (i = j)) as [<-|Hne].
    + rewrite lookup_insert_eq in Hj. injection Hj as <- <-. exists (call_token c).
      rewrite lookup_insert_eq. split; [done|]. apply body_safe.
    + rewrite lookup_insert_ne in Hj by done. rewrite lookup_insert_ne by done. by apply (Hs j d q).
  - split; cbn.
    + intros j id Hj. destruct (decide (i = j)) as [<-|Hne].
      * rewrite lookup_insert_eq in Hj. injection Hj as Hj. rewrite lookup_insert_eq.
        destruct c; try discriminate Hj. injection Hj as ->. split; [by apply Hnew|eauto].
      * rewrite lookup_insert_ne in Hj by done. rewrite lookup_insert_ne by done. auto.
    + intros id Hin. destruct (D2 id Hin) as (j & d & q & Hj & Hd). exists j, d, q.
      rewrite lookup_insert_ne by congruence. auto.
    + intros j k d e p q id. destruct (decide (i = j)) as [<-|Hj], (decide (i = k)) as [<-|Hk];
        rewrite ?lookup_insert_eq, ?lookup_insert_ne by done; [done| | |by apply D3].
      * intros [= <- <-] Hk' A B. by destruct (Hfresh _ _ _ _ Hk' A).
      * intros Hj' [= <- <-] A B. by destruct (Hfresh _ _ _ _ Hj' B).
  - split; cbn.
    + intros j id. destruct (decide (i = j)) as [<-|Hne].
      * rewrite lookup_insert_eq. intros [= E]. by destruct c.
      * rewrite lookup_insert_ne by done. apply C1.
    + intros j k id. destruct (decide (i = j)) as [<-|Hj], (decide (i = k)) as [<-|Hk];
        rewrite ?lookup_insert_eq, ?lookup_insert_ne by done; [done| | |by apply C2];
        intros ??; by destruct c.
    + intros id Hn. apply C3. intros j Hj. apply (Hn j).
      rewrite lookup_insert_ne; [done|]. intros <-. congruence.
    + intros j T. destruct (decide (i = j)) as [<-|Hne];
        rewrite ?lookup_insert_eq, ?lookup_insert_ne by done; [by eexists|apply C4].
Qed.

Section Advance.
Context (w : CsPool) (i : nat) (c : CsCall) (p p' : CsProc CsReply) (T T' : token).
Context (ins ins' : gset Uuid) (toks : gmap nat token) (s' : gmap Uuid StoredChangeSet).
Context (d' : list PersistedChangeSet) (evs : list Ev).
Hypothesis Hi : pl_threads w !! i = Some (c, p).
Hypothesis HT : toks !! i = Some T.
Hypothesis He : effect T (pl_state w, ins) evs T' (s', ins').
Hypothesis Hw : well_kept (pl_state w, ins).

Let w' : CsPool := {| pl_state := s'; pl_disk := d'; pl_threads := <[i := (c, p')]> (pl_threads w);
                      pl_log := pl_log w ++ map (pair i) evs |}.

Lemma all_safe_advance :
  all_safe ins toks w ->
  safe T' (s', ins') p' (fun _ _ _ => True) ->
  all_safe ins' (<[i := T']> toks) w'.
Proof using Hi HT He Hw.
  intros Hs Hp j d q. unfold w'. cbn [pl_log pl_threads pl_state]. destruct (decide (i = j)) as [<-|Hne].
  - rewrite !lookup_insert_eq. intros [= <- <-]. by exists T'.
  - rewrite !lookup_insert_ne by done. intros Hj. destruct (Hs j d q Hj) as (Tj & Htj & Hsj).
    exists Tj. split; [done|]. destruct (effect_facts _ _ _ _ _ Hw He) as (_ & Hf & _). by eapply safe_future.
Qed.

Lemma drafts_advance : drafts_ok ins toks w -> drafts_ok ins' (<[i := T']> toks) w'.
Proof using Hi HT He Hw.
  intros [D1 D2 D3]. destruct (effect_facts _ _ _ _ _ Hw He) as (_ & _ & Hins & Hd). cbn in *.
  assert (Hthread : forall j d q, pl_threads w !! j = Some (d, q) ->
    exists q', <[i := (c, p')]> (pl_threads w) !! j = Some (d, q')).
  { intros j d q Hj. destruct (decide (i = j)) as [<-|Hne].
    - rewrite lookup_insert_eq. rewrite Hi in Hj. injection Hj as <- <-. eauto.
    - rewrite lookup_insert_ne by done. eauto. }
  assert (Hback : forall j d q, <[i := (c, p')]> (pl_threads w) !! j = Some (d, q) ->
    exists q', pl_threads w !! j = Some (d, q')).
  { intros j d q. destruct (decide (i = j)) as [<-|Hne].
    - rewrite lookup_insert_eq. intros [= <- <-]. eauto.
    - rewrite lookup_insert_ne by done. eauto. }
  split; cbn.
  - intros j id. destruct (decide (i = j)) as [<-|Hne].
    + rewrite lookup_insert_eq. intros [= E]. destruct (Hd id E) as [HTd ->].
      rewrite HTd in HT. destruct (D1 i id HT) as [Hn (d & q & Hq & Hdr)]. split; [done|].
      destruct (Hthread _ _ _ Hq) as [q' Hq']. eauto.
    + rewrite lookup_insert_ne by done. intros Hj. destruct (D1 j id Hj) as [Hn (d & q & Hq & Hdr)].
      split; [|destruct (Hthread _ _ _ Hq) as [q' Hq']; eauto].
      destruct Hins as [->|(id0 & HTd & _ & ->)]; [done|]. rewrite HTd in HT.
      destruct (D1 i id0 HT) as [_ (d0 & q0 & Hq0 & Hdr0)].
      intros [->%elem_of_singleton|Hin]%elem_of_union; [|done]. apply Hne. by eapply D3.
  - intros id Hin. assert (id ∈ ins \/ T = TDraft id) as [Hold|HTd].
    { destruct Hins as [->|(id0 & HTd & _ & ->)]; [by left|].
      apply elem_of_union in Hin as [->%elem_of_singleton|?]; auto. }
    + destruct (D2 id Hold) as (j & d & q & Hq & Hdr). destruct (Hthread _ _ _ Hq) as [q' Hq']. eauto 6.
    + rewrite HTd in HT. destruct (D1 i id HT) as [_ (d & q & Hq & Hdr)].
      destruct (Hthread _ _ _ Hq) as [q' Hq']. eauto 6.
  - intros j k d e q r id Hj Hk. destruct (Hback _ _ _ Hj) as [q' Hq'], (Hback _ _ _ Hk) as [r' Hr'].
    by eapply D3.
Qed.

(** A claimed change set cannot start. *)
Lemma claimed_not_startable id j s :
  claims_ok ins toks w -> toks !! j = Some (TClaim id) -> pl_state w !! id = Some s -> can_start s -> False.
Proof using Type.
  intros [C1 _ _ _] Hj Hs Hst. destruct (C1 _ _ Hj) as [[n [_ Hsp]] _]. by destruct (Hsp s Hs) as [Hn _].
Qed.

Lemma claims_advance : claims_ok ins toks w -> claims_ok ins' (<[i := T']> toks) w'.
Proof using Hi HT He Hw.
  intros HC. pose proof HC as [C1 C2 C3 C4].
  destruct (effect_facts _ _ _ _ _ Hw He) as (_ & Hf & _).
  assert (Hfresh : forall j id, T = TNone -> T' = TClaim id -> toks !! j = Some (TClaim id) -> False).
  { intros j id -> E Hj. destruct (effect_claim _ _ _ _ _ _ He E) as [?|(_ & (s & Hs & Hst) & _)]; [done|].
    by eapply claimed_not_startable. }
  unfold w'. split; cbn [pl_log pl_threads pl_state].
  - intros j id. rewrite writes_app. destruct (decide (i = j)) as [<-|Hne].
    + rewrite lookup_insert_eq. intros [= E].
      destruct (effect_claim _ _ _ _ _ _ He E) as [HTc|(HTn & _ & n & Hsp)].
      * rewrite HTc in HT. destruct (C1 _ _ HT) as [[n Hsp] Hall]. split; [exists n; by eapply spent_future|].
        apply Forall_app. split; [done|]. destruct (effect_writes i _ _ _ _ _ id He) as [->|(_ & _ & x & b & ->)]; by constructor.
      * split; [by exists n|]. rewrite C3 by (intros k Hk; by eapply Hfresh).
        destruct (effect_writes i _ _ _ _ _ id He) as [->|(HTc & _)]; [constructor|congruence].
    + rewrite lookup_insert_ne by done. intros Hj. destruct (C1 _ _ Hj) as [[n Hsp] Hall].
      split; [exists n; by eapply spent_future|]. apply Forall_app. split; [done|].
      destruct (effect_writes i _ _ _ _ _ id He) as [->|(HTx & _)]; [constructor|].
      rewrite HTx in HT. destruct Hne. by eapply C2.
  - intros j k id.
    assert (Hone : forall k, i <> k -> T' = TClaim id -> toks !! k = Some (TClaim id) -> False).
    { intros k' Hne E Hk. destruct (effect_claim _ _ _ _ _ _ He E) as [HTc|(HTn & _)]; [|by eapply Hfresh].
      rewrite HTc in HT. apply Hne. by eapply C2. }
    destruct (decide (i = j)) as [<-|Hj], (decide (i = k)) as [<-|Hk];
      rewrite ?lookup_insert_eq, ?lookup_insert_ne by done; [done| | |by apply C2].
    + intros [= E] Hk'. by destruct (Hone k).
    + intros Hj' [= E]. by destruct (Hone j).
  - intros id Hn. rewrite writes_app.
    assert (Hold : T <> TClaim id).
    { intros HTc. apply (Hn i). by rewrite lookup_insert_eq, (effect_keeps _ _ _ _ _ _ He HTc), HTc. }
    rewrite C3.
    + by destruct (effect_writes i _ _ _ _ _ id He) as [->|(HTx & _)].
    + intros j Hj. destruct (decide (i = j)) as [<-|Hne]; [congruence|].
      apply (Hn j). by rewrite lookup_insert_ne.
  - intros j U. destruct (decide (i = j)) as [<-|Hne].
    + rewrite !lookup_insert_eq. eauto.
    + rewrite !lookup_insert_ne by done. apply C4.
Qed.
End Advance.

Lemma pool_ok_step ins toks w w' :
  pool_ok_at ins toks w -> pool_step (cs_body durable) fresh_call w w' ->
  exists ins' toks', pool_ok_at ins' toks' w' /\ future (pl_state w, ins) (pl_state w', ins').
Proof.
  intros Hok Hstep. destruct Hstep as [w i c Hi Hc|w i c p ans saved s' d' p' evs Hi Ha].
  { destruct (pool_ok_spawn ins toks w i c Hok Hi Hc) as [toks' Hok']. by exists ins, toks'. }
  destruct Hok as (Hw & Hs & HD & HC).
  destruct (Hs i c p Hi) as (T & HT & Hp).
  destruct (safe_advance T _ ins (pl_disk w) p p' ans saved s' d' evs _ Hp Hw) as (T' & ins' & He & Hp'); [|done|].
  { intros id ->. by destruct (dok_waiting _ _ _ HD i id HT). }
  exists ins', (<[i := T']> toks).
  destruct (effect_facts _ _ _ _ _ Hw He) as (Hw' & Hf & _). split; [|done]. split_and!.
  - done.
  - by eapply all_safe_advance.
  - by eapply drafts_advance.
  - by eapply claims_advance.
Qed.

Lemma pool_ok_later ins toks w w' :
  pool_ok_at ins toks w -> rtc (pool_step (cs_body durable) fresh_call) w w' ->
  exists ins' toks', pool_ok_at ins' toks' w' /\ future (pl_state w, ins) (pl_state w', ins').
Proof.
  intros Hok Hr. revert ins toks Hok. induction Hr as [w|w1 w2 w3 Hstep _ IH]; intros ins toks Hok; [by exists ins, toks|].
  destruct (pool_ok_step ins toks w1 w2 Hok Hstep) as (ins2 & toks2 & Hok2 & Hf2).
  destruct (IH ins2 toks2 Hok2) as (ins3 & toks3 & Hok3 & Hf3). exists ins3, toks3. split; [done|by etransitivity].
Qed.

Lemma pool_ok_reachable disk w :
  rtc (pool_step (cs_body durable) fresh_call) (pool_init ∅ disk) w -> pool_ok w.
Proof.
  intros Hr. destruct (pool_ok_init disk) as (ins & toks & Hok).
  destruct (pool_ok_later ins toks _ w Hok Hr) as (ins' & toks' & Hok' & _). by exists ins', toks'.
Qed.
End Pool.

(** ** Execution *)
Section Theorems.
Context `{Externals} `{ChangeExternals} (durable : bool) (disk : list PersistedChangeSet).

(** A state that some interleaving of calls reaches from an empty service. *)
Definition cs_reachable (w : CsPool) : Prop :=
  rtc (pool_step (cs_body durable) fresh_call) (pool_init ∅ disk) w.

Lemma claimant_dec id (toks : gmap nat token) :
  (exists i, toks !! i = Some (TClaim id)) \/ (forall i, toks !! i <> Some (TClaim id)).
Proof.
  destruct (decide (map_Exists (fun _ T => T = TClaim id) toks)) as [(i & T & Hi & ->)|Hd]; [eauto|].
  right. intros i Hi. apply Hd. by exists i, (TClaim id).
Qed.

(** *** The warrant of a write, in the run *)
Abbreviation cs_later := (later (cs_body durable) fresh_call) (only parsing).
Abbreviation cs_since := (since (cs_body durable) fresh_call) (only parsing).
Abbreviation cs_lived := (lived (cs_body durable) fresh_call ∅ disk) (only parsing).

(** The checks [k] were made by call [i] on the way to [w1], each on the change sets the
    service held at that point: it began at [wb], and after its claim at [wc] it did
    [evs] up to [w1]. *)
Definition checks_made (i : nat) (k : checks) (wb wj wr wc : CsPool) (evs : list Ev) (w1 : CsPool) : Prop :=
  cs_reachable wb /\ thread_log i (pl_log wb) = [] /\ pl_state wb = ck_bound k /\
  cs_since i wb [EvAsked (QMatches (ck_snapshot k)) true] wj /\ pl_state wj = ck_judged k /\
  cs_since i wj (ck_policy_events k ++ ck_decision_saved k) wr /\ pl_state wr = ck_read k /\
  cs_since i wr (ck_readings k) wc /\ pl_state wc = ck_claimed k /\
  cs_since i wc (ck_claim_saved k ++ evs) w1.

Lemma lived_checks i k rest w1 :
  cs_lived i (moments_of k ++ rest) w1 -> exists wb wj wr wc, checks_made i k wb wj wr wc (events_of rest) w1.
Proof.
  intros Hl. unfold moments_of in Hl. rewrite <- app_assoc in Hl. cbn [app] in Hl.
  apply lived_split in Hl as (wc & Hlc & Hsc & Hc).
  unfold moments_to_claim in Hlc. rewrite !app_assoc, <- (app_assoc _ [Saw (ck_read k)]) in Hlc.
  apply lived_split in Hlc as (wr & Hlr & Hsr & Hr). rewrite <- !app_assoc in Hlr.
  apply (lived_split _ _ _ _ _ [_; _]) in Hlr as (wj & Hlj & Hsj & Hj).
  apply (lived_split _ _ _ _ _ []) in Hlj as (wb & Hlb & Hsb & Hb).
  exists wb, wj, wr, wc. unfold checks_made.
  rewrite !events_of_app, !events_of_did in Hj. rewrite events_of_app, events_of_did in Hc.
  rewrite events_of_did in Hr. cbn [events_of omap list_omap did app] in Hb, Hj. split_and!; try done.
  - by eapply lived_reached.
  - by rewrite (lived_log _ _ _ _ _ _ _ Hlb).
Qed.

Lemma made_log i k wb wj wr wc evs w1 :
  checks_made i k wb wj wr wc evs w1 -> thread_log i (pl_log wc) = events_of (moments_to_claim k).
Proof.
  intros (_ & Hb & _ & [_ Hj] & _ & [_ Hr] & _ & [_ Hc] & _). rewrite Hc, Hr, Hj, Hb.
  unfold moments_to_claim. rewrite !events_of_app, !events_of_did. cbn. by rewrite <- !app_assoc.
Qed.

(** *** The same steps at each check *)
Definition same_payloads (version : N) (k : checks) : Prop :=
  (version < U64_MAX)%N ->
  scs_payloads (ck_judged_set k) = scs_payloads (ck_claimed_set k) /\
  scs_payloads (ck_read_set k) = scs_payloads (ck_claimed_set k) /\
  Forall2 captured_for (scs_precondition_bindings (ck_read_set k)) (scs_payloads (ck_claimed_set k)).

Lemma checks_same_payloads i id version k wb wj wr wc evs w1 :
  checks_pass durable id version k -> checks_made i k wb wj wr wc evs w1 ->
  cs_id (scs_public (ck_claimed_set k)) = id /\ same_payloads version k.
Proof.
  intros [_ (Hj & Hv & Hlive & _) _ _ (Hr & Hlen & _) (Hc & Hready & _)] (Hb & _ & _ & [Hbj _] & Hsj & [Hjr _] & Hsr & [Hrc _] & Hsc & _).
  destruct (pool_ok_reachable durable disk wj) as (insj & tj & Hokj); [by etransitivity|].
  destruct (pool_ok_later durable insj tj wj wr Hokj Hjr) as (insr & tr & Hokr & Hfr).
  destruct (pool_ok_later durable insr tr wr wc Hokr Hrc) as (insc & tc & Hokc & Hfc).
  rewrite <- Hsj in Hj. rewrite <- Hsr in Hr. rewrite <- Hsc in Hc.
  pose proof (ready_can_start _ _ Hready) as Hstc. destruct Hready as [Hvc _ _ _ _ _].
  assert (Hin : id ∈ insj) by (by apply (proj1 Hokj id _ Hj)).
  assert (Hstr : can_start (ck_read_set k)).
  { eapply (can_start_before (pl_state wr, insr)); [by apply Hfr|exact Hfc|exact Hr|exact Hc|done]. }
  assert (Hstj : can_start (ck_judged_set k)).
  { eapply (can_start_before (pl_state wj, insj)); [exact Hin|exact Hfr|exact Hj|exact Hr|done]. }
  pose proof (later_version _ _ _ _ _ (proj1 Hokj) Hfr Hj Hstj Hr Hstr) as Hle1.
  pose proof (later_version _ _ _ _ _ (proj1 Hokr) Hfc Hr Hstr Hc Hstc) as Hle2.
  split; [by apply (proj1 Hokc id _ Hc)|]. unfold revision in *. intros Hmax.
  assert (H1 : scs_payloads (ck_read_set k) = scs_payloads (ck_judged_set k)).
  { eapply (same_steps (pl_state wj, insj)); [apply Hokj|exact Hfr|exact Hj|done|exact Hr|done|..]; unfold revision; lia. }
  assert (H2 : scs_payloads (ck_claimed_set k) = scs_payloads (ck_read_set k)).
  { eapply (same_steps (pl_state wr, insr)); [apply Hokr|exact Hfc|exact Hr|done|exact Hc|done|..]; unfold revision; lia. }
  split_and!; [congruence|done|]. rewrite H2.
  destruct (entry_startable _ _ _ (proj1 Hokr id _ Hr) Hstr) as [_ Hcap].
  destruct Hcap as [Hnil|Hcap]; [unfold revision; lia| |done].
  rewrite Hnil in Hlen |- *. by destruct (scs_payloads (ck_read_set k)).
Qed.

(** Every write of the log has its warrant. *)
Lemma write_warranted w l1 i r a l2 au :
  cs_reachable w -> pl_log w = l1 ++ (i, EvAsked (QExecute r) a) :: l2 -> writes_for r = Some au ->
  exists version p w1 k wb wj wr wc rest,
    pl_threads w !! i = Some (CallExecute (au_change_set_id au) version, p) /\
    cs_later w1 w /\ pl_log w1 = l1 /\ cs_lived i (moments_of k ++ rest) w1 /\
    checks_pass durable (au_change_set_id au) version k /\ same_payloads version k /\
    checks_made i k wb wj wr wc (events_of rest) w1 /\ next_write (ck_claimed_set k) (events_of rest) r.
Proof.
  intros Hr Hlog Hau.
  destruct (pool_observes (cs_body durable) fresh_call ∅ disk (entitled durable) (fun _ _ _ _ => True) (fun _ _ _ => True)
              (body_entitled durable) w l1 i _ a l2 Hr Hlog) as (w1 & c & p & ms & Hlater & Hl1 & Hi & Hlived & He).
  unfold writes_for in Hau. cbn in He. destruct (nr_authority r) as [au'|] eqn:Ha; [|done].
  destruct (au_rollback au'); [done|]. injection Hau as ->. destruct He as (id & version & -> & k & rest & -> & Hk & Hn).
  destruct (lived_checks _ _ _ _ Hlived) as (wb & wj & wr & wc & Hmade).
  destruct (checks_same_payloads _ _ _ _ _ _ _ _ _ _ Hk Hmade) as [Hid Hsame].
  assert (Hauid : au_change_set_id au = id).
  { destruct Hn as (passed & q & _ & _ & ->). cbn in Ha. injection Ha as <-. exact Hid. }
  destruct (later_call _ _ _ _ _ _ _ Hlater Hi) as [p' Hp']. rewrite Hauid.
  exists version, p', w1, k, wb, wj, wr, wc, rest. by split_and!.
Qed.

(** *** Own writes and the writes for one change set *)
Lemma checks_write_nothing id version k : checks_pass durable id version k -> own_writes (events_of (moments_of k)) = [].
Proof.
  intros [_ (_ & _ & _ & _ & _ & Hev) _ Hsaved (_ & _ & Hre) (_ & _ & Hcl)].
  unfold moments_of, moments_to_claim. rewrite !events_of_app, !events_of_did, !own_writes_app. cbn [events_of omap list_omap did own_writes write_in app].
  rewrite (own_writes_saves _ Hsaved), Hev, Hcl.
  assert (Hre0 : own_writes (ck_readings k) = []).
  { clear -Hre. induction Hre as [|b e bs es (result & -> & _) _ IH]; [done|exact IH]. }
  assert (Hev0 : forall (f : ChangeStep * ChangeStepDraft -> PolicyEvaluationRequest) l es,
    own_writes (zip_with (fun x e => EvAsked (QEvaluate (f x)) (Ok e)) l es) = []).
  { intros f. induction l as [|x l IH]; intros [|e es]; [done..|]. cbn. apply IH. }
  rewrite Hre0, (Hev0 (fun x => policy_request _ (fst x) (snd x))). by destruct durable.
Qed.

Lemma last_write id log :
  writes id log <> [] ->
  exists l1 i r a l2 au, log = l1 ++ (i, EvAsked (QExecute r) a) :: l2 /\ writes_for r = Some au /\
    au_change_set_id au = id /\ writes id log = writes id l1 ++ [(i, nr_invocation r, succeeded a)].
Proof.
  induction log as [|[i e] log IH] using rev_ind; [done|]. rewrite writes_app. intros Hne.
  assert (Hcase : write_of id (i, e) = None \/ exists x, write_of id (i, e) = Some x) by (destruct (write_of id (i, e)); eauto).
  destruct Hcase as [Hno|[x Hx]]; unfold writes in Hne |- * at 2; cbn [omap list_omap] in Hne |- *.
  - rewrite Hno in Hne |- *. rewrite app_nil_r in Hne |- *.
    destruct (IH Hne) as (l1 & j & r & a & l2 & au & -> & Hau & Hid & Hw). exists l1, j, r, a, (l2 ++ [(i, e)]), au.
    rewrite <- app_assoc. by split_and!.
  - rewrite Hx. unfold write_of in Hx. cbn in Hx. destruct e as [|q a]; [done|]. destruct q as [r| | |]; try done.
    destruct (writes_for r) as [au|] eqn:Hau; [|done]. destruct (au_change_set_id au =? id)%N eqn:Hid; [|done].
    injection Hx as <-. apply N.eqb_eq in Hid. by exists log, i, r, a, [], au.
Qed.

(** The writes for [id] in a log whose writes are call [i]'s and for [id], or neither. *)
Definition written_by (id : Uuid) (i : nat) (log : list (nat * Ev)) : Prop :=
  forall l1 j r a l2 au, log = l1 ++ (j, EvAsked (QExecute r) a) :: l2 -> writes_for r = Some au ->
    (au_change_set_id au = id <-> j = i).

Lemma written_by_prefix id i log log' : log `prefix_of` log' -> written_by id i log' -> written_by id i log.
Proof.
  intros [rest ->] Hw l1 j r a l2 au ->. apply (Hw l1 j r a (l2 ++ rest)). by rewrite <- app_assoc.
Qed.

Lemma writes_own id i log :
  written_by id i log -> writes id log = map (fun x => (i, fst x, snd x)) (own_writes (thread_log i log)).
Proof.
  induction log as [|[j e] log IH] using rev_ind; [done|]. intros Hall.
  rewrite writes_app, thread_log_app, own_writes_app, map_app, IH.
  2: { eapply written_by_prefix; [|exact Hall]. by eexists. }
  f_equal. unfold writes, write_of. cbn [omap list_omap fst snd].
  assert (Hown : thread_log i [(j, e)] = if decide (j = i) then [e] else []).
  { unfold thread_log. destruct (decide (j = i)); [by rewrite filter_cons_True|by rewrite filter_cons_False]. }
  rewrite Hown. destruct e as [|q a]; [by case_decide|]. destruct q as [r| | |]; try by case_decide.
  specialize (Hall log j r a []). destruct (writes_for r) as [au|] eqn:Hau.
  - specialize (Hall au eq_refl eq_refl). case_decide as Hj.
    + cbn. rewrite Hau. cbn. rewrite (proj2 Hall Hj), N.eqb_refl. by subst.
    + destruct (au_change_set_id au =? id)%N eqn:E; [|done]. apply N.eqb_eq in E. tauto.
  - case_decide; [|done]. cbn. by rewrite Hau.
Qed.

Lemma writer_of id i v p w :
  cs_reachable w -> Forall (fun x => fst (fst x) = i) (writes id (pl_log w)) ->
  pl_threads w !! i = Some (CallExecute id v, p) -> written_by id i (pl_log w).
Proof.
  intros Hr Hall Hi l1 j r a l2 au Hlog Hau. split.
  - intros <-. rewrite Hlog in Hall. unfold writes in Hall. rewrite omap_app in Hall.
    apply Forall_app in Hall as [_ Hall]. cbn in Hall. rewrite Hau, N.eqb_refl in Hall. by inversion Hall.
  - intros ->. destruct (write_warranted w l1 i r a l2 au Hr Hlog Hau) as (v' & p' & ? & ? & ? & ? & ? & ? & ? & Hi' & _).
    rewrite Hi in Hi'. by injection Hi'.
Qed.

Lemma next_write_run i s since r (a : AppResult ToolResult) :
  next_write s since r ->
  one_run i (map invocation (scs_payloads s))
    (map (fun x => (i, fst x, snd x)) (own_writes since) ++ [(i, nr_invocation r, succeeded a)]).
Proof.
  intros (passed & q & [rest Hall] & -> & ->). rewrite map_map. cbn.
  destruct (succeeded a).
  - exists (map invocation (passed ++ [q])). split; [exists (map invocation rest); by rewrite Hall, !map_app|]. left.
    by rewrite !map_app, !map_map.
  - exists (map invocation passed). split.
    + exists (map invocation (q :: rest)). by rewrite Hall, <- app_assoc, map_app.
    + right. exists (invocation q). split; [exists (map invocation rest); by rewrite Hall, !map_app|]. by rewrite map_map.
Qed.

(** C5. However the calls of the service interleave, and whatever tools, policy
    and disk answer, the writes ever executed for one change set all come from
    one call, an execution of that change set at a version.  On the way there was a
    state of the service, before any write for the change set, where the change
    set is approved at that version, live and not started; the writes are the steps
    it has there, in order, from the first, each after the one before it succeeded. *)
Theorem change_set_executes_once w id :
  cs_reachable w ->
  writes id (pl_log w) = [] \/
  exists i version p wc s,
    pl_threads w !! i = Some (CallExecute id version, p) /\
    cs_reachable wc /\ cs_later wc w /\ writes id (pl_log wc) = [] /\
    pl_state wc !! id = Some s /\ ready version s /\
    one_run i (map invocation (scs_payloads s)) (writes id (pl_log w)).
Proof.
  intros Hr. destruct (decide (writes id (pl_log w) = [])) as [|Hne]; [by left|right].
  destruct (last_write _ _ Hne) as (l1 & i & r & a & l2 & au & Hlog & Hau & Hid & Hlast).
  destruct (write_warranted w l1 i r a l2 au Hr Hlog Hau)
    as (version & p & w1 & k & wb & wj & wr & wc & rest & Hi & Hw1 & Hl1 & Hlived & Hk & _ & Hmade & Hnext).
  rewrite Hid in *. pose proof (made_log _ _ _ _ _ _ _ _ Hmade) as Hlc.
  destruct Hmade as (Hrb & _ & _ & [Hbj _] & _ & [Hjr _] & _ & [Hrc _] & Hsc & [Hc1 _]).
  assert (Hall : Forall (fun x => fst (fst x) = i) (writes id (pl_log w))).
  { destruct (pool_ok_reachable _ _ _ Hr) as (ins & toks & _ & _ & _ & [C1 _ C3 _]).
    destruct (claimant_dec id toks) as [[j Hj]|Hn]; [|by rewrite (C3 id Hn) in Hne].
    destruct (C1 _ _ Hj) as [_ Hall]. rewrite Hlast in Hall. apply Forall_app in Hall as [Hall1 Hall2].
    assert (i = j) as -> by (by inversion Hall2). rewrite Hlast. by apply Forall_app. }
  pose proof (writer_of id i version p w Hr Hall Hi) as Hby.
  assert (Hpre : forall w', cs_later w' w1 -> pl_log w' `prefix_of` pl_log w).
  { intros w' Hw'. etransitivity; eapply later_log; [exact Hw'|exact Hw1]. }
  pose proof (lived_log _ _ _ _ _ _ _ Hlived) as Hown. rewrite Hl1, events_of_app in Hown.
  assert (Hwc : cs_reachable wc) by (unfold later, cs_reachable in *; etransitivity; [exact Hrb|]; do 2 (etransitivity; [done|]); done).
  exists i, version, p, wc, (ck_claimed_set k). destruct (ckp_claimed _ _ _ _ Hk) as (Hs & Hready & _). split_and!; try done.
  - unfold later in *. by etransitivity.
  - rewrite (writes_own id i) by (eapply written_by_prefix; [by apply Hpre|done]).
    pose proof (checks_write_nothing _ _ _ Hk) as Hnil. unfold moments_of in Hnil.
    rewrite events_of_app, own_writes_app in Hnil. apply app_eq_nil in Hnil as [Hnil _]. by rewrite Hlc, Hnil.
  - by rewrite Hsc.
  - rewrite Hlast, (writes_own id i); [|eapply written_by_prefix; [|done]; rewrite Hlog; by eexists].
    rewrite Hown, own_writes_app, (checks_write_nothing _ _ _ Hk). by apply next_write_run.
Qed.

Lemma reading_reads_only w1 i ms x : cs_lived i ms w1 -> may_read ms x -> read_only x.
Proof.
  intros Hl [|(items & id & s & b & Hin & Hs & Hb & ->)]; [done|].
  apply list_elem_of_split in Hin as (m1 & m2 & ->). apply lived_split in Hl as (w0 & Hl0 & <- & _).
  destruct (pool_ok_reachable durable disk w0) as (ins & toks & Hw & _); [by eapply lived_reached|].
  pose proof (entry_bindings _ _ _ (Hw id s Hs)) as Hall. rewrite Forall_forall in Hall. by apply Hall.
Qed.

(** C6. Every write is the next step of the change set that its call claimed, made
    with the session, the authority and the version of the claim, and the call made its
    checks before, each on the change sets the service held at that point: the policy
    is still the one of the snapshot that the change set had ([wb]); every step it had at
    that version ([wj]) was evaluated in the context it was bound to, with a combined
    decision that permits execution; every precondition captured for it ([wr]), one per
    step, was read again and gave the captured digest; and it was approved at that
    version, live and not started at the claim ([wc]), which was saved when there is a
    repository.  Unless the version counter is exhausted, the steps are the same at all
    three points and the preconditions are those of the steps.  A request without the
    authority of a change set only reads; one under a rollback authority only patches a
    file. *)
Theorem change_set_writes_authorized w l1 i r a l2 :
  cs_reachable w ->
  pl_log w = l1 ++ (i, EvAsked (QExecute r) a) :: l2 ->
  match nr_authority r with
  | None => read_only (nr_invocation r)
  | Some au =>
      if au_rollback au then exists path e x, nr_invocation r = InvFilePatch path e x
      else exists version p k wb wj wr wc evs w1,
        pl_threads w !! i = Some (CallExecute (au_change_set_id au) version, p) /\
        cs_later w1 w /\ pl_log w1 = l1 /\ checks_made i k wb wj wr wc evs w1 /\
        checks_pass durable (au_change_set_id au) version k /\ same_payloads version k /\
        next_write (ck_claimed_set k) evs r
  end.
Proof.
  intros Hr Hlog. destruct (nr_authority r) as [au|] eqn:Ha; [destruct (au_rollback au) eqn:Hrb|].
  - destruct (pool_observes (cs_body durable) fresh_call ∅ disk (entitled durable) (fun _ _ _ _ => True) (fun _ _ _ => True)
                (body_entitled durable) w l1 i _ a l2 Hr Hlog) as (w1 & c & p & ms & _ & _ & _ & _ & He).
    cbn in He. by rewrite Ha, Hrb in He.
  - destruct (write_warranted w l1 i r a l2 au Hr Hlog) as (version & p & w1 & k & wb & wj & wr & wc & rest & Hi & Hw1 & Hl1 & _ & H').
    { unfold writes_for. by rewrite Ha, Hrb. }
    exists version, p, k, wb, wj, wr, wc, (events_of rest), w1. naive_solver.
  - destruct (pool_observes (cs_body durable) fresh_call ∅ disk (entitled durable) (fun _ _ _ _ => True) (fun _ _ _ => True)
                (body_entitled durable) w l1 i _ a l2 Hr Hlog) as (w1 & c & p & ms & _ & _ & _ & Hl & He).
    cbn in He. rewrite Ha in He. by eapply reading_reads_only.
Qed.

(** No call of the service panics: the indexing of a change set's steps by
    the positions of its payloads is in range in every interleaving, with
    loading and failed saves in between. *)
Theorem change_set_service_never_panics w i c :
  cs_reachable w -> pl_threads w !! i <> Some (c, Panicked).
Proof.
  intros Hr Hi. destruct (pool_ok_reachable _ _ _ Hr) as (ins & toks & _ & Hs & _).
  by destruct (Hs i c Panicked Hi) as (T & _ & Hp).
Qed.
End Theorems.

(** ** A concrete run *)
#[local] Instance sample_change_externals : ChangeExternals := {
  serialize_result name success _ code := Ok (tool_as_str name ++ [if success then 1%N else 0%N] ++ default [] code);
  sha256_of_bytes := fun bytes => bytes;
}.
#[local] Existing Instance quoting_externals.

#[local] Instance fresh_call_dec w call : Decision (fresh_call w call).
Proof.
  destruct (call_drafts call) as [id|] eqn:E.
  - destruct (decide (map_Forall (fun _ x => call_drafts (fst x) <> Some id) (pl_threads w))) as [Hd|Hd].
    + left. intros i c p id' Hi Hid. rewrite E in Hid. injection Hid as <-. exact (Hd i (c, p) Hi).
    + right. intros Hf. apply Hd. intros i [c p] Hi. exact (Hf i c p id Hi E).
  - left. intros i c p id _ Hid. congruence.
Defined.

Definition sample_result (name : NativeToolName) (success : bool) : ToolResult :=
  {| tr_invocation_id := 0; tr_tool_name := name; tr_success := success; tr_summary := []; tr_data := None;
     tr_error_code := None; tr_warnings := []; tr_started_at_epoch_ms := 1; tr_duration_ms := 1;
     tr_truncated := false; tr_cancelled := false; tr_untrusted_remote_data := true |}.

Definition sample_policy : PolicySet := seal (fun _ => []) default_policy.

(** Tools that succeed unless [fails] says otherwise, and the built-in policy. *)
Definition sample_answers (fails : NativeToolInvocation -> bool) (q : CsQuery) : CsAnswer q :=
  match q with
  | QExecute r => Ok (sample_result (invocation_name (nr_invocation r)) (negb (fails (nr_invocation r))))
  | QEvaluate r => Ok (evaluate sample_policy r)
  | QMatches _ => true
  | QLoad => Ok []
  end.

Definition turn (fails : NativeToolInvocation -> bool) (saved : AppResult unit) (i : nat) :
    act CsQuery CsAnswer CsCall := ActTurn i (sample_answers fails) saved.

(** A call made and run to its end, the saves succeeding. *)
Definition sample_call (fails : NativeToolInvocation -> bool) (i : nat) (call : CsCall) :
    list (act CsQuery CsAnswer CsCall) :=
  ActCall i call :: repeat (turn fails (Ok tt) i) 24.

Definition played (l : list (act CsQuery CsAnswer CsCall)) : CsPool :=
  foldl (play (cs_body true) fresh_call) (pool_init ∅ []) l.

Lemma played_reachable l : cs_reachable true [] (played l).
Proof. apply plays_steps. Qed.

Definition no_failure : NativeToolInvocation -> bool := fun _ => false.
Definition sample_request (steps : list ChangeStepDraft) : ChangeSetDraftRequest :=
  {| dr_agent_run_id := 3; dr_session_id := 4; dr_title := lit "repair"; dr_steps := steps |}.
Definition sample_context : PolicyCheckContext :=
  {| pcc_target := {| pt_server_id := 4; pt_group_id := None; pt_environment := None |};
     pcc_target_count := 1; pcc_execution_strategy := Sequential; pcc_source := SourceAgentRuntime |}.

(** A change set [7] drafted, checked, approved on its preconditions. *)
Definition prepared (steps : list ChangeStepDraft) : list (act CsQuery CsAnswer CsCall) :=
  sample_call no_failure 0 (CallDraft (sample_request steps) 7 (fun i => 100 + N.of_nat i)%N)
  ++ sample_call no_failure 1 (CallCheckPolicy 7 1 sample_context)
  ++ sample_call no_failure 2 (CallApproveWith 7 1).

Definition patch_then_reload : list ChangeStepDraft :=
  [DraftFilePatch (lit "/a") (lit "x") (lit "y"); DraftNginxReload].

(** What the change set holds, in short. *)
Definition stage (w : CsPool) : option (ApprovalState * ExecutionState * list ChangeStepState) :=
  (fun s => (cs_approval_state (scs_public s), cs_execution_state (scs_public s),
             map cst_state (cs_steps (scs_public s)))) <$> pl_state w !! 7%N.

Definition executed (steps : list ChangeStepDraft) : CsPool :=
  played (prepared steps ++ sample_call no_failure 3 (CallExecute 7 1)
          ++ sample_call no_failure 4 (CallExecute 7 1)).

Lemma change_set_executes_once_witness :
  writes 7 (pl_log (executed patch_then_reload))
  = [(3, InvFilePatch (lit "/a") (lit "x") (lit "y"), true); (3, InvNginxReload, true)] /\
  exists i version (wc : CsPool) s,
    writes 7 (pl_log wc) = [] /\ pl_state wc !! 7%N = Some s /\ ready version s /\
    one_run i (map invocation (scs_payloads s)) (writes 7 (pl_log (executed patch_then_reload))).
Proof.
  split; [by vm_compute|].
  destruct (change_set_executes_once true [] (executed patch_then_reload) 7
              (played_reachable _)) as [Hn|(i & version & p & wc & s & _ & _ & _ & H')].
  - exfalso. by vm_compute in Hn.
  - by exists i, version, wc, s.
Defined.

(** The log of the run, split at the first write. *)
Definition before_write : list (nat * Ev) :=
  take 15 (pl_log (executed patch_then_reload)).
Definition write_request : NativeToolRequest :=
  request_approved 4 (InvFilePatch (lit "/a") (lit "x") (lit "y"))
    {| au_agent_run_id := 3; au_change_set_id := 7; au_change_set_version := 1; au_rollback := false |}.

Lemma change_set_writes_authorized_witness :
  exists version p k wb wj wr wc evs w1,
    pl_threads (executed patch_then_reload) !! 3 = Some (CallExecute 7 version, p) /\
    later (cs_body true) fresh_call w1 (executed patch_then_reload) /\ pl_log w1 = before_write /\
    checks_made true [] 3 k wb wj wr wc evs w1 /\ checks_pass true 7 version k /\ same_payloads version k /\
    next_write (ck_claimed_set k) evs write_request.
Proof.
  refine (change_set_writes_authorized true [] (executed patch_then_reload) before_write 3 write_request
            (Ok (sample_result FilePatch true)) (drop 16 (pl_log (executed patch_then_reload)))
            (played_reachable _) _).
  vm_compute. reflexivity.
Defined.

Lemma change_set_service_never_panics_witness :
  is_Some (pl_threads (executed patch_then_reload) !! 3) /\
  pl_threads (executed patch_then_reload) !! 3 <> Some (CallExecute 7 1, Panicked).
Proof.
  split; [vm_compute; by eexists|].
  exact (change_set_service_never_panics true [] (executed patch_then_reload) 3 (CallExecute 7 1)
           (played_reachable _)).
Defined.

(** *** Where the service departs from what it says *)

(** The reading of the preconditions, after something changed on the server. *)
Definition drifted_answers (q : CsQuery) : CsAnswer q :=
  match q with
  | QExecute r =>
      let result := sample_result (invocation_name (nr_invocation r)) true in
      Ok {| tr_invocation_id := tr_invocation_id result; tr_tool_name := tr_tool_name result;
            tr_success := true; tr_summary := []; tr_data := None;
            tr_error_code := Some (lit "CHANGED"); tr_warnings := []; tr_started_at_epoch_ms := 2;
            tr_duration_ms := 1; tr_truncated := false; tr_cancelled := false;
            tr_untrusted_remote_data := true |}
  | q => sample_answers no_failure q
  end.

Definition call_with (answers : forall q, CsAnswer q) (i : nat) (call : CsCall) :
    list (act CsQuery CsAnswer CsCall) :=
  ActCall i call :: repeat (ActTurn i answers (Ok tt)) 24.

(** Execution notices the drift and drops the approval ... *)
Example drift_invalidates :
  stage (played (prepared patch_then_reload ++ call_with drifted_answers 3 (CallExecute 7 1)))
  = Some (CsInvalidated, NotStarted, [StepPending; StepPending]).
Proof. by vm_compute. Qed.

(** ... but capturing again after the approval replaces what was approved, and
    the change set runs on preconditions that nobody approved. *)
Example recapture_keeps_approval :
  stage (played (prepared patch_then_reload ++ call_with drifted_answers 3 (CallCapture 7 1)))
  = Some (CsApproved, NotStarted, [StepPending; StepPending]) /\
  stage (played (prepared patch_then_reload ++ call_with drifted_answers 3 (CallCapture 7 1)
                 ++ call_with drifted_answers 4 (CallExecute 7 1)))
  = Some (CsApproved, Committed, [StepSucceeded; StepSucceeded]).
Proof. split; by vm_compute. Qed.

(** A policy that asks for every step to be approved. *)
Definition stepwise_answers (q : CsQuery) : CsAnswer q :=
  match q with
  | QEvaluate r =>
      let e := evaluate sample_policy r in
      Ok {| ev_decision := RequireStepApproval; ev_matched_rules := ev_matched_rules e;
            ev_reason := ev_reason e; ev_scope := ev_scope e;
            ev_policy_version := ev_policy_version e; ev_policy_hash := ev_policy_hash e |}
  | q => sample_answers no_failure q
  end.

(** [approve] refuses such a change set; one approved before the decision
    changed keeps its approval and runs without any step approved. *)
Example whole_approval_survives_stepwise_policy :
  let w := played (prepared patch_then_reload
                   ++ call_with stepwise_answers 3 (CallCheckPolicy 7 1 sample_context)
                   ++ call_with stepwise_answers 4 (CallExecute 7 1)) in
  stage w = Some (CsApproved, Committed, [StepSucceeded; StepSucceeded]) /\
  (fun s => cs_approved_step_ids (scs_public s)) <$> pl_state w !! 7%N = Some [] /\
  (pl_state w !! 7%N ≫= fun s => ev_decision <$> cs_policy_evaluation (scs_public s))
    = Some RequireStepApproval.
Proof. vm_compute. auto. Qed.

(** A save that fails after a step leaves the change set executing: it can be
    neither executed nor rolled back again. *)
Definition failed_save : CsPool :=
  played (prepared patch_then_reload ++ ActCall 3 (CallExecute 7 1)
          :: repeat (turn no_failure (Ok tt) 3) 11 ++ repeat (turn no_failure (Err Storage) 3) 4
          ++ sample_call no_failure 4 (CallRollback 7 1)).

Example failed_save_strands :
  stage failed_save = Some (CsApproved, Executing, [StepSucceeded; StepPending]) /\
  pl_threads failed_save !! 4 = Some (CallRollback 7 1, Done (Err InvalidOperation)).
Proof. vm_compute. auto. Qed.
