(* ===== verification/ChangeSetFacts.v ===== *)
(** * What a change set ends as, and what is kept of it

    The outcome of an execution that nothing interrupts, against a reference
    that says which step failed first and what was reversed; what is written
    to disk, and what is read back. *)
From S2P Require Import Prelude Str Json Errors RunState Tools Externals Policy Decision Evidence.
From S2P Require Import Process Execution ChangeSets ChangeSetSafety ChangeSetTheorems.
From stdpp Require sorting.

(** ** The outcome of an execution *)
Definition succeed (s : ChangeStep) : ChangeStep := step_outcome StepSucceeded (cst_error_code s) s.
Definition undo (s : ChangeStep) : ChangeStep := step_outcome StepRolledBack (cst_error_code s) s.
Definition fail_with (a : AppResult ToolResult) (s : ChangeStep) : ChangeStep :=
  step_outcome StepFailed
    (match a with Ok result => tr_error_code result | Err e => Some (error_code e) end) s.

(** The requests among what was asked. *)
Definition requests (log : list Ev) : list NativeToolRequest :=
  omap (fun e => match e with EvAsked (QExecute r) _ => Some r | _ => None end) log.

Section Outcome.
Context `{Externals} `{ChangeExternals} (durable : bool).
(** The answer to the [n]th call of a tool; every save succeeds. *)
Context (answers : nat -> AppResult ToolResult).

Definition answer_with (n : nat) (q : CsQuery) : CsAnswer q * nat :=
  match q with
  | QExecute _ => (answers n, S n)
  | QEvaluate _ => (Err InvalidOperation, n)
  | QMatches _ => (false, n)
  | QLoad => (Err InvalidOperation, n)
  end.

Definition alone {A} (p : CsProc A) :=
  run answer_with (fun n (_ : list PersistedChangeSet) => (Ok tt, n)) p.

Definition ok (n : nat) : bool := succeeded (answers n).

(** *** The reference *)

(** How many of [n] calls from the [m]th succeed before one fails. *)
Fixpoint successes (m n : nat) : nat :=
  match n with 0 => 0 | S n' => if ok m then S (successes (S m) n') else 0 end.

Definition settle (k : nat) (steps : list ChangeStep) : list ChangeStep :=
  map succeed (take k steps) ++ drop k steps.

Definition patches (completed : list (nat * ChangeStepDraft)) : list (nat * ChangeStepDraft) :=
  List.filter (fun c => is_file_patch (snd c)) completed.

Definition reversed (step : ChangeStepDraft) : NativeToolInvocation :=
  match step with
  | DraftFilePatch path expected replacement => InvFilePatch path replacement expected
  | step => invocation step
  end.

(** The patches of [completed], last first, answered from the [m]th call on. *)
Fixpoint undo_all (m : nat) (completed : list (nat * ChangeStepDraft)) (steps : list ChangeStep) :
    list ChangeStep :=
  match completed with
  | [] => steps
  | (index, _) :: rest => undo_all (S m) rest (if ok m then alter undo index steps else steps)
  end.

(** The calls from the [m]th that reverse all succeed. *)
Definition all_ok (m n : nat) : bool := forallb ok (seq m n).

Definition rolled_back (m : nat) (completed : list (nat * ChangeStepDraft)) (public : ChangeSet) :
    ChangeSet :=
  let reversals := patches (rev completed) in
  let steps := undo_all m reversals (cs_steps public) in
  with_progress
    (if decide (reversals = []) then cs_execution_state public
     else if forallb (fun c => is_file_patch (snd c)) completed && all_ok m (length reversals)
     then RolledBack else RollbackFailed) steps public.

Definition outcome (public : ChangeSet) (payloads : list ChangeStepDraft) : ChangeSet :=
  let k := successes 0 (length payloads) in
  let steps := settle k (cs_steps public) in
  if decide (k = length payloads) then with_progress Committed steps public
  else rolled_back (S k) (take k (imap pair payloads))
         (with_progress ExecFailedState (alter (fail_with (answers k)) k steps) public).

Definition outcome_requests (public : ChangeSet) (payloads : list ChangeStepDraft) :
    list NativeToolRequest :=
  let k := successes 0 (length payloads) in
  map (fun p => request_approved (cs_session_id public) (invocation p) (execution_authority public false))
    (take (S k) payloads)
  ++ (if decide (k = length payloads) then []
      else map (fun c => request_approved (cs_session_id public) (reversed (snd c))
                           (execution_authority public true))
             (patches (rev (take k (imap pair payloads))))).

(** *** The operations against it *)
Lemma with_progress_same c : with_progress (cs_execution_state c) (cs_steps c) c = c.
Proof. by destruct c. Qed.

Lemma with_progress_twice e1 s1 e2 s2 c : with_progress e2 s2 (with_progress e1 s1 c) = with_progress e2 s2 c.
Proof. done. Qed.

Lemma requests_app l1 l2 : requests (l1 ++ l2) = requests l1 ++ requests l2.
Proof. apply omap_app. Qed.

Lemma alone_bind {A B} (p : CsProc A) (f : A -> CsProc B) items m log :
  alone (p ≫= f) items m log =
  match alone p items m log with
  | (Some (Ok a), items', m', log') => alone (f a) items' m' log'
  | (Some (Err e), items', m', log') => (Some (Err e), items', m', log')
  | (None, items', m', log') => (None, items', m', log')
  end.
Proof. apply run_bind. Qed.

Lemma alone_set_step {B} public index f step (k : ChangeSet -> CsProc B) items m log :
  cs_steps public !! index = Some step ->
  alone (public' ← set_step public index f; k public') items m log
  = alone (k (with_progress (cs_execution_state public) (<[index := f step]> (cs_steps public)) public))
      items m log.
Proof. intros Hs. rewrite alone_bind. unfold set_step. by rewrite Hs. Qed.

Lemma alter_lookup {A} (f : A -> A) (i : nat) (l : list A) x : l !! i = Some x -> alter f i l = <[i := f x]> l.
Proof.
  intros Hx. apply list_eq. intros j. destruct (decide (i = j)) as [<-|Hne].
  - rewrite list_lookup_alter_eq, list_lookup_insert_eq, Hx; [done|by eapply lookup_lt_Some].
  - by rewrite list_lookup_alter_ne, list_lookup_insert_ne.
Qed.

Lemma undo_all_length m completed steps : length (undo_all m completed steps) = length steps.
Proof.
  revert m steps. induction completed as [|[i p] rest IH]; intros m steps; [done|]. cbn.
  rewrite IH. case_match; [apply length_alter|done].
Qed.

(** What one reversed patch leaves of the change set. *)
Definition after_reversal (m index : nat) (public : ChangeSet) : ChangeSet :=
  with_progress (cs_execution_state public)
    (if ok m then alter undo index (cs_steps public) else cs_steps public) public.

Lemma reverse_step authority public attempted failed index path expected replacement rest items m log :
  index < length (cs_steps public) ->
  alone (reverse_patches authority public attempted failed
           ((index, DraftFilePatch path expected replacement) :: rest)) items m log
  = alone (reverse_patches authority (after_reversal m index public) true (failed || negb (ok m)) rest)
      items (S m)
      (log ++ [EvAsked (QExecute (request_approved_rollback (cs_session_id public)
                 (InvFilePatch path replacement expected) authority)) (answers m)]).
Proof.
  intros Hi. destruct (lookup_lt_is_Some_2 _ _ Hi) as [st Hst].
  cbn [reverse_patches]. rewrite alone_bind. unfold alone at 1, ask. cbn [run answer_with].
  unfold after_reversal, ok. destruct (answers m) as [result|err]; cbn [succeeded negb].
  - destruct (tr_success result); cbn [negb].
    + rewrite orb_false_r, (alter_lookup _ _ _ st Hst).
      by rewrite (alone_set_step public index _ st).
    + by rewrite orb_true_r, with_progress_same.
  - by rewrite orb_true_r, with_progress_same.
Qed.

Lemma reverse_alone authority public attempted failed completed items m log :
  in_range public completed ->
  exists evs,
    requests evs = map (fun c => request_approved_rollback (cs_session_id public) (reversed (snd c))
                                   authority) (patches completed) /\
    alone (reverse_patches authority public attempted failed completed) items m log
    = (Some (Ok (with_progress (cs_execution_state public)
                   (undo_all m (patches completed) (cs_steps public)) public,
                 attempted || negb (bool_decide (patches completed = [])),
                 failed || negb (all_ok m (length (patches completed))))),
       items, m + length (patches completed), log ++ evs).
Proof.
  revert public attempted failed m log.
  induction completed as [|[index step] rest IH]; intros public attempted failed m log Hr.
  { exists []. split; [done|]. cbn. rewrite with_progress_same, !orb_false_r, Nat.add_0_r, app_nil_r. done. }
  apply Forall_cons in Hr as [Hi Hr]. cbn in Hi.
  destruct (is_file_patch step) eqn:Hp.
  2: { destruct (IH public attempted failed m log Hr) as (evs & Hreq & He).
       exists evs. unfold patches in *. cbn. rewrite Hp. split; [done|].
       by destruct step. }
  destruct step as [path expected replacement| | | |]; try discriminate Hp.
  rewrite reverse_step by done.
  match goal with |- context [log ++ [?x]] => set (e := x) end.
  destruct (IH (after_reversal m index public) true (failed || negb (ok m)) (S m) (log ++ [e]))
    as (evs & Hreq & He).
  { unfold in_range, after_reversal. cbn. case_match; [by rewrite length_alter|done]. }
  rewrite He. exists ([e] ++ evs). split; [rewrite requests_app, Hreq; reflexivity|].
  rewrite <- app_assoc. unfold patches. cbn [List.filter snd is_file_patch length].
  rewrite (bool_decide_eq_false_2 (_ :: _ = [])) by done.
  rewrite orb_true_r, Nat.add_succ_r. unfold all_ok. cbn [seq forallb].
  rewrite negb_andb, <- orb_assoc. reflexivity.
Qed.

Lemma rollback_alone authority public completed items m log :
  in_range public completed ->
  exists evs,
    requests evs = map (fun c => request_approved_rollback (cs_session_id public) (reversed (snd c))
                                   authority) (patches (rev completed)) /\
    alone (rollback_files public completed authority) items m log
    = (Some (Ok (rolled_back m completed public)), items, m + length (patches (rev completed)),
       log ++ evs).
Proof.
  intros Hr. destruct (reverse_alone authority public false
    (existsb (fun c => negb (is_file_patch (snd c))) completed) (rev completed) items m log)
    as (evs & Hreq & He).
  { unfold in_range. by rewrite <- Permutation_rev. }
  exists evs. split; [done|]. unfold rollback_files. rewrite alone_bind, He. unfold rolled_back.
  assert (Hf : existsb (fun c => negb (is_file_patch (snd c))) completed
               = negb (forallb (fun c => is_file_patch (snd c)) completed)).
  { clear. induction completed as [|c l IH]; [done|]. cbn. by rewrite IH, negb_andb. }
  rewrite Hf, <- negb_andb. cbn [orb]. case_bool_decide as Hp; case_decide; try done; cbn.
  - by destruct (forallb _ _ && _).
Qed.

(** What the sections of one execution leave of the shared change sets. *)
Definition touched (id : Uuid) (s : StoredChangeSet) (items items' : gmap Uuid StoredChangeSet) : Prop :=
  items' = items \/ exists public, items' = <[id := with_public public s]> items.

Lemma store_alone id s items items' public m log :
  items !! id = Some s -> touched id s items items' ->
  exists evs, requests evs = [] /\
    alone (store_execution_snapshot durable id public) items' m log
    = (Some (Ok tt), <[id := with_public public s]> items, m, log ++ evs).
Proof.
  intros Hs Ht.
  assert (Hentry : exists s', items' !! id = Some s' /\
    <[id := with_public public s']> items' = <[id := with_public public s]> items).
  { destruct Ht as [->|[x ->]]; [by exists s|]. exists (with_public x s).
    by rewrite lookup_insert_eq, insert_insert_eq. }
  destruct Hentry as (s' & Hs' & Heq).
  unfold alone, store_execution_snapshot, with_stored, locked, save_then, persisting. cbn [run].
  rewrite Hs'. destruct durable; cbn [run]; rewrite Heq.
  - exists [EvSaved (persisted_records (<[id := with_public public s]> items)) (Ok tt)]. done.
  - exists []. by rewrite app_nil_r.
Qed.

Lemma settle_next steps index st k :
  steps !! index = Some st ->
  take (S index) (<[index := succeed st]> steps) ++ settle k (drop (S index) (<[index := succeed st]> steps))
  = take index steps ++ settle (S k) (drop index steps).
Proof.
  intros Hst. rewrite (drop_S steps st index) by done. unfold settle at 2. cbn [take map drop app].
  rewrite drop_insert_lt by lia.
  rewrite (take_S_r _ index (succeed st)) by (apply list_lookup_insert_eq; by eapply lookup_lt_Some).
  rewrite take_insert_ge by lia. unfold settle. by rewrite <- app_assoc.
Qed.


Fixpoint number (index : nat) (payloads : list ChangeStepDraft) : list (nat * ChangeStepDraft) :=
  match payloads with [] => [] | p :: rest => (index, p) :: number (S index) rest end.

Lemma number_imap index payloads : number index payloads = imap (fun i p => (index + i, p)) payloads.
Proof.
  revert index. induction payloads as [|p rest IH]; intros index; [done|]. cbn.
  rewrite IH, Nat.add_0_r. f_equal. apply imap_ext. intros i x _. cbn. f_equal. lia.
Qed.

(** [outcome] from the middle of the loop. *)
Definition loop_outcome (public : ChangeSet) (completed : list (nat * ChangeStepDraft)) (index m : nat)
    (payloads : list ChangeStepDraft) : ChangeSet :=
  let k := successes m (length payloads) in
  let steps := take index (cs_steps public) ++ settle k (drop index (cs_steps public)) in
  if decide (k = length payloads) then with_progress (cs_execution_state public) steps public
  else rolled_back (S (m + k)) (completed ++ take k (number index payloads))
         (with_progress ExecFailedState (alter (fail_with (answers (m + k))) (index + k) steps) public).

Definition loop_requests (authority : ToolExecutionAuthority) (public : ChangeSet)
    (completed : list (nat * ChangeStepDraft)) (index m : nat) (payloads : list ChangeStepDraft) :
    list NativeToolRequest :=
  let k := successes m (length payloads) in
  map (fun p => request_approved (cs_session_id public) (invocation p) authority) (take (S k) payloads)
  ++ (if decide (k = length payloads) then []
      else map (fun c => request_approved_rollback (cs_session_id public) (reversed (snd c)) authority)
             (patches (rev (completed ++ take k (number index payloads))))).

(** A step that succeeds leads to the loop on the rest. *)
Lemma loop_outcome_next public completed index m payload rest st :
  ok m = true -> cs_steps public !! index = Some st ->
  loop_outcome (with_progress (cs_execution_state public) (<[index := succeed st]> (cs_steps public)) public)
    (completed ++ [(index, payload)]) (S index) (S m) rest
  = loop_outcome public completed index m (payload :: rest).
Proof.
  intros Hok Hst. unfold loop_outcome. cbn [length successes cs_steps with_progress]. rewrite Hok.
  rewrite (settle_next _ _ st _ Hst). cbn [number take]. rewrite <- app_assoc. cbn [app].
  replace (m + S (successes (S m) (length rest))) with (S m + successes (S m) (length rest)) by lia.
  replace (index + S (successes (S m) (length rest))) with (S index + successes (S m) (length rest)) by lia.
  by repeat case_decide; try lia.
Qed.

Lemma loop_requests_next authority public public1 completed index m payload rest :
  ok m = true -> cs_session_id public1 = cs_session_id public ->
  request_approved (cs_session_id public) (invocation payload) authority
    :: loop_requests authority public1 (completed ++ [(index, payload)]) (S index) (S m) rest
  = loop_requests authority public completed index m (payload :: rest).
Proof.
  intros Hok Hs. unfold loop_requests. cbn [length successes]. rewrite Hok, Hs.
  cbn [number take map app]. rewrite <- app_assoc. cbn [app].
  by repeat case_decide; try lia.
Qed.

Lemma loop_outcome_fails public completed index m payload rest st :
  ok m = false -> cs_steps public !! index = Some st ->
  loop_outcome public completed index m (payload :: rest)
  = rolled_back (S m) completed
      (with_execution ExecFailedState
         (with_progress (cs_execution_state public) (<[index := fail_with (answers m) st]> (cs_steps public))
            public)).
Proof.
  intros Hok Hst. unfold loop_outcome. cbn [length successes]. rewrite Hok. case_decide; [done|].
  unfold settle. rewrite !take_0, drop_0. cbn [map app]. rewrite take_drop, !Nat.add_0_r, app_nil_r.
  by rewrite (alter_lookup _ _ _ st Hst).
Qed.

Lemma loop_requests_fails authority public completed index m payload rest :
  ok m = false ->
  loop_requests authority public completed index m (payload :: rest)
  = request_approved (cs_session_id public) (invocation payload) authority
    :: map (fun c => request_approved_rollback (cs_session_id public) (reversed (snd c)) authority)
         (patches (rev completed)).
Proof.
  intros Hok. unfold loop_requests. cbn [length successes]. rewrite Hok. case_decide; [done|].
  rewrite take_0. cbn [app]. rewrite app_nil_r. done.
Qed.

(** The step that fails, marked, and what completed reversed. *)
Definition failed_at (m index : nat) (st : ChangeStep) (public : ChangeSet) : ChangeSet :=
  with_execution ExecFailedState
    (with_progress (cs_execution_state public) (<[index := fail_with (answers m) st]> (cs_steps public))
       public).

Lemma failed_alone authority public completed index m payload rest st items log :
  ok m = false -> cs_steps public !! index = Some st -> in_range public completed ->
  exists evs m',
    request_approved (cs_session_id public) (invocation payload) authority :: requests evs
    = loop_requests authority public completed index m (payload :: rest) /\
    alone (rollback_files (failed_at m index st public) completed authority) items (S m) log
    = (Some (Ok (loop_outcome public completed index m (payload :: rest))), items, m', log ++ evs).
Proof.
  intros Hok Hst Hr. rewrite (loop_outcome_fails _ _ _ _ _ _ st), loop_requests_fails by done.
  destruct (rollback_alone authority (failed_at m index st public) completed items (S m) log)
    as (evs & Hreq & He).
  { eapply in_range_progressed; [|exact Hr]. eexists _, _. split; [reflexivity|]. apply length_insert. }
  exists evs. eexists. rewrite Hreq. split; [done|exact He].
Qed.

Lemma run_alone id s items authority payloads public completed index items' m log :
  items !! id = Some s -> touched id s items items' -> in_range public completed ->
  index + length payloads <= length (cs_steps public) ->
  exists evs items'' m',
    touched id s items items'' /\
    requests evs = loop_requests authority public completed index m payloads /\
    alone (run_payloads durable id authority public completed index payloads) items' m log
    = (Some (Ok (loop_outcome public completed index m payloads)), items'', m', log ++ evs).
Proof.
  intros Hs. revert public completed index items' m log.
  induction payloads as [|payload rest IH]; intros public completed index items' m log Ht Hr Hlen.
  { exists [], items', m. split_and!; [done..|]. unfold loop_outcome, settle. cbn [successes length].
    rewrite decide_True, take_0, drop_0 by done. cbn [map app].
    by rewrite take_drop, app_nil_r, with_progress_same. }
  cbn [length] in Hlen. destruct (lookup_lt_is_Some_2 (cs_steps public) index) as [st Hst]; [lia|].
  cbn [run_payloads]. rewrite alone_bind. unfold alone at 1, ask. cbn [run answer_with].
  match goal with |- context [log ++ [?x]] => set (e := x) end.
  pose proof (failed_alone authority public completed index m payload rest st items' (log ++ [e])) as Hfail.
  unfold failed_at in Hfail. unfold ok in Hfail.
  destruct (answers m) as [result|err] eqn:Ha; cbn [succeeded] in Hfail;
    [destruct (tr_success result) eqn:Hok|].
  - clear Hfail. assert (Hokm : ok m = true) by (unfold ok; by rewrite Ha).
    rewrite (alone_set_step public index _ st) by done.
    set (public1 := with_progress _ _ public). rewrite alone_bind.
    destruct (store_alone id s items items' public1 (S m) (log ++ [e]) Hs Ht) as (evs1 & Hr1 & ->).
    destruct (IH public1 (completed ++ [(index, payload)]) (S index) (<[id := with_public public1 s]> items)
      (S m) ((log ++ [e]) ++ evs1)) as (evs & items'' & m' & Ht' & Hreq & He).
    { right. by exists public1. }
    { unfold in_range, public1. cbn. rewrite length_insert. apply Forall_app. split; [done|].
      apply Forall_singleton. cbn. lia. }
    { unfold public1. cbn. rewrite length_insert. lia. }
    exists ([e] ++ evs1 ++ evs), items'', m'. split; [done|].
    rewrite <- (loop_outcome_next _ _ _ _ payload rest st Hokm Hst).
    rewrite <- (loop_requests_next authority public public1 completed index m payload rest Hokm eq_refl).
    rewrite !requests_app, Hr1, Hreq. split; [done|]. by rewrite He, !app_assoc.
  - destruct Hfail as (evs & m' & Hreq & He); [done..|]. rewrite (alone_set_step public index _ st) by done.
    exists ([e] ++ evs), items', m'. split; [done|]. split; [by rewrite requests_app, <- Hreq|].
    rewrite app_assoc. exact He.
  - destruct Hfail as (evs & m' & Hreq & He); [done..|]. rewrite (alone_set_step public index _ st) by done.
    rewrite alone_bind. unfold fail_with in He. rewrite He, alone_bind.
    match goal with |- context [store_execution_snapshot durable id ?p] =>
      destruct (store_alone id s items items' p m' ((log ++ [e]) ++ evs) Hs Ht) as (evs1 & Hr1 & ->) end.
    exists ([e] ++ evs ++ evs1). eexists _, _. split; [right; by eexists|].
    rewrite !requests_app, Hr1, app_nil_r, <- Hreq. split; [done|]. by rewrite !app_assoc.
Qed.

Lemma successes_le m n : successes m n <= n.
Proof. revert m. induction n as [|n IH]; intros m; cbn; [done|]. specialize (IH (S m)). case_match; lia. Qed.

Lemma successes_all m n : successes m n = n <-> forall j, j < n -> ok (m + j) = true.
Proof.
  revert m. induction n as [|n IH]; intros m; cbn; [split; [lia|done]|]. split.
  - destruct (ok m) eqn:Hm; [|done]. intros [= Hs] [|j] Hj; [by rewrite Nat.add_0_r|].
    rewrite Nat.add_succ_r. apply (proj1 (IH (S m)) Hs). lia.
  - intros Hall. pose proof (Hall 0 ltac:(lia)) as H0'. rewrite Nat.add_0_r in H0'. rewrite H0'. f_equal.
    apply IH. intros j Hj. rewrite Nat.add_succ_l, <- Nat.add_succ_r. apply Hall. lia.
Qed.

(** C7. An execution that nothing interrupts ends as the reference says: every
    step is asked for in order until one fails; if none does the change set is
    committed; else the completed patches are reversed, last first, and it is
    rolled back when everything completed was a patch and every reversal
    succeeded, failed when there was nothing to reverse, and a failed rollback
    otherwise.  What is returned is what is stored. *)
Theorem change_set_outcome_exact id s items public payloads :
  items !! id = Some s -> cs_execution_state public = Executing ->
  length payloads = length (cs_steps public) ->
  let out := outcome public payloads in
  (exists evs m, requests evs = outcome_requests public payloads /\
     alone (run_claimed durable id public payloads) items 0 []
     = (Some (Ok out), <[id := with_public out s]> items, m, evs)) /\
  (cs_execution_state out = Committed <-> forall j, j < length payloads -> ok j = true).
Proof.
  intros Hs He Hlen out. split.
  - destruct (run_alone id s items (execution_authority public false) payloads public [] 0 items 0 [])
      as (evs & items' & m & Ht & Hreq & Hrun); [done|by left|by constructor|lia|].
    unfold run_claimed. rewrite alone_bind, Hrun.
    assert (Hout : (if decide (cs_execution_state (loop_outcome public [] 0 0 payloads) = Executing)
                    then with_execution Committed (loop_outcome public [] 0 0 payloads)
                    else loop_outcome public [] 0 0 payloads) = out).
    { unfold out, loop_outcome, outcome. rewrite take_0, drop_0, number_imap. cbn [app].
      destruct (decide (successes 0 (length payloads) = length payloads)); [by rewrite decide_True|].
      rewrite decide_False; [done|]. unfold rolled_back. cbn. by repeat case_match. }
    rewrite Hout, alone_bind.
    destruct (store_alone id s items items' out m ([] ++ evs) Hs Ht) as (evs1 & Hr1 & ->).
    exists (evs ++ evs1), m. split; [|done]. rewrite requests_app, Hreq, Hr1, app_nil_r.
    unfold loop_requests, outcome_requests. rewrite number_imap. done.
  - rewrite <- (successes_all 0). unfold out, outcome. case_decide as Hk; [done|].
    split; [|done]. unfold rolled_back. cbn. by repeat case_match.
Qed.
End Outcome.

(** ** Restarts *)
Definition readable_step (s : ChangeStep) : bool :=
  is_ok (persisted_tool_name (cst_tool_name s))
  && is_ok (persisted_verification_code (cst_verification_plan_code s))
  && is_ok (persisted_rollback_code (cst_rollback_capability s)).

(** What a restart leaves of a change set. *)
Definition remembered_step (s : ChangeStep) : ChangeStep :=
  {| cst_id := cst_id s; cst_order := cst_order s; cst_tool_name := cst_tool_name s;
     cst_risk := cst_risk s; cst_preview := lit "recovery-payload-unavailable";
     cst_verification_plan_code := cst_verification_plan_code s;
     cst_rollback_capability := cst_rollback_capability s; cst_state := cst_state s;
     cst_error_code := opt_filter valid_stable_code (cst_error_code s) |}.

Definition remembered (c : ChangeSet) : ChangeSet :=
  {| cs_id := cs_id c; cs_agent_run_id := cs_agent_run_id c; cs_session_id := cs_session_id c;
     cs_title := lit "recovered-change-set"; cs_version := cs_version c; cs_risk := cs_risk c;
     cs_steps := map remembered_step (cs_steps c); cs_approval_state := CsInvalidated;
     cs_approved_version := None; cs_execution_state := recovered_execution (cs_execution_state c);
     cs_recovery_state := MetadataOnly; cs_preconditions := []; cs_policy_evaluation := None;
     cs_policy_snapshot := cs_policy_snapshot c; cs_approved_step_ids := cs_approved_step_ids c |}.

Lemma recovered_step_exact s :
  recovered_step (persisted_step s) = if readable_step s then Ok (remembered_step s) else Err Storage.
Proof.
  unfold recovered_step, readable_step, persisted_tool_name, persisted_verification_code,
    persisted_rollback_code, known_code. cbn -[str_in lit].
  by repeat match goal with |- context [str_in ?l ?x] => destruct (str_in l x) end.
Qed.

Lemma recovered_steps_exact steps :
  try_map recovered_step (map persisted_step steps)
  = if forallb readable_step steps then Ok (map remembered_step steps) else Err Storage.
Proof.
  induction steps as [|s steps IH]; [done|]. cbn. rewrite recovered_step_exact, IH.
  by destruct (readable_step s), (forallb readable_step steps).
Qed.

Lemma recovered_exact s :
  recovered_change_set (persisted_change_set s)
  = if forallb readable_step (cs_steps (scs_public s)) then Ok (remembered (scs_public s)) else Err Storage.
Proof.
  unfold recovered_change_set. cbn. rewrite recovered_steps_exact. by case_match.
Qed.

Definition is_docker (step : ChangeStepDraft) : bool :=
  match step with DraftDockerRestart _ => true | _ => false end.

Lemma readable_public_step id index step : readable_step (public_step id index step) = negb (is_docker step).
Proof. by destruct step. Qed.

Lemma readable_public_steps ids steps :
  forallb readable_step (public_steps ids steps) = negb (existsb is_docker steps).
Proof.
  unfold public_steps.
  enough (H : forall f g, forallb readable_step (imap (fun i s => public_step (f i) (g i) s) steps)
                          = negb (existsb is_docker steps)) by apply (H ids (fun i => i)).
  induction steps as [|s steps IH]; intros f g; [done|]. cbn.
  rewrite readable_public_step, negb_orb. f_equal. apply (IH (fun i => f (S i)) (fun i => g (S i))).
Qed.

(** What was read back once is read back the same. *)
Lemma known_code_ok codes value w : known_code codes value = Ok w -> is_ok (known_code codes w) = true.
Proof. unfold known_code. case_match eqn:E; [|done]. intros [= <-]. by rewrite E. Qed.

Lemma recovered_step_stable p s :
  recovered_step p = Ok s -> readable_step s = true /\ remembered_step s = s.
Proof.
  unfold recovered_step. intros Hr. inv_ok. subst s. split.
  - unfold readable_step. cbn. apply andb_true_intro; split; [apply andb_true_intro; split|];
      by eapply known_code_ok.
  - unfold remembered_step. cbn. f_equal. destruct (pst_error_code p) as [e|]; [|done]. cbn.
    destruct (valid_stable_code e) eqn:E; cbn; by rewrite ?E.
Qed.

Lemma recovered_stable r c :
  recovered_change_set r = Ok c -> forallb readable_step (cs_steps c) = true /\ remembered c = c.
Proof.
  unfold recovered_change_set. intros Hr. apply bind_ok in Hr as (steps & Hsteps & [= <-]). cbn.
  apply try_map_ok in Hsteps.
  assert (forallb readable_step steps = true /\ map remembered_step steps = steps) as [A B].
  { induction Hsteps as [|p s ps ss Hp _ [IH1 IH2]]; [done|]. cbn.
    destruct (recovered_step_stable _ _ Hp) as [-> ->]. by rewrite IH1, IH2. }
  split; [done|]. unfold remembered. cbn. f_equal; [done|].
  unfold recovered_execution. by repeat case_decide.
Qed.

(** C8. Restarting: what is written of a change set is read back as its
    metadata - invalidated, without payloads, an execution that was under way
    interrupted - or refused as a bad file, exactly when a step bears a code
    that the reader does not know; a drafted change set is readable exactly
    when it has no Docker step; and what was read back once is written and read
    back unchanged. *)
Theorem change_set_recovery_roundtrip :
  (forall s, recovered_change_set (persisted_change_set s)
     = if forallb readable_step (cs_steps (scs_public s)) then Ok (remembered (scs_public s))
       else Err Storage) /\
  (forall request id ids, forallb readable_step (cs_steps (drafted request id ids))
     = negb (existsb is_docker (dr_steps request))) /\
  (forall record c, recovered_change_set record = Ok c ->
     recovered_change_set (persisted_change_set (recovered_stored c)) = Ok c).
Proof.
  split_and!.
  - apply recovered_exact.
  - intros request id ids. apply readable_public_steps.
  - intros record c Hr. destruct (recovered_stable _ _ Hr) as [Hread Hsame].
    rewrite recovered_exact. cbn [scs_public recovered_stored]. by rewrite Hread, Hsame.
Qed.

(** ** What is written *)
Definition all_records (items : gmap Uuid StoredChangeSet) : list PersistedChangeSet :=
  map persisted_change_set (map snd (map_to_list items)).

(** The part of a change set that may carry contents: the payloads, the
    bindings, the title, the previews, the preconditions and the evaluation. *)
Definition without_contents (s : StoredChangeSet) : StoredChangeSet :=
  {| scs_public :=
       let c := scs_public s in
       {| cs_id := cs_id c; cs_agent_run_id := cs_agent_run_id c; cs_session_id := cs_session_id c;
          cs_title := []; cs_version := cs_version c; cs_risk := cs_risk c;
          cs_steps := map (fun p =>
            {| cst_id := cst_id p; cst_order := cst_order p; cst_tool_name := cst_tool_name p;
               cst_risk := cst_risk p; cst_preview := [];
               cst_verification_plan_code := cst_verification_plan_code p;
               cst_rollback_capability := cst_rollback_capability p; cst_state := cst_state p;
               cst_error_code := cst_error_code p |}) (cs_steps c);
          cs_approval_state := CsDraft; cs_approved_version := None;
          cs_execution_state := cs_execution_state c; cs_recovery_state := Live;
          cs_preconditions := []; cs_policy_evaluation := None;
          cs_policy_snapshot := cs_policy_snapshot c; cs_approved_step_ids := cs_approved_step_ids c |};
     scs_payloads := []; scs_precondition_bindings := []; scs_policy_binding := None |}.

Lemma persisted_content_free s : persisted_change_set (without_contents s) = persisted_change_set s.
Proof. unfold persisted_change_set. cbn. f_equal. by rewrite map_map. Qed.

Lemma persisted_records_suffix items :
  exists dropped, dropped ++ persisted_records items = sort_by_key pcs_id (all_records items) /\
    length (persisted_records items) = min (length (all_records items)) MAX_PERSISTED_CHANGE_SETS.
Proof.
  unfold persisted_records. fold (all_records items).
  pose proof (Permutation_length (sort_by_key_perm pcs_id (all_records items))) as Hl.
  destruct (MAX_PERSISTED_CHANGE_SETS <? _)%nat eqn:E.
  - apply Nat.ltb_lt in E. exists (take (length (sort_by_key pcs_id (all_records items))
      - MAX_PERSISTED_CHANGE_SETS) (sort_by_key pcs_id (all_records items))).
    rewrite take_drop, length_drop. split; [done|lia].
  - apply Nat.ltb_ge in E. exists []. split; [done|lia].
Qed.

(** What is written never exceeds its bound and carries no contents: at
    most 2,000 records, each that of a change set with its payloads, previews,
    title and bindings blanked; all of them when there are no more than that,
    and else those with the highest identifiers, whatever their age. *)
Theorem change_sets_written_bounded items :
  let written := persisted_records items in
  length written = min (size items) MAX_PERSISTED_CHANGE_SETS /\
  (forall r, r ∈ written -> exists id s, items !! id = Some s /\
     r = persisted_change_set (without_contents s)) /\
  (forall id s, items !! id = Some s -> persisted_change_set s ∈ written \/
     MAX_PERSISTED_CHANGE_SETS < size items /\
     forall r, r ∈ written -> (pcs_id (persisted_change_set s) <= pcs_id r)%N).
Proof.
  intros written. destruct (persisted_records_suffix items) as (dropped & Hsplit & Hlen).
  fold written in Hsplit, Hlen.
  assert (Hsize : length (all_records items) = size items).
  { unfold all_records. rewrite !length_map, length_map_to_list. done. }
  assert (Hall : forall r, r ∈ dropped ++ written <-> exists id s, items !! id = Some s /\ r = persisted_change_set s).
  { intros r. rewrite Hsplit, sort_by_key_perm. unfold all_records. rewrite map_map, list_elem_of_fmap.
    split.
    - intros ([id s] & -> & Hin). apply elem_of_map_to_list in Hin. by exists id, s.
    - intros (id & s & Hs & ->). exists (id, s). split; [done|]. by apply elem_of_map_to_list. }
  pose proof (sort_by_key_sorted pcs_id (all_records items)) as Hsorted. rewrite <- Hsplit in Hsorted.
  split_and!; [lia| |].
  - intros r Hr. destruct (proj1 (Hall r)) as (id & s & Hs & ->); [by apply elem_of_app; right|].
    exists id, s. split; [done|]. by rewrite persisted_content_free.
  - intros id s Hs. assert (Hin : persisted_change_set s ∈ dropped ++ written) by (apply Hall; eauto).
    apply elem_of_app in Hin as [Hin|Hin]; [right|by left]. split.
    + assert (length dropped <> 0) by (destruct dropped; [by apply elem_of_nil in Hin|done]).
      pose proof (f_equal length Hsplit) as Hl. rewrite length_app, (Permutation_length (sort_by_key_perm _ _)) in Hl.
      lia.
    + intros r Hr. by eapply sorting.StronglySorted_app_1_elem_of in Hsorted.
Qed.

(** ** Witnesses *)
Definition executing_set : StoredChangeSet :=
  let c := drafted (sample_request patch_then_reload) 7 (fun i => 100 + N.of_nat i)%N in
  {| scs_public := with_execution Executing c; scs_payloads := patch_then_reload;
     scs_precondition_bindings := []; scs_policy_binding := None |}.

(** The patch succeeds, the reload fails, the reversal succeeds. *)
Definition second_fails (n : nat) : AppResult ToolResult :=
  Ok (sample_result NginxReload (negb (n =? 1)%nat)).

Lemma change_set_outcome_exact_witness :
  let out := outcome second_fails (scs_public executing_set) patch_then_reload in
  (exists evs m,
     requests evs = outcome_requests second_fails (scs_public executing_set) patch_then_reload /\
     alone second_fails (run_claimed true 7 (scs_public executing_set) patch_then_reload)
       {[7%N := executing_set]} 0 []
     = (Some (Ok out), <[7%N := with_public out executing_set]> {[7%N := executing_set]}, m, evs)) /\
  (cs_execution_state out, map cst_state (cs_steps out)) = (RolledBack, [StepRolledBack; StepFailed]) /\
  length (outcome_requests second_fails (scs_public executing_set) patch_then_reload) = 3.
Proof.
  split; [|split; by vm_compute].
  refine (proj1 (change_set_outcome_exact true second_fails 7 executing_set {[7%N := executing_set]}
    (scs_public executing_set) patch_then_reload _ _ _)); by vm_compute.
Defined.

Lemma change_set_recovery_roundtrip_witness :
  exists c, recovered_change_set (persisted_change_set executing_set) = Ok c /\
    cs_execution_state c = Interrupted /\
    recovered_change_set (persisted_change_set (recovered_stored c)) = Ok c.
Proof.
  exists (remembered (scs_public executing_set)). split; [by vm_compute|]. split; [by vm_compute|].
  refine (proj2 (proj2 change_set_recovery_roundtrip) (persisted_change_set executing_set) _ _).
  by vm_compute.
Defined.

Lemma change_sets_written_bounded_witness :
  let items := {[7%N := executing_set]} in
  persisted_change_set executing_set ∈ persisted_records items.
Proof.
  intros items.
  destruct (proj2 (proj2 (change_sets_written_bounded items)) 7%N executing_set) as [Hin|[Hbig _]].
  - by vm_compute.
  - exact Hin.
  - exfalso. apply Nat.ltb_lt in Hbig. by vm_compute in Hbig.
Defined.

(** A change set that restarts a container is written, and then the file it is
    written to cannot be loaded: the change sets before it are kept in memory,
    those after it are lost, and [load] answers [STORAGE_ERROR]. *)
Example docker_file_does_not_load :
  let docker := drafted (sample_request [DraftDockerRestart (lit "web")]) 8 (fun i => 100 + N.of_nat i)%N in
  let nginx := drafted (sample_request [DraftNginxReload]) 9 (fun i => 100 + N.of_nat i)%N in
  let records := map (fun c => persisted_change_set (recovered_stored c)) [docker; nginx] in
  load_records ∅ records = (∅, Err Storage).
Proof. by vm_compute. Qed.

(** Two rollbacks of one committed change set both send the reverse patch; the
    second finds it already reversed, fails, and its report is the one kept. *)
Definition one_patch : list ChangeStepDraft := [DraftFilePatch (lit "/a") (lit "x") (lit "y")].
Definition turns (n i : nat) (fails : NativeToolInvocation -> bool) : list (act CsQuery CsAnswer CsCall) :=
  repeat (turn fails (Ok tt) i) n.
Definition committed_patch : list (act CsQuery CsAnswer CsCall) :=
  prepared one_patch ++ sample_call no_failure 3 (CallExecute 7 1).
Definition two_rollbacks (rest : list (act CsQuery CsAnswer CsCall)) : CsPool :=
  played (committed_patch ++ [ActCall 4 (CallRollback 7 1); ActCall 5 (CallRollback 7 1)]
    ++ turns 2 4 no_failure ++ turns 2 5 (fun _ => true) ++ turns 9 4 no_failure ++ rest).

Example concurrent_rollbacks_disagree :
  stage (two_rollbacks []) = Some (CsApproved, RolledBack, [StepRolledBack]) /\
  stage (two_rollbacks (turns 9 5 no_failure)) = Some (CsApproved, RollbackFailed, [StepSucceeded]).
Proof. split; by vm_compute. Qed.
