(* ===== verification/Utf8.v ===== *)
(** * Text encodings

    The encodings of the Rust standard library that the modelled code calls:
    [str::as_bytes], [String::from_utf8], [String::from_utf8_lossy] and
    [String::from_utf16].  Bytes and units are [N]. *)
From S2P Require Import Prelude Str.

(** A [char]: a Unicode scalar value. *)
Definition is_scalar (c : chr) : bool := (c <? 55296)%N || between 57344 1114111 c.

(** ** UTF-8 *)
Definition utf8_encode_char (c : chr) : list N :=
  if (c <? 128)%N then [c]
  else if (c <? 2048)%N then [192 + c / 64; 128 + c mod 64]%N
  else if (c <? 65536)%N then [224 + c / 4096; 128 + c / 64 mod 64; 128 + c mod 64]%N
  else [240 + c / 262144; 128 + c / 4096 mod 64; 128 + c / 64 mod 64; 128 + c mod 64]%N.
Definition utf8_encode (s : str) : list N := s ≫= utf8_encode_char.

Definition continuation (b : N) : bool := between 128 191 b.

(** The second byte of a sequence of three or of four. *)
Definition second_of_three (b b1 : N) : bool :=
  between (if (b =? 224)%N then 160 else 128)%N (if (b =? 237)%N then 159 else 191)%N b1.
Definition second_of_four (b b1 : N) : bool :=
  between (if (b =? 240)%N then 144 else 128)%N (if (b =? 244)%N then 143 else 191)%N b1.

(** The characters of a byte string; [None] is a maximal invalid sequence. *)
Fixpoint utf8_chunks (bs : list N) : list (option chr) :=
  match bs with
  | [] => []
  | b :: t =>
      if (b <? 128)%N then Some b :: utf8_chunks t
      else if between 194 223 b then
        match t with
        | b1 :: t1 =>
            if continuation b1 then Some ((b - 192) * 64 + (b1 - 128))%N :: utf8_chunks t1
            else None :: utf8_chunks t
        | [] => [None]
        end
      else if between 224 239 b then
        match t with
        | b1 :: t1 =>
            if second_of_three b b1 then
              match t1 with
              | b2 :: t2 =>
                  if continuation b2
                  then Some ((b - 224) * 4096 + (b1 - 128) * 64 + (b2 - 128))%N :: utf8_chunks t2
                  else None :: utf8_chunks t1
              | [] => [None]
              end
            else None :: utf8_chunks t
        | [] => [None]
        end
      else if between 240 244 b then
        match t with
        | b1 :: t1 =>
            if second_of_four b b1 then
              match t1 with
              | b2 :: t2 =>
                  if continuation b2 then
                    match t2 with
                    | b3 :: t3 =>
                        if continuation b3
                        then Some ((b - 240) * 262144 + (b1 - 128) * 4096 + (b2 - 128) * 64 + (b3 - 128))%N
                             :: utf8_chunks t3
                        else None :: utf8_chunks t2
                    | [] => [None]
                    end
                  else None :: utf8_chunks t1
              | [] => [None]
              end
            else None :: utf8_chunks t
        | [] => [None]
        end
      else None :: utf8_chunks t
  end.

(** [String::from_utf8] and [String::from_utf8_lossy]. *)
Definition from_utf8 (bs : list N) : option str := mapM id (utf8_chunks bs).
Definition from_utf8_lossy (bs : list N) : str := map (default 65533%N) (utf8_chunks bs).

(** ** UTF-16 *)
Definition high_surrogate (u : N) : bool := between 55296 56319 u.
Definition low_surrogate (u : N) : bool := between 56320 57343 u.

(** [String::from_utf16]. *)
Fixpoint from_utf16 (units : list N) : option str :=
  match units with
  | [] => Some []
  | u :: rest =>
      if high_surrogate u then
        match rest with
        | v :: rest' =>
            if low_surrogate v
            then cons (65536 + (u - 55296) * 1024 + (v - 56320))%N <$> from_utf16 rest'
            else None
        | [] => None
        end
      else if low_surrogate u then None
      else cons u <$> from_utf16 rest
  end.

(** ** Facts *)
Lemma length_utf8_char c : N.of_nat (length (utf8_encode_char c)) = utf8_len c.
Proof. unfold utf8_encode_char, utf8_len. by repeat case_match. Qed.

Lemma length_utf8 s : N.of_nat (length (utf8_encode s)) = blen s.
Proof.
  induction s as [|c s IH]; [done|]. unfold utf8_encode in *. cbn [blen].
  rewrite bind_cons, length_app, Nat2N.inj_add, IH, length_utf8_char. done.
Qed.

Ltac utf8_test :=
  match goal with
  | |- (if ?b then _ else _) = _ =>
      let E := fresh "E" in
      first [assert (E : b = true) by
               (cbv beta delta [between continuation second_of_three second_of_four];
                rewrite ?andb_true_iff, ?N.leb_le, ?N.ltb_lt; repeat case_match; breflect; lia)
            |assert (E : b = false) by
               (cbv beta delta [between]; rewrite ?andb_false_iff, ?N.leb_gt, ?N.ltb_ge; lia)];
      rewrite E; clear E
  end.

Lemma utf8_chunks_char c rest :
  is_scalar c = true -> utf8_chunks (utf8_encode_char c ++ rest) = Some c :: utf8_chunks rest.
Proof.
  intros Hs. assert (Hr : (c < 55296 \/ 57344 <= c <= 1114111)%N).
  { unfold is_scalar, between in Hs. apply orb_true_iff in Hs as [?%N.ltb_lt|[?%N.leb_le ?%N.leb_le]%andb_true_iff]; lia. }
  clear Hs. unfold utf8_encode_char.
  rewrite <- (N.Div0.div_div c 64 4096 : _ = c / 262144)%N, <- (N.Div0.div_div c 64 64 : _ = c / 4096)%N.
  rewrite <- (N.Div0.div_div (c / 64) 64 64 : _ = c / 64 / 4096)%N.
  pose proof (N.div_mod c 64 ltac:(lia)) as D0. pose proof (N.mod_lt c 64 ltac:(lia)) as R0.
  revert D0 R0. generalize (c mod 64)%N as r0, (c / 64)%N as q1. intros r0 q1 D0 R0.
  pose proof (N.div_mod q1 64 ltac:(lia)) as D1. pose proof (N.mod_lt q1 64 ltac:(lia)) as R1.
  revert D1 R1. generalize (q1 mod 64)%N as r1, (q1 / 64)%N as q2. intros r1 q2 D1 R1.
  pose proof (N.div_mod q2 64 ltac:(lia)) as D2. pose proof (N.mod_lt q2 64 ltac:(lia)) as R2.
  revert D2 R2. generalize (q2 mod 64)%N as r2, (q2 / 64)%N as q3. intros r2 q3 D2 R2.
  destruct (c <? 128)%N eqn:E1; [cbn; by rewrite E1|]. apply N.ltb_ge in E1.
  destruct (c <? 2048)%N eqn:E2.
  { apply N.ltb_lt in E2. cbn [app utf8_chunks]. do 3 utf8_test. do 2 f_equal. lia. }
  apply N.ltb_ge in E2. destruct (c <? 65536)%N eqn:E3.
  { apply N.ltb_lt in E3. cbn [app utf8_chunks]. do 5 utf8_test. do 2 f_equal. lia. }
  apply N.ltb_ge in E3. cbn [app utf8_chunks]. do 7 utf8_test. do 2 f_equal. lia.
Qed.

(** Encoding and decoding. *)
Lemma utf8_chunks_encode s :
  Forall (fun c => is_scalar c = true) s -> utf8_chunks (utf8_encode s) = map Some s.
Proof.
  induction 1 as [|c s Hc _ IH]; [done|]. unfold utf8_encode in *.
  rewrite bind_cons, utf8_chunks_char by done. cbn. by rewrite IH.
Qed.

Lemma from_utf8_encode s :
  Forall (fun c => is_scalar c = true) s -> from_utf8 (utf8_encode s) = Some s.
Proof.
  intros Hs. unfold from_utf8. rewrite utf8_chunks_encode by done.
  apply mapM_Some. induction s as [|c s IH]; [constructor|]. inversion Hs; subst. constructor; [done|auto].
Qed.

Lemma from_utf8_lossy_encode s :
  Forall (fun c => is_scalar c = true) s -> from_utf8_lossy (utf8_encode s) = s.
Proof.
  intros Hs. unfold from_utf8_lossy. rewrite utf8_chunks_encode, map_map by done. apply map_id.
Qed.
