(* ===== verification/RemoteExec.v ===== *)
(** * Commands on a remote host (ssh/exec.rs)

    A [RemoteCommand] is a program with its arguments; what is sent is one
    line, with every argument quoted for the shell of the remote host.  The
    specification is a reader of shell words, [sh_words]: a line that it reads
    as a list of words is run as that list, and nothing else in it is
    interpreted.  A channel is the messages it delivers. *)
From S2P Require Import Prelude Str Utf8 Errors.

Definition DEFAULT_TIMEOUT : N := 20000.
Definition MAX_OUTPUT_BYTES : N := 4194304.
Definition MAX_INPUT_BYTES : N := 1048576.

(** [timeout] in milliseconds. *)
Record RemoteCommand := {
  rc_program : str;
  rc_args : list str;
  rc_stdin : list N;
  rc_timeout : N;
  rc_output_limit : N;
}.

Definition is_safe_program (program : str) : bool :=
  negb (is_empty program) && negb (contains program (lit ".."))
  && forallb (fun c => is_ascii_alphanumeric c || existsb (N.eqb c) (lit "_-./")) program.

Definition shell_quote (value : str) : AppResult str :=
  if contains_char value 0 || (16384 <? blen value)%N then Err InvalidOperation
  else Ok (lit "'" ++ replace value (lit "'") (lit "'\''") ++ lit "'").

Definition rc_program_new (program : str) (args : list str) : RemoteCommand :=
  {| rc_program := program; rc_args := args; rc_stdin := []; rc_timeout := DEFAULT_TIMEOUT;
     rc_output_limit := MAX_OUTPUT_BYTES |}.

Definition dynamic_program (program : str) (args : list str) : AppResult RemoteCommand :=
  if negb (is_safe_program program) then Err InvalidOperation else Ok (rc_program_new program args).

Definition with_args (c : RemoteCommand) (args : list str) : RemoteCommand :=
  {| rc_program := rc_program c; rc_args := rc_args c ++ args; rc_stdin := rc_stdin c;
     rc_timeout := rc_timeout c; rc_output_limit := rc_output_limit c |}.

Definition with_timeout (c : RemoteCommand) (timeout : N) : RemoteCommand :=
  {| rc_program := rc_program c; rc_args := rc_args c; rc_stdin := rc_stdin c;
     rc_timeout := N.min timeout 600000; rc_output_limit := rc_output_limit c |}.

Definition with_output_limit (c : RemoteCommand) (limit : N) : RemoteCommand :=
  {| rc_program := rc_program c; rc_args := rc_args c; rc_stdin := rc_stdin c;
     rc_timeout := rc_timeout c; rc_output_limit := N.min limit MAX_OUTPUT_BYTES |}.

Definition with_stdin (c : RemoteCommand) (stdin : list N) : AppResult RemoteCommand :=
  if (MAX_INPUT_BYTES <? N.of_nat (length stdin))%N then Err InvalidOperation
  else Ok {| rc_program := rc_program c; rc_args := rc_args c; rc_stdin := stdin;
             rc_timeout := rc_timeout c; rc_output_limit := rc_output_limit c |}.

(** [RemoteCommand::script]: a fixed script with its arguments as [$1], [$2], ... *)
Definition script (text : str) (args : list str) : RemoteCommand :=
  with_timeout (with_args (rc_program_new (lit "sh") [lit "-c"]) (text :: lit "runory" :: args)) 30000.

Definition freeform (line : str) : AppResult RemoteCommand :=
  if is_empty (trim line) || (16384 <? blen line)%N || contains_char line 0 then Err InvalidOperation
  else Ok (with_timeout (with_args (rc_program_new (lit "sh") [lit "-c"]) [line]) 120000).

(** [RemoteCommand::render]. *)
Fixpoint render_args (rendered : str) (args : list str) : AppResult str :=
  match args with
  | [] => Ok rendered
  | argument :: rest =>
      quoted ← shell_quote argument;
      render_args (rendered ++ lit " " ++ quoted) rest
  end.

Definition render (c : RemoteCommand) : AppResult str :=
  if negb (is_safe_program (rc_program c)) then Err InvalidOperation
  else render_args (rc_program c) (rc_args c).

(** ** The channel *)
Inductive ChannelMsg :=
  | MsgData (data : list N)
  | MsgExtendedData (data : list N)
  | MsgExitStatus (exit_status : N)
  | MsgClose
  | MsgEof
  | MsgOther.

Record RemoteExecResult := { re_stdout : str; re_stderr : str; re_exit_code : N }.

Definition append_bounded (target bytes : list N) (limit : N) : AppResult (list N) :=
  if (limit <? N.of_nat (length target + length bytes))%N then Err ExecOutputLimit
  else Ok (target ++ bytes).

(** The loop over the messages. *)
Fixpoint drain (limit : N) (stdout stderr : list N) (exit_code : option N) (messages : list ChannelMsg) :
    AppResult (list N * list N * option N) :=
  match messages with
  | [] => Ok (stdout, stderr, exit_code)
  | m :: rest =>
      match m with
      | MsgData data =>
          stdout ← append_bounded stdout data limit; drain limit stdout stderr exit_code rest
      | MsgExtendedData data =>
          stderr ← append_bounded stderr data limit; drain limit stdout stderr exit_code rest
      | MsgExitStatus status => drain limit stdout stderr (Some status) rest
      | MsgClose | MsgEof | MsgOther => drain limit stdout stderr exit_code rest
      end
  end.

(** What the connection does with one command: where it fails, and the messages
    its channel delivers until it ends. *)
Record ChannelRun := {
  cr_timed_out : bool;
  cr_opened : bool;
  cr_executed : bool;
  cr_data_sent : bool;
  cr_eof_sent : bool;
  cr_messages : list ChannelMsg;
}.

Definition exec_run (attempt : str -> ChannelRun) (command : RemoteCommand) :
    AppResult RemoteExecResult :=
  rendered ← render command;
  let ch := attempt rendered in
  if cr_timed_out ch then Err ExecTimedOut
  else if negb (cr_opened ch) then Err ExecFailed
  else if negb (cr_executed ch) then Err ExecFailed
  else if negb (bool_decide (rc_stdin command = [])) && negb (cr_data_sent ch) then Err ExecFailed
  else if negb (cr_eof_sent ch) then Err ExecFailed
  else
    '(stdout, stderr, exit_code) ← drain (rc_output_limit command) [] [] None (cr_messages ch);
    code ← ok_or exit_code ExecFailed;
    Ok {| re_stdout := from_utf8_lossy stdout; re_stderr := from_utf8_lossy stderr; re_exit_code := code |}.

(** ** Specification: shell words

    The part of the shell's lexical grammar that has no expansion: characters
    that stand for themselves, blanks between words, single quotes, and a
    backslash before one character.  [None] where the shell would do anything
    else with the line. *)
Definition plain_char (c : chr) : bool :=
  is_ascii_alphanumeric c || existsb (N.eqb c) (lit "_-./").

Inductive sh_mode := Unquoted | Quoted | Escaped.

Definition push_char (cur : option str) (c : chr) : option str := Some (default [] cur ++ [c]).
Definition close_word (cur : option str) (words : list str) : list str :=
  match cur with Some w => words ++ [w] | None => words end.

Fixpoint sh_read (mode : sh_mode) (cur : option str) (words : list str) (line : str) :
    option (list str) :=
  match line with
  | [] => match mode with Unquoted => Some (close_word cur words) | Quoted | Escaped => None end
  | c :: rest =>
      match mode with
      | Quoted =>
          if (c =? 39)%N then sh_read Unquoted cur words rest
          else sh_read Quoted (push_char cur c) words rest
      | Escaped => if (c =? 10)%N then None else sh_read Unquoted (push_char cur c) words rest
      | Unquoted =>
          if (c =? 39)%N then sh_read Quoted (Some (default [] cur)) words rest
          else if (c =? 92)%N then sh_read Escaped (Some (default [] cur)) words rest
          else if (c =? 32)%N then sh_read Unquoted None (close_word cur words) rest
          else if plain_char c then sh_read Unquoted (push_char cur c) words rest
          else None
      end
  end.

Definition sh_words (line : str) : option (list str) := sh_read Unquoted None [] line.

(** ** Quoting *)
Lemma replace_char s c to :
  replace s [c] to = s ≫= (fun x => if (x =? c)%N then to else [x]).
Proof.
  unfold replace. induction s as [|x s IH]; [done|]. cbn [replace_go starts_with]. rewrite bind_cons, <- IH.
  rewrite N.eqb_sym, andb_true_r. by destruct (x =? c)%N.
Qed.

(** A quoted argument is read back as itself. *)
Lemma sh_read_quoted v cur words rest :
  sh_read Quoted (Some cur) words (replace v (lit "'") (lit "'\''") ++ lit "'" ++ rest)
  = sh_read Unquoted (Some (cur ++ v)) words rest.
Proof.
  change (lit "'" ++ rest) with (39%N :: rest).
  change (lit "'\''") with [39; 92; 39; 39]%N. change (lit "'") with [39]%N. rewrite replace_char.
  revert cur. induction v as [|x v IH]; intros cur; [cbn; by rewrite app_nil_r|].
  rewrite bind_cons. destruct (x =? 39)%N eqn:E.
  - apply N.eqb_eq in E as ->. cbn. change (push_char (Some cur) 39%N) with (Some (cur ++ [39%N])). rewrite IH. by rewrite <- app_assoc.
  - cbn. rewrite E. change (push_char (Some cur) x) with (Some (cur ++ [x])). rewrite IH. by rewrite <- app_assoc.
Qed.

Lemma sh_read_arg argument quoted words rest :
  shell_quote argument = Ok quoted ->
  sh_read Unquoted None words (quoted ++ rest) = sh_read Unquoted (Some argument) words rest.
Proof.
  unfold shell_quote. case_match; [done|]. intros Hq.
  assert (quoted = lit "'" ++ replace argument (lit "'") (lit "'\''") ++ lit "'") as -> by congruence.
  rewrite <- !app_assoc. exact (sh_read_quoted argument [] words rest).
Qed.

Lemma plain_char_step c rest cur words :
  plain_char c = true ->
  sh_read Unquoted cur words (c :: rest) = sh_read Unquoted (push_char cur c) words rest.
Proof.
  intros Hc. assert (Hne : c <> 39%N /\ c <> 92%N /\ c <> 32%N).
  { split_and!; intros ->; by vm_compute in Hc. }
  destruct Hne as (H1 & H2 & H3). apply N.eqb_neq in H1, H2, H3.
  cbn [sh_read]. by rewrite H1, H2, H3, Hc.
Qed.

Lemma sh_read_plain program rest cur words :
  forallb plain_char program = true -> program <> [] ->
  sh_read Unquoted cur words (program ++ rest)
  = sh_read Unquoted (Some (default [] cur ++ program)) words rest.
Proof.
  revert cur. induction program as [|c program IH]; intros cur; [done|].
  cbn [forallb]. intros [Hc Hp]%andb_prop _.
  change ((c :: program) ++ rest) with (c :: (program ++ rest)). rewrite plain_char_step by done.
  destruct program as [|d program]; [done|]. rewrite IH by done.
  change (default [] (push_char cur c)) with (default [] cur ++ [c]). by rewrite <- app_assoc.
Qed.

Lemma sh_read_args args rendered line cur words :
  render_args rendered args = Ok line ->
  (forall rest, sh_read Unquoted None [] (rendered ++ rest) = sh_read Unquoted (Some cur) words rest) ->
  sh_words line = Some (words ++ cur :: args).
Proof.
  revert rendered cur words. induction args as [|a args IH]; intros rendered cur words; cbn [render_args].
  - intros [= <-] Hr. specialize (Hr []). rewrite app_nil_r in Hr. unfold sh_words. by rewrite Hr.
  - intros [quoted [Hq Hl]]%bind_ok Hr.
    rewrite (IH _ a (words ++ [cur]) Hl); [by rewrite <- app_assoc|].
    intros rest. rewrite <- !app_assoc, Hr. cbn [lit app sh_read N.eqb]. cbn.
    by apply sh_read_arg.
Qed.

Definition quotable (value : str) : Prop := (0%N ∉ value) /\ (blen value <= 16384)%N.

Lemma shell_quote_ok value : (exists q, shell_quote value = Ok q) <-> quotable value.
Proof.
  unfold shell_quote, quotable, contains_char. split.
  - intros [q Hq]. destruct (existsb _ value) eqn:E; [done|]. cbn in Hq.
    destruct (16384 <? blen value)%N eqn:El; [done|]. apply N.ltb_ge in El. split; [|done].
    intros Hin%list_elem_of_In. assert (existsb (N.eqb 0) value = true); [|congruence].
    apply existsb_exists. by exists 0%N.
  - intros [Hn Hl]. apply N.ltb_ge in Hl. rewrite Hl.
    destruct (existsb _ value) eqn:E; [|eauto].
    apply existsb_exists in E as (x & Hx%list_elem_of_In & <-%N.eqb_eq). done.
Qed.

Lemma shell_quote_err value e : shell_quote value = Err e -> e = InvalidOperation.
Proof. unfold shell_quote. case_match; congruence. Qed.

Lemma render_args_ok args rendered :
  (exists line, render_args rendered args = Ok line) <-> Forall quotable args.
Proof.
  revert rendered. induction args as [|a args IH]; intros rendered; cbn [render_args].
  - split; [done|eauto].
  - rewrite Forall_cons, <- shell_quote_ok. destruct (shell_quote a) as [q|e]; cbn.
    + rewrite IH. naive_solver.
    + split; [intros []|intros [[] _]]; congruence.
Qed.

Lemma render_words c line : render c = Ok line -> sh_words line = Some (rc_program c :: rc_args c).
Proof.
  unfold render. destruct (is_safe_program (rc_program c)) eqn:Hs; cbn; [|done].
  intros Hl. apply (sh_read_args _ _ _ _ [] Hl). intros rest.
  unfold is_safe_program in Hs. apply andb_prop in Hs as [[Hn _]%andb_prop Hp].
  apply (sh_read_plain (rc_program c) rest None []); [exact Hp|]. by intros E; rewrite E in Hn.
Qed.

Lemma render_accepts c :
  (exists line, render c = Ok line) <-> is_safe_program (rc_program c) = true /\ Forall quotable (rc_args c).
Proof.
  unfold render. destruct (is_safe_program (rc_program c)); cbn.
  - rewrite render_args_ok. naive_solver.
  - split; [intros []; congruence|intros []; congruence].
Qed.

(** C22. A command that is rendered is one line that the shell reads as exactly its
    program and its arguments, whatever characters they hold; it is rendered
    exactly when its program name is safe and every argument is free of NUL and
    at most 16 KiB. *)
Theorem rendered_line_exact c :
  (forall line, render c = Ok line -> sh_words line = Some (rc_program c :: rc_args c)) /\
  ((exists line, render c = Ok line) <-> is_safe_program (rc_program c) = true /\ Forall quotable (rc_args c)).
Proof. split; [by apply render_words|apply render_accepts]. Qed.

(** ** Output *)
Definition data_of (m : ChannelMsg) : list N := match m with MsgData d => d | _ => [] end.
Definition extended_of (m : ChannelMsg) : list N := match m with MsgExtendedData d => d | _ => [] end.
Definition status_of (m : ChannelMsg) : option N := match m with MsgExitStatus n => Some n | _ => None end.

(** All that the channel delivers, and the last status. *)
Definition output (messages : list ChannelMsg) : list N := messages ≫= data_of.
Definition error_output (messages : list ChannelMsg) : list N := messages ≫= extended_of.
Definition last_status (messages : list ChannelMsg) : option N := last (omap status_of messages).

Definition within (limit : N) (l : list N) : bool := (N.of_nat (length l) <=? limit)%N.

Lemma drain_exact limit messages out err code :
  within limit out = true -> within limit err = true ->
  drain limit out err code messages =
  if within limit (out ++ output messages) && within limit (err ++ error_output messages)
  then Ok (out ++ output messages, err ++ error_output messages,
           match last_status messages with Some n => Some n | None => code end)
  else Err ExecOutputLimit.
Proof.
  unfold within, output, error_output, last_status.
  revert out err code. induction messages as [|m ms IH]; intros out err code Ho He.
  - cbn. by rewrite !app_nil_r, Ho, He.
  - rewrite !bind_cons. destruct m as [d|d|n| | |]; cbn [drain data_of extended_of omap list_omap status_of];
      rewrite ?app_nil_l; try (by apply IH).
    + unfold append_bounded. destruct (limit <? _)%N eqn:E; cbn.
      * apply N.ltb_lt in E. symmetry. rewrite (proj2 (N.leb_gt _ _)); [done|]. rewrite !length_app. lia.
      * apply N.ltb_ge in E. rewrite IH; [by rewrite <- app_assoc| |done].
        apply N.leb_le. rewrite length_app. lia.
    + unfold append_bounded. destruct (limit <? _)%N eqn:E; cbn.
      * apply N.ltb_lt in E. symmetry. rewrite andb_comm, (proj2 (N.leb_gt _ _)); [done|].
        rewrite !length_app. lia.
      * apply N.ltb_ge in E. rewrite IH; [by rewrite <- app_assoc|done|].
        apply N.leb_le. rewrite length_app. lia.
    + rewrite IH, last_cons by done. by destruct (last _).
Qed.

(** What a command returns is everything its channel delivered and its last exit
    status; more than the limit on either stream is an error, never a cut. *)
Theorem exec_run_exact attempt command :
  exec_run attempt command =
  match render command with
  | Err e => Err e
  | Ok line =>
      let ch := attempt line in
      if cr_timed_out ch then Err ExecTimedOut
      else if negb (cr_opened ch && cr_executed ch
                    && (bool_decide (rc_stdin command = []) || cr_data_sent ch) && cr_eof_sent ch)
      then Err ExecFailed
      else if negb (within (rc_output_limit command) (output (cr_messages ch))
                    && within (rc_output_limit command) (error_output (cr_messages ch)))
      then Err ExecOutputLimit
      else match last_status (cr_messages ch) with
           | None => Err ExecFailed
           | Some code => Ok {| re_stdout := from_utf8_lossy (output (cr_messages ch));
                                re_stderr := from_utf8_lossy (error_output (cr_messages ch));
                                re_exit_code := code |}
           end
  end.
Proof.
  unfold exec_run. destruct (render command) as [line|e]; [cbn|done].
  destruct (attempt line) as [timed_out opened executed data_sent eof_sent messages]; cbn.
  destruct timed_out, opened, executed; try done.
  destruct (bool_decide _), data_sent, eof_sent; try done;
  (rewrite drain_exact by (unfold within; cbn; apply N.leb_le; lia));
  cbn; (destruct (within _ _ && within _ _); [cbn|done]); by destruct (last_status messages).
Qed.

(** ** Concrete commands *)
Definition hostile_command : RemoteCommand :=
  rc_program_new (lit "git") [lit "-C"; lit "/srv/app name"; lit "a'; touch /tmp/pwn"].

Lemma rendered_line_exact_witness :
  exists line, render hostile_command = Ok line /\
    sh_words line = Some [lit "git"; lit "-C"; lit "/srv/app name"; lit "a'; touch /tmp/pwn"].
Proof.
  assert (Hok : exists line, render hostile_command = Ok line).
  { apply (proj2 (proj2 (rendered_line_exact hostile_command))).
    split; [by vm_compute|]. repeat constructor; vm_compute; try done; set_solver. }
  destruct Hok as [line Hl]. exists line. split; [done|].
  exact (proj1 (rendered_line_exact hostile_command) line Hl).
Defined.

Example hostile_command_rendered :
  render hostile_command = Ok (lit "git '-C' '/srv/app name' 'a'\''; touch /tmp/pwn'").
Proof. by vm_compute. Qed.

(** The first argument of a script is its [$1]: [$0] is the word before it. *)
Example script_arguments :
  rc_args (script (lit "echo") [lit "nginx"; lit "sshd"])
  = [lit "-c"; lit "echo"; lit "runory"; lit "nginx"; lit "sshd"].
Proof. by vm_compute. Qed.
