(* ===== verification/Previews.v ===== *)
(** * Inspecting untrusted bytes (ssh/sftp.rs: previews of images and text)

    The header of a remote image and the encoding of a remote text, read from
    bytes that a server chose.  An index into a slice panics out of range:
    [byte_at] is [None] there, and so is everything that follows; [None] is
    also a loop that runs out of fuel. *)
From S2P Require Import Prelude Str Utf8 Errors.

Abbreviation bytes := (list N) (only parsing).

Record ImageInfo := { im_mime_type : str; im_width : N; im_height : N }.
#[export] Instance image_info_eq_dec : EqDecision ImageInfo.
Proof. solve_decision. Defined.

Definition MAX_IMAGE_DIMENSION : N := 16384.
Definition MAX_IMAGE_PIXELS : N := 40000000.

(** [bytes[i]]. *)
Definition byte_at (bs : bytes) (i : N) : option N := bs !! N.to_nat i.
(** [&bytes[i..j]]. *)
Definition slice (bs : bytes) (i j : N) : option bytes :=
  if (i <=? j)%N && (j <=? N.of_nat (length bs))%N
  then Some (take (N.to_nat (j - i)) (drop (N.to_nat i) bs)) else None.
Definition lenN (bs : bytes) : N := N.of_nat (length bs).

Definition be16 (a b : N) : N := N.lor (N.shiftl a 8) b.
Definition le16 (a b : N) : N := be16 b a.
Definition le32 (a b c d : N) : N := N.lor (N.shiftl (be16 d c) 16) (be16 b a).
Definition be32 (a b c d : N) : N := le32 d c b a.

Definition starts_with_bytes (bs p : bytes) : bool := starts_with bs p.
Definition bytes_eqb (a b : bytes) : bool := bool_decide (a = b).

Definition image (mime : string) (width height : N) : option (AppResult ImageInfo) :=
  Some (Ok {| im_mime_type := lit mime; im_width := width; im_height := height |}).
Arguments image mime%_string width%_N height%_N.
Definition image_invalid : option (AppResult ImageInfo) := Some (Err SftpImageInvalid).

(** ** JPEG *)

(** [while position < bytes.len() && bytes[position] == 0xff { position += 1 }] *)
Fixpoint skip_markers (fuel : nat) (bs : bytes) (position : N) : option N :=
  match fuel with
  | O => None
  | S fuel =>
      if (position <? lenN bs)%N then
        b ← byte_at bs position;
        if (b =? 255)%N then skip_markers fuel bs (position + 1) else Some position
      else Some position
  end.

Definition frame_marker (m : N) : bool :=
  between 192 195 m || between 197 199 m || between 201 203 m || between 205 207 m.

Fixpoint inspect_jpeg_from (fuel : nat) (bs : bytes) (position : N) : option (AppResult ImageInfo) :=
  match fuel with
  | O => None
  | S fuel =>
      if negb (position + 1 <? lenN bs)%N then image_invalid else
      b ← byte_at bs position;
      if negb (b =? 255)%N then image_invalid else
      position ← skip_markers (S (length bs)) bs position;
      if (lenN bs <=? position)%N then image_invalid else
      marker ← byte_at bs position;
      let position := (position + 1)%N in
      if (marker =? 217)%N || (marker =? 218)%N then image_invalid
      else if (marker =? 1)%N || between 208 216 marker then inspect_jpeg_from fuel bs position
      else if (lenN bs <? position + 2)%N then image_invalid
      else
        l0 ← byte_at bs position; l1 ← byte_at bs (position + 1)%N;
        let segment_length := be16 l0 l1 in
        if (segment_length <? 2)%N || (lenN bs <? position + segment_length)%N then image_invalid
        else if frame_marker marker then
          if (segment_length <? 7)%N then image_invalid
          else
            h0 ← byte_at bs (position + 3)%N; h1 ← byte_at bs (position + 4)%N;
            w0 ← byte_at bs (position + 5)%N; w1 ← byte_at bs (position + 6)%N;
            image "image/jpeg" (be16 w0 w1) (be16 h0 h1)
        else inspect_jpeg_from fuel bs (position + segment_length)%N
  end.

Definition inspect_jpeg (bs : bytes) : option (AppResult ImageInfo) :=
  inspect_jpeg_from (S (length bs)) bs 2.

(** ** WebP *)
Definition inspect_webp (bs : bytes) : option (AppResult ImageInfo) :=
  kind ← slice bs 12 16;
  if bytes_eqb kind (lit "VP8X") then
    w0 ← byte_at bs 24; w1 ← byte_at bs 25; w2 ← byte_at bs 26;
    h0 ← byte_at bs 27; h1 ← byte_at bs 28; h2 ← byte_at bs 29;
    image "image/webp" (1 + le32 w0 w1 w2 0) (1 + le32 h0 h1 h2 0)
  else
    lossless ← (if bytes_eqb kind (lit "VP8L") then b ← byte_at bs 20; Some (b =? 47)%N else Some false);
    if (lossless : bool) then
      b21 ← byte_at bs 21; b22 ← byte_at bs 22; b23 ← byte_at bs 23; b24 ← byte_at bs 24;
      image "image/webp" (1 + b21 + N.shiftl (N.land b22 63) 8)
        (1 + N.shiftr b22 6 + N.shiftl b23 2 + N.shiftl (N.land b24 15) 10)
    else
      lossy ← (if bytes_eqb kind (lit "VP8 ") && (30 <=? lenN bs)%N
               then start ← slice bs 23 26; Some (bytes_eqb start [157; 1; 42]%N) else Some false);
      if (lossy : bool) then
        w0 ← byte_at bs 26; w1 ← byte_at bs 27; h0 ← byte_at bs 28; h1 ← byte_at bs 29;
        image "image/webp" (N.land (le16 w0 w1) 16383) (N.land (le16 h0 h1) 16383)
      else image_invalid.

(** ** Images *)
Definition PNG_SIGNATURE : bytes := [137; 80; 78; 71; 13; 10; 26; 10]%N.

Definition inspect_image (bs : bytes) : option (AppResult ImageInfo) :=
  if starts_with_bytes bs PNG_SIGNATURE then
    ihdr ← (if (lenN bs <? 24)%N then Some false
            else h ← slice bs 12 16; Some (bytes_eqb h (lit "IHDR")));
    if (ihdr : bool) then
      w0 ← byte_at bs 16; w1 ← byte_at bs 17; w2 ← byte_at bs 18; w3 ← byte_at bs 19;
      h0 ← byte_at bs 20; h1 ← byte_at bs 21; h2 ← byte_at bs 22; h3 ← byte_at bs 23;
      image "image/png" (be32 w0 w1 w2 w3) (be32 h0 h1 h2 h3)
    else image_invalid
  else if starts_with_bytes bs (lit "GIF87a") || starts_with_bytes bs (lit "GIF89a") then
    if (lenN bs <? 10)%N then image_invalid
    else
      w0 ← byte_at bs 6; w1 ← byte_at bs 7; h0 ← byte_at bs 8; h1 ← byte_at bs 9;
      image "image/gif" (le16 w0 w1) (le16 h0 h1)
  else if starts_with_bytes bs [255; 216]%N then inspect_jpeg bs
  else
    webp ← (if (30 <=? lenN bs)%N && starts_with_bytes bs (lit "RIFF")
            then f ← slice bs 8 12; Some (bytes_eqb f (lit "WEBP")) else Some false);
    if (webp : bool) then inspect_webp bs else Some (Err SftpImageUnsupported).

Definition validate_image_dimensions (width height : N) : AppResult unit :=
  if (width =? 0)%N || (height =? 0)%N || (MAX_IMAGE_DIMENSION <? width)%N
     || (MAX_IMAGE_DIMENSION <? height)%N || (MAX_IMAGE_PIXELS <? width * height)%N
  then Err SftpImageTooLarge else Ok tt.

(** ** Text *)
Fixpoint utf16_units (little_endian : bool) (bs : bytes) : list N :=
  match bs with
  | a :: b :: rest => (if little_endian then le16 a b else be16 a b) :: utf16_units little_endian rest
  | _ => []
  end.

Definition decode_utf16 (bs : bytes) (little_endian : bool) : AppResult str :=
  if negb (N.even (lenN bs)) then Err SftpTextEncodingUnsupported
  else ok_or (from_utf16 (utf16_units little_endian bs)) SftpTextEncodingUnsupported.

Definition binary_char (c : chr) : bool :=
  (c =? 0)%N || (is_control c && negb (existsb (N.eqb c) [10; 13; 9]%N)).

Definition decode_text (bs : bytes) : AppResult (str * str) :=
  '(encoding, content) ←
    match strip_prefix bs [239; 187; 191]%N, strip_prefix bs [255; 254]%N, strip_prefix bs [254; 255]%N with
    | Some content, _, _ =>
        pair (lit "UTF-8 BOM") <$> ok_or (from_utf8 content) SftpTextEncodingUnsupported
    | None, Some content, _ => pair (lit "UTF-16 LE") <$> decode_utf16 content true
    | None, None, Some content => pair (lit "UTF-16 BE") <$> decode_utf16 content false
    | None, None, None => pair (lit "UTF-8") <$> ok_or (from_utf8 bs) SftpTextEncodingUnsupported
    end;
  if existsb binary_char content then Err SftpTextUnsupported else Ok (encoding, content).

(** [value.rsplit(c).next().unwrap_or(value)]. *)
Definition rsplit_first (c : chr) (value : str) : str :=
  match rsplit_once c value with Some (_, after) => after | None => value end.

Definition is_any (s : str) (l : list string) : bool := str_in (map lit l) s.
Arguments is_any s l%_string.

Definition text_language (path : str) : str :=
  let name := to_ascii_lowercase (rsplit_first 47 path) in
  if str_eqb name (lit "dockerfile") then lit "dockerfile"
  else if is_any name ["makefile"; "gnumakefile"]%string then lit "makefile"
  else if is_any name [".env"; ".gitignore"; ".dockerignore"]%string then lit "plaintext"
  else
    match snd <$> rsplit_once 46 name with
    | None => lit "plaintext"
    | Some e =>
        if is_any e ["ts"; "tsx"]%string then lit "typescript"
        else if is_any e ["js"; "jsx"; "mjs"; "cjs"]%string then lit "javascript"
        else if is_any e ["rs"]%string then lit "rust"
        else if is_any e ["py"]%string then lit "python"
        else if is_any e ["go"]%string then lit "go"
        else if is_any e ["java"; "kt"; "kts"]%string then lit "jvm"
        else if is_any e ["c"; "h"; "cc"; "cpp"; "hpp"]%string then lit "c-cpp"
        else if is_any e ["sh"; "bash"; "zsh"]%string then lit "shell"
        else if is_any e ["ps1"; "psm1"]%string then lit "powershell"
        else if is_any e ["json"; "jsonc"]%string then lit "json"
        else if is_any e ["yaml"; "yml"]%string then lit "yaml"
        else if is_any e ["toml"]%string then lit "toml"
        else if is_any e ["xml"; "svg"; "html"; "htm"]%string then lit "markup"
        else if is_any e ["md"; "markdown"]%string then lit "markdown"
        else if is_any e ["sql"]%string then lit "sql"
        else if is_any e ["csv"; "tsv"]%string then lit "delimited"
        else if is_any e ["log"]%string then lit "log"
        else if is_any e ["ini"; "conf"; "cfg"; "properties"]%string then lit "config"
        else lit "plaintext"
    end.

(** ** No header makes the inspection panic *)
Definition is_byte (b : N) : Prop := (b < 256)%N.

Lemma byte_at_some bs i : (i < lenN bs)%N -> exists b, byte_at bs i = Some b.
Proof. intros Hi. apply lookup_lt_is_Some. unfold lenN in Hi. lia. Qed.

Lemma slice_some bs i j : (i <= j)%N -> (j <= lenN bs)%N -> exists s, slice bs i j = Some s.
Proof. intros Hi Hj. unfold slice. apply N.leb_le in Hi, Hj. unfold lenN in Hj. rewrite Hi, Hj. eauto. Qed.

Lemma image_some mime width height : is_Some (image mime width height).
Proof. by eexists. Qed.
Lemma image_invalid_some : is_Some image_invalid.
Proof. by eexists. Qed.
#[local] Hint Resolve image_some image_invalid_some : core.

(** Reads the next byte or slice of a goal, which is in range. *)
Ltac read :=
  match goal with
  | |- context [slice ?bs ?i ?j] =>
      let E := fresh "E" in destruct (slice_some bs i j) as [? E]; [lia|lia|rewrite E]
  | |- context [byte_at ?bs ?i] =>
      let b := fresh "b" in let E := fresh "E" in destruct (byte_at_some bs i) as [b E]; [lia|rewrite E]
  end; cbn [mbind option_bind].

Lemma skip_markers_spec fuel bs position :
  (position <= lenN bs)%N -> (lenN bs - position < N.of_nat fuel)%N ->
  exists p, skip_markers fuel bs position = Some p /\ (position <= p <= lenN bs)%N /\
    (byte_at bs position = Some 255%N -> (position < p)%N).
Proof.
  revert position. induction fuel as [|fuel IH]; intros position Hp Hf; [lia|]. cbn [skip_markers].
  destruct (position <? lenN bs)%N eqn:E; breflect; [|exists position; split_and!; [done|lia|lia|]].
  - read. destruct (b =? 255)%N eqn:Eb; breflect.
    + destruct (IH (position + 1)%N) as (p & Hs & Hr & _); [lia|lia|]. exists p. split_and!; [done|lia|lia|lia].
    + exists position. split_and!; [done|lia|lia|congruence].
  - intros Hb. apply lookup_lt_Some in Hb. unfold lenN in *. lia.
Qed.

Lemma inspect_jpeg_total fuel bs position :
  (lenN bs - position < N.of_nat fuel)%N -> is_Some (inspect_jpeg_from fuel bs position).
Proof.
  revert position. induction fuel as [|fuel IH]; intros position Hf; [lia|]. cbn [inspect_jpeg_from].
  destruct (position + 1 <? lenN bs)%N eqn:E; breflect; [|done]. cbn [negb]. read.
  destruct (b =? 255)%N eqn:Eb; breflect; [|done]. subst b. cbn [negb].
  destruct (skip_markers_spec (S (length bs)) bs position) as (p & -> & Hp & Hlt);
    [lia|unfold lenN in *; lia|]. specialize (Hlt E0). cbn [mbind option_bind].
  destruct (lenN bs <=? p)%N eqn:E1; breflect; [by cbn|]. read.
  destruct (_ || _); [by cbn|]. destruct (_ || _); [apply IH; lia|].
  destruct (lenN bs <? p + 1 + 2)%N eqn:E3; breflect; [by cbn|]. do 2 read. generalize (be16 b1 b0) as seg. intros seg.
  destruct (seg <? 2)%N eqn:E6; [by cbn|]. cbn [orb].
  destruct (lenN bs <? p + 1 + seg)%N eqn:E7; [by cbn|]. breflect.
  destruct (frame_marker b); [|apply IH; lia].
  destruct (seg <? 7)%N eqn:E8; [by cbn|]. breflect. by do 4 read.
Qed.

(** All the reads of a branch, and then its tests. *)
Ltac read_all := repeat read; repeat (case_match; cbn [mbind option_bind]); auto.

Lemma inspect_webp_total bs : (30 <= lenN bs)%N -> is_Some (inspect_webp bs).
Proof. intros Hl. unfold inspect_webp. read_all. Qed.

Lemma inspect_image_total bs : is_Some (inspect_image bs).
Proof.
  unfold inspect_image. destruct (starts_with_bytes bs PNG_SIGNATURE).
  { destruct (lenN bs <? 24)%N eqn:E; breflect; cbn [mbind option_bind]; [done|read_all]. }
  destruct (_ || _).
  { destruct (lenN bs <? 10)%N eqn:E; breflect; [done|read_all]. }
  destruct (starts_with_bytes bs _); [apply inspect_jpeg_total; unfold lenN; lia|].
  destruct (30 <=? lenN bs)%N eqn:E; breflect; cbn [andb mbind option_bind]; [|by eexists].
  destruct (starts_with_bytes bs _); cbn [mbind option_bind]; [read|by eexists].
  destruct (bytes_eqb _ _); [by apply inspect_webp_total|by eexists].
Qed.

(** ** Integers from bytes *)
Lemma be16_value a b : is_byte b -> be16 a b = (a * 256 + b)%N.
Proof.
  intros Hb. unfold be16. change (a * 256)%N with (a * 2 ^ 8)%N. rewrite <- N.shiftl_mul_pow2.
  assert (Hl : N.land (N.shiftl a 8) b = 0%N).
  { apply N.bits_inj_0. intros n. rewrite N.land_spec. destruct (n <? 8)%N eqn:E; breflect.
    - by rewrite N.shiftl_spec_low.
    - apply andb_false_intro2. destruct (decide (b = 0)%N) as [->|]; [apply N.bits_0|].
      apply N.bits_above_log2. apply N.lt_le_trans with 8%N; [|done]. apply N.log2_lt_pow2; [lia|exact Hb]. }
  by rewrite <- N.lxor_lor, <- N.add_nocarry_lxor.
Qed.

Lemma be16_lt a b : is_byte a -> is_byte b -> (be16 a b < 65536)%N.
Proof. intros Ha Hb. rewrite be16_value by done. unfold is_byte in *. lia. Qed.

Lemma le32_value a b c d :
  is_byte a -> is_byte b -> is_byte c ->
  le32 a b c d = (a + b * 256 + c * 65536 + d * 16777216)%N.
Proof.
  intros Ha Hb Hc. unfold le32. rewrite !be16_value by done.
  assert (Hlow : (b * 256 + a < 2 ^ 16)%N) by (unfold is_byte in *; cbn; lia).
  assert (Hl : N.land (N.shiftl (d * 256 + c) 16) (b * 256 + a) = 0%N).
  { apply N.bits_inj_0. intros n. rewrite N.land_spec. destruct (n <? 16)%N eqn:E; breflect.
    - by rewrite N.shiftl_spec_low.
    - apply andb_false_intro2. destruct (decide (b * 256 + a = 0)%N) as [->|]; [apply N.bits_0|].
      apply N.bits_above_log2. apply N.lt_le_trans with 16%N; [|done]. apply N.log2_lt_pow2; [lia|done]. }
  rewrite <- N.lxor_lor, <- N.add_nocarry_lxor, N.shiftl_mul_pow2 by done. change (2 ^ 16)%N with 65536%N. lia.
Qed.

(** The header of a PNG image. *)
Definition be32_bytes (n : N) : bytes :=
  [n / 16777216 mod 256; n / 65536 mod 256; n / 256 mod 256; n mod 256]%N.
Definition png_header (width height : N) : bytes :=
  PNG_SIGNATURE ++ [0; 0; 0; 13]%N ++ lit "IHDR" ++ be32_bytes width ++ be32_bytes height.

Lemma be32_be32_bytes n :
  (n < 4294967296)%N ->
  be32 (n / 16777216 mod 256) (n / 65536 mod 256) (n / 256 mod 256) (n mod 256) = n.
Proof.
  intros Hn. unfold be32. rewrite le32_value by (apply N.mod_lt; lia).
  rewrite <- (N.Div0.div_div n 65536 256 : _ = n / 16777216)%N, <- (N.Div0.div_div n 256 256 : _ = n / 65536)%N.
  pose proof (N.div_mod n 256 ltac:(lia)) as D0. pose proof (N.mod_lt n 256 ltac:(lia)) as R0.
  revert D0 R0. generalize (n mod 256)%N as r0, (n / 256)%N as q1. intros r0 q1 D0 R0.
  pose proof (N.div_mod q1 256 ltac:(lia)) as D1. pose proof (N.mod_lt q1 256 ltac:(lia)) as R1.
  revert D1 R1. generalize (q1 mod 256)%N as r1, (q1 / 256)%N as q2. intros r1 q2 D1 R1.
  pose proof (N.div_mod q2 256 ltac:(lia)) as D2. pose proof (N.mod_lt q2 256 ltac:(lia)) as R2.
  revert D2 R2. generalize (q2 mod 256)%N as r2, (q2 / 256)%N as q3. intros r2 q3 D2 R2.
  rewrite (N.mod_small q3) by lia. lia.
Qed.

Lemma png_header_inspected width height :
  (width < 4294967296)%N -> (height < 4294967296)%N ->
  inspect_image (png_header width height) = image "image/png" width height.
Proof.
  intros Hw Hh. transitivity (image "image/png"
    (be32 (width / 16777216 mod 256) (width / 65536 mod 256) (width / 256 mod 256) (width mod 256))
    (be32 (height / 16777216 mod 256) (height / 65536 mod 256) (height / 256 mod 256) (height mod 256)));
    [reflexivity|]. by rewrite !be32_be32_bytes.
Qed.

Definition known_mime (m : str) : bool := is_any m ["image/png"; "image/gif"; "image/jpeg"; "image/webp"]%string.

(** What an inspection may answer. *)
Definition inspection_ok (r : option (AppResult ImageInfo)) : Prop :=
  match r with
  | Some (Ok i) => known_mime (im_mime_type i) = true
  | Some (Err e) => e = SftpImageInvalid \/ e = SftpImageUnsupported
  | None => True
  end.

Lemma image_ok mime w h : known_mime (lit mime) = true -> inspection_ok (image mime w h).
Proof. done. Qed.
Lemma image_invalid_ok : inspection_ok image_invalid.
Proof. by left. Qed.
Lemma inspection_bind {A} (o : option A) f :
  (forall a, inspection_ok (f a)) -> inspection_ok (o ≫= f).
Proof. intros Hf. destruct o; cbn; auto. Qed.

(** One step of the inspection: a test, a read, or an answer. *)
Ltac inspection :=
  repeat first [exact image_invalid_ok | apply image_ok; by vm_compute | apply inspection_bind; intros ?
               | progress cbn zeta | case_match].

Lemma inspect_jpeg_ok fuel bs position : inspection_ok (inspect_jpeg_from fuel bs position).
Proof.
  revert position. induction fuel as [|fuel IH]; intros position; cbn [inspect_jpeg_from]; [done|].
  inspection; apply IH.
Qed.

Lemma inspect_image_ok bs : inspection_ok (inspect_image bs).
Proof.
  unfold inspect_image, inspect_jpeg, inspect_webp.
  inspection; first [apply inspect_jpeg_ok|by right].
Qed.

(** Inspecting the header of a remote image never panics and always ends, and
    answers one of the four image types or one of two errors; a PNG header is
    read as the dimensions it was written with; and dimensions that pass the
    check are positive, at most 16384 each and at most 40 million pixels, so
    that no decoder is given a bomb. *)
Theorem image_inspection_total bs :
  (exists r, inspect_image bs = Some r /\ inspection_ok (Some r)) /\
  (forall width height, (width < 4294967296)%N -> (height < 4294967296)%N ->
     inspect_image (png_header width height) = image "image/png" width height) /\
  (forall width height, validate_image_dimensions width height = Ok tt <->
     (0 < width <= 16384 /\ 0 < height <= 16384 /\ width * height <= 40000000)%N).
Proof.
  split; [|split].
  - destruct (inspect_image_total bs) as [r Hr]. exists r. split; [done|]. rewrite <- Hr. apply inspect_image_ok.
  - apply png_header_inspected.
  - intros w h. unfold validate_image_dimensions, MAX_IMAGE_DIMENSION, MAX_IMAGE_PIXELS.
    destruct (_ || _) eqn:E.
    + rewrite !orb_true_iff, !N.ltb_lt, !N.eqb_eq in E. split; [done|]. lia.
    + rewrite !orb_false_iff, !N.ltb_ge, !N.eqb_neq in E. split; [|done]. lia.
Qed.

Lemma image_inspection_total_witness :
  inspect_image (png_header 640 480) = image "image/png" 640 480 /\
  validate_image_dimensions 640 480 = Ok tt.
Proof.
  split; [apply (proj1 (proj2 (image_inspection_total []))); done|].
  apply (proj2 (proj2 (image_inspection_total []))). lia.
Defined.

(** ** Text *)
Example utf16_preview : decode_text [255; 254; 104; 0; 105; 0]%N = Ok (lit "UTF-16 LE", lit "hi").
Proof. by vm_compute. Qed.
