(* ===== verification/Sftp.v ===== *)
(** * The SFTP channel of a session (ssh/sftp.rs)

    Paths, listings, and every operation that reads or changes files on a
    server, as [proc]s over the calls of the SFTP client.  The state is the
    channel's current directory, behind its read-write lock; nothing is saved
    on disk.  What the server has is on the other side of the calls.

    The bits that make a mode a directory or a file, and Unicode lower case,
    are third-party tables: [SftpExternals]. *)
From S2P Require Import Prelude Str Utf8 Errors Process Previews.

Definition MAX_REMOTE_PATH_BYTES : N := 4096.
Definition MAX_DELETE_DEPTH : nat := 64.
Definition MAX_DELETE_ENTRIES : N := 10000.
Definition MAX_AI_FILE_BYTES : N := 524288.
Definition MAX_IMAGE_PREVIEW_BYTES : N := 12582912.
Definition MAX_TEXT_PREVIEW_BYTES : N := 2097152.
Definition MAX_TEXT_PREVIEW_LINES : N := 50000.

(** ** Data (domain/sftp.rs and russh_sftp) *)
Inductive FileType := TypeDir | TypeFile | TypeSymlink | TypeOther.
#[export] Instance file_type_eq_dec : EqDecision FileType.
Proof. solve_decision. Defined.

Class SftpExternals := {
  file_type_of : N -> FileType;        (* FileType::from(permissions) *)
  to_lowercase : str -> str;           (* str::to_lowercase *)
}.

Record Metadata := { md_size : option N; md_mtime : option N; md_permissions : option N }.
Record DirEntry := { de_name : str; de_path : str; de_file_type : FileType; de_metadata : Metadata }.

Inductive SftpEntryKind := KindDirectory | KindFile | KindSymlink | KindOther.
Record SftpEntry := {
  se_name : str; se_path : str; se_kind : SftpEntryKind;
  se_size : option N; se_modified : option N; se_permissions : option N }.
Record SftpDirectory := { sd_path : str; sd_entries : list SftpEntry }.
Record SftpMetadata := {
  sm_path : str; sm_kind : SftpEntryKind; sm_size : option N; sm_modified : option N;
  sm_permissions : option N }.
Record RemoteImagePreview := {
  ri_name : str; ri_path : str; ri_mime_type : str; ri_width : N; ri_height : N; ri_size : N;
  ri_data : bytes }.                   (* base64 in the interface *)
Record RemoteTextPreview := {
  rt_name : str; rt_language : str; rt_path : str; rt_encoding : str; rt_size : N;
  rt_line_count : N; rt_content : str }.

Inductive SftpClientError := NoSuchFile | PermissionDenied | OtherStatus | OtherClientError.

Definition map_sftp_error (e : SftpClientError) : AppError :=
  match e with
  | NoSuchFile => SftpNotFound
  | PermissionDenied => SftpPermissionDenied
  | OtherStatus | OtherClientError => SftpOperationFailed
  end.

(** ** Paths *)
Definition slash : chr := 47%N.

Definition validate_entry_name (name : str) : AppResult unit :=
  if is_empty name || str_eqb name (lit ".") || str_eqb name (lit "..") || contains_char name slash
     || contains_char name 0 || (255 <? blen name)%N
  then Err SftpPathInvalid else Ok tt.

Definition validate_remote_path (path : str) : AppResult unit :=
  if (MAX_REMOTE_PATH_BYTES <? blen path)%N || contains_char path 0 then Err SftpPathInvalid else Ok tt.

Definition trim_slashes (path : str) : str := trim_end_matches (N.eqb slash) path.

Definition remote_candidate (current path : str) : str :=
  if starts_with path [slash] then path
  else if is_empty path || str_eqb path (lit ".") then current
  else if str_eqb current [slash] then slash :: path
  else trim_slashes current ++ slash :: path.

(** [rfind('/')]: what is before the last slash. *)
Definition remote_parent (path : str) : AppResult str :=
  '(before, _) ← ok_or (rsplit_once slash (trim_slashes path)) SftpPathInvalid;
  if is_empty before then Ok [slash] else Ok before.

Definition remote_name (path : str) : AppResult str :=
  let name := rsplit_first slash (trim_slashes path) in
  validate_entry_name name;; Ok name.

Definition destination_in_directory (directory name : str) : AppResult str :=
  validate_entry_name name;;
  let path := if str_eqb directory [slash] then slash :: name
              else trim_slashes directory ++ slash :: name in
  validate_remote_path path;; Ok path.

Definition entry_kind (t : FileType) : SftpEntryKind :=
  match t with
  | TypeDir => KindDirectory | TypeFile => KindFile | TypeSymlink => KindSymlink | TypeOther => KindOther
  end.

Definition entry_rank (k : SftpEntryKind) : N :=
  match k with KindDirectory => 0 | KindSymlink => 1 | KindFile => 2 | KindOther => 3 end.

(** ** Calls *)
Abbreviation sftp_result A := (result SftpClientError A) (only parsing).

(** An open file is known by the path it was opened with. *)
Inductive SfQuery :=
  | SfCanonicalize (path : str)
  | SfMetadata (path : str)
  | SfSymlinkMetadata (path : str)
  | SfReadDir (path : str)
  | SfTryExists (path : str)
  | SfCreateDir (path : str)
  | SfRename (source destination : str)
  | SfRemoveDir (path : str)
  | SfRemoveFile (path : str)
  | SfOpen (path : str)
  | SfReadToEnd (path : str) (limit : option N)   (* [take(limit)] first *)
  | SfCreate (path : str)
  | SfWriteAll (path : str) (content : bytes)
  | SfFlush (path : str)
  | SfSyncAll (path : str)
  | SfClose (path : str).

(** Input and output on an open file only succeed or fail. *)
Definition SfAnswer (q : SfQuery) : Type :=
  match q with
  | SfCanonicalize _ => sftp_result str
  | SfMetadata _ | SfSymlinkMetadata _ => sftp_result Metadata
  | SfReadDir _ => sftp_result (list DirEntry)
  | SfTryExists _ => sftp_result bool
  | SfCreateDir _ | SfRename _ _ | SfRemoveDir _ | SfRemoveFile _ | SfOpen _ | SfCreate _ => sftp_result unit
  | SfReadToEnd _ _ => option bytes
  | SfWriteAll _ _ | SfFlush _ | SfSyncAll _ | SfClose _ => bool
  end.

Abbreviation SfProc := (proc str unit SfQuery SfAnswer) (only parsing).

(** [.await.map_err(map_sftp_error)?] *)
Definition sftp_ok {A} (r : sftp_result A) : AppResult A :=
  match r with Ok a => Ok a | Err e => Err (map_sftp_error e) end.
Definition call {A} (q : SfQuery) (answer : SfAnswer q -> AppResult A) : SfProc A :=
  a ← ask q; lift (answer a).
Definition io_ok (done : bool) : AppResult unit := if done then Ok tt else Err SftpOperationFailed.

Definition canonicalize (p : str) : SfProc str := call (SfCanonicalize p) sftp_ok.
Definition metadata (p : str) : SfProc Metadata := call (SfMetadata p) sftp_ok.
Definition symlink_metadata (p : str) : SfProc Metadata := call (SfSymlinkMetadata p) sftp_ok.
Definition read_dir (p : str) : SfProc (list DirEntry) := call (SfReadDir p) sftp_ok.
Definition try_exists (p : str) : SfProc bool := call (SfTryExists p) sftp_ok.
Definition create_dir (p : str) : SfProc unit := call (SfCreateDir p) sftp_ok.
Definition session_rename (a b : str) : SfProc unit := call (SfRename a b) sftp_ok.
Definition remove_dir (p : str) : SfProc unit := call (SfRemoveDir p) sftp_ok.
Definition remove_file (p : str) : SfProc unit := call (SfRemoveFile p) sftp_ok.
Definition open_file (p : str) : SfProc unit := call (SfOpen p) sftp_ok.
Definition create_file (p : str) : SfProc unit := call (SfCreate p) sftp_ok.
Definition read_to_end (p : str) (limit : option N) : SfProc bytes :=
  call (SfReadToEnd p limit) (fun o => ok_or o SftpOperationFailed).
Definition write_all (p : str) (content : bytes) : SfProc unit := call (SfWriteAll p content) io_ok.
Definition flush (p : str) : SfProc unit := call (SfFlush p) io_ok.
Definition sync_all (p : str) : SfProc unit := call (SfSyncAll p) io_ok.
Definition close_file (p : str) : SfProc unit := call (SfClose p) io_ok.

Definition current_directory : SfProc str := locked (fun current => Leave current (Ok current)).
Definition set_current_directory (path : str) : SfProc unit := locked (fun _ => Leave path (Ok tt)).

(** ** The operations *)
Section Channel.
Context `{SftpExternals}.

(** [metadata.permissions.map(FileType::from).unwrap_or(FileType::Other)]. *)
Definition type_of (m : Metadata) : FileType :=
  match md_permissions m with Some p => file_type_of p | None => TypeOther end.

Definition metadata_response (path : str) (m : Metadata) : SftpMetadata :=
  {| sm_path := path;
     sm_kind := match md_permissions m with Some p => entry_kind (file_type_of p) | None => KindOther end;
     sm_size := md_size m; sm_modified := md_mtime m; sm_permissions := md_permissions m |}.

Definition resolve_path (path : str) : SfProc str :=
  lift (validate_remote_path path) ;;
  current ← current_directory;
  canonical ← canonicalize (remote_candidate current path);
  lift (validate_remote_path canonical) ;;
  mret canonical.

Definition resolve_directory (path : str) : SfProc str :=
  resolved ← resolve_path path;
  m ← metadata resolved;
  if bool_decide (type_of m = TypeDir) then mret resolved else lift (Err SftpNotDirectory).

(** [resolve_write_destination]: the parent is resolved, the last name is not. *)
Definition resolve_write_destination (path : str) : SfProc str :=
  lift (validate_remote_path path) ;;
  current ← current_directory;
  let candidate := remote_candidate current path in
  name ← lift (remote_name candidate);
  parent ← lift (remote_parent candidate);
  parent ← canonicalize parent;
  lift (destination_in_directory parent name).

Definition resolve_entry (path : str) : SfProc str :=
  resolved ← resolve_write_destination path;
  symlink_metadata resolved ;;
  mret resolved.

Definition resolve_upload_destination (directory name : str) : SfProc str :=
  directory ← resolve_directory directory;
  lift (destination_in_directory directory name).

Definition resolve_download_source (path : str) : SfProc (str * N) :=
  path ← resolve_entry path;
  m ← metadata path;
  if bool_decide (type_of m = TypeFile) then mret (path, default 0%N (md_size m))
  else lift (Err SftpNotFile).

Definition is_dot (name : str) : bool := str_eqb name (lit ".") || str_eqb name (lit "..").
Definition real_entries (entries : list DirEntry) : list DirEntry :=
  List.filter (fun e => negb (is_dot (de_name e))) entries.

Definition entry_leb (a b : SftpEntry) : bool :=
  let ra := entry_rank (se_kind a) in let rb := entry_rank (se_kind b) in
  (ra <? rb)%N || ((ra =? rb)%N && str_leb (to_lowercase (se_name a)) (to_lowercase (se_name b))).

Definition listed (e : DirEntry) : SftpEntry :=
  {| se_name := de_name e; se_path := de_path e; se_kind := entry_kind (de_file_type e);
     se_size := md_size (de_metadata e); se_modified := md_mtime (de_metadata e);
     se_permissions := md_permissions (de_metadata e) |}.

Definition list_directory (path : str) : SfProc SftpDirectory :=
  path ← resolve_directory path;
  entries ← read_dir path;
  mret {| sd_path := path; sd_entries := sort_by entry_leb (map listed (real_entries entries)) |}.

Definition stat (path : str) : SfProc SftpMetadata :=
  path ← resolve_path path;
  m ← metadata path;
  mret (metadata_response path m).

Definition change_directory (path : str) : SfProc SftpDirectory :=
  directory ← list_directory path;
  set_current_directory (sd_path directory) ;;
  mret directory.

Definition refresh : SfProc SftpDirectory :=
  current ← current_directory;
  list_directory current.

Definition create_directory (parent name : str) : SfProc SftpDirectory :=
  parent ← resolve_directory parent;
  path ← lift (destination_in_directory parent name);
  create_dir path ;;
  list_directory parent.

Definition rename (path new_name : str) : SfProc SftpDirectory :=
  source ← resolve_entry path;
  parent ← lift (remote_parent source);
  destination ← lift (destination_in_directory parent new_name);
  exists_ ← try_exists destination;
  if (exists_ : bool) then lift (Err SftpAlreadyExists)
  else
    session_rename source destination ;;
    list_directory parent.

(** *** Deletion *)
Section Entries.
(** [removed] is threaded through the loop, which stops at the first error. *)
Context (delete_tree : str -> N -> SfProc N) (path : str).
Fixpoint delete_entries (entries : list DirEntry) (removed : N) : SfProc N :=
  match entries with
  | [] => mret removed
  | e :: rest =>
      let removed := (removed + 1)%N in
      if (MAX_DELETE_ENTRIES <? removed)%N then lift (Err SftpDeleteLimitExceeded)
      else
        entry_path ← lift (destination_in_directory path (de_name e));
        removed ← (if bool_decide (de_file_type e = TypeDir) then delete_tree entry_path removed
                   else remove_file entry_path ;; mret removed);
        delete_entries rest removed
  end.
End Entries.

(** [depth_left] is [MAX_DELETE_DEPTH - depth]. *)
Fixpoint delete_directory_tree (depth_left : nat) (path : str) (removed : N) : SfProc N :=
  match depth_left with
  | O => lift (Err SftpDeleteLimitExceeded)
  | S depth_left =>
      if (MAX_DELETE_ENTRIES <=? removed)%N then lift (Err SftpDeleteLimitExceeded)
      else
        entries ← read_dir path;
        removed ← delete_entries (delete_directory_tree depth_left) path (real_entries entries) removed;
        remove_dir path ;;
        mret removed
  end.

Definition delete (path : str) (recursive : bool) : SfProc SftpDirectory :=
  path ← resolve_entry path;
  parent ← lift (remote_parent path);
  m ← symlink_metadata path;
  (if bool_decide (type_of m = TypeDir) then
     if recursive then delete_directory_tree MAX_DELETE_DEPTH path 0 ;; mret tt
     else remove_dir path
   else remove_file path) ;;
  list_directory parent.

(** *** Reading *)
Definition read_text (path : str) : SfProc (str * str) :=
  '(path, size) ← resolve_download_source path;
  if (MAX_AI_FILE_BYTES <? size)%N then lift (Err InvalidOperation)
  else
    open_file path ;;
    bs ← read_to_end path None;
    if (MAX_AI_FILE_BYTES <? lenN bs)%N then lift (Err InvalidOperation)
    else
      content ← lift (ok_or (from_utf8 bs) InvalidOperation);
      mret (path, content).

(** The answer of [inspect_image], a panic where it has none. *)
Definition read_image_preview (path : str) : SfProc RemoteImagePreview :=
  '(path, size) ← resolve_download_source path;
  if (MAX_IMAGE_PREVIEW_BYTES <? size)%N then lift (Err SftpImageTooLarge)
  else
    open_file path ;;
    bs ← read_to_end path (Some (MAX_IMAGE_PREVIEW_BYTES + 1)%N);
    if (MAX_IMAGE_PREVIEW_BYTES <? lenN bs)%N then lift (Err SftpImageTooLarge)
    else
      inspected ← indexed (inspect_image bs);
      i ← lift inspected;
      lift (validate_image_dimensions (im_width i) (im_height i)) ;;
      name ← lift (remote_name path);
      mret {| ri_name := name; ri_path := path; ri_mime_type := im_mime_type i;
              ri_width := im_width i; ri_height := im_height i; ri_size := lenN bs; ri_data := bs |}.

Definition line_count (content : str) : N :=
  if is_empty content then 0%N else (N.of_nat (length (List.filter (N.eqb 10) content)) + 1)%N.

Definition read_text_preview (path : str) : SfProc RemoteTextPreview :=
  '(path, size) ← resolve_download_source path;
  if (MAX_TEXT_PREVIEW_BYTES <? size)%N then lift (Err SftpTextTooLarge)
  else
    open_file path ;;
    bs ← read_to_end path (Some (MAX_TEXT_PREVIEW_BYTES + 1)%N);
    if (MAX_TEXT_PREVIEW_BYTES <? lenN bs)%N then lift (Err SftpTextTooLarge)
    else
      '(encoding, content) ← lift (decode_text bs);
      if (MAX_TEXT_PREVIEW_LINES <? line_count content)%N then lift (Err SftpTextTooLarge)
      else
        name ← lift (remote_name path);
        mret {| rt_name := name; rt_language := text_language path; rt_path := path;
                rt_encoding := encoding; rt_size := lenN bs; rt_line_count := line_count content;
                rt_content := content |}.

(** *** Writing *)

(** The inner block: the temporary file written, and moved over the
    destination.  Its error is the value, for the caller to clean up after. *)
Definition attempt {A} (p : SfProc A) : SfProc (AppResult A) :=
  (fix go (p : SfProc A) : SfProc (AppResult A) :=
     match p with
     | Done r => Done (Ok r)
     | Panicked => Panicked
     | Locked section k => Locked section (fun x => go (k x))
     | Asking q k => Asking q (fun a => go (k a))
     end) p.

Definition replace_with_temporary (temporary destination : str) (content : bytes) : SfProc unit :=
  write_all temporary content ;;
  flush temporary ;;
  sync_all temporary ;;
  close_file temporary ;;
  exists_ ← ask (SfTryExists destination);
  (if match exists_ with Ok b => b | Err _ => false end then remove_file destination else mret tt) ;;
  session_rename temporary destination.

Definition temporary_name (uuid : str) : str := lit ".runory-agent-" ++ uuid ++ lit ".tmp".

(** [uuid] is the text of the identifier that is drawn. *)
Definition write_text (uuid path content : str) : SfProc (str * N) :=
  if (MAX_AI_FILE_BYTES <? blen content)%N || contains_char content 0 then lift (Err InvalidOperation)
  else
    destination ← resolve_write_destination path;
    parent ← lift (remote_parent destination);
    temporary ← lift (destination_in_directory parent (temporary_name uuid));
    create_file temporary ;;
    outcome ← attempt (replace_with_temporary temporary destination (utf8_encode content));
    (match outcome with Err _ => ask (SfRemoveFile temporary) ;; mret tt | Ok _ => mret tt end) ;;
    lift outcome ;;
    mret (destination, blen content).
End Channel.
