(* ===== verification/SftpTheorems.v ===== *)
(** * What the SFTP channel promises

    Names cannot leave the directory they are joined to; a recursive deletion
    stays below the entry it was asked for, follows no symbolic link and is
    bounded; and a write replaces its destination as a whole. *)
From S2P Require Import Prelude Str Utf8 Errors Process Previews Sftp.

Abbreviation SfEv := (event unit SfQuery SfAnswer) (only parsing).

(** [q] was called and answered [a]. *)
Definition asked (past : list SfEv) (q : SfQuery) (a : SfAnswer q) : Prop := EvAsked q a ∈ past.

(** ** Paths *)
Definition valid_name (name : str) : Prop := validate_entry_name name = Ok tt.

Lemma valid_name_inv name :
  valid_name name -> name <> [] /\ (slash ∉ name) /\ name <> lit "." /\ name <> lit "..".
Proof.
  unfold valid_name, validate_entry_name, contains_char. intros Hv.
  destruct (is_empty name) eqn:E1; [done|]. destruct (str_eqb name (lit ".")) eqn:E2; [done|].
  destruct (str_eqb name (lit "..")) eqn:E3; [done|]. destruct (existsb (N.eqb slash) name) eqn:E4; [done|].
  split_and!.
  - by apply is_empty_false.
  - intros Hin%list_elem_of_In. assert (existsb (N.eqb slash) name = true); [|congruence].
    apply existsb_exists. exists slash. split; [done|apply N.eqb_refl].
  - intros ->. by rewrite str_eqb_refl in E2.
  - intros ->. by rewrite str_eqb_refl in E3.
Qed.

Lemma destination_inv directory name p :
  destination_in_directory directory name = Ok p ->
  valid_name name /\ p = trim_slashes directory ++ slash :: name /\ validate_remote_path p = Ok tt.
Proof.
  unfold destination_in_directory. intros H. apply bind_ok in H as ([] & Hv & H).
  apply bind_ok in H as ([] & Hp & [= <-]). split; [done|]. split; [|done].
  destruct (str_eqb directory [slash]) eqn:E; [|done]. apply str_eqb_eq in E as ->. done.
Qed.

Lemma trim_slashes_name prefix name :
  name <> [] -> slash ∉ name -> trim_slashes (prefix ++ slash :: name) = prefix ++ slash :: name.
Proof.
  intros Hne Hs. unfold trim_slashes, trim_end_matches.
  replace (prefix ++ slash :: name) with ((prefix ++ [slash]) ++ name) by (by rewrite <- app_assoc).
  rewrite rev_app_distr. destruct (rev name) as [|c t] eqn:E.
  { apply (f_equal (@rev N)) in E. rewrite rev_involutive in E. by cbn in E. }
  assert (Hc : c ∈ name) by (apply list_elem_of_In, in_rev; rewrite E; by left).
  cbn [app drop_while]. destruct (slash =? c)%N eqn:Ec; [apply N.eqb_eq in Ec; by subst c|].
  change (c :: t ++ rev (prefix ++ [slash])) with ((c :: t) ++ rev (prefix ++ [slash])).
  by rewrite <- E, <- rev_app_distr, rev_involutive.
Qed.

Lemma destination_name directory name p :
  destination_in_directory directory name = Ok p ->
  remote_name p = Ok name /\
  remote_parent p = Ok (if is_empty (trim_slashes directory) then [slash] else trim_slashes directory).
Proof.
  intros (Hv & -> & _)%destination_inv. destruct (valid_name_inv _ Hv) as (Hne & Hs & _).
  unfold remote_name, remote_parent. rewrite trim_slashes_name by done.
  unfold rsplit_first. rewrite rsplit_once_sep by done. cbn. split; [|by destruct (is_empty _)].
  unfold valid_name in Hv. by rewrite Hv.
Qed.

Lemma exists_last_or_nil {A} (l : list A) : l = [] \/ exists before x, l = before ++ [x].
Proof. destruct l as [|a l] using rev_ind; [by left|right; eauto]. Qed.

(** The entry reached from [root] by these names. *)
Definition below (root : str) (names : list str) : str :=
  match names with [] => root | _ => trim_slashes root ++ concat (map (cons slash) names) end.

Lemma below_snoc root names name p :
  Forall valid_name names -> destination_in_directory (below root names) name = Ok p ->
  Forall valid_name (names ++ [name]) /\ p = below root (names ++ [name]).
Proof.
  intros Hv (Hn & -> & _)%destination_inv. split; [by apply Forall_app; split; [|constructor]|].
  destruct (exists_last_or_nil names) as [->|(before & last_ & ->)]; [cbn; by rewrite app_nil_r|].
  apply Forall_app in Hv as [_ Hlast]. inversion Hlast as [|? ? Hvl _]; subst.
  destruct (valid_name_inv _ Hvl) as (Hne & Hs & _).
  assert (Hb : forall l x, below root (l ++ [x]) = trim_slashes root ++ concat (map (cons slash) (l ++ [x])))
    by (by intros [|? ?] x).
  rewrite !Hb, !map_app, !concat_app. cbn [map concat]. rewrite !app_nil_r.
  by rewrite (app_assoc (trim_slashes root)), trim_slashes_name, <- !app_assoc by done.
Qed.

(** ** Deletion *)
Definition removal (e : SfEv) : bool :=
  match e with EvAsked (SfRemoveFile _ | SfRemoveDir _) _ => true | _ => false end.
Definition removals (past : list SfEv) : N := N.of_nat (length (List.filter removal past)).

Lemma removals_snoc past e : removals (past ++ [e]) = (removals past + if removal e then 1 else 0)%N.
Proof.
  unfold removals. rewrite List.filter_app, length_app. cbn [List.filter]. destruct (removal e); cbn; lia.
Qed.

Section Deletion.
Context `{SftpExternals}.

(** The entry that [path] names, as the server resolved its parent. *)
Definition resolved (past : list SfEv) (path root : str) : Prop :=
  exists current parent directory name,
    remote_parent (remote_candidate current path) = Ok parent /\
    remote_name (remote_candidate current path) = Ok name /\
    asked past (SfCanonicalize parent) (Ok directory) /\
    destination_in_directory directory name = Ok root.

(** A directory the deletion is in: the entry itself, or one that was listed as
    a directory - not as a symbolic link - in a directory it is in. *)
Inductive entered (past : list SfEv) (path : str) : str -> Prop :=
  | entered_root root m :
      resolved past path root -> asked past (SfSymlinkMetadata root) (Ok m) ->
      type_of m = TypeDir -> entered past path root
  | entered_child p entries e p' :
      entered past path p -> asked past (SfReadDir p) (Ok entries) -> e ∈ entries ->
      de_file_type e = TypeDir -> destination_in_directory p (de_name e) = Ok p' ->
      entered past path p'.

Definition removable (path : str) (past : list SfEv) (q : SfQuery) : Prop :=
  match q with
  | SfRemoveDir p => entered past path p /\ (removals past <= MAX_DELETE_ENTRIES)%N
  | SfRemoveFile p =>
      ((resolved past path p /\ exists m, asked past (SfSymlinkMetadata p) (Ok m) /\ type_of m <> TypeDir)
       \/ exists d entries e,
            entered past path d /\ asked past (SfReadDir d) (Ok entries) /\ e ∈ entries /\
            de_file_type e <> TypeDir /\ destination_in_directory d (de_name e) = Ok p)
      /\ (removals past <= MAX_DELETE_ENTRIES)%N
  | SfCreateDir _ | SfRename _ _ | SfCreate _ | SfWriteAll _ _ => False
  | _ => True
  end.

Lemma asked_mono past past' q a : past ⊆ past' -> asked past q a -> asked past' q a.
Proof. unfold asked. auto. Qed.
#[local] Hint Resolve asked_mono : core.

Lemma resolved_mono past past' path root : past ⊆ past' -> resolved past path root -> resolved past' path root.
Proof. intros Hp (c & p & d & n & ? & ? & Hin & ?). exists c, p, d, n. split_and!; eauto. Qed.

Lemma entered_mono past past' path p : past ⊆ past' -> entered past path p -> entered past' path p.
Proof.
  intros Hp. induction 1 as [root m Hr Hm Ht|p entries e p' _ IH Hl He Ht Hd].
  - eapply entered_root; [by eapply resolved_mono|by eapply asked_mono|done].
  - eapply entered_child; eauto.
Qed.

Lemma grow (past : list SfEv) e : past ⊆ past ++ [e].
Proof. intros x Hx. apply elem_of_app. by left. Qed.
Lemma last_in (past : list SfEv) e : e ∈ past ++ [e].
Proof. apply elem_of_app. right. by apply list_elem_of_singleton. Qed.

Section OneDeletion.
Context (path : str).
Abbreviation P := (removable path) (only parsing).

Lemma follows_call {A} past q (answer : SfAnswer q -> AppResult A) (Post : list SfEv -> A -> Prop) :
  removable path past q ->
  (forall a v, answer a = Ok v -> Post (past ++ [EvAsked q a]) v) ->
  follows P past (call q answer) Post.
Proof.
  intros Hq HP. unfold call. apply follows_mbind. split; [done|]. intros a.
  cbn [follows]. apply follows_lift.
  intros v Hv. exact (HP a v Hv).
Qed.

Lemma sftp_ok_inv {A} (r : result SftpClientError A) v : sftp_ok r = Ok v -> r = Ok v.
Proof. destruct r; cbn; [by intros [= ->]|done]. Qed.

(** The steps shared by the proofs below. *)
Ltac step := apply follows_mbind; first [apply follows_call; [done|] | apply follows_lift].

Lemma list_directory_follows past p : follows P past (list_directory p) (fun _ _ => True).
Proof.
  unfold list_directory, resolve_directory, resolve_path. apply follows_mbind, follows_mbind.
  step. intros [] _. apply follows_mbind. intros current. cbn [follows]. step. intros canonical v _.
  step. intros [] _. cbn [follows mret proc_ret]. step. intros m md _.
  case_bool_decide; [|done]. cbn [follows mret proc_ret]. by step.
Qed.

Lemma delete_entries_follows tree p entries listed_ past s removed Post :
  (forall past' p' removed', entered past' path p' -> (removed' <= MAX_DELETE_ENTRIES)%N ->
     (removals past' + s + 1 <= removed')%N ->
     follows P past' (tree p' removed') (fun past2 removed2 =>
       past' ⊆ past2 /\ (removals past2 + s <= removed2)%N /\ (removed2 <= MAX_DELETE_ENTRIES)%N)) ->
  entered past path p -> asked past (SfReadDir p) (Ok listed_) -> (forall e, e ∈ entries -> e ∈ listed_) ->
  (removed <= MAX_DELETE_ENTRIES)%N -> (removals past + s <= removed)%N ->
  (forall past' removed', past ⊆ past' -> (removals past' + s <= removed')%N ->
     (removed' <= MAX_DELETE_ENTRIES)%N -> Post past' removed') ->
  follows P past (delete_entries tree p entries removed) Post.
Proof.
  intros Htree. revert past removed. induction entries as [|e entries IH]; intros past removed He Hl Hin Hm Hr HP.
  { by apply HP. }
  cbn [delete_entries]. destruct (MAX_DELETE_ENTRIES <? removed + 1)%N eqn:E; breflect; [done|].
  step. intros p' Hp'. apply follows_mbind.
  assert (Hnext : forall past2 removed2, past ⊆ past2 -> (removals past2 + s <= removed2)%N ->
    (removed2 <= MAX_DELETE_ENTRIES)%N -> follows P past2 (delete_entries tree p entries removed2) Post).
  { intros past2 removed2 Hsub Hr2 Hm2. apply IH; [by eapply entered_mono|by eapply asked_mono| |done|done|].
    - intros x Hx. apply Hin. by right.
    - intros past3 removed3 Hs3. apply HP. by etransitivity. }
  case_bool_decide as Ht.
  - eapply follows_mono; [apply Htree|].
    + eapply entered_child; [done|done|apply Hin; by left|done|done].
    + lia.
    + lia.
    + intros past2 removed2 (Hs2 & Hr2 & Hm2). by apply Hnext.
  - apply follows_mbind. apply follows_call.
    + split; [|lia]. right. exists p, listed_, e. split_and!; auto. apply Hin. by left.
    + intros a [] _. cbn [follows mret proc_ret]. apply Hnext; [apply grow|rewrite removals_snoc; cbn; lia|lia].
Qed.

Lemma delete_tree_follows depth past p s removed :
  entered past path p -> (removed <= MAX_DELETE_ENTRIES)%N -> (removals past + s <= removed)%N ->
  follows P past (delete_directory_tree depth p removed) (fun past' removed' =>
    past ⊆ past' /\ (removals past' + s <= removed' + 1)%N /\ (removed' <= MAX_DELETE_ENTRIES)%N).
Proof.
  revert past p s removed. induction depth as [|depth IH]; intros past p s removed He Hm Hr; [done|].
  cbn [delete_directory_tree]. case_match; [done|].
  step. intros a entries ->%sftp_ok_inv. apply follows_mbind.
  apply (delete_entries_follows _ _ _ entries _ s).
  - intros past' p' removed' He' Hm' Hr'.
    eapply follows_mono; [apply (IH past' p' (s + 1)%N removed' He' Hm'); lia|].
    cbn. intros past2 removed2 (? & ? & ?). split_and!; [done|lia|lia].
  - eapply entered_mono; [apply grow|done].
  - apply last_in.
  - intros e Hin%list_elem_of_In. apply filter_In in Hin as [? _]. by apply list_elem_of_In.
  - done.
  - rewrite removals_snoc. cbn. lia.
  - intros past' removed' Hs' Hr' Hm'. apply follows_mbind. apply follows_call.
    + split; [|lia]. eapply entered_mono; [|done]. etransitivity; [apply grow|done].
    + intros a2 [] _. cbn [follows mret proc_ret]. split_and!; [|rewrite removals_snoc; cbn; lia|done].
      etransitivity; [apply grow|]. etransitivity; [done|apply grow].
Qed.

Lemma resolve_entry_follows past :
  follows P past (resolve_entry path) (fun past' root =>
    resolved past' path root /\ removals past' = removals past).
Proof.
  unfold resolve_entry, resolve_write_destination. apply follows_mbind.
  step. intros [] _. apply follows_mbind. intros current. cbn [follows].
  step. intros name Hname. step. intros parent Hparent. step. intros a directory ->%sftp_ok_inv.
  apply follows_lift. intros root Hroot. step. intros m md _. cbn [follows mret proc_ret]. split.
  - exists current, parent, directory, name. split_and!; try done. eapply asked_mono; [apply grow|apply last_in].
  - rewrite !removals_snoc. cbn. lia.
Qed.

Lemma delete_follows recursive : follows P [] (delete path recursive) (fun _ _ => True).
Proof.
  unfold delete. apply follows_mbind. eapply follows_mono; [apply resolve_entry_follows|].
  cbn beta. intros past root [Hres Hzero]. step. intros parent _. step. intros a m ->%sftp_ok_inv.
  set (past' := past ++ [_]).
  assert (Hzero' : (removals past' <= MAX_DELETE_ENTRIES)%N).
  { unfold past'. rewrite removals_snoc, Hzero. done. }
  assert (Hres' : resolved past' path root) by (eapply resolved_mono; [apply grow|done]).
  apply follows_mbind. case_bool_decide as Ht.
  - assert (He : entered past' path root) by (eapply entered_root; [done|apply last_in|done]).
    destruct recursive.
    + apply follows_mbind. eapply follows_mono; [apply (delete_tree_follows _ _ _ 0%N _ He); [done|]|].
      * unfold past'. rewrite removals_snoc, Hzero. done.
      * intros past2 removed _. apply list_directory_follows.
    + apply follows_call; [by split|]. intros a2 [] _. apply list_directory_follows.
  - apply follows_call.
    + split; [|done]. left. split; [done|]. exists m. split; [apply last_in|done].
    + intros a2 [] _. apply list_directory_follows.
Qed.
End OneDeletion.

(** What a deletion is in lies below the entry it was asked for, by valid names. *)
Lemma entered_below past path p :
  entered past path p -> exists root names,
    resolved past path root /\ Forall valid_name names /\ p = below root names.
Proof.
  induction 1 as [root m Hr Hm Ht|p entries e p' _ (root & names & Hr & Hv & ->) Hl He Ht Hd].
  - by exists root, [].
  - destruct (below_snoc _ _ _ _ Hv Hd) as [Hv' ->]. by exists root, (names ++ [de_name e]).
Qed.
End Deletion.

(** C21. A deletion removes only the entry it was asked for, as the server resolved
    its directory, and what it finds below: files and directories that a
    directory it is in listed under a valid name, entering only those listed as
    directories, so that a symbolic link is removed and never followed.  Before
    each removal at most ten thousand were made; nothing is created, renamed
    or written. *)
Theorem deletion_confined `{SftpExternals} {E} (answer : E -> forall q, SfAnswer q * E) save
    path recursive s env r s' env' log l1 q a l2 :
  run answer save (delete path recursive) s env [] = (r, s', env', log) ->
  log = l1 ++ EvAsked q a :: l2 ->
  removable path l1 q /\
  match q with
  | SfRemoveFile p | SfRemoveDir p =>
      exists root names, resolved l1 path root /\ Forall valid_name names /\ p = below root names
  | _ => True
  end.
Proof.
  intros Hrun Hlog.
  destruct (follows_run_calls _ _ _ _ _ _ _ _ _ _ _ _ _ (delete_follows path recursive) Hrun)
    as (evs & Hevs & HP).
  cbn in Hevs. rewrite Hlog in Hevs. symmetry in Hevs. specialize (HP l1 q a l2 Hevs). cbn in HP.
  split; [done|]. destruct q as [| | | | | | |p|p| | | | | | |]; try done; cbn in HP.
  - apply (entered_below l1), HP.
  - destruct HP as [[(Hres & _)|(d & es & e & He & _ & _ & _ & Hd)] _]; [by exists p, []|].
    apply entered_below in He as (root & names & Hr & Hv & ->).
    destruct (below_snoc _ _ _ _ Hv Hd) as [Hv' ->]. by exists root, (names ++ [de_name e]).
Qed.

(** ** What a server does with its files

    The documented effect of each call on the files of a server: a call that
    fails changes nothing, but a write that fails may leave anything in the
    file it was writing.  Directories are not tracked. *)
Abbreviation store := (gmap (list N) (list N)) (only parsing).

Definition effect (q : SfQuery) : SfAnswer q -> store -> store -> Prop :=
  match q return SfAnswer q -> store -> store -> Prop with
  | SfCreate p => fun (a : result SftpClientError unit) f f' => f' = match a with Ok _ => <[p := []]> f | Err _ => f end
  | SfWriteAll p c => fun (done : bool) f f' =>
      if done then f' = <[p := c]> f else exists partial, f' = <[p := partial]> f
  | SfRemoveFile p => fun (a : result SftpClientError unit) f f' => f' = match a with Ok _ => base.delete p f | Err _ => f end
  | SfRename p p' => fun (a : result SftpClientError unit) f f' =>
      match a with
      | Ok _ => exists c, f !! p = Some c /\ f' = <[p' := c]> (base.delete p f)
      | Err _ => f' = f
      end
  | SfTryExists p => fun (a : result SftpClientError bool) f f' => f' = f /\ (a = Ok false -> f !! p = None)
  | SfReadToEnd p limit => fun (a : option bytes) f f' =>
      f' = f /\ (forall c, limit = None -> a = Some c -> f !! p = Some c)
  | _ => fun _ f f' => f' = f
  end.

Class FileServer {E : Type} (answer : E -> forall q, SfAnswer q * E) (files : E -> store) : Prop :=
  file_server env q : effect q (fst (answer env q)) (files env) (files (snd (answer env q))).

(** Whatever the answers of such a server: [Post] of its files, of what was
    done, and of the result. *)
Fixpoint wpf {A : Type} (f : store) (past : list SfEv) (p : proc str unit SfQuery SfAnswer A)
    (Post : store -> list SfEv -> AppResult A -> Prop) : Prop :=
  match p with
  | Done r => Post f past r
  | Panicked => False
  | Locked section k =>
      forall s, match section s with
      | Leave _ r => wpf f past (k r) Post
      | Save _ records h => forall saved, wpf f (past ++ [EvSaved records saved]) (k (snd (h saved))) Post
      end
  | Asking q k => forall a f', effect q a f f' -> wpf f' (past ++ [EvAsked q a]) (k a) Post
  end.

Lemma wpf_run {A E : Type} (answer : E -> forall q, SfAnswer q * E) save files `{!FileServer answer files}
    (p : proc str unit SfQuery SfAnswer A) past Post s env r s' env' log :
  (forall e rec, files (snd (save e rec)) = files e) ->
  wpf (files env) past p Post -> run answer save p s env past = (r, s', env', log) ->
  exists r', r = Some r' /\ Post (files env') log r'.
Proof.
  intros Hsave. revert past s env. induction p as [r0| |X sec k IH|q k IH]; intros past s env Hw Hr; cbn in Hw, Hr.
  - injection Hr as <- _ <- <-. eauto.
  - done.
  - specialize (Hw s). destruct (sec s) as [s1 r1|s0 records h]; [by eapply IH|].
    pose proof (Hsave env records) as Hf. destruct (save env records) as [saved env1]. cbn in Hf.
    specialize (Hw saved). rewrite <- Hf in Hw. destruct (h saved) as [s1 r1]. by eapply IH.
  - pose proof (file_server env q) as He. destruct (answer env q) as [a env1]. cbn in He.
    eapply IH; [|exact Hr]. by apply Hw.
Qed.

Section FileLogic.
Context {A B : Type}.
Implicit Types p : proc str unit SfQuery SfAnswer A.
Implicit Types f : store.
Implicit Types past : list SfEv.

Lemma wpf_bind f past p (k : A -> proc str unit SfQuery SfAnswer B) Post :
  wpf f past p (fun f' past' r => match r with Ok a => wpf f' past' (k a) Post | Err e => Post f' past' (Err e) end) ->
  wpf f past (p ≫= k) Post.
Proof.
  change (p ≫= k) with (proc_bind k p). revert f past.
  induction p as [[a|e]| |X sec kk IH|q kk IH]; intros f past; cbn; auto.
  - intros Hw s. specialize (Hw s). destruct (sec s); [by apply IH|]. intros saved. by apply IH.
Qed.

Lemma wpf_attempt f past p Post :
  wpf f past p (fun f' past' r => Post f' past' (Ok r)) -> wpf f past (attempt p) Post.
Proof.
  revert f past. induction p as [r| |X sec kk IH|q kk IH]; intros f past; cbn; auto.
  - intros Hw s. specialize (Hw s). destruct (sec s); [by apply IH|]. intros saved. by apply IH.
Qed.

Lemma wpf_mono f past p (Post Post' : store -> list SfEv -> AppResult A -> Prop) :
  wpf f past p Post -> (forall f' past' r, Post f' past' r -> Post' f' past' r) -> wpf f past p Post'.
Proof.
  intros Hw HP. revert f past Hw. induction p as [r| |X sec kk IH|q kk IH]; intros f past; cbn; auto.
  - intros Hw s. specialize (Hw s). destruct (sec s); [by apply IH|]. intros saved. by apply IH.
Qed.

Lemma wpf_call f past q (answer : SfAnswer q -> AppResult A) (Post : store -> list SfEv -> AppResult A -> Prop) :
  (forall a f', effect q a f f' -> Post f' (past ++ [EvAsked q a]) (answer a)) ->
  wpf f past (call q answer) Post.
Proof. intros HP a f' He. by apply HP. Qed.

Lemma wpf_lift f past (r : AppResult A) (Post : store -> list SfEv -> AppResult A -> Prop) :
  Post f past r -> wpf f past (lift r) Post.
Proof. done. Qed.
End FileLogic.

(** ** Writing a file *)
Section Writing.
Context `{SftpExternals}.

(** The temporary file has a name that no file has, and [path] does not name it. *)
Definition fresh_temporary (f : store) (uuid path : str) : Prop :=
  (forall directory p, destination_in_directory directory (temporary_name uuid) = Ok p -> f !! p = None) /\
  forall current, remote_name (remote_candidate current path) <> Ok (temporary_name uuid).

(** How a write leaves the files: replaced as a whole, or as they were - but for
    the temporary file, and for a destination that was removed and that the
    temporary could not be renamed to. *)
Definition written (uuid : str) (f : store) (content : str) (f' : store) (log : list SfEv) (r : AppResult (str * N)) : Prop :=
  match r with
  | Ok (destination, n) => n = blen content /\ f' = <[destination := utf8_encode content]> f
  | Err _ =>
      f' = f \/
      exists temporary destination,
        remote_name temporary = Ok (temporary_name uuid) /\
        forall p, p <> temporary ->
          f' !! p = f !! p \/
          (p = destination /\ f' !! p = None /\
           exists e, asked log (SfRename temporary destination) (Err e))
  end.

(** The state of the files while the temporary is written: only it is new. *)
Definition temporary_only (f0 f : store) (temporary : str) : Prop :=
  exists c, f = <[temporary := c]> f0.

Lemma replace_spec (f0 f : store) (past : list SfEv) temporary destination content Post :
  temporary <> destination -> f0 !! temporary = None -> temporary_only f0 f temporary ->
  (forall past', past ⊆ past' -> Post (<[destination := content]> f0) past' (Ok tt)) ->
  (forall f' past' e, past ⊆ past' ->
     (forall p, p <> temporary -> f' !! p = f0 !! p \/
        (p = destination /\ f' !! p = None /\
         exists e, asked past' (SfRename temporary destination) (Err e))) -> Post f' past' (Err e)) ->
  wpf f past (replace_with_temporary temporary destination content) Post.
Proof.
  intros Hne Hfresh [c0 ->] Hok Herr. unfold replace_with_temporary.
  assert (Hfail : forall past' e c, past ⊆ past' -> Post (<[temporary := c]> f0) past' (Err e)).
  { intros past' e c Hp. apply Herr; [done|]. intros p Hp'. left. by rewrite lookup_insert_ne. }
  apply wpf_bind, wpf_call. intros [|] f1; cbn [effect]; [|intros [c ->]; cbn; rewrite insert_insert_eq; apply Hfail, grow].
  intros ->. rewrite insert_insert_eq. cbn [io_ok].
  set (f1 := <[temporary := content]> f0).
  apply wpf_bind, wpf_call. intros b1 f2 ->. destruct b1; [|apply Hfail; set_solver]. cbn [io_ok].
  apply wpf_bind, wpf_call. intros b2 f3 ->. destruct b2; [|apply Hfail; set_solver]. cbn [io_ok].
  apply wpf_bind, wpf_call. intros b3 f4 ->. destruct b3; [|apply Hfail; set_solver]. cbn [io_ok].
  apply wpf_bind. intros b4 f5 [-> Hex]. cbn [wpf].
  set (past4 := _ ++ [EvAsked (SfTryExists destination) b4]).
  assert (Hsub : past ⊆ past4) by (unfold past4; set_solver).
  assert (Hrename : forall f6 past6, past ⊆ past6 -> f6 !! temporary = Some content ->
    (forall p, p <> temporary -> p <> destination -> f6 !! p = f0 !! p) ->
    (f6 !! destination = f0 !! destination \/ f6 !! destination = None) ->
    wpf f6 past6 (session_rename temporary destination) Post).
  { intros f6 past6 Hp6 Htmp Hother Hdst. apply wpf_call. intros [[]|e] f7; cbn [effect sftp_ok].
    - intros (c & Hc & ->). assert (c = content) as -> by congruence.
      replace (<[destination := content]> (base.delete temporary f6)) with (<[destination := content]> f0).
      { apply Hok. etransitivity; [done|apply grow]. }
      apply map_eq. intros p. destruct (decide (p = destination)) as [->|Hd]; [by rewrite !lookup_insert_eq|].
      rewrite !lookup_insert_ne by done. destruct (decide (p = temporary)) as [->|Ht].
      + by rewrite lookup_delete_eq.
      + rewrite lookup_delete_ne by done. symmetry. by apply Hother.
    - intros ->. apply Herr; [etransitivity; [done|apply grow]|]. intros p Hp.
      destruct (decide (p = destination)) as [->|Hd]; [|left; by apply Hother].
      destruct Hdst as [Hd|Hd]; [by left|right]. split_and!; [done..|]. exists e. apply last_in. }
  apply wpf_bind. destruct (match b4 with Ok b => b | Err _ => false end).
  - apply wpf_call. intros [[]|e] f6; cbn [effect sftp_ok]; intros ->.
    + apply Hrename; [etransitivity; [done|apply grow]| | |].
      * unfold f1. rewrite lookup_delete_ne by done. by rewrite lookup_insert_eq.
      * intros p Hp Hd. unfold f1. by rewrite lookup_delete_ne, lookup_insert_ne.
      * right. by rewrite lookup_delete_eq.
    + apply Hfail. etransitivity; [done|apply grow].
  - cbn [wpf mret proc_ret]. apply Hrename; [done| | |].
    + unfold f1. by rewrite lookup_insert_eq.
    + intros p Hp Hd. unfold f1. by rewrite lookup_insert_ne.
    + left. unfold f1. by rewrite lookup_insert_ne.
Qed.
Lemma write_text_spec f past uuid path content :
  fresh_temporary f uuid path ->
  wpf f past (write_text uuid path content) (written uuid f content).
Proof.
  intros [Hfresh Hname]. unfold write_text.
  assert (Hsame : forall past' e, written uuid f content f past' (Err e)) by (intros; by left).
  destruct (_ || _); [apply Hsame|].
  apply wpf_bind. unfold resolve_write_destination.
  apply wpf_bind, wpf_lift. destruct (validate_remote_path path) as [[]|e]; [|apply Hsame].
  apply wpf_bind. intros current. cbn [wpf].
  apply wpf_bind, wpf_lift. destruct (remote_name _) as [name|e] eqn:Hn; [|apply Hsame].
  apply wpf_bind, wpf_lift. destruct (remote_parent _) as [parent|e]; [|apply Hsame].
  apply wpf_bind, wpf_call. intros [directory|e] f1; cbn [effect sftp_ok]; intros ->; [|apply Hsame].
  apply wpf_lift. destruct (destination_in_directory directory name) as [destination|e] eqn:Hd; [|apply Hsame].
  apply wpf_bind, wpf_lift. destruct (remote_parent destination) as [parent2|e]; [|apply Hsame].
  apply wpf_bind, wpf_lift.
  destruct (destination_in_directory parent2 _) as [temporary|e] eqn:Ht; [|apply Hsame].
  destruct (destination_name _ _ _ Ht) as [Htn _]. destruct (destination_name _ _ _ Hd) as [Hdn _].
  assert (Hne : temporary <> destination) by (intros ->; destruct (Hname current); congruence).
  apply wpf_bind, wpf_call. intros [[]|e] f2; cbn [effect sftp_ok]; intros ->; [|apply Hsame].
  apply wpf_bind, wpf_attempt. eapply replace_spec; [done|by eapply Hfresh|by eexists| |].
  - intros past' _. apply wpf_bind. cbn [wpf mret proc_ret]. apply wpf_bind, wpf_lift. by split.
  - intros f' past' e _ Hf'. apply wpf_bind, wpf_bind. intros a f3 He. cbn [effect] in He.
    cbn [wpf mret proc_ret]. apply wpf_bind, wpf_lift. right. exists temporary, destination. split; [done|].
    intros p Hp. assert (Hf3 : f3 !! p = f' !! p).
    { destruct a as [[]|]; subst f3; [by rewrite lookup_delete_ne|done]. }
    rewrite Hf3. destruct (Hf' p Hp) as [?|(? & ? & e2 & ?)]; [by left|right].
    split_and!; [done..|]. exists e2. eapply asked_mono; [apply grow|done].
Qed.
End Writing.

(** On a server whose calls do what they are documented to do, a write ends
    either with the destination holding exactly the new content and every
    other file as it was, or with an error and every file as it was - except
    the temporary file, and except a destination that had been removed when
    the rename of the temporary failed.  It never panics. *)
Theorem write_text_replaces `{SftpExternals} {E : Type} (answer : E -> forall q, SfAnswer q * E)
    (save : E -> unit -> AppResult unit * E) (files : E -> store) uuid path content s env r s' env' log :
  FileServer answer files -> (forall e rec, files (snd (save e rec)) = files e) ->
  fresh_temporary (files env) uuid path ->
  run answer save (write_text uuid path content) s env [] = (r, s', env', log) ->
  exists result, r = Some result /\ written uuid (files env) content (files env') log result.
Proof.
  intros Hserver Hsave Hfresh Hrun.
  exact (wpf_run answer save files _ [] _ s env r s' env' log Hsave
           (write_text_spec (files env) [] uuid path content Hfresh) Hrun).
Qed.

(** ** A concrete server *)
#[local] Instance posix_modes : SftpExternals := {
  file_type_of m := match (m / 4096)%N with 4%N => TypeDir | 8%N => TypeFile | 10%N => TypeSymlink
                                          | _ => TypeOther end;
  to_lowercase := to_ascii_lowercase;
}.

Definition regular : Metadata := {| md_size := None; md_mtime := None; md_permissions := Some 33188%N |}.
Definition folder : Metadata := {| md_size := None; md_mtime := None; md_permissions := Some 16877%N |}.

(** Files by their paths, directories by their listings; [fails] names the calls
    that fail. *)
Definition disk_answer (fails : SfQuery -> bool) (listing : str -> option (list DirEntry)) (f : store)
    (q : SfQuery) : SfAnswer q * store :=
  match q return SfAnswer q * store with
  | SfCanonicalize p => (Ok p, f)
  | SfMetadata p | SfSymlinkMetadata p =>
      (match f !! p with Some _ => Ok regular
       | None => if decide (is_Some (listing p)) then Ok folder else Err NoSuchFile end, f)
  | SfReadDir p => (match listing p with Some l => Ok l | None => Err NoSuchFile end, f)
  | SfTryExists p => (Ok (bool_decide (is_Some (f !! p))), f)
  | SfCreateDir _ | SfRemoveDir _ | SfOpen _ => (Ok tt, f)
  | SfRename p p' =>
      match fails q, f !! p with
      | false, Some c => (Ok tt, <[p' := c]> (base.delete p f))
      | _, _ => (Err OtherStatus, f)
      end
  | SfRemoveFile p => if fails q then (Err PermissionDenied, f) else (Ok tt, base.delete p f)
  | SfReadToEnd p _ => (f !! p, f)
  | SfCreate p => (Ok tt, <[p := []]> f)
  | SfWriteAll p c => (true, <[p := c]> f)
  | SfFlush _ | SfSyncAll _ | SfClose _ => (true, f)
  end.

Lemma disk_server fails listing : FileServer (disk_answer fails listing) id.
Proof.
  intros f q. destruct q; cbn; try done.
  - split; [done|]. intros [= Hn]. apply bool_decide_eq_false in Hn. by apply eq_None_not_Some.
  - destruct (fails _); [done|]. destruct (f !! source) eqn:E; [|done]. cbn. eauto.
  - by destruct (fails _).
Qed.

Definition no_save (f : store) (_ : unit) : AppResult unit * store := (Ok tt, f).
Definition etc_hosts : store := {[ lit "/etc/hosts" := lit "old" ]}.
Definition written_hosts (fails : SfQuery -> bool) :=
  run (disk_answer fails (fun _ => None)) no_save (write_text (lit "u") (lit "/etc/hosts") (lit "new"))
    (lit "/root") etc_hosts [].

(** What a write answered, and the files after it. *)
Definition hosts_after {B D} (o : option (AppResult (str * N)) * B * store * D) :
    option (AppResult N) * list (str * bytes) :=
  let '(r, _, f, _) := o in
  ((fun r => match r with Ok x => Ok (snd x) | Err e => Err e end) <$> r, map_to_list f).

Lemma etc_hosts_fresh : fresh_temporary etc_hosts (lit "u") (lit "/etc/hosts").
Proof.
  split.
  - intros directory p (_ & -> & _)%destination_inv. apply lookup_singleton_ne. intros Heq.
    apply (f_equal (fun l => last l)) in Heq. rewrite last_app, last_cons in Heq. by vm_compute in Heq.
  - intros current. by vm_compute.
Qed.

Lemma write_text_replaces_witness :
  exists result log, fst (fst (fst (written_hosts (fun _ => false)))) = Some result /\
    written (lit "u") etc_hosts (lit "new") (snd (fst (written_hosts (fun _ => false)))) log result.
Proof.
  unfold written_hosts.
  destruct (run _ no_save _ _ _ _) as [[[r s'] f'] log] eqn:E.
  destruct (write_text_replaces (disk_answer (fun _ => false) (fun _ => None)) no_save id (lit "u")
              (lit "/etc/hosts") (lit "new") (lit "/root") etc_hosts r s' f' log
              (disk_server _ _) (fun _ _ => eq_refl) etc_hosts_fresh E) as (result & -> & Hw).
  by exists result, log.
Defined.

Example hosts_written :
  hosts_after (written_hosts (fun _ => false)) = (Some (Ok 3%N), [(lit "/etc/hosts", lit "new")]).
Proof. by vm_compute. Qed.

(** The rename fails after the destination was removed: both versions of the
    file are gone. *)
Example failed_rename_loses_the_file :
  hosts_after (written_hosts (fun q => match q with SfRename _ _ => true | _ => false end))
  = (Some (Err SftpOperationFailed), []).
Proof. by vm_compute. Qed.

(** A directory with a file and a symbolic link to another directory. *)
Definition srv_app : str -> option (list DirEntry) := fun p =>
  if str_eqb p (lit "/srv/app") then
    Some [{| de_name := lit "log"; de_path := lit "/srv/app/log"; de_file_type := TypeFile; de_metadata := regular |};
          {| de_name := lit "etc"; de_path := lit "/srv/app/etc"; de_file_type := TypeSymlink; de_metadata := regular |}]
  else if str_eqb p (lit "/srv") then Some [] else None.

Definition deleted_app :=
  run (disk_answer (fun _ => false) srv_app) no_save (delete (lit "/srv/app") true) (lit "/root") (∅ : store) [].

Definition removed_paths (log : list SfEv) : list str :=
  omap (fun e => match e with EvAsked (SfRemoveFile p | SfRemoveDir p) _ => Some p | _ => None end) log.

Example app_deleted :
  removed_paths (snd deleted_app) = [lit "/srv/app/log"; lit "/srv/app/etc"; lit "/srv/app"].
Proof. by vm_compute. Qed.

Lemma deletion_confined_witness :
  removable (lit "/srv/app") (take 4 (snd deleted_app)) (SfRemoveFile (lit "/srv/app/log")).
Proof.
  refine (proj1 (deletion_confined (disk_answer (fun _ => false) srv_app) no_save (lit "/srv/app") true
    (lit "/root") ∅ (fst (fst (fst deleted_app))) (snd (fst (fst deleted_app))) (snd (fst deleted_app))
    (snd deleted_app) (take 4 (snd deleted_app)) (SfRemoveFile (lit "/srv/app/log")) (Ok tt)
    (drop 5 (snd deleted_app)) _ _)).
  - vm_compute. reflexivity.
  - vm_compute. reflexivity.
Defined.
