(* ===== verification/NumText.v ===== *)
(** * Numbers in text

    [str::parse] of the standard library for the integer types and [f64], and
    slices of a string by byte offsets.  An [f64] is its bit pattern, as in
    [Evidence]; its value is the binary64 format of [SpecFloat]: 53 bits of
    precision, exponent bound 1024. *)
From S2P Require Import Prelude Str.
From Stdlib Require Import Floats.SpecFloat.

(** ** Integers *)
Definition digits_value (s : str) : N := foldl (fun n c => n * 10 + (c - 48))%N 0%N s.
Definition all_digits (s : str) : bool := negb (is_empty s) && forallb is_ascii_digit s.

Definition strip_plus (s : str) : str := match s with 43%N :: t => t | _ => s end.

(** [s.parse::<uN>()] for the type with this maximum. *)
Definition parse_unsigned (max : N) (s : str) : option N :=
  let digits := strip_plus s in
  if all_digits digits then opt_filter (fun n => n <=? max)%N (Some (digits_value digits)) else None.

Definition parse_u8 : str -> option N := parse_unsigned 255.
Definition parse_u16 : str -> option N := parse_unsigned 65535.
Definition parse_u32 : str -> option N := parse_unsigned 4294967295.
Definition parse_u64 : str -> option N := parse_unsigned 18446744073709551615.

(** [s.parse::<i64>()]. *)
Definition i64_range (z : Z) : bool :=
  (-9223372036854775808 <=? z)%Z && (z <=? 9223372036854775807)%Z.
Definition parse_i64 (s : str) : option Z :=
  match s with
  | 45%N :: t => if all_digits t then opt_filter i64_range (Some (- Z.of_N (digits_value t))%Z) else None
  | _ =>
      let t := strip_plus s in
      if all_digits t then opt_filter i64_range (Some (Z.of_N (digits_value t))) else None
  end.

(** ** binary64 *)
Abbreviation f64 := N (only parsing).

Definition f64_bits (x : spec_float) : N :=
  match x with
  | S754_zero s => if s then 2 ^ 63 else 0
  | S754_infinity s => (if s then 2 ^ 63 else 0) + 2047 * 2 ^ 52
  | S754_nan => 2047 * 2 ^ 52 + 2 ^ 51
  | S754_finite s m e =>
      (if s then 2 ^ 63 else 0)
      + (if (Npos m <? 2 ^ 52)%N then Npos m
         else Z.to_N (e + 1075) * 2 ^ 52 + (Npos m - 2 ^ 52))
  end%N.

Definition f64_of_bits (bits : N) : spec_float :=
  let s := N.testbit bits 63 in
  let e := ((bits / 2 ^ 52) mod 2048)%N in
  let m := (bits mod 2 ^ 52)%N in
  if (e =? 2047)%N then (if (m =? 0)%N then S754_infinity s else S754_nan)
  else if (e =? 0)%N then
    match m with N0 => S754_zero s | Npos p => S754_finite s p (-1074) end
  else match (m + 2 ^ 52)%N with N0 => S754_zero s | Npos p => S754_finite s p (Z.of_N e - 1075) end.

Definition f64_is_finite (x : spec_float) : bool :=
  match x with S754_infinity _ | S754_nan => false | _ => true end.
Definition f64_ltb (x y : spec_float) : bool := SFltb x y.

(** The nearest [f64] to [m * 10 ^ e], ties to even. *)
Definition f64_decimal (negative : bool) (m : N) (e : Z) : spec_float :=
  match m with
  | N0 => S754_zero negative
  | Npos p =>
      if (0 <=? e)%Z then binary_round 53 1024 negative (p * Z.to_pos (10 ^ e)) 0
      else
        let '(q, e', l) := SFdiv_core_binary 53 1024 (Zpos p) 0 (10 ^ (- e)) 0 in
        binary_round_aux 53 1024 negative q e' l
  end.

Definition take_digits (s : str) : str * str :=
  (fix go (s : str) := match s with
    | c :: t => if is_ascii_digit c then let '(d, r) := go t in (c :: d, r) else ([], s)
    | [] => ([], []) end) s.

Definition decimal_exponent (s : str) : option Z :=
  match s with
  | [] => Some 0%Z
  | c :: t =>
      if (c =? 101)%N || (c =? 69)%N then
        match t with
        | 45%N :: d => if all_digits d then Some (- Z.of_N (digits_value d))%Z else None
        | _ => let d := strip_plus t in if all_digits d then Some (Z.of_N (digits_value d)) else None
        end
      else None
  end.

(** [s.parse::<f64>()]: a sign, and a decimal number or one of the words for
    infinity and not-a-number in any case. *)
Definition parse_f64 (s : str) : option spec_float :=
  let '(negative, s) := match s with 45%N :: t => (true, t) | 43%N :: t => (false, t) | _ => (false, s) end in
  let lower := to_ascii_lowercase s in
  if str_in [lit "inf"; lit "infinity"] lower then Some (S754_infinity negative)
  else if str_eqb lower (lit "nan") then Some S754_nan
  else
    let '(whole, rest) := take_digits s in
    let '(fraction, rest) := match rest with 46%N :: t => take_digits t | _ => ([], rest) end in
    if is_empty whole && is_empty fraction then None
    else
      e ← decimal_exponent rest;
      Some (f64_decimal negative (digits_value (whole ++ fraction)) (e - Z.of_nat (length fraction))).

(** [x as u64]: toward zero, saturating. *)
Definition f64_as_u64 (x : spec_float) : N :=
  match x with
  | S754_finite false m e =>
      N.min 18446744073709551615
        (Z.to_N (if (0 <=? e)%Z then Zpos m * 2 ^ e else Zpos m / 2 ^ (- e)))
  | S754_infinity false => 18446744073709551615%N
  | _ => 0%N
  end.

(** [x.round()]: to the nearest integer, ties away from zero. *)
Definition f64_round (x : spec_float) : spec_float :=
  match x with
  | S754_finite s m e =>
      if (0 <=? e)%Z then x
      else
        let d := (2 ^ (- e))%Z in
        let q := ((2 * Zpos m + d) / (2 * d))%Z in
        match q with Zpos p => binary_round 53 1024 s p 0 | _ => S754_zero s end
  | _ => x
  end.

Definition f64_mul (x y : spec_float) : spec_float := SFmul 53 1024 x y.
Definition f64_of_N (n : N) : spec_float := binary_normalize 53 1024 (Z.of_N n) 0 false.

(** [x.clamp(lo, hi)]. *)
Definition f64_clamp (x lo hi : spec_float) : spec_float :=
  if f64_ltb x lo then lo else if f64_ltb hi x then hi else x.

(** ** Slices by byte offsets *)

(** [s.split_at(n)]: a panic, [None], when [n] is past the end or inside a character. *)
Fixpoint split_at_byte (n : N) (s : str) : option (str * str) :=
  if (n =? 0)%N then Some ([], s) else
  match s with
  | [] => None
  | c :: t =>
      if (utf8_len c <=? n)%N
      then (fun x => (c :: fst x, snd x)) <$> split_at_byte (n - utf8_len c) t else None
  end.

(** [&s[i..j]]. *)
Definition byte_slice (s : str) (i j : N) : option str :=
  if (j <? i)%N then None else
  '(front, _) ← split_at_byte j s;
  snd <$> split_at_byte i front.

(** [s.as_bytes().get(i)] when that byte begins a character below 128. *)
Fixpoint ascii_byte_at (n : N) (s : str) : option N :=
  match s with
  | [] => None
  | c :: t =>
      if (n =? 0)%N then (if (c <? 128)%N then Some c else None)
      else if (utf8_len c <=? n)%N then ascii_byte_at (n - utf8_len c) t else None
  end.

(** ** Facts *)
Lemma parse_unsigned_bound max s n : parse_unsigned max s = Some n -> (n <= max)%N.
Proof.
  unfold parse_unsigned. destruct (all_digits _); [|done].
  by intros [_ ?%N.leb_le]%opt_filter_some.
Qed.

Lemma split_at_byte_app a b : split_at_byte (blen a) (a ++ b) = Some (a, b).
Proof.
  induction a as [|c a IH]; [by destruct b|]. cbn [blen app split_at_byte].
  pose proof (utf8_len_pos c). rewrite (proj2 (N.eqb_neq _ _)) by lia. rewrite (proj2 (N.leb_le _ _)) by lia.
  replace (utf8_len c + blen a - utf8_len c)%N with (blen a) by lia. by rewrite IH.
Qed.

Lemma split_at_byte_some n s a b : split_at_byte n s = Some (a, b) -> s = a ++ b /\ blen a = n.
Proof.
  revert n a. induction s as [|c s IH]; intros n a; cbn; destruct (n =? 0)%N eqn:E; breflect.
  - intros [= <- <-]. by subst.
  - done.
  - intros [= <- <-]. by subst.
  - destruct (utf8_len c <=? n)%N eqn:E2; [|done]. breflect. intros Hs.
    destruct (split_at_byte _ s) as [[x y]|] eqn:E3; [|done]. injection Hs as <- <-. cbn.
    apply IH in E3 as [-> Hl]. split; [done|]. lia.
Qed.

(** Decimal text is read back. *)
Lemma digits_value_app a b : digits_value (a ++ b) = (digits_value a * 10 ^ N.of_nat (length b) + digits_value b)%N.
Proof.
  unfold digits_value. rewrite foldl_app. generalize (foldl (fun n c => n * 10 + (c - 48))%N 0%N a). intros n.
  induction b as [|c b IH] using rev_ind; [cbn; lia|].
  rewrite !foldl_app, length_app, IH. cbn [foldl length]. rewrite Nat.add_1_r, Nat2N.inj_succ, N.pow_succ_r'. lia.
Qed.

Example f64_half : (parse_f64 (lit "12.5"), f64_bits <$> parse_f64 (lit "12.5"))
  = (Some (S754_finite false 7036874417766400 (-49)), Some 4623226492472524800%N).
Proof. by vm_compute. Qed.
Example f64_tenth : f64_bits <$> parse_f64 (lit "1e-1") = Some 4591870180066957722%N.
Proof. by vm_compute. Qed.
Example f64_words : parse_f64 (lit "-Inf") = Some (S754_infinity true) /\ parse_f64 (lit ".") = None.
Proof. by vm_compute. Qed.

Lemma list_ascii_length s : length (String.list_ascii_of_string s) = String.length s.
Proof. induction s; cbn; congruence. Qed.

Lemma digit_value d : (d < 10)%N -> digits_value [Ascii.N_of_ascii (pretty_N_char d)] = d.
Proof.
  intros Hd. assert (Hin : d ∈ map N.of_nat (seq 0 10)).
  { rewrite <- (N2Nat.id d). apply list_elem_of_fmap_2, elem_of_seq. lia. }
  cbn in Hin. repeat (apply elem_of_cons in Hin as [->|Hin]; [done|]). by apply not_elem_of_nil in Hin.
Qed.

Lemma digits_value_bytes_go n s :
  digits_value (map Ascii.N_of_ascii (String.list_ascii_of_string (pretty_N_go n s))) =
  (n * 10 ^ N.of_nat (String.length s)
   + digits_value (map Ascii.N_of_ascii (String.list_ascii_of_string s)))%N.
Proof.
  revert s. induction (N.lt_wf_0 n) as [n _ IH]; intros s.
  destruct (decide (n = 0)%N) as [->|Hn]; [by rewrite pretty_N_go_0|].
  rewrite pretty_N_go_step by lia. rewrite IH by (apply N.div_lt; lia).
  cbn [String.list_ascii_of_string map String.length].
  change (?x :: ?l) with ([x] ++ l). rewrite digits_value_app.
  rewrite length_map, list_ascii_length, Nat2N.inj_succ, N.pow_succ_r'.
  assert (Hd : digits_value [Ascii.N_of_ascii (pretty_N_char (n mod 10))] = (n mod 10)%N).
  { apply digit_value. apply N.mod_lt. lia. }
  rewrite Hd. pose proof (N.div_mod n 10 ltac:(lia)). nia.
Qed.

Lemma digits_value_dec n : digits_value (dec n) = n.
Proof.
  rewrite dec_bytes. unfold pretty, pretty_N. case_decide as Hn; [by subst|].
  rewrite digits_value_bytes_go. cbn. lia.
Qed.

Lemma dec_nonempty n : is_empty (dec n) = false.
Proof.
  destruct (is_empty (dec n)) eqn:E; [|done]. apply is_empty_true in E.
  assert (n = 0%N) as -> by (rewrite <- (digits_value_dec n), E; done). by vm_compute in E.
Qed.

Lemma all_digits_dec n : all_digits (dec n) = true.
Proof. unfold all_digits. rewrite dec_nonempty. apply Forallb_forall, dec_digits. Qed.

Lemma digits_unsigned s : all_digits s = true -> strip_plus s = s /\ (forall t, s <> 45%N :: t).
Proof.
  unfold all_digits. destruct s as [|c s]; [done|]. cbn. intros [Hc _]%andb_prop.
  split; [|by intros t [= ->]]. destruct (decide (c = 43%N)) as [->|]; [done|].
  repeat (destruct c as [|c]; try done). all: repeat (destruct c as [c|c|]; try done).
Qed.

Lemma parse_unsigned_digits max s :
  all_digits s = true -> (digits_value s <= max)%N -> parse_unsigned max s = Some (digits_value s).
Proof.
  intros Hd Hm. unfold parse_unsigned. destruct (digits_unsigned s Hd) as [-> _]. rewrite Hd. cbn.
  by rewrite (proj2 (N.leb_le _ _) Hm).
Qed.

Lemma byte_slice_app a b c : byte_slice (a ++ b ++ c) (blen a) (blen a + blen b) = Some b.
Proof.
  unfold byte_slice. rewrite (proj2 (N.ltb_ge _ _)) by lia.
  rewrite app_assoc, <- blen_app, split_at_byte_app. cbn. by rewrite split_at_byte_app.
Qed.

(** Two digits. *)
Definition pad2 (n : N) : str := [48 + n / 10; 48 + n mod 10]%N.

Lemma below_100 (p : N -> bool) :
  forallb p (map N.of_nat (seq 0 100)) = true -> forall n, (n < 100)%N -> p n = true.
Proof.
  intros Hp n Hn. rewrite Forallb_forall in Hp. apply Hp. rewrite <- (N2Nat.id n).
  apply list_elem_of_fmap_2, elem_of_seq. lia.
Qed.

Lemma pad2_value n : (n < 100)%N -> digits_value (pad2 n) = n.
Proof. intros Hn. apply N.eqb_eq. revert n Hn. apply below_100. by vm_compute. Qed.

Lemma pad2_digits n : (n < 100)%N -> all_digits (pad2 n) = true.
Proof. revert n. apply below_100. by vm_compute. Qed.

Lemma pad2_blen n : (n < 100)%N -> blen (pad2 n) = 2%N.
Proof. intros Hn. apply N.eqb_eq. revert n Hn. apply below_100. by vm_compute. Qed.

Lemma parse_i64_digits s :
  all_digits s = true -> (digits_value s <= 9223372036854775807)%N -> parse_i64 s = Some (Z.of_N (digits_value s)).
Proof.
  intros Hd Hm. destruct (digits_unsigned s Hd) as [Hs Hneg]. unfold parse_i64.
  assert (match s with 45%N :: t => False | _ => True end) as Hs'.
  { destruct s as [|c t]; [done|]. specialize (Hneg t). by repeat case_match; subst. }
  enough (Hgo : opt_filter i64_range (Some (Z.of_N (digits_value s))) = Some (Z.of_N (digits_value s))).
  { repeat case_match; try done; by rewrite ?Hs, ?Hd in *. }
  cbn. unfold i64_range. by rewrite (proj2 (Z.leb_le _ _)), (proj2 (Z.leb_le _ _)) by lia.
Qed.
