(* ===== verification/Operations.v ===== *)
(** * Operations on containers, processes and services (operations/service.rs)

    The fixed scripts that list and change what runs on a server, the tests
    their arguments pass first, and the parsing of their output.  An operation
    is a [proc] over the calls of the session manager.

    A function that slices text by byte offsets panics inside a character:
    where the source does, the result is an option, [None] a panic. *)
From S2P Require Import Prelude Str Json Errors RunState NumText Process RemoteExec.
From Stdlib Require Import Floats.SpecFloat.

(** [serde_json::from_str::<Value>]. *)
Class JsonText := { json_from_str : str -> option json }.

(** ** Calls of the session manager *)
Inductive RmQuery :=
  | RmExec (session_id : Uuid) (command : RemoteCommand)
  | RmReadText (session_id : Uuid) (path : str)
  | RmWriteText (session_id : Uuid) (path content : str).

Definition RmAnswer (q : RmQuery) : Type :=
  match q with
  | RmExec _ _ => AppResult RemoteExecResult
  | RmReadText _ _ => AppResult (str * str)
  | RmWriteText _ _ _ => AppResult (str * N)
  end.

Abbreviation RmProc := (proc unit unit RmQuery RmAnswer) (only parsing).

Definition exec (session_id : Uuid) (command : RemoteCommand) : RmProc RemoteExecResult :=
  a ← ask (RmExec session_id command); lift (a : AppResult RemoteExecResult).
Definition sftp_read_text (session_id : Uuid) (path : str) : RmProc (str * str) :=
  a ← ask (RmReadText session_id path); lift (a : AppResult (str * str)).
Definition sftp_write_text (session_id : Uuid) (path content : str) : RmProc (str * N) :=
  a ← ask (RmWriteText session_id path content); lift (a : AppResult (str * N)).

(** Script text: [^] stands for a double quote. *)
Definition sh_text (s : string) : str := map (fun c => if (c =? 94)%N then 34%N else c) (lit s).
Arguments sh_text s%_string.

(** ** Scripts *)
Definition DOCKER_LIST : str := sh_text "command -v docker >/dev/null 2>&1 || exit 90; docker ps -a --no-trunc --format '{{json .}}'".
Definition DOCKER_STATS : str := sh_text "command -v docker >/dev/null 2>&1 || exit 90; docker stats --no-stream --format '{{json .}}'".
Definition DOCKER_IMAGES : str := sh_text "command -v docker >/dev/null 2>&1 || exit 90; docker images --no-trunc --format '{{json .}}'".
Definition DOCKER_NETWORKS : str := sh_text "command -v docker >/dev/null 2>&1 || exit 90
ids=$(docker network ls -q)
[ -z ^$ids^ ] && exit 0
# Intentional unquoted expansion: one network id per word for inspect.
docker network inspect $ids --format '{{json .}}'
".
Definition DOCKER_PULL : str := sh_text "command -v docker >/dev/null 2>&1 || exit 90; docker pull ^$1^".
Definition DOCKER_PRUNE : str := sh_text "command -v docker >/dev/null 2>&1 || exit 90; docker image prune -f".
Definition DOCKER_RMI : str := sh_text "command -v docker >/dev/null 2>&1 || exit 90
failed=0
for id in ^$@^; do
  docker rmi ^$id^ || failed=1
done
exit ^$failed^
".
Definition DOCKER_RUN : str := sh_text "command -v docker >/dev/null 2>&1 || exit 90
name=^$1^
image=^$2^
p1=^$3^; p2=^$4^; p3=^$5^; p4=^$6^; p5=^$7^; p6=^$8^; p7=^$9^; p8=^$10^
set -- docker run -d --name ^$name^
[ -n ^$p1^ ] && set -- ^$@^ -p ^$p1^
[ -n ^$p2^ ] && set -- ^$@^ -p ^$p2^
[ -n ^$p3^ ] && set -- ^$@^ -p ^$p3^
[ -n ^$p4^ ] && set -- ^$@^ -p ^$p4^
[ -n ^$p5^ ] && set -- ^$@^ -p ^$p5^
[ -n ^$p6^ ] && set -- ^$@^ -p ^$p6^
[ -n ^$p7^ ] && set -- ^$@^ -p ^$p7^
[ -n ^$p8^ ] && set -- ^$@^ -p ^$p8^
set -- ^$@^ ^$image^
^$@^
".
Definition DOCKER_NETWORK_CREATE : str := sh_text "command -v docker >/dev/null 2>&1 || exit 90
name=^$1^
driver=^$2^
subnet=^$3^
gateway=^$4^
l1=^$5^; l2=^$6^; l3=^$7^; l4=^$8^
set -- docker network create --driver ^$driver^
[ -n ^$subnet^ ] && set -- ^$@^ --subnet ^$subnet^
[ -n ^$gateway^ ] && set -- ^$@^ --gateway ^$gateway^
[ -n ^$l1^ ] && set -- ^$@^ --label ^$l1^
[ -n ^$l2^ ] && set -- ^$@^ --label ^$l2^
[ -n ^$l3^ ] && set -- ^$@^ --label ^$l3^
[ -n ^$l4^ ] && set -- ^$@^ --label ^$l4^
set -- ^$@^ ^$name^
^$@^
".
Definition DOCKER_NETWORK_RM : str := sh_text "command -v docker >/dev/null 2>&1 || exit 90
failed=0
for id in ^$@^; do
  docker network rm ^$id^ || failed=1
done
exit ^$failed^
".
Definition DOCKER_NETWORK_PRUNE : str := sh_text "command -v docker >/dev/null 2>&1 || exit 90; docker network prune -f".
Definition DOCKER_VOLUMES : str := sh_text "command -v docker >/dev/null 2>&1 || exit 90
names=$(docker volume ls -q)
[ -z ^$names^ ] && exit 0
# Intentional unquoted expansion: one volume name per word for inspect.
docker volume inspect $names --format '{{json .}}'
".
Definition DOCKER_VOLUME_USERS : str := sh_text "command -v docker >/dev/null 2>&1 || exit 90
ids=$(docker ps -aq)
[ -z ^$ids^ ] && exit 0
# Intentional unquoted expansion: one container id per word for inspect.
docker inspect $ids --format '{{range .Mounts}}{{if eq .Type ^volume^}}{{printf ^%s\t%s\n^ $.Name .Name}}{{end}}{{end}}'
".
Definition DOCKER_VOLUME_CREATE : str := sh_text "command -v docker >/dev/null 2>&1 || exit 90
name=^$1^
driver=^$2^
l1=^$3^; l2=^$4^; l3=^$5^; l4=^$6^
set -- docker volume create
[ -n ^$driver^ ] && set -- ^$@^ --driver ^$driver^
[ -n ^$l1^ ] && set -- ^$@^ --label ^$l1^
[ -n ^$l2^ ] && set -- ^$@^ --label ^$l2^
[ -n ^$l3^ ] && set -- ^$@^ --label ^$l3^
[ -n ^$l4^ ] && set -- ^$@^ --label ^$l4^
set -- ^$@^ ^$name^
^$@^
".
Definition DOCKER_VOLUME_RM : str := sh_text "command -v docker >/dev/null 2>&1 || exit 90
failed=0
for name in ^$@^; do
  docker volume rm ^$name^ || failed=1
done
exit ^$failed^
".
Definition DOCKER_VOLUME_PRUNE : str := sh_text "command -v docker >/dev/null 2>&1 || exit 90; docker volume prune -f".
Definition PM2_LIST : str := sh_text "command -v pm2 >/dev/null 2>&1 || exit 90; pm2 jlist".
Definition NGINX_TEST : str := sh_text "command -v nginx >/dev/null 2>&1 || exit 90; nginx -t".
Definition NGINX_RELOAD : str := sh_text "command -v nginx >/dev/null 2>&1 || exit 90; nginx -s reload".
Definition DOCKER_ACTION : str := sh_text "command -v docker >/dev/null 2>&1 || exit 90; docker ^$1^ ^$2^".
Definition PM2_ACTION : str := sh_text "command -v pm2 >/dev/null 2>&1 || exit 90; pm2 ^$1^ ^$2^".

Definition MAX_IMAGE_REMOVE : nat := 50.
Definition MAX_NETWORK_REMOVE : nat := 50.
Definition MAX_NETWORK_LABELS : nat := 4.
Definition MAX_VOLUME_REMOVE : nat := 50.
Definition MAX_VOLUME_LABELS : nat := 4.
Definition MAX_PUBLISH_PORTS : nat := 8.
Definition BUILTIN_NETWORKS : list str := [lit "bridge"; lit "host"; lit "none"].
Definition MAX_DOCKER_SEARCH_LIMIT : N := 100.
Definition MAX_DOCKER_OFFICIAL_LIST : N := 300.
Definition DEFAULT_DOCKER_SEARCH_LIMIT : N := 25.
Definition MAX_DOCKER_SEARCH_QUERY_LEN : N := 128.

(** ** Data (domain/operations.rs) *)
Inductive ResourceAction := ActionStart | ActionStop | ActionRestart.
Inductive NginxAction := NginxActionTest | NginxActionReload.
Inductive LogSource :=
  | LogSystem | LogAuth | LogNginxAccess | LogNginxError | LogDocker | LogPm2 | LogService.

Record DockerContainer := {
  dc_id : str; dc_name : str; dc_image : str; dc_state : str; dc_status : str; dc_ports : str;
  dc_cpu_percent : spec_float; dc_memory_bytes : N }.
Record DockerImage := {
  di_id : str; di_name : str; di_size_bytes : N; di_created_at_epoch_seconds : N; di_used_by : list str }.
Record DockerNetwork := {
  dn_id : str; dn_name : str; dn_driver : str; dn_ipv4_subnet : str; dn_ipv4_gateway : str;
  dn_labels : str; dn_created_at_epoch_seconds : N }.
Record DockerVolume := {
  dv_name : str; dv_driver : str; dv_mountpoint : str; dv_scope : str; dv_labels : str;
  dv_created_at_epoch_seconds : N; dv_used_by : list str }.
Record DockerOnlineImage := {
  doi_name : str; doi_description : str; doi_star_count : N; doi_is_official : bool;
  doi_is_automated : bool; doi_tags : list str }.
Record Pm2Process := {
  pm_id : N; pm_name : str; pm_status : str; pm_cpu_percent : spec_float; pm_memory_bytes : N }.
Record OperationResult := { or_success : bool; or_output : str }.

Inductive DockerImageAction :=
  | ImagePull (reference : str)
  | ImageRemove (ids : list str)
  | ImagePrune
  | ImageCreateContainer (image name : str) (publish_ports : list str).
Inductive DockerNetworkAction :=
  | NetworkCreate (name driver subnet gateway : str) (labels : list str)
  | NetworkRemove (ids : list str)
  | NetworkPrune.
Inductive DockerVolumeAction :=
  | VolumeCreate (name driver : str) (labels : list str)
  | VolumeRemove (names : list str)
  | VolumePrune.

(** ** Tests *)
Definition valid_if (b : bool) : AppResult unit := if b then Ok tt else Err InvalidOperation.

(** [bytes().all(|b| b.is_ascii_alphanumeric() || matches!(b, ..))]. *)
Definition word_chars (extra : string) (value : str) : bool :=
  forallb (fun c => is_ascii_alphanumeric c || existsb (N.eqb c) (lit extra)) value.
Arguments word_chars extra%_string value.

Definition validate_target (target : str) : AppResult unit :=
  valid_if (negb (is_empty target) && (blen target <=? 256)%N && word_chars "_-.@:/" target).
Definition validate_image_reference (reference : str) : AppResult unit := validate_target reference.

Definition validate_search_query (query : str) : AppResult unit :=
  let query := trim query in
  valid_if (negb (is_empty query) && (blen query <=? MAX_DOCKER_SEARCH_QUERY_LEN)%N
            && word_chars "_-./:" query).

Definition clamp_search_limit (limit : N) : N :=
  if (limit =? 0)%N then DEFAULT_DOCKER_SEARCH_LIMIT else N.min limit MAX_DOCKER_SEARCH_LIMIT.
Definition clamp_official_limit (limit : N) : N :=
  if (limit =? 0)%N then MAX_DOCKER_OFFICIAL_LIST else N.min limit MAX_DOCKER_OFFICIAL_LIST.

Definition validate_container_name (name : str) : AppResult unit :=
  valid_if (negb (is_empty name) && (blen name <=? 128)%N && negb (starts_with name (lit "-"))
            && word_chars "_-." name).

Definition is_builtin_network (name : str) : bool := str_in BUILTIN_NETWORKS name.

Definition validate_network_name (name : str) : AppResult unit :=
  validate_container_name name;; valid_if (negb (is_builtin_network name)).

Definition validate_network_driver (driver : str) : AppResult unit :=
  valid_if (str_in [lit "bridge"; lit "overlay"; lit "macvlan"; lit "ipvlan"] driver).

Definition validate_network_remove_target (target : str) : AppResult unit :=
  validate_target target;; valid_if (negb (is_builtin_network target)).

Definition validate_volume_name (name : str) : AppResult unit := validate_container_name name.

Definition validate_volume_driver (driver : str) : AppResult unit :=
  valid_if (negb (is_empty driver) && (blen driver <=? 64)%N && word_chars "_-." driver).

Definition validate_volume_remove_target (name : str) : AppResult unit := validate_target name.

Definition octet_ok (part : str) : bool :=
  negb (is_empty part) && (blen part <=? 3)%N && forallb is_ascii_digit part
  && bool_decide (is_Some (parse_u8 part))
  && negb ((1 <? blen part)%N && starts_with part (lit "0")).

Definition validate_ipv4_address (value : str) : AppResult unit :=
  let parts := split (N.eqb 46) value in
  valid_if ((length parts =? 4)%nat && forallb octet_ok parts).

Definition validate_ipv4_cidr (value : str) : AppResult unit :=
  '(address, prefix) ← ok_or (split_once (N.eqb 47) value) InvalidOperation;
  validate_ipv4_address address;;
  valid_if (negb (is_empty prefix) && (blen prefix <=? 2)%N && forallb is_ascii_digit prefix
            && match parse_u8 prefix with Some bits => (bits <=? 32)%N | None => false end).

Definition validate_network_label (label : str) : AppResult unit :=
  '(key, value) ← ok_or (split_once (N.eqb 61) label) InvalidOperation;
  valid_if (negb (is_empty key) && (blen key <=? 128)%N && (blen value <=? 256)%N
            && word_chars "_-." key && word_chars "_-.:/@+" value).

Definition is_valid_port_number (value : str) : bool :=
  negb (is_empty value) && (blen value <=? 5)%N && forallb is_ascii_digit value
  && match parse_u16 value with Some port => (0 <? port)%N | None => false end.

Definition validate_publish_port (port : str) : AppResult unit :=
  '(host, container) ← ok_or (split_once (N.eqb 58) port) InvalidOperation;
  valid_if (negb (is_empty host) && negb (is_empty container) && negb (contains_char host 58)
            && negb (contains_char container 58) && is_valid_port_number host
            && is_valid_port_number container).

Definition action_verb (action : ResourceAction) : str :=
  match action with ActionStart => lit "start" | ActionStop => lit "stop" | ActionRestart => lit "restart" end.

Definition required_target (target : option str) : AppResult str :=
  target ← ok_or target InvalidOperation; validate_target target;; Ok target.

(** [for item in &items { check(item)?; }] *)
Fixpoint for_all_valid (check : str -> AppResult unit) (items : list str) : AppResult unit :=
  match items with [] => Ok tt | item :: rest => check item;; for_all_valid check rest end.

(** ** JSON fields *)
Definition optional_json_string (value : json) (key : string) : option str :=
  opt_filter (fun v => blen v <=? 4096)%N (json_get value (lit key) ≫= as_str).
Definition json_string (value : json) (key : string) : AppResult str :=
  ok_or (optional_json_string value key) ExecFailed.
Arguments optional_json_string value key%_string.
Arguments json_string value key%_string.

Definition json_u64 (value : json) (key : string) : option N :=
  item ← json_get value (lit key);
  match item with
  | JNumber (JPosInt n) => Some n
  | JString text => parse_u64 text
  | JBool flag => Some (if flag then 1 else 0)%N
  | _ => None
  end.
Arguments json_u64 value key%_string.

Definition json_bool (value : json) (key : string) : option bool :=
  item ← json_get value (lit key);
  match item with
  | JBool flag => Some flag
  | JString text =>
      let text := to_ascii_lowercase (trim text) in
      if str_in [lit "true"; lit "1"; lit "yes"; lit "[ok]"] text then Some true
      else if str_in [lit "false"; lit "0"; lit "no"; []] text then Some false
      else None
  | JNumber (JPosInt n) => Some (negb (n =? 0)%N)
  | _ => None
  end.
Arguments json_bool value key%_string.

Definition as_array (v : json) : option (list json) := match v with JArray l => Some l | _ => None end.
Definition as_f64 (v : json) : option spec_float :=
  match v with
  | JNumber (JPosInt n) => Some (f64_of_N n)
  | JNumber (JNegInt z) => Some (binary_normalize 53 1024 z 0 false)
  | JNumber (JFloat bits) => Some (f64_of_bits bits)
  | _ => None
  end.

(** ** Dates and sizes *)
Definition wrap_i64 (z : Z) : Z := ((z + 9223372036854775808) mod 18446744073709551616 - 9223372036854775808)%Z.

(** None of the steps is checked: a release build wraps. *)
Definition days_from_civil (year : Z) (month day : N) : Z :=
  let m := Z.of_N month in
  let d := Z.of_N day in
  let y := wrap_i64 (year - if (m <=? 2)%Z then 1 else 0) in
  let era := ((if (0 <=? y)%Z then y else wrap_i64 (y - 399)) ÷ 400)%Z in
  let yoe := wrap_i64 (y - era * 400) in
  let mp := (if (2 <? m)%Z then m - 3 else m + 9)%Z in
  let doy := ((153 * mp + 2) ÷ 5 + d - 1)%Z in
  let doe := wrap_i64 (wrap_i64 (yoe * 365) + yoe ÷ 4 - yoe ÷ 100 + doy)%Z in
  wrap_i64 (wrap_i64 (wrap_i64 (era * 146097) + doe) - 719468).

Definition checked (z : Z) : option Z := opt_filter i64_range (Some z).

(** A panic where the offset of five bytes has a character across its second or
    third byte. *)
Definition apply_timezone_offset (epoch : Z) (offset : str) : option (option Z) :=
  if negb (blen offset =? 5)%N then Some (Some epoch) else
  match offset with
  | (43%N | 45%N) as c :: _ =>
      let sign := (if (c =? 43)%N then 1 else -1)%Z in
      hours ← byte_slice offset 1 3;
      match parse_i64 hours with
      | None => Some None
      | Some hours =>
          minutes ← byte_slice offset 3 5;
          match parse_i64 minutes with
          | None => Some None
          | Some minutes =>
              if (14 <? hours)%Z || (59 <? minutes)%Z then Some None
              else Some (checked (epoch - sign * (hours * 3600 + minutes * 60)))
          end
      end
  | _ => Some (Some epoch)
  end.

(** The three numbers of a date and of a time, the rest ignored. *)
Definition date_fields (date : str) : option (Z * N * N) :=
  match split (N.eqb 45) date with
  | year :: month :: day :: _ =>
      year ← parse_i64 year; month ← parse_u32 month; day ← parse_u32 day; Some (year, month, day)
  | _ => None
  end.
Definition time_fields (time : str) : option (N * N * N) :=
  match split (N.eqb 58) time with
  | hour :: minute :: second :: _ =>
      hour ← parse_u32 hour; minute ← parse_u32 minute; second ← parse_u32 second; Some (hour, minute, second)
  | _ => None
  end.

Definition in_range (month day hour minute second : N) : bool :=
  (1 <=? month)%N && (month <=? 12)%N && (1 <=? day)%N && (day <=? 31)%N && (hour <=? 23)%N
  && (minute <=? 59)%N && (second <=? 60)%N.

Definition epoch_of (year : Z) (month day hour minute second : N) : option Z :=
  e ← checked (days_from_civil year month day * 86400)%Z;
  e ← checked (e + Z.of_N hour * 3600)%Z;
  e ← checked (e + Z.of_N minute * 60)%Z;
  checked (e + Z.of_N second)%Z.

Definition parse_docker_created_at (value : str) : option (option N) :=
  match split_whitespace value with
  | date :: time :: rest =>
      let offset := match rest with offset :: _ => offset | [] => lit "+0000" end in
      match date_fields date, time_fields time with
      | Some (year, month, day), Some (hour, minute, second) =>
          if negb (in_range month day hour minute second) then Some None
          else
            match epoch_of year month day hour minute second with
            | None => Some None
            | Some epoch =>
                shifted ← apply_timezone_offset epoch offset;
                Some (e ← shifted; if (0 <=? e)%Z then Some (Z.to_N e) else None)
            end
      | _, _ => Some None
      end
  | _ => Some None
  end.

Definition strip_suffix_char (c : chr) (s : str) : option str :=
  match rev s with x :: r => if (x =? c)%N then Some (rev r) else None | [] => None end.

(** The date and time of an RFC 3339 text, and its offset as four digits. *)
Definition network_parts (value : str) : option (option (str * str)) :=
  match strip_suffix_char 90 value with
  | Some stripped => Some (Some (stripped, lit "+0000"))
  | None =>
      if (blen value <? 6)%N then Some None
      else
        '(front, tz) ← split_at_byte (blen value - 6) value;
        match tz with
        | (43%N | 45%N) as sign :: _ =>
            if bool_decide (ascii_byte_at 3 tz = Some 58%N) then
              hours ← byte_slice tz 1 3; minutes ← byte_slice tz 4 6;
              Some (Some (front, sign :: hours ++ minutes))
            else Some None
        | _ => Some None
        end
  end.

Definition parse_network_created_at (value : str) : option (option N) :=
  let value := trim value in
  if is_empty value then Some None else
  parts ← network_parts value;
  match parts with
  | None => parse_docker_created_at value
  | Some (datetime, offset) =>
      let datetime := default datetime (head (split (N.eqb 46) datetime)) in
      match split_once (N.eqb 84) datetime with
      | None => Some None
      | Some (date, time) =>
          parse_docker_created_at (date ++ lit " " ++ time ++ lit " " ++ offset)
      end
  end.

Definition is_ascii_alphabetic (c : chr) : bool := is_ascii_uppercase c || is_ascii_lowercase c.

(** [value.split_at(value.find(p).unwrap_or(value.len()))]. *)
Fixpoint split_at_first (p : chr -> bool) (s : str) : str * str :=
  match s with
  | [] => ([], [])
  | c :: t => if p c then ([], s) else let '(a, b) := split_at_first p t in (c :: a, b)
  end.

Definition size_multiplier (unit_ : str) : option N :=
  let u := to_ascii_lowercase (trim unit_) in
  if str_in [[]; lit "b"] u then Some 1%N
  else if str_in [lit "kb"; lit "kib"] u then Some 1024%N
  else if str_in [lit "mb"; lit "mib"] u then Some 1048576%N
  else if str_in [lit "gb"; lit "gib"] u then Some 1073741824%N
  else if str_in [lit "tb"; lit "tib"] u then Some 1099511627776%N
  else None.

Definition parse_docker_size (value : str) : option N :=
  let value := trim value in
  if is_empty value then None else
  let '(number, unit_) := split_at_first is_ascii_alphabetic value in
  amount ← parse_f64 (trim number);
  if negb (f64_is_finite amount) || f64_ltb amount (S754_zero false) then None
  else
    multiplier ← size_multiplier unit_;
    Some (f64_as_u64 (f64_round (f64_mul amount (f64_of_N multiplier)))).

Definition parse_cpu_percent (value : str) : option spec_float :=
  parse_f64 (trim (trim_end_matches (N.eqb 37) (trim value))).

Definition parse_mem_usage_bytes (value : str) : option N :=
  used ← head (split (N.eqb 47) value); parse_docker_size (trim used).

(** ** Parsing what the programs print *)
Section Parsing.
Context `{JsonText}.

(** [map(parse).collect::<AppResult<Vec<_>>>()] for a parser that may panic. *)
Fixpoint collect_parsed {A} (parse : str -> option (AppResult A)) (items : list str) :
    option (AppResult (list A)) :=
  match items with
  | [] => Some (Ok [])
  | item :: rest =>
      parsed ← parse item;
      match parsed with
      | Err e => Some (Err e)
      | Ok a =>
          others ← collect_parsed parse rest;
          Some (others ← others; Ok (a :: others))
      end
  end.

(** [lines().filter(|line| !line.trim().is_empty()).take(n)] *)
Definition output_lines (n : nat) (output : str) : list str :=
  firstn n (List.filter (fun line => negb (is_empty (trim line))) (lines output)).

Definition json_line (line : str) : AppResult json := ok_or (json_from_str line) ExecFailed.

Definition parse_docker_container (line : str) : AppResult DockerContainer :=
  value ← json_line line;
  id ← json_string value "ID";
  name ← json_string value "Names";
  image ← json_string value "Image";
  state ← json_string value "State";
  status ← json_string value "Status";
  Ok {| dc_id := id; dc_name := name; dc_image := image; dc_state := state; dc_status := status;
        dc_ports := default [] (optional_json_string value "Ports");
        dc_cpu_percent := S754_zero false; dc_memory_bytes := 0 |}.

Definition none_text : str := lit "<none>".

Definition format_image_name (repository tag : str) : str :=
  if str_eqb repository none_text && str_eqb tag none_text then none_text
  else if str_eqb tag none_text then repository
  else repository ++ lit ":" ++ tag.

(** The time of a field, [0] where it has none. *)
Definition created_at (parse : str -> option (option N)) (field : option str) : option N :=
  match field with None => Some 0%N | Some text => default 0%N <$> parse text end.

Definition parse_docker_image (line : str) : option (AppResult DockerImage) :=
  match (value ← json_line line; id ← json_string value "ID"; Ok (value, id)) with
  | Err e => Some (Err e)
  | Ok (value, id) =>
      let repository := default none_text (optional_json_string value "Repository") in
      let tag := default none_text (optional_json_string value "Tag") in
      let size_bytes := default 0%N (optional_json_string value "Size" ≫= parse_docker_size) in
      created ← created_at parse_docker_created_at (optional_json_string value "CreatedAt");
      Some (Ok {| di_id := id; di_name := format_image_name repository tag; di_size_bytes := size_bytes;
                  di_created_at_epoch_seconds := created; di_used_by := [] |})
  end.

(** The first configuration with an IPv4 subnet. *)
Fixpoint ipam_config (configs : list json) : str * str :=
  match configs with
  | [] => ([], [])
  | config :: rest =>
      let subnet := default [] (optional_json_string config "Subnet") in
      if is_empty subnet || negb (contains_char subnet 46) then ipam_config rest
      else (subnet, default [] (optional_json_string config "Gateway"))
  end.

Definition parse_network_ipam (value : json) : str * str :=
  match (ipam ← json_get value (lit "IPAM"); config ← json_get ipam (lit "Config"); as_array config) with
  | None => ([], [])
  | Some configs => ipam_config configs
  end.

Definition label_pair (field : str * json) : option str :=
  value ← as_str (snd field); Some (fst field ++ lit ":" ++ value).

Definition format_network_labels (labels : option json) : str :=
  match labels with
  | Some (JObject m) =>
      join (lit ", ") (sort_by str_leb (omap label_pair m))
  | _ => []
  end.

Definition parse_docker_network (line : str) : option (AppResult DockerNetwork) :=
  match (value ← json_line line;
         id ← match json_string value "Id" with Ok id => Ok id | Err _ => json_string value "ID" end;
         name ← json_string value "Name";
         Ok (value, id, name)) with
  | Err e => Some (Err e)
  | Ok (value, id, name) =>
      let driver := default [] (optional_json_string value "Driver") in
      let '(ipv4_subnet, ipv4_gateway) := parse_network_ipam value in
      created ← created_at parse_network_created_at (optional_json_string value "Created");
      Some (Ok {| dn_id := id; dn_name := name; dn_driver := driver; dn_ipv4_subnet := ipv4_subnet;
                  dn_ipv4_gateway := ipv4_gateway; dn_labels := format_network_labels (json_get value (lit "Labels"));
                  dn_created_at_epoch_seconds := created |})
  end.

Definition parse_docker_volume (line : str) : option (AppResult DockerVolume) :=
  match (value ← json_line line; name ← json_string value "Name"; Ok (value, name)) with
  | Err e => Some (Err e)
  | Ok (value, name) =>
      let field key := default [] (optional_json_string value key) in
      created ← created_at parse_network_created_at (optional_json_string value "CreatedAt");
      Some (Ok {| dv_name := name; dv_driver := field "Driver"%string; dv_mountpoint := field "Mountpoint"%string;
                  dv_scope := field "Scope"%string; dv_labels := format_network_labels (json_get value (lit "Labels"));
                  dv_created_at_epoch_seconds := created; dv_used_by := [] |})
  end.

(** ** Who uses what *)

(** [if let Some(x) = items.iter_mut().find(p) { f(x) }] *)
Fixpoint update_first {A} (p : A -> bool) (f : A -> A) (items : list A) : list A :=
  match items with [] => [] | x :: rest => if p x then f x :: rest else x :: update_first p f rest end.

(** [if !names.iter().any(|existing| existing == name) { names.push(name) }] *)
Definition push_new (names : list str) (name : str) : list str :=
  if str_in names name then names else names ++ [name].

Definition normalize_container_name (name : str) : str := trim_start_matches (N.eqb 47) (trim name).

Definition volume_used_by (v : DockerVolume) (name : str) : DockerVolume :=
  {| dv_name := dv_name v; dv_driver := dv_driver v; dv_mountpoint := dv_mountpoint v; dv_scope := dv_scope v;
     dv_labels := dv_labels v; dv_created_at_epoch_seconds := dv_created_at_epoch_seconds v;
     dv_used_by := push_new (dv_used_by v) name |}.

Definition attach_volume_user (volumes : list DockerVolume) (line : str) : list DockerVolume :=
  match split_once (N.eqb 9) line with
  | None => volumes
  | Some (container_name, volume_name) =>
      let container_name := normalize_container_name container_name in
      let volume_name := trim volume_name in
      if is_empty container_name || is_empty volume_name then volumes
      else update_first (fun v => str_eqb (dv_name v) volume_name)
             (fun v => volume_used_by v container_name) volumes
  end.

Definition attach_volume_users (volumes : list DockerVolume) (output : str) : list DockerVolume :=
  foldl attach_volume_user volumes (output_lines (N.to_nat 10000) output).

Definition strip_sha256_prefix (value : str) : str := default value (strip_prefix value (lit "sha256:")).

Definition image_matches_container (image : DockerImage) (container_image : str) : bool :=
  let container_image := trim container_image in
  if is_empty container_image then false
  else if negb (str_eqb (di_name image) none_text) && str_eqb (di_name image) container_image then true
  else
    let image_id := strip_sha256_prefix (di_id image) in
    let container_id := strip_sha256_prefix container_image in
    negb (is_empty image_id) && negb (is_empty container_id)
    && (starts_with image_id container_id || starts_with container_id image_id).

Definition image_used_by (i : DockerImage) (names : list str) : DockerImage :=
  {| di_id := di_id i; di_name := di_name i; di_size_bytes := di_size_bytes i;
     di_created_at_epoch_seconds := di_created_at_epoch_seconds i;
     di_used_by := foldl push_new (di_used_by i) names |}.

Definition container_names (container : DockerContainer) : list str :=
  List.filter (fun name => negb (is_empty name))
    (map trim (split (N.eqb 44) (normalize_container_name (dc_name container)))).

Definition attach_image_user (images : list DockerImage) (container : DockerContainer) : list DockerImage :=
  let names := container_names container in
  if bool_decide (names = []) then images
  else map (fun i => if image_matches_container i (dc_image container) then image_used_by i names else i) images.

Definition attach_image_users (images : list DockerImage) (containers : list DockerContainer) : list DockerImage :=
  foldl attach_image_user images containers.

Definition container_id_matches (container_id stats_id : str) : bool :=
  negb (is_empty stats_id) && (starts_with container_id stats_id || starts_with stats_id container_id).

Definition container_name_matches (container_name stats_name : str) : bool :=
  existsb (fun part => str_eqb part stats_name) (split (N.eqb 44) (normalize_container_name container_name)).

Definition container_stats (c : DockerContainer) (cpu_percent : spec_float) (memory_bytes : N) : DockerContainer :=
  {| dc_id := dc_id c; dc_name := dc_name c; dc_image := dc_image c; dc_state := dc_state c;
     dc_status := dc_status c; dc_ports := dc_ports c;
     dc_cpu_percent := cpu_percent; dc_memory_bytes := memory_bytes |}.

Definition str_field (value : json) (key : string) : option str := json_get value (lit key) ≫= as_str.

Definition merge_stats_line (containers : list DockerContainer) (line : str) : list DockerContainer :=
  match json_from_str line with
  | None => containers
  | Some value =>
      match (match str_field value "ID" with Some id => Some id | None => str_field value "Container" end) with
      | None => containers
      | Some stats_id =>
          let stats_name := normalize_container_name <$> str_field value "Name" in
          let cpu_percent := default (S754_zero false) (str_field value "CPUPerc" ≫= parse_cpu_percent) in
          let memory_bytes := default 0%N (str_field value "MemUsage" ≫= parse_mem_usage_bytes) in
          update_first
            (fun c => container_id_matches (dc_id c) stats_id
                      || match stats_name with Some name => container_name_matches (dc_name c) name | None => false end)
            (fun c => container_stats c cpu_percent memory_bytes) containers
      end
  end.

Definition merge_docker_stats (containers : list DockerContainer) (output : str) : list DockerContainer :=
  foldl merge_stats_line containers (output_lines 2000 output).

Definition parse_pm2_value (value : json) : AppResult Pm2Process :=
  environment ← ok_or (json_get value (lit "pm2_env")) ExecFailed;
  monitoring ← ok_or (json_get value (lit "monit")) ExecFailed;
  id ← ok_or (opt_filter (fun n => n <=? 4294967295)%N (json_get value (lit "pm_id") ≫= as_u64)) ExecFailed;
  name ← json_string value "name";
  status ← json_string environment "status";
  Ok {| pm_id := id; pm_name := name; pm_status := status;
        pm_cpu_percent := default (S754_zero false) (json_get monitoring (lit "cpu") ≫= as_f64);
        pm_memory_bytes := default 0%N (json_get monitoring (lit "memory") ≫= as_u64) |}.

Definition parse_pm2 (output : str) : AppResult (list Pm2Process) :=
  values ← ok_or (json_from_str output ≫= as_array) ExecFailed;
  mapM parse_pm2_value (firstn 2000 values).

(** ** Docker Hub *)
Definition parse_hub_online_image (value : json) : AppResult DockerOnlineImage :=
  name ← json_string value "repo_name";
  if is_empty name || (256 <? blen name)%N then Err ExecFailed
  else Ok {| doi_name := name; doi_description := default [] (optional_json_string value "short_description");
             doi_star_count := default 0%N (json_u64 value "star_count");
             doi_is_official := default false (json_bool value "is_official");
             doi_is_automated := default false (json_bool value "is_automated"); doi_tags := [] |}.

Definition parse_hub_library_image (value : json) : AppResult DockerOnlineImage :=
  name ← json_string value "name";
  if is_empty name || (256 <? blen name)%N || contains_char name 47 then Err ExecFailed
  else
    let description :=
      match optional_json_string value "description" with
      | Some d => d
      | None => default [] (optional_json_string value "short_description")
      end in
    Ok {| doi_name := name; doi_description := description;
          doi_star_count := default 0%N (json_u64 value "star_count"); doi_is_official := true;
          doi_is_automated := default false (json_bool value "is_automated"); doi_tags := [] |}.

Definition hub_repository_path (name : str) : str :=
  if contains_char name 47 then name else lit "library/" ++ name.

Definition latest_text : str := lit "latest".

Definition prefer_latest_tag (tags : list str) : list str :=
  match list_find (fun tag => tag = latest_text) tags with
  | Some (index, latest) => if (0 <? index)%nat then latest :: base.delete index tags else tags
  | None => tags
  end.

(** The loop over the results of a page of tags, and the tags it keeps. *)
Definition hub_tag (tags : list str) (value : json) : list str :=
  match optional_json_string value "name" with
  | None => tags
  | Some tag => if is_empty tag || (128 <? blen tag)%N then tags else push_new tags tag
  end.

Definition parse_hub_tags (results : list json) : list str := prefer_latest_tag (foldl hub_tag [] results).

Definition parse_hub_search (results : list json) (limit : N) : list DockerOnlineImage :=
  firstn (N.to_nat limit)
    (omap (fun value => match parse_hub_online_image value with Ok i => Some i | Err _ => None end) results).
End Parsing.

(** ** Operations *)
Definition ensure_supported (result : RemoteExecResult) : AppResult unit :=
  if (re_exit_code result =? 0)%N then Ok tt
  else if (re_exit_code result =? 90)%N then Err UnsupportedRemote
  else Err ExecFailed.

Definition combined_output (result : RemoteExecResult) : str :=
  let stdout := trim (re_stdout result) in
  let stderr := trim (re_stderr result) in
  match is_empty stdout, is_empty stderr with
  | false, false => stdout ++ lit "
" ++ stderr
  | false, true => stdout
  | true, false => stderr
  | true, true => []
  end.

Definition run_operation (session_id : Uuid) (command : RemoteCommand) : RmProc OperationResult :=
  result ← exec session_id command;
  if (re_exit_code result =? 90)%N then lift (Err UnsupportedRemote)
  else mret {| or_success := (re_exit_code result =? 0)%N; or_output := combined_output result |}.

(** [if let Ok(x) = exec(..)]: the result, or the error. *)
Definition try_exec (session_id : Uuid) (command : RemoteCommand) : RmProc (AppResult RemoteExecResult) :=
  ask (RmExec session_id command).

Definition when_ok {A} (answer : AppResult RemoteExecResult) (f : str -> A -> A) (a : A) : A :=
  match answer with
  | Ok result => if (re_exit_code result =? 0)%N then f (re_stdout result) a else a
  | Err _ => a
  end.

Section Operations.
Context `{JsonText} (session_id : Uuid).

Definition docker_list : RmProc (list DockerContainer) :=
  result ← exec session_id (script DOCKER_LIST []);
  lift (ensure_supported result) ;;
  containers ← lift (mapM parse_docker_container (output_lines 2000 (re_stdout result)));
  stats ← try_exec session_id (script DOCKER_STATS []);
  mret (when_ok stats (fun output containers => merge_docker_stats containers output) containers).

Definition listed_containers (output : str) : list DockerContainer :=
  omap (fun line => match parse_docker_container line with Ok c => Some c | Err _ => None end)
    (output_lines 2000 output).

Definition docker_images_list : RmProc (list DockerImage) :=
  result ← exec session_id (script DOCKER_IMAGES []);
  lift (ensure_supported result) ;;
  parsed ← indexed (collect_parsed parse_docker_image (output_lines 2000 (re_stdout result)));
  images ← lift parsed;
  containers ← try_exec session_id (script DOCKER_LIST []);
  mret (when_ok containers (fun output images => attach_image_users images (listed_containers output)) images).

Definition docker_action (container : str) (action : ResourceAction) : RmProc OperationResult :=
  lift (validate_target container) ;;
  run_operation session_id (script DOCKER_ACTION [action_verb action; container]).

(** [while args.len() < n { args.push(String::new()) }] *)
Definition padded (n : nat) (args : list str) : list str := args ++ replicate (n - length args) [].

Definition docker_image_action (action : DockerImageAction) : RmProc OperationResult :=
  match action with
  | ImagePull reference =>
      lift (validate_image_reference reference) ;;
      run_operation session_id (with_timeout (script DOCKER_PULL [reference]) 300000)
  | ImageRemove ids =>
      if bool_decide (ids = []) || (MAX_IMAGE_REMOVE <? length ids)%nat then lift (Err InvalidOperation)
      else
        lift (for_all_valid validate_image_reference ids) ;;
        run_operation session_id (script DOCKER_RMI ids)
  | ImagePrune => run_operation session_id (script DOCKER_PRUNE [])
  | ImageCreateContainer image name publish_ports =>
      lift (validate_image_reference image) ;;
      lift (validate_container_name name) ;;
      if (MAX_PUBLISH_PORTS <? length publish_ports)%nat then lift (Err InvalidOperation)
      else
        lift (for_all_valid validate_publish_port publish_ports) ;;
        run_operation session_id
          (script DOCKER_RUN (padded (2 + MAX_PUBLISH_PORTS) ([name; image] ++ publish_ports)))
  end.

Definition docker_networks_list : RmProc (list DockerNetwork) :=
  result ← exec session_id (script DOCKER_NETWORKS []);
  lift (ensure_supported result) ;;
  parsed ← indexed (collect_parsed parse_docker_network (output_lines 2000 (re_stdout result)));
  lift parsed.

Definition unless_empty (check : str -> AppResult unit) (value : str) : AppResult unit :=
  if is_empty value then Ok tt else check value.

Definition docker_network_action (action : DockerNetworkAction) : RmProc OperationResult :=
  match action with
  | NetworkCreate name driver subnet gateway labels =>
      lift (validate_network_name name) ;;
      lift (validate_network_driver driver) ;;
      let subnet := trim subnet in
      let gateway := trim gateway in
      lift (unless_empty validate_ipv4_cidr subnet) ;;
      lift (unless_empty validate_ipv4_address gateway) ;;
      if (MAX_NETWORK_LABELS <? length labels)%nat then lift (Err InvalidOperation)
      else
        lift (for_all_valid validate_network_label labels) ;;
        run_operation session_id
          (script DOCKER_NETWORK_CREATE
             (padded (4 + MAX_NETWORK_LABELS) ([name; driver; subnet; gateway] ++ labels)))
  | NetworkRemove ids =>
      if bool_decide (ids = []) || (MAX_NETWORK_REMOVE <? length ids)%nat then lift (Err InvalidOperation)
      else
        lift (for_all_valid validate_network_remove_target ids) ;;
        run_operation session_id (script DOCKER_NETWORK_RM ids)
  | NetworkPrune => run_operation session_id (script DOCKER_NETWORK_PRUNE [])
  end.

Definition docker_volumes_list : RmProc (list DockerVolume) :=
  result ← exec session_id (script DOCKER_VOLUMES []);
  lift (ensure_supported result) ;;
  parsed ← indexed (collect_parsed parse_docker_volume (output_lines 2000 (re_stdout result)));
  volumes ← lift parsed;
  users ← try_exec session_id (script DOCKER_VOLUME_USERS []);
  mret (when_ok users (fun output volumes => attach_volume_users volumes output) volumes).

Definition docker_volume_action (action : DockerVolumeAction) : RmProc OperationResult :=
  match action with
  | VolumeCreate name driver labels =>
      lift (validate_volume_name name) ;;
      let driver := trim driver in
      lift (unless_empty validate_volume_driver driver) ;;
      if (MAX_VOLUME_LABELS <? length labels)%nat then lift (Err InvalidOperation)
      else
        lift (for_all_valid validate_network_label labels) ;;
        run_operation session_id
          (script DOCKER_VOLUME_CREATE (padded (2 + MAX_VOLUME_LABELS) ([name; driver] ++ labels)))
  | VolumeRemove names =>
      if bool_decide (names = []) || (MAX_VOLUME_REMOVE <? length names)%nat then lift (Err InvalidOperation)
      else
        lift (for_all_valid validate_volume_remove_target names) ;;
        run_operation session_id (script DOCKER_VOLUME_RM names)
  | VolumePrune => run_operation session_id (script DOCKER_VOLUME_PRUNE [])
  end.

Definition pm2_list : RmProc (list Pm2Process) :=
  result ← exec session_id (script PM2_LIST []);
  lift (ensure_supported result) ;;
  lift (parse_pm2 (re_stdout result)).

Definition pm2_action (process : str) (action : ResourceAction) : RmProc OperationResult :=
  lift (validate_target process) ;;
  run_operation session_id (script PM2_ACTION [action_verb action; process]).

Definition nginx_action (action : NginxAction) : RmProc OperationResult :=
  let text := match action with NginxActionTest => NGINX_TEST | NginxActionReload => NGINX_RELOAD end in
  run_operation session_id (script text []).

Definition log_script (source : LogSource) : str :=
  sh_text match source with
  | LogSystem => "if command -v journalctl >/dev/null 2>&1; then journalctl -n ^$1^ --no-pager; elif test -r /var/log/syslog; then tail -n ^$1^ /var/log/syslog; else exit 90; fi"
  | LogAuth => "if test -r /var/log/auth.log; then tail -n ^$1^ /var/log/auth.log; elif test -r /var/log/secure; then tail -n ^$1^ /var/log/secure; else exit 90; fi"
  | LogNginxAccess => "test -r /var/log/nginx/access.log || exit 90; tail -n ^$1^ /var/log/nginx/access.log"
  | LogNginxError => "test -r /var/log/nginx/error.log || exit 90; tail -n ^$1^ /var/log/nginx/error.log"
  | LogDocker => "command -v docker >/dev/null 2>&1 || exit 90; docker logs --tail ^$1^ ^$2^"
  | LogPm2 => "command -v pm2 >/dev/null 2>&1 || exit 90; pm2 logs ^$2^ --lines ^$1^ --nostream"
  | LogService => "command -v journalctl >/dev/null 2>&1 || exit 90; journalctl -u ^$2^ -n ^$1^ --no-pager"
  end.

Definition needs_target (source : LogSource) : bool :=
  match source with LogDocker | LogPm2 | LogService => true | _ => false end.

Definition logs (source : LogSource) (target : option str) (lines : N) : RmProc OperationResult :=
  if negb ((20 <=? lines)%N && (lines <=? 5000)%N) then lift (Err InvalidOperation)
  else
    args ← lift (if needs_target source
                 then target ← required_target target; Ok [dec lines; target] else Ok [dec lines]);
    run_operation session_id (with_output_limit (script (log_script source) args) 1048576).
End Operations.
