(* ===== verification/OperationsTheorems.v ===== *)
(** * What the operations send, and the dates they read

    Every command of every operation is one of the fixed scripts, and what its
    caller supplies reaches the remote host as plain words.  [days_from_civil]
    is the calendar. *)
From S2P Require Import Prelude Str Json Errors RunState NumText Process RemoteExec Operations.
From Stdlib Require Import Floats.SpecFloat.

(** ** The commands *)
Definition fixed_scripts : list str :=
  [DOCKER_LIST; DOCKER_STATS; DOCKER_IMAGES; DOCKER_NETWORKS; DOCKER_PULL; DOCKER_PRUNE; DOCKER_RMI;
   DOCKER_RUN; DOCKER_NETWORK_CREATE; DOCKER_NETWORK_RM; DOCKER_NETWORK_PRUNE; DOCKER_VOLUMES;
   DOCKER_VOLUME_USERS; DOCKER_VOLUME_CREATE; DOCKER_VOLUME_RM; DOCKER_VOLUME_PRUNE; PM2_LIST;
   NGINX_TEST; NGINX_RELOAD; DOCKER_ACTION; PM2_ACTION]
  ++ map log_script [LogSystem; LogAuth; LogNginxAccess; LogNginxError; LogDocker; LogPm2; LogService].

Inductive OperationRequest :=
  | ReqDockerList
  | ReqDockerImagesList
  | ReqDockerAction (container : str) (action : ResourceAction)
  | ReqDockerImageAction (action : DockerImageAction)
  | ReqDockerNetworksList
  | ReqDockerNetworkAction (action : DockerNetworkAction)
  | ReqDockerVolumesList
  | ReqDockerVolumeAction (action : DockerVolumeAction)
  | ReqPm2List
  | ReqPm2Action (process : str) (action : ResourceAction)
  | ReqNginxAction (action : NginxAction)
  | ReqLogs (source : LogSource) (target : option str) (lines : N).

Definition operation `{JsonText} (session_id : Uuid) (r : OperationRequest) : RmProc unit :=
  match r with
  | ReqDockerList => docker_list session_id ;; mret tt
  | ReqDockerImagesList => docker_images_list session_id ;; mret tt
  | ReqDockerAction container action => docker_action session_id container action ;; mret tt
  | ReqDockerImageAction action => docker_image_action session_id action ;; mret tt
  | ReqDockerNetworksList => docker_networks_list session_id ;; mret tt
  | ReqDockerNetworkAction action => docker_network_action session_id action ;; mret tt
  | ReqDockerVolumesList => docker_volumes_list session_id ;; mret tt
  | ReqDockerVolumeAction action => docker_volume_action session_id action ;; mret tt
  | ReqPm2List => pm2_list session_id ;; mret tt
  | ReqPm2Action process action => pm2_action session_id process action ;; mret tt
  | ReqNginxAction action => nginx_action session_id action ;; mret tt
  | ReqLogs source target lines => logs session_id source target lines ;; mret tt
  end.

(** A word of letters, digits and a few marks: no blank, no quote, nothing the
    shell or a script's expansion of it gives a meaning. *)
Definition plain_arg (arg : str) : Prop := word_chars "_-.@:/=+" arg = true /\ (blen arg <= 512)%N.

(** The command is the session's, and its line is read back as a fixed script
    and plain words. *)
Definition exact_command (session_id : Uuid) (q : RmQuery) : Prop :=
  match q with
  | RmExec s c =>
      s = session_id /\
      exists text args line,
        text ∈ fixed_scripts /\ Forall plain_arg args /\ render c = Ok line /\
        sh_words line = Some (lit "sh" :: lit "-c" :: text :: lit "runory" :: args)
  | RmReadText _ _ | RmWriteText _ _ _ => False
  end.

Lemma valid_if_ok b u : valid_if b = Ok u <-> b = true.
Proof. destruct b, u; cbn; split; congruence. Qed.

Lemma word_chars_mono extra all s :
  forallb (fun c => existsb (N.eqb c) (lit all)) (lit extra) = true ->
  word_chars extra s = true -> word_chars all s = true.
Proof.
  unfold word_chars. rewrite !Forallb_forall. intros Hsub Hs c Hc.
  apply Hs in Hc as [->|Hc]%orb_prop; [done|]. apply orb_true_iff. right.
  apply Existsb_exists in Hc as (x & Hx & <-%N.eqb_eq). by apply Hsub.
Qed.

Lemma word_chars_app extra a b : word_chars extra (a ++ b) = word_chars extra a && word_chars extra b.
Proof. apply forallb_app. Qed.

Lemma digits_word extra s : forallb is_ascii_digit s = true -> word_chars extra s = true.
Proof.
  unfold word_chars. rewrite !Forallb_forall. intros Hs c Hc. apply Hs in Hc.
  unfold is_ascii_alphanumeric. by rewrite Hc.
Qed.

Lemma plain_quotable arg : plain_arg arg -> quotable arg.
Proof.
  intros [Hw Hl]. split; [|lia]. intros H0. unfold word_chars in Hw. rewrite Forallb_forall in Hw.
  apply Hw in H0. by vm_compute in H0.
Qed.

Lemma fixed_quotable text : text ∈ fixed_scripts -> quotable text.
Proof.
  intros Ht. assert (Hall : forallb (fun t => negb (existsb (N.eqb 0) t) && (blen t <=? 16384)%N) fixed_scripts = true)
    by (by vm_compute).
  rewrite Forallb_forall in Hall. apply Hall, andb_prop in Ht as [Hn%negb_true_iff Hl%N.leb_le].
  split; [|done]. intros H0. rewrite Existsb_false in Hn. by apply Hn in H0.
Qed.

Lemma empty_plain : plain_arg [].
Proof. by split. Qed.

Lemma plain_join c l n :
  word_chars "_-.@:/=+" [c] = true -> (blen [c] = 1)%N ->
  Forall (fun p => word_chars "_-.@:/=+" p = true /\ (blen p <= n)%N) l ->
  word_chars "_-.@:/=+" (join [c] l) = true /\ (blen (join [c] l) <= N.of_nat (length l) * (n + 1))%N.
Proof.
  intros Hc H1 Hl. induction Hl as [|p l [Hp Hb] Hl [IHw IHb]]; [done|].
  destruct l as [|q l]; [cbn [join length]; split; [done|lia]|].
  change (join [c] (p :: q :: l)) with (p ++ [c] ++ join [c] (q :: l)).
  rewrite !word_chars_app, !blen_app, H1, Hp, Hc, IHw. split; [done|].
  cbn [length] in *. lia.
Qed.

Lemma join_split c s : join [c] (split (N.eqb c) s) = s.
Proof.
  induction s as [|x s IH]; [done|]. cbn. destruct (split (N.eqb c) s) as [|p l] eqn:E.
  { by apply split_nonempty in E. }
  destruct (N.eqb_spec c x) as [<-|Hn].
  - cbn [join app]. by rewrite <- IH.
  - rewrite <- IH. by destruct l.
Qed.

Lemma split_once_app p s a b : split_once p s = Some (a, b) -> exists c, p c = true /\ s = a ++ c :: b.
Proof.
  revert a. induction s as [|x s IH]; intros a; [done|]. cbn. destruct (p x) eqn:E.
  - intros [= <- <-]. by exists x.
  - destruct (split_once p s) as [[a' b']|]; [|done]. intros [= <- <-].
    destruct (IH a' eq_refl) as (c & Hc & ->). by exists c.
Qed.

Lemma split_once_char c s a b : split_once (N.eqb c) s = Some (a, b) -> s = a ++ c :: b.
Proof. by intros (x & <-%N.eqb_eq & ->)%split_once_app. Qed.

(** Two words around a mark. *)
Lemma plain_pair c a b :
  word_chars "_-.@:/=+" [c] = true -> (blen [c] = 1)%N ->
  word_chars "_-.@:/=+" a = true -> word_chars "_-.@:/=+" b = true -> (blen a + blen b <= 511)%N ->
  plain_arg (a ++ c :: b).
Proof.
  intros Hc H1 Ha Hb Hl. change (c :: b) with ([c] ++ b). split; [by rewrite !word_chars_app, Ha, Hc, Hb|].
  rewrite !blen_app. lia.
Qed.

Lemma target_plain t u : validate_target t = Ok u -> plain_arg t.
Proof.
  intros H%valid_if_ok. breflect. split; [|lia]. by eapply word_chars_mono; [|done].
Qed.

Lemma container_name_plain name u : validate_container_name name = Ok u -> plain_arg name.
Proof.
  intros H%valid_if_ok. breflect. split; [|lia]. by eapply word_chars_mono; [|done].
Qed.

Lemma network_name_plain name u : validate_network_name name = Ok u -> plain_arg name.
Proof. by intros ([] & H%container_name_plain & _)%bind_ok. Qed.

Lemma network_target_plain t u : validate_network_remove_target t = Ok u -> plain_arg t.
Proof. by intros ([] & H%target_plain & _)%bind_ok. Qed.

Lemma network_driver_plain d u : validate_network_driver d = Ok u -> plain_arg d.
Proof.
  intros H%valid_if_ok. apply str_in_spec in H.
  repeat (apply elem_of_cons in H as [->|H]; [by vm_compute|]). by apply not_elem_of_nil in H.
Qed.

Lemma volume_driver_plain d u : validate_volume_driver d = Ok u -> plain_arg d.
Proof.
  intros H%valid_if_ok. breflect. split; [|lia]. by eapply word_chars_mono; [|done].
Qed.

Lemma address_plain a u : validate_ipv4_address a = Ok u ->
  word_chars "_-.@:/=+" a = true /\ (blen a <= 16)%N.
Proof.
  intros H%valid_if_ok. apply andb_true_iff in H as [Hl%Nat.eqb_eq Hf].
  rewrite Forallb_forall in Hf. rewrite <- (join_split 46 a).
  destruct (plain_join 46 (split (N.eqb 46) a) 3) as [Hw Hb]; [done..| |split; [done|rewrite Hl in Hb; lia]].
  apply Forall_forall. intros p Hp. apply Hf in Hp. unfold octet_ok in Hp. breflect.
  split; [by apply digits_word|done].
Qed.

Lemma address_arg a u : validate_ipv4_address a = Ok u -> plain_arg a.
Proof. intros [Hw Hl]%address_plain. split; [done|lia]. Qed.

Lemma cidr_plain v u : validate_ipv4_cidr v = Ok u -> plain_arg v.
Proof.
  intros ([address prefix] & Hs%ok_or_ok & H)%bind_ok. apply split_once_char in Hs as ->.
  apply bind_ok in H as ([] & [Ha Hl]%address_plain & H%valid_if_ok). breflect.
  apply plain_pair; [done..|by apply digits_word|lia].
Qed.

Lemma label_plain l u : validate_network_label l = Ok u -> plain_arg l.
Proof.
  intros ([key value] & Hs%ok_or_ok & H%valid_if_ok)%bind_ok. apply split_once_char in Hs as ->. breflect.
  apply plain_pair; [done..|by eapply word_chars_mono; [|done]|by eapply word_chars_mono; [|done]|lia].
Qed.

Lemma port_number_plain v : is_valid_port_number v = true -> word_chars "_-.@:/=+" v = true /\ (blen v <= 5)%N.
Proof. unfold is_valid_port_number. intros H. breflect. split; [by apply digits_word|done]. Qed.

Lemma publish_port_plain p u : validate_publish_port p = Ok u -> plain_arg p.
Proof.
  intros ([host container] & Hs%ok_or_ok & H%valid_if_ok)%bind_ok. apply split_once_char in Hs as ->. breflect.
  repeat match goal with H : is_valid_port_number _ = true |- _ => apply port_number_plain in H as [??] end.
  apply plain_pair; [done..|lia].
Qed.

Lemma for_all_valid_plain check items u :
  for_all_valid check items = Ok u ->
  (forall item u', check item = Ok u' -> plain_arg item) -> Forall plain_arg items.
Proof.
  intros Hf Hc. revert u Hf. induction items as [|x items IH]; intros u; [constructor|]. cbn.
  intros ([] & Hx & Hr)%bind_ok. constructor; eauto.
Qed.

Lemma unless_empty_plain check value u :
  unless_empty check value = Ok u -> (forall v u', check v = Ok u' -> plain_arg v) -> plain_arg value.
Proof.
  unfold unless_empty. destruct (is_empty value) eqn:E; [|eauto].
  apply is_empty_true in E as ->. intros _ _. apply empty_plain.
Qed.

Lemma padded_plain n args : Forall plain_arg args -> Forall plain_arg (padded n args).
Proof.
  intros H. apply Forall_app_2; [done|]. apply Forall_replicate, empty_plain.
Qed.

Lemma dec_plain n : (n <= 5000)%N -> plain_arg (dec n).
Proof.
  intros Hn. assert (Hall : forallb (fun n => blen (dec (N.of_nat n)) <=? 4)%N (seq 0 (S 5000)) = true) by (by vm_compute).
  rewrite Forallb_forall in Hall. specialize (Hall (N.to_nat n)). rewrite N2Nat.id in Hall.
  split; [apply digits_word, Forallb_forall, dec_digits|].
  enough ((blen (dec n) <=? 4)%N = true) by (breflect; lia).
  apply Hall, elem_of_seq. lia.
Qed.

Lemma verb_plain action : plain_arg (action_verb action).
Proof. by destruct action; vm_compute. Qed.

Lemma required_target_plain target t : required_target target = Ok t -> plain_arg t.
Proof. intros (t' & _ & ([] & Ht%target_plain & [= <-])%bind_ok)%bind_ok. done. Qed.

(** ** Every operation *)
Create HintDb plain.
#[export] Hint Resolve empty_plain target_plain container_name_plain network_name_plain network_target_plain
  network_driver_plain volume_driver_plain cidr_plain address_arg label_plain publish_port_plain
  dec_plain verb_plain required_target_plain : plain.

Section Commands.
Context `{JsonText} (session_id : Uuid).

Abbreviation sends past p := (follows (fun _ q => exact_command session_id q) past p (fun _ _ => True)) (only parsing).

(** Neither a timeout nor an output limit is part of the line. *)
Lemma script_exact c text args :
  rc_program c = lit "sh" -> rc_args c = lit "-c" :: text :: lit "runory" :: args ->
  text ∈ fixed_scripts -> Forall plain_arg args -> exact_command session_id (RmExec session_id c).
Proof.
  intros Hp Ha Ht Hargs. split; [done|].
  assert (exists line, render c = Ok line) as [line Hl].
  { apply render_accepts. rewrite Hp, Ha. split; [by vm_compute|].
    constructor; [by apply plain_quotable; split|]. constructor; [by apply fixed_quotable|].
    constructor; [by apply plain_quotable; split|]. eapply Forall_impl; [done|apply plain_quotable]. }
  exists text, args, line. split_and!; [done..|]. apply render_words in Hl. by rewrite Hl, Hp, Ha.
Qed.

Lemma follows_indexed {A} P past (o : option A) (Post : list (event unit RmQuery RmAnswer) -> A -> Prop) :
  (forall a, o = Some a -> Post past a) -> follows P past (indexed (S := unit) o) Post.
Proof. destruct o; cbn; auto. Qed.

Lemma exec_sends past c (Post : list (event unit RmQuery RmAnswer) -> RemoteExecResult -> Prop) :
  exact_command session_id (RmExec session_id c) ->
  (forall past' r, Post past' r) ->
  follows (fun _ q => exact_command session_id q) past (exec session_id c) Post.
Proof.
  intros Hc HP. split; [done|]. intros [r|e]; cbn; auto.
Qed.

Lemma try_exec_sends past c (Post : list (event unit RmQuery RmAnswer) -> AppResult RemoteExecResult -> Prop) :
  exact_command session_id (RmExec session_id c) ->
  (forall past' r, Post past' r) ->
  follows (fun _ q => exact_command session_id q) past (try_exec session_id c) Post.
Proof. intros Hc HP. split; [done|]. intros a. apply HP. Qed.

Lemma run_operation_sends past c :
  exact_command session_id (RmExec session_id c) -> sends past (run_operation session_id c).
Proof.
  intros Hc. apply follows_mbind, exec_sends; [done|]. intros past' r. by destruct (_ =? 90)%N.
Qed.

End Commands.

(** Down to the first call of a sequence. *)
Ltac sent :=
  unfold docker_list, docker_images_list, docker_action, docker_networks_list, docker_volumes_list,
    pm2_list, pm2_action, nginx_action;
  repeat lazymatch goal with |- follows _ _ (_ ≫= _) _ => apply follows_mbind end.

Ltac checked_step :=
  sent; apply follows_lift;
  let u := fresh "u" in let Hv := fresh "Hv" in intros u Hv.
Ltac plain_args :=
  repeat first
    [ apply padded_plain | apply Forall_app_2 | apply Forall_cons_2 | apply Forall_nil_2
    | match goal with
      | H : for_all_valid _ ?l = Ok _ |- Forall plain_arg ?l => apply (for_all_valid_plain _ _ _ H)
      | H : unless_empty _ ?v = Ok _ |- plain_arg ?v => apply (unless_empty_plain _ _ _ H)
      end
    | solve [eauto 3 with plain] ].
Ltac command :=
  eapply script_exact; [done|done|by apply str_in_spec; vm_compute|plain_args].


Section Sent.
Context `{JsonText} (session_id : Uuid).

Abbreviation sends past p := (follows (fun _ q => exact_command session_id q) past p (fun _ _ => True)) (only parsing).

Lemma docker_list_sends past : sends past (docker_list session_id ;; mret tt).
Proof.
  sent. apply exec_sends; [command|]. intros past1 r. do 2 checked_step.
  sent. apply try_exec_sends; [command|done].
Qed.

Lemma docker_images_list_sends past : sends past (docker_images_list session_id ;; mret tt).
Proof.
  sent. apply exec_sends; [command|]. intros past1 r. checked_step. sent.
  apply follows_indexed. intros parsed _. checked_step. sent. apply try_exec_sends; [command|done].
Qed.

Lemma docker_networks_list_sends past : sends past (docker_networks_list session_id ;; mret tt).
Proof.
  sent. apply exec_sends; [command|]. intros past1 r. checked_step. sent.
  apply follows_indexed. intros parsed _. by checked_step.
Qed.

Lemma docker_volumes_list_sends past : sends past (docker_volumes_list session_id ;; mret tt).
Proof.
  sent. apply exec_sends; [command|]. intros past1 r. checked_step. sent.
  apply follows_indexed. intros parsed _. checked_step. sent. apply try_exec_sends; [command|done].
Qed.

Lemma pm2_list_sends past : sends past (pm2_list session_id ;; mret tt).
Proof. sent. apply exec_sends; [command|]. intros past1 r. by do 2 checked_step. Qed.

Ltac operation_command := sent; apply run_operation_sends; command.

Lemma docker_image_action_sends past action : sends past (docker_image_action session_id action ;; mret tt).
Proof.
  destruct action as [reference|ids| |image name ports]; cbn [docker_image_action]; apply follows_mbind.
  - checked_step. operation_command.
  - destruct (_ || _); [done|]. checked_step. operation_command.
  - operation_command.
  - do 2 checked_step. destruct (_ <? _)%nat; [done|]. checked_step. operation_command.
Qed.

Lemma docker_network_action_sends past action : sends past (docker_network_action session_id action ;; mret tt).
Proof.
  destruct action as [name driver subnet gateway labels|ids|]; cbn [docker_network_action]; apply follows_mbind.
  - do 4 checked_step. destruct (_ <? _)%nat; [done|]. checked_step. operation_command.
  - destruct (_ || _); [done|]. checked_step. operation_command.
  - operation_command.
Qed.

Lemma docker_volume_action_sends past action : sends past (docker_volume_action session_id action ;; mret tt).
Proof.
  destruct action as [name driver labels|names|]; cbn [docker_volume_action]; apply follows_mbind.
  - do 2 checked_step. destruct (_ <? _)%nat; [done|]. checked_step. operation_command.
  - destruct (_ || _); [done|]. checked_step. operation_command.
  - operation_command.
Qed.

Lemma logs_sends past source target lines : sends past (logs session_id source target lines ;; mret tt).
Proof.
  apply follows_mbind. unfold logs. destruct (_ && _) eqn:E; [cbn [negb]; breflect|done].
  checked_step. apply run_operation_sends.
  apply (script_exact _ _ (log_script source) u); [done|done|by apply str_in_spec; destruct source; vm_compute|].
  destruct (needs_target source).
  - apply bind_ok in Hv as (t & Ht%required_target_plain & [= <-]). plain_args.
  - injection Hv as <-. plain_args.
Qed.

(** Whatever a caller asks of containers, processes, the web server and
    logs, each command sent goes to the session asked for, and the remote shell
    reads it as one of the program's fixed scripts with words of letters,
    digits and ["_-.@:/=+"] as its arguments: no input reaches the script
    text, and none holds a blank, a quote or a character of the shell. *)
Theorem operations_send_fixed_scripts r :
  follows (fun _ q => exact_command session_id q) [] (operation session_id r) (fun _ _ => True).
Proof.
  destruct r as [| |container action|action| |action| |action| |process action|action|source target lines];
    cbn [operation].
  - apply docker_list_sends.
  - apply docker_images_list_sends.
  - checked_step. operation_command.
  - apply docker_image_action_sends.
  - apply docker_networks_list_sends.
  - apply docker_network_action_sends.
  - apply docker_volumes_list_sends.
  - apply docker_volume_action_sends.
  - apply pm2_list_sends.
  - checked_step. operation_command.
  - destruct action; operation_command.
  - apply logs_sends.
Qed.
End Sent.

(** ** The calendar

    The reference is the rule of the Gregorian calendar, stepped one day at a
    time; [days_from_civil] counts in eras of 400 years. *)
Definition leap_year (year : Z) : bool :=
  ((year mod 4 =? 0) && (negb (year mod 100 =? 0) || (year mod 400 =? 0)))%Z.

Definition month_days (year : Z) (month : N) : N :=
  match month with
  | 2 => if leap_year year then 29 else 28
  | 4 | 6 | 9 | 11 => 30
  | _ => 31
  end%N.

Definition next_day (date : Z * N * N) : Z * N * N :=
  let '(year, month, day) := date in
  if (day <? month_days year month)%N then (year, month, day + 1)%N
  else if (month <? 12)%N then (year, month + 1, 1)%N
  else ((year + 1)%Z, 1, 1)%N.

Definition valid_date (date : Z * N * N) : Prop :=
  let '(year, month, day) := date in
  (Z.abs year <= 10 ^ 12)%Z /\ (1 <= month <= 12)%N /\ (1 <= day <= month_days year month)%N.

Definition days (date : Z * N * N) : Z := let '(year, month, day) := date in days_from_civil year month day.

Lemma wrap_i64_id z : (-9223372036854775808 <= z <= 9223372036854775807)%Z -> wrap_i64 z = z.
Proof. intros Hz. unfold wrap_i64. rewrite Z.mod_small; lia. Qed.

(** The days before a year that begins in March. *)
Definition march_days (y : Z) : Z := (365 * y + y / 4 - y / 100 + y / 400)%Z.

Lemma days_from_civil_march year month day :
  (Z.abs year <= 2 * 10 ^ 12)%Z -> (1 <= month <= 12)%N -> (day <= 31)%N ->
  let m := Z.of_N month in
  let y := (year - if (m <=? 2)%Z then 1 else 0)%Z in
  let mp := (if (2 <? m)%Z then m - 3 else m + 9)%Z in
  days_from_civil year month day = (march_days y + (153 * mp + 2) / 5 + Z.of_N day - 1 - 719468)%Z.
Proof.
  intros Hy Hm Hd m y mp. unfold days_from_civil. fold m. 
  assert (Hb : (Z.abs y <= 2 * 10 ^ 12 + 1)%Z) by (unfold y; destruct (m <=? 2)%Z; lia).
  rewrite (wrap_i64_id (year - _)) by (fold y; lia). fold y.
  assert (He : ((if (0 <=? y)%Z then y else wrap_i64 (y - 399)) ÷ 400 = y / 400)%Z).
  { destruct (Z.leb_spec 0 y) as [Hp|Hn]; [apply Z.quot_div_nonneg; lia|].
    rewrite wrap_i64_id by lia. Z.to_euclidean_division_equations. lia. }
  rewrite He. fold mp. assert (Hmp : (0 <= mp <= 11)%Z) by (unfold mp; clear He Hb mp y; destruct (Z.ltb_spec 2 m); subst m; lia).
  rewrite (wrap_i64_id (y - _)) by (Z.to_euclidean_division_equations; lia).
  assert (Hyoe : (y - y / 400 * 400 = y mod 400)%Z) by (rewrite Z.mod_eq by lia; lia). rewrite Hyoe.
  pose proof (Z.mod_pos_bound y 400 ltac:(lia)) as Hr.
  rewrite !Z.quot_div_nonneg by lia.
  assert (Hdiv : (0 <= (153 * mp + 2) / 5 <= 400)%Z) by (Z.to_euclidean_division_equations; lia).
  assert (Hq4 : (0 <= y mod 400 / 4 <= 100)%Z) by (Z.to_euclidean_division_equations; lia).
  assert (Hq100 : (0 <= y mod 400 / 100 <= 4)%Z) by (Z.to_euclidean_division_equations; lia).
  assert (Hera : (Z.abs (y / 400) <= 10 ^ 10)%Z) by (Z.to_euclidean_division_equations; lia).
  assert (Hmarch : march_days y = (y / 400 * 146097 + (y mod 400 * 365 + y mod 400 / 4 - y mod 400 / 100))%Z)
    by (unfold march_days; clear; Z.to_euclidean_division_equations; lia).
  clear He Hyoe. revert Hmarch. generalize dependent (y mod 400 / 4)%Z. generalize dependent (y mod 400 / 100)%Z.
  generalize dependent ((153 * mp + 2) / 5)%Z. generalize dependent (y / 400)%Z. generalize dependent (y mod 400)%Z.
  intros r Hr era Hera q Hq c Hc f Hf ->.
  rewrite (wrap_i64_id (r * 365)), (wrap_i64_id (era * 146097)) by lia.
  rewrite (wrap_i64_id (r * 365 + _ - _ + _)) by lia. rewrite (wrap_i64_id (era * 146097 + _)) by lia.
  rewrite wrap_i64_id by lia. lia.
Qed.

Lemma leap_year_days y :
  (march_days (y + 1) - march_days y = if leap_year (y + 1) then 366 else 365)%Z.
Proof.
  unfold march_days, leap_year.
  destruct (Z.eqb_spec ((y + 1) mod 4) 0), (Z.eqb_spec ((y + 1) mod 100) 0), (Z.eqb_spec ((y + 1) mod 400) 0); cbn;
    Z.to_euclidean_division_equations; lia.
Qed.

Lemma month_cases (P : N -> Prop) month :
  Forall P [1; 2; 3; 4; 5; 6; 7; 8; 9; 10; 11; 12]%N -> (1 <= month <= 12)%N -> P month.
Proof.
  intros HP Hm. rewrite Forall_forall in HP. apply HP.
  assert (month ∈ map N.of_nat (seq 1 12)) by (rewrite <- (N2Nat.id month); apply list_elem_of_fmap_2, elem_of_seq; lia).
  done.
Qed.

Lemma month_days_le year month : (month_days year month <= 31)%N.
Proof. unfold month_days. repeat case_match; lia. Qed.

Definition next_month (year : Z) (month : N) : Z * N * N :=
  if (month <? 12)%N then (year, month + 1, 1)%N else ((year + 1)%Z, 1, 1)%N.

Lemma days_next_month year month :
  (Z.abs year <= 10 ^ 12)%Z -> (1 <= month <= 12)%N ->
  days (next_month year month) = (days (year, month, month_days year month) + 1)%Z.
Proof.
  intros Hy Hm. pose proof (leap_year_days (year - 1)) as Hleap. rewrite Z.sub_add in Hleap.
  apply (month_cases (fun month => days (next_month year month) = (days (year, month, month_days year month) + 1)%Z));
    [|done].
  unfold month_days. destruct (leap_year year);
  repeat apply Forall_cons_2; try apply Forall_nil_2; cbn -[days_from_civil];
  repeat match goal with |- context [(?a + 1)%N] => let v := eval vm_compute in (a + 1)%N in change (a + 1)%N with v end;
  rewrite !days_from_civil_march by lia;
  revert Hleap; generalize march_days; intros F Hleap; cbn; rewrite ?Z.sub_0_r, ?Z.add_simpl_r; Z.to_euclidean_division_equations; lia.
Qed.

(** [days_from_civil] is the calendar: 1 January 1970 is day 0, and the day
    after a date, in the Gregorian calendar, is one more; for every date of
    the first 10^12 years on either side, where nothing overflows. *)
Theorem days_from_civil_calendar date :
  days (1970%Z, 1, 1)%N = 0%Z /\
  (valid_date date -> days (next_day date) = (days date + 1)%Z).
Proof.
  split; [done|]. destruct date as [[year month] day]. cbn [valid_date next_day]. intros (Hy & Hm & Hd).
  pose proof (month_days_le year month) as Hle.
  destruct (N.ltb_spec day (month_days year month)) as [Hlt|Hlast].
  - cbn [days]. rewrite !days_from_civil_march by lia. lia.
  - assert (day = month_days year month) as -> by lia. by apply days_next_month.
Qed.

(** ** Dates in text *)
Definition clock : Type := N * N * N.
Definition valid_clock (c : clock) : Prop :=
  let '(hour, minute, second) := c in (hour <= 23)%N /\ (minute <= 59)%N /\ (second <= 60)%N.

Definition date_text (year month day : N) : str := dec year ++ 45%N :: pad2 month ++ 45%N :: pad2 day.
Definition clock_text (c : clock) : str :=
  let '(hour, minute, second) := c in pad2 hour ++ 58%N :: pad2 minute ++ 58%N :: pad2 second.
Definition offset_text (west : bool) (hours minutes : N) : str :=
  (if west then 45%N else 43%N) :: pad2 hours ++ pad2 minutes.

Lemma split_digits sep a b :
  is_ascii_digit sep = false -> all_digits a = true -> split (N.eqb sep) (a ++ sep :: b) = a :: split (N.eqb sep) b.
Proof.
  intros Hs Ha. apply split_sep; [|apply N.eqb_refl]. intros x Hx. apply N.eqb_neq. intros <-.
  unfold all_digits in Ha. apply andb_prop in Ha as [_ Ha]. rewrite Forallb_forall in Ha. apply Ha in Hx. congruence.
Qed.

Lemma split_all_digits sep a :
  is_ascii_digit sep = false -> all_digits a = true -> split (N.eqb sep) a = [a].
Proof.
  intros Hs Ha. apply split_none. intros x Hx. apply N.eqb_neq. intros <-.
  unfold all_digits in Ha. apply andb_prop in Ha as [_ Ha]. rewrite Forallb_forall in Ha. apply Ha in Hx. congruence.
Qed.

Lemma date_fields_text year month day :
  (year <= 9223372036854775807)%N -> (month < 100)%N -> (day < 100)%N ->
  date_fields (date_text year month day) = Some (Z.of_N year, month, day).
Proof.
  intros Hy Hm Hd. unfold date_fields, date_text.
  rewrite !split_digits, split_all_digits; auto using all_digits_dec, pad2_digits.
  rewrite parse_i64_digits by (rewrite ?digits_value_dec; auto using all_digits_dec). cbn.
  unfold parse_u32. rewrite !parse_unsigned_digits; rewrite ?pad2_value; auto using pad2_digits; [|lia|lia].
  cbn. by rewrite digits_value_dec.
Qed.

Lemma time_fields_text h m s :
  (h < 100)%N -> (m < 100)%N -> (s < 100)%N -> time_fields (clock_text (h, m, s)) = Some (h, m, s).
Proof.
  intros Hh Hm Hs. unfold time_fields, clock_text.
  rewrite !split_digits, split_all_digits; auto using pad2_digits.
  unfold parse_u32. rewrite !parse_unsigned_digits; rewrite ?pad2_value; auto using pad2_digits; lia.
Qed.

(** The characters of these texts are no blanks. *)
Definition dark (s : str) : bool := forallb (fun c => negb (is_whitespace c)) s.

Lemma dark_digits s : all_digits s = true -> dark s = true.
Proof.
  unfold all_digits, dark. intros [_ Hd]%andb_prop. rewrite Forallb_forall in *. intros c Hc.
  apply Hd, is_ascii_digit_spec in Hc. unfold is_whitespace, between.
  rewrite !(proj2 (N.eqb_neq c _)) by lia. rewrite (proj2 (N.leb_gt c 13)), (proj2 (N.leb_gt 8192 c)) by lia.
  by rewrite andb_false_r.
Qed.

Lemma dark_app a b : dark (a ++ b) = dark a && dark b.
Proof. apply forallb_app. Qed.

Lemma dark_cons c a : dark (c :: a) = negb (is_whitespace c) && dark a.
Proof. done. Qed.
Lemma dark_pad2 n : (n < 100)%N -> dark (pad2 n) = true.
Proof. intros. by apply dark_digits, pad2_digits. Qed.

Lemma split_whitespace_cons a b :
  dark a = true -> is_empty a = false -> split_whitespace (a ++ 32%N :: b) = a :: split_whitespace b.
Proof.
  intros Ha Hn. unfold split_whitespace. rewrite split_sep; [|intros x Hx|done].
  - rewrite filter_cons. by rewrite decide_True.
  - unfold dark in Ha. rewrite Forallb_forall in Ha. by apply Ha, negb_true_iff in Hx.
Qed.

Lemma date_text_dark year month day :
  (month < 100)%N -> (day < 100)%N ->
  dark (date_text year month day) = true /\ is_empty (date_text year month day) = false.
Proof.
  intros Hm Hd. unfold date_text. split.
  - rewrite dark_app, dark_cons, dark_app, dark_cons, !dark_pad2, dark_digits by auto using all_digits_dec. done.
  - pose proof (dec_nonempty year). by destruct (dec year).
Qed.

Lemma clock_text_dark h m s :
  (h < 100)%N -> (m < 100)%N -> (s < 100)%N ->
  dark (clock_text (h, m, s)) = true /\ is_empty (clock_text (h, m, s)) = false.
Proof.
  intros Hh Hm Hs. unfold clock_text. split; [|done].
  rewrite dark_app, dark_cons, dark_app, dark_cons, !dark_pad2 by done. done.
Qed.

Lemma offset_text_dark west oh om :
  (oh < 100)%N -> (om < 100)%N ->
  dark (offset_text west oh om) = true /\ is_empty (offset_text west oh om) = false.
Proof.
  intros Hh Hm. unfold offset_text. split; [|done]. rewrite dark_cons, dark_app, !dark_pad2 by done. by destruct west.
Qed.

Definition offset_seconds (west : bool) (hours minutes : N) : Z :=
  ((if west then -1 else 1) * (Z.of_N hours * 3600 + Z.of_N minutes * 60))%Z.

Lemma apply_offset_text epoch west oh om :
  (oh <= 14)%N -> (om <= 59)%N ->
  apply_timezone_offset epoch (offset_text west oh om) = Some (checked (epoch - offset_seconds west oh om)).
Proof.
  intros Hh Hm. unfold apply_timezone_offset, offset_text. cbn [blen].
  rewrite blen_app, !pad2_blen by lia.
  assert (utf8_len (if west then 45%N else 43%N) = 1%N) as -> by by destruct west.
  set (sign := if west then 45%N else 43%N).
  pose proof (byte_slice_app [sign] (pad2 oh) (pad2 om)) as H1.
  pose proof (byte_slice_app (sign :: pad2 oh) (pad2 om) []) as H2.
  cbn [blen app] in H1, H2. rewrite app_nil_r in H2.
  assert (utf8_len sign = 1%N) as Hu by (unfold sign; by destruct west).
  rewrite Hu, (pad2_blen oh) in H1, H2 by lia. rewrite (pad2_blen om) in H2 by lia. change (1 + 0)%N with 1%N in *. change (1 + 2)%N with 3%N in *.
  change (3 + 2)%N with 5%N in *. change (negb (1 + (2 + 2) =? 5)%N) with false. cbv iota.
  assert (Hp : forall n, (n < 100)%N -> parse_i64 (pad2 n) = Some (Z.of_N n)).
  { intros n Hn. rewrite parse_i64_digits; rewrite ?pad2_value; auto using pad2_digits. lia. }
  unfold offset_seconds, sign in *. destruct west; cbv iota beta; rewrite H1; cbn [mbind option_bind];
    rewrite Hp by lia; cbv iota beta; rewrite H2; cbn [mbind option_bind]; rewrite Hp by lia; cbv iota beta;
    rewrite (proj2 (Z.ltb_ge _ _)), (proj2 (Z.ltb_ge _ _)) by lia; cbn [orb]; do 2 f_equal; change (45 =? 43)%N with false; lia.
Qed.

(** What [docker] prints for a time, and the time it is. *)
Definition created_text (year month day : N) (c : clock) (west : bool) (oh om : N) : str :=
  date_text year month day ++ 32%N :: clock_text c ++ 32%N :: offset_text west oh om ++ 32%N :: lit "UTC".

Definition epoch_seconds (year month day : N) (c : clock) (west : bool) (oh om : N) : Z :=
  let '(hour, minute, second) := c in
  (days_from_civil (Z.of_N year) month day * 86400 + Z.of_N hour * 3600 + Z.of_N minute * 60 + Z.of_N second
   - offset_seconds west oh om)%Z.

Lemma checked_id z : (Z.abs z <= 2 ^ 62)%Z -> checked z = Some z.
Proof.
  intros Hz. unfold checked, i64_range. cbn. by rewrite (proj2 (Z.leb_le _ _)), (proj2 (Z.leb_le _ _)) by lia.
Qed.

Lemma days_bound year month day :
  (year <= 10 ^ 10)%N -> (1 <= month <= 12)%N -> (day <= 31)%N ->
  (Z.abs (days_from_civil (Z.of_N year) month day) <= 10 ^ 13)%Z.
Proof.
  intros Hy Hm Hd. rewrite days_from_civil_march by lia.
  assert (Hmp : (0 <= (if (2 <? Z.of_N month)%Z then Z.of_N month - 3 else Z.of_N month + 9) <= 11)%Z)
    by (destruct (Z.ltb_spec 2 (Z.of_N month)); lia).
  assert (Hy' : (-1 <= Z.of_N year - (if (Z.of_N month <=? 2)%Z then 1 else 0) <= 10 ^ 10)%Z)
    by (destruct (_ <=? 2)%Z; lia).
  revert Hmp Hy'. generalize (if (2 <? Z.of_N month)%Z then Z.of_N month - 3 else Z.of_N month + 9)%Z.
  generalize (Z.of_N year - (if (Z.of_N month <=? 2)%Z then 1 else 0))%Z. intros y mp Hmp Hy'.
  unfold march_days. Z.to_euclidean_division_equations. lia.
Qed.

Lemma epoch_of_exact year month day h m s :
  (Z.abs (days_from_civil year month day) <= 10 ^ 13)%Z -> valid_clock (h, m, s) ->
  epoch_of year month day h m s
  = Some (days_from_civil year month day * 86400 + Z.of_N h * 3600 + Z.of_N m * 60 + Z.of_N s)%Z.
Proof.
  unfold epoch_of, valid_clock. generalize (days_from_civil year month day). intros d Hb (Hh & Hm & Hs).
  by do 4 (rewrite checked_id by lia; cbn [mbind option_bind]).
Qed.

(** The text of a time with its offset from UTC is read as that time in
    seconds since 1970, and as no time at all when it is before. *)
Theorem created_at_exact year month day c west oh om :
  (year <= 10 ^ 10)%N -> (1 <= month <= 12)%N -> (1 <= day <= month_days (Z.of_N year) month)%N -> valid_clock c ->
  (oh <= 14)%N -> (om <= 59)%N ->
  let epoch := epoch_seconds year month day c west oh om in
  parse_docker_created_at (created_text year month day c west oh om)
  = Some (if (0 <=? epoch)%Z then Some (Z.to_N epoch) else None).
Proof.
  destruct c as [[h m] s]. intros Hy Hm Hd (Hh & Hmi & Hs) Hoh Hom epoch.
  pose proof (month_days_le (Z.of_N year) month) as Hmd.
  destruct (date_text_dark year month day) as [Dd De]; [lia..|].
  destruct (clock_text_dark h m s) as [Cd Ce]; [lia..|].
  destruct (offset_text_dark west oh om) as [Od Oe]; [lia..|].
  unfold parse_docker_created_at, created_text. rewrite !split_whitespace_cons by done.
  rewrite date_fields_text, time_fields_text by lia. unfold in_range.
  do 7 rewrite (proj2 (N.leb_le _ _)) by lia. cbn [andb negb].
  pose proof (days_bound year month day Hy Hm ltac:(lia)) as Hb.
  rewrite epoch_of_exact by done. rewrite apply_offset_text by lia.
  assert (Ho : (Z.abs (offset_seconds west oh om) <= 100000)%Z) by (unfold offset_seconds; destruct west; lia).
  subst epoch. unfold epoch_seconds. revert Hb Ho. generalize (days_from_civil (Z.of_N year) month day).
  generalize (offset_seconds west oh om). intros o d Hb Ho. cbn [mbind option_bind]. rewrite checked_id by lia. 
  cbn [mbind option_bind]. destruct (0 <=? _)%Z; reflexivity.
Qed.

(** ** Concrete texts *)
Lemma days_from_civil_calendar_witness :
  (valid_date (2024%Z, 2, 28)%N -> days (2024%Z, 2, 29)%N = (days (2024%Z, 2, 28)%N + 1)%Z) /\
  days (1970%Z, 1, 1)%N = 0%Z.
Proof.
  split; [|exact (proj1 (days_from_civil_calendar (1970%Z, 1, 1)%N))].
  exact (proj2 (days_from_civil_calendar (2024%Z, 2, 28)%N)).
Defined.

Lemma created_at_exact_witness :
  parse_docker_created_at (lit "2026-03-25 06:12:14 +0000 UTC") = Some (Some 1774419134%N).
Proof.
  assert (H : forall t, t = created_text 2026 3 25 (6, 12, 14)%N false 0 0 ->
    parse_docker_created_at t = Some (Some 1774419134%N)).
  { intros t ->. rewrite created_at_exact; [by vm_compute|by vm_compute..]. }
  apply H. by vm_compute.
Defined.

(** Text of a remote host that makes the parsers panic. *)
Example network_time_panics : parse_network_created_at (lit "2024-08-09T10:00:00é12345") = None.
Proof. by vm_compute. Qed.
Example offset_panics : parse_docker_created_at (lit "2024-01-01 00:00:00 +1é0") = None.
Proof. by vm_compute. Qed.

(** The product of the era wraps. *)
Example calendar_wraps : days_from_civil 30000000000000000 1 1 = (-7489469073710271144)%Z.
Proof. by vm_compute. Qed.
