(* ===== verification/Dashboard.v ===== *)
(** * The dashboard of a server (dashboard/service.rs)

    Three fixed scripts, the parsing of what they print, and the bounds of it.
    A percentage is kept in [0, 100]; it is held as its bit pattern. *)
From S2P Require Import Prelude Str Json Errors RunState Evidence NumText Process RemoteExec Operations.
From Stdlib Require Import Floats.SpecFloat.

Definition METRICS_SCRIPT : str := sh_text "
test -r /proc/stat -a -r /proc/meminfo -a -r /proc/uptime || exit 90
read tag u n s i w q z st g gn < /proc/stat
t1=$((u+n+s+i+w+q+z+st)); i1=$((i+w)); sleep 0.25
read tag u n s i w q z st g gn < /proc/stat
t2=$((u+n+s+i+w+q+z+st)); i2=$((i+w)); dt=$((t2-t1)); di=$((i2-i1))
if test ^$dt^ -gt 0; then cpu=$(((dt-di)*100/dt)); else cpu=0; fi
printf 'CPU\t%s\n' ^$cpu^
awk '/MemTotal:/ {t=$2} /MemAvailable:/ {a=$2} END {printf ^MEM\t%.0f\t%.0f\n^, (t-a)*1024, t*1024}' /proc/meminfo
awk '{printf ^UP\t%.0f\n^, $1}' /proc/uptime
awk -F'[: ]+' 'NR>2 {rx+=$3; tx+=$11} END {printf ^NET\t%.0f\t%.0f\n^, rx, tx}' /proc/net/dev
df -Pk | awk 'NR>1 {gsub(/%/,^^,$5); printf ^DISK\t%s\t%.0f\t%.0f\t%s\n^, $6, $3*1024, $2*1024, $5}'
".
Definition PROCESS_SCRIPT : str :=
  sh_text "ps -eo pid=,user=,pcpu=,pmem=,comm= --sort=-pcpu 2>/dev/null | head -n 50".
Definition SERVICES_SCRIPT : str := sh_text "
command -v systemctl >/dev/null 2>&1 || exit 90
shift
for service in ^$@^; do
  status=$(systemctl is-active ^$service^ 2>/dev/null || true)
  printf '%s\t%s\n' ^$service^ ^$status^
done
".

Record ServerDashboard := {
  sd_cpu_usage_percent : f64;
  sd_memory_used_bytes : N;
  sd_memory_total_bytes : N;
  sd_uptime_seconds : N;
  sd_network_received_bytes : N;
  sd_network_transmitted_bytes : N;
  sd_disks : list DiskUsage;
}.

Record ProcessInfo := {
  pi_pid : N; pi_user : str; pi_cpu_percent : f64; pi_memory_percent : f64; pi_command : str }.

(** ** Fields *)
Definition dashboard_bounded (value : option str) : AppResult str :=
  ok_or (opt_filter (fun v => negb (is_empty v) && (blen v <=? 4096)%N) value) ExecFailed.

Definition dashboard_u64 (value : str) : AppResult N := ok_or (parse_u64 (trim value)) ExecFailed.

Definition percent_range (x : spec_float) : spec_float := f64_clamp x (f64_of_N 0) (f64_of_N 100).

Definition dashboard_f64 (value : str) : AppResult f64 :=
  value ← ok_or (parse_f64 (trim value)) ExecFailed;
  if f64_is_finite value then Ok (f64_bits (percent_range value)) else Err ExecFailed.

Definition dashboard_validate_identifier (value : str) : AppResult unit :=
  valid_if (negb (is_empty value) && (blen value <=? 128)%N && word_chars "_-.@:" value).

(** ** Metrics *)
Record metrics := { mt_dashboard : ServerDashboard; mt_seen : bool * bool * bool * bool }.

Definition no_metrics : metrics :=
  {| mt_dashboard := {| sd_cpu_usage_percent := 0; sd_memory_used_bytes := 0; sd_memory_total_bytes := 0;
                        sd_uptime_seconds := 0; sd_network_received_bytes := 0;
                        sd_network_transmitted_bytes := 0; sd_disks := [] |};
     mt_seen := (false, false, false, false) |}.

Definition set_cpu (m : metrics) (cpu : f64) : metrics :=
  let d := mt_dashboard m in let '(_, b, c, e) := mt_seen m in
  {| mt_dashboard := {| sd_cpu_usage_percent := cpu; sd_memory_used_bytes := sd_memory_used_bytes d;
       sd_memory_total_bytes := sd_memory_total_bytes d; sd_uptime_seconds := sd_uptime_seconds d;
       sd_network_received_bytes := sd_network_received_bytes d;
       sd_network_transmitted_bytes := sd_network_transmitted_bytes d; sd_disks := sd_disks d |};
     mt_seen := (true, b, c, e) |}.

Definition set_memory (m : metrics) (used total : N) : metrics :=
  let d := mt_dashboard m in let '(a, _, c, e) := mt_seen m in
  {| mt_dashboard := {| sd_cpu_usage_percent := sd_cpu_usage_percent d; sd_memory_used_bytes := used;
       sd_memory_total_bytes := total; sd_uptime_seconds := sd_uptime_seconds d;
       sd_network_received_bytes := sd_network_received_bytes d;
       sd_network_transmitted_bytes := sd_network_transmitted_bytes d; sd_disks := sd_disks d |};
     mt_seen := (a, true, c, e) |}.

Definition set_uptime (m : metrics) (uptime : N) : metrics :=
  let d := mt_dashboard m in let '(a, b, _, e) := mt_seen m in
  {| mt_dashboard := {| sd_cpu_usage_percent := sd_cpu_usage_percent d;
       sd_memory_used_bytes := sd_memory_used_bytes d; sd_memory_total_bytes := sd_memory_total_bytes d;
       sd_uptime_seconds := uptime; sd_network_received_bytes := sd_network_received_bytes d;
       sd_network_transmitted_bytes := sd_network_transmitted_bytes d; sd_disks := sd_disks d |};
     mt_seen := (a, b, true, e) |}.

Definition set_network (m : metrics) (received transmitted : N) : metrics :=
  let d := mt_dashboard m in let '(a, b, c, _) := mt_seen m in
  {| mt_dashboard := {| sd_cpu_usage_percent := sd_cpu_usage_percent d;
       sd_memory_used_bytes := sd_memory_used_bytes d; sd_memory_total_bytes := sd_memory_total_bytes d;
       sd_uptime_seconds := sd_uptime_seconds d; sd_network_received_bytes := received;
       sd_network_transmitted_bytes := transmitted; sd_disks := sd_disks d |};
     mt_seen := (a, b, c, true) |}.

Definition push_disk (m : metrics) (disk : DiskUsage) : metrics :=
  let d := mt_dashboard m in
  {| mt_dashboard := {| sd_cpu_usage_percent := sd_cpu_usage_percent d;
       sd_memory_used_bytes := sd_memory_used_bytes d; sd_memory_total_bytes := sd_memory_total_bytes d;
       sd_uptime_seconds := sd_uptime_seconds d; sd_network_received_bytes := sd_network_received_bytes d;
       sd_network_transmitted_bytes := sd_network_transmitted_bytes d; sd_disks := sd_disks d ++ [disk] |};
     mt_seen := mt_seen m |}.

(** One line: its tag and the number of its fields decide. *)
Definition dashboard_line (m : metrics) (line : str) : AppResult metrics :=
  match split (N.eqb 9) line with
  | [tag; value] =>
      if str_eqb tag (lit "CPU") then cpu ← dashboard_f64 value; Ok (set_cpu m cpu)
      else if str_eqb tag (lit "UP") then up ← dashboard_u64 value; Ok (set_uptime m up)
      else Ok m
  | [tag; first; second] =>
      if str_eqb tag (lit "MEM") then
        used ← dashboard_u64 first; total ← dashboard_u64 second; Ok (set_memory m used total)
      else if str_eqb tag (lit "NET") then
        received ← dashboard_u64 first; transmitted ← dashboard_u64 second;
        Ok (set_network m received transmitted)
      else Ok m
  | [tag; mount; used; total; percent] =>
      if str_eqb tag (lit "DISK") && (blen mount <=? 4096)%N then
        used ← dashboard_u64 used; total ← dashboard_u64 total; percent ← dashboard_f64 percent;
        Ok (push_disk m {| du_mount := mount; du_used_bytes := used; du_total_bytes := total;
                           du_usage_percent := percent |})
      else Ok m
  | _ => Ok m
  end.

Fixpoint dashboard_lines (m : metrics) (items : list str) : AppResult metrics :=
  match items with [] => Ok m | line :: rest => m ← dashboard_line m line; dashboard_lines m rest end.

Definition parse_dashboard (output : str) : AppResult ServerDashboard :=
  m ← dashboard_lines no_metrics (firstn 512 (lines output));
  let '(a, b, c, d) := mt_seen m in
  if a && b && c && d then Ok (mt_dashboard m) else Err ExecFailed.

(** ** Processes and services *)
Definition parse_process (line : str) : AppResult ProcessInfo :=
  match split_whitespace line with
  | pid :: fields =>
      pid ← ok_or (parse_u32 pid) ExecFailed;
      user ← dashboard_bounded (head fields);
      cpu ← ok_or (fields !! 1%nat) ExecFailed;
      cpu ← dashboard_f64 cpu;
      memory ← ok_or (fields !! 2%nat) ExecFailed;
      memory ← dashboard_f64 memory;
      command ← dashboard_bounded (fields !! 3%nat);
      Ok {| pi_pid := pid; pi_user := user; pi_cpu_percent := cpu; pi_memory_percent := memory;
            pi_command := command |}
  | [] => Err ExecFailed
  end.

Definition parse_processes (output : str) : AppResult (list ProcessInfo) :=
  mapM parse_process (List.filter (fun line => negb (is_empty (trim line))) (firstn 50 (lines output))).

Definition service_kind (raw : str) : ServiceStatusKind :=
  if str_eqb raw (lit "active") then SvcActive
  else if str_eqb raw (lit "inactive") then SvcInactive
  else if str_eqb raw (lit "failed") then SvcFailed
  else SvcUnknown.

Definition parse_service (line : str) : AppResult ServiceHealth :=
  '(name, raw) ← ok_or (split_once (N.eqb 9) line) ExecFailed;
  name ← dashboard_bounded (Some name);
  Ok {| sh_name := name; sh_status := service_kind (trim raw) |}.

Definition parse_services (output : str) : AppResult (list ServiceHealth) :=
  mapM parse_service (firstn 32 (lines output)).

(** ** Operations *)
Definition ensure_success (result : RemoteExecResult) : AppResult unit :=
  if (re_exit_code result =? 0)%N then Ok tt else Err ExecFailed.
Definition dashboard_ensure_supported (result : RemoteExecResult) : AppResult unit :=
  if (re_exit_code result =? 90)%N then Err UnsupportedRemote else ensure_success result.

Section Dashboard.
Context (session_id : Uuid).

Definition overview : RmProc ServerDashboard :=
  result ← exec session_id (script METRICS_SCRIPT []);
  lift (dashboard_ensure_supported result) ;;
  lift (parse_dashboard (re_stdout result)).

Definition processes : RmProc (list ProcessInfo) :=
  result ← exec session_id (with_output_limit (script PROCESS_SCRIPT []) 524288);
  lift (ensure_success result) ;;
  lift (parse_processes (re_stdout result)).

Definition service_health (services : list str) : RmProc (list ServiceHealth) :=
  if bool_decide (services = []) || (32 <? length services)%nat then lift (Err InvalidOperation)
  else
    lift (for_all_valid dashboard_validate_identifier services) ;;
    result ← exec session_id (script SERVICES_SCRIPT services);
    lift (dashboard_ensure_supported result) ;;
    lift (parse_services (re_stdout result)).
End Dashboard.
