(* ===== verification/Probes.v ===== *)
(** * The native tools (tools/service.rs, nginx.rs, http.rs, network.rs,
      system.rs, terminal.rs, incident.rs, change.rs, registry.rs)

    What each tool sends to a session and how it reads the answer.  A tool is a
    [proc] over the calls of the session manager; [execute] wraps it into a
    [ToolResult] and lets no error out. *)
From S2P Require Import Prelude Str Json Errors RunState Context Tools Evidence NumText Process.
From S2P Require Import RemoteExec Operations Dashboard.
From Stdlib Require Import Floats.SpecFloat.

(** ** Text *)

(** [truncate_utf8]: the text cut at a character boundary, and whether it was. *)
Definition truncate_utf8 (value : str) (max_bytes : N) : str * bool :=
  if (blen value <=? max_bytes)%N then (value, false) else (take_bytes max_bytes value, true).

(** [s.split_once(sep)] and [s.rsplit_once(sep)] for a non-empty text. *)
Fixpoint split_once_str (sep s : str) : option (str * str) :=
  if starts_with s sep then Some ([], skipn (length sep) s)
  else match s with
  | [] => None
  | c :: t => match split_once_str sep t with Some (a, b) => Some (c :: a, b) | None => None end
  end.
Fixpoint rsplit_once_str (sep s : str) : option (str * str) :=
  match s with
  | [] => None
  | c :: t =>
      match rsplit_once_str sep t with
      | Some (a, b) => Some (c :: a, b)
      | None => if starts_with s sep then Some ([], skipn (length sep) s) else None
      end
  end.

(** [s.matches(needle).count()] for a non-empty needle: without overlaps. *)
Fixpoint count_go (needle : str) (skip : nat) (s : str) : nat :=
  match s with
  | [] => 0
  | _ :: t =>
      match skip with
      | S k => count_go needle k t
      | O => if starts_with s needle then S (count_go needle (length needle - 1) t) else count_go needle 0 t
      end
  end.
Definition count_matches (s needle : str) : nat := count_go needle 0 s.

(** [s.replacen(from, to, 1)]. *)
Definition replace_first (s from to : str) : str :=
  match split_once_str from s with Some (a, b) => a ++ to ++ b | None => s end.

(** [lines().find_map(f)] *)
Definition find_map {A} (f : str -> option A) (items : list str) : option A := head (omap f items).

Definition trim_end (s : str) : str := trim_end_matches is_whitespace s.

Definition single_line (s : str) : bool := negb (existsb (fun c => is_whitespace c || is_control c) s).

(** ** Services (tools/service.rs) *)
Definition MAX_LOG_LINES : N := 500.
Definition MAX_LOG_ENTRY_BYTES : N := 8192.
Definition MAX_LOG_RESULT_BYTES : N := 262144.
Definition SERVICE_STATUS_SCRIPT : str := sh_text "command -v systemctl >/dev/null 2>&1 || exit 90; status=$(systemctl is-active ^$1^ 2>/dev/null || true); printf 'SERVICE_STATUS\t%s\t%s\n' ^$1^ ^$status^".

Definition validate_service (service : str) : AppResult unit :=
  valid_if (negb (is_empty service) && (blen service <=? 128)%N && word_chars "._@:-" service).

(** What an exit code means to a tool. *)
Definition supported (result : RemoteExecResult) : AppResult unit :=
  if (re_exit_code result =? 90)%N then Err UnsupportedRemote
  else if negb (re_exit_code result =? 0)%N then Err ExecFailed
  else Ok tt.

Definition parse_service_status (output service : str) : AppResult ServiceHealth :=
  match split (N.eqb 9) (trim_end output) with
  | [tag; name; status] =>
      if str_eqb tag (lit "SERVICE_STATUS") && str_eqb name service
      then Ok {| sh_name := service; sh_status := service_kind status |}
      else Err ExecFailed
  | _ => Err ExecFailed
  end.

(** The loop over the lines: what is kept, its bytes, and whether some is missing. *)
Fixpoint bounded_entries (requested : nat) (entries : list str) (bytes : N) (truncated : bool)
    (items : list str) : list str * bool :=
  match items with
  | [] => (entries, truncated)
  | line :: rest =>
      if (requested <=? length entries)%nat || (MAX_LOG_RESULT_BYTES <=? bytes)%N then (entries, true)
      else
        let '(line, line_truncated) := truncate_utf8 line MAX_LOG_ENTRY_BYTES in
        let '(line, result_truncated) := truncate_utf8 line (MAX_LOG_RESULT_BYTES - bytes) in
        bounded_entries requested (entries ++ [line]) (bytes + blen line)%N
          (truncated || (line_truncated || result_truncated)) rest
  end.
Definition bounded_log_entries (output : str) (requested_lines : nat) : list str * bool :=
  bounded_entries requested_lines [] 0 false (lines output).

Section Tools.
Context `{JsonText} (session_id : Uuid).

Definition service_status (service : str) : RmProc ServiceHealth :=
  lift (validate_service service) ;;
  result ← exec session_id (with_output_limit (script SERVICE_STATUS_SCRIPT [service]) 8192);
  lift (supported result) ;;
  lift (parse_service_status (re_stdout result) service).

Definition service_logs (service : str) (n_lines : N) : RmProc (ServiceLogsData * bool) :=
  if negb ((20 <=? n_lines)%N && (n_lines <=? MAX_LOG_LINES)%N) then lift (Err InvalidOperation)
  else
    lift (validate_service service) ;;
    result ← logs session_id LogService (Some service) n_lines;
    if negb (or_success result) then lift (Err ExecFailed)
    else
      let '(entries, truncated) := bounded_log_entries (or_output result) (N.to_nat n_lines) in
      mret ({| sl_service := service; sl_entries := entries |}, truncated).

(** ** The network (tools/network.rs) *)
Definition PORT_CHECK_SCRIPT : str := sh_text "command -v nc >/dev/null 2>&1 || exit 90; if nc -z -w 5 ^$1^ ^$2^ >/dev/null 2>&1; then reachable=true; else reachable=false; fi; printf 'PORT_CHECK\t%s\t%s\t%s\n' ^$1^ ^$2^ ^$reachable^".

Definition validate_host (host : str) : AppResult unit :=
  valid_if (negb (is_empty host) && (blen host <=? 255)%N && negb (starts_with host (lit "-"))
            && single_line host).

Definition parse_port_check (output host : str) (port : N) : AppResult NetworkPortCheckData :=
  match split (N.eqb 9) (trim_end output) with
  | [tag; h; p; reachable] =>
      if str_eqb tag (lit "PORT_CHECK") && str_eqb h host && str_eqb p (dec port) then
        if str_eqb reachable (lit "true") then Ok {| np_host := host; np_port := port; np_reachable := true |}
        else if str_eqb reachable (lit "false") then Ok {| np_host := host; np_port := port; np_reachable := false |}
        else Err ExecFailed
      else Err ExecFailed
  | _ => Err ExecFailed
  end.

Definition port_check (host : str) (port : N) : RmProc NetworkPortCheckData :=
  lift (validate_host host) ;;
  result ← exec session_id (with_output_limit (script PORT_CHECK_SCRIPT [host; dec port]) 8192);
  lift (supported result) ;;
  lift (parse_port_check (re_stdout result) host port).

(** ** HTTP (tools/http.rs) *)
Definition HTTP_REQUEST_SCRIPT : str := sh_text "command -v curl >/dev/null 2>&1 || exit 90; curl --silent --show-error --location --max-redirs 5 --proto '=http,https' --proto-redir '=http,https' --connect-timeout 5 --max-time 20 --range 0-262143 --max-filesize 262144 --output - --write-out '\nRUNORY_HTTP_META\t%{http_code}\t%{content_type}\t%{size_download}\n' ^$1^".
Definition HTTP_META_MARKER : str := 10%N :: lit "RUNORY_HTTP_META" ++ [9%N].
Definition MAX_BODY_PREVIEW_BYTES : N := 65536.

Definition authority_of (url : str) : option str :=
  remainder ← match strip_prefix url (lit "http://") with
              | Some r => Some r
              | None => strip_prefix url (lit "https://")
              end;
  opt_filter (fun a => negb (is_empty a) && negb (contains_char a 64))
    (head (split (fun c => (c =? 47)%N || (c =? 63)%N || (c =? 35)%N) remainder)).

Definition validate_url (url : str) : AppResult unit :=
  valid_if ((blen url <=? 2048)%N && single_line url && bool_decide (is_Some (authority_of url))).

Definition parse_http_response (output : str) : AppResult (HttpResponseData * bool) :=
  '(body, metadata) ← ok_or (rsplit_once_str HTTP_META_MARKER output) ExecFailed;
  match split (N.eqb 9) (trim_end metadata) with
  | [status; content_type; size] =>
      status_code ← ok_or (opt_filter (fun s => (100 <=? s)%N && (s <=? 599)%N) (parse_u16 status)) ExecFailed;
      let value := trim content_type in
      content_type ← (if is_empty value then Ok None
                      else if (blen value <=? 512)%N then Ok (Some value) else Err ExecFailed);
      body_bytes ← ok_or (opt_filter (fun v => f64_is_finite v && negb (f64_ltb v (S754_zero false)))
                            (parse_f64 size)) ExecFailed;
      let body_bytes := f64_as_u64 body_bytes in
      let '(body_preview, preview_truncated) := truncate_utf8 body MAX_BODY_PREVIEW_BYTES in
      Ok ({| hr_status_code := status_code; hr_content_type := content_type;
             hr_body_preview := body_preview; hr_body_bytes := body_bytes |},
          preview_truncated || (MAX_BODY_PREVIEW_BYTES <? body_bytes)%N)
  | _ => Err ExecFailed
  end.

Definition http_request (url : str) : RmProc (HttpResponseData * bool) :=
  lift (validate_url url) ;;
  result ← exec session_id (with_output_limit (script HTTP_REQUEST_SCRIPT [url]) 393216);
  lift (supported result) ;;
  lift (parse_http_response (re_stdout result)).

(** ** Nginx (tools/nginx.rs) *)
Definition MAX_RAW_SUMMARY_BYTES : N := 16384.
Definition MAX_ERROR_MESSAGE_BYTES : N := 4096.

Definition valid_remote_path (path : str) : bool :=
  negb (is_empty path) && (blen path <=? 4096)%N && single_line path.

Definition extract_config_file (line : str) : option str :=
  '(_, remainder) ← split_once_str (lit "configuration file ") line;
  '(path, _) ← match split_once_str (lit " syntax") remainder with
               | Some x => Some x
               | None => split_once_str (lit " test") remainder
               end;
  let path := trim path in
  if valid_remote_path path then Some path else None.

Definition extract_error_location (line : str) : option (str * N) :=
  '(_, location) ← rsplit_once_str (lit " in ") line;
  '(file, line) ← rsplit_once 58 (trim location);
  line ← opt_filter (fun n => 0 <? n)%N (parse_u32 line);
  if valid_remote_path file then Some (file, line) else None.

Definition error_line_of (output : str) : option str :=
  match find (fun line => contains line (lit "[emerg]") || contains line (lit "[error]")) (lines output) with
  | Some line => Some line
  | None => find (fun line => negb (is_empty (trim line))) (lines output)
  end.

Definition parse_nginx_test (valid : bool) (output : str) : AppResult NginxTestData :=
  if contains_char output 0 then Err ExecFailed
  else
    let location := if valid then None else find_map extract_error_location (lines output) in
    Ok {| nt_valid := valid;
          nt_config_file := find_map extract_config_file (lines output);
          nt_error_file := fst <$> location;
          nt_error_line := snd <$> location;
          nt_error_message :=
            if valid then None
            else (fun line => fst (truncate_utf8 (trim line) MAX_ERROR_MESSAGE_BYTES)) <$> error_line_of output;
          nt_raw_summary := fst (truncate_utf8 (trim output) MAX_RAW_SUMMARY_BYTES) |}.

Definition nginx_test : RmProc NginxTestData :=
  result ← exec session_id (with_output_limit (script NGINX_TEST []) 65536);
  if (re_exit_code result =? 90)%N then lift (Err UnsupportedRemote)
  else lift (parse_nginx_test (re_exit_code result =? 0)%N (combined_output result)).

(** ** The system (tools/system.rs) *)
Definition SYSTEM_INFO_SCRIPT : str := sh_text "printf 'HOSTNAME\t%s\n' ^$(uname -n)^; printf 'OS\t%s\n' ^$(uname -s)^; printf 'KERNEL\t%s\n' ^$(uname -r)^; printf 'ARCH\t%s\n' ^$(uname -m)^".

Definition info_field (output : str) (name : string) : AppResult str :=
  ok_or (opt_filter (fun v => negb (is_empty (trim v)) && (blen v <=? 4096)%N)
           (find_map (fun line => strip_prefix line (lit name ++ [9%N])) (lines output))) ExecFailed.

Definition parse_system_info (output : str) : AppResult SystemInfoData :=
  hostname ← info_field output "HOSTNAME";
  operating_system ← info_field output "OS";
  kernel_release ← info_field output "KERNEL";
  architecture ← info_field output "ARCH";
  Ok {| si_hostname := hostname; si_operating_system := operating_system;
        si_kernel_release := kernel_release; si_architecture := architecture |}.

Definition system_info : RmProc SystemInfoData :=
  result ← exec session_id (with_output_limit (script SYSTEM_INFO_SCRIPT []) 16384);
  lift (ensure_success result) ;;
  lift (parse_system_info (re_stdout result)).

Definition system_disk : RmProc (list DiskUsage) :=
  dashboard ← overview session_id; mret (sd_disks dashboard).

(** ** The read-only terminal (tools/terminal.rs) *)
Definition OUTPUT_LIMIT : N := 65536.



Definition exec_readonly (command : str) : RmProc DiagnosticData :=
  lift (validate_readonly_command command) ;;
  c ← lift (freeform command);
  result ← exec session_id (with_output_limit c OUTPUT_LIMIT);
  lift (ensure_success result) ;;
  let '(output, redacted) := redact_secrets (re_stdout result) in
  mret {| dd_category := lit "terminal-readonly";
          dd_fields := jobj [(lit "command", JString command);
                             (lit "exitCode", jint (re_exit_code result));
                             (lit "output", JString (firstn (N.to_nat 16384) output));
                             (lit "redacted", JBool redacted);
                             (lit "truncated", JBool (OUTPUT_LIMIT <=? blen output)%N)] |}.

(** ** Diagnostics (tools/incident.rs) *)
Definition DNS_SCRIPT : str := sh_text "command -v getent >/dev/null 2>&1 || exit 90; getent ahosts ^$1^ | awk '{print $1}' | sort -u | head -n 32".
Definition TLS_SCRIPT : str := sh_text "command -v openssl >/dev/null 2>&1 || exit 90; cert=$(openssl s_client -connect ^$1:$2^ -servername ^$1^ -verify_return_error </dev/null 2>/dev/null | openssl x509 -noout -subject -issuer -dates -fingerprint -sha256 2>/dev/null) || exit 1; test -n ^$cert^ || exit 1; printf '%s\n' ^$cert^".
Definition LISTENERS_SCRIPT : str := sh_text "command -v ss >/dev/null 2>&1 || exit 90; ss -lntpH 2>/dev/null | head -n 200".
Definition FILE_SCRIPT : str := sh_text "test -f ^$1^ || exit 91; test -r ^$1^ || exit 92; stat -Lc 'META\t%s\t%a\t%U\t%G' ^$1^ || exit 1; printf 'CONTENT\n'; head -c 262144 ^$1^".
Definition DIRECTORY_SCRIPT : str := sh_text "test -d ^$1^ || exit 91; du -x -B1 -d1 ^$1^ 2>/dev/null | sort -nr | head -n 100".
Definition LARGE_FILES_SCRIPT : str := sh_text "test -d ^$1^ || exit 91; find ^$1^ -xdev -type f -size +^$2^c -printf '%s\t%p\n' 2>/dev/null | sort -nr | head -n 100".
Definition INODE_SCRIPT : str := sh_text "df -iP 2>/dev/null | awk 'NR>1 {print $1^\t^$2^\t^$3^\t^$4^\t^$6}' | head -n 64".
Definition LSBLK_SCRIPT : str := sh_text "command -v lsblk >/dev/null 2>&1 || exit 90; lsblk -b -J -o NAME,SIZE,TYPE,MOUNTPOINT 2>/dev/null".
Definition DOCKER_INSPECT_SCRIPT : str := sh_text "command -v docker >/dev/null 2>&1 || exit 90; docker inspect ^$1^".

Definition diagnostic_exec (text : str) (args : list str) (limit : N) : RmProc str :=
  result ← exec session_id (with_output_limit (script text args) limit);
  lift (if (re_exit_code result =? 0)%N then Ok (re_stdout result)
        else if (re_exit_code result =? 90)%N then Err UnsupportedRemote
        else if (re_exit_code result =? 91)%N || (re_exit_code result =? 92)%N then Err SftpNotFound
        else Err ExecFailed).

Definition data (category : string) (fields : list (str * json)) : DiagnosticData :=
  {| dd_category := lit category; dd_fields := jobj fields |}.
Arguments data category%_string fields.

Definition validate_identifier (value : str) : AppResult unit :=
  valid_if (negb (is_empty value) && (blen value <=? 256)%N && word_chars "_-.@:/" value).

Definition validate_path (value : str) : AppResult unit :=
  valid_if (starts_with value (lit "/") && (blen value <=? 4096)%N && negb (existsb is_control value)).

Definition bounded_lines (value : str) (limit : nat) : list str :=
  List.filter (fun line => blen line <=? 8192)%N (firstn limit (lines value)).

Definition size_path (line : str) : option json :=
  '(size, path) ← split_once (N.eqb 9) line;
  size ← parse_u64 size;
  Some (jobj [(lit "sizeBytes", jint size); (lit "path", JString path)]).
Definition parse_size_paths (value : str) : list json := omap size_path (firstn 100 (lines value)).

Definition inode_row (line : str) : option json :=
  match split (N.eqb 9) line with
  | [filesystem; inodes; used; available; mount] =>
      inodes ← parse_u64 inodes; used ← parse_u64 used; available ← parse_u64 available;
      Some (jobj [(lit "filesystem", JString filesystem); (lit "inodes", jint inodes); (lit "used", jint used);
                  (lit "available", jint available); (lit "mount", JString mount)])
  | _ => None
  end.
Definition parse_inode_rows (value : str) : list json := omap inode_row (firstn 64 (lines value)).

Definition json_texts (l : list str) : json := JArray (map JString l).
Definition json_text_or_null (o : option str) : json := match o with Some s => JString s | None => JNull end.
Definition json_or_null (o : option json) : json := match o with Some v => v | None => JNull end.
Definition json_f64 (x : spec_float) : json := if f64_is_finite x then JNumber (JFloat (f64_bits x)) else JNull.

Definition dns_resolve (host : str) : RmProc DiagnosticData :=
  lift (validate_host host) ;;
  output ← diagnostic_exec DNS_SCRIPT [host] 32768;
  let addresses := List.filter (fun line => negb (is_empty line) && (blen line <=? 64)%N) (lines output) in
  mret (data "dns" [(lit "host", JString host); (lit "addresses", json_texts addresses);
                    (lit "resolved", JBool (negb (bool_decide (addresses = []))))]).

Definition tls_field (output : str) (prefix : string) : option str :=
  opt_filter (fun v => blen v <=? 4096)%N
    (trim <$> find_map (fun line => strip_prefix line (lit prefix)) (lines output)).
Arguments tls_field output prefix%_string.

Definition tls_inspect (host : str) (port : N) : RmProc DiagnosticData :=
  lift (validate_host host) ;;
  output ← diagnostic_exec TLS_SCRIPT [host; dec port] 32768;
  let field prefix := json_text_or_null (tls_field output prefix) in
  mret (data "tls"
    [(lit "host", JString host); (lit "port", jint port); (lit "subject", field "subject="%string);
     (lit "issuer", field "issuer="%string); (lit "notBefore", field "notBefore="%string);
     (lit "notAfter", field "notAfter="%string);
     (lit "sha256Fingerprint",
       json_text_or_null (match tls_field output "sha256 Fingerprint=" with
                          | Some f => Some f
                          | None => tls_field output "SHA256 Fingerprint="
                          end));
     (lit "verified", JBool true)]).

Definition network_listeners : RmProc DiagnosticData :=
  output ← diagnostic_exec LISTENERS_SCRIPT [] 262144;
  mret (data "network-listeners" [(lit "listeners", json_texts (bounded_lines output 200))]).

Definition process_json (p : ProcessInfo) : json :=
  jobj [(lit "pid", jint (pi_pid p)); (lit "user", JString (pi_user p));
        (lit "cpuPercent", JNumber (JFloat (pi_cpu_percent p)));
        (lit "memoryPercent", JNumber (JFloat (pi_memory_percent p))); (lit "command", JString (pi_command p))].

Definition process_list : RmProc DiagnosticData :=
  list ← processes session_id;
  mret (data "process-list" [(lit "processes", JArray (map process_json list))]).

Definition parse_file_inspect (path output : str) : AppResult DiagnosticData :=
  '(metadata, content) ← ok_or (split_once_str (10%N :: lit "CONTENT" ++ [10%N]) output) ExecFailed;
  match split (N.eqb 9) metadata with
  | [tag; size; mode; owner; group] =>
      if str_eqb tag (lit "META") then
        let '(preview, redacted) := redact_secrets content in
        size ← ok_or (parse_u64 size) ExecFailed;
        Ok (data "file"
          [(lit "path", JString path); (lit "sizeBytes", jint size); (lit "mode", JString mode);
           (lit "owner", JString owner); (lit "group", JString group); (lit "contentPreview", JString preview);
           (lit "redacted", JBool redacted); (lit "truncated", JBool (262144 <=? blen content)%N)])
      else Err ExecFailed
  | _ => Err ExecFailed
  end.

Definition file_inspect (path : str) : RmProc DiagnosticData :=
  lift (validate_path path) ;;
  output ← diagnostic_exec FILE_SCRIPT [path] 327680;
  lift (parse_file_inspect path output).

Definition directory_usage (path : str) : RmProc DiagnosticData :=
  lift (validate_path path) ;;
  output ← diagnostic_exec DIRECTORY_SCRIPT [path] 131072;
  mret (data "directory-usage" [(lit "path", JString path); (lit "entries", JArray (parse_size_paths output))]).

Definition large_files (path : str) (minimum_bytes : N) : RmProc DiagnosticData :=
  lift (validate_path path) ;;
  if negb ((1048576 <=? minimum_bytes)%N && (minimum_bytes <=? 1099511627776)%N) then lift (Err InvalidOperation)
  else
    output ← diagnostic_exec LARGE_FILES_SCRIPT [path; dec minimum_bytes] 131072;
    mret (data "large-files" [(lit "path", JString path); (lit "minimumBytes", jint minimum_bytes);
                              (lit "files", JArray (parse_size_paths output))]).

Definition inode_usage : RmProc DiagnosticData :=
  output ← diagnostic_exec INODE_SCRIPT [] 65536;
  mret (data "inode-usage" [(lit "filesystems", JArray (parse_inode_rows output))]).

Definition block_devices_list : RmProc DiagnosticData :=
  output ← diagnostic_exec LSBLK_SCRIPT [] 262144;
  let devices := match json_from_str output with
                 | Some v => v
                 | None => jobj [(lit "raw", json_texts (bounded_lines output 128))]
                 end in
  mret (data "block-devices" [(lit "devices", devices)]).

Definition container_json (c : DockerContainer) : json :=
  jobj [(lit "id", JString (dc_id c)); (lit "name", JString (dc_name c)); (lit "image", JString (dc_image c));
        (lit "state", JString (dc_state c)); (lit "status", JString (dc_status c));
        (lit "ports", JString (dc_ports c)); (lit "cpuPercent", json_f64 (dc_cpu_percent c));
        (lit "memoryBytes", jint (dc_memory_bytes c))].

Definition docker_list_tool : RmProc DiagnosticData :=
  containers ← docker_list session_id;
  mret (data "docker-list" [(lit "containers", JArray (map container_json containers))]).

(** [Value::pointer] for a path of names. *)
Fixpoint pointer (v : json) (path : list string) : option json :=
  match path with [] => Some v | key :: rest => inner ← json_get v (lit key); pointer inner rest end.
Arguments pointer v path%_string.

Definition parse_docker_inspect (container output : str) : AppResult DiagnosticData :=
  values ← ok_or (json_from_str output) ExecFailed;
  item ← ok_or (as_array values ≫= head) ExecFailed;
  let at_ path := json_or_null (pointer item path) in
  Ok (data "docker-inspect"
    [(lit "container", JString container); (lit "state", at_ ["State"; "Status"]%string);
     (lit "running", at_ ["State"; "Running"]%string); (lit "exitCode", at_ ["State"; "ExitCode"]%string);
     (lit "error", at_ ["State"; "Error"]%string); (lit "restartCount", at_ ["RestartCount"]%string);
     (lit "health", at_ ["State"; "Health"; "Status"]%string);
     (lit "ports", at_ ["NetworkSettings"; "Ports"]%string); (lit "mounts", at_ ["Mounts"]%string)]).

Definition docker_inspect (container : str) : RmProc DiagnosticData :=
  lift (validate_identifier container) ;;
  output ← diagnostic_exec DOCKER_INSPECT_SCRIPT [container] 524288;
  lift (parse_docker_inspect container output).

Definition docker_logs (container : str) (n_lines : N) : RmProc DiagnosticData :=
  lift (validate_identifier container) ;;
  if negb ((20 <=? n_lines)%N && (n_lines <=? 500)%N) then lift (Err InvalidOperation)
  else
    result ← logs session_id LogDocker (Some container) n_lines;
    if negb (or_success result) then lift (Err ExecFailed)
    else
      let '(text, redacted) := redact_secrets (or_output result) in
      mret (data "docker-logs" [(lit "container", JString container);
                                (lit "entries", json_texts (bounded_lines text (N.to_nat n_lines)));
                                (lit "redacted", JBool redacted)]).

(** ** Changes (tools/change.rs) *)
Definition PATCH_LIMIT : N := 524288.

Definition file_patch (path expected replacement : str) : RmProc FilePatchData :=
  if is_empty expected || str_eqb expected replacement || (PATCH_LIMIT <? blen expected)%N
     || (PATCH_LIMIT <? blen replacement)%N
  then lift (Err InvalidOperation)
  else
    '(_, current) ← sftp_read_text session_id path;
    if negb (count_matches current expected =? 1)%nat then lift (Err InvalidOperation)
    else
      let updated := replace_first current expected replacement in
      '(resolved, bytes) ← sftp_write_text session_id path updated;
      '(_, verified) ← sftp_read_text session_id resolved;
      if negb (str_eqb verified updated) then
        ask (RmWriteText session_id resolved current) ;;
        lift (Err SftpOperationFailed)
      else mret {| fp_path := resolved; fp_bytes := bytes; fp_verified := true |}.

Definition SERVICE_CHANGE_SCRIPT : str := sh_text "command -v systemctl >/dev/null 2>&1 || exit 90; systemctl ^$1^ ^$2^".

Definition change_validate_service (value : str) : AppResult unit :=
  valid_if (negb (is_empty value) && (blen value <=? 128)%N && word_chars "._@:-" value).

Definition service_change (service action : str) : RmProc ServiceChangeData :=
  lift (change_validate_service service) ;;
  result ← exec session_id (script SERVICE_CHANGE_SCRIPT [action; service]);
  lift (supported result) ;;
  status ← service_status service;
  let verified := str_in [lit "restart"; lit "reload"] action && bool_decide (sh_status status = SvcActive) in
  if negb verified then lift (Err ExecFailed)
  else mret {| sc_service := service; sc_action := action; sc_verified := verified |}.

Definition nginx_reload : RmProc ServiceChangeData :=
  test ← nginx_test;
  if negb (nt_valid test) then lift (Err InvalidOperation)
  else
    result ← nginx_action session_id NginxActionReload;
    if negb (or_success result) then lift (Err ExecFailed)
    else
      after ← nginx_test;
      if negb (nt_valid after) then lift (Err ExecFailed)
      else mret {| sc_service := lit "nginx"; sc_action := lit "reload"; sc_verified := true |}.

Definition docker_restart (container : str) : RmProc ServiceChangeData :=
  if negb (negb (is_empty container) && (blen container <=? 256)%N && word_chars "_-.@:/" container)
  then lift (Err InvalidOperation)
  else
    result ← docker_action session_id container ActionRestart;
    if negb (or_success result) then lift (Err ExecFailed)
    else
      containers ← docker_list session_id;
      if negb (existsb (fun item => (str_eqb (dc_id item) container || str_eqb (dc_name item) container)
                                    && str_eqb (dc_state item) (lit "running")) containers)
      then lift (Err ExecFailed)
      else mret {| sc_service := container; sc_action := lit "restart"; sc_verified := true |}.

(** ** The registry (tools/registry.rs) *)
Definition diagnostic (summary : string) (p : RmProc DiagnosticData) : RmProc (ToolData * str * bool) :=
  d ← p; mret (TDDiagnostic d, lit summary, false).
Definition whole {A} (summary : string) (wrap : A -> ToolData) (p : RmProc A) : RmProc (ToolData * str * bool) :=
  d ← p; mret (wrap d, lit summary, false).
Definition partial {A} (summary : string) (wrap : A -> ToolData) (p : RmProc (A * bool)) :
    RmProc (ToolData * str * bool) :=
  '(d, truncated) ← p; mret (wrap d, lit summary, truncated).
Arguments diagnostic summary%_string p.
Arguments whole {A} summary%_string wrap p.
Arguments partial {A} summary%_string wrap p.

Definition run_invocation (invocation : NativeToolInvocation) : RmProc (ToolData * str * bool) :=
  match invocation with
  | InvSystemInfo => whole "system-info-collected" TDSystemInfo system_info
  | InvSystemDisk => whole "system-disk-collected" TDSystemDisk system_disk
  | InvServiceStatus service => whole "service-status-collected" TDServiceStatus (service_status service)
  | InvServiceLogs service n => partial "service-logs-collected" TDServiceLogs (service_logs service n)
  | InvNetworkPortCheck host port => whole "network-port-checked" TDNetworkPortCheck (port_check host port)
  | InvHttpRequest url => partial "http-request-completed" TDHttpResponse (http_request url)
  | InvNginxTest => whole "nginx-configuration-tested" TDNginxTest nginx_test
  | InvDnsResolve host => diagnostic "dns-resolved" (dns_resolve host)
  | InvTlsInspect host port => diagnostic "tls-inspected" (tls_inspect host port)
  | InvNetworkListeners => diagnostic "network-listeners-collected" network_listeners
  | InvProcessList => diagnostic "process-list-collected" process_list
  | InvFileInspect path => diagnostic "file-inspected" (file_inspect path)
  | InvSystemDirectoryUsage path => diagnostic "directory-usage-collected" (directory_usage path)
  | InvSystemLargeFiles path minimum => diagnostic "large-files-collected" (large_files path minimum)
  | InvDockerList => diagnostic "docker-list-collected" docker_list_tool
  | InvDockerInspect container => diagnostic "docker-inspected" (docker_inspect container)
  | InvDockerLogs container n => diagnostic "docker-logs-collected" (docker_logs container n)
  | InvFilePatch path expected replacement =>
      whole "file-patch-applied" TDFilePatch (file_patch path expected replacement)
  | InvServiceRestart service => whole "service-restarted" TDServiceChange (service_change service (lit "restart"))
  | InvServiceReload service => whole "service-reloaded" TDServiceChange (service_change service (lit "reload"))
  | InvNginxReload => whole "nginx-reloaded" TDServiceChange nginx_reload
  | InvDockerRestart container => whole "docker-restarted" TDServiceChange (docker_restart container)
  | InvFilesystemInodeUsage => diagnostic "inode-usage-collected" inode_usage
  | InvBlockDevicesList => diagnostic "block-devices-collected" block_devices_list
  | InvTerminalExecReadonly command => diagnostic "terminal-readonly-completed" (exec_readonly command)
  end.

Definition registry_result (invocation_id : Uuid) (name : NativeToolName) (started duration : N)
    (outcome : AppResult (ToolData * str * bool)) : ToolResult :=
  let '(success, summary, data, error_code, truncated) :=
    match outcome with
    | Ok (data, summary, truncated) => (true, summary, Some data, None, truncated)
    | Err error => (false, lit "tool-execution-failed", None, Some (error_code error), false)
    end in
  {| tr_invocation_id := invocation_id; tr_tool_name := name; tr_success := success; tr_summary := summary;
     tr_data := data; tr_error_code := error_code;
     tr_warnings := if (truncated : bool) then [lit "remote-output-truncated"] else [];
     tr_started_at_epoch_ms := started; tr_duration_ms := duration; tr_truncated := truncated;
     tr_cancelled := false; tr_untrusted_remote_data := true |}.

(** [NativeToolRegistry::execute]; the two readings of the clock are given. *)
Definition registry_execute (started duration : N) (invocation_id : Uuid) (invocation : NativeToolInvocation) :
    RmProc ToolResult :=
  outcome ← caught (run_invocation invocation);
  mret (registry_result invocation_id (invocation_name invocation) started duration outcome).
End Tools.
