(* ===== verification/ProbesTheorems.v ===== *)
(** * What the native tools send, read and change

    Each tool sends exactly its own commands, with the invocation's own
    strings as words; a patch is exact and is undone by its reverse; remote
    text is bounded and cannot pass for what the tool's own program printed. *)
From S2P Require Import Prelude Str Json Errors RunState Context Tools Evidence NumText Process.
From S2P Require Import RemoteExec Operations OperationsTheorems Dashboard Probes.
From Stdlib Require Import Floats.SpecFloat.

(** ** The commands of a tool

    What follows [sh -c] on the command line: a script, the word before its
    arguments, and the arguments. *)
Definition scripted (text : str) (args : list str) : list str := text :: lit "runory" :: args.

Definition tool_commands (i : NativeToolInvocation) : list (list str) :=
  match i with
  | InvSystemInfo => [scripted SYSTEM_INFO_SCRIPT []]
  | InvSystemDisk => [scripted METRICS_SCRIPT []]
  | InvServiceStatus service => [scripted SERVICE_STATUS_SCRIPT [service]]
  | InvServiceLogs service n => [scripted (log_script LogService) [dec n; service]]
  | InvNetworkPortCheck host port => [scripted PORT_CHECK_SCRIPT [host; dec port]]
  | InvHttpRequest url => [scripted HTTP_REQUEST_SCRIPT [url]]
  | InvNginxTest => [scripted NGINX_TEST []]
  | InvDnsResolve host => [scripted DNS_SCRIPT [host]]
  | InvTlsInspect host port => [scripted TLS_SCRIPT [host; dec port]]
  | InvNetworkListeners => [scripted LISTENERS_SCRIPT []]
  | InvProcessList => [scripted PROCESS_SCRIPT []]
  | InvFileInspect path => [scripted FILE_SCRIPT [path]]
  | InvSystemDirectoryUsage path => [scripted DIRECTORY_SCRIPT [path]]
  | InvSystemLargeFiles path minimum => [scripted LARGE_FILES_SCRIPT [path; dec minimum]]
  | InvDockerList => [scripted DOCKER_LIST []; scripted DOCKER_STATS []]
  | InvDockerInspect container => [scripted DOCKER_INSPECT_SCRIPT [container]]
  | InvDockerLogs container n => [scripted (log_script LogDocker) [dec n; container]]
  | InvFilePatch _ _ _ => []
  | InvServiceRestart service =>
      [scripted SERVICE_CHANGE_SCRIPT [lit "restart"; service]; scripted SERVICE_STATUS_SCRIPT [service]]
  | InvServiceReload service =>
      [scripted SERVICE_CHANGE_SCRIPT [lit "reload"; service]; scripted SERVICE_STATUS_SCRIPT [service]]
  | InvNginxReload => [scripted NGINX_TEST []; scripted NGINX_RELOAD []]
  | InvDockerRestart container =>
      [scripted DOCKER_ACTION [lit "restart"; container]; scripted DOCKER_LIST []; scripted DOCKER_STATS []]
  | InvFilesystemInodeUsage => [scripted INODE_SCRIPT []]
  | InvBlockDevicesList => [scripted LSBLK_SCRIPT []]
  | InvTerminalExecReadonly command => [[command]]
  end.

Definition is_patch (i : NativeToolInvocation) : bool := match i with InvFilePatch _ _ _ => true | _ => false end.

(** A call goes to the session; a command's line is read as one of the tool's;
    files are read and written by a patch only. *)
Definition tool_call (session_id : Uuid) (i : NativeToolInvocation) (q : RmQuery) : Prop :=
  match q with
  | RmExec s c =>
      s = session_id /\
      forall line, render c = Ok line ->
        exists words, words ∈ tool_commands i /\ sh_words line = Some (lit "sh" :: lit "-c" :: words)
  | RmReadText s _ | RmWriteText s _ _ => s = session_id /\ is_patch i = true
  end.

#[local] Opaque sh_text lit.

Section Calls.
Context `{JsonText} (session_id : Uuid) (i : NativeToolInvocation).

Abbreviation calls past p := (follows (fun _ q => tool_call session_id i q) past p (fun _ _ => True)) (only parsing).
Abbreviation calls_then past p Post := (follows (fun _ q => tool_call session_id i q) past p Post) (only parsing).

Lemma exec_calls past c (Post : list (event unit RmQuery RmAnswer) -> RemoteExecResult -> Prop) :
  tool_call session_id i (RmExec session_id c) -> (forall past' r, Post past' r) ->
  calls_then past (exec session_id c) Post.
Proof. intros Hc HP. split; [done|]. intros [r|e]; cbn; auto. Qed.

Lemma read_calls past path (Post : list (event unit RmQuery RmAnswer) -> str * str -> Prop) :
  is_patch i = true -> (forall past' r, Post past' r) -> calls_then past (sftp_read_text session_id path) Post.
Proof. intros Hi HP. split; [done|]. intros [r|e]; cbn; auto. Qed.

Lemma write_calls past path content (Post : list (event unit RmQuery RmAnswer) -> str * N -> Prop) :
  is_patch i = true -> (forall past' r, Post past' r) ->
  calls_then past (sftp_write_text session_id path content) Post.
Proof. intros Hi HP. split; [done|]. intros [r|e]; cbn; auto. Qed.

Lemma script_call c words :
  rc_program c = lit "sh" -> rc_args c = lit "-c" :: words -> words ∈ tool_commands i ->
  tool_call session_id i (RmExec session_id c).
Proof.
  intros Hp Ha Hw. split; [done|]. intros line Hl. exists words. split; [done|].
  apply render_words in Hl. by rewrite Hl, Hp, Ha.
Qed.

Ltac command_call := eapply script_call; [reflexivity|reflexivity|].

Lemma run_operation_calls past c (Post : list (event unit RmQuery RmAnswer) -> OperationResult -> Prop) :
  tool_call session_id i (RmExec session_id c) -> (forall past' r, Post past' r) ->
  calls_then past (run_operation session_id c) Post.
Proof.
  intros Hc HP. unfold run_operation. apply follows_mbind, exec_calls; [done|]. intros past' r.
  destruct (_ =? 90)%N; cbn; auto.
Qed.

Lemma docker_list_calls past (Post : list (event unit RmQuery RmAnswer) -> list DockerContainer -> Prop) :
  scripted DOCKER_LIST [] ∈ tool_commands i -> scripted DOCKER_STATS [] ∈ tool_commands i ->
  (forall past' r, Post past' r) ->
  calls_then past (docker_list session_id) Post.
Proof.
  intros Hl Hs HP. unfold docker_list. apply follows_mbind, exec_calls; [command_call; exact Hl|]. intros past1 r.
  apply follows_mbind, follows_lift. intros _ _. apply follows_mbind, follows_lift. intros containers _.
  apply follows_mbind. split; [command_call; exact Hs|]. intros a. apply HP.
Qed.
End Calls.

Ltac listed n := apply (list_elem_of_lookup_2 _ n); reflexivity.
(** The [n]-th command of the tool. *)
Ltac command_call n :=
  eapply script_call; [reflexivity|reflexivity|];
  listed n.
Ltac bound := repeat lazymatch goal with |- follows _ _ (_ ≫= _) _ => apply follows_mbind end.
Ltac lifted := bound; apply follows_lift; intros ? ?.
Ltac called n := bound; apply exec_calls; [command_call n|]; intros ? ?.
Ltac operated n := bound; apply run_operation_calls; [command_call n|]; intros ? ?.

Section Tools.
Context `{JsonText} (session_id : Uuid).

Lemma service_status_calls i past service n (Post : list (event unit RmQuery RmAnswer) -> ServiceHealth -> Prop) :
  tool_commands i !! n = Some (scripted SERVICE_STATUS_SCRIPT [service]) -> (forall past' r, Post past' r) ->
  follows (fun _ q => tool_call session_id i q) past (service_status session_id service) Post.
Proof.
  intros Hn HP. unfold service_status. lifted. bound. apply exec_calls.
  { eapply script_call; [reflexivity|reflexivity|]. by eapply list_elem_of_lookup_2. }
  intros past' r. lifted. by lifted.
Qed.

Lemma nginx_test_calls i past n (Post : list (event unit RmQuery RmAnswer) -> NginxTestData -> Prop) :
  tool_commands i !! n = Some (scripted NGINX_TEST []) -> (forall past' r, Post past' r) ->
  follows (fun _ q => tool_call session_id i q) past (nginx_test session_id) Post.
Proof.
  intros Hn HP. unfold nginx_test. bound. apply exec_calls.
  { eapply script_call; [reflexivity|reflexivity|]. by eapply list_elem_of_lookup_2. }
  intros past' r. destruct (_ =? 90)%N; [done|]. by lifted.
Qed.

Lemma diagnostic_exec_calls i past text args limit
    (Post : list (event unit RmQuery RmAnswer) -> str -> Prop) :
  tool_commands i !! 0%nat = Some (scripted text args) -> (forall past' r, Post past' r) ->
  follows (fun _ q => tool_call session_id i q) past (diagnostic_exec session_id text args limit) Post.
Proof.
  intros Hn HP. unfold diagnostic_exec. bound. apply exec_calls.
  { eapply script_call; [reflexivity|reflexivity|]. by eapply list_elem_of_lookup_2. }
  intros past' r. by lifted.
Qed.

Lemma logs_calls i past source target lines (Post : list (event unit RmQuery RmAnswer) -> OperationResult -> Prop) :
  tool_commands i !! 0%nat = Some (scripted (log_script source) [dec lines; target]) ->
  needs_target source = true -> (forall past' r, Post past' r) ->
  follows (fun _ q => tool_call session_id i q) past (logs session_id source (Some target) lines) Post.
Proof.
  intros Hn Ht HP. unfold logs. destruct (negb _); [done|]. rewrite Ht. bound. apply follows_lift.
  intros args Ha. apply bind_ok in Ha as (t & (t' & Ht' & ([] & _ & E)%bind_ok)%bind_ok & Ha).
  cbn in Ht'. assert (args = [dec lines; target]) as -> by congruence.
  apply run_operation_calls; [|done].
  eapply script_call; [reflexivity|reflexivity|]. by eapply list_elem_of_lookup_2.
Qed.
End Tools.

Ltac diagnosed := bound; apply diagnostic_exec_calls; [reflexivity|]; intros ? ?.
Ltac guarded := match goal with |- follows _ _ (if ?b then _ else _) _ => destruct b; [done|] end.

Section Runs.
Context `{JsonText} (session_id : Uuid).

Abbreviation runs i := (follows (fun _ q => tool_call session_id i q) [] (run_invocation session_id i) (fun _ _ => True)) (only parsing).

Lemma diagnostics_calls i :
  match i with
  | InvDnsResolve _ | InvTlsInspect _ _ | InvNetworkListeners | InvFileInspect _ | InvSystemDirectoryUsage _
  | InvSystemLargeFiles _ _ | InvDockerInspect _ | InvFilesystemInodeUsage | InvBlockDevicesList => runs i
  | _ => True
  end.
Proof.
  destruct i; try done; cbn [run_invocation]; unfold diagnostic.
  - unfold dns_resolve. lifted. by diagnosed.
  - unfold tls_inspect. lifted. by diagnosed.
  - unfold network_listeners. by diagnosed.
  - unfold file_inspect. lifted. diagnosed. by lifted.
  - unfold directory_usage. lifted. by diagnosed.
  - unfold large_files. lifted. guarded. by diagnosed.
  - unfold docker_inspect. lifted. diagnosed. by lifted.
  - unfold inode_usage. by diagnosed.
  - unfold block_devices_list. by diagnosed.
Qed.

Lemma reads_calls i :
  match i with
  | InvSystemInfo | InvSystemDisk | InvServiceStatus _ | InvServiceLogs _ _ | InvNetworkPortCheck _ _
  | InvHttpRequest _ | InvNginxTest | InvProcessList | InvDockerList | InvDockerLogs _ _
  | InvTerminalExecReadonly _ => runs i
  | _ => True
  end.
Proof.
  destruct i; try done; cbn [run_invocation]; unfold diagnostic, whole, partial.
  - unfold system_info. called 0%nat. lifted. by lifted.
  - unfold system_disk, overview. called 0%nat. lifted. by lifted.
  - bound. by apply service_status_calls with (n := 0%nat).
  - bound. unfold service_logs. guarded. lifted. bound. apply logs_calls; [reflexivity|reflexivity|]. intros past' r. guarded.
    by destruct (bounded_log_entries _ _).
  - unfold port_check. lifted. called 0%nat. lifted. by lifted.
  - bound. unfold http_request. lifted. called 0%nat. lifted. lifted. by case_match.
  - bound. by apply nginx_test_calls with (n := 0%nat).
  - unfold process_list, processes. called 0%nat. lifted. by lifted.
  - unfold docker_list_tool. bound. by apply docker_list_calls; [listed 0%nat|listed 1%nat|].
  - bound. unfold docker_logs. lifted. guarded. bound. apply logs_calls; [reflexivity|reflexivity|]. intros past' r. guarded.
    by destruct (redact_secrets _).
  - unfold exec_readonly. lifted. lifted. bound. apply exec_calls.
    + unfold freeform in *. destruct (_ || _); [done|].
      eapply script_call; [| |apply list_elem_of_here]; match goal with H : Ok _ = Ok _ |- _ => by injection H as <- end.
    + intros past' r. lifted. by destruct (redact_secrets _).
Qed.

Lemma service_change_calls i service action n :
  tool_commands i !! n = Some (scripted SERVICE_CHANGE_SCRIPT [action; service]) ->
  tool_commands i !! S n = Some (scripted SERVICE_STATUS_SCRIPT [service]) ->
  follows (fun _ q => tool_call session_id i q) [] (service_change session_id service action) (fun _ _ => True).
Proof.
  intros Hc Hs. unfold service_change. lifted. bound. apply exec_calls.
  { eapply script_call; [reflexivity|reflexivity|]. by eapply list_elem_of_lookup_2. }
  intros past' r. lifted. bound. eapply service_status_calls; [done|]. intros past2 st. by guarded.
Qed.

Lemma file_patch_calls i path expected replacement :
  is_patch i = true ->
  follows (fun _ q => tool_call session_id i q) [] (file_patch session_id path expected replacement) (fun _ _ => True).
Proof.
  intros Hi. unfold file_patch. guarded. bound. apply read_calls; [done|]. intros past1 [p current].
  guarded. bound. apply write_calls; [done|]. intros past2 [resolved bytes].
  bound. apply read_calls; [done|]. intros past3 [p' verified]. case_match; [|done].
  bound. by split.
Qed.

Lemma changes_calls i :
  match i with
  | InvFilePatch _ _ _ | InvServiceRestart _ | InvServiceReload _ | InvNginxReload | InvDockerRestart _ => runs i
  | _ => True
  end.
Proof.
  destruct i; try done; cbn [run_invocation]; unfold whole.
  - bound. eapply follows_mono; [by apply file_patch_calls|done].
  - bound. eapply follows_mono; [by apply service_change_calls with (n := 0%nat)|done].
  - bound. eapply follows_mono; [by apply service_change_calls with (n := 0%nat)|done].
  - unfold nginx_reload, nginx_action. bound. apply nginx_test_calls with (n := 0%nat); [reflexivity|].
    intros past1 t1. guarded. operated 1%nat. guarded. bound.
    apply nginx_test_calls with (n := 0%nat); [reflexivity|]. intros past2 t2. by guarded.
  - unfold docker_restart, docker_action. bound. guarded. lifted. operated 0%nat. guarded. bound.
    apply docker_list_calls; [listed 1%nat|listed 2%nat|]. intros past9 l. by guarded.
Qed.

(** Every call a tool makes goes to the session it was given; every command
    line it sends is read by the shell as one of that tool's own commands, with
    the invocation's strings as whole words; and only a patch reads or writes
    files.  An invocation never errs: its error is in the result. *)
Theorem tool_sends_its_commands invocation_id started duration i :
  follows (fun _ q => tool_call session_id i q) []
    (registry_execute session_id started duration invocation_id i)
    (fun _ result =>
       tr_invocation_id result = invocation_id /\ tr_tool_name result = invocation_name i /\
       tr_success result = bool_decide (is_Some (tr_data result)) /\
       tr_success result = bool_decide (tr_error_code result = None)).
Proof.
  unfold registry_execute. apply follows_mbind.
  apply follows_caught with (Post := fun _ _ => True).
  - pose proof (diagnostics_calls i). pose proof (reads_calls i). pose proof (changes_calls i). by destruct i.
  - intros past' [[[d summary] truncated]|e] _; cbn; done.
Qed.
End Runs.

(** ** A change that succeeds was verified *)
Section Verified.
Context `{JsonText} (session_id : Uuid).

Definition asked_exec (c : RemoteCommand) (r : RemoteExecResult) : event unit RmQuery RmAnswer :=
  EvAsked (RmExec session_id c) (Ok r : RmAnswer (RmExec session_id c)).
Definition asked_read (path : str) (r : str * str) : event unit RmQuery RmAnswer :=
  EvAsked (RmReadText session_id path) (Ok r : RmAnswer (RmReadText session_id path)).
Definition asked_write (path content : str) (r : str * N) : event unit RmQuery RmAnswer :=
  EvAsked (RmWriteText session_id path content) (Ok r : RmAnswer (RmWriteText session_id path content)).

Definition exited (r : RemoteExecResult) : Prop := re_exit_code r = 0%N.
Definition nginx_test_command : RemoteCommand := with_output_limit (script NGINX_TEST []) 65536.
Definition status_command (service : str) : RemoteCommand :=
  with_output_limit (script SERVICE_STATUS_SCRIPT [service]) 8192.

(** What was done, in full, when the service ended as [action] should leave it. *)
Definition service_changed (service action : str) (past : list (event unit RmQuery RmAnswer)) : Prop :=
  exists r1 r2 health,
    past = [asked_exec (script SERVICE_CHANGE_SCRIPT [action; service]) r1; asked_exec (status_command service) r2] /\
    exited r1 /\ exited r2 /\ parse_service_status (re_stdout r2) service = Ok health /\ sh_status health = SvcActive.

Definition verified_change (i : NativeToolInvocation) (past : list (event unit RmQuery RmAnswer)) : Prop :=
  match i with
  | InvFilePatch path expected replacement =>
      exists p0 p1 resolved current bytes,
        let updated := replace_first current expected replacement in
        past = [asked_read path (p0, current); asked_write path updated (resolved, bytes);
                asked_read resolved (p1, updated)] /\
        count_matches current expected = 1%nat
  | InvServiceRestart service => service_changed service (lit "restart") past
  | InvServiceReload service => service_changed service (lit "reload") past
  | InvNginxReload =>
      exists r1 r2 r3,
        past = [asked_exec nginx_test_command r1; asked_exec (script NGINX_RELOAD []) r2;
                asked_exec nginx_test_command r3] /\ exited r1 /\ exited r2 /\ exited r3
  | InvDockerRestart container =>
      exists r1 r2 stats containers,
        past = [asked_exec (script DOCKER_ACTION [lit "restart"; container]) r1;
                asked_exec (script DOCKER_LIST []) r2;
                EvAsked (RmExec session_id (script DOCKER_STATS [])) stats] /\
        exited r1 /\ exited r2 /\
        mapM parse_docker_container (output_lines 2000 (re_stdout r2)) = Ok containers /\
        exists item, item ∈ containers /\ (dc_id item = container \/ dc_name item = container)
                     /\ dc_state item = lit "running"
  | _ => True
  end.

Abbreviation free past p Post := (follows (fun _ _ => True) past p Post) (only parsing).

Lemma free_any {A} past (p : RmProc A) : free past p (fun _ _ => True).
Proof. revert past. induction p as [[a|e]| |X sec k IH|q k IH]; intros past; cbn; auto. intros []; by destruct (sec ()); auto. Qed.

Lemma exec_free past c (Post : list (event unit RmQuery RmAnswer) -> RemoteExecResult -> Prop) :
  (forall r, Post (past ++ [asked_exec c r]) r) -> free past (exec session_id c) Post.
Proof. intros HP. split; [done|]. intros [r|e]; cbn; [apply HP|done]. Qed.

Lemma supported_ok r u : supported r = Ok u -> exited r.
Proof.
  unfold supported, exited. destruct (_ =? 90)%N; [done|]. destruct (N.eqb_spec (re_exit_code r) 0); [done|].
  by intros [=].
Qed.

Lemma nginx_test_free past (Post : list (event unit RmQuery RmAnswer) -> NginxTestData -> Prop) :
  (forall r d, (nt_valid d = true -> exited r) -> Post (past ++ [asked_exec nginx_test_command r]) d) ->
  free past (nginx_test session_id) Post.
Proof.
  intros HP. unfold nginx_test. bound. apply exec_free. intros r. destruct (_ =? 90)%N; [done|].
  apply follows_lift. intros d Hd. apply HP. intros Hv. unfold parse_nginx_test in Hd.
  destruct (contains_char _ _); [done|]. injection Hd as <-. by apply N.eqb_eq in Hv.
Qed.

Lemma run_operation_free past c (Post : list (event unit RmQuery RmAnswer) -> OperationResult -> Prop) :
  (forall r o, (or_success o = true -> exited r) -> Post (past ++ [asked_exec c r]) o) ->
  free past (run_operation session_id c) Post.
Proof.
  intros HP. unfold run_operation. bound. apply exec_free. intros r. destruct (_ =? 90)%N; [done|].
  apply HP. by intros Hv%N.eqb_eq.
Qed.

Lemma service_status_free past service (Post : list (event unit RmQuery RmAnswer) -> ServiceHealth -> Prop) :
  (forall r h, exited r -> parse_service_status (re_stdout r) service = Ok h ->
     Post (past ++ [asked_exec (status_command service) r]) h) ->
  free past (service_status session_id service) Post.
Proof.
  intros HP. unfold service_status. lifted. bound. apply exec_free. intros r.
  bound. apply follows_lift. intros u Hu%supported_ok. apply follows_lift. intros h Hh. by apply HP.
Qed.

Lemma service_change_verified service action :
  free [] (service_change session_id service action) (fun past _ => service_changed service action past).
Proof.
  unfold service_change. lifted. bound. apply exec_free. intros r1. bound. apply follows_lift.
  intros u Hu%supported_ok. bound. apply service_status_free. intros r2 h Hr2 Hh.
  destruct (str_in _ action); [|done]. destruct (bool_decide _) eqn:Ha; [|done].
  apply bool_decide_eq_true in Ha. cbn. by exists r1, r2, h.
Qed.

Lemma nginx_reload_verified :
  free [] (nginx_reload session_id) (fun past _ => verified_change InvNginxReload past).
Proof.
  unfold nginx_reload, nginx_action. bound. apply nginx_test_free. intros r1 t1 Ht1.
  destruct (nt_valid t1); [cbn [negb]|done]. bound. apply run_operation_free. intros r2 o Ho.
  destruct (or_success o); [cbn [negb]|done]. bound. apply nginx_test_free. intros r3 t3 Ht3.
  destruct (nt_valid t3); [cbn [negb]|done]. exists r1, r2, r3. split_and!; auto.
Qed.

(** Statistics change no identity and no state. *)
Definition identity (c : DockerContainer) : str * str * str := (dc_id c, dc_name c, dc_state c).

Lemma update_first_identity p f l :
  (forall c, identity (f c) = identity c) -> map identity (update_first p f l) = map identity l.
Proof. intros Hf. induction l as [|c l IH]; [done|]. cbn. destruct (p c); cbn; by rewrite ?Hf, ?IH. Qed.

Lemma merge_identity l output : map identity (merge_docker_stats l output) = map identity l.
Proof.
  unfold merge_docker_stats. generalize (output_lines 2000 output). intros items. revert l.
  induction items as [|line items IH]; intros l; [done|]. cbn [foldl]. rewrite IH. unfold merge_stats_line.
  repeat case_match; try done; by apply update_first_identity.
Qed.

Definition running_item (container : str) (item : DockerContainer) : bool :=
  (str_eqb (dc_id item) container || str_eqb (dc_name item) container) && str_eqb (dc_state item) (lit "running").

Lemma running_identity container l l' :
  map identity l = map identity l' -> existsb (running_item container) l = existsb (running_item container) l'.
Proof.
  revert l'. induction l as [|c l IH]; intros [|c' l'] [=]; [done|]. cbn. rewrite (IH l') by done.
  unfold running_item. congruence.
Qed.

Lemma docker_list_free past (Post : list (event unit RmQuery RmAnswer) -> list DockerContainer -> Prop) :
  (forall r stats containers listed,
     exited r -> mapM parse_docker_container (output_lines 2000 (re_stdout r)) = Ok containers ->
     map identity listed = map identity containers ->
     Post (past ++ [asked_exec (script DOCKER_LIST []) r; EvAsked (RmExec session_id (script DOCKER_STATS [])) stats])
       listed) ->
  free past (docker_list session_id) Post.
Proof.
  intros HP. unfold docker_list. bound. apply exec_free. intros r. bound. apply follows_lift. intros u Hu.
  bound. apply follows_lift. intros containers Hc. bound. split; [done|]. intros stats. rewrite <- app_assoc.
  apply (HP r stats containers); [|done|].
  - unfold ensure_supported, exited in *. destruct (N.eqb_spec (re_exit_code r) 0); [done|]. by destruct (_ =? 90)%N.
  - unfold when_ok. destruct stats as [x|e]; [|done]. destruct (_ =? 0)%N; [apply merge_identity|done].
Qed.

Lemma docker_restart_verified container :
  free [] (docker_restart session_id container) (fun past _ => verified_change (InvDockerRestart container) past).
Proof.
  unfold docker_restart, docker_action. guarded. lifted. bound. apply run_operation_free. intros r1 o Ho.
  destruct (or_success o); [cbn [negb]|done]. bound. apply docker_list_free. intros r2 stats containers l Hr2 Hc Hl.
  change (fun item => _ && _) with (running_item container). rewrite (running_identity _ _ _ Hl).
  destruct (existsb _ _) eqn:He; [cbn [negb]|done]. exists r1, r2, stats, containers. split_and!; auto.
  apply Existsb_exists in He as (item & Hin & Hr). unfold running_item in Hr. breflect. exists item. split; [done|].
  rewrite orb_true_iff, !str_eqb_eq in *. done.
Qed.

Lemma read_free past path (Post : list (event unit RmQuery RmAnswer) -> str * str -> Prop) :
  (forall r, Post (past ++ [asked_read path r]) r) -> free past (sftp_read_text session_id path) Post.
Proof. intros HP. split; [done|]. intros [r|e]; cbn; [apply HP|done]. Qed.

Lemma write_free past path content (Post : list (event unit RmQuery RmAnswer) -> str * N -> Prop) :
  (forall r, Post (past ++ [asked_write path content r]) r) -> free past (sftp_write_text session_id path content) Post.
Proof. intros HP. split; [done|]. intros [r|e]; cbn; [apply HP|done]. Qed.

Lemma file_patch_verified path expected replacement :
  free [] (file_patch session_id path expected replacement)
    (fun past _ => verified_change (InvFilePatch path expected replacement) past).
Proof.
  unfold file_patch. guarded. bound. apply read_free. intros [p0 current].
  destruct (Nat.eqb_spec (count_matches current expected) 1) as [Hc|]; [cbn [negb]|done].
  bound. apply write_free. intros [resolved bytes]. bound. apply read_free. intros [p1 verified].
  destruct (str_eqb verified _) eqn:Hv; [cbn [negb]|by bound; split].
  apply str_eqb_eq in Hv as ->. by exists p0, p1, resolved, current, bytes.
Qed.

(** A change that reports success has been verified, and did nothing else:
    a patch replaced the one place its text occurs and read the new text back;
    a unit was active after its command; nginx was reloaded between two
    successful tests of its configuration; a container was running after its
    restart.  These are all the calls of such a run. *)
Theorem change_success_is_verified i :
  free [] (run_invocation session_id i) (fun past _ => verified_change i past).
Proof.
  destruct i; try (eapply follows_mono; [apply free_any|done]); cbn [run_invocation]; unfold whole; bound;
    (eapply follows_mono; [|intros past d Hd; exact Hd]).
  - apply file_patch_verified.
  - apply service_change_verified.
  - apply service_change_verified.
  - apply nginx_reload_verified.
  - apply docker_restart_verified.
Qed.
End Verified.

(** ** A patch and its reverse

    A server that holds text files: a path is resolved, and reading and
    writing it act on the file it names. *)
Section Files.
Abbreviation files := (gmap str str).

Class TextServer (resolve : str -> str) (answer : files -> forall q, RmAnswer q * files) := {
  resolve_idem p : resolve (resolve p) = resolve p;
  reads_file m s p content : m !! resolve p = Some content ->
    answer m (RmReadText s p) = (Ok (resolve p, content), m);
  writes_file m s p old content : m !! resolve p = Some old ->
    answer m (RmWriteText s p content) = (Ok (resolve p, blen content), <[resolve p := content]> m);
}.

Context (resolve : str -> str) (answer : files -> forall q, RmAnswer q * files) `{!TextServer resolve answer}.
Context (save : files -> unit -> AppResult unit * files) (session_id : Uuid).

Definition patch_accepts (current expected replacement : str) : bool :=
  negb (is_empty expected || str_eqb expected replacement || (PATCH_LIMIT <? blen expected)%N
        || (PATCH_LIMIT <? blen replacement)%N)
  && (count_matches current expected =? 1)%nat.

Definition patched (m : files) (path expected replacement current : str) : option (AppResult FilePatchData) * files :=
  let updated := replace_first current expected replacement in
  if patch_accepts current expected replacement
  then (Some (Ok {| fp_path := resolve path; fp_bytes := blen updated; fp_verified := true |}),
        <[resolve path := updated]> m)
  else (Some (Err InvalidOperation), m).

Lemma file_patch_run m path expected replacement current log :
  m !! resolve path = Some current ->
  let '(r, _, m', _) := run answer save (file_patch session_id path expected replacement) tt m log in
  (r, m') = patched m path expected replacement current.
Proof.
  intros Hm. unfold file_patch, patched, patch_accepts. destruct (_ || _); [done|]. cbn [negb andb].
  unfold sftp_read_text. cbn. rewrite (reads_file m session_id path current Hm). cbn.
  destruct (count_matches current expected =? 1)%nat; [cbn|done].
  rewrite (writes_file m session_id path current _ Hm). cbn.
  rewrite (reads_file _ session_id (resolve path) (replace_first current expected replacement));
    [|rewrite resolve_idem; apply lookup_insert_eq].
  cbn. by rewrite str_eqb_refl.
Qed.

(** Where a text occurs. *)
Lemma split_once_str_app sep s a b : split_once_str sep s = Some (a, b) -> s = a ++ sep ++ b.
Proof.
  revert a. induction s as [|c s IH]; intros a; cbn.
  - destruct sep; [|done]. cbn. by intros [= <- <-].
  - destruct (starts_with (c :: s) sep) eqn:Hs.
    + intros [= <- <-]. apply starts_with_spec in Hs as [t Ht]. rewrite Ht. change (skipn (length sep) (sep ++ t)) with (drop (length sep) (sep ++ t)). by rewrite drop_app_length.
    + destruct (split_once_str sep s) as [[x y]|]; [|done]. intros [= <- <-]. cbn. f_equal. by apply IH.
Qed.

Lemma split_once_str_none sep s : split_once_str sep s = None -> forall a b, s <> a ++ sep ++ b.
Proof.
  induction s as [|c s IH]; cbn; intros Hn a b Hs.
  - symmetry in Hs. apply app_nil in Hs as [-> [-> ->]%app_nil]. done.
  - destruct (starts_with (c :: s) sep) eqn:Hst; [done|]. destruct (split_once_str sep s) as [[x y]|] eqn:E; [done|].
    destruct a as [|c' a].
    + cbn in Hs. rewrite Hs, starts_with_app in Hst. done.
    + injection Hs as <- Hs. by eapply IH.
Qed.

Lemma count_none needle s k : (forall a b, s <> a ++ needle ++ b) -> count_go needle k s = 0%nat.
Proof.
  revert k. induction s as [|c s IH]; intros k Hn; [done|].
  assert (Hs : forall a b, s <> a ++ needle ++ b) by (intros a b ->; by apply (Hn (c :: a) b)).
  cbn. destruct k; [|by apply IH]. destruct (starts_with (c :: s) needle) eqn:E; [|by apply IH].
  apply starts_with_spec in E as [t Ht]. by destruct (Hn [] t).
Qed.

(** The text occurs at one place of the result, counting places that overlap. *)
Definition occurs_only_at (needle a b : str) : Prop :=
  forall x y, a ++ needle ++ b = x ++ needle ++ y -> x = a.

Definition only_at (needle a b : str) : bool :=
  let s := a ++ needle ++ b in
  forallb (fun n => negb (starts_with (drop n s) needle) || (n =? length a)%nat) (seq 0 (S (length s))).

Lemma only_at_occurs needle a b : only_at needle a b = true -> occurs_only_at needle a b.
Proof.
  unfold only_at. rewrite Forallb_forall. intros Hall x y Hx. rewrite Hx in Hall.
  specialize (Hall (length x)). rewrite drop_app_length, starts_with_app in Hall.
  assert (Hl : length x = length a).
  { apply Nat.eqb_eq, Hall, elem_of_seq. rewrite length_app. lia. }
  apply (f_equal (take (length a))) in Hx. rewrite take_app_length in Hx.
  by rewrite <- Hl, take_app_length in Hx.
Qed.

Lemma count_skip needle k s : count_go needle k s = count_go needle 0 (skipn k s).
Proof. revert k. induction s as [|c s IH]; intros [|k]; [done..|]. cbn [count_go skipn]. apply IH. Qed.

Lemma count_once needle a b :
  needle <> [] -> occurs_only_at needle a b -> count_matches (a ++ needle ++ b) needle = 1%nat.
Proof.
  intros Hne Ho. unfold count_matches. destruct needle as [|n needle]; [done|]. clear Hne.
  induction a as [|c a IH].
  - change ([] ++ (n :: needle) ++ b) with ((n :: needle) ++ b).
    assert (Hs : starts_with ((n :: needle) ++ b) (n :: needle) = true) by apply starts_with_app.
    cbn [app count_go] in *. rewrite Hs. cbn [length].
    replace (S (length needle) - 1)%nat with (length needle) by lia.
    rewrite count_skip. change (skipn (length needle) (needle ++ b)) with (drop (length needle) (needle ++ b)).
    rewrite drop_app_length. f_equal. apply count_none. intros x y ->.
    specialize (Ho ((n :: needle) ++ x) y). rewrite <- app_assoc in Ho. by specialize (Ho eq_refl).
  - cbn [app count_go]. destruct (starts_with (c :: a ++ n :: needle ++ b) (n :: needle)) eqn:E.
    + apply starts_with_spec in E as [t Ht]. specialize (Ho [] t). cbn [app] in Ho. by specialize (Ho Ht).
    + apply IH. intros x y Hx. specialize (Ho (c :: x) y). cbn [app] in *. rewrite Hx in Ho.
      specialize (Ho eq_refl). congruence.
Qed.

Lemma split_once_only needle a b :
  occurs_only_at needle a b -> split_once_str needle (a ++ needle ++ b) = Some (a, b).
Proof.
  intros Ho. destruct (split_once_str needle (a ++ needle ++ b)) as [[x y]|] eqn:E.
  - apply split_once_str_app in E. assert (x = a) as -> by by eapply Ho.
    apply app_inv_head, app_inv_head in E. congruence.
  - exfalso. by eapply split_once_str_none.
Qed.

Definition patchable (expected replacement : str) : Prop :=
  expected <> [] /\ replacement <> [] /\ expected <> replacement /\
  (blen expected <= PATCH_LIMIT)%N /\ (blen replacement <= PATCH_LIMIT)%N.

Lemma patched_once m path expected replacement a b :
  patchable expected replacement -> occurs_only_at expected a b ->
  patched m path expected replacement (a ++ expected ++ b)
  = (Some (Ok {| fp_path := resolve path; fp_bytes := blen (a ++ replacement ++ b); fp_verified := true |}),
     <[resolve path := a ++ replacement ++ b]> m).
Proof.
  intros (He & _ & Hne & Hle & Hlr) Ho. unfold patched, patch_accepts, replace_first.
  rewrite count_once, split_once_only by done.
  rewrite (proj2 (is_empty_false expected) He). cbn [orb].
  destruct (str_eqb expected replacement) eqn:E; [by apply str_eqb_eq in E|].
  by rewrite (proj2 (N.ltb_ge _ _) Hle), (proj2 (N.ltb_ge _ _) Hlr).
Qed.

(** On a server that holds text files a patch does exactly what [patched]
    says: it replaces the one occurrence of its text, or changes nothing and is
    refused.  Where the new text occurs nowhere else in the result, not even
    across its edges, the reverse patch succeeds and restores every file. *)
Theorem file_patch_undone m path expected replacement a b :
  (forall current, m !! resolve path = Some current ->
     let '(r, _, m', _) := run answer save (file_patch session_id path expected replacement) tt m [] in
     (r, m') = patched m path expected replacement current) /\
  (m !! resolve path = Some (a ++ expected ++ b) -> patchable expected replacement ->
   occurs_only_at expected a b -> occurs_only_at replacement a b ->
   let '(_, _, m1, _) := run answer save (file_patch session_id path expected replacement) tt m [] in
   let '(r2, _, m2, _) := run answer save (file_patch session_id (resolve path) replacement expected) tt m1 [] in
   m1 = <[resolve path := a ++ replacement ++ b]> m /\ (exists d, r2 = Some (Ok d)) /\ m2 = m).
Proof.
  split; [intros current; apply file_patch_run|]. intros Hm Hp He Hr.
  pose proof (file_patch_run m path expected replacement _ [] Hm) as H1.
  destruct (run _ _ (file_patch _ path expected _) _ _ _) as [[[r1 s1] m1] l1].
  rewrite patched_once in H1 by done. injection H1 as _ ->.
  pose proof (file_patch_run (<[resolve path := a ++ replacement ++ b]> m) (resolve path) replacement expected
    (a ++ replacement ++ b) []) as H2. rewrite resolve_idem, lookup_insert_eq in H2. specialize (H2 eq_refl).
  destruct (run _ _ (file_patch _ (resolve path) _ _) _ _ _) as [[[r2 s2] m2] l2].
  rewrite patched_once in H2; [|unfold patchable in *; naive_solver|done].
  injection H2 as -> ->. split; [done|]. split; [eauto|]. by rewrite resolve_idem, insert_insert_eq, insert_id.
Qed.
End Files.

(** *** A concrete server *)
Definition plain_answer (m : gmap str str) (q : RmQuery) : RmAnswer q * gmap str str :=
  match q return RmAnswer q * gmap str str with
  | RmExec _ _ => (Err ExecFailed, m)
  | RmReadText _ p => (match m !! p with Some content => Ok (p, content) | None => Err SftpNotFound end, m)
  | RmWriteText _ p content => (Ok (p, blen content), <[p := content]> m)
  end.
Definition no_save (m : gmap str str) (_ : unit) : AppResult unit * gmap str str := (Ok tt, m).

#[export] Instance plain_server : TextServer (fun p => p) plain_answer.
Proof.
  split; [done| |done]. intros m s p content Hm. cbn. by rewrite Hm.
Qed.

Definition config_files : gmap str str := {[ lit "/etc/app.conf" := lit "port=80;" ]}.

Definition after_patches (m : gmap str str) (patches : list (string * string)) :
    option (AppResult FilePatchData) * option str :=
  foldl (fun acc p =>
    let '(_, m) := acc in
    let '(r, _, m', _) :=
      run plain_answer no_save (file_patch 1 (lit "/etc/app.conf") (lit (fst p)) (lit (snd p))) tt
        {[ lit "/etc/app.conf" := default [] m ]} [] in
    (r, m' !! lit "/etc/app.conf")) (None, m !! lit "/etc/app.conf") patches.

Lemma file_patch_undone_witness :
  let '(_, _, m1, _) := run plain_answer no_save (file_patch 1 (lit "/etc/app.conf") (lit "80") (lit "8080")) tt config_files [] in
  let '(r2, _, m2, _) := run plain_answer no_save (file_patch 1 (lit "/etc/app.conf") (lit "8080") (lit "80")) tt m1 [] in
  m1 = <[lit "/etc/app.conf" := lit "port=" ++ lit "8080" ++ lit ";"]> config_files /\ (exists d, r2 = Some (Ok d)) /\ m2 = config_files.
Proof.
  pose proof (proj2 (file_patch_undone (fun p => p) plain_answer no_save 1 config_files (lit "/etc/app.conf")
    (lit "80") (lit "8080") (lit "port=") (lit ";"))) as H.
  apply H.
  - by vm_compute.
  - unfold patchable. split_and!; vm_compute; congruence.
  - apply only_at_occurs. by vm_compute.
  - apply only_at_occurs. by vm_compute.
Defined.

(** A patch that removes its text cannot be reversed. *)
Example removal_is_not_undone :
  after_patches {[ lit "/etc/app.conf" := lit "aXb" ]} [("X", "")]%string = (Some (Ok {| fp_path := lit "/etc/app.conf"; fp_bytes := 2; fp_verified := true |}), Some (lit "ab")) /\
  after_patches {[ lit "/etc/app.conf" := lit "ab" ]} [("", "X")]%string = (Some (Err InvalidOperation), Some (lit "ab")).
Proof. by vm_compute. Qed.

(** Overlapping places are counted once: the reverse of this patch succeeds and
    leaves another text. *)
Example overlap_is_not_undone :
  after_patches {[ lit "/etc/app.conf" := lit "aX" ]} [("X", "aa"); ("aa", "X")]%string
  = (Some (Ok {| fp_path := lit "/etc/app.conf"; fp_bytes := 2; fp_verified := true |}), Some (lit "Xa")).
Proof. by vm_compute. Qed.

(** ** What a tool reads *)
Lemma rsplit_marker_none (marker b : str) :
  (2 <= length marker)%nat -> 10%N ∉ b -> rsplit_once_str (10%N :: marker) (b ++ [10%N]) = None.
Proof.
  intros Hm. induction b as [|c b IH]; intros Hb.
  - destruct marker as [|x [|y marker]]; cbn in Hm; [lia..|]. by cbn.
  - apply not_elem_of_cons in Hb as [Hc Hb]. cbn [app rsplit_once_str]. rewrite IH by done.
    destruct (starts_with _ _) eqn:E; [|done]. apply starts_with_spec in E as [t [= -> _]]. done.
Qed.

Lemma rsplit_marker (marker a b : str) :
  (2 <= length marker)%nat -> 10%N ∉ marker -> 10%N ∉ b ->
  rsplit_once_str (10%N :: marker) (a ++ (10%N :: marker) ++ b ++ [10%N]) = Some (a, b ++ [10%N]).
Proof.
  intros Hm Hn Hb. induction a as [|c a IH].
  - cbn [app rsplit_once_str]. rewrite app_assoc, rsplit_marker_none; [|done|set_solver].
    rewrite <- app_assoc. change (10%N :: marker ++ b ++ [10%N]) with ((10%N :: marker) ++ b ++ [10%N]).
    rewrite starts_with_app. f_equal. f_equal.
    change (drop (length (10%N :: marker)) ((10%N :: marker) ++ b ++ [10%N]) = b ++ [10%N]). by rewrite drop_app_length.
  - cbn [app] in *. cbn [rsplit_once_str]. by rewrite IH.
Qed.

(** What curl writes after a body. *)
Definition curl_output (body status content_type size : str) : str :=
  body ++ HTTP_META_MARKER ++ (status ++ 9%N :: content_type ++ 9%N :: size) ++ [10%N].

Lemma trim_end_newline s c : is_whitespace c = false -> trim_end ((s ++ [c]) ++ [10%N]) = s ++ [c].
Proof.
  intros Hc. unfold trim_end, trim_end_matches. rewrite !rev_app_distr. cbn. rewrite Hc. cbn.
  by rewrite rev_involutive.
Qed.

Lemma take_bytes_all max s : (blen s <= max)%N -> take_bytes max s = s.
Proof.
  revert max. induction s as [|c s IH]; intros max Hb; [done|]. cbn in *.
  pose proof (utf8_len_pos c). rewrite (proj2 (N.leb_le _ _)) by lia. by rewrite IH by lia.
Qed.

Lemma truncate_exact s max : truncate_utf8 s max = (take_bytes max s, (max <? blen s)%N).
Proof.
  unfold truncate_utf8. destruct (N.leb_spec (blen s) max) as [Hl|Hl].
  - rewrite take_bytes_all by done. by rewrite (proj2 (N.ltb_ge _ _) Hl).
  - by rewrite (proj2 (N.ltb_lt _ _) Hl).
Qed.

Lemma digits_have s x : all_digits s = true -> is_ascii_digit x = false -> x ∉ s.
Proof.
  unfold all_digits. intros [_ Hd]%andb_prop Hx Hin. rewrite Forallb_forall in Hd. apply Hd in Hin. congruence.
Qed.

Lemma trim_end_fields a size : all_digits size = true -> trim_end ((a ++ size) ++ [10%N]) = a ++ size.
Proof.
  intros Hd. destruct size as [|c size _] using rev_ind; [done|].
  rewrite app_assoc. apply trim_end_newline. unfold all_digits in Hd. apply andb_prop in Hd as [_ Hd].
  rewrite forallb_app in Hd. apply andb_prop in Hd as [_ Hd]. cbn in Hd. rewrite andb_true_r in Hd.
  apply is_ascii_digit_spec in Hd. unfold is_whitespace, between.
  rewrite !(proj2 (N.eqb_neq c _)) by lia. rewrite (proj2 (N.leb_gt c 13)), (proj2 (N.leb_gt 8192 c)) by lia.
  by rewrite andb_false_r.
Qed.

(** The body of a response is remote text and may hold anything, the marker
    itself included; the status, the type and the size that are read are the
    ones curl wrote after it, and the preview is at most 64 KiB of the body. *)
Theorem http_body_forges_nothing body status content_type size code v :
  (10%N ∉ content_type) /\ (9%N ∉ content_type) -> (blen (trim content_type) <= 512)%N ->
  all_digits status = true -> all_digits size = true ->
  parse_u16 status = Some code -> (100 <= code <= 599)%N ->
  parse_f64 size = Some v -> f64_is_finite v = true -> f64_ltb v (S754_zero false) = false ->
  let value := trim content_type in
  parse_http_response (curl_output body status content_type size) =
  Ok ({| hr_status_code := code; hr_content_type := if is_empty value then None else Some value;
         hr_body_preview := take_bytes MAX_BODY_PREVIEW_BYTES body; hr_body_bytes := f64_as_u64 v |},
      (MAX_BODY_PREVIEW_BYTES <? blen body)%N || (MAX_BODY_PREVIEW_BYTES <? f64_as_u64 v)%N).
Proof.
  intros [Hc10 Hc9] Hct Hs Hz Hcode Hrange Hv Hf Hp value.
  unfold parse_http_response, curl_output.
  assert (Hmarker : HTTP_META_MARKER = 10%N :: (lit "RUNORY_HTTP_META" ++ [9%N])) by done.
  rewrite Hmarker, rsplit_marker; [|by vm_compute; lia|vm_compute; set_solver|].
  2: { pose proof (digits_have status 10%N Hs eq_refl). pose proof (digits_have size 10%N Hz eq_refl).
       rewrite elem_of_app, elem_of_cons, elem_of_app, elem_of_cons. intros [?|[?|[?|[?|?]]]]; done. }
  cbn [ok_or mbind result_bind]. cbn beta iota.
  change (status ++ 9%N :: content_type ++ 9%N :: size) with (status ++ [9%N] ++ content_type ++ [9%N] ++ size).
  rewrite !(app_assoc _ _ size), trim_end_fields by done. rewrite <- !app_assoc. cbn [app].
  rewrite split_digits by done. rewrite split_sep; [|intros x Hx; apply N.eqb_neq; congruence|done].
  rewrite split_all_digits by done. rewrite Hcode. cbn [opt_filter].
  rewrite (proj2 (N.leb_le 100 code)), (proj2 (N.leb_le code 599)) by lia. cbn [andb ok_or]. cbn -[value].
  fold value. fold value in Hct. rewrite (proj2 (N.leb_le _ _) Hct), Hv.
  assert (Hopt : opt_filter (fun v0 => f64_is_finite v0 && negb (f64_ltb v0 (S754_zero false))) (Some v) = Some v)
    by (cbn; by rewrite Hf, Hp).
  rewrite Hopt, truncate_exact. by destruct (is_empty value).
Qed.

Lemma bounded_entries_spec requested entries bytes truncated items out t :
  bounded_entries requested entries bytes truncated items = (out, t) ->
  (length entries <= requested)%nat -> (bytes <= MAX_LOG_RESULT_BYTES)%N ->
  exists more,
    out = entries ++ more /\ (length out <= requested)%nat /\
    (bytes + sumN (map blen more) <= MAX_LOG_RESULT_BYTES)%N /\
    Forall (fun e => blen e <= MAX_LOG_ENTRY_BYTES)%N more /\
    Forall2 (fun e l => e `prefix_of` l) more (take (length more) items) /\
    (t = false -> truncated = false /\ more = items).
Proof.
  revert entries bytes truncated. induction items as [|line items IH]; intros entries bytes truncated; cbn [bounded_entries].
  - intros [= <- <-] Hl Hb. exists []. rewrite app_nil_r. cbn. split_and!; try done; try (by constructor); lia.
  - destruct (Nat.leb_spec requested (length entries)) as [Hr|Hr]; cbn [orb].
    { intros [= <- <-] Hl Hb. exists []. rewrite app_nil_r. cbn. split_and!; try done; try (by constructor); lia. }
    destruct (N.leb_spec MAX_LOG_RESULT_BYTES bytes) as [Hm|Hm].
    { intros [= <- <-] Hl Hb. exists []. rewrite app_nil_r. cbn. split_and!; try done; try (by constructor); lia. }
    rewrite truncate_exact. set (e1 := take_bytes MAX_LOG_ENTRY_BYTES line). cbv beta iota.
    rewrite truncate_exact. cbv beta iota. set (e2 := take_bytes (MAX_LOG_RESULT_BYTES - bytes) e1).
    pose proof (take_bytes_le MAX_LOG_ENTRY_BYTES line) as H1. fold e1 in H1.
    pose proof (take_bytes_le (MAX_LOG_RESULT_BYTES - bytes) e1) as H2. fold e2 in H2.
    pose proof (take_bytes_prefix MAX_LOG_ENTRY_BYTES line) as P1. fold e1 in P1.
    pose proof (take_bytes_prefix (MAX_LOG_RESULT_BYTES - bytes) e1) as P2. fold e2 in P2.
    assert (H3 : (blen e2 <= blen e1)%N) by (destruct P2 as [k Hk]; rewrite Hk, blen_app; lia).
    intros Hgo Hl Hb. apply IH in Hgo as (more & -> & Hn & Hs & Hf & Hk & Ht);
      [|rewrite length_app; cbn; lia|lia].
    exists (e2 :: more). rewrite <- app_assoc in *. cbn [app] in *. split_and!; [done|done| | | |].
    + cbn [map]. unfold sumN in *. cbn. lia.
    + constructor; [lia|done].
    + cbn. constructor; [by etrans|done].
    + intros Hfalse. destruct (Ht Hfalse) as [Hcut ->].
      apply orb_false_iff in Hcut as [-> [Hc1%N.ltb_ge Hc2%N.ltb_ge]%orb_false_iff]. split; [done|].
      assert (He1 : e1 = line) by (by apply take_bytes_all). assert (He2 : e2 = e1) by (by apply take_bytes_all).
      by rewrite He2, He1.
Qed.

(** What is kept of a unit's log: at most the lines asked for, 8 KiB of each
    and 256 KiB in all, in order from the first, each entry the beginning of
    its line; and when it is not reported as truncated it is the whole output. *)
Theorem log_entries_exact output requested :
  let '(entries, truncated) := bounded_log_entries output requested in
  (length entries <= requested)%nat /\ (sumN (map blen entries) <= MAX_LOG_RESULT_BYTES)%N /\
  Forall (fun e => blen e <= MAX_LOG_ENTRY_BYTES)%N entries /\
  Forall2 (fun e l => e `prefix_of` l) entries (take (length entries) (lines output)) /\
  (truncated = false -> entries = lines output).
Proof.
  unfold bounded_log_entries. destruct (bounded_entries _ _ _ _ _) as [entries truncated] eqn:E.
  apply bounded_entries_spec in E as (more & -> & H1 & H2 & H3 & H4 & H5); [|cbn; lia|done].
  cbn [app] in *. split_and!; try done. intros Ht. by apply H5.
Qed.

Lemma log_entries_exact_witness :
  fst (bounded_log_entries (lit "a
b
") 20) = lines (lit "a
b
").
Proof.
  pose proof (log_entries_exact (lit "a
b
") 20) as H. destruct (bounded_log_entries _ _) as [entries truncated] eqn:E.
  apply H. vm_compute in E. congruence.
Defined.

Lemma http_body_forges_nothing_witness :
  parse_http_response (curl_output (lit "x" ++ HTTP_META_MARKER ++ lit "500") (lit "204") (lit "text/plain") (lit "14"))
  = Ok ({| hr_status_code := 204; hr_content_type := Some (lit "text/plain");
           hr_body_preview := lit "x" ++ HTTP_META_MARKER ++ lit "500"; hr_body_bytes := 14 |}, false).
Proof.
  rewrite (http_body_forges_nothing _ (lit "204") (lit "text/plain") (lit "14") 204 (S754_finite false 7881299347898368 (-49)));
    [by vm_compute|..]; try (by vm_compute).
  vm_compute. set_solver.
Defined.
