(* ===== verification/Transfers.v ===== *)
(** * The transfer queue (transfers/queue.rs, grants.rs, history.rs)

    Jobs behind one lock, tasks that wait for one of two permits, and updates
    that are sent to subscribers after the lock is released.  A task or a call
    is a [thread], the point it has reached; [thread_step] is what it does
    next, and [queue_step] lets any number of them interleave.  The copying of
    one file is in [TransferFiles]. *)
From S2P Require Import Prelude Str Errors RunState.

(** ** Data *)
Inductive TransferDirection := TransferUpload | TransferDownload.
Inductive TransferState := TransferQueued | TransferRunning | TransferCompleted | TransferFailed_ | TransferCancelled_.
#[export] Instance transfer_state_eq_dec : EqDecision TransferState.
Proof. solve_decision. Defined.

Record TransferJob := {
  tj_id : Uuid;
  tj_session_id : Uuid;
  tj_direction : TransferDirection;
  tj_name : str;
  tj_remote_path : str;
  tj_total_bytes : N;
  tj_transferred_bytes : N;
  tj_state : TransferState;
  tj_error_code : option str;
}.

Inductive TransferSpec :=
  | SpecUpload (local_path remote_path : str) (overwrite : bool)
  | SpecDownload (remote_path local_path : str).

(** The flag [Arc<AtomicBool>] is an index into the flags of the queue. *)
Record TransferRecord := { rec_job : TransferJob; rec_spec : TransferSpec; rec_cancelled : nat }.

Definition TRANSFER_CONCURRENCY : nat := 2.

Record queue := {
  q_records : gmap Uuid TransferRecord;
  q_flags : list bool;
  q_permits : nat;
  q_subscribers : list (Uuid * N);          (* session, channel *)
  q_sent : list (N * TransferJob);          (* what each channel was sent, in order *)
}.

Definition queue_new : queue :=
  {| q_records := ∅; q_flags := []; q_permits := TRANSFER_CONCURRENCY; q_subscribers := []; q_sent := [] |}.

Definition set_records (q : queue) (records : gmap Uuid TransferRecord) : queue :=
  {| q_records := records; q_flags := q_flags q; q_permits := q_permits q;
     q_subscribers := q_subscribers q; q_sent := q_sent q |}.
Definition set_flags (q : queue) (flags : list bool) : queue :=
  {| q_records := q_records q; q_flags := flags; q_permits := q_permits q;
     q_subscribers := q_subscribers q; q_sent := q_sent q |}.
Definition set_permits (q : queue) (permits : nat) : queue :=
  {| q_records := q_records q; q_flags := q_flags q; q_permits := permits;
     q_subscribers := q_subscribers q; q_sent := q_sent q |}.

Definition put_record (q : queue) (id : Uuid) (r : TransferRecord) : queue :=
  set_records q (<[id := r]> (q_records q)).
Definition flag (q : queue) (f : nat) : bool := default false (q_flags q !! f).
Definition raise (q : queue) (f : nat) : queue := set_flags q (<[f := true]> (q_flags q)).

Definition job_with (j : TransferJob) (transferred : N) (state : TransferState) (error : option str) : TransferJob :=
  {| tj_id := tj_id j; tj_session_id := tj_session_id j; tj_direction := tj_direction j; tj_name := tj_name j;
     tj_remote_path := tj_remote_path j; tj_total_bytes := tj_total_bytes j;
     tj_transferred_bytes := transferred; tj_state := state; tj_error_code := error |}.
Definition job_state (j : TransferJob) (s : TransferState) : TransferJob :=
  job_with j (tj_transferred_bytes j) s (tj_error_code j).
Definition with_job (r : TransferRecord) (j : TransferJob) : TransferRecord :=
  {| rec_job := j; rec_spec := rec_spec r; rec_cancelled := rec_cancelled r |}.

Definition unsettled (s : TransferState) : bool :=
  match s with TransferQueued | TransferRunning => true | _ => false end.
Definition retriable (s : TransferState) : bool :=
  match s with TransferFailed_ | TransferCancelled_ => true | _ => false end.

(** ** The sections under the lock of the records *)

(** [cancel]: the flag is raised; a queued job is settled here, a running one by
    its task. *)
Definition cancel (q : queue) (id : Uuid) : AppResult (queue * list TransferJob) :=
  match q_records q !! id with
  | None => Err TransferNotFound
  | Some r =>
      let j := rec_job r in
      if negb (unsettled (tj_state j)) then Err TransferStateInvalid
      else
        let q := raise q (rec_cancelled r) in
        if bool_decide (tj_state j = TransferQueued) then
          let j := job_state j TransferCancelled_ in Ok (put_record q id (with_job r j), [j])
        else Ok (q, [])
  end.

(** [retry]: a new flag, so that a raised one of the past is not seen again. *)
Definition retry (q : queue) (id : Uuid) (overwrite : bool) : AppResult (queue * TransferJob) :=
  match q_records q !! id with
  | None => Err TransferNotFound
  | Some r =>
      let j := rec_job r in
      if negb (retriable (tj_state j)) then Err TransferStateInvalid
      else
        let spec := match rec_spec r with
                    | SpecUpload l p _ => SpecUpload l p overwrite
                    | SpecDownload p l => SpecDownload p l
                    end in
        let j := job_with j 0 TransferQueued None in
        let q' := set_flags q (q_flags q ++ [false]) in
        Ok (put_record q' id {| rec_job := j; rec_spec := spec; rec_cancelled := length (q_flags q) |}, j)
  end.

(** [cancel_session]: [order] is the order of the map's values. *)
Definition cancel_in_session (session_id : Uuid) (acc : queue * list TransferJob) (id : Uuid) : queue * list TransferJob :=
  let '(q, changed) := acc in
  match q_records q !! id with
  | None => acc
  | Some r =>
      let j := rec_job r in
      if bool_decide (tj_session_id j = session_id) && unsettled (tj_state j) then
        let q := raise q (rec_cancelled r) in
        if bool_decide (tj_state j = TransferQueued) then
          let j := job_state j TransferCancelled_ in (put_record q id (with_job r j), changed ++ [j])
        else (q, changed)
      else acc
  end.
Definition cancel_session (q : queue) (session_id : Uuid) (order : list Uuid) : queue * list TransferJob :=
  foldl (cancel_in_session session_id) (q, []) order.

Definition insert_record (q : queue) (job : TransferJob) (spec : TransferSpec) : queue :=
  let q' := set_flags q (q_flags q ++ [false]) in
  put_record q' (tj_id job) {| rec_job := job; rec_spec := spec; rec_cancelled := length (q_flags q) |}.

(** The claim of a task: the job is taken from [Queued] to [Running], once. *)
Definition claim (q : queue) (id : Uuid) : option (queue * TransferJob * TransferSpec * nat) :=
  match q_records q !! id with
  | None => None
  | Some r =>
      if flag q (rec_cancelled r) || negb (bool_decide (tj_state (rec_job r) = TransferQueued)) then None
      else
        let j := job_state (rec_job r) TransferRunning in
        Some (put_record q id (with_job r j), j, rec_spec r, rec_cancelled r)
  end.

Definition add_progress (q : queue) (id : Uuid) (bytes : N) : option (queue * TransferJob) :=
  match q_records q !! id with
  | None => None
  | Some r =>
      let j := rec_job r in
      let j := job_with j (N.min (sat_add U64_MAX (tj_transferred_bytes j) bytes) (tj_total_bytes j))
                 (tj_state j) (tj_error_code j) in
      Some (put_record q id (with_job r j), j)
  end.

(** The end of a task. *)
Definition settle (q : queue) (id : Uuid) (result : AppResult unit) : option (queue * TransferJob) :=
  match q_records q !! id with
  | None => None
  | Some r =>
      let j := rec_job r in
      let j := match result with
               | Ok _ => job_with j (tj_total_bytes j) TransferCompleted None
               | Err e =>
                   let s := if bool_decide (e = TransferCancelled) || flag q (rec_cancelled r)
                            then TransferCancelled_ else TransferFailed_ in
                   job_with j (tj_transferred_bytes j) s (Some (error_code e))
               end in
      Some (put_record q id (with_job r j), j)
  end.

Definition list_jobs (q : queue) : list TransferJob :=
  sort_by_key tj_id (map (fun kv => rec_job (snd kv)) (map_to_list (q_records q))).
Definition list_for_session (q : queue) (session_id : Uuid) : list TransferJob :=
  List.filter (fun j => bool_decide (tj_session_id j = session_id)) (list_jobs q).

(** ** Subscribers *)
Section Queue.

(** [channel.send(..).is_ok()]. *)
Context (reaches : N -> TransferJob -> bool).

Definition send (q : queue) (channel : N) (job : TransferJob) : queue :=
  if reaches channel job
  then {| q_records := q_records q; q_flags := q_flags q; q_permits := q_permits q;
          q_subscribers := q_subscribers q; q_sent := q_sent q ++ [(channel, job)] |}
  else q.

Definition keeps (job : TransferJob) (subscriber : Uuid * N) : bool :=
  negb (bool_decide (fst subscriber = tj_session_id job)) || reaches (snd subscriber) job.

Definition broadcast (q : queue) (job : TransferJob) : queue :=
  let listening := List.filter (fun s => bool_decide (fst s = tj_session_id job)) (q_subscribers q) in
  let q' := foldl (fun q s => send q (snd s) job) q listening in
  {| q_records := q_records q'; q_flags := q_flags q'; q_permits := q_permits q';
     q_subscribers := List.filter (keeps job) (q_subscribers q); q_sent := q_sent q' |}.

(** ** Threads *)
Inductive phase :=
  | RunStart                                                     (* waits for a permit *)
  | RunClaim                                                     (* holds one *)
  | RunAnnounce (job : TransferJob) (spec : TransferSpec) (cancelled : nat)
  | RunTransfer (spec : TransferSpec) (cancelled : nat)
  | RunProgress (job : TransferJob) (spec : TransferSpec) (cancelled : nat)
  | RunEnded (cancelled : nat) (result : AppResult unit)         (* the permit is dropped *)
  | RunSettled (job : TransferJob).

Inductive thread :=
  | TInsert (job : TransferJob) (spec : TransferSpec)
  | TCancel (id : Uuid)
  | TRetry (id : Uuid) (overwrite : bool)
  | TCancelSession (session_id : Uuid)
  | TSubscribe (session_id : Uuid) (channel : N)
  | TReplay (session_id : Uuid) (channel : N) (jobs : list TransferJob)
  | TBroadcast (jobs : list TransferJob) (next : option Uuid)    (* then spawns the task *)
  | TRun (id : Uuid) (p : phase).

(** What a transfer reports next: bytes copied, or its end. *)
Inductive report := Copied (bytes : N) | Ended (result : AppResult unit).

Definition after_broadcast (next : option Uuid) : list thread :=
  match next with Some id => [TRun id RunStart] | None => [] end.

(** The step of one thread: the queue, and the threads that take its place.
    [None] where it has to wait. *)
Definition run_step (r : report) (q : queue) (id : Uuid) (p : phase) : option (queue * list thread) :=
  match p with
  | RunStart =>
      match q_permits q with
      | O => None
      | S n => Some (set_permits q n, [TRun id RunClaim])
      end
  | RunClaim =>
      match claim q id with
      | None => Some (set_permits q (S (q_permits q)), [])
      | Some (q', job, spec, cancelled) => Some (q', [TRun id (RunAnnounce job spec cancelled)])
      end
  | RunAnnounce job spec cancelled => Some (broadcast q job, [TRun id (RunTransfer spec cancelled)])
  | RunTransfer spec cancelled =>
      match r with
      | Copied bytes =>
          match add_progress q id bytes with
          | None => Some (q, [TRun id (RunTransfer spec cancelled)])
          | Some (q', job) => Some (q', [TRun id (RunProgress job spec cancelled)])
          end
      | Ended result => Some (set_permits q (S (q_permits q)), [TRun id (RunEnded cancelled result)])
      end
  | RunProgress job spec cancelled => Some (broadcast q job, [TRun id (RunTransfer spec cancelled)])
  | RunEnded cancelled result =>
      match settle q id result with
      | None => Some (q, [])
      | Some (q', job) => Some (q', [TRun id (RunSettled job)])
      end
  | RunSettled job => Some (broadcast q job, [])
  end.

Definition thread_step (r : report) (order : list Uuid) (q : queue) (t : thread) : option (queue * list thread) :=
  match t with
  | TInsert job spec => Some (insert_record q job spec, [TBroadcast [job] (Some (tj_id job))])
  | TCancel id =>
      match cancel q id with Err _ => Some (q, []) | Ok (q', jobs) => Some (q', [TBroadcast jobs None]) end
  | TRetry id overwrite =>
      match retry q id overwrite with
      | Err _ => Some (q, [])
      | Ok (q', job) => Some (q', [TBroadcast [job] (Some id)])
      end
  | TCancelSession session_id =>
      let '(q', jobs) := cancel_session q session_id order in Some (q', [TBroadcast jobs None])
  | TSubscribe session_id channel => Some (q, [TReplay session_id channel (list_for_session q session_id)])
  | TReplay session_id channel (job :: rest) => Some (send q channel job, [TReplay session_id channel rest])
  | TReplay session_id channel [] =>
      Some ({| q_records := q_records q; q_flags := q_flags q; q_permits := q_permits q;
               q_subscribers := q_subscribers q ++ [(session_id, channel)]; q_sent := q_sent q |}, [])
  | TBroadcast (job :: rest) next => Some (broadcast q job, [TBroadcast rest next])
  | TBroadcast [] next => Some (q, after_broadcast next)
  | TRun id p => run_step r q id p
  end.

(** ** Interleaving *)
Definition system : Type := queue * list thread.

Definition advance_at (i : nat) (r : report) (order : list Uuid) (s : system) : option system :=
  let '(q, threads) := s in
  t ← threads !! i;
  '(q', next) ← thread_step r order q t;
  Some (q', take i threads ++ next ++ drop (S i) threads).

(** A call may be made at any time; a new job has an identifier that no job and
    no call has ([Uuid::new_v4]), and starts queued at zero; its size is a [u64]. *)
Definition inserts (id : Uuid) (t : thread) : bool :=
  match t with TInsert job _ => bool_decide (tj_id job = id) | _ => false end.

Definition admitted (s : system) (t : thread) : Prop :=
  match t with
  | TInsert job _ =>
      q_records (fst s) !! tj_id job = None /\ existsb (inserts (tj_id job)) (snd s) = false /\
      tj_state job = TransferQueued /\ tj_transferred_bytes job = 0%N /\ tj_error_code job = None /\
      (tj_total_bytes job <= U64_MAX)%N
  | TCancel _ | TRetry _ _ | TCancelSession _ | TSubscribe _ _ => True
  | TReplay _ _ _ | TBroadcast _ _ | TRun _ _ => False
  end.

(** One thread advances; a map's values come in some order of its keys. *)
Definition advances (allowed : report -> Prop) (s s' : system) : Prop :=
  exists i r order, allowed r /\ order ≡ₚ map fst (map_to_list (q_records (fst s))) /\ advance_at i r order s = Some s'.

Inductive queue_step (s : system) : system -> Prop :=
  | step_call t : admitted s t -> queue_step s (fst s, snd s ++ [t])
  | step_advance s' : advances (fun _ => True) s s' -> queue_step s s'.

Definition system_init : system := (queue_new, []).
End Queue.
