(* ===== verification/TransfersTheorems.v ===== *)
(** * What holds of the transfer queue in every interleaving

    At most two transfers at a time, at most one of a job, each under the flag
    that cancels it; a job moves along its table; no system of threads is
    stuck, and when none is left every job is settled. *)
From S2P Require Import Prelude Str Errors RunState Transfers.

(** ** Counting threads *)
Definition count (f : thread -> bool) (l : list thread) : nat := length (List.filter f l).

Lemma count_app f a b : count f (a ++ b) = (count f a + count f b)%nat.
Proof. unfold count. by rewrite List.filter_app, length_app. Qed.

Lemma count_cons f t l : count f (t :: l) = ((if f t then 1 else 0) + count f l)%nat.
Proof. unfold count. cbn. by destruct (f t). Qed.

Lemma count_nil f : count f [] = 0%nat.
Proof. done. Qed.

Lemma count_single f t : count f [t] = (if f t then 1 else 0)%nat.
Proof. rewrite count_cons, count_nil. by destruct (f t). Qed.

#[local] Arguments count : simpl never.

Lemma count_pos f t l : t ∈ l -> f t = true -> (1 <= count f l)%nat.
Proof.
  intros Ht Hf. unfold count. assert (t ∈ List.filter f l) as Hin by by apply elem_of_filterb.
  destruct (List.filter f l); [by apply not_elem_of_nil in Hin|cbn; lia].
Qed.

Lemma count_zero f l : (forall t, t ∈ l -> f t = false) -> count f l = 0%nat.
Proof.
  intros Hf. induction l as [|t l IH]; [done|]. rewrite count_cons, Hf by set_solver.
  apply IH. set_solver.
Qed.

(** A thread replaced by what it becomes. *)
Definition replaced (i : nat) (next l : list thread) : list thread := take i l ++ next ++ drop (S i) l.

Lemma count_replaced f i t next l :
  l !! i = Some t -> (count f (replaced i next l) + (if f t then 1 else 0) = count f l + count f next)%nat.
Proof.
  intros Hi. pose proof (take_drop_middle l i t Hi) as Hl. unfold replaced.
  rewrite <- Hl at 3. rewrite !count_app, count_cons. lia.
Qed.

Lemma elem_of_replaced i next l t' : t' ∈ replaced i next l -> t' ∈ next \/ t' ∈ l.
Proof.
  unfold replaced. rewrite !elem_of_app. intros [H|[H|H]]; [right|by left|right].
  - rewrite <- (take_drop i l). set_solver.
  - rewrite <- (take_drop (S i) l). set_solver.
Qed.

(** ** The invariant *)
Definition holds_permit (t : thread) : bool :=
  match t with
  | TRun _ (RunClaim | RunAnnounce _ _ _ | RunTransfer _ _ | RunProgress _ _ _) => true
  | _ => false
  end.

(** The job a thread is transferring, from its claim until it is settled, and the
    flag that cancels it. *)
Definition transferring (t : thread) : option (Uuid * nat) :=
  match t with
  | TRun id (RunAnnounce _ _ f | RunTransfer _ f | RunProgress _ _ f | RunEnded f _) => Some (id, f)
  | _ => None
  end.
Definition transfers (id : Uuid) (t : thread) : bool :=
  match transferring t with Some (id', _) => bool_decide (id' = id) | None => false end.

(** The thread will claim the job, or spawns the task that will. *)
Definition will_claim (id : Uuid) (t : thread) : bool :=
  match t with
  | TRun id' (RunStart | RunClaim) => bool_decide (id' = id)
  | TBroadcast _ (Some id') => bool_decide (id' = id)
  | _ => false
  end.

Definition running (q : queue) (id : Uuid) : nat :=
  match q_records q !! id with
  | Some r => if bool_decide (tj_state (rec_job r) = TransferRunning) then 1 else 0
  | None => 0
  end.

Record queue_inv (q : queue) (l : list thread) : Prop := {
  inv_permits : (q_permits q + count holds_permit l)%nat = TRANSFER_CONCURRENCY;
  inv_running id : count (transfers id) l = running q id;
  inv_flag t id f : t ∈ l -> transferring t = Some (id, f) ->
    exists r, q_records q !! id = Some r /\ rec_cancelled r = f;
  inv_key id r : q_records q !! id = Some r -> tj_id (rec_job r) = id;
  inv_bytes id r : q_records q !! id = Some r ->
    (tj_transferred_bytes (rec_job r) <= tj_total_bytes (rec_job r) <= U64_MAX)%N;
  inv_flags id r : q_records q !! id = Some r -> (rec_cancelled r < length (q_flags q))%nat;
  inv_distinct id id' r r' : q_records q !! id = Some r -> q_records q !! id' = Some r' ->
    rec_cancelled r = rec_cancelled r' -> id = id';
  inv_queued id r : q_records q !! id = Some r -> tj_state (rec_job r) = TransferQueued ->
    flag q (rec_cancelled r) = false /\ (1 <= count (will_claim id) l)%nat;
  inv_insert id : (count (inserts id) l <= 1)%nat /\
    (count (inserts id) l = 1%nat -> q_records q !! id = None);
  inv_new job spec : TInsert job spec ∈ l ->
    tj_state job = TransferQueued /\ tj_transferred_bytes job = 0%N /\ (tj_total_bytes job <= U64_MAX)%N;
}.

Lemma init_inv : queue_inv queue_new [].
Proof.
  split; try (intros *; cbn; rewrite ?lookup_empty; done).
  - intros t id f Ht. by apply not_elem_of_nil in Ht.
  - intros id. change (count (inserts id) []) with 0%nat. split; [lia|done].
  - intros job spec Ht. by apply not_elem_of_nil in Ht.
Qed.

(** Nothing of the invariant speaks of such a thread. *)
Definition neutral (t : thread) : bool :=
  match t with
  | TCancel _ | TRetry _ _ | TCancelSession _ | TSubscribe _ _ | TReplay _ _ _ | TBroadcast _ None
  | TRun _ (RunSettled _) => true
  | _ => false
  end.

Lemma neutral_counts t : neutral t = true ->
  holds_permit t = false /\ transferring t = None /\ (forall id, transfers id t = false) /\
  (forall id, will_claim id t = false) /\ (forall id, inserts id t = false).
Proof. destruct t as [| | | | | |jobs [next|]|id []]; try done; by split_and!. Qed.

Lemma neutral_zero f l :
  (forall t, neutral t = true -> f t = false) -> forallb neutral l = true -> count f l = 0%nat.
Proof. intros Hf Hl. apply count_zero. intros t Ht. apply Hf. rewrite Forallb_forall in Hl. by apply Hl. Qed.

(** *** The steps that leave the records alone *)
Lemma same_records q q' l : q_records q' = q_records q -> q_flags q' = q_flags q -> q_permits q' = q_permits q ->
  queue_inv q l -> queue_inv q' l.
Proof.
  intros Hr Hf Hp []. split; unfold running, flag in *; rewrite ?Hr, ?Hf, ?Hp; try done.
Qed.

(** Replacing neutral threads by neutral threads. *)
Lemma neutral_step q i t next l :
  queue_inv q l -> l !! i = Some t -> neutral t = true -> forallb neutral next = true ->
  queue_inv q (replaced i next l).
Proof.
  intros [] Hi Ht Hnext.
  assert (Hc : forall f, (forall t, neutral t = true -> f t = false) -> count f (replaced i next l) = count f l).
  { intros f Hf. pose proof (count_replaced f i t next l Hi) as E. rewrite (neutral_zero f next), Hf in E by done. lia. }
  split; try done.
  - rewrite Hc; [done|]. intros x Hx. by apply neutral_counts in Hx as (? & _).
  - intros id. rewrite Hc; [done|]. intros x Hx. apply neutral_counts in Hx. naive_solver.
  - intros x id f Hx Hf. apply elem_of_replaced in Hx as [Hx|Hx]; [|by eapply inv_flag0].
    rewrite Forallb_forall in Hnext. apply Hnext, neutral_counts in Hx. naive_solver.
  - intros id r Hr Hq. rewrite Hc; [by eapply inv_queued0|]. intros x Hx. apply neutral_counts in Hx. naive_solver.
  - intros id. rewrite Hc; [done|]. intros x Hx. apply neutral_counts in Hx. naive_solver.
  - intros job spec Hx. apply elem_of_replaced in Hx as [Hx|Hx]; [|by eapply inv_new0].
    rewrite Forallb_forall in Hnext. by apply Hnext in Hx.
Qed.

(** A thread that becomes another, on the same records. *)
Lemma thread_replaced q i t next l permits :
  queue_inv q l -> l !! i = Some t ->
  (permits + count holds_permit next = q_permits q + if holds_permit t then 1 else 0)%nat ->
  (forall x, count (transfers x) next = if transfers x t then 1 else 0)%nat ->
  (forall t' x f, t' ∈ next -> transferring t' = Some (x, f) -> transferring t = Some (x, f)) ->
  (forall x r, q_records q !! x = Some r -> tj_state (rec_job r) = TransferQueued ->
     (if will_claim x t then 1 else 0) <= count (will_claim x) next)%nat ->
  (forall x, inserts x t = false) -> (forall t' x, t' ∈ next -> inserts x t' = false) ->
  queue_inv (set_permits q permits) (replaced i next l).
Proof.
  intros [] Hi Hp Hx Hf Hq Ht Hn.
  assert (Hno : forall x, count (inserts x) next = 0%nat) by (intros x; apply count_zero; naive_solver).
  split; unfold running, flag in *; cbn in *; try done.
  - pose proof (count_replaced holds_permit i t next l Hi). lia.
  - intros id. pose proof (count_replaced (transfers id) i t next l Hi) as E. rewrite <- inv_running0. specialize (Hx id). lia.
  - intros x id f Hx' Hx'f. apply elem_of_replaced in Hx' as [Hx'|Hx']; [|by eapply inv_flag0].
    eapply (inv_flag0 t); [by eapply list_elem_of_lookup_2|by eapply Hf].
  - intros id r Hr Hs. destruct (inv_queued0 id r Hr Hs) as [? Hc]. split; [done|].
    pose proof (count_replaced (will_claim id) i t next l Hi) as E. specialize (Hq id r Hr Hs). lia.
  - intros id. pose proof (count_replaced (inserts id) i t next l Hi) as E. rewrite Ht, Hno in E.
    replace (count (inserts id) (replaced i next l)) with (count (inserts id) l) by lia. done.
  - intros job spec Hx'. apply elem_of_replaced in Hx' as [Hx'|Hx']; [|by eapply inv_new0].
    apply (Hn _ (tj_id job)) in Hx'. cbn in Hx'. by rewrite bool_decide_true in Hx'.
Qed.

(** *** The steps that change one record *)

(** What the step may do to the record: it stays under its key and its flag, and is
    not queued anew. *)
Record record_kept (r r' : TransferRecord) : Prop := {
  kept_flag : rec_cancelled r' = rec_cancelled r;
  kept_id : tj_id (rec_job r') = tj_id (rec_job r);
  kept_bytes : (tj_transferred_bytes (rec_job r') <= tj_total_bytes (rec_job r') <= U64_MAX)%N;
  kept_queued : tj_state (rec_job r') = TransferQueued -> False;
}.

Lemma record_replaced q q' i t next l id r r' :
  queue_inv q l -> l !! i = Some t ->
  q_records q !! id = Some r -> record_kept r r' ->
  q_records q' = <[id := r']> (q_records q) -> q_permits q' = q_permits q ->
  length (q_flags q') = length (q_flags q) -> (forall f, f <> rec_cancelled r -> flag q' f = flag q f) ->
  count holds_permit next = (if holds_permit t then 1 else 0)%nat ->
  (count (transfers id) next + running q id = (if transfers id t then 1 else 0) + running q' id)%nat ->
  (forall x, x <> id -> count (transfers x) next = if transfers x t then 1 else 0)%nat ->
  (forall t' x f, t' ∈ next -> transferring t' = Some (x, f) -> x = id /\ f = rec_cancelled r) ->
  (forall x, x <> id -> (if will_claim x t then 1 else 0) <= count (will_claim x) next)%nat ->
  (forall x, inserts x t = false) -> (forall t' x, t' ∈ next -> inserts x t' = false) ->
  queue_inv q' (replaced i next l).
Proof.
  intros [] Hi Hr [] Hr' Hp Hlen Hflags Hh Hc Hx Hf Hq Ht Hn.
  assert (Hno : forall x, count (inserts x) next = 0%nat) by (intros x; apply count_zero; naive_solver).
  assert (Hother : forall x, x <> id -> q_records q' !! x = q_records q !! x).
  { intros x Hne. rewrite Hr'. by apply lookup_insert_ne. }
  assert (Hself : q_records q' !! id = Some r') by (rewrite Hr'; apply lookup_insert_eq).
  split.
  - pose proof (count_replaced holds_permit i t next l Hi). lia.
  - intros x. pose proof (count_replaced (transfers x) i t next l Hi) as E. specialize (inv_running0 x).
    destruct (decide (x = id)) as [->|Hne]; [lia|]. specialize (Hx x Hne).
    assert (running q' x = running q x) by (unfold running; by rewrite Hother). lia.
  - intros x y f Hin Hxf. apply elem_of_replaced in Hin as [Hin|Hin].
    + destruct (Hf _ _ _ Hin Hxf) as [-> ->]. by exists r'.
    + destruct (inv_flag0 _ _ _ Hin Hxf) as (ry & Hy & <-). destruct (decide (y = id)) as [->|Hne].
      * exists r'. split; [done|]. congruence.
      * exists ry. by rewrite Hother.
  - intros y ry Hy. destruct (decide (y = id)) as [->|Hne]; [|rewrite Hother in Hy by done; eauto].
    simplify_eq. rewrite kept_id0. eauto.
  - intros y ry Hy. destruct (decide (y = id)) as [->|Hne]; [by simplify_eq|rewrite Hother in Hy by done; eauto].
  - intros y ry Hy. rewrite Hlen. destruct (decide (y = id)) as [->|Hne]; [|rewrite Hother in Hy by done; eauto].
    simplify_eq. rewrite kept_flag0. eauto.
  - intros y z ry rz Hy Hz E.
    destruct (decide (y = id)) as [->|Hy']; destruct (decide (z = id)) as [->|Hz']; [done| | |].
    + rewrite Hother in Hz by done. simplify_eq. apply (inv_distinct0 _ _ r rz); congruence.
    + rewrite Hother in Hy by done. simplify_eq. apply (inv_distinct0 _ _ ry r); congruence.
    + rewrite Hother in Hy, Hz by done. by apply (inv_distinct0 _ _ ry rz).
  - intros y ry Hy Hs. destruct (decide (y = id)) as [->|Hne]; [by simplify_eq; destruct kept_queued0|].
    rewrite Hother in Hy by done. destruct (inv_queued0 y ry Hy Hs) as [? Hcl].
    pose proof (count_replaced (will_claim y) i t next l Hi) as E. specialize (Hq y Hne). split; [|lia].
    rewrite Hflags; [done|]. intros Ef. apply Hne. by eapply inv_distinct0.
  - intros y. pose proof (count_replaced (inserts y) i t next l Hi) as E. rewrite Ht, Hno in E.
    replace (count (inserts y) (replaced i next l)) with (count (inserts y) l) by lia.
    destruct (inv_insert0 y) as [? Hy]. split; [done|]. intros Hone. specialize (Hy Hone).
    destruct (decide (y = id)) as [->|Hne]; [congruence|]. by rewrite Hother.
  - intros job spec Hin. apply elem_of_replaced in Hin as [Hin|Hin]; [|by eapply inv_new0].
    apply (Hn _ (tj_id job)) in Hin. cbn in Hin. by rewrite bool_decide_true in Hin.
Qed.

(** *** The steps that put a job under a new flag *)
Lemma fresh_record q i t l job spec :
  let id := tj_id job in
  queue_inv q l -> l !! i = Some t ->
  tj_state job = TransferQueued -> tj_transferred_bytes job = 0%N -> (tj_total_bytes job <= U64_MAX)%N ->
  running q id = 0%nat -> holds_permit t = false -> transferring t = None -> (forall x, will_claim x t = false) ->
  (forall x, x <> id -> inserts x t = false) -> count (inserts id) l = (if inserts id t then 1 else 0)%nat ->
  queue_inv (insert_record q job spec) (replaced i [TBroadcast [job] (Some id)] l).
Proof.
  intros id [] Hi Hs Hb Hmax Hrun Hh Htr Hw Hins Hins'.
  assert (Htr' : forall x, transfers x t = false) by (intros x; unfold transfers; by rewrite Htr).
  assert (Hother : forall x, x <> id -> q_records (insert_record q job spec) !! x = q_records q !! x).
  { intros x Hne. unfold insert_record, put_record, set_records; cbn. by apply lookup_insert_ne. }
  assert (Hself : q_records (insert_record q job spec) !! id =
                  Some {| rec_job := job; rec_spec := spec; rec_cancelled := length (q_flags q) |}).
  { unfold insert_record, put_record, set_records; cbn. apply lookup_insert_eq. }
  assert (Hlen : length (q_flags (insert_record q job spec)) = S (length (q_flags q))).
  { cbn. rewrite length_app. cbn. lia. }
  assert (Hfl : forall f, (f < length (q_flags q))%nat -> flag (insert_record q job spec) f = flag q f).
  { intros f Hf. unfold flag. cbn. by rewrite lookup_app_l. }
  assert (Hnew : flag (insert_record q job spec) (length (q_flags q)) = false).
  { unfold flag. cbn. by rewrite lookup_app_r, Nat.sub_diag by lia. }
  assert (Hp : q_permits (insert_record q job spec) = q_permits q) by done.
  assert (Hc : forall f, f t = false -> f (TBroadcast [job] (Some id)) = false ->
    count f (replaced i [TBroadcast [job] (Some id)] l) = count f l).
  { intros f Ht Hn. pose proof (count_replaced f i t [TBroadcast [job] (Some id)] l Hi) as E.
    rewrite count_single, Ht, Hn in E. cbn in E. lia. }
  generalize dependent (insert_record q job spec). intros q' Hother Hself Hlen Hfl Hnew Hp.
  assert (Hidle : forall t' f, t' ∈ l -> transferring t' = Some (id, f) -> False).
  { intros t' f Hin Hf. assert (1 <= count (transfers id) l)%nat; [|rewrite inv_running0 in *; lia].
    apply (count_pos _ t' l Hin). unfold transfers. rewrite Hf. by apply bool_decide_true. }
  split.
  - rewrite Hc, Hp by done. done.
  - intros x. rewrite Hc, inv_running0 by done. destruct (decide (x = id)) as [->|Hne].
    + rewrite Hrun. unfold running. rewrite Hself. cbn. by rewrite Hs.
    + unfold running. by rewrite Hother.
  - intros x y f Hx Hf. apply elem_of_replaced in Hx as [->%list_elem_of_singleton|Hx]; [done|].
    destruct (inv_flag0 _ _ _ Hx Hf) as (r & Hr & <-). destruct (decide (y = id)) as [->|Hne].
    + by destruct (Hidle _ _ Hx Hf).
    + exists r. by rewrite Hother.
  - intros y ry Hy. destruct (decide (y = id)) as [->|Hne]; [by simplify_eq|rewrite Hother in Hy by done; eauto].
  - intros y ry Hy. destruct (decide (y = id)) as [->|Hne]; [simplify_eq; cbn; lia|rewrite Hother in Hy by done; eauto].
  - intros y ry Hy. destruct (decide (y = id)) as [->|Hne]; [simplify_eq; cbn; lia|rewrite Hother in Hy by done].
    apply inv_flags0 in Hy. lia.
  - intros y z ry rz Hy Hz E.
    destruct (decide (y = id)) as [->|Hy']; destruct (decide (z = id)) as [->|Hz']; [done| | |].
    + rewrite Hother in Hz by done. simplify_eq. cbn in E. apply inv_flags0 in Hz. lia.
    + rewrite Hother in Hy by done. simplify_eq. cbn in E. apply inv_flags0 in Hy. lia.
    + rewrite Hother in Hy, Hz by done. by apply (inv_distinct0 _ _ ry rz).
  - intros y ry Hy Hq. destruct (decide (y = id)) as [->|Hne].
    + simplify_eq. cbn. split; [done|]. apply (count_pos _ (TBroadcast [job] (Some id))); [|by apply bool_decide_true].
      unfold replaced. set_solver.
    + rewrite Hother in Hy by done. destruct (inv_queued0 y ry Hy Hq). rewrite Hfl by eauto.
      rewrite Hc; [done..|]. by apply bool_decide_false.
  - intros y. destruct (decide (y = id)) as [->|Hne].
    + pose proof (count_replaced (inserts id) i t [TBroadcast [job] (Some id)] l Hi) as E.
    rewrite count_single, Hins' in E. cbn in E. split; [lia|]. intros Hone. lia.
    + rewrite Hc, Hother by auto. auto.
  - intros job' spec' Hx. apply elem_of_replaced in Hx as [Hx%list_elem_of_singleton|Hx]; [done|by eapply inv_new0].
Qed.

(** *** The calls *)
Lemma replaced_same i t l : l !! i = Some t -> replaced i [t] l = l.
Proof. intros Hi. unfold replaced. cbn. by apply take_drop_middle. Qed.

Lemma flag_raise q f f' : f' <> f -> flag (raise q f) f' = flag q f'.
Proof. intros Hne. unfold flag, raise. cbn. by rewrite list_lookup_insert_ne. Qed.

Lemma neutral_single t f : neutral t = true -> (forall t, neutral t = true -> f t = false) -> count f [t] = 0%nat.
Proof. intros Ht Hf. rewrite count_single, Hf by done. done. Qed.

(** A job that waits or runs is marked, and settled where it waits. *)
Lemma cancel_marks q i t l id r r' :
  queue_inv q l -> l !! i = Some t -> neutral t = true -> q_records q !! id = Some r ->
  (tj_state (rec_job r) = TransferRunning /\ r' = r \/
   tj_state (rec_job r) = TransferQueued /\ r' = with_job r (job_state (rec_job r) TransferCancelled_)) ->
  queue_inv (put_record (raise q (rec_cancelled r)) id r') l.
Proof.
  intros Hinv Hi Ht Hr Hr'. rewrite <- (replaced_same i t l Hi).
  pose proof (neutral_counts t Ht) as (Hh & Htr & Htx & Hw & Hin).
  eapply (record_replaced q _ i t [t] l id r r'); try done.
  - destruct Hinv. destruct Hr' as [[Hs ->]|[Hs ->]]; split; cbn; try done; eauto. congruence.
  - unfold put_record, set_records, raise, set_flags. cbn. apply length_insert.
  - intros f. apply flag_raise.
  - by rewrite count_single, Hh.
  - rewrite count_single, Htx. unfold running. cbn. rewrite Hr, lookup_insert_eq.
    destruct Hr' as [[Hs ->]|[Hs ->]]; cbn; rewrite Hs; done.
  - intros x _. by rewrite count_single, Htx.
  - intros t' x f ->%list_elem_of_singleton. congruence.
  - intros x _. by rewrite count_single, Hw.
  - by intros t' x ->%list_elem_of_singleton.
Qed.

Lemma raise_put q f id r : q_records q !! id = Some r -> put_record (raise q f) id r = raise q f.
Proof. intros Hr. destruct q. unfold put_record, set_records, raise, set_flags in *. cbn in *. by rewrite insert_id. Qed.

Lemma cancel_inv q i t l id q' jobs :
  queue_inv q l -> l !! i = Some t -> neutral t = true -> cancel q id = Ok (q', jobs) -> queue_inv q' l.
Proof.
  intros Hinv Hi Ht. unfold cancel. destruct (q_records q !! id) as [r|] eqn:Hr; [|done].
  destruct (tj_state (rec_job r)) eqn:Hs; cbn; try done; intros [= <- <-].
  - eapply cancel_marks; eauto.
  - rewrite <- (raise_put q _ id r) by done. eapply cancel_marks; eauto.
Qed.

Lemma cancel_in_session_inv session i t l id q changed :
  queue_inv q l -> l !! i = Some t -> neutral t = true ->
  queue_inv (fst (cancel_in_session session (q, changed) id)) l.
Proof.
  intros Hinv Hi Ht. unfold cancel_in_session. destruct (q_records q !! id) as [r|] eqn:Hr; [|done].
  destruct (bool_decide (tj_session_id (rec_job r) = session)); [|done].
  destruct (tj_state (rec_job r)) eqn:Hs; cbn; try done.
  - eapply cancel_marks; eauto.
  - rewrite <- (raise_put q _ id r) by done. eapply cancel_marks; eauto.
Qed.

Lemma cancel_session_inv session i t l order q :
  queue_inv q l -> l !! i = Some t -> neutral t = true ->
  queue_inv (fst (cancel_session q session order)) l.
Proof.
  intros Hinv Hi Ht. unfold cancel_session. generalize (@nil TransferJob) as changed. revert q Hinv.
  induction order as [|id order IH]; intros q Hinv changed; [done|]. cbn [foldl].
  pose proof (cancel_in_session_inv session i t l id q changed Hinv Hi Ht) as H.
  destruct (cancel_in_session session (q, changed) id) as [q1 changed1]. by apply IH.
Qed.

Section Queue.
Context (reaches : N -> TransferJob -> bool).

Lemma send_core q channel job :
  let q' := send reaches q channel job in
  q_records q' = q_records q /\ q_flags q' = q_flags q /\ q_permits q' = q_permits q.
Proof. unfold send. by destruct (reaches channel job). Qed.

Lemma broadcast_core q job :
  let q' := broadcast reaches q job in
  q_records q' = q_records q /\ q_flags q' = q_flags q /\ q_permits q' = q_permits q.
Proof.
  unfold broadcast. cbn. generalize (List.filter (fun s => bool_decide (fst s = tj_session_id job)) (q_subscribers q)).
  intros l. revert q. induction l as [|s l IH]; intros q; [done|]. cbn [foldl].
  destruct (IH (send reaches q (snd s) job)) as (-> & -> & ->). apply send_core.
Qed.

Lemma broadcast_inv q job l : queue_inv q l -> queue_inv (broadcast reaches q job) l.
Proof. destruct (broadcast_core q job) as (? & ? & ?). by apply same_records. Qed.

Lemma set_permits_same q : set_permits q (q_permits q) = q.
Proof. by destruct q. Qed.

(** *** The steps of a task *)
Ltac ask_next :=
  repeat match goal with
         | H : _ ∈ [_] |- _ => apply list_elem_of_singleton in H
         | H : _ ∈ [] |- _ => by apply not_elem_of_nil in H
         end.

Ltac becomes := intros; ask_next; subst; rewrite ?count_single, ?count_nil; cbn; try done; try lia.

(** A task that goes to its next point. *)
Lemma run_moves q i id p p' l :
  queue_inv q l -> l !! i = Some (TRun id p) ->
  holds_permit (TRun id p') = holds_permit (TRun id p) -> transferring (TRun id p') = transferring (TRun id p) ->
  (forall x, will_claim x (TRun id p) = true -> will_claim x (TRun id p') = true) ->
  queue_inv q (replaced i [TRun id p'] l).
Proof.
  intros Hinv Hi Hh Htr Hw. rewrite <- (set_permits_same q).
  apply (thread_replaced q i (TRun id p) [TRun id p'] l); try done.
  - rewrite count_single, Hh. cbn. lia.
  - intros x. rewrite count_single. unfold transfers. rewrite Htr. done.
  - intros t' x f Hin Hf. ask_next. subst. congruence.
  - intros x r _ _. rewrite count_single. specialize (Hw x). destruct (will_claim x (TRun id p)); [|lia].
    by rewrite Hw.
  - intros t' x Hin. ask_next. by subst.
Qed.

Lemma claim_inv q i id l q' job spec f :
  queue_inv q l -> l !! i = Some (TRun id RunClaim) -> claim q id = Some (q', job, spec, f) ->
  queue_inv q' (replaced i [TRun id (RunAnnounce job spec f)] l).
Proof.
  intros Hinv Hi. unfold claim. destruct (q_records q !! id) as [r|] eqn:Hr; [|done].
  destruct (flag q (rec_cancelled r)) eqn:Hf; [done|]. cbn. destruct (tj_state (rec_job r)) eqn:Hs; try done.
  intros [= <- <- <- <-].
  eapply (record_replaced q _ i _ _ l id r (with_job r (job_state (rec_job r) TransferRunning))); try done.
  - destruct Hinv. split; cbn; eauto; done.
  - unfold running, transfers. cbn. rewrite Hr, lookup_insert_eq, Hs. cbn. rewrite count_single. cbn.
    by rewrite bool_decide_true.
  - intros x Hne. rewrite count_single. unfold transfers. cbn. by rewrite bool_decide_false.
  - intros t' x f Hin Ht. ask_next. subst. by injection Ht as <- <-.
  - intros x Hne. cbn. by rewrite bool_decide_false.
  - intros t' x Hin. ask_next. by subst.
Qed.

(** A task that does not claim: the job does not wait. *)
Lemma no_claim_inv q i id l :
  queue_inv q l -> l !! i = Some (TRun id RunClaim) -> claim q id = None ->
  queue_inv (set_permits q (S (q_permits q))) (replaced i [] l).
Proof.
  intros Hinv Hi Hc. eapply (thread_replaced q i _ [] l); eauto.
  - intros t' x f Hin. ask_next.
  - intros x r Hr Hs. cbn. case_bool_decide as E; [subst x|done].
    destruct (inv_queued _ _ Hinv id r Hr Hs) as [Hf _]. unfold claim in Hc. by rewrite Hr, Hf, Hs in Hc.
  - intros t' x Hin. ask_next.
Qed.

(** The job of a task that transfers runs, under the flag the task holds. *)
Lemma transferring_runs q l t id f :
  queue_inv q l -> t ∈ l -> transferring t = Some (id, f) ->
  exists r, q_records q !! id = Some r /\ rec_cancelled r = f /\ tj_state (rec_job r) = TransferRunning.
Proof.
  intros Hinv Hin Hf. destruct (inv_flag _ _ Hinv t id f Hin Hf) as (r & Hr & Ef). exists r. split_and!; [done..|].
  assert (1 <= count (transfers id) l)%nat as Hc.
  { apply (count_pos _ t); [done|]. unfold transfers. rewrite Hf. by apply bool_decide_true. }
  rewrite (inv_running _ _ Hinv) in Hc. unfold running in Hc. rewrite Hr in Hc. case_bool_decide; [done|lia].
Qed.

Lemma progress_inv q i id l spec f bytes q' job :
  queue_inv q l -> l !! i = Some (TRun id (RunTransfer spec f)) -> add_progress q id bytes = Some (q', job) ->
  queue_inv q' (replaced i [TRun id (RunProgress job spec f)] l).
Proof.
  intros Hinv Hi. destruct (transferring_runs q l _ id f Hinv (list_elem_of_lookup_2 _ _ _ Hi) eq_refl)
    as (r & Hr & <- & Hs).
  unfold add_progress. rewrite Hr. intros [= <- <-].
  eapply (record_replaced q _ i _ _ l id r); try done.
  - pose proof (inv_bytes _ _ Hinv id r Hr). split; cbn; try done; [lia|congruence].
  - unfold running, transfers. cbn. rewrite Hr, lookup_insert_eq, Hs. rewrite count_single. cbn.
    by rewrite bool_decide_true.
  - intros x Hne. rewrite count_single. unfold transfers. cbn. by rewrite bool_decide_false.
  - intros t' x f Hin Ht. ask_next. subst. by injection Ht as <- <-.
  - intros t' x Hin. ask_next. by subst.
Qed.

Lemma settle_inv q i id l f result q' job :
  queue_inv q l -> l !! i = Some (TRun id (RunEnded f result)) -> settle q id result = Some (q', job) ->
  queue_inv q' (replaced i [TRun id (RunSettled job)] l).
Proof.
  intros Hinv Hi. destruct (transferring_runs q l _ id f Hinv (list_elem_of_lookup_2 _ _ _ Hi) eq_refl)
    as (r & Hr & <- & Hs).
  unfold settle. rewrite Hr. intros [= <- <-].
  eapply (record_replaced q _ i _ _ l id r); try done.
  - pose proof (inv_bytes _ _ Hinv id r Hr). destruct result; split; cbn; try done; try lia.
    by destruct (_ || _).
  - unfold running, transfers. cbn. rewrite Hr, lookup_insert_eq, Hs, count_single. cbn.
    rewrite (bool_decide_true (id = id)) by done. destruct result as [|e]; cbn; [done|].
    by destruct (bool_decide (e = TransferCancelled) || flag q (rec_cancelled r)).
  - intros x Hne. rewrite count_single. unfold transfers. cbn. by rewrite bool_decide_false.
  - intros t' x f Hin Ht. ask_next. by subst.
  - intros t' x Hin. ask_next. by subst.
Qed.

Lemma run_step_inv r q q' i id p next l :
  queue_inv q l -> l !! i = Some (TRun id p) -> run_step reaches r q id p = Some (q', next) ->
  queue_inv q' (replaced i next l).
Proof.
  intros Hinv Hi. destruct p as [| |job spec f|spec f|job spec f|f result|job]; cbn.
  - destruct (q_permits q) as [|n] eqn:Hp; [done|]. intros [= <- <-].
    eapply (thread_replaced q i _ [TRun id RunClaim] l n); eauto; becomes.
  - destruct (claim q id) as [[[[q1 job] spec] f]|] eqn:Hc; intros [= <- <-].
    + by eapply claim_inv.
    + by apply no_claim_inv with (id := id).
  - intros [= <- <-]. apply broadcast_inv. by eapply run_moves.
  - destruct r as [bytes|result].
    + destruct (add_progress q id bytes) as [[q1 job]|] eqn:Ha; intros [= <- <-].
      * by eapply progress_inv.
      * by rewrite replaced_same.
    + intros [= <- <-]. eapply (thread_replaced q i _ [TRun id (RunEnded f result)] l); eauto; becomes.
  - intros [= <- <-]. apply broadcast_inv. by eapply run_moves.
  - destruct (settle q id result) as [[q1 job]|] eqn:Hs; intros [= <- <-].
    + by eapply settle_inv.
    + destruct (transferring_runs q l _ id f Hinv (list_elem_of_lookup_2 _ _ _ Hi) eq_refl) as (r' & Hr & _).
      unfold settle in Hs. by rewrite Hr in Hs.
  - intros [= <- <-]. apply broadcast_inv. by eapply neutral_step.
Qed.

Lemma retry_inv q i id overwrite l q' job :
  queue_inv q l -> l !! i = Some (TRetry id overwrite) -> retry q id overwrite = Ok (q', job) ->
  queue_inv q' (replaced i [TBroadcast [job] (Some id)] l).
Proof.
  intros Hinv Hi. unfold retry. destruct (q_records q !! id) as [r|] eqn:Hr; [|done].
  destruct (retriable (tj_state (rec_job r))) eqn:Hs; [|done]. cbn [negb].
  set (j := job_with _ _ _ _). set (spec := match rec_spec r with SpecUpload _ _ _ => _ | _ => _ end).
  intros [= <- <-]. assert (Hid : tj_id j = id) by (cbn; by eapply inv_key).
  pose proof (fresh_record q i (TRetry id overwrite) l j spec) as H. unfold insert_record in H. rewrite Hid in H.
  apply H; try done.
  - cbn. pose proof (inv_bytes _ _ Hinv id r Hr). lia.
  - unfold running. rewrite Hr. by destruct (tj_state (rec_job r)).
  - destruct (inv_insert _ _ Hinv id) as [Hle Hnone]. cbn.
    destruct (decide (count (inserts id) l = 1%nat)) as [Hone|]; [|lia]. by rewrite (Hnone Hone) in Hr.
Qed.

Lemma insert_inv q i job spec l :
  queue_inv q l -> l !! i = Some (TInsert job spec) ->
  queue_inv (insert_record q job spec) (replaced i [TBroadcast [job] (Some (tj_id job))] l).
Proof.
  intros Hinv Hi. pose proof (list_elem_of_lookup_2 _ _ _ Hi) as Hin.
  destruct (inv_new _ _ Hinv job spec Hin) as (Hs & Hb & Hmax).
  assert (Hone : count (inserts (tj_id job)) l = 1%nat).
  { destruct (inv_insert _ _ Hinv (tj_id job)) as [Hle _].
    assert (1 <= count (inserts (tj_id job)) l)%nat; [|lia]. apply (count_pos _ _ _ Hin). by apply bool_decide_true. }
  apply (fresh_record q i (TInsert job spec) l job spec); try done.
  - unfold running. by rewrite (proj2 (inv_insert _ _ Hinv (tj_id job)) Hone).
  - intros x Hne. by apply bool_decide_false.
  - rewrite Hone. cbn. by rewrite bool_decide_true.
Qed.

Lemma thread_step_inv r order q q' i t next l :
  queue_inv q l -> l !! i = Some t -> thread_step reaches r order q t = Some (q', next) ->
  queue_inv q' (replaced i next l).
Proof.
  intros Hinv Hi. destruct t as [job spec|id|id overwrite|session|session ch|session ch [|job jobs]|[|job jobs] next'|id p]; cbn.
  - intros [= <- <-]. by apply insert_inv with (spec := spec).
  - destruct (cancel q id) as [[q1 jobs]|e] eqn:Hc; intros [= <- <-].
    + eapply neutral_step; eauto. by eapply cancel_inv.
    + by eapply neutral_step.
  - destruct (retry q id overwrite) as [[q1 job]|e] eqn:Hc; intros [= <- <-].
    + by eapply retry_inv.
    + by eapply neutral_step.
  - pose proof (cancel_session_inv session i _ l order q Hinv Hi eq_refl) as Hc.
    destruct (cancel_session q session order) as [q1 jobs]. intros [= <- <-]. by eapply neutral_step.
  - intros [= <- <-]. by eapply neutral_step.
  - intros [= <- <-]. apply same_records with q; try done. by eapply neutral_step.
  - intros [= <- <-]. destruct (send_core q ch job) as (? & ? & ?). apply same_records with q; try done.
    by eapply neutral_step.
  - intros [= <- <-]. destruct next' as [id|]; [|by eapply neutral_step].
    rewrite <- (set_permits_same q). eapply (thread_replaced q i _ [TRun id RunStart]); eauto; becomes.
  - intros [= <- <-]. apply broadcast_inv. destruct next' as [id|]; [|by eapply neutral_step].
    rewrite <- (set_permits_same q). eapply thread_replaced; eauto; becomes.
  - intros Hstep. by eapply run_step_inv.
Qed.

(** *** Reachable systems *)
Lemma existsb_count f l : existsb f l = false -> count f l = 0%nat.
Proof.
  intros H. apply count_zero. intros t Ht. destruct (f t) eqn:E; [|done].
  enough (existsb f l = true) by congruence. apply existsb_exists. exists t. by rewrite <- list_elem_of_In.
Qed.

Lemma call_inv s t : queue_inv (fst s) (snd s) -> admitted s t -> queue_inv (fst s) (snd s ++ [t]).
Proof.
  destruct s as [q l]. cbn [fst snd]. intros [] Ht.
  assert (Hh : holds_permit t = false /\ transferring t = None /\ forall x, will_claim x t = false) by by destruct t.
  destruct Hh as (Hh & Htr & Hw).
  split; try done.
  - by rewrite count_app, count_single, Hh, Nat.add_0_r.
  - intros id. rewrite count_app, count_single. unfold transfers at 2. by rewrite Htr, Nat.add_0_r.
  - intros t' id f [Hin| ->%list_elem_of_singleton]%elem_of_app Hf; [by eapply inv_flag0|congruence].
  - intros id r Hr Hs. destruct (inv_queued0 id r Hr Hs). rewrite count_app. split; [done|lia].
  - intros id. rewrite count_app, count_single. destruct (inv_insert0 id) as [Hle Hone].
    destruct t as [job spec| | | | | | |]; cbn; rewrite ?Nat.add_0_r; try done.
    case_bool_decide as E; rewrite ?Nat.add_0_r; [subst id|done].
    destruct Ht as (Hnone & Hno & _). cbn in Hnone, Hno. rewrite (existsb_count _ _ Hno). done.
  - intros job spec [Hin|Hin%list_elem_of_singleton]%elem_of_app; [by eapply inv_new0|subst t].
    by destruct Ht as (_ & _ & ? & ? & _ & ?).
Qed.

Lemma advances_inv allowed s s' :
  queue_inv (fst s) (snd s) -> advances reaches allowed s s' -> queue_inv (fst s') (snd s').
Proof.
  destruct s as [q l]. cbn [fst snd]. intros Hinv (i & r & order & _ & _ & Hs). unfold advance_at in Hs.
  destruct (l !! i) as [t|] eqn:Hi; [|done]. cbn in Hs.
  destruct (thread_step reaches r order q t) as [[q' next]|] eqn:Ht; [|done]. injection Hs as <-. cbn.
  by eapply thread_step_inv.
Qed.

Lemma reachable_inv s : rtc (queue_step reaches) system_init s -> queue_inv (fst s) (snd s).
Proof.
  intros H. pose proof init_inv as Hinv. change (queue_inv (fst system_init) (snd system_init)) in Hinv. revert Hinv.
  induction H as [s|s1 s2 s3 H12 _ IH]; [done|]. intros Hinv. apply IH.
  destruct H12 as [t Ht|s2 Hs]; [exact (call_inv s1 t Hinv Ht)|by eapply advances_inv].
Qed.

(** C19. In every interleaving of uploads, downloads, cancellations, retries and
    tasks: at most two tasks hold a permit; a job is transferred by one task exactly
    when it is Running and by none otherwise; the flag this task watches is the one
    that [cancel] raises; a job never reports more bytes than it has; and a job that
    waits has a task that will claim it and a flag that has not been raised. *)
Theorem transfer_queue_safe s :
  rtc (queue_step reaches) system_init s ->
  (count holds_permit (snd s) <= TRANSFER_CONCURRENCY)%nat /\
  forall id r, q_records (fst s) !! id = Some r ->
    tj_id (rec_job r) = id /\
    (tj_transferred_bytes (rec_job r) <= tj_total_bytes (rec_job r))%N /\
    count (transfers id) (snd s) = (if bool_decide (tj_state (rec_job r) = TransferRunning) then 1 else 0)%nat /\
    (forall t f, t ∈ snd s -> transferring t = Some (id, f) -> f = rec_cancelled r) /\
    (tj_state (rec_job r) = TransferQueued ->
       flag (fst s) (rec_cancelled r) = false /\ (1 <= count (will_claim id) (snd s))%nat).
Proof.
  intros Hs%reachable_inv. split; [pose proof (inv_permits _ _ Hs); lia|].
  intros id r Hr. split_and!.
  - by eapply inv_key.
  - by destruct (inv_bytes _ _ Hs id r Hr).
  - rewrite (inv_running _ _ Hs). unfold running. by rewrite Hr.
  - intros t f Hin Hf. destruct (inv_flag _ _ Hs t id f Hin Hf) as (r' & Hr' & <-). congruence.
  - by eapply inv_queued.
Qed.

(** ** The table of states *)
Definition table (s s' : TransferState) : bool :=
  match s, s' with
  | TransferQueued, (TransferRunning | TransferCancelled_)
  | TransferRunning, (TransferCompleted | TransferFailed_ | TransferCancelled_)
  | (TransferFailed_ | TransferCancelled_), TransferQueued => true
  | _, _ => bool_decide (s = s')
  end.

(** What one step may do to a job. *)
Record job_moves (j j' : TransferJob) : Prop := {
  moves_fixed : tj_id j' = tj_id j /\ tj_session_id j' = tj_session_id j /\ tj_direction j' = tj_direction j /\
    tj_name j' = tj_name j /\ tj_remote_path j' = tj_remote_path j /\ tj_total_bytes j' = tj_total_bytes j;
  moves_table : table (tj_state j) (tj_state j') = true;
  moves_bytes : (tj_transferred_bytes j <= tj_transferred_bytes j')%N \/
    tj_state j' = TransferQueued /\ tj_transferred_bytes j' = 0%N;
  moves_completed : tj_state j' = TransferCompleted -> j' = j \/
    tj_transferred_bytes j' = tj_total_bytes j' /\ tj_error_code j' = None;
}.

Lemma moves_refl j : job_moves j j.
Proof. split; [done| |left; lia|by left]. destruct (tj_state j); try done; by apply bool_decide_true. Qed.

Definition records_move (q q' : queue) : Prop :=
  forall id r, q_records q !! id = Some r ->
    exists r', q_records q' !! id = Some r' /\ job_moves (rec_job r) (rec_job r').

Lemma records_same q q' : q_records q' = q_records q -> records_move q q'.
Proof. intros H id r Hr. rewrite H. eauto using moves_refl. Qed.

Lemma records_put q q' id r r' : q_records q !! id = Some r -> q_records q' = <[id := r']> (q_records q) ->
  job_moves (rec_job r) (rec_job r') -> records_move q q'.
Proof.
  intros Hr Hq Hj id' r1 Hr1. rewrite Hq. destruct (decide (id' = id)) as [->|Hne].
  - rewrite lookup_insert_eq. naive_solver.
  - rewrite lookup_insert_ne by done. eauto using moves_refl.
Qed.

Lemma cancelled_moves j : tj_state j = TransferQueued -> job_moves j (job_state j TransferCancelled_).
Proof. intros H. split; cbn; rewrite ?H; try done. left; lia. Qed.

Lemma cancel_moves q id q' jobs : cancel q id = Ok (q', jobs) -> records_move q q'.
Proof.
  unfold cancel. destruct (q_records q !! id) as [r|] eqn:Hr; [|done].
  destruct (tj_state (rec_job r)) eqn:Hs; cbn; try done; intros [= <- <-].
  - eapply records_put; [done|reflexivity|]. by apply cancelled_moves.
  - by apply records_same.
Qed.

(** The table is not transitive, so a call that marks several jobs is followed job by
    job: a cancelled job is not marked again. *)
Definition marks (q q' : queue) : Prop :=
  forall id r, q_records q !! id = Some r -> exists r', q_records q' !! id = Some r' /\
    (rec_job r' = rec_job r \/
     tj_state (rec_job r) = TransferQueued /\ rec_job r' = job_state (rec_job r) TransferCancelled_).

Lemma cancel_in_session_marks session q changed id : marks q (fst (cancel_in_session session (q, changed) id)).
Proof.
  intros id' r' Hr'. unfold cancel_in_session. destruct (q_records q !! id) as [r|] eqn:Hr; [|eauto].
  destruct (bool_decide _); [|cbn; eauto]. destruct (tj_state (rec_job r)) eqn:Hs; cbn; eauto.
  rewrite bool_decide_true by done. cbn. destruct (decide (id' = id)) as [->|Hne].
  - simplify_eq. rewrite lookup_insert_eq. eauto.
  - rewrite lookup_insert_ne by done. eauto.
Qed.

Lemma cancel_session_marks session order q : marks q (fst (cancel_session q session order)).
Proof.
  unfold cancel_session. generalize (@nil TransferJob) as changed. revert q.
  induction order as [|id order IH]; intros q changed id' r Hr; [cbn; eauto|]. cbn [foldl].
  destruct (cancel_in_session_marks session q changed id id' r Hr) as (r1 & Hr1 & H1).
  destruct (cancel_in_session session (q, changed) id) as [q1 changed1]. cbn in Hr1.
  destruct (IH q1 changed1 id' r1 Hr1) as (r2 & Hr2 & H2). exists r2. split; [done|].
  destruct H1 as [E1|[Hs1 E1]], H2 as [E2|[Hs2 E2]]; rewrite ?E1 in *; eauto; try congruence.
Qed.

Lemma retry_moves q id overwrite q' job : retry q id overwrite = Ok (q', job) -> records_move q q'.
Proof.
  unfold retry. destruct (q_records q !! id) as [r|] eqn:Hr; [|done].
  destruct (tj_state (rec_job r)) eqn:Hs; cbn; try done; intros [= <- <-].
  all: eapply records_put; [done|reflexivity|]; split; cbn; rewrite ?Hs; try done; by right.
Qed.

Lemma claim_moves q id q' job spec f : claim q id = Some (q', job, spec, f) -> records_move q q'.
Proof.
  unfold claim. destruct (q_records q !! id) as [r|] eqn:Hr; [|done].
  destruct (flag q (rec_cancelled r)); [done|]. cbn. destruct (tj_state (rec_job r)) eqn:Hs; try done.
  intros [= <- <- <- <-]. eapply records_put; [done|reflexivity|]. split; cbn; rewrite ?Hs; try done. left; lia.
Qed.

Lemma progress_moves q id bytes q' job :
  (forall r, q_records q !! id = Some r -> tj_state (rec_job r) = TransferRunning /\
     tj_transferred_bytes (rec_job r) <= tj_total_bytes (rec_job r) <= U64_MAX)%N ->
  add_progress q id bytes = Some (q', job) -> records_move q q'.
Proof.
  intros Hrun. unfold add_progress. destruct (q_records q !! id) as [r|] eqn:Hr; [|done]. intros [= <- <-].
  destruct (Hrun r eq_refl) as (Hs & Hb & Hmax).
  eapply records_put; [done|reflexivity|]. split; cbn; rewrite ?Hs; try done.
  left. unfold sat_add. lia.
Qed.

Lemma settle_moves q id result q' job :
  (forall r, q_records q !! id = Some r -> tj_state (rec_job r) = TransferRunning /\
     tj_transferred_bytes (rec_job r) <= tj_total_bytes (rec_job r) <= U64_MAX)%N ->
  settle q id result = Some (q', job) -> records_move q q'.
Proof.
  intros Hrun. unfold settle. destruct (q_records q !! id) as [r|] eqn:Hr; [|done]. intros [= <- <-].
  destruct (Hrun r eq_refl) as (Hs & Hb & _).
  eapply records_put; [done|reflexivity|]. destruct result as [|e]; split; cbn; rewrite ?Hs; try done; try (left; lia).
  - by right.
  - by destruct (bool_decide (e = TransferCancelled) || flag q (rec_cancelled r)).
  - by destruct (bool_decide (e = TransferCancelled) || flag q (rec_cancelled r)).
Qed.

Lemma run_step_moves r q q' i id p next l :
  queue_inv q l -> l !! i = Some (TRun id p) -> run_step reaches r q id p = Some (q', next) -> records_move q q'.
Proof.
  intros Hinv Hi.
  assert (Hrun : forall f, transferring (TRun id p) = Some (id, f) -> forall r, q_records q !! id = Some r ->
    (tj_state (rec_job r) = TransferRunning /\
     tj_transferred_bytes (rec_job r) <= tj_total_bytes (rec_job r) <= U64_MAX)%N).
  { intros f Hf r' Hr'. destruct (transferring_runs q l _ id f Hinv (list_elem_of_lookup_2 _ _ _ Hi) Hf) as (? & ? & _ & ?).
    split; [congruence|by apply (inv_bytes _ _ Hinv id)]. }
  destruct p as [| |job spec f|spec f|job spec f|f result|job]; cbn.
  - destruct (q_permits q) as [|n]; intros [= <- <-]. by apply records_same.
  - destruct (claim q id) as [[[[q1 job] spec] f]|] eqn:Hc; intros [= <- <-]; [by eapply claim_moves|by apply records_same].
  - intros [= <- <-]. apply records_same, broadcast_core.
  - destruct r as [bytes|result].
    + destruct (add_progress q id bytes) as [[q1 job]|] eqn:Ha; intros [= <- <-]; [|by apply records_same].
      eapply progress_moves; [|done]. by eapply Hrun.
    + intros [= <- <-]. by apply records_same.
  - intros [= <- <-]. apply records_same, broadcast_core.
  - destruct (settle q id result) as [[q1 job]|] eqn:Hs; intros [= <- <-]; [|by apply records_same].
    eapply settle_moves; [|done]. by eapply Hrun.
  - intros [= <- <-]. apply records_same, broadcast_core.
Qed.

Lemma thread_step_moves r order q q' i t next l :
  queue_inv q l -> l !! i = Some t -> thread_step reaches r order q t = Some (q', next) -> records_move q q'.
Proof.
  intros Hinv Hi. destruct t as [job spec|id|id overwrite|session|session ch|session ch [|job jobs]|[|job jobs] next'|id p]; cbn.
  - intros [= <- <-]. intros id r' Hr'. cbn. destruct (decide (id = tj_id job)) as [->|Hne].
    + pose proof (list_elem_of_lookup_2 _ _ _ Hi) as Hin. destruct (inv_insert _ _ Hinv (tj_id job)) as [Hle Hnone].
      assert (1 <= count (inserts (tj_id job)) l)%nat by (apply (count_pos _ _ _ Hin); by apply bool_decide_true).
      rewrite Hnone in Hr' by lia. done.
    + rewrite lookup_insert_ne by done. eauto using moves_refl.
  - destruct (cancel q id) as [[q1 jobs]|e] eqn:Hc; intros [= <- <-]; [by eapply cancel_moves|by apply records_same].
  - destruct (retry q id overwrite) as [[q1 job]|e] eqn:Hc; intros [= <- <-]; [by eapply retry_moves|by apply records_same].
  - pose proof (cancel_session_marks session order q) as Hc.
    destruct (cancel_session q session order) as [q1 jobs]. intros [= <- <-] id r' Hr'.
    destruct (Hc id r' Hr') as (r2 & Hr2 & [E|[Hs E]]); exists r2; (split; [done|]); rewrite E.
    + apply moves_refl.
    + by apply cancelled_moves.
  - intros [= <- <-]. by apply records_same.
  - intros [= <- <-]. by apply records_same.
  - intros [= <- <-]. apply records_same, send_core.
  - intros [= <- <-]. by apply records_same.
  - intros [= <- <-]. apply records_same, broadcast_core.
  - intros Hstep. by eapply run_step_moves.
Qed.

(** A job is never lost, and one step of any task or call leaves what
    identifies it alone and moves its state along the table: Queued to Running or
    Cancelled, Running to Completed, Failed or Cancelled, Failed or Cancelled back to
    Queued, and Completed stays; the bytes reported never fall but for a retry, which
    starts at zero, and a job that completes reports all of them and no error. *)
Theorem transfer_states_move_along_table s s' :
  rtc (queue_step reaches) system_init s -> queue_step reaches s s' ->
  forall id r, q_records (fst s) !! id = Some r ->
    exists r', q_records (fst s') !! id = Some r' /\ job_moves (rec_job r) (rec_job r').
Proof.
  intros Hs%reachable_inv Hstep. destruct Hstep as [t Ht|s' Hstep]; [by apply records_same|].
  destruct s as [q l], Hstep as (i & r0 & order & _ & _ & Hstep). unfold advance_at in Hstep.
  destruct (l !! i) as [t|] eqn:Hi; [|done]. cbn in Hstep.
  destruct (thread_step reaches r0 order q t) as [[q' next]|] eqn:Ht; [|done]. injection Hstep as <-.
  by eapply thread_step_moves.
Qed.

(** ** The queue drains *)
Definition bulk (t : thread) : bool :=
  match t with TCancelSession _ | TSubscribe _ _ => true | _ => false end.

Definition weight (t : thread) : nat :=
  match t with
  | TInsert _ _ | TRetry _ _ => 10
  | TCancel _ => 3
  | TCancelSession _ | TSubscribe _ _ => 0
  | TReplay _ _ jobs => 1 + length jobs
  | TBroadcast jobs next => 1 + length jobs + match next with Some _ => 7 | None => 0 end
  | TRun _ p =>
      match p with
      | RunStart => 7 | RunClaim => 6 | RunAnnounce _ _ _ => 5 | RunProgress _ _ _ => 4
      | RunTransfer _ _ => 3 | RunEnded _ _ => 2 | RunSettled _ => 1
      end
  end.
Definition ends (r : report) : Prop := match r with Ended _ => True | Copied _ => False end.

(** A step of a thread that reports no more bytes: fewer calls whose work depends on
    the number of jobs, or as many and less to do. *)
Lemma thread_step_lighter r order q q' t next :
  ends r -> thread_step reaches r order q t = Some (q', next) ->
  (count bulk next < (if bulk t then 1 else 0) \/
   count bulk next = (if bulk t then 1 else 0) /\ sum_list_with weight next < weight t)%nat.
Proof.
  intros Hr. destruct t as [job spec|id|id overwrite|session|session ch|session ch [|job jobs]|[|job jobs] next'|id p]; cbn.
  - intros [= <- <-]. right. rewrite count_single. cbn. lia.
  - unfold cancel. repeat case_match; intros; simplify_eq; right; rewrite ?count_single, ?count_nil; cbn; lia.
  - unfold retry. repeat case_match; intros; simplify_eq; right; rewrite ?count_single, ?count_nil; cbn; lia.
  - destruct (cancel_session q session order) as [q1 jobs]. intros [= <- <-]. left. rewrite count_single. cbn. lia.
  - intros [= <- <-]. left. rewrite count_single. cbn. lia.
  - intros [= <- <-]. right. rewrite count_nil. cbn. lia.
  - intros [= <- <-]. right. rewrite count_single. cbn. lia.
  - intros [= <- <-]. right. destruct next'; cbn; rewrite ?count_single, ?count_nil; cbn; lia.
  - intros [= <- <-]. right. rewrite count_single. cbn. lia.
  - destruct p, r; cbn; try done; repeat case_match; intros; simplify_eq; right;
      rewrite ?count_single, ?count_nil; cbn; lia.
Qed.

Lemma weight_replaced i t next l :
  l !! i = Some t ->
  (sum_list_with weight (replaced i next l) + weight t = sum_list_with weight l + sum_list_with weight next)%nat.
Proof.
  intros Hi. pose proof (take_drop_middle l i t Hi) as Hl. unfold replaced.
  rewrite <- Hl at 3. rewrite !sum_list_with_app. cbn. lia.
Qed.

Lemma advances_lighter s s' : advances reaches ends s s' ->
  (count bulk (snd s') < count bulk (snd s) \/
   count bulk (snd s') = count bulk (snd s) /\ sum_list_with weight (snd s') < sum_list_with weight (snd s))%nat.
Proof.
  destruct s as [q l]. intros (i & r & order & Hr & _ & Hs). unfold advance_at in Hs.
  destruct (l !! i) as [t|] eqn:Hi; [|done]. cbn in Hs.
  destruct (thread_step reaches r order q t) as [[q' next]|] eqn:Ht; [|done]. injection Hs as <-. cbn.
  pose proof (thread_step_lighter _ _ _ _ _ _ Hr Ht).
  pose proof (count_replaced bulk i t next l Hi). pose proof (weight_replaced i t next l Hi).
  unfold replaced in *. lia.
Qed.

Lemma ending_runs_stop s : Acc (fun s2 s1 => advances reaches ends s1 s2) s.
Proof.
  remember (count bulk (snd s)) as n eqn:Hn. revert s Hn.
  induction (lt_wf n) as [n _ IHn]. intros s Hn.
  remember (sum_list_with weight (snd s)) as m eqn:Hm. revert s Hn Hm.
  induction (lt_wf m) as [m _ IHm]. intros s Hn Hm. constructor. intros s' Hs.
  destruct (advances_lighter _ _ Hs) as [Hlt|[Heq Hlt]].
  - apply (IHn (count bulk (snd s'))); [lia|done].
  - apply (IHm (sum_list_with weight (snd s'))); [lia|congruence|done].
Qed.

(** Only a task that waits for a permit waits. *)
Lemma thread_step_total r order q t :
  (forall id, t = TRun id RunStart -> q_permits q <> 0%nat) -> is_Some (thread_step reaches r order q t).
Proof.
  intros Hp. destruct t as [job spec|id|id overwrite|session|session ch|session ch [|job jobs]|[|job jobs] next'|id p]; cbn; eauto.
  - repeat case_match; eauto.
  - repeat case_match; eauto.
  - destruct (cancel_session q session order). eauto.
  - destruct p; cbn; try (destruct r); repeat case_match; eauto; by destruct (Hp id).
Qed.

(** C20. The queue never gets stuck: in every reachable system, when the transfers
    report no more bytes but their end, every run comes to a point where no thread
    can advance, and where none can, no thread is left, both permits are back, and
    every job is Completed, Failed or Cancelled. *)
Theorem transfer_queue_drains s :
  rtc (queue_step reaches) system_init s ->
  Acc (fun s2 s1 => advances reaches ends s1 s2) s /\
  ((forall s', advances reaches ends s s' -> False) ->
   snd s = [] /\ q_permits (fst s) = TRANSFER_CONCURRENCY /\
   forall id r, q_records (fst s) !! id = Some r -> unsettled (tj_state (rec_job r)) = false).
Proof.
  intros Hs%reachable_inv. split; [apply ending_runs_stop|]. intros Hstuck.
  assert (Hnil : snd s = []).
  { destruct s as [q l]. cbn in *. destruct l as [|t0 l0] eqn:El; [done|]. rewrite <- El in *.
    set (r := Ended (Ok tt)). set (order := map fst (map_to_list (q_records q))).
    assert (Hwait : forall t, t ∈ l -> thread_step reaches r order q t = None).
    { intros t (i & Hi)%list_elem_of_lookup_1. destruct (thread_step reaches r order q t) as [[q' next]|] eqn:Ht; [|done].
      destruct (Hstuck (q', replaced i next l)). exists i, r, order. split_and!; [done|done|].
      unfold advance_at. rewrite Hi. cbn. by rewrite Ht. }
    assert (Hheld : forall t, t ∈ l -> holds_permit t = false).
    { intros t Ht. destruct (holds_permit t) eqn:Hh; [|done].
      destruct (thread_step_total r order q t) as [x Hx]; [by intros id ->|by rewrite Hwait in Hx]. }
    pose proof (inv_permits _ _ Hs) as Hp. cbn in Hp. rewrite count_zero in Hp by done.
    destruct (thread_step_total r order q t0) as [x Hx]; [intros id _ Hz; rewrite Hz in Hp; done|].
    rewrite Hwait in Hx; [done|]. rewrite El. set_solver. }
  split; [done|]. rewrite Hnil in Hs. split.
  - pose proof (inv_permits _ _ Hs). rewrite count_nil in *. lia.
  - intros id r Hr. destruct (tj_state (rec_job r)) eqn:Hst; try done.
    + destruct (inv_queued _ _ Hs id r Hr Hst) as [_ Hc]. rewrite count_nil in Hc. lia.
    + pose proof (inv_running _ _ Hs id) as Hc. unfold running in Hc. rewrite count_nil, Hr, Hst in Hc. done.
Qed.
End Queue.

(** ** Runs *)

(** A run as the moves that make it: a call, or a thread that advances. *)
Inductive move := Call (t : thread) | Go (i : nat) (r : report).

Definition admissible (s : system) (t : thread) : bool :=
  match t with
  | TInsert job _ =>
      bool_decide (q_records (fst s) !! tj_id job = None) && negb (existsb (inserts (tj_id job)) (snd s)) &&
      bool_decide (tj_state job = TransferQueued) && (tj_transferred_bytes job =? 0)%N &&
      bool_decide (tj_error_code job = None) && (tj_total_bytes job <=? U64_MAX)%N
  | TCancel _ | TRetry _ _ | TCancelSession _ | TSubscribe _ _ => true
  | TReplay _ _ _ | TBroadcast _ _ | TRun _ _ => false
  end.

Definition play (reaches : N -> TransferJob -> bool) (s : system) (m : move) : option system :=
  match m with
  | Call t => if admissible s t then Some (fst s, snd s ++ [t]) else None
  | Go i r => advance_at reaches i r (map fst (map_to_list (q_records (fst s)))) s
  end.
Fixpoint plays (reaches : N -> TransferJob -> bool) (ms : list move) (s : system) : option system :=
  match ms with
  | [] => Some s
  | m :: ms => s' ← play reaches s m; plays reaches ms s'
  end.

Lemma admissible_admitted s t : admissible s t = true -> admitted s t.
Proof.
  destruct t; cbn; try done. rewrite !andb_true_iff, !bool_decide_eq_true, negb_true_iff, N.eqb_eq, N.leb_le. tauto.
Qed.

Lemma plays_reachable reaches ms s s' :
  rtc (queue_step reaches) system_init s -> plays reaches ms s = Some s' -> rtc (queue_step reaches) system_init s'.
Proof.
  revert s. induction ms as [|m ms IH]; cbn; intros s Hs; [by intros [= <-]|].
  destruct (play reaches s m) as [s1|] eqn:Hm; [|done]. cbn. apply IH. eapply rtc_r; [exact Hs|].
  destruct m as [t|i r]; cbn in Hm.
  - destruct (admissible s t) eqn:Ha; [|done]. injection Hm as <-. by constructor 1; apply admissible_admitted.
  - constructor 2. by exists i, r, (map fst (map_to_list (q_records (fst s)))).
Qed.

Definition sample_transfer : TransferJob :=
  {| tj_id := 7; tj_session_id := 1; tj_direction := TransferUpload; tj_name := (lit "a.txt"); tj_remote_path := (lit "/srv/a.txt");
     tj_total_bytes := 10; tj_transferred_bytes := 0; tj_state := TransferQueued; tj_error_code := None |}.
Definition sample_spec : TransferSpec := SpecUpload (lit "/tmp/a.txt") (lit "/srv/a.txt") false.
Definition all_reached (channel : N) (job : TransferJob) : bool := true.

Definition go (n : nat) : list move := repeat (Go 0 (Ended (Ok tt))) n.
Definition half_done : list move := [Call (TInsert sample_transfer sample_spec)] ++ go 6 ++ [Go 0 (Copied 4)].
Definition end_of (ms : list move) : system := default system_init (plays all_reached ms system_init).

Lemma end_reachable ms : plays all_reached ms system_init = Some (end_of ms) ->
  rtc (queue_step all_reached) system_init (end_of ms).
Proof. apply plays_reachable. apply rtc_refl. Qed.

Definition state_of (s : system) (id : Uuid) : option TransferState :=
  tj_state ∘ rec_job <$> q_records (fst s) !! id.

Lemma transfer_queue_safe_witness :
  rtc (queue_step all_reached) system_init (end_of half_done) /\
  count (transfers 7) (snd (end_of half_done)) = 1%nat /\ state_of (end_of half_done) 7 = Some TransferRunning.
Proof.
  assert (Hr : rtc (queue_step all_reached) system_init (end_of half_done)) by (apply end_reachable; vm_compute; reflexivity).
  split; [exact Hr|]. split; [|vm_compute; reflexivity].
  destruct (transfer_queue_safe all_reached _ Hr) as [_ H].
  destruct (q_records (fst (end_of half_done)) !! 7%N) as [r|] eqn:E; [|vm_compute in E; discriminate].
  destruct (H 7%N r E) as (_ & _ & Hc & _). rewrite Hc. vm_compute in E. injection E as <-. reflexivity.
Defined.

Definition one_more : list move := half_done ++ [Go 0 (Ended (Ok tt))].

Lemma transfer_states_move_along_table_witness :
  exists r', q_records (fst (end_of one_more)) !! 7%N = Some r' /\ (4 <= tj_transferred_bytes (rec_job r'))%N.
Proof.
  assert (Hr : rtc (queue_step all_reached) system_init (end_of half_done)) by (apply end_reachable; vm_compute; reflexivity).
  assert (Hs : queue_step all_reached (end_of half_done) (end_of one_more)).
  { constructor 2. exists 0%nat, (Ended (Ok tt)), [7%N]. split; [done|]. split; [vm_compute; reflexivity|vm_compute; reflexivity]. }
  destruct (q_records (fst (end_of half_done)) !! 7%N) as [r|] eqn:E; [|vm_compute in E; discriminate].
  destruct (transfer_states_move_along_table all_reached _ _ Hr Hs 7%N r E) as (r' & Hr' & Hm).
  exists r'. split; [exact Hr'|]. vm_compute in Hr'. injection Hr' as <-. cbn. lia.
Defined.

Lemma transfer_queue_drains_witness :
  let s := end_of (half_done ++ go 4) in
  rtc (queue_step all_reached) system_init s /\ q_permits (fst s) = TRANSFER_CONCURRENCY /\
  state_of s 7 = Some TransferCompleted.
Proof.
  assert (Hr : rtc (queue_step all_reached) system_init (end_of (half_done ++ go 4)))
    by (apply end_reachable; vm_compute; reflexivity).
  split; [exact Hr|]. split; [|vm_compute; reflexivity].
  destruct (transfer_queue_drains all_reached _ Hr) as [_ H]. apply H.
  intros s' (i & r & order & _ & _ & Hs). unfold advance_at in Hs.
  assert (Hnil : end_of (half_done ++ go 4) = (fst (end_of (half_done ++ go 4)), [])) by (vm_compute; reflexivity).
  rewrite Hnil in Hs. cbn [lookup list_lookup] in Hs. destruct i; discriminate.
Defined.

(** Calls hand out what they changed after the lock is released, so that two of them
    may reach a subscriber the other way round: the last it hears of a job that waits
    is that it was cancelled. *)
Definition cancel_overtaken : list move :=
  [Call (TSubscribe 1 5)] ++ go 2 ++ [Call (TInsert sample_transfer sample_spec)] ++ go 2 ++
  [Call (TCancel 7); Go 1 (Ended (Ok tt)); Call (TRetry 7 false); Go 2 (Ended (Ok tt)); Go 2 (Ended (Ok tt));
   Go 1 (Ended (Ok tt))].

Lemma updates_out_of_order :
  let s := end_of cancel_overtaken in
  rtc (queue_step all_reached) system_init s /\ state_of s 7 = Some TransferQueued /\
  map (tj_state ∘ snd) (q_sent (fst s)) = [TransferQueued; TransferQueued; TransferCancelled_].
Proof. split; [apply end_reachable; vm_compute; reflexivity|]. split; vm_compute; reflexivity. Qed.

(** A subscriber is listed the jobs before it is registered: what happens in between
    it does not hear, and with nothing left to run it never does. *)
Definition ended_between : list move :=
  [Call (TInsert sample_transfer sample_spec)] ++ go 3 ++ [Call (TSubscribe 1 5); Go 1 (Ended (Ok tt))] ++ go 8.

Lemma subscriber_misses_the_end :
  let s := end_of ended_between in
  rtc (queue_step all_reached) system_init s /\ state_of s 7 = Some TransferCompleted /\ snd s = [] /\
  map (tj_state ∘ snd) (q_sent (fst s)) = [TransferQueued] /\ q_subscribers (fst s) = [(1%N, 5%N)].
Proof. split; [apply end_reachable; vm_compute; reflexivity|]. split_and!; vm_compute; reflexivity. Qed.
