(* ===== verification/FleetExecution.v ===== *)
(** * Execution of change sets over a fleet (agentic/fleet.rs, fleet/model.rs, fleet/state.rs)

    A fleet change is a plan of change sets, one for each target: it is drafted,
    bound to a policy, approved for its exact targets, executed in batches,
    verified, rolled back, and kept as metadata across restarts.  Every operation
    of [FleetExecutionService] is a [proc]: its sections hold the lock on [items],
    and the change-set service, the tools, the repository and the clock are asked
    through [FxQuery].  The batch of [join_all] is one question: its change sets
    are executed concurrently, and answered in the order of the batch.

    The clock is read before the section that writes the time. *)
From S2P Require Import Prelude Str Errors RunState Tools Policy Decision Evidence.
From S2P Require Import Process Execution ChangeSets.

Definition MAX_TARGETS : nat := 10.
Definition MAX_FLEET_RUNS : nat := 2000.
Definition MAX_FLEET_AUDIT_EVENTS : nat := 512.
Definition FLEET_SCHEMA_VERSION : N := 1.
Definition MODEL_CODE : str := lit "runory-local-doctor-v1".

(** ** Data *)
Inductive ExecutionStrategy := FxSequential | FxParallel | FxCanary | FxRollingBatch.
#[export] Instance execution_strategy_eq_dec : EqDecision ExecutionStrategy.
Proof. solve_decision. Defined.
Inductive FailurePolicy := FxStop | FxPauseForReview | FxContinue | FxRollback.
#[export] Instance failure_policy_eq_dec : EqDecision FailurePolicy.
Proof. solve_decision. Defined.
Inductive FleetExecutionState :=
  | FxDraft | FxApproved | FxExecuting | FxVerifying | FxPausedForReview | FxSucceeded | FxFailed
  | FxRollingBack | FxRolledBack | FxRollbackFailed | FxInterrupted.
#[export] Instance fleet_execution_state_eq_dec : EqDecision FleetExecutionState.
Proof. solve_decision. Defined.
Inductive FleetTargetState :=
  | TgPending | TgExecuting | TgSucceeded | TgFailed | TgRollbackPending | TgRolledBack | TgRollbackFailed.
#[export] Instance fleet_target_state_eq_dec : EqDecision FleetTargetState.
Proof. solve_decision. Defined.
Inductive VerificationState := VerPending | VerSucceeded | VerFailed | VerNotApplicable.
#[export] Instance verification_state_eq_dec : EqDecision VerificationState.
Proof. solve_decision. Defined.
Inductive FleetRecoveryState := FxLive | FxMetadataOnly.
#[export] Instance fleet_recovery_state_eq_dec : EqDecision FleetRecoveryState.
Proof. solve_decision. Defined.

Record MultiChangeSetDraftRequest := {
  mr_agent_run_id : Uuid;
  mr_title : str;
  mr_targets : list ChangeSetDraftRequest;
  mr_execution_strategy : ExecutionStrategy;
  mr_failure_policy : FailurePolicy;
  mr_batch_size : nat;
  mr_canary_count : nat;
  mr_production : bool;
  mr_service_verification : option str;
  mr_cross_target_verification : bool;
}.

Record TargetApprovalBinding := {
  ta_target_id : Uuid; ta_change_set_id : Uuid; ta_change_set_version : N;
  ta_precondition_digest : option str }.

Record FleetOrchestrationTargetBinding := {
  ob_profile_id : Uuid; ob_session_id : Uuid; ob_role : option str; ob_ordinal : nat }.

Record FleetOrchestrationBinding := {
  fo_fleet_run_id : Uuid; fo_fleet_run_version : N; fo_graph_digest : str;
  fo_targets : list FleetOrchestrationTargetBinding;
  fo_verification_contract_digest : str; fo_binding_digest : str }.

Record FleetApprovalBinding := {
  fb_fleet_version : N; fb_target_ids : list Uuid; fb_targets : list TargetApprovalBinding;
  fb_orchestration_binding_digest : option str; fb_approved_at_epoch_ms : N }.

Record FleetTargetExecution := {
  te_target_id : Uuid; te_change_set_id : Uuid; te_change_set_version : N;
  te_state : FleetTargetState;
  te_local_verification : VerificationState;
  te_service_verification : VerificationState;
  te_rollback_state : VerificationState;
  te_error_code : option str;
  te_duration_ms : option N }.

Record FleetVerification := { fv_cross_target : VerificationState; fv_service_level : VerificationState }.

Record FleetAuditEvent := {
  fae_state : FleetExecutionState; fae_target_id : option Uuid; fae_code : str;
  fae_occurred_at_epoch_ms : N }.

Record MultiChangeSet := {
  mc_id : Uuid;
  mc_agent_run_id : Uuid;
  mc_title : str;                         (* [model] is the constant MODEL_CODE *)
  mc_version : N;
  mc_risk : RiskLevel;
  mc_execution_strategy : ExecutionStrategy;
  mc_failure_policy : FailurePolicy;
  mc_batch_size : nat;
  mc_canary_count : nat;
  mc_production : bool;
  mc_service_verification : option str;
  mc_cross_target_verification : bool;
  mc_orchestration_binding : option FleetOrchestrationBinding;
  mc_targets : list FleetTargetExecution;
  mc_approval_state : ApprovalState;
  mc_approval : option FleetApprovalBinding;
  mc_last_approval : option FleetApprovalBinding;
  mc_execution_state : FleetExecutionState;
  mc_verification : FleetVerification;
  mc_recovery_state : FleetRecoveryState;
  mc_tool_call_count : N;
  mc_started_at_epoch_ms : option N;
  mc_completed_at_epoch_ms : option N;
  mc_duration_ms : option N;
  mc_audit : list FleetAuditEvent;
  mc_policy_evaluation : option PolicyEvaluation;
  mc_policy_snapshot : option PolicySnapshot;
}.

Record PersistedFleetRun := {
  pf_schema_version : N;
  pf_id : Uuid;
  pf_agent_run_id : Uuid;
  pf_version : N;
  pf_risk : RiskLevel;
  pf_execution_strategy : ExecutionStrategy;
  pf_failure_policy : FailurePolicy;
  pf_batch_size : nat;
  pf_canary_count : nat;
  pf_production : bool;
  pf_service_verification : option str;
  pf_cross_target_verification : bool;
  pf_orchestration_binding : option FleetOrchestrationBinding;
  pf_targets : list FleetTargetExecution;
  pf_last_approval : option FleetApprovalBinding;
  pf_execution_state : FleetExecutionState;
  pf_verification : FleetVerification;
  pf_tool_call_count : N;
  pf_started_at_epoch_ms : option N;
  pf_completed_at_epoch_ms : option N;
  pf_duration_ms : option N;
  pf_audit : list FleetAuditEvent;
  pf_policy_snapshot : option PolicySnapshot;
}.

(** *** Field updates *)

(** What a run may change after it is drafted. *)
Definition update_run (r : MultiChangeSet) (version : N) (targets : list FleetTargetExecution)
    (approval_state : ApprovalState) (approval last_approval : option FleetApprovalBinding)
    (state : FleetExecutionState) (verification : FleetVerification) (tool_calls : N)
    (started completed duration : option N) (audit : list FleetAuditEvent)
    (evaluation : option PolicyEvaluation) (snapshot : option PolicySnapshot) : MultiChangeSet :=
  {| mc_id := mc_id r; mc_agent_run_id := mc_agent_run_id r; mc_title := mc_title r;
     mc_version := version; mc_risk := mc_risk r;
     mc_execution_strategy := mc_execution_strategy r; mc_failure_policy := mc_failure_policy r;
     mc_batch_size := mc_batch_size r; mc_canary_count := mc_canary_count r;
     mc_production := mc_production r; mc_service_verification := mc_service_verification r;
     mc_cross_target_verification := mc_cross_target_verification r;
     mc_orchestration_binding := mc_orchestration_binding r; mc_targets := targets;
     mc_approval_state := approval_state; mc_approval := approval; mc_last_approval := last_approval;
     mc_execution_state := state; mc_verification := verification;
     mc_recovery_state := mc_recovery_state r; mc_tool_call_count := tool_calls;
     mc_started_at_epoch_ms := started; mc_completed_at_epoch_ms := completed;
     mc_duration_ms := duration; mc_audit := audit; mc_policy_evaluation := evaluation;
     mc_policy_snapshot := snapshot |}.

Definition run_targets (targets : list FleetTargetExecution) (r : MultiChangeSet) : MultiChangeSet :=
  update_run r (mc_version r) targets (mc_approval_state r) (mc_approval r) (mc_last_approval r)
    (mc_execution_state r) (mc_verification r) (mc_tool_call_count r) (mc_started_at_epoch_ms r)
    (mc_completed_at_epoch_ms r) (mc_duration_ms r) (mc_audit r) (mc_policy_evaluation r) (mc_policy_snapshot r).
Definition run_approval (state : ApprovalState) (approval last : option FleetApprovalBinding)
    (r : MultiChangeSet) : MultiChangeSet :=
  update_run r (mc_version r) (mc_targets r) state approval last
    (mc_execution_state r) (mc_verification r) (mc_tool_call_count r) (mc_started_at_epoch_ms r)
    (mc_completed_at_epoch_ms r) (mc_duration_ms r) (mc_audit r) (mc_policy_evaluation r) (mc_policy_snapshot r).
Definition run_state (state : FleetExecutionState) (r : MultiChangeSet) : MultiChangeSet :=
  update_run r (mc_version r) (mc_targets r) (mc_approval_state r) (mc_approval r) (mc_last_approval r)
    state (mc_verification r) (mc_tool_call_count r) (mc_started_at_epoch_ms r)
    (mc_completed_at_epoch_ms r) (mc_duration_ms r) (mc_audit r) (mc_policy_evaluation r) (mc_policy_snapshot r).
Definition run_version (version : N) (r : MultiChangeSet) : MultiChangeSet :=
  update_run r version (mc_targets r) (mc_approval_state r) (mc_approval r) (mc_last_approval r)
    (mc_execution_state r) (mc_verification r) (mc_tool_call_count r) (mc_started_at_epoch_ms r)
    (mc_completed_at_epoch_ms r) (mc_duration_ms r) (mc_audit r) (mc_policy_evaluation r) (mc_policy_snapshot r).
Definition run_verified (verification : FleetVerification) (r : MultiChangeSet) : MultiChangeSet :=
  update_run r (mc_version r) (mc_targets r) (mc_approval_state r) (mc_approval r) (mc_last_approval r)
    (mc_execution_state r) verification (mc_tool_call_count r) (mc_started_at_epoch_ms r)
    (mc_completed_at_epoch_ms r) (mc_duration_ms r) (mc_audit r) (mc_policy_evaluation r) (mc_policy_snapshot r).
Definition run_tool_calls (n : N) (r : MultiChangeSet) : MultiChangeSet :=
  update_run r (mc_version r) (mc_targets r) (mc_approval_state r) (mc_approval r) (mc_last_approval r)
    (mc_execution_state r) (mc_verification r) n (mc_started_at_epoch_ms r)
    (mc_completed_at_epoch_ms r) (mc_duration_ms r) (mc_audit r) (mc_policy_evaluation r) (mc_policy_snapshot r).
Definition run_times (started completed duration : option N) (r : MultiChangeSet) : MultiChangeSet :=
  update_run r (mc_version r) (mc_targets r) (mc_approval_state r) (mc_approval r) (mc_last_approval r)
    (mc_execution_state r) (mc_verification r) (mc_tool_call_count r) started completed duration
    (mc_audit r) (mc_policy_evaluation r) (mc_policy_snapshot r).
Definition run_audit (audit : list FleetAuditEvent) (r : MultiChangeSet) : MultiChangeSet :=
  update_run r (mc_version r) (mc_targets r) (mc_approval_state r) (mc_approval r) (mc_last_approval r)
    (mc_execution_state r) (mc_verification r) (mc_tool_call_count r) (mc_started_at_epoch_ms r)
    (mc_completed_at_epoch_ms r) (mc_duration_ms r) audit (mc_policy_evaluation r) (mc_policy_snapshot r).
Definition run_policy (e : option PolicyEvaluation) (s : option PolicySnapshot) (r : MultiChangeSet) : MultiChangeSet :=
  update_run r (mc_version r) (mc_targets r) (mc_approval_state r) (mc_approval r) (mc_last_approval r)
    (mc_execution_state r) (mc_verification r) (mc_tool_call_count r) (mc_started_at_epoch_ms r)
    (mc_completed_at_epoch_ms r) (mc_duration_ms r) (mc_audit r) e s.

(** What a target may change, under its change set. *)
Definition target_with (t : FleetTargetExecution) (state : FleetTargetState)
    (local service rollback : VerificationState) (error : option str) (duration : option N) : FleetTargetExecution :=
  {| te_target_id := te_target_id t; te_change_set_id := te_change_set_id t;
     te_change_set_version := te_change_set_version t; te_state := state;
     te_local_verification := local; te_service_verification := service;
     te_rollback_state := rollback; te_error_code := error; te_duration_ms := duration |}.
Definition target_state (s : FleetTargetState) (t : FleetTargetExecution) : FleetTargetExecution :=
  target_with t s (te_local_verification t) (te_service_verification t) (te_rollback_state t)
    (te_error_code t) (te_duration_ms t).

(** ** Pure parts (fleet/state.rs) *)
Definition fleet_valid_service (service : str) : bool := valid_service service.

Definition validate_request (r : MultiChangeSetDraftRequest) : AppResult unit :=
  reject_if (bool_decide (mr_targets r = [])
             || (MAX_TARGETS <? length (mr_targets r))%nat
             || is_empty (trim (mr_title r))
             || (256 <? blen (mr_title r))%N
             || (mr_batch_size r =? 0)%nat
             || (MAX_TARGETS <? mr_batch_size r)%nat
             || bool_decide (mr_execution_strategy r = FxCanary)
                && ((mr_canary_count r =? 0)%nat || (length (mr_targets r) <=? mr_canary_count r)%nat)
             || mr_production r && bool_decide (mr_execution_strategy r = FxParallel)
             || match mr_service_verification r with
                | Some service => negb (fleet_valid_service service)
                | None => false
                end) InvalidOperation.

Definition validate_live_version (run : MultiChangeSet) (version : N) : AppResult unit :=
  if (mc_version run =? version)%N && bool_decide (mc_recovery_state run = FxLive)
  then Ok tt else Err InvalidOperation.

Definition exact_targets_match (targets : list FleetTargetExecution) (target_ids : list Uuid) : bool :=
  let expected : gset Uuid := list_to_set (map te_target_id targets) in
  let actual : gset Uuid := list_to_set target_ids in
  (length targets =? length target_ids)%nat
  && (size expected =? length targets)%nat
  && (size actual =? length target_ids)%nat
  && bool_decide (expected = actual).

Definition verification_outcome (targets : list FleetTargetExecution) (service_required : bool) : bool * bool :=
  (forallb (fun t => bool_decide (te_local_verification t = VerSucceeded)) targets,
   negb service_required || forallb (fun t => bool_decide (te_service_verification t = VerSucceeded)) targets).

(** [.enumerate().filter_map(..)]: the indexes of the pending targets. *)
Fixpoint pending_from (index : nat) (targets : list FleetTargetExecution) : list nat :=
  match targets with
  | [] => []
  | t :: rest =>
      if bool_decide (te_state t = TgPending) then index :: pending_from (S index) rest
      else pending_from (S index) rest
  end.

(** [slice.chunks(n)], which panics for [n = 0]; the fuel is the length. *)
Fixpoint chunks {A} (fuel n : nat) (l : list A) : list (list A) :=
  match fuel, l with
  | _, [] | O, _ => []
  | S fuel, _ => take n l :: chunks fuel n (drop n l)
  end.

Definition execution_batches (run : MultiChangeSet) : AppResult (list (list nat)) :=
  let indexes := pending_from 0 (mc_targets run) in
  let count := length indexes in
  if (count =? 0)%nat || mc_production run && bool_decide (mc_execution_strategy run = FxParallel)
  then Err InvalidOperation
  else Ok match mc_execution_strategy run with
          | FxSequential => map (fun i => [i]) indexes
          | FxParallel => [indexes]
          | FxCanary =>
              let canary := Nat.min (mc_canary_count run) (count - 1) in
              take canary indexes :: map (fun i => [i]) (drop canary indexes)
          | FxRollingBatch => chunks count (mc_batch_size run) indexes
          end.

Definition fleet_target (c : ChangeSet) : FleetTargetExecution :=
  {| te_target_id := cs_session_id c; te_change_set_id := cs_id c; te_change_set_version := cs_version c;
     te_state := TgPending; te_local_verification := VerPending; te_service_verification := VerPending;
     te_rollback_state := VerNotApplicable; te_error_code := None; te_duration_ms := None |}.

Definition persisted_run (r : MultiChangeSet) : PersistedFleetRun :=
  {| pf_schema_version := FLEET_SCHEMA_VERSION; pf_id := mc_id r; pf_agent_run_id := mc_agent_run_id r;
     pf_version := mc_version r; pf_risk := mc_risk r; pf_execution_strategy := mc_execution_strategy r;
     pf_failure_policy := mc_failure_policy r; pf_batch_size := mc_batch_size r;
     pf_canary_count := mc_canary_count r; pf_production := mc_production r;
     pf_service_verification := mc_service_verification r;
     pf_cross_target_verification := mc_cross_target_verification r;
     pf_orchestration_binding := mc_orchestration_binding r; pf_targets := mc_targets r;
     pf_last_approval := mc_last_approval r; pf_execution_state := mc_execution_state r;
     pf_verification := mc_verification r; pf_tool_call_count := mc_tool_call_count r;
     pf_started_at_epoch_ms := mc_started_at_epoch_ms r;
     pf_completed_at_epoch_ms := mc_completed_at_epoch_ms r; pf_duration_ms := mc_duration_ms r;
     pf_audit := mc_audit r; pf_policy_snapshot := mc_policy_snapshot r |}.

Definition fleet_stable_code (value : str) : bool :=
  negb (is_empty value) && (blen value <=? 64)%N
  && forallb (fun c => is_ascii_uppercase c || is_ascii_digit c || (c =? 95)%N) value.

Definition recovered_audit (state : FleetExecutionState) (now : N) (audit : list FleetAuditEvent) :
    list FleetAuditEvent :=
  rev (take (MAX_FLEET_AUDIT_EVENTS - 1) (rev (List.filter (fun e => fleet_stable_code (fae_code e)) audit)))
  ++ [{| fae_state := state; fae_target_id := None; fae_code := lit "FLEET_RECOVERED_METADATA_ONLY";
         fae_occurred_at_epoch_ms := now |}].

Definition recovered_run (now : N) (p : PersistedFleetRun) : MultiChangeSet :=
  let state := match pf_execution_state p with
               | FxExecuting | FxVerifying | FxRollingBack => FxInterrupted
               | s => s
               end in
  {| mc_id := pf_id p; mc_agent_run_id := pf_agent_run_id p; mc_title := lit "recovered-fleet-run";
     mc_version := pf_version p; mc_risk := pf_risk p; mc_execution_strategy := pf_execution_strategy p;
     mc_failure_policy := pf_failure_policy p; mc_batch_size := pf_batch_size p;
     mc_canary_count := pf_canary_count p; mc_production := pf_production p;
     mc_service_verification := pf_service_verification p;
     mc_cross_target_verification := pf_cross_target_verification p;
     mc_orchestration_binding := pf_orchestration_binding p; mc_targets := pf_targets p;
     mc_approval_state := CsInvalidated; mc_approval := None;
     mc_last_approval := opt_filter (fun a => length (fb_targets a) <=? MAX_TARGETS)%nat (pf_last_approval p);
     mc_execution_state := state; mc_verification := pf_verification p;
     mc_recovery_state := FxMetadataOnly; mc_tool_call_count := pf_tool_call_count p;
     mc_started_at_epoch_ms := pf_started_at_epoch_ms p;
     mc_completed_at_epoch_ms := pf_completed_at_epoch_ms p; mc_duration_ms := pf_duration_ms p;
     mc_audit := recovered_audit state now (pf_audit p); mc_policy_evaluation := None;
     mc_policy_snapshot := pf_policy_snapshot p |}.

Definition bounded_events (audit : list FleetAuditEvent) : list FleetAuditEvent :=
  if (MAX_FLEET_AUDIT_EVENTS <? length audit)%nat
  then drop (length audit - MAX_FLEET_AUDIT_EVENTS) audit else audit.

Definition push_event (now : N) (target_id : option Uuid) (code : str) (r : MultiChangeSet) : MultiChangeSet :=
  run_audit (bounded_events (mc_audit r ++
    [{| fae_state := mc_execution_state r; fae_target_id := target_id; fae_code := code;
        fae_occurred_at_epoch_ms := now |}])) r.

Definition finish_run (completed : N) (r : MultiChangeSet) : MultiChangeSet :=
  run_times (mc_started_at_epoch_ms r) (Some completed)
    ((fun started => completed - started)%N <$> mc_started_at_epoch_ms r) r.

Definition valid_digest (value : str) : bool := (blen value =? 64)%N && forallb is_ascii_hexdigit value.

(** ** The service *)
Abbreviation Fleets := (gmap Uuid MultiChangeSet) (only parsing).

Definition persisted_runs (items : Fleets) : list PersistedFleetRun :=
  let records := sort_by_key pf_id (map persisted_run (map snd (map_to_list items))) in
  if (MAX_FLEET_RUNS <? length records)%nat then drop (length records - MAX_FLEET_RUNS) records else records.

Inductive FxQuery :=
  | FxNow                                                  (* now_epoch_ms *)
  | FxLoad                                                 (* repository.load_or_default *)
  | FxChangeDraft (request : ChangeSetDraftRequest)        (* changes.draft *)
  | FxChangeGet (id : Uuid)
  | FxBindingDigest (id : Uuid) (version : N)
  | FxChangeApprove (id : Uuid) (version : N)
  | FxChangeReject (id : Uuid) (version : N)
  | FxExecuteBatch (batch : list (Uuid * N))               (* changes.execute_with_policy of each *)
  | FxChangeRollback (id : Uuid) (version : N)
  | FxTool (request : NativeToolRequest)                   (* tools.execute *)
  | FxAudit.                                               (* tools.audit *)

Definition FxAnswer (q : FxQuery) : Type :=
  match q with
  | FxNow => N
  | FxLoad => AppResult (list PersistedFleetRun)
  | FxChangeDraft _ | FxChangeGet _ | FxChangeApprove _ _ | FxChangeReject _ _ | FxChangeRollback _ _ =>
      AppResult ChangeSet
  | FxBindingDigest _ _ => AppResult str
  | FxExecuteBatch _ => nat -> AppResult ChangeSet * N     (* of the n-th of the batch, and its time *)
  | FxTool _ => AppResult ToolResult
  | FxAudit => AppResult (list ToolAuditRecord)
  end.

Abbreviation FxHeld := (held Fleets (list PersistedFleetRun)) (only parsing).
Abbreviation FxProc := (proc Fleets (list PersistedFleetRun) FxQuery FxAnswer) (only parsing).

Definition asked_ok {A} (q : FxQuery) (f : FxAnswer q -> AppResult A) : FxProc A := a ← ask q; lift (f a).
Definition change_get (id : Uuid) : FxProc ChangeSet := asked_ok (FxChangeGet id) (fun a => a).
Definition binding_digest (id : Uuid) (version : N) : FxProc str := asked_ok (FxBindingDigest id version) (fun a => a).

Section Service.
(** Whether the service has a repository ([at_path]) or not ([default]). *)
Context (durable : bool).

Definition fleet_persisting {X} (items : Fleets) (k : AppResult unit -> Fleets * AppResult X) : FxHeld X :=
  if durable then Save items (persisted_runs items) k
  else let '(items', r) := k (Ok tt) in Leave items' r.
(** [persist_locked(&items).await?] and then the output. *)
Definition fleet_save {X} (items : Fleets) (output : X) : FxHeld X :=
  fleet_persisting items (fun saved => (items, saved ≫= fun _ => Ok output)).

(** A section on one run, at a time. *)
Definition with_run {X} (id : Uuid) (k : N -> Fleets -> MultiChangeSet -> FxHeld X) : FxProc X :=
  now ← ask FxNow;
  locked (fun items =>
    match items !! id with
    | None => Leave items (Err InvalidOperation)
    | Some run => k now items run
    end).
(** ... that changes it and saves. *)
Definition change_run (id : Uuid) (f : N -> MultiChangeSet -> MultiChangeSet) : FxProc MultiChangeSet :=
  with_run id (fun now items run => let run' := f now run in fleet_save (<[id := run']> items) run').

Definition fleet_get (id : Uuid) : FxProc MultiChangeSet :=
  locked (fun items => Leave items (ok_or (items !! id) InvalidOperation)).

Definition fleet_list : FxProc (list MultiChangeSet) :=
  locked (fun items => Leave items (Ok (sort_by_key mc_id (map snd (map_to_list items))))).

Definition loadable (p : PersistedFleetRun) : bool :=
  (pf_schema_version p =? FLEET_SCHEMA_VERSION)%N && negb (bool_decide (pf_targets p = []))
  && (length (pf_targets p) <=? MAX_TARGETS)%nat.

Definition fleet_load : FxProc unit :=
  if negb durable then mret tt
  else
    answer ← ask FxLoad;
    records ← lift answer;
    now ← ask FxNow;
    locked (fun _ =>
      let records := take MAX_FLEET_RUNS (List.filter loadable records) in
      let items : Fleets := foldl (fun items p => <[pf_id p := recovered_run now p]> items) ∅ records in
      fleet_save items tt).

(** *** Drafts *)
Fixpoint draft_targets (targets : list ChangeSetDraftRequest) : FxProc (list ChangeSet) :=
  match targets with
  | [] => mret []
  | target :: rest =>
      change_set ← asked_ok (FxChangeDraft target) (fun a => a);
      change_sets ← draft_targets rest;
      mret (change_set :: change_sets)
  end.

Definition drafted_run (r : MultiChangeSetDraftRequest) (binding : option FleetOrchestrationBinding)
    (id : Uuid) (now : N) (change_sets : list ChangeSet) : MultiChangeSet :=
  {| mc_id := id; mc_agent_run_id := mr_agent_run_id r; mc_title := mr_title r; mc_version := 1;
     mc_risk := default R2 (max_by_key risk_rank (map cs_risk change_sets));
     mc_execution_strategy := mr_execution_strategy r; mc_failure_policy := mr_failure_policy r;
     mc_batch_size := mr_batch_size r; mc_canary_count := mr_canary_count r;
     mc_production := mr_production r; mc_service_verification := mr_service_verification r;
     mc_cross_target_verification := mr_cross_target_verification r;
     mc_orchestration_binding := binding; mc_targets := map fleet_target change_sets;
     mc_approval_state := CsDraft; mc_approval := None; mc_last_approval := None;
     mc_execution_state := FxDraft;
     mc_verification := {| fv_cross_target := VerPending; fv_service_level := VerPending |};
     mc_recovery_state := FxLive; mc_tool_call_count := 0; mc_started_at_epoch_ms := None;
     mc_completed_at_epoch_ms := None; mc_duration_ms := None;
     mc_audit := [{| fae_state := FxDraft; fae_target_id := None; fae_code := lit "FLEET_DRAFTED";
                     fae_occurred_at_epoch_ms := now |}];
     mc_policy_evaluation := None; mc_policy_snapshot := None |}.

(** [id] is the identifier drawn. *)
Definition draft_inner (request : MultiChangeSetDraftRequest) (binding : option FleetOrchestrationBinding)
    (id : Uuid) : FxProc MultiChangeSet :=
  lift (validate_request request) ;;
  lift (reject_if (negb (bool_decide (NoDup (map dr_session_id (mr_targets request))))) InvalidOperation) ;;
  change_sets ← draft_targets (mr_targets request);
  now ← ask FxNow;
  let run := drafted_run request binding id now change_sets in
  locked (fun items =>
    let items' := <[id := run]> items in
    fleet_persisting items' (fun saved =>
      match saved with
      | Ok _ => (items', Ok run)
      | Err e => (delete id items', Err e)
      end)).

Definition fleet_draft (request : MultiChangeSetDraftRequest) (id : Uuid) : FxProc MultiChangeSet :=
  draft_inner request None id.

Definition draft_bound (request : MultiChangeSetDraftRequest) (binding : FleetOrchestrationBinding)
    (id : Uuid) : FxProc MultiChangeSet :=
  if negb (valid_digest (fo_binding_digest binding)) || negb (valid_digest (fo_graph_digest binding))
     || negb (valid_digest (fo_verification_contract_digest binding))
     || negb (length (fo_targets binding) =? length (mr_targets request))%nat
     || existsb (fun target => negb (existsb (fun b => ob_session_id b =? dr_session_id target)%N
                                       (fo_targets binding))) (mr_targets request)
  then lift (Err InvalidOperation)
  else draft_inner request (Some binding) id.

Definition bind_policy (id : Uuid) (evaluation : PolicyEvaluation) : FxProc MultiChangeSet :=
  change_run id (fun _ => run_policy (Some evaluation) (Some (snapshot_of evaluation))).

(** *** Invalidation *)
Definition invalidated_run (now : N) (code : str) (r : MultiChangeSet) : MultiChangeSet :=
  push_event now None code (run_state FxDraft (run_approval CsInvalidated None (mc_last_approval r) r)).

Definition fleet_invalidate (id : Uuid) (code : str) : FxProc unit :=
  change_run id (fun now => invalidated_run now code) ;; mret tt.
Definition invalidate_policy_change (id : Uuid) : FxProc unit :=
  fleet_invalidate id (lit "FLEET_POLICY_SNAPSHOT_CHANGED").

(** [iter_mut().find(p)] and what is done to the one found. *)
Fixpoint update_first {A} (p : A -> bool) (f : A -> A) (l : list A) : list A :=
  match l with
  | [] => []
  | x :: rest => if p x then f x :: rest else x :: update_first p f rest
  end.

Definition retargeted (target_id : Uuid) (version : N) (t : FleetTargetExecution) : FleetTargetExecution :=
  {| te_target_id := target_id; te_change_set_id := te_change_set_id t; te_change_set_version := version;
     te_state := TgPending; te_local_verification := VerPending; te_service_verification := VerPending;
     te_rollback_state := VerNotApplicable; te_error_code := None; te_duration_ms := te_duration_ms t |}.

Definition of_change_set (change_set_id : Uuid) (t : FleetTargetExecution) : bool :=
  (te_change_set_id t =? change_set_id)%N.

Definition is_invalidated_by (change_set_id : Uuid) (r : MultiChangeSet) : bool :=
  existsb (of_change_set change_set_id) (mc_targets r)
  && match mc_execution_state r with FxDraft | FxApproved => true | _ => false end.

Definition target_invalidated (now : N) (change_set_id target_id : Uuid) (version : N) (r : MultiChangeSet) :
    MultiChangeSet :=
  let r := run_targets (update_first (of_change_set change_set_id) (retargeted target_id version) (mc_targets r)) r in
  let r := run_state FxDraft (run_approval CsInvalidated None (mc_last_approval r) r) in
  push_event now None (lit "FLEET_APPROVAL_INVALIDATED") (run_version (sat_add64 (mc_version r) 1) r).

Definition invalidate_target (change_set_id target_id : Uuid) (version : N) : FxProc unit :=
  now ← ask FxNow;
  locked (fun items =>
    let items' := (fun r => if is_invalidated_by change_set_id r
                            then target_invalidated now change_set_id target_id version r else r) <$> items in
    if existsb (is_invalidated_by change_set_id) (map snd (map_to_list items))
    then fleet_save items' tt else Leave items' (Ok tt)).

(** *** Approval *)
Definition target_changed (t : FleetTargetExecution) (current : ChangeSet) : bool :=
  negb (cs_session_id current =? te_target_id t)%N
  || negb (cs_version current =? te_change_set_version t)%N
  || negb (bool_decide (cs_execution_state current = NotStarted)).

Fixpoint approval_bindings (id : Uuid) (targets : list FleetTargetExecution) :
    FxProc (list TargetApprovalBinding) :=
  match targets with
  | [] => mret []
  | t :: rest =>
      current ← change_get (te_change_set_id t);
      if target_changed t current then
        fleet_invalidate id (lit "FLEET_APPROVAL_TARGET_CHANGED") ;; lift (Err InvalidOperation)
      else
        digest ← binding_digest (cs_id current) (cs_version current);
        bindings ← approval_bindings id rest;
        mret ({| ta_target_id := cs_session_id current; ta_change_set_id := cs_id current;
                 ta_change_set_version := cs_version current; ta_precondition_digest := Some digest |} :: bindings)
  end.

Fixpoint approve_change_sets (bindings : list TargetApprovalBinding) : FxProc unit :=
  match bindings with
  | [] => mret tt
  | b :: rest =>
      asked_ok (FxChangeApprove (ta_change_set_id b) (ta_change_set_version b)) (fun a => a) ;;
      approve_change_sets rest
  end.

(** [let _ = changes.reject(..)] of each. *)
Fixpoint reject_change_sets (bindings : list TargetApprovalBinding) : FxProc unit :=
  match bindings with
  | [] => mret tt
  | b :: rest =>
      ask (FxChangeReject (ta_change_set_id b) (ta_change_set_version b)) ;; reject_change_sets rest
  end.

Definition binding_digest_of (r : MultiChangeSet) : option str :=
  fo_binding_digest <$> mc_orchestration_binding r.

Definition approval_of (now version : N) (bindings : list TargetApprovalBinding) (r : MultiChangeSet) :
    FleetApprovalBinding :=
  {| fb_fleet_version := version; fb_target_ids := map te_target_id (mc_targets r); fb_targets := bindings;
     fb_orchestration_binding_digest := binding_digest_of r; fb_approved_at_epoch_ms := now |}.

Definition approved_run (now version : N) (bindings : list TargetApprovalBinding) (r : MultiChangeSet) :
    MultiChangeSet :=
  let approval := approval_of now version bindings r in
  push_event now None (lit "FLEET_APPROVED")
    (run_approval CsApproved (Some approval) (Some approval) (run_state FxApproved r)).

Definition fleet_approve (id : Uuid) (version : N) (exact_target_ids : list Uuid) : FxProc MultiChangeSet :=
  snapshot ← fleet_get id;
  lift (validate_live_version snapshot version) ;;
  if negb (bool_decide (mc_execution_state snapshot = FxDraft))
     || negb (exact_targets_match (mc_targets snapshot) exact_target_ids)
  then lift (Err InvalidOperation)
  else
    bindings ← approval_bindings id (mc_targets snapshot);
    approve_change_sets bindings ;;
    '(saved, output) ← with_run id (fun now items run =>
      match validate_live_version run version with
      | Err e => Leave items (Err e)
      | Ok _ =>
          let run' := approved_run now version bindings run in
          let items' := <[id := run']> items in
          fleet_persisting items' (fun saved => (items', Ok (saved, run')))
      end);
    match saved with
    | Ok _ => mret output
    | Err error =>
        reject_change_sets (default [] (fb_targets <$> mc_approval output)) ;;
        locked (fun items => Leave (<[id := snapshot]> items) (Ok tt)) ;;
        lift (Err error)
    end.

(** *** Recording what happened to a target *)
Definition of_target (target_id : Uuid) (t : FleetTargetExecution) : bool := (te_target_id t =? target_id)%N.

(** A section on one target of a run, which must exist. *)
Definition with_target {X} (id target_id : Uuid) (f : N -> FleetTargetExecution -> FleetTargetExecution)
    (g : N -> MultiChangeSet -> MultiChangeSet) (output : X) : FxProc X :=
  with_run id (fun now items run =>
    if negb (existsb (of_target target_id) (mc_targets run)) then Leave items (Err InvalidOperation)
    else
      let run := g now (run_targets (update_first (of_target target_id) (f now) (mc_targets run)) run) in
      fleet_save (<[id := run]> items) output).

Definition one_more_call (r : MultiChangeSet) : MultiChangeSet :=
  run_tool_calls (sat_add32 (mc_tool_call_count r) 1) r.

(** The state of the target, and whether it failed. *)
Definition recorded_target (result : AppResult ChangeSet) (duration : N) (t : FleetTargetExecution) :
    FleetTargetExecution :=
  match result with
  | Ok c =>
      if bool_decide (cs_execution_state c = Committed) then
        target_with t TgSucceeded VerSucceeded (te_service_verification t) (te_rollback_state t) None (Some duration)
      else
        let '(state, rollback) := match cs_execution_state c with
                                  | RolledBack => (TgRolledBack, VerSucceeded)
                                  | RollbackFailed => (TgRollbackFailed, VerFailed)
                                  | _ => (TgFailed, VerNotApplicable)
                                  end in
        let code := match List.find (fun s => negb (bool_decide (cst_error_code s = None))) (cs_steps c) with
                    | Some s => cst_error_code s
                    | None => Some (lit "TARGET_EXECUTION_FAILED")
                    end in
        target_with t state VerFailed (te_service_verification t) rollback code (Some duration)
  | Err e =>
      target_with t TgFailed VerFailed (te_service_verification t) (te_rollback_state t) (Some (error_code e))
        (Some duration)
  end.
Definition execution_failed (result : AppResult ChangeSet) : bool :=
  match result with Ok c => negb (bool_decide (cs_execution_state c = Committed)) | Err _ => true end.

Definition record_execution_result (id target_id : Uuid) (result : AppResult ChangeSet) (duration : N) :
    FxProc bool :=
  let failed := execution_failed result in
  with_target id target_id (fun _ => recorded_target result duration)
    (fun now r => push_event now (Some target_id)
       (lit (if failed then "TARGET_EXECUTION_FAILED" else "TARGET_EXECUTION_SUCCEEDED")%string) (one_more_call r))
    failed.

(** [mark_targets]: an index out of range ends the loop, without a save. *)
Fixpoint mark_indexes (now : N) (indexes : list nat) (state : FleetTargetState) (code : str) (r : MultiChangeSet) :
    MultiChangeSet * AppResult unit :=
  match indexes with
  | [] => (r, Ok tt)
  | i :: rest =>
      match mc_targets r !! i with
      | None => (r, Err InvalidOperation)
      | Some t =>
          mark_indexes now rest state code
            (push_event now (Some (te_target_id t)) code (run_targets (<[i := target_state state t]> (mc_targets r)) r))
      end
  end.

Definition mark_targets (id : Uuid) (indexes : list nat) (state : FleetTargetState) (code : str) : FxProc unit :=
  with_run id (fun now items run =>
    match mark_indexes now indexes state code run with
    | (run', Ok _) => fleet_save (<[id := run']> items) tt
    | (run', Err e) => Leave (<[id := run']> items) (Err e)
    end).

Definition fleet_set_state (id : Uuid) (state : FleetExecutionState) (code : str) : FxProc unit :=
  change_run id (fun now r => push_event now None code (run_state state r)) ;; mret tt.

(** *** Rollback *)
Definition mark_target_rollback (id target_id : Uuid) (state : FleetTargetState) : FxProc unit :=
  with_target id target_id
    (fun _ t => target_with t state (te_local_verification t) (te_service_verification t) VerPending
                  (te_error_code t) (te_duration_ms t))
    (fun now => push_event now (Some target_id) (lit "TARGET_ROLLBACK_PENDING")) tt.

Definition rolled_back (result : AppResult ChangeSet) : bool :=
  match result with Ok c => bool_decide (cs_execution_state c = RolledBack) | Err _ => false end.

Definition record_rollback_result (id target_id : Uuid) (result : AppResult ChangeSet) : FxProc unit :=
  let succeeded := rolled_back result in
  with_run id (fun now items run =>
    let run := one_more_call run in
    if negb (existsb (of_target target_id) (mc_targets run)) then Leave (<[id := run]> items) (Err InvalidOperation)
    else
      let f t := target_with t (if succeeded then TgRolledBack else TgRollbackFailed) (te_local_verification t)
                   (te_service_verification t) (if succeeded then VerSucceeded else VerFailed)
                   (match result with Err e => Some (error_code e) | Ok _ => te_error_code t end) (te_duration_ms t) in
      let run := push_event now (Some target_id)
                   (lit (if succeeded then "TARGET_ROLLED_BACK" else "TARGET_ROLLBACK_FAILED")%string)
                   (run_targets (update_first (of_target target_id) f (mc_targets run)) run) in
      fleet_save (<[id := run]> items) tt).

Fixpoint rollback_targets (id : Uuid) (completed : list FleetTargetExecution) (any_failed : bool) : FxProc bool :=
  match completed with
  | [] => mret any_failed
  | t :: rest =>
      mark_target_rollback id (te_target_id t) TgRollbackPending ;;
      result ← ask (FxChangeRollback (te_change_set_id t) (te_change_set_version t));
      record_rollback_result id (te_target_id t) result ;;
      rollback_targets id rest (any_failed || negb (rolled_back result))
  end.

Definition has_state (s : FleetTargetState) (t : FleetTargetExecution) : bool := bool_decide (te_state t = s).

Definition rollback_completed (id : Uuid) : FxProc unit :=
  fleet_set_state id FxRollingBack (lit "FLEET_ROLLBACK_STARTED") ;;
  run ← fleet_get id;
  let targets := mc_targets run in
  any_failed ← rollback_targets id (List.filter (has_state TgSucceeded) (rev targets))
                 (existsb (has_state TgRollbackFailed) targets);
  fleet_set_state id (if any_failed : bool then FxRollbackFailed else FxRolledBack)
    (lit (if any_failed then "FLEET_ROLLBACK_FAILED" else "FLEET_ROLLED_BACK")%string).

Definition apply_failure_policy (id : Uuid) : FxProc bool :=
  run ← fleet_get id;
  match mc_failure_policy run with
  | FxContinue => mret false
  | FxStop => fleet_set_state id FxFailed (lit "FLEET_STOPPED_ON_FAILURE") ;; mret true
  | FxPauseForReview => fleet_set_state id FxPausedForReview (lit "FLEET_PAUSED_FOR_REVIEW") ;; mret true
  | FxRollback => rollback_completed id ;; mret true
  end.

Definition real_rollback (s : ChangeStep) : bool :=
  bool_decide (cst_state s = StepSucceeded) && negb (str_eqb (cst_rollback_capability s) (lit "not-supported")).

(** Whether a completed change set can really be rolled back. *)
Fixpoint find_real_rollback (completed : list FleetTargetExecution) (found : bool) : FxProc bool :=
  match completed with
  | [] => mret found
  | t :: rest =>
      change ← change_get (te_change_set_id t);
      if negb (cs_session_id change =? te_target_id t)%N
         || negb (cs_version change =? te_change_set_version t)%N
      then lift (Err InvalidOperation)
      else find_real_rollback rest (found || existsb real_rollback (cs_steps change))
  end.

Definition rollback_explicit (id : Uuid) (version : N) : FxProc MultiChangeSet :=
  snapshot ← fleet_get id;
  lift (validate_live_version snapshot version) ;;
  match mc_execution_state snapshot with
  | FxPausedForReview | FxFailed | FxSucceeded =>
      let completed := List.filter (has_state TgSucceeded) (mc_targets snapshot) in
      if bool_decide (completed = []) then lift (Err InvalidOperation)
      else
        found ← find_real_rollback completed false;
        if negb found then lift (Err InvalidOperation)
        else rollback_completed id ;; fleet_get id
  | _ => lift (Err InvalidOperation)
  end.

(** *** Verification *)
Definition record_service_verification (id target_id : Uuid) (succeeded : bool) : FxProc unit :=
  with_run id (fun now items run =>
    let run := one_more_call run in
    if negb (existsb (of_target target_id) (mc_targets run)) then Leave (<[id := run]> items) (Err InvalidOperation)
    else
      let f t := target_with t (te_state t) (te_local_verification t) (if succeeded then VerSucceeded else VerFailed)
                   (te_rollback_state t) (te_error_code t) (te_duration_ms t) in
      let run := push_event now (Some target_id)
                   (lit (if succeeded then "TARGET_SERVICE_VERIFIED" else "TARGET_SERVICE_VERIFICATION_FAILED")%string)
                   (run_targets (update_first (of_target target_id) f (mc_targets run)) run) in
      fleet_save (<[id := run]> items) tt).

Definition service_active (result : ToolResult) : bool :=
  tr_success result
  && match tr_data result with
     | Some (TDServiceStatus service) => bool_decide (sh_status service = SvcActive)
     | _ => false
     end.

Definition verification_request (snapshot : MultiChangeSet) (service : str) (t : FleetTargetExecution) :
    NativeToolRequest :=
  request_approved (te_target_id t) (InvServiceStatus service)
    {| au_agent_run_id := mc_agent_run_id snapshot; au_change_set_id := te_change_set_id t;
       au_change_set_version := te_change_set_version t; au_rollback := false |}.

Fixpoint verify_services (id : Uuid) (snapshot : MultiChangeSet) (service : str)
    (targets : list FleetTargetExecution) : FxProc unit :=
  match targets with
  | [] => mret tt
  | t :: rest =>
      result ← asked_ok (FxTool (verification_request snapshot service t)) (fun a => a);
      record_service_verification id (te_target_id t) (service_active result) ;;
      verify_services id snapshot service rest
  end.

Definition not_applicable (r : MultiChangeSet) : MultiChangeSet :=
  run_verified {| fv_cross_target := fv_cross_target (mc_verification r); fv_service_level := VerNotApplicable |}
    (run_targets (map (fun t => target_with t (te_state t) (te_local_verification t) VerNotApplicable
                                  (te_rollback_state t) (te_error_code t) (te_duration_ms t)) (mc_targets r)) r).

Definition ver_of (ok : bool) : VerificationState := if ok then VerSucceeded else VerFailed.

(** The last section: what the verification says of the run. *)
Definition verified_run (now : N) (r : MultiChangeSet) : MultiChangeSet :=
  let required := negb (bool_decide (mc_service_verification r = None)) in
  let '(local_ok, service_ok) := verification_outcome (mc_targets r) required in
  let ok := local_ok && service_ok in
  let r := run_verified
    {| fv_service_level := if required then ver_of service_ok else VerNotApplicable;
       fv_cross_target := if mc_cross_target_verification r then ver_of ok else VerNotApplicable |} r in
  let state := if ok then FxSucceeded
               else match mc_failure_policy r with FxPauseForReview => FxPausedForReview | _ => FxFailed end in
  push_event now None (lit (if ok then "FLEET_VERIFICATION_SUCCEEDED" else "FLEET_VERIFICATION_FAILED")%string)
    (run_state state r).
Definition needs_rollback (r : MultiChangeSet) : bool :=
  let required := negb (bool_decide (mc_service_verification r = None)) in
  let '(local_ok, service_ok) := verification_outcome (mc_targets r) required in
  negb (local_ok && service_ok) && bool_decide (mc_failure_policy r = FxRollback).

Definition verify_fleet (id : Uuid) : FxProc unit :=
  fleet_set_state id FxVerifying (lit "FLEET_VERIFYING") ;;
  snapshot ← fleet_get id;
  (match mc_service_verification snapshot with
   | Some service =>
       verify_services id snapshot service (List.filter (has_state TgSucceeded) (mc_targets snapshot))
   | None => change_run id (fun _ => not_applicable) ;; mret tt
   end) ;;
  rollback ← with_run id (fun now items run =>
    fleet_save (<[id := verified_run now run]> items) (needs_rollback run));
  if rollback : bool then rollback_completed id else mret tt.

(** *** Execution *)
Definition binding_changed (b : TargetApprovalBinding) (current : ChangeSet) (digest : option str) : bool :=
  negb (cs_session_id current =? ta_target_id b)%N
  || negb (cs_version current =? ta_change_set_version b)%N
  || negb (bool_decide (cs_approved_version current = Some (ta_change_set_version b)))
  || negb (bool_decide (cs_approval_state current = CsApproved))
  || negb (bool_decide (digest = ta_precondition_digest b)).

Fixpoint check_bindings (id : Uuid) (bindings : list TargetApprovalBinding) : FxProc unit :=
  match bindings with
  | [] => mret tt
  | b :: rest =>
      current ← change_get (ta_change_set_id b);
      digest ← (if bool_decide (ta_precondition_digest b = None) then mret None
                else d ← binding_digest (ta_change_set_id b) (ta_change_set_version b); mret (Some d));
      if binding_changed b current digest then
        fleet_invalidate id (lit "FLEET_APPROVAL_BINDING_CHANGED") ;; lift (Err InvalidOperation)
      else check_bindings id rest
  end.

Definition executable_state (s : FleetExecutionState) : bool :=
  match s with FxApproved | FxPausedForReview => true | _ => false end.

Definition claim_refused_fleet (version : N) (snapshot : MultiChangeSet) (approval : FleetApprovalBinding) : bool :=
  negb (executable_state (mc_execution_state snapshot))
  || negb (bool_decide (mc_approval_state snapshot = CsApproved))
  || negb (fb_fleet_version approval =? version)%N
  || negb (exact_targets_match (mc_targets snapshot) (fb_target_ids approval))
  || negb (bool_decide (fb_orchestration_binding_digest approval = binding_digest_of snapshot)).

Definition claimed_run (now : N) (r : MultiChangeSet) : MultiChangeSet :=
  push_event now None (lit "FLEET_EXECUTION_CLAIMED")
    (run_times (Some (default now (mc_started_at_epoch_ms r))) None None (run_state FxExecuting r)).

Definition fleet_claim_execution (id : Uuid) (version : N) : FxProc MultiChangeSet :=
  snapshot ← fleet_get id;
  lift (validate_live_version snapshot version) ;;
  approval ← lift (ok_or (mc_approval snapshot) InvalidOperation);
  if claim_refused_fleet version snapshot approval then lift (Err InvalidOperation)
  else
    check_bindings id (fb_targets approval) ;;
    change_run id claimed_run.

Fixpoint record_batch (id : Uuid) (targets : list FleetTargetExecution)
    (results : nat -> AppResult ChangeSet * N) (n : nat) (failed : bool) : FxProc bool :=
  match targets with
  | [] => mret failed
  | t :: rest =>
      let '(result, duration) := results n in
      failed' ← record_execution_result id (te_target_id t) result duration;
      record_batch id rest results (S n) (failed || failed')
  end.

(** [&snapshot.targets[*index]] panics out of range. *)
Fixpoint batch_targets (snapshot : MultiChangeSet) (batch : list nat) : option (list FleetTargetExecution) :=
  match batch with
  | [] => Some []
  | i :: rest => t ← mc_targets snapshot !! i; ts ← batch_targets snapshot rest; Some (t :: ts)
  end.

Definition change_of (t : FleetTargetExecution) : Uuid * N := (te_change_set_id t, te_change_set_version t).

Fixpoint execute_batches (id : Uuid) (snapshot : MultiChangeSet) (batches : list (list nat)) : FxProc unit :=
  match batches with
  | [] => mret tt
  | batch :: rest =>
      mark_targets id batch TgExecuting (lit "TARGET_EXECUTING") ;;
      targets ← indexed (batch_targets snapshot batch);
      results ← ask (FxExecuteBatch (map change_of targets));
      failed ← record_batch id targets results 0 false;
      stop ← (if failed : bool then apply_failure_policy id else mret false);
      if stop : bool then mret tt else execute_batches id snapshot rest
  end.

Definition settled_fleet (s : FleetExecutionState) : bool :=
  match s with FxPausedForReview | FxFailed | FxRolledBack | FxRollbackFailed => true | _ => false end.

Definition audited_calls (agent_run_id : Uuid) (records : list ToolAuditRecord) : N :=
  N.min (N.of_nat (length (List.filter (fun r => bool_decide (tar_agent_run_id r = Some agent_run_id)) records)))
    U32_MAX.

Definition completed_run (now : N) (calls : option N) (r : MultiChangeSet) : MultiChangeSet :=
  let r := match calls with Some n => run_tool_calls n r | None => r end in
  if bool_decide (mc_completed_at_epoch_ms r = None) then finish_run now r else r.

Definition fleet_execute (id : Uuid) (version : N) : FxProc MultiChangeSet :=
  snapshot ← fleet_claim_execution id version;
  batches ← lift (execution_batches snapshot);
  execute_batches id snapshot batches ;;
  current ← fleet_get id;
  (if settled_fleet (mc_execution_state current) then mret tt else verify_fleet id) ;;
  records ← ask FxAudit;
  let calls := match records with
               | Ok records => Some (audited_calls (mc_agent_run_id snapshot) records)
               | Err _ => None
               end in
  change_run id (fun now => completed_run now calls).

(** ** The service as a whole *)
Inductive FxCall :=
  | FcLoad
  | FcDraft (request : MultiChangeSetDraftRequest) (id : Uuid)
  | FcDraftBound (request : MultiChangeSetDraftRequest) (binding : FleetOrchestrationBinding) (id : Uuid)
  | FcBindPolicy (id : Uuid) (evaluation : PolicyEvaluation)
  | FcGet (id : Uuid)
  | FcList
  | FcApprove (id : Uuid) (version : N) (target_ids : list Uuid)
  | FcInvalidateTarget (change_set_id target_id : Uuid) (version : N)
  | FcInvalidatePolicy (id : Uuid)
  | FcExecute (id : Uuid) (version : N)
  | FcRollback (id : Uuid) (version : N).

Inductive FxReply := FrUnit | FrRun (r : MultiChangeSet) | FrRuns (l : list MultiChangeSet).

Definition fleet_reply {A} (f : A -> FxReply) (p : FxProc A) : FxProc FxReply := a ← p; mret (f a).

Definition fx_body (call : FxCall) : FxProc FxReply :=
  match call with
  | FcLoad => fleet_reply (fun _ => FrUnit) fleet_load
  | FcDraft request id => fleet_reply FrRun (fleet_draft request id)
  | FcDraftBound request binding id => fleet_reply FrRun (draft_bound request binding id)
  | FcBindPolicy id evaluation => fleet_reply FrRun (bind_policy id evaluation)
  | FcGet id => fleet_reply FrRun (fleet_get id)
  | FcList => fleet_reply FrRuns fleet_list
  | FcApprove id version target_ids => fleet_reply FrRun (fleet_approve id version target_ids)
  | FcInvalidateTarget c t v => fleet_reply (fun _ => FrUnit) (invalidate_target c t v)
  | FcInvalidatePolicy id => fleet_reply (fun _ => FrUnit) (invalidate_policy_change id)
  | FcExecute id version => fleet_reply FrRun (fleet_execute id version)
  | FcRollback id version => fleet_reply FrRun (rollback_explicit id version)
  end.
End Service.
