(* ===== verification/FleetBound.v ===== *)
(** * What binds a fleet to its approval

    The bindings of an approval name the change sets of the targets, one for one, and a
    live run has batches of at least one target: every section of the service keeps it,
    except the one that approves, which FleetExecutionTheorems treats. *)
From S2P Require Import Prelude Str Errors RunState Tools Policy Decision Evidence.
From S2P Require Import Process Execution ChangeSets FleetExecution.

Definition binds (t : FleetTargetExecution) (b : TargetApprovalBinding) : Prop :=
  ta_target_id b = te_target_id t /\ (ta_change_set_id b, ta_change_set_version b) = change_of t.

Record bound_run (r : MultiChangeSet) : Prop := {
  bound_batch : mc_recovery_state r = FxLive -> (1 <= mc_batch_size r)%nat;
  bound_approval : forall approval, mc_approval r = Some approval -> Forall2 binds (mc_targets r) (fb_targets approval);
}.
Definition fleets_bound (s : Fleets) : Prop := forall id r, s !! id = Some r -> bound_run r.

(** What a section may do to a run under its approval. *)
Definition target_kept (t t' : FleetTargetExecution) : Prop :=
  te_target_id t' = te_target_id t /\ change_of t' = change_of t.
Record plan_kept (r r' : MultiChangeSet) : Prop := {
  plan_batch : mc_batch_size r' = mc_batch_size r;
  plan_live : mc_recovery_state r' = mc_recovery_state r;
  plan_approval : mc_approval r' = mc_approval r;
  plan_targets : Forall2 target_kept (mc_targets r) (mc_targets r');
}.

Lemma target_kept_refl t : target_kept t t.
Proof. done. Qed.
Lemma targets_kept_refl ts : Forall2 target_kept ts ts.
Proof. by apply Forall_Forall2_diag, Forall_true. Qed.
Lemma targets_kept_trans ts1 ts2 ts3 :
  Forall2 target_kept ts1 ts2 -> Forall2 target_kept ts2 ts3 -> Forall2 target_kept ts1 ts3.
Proof. apply Forall2_trans. unfold target_kept. intros t1 t2 t3 [] []. split; congruence. Qed.
#[local] Hint Resolve target_kept_refl targets_kept_refl : core.

Lemma plan_kept_trans r1 r2 r3 : plan_kept r1 r2 -> plan_kept r2 r3 -> plan_kept r1 r3.
Proof. intros [] []. split; try congruence. by eapply targets_kept_trans. Qed.

Lemma plan_kept_bound r r' : plan_kept r r' -> bound_run r -> bound_run r'.
Proof.
  intros [Hb Hl Ha Ht] [H1 H2]. split; [by rewrite Hb, Hl|]. rewrite Ha. intros approval Happ.
  specialize (H2 _ Happ). clear -Ht H2. revert H2. generalize (fb_targets approval). induction Ht as [|t t' ts ts' [Hid Hc] _ IH]; intros bs H2.
  - by inversion H2.
  - inversion H2 as [|? b ? bs' [Hbi Hbc]]; subst. constructor; [|by apply IH]. split; congruence.
Qed.

(** *** Sections *)
Definition bound_section (s s' : Fleets) : Prop := fleets_bound s -> fleets_bound s'.
Abbreviation quiet p := (sections_do bound_section p) (only parsing).

Lemma bound_insert id r s : bound_run r -> fleets_bound s -> fleets_bound (<[id := r]> s).
Proof. intros Hr Hs id' r' [[_ <-]|[_ ?]]%lookup_insert_Some; eauto. Qed.

Definition bound_held {X} (s : Fleets) (h : held Fleets (list PersistedFleetRun) X) : Prop :=
  match h with
  | Leave s' _ => bound_section s s'
  | Save _ _ k => forall saved, bound_section s (fst (k saved))
  end.

Lemma quiet_locked {X} (section : Fleets -> held Fleets (list PersistedFleetRun) X) :
  (forall s, bound_held s (section s)) -> quiet (locked (Q := FxQuery) (Ans := FxAnswer) section).
Proof. intros H. split; [exact H|done]. Qed.

Lemma quiet_ask q : quiet (ask (S := Fleets) (R := list PersistedFleetRun) (Ans := FxAnswer) q).
Proof. done. Qed.
Lemma quiet_lift {A} (r : AppResult A) : quiet (lift (S := Fleets) (R := list PersistedFleetRun) (Q := FxQuery) (Ans := FxAnswer) r).
Proof. done. Qed.

Section Calls.
Context (durable : bool).

Lemma bound_persisting {X} s items (k : AppResult unit -> Fleets * AppResult X) :
  (forall saved, bound_section s (fst (k saved))) -> bound_held s (fleet_persisting durable items k).
Proof.
  intros Hk. unfold fleet_persisting. destruct durable; [exact Hk|]. specialize (Hk (Ok tt)).
  by destruct (k (Ok tt)).
Qed.

Lemma bound_save {X} s items (output : X) : bound_section s items -> bound_held s (fleet_save durable items output).
Proof. intros Hs. by apply bound_persisting. Qed.

Lemma quiet_with_run {X} id (k : N -> Fleets -> MultiChangeSet -> held Fleets (list PersistedFleetRun) X) :
  (forall now items run, items !! id = Some run -> bound_held items (k now items run)) -> quiet (with_run id k).
Proof.
  intros Hk. apply sections_bind; [done|]. intros now. apply quiet_locked. intros s.
  destruct (s !! id) as [r|] eqn:Hr; [by apply Hk|]. by intros Hs.
Qed.

Lemma bound_update id items run run' :
  items !! id = Some run -> (bound_run run -> bound_run run') -> bound_section items (<[id := run']> items).
Proof. intros Hr Hb Hs. apply bound_insert; [|done]. apply Hb. by eapply Hs. Qed.

Lemma quiet_change id f :
  (forall now run, bound_run run -> bound_run (f now run)) -> quiet (change_run durable id f).
Proof. intros Hf. apply quiet_with_run. intros now items run Hr. apply bound_save. by eapply bound_update; [|apply Hf]. Qed.

Lemma quiet_get id : quiet (fleet_get id).
Proof. apply quiet_locked. by intros s Hs. Qed.

(** *** Changes of a run *)
Lemma bound_plain r r' :
  mc_batch_size r' = mc_batch_size r -> mc_recovery_state r' = mc_recovery_state r -> mc_approval r' = mc_approval r ->
  mc_targets r' = mc_targets r -> bound_run r -> bound_run r'.
Proof. intros ? ? ? Ht. apply plan_kept_bound. split; [done..|]. by rewrite Ht. Qed.
Lemma bound_event now t code r : bound_run r -> bound_run (push_event now t code r).
Proof. by apply bound_plain. Qed.
Lemma bound_state st r : bound_run r -> bound_run (run_state st r).
Proof. by apply bound_plain. Qed.
Lemma bound_targets ts r : Forall2 target_kept (mc_targets r) ts -> bound_run r -> bound_run (run_targets ts r).
Proof. intros Ht. by apply plan_kept_bound. Qed.
Lemma bound_unapproved r r' :
  mc_batch_size r' = mc_batch_size r -> mc_recovery_state r' = mc_recovery_state r -> mc_approval r' = None ->
  bound_run r -> bound_run r'.
Proof. intros Hb Hl Ha [H _]. split; [by rewrite Hb, Hl|]. by rewrite Ha. Qed.

Lemma update_first_same p f ts : (forall t, target_kept t (f t)) -> Forall2 target_kept ts (update_first p f ts).
Proof. intros Hf. induction ts as [|t ts IH]; cbn; [done|]. destruct (p t); constructor; auto. Qed.

Lemma bound_target_update tid f r : (forall t, target_kept t (f t)) -> bound_run r ->
  bound_run (run_targets (update_first (of_target tid) f (mc_targets r)) r).
Proof. intros Hf. by apply bound_targets, update_first_same. Qed.

Lemma bound_marks now indexes state code r : bound_run r -> bound_run (fst (mark_indexes now indexes state code r)).
Proof.
  revert r. induction indexes as [|i rest IH]; intros r Hr; cbn; [done|].
  destruct (mc_targets r !! i) as [t|] eqn:Hi; [|done]. apply IH, bound_event, bound_targets; [|done].
  apply Forall2_same_length_lookup. rewrite length_insert. split; [done|]. intros j t1 t2 H1.
  intros [(<- & <- & _)|[_ H2]]%list_lookup_insert_Some; simplify_eq; done.
Qed.

(** *** Calls *)
#[local] Hint Resolve quiet_ask quiet_lift quiet_get bound_event bound_state : core.
Ltac section := apply quiet_with_run; intros now items run Hr.
Ltac changes := apply quiet_change; intros now run Hb.

Lemma quiet_invalidate id code : quiet (fleet_invalidate durable id code).
Proof. apply sections_bind; [|done]. changes. by eapply bound_event, bound_unapproved; [..|exact Hb]. Qed.

Lemma quiet_set_state id state code : quiet (fleet_set_state durable id state code).
Proof. apply sections_bind; [|done]. changes. auto. Qed.

Lemma quiet_target {X} id tid f g (output : X) :
  (forall now t, target_kept t (f now t)) -> (forall now r, bound_run r -> bound_run (g now r)) ->
  quiet (with_target durable id tid f g output).
Proof.
  intros Hf Hg. section. destruct (negb _); [by intros Hs|]. apply bound_save. eapply bound_update; [done|].
  intros Hb. by apply Hg, bound_target_update.
Qed.

Lemma recorded_same result duration t : target_kept t (recorded_target result duration t).
Proof. unfold recorded_target. destruct result as [c|e]; [|done]. case_bool_decide; [done|]. by destruct (cs_execution_state c). Qed.

Lemma quiet_record id tid result duration : quiet (record_execution_result durable id tid result duration).
Proof. apply quiet_target; [intros; apply recorded_same|]. intros now r. by apply bound_plain. Qed.

Lemma quiet_mark id indexes state code : quiet (mark_targets durable id indexes state code).
Proof.
  section. pose proof (bound_marks now indexes state code run) as Hm. destruct (mark_indexes _ _ _ _ _) as [run' [a|e]];
    [apply bound_save|]; by eapply bound_update.
Qed.

Lemma quiet_record_rollback id tid result : quiet (record_rollback_result durable id tid result).
Proof.
  section. cbv zeta. assert (Hcall : bound_run run -> bound_run (one_more_call run)) by by apply bound_plain.
  destruct (negb _); [by eapply bound_update|]. apply bound_save. eapply bound_update; [done|]. intros Hb.
  by apply bound_event, bound_target_update; [|apply Hcall].
Qed.

Lemma quiet_service id tid ok : quiet (record_service_verification durable id tid ok).
Proof.
  section. cbv zeta. assert (Hcall : bound_run run -> bound_run (one_more_call run)) by by apply bound_plain.
  destruct (negb _); [by eapply bound_update|]. apply bound_save. eapply bound_update; [done|]. intros Hb.
  by apply bound_event, bound_target_update; [|apply Hcall].
Qed.

Lemma quiet_rollback_targets id completed any_failed : quiet (rollback_targets durable id completed any_failed).
Proof.
  revert any_failed. induction completed as [|t rest IH]; intros any_failed; [done|]. cbn [rollback_targets].
  apply sections_bind; [apply quiet_target; [done|auto]|intros []].
  apply sections_bind; [done|intros result]. apply sections_bind; [apply quiet_record_rollback|intros []]. apply IH.
Qed.

Lemma quiet_rollback id : quiet (rollback_completed durable id).
Proof.
  apply sections_bind; [apply quiet_set_state|intros []]. apply sections_bind; [apply quiet_get|intros r].
  apply sections_bind; [apply quiet_rollback_targets|intros b]. apply quiet_set_state.
Qed.

Lemma quiet_failure id : quiet (apply_failure_policy durable id).
Proof.
  apply sections_bind; [apply quiet_get|intros r].
  destruct (mc_failure_policy r); [| |done|]; (apply sections_bind; [|done]); [apply quiet_set_state..|apply quiet_rollback].
Qed.

Lemma quiet_find completed found : quiet (find_real_rollback completed found).
Proof.
  revert found. induction completed as [|t rest IH]; intros found; [done|]. cbn [find_real_rollback].
  apply sections_bind; [by apply sections_free|intros c]. destruct (_ || _); [done|apply IH].
Qed.

Lemma quiet_explicit id version : quiet (rollback_explicit durable id version).
Proof.
  apply sections_bind; [apply quiet_get|intros r]. apply sections_bind; [done|intros []].
  assert (Hgo : quiet (if bool_decide (List.filter (has_state TgSucceeded) (mc_targets r) = []) then lift (Err InvalidOperation)
    else found ← find_real_rollback (List.filter (has_state TgSucceeded) (mc_targets r)) false;
         if negb found then lift (Err InvalidOperation) else rollback_completed durable id ;; fleet_get id)).
  { case_bool_decide; [done|]. apply sections_bind; [apply quiet_find|intros [|]; [|done]].
    apply sections_bind; [apply quiet_rollback|intros []; apply quiet_get]. }
  by destruct (mc_execution_state r).
Qed.

Lemma quiet_services id r service targets : quiet (verify_services durable id r service targets).
Proof.
  induction targets as [|t rest IH]; [done|]. cbn [verify_services]. apply sections_bind; [by apply sections_free|intros result].
  apply sections_bind; [apply quiet_service|intros []; exact IH].
Qed.

Lemma bound_not_applicable r : bound_run r -> bound_run (not_applicable r).
Proof.
  apply plan_kept_bound. split; [done..|]. cbn. rewrite <- (map_id (mc_targets r)) at 1. apply Forall2_fmap.
  apply Forall_Forall2_diag, Forall_true. done.
Qed.

Lemma bound_verified now r : bound_run r -> bound_run (verified_run now r).
Proof. unfold verified_run. destruct (verification_outcome _ _) as [local_ok service_ok]. by apply bound_plain. Qed.

Lemma quiet_verify id : quiet (verify_fleet durable id).
Proof.
  apply sections_bind; [apply quiet_set_state|intros []]. apply sections_bind; [apply quiet_get|intros r].
  apply sections_bind; [|intros []; apply sections_bind; [|intros [|]; [apply quiet_rollback|done]]].
  - destruct (mc_service_verification r); [apply quiet_services|]. apply sections_bind; [|done].
    changes. by apply bound_not_applicable.
  - section. apply bound_save. eapply bound_update; [done|apply bound_verified].
Qed.

Lemma quiet_bindings id bindings : quiet (check_bindings durable id bindings).
Proof.
  induction bindings as [|b rest IH]; [done|]. cbn [check_bindings]. apply sections_bind; [by apply sections_free|intros c].
  apply sections_bind; [case_bool_decide; [done|apply sections_bind; [by apply sections_free|done]]|intros digest]. destruct (binding_changed _ _ _); [|exact IH].
  apply sections_bind; [apply quiet_invalidate|done].
Qed.

Lemma quiet_batch id targets results n failed : quiet (record_batch durable id targets results n failed).
Proof.
  revert n failed. induction targets as [|t rest IH]; intros n failed; [done|]. cbn [record_batch].
  destruct (results n). apply sections_bind; [apply quiet_record|intros; apply IH].
Qed.

Lemma quiet_batches id r batches : quiet (execute_batches durable id r batches).
Proof.
  induction batches as [|batch rest IH]; [done|]. cbn [execute_batches]. apply sections_bind; [apply quiet_mark|intros []].
  apply sections_bind; [by destruct (batch_targets r batch)|intros ts]. apply sections_bind; [done|intros results].
  apply sections_bind; [apply quiet_batch|intros failed].
  apply sections_bind; [destruct failed; [apply quiet_failure|done]|intros [|]; [done|exact IH]].
Qed.

Lemma quiet_claim id version : quiet (fleet_claim_execution durable id version).
Proof.
  apply sections_bind; [apply quiet_get|intros r]. apply sections_bind; [done|intros []]. apply sections_bind; [done|intros a].
  destruct (claim_refused_fleet _ _ _); [done|]. apply sections_bind; [apply quiet_bindings|intros []]. changes.
  by apply bound_plain with (r := run).
Qed.

Lemma quiet_execute id version : quiet (fleet_execute durable id version).
Proof.
  apply sections_bind; [apply quiet_claim|intros r]. apply sections_bind; [done|intros batches].
  apply sections_bind; [apply quiet_batches|intros []]. apply sections_bind; [apply quiet_get|intros current].
  apply sections_bind; [destruct (settled_fleet _); [done|apply quiet_verify]|intros []]. apply sections_bind; [done|intros records].
  changes. unfold completed_run. destruct records; cbn; (case_bool_decide; [|done || by apply bound_plain with (r := run)]); by apply bound_plain with (r := run).
Qed.

Lemma recovered_bound now p : bound_run (recovered_run now p).
Proof. by split. Qed.

Lemma quiet_load : quiet (fleet_load durable).
Proof.
  unfold fleet_load. destruct durable; [|done]. cbn [negb]. apply sections_bind; [done|intros answer].
  apply sections_bind; [done|intros records]. apply sections_bind; [done|intros now]. apply quiet_locked. intros s saved _. cbn.
  assert (H : forall l (items : Fleets), fleets_bound items ->
    fleets_bound (foldl (fun items p => <[pf_id p := recovered_run now p]> items) items l)).
  { induction l as [|p l IH]; intros items Hi; cbn; [done|]. apply IH, bound_insert; [apply recovered_bound|done]. }
  by apply H.
Qed.

Lemma quiet_draft_targets targets : quiet (draft_targets targets).
Proof.
  induction targets as [|t rest IH]; [done|]. cbn [draft_targets]. apply sections_bind; [by apply sections_free|intros c].
  apply sections_bind; [exact IH|done].
Qed.

Lemma quiet_draft_inner request binding id : quiet (draft_inner durable request binding id).
Proof.
  unfold draft_inner. destruct (validate_request request) as [[]|e] eqn:Hv; [|done]. apply sections_bind; [done|intros []].
  apply sections_bind; [done|intros []]. apply sections_bind; [apply quiet_draft_targets|intros cs].
  apply sections_bind; [done|intros now]. apply quiet_locked. intros s. apply bound_persisting. intros saved Hs.
  assert (Hrun : bound_run (drafted_run request binding id now cs)).
  { split; [|done]. intros _. cbn. unfold validate_request, reject_if in Hv.
    match goal with H : (if ?b then _ else _) = _ |- _ => destruct b eqn:Hb; [done|] end.
    rewrite !orb_false_iff in Hb. destruct Hb as [[[[[_ Hz%Nat.eqb_neq] _] _] _] _]. lia. }
  destruct saved; cbn; [by apply bound_insert|].
  intros id' r' [_ H']%lookup_delete_Some. by eapply (bound_insert id _ s Hrun Hs).
Qed.

Lemma quiet_draft_bound request binding id : quiet (draft_bound durable request binding id).
Proof. unfold draft_bound. destruct (_ || _); [done|apply quiet_draft_inner]. Qed.

Lemma quiet_invalidate_target c t v : quiet (invalidate_target durable c t v).
Proof.
  apply sections_bind; [done|intros now]. apply quiet_locked. intros s. cbv zeta. set (items := _ <$> s).
  assert (Hall : bound_section s items).
  { intros Hs id r. unfold items. rewrite lookup_fmap. intros (r0 & H0 & ->)%fmap_Some. specialize (Hs _ _ H0).
    destruct (is_invalidated_by c r0); [|done]. by eapply bound_unapproved; [..|exact Hs]. }
  match goal with |- bound_held s (if ?b then _ else _) => destruct b end; [by apply bound_save|exact Hall].
Qed.

Lemma quiet_approval_bindings id targets : quiet (approval_bindings durable id targets).
Proof.
  induction targets as [|t rest IH]; [done|]. cbn [approval_bindings]. apply sections_bind; [by apply sections_free|intros c].
  destruct (target_changed t c); [apply sections_bind; [apply quiet_invalidate|done]|].
  apply sections_bind; [by apply sections_free|intros d]. apply sections_bind; [exact IH|done].
Qed.

(** Every call but the one that approves. *)
Lemma quiet_call c : (forall id version ids, c <> FcApprove id version ids) -> quiet (fx_body durable c).
Proof.
  intros Hc. destruct c; cbn [fx_body]; try (apply sections_bind; [|done]).
  - apply quiet_load.
  - apply quiet_draft_inner.
  - apply quiet_draft_bound.
  - changes. by apply bound_plain with (r := run).
  - apply quiet_get.
  - apply quiet_locked. by intros s Hs.
  - by destruct (Hc id version target_ids).
  - apply quiet_invalidate_target.
  - apply quiet_invalidate.
  - apply quiet_execute.
  - apply quiet_explicit.
Qed.
End Calls.
