(* ===== verification/FleetExecutionTheorems.v ===== *)
(** * What holds of the execution of a fleet

    The batches of a plan; what an approval covers, and that it binds its targets after
    calls made one by one; and, for an execution that is not interfered with, that
    nothing runs without an approval of exactly that change set, that nothing is rolled
    back that was not committed, and that a fleet that reports success has had every
    target committed and verified. *)
From S2P Require Import Prelude Str Errors RunState Tools Policy Decision Evidence.
From S2P Require Import Process Execution ChangeSets FleetExecution FleetBound.

(** ** Batches *)
Lemma pending_from_spec k targets i :
  i ∈ pending_from k targets <->
  exists n t, i = (k + n)%nat /\ targets !! n = Some t /\ te_state t = TgPending.
Proof.
  revert k. induction targets as [|t targets IH]; intros k; cbn.
  - split; [by intros ?%not_elem_of_nil|]. by intros (n & t & _ & Hn & _).
  - assert (Hrec : i ∈ pending_from (S k) targets <->
      exists n t', i = (k + S n)%nat /\ targets !! n = Some t' /\ te_state t' = TgPending).
    { rewrite IH. split; intros (n & t' & -> & H); exists n, t'; (split; [lia|done]). }
    case_bool_decide as Ht; [rewrite elem_of_cons|]; rewrite Hrec.
    + split.
      * intros [->|(n & t' & -> & H)]; [exists 0%nat, t; split; [lia|done]|by exists (S n), t'].
      * intros ([|n] & t' & -> & Hn & Hs); [left; lia|right; eauto].
    + split; [intros (n & t' & -> & H); by exists (S n), t'|].
      intros ([|n] & t' & -> & Hn & Hs); [cbn in Hn; congruence|eauto].
Qed.

Lemma pending_from_sorted k targets : NoDup (pending_from k targets).
Proof.
  revert k. induction targets as [|t targets IH]; intros k; cbn; [constructor|].
  case_bool_decide; [|apply IH]. constructor; [|apply IH].
  intros (n & t' & Hn & _)%pending_from_spec. lia.
Qed.

Lemma pending_from_length k targets : (length (pending_from k targets) <= length targets)%nat.
Proof.
  revert k. induction targets as [|t targets IH]; intros k; cbn; [lia|].
  specialize (IH (S k)). case_bool_decide; cbn; lia.
Qed.

Lemma concat_singletons {A} (l : list A) : concat (map (fun x => [x]) l) = l.
Proof. induction l as [|x l IH]; cbn; [done|by rewrite IH]. Qed.

Lemma concat_chunks {A} fuel n (l : list A) :
  (1 <= n)%nat -> (length l <= fuel)%nat -> concat (chunks fuel n l) = l.
Proof.
  intros Hn. revert l. induction fuel as [|fuel IH]; intros l Hl; destruct l as [|x l]; try done; [cbn in Hl; lia|].
  change (concat (chunks (S fuel) n (x :: l))) with (take n (x :: l) ++ concat (chunks fuel n (drop n (x :: l)))).
  rewrite IH; [apply take_drop|]. rewrite length_drop. cbn in *. lia.
Qed.

Lemma chunks_length {A} fuel n (l b : list A) : b ∈ chunks fuel n l -> (length b <= n)%nat.
Proof.
  revert l. induction fuel as [|fuel IH]; intros l; destruct l as [|x l]; try (by intros ?%not_elem_of_nil).
  change (chunks (S fuel) n (x :: l)) with (take n (x :: l) :: chunks fuel n (drop n (x :: l))).
  intros [->|H]%elem_of_cons; [rewrite length_take; lia|by eapply IH].
Qed.

Lemma singleton_length {A} (l : list A) b : b ∈ map (fun x => [x]) l -> length b = 1%nat.
Proof. by intros (x & -> & _)%list_elem_of_fmap. Qed.

Lemma execution_batches_concat run batches :
  (1 <= mc_batch_size run)%nat -> execution_batches run = Ok batches ->
  concat batches = pending_from 0 (mc_targets run).
Proof.
  intros Hsize. unfold execution_batches. destruct (_ || _); [done|]. intros [= <-].
  destruct (mc_execution_strategy run); cbn; rewrite ?concat_singletons, ?app_nil_r, ?take_drop; try done.
  by apply concat_chunks.
Qed.

Lemma execution_batches_range run batches b i :
  (1 <= mc_batch_size run)%nat -> execution_batches run = Ok batches -> b ∈ batches -> i ∈ b ->
  exists t, mc_targets run !! i = Some t /\ te_state t = TgPending.
Proof.
  intros Hsize Hb Hin Hi. assert (i ∈ concat batches) as Hc.
  { rewrite list_elem_of_In, in_concat. exists b. by rewrite <- !list_elem_of_In. }
  rewrite (execution_batches_concat _ _ Hsize Hb) in Hc. apply pending_from_spec in Hc as (n & t & -> & Hn & Hs). by exists t.
Qed.

(** How many targets a strategy runs at once. *)
Definition at_once (run : MultiChangeSet) : nat :=
  match mc_execution_strategy run with
  | FxSequential => 1
  | FxParallel => length (mc_targets run)
  | FxCanary => Nat.max 1 (mc_canary_count run)
  | FxRollingBatch => mc_batch_size run
  end.

(** The batches of a plan hold every pending target once, in order, and no other;
    no batch is larger than the strategy allows; the canaries are a first batch that
    leaves a target for later; and a production fleet is never run all at once. *)
Theorem fleet_batches_exact run batches :
  (1 <= mc_batch_size run)%nat -> execution_batches run = Ok batches ->
  (forall i, i ∈ concat batches <-> exists t, mc_targets run !! i = Some t /\ te_state t = TgPending) /\
  NoDup (concat batches) /\
  (forall b, b ∈ batches -> (length b <= at_once run)%nat) /\
  (mc_execution_strategy run = FxCanary ->
     exists first rest, batches = first :: rest /\ (length first < length (concat batches))%nat) /\
  (mc_production run = true -> mc_execution_strategy run <> FxParallel).
Proof.
  intros Hsize Hbatches. pose proof (execution_batches_concat _ _ Hsize Hbatches) as Hconcat. revert Hbatches.
  unfold execution_batches. destruct (_ || _) eqn:Hok; [done|].
  apply orb_false_iff in Hok as [Hcount%Nat.eqb_neq Hprod]. intros [= Hb].
  set (l := pending_from 0 (mc_targets run)) in *. pose proof (pending_from_length 0 (mc_targets run)) as Hlen.
  change (length l <= length (mc_targets run))%nat in Hlen. subst batches.
  rewrite Hconcat. split_and!.
  - intros i. unfold l. rewrite pending_from_spec. split.
    + intros (n & t & -> & H). by exists t.
    + intros (t & H). by exists i, t.
  - apply pending_from_sorted.
  - intros b. unfold at_once. destruct (mc_execution_strategy run); cbn.
    + by intros ->%singleton_length.
    + by intros ->%list_elem_of_singleton.
    + intros [->| ->%singleton_length]%elem_of_cons; [rewrite length_take|]; lia.
    + apply chunks_length.
  - intros ->. cbn. eexists _, _. split; [done|]. rewrite length_take. lia.
  - intros Hp Hs. by rewrite Hp, Hs in Hprod.
Qed.

(** ** What a history says of a change set *)
Abbreviation FxEv := (event (list PersistedFleetRun) FxQuery FxAnswer) (only parsing).

Definition told (past : list FxEv) (q : FxQuery) (a : FxAnswer q) : Prop := EvAsked q a ∈ past.

(** It was executed, and answered committed. *)
Definition committed (past : list FxEv) (c : Uuid * N) : Prop :=
  exists batch answers n change duration,
    told past (FxExecuteBatch batch) answers /\ batch !! n = Some c /\
    answers n = (Ok change, duration) /\ cs_execution_state change = Committed.

(** The service was asked for under its change set, and found active. *)
Definition found_active (past : list FxEv) (run : MultiChangeSet) (service : str) (t : FleetTargetExecution) : Prop :=
  exists result, told past (FxTool (verification_request run service t)) (Ok result) /\ service_active result = true.

(** A binding of the approval agrees with what the change-set service holds. *)
Definition binding_checked (past : list FxEv) (b : TargetApprovalBinding) : Prop :=
  exists current, told past (FxChangeGet (ta_change_set_id b)) (Ok current) /\
    cs_session_id current = ta_target_id b /\ cs_version current = ta_change_set_version b /\
    cs_approved_version current = Some (ta_change_set_version b) /\ cs_approval_state current = CsApproved /\
    match ta_precondition_digest b with
    | Some d => told past (FxBindingDigest (ta_change_set_id b) (ta_change_set_version b)) (Ok d)
    | None => True
    end.

(** The claim was saved, where there is a file to save it in. *)
Definition claim_saved (durable : bool) (past : list FxEv) (id : Uuid) : Prop :=
  durable = true -> exists items run, EvSaved (persisted_runs items) (Ok tt) ∈ past /\
    items !! id = Some run /\ mc_execution_state run = FxExecuting.

Lemma told_mono past past' q a : past ⊆ past' -> told past q a -> told past' q a.
Proof. intros H. apply H. Qed.
Lemma committed_mono past past' c : past ⊆ past' -> committed past c -> committed past' c.
Proof. intros H (b & f & n & ch & d & Hb & ?). exists b, f, n, ch, d. eauto using told_mono. Qed.
Lemma found_active_mono past past' r svc t : past ⊆ past' -> found_active past r svc t -> found_active past' r svc t.
Proof. intros H (x & Hx & ?). exists x. eauto using told_mono. Qed.
Lemma binding_checked_mono past past' b : past ⊆ past' -> binding_checked past b -> binding_checked past' b.
Proof.
  intros H (c & Hc & ? & ? & ? & ? & Hd). exists c. split_and!; eauto using told_mono.
  destruct (ta_precondition_digest b); eauto using told_mono.
Qed.
Lemma claim_saved_mono durable past past' id : past ⊆ past' -> claim_saved durable past id -> claim_saved durable past' id.
Proof. intros H Hc Hd. destruct (Hc Hd) as (i & r & Hi & ?). exists i, r. auto. Qed.

Lemma past_grows (past : list FxEv) e : past ⊆ past ++ [e].
Proof. set_solver. Qed.
#[local] Hint Resolve past_grows : core.

(** ** An execution alone *)
Section Alone.
Context (durable : bool) (id : Uuid).
(** The run as it was claimed, and the approval it was claimed under. *)
Context (plan : MultiChangeSet) (approval : FleetApprovalBinding).
Hypothesis plan_ids : NoDup (map te_target_id (mc_targets plan)).

(** What holds from the claim on. *)
Definition cleared (past : list FxEv) : Prop :=
  claim_saved durable past id /\ forall b, b ∈ fb_targets approval -> binding_checked past b.

(** It was committed, in this execution or before. *)
Definition undoable (past : list FxEv) (c : Uuid * N) : Prop :=
  committed past c \/ exists t, t ∈ mc_targets plan /\ change_of t = c /\ te_state t = TgSucceeded.

(** What an execution may ask. *)
Definition fleet_may_ask (past : list FxEv) (q : FxQuery) : Prop :=
  match q with
  | FxExecuteBatch batch => cleared past /\ forall c, c ∈ batch -> exists t, t ∈ mc_targets plan /\ te_state t = TgPending /\ change_of t = c
  | FxChangeRollback change_set_id version => undoable past (change_set_id, version)
  | FxTool request => exists service t, mc_service_verification plan = Some service /\ t ∈ mc_targets plan /\
      request = verification_request plan service t
  | FxChangeDraft _ | FxChangeApprove _ _ | FxChangeReject _ _ => False
  | FxNow | FxLoad | FxChangeGet _ | FxBindingDigest _ _ | FxAudit => True
  end.
Abbreviation P := (fun (_ : Fleets) past q => fleet_may_ask past q) (only parsing).

(** A target as it is recorded, against the plan. *)
Record tracked (past : list FxEv) (t0 t : FleetTargetExecution) : Prop := {
  tracked_id : te_target_id t = te_target_id t0;
  tracked_change : change_of t = change_of t0;
  tracked_state : te_state t = TgSucceeded -> undoable past (change_of t0);
  tracked_local : te_local_verification t = VerSucceeded ->
    committed past (change_of t0) \/ te_local_verification t0 = VerSucceeded;
  tracked_service : te_service_verification t = VerSucceeded ->
    (exists service, mc_service_verification plan = Some service /\ found_active past plan service t0) \/
    te_service_verification t0 = VerSucceeded;
}.

Definition earned (past : list FxEv) (t0 : FleetTargetExecution) : Prop :=
  (committed past (change_of t0) \/ te_local_verification t0 = VerSucceeded) /\
  forall service, mc_service_verification plan = Some service ->
    found_active past plan service t0 \/ te_service_verification t0 = VerSucceeded.

Record tracks (past : list FxEv) (r : MultiChangeSet) : Prop := {
  tracks_service : mc_service_verification r = mc_service_verification plan;
  tracks_run : mc_agent_run_id r = mc_agent_run_id plan;
  tracks_targets : Forall2 (tracked past) (mc_targets plan) (mc_targets r);
  tracks_success : mc_execution_state r = FxSucceeded -> forall t0, t0 ∈ mc_targets plan -> earned past t0;
}.

Lemma undoable_mono past past' c : past ⊆ past' -> undoable past c -> undoable past' c.
Proof. intros H [?|?]; [left; by eapply committed_mono|by right]. Qed.

Lemma tracked_mono past past' t0 t : past ⊆ past' -> tracked past t0 t -> tracked past' t0 t.
Proof.
  intros H []. split; [done|done|eauto using undoable_mono| |].
  - intros Hs. destruct (tracked_local0 Hs); eauto using committed_mono.
  - intros Hs. destruct (tracked_service0 Hs) as [(svc & ? & ?)|]; eauto using found_active_mono.
Qed.

Lemma earned_mono past past' t0 : past ⊆ past' -> earned past t0 -> earned past' t0.
Proof.
  intros H [Hc Hf]. split; [destruct Hc; eauto using committed_mono|].
  intros svc Hsvc. destruct (Hf svc Hsvc); eauto using found_active_mono.
Qed.

Lemma tracks_mono past past' r : past ⊆ past' -> tracks past r -> tracks past' r.
Proof.
  intros H []. split; try done.
  - eapply Forall2_impl; [done|]. intros. by eapply tracked_mono.
  - intros Hs t0 Ht0. eapply earned_mono; eauto.
Qed.

Definition fleet_at (s : Fleets) (past : list FxEv) : Prop :=
  cleared past /\ exists r, s !! id = Some r /\ tracks past r.

Lemma clearance_mono past past' : past ⊆ past' -> cleared past -> cleared past'.
Proof. intros H [? Hb]. split; eauto using claim_saved_mono, binding_checked_mono. Qed.

Lemma fleet_at_mono s past past' : past ⊆ past' -> fleet_at s past -> fleet_at s past'.
Proof. intros H (? & r & ? & ?). split; [by eapply clearance_mono|]. exists r. eauto using tracks_mono. Qed.

(** An operation keeps the run tracked; [R] is what its value says of the history. *)
Definition keeps {A} (C : list FxEv -> Prop) (p : FxProc A) (R : list FxEv -> A -> Prop) : Prop :=
  forall s past, fleet_at s past -> C past ->
    traces P s past p (fun s' past' r => fleet_at s' past' /\ past ⊆ past' /\
      match r with Ok a => R past' a | Err _ => True end).

Definition always {A} (past : list FxEv) (a : A) : Prop := True.

Lemma keeps_bind {A B} C (p : FxProc A) (f : A -> FxProc B) R R' :
  keeps C p R -> (forall a, keeps (fun past => C past /\ R past a) (f a) R') ->
  (forall past past', past ⊆ past' -> C past -> C past') -> keeps C (p ≫= f) R'.
Proof.
  intros Hp Hf HC s past Hs Hpast. apply traces_bind. eapply traces_mono; [by apply Hp|].
  intros s' past' [a|e] (Hs' & Hle & HR); cbn in *; [|done].
  eapply traces_mono; [apply Hf; [done|eauto]|]. intros s2 past2 r (? & ? & ?). split_and!; try done. by etransitivity.
Qed.

Lemma keeps_weaken {A} (C C' : list FxEv -> Prop) (p : FxProc A) (R R' : list FxEv -> A -> Prop) :
  keeps C' p R' -> (forall past, C past -> C' past) -> (forall past a, R' past a -> R past a) -> keeps C p R.
Proof.
  intros Hp HC HR s past Hs Hpast. eapply traces_mono; [by apply Hp; auto|].
  intros s' past' [a|e] (? & ? & ?); auto.
Qed.

Lemma keeps_ret {A} C (a : A) R : (forall past, C past -> R past a) -> keeps C (mret a) R.
Proof. intros H s past Hs Hpast. cbn. split_and!; auto. Qed.

Lemma keeps_lift {A} C (r : AppResult A) (R : list FxEv -> A -> Prop) :
  (forall past a, C past -> r = Ok a -> R past a) -> keeps C (lift r) R.
Proof. intros H s past Hs Hpast. cbn. split_and!; try done. destruct r; auto. Qed.

Lemma keeps_ask C q (R : list FxEv -> FxAnswer q -> Prop) :
  (forall past, cleared past -> C past -> fleet_may_ask past q) ->
  (forall past a, C past -> R (past ++ [EvAsked q a]) a) -> keeps C (ask q) R.
Proof.
  intros Hq HR s past Hs Hpast. cbn. split; [apply Hq; [by apply Hs|done]|]. intros a.
  split_and!; [|auto|auto]. by apply (fleet_at_mono _ past).
Qed.

(** *** The sections *)
Definition held_ok {X} (past : list FxEv) (R : list FxEv -> X -> Prop) (h : held Fleets (list PersistedFleetRun) X) : Prop :=
  let ok (s : Fleets) (r : AppResult X) :=
    (exists run, s !! id = Some run /\ tracks past run) /\
    match r with Ok a => forall past', past ⊆ past' -> R past' a | Err _ => True end in
  match h with
  | Leave s r => ok s r
  | Save _ _ k => forall saved, ok (fst (k saved)) (snd (k saved))
  end.

Lemma keeps_with_run {X} C (k : N -> Fleets -> MultiChangeSet -> held Fleets (list PersistedFleetRun) X) R :
  (forall now past items run, cleared past -> C past -> items !! id = Some run -> tracks past run ->
     held_ok past R (k now items run)) -> keeps C (with_run id k) R.
Proof.
  intros Hk s past (Hcl & run & Hrun & Ht) HC. cbn. split; [done|]. intros now. rewrite Hrun.
  specialize (Hk now past s run Hcl HC Hrun Ht).
  assert (Hat : forall s' past', past ⊆ past' -> (exists run, s' !! id = Some run /\ tracks past run) -> fleet_at s' past').
  { intros s' past' Hle (r & Hr & Htr). apply (fleet_at_mono _ past); [done|]. split; [done|eauto]. }
  assert (Hnow : past ⊆ past ++ [EvAsked FxNow now]) by done.
  destruct (k now s run) as [s' r|s0 records h]; cbn in *.
  - destruct Hk as [Hs Hr]. split_and!; [by apply Hat|done|]. destruct r; auto.
  - intros saved. specialize (Hk saved). destruct (h saved) as [s' r]. destruct Hk as [Hs Hr]. cbn in *.
    split_and!; [apply Hat; [set_solver|done]|set_solver|]. destruct r; [|done]. apply Hr. set_solver.
Qed.

Lemma held_ok_save {X} past (R : list FxEv -> X -> Prop) items run (output : X) :
  tracks past run -> (forall past', past ⊆ past' -> R past' output) ->
  held_ok past R (fleet_save durable (<[id := run]> items) output).
Proof.
  intros Ht HR. unfold fleet_save, fleet_persisting.
  assert (exists r, <[id := run]> items !! id = Some r /\ tracks past r) by (exists run; by rewrite lookup_insert_eq).
  destruct durable; cbn; [|done]. intros saved. split; [done|]. by destruct saved.
Qed.

Lemma held_ok_leave {X} past (R : list FxEv -> X -> Prop) items run e :
  items !! id = Some run -> tracks past run -> held_ok past R (Leave items (Err e)).
Proof. intros Hr Ht. split; [eauto|done]. Qed.

Lemma keeps_section {X} C (f : N -> MultiChangeSet -> MultiChangeSet) (output : MultiChangeSet -> X) (R : list FxEv -> X -> Prop) :
  (forall now past r, cleared past -> C past -> tracks past r -> tracks past (f now r)) ->
  (forall past r, tracks past r -> R past (output r)) ->
  keeps C (with_run id (fun now items run => fleet_save durable (<[id := f now run]> items) (output run))) R.
Proof.
  intros Hf HR. apply keeps_with_run. intros now past items run Hcl HC Hr Ht. apply held_ok_save; [by apply Hf|].
  intros past' Hle. apply HR. eapply tracks_mono; eauto.
Qed.

Lemma keeps_change C (f : N -> MultiChangeSet -> MultiChangeSet) :
  (forall now past r, cleared past -> C past -> tracks past r -> tracks past (f now r)) ->
  keeps C (change_run durable id f) (fun past r => tracks past r).
Proof.
  intros Hf. apply keeps_with_run. intros now past items run Hcl HC Hr Ht.
  apply held_ok_save; [by apply Hf|]. intros past' Hle. eapply tracks_mono; eauto.
Qed.

Lemma keeps_get C : keeps C (fleet_get id) (fun past r => tracks past r).
Proof.
  intros s past (Hcl & r & Hr & Ht) HC. cbn. rewrite Hr. cbn. split_and!; [|done|done].
  split; [done|by exists r].
Qed.

(** *** Changes that keep a run tracked *)
Lemma tracks_changed past r r' :
  tracks past r -> mc_service_verification r' = mc_service_verification r ->
  mc_agent_run_id r' = mc_agent_run_id r ->
  Forall2 (tracked past) (mc_targets plan) (mc_targets r') ->
  (mc_execution_state r' = FxSucceeded -> mc_execution_state r = FxSucceeded) -> tracks past r'.
Proof. intros [] E1 E2 Ht Hs. split; [congruence|congruence|done|]. intros E. by apply tracks_success0, Hs. Qed.

Lemma tracks_update past r r' : mc_targets r' = mc_targets r -> mc_service_verification r' = mc_service_verification r ->
  mc_agent_run_id r' = mc_agent_run_id r -> (mc_execution_state r' = FxSucceeded -> mc_execution_state r = FxSucceeded) ->
  tracks past r -> tracks past r'.
Proof. intros E1 E2 E3 Hs Ht. apply (tracks_changed past r); try done. rewrite E1. by destruct Ht. Qed.

Lemma tracks_event past now target code r : tracks past r -> tracks past (push_event now target code r).
Proof. by apply tracks_update. Qed.
Lemma tracks_call past r : tracks past r -> tracks past (one_more_call r).
Proof. by apply tracks_update. Qed.
Lemma tracks_state past state r : state <> FxSucceeded -> tracks past r -> tracks past (run_state state r).
Proof. intros Hs. by apply tracks_update. Qed.

Lemma update_first_tracked past tid f plans targets :
  NoDup (map te_target_id plans) -> Forall2 (tracked past) plans targets ->
  (forall t0 t, t0 ∈ plans -> te_target_id t0 = tid -> tracked past t0 t -> tracked past t0 (f t)) ->
  Forall2 (tracked past) plans (update_first (of_target tid) f targets).
Proof.
  intros Hnd Ht Hf. induction Ht as [|t0 t plans targets H0 Ht IH]; cbn; [constructor|].
  unfold of_target at 1. destruct (te_target_id t =? tid)%N eqn:E.
  - constructor; [|done]. apply Hf; [set_solver| |done]. apply N.eqb_eq in E. destruct H0. congruence.
  - constructor; [done|]. cbn in Hnd. apply NoDup_cons in Hnd as [_ Hnd]. apply IH; [done|].
    intros t0' t' Hin. apply Hf. set_solver.
Qed.

Lemma tracks_target past tid f r :
  tracks past r -> (forall t0 t, t0 ∈ mc_targets plan -> te_target_id t0 = tid -> tracked past t0 t -> tracked past t0 (f t)) ->
  tracks past (run_targets (update_first (of_target tid) f (mc_targets r)) r).
Proof.
  intros Ht Hf. apply (tracks_changed past r); try done. cbn. destruct Ht. by apply update_first_tracked.
Qed.

(** A target of the plan is known by its identifier. *)
Lemma plan_target t0 t : t0 ∈ mc_targets plan -> t ∈ mc_targets plan -> te_target_id t0 = te_target_id t -> t0 = t.
Proof.
  intros (i & Hi)%list_elem_of_lookup_1 (j & Hj)%list_elem_of_lookup_1 E.
  assert (i = j) as ->; [|congruence]. eapply NoDup_lookup; [exact plan_ids| |].
  - by rewrite list_lookup_fmap, Hi.
  - rewrite list_lookup_fmap, Hj. cbn. by f_equal.
Qed.

(** *** Every part of an execution *)
Ltac found := cbv beta zeta; match goal with |- context [existsb ?p ?l] => destruct (existsb p l) end; cbn [negb].

Definition anything {A} (past : list FxEv) (a : A) : Prop := True.
Definition nothing (past : list FxEv) : Prop := True.

Lemma keeps_set_state C state code : state <> FxSucceeded -> keeps C (fleet_set_state durable id state code) anything.
Proof.
  intros Hs s past Hat HC. apply traces_bind. eapply traces_mono; [apply (keeps_change C); [|done|done]|].
  - intros now past' r _ _ Ht. apply tracks_event. by apply tracks_state.
  - intros s' past' [a|e] (? & ? & ?); cbn; by split_and!.
Qed.

Lemma mark_indexes_tracks past now indexes state code r :
  state <> TgSucceeded -> tracks past r -> tracks past (fst (mark_indexes now indexes state code r)).
Proof.
  intros Hs. revert r. induction indexes as [|i rest IH]; intros r Ht; cbn; [done|].
  destruct (mc_targets r !! i) as [t|] eqn:Hi; [|done]. apply IH, tracks_event, (tracks_changed past r); try done. cbn.
  destruct Ht. assert (Forall2 (tracked past) (mc_targets plan) (mc_targets r)) as Hf by done.
  apply Forall2_lookup. intros j. rewrite Forall2_lookup in Hf. specialize (Hf j).
  destruct (decide (i = j)) as [<-|Hne]; [|by rewrite list_lookup_insert_ne].
  rewrite Hi in Hf. rewrite list_lookup_insert_eq by (by eapply lookup_lt_Some).
  inversion Hf as [t0 t' H0|]; subst. constructor. destruct H0. by split.
Qed.

Lemma keeps_mark C indexes state code : state <> TgSucceeded -> keeps C (mark_targets durable id indexes state code) anything.
Proof.
  intros Hs. apply keeps_with_run. intros now past items run _ _ Hr Ht.
  pose proof (mark_indexes_tracks past now indexes state code run Hs Ht) as Hm.
  destruct (mark_indexes now indexes state code run) as [run' [a|e]]; [by apply held_ok_save|].
  apply (held_ok_leave _ _ _ run'); [apply lookup_insert_eq|done].
Qed.

(** The result of a target of the plan. *)
Definition its_result (t0 : FleetTargetExecution) (result : AppResult ChangeSet) (past : list FxEv) : Prop :=
  execution_failed result = false -> committed past (change_of t0).

Lemma keeps_record_execution C t0 result duration :
  t0 ∈ mc_targets plan -> (forall past, C past -> its_result t0 result past) ->
  keeps C (record_execution_result durable id (te_target_id t0) result duration) anything.
Proof.
  intros H0 Hres. apply keeps_with_run. intros now past items run _ HC Hr Ht.
  found; [|by apply (held_ok_leave _ _ _ run)].
  apply held_ok_save; [|done]. apply tracks_event, tracks_call, tracks_target; [done|].
  intros t1 t H1 E Htr. assert (t1 = t0) as -> by by apply plan_target.
  specialize (Hres past HC). unfold its_result, execution_failed in Hres. destruct Htr.
  destruct result as [c|e]; cbn; [|by split].
  destruct (bool_decide (cs_execution_state c = Committed)) eqn:Ec.
  - split; cbn; unfold undoable; auto.
  - destruct (cs_execution_state c); by split.
Qed.

Lemma keeps_record_rollback C target_id result :
  keeps C (record_rollback_result durable id target_id result) anything.
Proof.
  apply keeps_with_run. intros now past items run _ _ Hr Ht.
  found.
  - apply held_ok_save; [|done]. apply tracks_event, tracks_target; [by apply tracks_call|].
    intros t0 t _ _ []. by split; cbn; destruct (rolled_back result).
  - eapply held_ok_leave; [apply lookup_insert_eq|]. by apply tracks_call.
Qed.

Lemma keeps_mark_rollback C target_id : keeps C (mark_target_rollback durable id target_id TgRollbackPending) anything.
Proof.
  apply keeps_with_run. intros now past items run _ _ Hr Ht.
  found; [|by apply (held_ok_leave _ _ _ run)].
  apply held_ok_save; [|done]. apply tracks_event, tracks_target; [done|]. intros t0 t _ _ []. by split.
Qed.

Lemma keeps_rollback_targets completed any_failed :
  keeps (fun past => forall t, t ∈ completed -> undoable past (change_of t))
    (rollback_targets durable id completed any_failed) anything.
Proof.
  revert any_failed. induction completed as [|t rest IH]; intros any_failed; cbn [rollback_targets].
  { by apply keeps_ret. }
  assert (Hmono : forall past past', past ⊆ past' -> (forall t', t' ∈ t :: rest -> undoable past (change_of t')) ->
    forall t', t' ∈ t :: rest -> undoable past' (change_of t')) by (intros; eapply undoable_mono; eauto).
  eapply keeps_bind; [apply keeps_mark_rollback| |done]. intros [].
  eapply keeps_bind; [apply keeps_ask with (R := anything); [|done]| |].
  - intros past _ [Hc _]. cbn. apply (Hc t). set_solver.
  - intros result. eapply keeps_bind; [apply keeps_record_rollback| |].
    + intros []. eapply keeps_weaken; [apply IH| |done]. intros past [[[Hc _] _] _] t' Ht'. apply Hc. set_solver.
    + intros past past' Hle [[Hc _] _]. split_and!; [by eapply Hmono|done|done].
  - intros past past' Hle [Hc _]. split; [by eapply Hmono|done].
Qed.

Lemma tracks_in past r t : tracks past r -> t ∈ mc_targets r -> exists t0, t0 ∈ mc_targets plan /\ tracked past t0 t.
Proof.
  intros [] (i & Hi)%list_elem_of_lookup_1. destruct (Forall2_lookup_r _ _ _ _ _ tracks_targets0 Hi) as (t0 & H0 & Ht).
  exists t0. split; [by eapply list_elem_of_lookup_2|done].
Qed.

Lemma keeps_rollback_completed C : keeps C (rollback_completed durable id) anything.
Proof.
  apply (keeps_weaken _ nothing _ _ anything); [|done|done].
  eapply keeps_bind; [by apply keeps_set_state| |done]. intros [].
  eapply keeps_bind; [apply keeps_get| |done]. intros r.
  eapply keeps_bind.
  - eapply keeps_weaken; [apply keeps_rollback_targets| |by intros ?? H; exact H].
    intros past [_ Htr] t. rewrite elem_of_filterb, list_elem_of_In, <- in_rev, <- list_elem_of_In. intros [Hin Ht].
    destruct (tracks_in past r t Htr Hin) as (t0 & _ & []). rewrite tracked_change0. apply tracked_state0.
    by apply bool_decide_eq_true in Ht.
  - intros any_failed. apply keeps_weaken with (C' := nothing) (R' := anything); [|done|done].
    apply keeps_set_state. by destruct any_failed.
  - intros past past' Hle [_ Htr]. split; [done|]. by eapply tracks_mono.
Qed.

Lemma keeps_failure_policy C : keeps C (apply_failure_policy durable id) anything.
Proof.
  apply (keeps_weaken _ nothing _ _ anything); [|done|done].
  eapply keeps_bind; [apply keeps_get| |done]. intros r. destruct (mc_failure_policy r).
  1, 2: eapply keeps_bind; [by apply keeps_set_state|intros []; by apply keeps_ret|].
  1, 2: intros past past' Hle [_ Htr]; split; [done|by eapply tracks_mono].
  - by apply keeps_ret.
  - eapply keeps_bind; [apply keeps_rollback_completed|intros []; by apply keeps_ret|].
    intros past past' Hle [_ Htr]. split; [done|by eapply tracks_mono].
Qed.

(** *** Verification *)
Lemma request_of_target past r service t t0 :
  tracks past r -> tracked past t0 t -> verification_request r service t = verification_request plan service t0.
Proof.
  intros [] []. unfold change_of in tracked_change0. injection tracked_change0 as E1 E2.
  unfold verification_request. by rewrite tracks_run0, tracked_id0, E1, E2.
Qed.

Lemma keeps_record_service C t0 succeeded :
  t0 ∈ mc_targets plan ->
  (forall past, C past -> succeeded = true ->
     exists service, mc_service_verification plan = Some service /\ found_active past plan service t0) ->
  keeps C (record_service_verification durable id (te_target_id t0) succeeded) anything.
Proof.
  intros H0 Hf. apply keeps_with_run. intros now past items run _ HC Hr Ht. found.
  - apply held_ok_save; [|done]. apply tracks_event, tracks_target; [by apply tracks_call|].
    intros t1 t H1 E Htr. assert (t1 = t0) as -> by by apply plan_target.
    destruct Htr. split; cbn; try done. intros Hs. destruct succeeded; [|done]. left. by apply Hf.
  - eapply held_ok_leave; [apply lookup_insert_eq|]. by apply tracks_call.
Qed.

Lemma keeps_verify_services r service targets :
  mc_service_verification plan = Some service ->
  keeps (fun past => tracks past r /\ forall t, t ∈ targets -> t ∈ mc_targets r)
    (verify_services durable id r service targets) anything.
Proof.
  intros Hsvc. induction targets as [|t rest IH]; cbn [verify_services]; [by apply keeps_ret|].
  intros s past Hat [Htr Hin]. destruct (tracks_in past r t Htr) as (t0 & H0 & Ht); [apply Hin; set_solver|].
  rewrite (request_of_target past r service t t0 Htr Ht). destruct Ht. rewrite tracked_id0.
  enough (Hk : keeps (fun past => tracks past r /\ forall t, t ∈ rest -> t ∈ mc_targets r)
    (result ← asked_ok (FxTool (verification_request plan service t0)) (fun a => a);
     record_service_verification durable id (te_target_id t0) (service_active result) ;;
     verify_services durable id r service rest) anything).
  { apply Hk; [done|]. split; [done|]. intros t' Ht'. apply Hin. set_solver. }
  assert (Hmono : forall past past', past ⊆ past' -> tracks past r /\ (forall t, t ∈ rest -> t ∈ mc_targets r) ->
    tracks past' r /\ (forall t, t ∈ rest -> t ∈ mc_targets r)).
  { intros p p' Hle [? ?]. split; [by eapply tracks_mono|done]. }
  eapply keeps_bind with (R := fun past result => told past (FxTool (verification_request plan service t0)) (Ok result));
    [| |done].
  - unfold asked_ok. eapply keeps_bind; [| |done].
    + apply keeps_ask with (R := fun past a => told past (FxTool (verification_request plan service t0)) a).
      * intros p _ _. cbn. eauto.
      * intros p a _. unfold told. set_solver.
    + intros a. apply keeps_lift. intros p b [_ Ha] ->. done.
  - intros result. eapply keeps_bind; [apply (keeps_record_service _ t0); [done|]| |].
    + intros p [_ Htold] Hs. exists service. split; [done|]. by exists result.
    + intros []. eapply keeps_weaken; [apply IH| |done]. by intros p [[? _] _].
    + intros p p' Hle [? ?]. split; [by eapply Hmono|by eapply told_mono].
Qed.

Lemma tracks_not_applicable past r : tracks past r -> tracks past (not_applicable r).
Proof.
  intros Ht. apply (tracks_changed past r); try done. destruct Ht. cbn.
  rewrite <- (map_id (mc_targets plan)). apply Forall2_fmap. eapply Forall2_impl; [done|].
  intros t0 t []. by split.
Qed.

Lemma tracks_verified past now r : tracks past r -> tracks past (verified_run now r).
Proof.
  intros Ht. unfold verified_run, verification_outcome. apply tracks_event.
  set (required := negb (bool_decide (mc_service_verification r = None))).
  set (local_ok := forallb _ _). set (service_ok := negb required || forallb _ _).
  set (r' := run_verified _ r).
  assert (Ht' : tracks past r') by by apply (tracks_update past r).
  destruct (local_ok && service_ok) eqn:Hok; [|apply tracks_state; [by destruct (mc_failure_policy r')|done]].
  apply andb_true_iff in Hok as [Hlocal Hservice].
  assert (Hall : forall t0, t0 ∈ mc_targets plan -> earned past t0).
  { intros t0 (i & Hi)%list_elem_of_lookup_1. destruct Ht.
    destruct (Forall2_lookup_l _ _ _ _ _ tracks_targets0 Hi) as (t & Hti & []).
    apply list_elem_of_lookup_2 in Hti. split.
    - apply tracked_local0. unfold local_ok in Hlocal. rewrite forallb_forall in Hlocal.
      apply list_elem_of_In in Hti. apply Hlocal in Hti. by apply bool_decide_eq_true in Hti.
    - intros service Hsvc. unfold service_ok, required in Hservice. rewrite tracks_service0, Hsvc in Hservice.
      cbn in Hservice. rewrite forallb_forall in Hservice. apply list_elem_of_In in Hti. apply Hservice in Hti.
      apply bool_decide_eq_true in Hti. destruct (tracked_service0 Hti) as [(svc & E & ?)|]; [left; congruence|by right]. }
  destruct Ht'. by split.
Qed.

Lemma keeps_verify_fleet C : keeps C (verify_fleet durable id) anything.
Proof.
  apply (keeps_weaken _ nothing _ _ anything); [|done|done].
  eapply keeps_bind; [by apply keeps_set_state| |done]. intros [].
  eapply keeps_bind; [apply keeps_get| |done]. intros r.
  assert (Hmono : forall past past', past ⊆ past' -> (nothing past /\ anything past ()) /\ tracks past r ->
    (nothing past' /\ anything past' ()) /\ tracks past' r).
  { intros p p' Hle [_ ?]. split; [done|by eapply tracks_mono]. }
  eapply keeps_bind with (R := anything); [| |done].
  - intros s past Hat [_ Htr]. pose proof (tracks_service _ _ Htr) as Hsvc.
    destruct (mc_service_verification r) as [service|].
    + apply (keeps_verify_services r service _ (eq_sym Hsvc) s past Hat). split; [done|].
      intros t Ht. apply elem_of_filterb in Ht. by destruct Ht.
    + enough (Hk : keeps nothing (change_run durable id (fun _ => not_applicable) ;; mret tt) anything) by by apply Hk.
      eapply keeps_bind; [| |done].
      * apply keeps_change. intros. by apply tracks_not_applicable.
      * intros a. by apply keeps_ret.
  - intros []. apply (keeps_weaken _ nothing _ _ anything); [|done|done].
    eapply keeps_bind with (R := anything); [| |done].
    + apply (keeps_section _ verified_run needs_rollback); [|done]. intros. by apply tracks_verified.
    + intros [|]; [apply keeps_rollback_completed|by apply keeps_ret].
Qed.

(** *** Batches *)
Definition its_results (targets : list FleetTargetExecution) (results : nat -> AppResult ChangeSet * N) (n : nat)
    (past : list FxEv) : Prop :=
  forall k t, targets !! k = Some t -> its_result t (fst (results (n + k)%nat)) past.

Lemma its_results_mono targets results n past past' :
  past ⊆ past' -> its_results targets results n past -> its_results targets results n past'.
Proof. intros Hle H k t Hk Hf. eapply committed_mono; [done|]. by eapply H. Qed.

Lemma keeps_record_batch targets results n failed :
  (forall t, t ∈ targets -> t ∈ mc_targets plan) ->
  keeps (its_results targets results n) (record_batch durable id targets results n failed) anything.
Proof.
  revert n failed. induction targets as [|t rest IH]; intros n failed Hin; cbn [record_batch]; [by apply keeps_ret|].
  destruct (results n) as [result duration] eqn:En.
  eapply keeps_bind; [apply (keeps_record_execution _ t); [set_solver|]| |].
  - intros past H. specialize (H 0%nat t eq_refl). by rewrite Nat.add_0_r, En in H.
  - intros failed'. eapply keeps_weaken; [apply IH; set_solver| |done].
    intros past [H _] k t' Hk. specialize (H (S k) t' Hk). by rewrite Nat.add_succ_r in H.
  - intros past past'. apply its_results_mono.
Qed.

Lemma batch_targets_spec batch :
  (forall i, i ∈ batch -> exists t, mc_targets plan !! i = Some t /\ te_state t = TgPending) ->
  exists targets, batch_targets plan batch = Some targets /\
    forall t, t ∈ targets -> t ∈ mc_targets plan /\ te_state t = TgPending.
Proof.
  induction batch as [|i rest IH]; intros Hin; cbn; [exists []; split; [done|set_solver]|].
  destruct (Hin i) as (t & Ht & Hs); [set_solver|]. destruct IH as (ts & -> & Hts); [set_solver|].
  rewrite Ht. cbn. exists (t :: ts). split; [done|]. intros t' [->|H]%elem_of_cons; [split; [by eapply list_elem_of_lookup_2|done]|auto].
Qed.

Lemma keeps_execute_batches C batches :
  (forall b i, b ∈ batches -> i ∈ b -> exists t, mc_targets plan !! i = Some t /\ te_state t = TgPending) ->
  keeps C (execute_batches durable id plan batches) anything.
Proof.
  intros Hin. apply (keeps_weaken _ nothing _ _ anything); [|done|done].
  induction batches as [|batch rest IH]; cbn [execute_batches]; [by apply keeps_ret|].
  destruct (batch_targets_spec batch) as (targets & Htargets & Hplan); [intros i; apply Hin; set_solver|].
  eapply keeps_bind; [by apply keeps_mark| |done]. intros []. rewrite Htargets.
  eapply keeps_bind with (R := fun _ ts => ts = targets); [intros s past Hat _; cbn; by split_and!| |done].
  intros ts. eapply keeps_bind with (R := fun past results => ts = targets /\
      told past (FxExecuteBatch (map change_of ts)) results).
  - intros s past Hat [_ ->]. cbn. split.
    + split; [by destruct Hat|]. intros c (t & -> & [Ht Hpending]%Hplan)%list_elem_of_fmap. by exists t.
    + intros a. split_and!; [by apply (fleet_at_mono _ past)|done|done|]. unfold told. set_solver.
  - intros results. eapply keeps_bind with (R := anything).
    + intros s past Hat (_ & -> & Htold). apply (keeps_record_batch targets results 0 false (fun t Ht => proj1 (Hplan t Ht)) s past Hat).
      intros k t Hk Hf. exists (map change_of targets), results, k. unfold execution_failed in Hf. cbn in Hf.
      destruct (results k) as [[c|e] d] eqn:Er; [|done]. exists c, d. split_and!; try done.
      * by rewrite list_lookup_fmap, Hk.
      * cbn in Hf. by apply negb_false_iff, bool_decide_eq_true in Hf.
    + intros failed. apply (keeps_weaken _ nothing _ _ anything); [|done|done].
      eapply keeps_bind with (R := anything); [destruct failed; [apply keeps_failure_policy|by apply keeps_ret]| |done].
      intros [|]; [by apply keeps_ret|]. eapply keeps_weaken; [apply IH; intros b i Hb; apply Hin; set_solver|done|done].
    + intros p p' Hle (H & -> & ?). split; [by destruct H|]. split; [done|by eapply told_mono].
  - intros p p' Hle [_ ->]. done.
Qed.

(** What is left of an execution once it is claimed. *)
Definition execute_claimed (snapshot : MultiChangeSet) : FxProc MultiChangeSet :=
  batches ← lift (execution_batches snapshot);
  execute_batches durable id snapshot batches ;;
  current ← fleet_get id;
  (if settled_fleet (mc_execution_state current) then mret tt else verify_fleet durable id) ;;
  records ← ask FxAudit;
  let calls := match records with
               | Ok records => Some (audited_calls (mc_agent_run_id snapshot) records)
               | Err _ => None
               end in
  change_run durable id (fun now => completed_run now calls).

Lemma keeps_execute_claimed C : (1 <= mc_batch_size plan)%nat ->
  keeps C (execute_claimed plan) (fun past r => tracks past r).
Proof.
  intros Hsize. apply (keeps_weaken _ nothing _ _ (fun past r => tracks past r)); [|done|done].
  eapply keeps_bind with (R := fun _ batches => execution_batches plan = Ok batches); [by apply keeps_lift| |done].
  intros batches. intros s past Hat [_ Hb]. revert s past Hat.
  enough (Hk : keeps nothing
    (execute_batches durable id plan batches ;; current ← fleet_get id;
     (if settled_fleet (mc_execution_state current) then mret tt else verify_fleet durable id) ;;
     records ← ask FxAudit;
     let calls := match records with
                  | Ok records => Some (audited_calls (mc_agent_run_id plan) records) | Err _ => None end in
     change_run durable id (fun now => completed_run now calls)) (fun past r => tracks past r)).
  { intros s past Hat. by apply Hk. }
  eapply keeps_bind; [apply keeps_execute_batches| |done].
  - intros b i Hbin Hi. by eapply execution_batches_range.
  - intros []. eapply keeps_bind with (R := anything); [apply (keeps_weaken _ nothing _ _ (fun past r => tracks past r)); [apply keeps_get|done|done]| |done].
    intros current. eapply keeps_bind with (R := anything).
    + destruct (settled_fleet _); [by apply keeps_ret|apply keeps_verify_fleet].
    + intros []. eapply keeps_bind with (R := anything); [by apply keeps_ask| |done]. intros records.
      apply keeps_change. intros now past r _ _ Ht. unfold completed_run.
      assert (H : forall r', tracks past r' -> tracks past (if bool_decide (mc_completed_at_epoch_ms r' = None) then finish_run now r' else r')).
      { intros r' Ht'. case_bool_decide; [|done]. by apply (tracks_update past r'). }
      destruct records; apply H; [|done]. by apply (tracks_update past r).
    + done.
Qed.
End Alone.

(** ** The claim *)
Lemma size_list_to_set_le (l : list Uuid) : (size (list_to_set l : gset Uuid) <= length l)%nat.
Proof.
  induction l as [|x l IH]; [done|]. cbn [list_to_set length].
  rewrite size_union_alt, size_singleton.
  assert (size ((list_to_set l : gset Uuid) ∖ {[x]}) <= size (list_to_set l : gset Uuid))%nat by (apply subseteq_size; set_solver).
  lia.
Qed.

Lemma size_nodup (l : list Uuid) : size (list_to_set l : gset Uuid) = length l -> NoDup l.
Proof.
  induction l as [|x l IH]; [constructor|]. cbn [list_to_set length]. pose proof (size_list_to_set_le l) as Hle.
  destruct (decide (x ∈ l)) as [Hx|Hx].
  - rewrite subseteq_union_1_L; [lia|]. intros y. rewrite elem_of_singleton, elem_of_list_to_set. by intros ->.
  - rewrite size_union, size_singleton; [|set_solver]. intros E. constructor; [done|]. apply IH. lia.
Qed.

Lemma exact_targets_nodup targets ids : exact_targets_match targets ids = true -> NoDup (map te_target_id targets).
Proof.
  unfold exact_targets_match. rewrite !andb_true_iff, !Nat.eqb_eq. intros [[[_ Hsize] _] _].
  apply size_nodup. by rewrite length_map.
Qed.

Section Claim.
Context (durable : bool) (id : Uuid).

Lemma invalidate_traces (Q : list FxEv -> FxQuery -> Prop) s past code (Post : Fleets -> list FxEv -> AppResult unit -> Prop) :
  (forall past', Q past' FxNow) -> (forall s' past' r, past ⊆ past' -> Post s' past' r) ->
  traces (fun _ => Q) s past (fleet_invalidate durable id code) Post.
Proof.
  intros HQ HP. apply traces_bind. cbn. split; [done|]. intros now.
  destruct (s !! id) as [r|]; cbn; [|apply HP; set_solver].
  unfold fleet_save, fleet_persisting. destruct durable; cbn; [|apply HP; set_solver].
  intros [[]|e]; cbn; apply HP; set_solver.
Qed.

Lemma change_run_traces (Q : list FxEv -> FxQuery -> Prop) s past r f (Post : Fleets -> list FxEv -> AppResult MultiChangeSet -> Prop) :
  s !! id = Some r -> (forall past', Q past' FxNow) ->
  (forall now past', past ⊆ past' ->
     (durable = true -> EvSaved (persisted_runs (<[id := f now r]> s)) (Ok tt) ∈ past') ->
     Post (<[id := f now r]> s) past' (Ok (f now r))) ->
  (forall s' past' e, past ⊆ past' -> Post s' past' (Err e)) ->
  traces (fun _ => Q) s past (change_run durable id f) Post.
Proof.
  intros Hr HQ Hok Herr. cbn. split; [done|]. intros now. rewrite Hr. unfold fleet_save, fleet_persisting.
  destruct durable; cbn.
  - intros [[]|e]; cbn; [|apply Herr; set_solver]. apply Hok; [set_solver|]. intros _. set_solver.
  - apply Hok; [set_solver|done].
Qed.

(** The approval an execution is claimed under. *)
Definition claimable (r : MultiChangeSet) (version : N) (approval : FleetApprovalBinding) : Prop :=
  mc_approval r = Some approval /\ validate_live_version r version = Ok tt /\
  claim_refused_fleet version r approval = false.

(** What an execution of a run may ask. *)
Definition fleet_allowed (r : MultiChangeSet) (version : N) (past : list FxEv) (q : FxQuery) : Prop :=
  match q with
  | FxExecuteBatch _ | FxChangeRollback _ _ | FxTool _ =>
      exists approval, claimable r version approval /\ fleet_may_ask durable id r approval past q
  | FxChangeDraft _ | FxChangeApprove _ _ | FxChangeReject _ _ => False
  | FxNow | FxLoad | FxChangeGet _ | FxBindingDigest _ _ | FxAudit => True
  end.

Lemma binding_agrees past b current digest :
  binding_changed b current digest = false -> told past (FxChangeGet (ta_change_set_id b)) (Ok current) ->
  match digest with
  | Some d => told past (FxBindingDigest (ta_change_set_id b) (ta_change_set_version b)) (Ok d)
  | None => True
  end -> binding_checked past b.
Proof.
  unfold binding_changed. rewrite !orb_false_iff, !negb_false_iff, !bool_decide_eq_true, !N.eqb_eq.
  intros ((((? & ?) & ?) & ?) & ->) Ht Hd. by exists current.
Qed.

Lemma check_bindings_traces r version s past bindings (Post : Fleets -> list FxEv -> AppResult unit -> Prop) :
  (forall past', past ⊆ past' -> (forall b, b ∈ bindings -> binding_checked past' b) -> Post s past' (Ok tt)) ->
  (forall s' past' e, past ⊆ past' -> Post s' past' (Err e)) ->
  traces (fun _ => fleet_allowed r version) s past (check_bindings durable id bindings) Post.
Proof.
  revert past Post. induction bindings as [|b rest IH]; intros past Post Hok Herr; cbn [check_bindings].
  { apply Hok; [done|]. by intros b ?%not_elem_of_nil. }
  apply traces_bind. unfold change_get, asked_ok. apply traces_bind, traces_ask; [done|]. intros [current|e]; cbn;
    [|apply Herr; set_solver].
  set (past1 := past ++ [EvAsked (FxChangeGet (ta_change_set_id b)) (Ok current)]).
  assert (Hdigest : forall digest past2, past1 ⊆ past2 ->
    match digest with
    | Some d => told past2 (FxBindingDigest (ta_change_set_id b) (ta_change_set_version b)) (Ok d)
    | None => True
    end ->
    traces (fun _ => fleet_allowed r version) s past2
      (if binding_changed b current digest then
         fleet_invalidate durable id (lit "FLEET_APPROVAL_BINDING_CHANGED") ;; lift (Err InvalidOperation)
       else check_bindings durable id rest) Post).
  { intros digest past2 Hle Htold. destruct (binding_changed b current digest) eqn:Hb.
    - apply traces_bind, invalidate_traces; [done|]. intros s' past' [[]|e] Hle'; cbn; apply Herr; set_solver.
    - apply IH; [|intros; apply Herr; set_solver]. intros past' Hle' Hrest. apply Hok; [set_solver|].
      intros b' [->|Hb']%elem_of_cons; [|by apply Hrest].
      apply (binding_agrees past' b current digest); [exact Hb| |].
      + apply Hle', Hle. unfold past1. set_solver.
      + destruct digest; [|done]. by apply Hle'. }
  case_bool_decide.
  - cbn. by apply (Hdigest None).
  - cbn. split; [done|]. intros [d|e]; cbn; [|apply Herr; unfold past1; set_solver].
    apply (Hdigest (Some d)); [set_solver|]. unfold told. set_solver.
Qed.

Lemma tracks_refl r past : mc_execution_state r <> FxSucceeded -> tracks r past r.
Proof.
  intros Hs. split; [done..| |done]. apply Forall2_same_length_lookup. split; [done|].
  intros i t t' Ht Ht'. simplify_eq. split; try done; intros E; right; [|done..].
  exists t. split_and!; [by eapply list_elem_of_lookup_2|done|done].
Qed.

Lemma live_version r version : validate_live_version r version = Ok tt -> mc_recovery_state r = FxLive.
Proof. unfold validate_live_version. destruct (_ && _) eqn:H; [|done]. by apply andb_true_iff in H as [_ H%bool_decide_eq_true]. Qed.

(** An execution alone, from any state. *)
Lemma execute_traces version s r :
  s !! id = Some r -> (mc_recovery_state r = FxLive -> (1 <= mc_batch_size r)%nat) ->
  traces (fun _ => fleet_allowed r version) s [] (fleet_execute durable id version)
    (fun _ past o => forall r', o = Ok r' -> mc_execution_state r' = FxSucceeded ->
       forall t0, t0 ∈ mc_targets r -> earned r past t0).
Proof.
  intros Hr Hsize. change (fleet_execute durable id version) with
    (snapshot ← fleet_claim_execution durable id version; execute_claimed durable id snapshot).
  apply traces_bind. unfold fleet_claim_execution. apply traces_bind. cbn [fleet_get locked traces]. rewrite Hr. cbn [ok_or].
  apply traces_bind, traces_lift. destruct (validate_live_version r version) as [[]|e] eqn:Hlive; [|done].
  assert (Hone : (1 <= mc_batch_size r)%nat) by (apply Hsize; by eapply live_version).
  apply traces_bind, traces_lift. destruct (mc_approval r) as [approval|] eqn:Happ; [|done]. cbv beta iota delta [ok_or].
  destruct (claim_refused_fleet version r approval) eqn:Hrefused; [done|].
  apply traces_bind, check_bindings_traces; [|done]. intros past _ Hchecked.
  apply (change_run_traces _ _ _ r); [done|done| |done]. intros now past' Hle Hsaved.
  set (plan := claimed_run now r) in *.
  assert (Hids : NoDup (map te_target_id (mc_targets plan))).
  { change (NoDup (map te_target_id (mc_targets r))). unfold claim_refused_fleet in Hrefused.
    rewrite !orb_false_iff, !negb_false_iff in Hrefused. destruct Hrefused as [[_ Hexact] _].
    by apply exact_targets_nodup in Hexact. }
  assert (Hcleared : cleared durable id approval past').
  { split; [|intros b Hb; eapply binding_checked_mono; eauto].
    intros Hd. exists (<[id := plan]> s), plan. split_and!; [by apply Hsaved|apply lookup_insert_eq|done]. }
  eapply traces_mono; [eapply traces_allow; [|apply (keeps_execute_claimed durable id plan approval Hids (fun _ => True))]|].
  - intros s1 past1 q Hq. destruct q; try done; exists approval; by split.
  - done.
  - split; [done|]. exists plan. split; [apply lookup_insert_eq|]. by apply tracks_refl.
  - done.
  - intros s2 past2 o (_ & _ & Ho) r' ->. exact (tracks_success _ _ _ Ho).
Qed.
End Claim.

(** ** Approval *)

(** What an approval took from the change-set service for one target. *)
Definition bound_target (past : list FxEv) (t : FleetTargetExecution) (b : TargetApprovalBinding) : Prop :=
  ta_target_id b = te_target_id t /\ ta_change_set_version b = te_change_set_version t /\
  exists current digest,
    told past (FxChangeGet (te_change_set_id t)) (Ok current) /\ ta_change_set_id b = cs_id current /\
    cs_execution_state current = NotStarted /\
    told past (FxBindingDigest (cs_id current) (cs_version current)) (Ok digest) /\
    ta_precondition_digest b = Some digest.

Definition change_approved (past : list FxEv) (b : TargetApprovalBinding) : Prop :=
  exists c, told past (FxChangeApprove (ta_change_set_id b) (ta_change_set_version b)) (Ok c).

Lemma bound_target_mono past past' t b : past ⊆ past' -> bound_target past t b -> bound_target past' t b.
Proof. intros H (? & ? & c & d & ? & ? & ? & ? & ?). split_and!; [done..|]. exists c, d. split_and!; eauto using told_mono. Qed.
Lemma change_approved_mono past past' b : past ⊆ past' -> change_approved past b -> change_approved past' b.
Proof. intros H [c Hc]. exists c. by eapply told_mono. Qed.

Section Approve.
Context (durable : bool) (id : Uuid).
Abbreviation any := (fun (_ : Fleets) (_ : list FxEv) (_ : FxQuery) => True) (only parsing).

Lemma approval_bindings_traces s past targets (Post : Fleets -> list FxEv -> AppResult (list TargetApprovalBinding) -> Prop) :
  (forall past' bindings, past ⊆ past' -> Forall2 (bound_target past') targets bindings -> Post s past' (Ok bindings)) ->
  (forall s' past' e, past ⊆ past' -> Post s' past' (Err e)) ->
  traces any s past (approval_bindings durable id targets) Post.
Proof.
  revert past Post. induction targets as [|t rest IH]; intros past Post Hok Herr; cbn [approval_bindings].
  { by apply Hok. }
  apply traces_bind. unfold change_get, asked_ok. apply traces_bind, traces_ask; [done|].
  intros [current|e]; [|apply Herr; set_solver]. apply traces_lift.
  set (past1 := past ++ [EvAsked (FxChangeGet (te_change_set_id t)) (Ok current)]).
  destruct (target_changed t current) eqn:Hchanged.
  { apply traces_bind. apply (invalidate_traces durable id (fun _ _ => True)); [done|].
    intros s' past' [[]|e] Hle; apply Herr; unfold past1 in Hle; set_solver. }
  unfold target_changed in Hchanged. rewrite !orb_false_iff, !negb_false_iff, !N.eqb_eq, bool_decide_eq_true in Hchanged.
  destruct Hchanged as [[Hid Hversion] Hstate].
  apply traces_bind. unfold binding_digest, asked_ok. apply traces_bind, traces_ask; [done|].
  intros [digest|e]; [|apply Herr; unfold past1; set_solver]. apply traces_lift.
  set (past2 := past1 ++ [EvAsked (FxBindingDigest (cs_id current) (cs_version current)) (Ok digest)]).
  assert (Hle2 : past ⊆ past2) by (unfold past2, past1; set_solver).
  apply traces_bind, IH; [|intros s' past' e Hle; apply Herr; set_solver].
  intros past' bindings Hle Hrest. apply Hok; [set_solver|]. constructor; [|done].
  split_and!; [done|done|]. exists current, digest. split_and!; [|done|done| |done]; apply Hle; unfold past2, past1; set_solver.
Qed.

Lemma approve_change_sets_traces s past bindings (Post : Fleets -> list FxEv -> AppResult unit -> Prop) :
  (forall past', past ⊆ past' -> (forall b, b ∈ bindings -> change_approved past' b) -> Post s past' (Ok tt)) ->
  (forall past' e, past ⊆ past' -> Post s past' (Err e)) ->
  traces any s past (approve_change_sets bindings) Post.
Proof.
  revert past Post. induction bindings as [|b rest IH]; intros past Post Hok Herr; cbn [approve_change_sets].
  { apply Hok; [done|]. by intros b ?%not_elem_of_nil. }
  apply traces_bind. unfold asked_ok. apply traces_bind, traces_ask; [done|].
  intros [c|e]; [|apply Herr; set_solver]. apply traces_lift, IH; [|intros; apply Herr; set_solver].
  intros past' Hle Hrest. apply Hok; [set_solver|]. intros b' [->|Hb']%elem_of_cons; [|by apply Hrest].
  exists c. apply Hle. set_solver.
Qed.

Lemma reject_change_sets_traces s past bindings (Post : Fleets -> list FxEv -> AppResult unit -> Prop) :
  (forall past', past ⊆ past' -> Post s past' (Ok tt)) -> traces any s past (reject_change_sets bindings) Post.
Proof.
  revert past. induction bindings as [|b rest IH]; intros past HP; cbn [reject_change_sets]; [by apply HP|].
  apply traces_bind, traces_ask; [done|]. intros a. apply IH. intros. apply HP. set_solver.
Qed.

Lemma exact_targets_self targets :
  NoDup (map te_target_id targets) -> exact_targets_match targets (map te_target_id targets) = true.
Proof.
  intros Hnd. unfold exact_targets_match. pose proof (size_list_to_set (C := gset Uuid) _ Hnd) as Hsize.
  rewrite Hsize, length_map, Nat.eqb_refl. cbn. by apply bool_decide_eq_true.
Qed.

Definition covered (past : list FxEv) (version : N) (r r' : MultiChangeSet) : Prop :=
  exists approval, claimable r' version approval /\ mc_targets r' = mc_targets r /\
    fb_target_ids approval = map te_target_id (mc_targets r) /\
    Forall2 (bound_target past) (mc_targets r) (fb_targets approval) /\
    forall b, b ∈ fb_targets approval -> change_approved past b.

Lemma approve_traces version ids s r :
  s !! id = Some r ->
  traces any s [] (fleet_approve durable id version ids)
    (fun _ past o => forall r', o = Ok r' ->
       exact_targets_match (mc_targets r) ids = true /\ mc_execution_state r = FxDraft /\ covered past version r r').
Proof.
  intros Hr. unfold fleet_approve. apply traces_bind. cbn [fleet_get locked traces]. rewrite Hr. cbn [ok_or].
  apply traces_bind, traces_lift. destruct (validate_live_version r version) as [[]|e] eqn:Hlive; [|done].
  destruct (negb (bool_decide (mc_execution_state r = FxDraft)) || _) eqn:Hok; [done|].
  rewrite orb_false_iff, !negb_false_iff, bool_decide_eq_true in Hok. destruct Hok as [Hdraft Hexact].
  apply traces_bind, approval_bindings_traces; [|done]. intros past bindings _ Hbound.
  apply traces_bind, approve_change_sets_traces; [|done]. intros past1 Hle1 Happroved.
  cbv beta iota. unfold with_run. apply traces_bind, traces_bind, (traces_ask (Ans := FxAnswer) _ _ _ FxNow); [done|]. intros now.
  cbn [locked traces]. rewrite Hr, Hlive.
  set (r' := approved_run now version bindings r).
  assert (Hcovered : forall past', past1 ⊆ past' -> covered past' version r r').
  { intros past' Hle. exists (approval_of now version bindings r). split_and!; try done.
    - split_and!; [done|done|]. unfold claim_refused_fleet, r'. cbn. rewrite (N.eqb_refl version).
      rewrite exact_targets_self by (by eapply exact_targets_nodup). cbn. by rewrite !bool_decide_true.
    - cbn. eapply Forall2_impl; [done|]. intros t b. apply bound_target_mono. set_solver.
    - intros b Hb. eapply change_approved_mono; [|by apply Happroved]. done. }
  unfold fleet_persisting. destruct durable; cbn [traces].
  - intros [[]|e]; cbn [traces].
    + intros r2 [= <-]. split_and!; [done|done|]. apply Hcovered. set_solver.
    + apply traces_bind, reject_change_sets_traces. intros past2 _. done.
  - intros r2 [= <-]. split_and!; [done|done|]. apply Hcovered. set_solver.
Qed.
End Approve.

(** ** Calls one after another *)

(** What an approval wrote binds the targets, provided that a change set is answered
    under the identifier that was asked for. *)
Definition answers_by_name (past : list FxEv) : Prop := forall id c, told past (FxChangeGet id) (Ok c) -> cs_id c = id.

Lemma answers_by_name_mono past past' : past ⊆ past' -> answers_by_name past' -> answers_by_name past.
Proof. intros Hle H id c Hc. apply H, Hle, Hc. Qed.

Lemma bound_target_binds past t b : answers_by_name past -> bound_target past t b -> binds t b.
Proof.
  intros Hnames (Hid & Hversion & c & d & Hc & Hb & _). split; [done|]. unfold change_of. by rewrite Hb, (Hnames _ _ Hc), Hversion.
Qed.

Lemma approved_bound now version past bindings r :
  answers_by_name past -> Forall2 (bound_target past) (mc_targets r) bindings -> bound_run r ->
  bound_run (approved_run now version bindings r).
Proof.
  intros Hnames Hb [Hsize _]. split; [exact Hsize|]. cbn. intros approval [= <-]. cbn.
  eapply Forall2_impl; [exact Hb|]. intros t b. by apply bound_target_binds.
Qed.

Section Approved.
Context (durable : bool) (id : Uuid).
Abbreviation any := (fun (_ : Fleets) (_ : list FxEv) (_ : FxQuery) => True) (only parsing).
Definition bound_at {A} (s : Fleets) (past : list FxEv) (r : AppResult A) : Prop := answers_by_name past -> fleets_bound s.

Lemma approve_saves_bound version s past snapshot r bindings :
  s !! id = Some r -> bound_run snapshot -> fleets_bound s -> Forall2 (bound_target past) (mc_targets r) bindings ->
  traces any s past
    ('(saved, output) ← with_run id (fun now items run =>
       match validate_live_version run version with
       | Err e => Leave items (Err e)
       | Ok _ =>
           let run' := approved_run now version bindings run in
           let items' := <[id := run']> items in
           fleet_persisting durable items' (fun saved => (items', Ok (saved, run')))
       end);
     match saved with
     | Ok _ => mret output
     | Err error =>
         reject_change_sets (default [] (fb_targets <$> mc_approval output)) ;;
         locked (fun items => Leave (<[id := snapshot]> items) (Ok tt)) ;; lift (Err error)
     end) bound_at.
Proof.
  intros Hr Hsnap Hs Hb. apply traces_bind. unfold with_run. apply traces_bind, (traces_ask (Ans := FxAnswer) _ _ _ FxNow); [done|].
  intros now. cbn [locked traces]. rewrite Hr. destruct (validate_live_version r version) as [[]|e]; [|by intros _]. cbv zeta.
  set (items := <[id := approved_run now version bindings r]> s).
  assert (Hnew : forall past', past ⊆ past' -> answers_by_name past' -> fleets_bound items).
  { intros past' Hle Hn. apply bound_insert; [|done]. apply (approved_bound _ _ past); [by eapply answers_by_name_mono|done|by eapply Hs]. }
  unfold fleet_persisting. destruct durable; cbn [traces]; [|intros Hn; eapply Hnew; [|exact Hn]; set_solver].
  intros [[]|e]; cbn [traces]; [intros Hn; eapply Hnew; [|exact Hn]; set_solver|].
  apply traces_bind, reject_change_sets_traces. intros past2 Hle2 Hn. apply bound_insert; [done|].
  eapply Hnew; [|exact Hn]. set_solver.
Qed.

Lemma approve_bound version ids s : fleets_bound s -> traces any s [] (fleet_approve durable id version ids) bound_at.
Proof.
  intros Hs. unfold fleet_approve. apply traces_bind. cbn [fleet_get locked traces].
  destruct (s !! id) as [r|] eqn:Hr; cbn [ok_or]; [|by intros _]. apply traces_bind, traces_lift.
  destruct (validate_live_version r version) as [[]|e]; [|by intros _].
  destruct (negb (bool_decide (mc_execution_state r = FxDraft)) || _); [by intros _|]. apply traces_bind.
  eapply traces_mono; [apply (traces_kept fleets_bound); [apply quiet_approval_bindings|exact Hs|]|].
  - apply (approval_bindings_traces durable id _ _ _ (fun s' past r' =>
      match r' with Ok bindings => s' = s /\ Forall2 (bound_target past) (mc_targets r) bindings | Err _ => True end)); done.
  - intros s' past [bindings|e] [Hs' Hb]; [|by intros _]. destruct Hb as [-> Hb].
    apply traces_bind, approve_change_sets_traces; [|by intros ????]. intros past' Hle _. apply approve_saves_bound with (r := r); [done|by eapply Hs|done|].
    eapply Forall2_impl; [exact Hb|]. intros t b. by apply bound_target_mono.
Qed.
End Approved.

Section Served.
Context (durable : bool) {E : Type} (answer : E -> forall q, FxAnswer q * E)
  (save : E -> list PersistedFleetRun -> AppResult unit * E).

(** The states of a service whose calls are made one after another, each with the
    other services in any state. *)
Inductive served : Fleets -> Prop :=
  | served_new : served ∅
  | served_call s c env :
      served s -> served (snd (fst (fst (run answer save (fx_body durable c) s env [])))).

(** The change-set service answers with the change set that it is asked for. *)
Definition names_change_sets : Prop :=
  forall env id c env', answer env (FxChangeGet id) = (Ok c, env') -> cs_id c = id.

Definition asked_change (e : FxEv) : option (Uuid * AppResult ChangeSet) :=
  match e with EvAsked q a => match q return FxAnswer q -> option (Uuid * AppResult ChangeSet) with FxChangeGet id => fun a => Some (id, a) | _ => fun _ => None end a
  | EvSaved _ _ => None end.

Lemma run_by_name {A} (p : FxProc A) s env log o s' env' log' :
  names_change_sets -> answers_by_name log -> run answer save p s env log = (o, s', env', log') -> answers_by_name log'.
Proof.
  intros Hnames. revert s env log. induction p as [r| |X sec k IH|q k IH]; intros s env log Hlog; cbn.
  - by intros [= _ _ _ <-].
  - by intros [= _ _ _ <-].
  - destruct (sec s) as [s1 r|s0 records h]; [by apply IH|]. destruct (save env records) as [saved env1]. destruct (h saved) as [s1 r].
    apply IH. intros id c [Hc|Hc%list_elem_of_singleton]%elem_of_app; [by apply Hlog|done].
  - destruct (answer env q) as [a env1] eqn:Ha. apply IH. intros id c [Hc|Hc%list_elem_of_singleton]%elem_of_app; [by apply Hlog|].
    apply (f_equal asked_change) in Hc. destruct q; try done. injection Hc as <- <-. by eapply Hnames.
Qed.

Lemma served_bound s : names_change_sets -> served s -> fleets_bound s.
Proof.
  intros Hnames Hserved. induction Hserved as [|s c env _ IH]; [by intros id r ?%lookup_empty_Some|].
  destruct (run answer save (fx_body durable c) s env []) as [[[o s'] env'] log] eqn:Hrun. cbn.
  assert (Hlog : answers_by_name log) by (eapply run_by_name; [done| |exact Hrun]; by intros id x ?%not_elem_of_nil).
  destruct c as [| | | | | |id version ids| | | |];
    try (refine (run_kept answer save fleets_bound _ _ _ _ _ _ _ _ (quiet_call durable _ _) IH Hrun); intros ???; discriminate).
  assert (Hb : traces (fun _ _ _ => True) s [] (fx_body durable (FcApprove id version ids)) (fun s' past _ => bound_at s' past (Ok tt))).
  { cbn [fx_body]. apply traces_bind. eapply traces_mono; [by apply approve_bound|]. by intros s1 past [r|e]. }
  destruct (traces_run _ answer save _ _ _ _ _ _ _ _ _ Hb Hrun) as [(res & _ & Hres) _]. exact (Hres Hlog).
Qed.
End Served.

(** ** An execution that is not interfered with *)

(** What an execution of a fleet asks, with what was asked before. *)
Definition fleet_authorized (durable : bool) (id : Uuid) (r : MultiChangeSet) (version : N) (past : list FxEv) (q : FxQuery) : Prop :=
  fleet_allowed durable id r version past q /\
  match q with
  | FxExecuteBatch batch => forall c, c ∈ batch ->
      exists approval t b, mc_approval r = Some approval /\ b ∈ fb_targets approval /\ binding_checked past b /\
        t ∈ mc_targets r /\ te_state t = TgPending /\
        ta_target_id b = te_target_id t /\ (ta_change_set_id b, ta_change_set_version b) = c /\ change_of t = c
  | _ => True
  end.

Lemma allowed_authorized durable id r version past q :
  bound_run r -> fleet_allowed durable id r version past q -> fleet_authorized durable id r version past q.
Proof.
  intros Hbound Hq. split; [exact Hq|]. destruct q as [| | | | | | |batch| | |]; try done.
  destruct Hq as (approval & (Happ & _) & [_ Hchecked] & Hbatch). intros c (t & Ht & Hs & <-)%Hbatch.
  apply list_elem_of_lookup_1 in Ht as [i Hi]. destruct (Forall2_lookup_l _ _ _ _ _ (bound_approval _ Hbound _ Happ) Hi) as (b & Hb & Hid & Hc).
  apply list_elem_of_lookup_2 in Hi, Hb. exists approval, t, b. split_and!; auto.
Qed.

(** C23. Calls made one after another, whatever the change-set service, the tools, the
    file and the clock answer, as long as a change set is answered under the identifier
    that was asked for: an execution never panics, and before it executes a batch the
    run was live at this version with an approval of exactly its targets, every change
    set of the approval was found approved at its version with the digest it was
    approved under, and the claim was saved.  A batch holds change sets of pending
    targets only, each at the version at which a binding of the approval names it for
    that target; a change set is rolled back only when it was committed, in this
    execution or before; and the only tool it uses is the check, on a target of the
    plan, of the service that the plan names. *)
Theorem fleet_execution_authorized durable id {E : Type} (answer : E -> forall q, FxAnswer q * E) save
    version s r env o s' env' log :
  names_change_sets answer -> served durable answer save s -> s !! id = Some r ->
  run answer save (fleet_execute durable id version) s env [] = (o, s', env', log) ->
  o <> None /\
  forall l1 q a l2, log = l1 ++ EvAsked q a :: l2 -> fleet_authorized durable id r version l1 q.
Proof.
  intros Hnames Hserved Hr Hrun. pose proof (served_bound _ _ _ _ Hnames Hserved _ _ Hr) as Hbound.
  destruct (traces_run _ answer save _ _ _ _ _ _ _ _ _ (execute_traces durable id version s r Hr (bound_batch _ Hbound)) Hrun)
    as [(res & -> & _) (evs & -> & Hcalls)].
  split; [done|]. intros l1 q a l2 Hlog. destruct (Hcalls l1 q a l2 Hlog) as [_ Hq]. by apply allowed_authorized.
Qed.

(** C24. A fleet that ends Succeeded has earned it: the change set of every target was
    executed and answered committed, and where a service is to be verified it was
    found active under that change set - in this execution, or as the run had already
    recorded. *)
Theorem fleet_success_is_earned durable id {E : Type} (answer : E -> forall q, FxAnswer q * E) save
    version s r env r' s' env' log :
  s !! id = Some r -> (1 <= mc_batch_size r)%nat ->
  run answer save (fleet_execute durable id version) s env [] = (Some (Ok r'), s', env', log) ->
  mc_execution_state r' = FxSucceeded ->
  forall t, t ∈ mc_targets r -> earned r log t.
Proof.
  intros Hr Hsize Hrun Hs.
  destruct (traces_run _ answer save _ _ _ _ _ _ _ _ _ (execute_traces durable id version s r Hr (fun _ => Hsize)) Hrun)
    as [(res & [= <-] & Hres) _].
  exact (Hres r' eq_refl Hs).
Qed.

(** An approval that is not interfered with covers exactly the plan: it is given to a
    live draft for exactly its targets; for every target, in order, the change-set
    service held a change set of that session and version that had not started, whose
    preconditions are bound by their digest, and which it then approved; and the run
    that is returned can be claimed for execution at that version. *)
Theorem fleet_approval_covers durable id {E : Type} (answer : E -> forall q, FxAnswer q * E) save
    version ids s r env r' s' env' log :
  s !! id = Some r ->
  run answer save (fleet_approve durable id version ids) s env [] = (Some (Ok r'), s', env', log) ->
  exact_targets_match (mc_targets r) ids = true /\ mc_execution_state r = FxDraft /\ covered log version r r'.
Proof.
  intros Hr Hrun.
  destruct (traces_run _ answer save _ _ _ _ _ _ _ _ _ (approve_traces durable id version ids s r Hr) Hrun)
    as [(res & [= <-] & Hres) _].
  exact (Hres r' eq_refl).
Qed.

(** ** Recovery *)

(** What a restart leaves acts no more: a run read back from the file is metadata with
    no approval and nothing under way, and approving, executing or rolling it back is
    refused before anything is asked or written. *)
Theorem recovered_fleet_is_inert durable id {E : Type} (answer : E -> forall q, FxAnswer q * E) save
    version ids s now p env :
  s !! id = Some (recovered_run now p) ->
  (forall body, body = fleet_approve durable id version ids \/ body = fleet_execute durable id version \/
     body = rollback_explicit durable id version ->
     run answer save body s env [] = (Some (Err InvalidOperation), s, env, [])) /\
  mc_approval (recovered_run now p) = None /\
  match mc_execution_state (recovered_run now p) with FxExecuting | FxVerifying | FxRollingBack => False | _ => True end.
Proof.
  intros Hr. assert (Hlive : validate_live_version (recovered_run now p) version = Err InvalidOperation).
  { unfold validate_live_version. cbn [recovered_run mc_recovery_state]. rewrite bool_decide_false by done. by rewrite andb_false_r. }
  split_and!; [|done|cbn; by destruct (pf_execution_state p)].
  intros body [->|[->| ->]]; [unfold fleet_approve| |unfold rollback_explicit].
  2: change (fleet_execute durable id version) with
       (snapshot ← fleet_claim_execution durable id version; execute_claimed durable id snapshot);
     unfold fleet_claim_execution.
  all: cbn [mbind proc_mbind proc_bind fleet_get locked run]; rewrite Hr; cbn [ok_or proc_bind lift run]; by rewrite Hlive.
Qed.

(** ** Runs *)
Definition sample_change (id session : Uuid) : ChangeSet :=
  {| cs_id := id; cs_agent_run_id := 1; cs_session_id := session; cs_title := lit "t"; cs_version := 1; cs_risk := R2;
     cs_steps := []; cs_approval_state := CsApproved; cs_approved_version := Some 1%N;
     cs_execution_state := NotStarted; cs_recovery_state := Live; cs_preconditions := [];
     cs_policy_evaluation := None; cs_policy_snapshot := None; cs_approved_step_ids := [] |}.
Definition sample_result (kind : ServiceStatusKind) : ToolResult :=
  {| tr_invocation_id := 0; tr_tool_name := ServiceStatus; tr_success := true; tr_summary := [];
     tr_data := Some (TDServiceStatus {| sh_name := lit "web"; sh_status := kind |}); tr_error_code := None;
     tr_warnings := []; tr_started_at_epoch_ms := 0; tr_duration_ms := 0; tr_truncated := false;
     tr_cancelled := false; tr_untrusted_remote_data := true |}.

(** A change-set service that commits everything, with the service in a given state
    afterwards.  Change set 10 is on session 1, and 20 on session 2. *)
Definition sample_answer (kind : ServiceStatusKind) (e : unit) (q : FxQuery) : FxAnswer q * unit :=
  (match q return FxAnswer q with
   | FxNow => 5%N
   | FxLoad => Ok []
   | FxChangeDraft request => Ok (sample_change (10 * dr_session_id request) (dr_session_id request))
   | FxChangeGet id | FxChangeApprove id _ | FxChangeReject id _ => Ok (sample_change id (id / 10))
   | FxBindingDigest _ _ => Ok (lit "d")
   | FxExecuteBatch batch => fun n =>
       (Ok (with_execution Committed (sample_change (default 0%N (fst <$> batch !! n)) 0)), 3%N)
   | FxChangeRollback id _ => Ok (with_execution RolledBack (sample_change id (id / 10)))
   | FxTool _ => Ok (sample_result kind)
   | FxAudit => Ok []
   end, tt).
Definition always_saved (e : unit) (records : list PersistedFleetRun) : AppResult unit * unit := (Ok tt, tt).

Definition sample_targets : list ChangeSetDraftRequest :=
  map (fun session => {| dr_agent_run_id := 1; dr_session_id := session; dr_title := lit "t"; dr_steps := [] |}) [1%N; 2%N].
Definition sample_fleet : MultiChangeSetDraftRequest :=
  {| mr_agent_run_id := 1; mr_title := lit "fleet"; mr_targets := sample_targets;
     mr_execution_strategy := FxSequential; mr_failure_policy := FxPauseForReview; mr_batch_size := 1;
     mr_canary_count := 1; mr_production := true; mr_service_verification := Some (lit "web");
     mr_cross_target_verification := true |}.

Definition after {A} (kind : ServiceStatusKind) (p : proc Fleets (list PersistedFleetRun) FxQuery FxAnswer A) (s : Fleets) :=
  run (sample_answer kind) always_saved p s tt [].
Definition state_after {A} (kind : ServiceStatusKind) (p : proc Fleets (list PersistedFleetRun) FxQuery FxAnswer A)
    (s : Fleets) : Fleets := snd (fst (fst (after kind p s))).
Definition drafted_fleets : Fleets := state_after SvcActive (fleet_draft true sample_fleet 7) ∅.
Definition approved_fleets : Fleets := state_after SvcActive (fleet_approve true 7 1 [2%N; 1%N]) drafted_fleets.
Definition executed_fleets (kind : ServiceStatusKind) : Fleets :=
  state_after kind (fleet_execute true 7 1) approved_fleets.
Definition fleet_state (s : Fleets) (id : Uuid) : option FleetExecutionState := mc_execution_state <$> s !! id.
Definition executed_batches (log : list FxEv) : list (list (Uuid * N)) :=
  omap (fun e => match e with EvAsked (FxExecuteBatch b) _ => Some b | _ => None end) log.

Example fleet_runs :
  fleet_state approved_fleets 7 = Some FxApproved /\ fleet_state (executed_fleets SvcActive) 7 = Some FxSucceeded /\
  fleet_state (executed_fleets SvcFailed) 7 = Some FxPausedForReview /\
  executed_batches (snd (after SvcActive (fleet_execute true 7 1) approved_fleets)) = [[(10%N, 1%N)]; [(20%N, 1%N)]].
Proof. split_and!; vm_compute; reflexivity. Qed.

Lemma fleet_batches_exact_witness :
  exists run batches, approved_fleets !! 7%N = Some run /\ execution_batches run = Ok batches /\ batches = [[0%nat]; [1%nat]] /\
    NoDup (concat batches).
Proof.
  assert (H : exists run, approved_fleets !! 7%N = Some run /\ mc_batch_size run = 1%nat /\
    execution_batches run = Ok [[0%nat]; [1%nat]]) by (eexists; split_and!; vm_compute; reflexivity).
  destruct H as (run & Hrun & Hsize & Hb). exists run, [[0%nat]; [1%nat]]. split; [exact Hrun|]. split; [exact Hb|].
  split; [reflexivity|]. apply (fleet_batches_exact run); [rewrite Hsize; lia|exact Hb].
Defined.

Lemma after_run {A} kind (p : proc Fleets (list PersistedFleetRun) FxQuery FxAnswer A) s :
  run (sample_answer kind) always_saved p s tt [] =
  (fst (fst (fst (after kind p s))), state_after kind p s, snd (fst (after kind p s)), snd (after kind p s)).
Proof. unfold state_after, after. by destruct (run _ _ _ _ _ _) as [[[? ?] ?] ?]. Qed.

Lemma drafted_served : served true (sample_answer SvcActive) always_saved drafted_fleets.
Proof.
  assert (H : drafted_fleets = snd (fst (fst (run (sample_answer SvcActive) always_saved (fx_body true (FcDraft sample_fleet 7)) ∅ tt []))))
    by (vm_compute; reflexivity).
  rewrite H. apply served_call, served_new.
Qed.
Lemma approved_served : served true (sample_answer SvcActive) always_saved approved_fleets.
Proof.
  assert (H : approved_fleets = snd (fst (fst (run (sample_answer SvcActive) always_saved (fx_body true (FcApprove 7 1 [2%N; 1%N]))
                                                  drafted_fleets tt [])))) by (vm_compute; reflexivity).
  rewrite H. apply served_call, drafted_served.
Qed.
Lemma sample_named : names_change_sets (sample_answer SvcActive).
Proof. by intros [] id c env' [= <- <-]. Qed.

Lemma fleet_execution_authorized_witness :
  let o := after SvcActive (fleet_execute true 7 1) approved_fleets in
  fst (fst (fst o)) <> None /\ executed_batches (snd o) = [[(10%N, 1%N)]; [(20%N, 1%N)]].
Proof.
  assert (H : exists r, approved_fleets !! 7%N = Some r) by (eexists; vm_compute; reflexivity).
  destruct H as (r & Hr). split; [|vm_compute; reflexivity].
  apply (fleet_execution_authorized true 7 (sample_answer SvcActive) always_saved 1 approved_fleets r tt _ _ _ _ sample_named
           approved_served Hr (after_run SvcActive (fleet_execute true 7 1) approved_fleets)).
Defined.

Lemma fleet_success_is_earned_witness :
  exists r, approved_fleets !! 7%N = Some r /\
    Forall (earned r (snd (after SvcActive (fleet_execute true 7 1) approved_fleets))) (mc_targets r).
Proof.
  assert (H : exists r, approved_fleets !! 7%N = Some r /\ mc_batch_size r = 1%nat)
    by (eexists; split; vm_compute; reflexivity).
  destruct H as (r & Hr & Hsize). exists r. split; [exact Hr|]. apply Forall_forall. intros t Ht.
  assert (H : exists r', fst (fst (fst (after SvcActive (fleet_execute true 7 1) approved_fleets))) = Some (Ok r') /\
    mc_execution_state r' = FxSucceeded) by (eexists; split; vm_compute; reflexivity).
  destruct H as (r' & Hr' & Hs).
  pose proof (after_run SvcActive (fleet_execute true 7 1) approved_fleets) as Hrun. rewrite Hr' in Hrun.
  exact (fleet_success_is_earned true 7 (sample_answer SvcActive) always_saved 1 approved_fleets r tt r' _ _ _ Hr
           ltac:(rewrite Hsize; lia) Hrun Hs t Ht).
Defined.

Lemma fleet_approval_covers_witness :
  exists r r', drafted_fleets !! 7%N = Some r /\ mc_execution_state r' = FxApproved /\
    covered (snd (after SvcActive (fleet_approve true 7 1 [2%N; 1%N]) drafted_fleets)) 1 r r'.
Proof.
  assert (H : exists r, drafted_fleets !! 7%N = Some r) by (eexists; vm_compute; reflexivity).
  destruct H as (r & Hr).
  assert (H : exists r', fst (fst (fst (after SvcActive (fleet_approve true 7 1 [2%N; 1%N]) drafted_fleets))) = Some (Ok r') /\
    mc_execution_state r' = FxApproved) by (eexists; split; vm_compute; reflexivity).
  destruct H as (r' & Hr' & Hs). exists r, r'. split; [exact Hr|]. split; [exact Hs|].
  pose proof (after_run SvcActive (fleet_approve true 7 1 [2%N; 1%N]) drafted_fleets) as Hrun. rewrite Hr' in Hrun.
  apply (fleet_approval_covers true 7 (sample_answer SvcActive) always_saved 1 [2%N; 1%N] drafted_fleets r tt r' _ _ _ Hr Hrun).
Defined.

(** What is on disk while an execution is under way, and what a restart makes of it. *)
Definition interrupted_record (r : MultiChangeSet) : PersistedFleetRun := persisted_run (claimed_run 5 r).
Definition restarted (r : MultiChangeSet) : Fleets := {[ 7%N := recovered_run 6 (interrupted_record r) ]}.

Lemma recovered_fleet_is_inert_witness :
  exists r, approved_fleets !! 7%N = Some r /\ fleet_state (restarted r) 7 = Some FxInterrupted /\
    run (sample_answer SvcActive) always_saved (fleet_execute true 7 1) (restarted r) tt [] =
      (Some (Err InvalidOperation), restarted r, tt, []).
Proof.
  assert (H : exists r, approved_fleets !! 7%N = Some r) by (eexists; vm_compute; reflexivity).
  destruct H as (r & Hr). exists r. split; [exact Hr|]. split; [reflexivity|].
  assert (Hl : restarted r !! 7%N = Some (recovered_run 6 (interrupted_record r))) by reflexivity.
  destruct (recovered_fleet_is_inert true 7 (sample_answer SvcActive) always_saved 1 [] (restarted r) 6
              (interrupted_record r) tt Hl) as [H _].
  apply H. right. left. reflexivity.
Defined.

(** *** Where the code departs from its intent *)

(** A fleet that is paused because its verification failed has no pending target:
    resuming it claims the execution, finds nothing to execute, and leaves the run
    Executing, where neither execution nor rollback will take it. *)
Lemma paused_fleet_is_stranded :
  let s := state_after SvcFailed (fleet_execute true 7 1) (executed_fleets SvcFailed) in
  fst (fst (fst (after SvcFailed (fleet_execute true 7 1) (executed_fleets SvcFailed)))) = Some (Err InvalidOperation) /\
  fleet_state s 7 = Some FxExecuting /\
  fst (fst (fst (after SvcFailed (fleet_execute true 7 1) s))) = Some (Err InvalidOperation) /\
  fst (fst (fst (after SvcFailed (rollback_explicit true 7 1) s))) = Some (Err InvalidOperation).
Proof. cbv zeta. split_and!; vm_compute; reflexivity. Qed.

(** The state that a claim checks is read before the section that claims. *)
Definition fx_turn (i : nat) : act FxQuery FxAnswer FxCall :=
  ActTurn i (fun q => fst (sample_answer SvcActive tt q)) (Ok tt).
Definition fx_played (s : Fleets) (l : list (act FxQuery FxAnswer FxCall)) :=
  foldl (play (fx_body true) (fun _ _ => True)) (pool_init s []) l.

(** Two callers execute the same fleet: both send its change sets. *)
Lemma executed_twice :
  let l := [ActCall 0 (FcExecute 7 1); ActCall 1 (FcExecute 7 1)] ++ repeat (fx_turn 0) 6 ++ repeat (fx_turn 1) 6
           ++ [fx_turn 0; fx_turn 1] ++ repeat (fx_turn 0) 3 ++ repeat (fx_turn 1) 3 in
  omap (fun e => match snd e with EvAsked (FxExecuteBatch b) _ => Some (fst e, b) | _ => None end)
    (pl_log (fx_played approved_fleets l)) = [(0%nat, [(10%N, 1%N)]); (1%nat, [(10%N, 1%N)])].
Proof. vm_compute. reflexivity. Qed.

(** A change set is revised between the check and the claim: the approval is dropped,
    and the run is executed nevertheless. *)
Lemma claimed_after_invalidation :
  let l := [ActCall 0 (FcExecute 7 1)] ++ repeat (fx_turn 0) 5
           ++ [ActCall 1 (FcInvalidateTarget 10 1 2)] ++ repeat (fx_turn 1) 3 ++ repeat (fx_turn 0) 2 in
  (fun r => (mc_execution_state r, mc_approval_state r)) <$> pl_state (fx_played approved_fleets l) !! 7%N
    = Some (FxExecuting, CsInvalidated).
Proof. vm_compute. reflexivity. Qed.
