(* ===== verification/FleetChanges.v ===== *)
(** * Fleet runs and their change sets (agent/fleet_changeset.rs)

    The adapter between a fleet run and the execution of its change sets: a draft
    binds the exact run - its version, graph, targets, strategy and verification -
    into a digest, and every later call checks that binding again.  The operations
    are those of [FleetExecution], widened by the two calls to the change-set
    service that only the adapter makes. *)
From S2P Require Import Prelude Str Errors Externals RunState Tools Policy Decision Evidence.
From S2P Require Import Process ChangeSets FleetRun FleetExecution.

Definition MAX_FLEET_CHANGE_TITLE_BYTES : N := 256.

Inductive FleetChangeExecutionStrategy := FcSequential | FcCanary | FcRollingBatch | FcParallel.

Record FleetTargetChangeDraft := {
  fd_profile_id : Uuid; fd_title : str; fd_steps : list ChangeStepDraft }.

Record FleetChangeSetDraftRequest := {
  fq_fleet_run_id : Uuid;
  fq_fleet_run_version : N;
  fq_title : str;
  fq_targets : list FleetTargetChangeDraft;
  fq_execution_strategy : FleetChangeExecutionStrategy;
  fq_batch_size : nat;
  fq_canary_count : nat;
  fq_service_verification : option str;
  fq_cross_target_verification : bool;
}.

Record FleetTargetChangeReview := {
  rt_profile_id : Uuid; rt_session_id : Uuid; rt_role : option str; rt_change_set : ChangeSet }.

Record FleetChangeSetReview := {
  rv_fleet_run_id : Uuid;
  rv_fleet_run_version : N;
  rv_graph_digest : str;
  rv_orchestration_binding_digest : str;
  rv_execution : MultiChangeSet;
  rv_targets : list FleetTargetChangeReview;
}.

Record VerificationMaterial := { vm_service : option str; vm_cross_target : bool }.

Record BindingMaterial := {
  bm_fleet_run_id : Uuid;
  bm_fleet_run_version : N;
  bm_graph_digest : str;
  bm_targets : list FleetOrchestrationTargetBinding;
  bm_execution_strategy : ExecutionStrategy;
  bm_failure_policy : FailurePolicy;
  bm_batch_size : nat;
  bm_canary_count : nat;
  bm_production : bool;
  bm_verification_contract_digest : str;
}.

(** The derived serialization of the two materials, [None] when it fails. *)
Class FleetChangeSerde := {
  encode_verification : VerificationMaterial -> option str;
  encode_binding : BindingMaterial -> option str;
}.

Definition map_strategy (strategy : FleetChangeExecutionStrategy) : ExecutionStrategy :=
  match strategy with
  | FcSequential => FxSequential
  | FcCanary => FxCanary
  | FcRollingBatch => FxRollingBatch
  | FcParallel => FxParallel
  end.

Definition map_policy_strategy (strategy : ExecutionStrategy) : PolicyExecutionStrategy :=
  match strategy with
  | FxSequential => Sequential
  | FxCanary => Canary
  | FxRollingBatch => Rolling
  | FxParallel => Parallel
  end.

Definition map_failure (run : FleetRunV2) : FailurePolicy :=
  match fr_failure_policy run with
  | FpStop => FxStop
  | FpPauseForReview => FxPauseForReview
  | FpContinue => FxContinue
  | FpRollback => FxRollback
  end.

(** ** The binding *)
Section Binding.
Context `{Externals, FleetChangeSerde}.

(** [hash]. *)
Definition material_hash (encoded : option str) : AppResult str :=
  text ← ok_or encoded Storage; Ok (digest_hex text).

Definition target_binding (t : FleetTargetBinding) : FleetOrchestrationTargetBinding :=
  {| ob_profile_id := ftb_profile_id t; ob_session_id := ftb_session_id t; ob_role := ftb_role t;
     ob_ordinal := N.to_nat (ftb_ordinal t) |}.

Definition binding (run : FleetRunV2) (request : FleetChangeSetDraftRequest) (strategy : ExecutionStrategy) :
    AppResult FleetOrchestrationBinding :=
  let targets := map target_binding (fr_targets run) in
  verification ← material_hash (encode_verification
    {| vm_service := fq_service_verification request; vm_cross_target := fq_cross_target_verification request |});
  digest ← material_hash (encode_binding
    {| bm_fleet_run_id := fr_id run; bm_fleet_run_version := fr_version run;
       bm_graph_digest := fr_graph_digest run; bm_targets := targets; bm_execution_strategy := strategy;
       bm_failure_policy := map_failure run; bm_batch_size := fq_batch_size request;
       bm_canary_count := fq_canary_count request; bm_production := fr_production run;
       bm_verification_contract_digest := verification |});
  Ok {| fo_fleet_run_id := fr_id run; fo_fleet_run_version := fr_version run;
        fo_graph_digest := fr_graph_digest run; fo_targets := targets;
        fo_verification_contract_digest := verification; fo_binding_digest := digest |}.

Definition parent_state (s : FleetRunStateV2) : bool :=
  match s with FlApproved | FlExecuting | FlVerifying | FlPausedForReview => true | _ => false end.

Definition validate_parent (run : FleetRunV2) (id : Uuid) (version : N) : AppResult unit :=
  reject_if (negb (fr_id run =? id)%N || negb (fr_version run =? version)%N
             || negb (bool_decide (fr_recovery_state run = FrLive))
             || negb (parent_state (fr_state run))) InvalidOperation.

Definition same_target (b : FleetOrchestrationTargetBinding) (t : FleetTargetBinding) : bool :=
  (ob_profile_id b =? ftb_profile_id t)%N && (ob_session_id b =? ftb_session_id t)%N
  && bool_decide (ob_role b = ftb_role t) && (ob_ordinal b =? N.to_nat (ftb_ordinal t))%nat.

Definition validate_execution_binding (run : FleetRunV2) (execution : MultiChangeSet) : AppResult unit :=
  b ← ok_or (mc_orchestration_binding execution) InvalidOperation;
  validate_parent run (fo_fleet_run_id b) (fo_fleet_run_version b) ;;
  reject_if (negb (bool_decide (fo_graph_digest b = fr_graph_digest run))
             || negb (length (fo_targets b) =? length (fr_targets run))%nat
             || existsb (fun '(b, t) => negb (same_target b t)) (combine (fo_targets b) (fr_targets run)))
    InvalidOperation ;;
  let sessions : gset Uuid := list_to_set (map te_target_id (mc_targets execution)) in
  reject_if (negb (size sessions =? length (fr_targets run))%nat
             || existsb (fun t => negb (bool_decide (ftb_session_id t ∈ sessions))) (fr_targets run))
    InvalidOperation ;;
  verification ← material_hash (encode_verification
    {| vm_service := mc_service_verification execution;
       vm_cross_target := mc_cross_target_verification execution |});
  expected ← material_hash (encode_binding
    {| bm_fleet_run_id := fr_id run; bm_fleet_run_version := fr_version run;
       bm_graph_digest := fr_graph_digest run; bm_targets := fo_targets b;
       bm_execution_strategy := mc_execution_strategy execution;
       bm_failure_policy := mc_failure_policy execution; bm_batch_size := mc_batch_size execution;
       bm_canary_count := mc_canary_count execution; bm_production := mc_production execution;
       bm_verification_contract_digest := verification |});
  reject_if (negb (str_eqb verification (fo_verification_contract_digest b))
             || negb (str_eqb expected (fo_binding_digest b))) InvalidOperation.
End Binding.

(** ** The drafts of the targets *)

(** [.map(|target| (target.profile_id, target)).collect::<HashMap<_, _>>()]: a later
    draft of a profile replaces an earlier one. *)
Definition drafts_by_profile (targets : list FleetTargetChangeDraft) : gmap Uuid FleetTargetChangeDraft :=
  foldl (fun drafts t => <[fd_profile_id t := t]> drafts) ∅ targets.

Definition target_request (run : FleetRunV2) (t : FleetTargetBinding) (d : FleetTargetChangeDraft) :
    ChangeSetDraftRequest :=
  {| dr_agent_run_id := fr_id run; dr_session_id := ftb_session_id t; dr_title := fd_title d;
     dr_steps := fd_steps d |}.

Fixpoint target_requests (run : FleetRunV2) (targets : list FleetTargetBinding)
    (drafts : gmap Uuid FleetTargetChangeDraft) : AppResult (list ChangeSetDraftRequest) :=
  match targets with
  | [] => Ok []
  | t :: rest =>
      d ← ok_or (drafts !! ftb_profile_id t) InvalidOperation;
      requests ← target_requests run rest (delete (ftb_profile_id t) drafts);
      Ok (target_request run t d :: requests)
  end.

(** What a draft request becomes, before any service is asked. *)
Definition fleet_change_requests `{Externals, FleetChangeSerde} (run : FleetRunV2)
    (request : FleetChangeSetDraftRequest) :
    AppResult (FleetOrchestrationBinding * MultiChangeSetDraftRequest) :=
  validate_parent run (fq_fleet_run_id request) (fq_fleet_run_version request) ;;
  reject_if (is_empty (trim (fq_title request))
             || (MAX_FLEET_CHANGE_TITLE_BYTES <? blen (fq_title request))%N
             || negb (length (fq_targets request) =? length (fr_targets run))%nat) InvalidOperation ;;
  let strategy := map_strategy (fq_execution_strategy request) in
  reject_if (fr_production run && bool_decide (strategy = FxParallel)) InvalidOperation ;;
  b ← binding run request strategy;
  let drafts := drafts_by_profile (fq_targets request) in
  reject_if (negb (size drafts =? length (fr_targets run))%nat
             || existsb (fun t => bool_decide (drafts !! ftb_profile_id t = None)) (fr_targets run))
    InvalidOperation ;;
  requests ← target_requests run (fr_targets run) drafts;
  Ok (b, {| mr_agent_run_id := fr_id run; mr_title := fq_title request; mr_targets := requests;
            mr_execution_strategy := strategy; mr_failure_policy := map_failure run;
            mr_batch_size := fq_batch_size request; mr_canary_count := fq_canary_count request;
            mr_production := fr_production run;
            mr_service_verification := fq_service_verification request;
            mr_cross_target_verification := fq_cross_target_verification request |}).

(** ** The operations *)
Inductive FcQuery :=
  | FcFleet (q : FxQuery)                                                  (* what a fleet operation asks *)
  | FcCheckPolicy (id : Uuid) (version : N) (context : PolicyCheckContext) (* changes.check_policy *)
  | FcCapture (id : Uuid) (version : N).                                   (* changes.capture_preconditions *)

Definition FcAnswer (q : FcQuery) : Type :=
  match q with
  | FcFleet q => FxAnswer q
  | FcCheckPolicy _ _ _ | FcCapture _ _ => AppResult ChangeSet
  end.

Abbreviation FcProc := (proc Fleets (list PersistedFleetRun) FcQuery FcAnswer) (only parsing).

Definition in_fleet {A} (p : proc Fleets (list PersistedFleetRun) FxQuery FxAnswer A) : FcProc A :=
  widen FcFleet (fun _ a => a) p.
Definition change_set_answer (q : FcQuery) (f : FcAnswer q -> AppResult ChangeSet) : FcProc ChangeSet :=
  a ← ask q; lift (f a).

Section Adapter.
Context `{Externals, FleetChangeSerde} (durable : bool).

Definition find_session (run : FleetRunV2) (session : Uuid) : AppResult FleetTargetBinding :=
  ok_or (List.find (fun t => ftb_session_id t =? session)%N (fr_targets run)) InvalidOperation.

Definition target_review (exact : FleetTargetBinding) (c : ChangeSet) : FleetTargetChangeReview :=
  {| rt_profile_id := ftb_profile_id exact; rt_session_id := ftb_session_id exact;
     rt_role := ftb_role exact; rt_change_set := c |}.

Definition review_of (run : FleetRunV2) (binding_digest : str) (execution : MultiChangeSet)
    (targets : list FleetTargetChangeReview) : FleetChangeSetReview :=
  {| rv_fleet_run_id := fr_id run; rv_fleet_run_version := fr_version run;
     rv_graph_digest := fr_graph_digest run; rv_orchestration_binding_digest := binding_digest;
     rv_execution := execution; rv_targets := targets |}.

(** The time of a run's last audit event, or the default. *)
Definition last_event_time (r : MultiChangeSet) : N :=
  default 0%N (fae_occurred_at_epoch_ms <$> last (mc_audit r)).

Fixpoint bound_reviews (run : FleetRunV2) (targets : list FleetTargetExecution) :
    FcProc (list FleetTargetChangeReview) :=
  match targets with
  | [] => mret []
  | t :: rest =>
      exact ← lift (find_session run (te_target_id t));
      c ← in_fleet (change_get (te_change_set_id t));
      if negb (cs_version c =? te_change_set_version t)%N || negb (cs_session_id c =? ftb_session_id exact)%N
      then lift (Err InvalidOperation)
      else
        reviews ← bound_reviews run rest;
        mret (target_review exact c :: reviews)
  end.

Definition latest_bound (run : FleetRunV2) : FcProc (option FleetChangeSetReview) :=
  executions ← in_fleet fleet_list;
  match max_by_key last_event_time
          (List.filter (fun e => is_ok (validate_execution_binding run e)) executions) with
  | None => mret None
  | Some execution =>
      if negb (bool_decide (mc_recovery_state execution = FxLive)) then mret None
      else
        b ← lift (ok_or (mc_orchestration_binding execution) InvalidOperation);
        reviews ← bound_reviews run (mc_targets execution);
        mret (Some (review_of run (fo_binding_digest b) execution reviews))
  end.

Definition policy_context (exact : FleetTargetBinding) (target_count : nat) (strategy : PolicyExecutionStrategy) :
    PolicyCheckContext :=
  {| pcc_target := {| pt_server_id := ftb_profile_id exact; pt_group_id := None; pt_environment := None |};
     pcc_target_count := N.of_nat target_count; pcc_execution_strategy := strategy;
     pcc_source := SourceMultiServerChangeSet |}.

Fixpoint drafted_reviews (run : FleetRunV2) (strategy : PolicyExecutionStrategy)
    (targets : list FleetTargetExecution) : FcProc (list FleetTargetChangeReview) :=
  match targets with
  | [] => mret []
  | t :: rest =>
      exact ← lift (find_session run (te_target_id t));
      c ← change_set_answer (FcCheckPolicy (te_change_set_id t) (te_change_set_version t)
             (policy_context exact (length (fr_targets run)) strategy)) (fun a => a);
      reviews ← drafted_reviews run strategy rest;
      mret (target_review exact c :: reviews)
  end.

(** [id] is the identifier the fleet service draws. *)
Definition review_draft (run : FleetRunV2) (request : FleetChangeSetDraftRequest) (id : Uuid) :
    FcProc FleetChangeSetReview :=
  requests ← lift (fleet_change_requests run request);
  let '(b, fleet_request) := requests in
  execution ← in_fleet (draft_bound durable fleet_request b id);
  reviews ← drafted_reviews run (map_policy_strategy (map_strategy (fq_execution_strategy request)))
              (mc_targets execution);
  mret (review_of run (fo_binding_digest b) execution reviews).

Fixpoint captured_reviews (targets : list FleetTargetChangeReview) : FcProc (list FleetTargetChangeReview) :=
  match targets with
  | [] => mret []
  | t :: rest =>
      c ← change_set_answer (FcCapture (cs_id (rt_change_set t)) (cs_version (rt_change_set t))) (fun a => a);
      reviews ← captured_reviews rest;
      mret ({| rt_profile_id := rt_profile_id t; rt_session_id := rt_session_id t; rt_role := rt_role t;
               rt_change_set := c |} :: reviews)
  end.

Definition review_capture (review : FleetChangeSetReview) : FcProc FleetChangeSetReview :=
  targets ← captured_reviews (rv_targets review);
  mret {| rv_fleet_run_id := rv_fleet_run_id review; rv_fleet_run_version := rv_fleet_run_version review;
          rv_graph_digest := rv_graph_digest review;
          rv_orchestration_binding_digest := rv_orchestration_binding_digest review;
          rv_execution := rv_execution review; rv_targets := targets |}.

(** An operation on an execution that is bound to this run. *)
Definition on_bound {A} (run : FleetRunV2) (id : Uuid)
    (p : MultiChangeSet -> proc Fleets (list PersistedFleetRun) FxQuery FxAnswer A) : FcProc A :=
  execution ← in_fleet (fleet_get id);
  lift (validate_execution_binding run execution) ;;
  in_fleet (p execution).

Definition review_approve (run : FleetRunV2) (id : Uuid) (version : N) : FcProc MultiChangeSet :=
  on_bound run id (fun execution => fleet_approve durable id version (map te_target_id (mc_targets execution))).
Definition review_execute (run : FleetRunV2) (id : Uuid) (version : N) : FcProc MultiChangeSet :=
  on_bound run id (fun _ => fleet_execute durable id version).
Definition review_rollback (run : FleetRunV2) (id : Uuid) (version : N) : FcProc MultiChangeSet :=
  on_bound run id (fun _ => rollback_explicit durable id version).
End Adapter.
