(* ===== verification/FleetChangesTheorems.v ===== *)
(** * What the binding of a fleet run to its change sets gives

    A binding validates exactly for the run and the execution it was made of; what
    a draft binds is what it drafts; and nothing is approved, executed or rolled
    back for a run to which the execution is not bound. *)
From S2P Require Import Prelude Str Errors Externals RunState Tools Policy Decision Evidence.
From S2P Require Import Process ChangeSets FleetRun FleetExecution FleetExecutionTheorems FleetChanges.

(** What is documented of the derived serialization: every field is written, so
    that a text is the text of one value. *)
Class FleetChangeSerdeLaws `{FleetChangeSerde} := {
  encode_verification_inj a b text :
    encode_verification a = Some text -> encode_verification b = Some text -> a = b;
  encode_binding_inj a b text : encode_binding a = Some text -> encode_binding b = Some text -> a = b;
}.

(** Two materials whose texts SHA-256 tells apart. *)
Definition told_apart `{Externals} {A} (encode : A -> option str) (a b : A) : Prop :=
  forall ta tb, encode a = Some ta -> encode b = Some tb -> no_collision ta tb.

(** ** The materials of a request and of an execution *)
Definition request_verification (request : FleetChangeSetDraftRequest) : VerificationMaterial :=
  {| vm_service := fq_service_verification request; vm_cross_target := fq_cross_target_verification request |}.
Definition execution_verification (e : MultiChangeSet) : VerificationMaterial :=
  {| vm_service := mc_service_verification e; vm_cross_target := mc_cross_target_verification e |}.
Definition request_material (run : FleetRunV2) (request : FleetChangeSetDraftRequest)
    (strategy : ExecutionStrategy) (verification : str) : BindingMaterial :=
  {| bm_fleet_run_id := fr_id run; bm_fleet_run_version := fr_version run;
     bm_graph_digest := fr_graph_digest run; bm_targets := map target_binding (fr_targets run);
     bm_execution_strategy := strategy; bm_failure_policy := map_failure run;
     bm_batch_size := fq_batch_size request; bm_canary_count := fq_canary_count request;
     bm_production := fr_production run; bm_verification_contract_digest := verification |}.
Definition execution_material (run : FleetRunV2) (targets : list FleetOrchestrationTargetBinding)
    (e : MultiChangeSet) (verification : str) : BindingMaterial :=
  {| bm_fleet_run_id := fr_id run; bm_fleet_run_version := fr_version run;
     bm_graph_digest := fr_graph_digest run; bm_targets := targets;
     bm_execution_strategy := mc_execution_strategy e; bm_failure_policy := mc_failure_policy e;
     bm_batch_size := mc_batch_size e; bm_canary_count := mc_canary_count e;
     bm_production := mc_production e; bm_verification_contract_digest := verification |}.

(** The run, the request and the strategy a binding was made of are the run and the
    plan of an execution. *)
Definition same_plan (run0 : FleetRunV2) (request : FleetChangeSetDraftRequest) (strategy : ExecutionStrategy)
    (run : FleetRunV2) (e : MultiChangeSet) : Prop :=
  fr_id run = fr_id run0 /\ fr_version run = fr_version run0 /\ fr_graph_digest run = fr_graph_digest run0 /\
  fr_targets run = fr_targets run0 /\
  mc_service_verification e = fq_service_verification request /\
  mc_cross_target_verification e = fq_cross_target_verification request /\
  mc_execution_strategy e = strategy /\ mc_failure_policy e = map_failure run0 /\
  mc_batch_size e = fq_batch_size request /\ mc_canary_count e = fq_canary_count request /\
  mc_production e = fr_production run0.

(** A run that may still be acted upon, and an execution on exactly its sessions. *)
Definition acts_on (run : FleetRunV2) (e : MultiChangeSet) : Prop :=
  fr_recovery_state run = FrLive /\ parent_state (fr_state run) = true /\
  let sessions : gset Uuid := list_to_set (map te_target_id (mc_targets e)) in
  size sessions = length (fr_targets run) /\
  forall t, t ∈ fr_targets run -> ftb_session_id t ∈ sessions.

Section Binding.
Context `{ExternalLaws, FleetChangeSerdeLaws}.

Lemma material_hash_ok encoded digest :
  material_hash encoded = Ok digest <-> exists text, encoded = Some text /\ digest = digest_hex text.
Proof.
  unfold material_hash. rewrite bind_ok. split.
  - intros (text & Ht%ok_or_ok & [= <-]). eauto.
  - intros (text & -> & ->). by exists text.
Qed.

Lemma material_hash_same {A} (encode : A -> option str) a b da db :
  (forall text, encode a = Some text -> encode b = Some text -> a = b) -> told_apart encode a b ->
  material_hash (encode a) = Ok da -> material_hash (encode b) = Ok db -> da = db -> a = b.
Proof.
  intros Hinj Hc (ta & Ha & ->)%material_hash_ok (tb & Hb & ->)%material_hash_ok E.
  apply digest_hex_eq in E; [|by apply Hc]. subst tb. eauto.
Qed.

Lemma same_target_iff b t : same_target b t = true <-> b = target_binding t.
Proof.
  unfold same_target, target_binding. rewrite !andb_true_iff, !N.eqb_eq, bool_decide_eq_true, Nat.eqb_eq.
  destruct b; cbn. split; [intros [[[-> ->] ->] ->]; done|intros [= -> -> -> ->]; done].
Qed.

Lemma same_targets_iff bs ts :
  (length bs = length ts /\ existsb (fun '(b, t) => negb (same_target b t)) (combine bs ts) = false) <->
  bs = map target_binding ts.
Proof.
  revert ts. induction bs as [|b bs IH]; intros [|t ts]; cbn; [done|by split; [intros []|]|by split; [intros []|]|].
  rewrite orb_false_iff, negb_false_iff, same_target_iff. split.
  - intros [Hl [-> Hrest]]. f_equal. apply IH. split; [lia|done].
  - intros [= -> Hrest]. apply IH in Hrest as [? ?]. split; [lia|done].
Qed.

Lemma target_binding_inj ts ts' : map target_binding ts = map target_binding ts' -> ts = ts'.
Proof.
  revert ts'. induction ts as [|t ts IH]; intros [|t' ts']; cbn; try done.
  intros [= Hp Hs Hr Ho Hrest]. apply N2Nat.inj in Ho. f_equal; [|by apply IH].
  destruct t, t'; cbn in *. by subst.
Qed.

Lemma binding_ok run request strategy b :
  binding run request strategy = Ok b <->
  exists v d, material_hash (encode_verification (request_verification request)) = Ok v /\
    material_hash (encode_binding (request_material run request strategy v)) = Ok d /\
    b = {| fo_fleet_run_id := fr_id run; fo_fleet_run_version := fr_version run;
           fo_graph_digest := fr_graph_digest run; fo_targets := map target_binding (fr_targets run);
           fo_verification_contract_digest := v; fo_binding_digest := d |}.
Proof.
  unfold binding. fold (request_verification request). rewrite bind_ok. split.
  - intros (v & Hv & (d & Hd & [= <-])%bind_ok). eauto.
  - intros (v & d & Hv & Hd & ->). exists v. split; [done|]. apply bind_ok. by exists d.
Qed.

Lemma validate_parent_ok run id version :
  validate_parent run id version = Ok tt <->
  fr_id run = id /\ fr_version run = version /\ fr_recovery_state run = FrLive /\ parent_state (fr_state run) = true.
Proof.
  unfold validate_parent. rewrite reject_if_ok, !orb_false_iff, !negb_false_iff, !N.eqb_eq, bool_decide_eq_true.
  naive_solver.
Qed.

Lemma sessions_ok run e :
  (negb (size (list_to_set (map te_target_id (mc_targets e)) : gset Uuid) =? length (fr_targets run))%nat
   || existsb (fun t => negb (bool_decide (ftb_session_id t ∈ (list_to_set (map te_target_id (mc_targets e)) : gset Uuid))))
        (fr_targets run)) = false <->
  size (list_to_set (map te_target_id (mc_targets e)) : gset Uuid) = length (fr_targets run) /\
  forall t, t ∈ fr_targets run -> ftb_session_id t ∈ (list_to_set (map te_target_id (mc_targets e)) : gset Uuid).
Proof.
  rewrite orb_false_iff, negb_false_iff, Nat.eqb_eq, Existsb_false. setoid_rewrite negb_false_iff.
  setoid_rewrite bool_decide_eq_true. done.
Qed.

(** What the validation asks of an execution that carries a binding. *)
Lemma validate_execution_binding_ok run e b :
  mc_orchestration_binding e = Some b ->
  validate_execution_binding run e = Ok tt <->
  fr_id run = fo_fleet_run_id b /\ fr_version run = fo_fleet_run_version b /\
  fo_graph_digest b = fr_graph_digest run /\ fo_targets b = map target_binding (fr_targets run) /\ acts_on run e /\
  material_hash (encode_verification (execution_verification e)) = Ok (fo_verification_contract_digest b) /\
  material_hash (encode_binding (execution_material run (fo_targets b) e (fo_verification_contract_digest b)))
    = Ok (fo_binding_digest b).
Proof.
  intros Hb. unfold validate_execution_binding. rewrite Hb. cbn [ok_or]. fold (execution_verification e).
  unfold acts_on. rewrite <- sessions_ok, <- same_targets_iff.
  cbv zeta. split.
  - intros (b' & [= <-] & ([] & Hp & ([] & Hg & ([] & Hs & (v & Hv & (d & Hd & Hr)%bind_ok)%bind_ok)%bind_ok)%bind_ok)%bind_ok)%bind_ok.
    apply validate_parent_ok in Hp as (? & ? & ? & ?).
    apply reject_if_ok in Hg, Hs, Hr. rewrite !orb_false_iff, !negb_false_iff in Hg.
    rewrite orb_false_iff, !negb_false_iff in Hr.
    destruct Hg as [[Hg Hl] Ht], Hr as [->%str_eqb_eq ->%str_eqb_eq].
    apply bool_decide_eq_true in Hg. apply Nat.eqb_eq in Hl. by split_and!.
  - intros (Hi & Hv & Hg & [Hl Ht] & (Hlive & Hstate & Hs) & Hver & Hdig).
    apply bind_ok. exists b. split; [done|]. apply bind_ok. exists tt. split; [by apply validate_parent_ok|].
    apply bind_ok. exists tt. split.
    { apply reject_if_ok. rewrite !orb_false_iff, !negb_false_iff. by rewrite bool_decide_true, Hl, Nat.eqb_refl. }
    apply bind_ok. exists tt. split; [by apply reject_if_ok|].
    apply bind_ok. exists (fo_verification_contract_digest b). split; [done|].
    apply bind_ok. exists (fo_binding_digest b). split; [done|]. apply reject_if_ok. by rewrite !str_eqb_refl.
Qed.

Lemma same_plan_materials run0 request strategy run e v :
  same_plan run0 request strategy run e ->
  execution_verification e = request_verification request /\
  execution_material run (map target_binding (fr_targets run)) e v = request_material run0 request strategy v.
Proof.
  intros (Hi & Hv & Hg & Ht & Hs & Hc & Hst & Hf & Hb & Hcc & Hp). unfold execution_verification, execution_material,
    request_material, request_verification. by rewrite Hi, Hv, Hg, Ht, Hs, Hc, Hst, Hf, Hb, Hcc, Hp.
Qed.

(** C28. A binding validates exactly for what it was made of: an execution that carries
    the binding of a run, a request and a strategy passes for a run if and only if
    the run is live and in a state that may act, the execution is on exactly its
    sessions, and nothing differs from what was bound - identity, version, graph,
    targets with their roles and order, strategy, failure policy, batch and canary
    sizes, production, and the verification to be made; provided the serialization
    loses nothing and SHA-256 tells the texts apart. *)
Theorem fleet_binding_exact run0 request strategy b run e :
  binding run0 request strategy = Ok b -> mc_orchestration_binding e = Some b ->
  told_apart encode_verification (execution_verification e) (request_verification request) ->
  told_apart encode_binding
    (execution_material run (map target_binding (fr_targets run)) e (fo_verification_contract_digest b))
    (request_material run0 request strategy (fo_verification_contract_digest b)) ->
  validate_execution_binding run e = Ok tt <-> acts_on run e /\ same_plan run0 request strategy run e.
Proof.
  intros (v & d & Hv & Hd & ->)%binding_ok He Hva Hba. rewrite (validate_execution_binding_ok run e _ He).
  cbn [fo_fleet_run_id fo_fleet_run_version fo_graph_digest fo_targets fo_verification_contract_digest fo_binding_digest].
  split.
  - intros (Hi & Hver & Hg & Ht & Hacts & Hve & Hde). split; [done|].
    apply target_binding_inj in Ht.
    assert (Ev : execution_verification e = request_verification request).
    { eapply (material_hash_same encode_verification); eauto. intros text. apply encode_verification_inj. }
    assert (Eb : execution_material run (map target_binding (fr_targets run)) e v = request_material run0 request strategy v).
    { rewrite Ht in Hde. eapply (material_hash_same encode_binding); eauto. intros text. apply encode_binding_inj. }
    unfold execution_verification, request_verification in Ev. injection Ev as Hs Hc.
    unfold execution_material, request_material in Eb. injection Eb as _ _ _ _ Hst Hf Hb Hcc Hp. by split_and!.
  - intros [Hacts Hsame]. pose proof (same_plan_materials _ _ _ _ _ v Hsame) as [Ev Eb].
    destruct Hsame as (Hi & Hver & Hg & Ht & _). rewrite <- Ht in *. rewrite Ev, Eb. by split_and!.
Qed.
End Binding.

(** ** Drafts *)
Abbreviation FcEv := (event (list PersistedFleetRun) FcQuery FcAnswer) (only parsing).

(** The change sets a history asked to be drafted. *)
Definition asked_drafts (log : list FcEv) : list ChangeSetDraftRequest :=
  omap (fun e => match e with EvAsked (FcFleet (FxChangeDraft d)) _ => Some d | _ => None end) log.

(** Every change set answered is on the session it was asked for. *)
Definition honest_drafts (log : list FcEv) : Prop :=
  forall d c, EvAsked (Q := FcQuery) (Ans := FcAnswer) (FcFleet (FxChangeDraft d)) (Ok c) ∈ log ->
    cs_session_id c = dr_session_id d.

Lemma asked_drafts_app l1 l2 : asked_drafts (l1 ++ l2) = asked_drafts l1 ++ asked_drafts l2.
Proof. apply omap_app. Qed.
Lemma honest_drafts_app l1 l2 : honest_drafts (l1 ++ l2) -> honest_drafts l1 /\ honest_drafts l2.
Proof. intros H. split; intros d c Hc; apply H; set_solver. Qed.

Definition any_call (s : Fleets) (past : list FcEv) (q : FcQuery) : Prop := True.

(** An operation that leaves the runs and adds to the history what [R] says. *)
Definition only_asks {A} (p : FcProc A) (R : list FcEv -> A -> Prop) : Prop :=
  forall s past, traces any_call s past p (fun s' past' r => s' = s /\
    exists evs, past' = past ++ evs /\ match r with Ok a => R evs a | Err _ => True end).

Lemma draft_targets_asks l :
  only_asks (in_fleet (draft_targets l)) (fun evs cs =>
    asked_drafts evs = l /\ (honest_drafts evs -> map cs_session_id cs = map dr_session_id l)).
Proof.
  induction l as [|d l IH]; intros s past; cbn [draft_targets].
  { split; [done|]. exists []. by rewrite app_nil_r. }
  apply traces_widen_bind. apply traces_widen_bind. split; [done|]. intros [c|e]; cbn.
  2: { split; [done|]. by eexists. }
  apply traces_widen_bind. eapply traces_mono; [apply IH|]. intros s' past' [cs|e]; cbn.
  2: { intros (-> & evs & -> & _). split; [done|]. eexists. by rewrite <- app_assoc. }
  intros (-> & evs & -> & Hl & Hs). split; [done|]. eexists. rewrite <- app_assoc. split; [reflexivity|].
  rewrite asked_drafts_app, Hl. split; [done|].
  intros [Hc Hrest]%honest_drafts_app. f_equal; [|by apply Hs]. apply Hc. set_solver.
Qed.

Lemma find_session_ok run session exact :
  find_session run session = Ok exact -> exact ∈ fr_targets run /\ ftb_session_id exact = session.
Proof.
  unfold find_session. rewrite ok_or_ok. intros H%find_some_b. destruct H as [H1 H2%N.eqb_eq]. done.
Qed.

Lemma drafted_reviews_asks run strategy targets :
  only_asks (drafted_reviews run strategy targets) (fun evs reviews =>
    asked_drafts evs = [] /\
    Forall2 (fun t review => exists exact, find_session run (te_target_id t) = Ok exact /\
      rt_profile_id review = ftb_profile_id exact /\ rt_session_id review = ftb_session_id exact /\
      rt_role review = ftb_role exact) targets reviews).
Proof.
  induction targets as [|t targets IH]; intros s past; cbn [drafted_reviews].
  { split; [done|]. exists []. by rewrite app_nil_r. }
  apply traces_bind, traces_lift. destruct (find_session run (te_target_id t)) as [exact|e] eqn:Hf.
  2: { split; [done|]. exists []. by rewrite app_nil_r. }
  apply traces_bind. unfold change_set_answer. apply traces_bind. split; [done|]. intros [c|e]; cbn [traces lift].
  2: { split; [done|]. by eexists. }
  apply traces_bind. eapply traces_mono; [apply IH|]. intros s' past' [reviews|e]; cbn.
  2: { intros (-> & evs & -> & _). split; [done|]. eexists. by rewrite <- app_assoc. }
  intros (-> & evs & -> & Hl & Hs). split; [done|]. eexists. rewrite <- app_assoc. split; [reflexivity|].
  split; [done|]. constructor; [|done]. by exists exact.
Qed.

(** What a fleet draft leaves, with the change sets it was answered. *)
Definition drafted_as (r : MultiChangeSetDraftRequest) (b : FleetOrchestrationBinding) (id : Uuid)
    (evs : list FcEv) (e : MultiChangeSet) : Prop :=
  exists now change_sets, e = drafted_run r (Some b) id now change_sets /\
    NoDup (map dr_session_id (mr_targets r)) /\ asked_drafts evs = mr_targets r /\
    (honest_drafts evs -> map cs_session_id change_sets = map dr_session_id (mr_targets r)).

Lemma draft_bound_traces durable r b id s past :
  traces any_call s past (in_fleet (draft_bound durable r b id)) (fun s' past' o =>
    exists evs, past' = past ++ evs /\
      match o with Ok e => s' !! id = Some e /\ drafted_as r b id evs e | Err _ => True end).
Proof.
  unfold draft_bound. destruct (_ || _); [exists []; by rewrite app_nil_r|]. unfold draft_inner.
  assert (Hfail : exists evs : list FcEv, past = past ++ evs /\ True) by (exists []; by rewrite app_nil_r).
  apply traces_widen_bind, traces_lift. destruct (validate_request r) as [[]|e]; [|apply Hfail].
  apply traces_widen_bind, traces_lift. unfold reject_if. case_bool_decide as Hnd; cbn [negb]; [|apply Hfail].
  apply traces_widen_bind. eapply traces_mono; [apply draft_targets_asks|]. intros s' past' [change_sets|e]; cbn.
  2: { intros (-> & evs & -> & _). by exists evs. }
  intros (-> & evs & -> & Hasked & Hhonest). split; [done|]. intros now. unfold fleet_persisting.
  assert (Hdone : forall evs', asked_drafts evs' = [] -> drafted_as r b id (evs ++ evs') (drafted_run r (Some b) id now change_sets)).
  { intros evs' Hno. exists now, change_sets. rewrite asked_drafts_app, Hno, app_nil_r. split_and!; [done..|].
    intros [Hh _]%honest_drafts_app. by apply Hhonest. }
  destruct durable; cbn.
  - intros [[]|e]; cbn; rewrite <- !app_assoc; (eexists; split; [reflexivity|]); [|done].
    split; [by rewrite lookup_insert_eq|by apply Hdone].
  - rewrite <- !app_assoc. eexists. split; [reflexivity|]. split; [by rewrite lookup_insert_eq|by apply Hdone].
Qed.

(** *** The requests of a draft *)
Lemma drafts_lookup l (drafts : gmap Uuid FleetTargetChangeDraft) p d :
  foldl (fun (drafts : gmap Uuid FleetTargetChangeDraft) t => <[fd_profile_id t := t]> drafts) drafts l !! p = Some d ->
  (d ∈ l /\ fd_profile_id d = p) \/ drafts !! p = Some d.
Proof.
  revert drafts. induction l as [|x l IH]; intros drafts; cbn; [by right|].
  intros [[Hd Hp]|H]%IH; [left; split; [set_solver|done]|].
  apply lookup_insert_Some in H as [[<- <-]|[_ H]]; [left; split; [set_solver|done]|by right].
Qed.

(** The drafts taken, one for each target and of its profile. *)
Lemma target_requests_ok run targets drafts requests :
  target_requests run targets drafts = Ok requests ->
  exists taken, requests = zip_with (target_request run) targets taken /\
    Forall2 (fun t d => drafts !! ftb_profile_id t = Some d) targets taken /\ NoDup (map ftb_profile_id targets).
Proof.
  revert drafts requests. induction targets as [|t targets IH]; intros drafts requests; cbn.
  { intros [= <-]. exists []. split_and!; [done|constructor|constructor]. }
  intros (d & Hd%ok_or_ok & (rest & Hrest & [= <-])%bind_ok)%bind_ok.
  apply IH in Hrest as (taken & -> & Htaken & Hnd). exists (d :: taken). split; [done|].
  rewrite Forall2_lookup in Htaken. split; [constructor; [done|]|constructor; [|done]].
  - apply Forall2_same_length_lookup. split.
    + apply (Forall2_length _ _ _ (proj2 (Forall2_lookup _ _ _) Htaken)).
    + intros i t' d' Ht' Hd'. specialize (Htaken i). rewrite Ht', Hd' in Htaken. inversion Htaken as [? ? Hin|]. subst.
      by apply lookup_delete_Some in Hin as [_ ?].
  - intros (t' & Hp & Ht')%list_elem_of_fmap. apply list_elem_of_lookup_1 in Ht' as [i Hi].
    specialize (Htaken i). rewrite Hi in Htaken. inversion Htaken as [? d' Hin|]. subst.
    apply lookup_delete_Some in Hin as [Hne _]. by rewrite Hp in Hne.
Qed.

(** As many different profiles as drafts: every draft is taken. *)
Lemma taken_all run request taken :
  Forall2 (fun t d => drafts_by_profile (fq_targets request) !! ftb_profile_id t = Some d) (fr_targets run) taken ->
  NoDup (map ftb_profile_id (fr_targets run)) -> length (fq_targets request) = length (fr_targets run) ->
  taken ≡ₚ fq_targets request /\ Forall2 (fun t d => fd_profile_id d = ftb_profile_id t) (fr_targets run) taken.
Proof.
  intros Htaken Hnd Hlen.
  assert (Hfrom : Forall2 (fun t d => d ∈ fq_targets request /\ fd_profile_id d = ftb_profile_id t) (fr_targets run) taken).
  { eapply Forall2_impl; [exact Htaken|]. intros t d [H|H]%drafts_lookup; [done|by rewrite lookup_empty in H]. }
  assert (Hprofiles : map fd_profile_id taken = map ftb_profile_id (fr_targets run)).
  { clear -Hfrom. induction Hfrom as [|t d ts ds [_ Hp] _ IH]; cbn; [done|by rewrite Hp, IH]. }
  split; [|eapply Forall2_impl; [exact Hfrom|]; by intros ? ? []].
  assert (Hsub : taken ⊆+ fq_targets request).
  { apply NoDup_submseteq; [apply (NoDup_fmap_1 fd_profile_id); by rewrite <- Hprofiles in Hnd|].
    intros d Hd. apply list_elem_of_lookup_1 in Hd as [i Hi].
    destruct (Forall2_lookup_r _ _ _ _ _ Hfrom Hi) as (t & _ & Hin & _). done. }
  apply submseteq_length_Permutation; [done|]. rewrite Hlen, <- (Forall2_length _ _ _ Htaken). lia.
Qed.

Lemma fleet_change_requests_ok `{ExternalLaws, FleetChangeSerdeLaws} run request b r :
  fleet_change_requests run request = Ok (b, r) ->
  fr_recovery_state run = FrLive /\ parent_state (fr_state run) = true /\
  binding run request (map_strategy (fq_execution_strategy request)) = Ok b /\
  exists taken, taken ≡ₚ fq_targets request /\
    Forall2 (fun t d => fd_profile_id d = ftb_profile_id t) (fr_targets run) taken /\
    r = {| mr_agent_run_id := fr_id run; mr_title := fq_title request;
           mr_targets := zip_with (target_request run) (fr_targets run) taken;
           mr_execution_strategy := map_strategy (fq_execution_strategy request); mr_failure_policy := map_failure run;
           mr_batch_size := fq_batch_size request; mr_canary_count := fq_canary_count request;
           mr_production := fr_production run; mr_service_verification := fq_service_verification request;
           mr_cross_target_verification := fq_cross_target_verification request |}.
Proof.
  unfold fleet_change_requests.
  intros ([] & (_ & _ & Hlive & Hstate)%validate_parent_ok & ([] & Hlen%reject_if_ok & ([] & _ & (b' & Hb &
    ([] & _ & (requests & Hr & [= -> <-])%bind_ok)%bind_ok)%bind_ok)%bind_ok)%bind_ok)%bind_ok.
  rewrite !orb_false_iff, negb_false_iff, Nat.eqb_eq in Hlen. destruct Hlen as [_ Hlen].
  split_and!; [done..|]. apply target_requests_ok in Hr as (taken & -> & Htaken & Hnd). exists taken.
  destruct (taken_all run request taken Htaken Hnd Hlen) as [Hperm Hprofiles]. by split_and!.
Qed.

Lemma zip_requests_sessions run targets taken :
  length targets = length taken ->
  map dr_session_id (zip_with (target_request run) targets taken) = map ftb_session_id targets.
Proof.
  revert taken. induction targets as [|t targets IH]; intros [|d taken] Hl; try done. cbn in *. by rewrite IH by lia.
Qed.

(** What a draft drafted validates for its run. *)
Lemma drafted_is_bound `{ExternalLaws, FleetChangeSerdeLaws} run request b r id evs e :
  fleet_change_requests run request = Ok (b, r) -> drafted_as r b id evs e -> honest_drafts evs ->
  validate_execution_binding run e = Ok tt /\ map te_target_id (mc_targets e) = map ftb_session_id (fr_targets run) /\
  NoDup (map ftb_session_id (fr_targets run)).
Proof.
  intros (Hlive & Hstate & Hb & taken & Hperm & Hprof & ->)%fleet_change_requests_ok
    (now & cs & -> & Hnd & _ & Hs) Hhonest.
  specialize (Hs Hhonest). cbn [mr_targets] in Hs, Hnd.
  rewrite zip_requests_sessions in Hs, Hnd by apply (Forall2_length _ _ _ Hprof).
  assert (Htargets : map te_target_id (map fleet_target cs) = map ftb_session_id (fr_targets run)).
  { rewrite <- Hs, map_map. by apply map_ext. }
  split_and!; [|done|done]. apply binding_ok in Hb as (v & d & Hv & Hd & ->).
  eapply validate_execution_binding_ok; [reflexivity|].
  cbn [fo_fleet_run_id fo_fleet_run_version fo_graph_digest fo_targets fo_verification_contract_digest fo_binding_digest].
  split_and!; try done. unfold acts_on. cbn [mc_targets drafted_run]. rewrite Htargets. split_and!; [done..| |].
  - rewrite size_list_to_set by done. by rewrite length_map.
  - intros t Ht. apply elem_of_list_to_set. by apply list_elem_of_fmap_2.
Qed.

Lemma reviewed_targets run targets reviews :
  NoDup (map ftb_session_id (fr_targets run)) -> map te_target_id targets = map ftb_session_id (fr_targets run) ->
  Forall2 (fun t review => exists exact, find_session run (te_target_id t) = Ok exact /\
      rt_profile_id review = ftb_profile_id exact /\ rt_session_id review = ftb_session_id exact /\
      rt_role review = ftb_role exact) targets reviews ->
  map (fun v => (rt_profile_id v, rt_session_id v, rt_role v)) reviews =
  map (fun t => (ftb_profile_id t, ftb_session_id t, ftb_role t)) (fr_targets run).
Proof.
  intros Hnd Heq Hall.
  assert (Hsame : forall t t', t ∈ fr_targets run -> t' ∈ fr_targets run -> ftb_session_id t = ftb_session_id t' -> t = t').
  { intros t t' [i Hi]%list_elem_of_lookup_1 [j Hj]%list_elem_of_lookup_1 E.
    assert (i = j) as ->; [|by rewrite Hi in Hj; injection Hj].
    eapply NoDup_lookup; [exact Hnd| |]; rewrite list_lookup_fmap; [by rewrite Hi|rewrite Hj; cbn; by rewrite E]. }
  assert (Hpart : forall l, (forall t, t ∈ l -> t ∈ fr_targets run) -> map te_target_id targets = map ftb_session_id l ->
    map (fun v => (rt_profile_id v, rt_session_id v, rt_role v)) reviews =
    map (fun t => (ftb_profile_id t, ftb_session_id t, ftb_role t)) l); [|by apply Hpart].
  clear Heq. induction Hall as [|t review targets reviews (exact & Hf & Hp & Hs & Hr) _ IH]; intros [|x l] Hin Heq; try done.
  cbn in *. injection Heq as Hx Hrest. apply find_session_ok in Hf as [He Hes].
  assert (exact = x) as -> by (apply Hsame; [done|apply Hin; set_solver|congruence]).
  rewrite Hp, Hs, Hr. f_equal. apply IH; [|done]. intros t' Ht'. apply Hin. set_solver.
Qed.

Lemma production_not_parallel `{ExternalLaws, FleetChangeSerdeLaws} run request b r :
  fleet_change_requests run request = Ok (b, r) -> fr_production run = true -> mr_execution_strategy r <> FxParallel.
Proof.
  intros (?&_&(?&_&(?&Hpar%reject_if_ok&(?&_&(?&_&(?&_&[= _ <-])%bind_ok)%bind_ok)%bind_ok)%bind_ok)%bind_ok)%bind_ok Hp.
  cbn. rewrite Hp in Hpar. cbn in Hpar. by apply bool_decide_eq_false in Hpar.
Qed.

(** A draft binds what it drafts.  When it succeeds, every draft of the request has
    been taken for the target of its profile and no other, and the change sets asked
    for are those of the targets in the order of the run; the run drafted is stored,
    not approved, and validates for the fleet run; the review lists the targets of
    the run in order, each under its profile, session and role; and a production run
    is not executed in parallel. *)
Theorem review_draft_binds `{ExternalLaws, FleetChangeSerdeLaws} durable fleet request id {E : Type}
    (answer : E -> forall q, FcAnswer q * E) save s env review s' env' log :
  run answer save (review_draft durable fleet request id) s env [] = (Some (Ok review), s', env', log) ->
  honest_drafts log ->
  (exists taken, taken ≡ₚ fq_targets request /\
     Forall2 (fun t d => fd_profile_id d = ftb_profile_id t) (fr_targets fleet) taken /\
     asked_drafts log = zip_with (target_request fleet) (fr_targets fleet) taken) /\
  s' !! id = Some (rv_execution review) /\ mc_approval (rv_execution review) = None /\
  validate_execution_binding fleet (rv_execution review) = Ok tt /\
  map (fun v => (rt_profile_id v, rt_session_id v, rt_role v)) (rv_targets review) =
  map (fun t => (ftb_profile_id t, ftb_session_id t, ftb_role t)) (fr_targets fleet) /\
  (fr_production fleet = true -> mc_execution_strategy (rv_execution review) <> FxParallel).
Proof.
  intros Hrun Hhonest.
  assert (Ht : traces any_call s [] (review_draft durable fleet request id) (fun s' past' o =>
    match o with
    | Err _ => True
    | Ok review => exists b r evs evs', past' = evs ++ evs' /\ fleet_change_requests fleet request = Ok (b, r) /\
        s' !! id = Some (rv_execution review) /\ drafted_as r b id evs (rv_execution review) /\ asked_drafts evs' = [] /\
        Forall2 (fun t review => exists exact, find_session fleet (te_target_id t) = Ok exact /\
          rt_profile_id review = ftb_profile_id exact /\ rt_session_id review = ftb_session_id exact /\
          rt_role review = ftb_role exact) (mc_targets (rv_execution review)) (rv_targets review)
    end)).
  { unfold review_draft. apply traces_bind, traces_lift.
    destruct (fleet_change_requests fleet request) as [[b r]|e]; [|done].
    apply traces_bind. eapply traces_mono; [apply draft_bound_traces|]. intros s1 past1 [e|e]; [|done].
    intros (evs & -> & Hs & Hd). apply traces_bind. eapply traces_mono; [apply drafted_reviews_asks|].
    intros s2 past2 [reviews|e']; [|done]. intros (-> & evs' & -> & Hno & Hall). exists b, r, evs, evs'. by split_and!. }
  destruct (traces_run _ _ _ _ _ _ _ _ _ _ _ _ Ht Hrun) as [(o & [= <-] & b & r & evs & evs' & -> & Hr & Hs & Hd & Hno & Hall) _].
  apply honest_drafts_app in Hhonest as [Hhonest _].
  destruct (drafted_is_bound fleet request b r id evs _ Hr Hd Hhonest) as (Hvalid & Htargets & Hnd).
  split_and!; [| done| | done| by apply (reviewed_targets fleet _ _ Hnd Htargets) |].
  - apply fleet_change_requests_ok in Hr as (_ & _ & _ & taken & Hperm & Hprof & ->).
    destruct Hd as (_ & _ & _ & _ & Hasked & _). exists taken. rewrite asked_drafts_app, Hno, app_nil_r. by split_and!.
  - by destruct Hd as (? & ? & -> & _).
  - destruct Hd as (? & ? & -> & _). by apply (production_not_parallel fleet request b r).
Qed.

(** ** Operations on a bound execution *)
Lemma on_bound_run `{Externals, FleetChangeSerde} {A} fleet id
    (p : MultiChangeSet -> proc Fleets (list PersistedFleetRun) FxQuery FxAnswer A) {E : Type}
    (answer : E -> forall q, FcAnswer q * E) save s env e :
  s !! id = Some e ->
  run answer save (on_bound fleet id p) s env [] =
  match validate_execution_binding fleet e with
  | Ok _ => run answer save (in_fleet (p e)) s env []
  | Err x => (Some (Err x), s, env, [])
  end.
Proof.
  intros He. unfold on_bound, in_fleet, fleet_get. cbn. rewrite He. cbn.
  by destruct (validate_execution_binding fleet e) as [[]|x].
Qed.

(** What the fleet service is told, of what the adapter is told. *)
Definition fleet_answers {E : Type} (answer : E -> forall q, FcAnswer q * E) (e : E) (q : FxQuery) : FxAnswer q * E :=
  answer e (FcFleet q).

(** Approval, execution and rollback act on what the run is bound to: when the
    execution stored is not bound to this fleet run they fail without a call and
    without a change; otherwise they are the operation of the fleet service, with
    its result, its state and its history. *)
Theorem review_operations_are_bound `{Externals, FleetChangeSerde} durable fleet id version {E : Type}
    (answer : E -> forall q, FcAnswer q * E) save s env e :
  s !! id = Some e ->
  forall body op,
    (body = review_approve durable fleet id version /\
       op = fleet_approve durable id version (map te_target_id (mc_targets e))) \/
    (body = review_execute durable fleet id version /\ op = fleet_execute durable id version) \/
    (body = review_rollback durable fleet id version /\ op = rollback_explicit durable id version) ->
  match validate_execution_binding fleet e with
  | Err x => run answer save body s env [] = (Some (Err x), s, env, [])
  | Ok _ =>
      exists o s' env' evs evs', run (fleet_answers answer) save op s env [] = (o, s', env', evs) /\
        widen_log FcFleet (fun _ a => a) evs evs' /\ run answer save body s env [] = (o, s', env', evs')
  end.
Proof.
  intros He body op Hbody.
  assert (Hrun : run answer save body s env [] =
    match validate_execution_binding fleet e with
    | Ok _ => run answer save (in_fleet op) s env []
    | Err x => (Some (Err x), s, env, [])
    end).
  { destruct Hbody as [[-> ->]|[[-> ->]|[-> ->]]];
      unfold review_approve, review_execute, review_rollback; by rewrite (on_bound_run _ _ _ _ _ _ _ e He). }
  rewrite Hrun. destruct (validate_execution_binding fleet e) as [[]|x]; [|done].
  pose proof (run_widen (Ans := FxAnswer) FcFleet (fun _ a => a) answer save op s env [] []) as Hw. cbv beta zeta in Hw.
  rewrite (run_ext (fun e q => let '(a, e') := answer e (FcFleet q) in (a, e')) (fleet_answers answer)) in Hw.
  2: { intros e' q. unfold fleet_answers. by destruct (answer e' (FcFleet q)). }
  destruct (run (fleet_answers answer) save op s env []) as [[[o s'] env'] evs].
  destruct Hw as (evs0 & evs' & -> & Hlog & Hr). exists o, s', env', evs0, evs'. by split_and!.
Qed.

(** ** Runs *)

(** A serialization that loses nothing: every field after its length. *)
Definition flat (l : list (list N)) : str := concat (map (fun x => N.of_nat (length x) :: x) l).
Definition strategy_index (s : ExecutionStrategy) : N :=
  match s with FxSequential => 0 | FxParallel => 1 | FxCanary => 2 | FxRollingBatch => 3 end.
Definition policy_index (p : FailurePolicy) : N :=
  match p with FxStop => 0 | FxPauseForReview => 1 | FxContinue => 2 | FxRollback => 3 end.
Definition option_field (o : option str) : list N := match o with Some x => 1%N :: x | None => [] end.
Definition bool_field (b : bool) : list N := [if b then 1 else 0]%N.
Definition target_fields (b : FleetOrchestrationTargetBinding) : list (list N) :=
  [[ob_profile_id b]; [ob_session_id b]; option_field (ob_role b); [N.of_nat (ob_ordinal b)]].
Definition material_fields (m : BindingMaterial) : list (list N) :=
  [bm_fleet_run_id m] :: [bm_fleet_run_version m] :: bm_graph_digest m :: [strategy_index (bm_execution_strategy m)]
  :: [policy_index (bm_failure_policy m)] :: [N.of_nat (bm_batch_size m)] :: [N.of_nat (bm_canary_count m)]
  :: bool_field (bm_production m) :: bm_verification_contract_digest m :: concat (map target_fields (bm_targets m)).

#[local] Instance flat_serde : FleetChangeSerde := {
  encode_verification m := Some (flat [option_field (vm_service m); bool_field (vm_cross_target m)]);
  encode_binding m := Some (flat (material_fields m)) }.

Lemma flat_inj l l' : flat l = flat l' -> l = l'.
Proof.
  revert l'. induction l as [|x l IH]; intros [|x' l']; try done. unfold flat. cbn [map concat app].
  intros [= Hl Ht]. apply N2Nat.inj_iff in Hl. rewrite !Nat2N.id in Hl. apply app_inj_1 in Ht as [-> Hrest]; [|done].
  f_equal. by apply IH.
Qed.

Lemma option_field_inj o o' : option_field o = option_field o' -> o = o'.
Proof. destruct o, o'; cbn; congruence. Qed.
Lemma bool_field_inj b b' : bool_field b = bool_field b' -> b = b'.
Proof. by destruct b, b'. Qed.

#[local] Instance flat_laws : FleetChangeSerdeLaws.
Proof.
  split; intros a b text Ha Hb; apply (inj Some) in Ha, Hb; rewrite <- Ha in Hb; clear Ha; rename Hb into E;
    symmetry in E; apply flat_inj in E.
  - destruct a, b. injection E as Ho Hb. cbn in Ho, Hb. apply option_field_inj in Ho. f_equal; [done|].
    by apply bool_field_inj; unfold bool_field; rewrite Hb.
  - destruct a as [? ? ? ts s p], b as [? ? ? ts' s' p']. unfold material_fields in E. cbn in E.
    injection E as -> -> -> Hs Hp Hb Hc Hprod -> Ht. apply Nat2N.inj in Hb as ->, Hc as ->.
    f_equal; [|by destruct s, s'|by destruct p, p'|by apply bool_field_inj; unfold bool_field; rewrite Hprod].
    revert ts' Ht. clear. induction ts as [|[] ts IH]; intros [|[] ts']; cbn; try done.
    intros [= -> -> Hr Ho Ht]. apply option_field_inj in Hr as ->. apply Nat2N.inj in Ho as ->. f_equal. by apply IH.
Qed.

(** A digest of 32 bytes. *)
Definition digest32 (text : str) : list N :=
  let value := foldl (fun v c => (v * 1000003 + c + 1) mod 2 ^ 256)%N 7%N text in
  map (fun i => (value / 256 ^ N.of_nat i) mod 256)%N (seq 0 32).
#[local] Instance digest32_externals : Externals := {
  sha256 := digest32;
  uuid_display := @uuid_display quoting_externals;
  debug_str := @debug_str quoting_externals }.
#[local] Instance digest32_laws : ExternalLaws.
Proof.
  split; try apply quoting_laws. intros m. apply Forall_forall. intros b Hb.
  change (b ∈ digest32 m) in Hb. unfold digest32 in Hb. cbv zeta in Hb.
  apply list_elem_of_fmap in Hb as (i & -> & _). by apply N.mod_lt.
Qed.

Definition bound_fleet_target (k : N) : FleetTargetBinding :=
  {| ftb_profile_id := k + 100; ftb_session_id := k; ftb_role := Some (lit "web"); ftb_ordinal := k |}.
Definition bound_fleet : FleetRunV2 :=
  {| fr_id := 3; fr_version := 2; fr_state := FlApproved; fr_production := true; fr_failure_policy := FpRollback;
     fr_targets := map bound_fleet_target [1%N; 2%N]; fr_stages := []; fr_children := [];
     fr_graph_digest := concat (repeat (lit "ab") 32); fr_recovery_state := FrLive; fr_created_at := 1; fr_updated_at := 1 |}.
Definition fleet_change_draft (profile : N) : FleetTargetChangeDraft :=
  {| fd_profile_id := profile; fd_title := lit "Reload"; fd_steps := [] |}.
Definition sample_change_request : FleetChangeSetDraftRequest :=
  {| fq_fleet_run_id := 3; fq_fleet_run_version := 2; fq_title := lit "Reload"; 
     fq_targets := map fleet_change_draft [102%N; 101%N]; fq_execution_strategy := FcCanary; fq_batch_size := 1;
     fq_canary_count := 1; fq_service_verification := Some (lit "nginx"); fq_cross_target_verification := true |}.

Definition answering (e : unit) (q : FcQuery) : FcAnswer q * unit :=
  match q return FcAnswer q * unit with
  | FcFleet q => sample_answer SvcActive e q
  | FcCheckPolicy id _ _ | FcCapture id _ => (Ok (sample_change id (id / 10)), tt)
  end.
Definition drafted_review :=
  run answering always_saved (review_draft true bound_fleet sample_change_request 7) ∅ tt [].

Definition honest_event (e : FcEv) : bool :=
  match e with
  | EvAsked q a =>
      match q return FcAnswer q -> bool with
      | FcFleet (FxChangeDraft d) => fun a => match a with Ok c => (cs_session_id c =? dr_session_id d)%N | Err _ => true end
      | _ => fun _ => true
      end a
  | EvSaved _ _ => true
  end.

Lemma honest_events log : forallb honest_event log = true -> honest_drafts log.
Proof. intros H d c Hc. rewrite Forallb_forall in H. specialize (H _ Hc). cbn in H. by apply N.eqb_eq in H. Qed.

Lemma answered_drafts_are_honest : honest_drafts (snd drafted_review).
Proof. apply honest_events. vm_compute. reflexivity. Qed.

Lemma review_draft_binds_witness :
  exists review, fst (fst (fst drafted_review)) = Some (Ok review) /\
    validate_execution_binding bound_fleet (rv_execution review) = Ok tt.
Proof.
  assert (H : exists review, fst (fst (fst drafted_review)) = Some (Ok review)) by (eexists; vm_compute; reflexivity).
  destruct H as (review & Hr). exists review. split; [exact Hr|].
  assert (Hrun : drafted_review = (Some (Ok review), snd (fst (fst drafted_review)), snd (fst drafted_review), snd drafted_review)).
  { rewrite <- Hr. by destruct drafted_review as [[[? ?] ?] ?]. }
  apply (review_draft_binds true bound_fleet sample_change_request 7 answering always_saved ∅ tt review _ _ _ Hrun
           answered_drafts_are_honest).
Defined.

(** What that review drafted, and its binding. *)
Definition sample_execution : MultiChangeSet := Eval vm_compute in
  match fst (fst (fst drafted_review)) with
  | Some (Ok review) => rv_execution review
  | _ => drafted_run sample_fleet None 0 0 []
  end.
Definition sample_bound : FleetOrchestrationBinding := Eval vm_compute in
  match mc_orchestration_binding sample_execution with
  | Some b => b
  | None => {| fo_fleet_run_id := 0; fo_fleet_run_version := 0; fo_graph_digest := []; fo_targets := [];
               fo_verification_contract_digest := []; fo_binding_digest := [] |}
  end.
Definition relabelled_fleet : FleetRunV2 :=
  {| fr_id := 3; fr_version := 2; fr_state := FlApproved; fr_production := true; fr_failure_policy := FpRollback;
     fr_targets := [bound_fleet_target 1; {| ftb_profile_id := 102; ftb_session_id := 2; ftb_role := Some (lit "db");
                                            ftb_ordinal := 2 |}]; fr_stages := []; fr_children := [];
     fr_graph_digest := fr_graph_digest bound_fleet; fr_recovery_state := FrLive; fr_created_at := 1; fr_updated_at := 1 |}.

Lemma told_apart_here {A} (encode : A -> option str) a b :
  match encode a, encode b with
  | Some ta, Some tb => bool_decide (ta = tb) || negb (bool_decide (sha256 ta = sha256 tb))
  | _, _ => true
  end = true -> told_apart encode a b.
Proof.
  intros H ta tb Ha Hb Hs. rewrite Ha, Hb, orb_true_iff, negb_true_iff, bool_decide_eq_true, bool_decide_eq_false in H.
  by destruct H.
Qed.

Lemma fleet_binding_exact_witness :
  binding bound_fleet sample_change_request FxCanary = Ok sample_bound /\
  validate_execution_binding bound_fleet sample_execution = Ok tt /\
  ~ validate_execution_binding relabelled_fleet sample_execution = Ok tt.
Proof.
  assert (Hb : binding bound_fleet sample_change_request FxCanary = Ok sample_bound) by (vm_compute; reflexivity).
  assert (He : mc_orchestration_binding sample_execution = Some sample_bound) by reflexivity.
  split_and!; [exact Hb| |].
  - apply (fleet_binding_exact bound_fleet sample_change_request FxCanary sample_bound bound_fleet _ Hb He);
      [apply told_apart_here; vm_compute; reflexivity..|].
    split; [|by split_and!]. unfold acts_on. cbv zeta.
    split; [reflexivity|]. split; [reflexivity|]. split; [vm_compute; reflexivity|].
    intros t Ht. change (fr_targets bound_fleet) with [bound_fleet_target 1; bound_fleet_target 2] in Ht.
    rewrite !elem_of_cons, elem_of_nil in Ht. destruct Ht as [->|[->|[]]];
      apply (bool_decide_eq_true_1 (_ ∈ (list_to_set [1; 2]%N : gset Uuid))); vm_compute; reflexivity.
  - intros H. apply (fleet_binding_exact bound_fleet sample_change_request FxCanary sample_bound relabelled_fleet _ Hb He) in H;
      [|apply told_apart_here; vm_compute; reflexivity..].
    destruct H as [_ (_ & _ & _ & Ht & _)]. discriminate Ht.
Defined.
