(* ===== verification/Incidents.v ===== *)
(** * Incidents (agentic/incident.rs; execute_reads of agentic/runtime.rs)

    An incident is investigated by a fixed plan of reads on each of its targets,
    diagnosed from what they show, compared between targets, bound to a change set
    that repairs it, synchronised with that change set, handed over, closed, and
    kept as metadata across restarts.  Every operation of [IncidentService] is a
    [proc]: its sections hold the lock on [items], and the tools, the cache, the
    change-set and the fleet service, the repository, the clock and the random
    identifiers are asked through [IcQuery].  The clock is read before the section
    that writes the time.  [watch::channel(false)] is never written by [run], so
    that no batch of reads is cancelled. *)
From S2P Require Import Prelude Str Json Errors Externals RunState Tools Policy Decision Evidence.
From S2P Require Import NumText CommandLoop Facts Cache Process Execution ChangeSets FleetExecution.
From Stdlib Require Import Floats.SpecFloat.

(** What the code uses of [serde_json] and of the Unicode tables: the text of a
    value, and [char::is_alphanumeric]. *)
Class IncidentExternals := {
  json_to_string : json -> str;
  is_alphanumeric : chr -> bool;
}.

Definition INCIDENT_MAX_TARGETS : nat := 10.
Definition MAX_SYMPTOMS : nat := 20.
Definition MAX_TOOL_CALLS_PER_TARGET : nat := 20.
Definition MAX_INCIDENTS : nat := 2000.
Definition INCIDENT_SCHEMA_VERSION : N := 2.
Definition LEGACY_INCIDENT_SCHEMA_VERSION : N := 1.
Definition MAX_INCIDENT_TIMELINE_EVENTS : nat := 512.

(** ** Data *)
Inductive OperationsPack := PackWebsite | PackNginx | PackDocker | PackDisk | PackService.
#[export] Instance operations_pack_eq_dec : EqDecision OperationsPack.
Proof. solve_decision. Defined.
Inductive IncidentStatus :=
  | IncReported | IncInvestigating | IncCorrelating | IncAwaitingApproval | IncExecuting | IncVerifying
  | IncResolved | IncFailed | IncRolledBack | IncInconclusive | IncInterrupted | IncClosed.
#[export] Instance incident_status_eq_dec : EqDecision IncidentStatus.
Proof. solve_decision. Defined.
Inductive IncidentRecoveryState := IncLive | IncMetadataOnly.
#[export] Instance incident_recovery_eq_dec : EqDecision IncidentRecoveryState.
Proof. solve_decision. Defined.
Inductive IncidentSeverity := Sev1 | Sev2 | Sev3 | Sev4.

Record IncidentRequest := {
  ir_id : Uuid;
  ir_pack : OperationsPack;
  ir_severity : IncidentSeverity;
  ir_targets : list Uuid;
  ir_symptoms : list str;
  ir_host : option str;
  ir_port : option N;
  ir_url : option str;
  ir_service : option str;
  ir_container : option str;
  ir_config_path : option str;
  ir_upstream_host : option str;
  ir_upstream_port : option N;
  ir_dependencies : list str;
}.

Record IncidentEvidence := {
  ie_id : Uuid; ie_target_id : Uuid; ie_source : str; ie_summary : str; ie_result : ToolResult }.

Record IncidentEvidenceReference := {
  er_id : Uuid; er_target_id : Uuid; er_source : str; er_success : bool; er_error_code : option str }.

Record IncidentComparisonValue := { cv_target_id : Uuid; cv_signal : str }.
Record IncidentComparison := { co_dimension : str; co_drift : bool; co_values : list IncidentComparisonValue }.
Record IncidentHypothesis := { hy_code : str; hy_evidence_ids : list Uuid; hy_supported : bool }.
(** [confidence] is an [f32]. *)
Record IncidentRootCause := { rc_code : str; rc_confidence : spec_float; rc_evidence_ids : list Uuid }.
Record ProposedFix := {
  px_code : str; px_risk : RiskLevel; px_action_codes : list str; px_change_set_required : bool;
  px_execution_pipeline : list str; px_dangerous_deletion_blocked : bool }.
Record IncidentChangeSet := {
  ic_kind : str; ic_id : Uuid; ic_version : N; ic_exact_target_ids : list Uuid }.
Record IncidentVerification := { iv_status_code : str; iv_evidence_ids : list Uuid }.
Record IncidentResolution := { rs_code : str; rs_resolved_at_epoch_ms : N }.
Record IncidentHandoff := { ho_owner : str; ho_summary : str; ho_handed_off_at_epoch_ms : N }.
Record IncidentHandoffRequest := { hr_owner : str; hr_summary : str }.
Inductive IncidentClosureCode := ClosureResolved | ClosureAcceptedRisk | ClosureFalsePositive.
#[export] Instance closure_code_eq_dec : EqDecision IncidentClosureCode.
Proof. solve_decision. Defined.
Record IncidentClosureRequest := { cr_code : IncidentClosureCode; cr_summary : str }.
Record IncidentTimelineEvent := { tl_status : IncidentStatus; tl_code : str; tl_occurred_at_epoch_ms : N }.

(** [AgentRunMetrics] (agentic/state.rs). *)
Record AgentRunMetrics := {
  am_run_id : Uuid;
  am_incident_id : option Uuid;
  am_model_calls : N;
  am_input_tokens : N;
  am_output_tokens : N;
  am_tool_calls : N;
  am_duplicate_calls : N;
  am_mcp_calls : N;
  am_context_size_bytes : N;
  am_compaction_count : N;
  am_duration_ms : N;
  am_diagnosis_latency_ms : option N;
  am_resolution_latency_ms : option N;
  am_verification_result : option str;
  am_rollback_result : option str;
  am_estimated_cost_microusd : option N;
  am_cache_hits : N;
  am_parallel_read_batches : N;
}.

Definition agent_run_metrics_new (run_id : Uuid) (incident_id : option Uuid) : AgentRunMetrics :=
  {| am_run_id := run_id; am_incident_id := incident_id; am_model_calls := 0; am_input_tokens := 0;
     am_output_tokens := 0; am_tool_calls := 0; am_duplicate_calls := 0; am_mcp_calls := 0;
     am_context_size_bytes := 0; am_compaction_count := 0; am_duration_ms := 0;
     am_diagnosis_latency_ms := None; am_resolution_latency_ms := None; am_verification_result := None;
     am_rollback_result := None; am_estimated_cost_microusd := None; am_cache_hits := 0;
     am_parallel_read_batches := 0 |}.

(** What an investigation changes of its metrics. *)
Definition update_metrics (m : AgentRunMetrics) (tool_calls duplicates context duration : N)
    (diagnosis : option N) (hits batches : N) : AgentRunMetrics :=
  {| am_run_id := am_run_id m; am_incident_id := am_incident_id m; am_model_calls := am_model_calls m;
     am_input_tokens := am_input_tokens m; am_output_tokens := am_output_tokens m;
     am_tool_calls := tool_calls; am_duplicate_calls := duplicates; am_mcp_calls := am_mcp_calls m;
     am_context_size_bytes := context; am_compaction_count := am_compaction_count m;
     am_duration_ms := duration; am_diagnosis_latency_ms := diagnosis;
     am_resolution_latency_ms := am_resolution_latency_ms m;
     am_verification_result := am_verification_result m; am_rollback_result := am_rollback_result m;
     am_estimated_cost_microusd := am_estimated_cost_microusd m; am_cache_hits := hits;
     am_parallel_read_batches := batches |}.
Definition count_reads (calls duplicates hits batches : N) (m : AgentRunMetrics) : AgentRunMetrics :=
  update_metrics m (am_tool_calls m + calls) (am_duplicate_calls m + duplicates) (am_context_size_bytes m)
    (am_duration_ms m) (am_diagnosis_latency_ms m) (am_cache_hits m + hits) (am_parallel_read_batches m + batches).

Record Incident := {
  in_id : Uuid;
  in_agent_run_id : Uuid;
  in_model : str;
  in_pack : OperationsPack;
  in_status : IncidentStatus;
  in_severity : IncidentSeverity;
  in_targets : list Uuid;
  in_symptoms : list str;
  in_evidence : list IncidentEvidence;
  in_evidence_references : list IncidentEvidenceReference;
  in_comparisons : list IncidentComparison;
  in_hypotheses : list IncidentHypothesis;
  in_root_cause : IncidentRootCause;
  in_proposed_fix : ProposedFix;
  in_change_set : option IncidentChangeSet;
  in_verification : IncidentVerification;
  in_resolution : option IncidentResolution;
  in_handoff : option IncidentHandoff;
  in_timeline : list IncidentTimelineEvent;
  in_duration_ms : N;
  in_recovery_state : IncidentRecoveryState;
  in_metrics : AgentRunMetrics;
}.

Record PersistedIncident := {
  pn_schema_version : N;
  pn_id : Uuid;
  pn_agent_run_id : Uuid;
  pn_model : str;
  pn_pack : OperationsPack;
  pn_status : IncidentStatus;
  pn_severity : IncidentSeverity;
  pn_targets : list Uuid;
  pn_evidence_references : list IncidentEvidenceReference;
  pn_comparisons : list IncidentComparison;
  pn_root_cause : IncidentRootCause;
  pn_proposed_fix : ProposedFix;
  pn_change_set : option IncidentChangeSet;
  pn_verification : IncidentVerification;
  pn_resolution : option IncidentResolution;
  pn_handoff_owner : option str;
  pn_timeline : list IncidentTimelineEvent;
  pn_duration_ms : N;
}.

Record IncidentAuditExport := {
  ax_schema_version : N;
  ax_content_omitted : bool;
  ax_id : Uuid;
  ax_agent_run_id : Uuid;
  ax_model : str;
  ax_pack : OperationsPack;
  ax_status : IncidentStatus;
  ax_severity : IncidentSeverity;
  ax_targets : list Uuid;
  ax_evidence_references : list IncidentEvidenceReference;
  ax_comparisons : list IncidentComparison;
  ax_root_cause : IncidentRootCause;
  ax_proposed_fix : ProposedFix;
  ax_change_set : option IncidentChangeSet;
  ax_verification : IncidentVerification;
  ax_resolution : option IncidentResolution;
  ax_timeline : list IncidentTimelineEvent;
  ax_duration_ms : N;
}.

(** What the operations on a stored incident change. *)
Definition update_incident (i : Incident) (status : IncidentStatus) (change_set : option IncidentChangeSet)
    (verification : IncidentVerification) (resolution : option IncidentResolution)
    (handoff : option IncidentHandoff) (timeline : list IncidentTimelineEvent) : Incident :=
  {| in_id := in_id i; in_agent_run_id := in_agent_run_id i; in_model := in_model i; in_pack := in_pack i;
     in_status := status; in_severity := in_severity i; in_targets := in_targets i;
     in_symptoms := in_symptoms i; in_evidence := in_evidence i;
     in_evidence_references := in_evidence_references i; in_comparisons := in_comparisons i;
     in_hypotheses := in_hypotheses i; in_root_cause := in_root_cause i;
     in_proposed_fix := in_proposed_fix i; in_change_set := change_set; in_verification := verification;
     in_resolution := resolution; in_handoff := handoff; in_timeline := timeline;
     in_duration_ms := in_duration_ms i; in_recovery_state := in_recovery_state i; in_metrics := in_metrics i |}.

Definition incident_event (now : N) (status : IncidentStatus) (code : str) : IncidentTimelineEvent :=
  {| tl_status := status; tl_code := code; tl_occurred_at_epoch_ms := now |}.

(** [timeline.first().map(..).unwrap_or_default()]. *)
Definition first_event_time (timeline : list IncidentTimelineEvent) : N :=
  match timeline with e :: _ => tl_occurred_at_epoch_ms e | [] => 0 end.

(** ** Requests *)
Definition exact_targets (values : list Uuid) : gset Uuid := list_to_set values.

Definition nonempty_within (max : N) (o : option str) : bool :=
  match o with Some item => negb (is_empty item) && (blen item <=? max)%N | None => true end.

Definition validate_incident_request (r : IncidentRequest) : AppResult unit :=
  reject_if (bool_decide (ir_targets r = [])
             || (INCIDENT_MAX_TARGETS <? length (ir_targets r))%nat
             || negb (size (exact_targets (ir_targets r)) =? length (ir_targets r))%nat
             || bool_decide (ir_symptoms r = [])
             || (MAX_SYMPTOMS <? length (ir_symptoms r))%nat
             || existsb (fun item => is_empty item || (2048 <? blen item)%N) (ir_symptoms r)
             || (8 <? length (ir_dependencies r))%nat
             || existsb (fun item => is_empty item || (128 <? blen item)%N) (ir_dependencies r)
             || negb (nonempty_within 253 (ir_host r))
             || negb (nonempty_within 253 (ir_upstream_host r))
             || negb (Bool.eqb (bool_decide (ir_upstream_host r = None)) (bool_decide (ir_upstream_port r = None))))
    InvalidOperation.

Definition required (value : option str) : AppResult str :=
  ok_or (opt_filter (fun item => negb (is_empty item)) value) InvalidOperation.

(** ** The plan of an investigation *)
Definition add_service (service : str) : list NativeToolInvocation :=
  [InvServiceStatus service; InvServiceLogs service 200].

Definition plan_website (r : IncidentRequest) : AppResult (list NativeToolInvocation) :=
  host ← required (ir_host r);
  let port := default 443%N (ir_port r) in
  url ← required (ir_url r);
  upstream ← match ir_upstream_host r with
             | Some upstream_host =>
                 port ← ok_or (ir_upstream_port r) InvalidOperation;
                 Ok [InvNetworkPortCheck upstream_host port]
             | None => Ok []
             end;
  Ok ([InvDnsResolve host; InvNetworkPortCheck host port; InvTlsInspect host port; InvHttpRequest url;
       InvNginxTest; InvNetworkListeners; InvProcessList]
      ++ add_service (default (lit "nginx") (ir_service r)) ++ upstream).

Definition optional_file (r : IncidentRequest) : list NativeToolInvocation :=
  match ir_config_path r with Some path => [InvFileInspect path] | None => [] end.

Definition plan_nginx (r : IncidentRequest) : list NativeToolInvocation :=
  add_service (lit "nginx") ++ [InvNginxTest; InvNetworkListeners; InvProcessList]
  ++ match ir_url r with Some url => [InvHttpRequest url] | None => [] end
  ++ match ir_host r, ir_port r with
     | Some host, Some port => [InvNetworkPortCheck host port; InvTlsInspect host port]
     | _, _ => []
     end
  ++ optional_file r.

Definition plan_docker (r : IncidentRequest) : AppResult (list NativeToolInvocation) :=
  container ← required (ir_container r);
  Ok ([InvDockerList; InvDockerInspect container; InvDockerLogs container 200; InvNetworkListeners; InvProcessList]
      ++ optional_file r).

Definition DISK_PATHS : list str :=
  [lit "/var/log"; lit "/var/lib/docker"; lit "/var/backups"; lit "/tmp"].
Definition plan_disk : list NativeToolInvocation :=
  [InvSystemDisk; InvDockerList]
  ++ concat (map (fun path => [InvSystemDirectoryUsage path; InvSystemLargeFiles path (10 * 1024 * 1024)]) DISK_PATHS).

Definition plan_service (r : IncidentRequest) : AppResult (list NativeToolInvocation) :=
  service ← required (ir_service r);
  Ok (add_service service ++ [InvProcessList; InvNetworkListeners]
      ++ match ir_port r with
         | Some port => [InvNetworkPortCheck (default (lit "127.0.0.1") (ir_host r)) port]
         | None => []
         end
      ++ optional_file r ++ map InvServiceStatus (ir_dependencies r)).

Definition plan_for (r : IncidentRequest) : AppResult (list NativeToolInvocation) :=
  tools ← match ir_pack r with
          | PackWebsite => plan_website r
          | PackNginx => Ok (plan_nginx r)
          | PackDocker => plan_docker r
          | PackDisk => Ok plan_disk
          | PackService => plan_service r
          end;
  Ok (InvSystemInfo :: tools).

(** ** Diagnosis *)

(** A candidate: its code, its confidence in hundredths, and its evidence. *)
Record Candidate := { cd_code : str; cd_confidence : N; cd_evidence : Uuid }.
Definition candidate (id : Uuid) (code : String.string) (hundredths : N) : Candidate :=
  {| cd_code := lit code; cd_confidence := hundredths; cd_evidence := id |}.
Arguments candidate id code%_string hundredths%_N.

(** The [f32] literal of so many hundredths. *)
Definition hundredths_f32 (n : N) : spec_float := f32_div n 100.

(** [fields["key"]]: [Null] where there is no such key. *)
Definition field (fields : json) (key : String.string) : json := default JNull (json_get fields (lit key)).
Arguments field fields key%_string.
(** [value == false] and [value == "text"]. *)
Definition is_false (v : json) : bool := match as_bool v with Some b => negb b | None => false end.
Definition is_text (v : json) (text : String.string) : bool :=
  match as_str v with Some s => str_eqb s (lit text) | None => false end.
Arguments is_text v text%_string.

Section Diagnosis.
Context `{IncidentExternals}.

Definition inspect_docker (fields : json) (id : Uuid) : list Candidate :=
  let error := to_ascii_lowercase (default [] (as_str (field fields "error"))) in
  (if is_text (field fields "health") "unhealthy" then [candidate id "docker-unhealthy" 97]
   else if (3 <=? default 0 (as_u64 (field fields "restartCount")))%N then [candidate id "docker-restart-loop" 95]
   else if is_text (field fields "state") "exited" then [candidate id "docker-exited" 94]
   else [])
  ++ (if contains error (lit "permission") then [candidate id "docker-volume-permission" 96] else [])
  ++ (if contains error (lit "address already in use") then [candidate id "docker-port-conflict" 96] else []).

Definition inspect_logs (fields : json) (id : Uuid) : list Candidate :=
  let raw := to_ascii_lowercase (json_to_string (field fields "entries")) in
  if contains raw (lit "permission denied") then [candidate id "docker-volume-permission" 90]
  else if contains raw (lit "address already in use") then [candidate id "docker-port-conflict" 90]
  else if contains raw (lit "panic") || contains raw (lit "fatal") then [candidate id "docker-application-failure" 86]
  else [].

Definition inspect_diagnostic (category : str) (fields : json) (id : Uuid) : list Candidate :=
  if str_eqb category (lit "dns") then
    (if is_false (field fields "resolved") then [candidate id "dns-resolution-failed" 98] else [])
  else if str_eqb category (lit "tls") then
    (if is_false (field fields "verified") then [candidate id "tls-validation-failed" 97] else [])
  else if str_eqb category (lit "docker-inspect") then inspect_docker fields id
  else if str_eqb category (lit "docker-logs") then inspect_logs fields id
  else if str_eqb category (lit "file") then
    match as_str (field fields "mode") with
    | Some mode => if starts_with (rev mode) (lit "00") then [candidate id "config-permission-denied" 82] else []
    | None => []
    end
  else [].

Definition full_disk (d : DiskUsage) : bool := SFleb (f64_of_N 95) (f64_of_bits (du_usage_percent d)).

(** What one piece of evidence suggests. *)
Definition candidates_of (item : IncidentEvidence) : list Candidate :=
  if negb (tr_success (ie_result item)) then []
  else match tr_data (ie_result item) with
       | Some (TDNginxTest value) => if nt_valid value then [] else [candidate (ie_id item) "nginx-invalid-config" 98]
       | Some (TDServiceStatus service) =>
           if bool_decide (sh_status service = SvcActive) then [] else [candidate (ie_id item) "service-not-active" 93]
       | Some (TDHttpResponse value) =>
           if (hr_status_code value =? 502)%N then [candidate (ie_id item) "nginx-upstream-unavailable" 94]
           else if (hr_status_code value =? 503)%N then [candidate (ie_id item) "service-unavailable" 92]
           else if (hr_status_code value =? 504)%N then [candidate (ie_id item) "upstream-timeout" 92]
           else []
       | Some (TDSystemDisk disks) =>
           if existsb full_disk disks then [candidate (ie_id item) "filesystem-capacity-exhausted" 97] else []
       | Some (TDDiagnostic value) => inspect_diagnostic (dd_category value) (dd_fields value) (ie_id item)
       | _ => []
       end.

Definition codes (l : list String.string) : list str := map (fun s => lit s) l.

Definition fix_for (pack : OperationsPack) (cause : str) : str * list str * RiskLevel :=
  let nginx := match pack with PackNginx | PackWebsite => str_eqb cause (lit "nginx-invalid-config") | _ => false end in
  if nginx then
    (lit "repair-nginx-config", codes ["draft-file-patch"; "nginx-test"; "nginx-reload"; "http-verify"]%string, R3)
  else match pack with
  | PackDocker =>
      (lit "repair-docker-container",
       codes ["review-container-config"; "draft-docker-restart"; "health-verify"; "port-verify"]%string, R3)
  | PackDisk =>
      (lit "review-disk-reclamation",
       codes ["review-large-files"; "review-retention-policy"; "draft-explicit-change"; "disk-verify";
              "service-impact-verify"]%string, R4)
  | PackService =>
      (lit "repair-linux-service",
       codes ["review-config-permission"; "draft-service-change"; "status-verify"; "port-verify"]%string, R3)
  | _ =>
      (lit "repair-website-chain", codes ["repair-confirmed-layer"; "http-verify"; "cross-target-verify"]%string, R3)
  end.

Definition INCONCLUSIVE : str := lit "incident-inconclusive".

(** [sort_by(|a, b| b.1.total_cmp(&a.1))]: the most confident first. *)
Definition ranked (candidates : list Candidate) : list Candidate :=
  sort_by (fun a b => SFleb (hundredths_f32 (cd_confidence b)) (hundredths_f32 (cd_confidence a))) candidates.

Definition diagnose (pack : OperationsPack) (evidence : list IncidentEvidence) :
    IncidentRootCause * list IncidentHypothesis * ProposedFix :=
  let candidates := ranked (concat (map candidates_of evidence)) in
  let '(code, confidence, ids) :=
    match candidates with
    | c :: _ => (cd_code c, cd_confidence c,
                 map cd_evidence (List.filter (fun x => str_eqb (cd_code x) (cd_code c)) candidates))
    | [] => (INCONCLUSIVE, 35%N, map ie_id (take 3 evidence))
    end in
  let hypotheses := map (fun c => {| hy_code := cd_code c; hy_evidence_ids := [cd_evidence c];
                                     hy_supported := str_eqb (cd_code c) code |}) (take 5 candidates) in
  let '(fix_code, actions, risk) :=
    if str_eqb code INCONCLUSIVE
    then (lit "continue-investigation", codes ["collect-targeted-evidence"]%string, R1) else fix_for pack code in
  ({| rc_code := code; rc_confidence := hundredths_f32 confidence; rc_evidence_ids := ids |}, hypotheses,
   {| px_code := fix_code; px_risk := risk; px_action_codes := actions;
      px_change_set_required := negb (str_eqb code INCONCLUSIVE);
      px_execution_pipeline := codes ["changeset"; "approval"; "execute"; "verify"; "rollback"]%string;
      px_dangerous_deletion_blocked := bool_decide (pack = PackDisk) |}).

(** ** Comparison of the targets *)

(** [format!("{:.1}", x)] of an [f64]: to the nearest tenth, ties to even. *)
Definition f64_fixed1 (bits : N) : str :=
  match f64_of_bits bits with
  | S754_nan => lit "NaN"
  | S754_infinity s => (if s then lit "-" else []) ++ lit "inf"
  | S754_zero s => (if s then lit "-" else []) ++ lit "0.0"
  | S754_finite s m e =>
      let tenths :=
        if (0 <=? e)%Z then (10 * Zpos m * 2 ^ e)%Z else
        let d := (2 ^ (- e))%Z in
        let q := (10 * Zpos m / d)%Z in
        let r := ((10 * Zpos m) mod d)%Z in
        if (2 * r <? d)%Z then q else if (d <? 2 * r)%Z then (q + 1)%Z
        else if Z.even q then q else (q + 1)%Z in
      (if s then lit "-" else []) ++ dec (Z.to_N (tenths / 10)) ++ lit "." ++ dec (Z.to_N (tenths mod 10))
  end.

(** [f64::max], and the fold of a disk's usage. *)
Definition f64_max (x y : spec_float) : spec_float :=
  match x, y with
  | S754_nan, _ => y
  | _, S754_nan => x
  | _, _ => if f64_ltb x y then y else x
  end.
Definition max_usage (disks : list DiskUsage) : spec_float :=
  foldl (fun m d => f64_max m (f64_of_bits (du_usage_percent d))) (S754_zero false) disks.

Definition diagnostic_comparison (category : str) (fields : json) : option (str * str) :=
  if str_eqb category (lit "dns") then Some (lit "dns-resolved", json_to_string (field fields "resolved"))
  else if str_eqb category (lit "tls") then Some (lit "tls-verified", json_to_string (field fields "verified"))
  else if str_eqb category (lit "docker-inspect") then
    Some (lit "docker-state",
          default (lit "unknown") (as_str (field fields "state")) ++ lit "|"
          ++ default (lit "unknown") (as_str (field fields "health")) ++ lit "|"
          ++ dec (default 0%N (as_u64 (field fields "restartCount"))))
  else None.

Definition comparison_signal (item : IncidentEvidence) : option (str * str) :=
  data ← tr_data (ie_result item);
  match data with
  | TDSystemInfo v =>
      Some (lit "system-platform",
            si_operating_system v ++ lit "|" ++ si_kernel_release v ++ lit "|" ++ si_architecture v)
  | TDSystemDisk disks => Some (lit "disk-max-percent", f64_fixed1 (f64_bits (max_usage disks)))
  | TDServiceStatus service => Some (lit "service-status:" ++ sh_name service, service_status_lower (sh_status service))
  | TDNetworkPortCheck v => Some (lit "port:" ++ dec (np_port v), bool_str (np_reachable v))
  | TDHttpResponse v => Some (lit "http-status", dec (hr_status_code v))
  | TDNginxTest v => Some (lit "nginx-config-valid", bool_str (nt_valid v))
  | TDDiagnostic v => diagnostic_comparison (dd_category v) (dd_fields v)
  | _ => None
  end.

(** [dedup_by_key]: of a run of equal keys the first. *)
Fixpoint dedup_targets (l : list IncidentComparisonValue) : list IncidentComparisonValue :=
  match l with
  | v :: rest =>
      match dedup_targets rest with
      | w :: rest' => if (cv_target_id v =? cv_target_id w)%N then v :: rest' else v :: w :: rest'
      | [] => [v]
      end
  | [] => []
  end.

Definition add_signal (dimensions : gmap str (list IncidentComparisonValue)) (item : IncidentEvidence) :
    gmap str (list IncidentComparisonValue) :=
  match comparison_signal item with
  | None => dimensions
  | Some (dimension, signal) =>
      <[dimension := default [] (dimensions !! dimension)
                     ++ [{| cv_target_id := ie_target_id item; cv_signal := signal |}]]> dimensions
  end.

Definition comparison_of (targets : list Uuid) (entry : str * list IncidentComparisonValue) :
    option IncidentComparison :=
  let values := dedup_targets (sort_by_key cv_target_id (snd entry)) in
  if negb (length values =? length targets)%nat then None
  else Some {| co_dimension := fst entry;
               co_drift := (1 <? size (list_to_set (map cv_signal values) : gset str))%nat;
               co_values := values |}.

Definition compare_targets (targets : list Uuid) (evidence : list IncidentEvidence) : list IncidentComparison :=
  if (length targets <? 2)%nat then []
  else sort_by (fun a b => str_leb (co_dimension a) (co_dimension b))
         (omap (comparison_of targets) (map_to_list (foldl add_signal ∅ evidence))).

(** ** Bounded text *)
Definition bounded_text (value : str) (max : N) : AppResult str :=
  let value := trim value in
  if is_empty value || (max <? blen value)%N then Err InvalidOperation else Ok value.

Definition bounded_owner (value : str) : AppResult str :=
  value ← bounded_text value 80;
  if forallb (fun c => is_alphanumeric c || contains_char (lit " ._@-") c) value
  then Ok value else Err InvalidOperation.
End Diagnosis.

(** ** Persistence and recovery *)
Definition persisted_incident (i : Incident) : PersistedIncident :=
  {| pn_schema_version := INCIDENT_SCHEMA_VERSION; pn_id := in_id i; pn_agent_run_id := in_agent_run_id i;
     pn_model := in_model i; pn_pack := in_pack i; pn_status := in_status i; pn_severity := in_severity i;
     pn_targets := in_targets i; pn_evidence_references := in_evidence_references i;
     pn_comparisons := in_comparisons i; pn_root_cause := in_root_cause i;
     pn_proposed_fix := in_proposed_fix i; pn_change_set := in_change_set i;
     pn_verification := in_verification i; pn_resolution := in_resolution i;
     pn_handoff_owner := ho_owner <$> in_handoff i; pn_timeline := in_timeline i;
     pn_duration_ms := in_duration_ms i |}.

Definition was_active (s : IncidentStatus) : bool :=
  match s with IncInvestigating | IncCorrelating | IncExecuting | IncVerifying => true | _ => false end.

Definition recovered_incident (now : N) (r : PersistedIncident) : Incident :=
  let active := was_active (pn_status r) in
  let metrics := agent_run_metrics_new (pn_agent_run_id r) (Some (pn_id r)) in
  {| in_id := pn_id r; in_agent_run_id := pn_agent_run_id r; in_model := pn_model r; in_pack := pn_pack r;
     in_status := if active then IncInterrupted else pn_status r; in_severity := pn_severity r;
     in_targets := pn_targets r; in_symptoms := []; in_evidence := [];
     in_evidence_references := pn_evidence_references r; in_comparisons := pn_comparisons r;
     in_hypotheses := []; in_root_cause := pn_root_cause r; in_proposed_fix := pn_proposed_fix r;
     in_change_set := pn_change_set r; in_verification := pn_verification r; in_resolution := pn_resolution r;
     in_handoff := (fun owner => {| ho_owner := owner; ho_summary := []; ho_handed_off_at_epoch_ms := 0 |})
                     <$> pn_handoff_owner r;
     in_timeline := if active
                    then pn_timeline r ++ [incident_event now IncInterrupted (lit "process-recovery-interrupted")]
                    else pn_timeline r;
     in_duration_ms := pn_duration_ms r; in_recovery_state := IncMetadataOnly;
     in_metrics := update_metrics metrics (N.min (N.of_nat (length (pn_evidence_references r))) U32_MAX) 0 0
                     (pn_duration_ms r) None 0 0 |}.

Definition audit_export (i : Incident) : IncidentAuditExport :=
  {| ax_schema_version := INCIDENT_SCHEMA_VERSION; ax_content_omitted := true; ax_id := in_id i;
     ax_agent_run_id := in_agent_run_id i; ax_model := in_model i; ax_pack := in_pack i;
     ax_status := in_status i; ax_severity := in_severity i; ax_targets := in_targets i;
     ax_evidence_references := in_evidence_references i; ax_comparisons := in_comparisons i;
     ax_root_cause := in_root_cause i; ax_proposed_fix := in_proposed_fix i; ax_change_set := in_change_set i;
     ax_verification := in_verification i; ax_resolution := in_resolution i; ax_timeline := in_timeline i;
     ax_duration_ms := in_duration_ms i |}.

Definition evidence_reference (item : IncidentEvidence) : IncidentEvidenceReference :=
  {| er_id := ie_id item; er_target_id := ie_target_id item; er_source := ie_source item;
     er_success := tr_success (ie_result item); er_error_code := tr_error_code (ie_result item) |}.

Definition valid_kind (kind : str) : bool := str_in [lit "single"; lit "fleet"] kind.
Definition valid_confidence (c : spec_float) : bool :=
  f64_is_finite c && SFleb (f32_of 0) c && SFleb c (f32_of 1).

Definition valid_comparison (targets : gset Uuid) (c : IncidentComparison) : bool :=
  negb (is_empty (co_dimension c)) && (blen (co_dimension c) <=? 128)%N
  && bool_decide (exact_targets (map cv_target_id (co_values c)) = targets)
  && forallb (fun v => blen (cv_signal v) <=? 256)%N (co_values c).
Definition valid_link (targets : list Uuid) (link : option IncidentChangeSet) : bool :=
  match link with
  | None => true
  | Some l => (0 <? ic_version l)%N && valid_kind (ic_kind l)
              && bool_decide (exact_targets (ic_exact_target_ids l) = exact_targets targets)
              && (length (ic_exact_target_ids l) =? length targets)%nat
  end.
Definition valid_evidence (r : PersistedIncident) : bool :=
  let evidence_ids : gset Uuid := list_to_set (map er_id (pn_evidence_references r)) in
  negb (bool_decide (rc_evidence_ids (pn_root_cause r) = []))
  && forallb (fun id => bool_decide (id ∈ evidence_ids)) (rc_evidence_ids (pn_root_cause r))
  && (size evidence_ids =? length (pn_evidence_references r))%nat
  && (length (pn_evidence_references r) <=? MAX_TOOL_CALLS_PER_TARGET * length (pn_targets r))%nat
  && forallb (fun item => bool_decide (er_target_id item ∈ exact_targets (pn_targets r))
                          && starts_with (er_source item) (lit "tool.")) (pn_evidence_references r).

Definition valid_persisted_incident (r : PersistedIncident) : bool :=
  let targets := exact_targets (pn_targets r) in
  ((pn_schema_version r =? LEGACY_INCIDENT_SCHEMA_VERSION)%N || (pn_schema_version r =? INCIDENT_SCHEMA_VERSION)%N)
  && negb (bool_decide (pn_targets r = []))
  && (length (pn_targets r) <=? INCIDENT_MAX_TARGETS)%nat
  && (size targets =? length (pn_targets r))%nat
  && negb (bool_decide (pn_timeline r = []))
  && (length (pn_timeline r) <=? MAX_INCIDENT_TIMELINE_EVENTS)%nat
  && negb (is_empty (pn_model r)) && (blen (pn_model r) <=? 128)%N
  && valid_confidence (rc_confidence (pn_root_cause r))
  && valid_evidence r
  && forallb (valid_comparison targets) (pn_comparisons r)
  && valid_link (pn_targets r) (pn_change_set r).

(** ** The service *)
Abbreviation Incidents := (gmap Uuid Incident) (only parsing).

Inductive IcQuery :=
  | IcNow                                                       (* now_ms *)
  | IcNewId                                                     (* Uuid::new_v4 *)
  | IcLoad                                                      (* repository.load_or_default *)
  | IcCacheGet (session : Uuid) (invocation : NativeToolInvocation) (now : N)
  | IcCachePut (session : Uuid) (invocation : NativeToolInvocation) (observed : N) (result : ToolResult)
  | IcReads (requests : list NativeToolRequest)                 (* tools.execute of each, joined *)
  | IcChangeGet (id : Uuid)                                     (* changes.get *)
  | IcFleetGet (id : Uuid).                                     (* fleets.get *)

Definition IcAnswer (q : IcQuery) : Type :=
  match q with
  | IcNow => N
  | IcNewId => Uuid
  | IcLoad => AppResult (list PersistedIncident)
  | IcCacheGet _ _ _ => option ToolResult
  | IcCachePut _ _ _ _ => unit
  | IcReads _ => nat -> AppResult ToolResult                    (* of the n-th request *)
  | IcChangeGet _ => AppResult ChangeSet
  | IcFleetGet _ => AppResult MultiChangeSet
  end.

Abbreviation IcHeld := (held Incidents (list PersistedIncident)) (only parsing).
Abbreviation IcProc := (proc Incidents (list PersistedIncident) IcQuery IcAnswer) (only parsing).

(** *** [execute_reads] (agentic/runtime.rs) *)
Definition risk_of (invocation : NativeToolInvocation) : RiskLevel :=
  match find_descriptor (invocation_name invocation) with Some d => td_risk_level d | None => R1 end.

(** What the first loop keeps: the keys it has met, what is left to read, and the
    results of the cache. *)
Record ReadPlan := {
  rp_unique : list str; rp_pending : list NativeToolInvocation; rp_results : list ToolResult;
  rp_metrics : AgentRunMetrics }.

Section Reads.
Context `{Externals}.

Fixpoint gather_reads (session : Uuid) (invocations : list NativeToolInvocation) (p : ReadPlan) :
    IcProc ReadPlan :=
  match invocations with
  | [] => mret p
  | invocation :: rest =>
      match cache_key session invocation with
      | None => gather_reads session rest p
      | Some key =>
          if str_in (rp_unique p) key then
            gather_reads session rest
              {| rp_unique := rp_unique p; rp_pending := rp_pending p; rp_results := rp_results p;
                 rp_metrics := count_reads 0 1 0 0 (rp_metrics p) |}
          else
            now ← ask IcNow;
            cached ← ask (IcCacheGet session invocation now);
            gather_reads session rest
              match cached with
              | Some result =>
                  {| rp_unique := key :: rp_unique p; rp_pending := rp_pending p;
                     rp_results := rp_results p ++ [result]; rp_metrics := count_reads 0 0 1 0 (rp_metrics p) |}
              | None =>
                  {| rp_unique := key :: rp_unique p; rp_pending := rp_pending p ++ [invocation];
                     rp_results := rp_results p; rp_metrics := rp_metrics p |}
              end
      end
  end.

(** The groups of a [BTreeMap<RiskLevel, _>], in the order of their risk. *)
Definition risk_groups (pending : list NativeToolInvocation) : list (list NativeToolInvocation) :=
  List.filter (fun group => negb (bool_decide (group = [])))
    (map (fun r => List.filter (fun i => (risk_rank (risk_of i) =? risk_rank r)%N) pending) [R0; R1; R2; R3; R4]).

Fixpoint keep_reads (session : Uuid) (group : list NativeToolInvocation) (answer : nat -> AppResult ToolResult)
    (n : nat) (results : list ToolResult) (metrics : AgentRunMetrics) :
    IcProc (list ToolResult * AgentRunMetrics) :=
  match group with
  | [] => mret (results, metrics)
  | invocation :: rest =>
      result ← lift (answer n);
      ask (IcCachePut session invocation (tr_started_at_epoch_ms result) result) ;;
      keep_reads session rest answer (S n) (results ++ [result]) (count_reads 1 0 0 0 metrics)
  end.

Fixpoint read_groups (run_id session : Uuid) (groups : list (list NativeToolInvocation))
    (results : list ToolResult) (metrics : AgentRunMetrics) : IcProc (list ToolResult * AgentRunMetrics) :=
  match groups with
  | [] => mret (results, metrics)
  | group :: rest =>
      let metrics := count_reads 0 0 0 (if (1 <? length group)%nat then 1 else 0) metrics in
      answer ← ask (IcReads (map (request_for_agent run_id session) group));
      kept ← keep_reads session group answer 0 results metrics;
      read_groups run_id session rest (fst kept) (snd kept)
  end.

Definition incident_reads (run_id session : Uuid) (invocations : list NativeToolInvocation)
    (metrics : AgentRunMetrics) : IcProc (list ToolResult * AgentRunMetrics) :=
  plan ← gather_reads session invocations
           {| rp_unique := []; rp_pending := []; rp_results := []; rp_metrics := metrics |};
  read_groups run_id session (risk_groups (rp_pending plan)) (rp_results plan) (rp_metrics plan).
End Reads.

Section Service.
(** Whether the service has a repository, and [HashMap::values]. *)
Context `{Externals, IncidentExternals} (durable : bool) (hash_values : gmap Uuid Incident -> list Incident).

Definition newest_first (l : list Incident) : list Incident :=
  sort_by (fun a b => first_event_time (in_timeline b) <=? first_event_time (in_timeline a))%N l.

Definition persisted_incidents (items : Incidents) : list PersistedIncident :=
  take MAX_INCIDENTS
    (sort_by (fun a b => first_event_time (pn_timeline b) <=? first_event_time (pn_timeline a))%N
       (map persisted_incident (hash_values items))).

(** [persist_locked(&items).await?] and then the output. *)
Definition incident_save {X} (items : Incidents) (output : X) : IcHeld X :=
  if durable then Save items (persisted_incidents items) (fun saved => (items, saved ≫= fun _ => Ok output))
  else Leave items (Ok output).

(** [trim_incidents]; one turn for each incident is enough. *)
Fixpoint trim_incidents (fuel : nat) (items : Incidents) : Incidents :=
  match fuel with
  | O => items
  | S fuel =>
      if (size items <=? MAX_INCIDENTS)%nat then items
      else match min_by_key (fun i => first_event_time (in_timeline i)) (hash_values items) with
           | Some oldest => trim_incidents fuel (delete (in_id oldest) items)
           | None => items
           end
  end.

Definition incident_load : IcProc unit :=
  if negb durable then mret tt
  else
    answer ← ask IcLoad;
    records ← lift answer;
    if (MAX_INCIDENTS <? length records)%nat || existsb (fun r => negb (valid_persisted_incident r)) records
    then lift (Err Storage)
    else
      now ← ask IcNow;
      locked (fun _ =>
        let items : Incidents := foldl (fun items r => <[pn_id r := recovered_incident now r]> items) ∅ records in
        incident_save items tt).

(** *** [run] *)
Fixpoint collect_evidence (target : Uuid) (results : list ToolResult) : IcProc (list IncidentEvidence) :=
  match results with
  | [] => mret []
  | result :: rest =>
      id ← ask IcNewId;
      evidence ← collect_evidence target rest;
      mret ({| ie_id := id; ie_target_id := target; ie_source := lit "tool." ++ tool_as_str (tr_tool_name result);
               ie_summary := tr_summary result; ie_result := result |} :: evidence)
  end.

Fixpoint investigate (request : IncidentRequest) (agent_run_id : Uuid) (targets : list Uuid)
    (metrics : AgentRunMetrics) : IcProc (list IncidentEvidence * AgentRunMetrics) :=
  match targets with
  | [] => mret ([], metrics)
  | target :: rest =>
      plan ← lift (plan_for request);
      lift (reject_if (MAX_TOOL_CALLS_PER_TARGET <? length plan)%nat InvalidOperation) ;;
      read ← incident_reads agent_run_id target plan metrics;
      evidence ← collect_evidence target (fst read);
      others ← investigate request agent_run_id rest (snd read);
      mret (evidence ++ fst others, snd others)
  end.

Definition diagnosed_status (code : str) : IncidentStatus :=
  if str_eqb code INCONCLUSIVE then IncInconclusive else IncAwaitingApproval.

Definition drafted_incident (request : IncidentRequest) (agent_run_id : Uuid) (evidence : list IncidentEvidence)
    (metrics : AgentRunMetrics) (timeline : list IncidentTimelineEvent) (duration : N) : Incident :=
  let '(root_cause, hypotheses, proposed_fix) := diagnose (ir_pack request) evidence in
  {| in_id := ir_id request; in_agent_run_id := agent_run_id; in_model := lit "runory-operations-packs-v2";
     in_pack := ir_pack request; in_status := diagnosed_status (rc_code root_cause);
     in_severity := ir_severity request; in_targets := ir_targets request; in_symptoms := ir_symptoms request;
     in_evidence := evidence; in_evidence_references := map evidence_reference evidence;
     in_comparisons := compare_targets (ir_targets request) evidence; in_hypotheses := hypotheses;
     in_root_cause := root_cause; in_proposed_fix := proposed_fix; in_change_set := None;
     in_verification := {| iv_status_code := lit "not-started"; iv_evidence_ids := [] |};
     in_resolution := None; in_handoff := None; in_timeline := timeline; in_duration_ms := duration;
     in_recovery_state := IncLive;
     in_metrics := update_metrics metrics (am_tool_calls metrics) (am_duplicate_calls metrics)
                     (sumN (map blen (ir_symptoms request))) duration (Some duration)
                     (am_cache_hits metrics) (am_parallel_read_batches metrics) |}.

(** The timeline of an investigation, from the four times it is written at. *)
Definition investigation_timeline (reported investigating correlating diagnosed : N) (code : str) :
    list IncidentTimelineEvent :=
  [incident_event reported IncReported (lit "incident-reported");
   incident_event investigating IncInvestigating (lit "typed-investigation-started");
   incident_event correlating IncCorrelating (lit "evidence-correlated");
   incident_event diagnosed (diagnosed_status code)
     (lit (if str_eqb code INCONCLUSIVE then "root-cause-inconclusive" else "root-cause-evidence-bound")%string)].

Definition incident_run (request : IncidentRequest) : IcProc Incident :=
  lift (validate_incident_request request) ;;
  locked (fun items : Incidents =>
    Leave items (reject_if (negb (bool_decide (items !! ir_id request = None))) InvalidOperation)) ;;
  started ← ask IcNow;
  agent_run_id ← ask IcNewId;
  reported ← ask IcNow;
  investigating ← ask IcNow;
  investigation ← investigate request agent_run_id (ir_targets request)
                    (agent_run_metrics_new agent_run_id (Some (ir_id request)));
  correlating ← ask IcNow;
  diagnosed ← ask IcNow;
  ended ← ask IcNow;
  let '(evidence, metrics) := investigation in
  let code := rc_code (fst (fst (diagnose (ir_pack request) evidence))) in
  let incident := drafted_incident request agent_run_id evidence metrics
                    (investigation_timeline reported investigating correlating diagnosed code) (ended - started)%N in
  locked (fun items =>
    if negb (bool_decide (items !! ir_id request = None)) then Leave items (Err InvalidOperation)
    else
      let items' := <[ir_id request := incident]> items in
      incident_save (trim_incidents (size items') items') incident).

(** *** Operations on one incident *)
Definition incident_get (id : Uuid) : IcProc Incident :=
  locked (fun items => Leave items (ok_or (items !! id) InvalidOperation)).

Definition incident_list : IcProc (list Incident) :=
  locked (fun items => Leave items (Ok (newest_first (hash_values items)))).

(** A section that changes one incident and saves, unless it is refused. *)
Definition change_incident (id : Uuid) (refused : Incident -> bool) (f : Incident -> Incident) : IcProc Incident :=
  locked (fun items =>
    match items !! id with
    | None => Leave items (Err InvalidOperation)
    | Some incident =>
        if refused incident then Leave items (Err InvalidOperation)
        else let incident' := f incident in incident_save (<[id := incident']> items) incident'
    end).

Definition attach_refused (link : IncidentChangeSet) (i : Incident) : bool :=
  negb (bool_decide (in_recovery_state i = IncLive)) || bool_decide (in_status i = IncClosed)
  || (ic_version link =? 0)%N
  || negb (bool_decide (exact_targets (ic_exact_target_ids link) = exact_targets (in_targets i)))
  || negb (valid_kind (ic_kind link)).

Definition attached (now : N) (link : IncidentChangeSet) (i : Incident) : Incident :=
  update_incident i IncAwaitingApproval (Some link) (in_verification i) (in_resolution i) (in_handoff i)
    (in_timeline i ++ [incident_event now IncAwaitingApproval (lit "changeset-exact-targets-bound")]).

Definition attach_change_set (id : Uuid) (link : IncidentChangeSet) : IcProc Incident :=
  now ← ask IcNow;
  change_incident id (attach_refused link) (attached now link).

(** What the state of a change set says of its incident: its status, the code of the
    verification, and the code of the resolution. *)
Definition change_outcome (s : ExecutionState) : IncidentStatus * str * option str :=
  match s with
  | NotStarted => (IncAwaitingApproval, lit "not-started", None)
  | Executing => (IncExecuting, lit "pending", None)
  | Committed => (IncResolved, lit "succeeded", Some (lit "repair-verified"))
  | ExecFailedState | Interrupted | RollbackFailed => (IncFailed, lit "failed", None)
  | RolledBack => (IncRolledBack, lit "rollback-verified", Some (lit "repair-rolled-back"))
  end.
Definition fleet_outcome (s : FleetExecutionState) : IncidentStatus * str * option str :=
  match s with
  | FxDraft | FxApproved | FxPausedForReview => (IncAwaitingApproval, lit "not-started", None)
  | FxExecuting => (IncExecuting, lit "pending", None)
  | FxVerifying => (IncVerifying, lit "pending", None)
  | FxSucceeded => (IncResolved, lit "succeeded", Some (lit "repair-verified"))
  | FxRolledBack => (IncRolledBack, lit "rollback-verified", Some (lit "repair-rolled-back"))
  | FxFailed | FxRollbackFailed | FxInterrupted | FxRollingBack => (IncFailed, lit "failed", None)
  end.

Definition linked_outcome (link : IncidentChangeSet) : IcProc (IncidentStatus * str * option str) :=
  if str_eqb (ic_kind link) (lit "single") then
    answer ← ask (IcChangeGet (ic_id link));
    change ← lift answer;
    lift (reject_if (negb (cs_version change =? ic_version link)%N) InvalidOperation) ;;
    mret (change_outcome (cs_execution_state change))
  else
    answer ← ask (IcFleetGet (ic_id link));
    fleet ← lift answer;
    lift (reject_if (negb (mc_version fleet =? ic_version link)%N) InvalidOperation) ;;
    mret (fleet_outcome (mc_execution_state fleet)).

Definition refreshed_incident (now : N) (next : IncidentStatus * str * option str) (i : Incident) : Incident :=
  let '(status, code, resolution) := next in
  update_incident i status (in_change_set i)
    {| iv_status_code := code; iv_evidence_ids := iv_evidence_ids (in_verification i) |}
    ((fun code => {| rs_code := code; rs_resolved_at_epoch_ms := now |}) <$> resolution) (in_handoff i)
    (if bool_decide (in_status i = status) then in_timeline i
     else in_timeline i ++ [incident_event now status (lit "changeset-state-synchronized")]).

Definition refresh (id : Uuid) : IcProc Incident :=
  incident ← incident_get id;
  link ← lift (ok_or (in_change_set incident) InvalidOperation);
  next ← linked_outcome link;
  now ← ask IcNow;
  change_incident id (fun _ => false) (refreshed_incident now next).

Definition settled_or_busy (s : IncidentStatus) : bool :=
  match s with IncExecuting | IncVerifying | IncClosed => true | _ => false end.

Definition handed_off (now : N) (owner summary : str) (i : Incident) : Incident :=
  update_incident i (in_status i) (in_change_set i) (in_verification i) (in_resolution i)
    (Some {| ho_owner := owner; ho_summary := summary; ho_handed_off_at_epoch_ms := now |})
    (in_timeline i ++ [incident_event now (in_status i) (lit "operator-handoff-recorded")]).

Definition handoff (id : Uuid) (request : IncidentHandoffRequest) : IcProc Incident :=
  owner ← lift (bounded_owner (hr_owner request));
  summary ← lift (bounded_text (hr_summary request) 1000);
  now ← ask IcNow;
  change_incident id (fun i => settled_or_busy (in_status i)) (handed_off now owner summary).

Definition closure_text (code : IncidentClosureCode) : str :=
  lit match code with
      | ClosureResolved => "operator-closed-resolved"
      | ClosureAcceptedRisk => "operator-closed-accepted-risk"
      | ClosureFalsePositive => "operator-closed-false-positive"
      end%string.

Definition close_refused (code : IncidentClosureCode) (i : Incident) : bool :=
  settled_or_busy (in_status i)
  || bool_decide (code = ClosureResolved) && negb (str_eqb (iv_status_code (in_verification i)) (lit "succeeded"))
  || bool_decide (code = ClosureFalsePositive) && negb (str_eqb (rc_code (in_root_cause i)) INCONCLUSIVE).

Definition closed (now : N) (code : IncidentClosureCode) (i : Incident) : Incident :=
  update_incident i IncClosed (in_change_set i) (in_verification i)
    (Some {| rs_code := closure_text code; rs_resolved_at_epoch_ms := now |}) (in_handoff i)
    (in_timeline i ++ [incident_event now IncClosed (lit "operator-closure-recorded")]).

Definition close (id : Uuid) (request : IncidentClosureRequest) : IcProc Incident :=
  lift (bounded_text (cr_summary request) 1000) ;;
  now ← ask IcNow;
  change_incident id (close_refused (cr_code request)) (closed now (cr_code request)).

Definition incident_export (id : Uuid) : IcProc IncidentAuditExport :=
  incident ← incident_get id;
  mret (audit_export incident).

(** ** The service as a whole *)
Inductive IcCall :=
  | CaLoad
  | CaRun (request : IncidentRequest)
  | CaGet (id : Uuid)
  | CaList
  | CaAttach (id : Uuid) (link : IncidentChangeSet)
  | CaRefresh (id : Uuid)
  | CaHandoff (id : Uuid) (request : IncidentHandoffRequest)
  | CaClose (id : Uuid) (request : IncidentClosureRequest)
  | CaExport (id : Uuid).

Inductive IcReply :=
  | IrUnit | IrIncident (i : Incident) | IrIncidents (l : list Incident) | IrExport (x : IncidentAuditExport).

Definition incident_reply {A} (f : A -> IcReply) (p : IcProc A) : IcProc IcReply := a ← p; mret (f a).

Definition incident_body (call : IcCall) : IcProc IcReply :=
  match call with
  | CaLoad => incident_reply (fun _ => IrUnit) incident_load
  | CaRun request => incident_reply IrIncident (incident_run request)
  | CaGet id => incident_reply IrIncident (incident_get id)
  | CaList => incident_reply IrIncidents incident_list
  | CaAttach id link => incident_reply IrIncident (attach_change_set id link)
  | CaRefresh id => incident_reply IrIncident (refresh id)
  | CaHandoff id request => incident_reply IrIncident (handoff id request)
  | CaClose id request => incident_reply IrIncident (close id request)
  | CaExport id => incident_reply IrExport (incident_export id)
  end.
End Service.
