(* ===== verification/IncidentsTheorems.v ===== *)
(** * What holds of incidents

    The service refines a machine of whole steps, whatever is interleaved; what it
    calls resolved has been verified; a record is kept until it is dropped as the
    oldest; a diagnosis rests on its evidence; an investigation only reads; and what is
    saved of an incident is read back exactly when its signals are short. *)
From S2P Require Import Prelude Str Json Errors Externals RunState Tools Policy Decision Evidence.
From S2P Require Import NumText CommandLoop Facts Cache Process Observe Execution ChangeSets FleetExecution FleetExecutionTheorems Incidents.
From Stdlib Require Import Floats.SpecFloat.

Abbreviation IcEv := (event (list PersistedIncident) IcQuery IcAnswer) (only parsing).

Definition was_told (past : list IcEv) (q : IcQuery) (a : IcAnswer q) : Prop := EvAsked q a ∈ past.

(** ** The machine *)

(** What a linked change set, or fleet change, of the version linked was said to be. *)
Definition outcome_told (past : list IcEv) (link : IncidentChangeSet) (next : IncidentStatus * str * option str) : Prop :=
  (exists c, was_told past (IcChangeGet (ic_id link)) (Ok c) /\ cs_version c = ic_version link /\
     next = change_outcome (cs_execution_state c)) \/
  (exists r, was_told past (IcFleetGet (ic_id link)) (Ok r) /\ mc_version r = ic_version link /\
     next = fleet_outcome (mc_execution_state r)).

Section Machine.
Context `{Externals, IncidentExternals} (durable : bool) (hash_values : gmap Uuid Incident -> list Incident).

(** One step of the service, made by the call [c] after [past]. *)
Inductive incident_step (c : IcCall) (past : list IcEv) (s : gmap Uuid Incident) : gmap Uuid Incident -> Prop :=
  | step_load now records :
      c = CaLoad -> was_told past IcLoad (Ok records) -> (length records <= MAX_INCIDENTS)%nat ->
      (forall r, r ∈ records -> valid_persisted_incident r = true) ->
      incident_step c past s (foldl (fun items r => <[pn_id r := recovered_incident now r]> items) ∅ records)
  | step_run request agent_run_id evidence metrics timeline duration :
      c = CaRun request -> validate_incident_request request = Ok tt -> s !! ir_id request = None ->
      let i := drafted_incident request agent_run_id evidence metrics timeline duration in
      let s' := <[ir_id request := i]> s in
      incident_step c past s (trim_incidents hash_values (size s') s')
  | step_attach id link now i :
      c = CaAttach id link -> s !! id = Some i -> attach_refused link i = false ->
      incident_step c past s (<[id := attached now link i]> s)
  | step_refresh id link next now i :
      c = CaRefresh id -> s !! id = Some i -> outcome_told past link next ->
      incident_step c past s (<[id := refreshed_incident now next i]> s)
  | step_handoff id request owner summary now i :
      c = CaHandoff id request -> bounded_owner (hr_owner request) = Ok owner ->
      bounded_text (hr_summary request) 1000 = Ok summary -> s !! id = Some i ->
      settled_or_busy (in_status i) = false -> incident_step c past s (<[id := handed_off now owner summary i]> s)
  | step_close id request now i :
      c = CaClose id request -> s !! id = Some i -> close_refused (cr_code request) i = false ->
      incident_step c past s (<[id := closed now (cr_code request) i]> s).

Definition stays_or_steps (c : IcCall) (past : list IcEv) (s s' : gmap Uuid Incident) : Prop :=
  s' = s \/ incident_step c past s s'.

Abbreviation machine c := (guarantees (stays_or_steps c)) (only parsing).

(** ** Every operation makes only such steps *)
Lemma machine_ask {B} c past (q : IcQuery) (k : IcAnswer q -> proc (gmap Uuid Incident) (list PersistedIncident) IcQuery IcAnswer B) Post :
  (forall a, machine c (past ++ [EvAsked q a]) (k a) Post) -> machine c past (a ← ask q; k a) Post.
Proof. done. Qed.

Lemma machine_lift {A B} c past (r : AppResult A) (k : A -> proc (gmap Uuid Incident) (list PersistedIncident) IcQuery IcAnswer B) Post :
  (forall a, r = Ok a -> machine c past (k a) Post) -> machine c past (a ← lift r; k a) Post.
Proof. destruct r as [a|e]; cbn; auto. Qed.

(** A section that saves makes its step, whatever the save answers. *)
Lemma machine_save {X} c past (step : gmap Uuid Incident -> held (gmap Uuid Incident) (list PersistedIncident) X) :
  (forall s, (exists e, step s = Leave s (Err e)) \/
     (exists s' x, step s = incident_save durable hash_values s' x /\ incident_step c past s s')) ->
  machine c past (locked step) (fun _ _ => True).
Proof.
  intros Hstep s. destruct (Hstep s) as [[e ->]|(s' & x & -> & Hs)].
  - split; [by left|done].
  - unfold incident_save. destruct durable; cbn.
    + intros saved. split; [by right|]. by destruct saved.
    + split; [by right|done].
Qed.

Lemma machine_change c past id refused f :
  (forall s i, s !! id = Some i -> refused i = false -> incident_step c past s (<[id := f i]> s)) ->
  machine c past (change_incident durable hash_values id refused f) (fun _ _ => True).
Proof.
  intros Hf. apply machine_save. intros s. destruct (s !! id) as [i|] eqn:Hi; [|left; eauto].
  destruct (refused i) eqn:Hr; [left; eauto|right]. eauto.
Qed.

Lemma machine_get {B} c past id (k : Incident -> proc (gmap Uuid Incident) (list PersistedIncident) IcQuery IcAnswer B) Post :
  (forall i, machine c past (k i) Post) -> machine c past (i ← incident_get id; k i) Post.
Proof.
  intros Hk s. cbn. split; [by left|]. destruct (s !! id) as [i|]; cbn; [apply Hk|done].
Qed.

(** *** What only asks *)
Lemma gather_reads_free session invocations p : section_free (gather_reads session invocations p).
Proof.
  revert p. induction invocations as [|i rest IH]; intros p; [done|]. cbn [gather_reads].
  destruct (cache_key session i); [|apply IH]. destruct (str_in _ _); [apply IH|]. cbn. auto.
Qed.

Lemma read_groups_free run_id session groups results metrics :
  section_free (read_groups run_id session groups results metrics).
Proof.
  revert results metrics. induction groups as [|g rest IH]; intros results metrics; [done|]. cbn [read_groups].
  apply section_free_bind; [done|]. intros answer. apply section_free_bind; [|intros; apply IH].
  generalize 0%nat, results, (count_reads 0 0 0 (if (1 <? length g)%nat then 1 else 0) metrics).
  induction g as [|i g IHg]; intros n rs m; [done|]. cbn [keep_reads].
  apply section_free_bind; [done|]. intros result. apply section_free_bind; [done|]. intros []. apply IHg.
Qed.

Lemma collect_evidence_free target results : section_free (collect_evidence target results).
Proof.
  induction results as [|r rest IH]; [done|]. cbn [collect_evidence].
  apply section_free_bind; [done|]. intros id. by apply section_free_bind.
Qed.

Lemma investigate_free request run_id targets metrics : section_free (investigate request run_id targets metrics).
Proof.
  revert metrics. induction targets as [|t rest IH]; intros metrics; [done|]. cbn [investigate].
  apply section_free_bind; [done|]. intros plan. apply section_free_bind; [done|]. intros [].
  apply section_free_bind; [|intros read; apply section_free_bind; [apply collect_evidence_free|intros ev]].
  - apply section_free_bind; [apply gather_reads_free|]. intros. apply read_groups_free.
  - by apply section_free_bind.
Qed.

Lemma machine_linked c link past :
  machine c past (linked_outcome link) (fun past' next => outcome_told past' link next).
Proof.
  unfold linked_outcome. destruct (str_eqb _ _).
  - apply machine_ask. intros answer. apply machine_lift. intros change ->. apply machine_lift.
    intros [] Hv%reject_if_ok. left. exists change. unfold was_told. split; [set_solver|]. split; [|done].
    by apply negb_false_iff, N.eqb_eq in Hv.
  - apply machine_ask. intros answer. apply machine_lift. intros fleet ->. apply machine_lift.
    intros [] Hv%reject_if_ok. right. exists fleet. unfold was_told. split; [set_solver|]. split; [|done].
    by apply negb_false_iff, N.eqb_eq in Hv.
Qed.

Lemma machine_run past request :
  machine (CaRun request) past (incident_run durable hash_values request) (fun _ _ => True).
Proof.
  unfold incident_run. apply machine_lift. intros [] Hvalid. intros s. split; [by left|].
  destruct (reject_if _ _) as [[]|e]; [|done]. cbn [proc_bind].
  repeat (apply machine_ask; intros ?). apply guarantees_bind, guarantees_free; [apply investigate_free|].
  intros past' [evidence metrics]. repeat (apply machine_ask; intros ?). cbn [fst snd].
  apply machine_save. intros s'. case_bool_decide as Hn; cbn [negb]; [|left; eauto]. right. eexists _, _. split; [reflexivity|].
  by apply step_run.
Qed.

Lemma machine_body call : machine call [] (incident_body durable hash_values call) (fun _ _ => True).
Proof.
  destruct call as [|request|id| |id link|id|id request|id request|id]; cbn [incident_body];
    unfold incident_reply; apply guarantees_bind; (apply guarantees_mono with (Post := fun _ _ => True); [|by intros]).
  - unfold incident_load. destruct (negb durable); [done|]. apply machine_ask. intros answer.
    apply machine_lift. intros records ->. destruct (_ || _) eqn:Hbad; [done|]. apply machine_ask. intros now.
    apply machine_save. intros s. right. eexists _, _. split; [reflexivity|].
    apply orb_false_iff in Hbad as [Hlen Hall]. rewrite Existsb_false in Hall.
    apply step_load; [done|unfold was_told; set_solver|by apply Nat.ltb_ge|].
    intros r Hr. by apply negb_false_iff, Hall.
  - apply machine_run.
  - intros s. split; [by left|]. by destruct (s !! id).
  - intros s. by split; [left|].
  - unfold attach_change_set. apply machine_ask. intros now. apply machine_change. intros. by eapply step_attach.
  - unfold refresh. apply machine_get. intros i. apply machine_lift. intros link _.
    apply guarantees_bind. eapply guarantees_mono; [apply machine_linked|]. intros past next Htold.
    apply machine_ask. intros now. apply machine_change. intros s i' Hi _. eapply (step_refresh _ _ _ id link next); [done..|].
    destruct Htold as [(c & Hc & Hrest)|(r & Hr & Hrest)]; [left; exists c|right; exists r]; unfold was_told in *;
      (split; [set_solver|done]).
  - unfold handoff. apply machine_lift. intros owner Ho. apply machine_lift. intros summary Hs. apply machine_ask. intros now.
    apply machine_change. intros s i Hi Hr. by eapply step_handoff.
  - unfold close. apply machine_lift. intros summary _. apply machine_ask. intros now.
    apply machine_change. intros s i Hi Hr. by eapply step_close.
  - unfold incident_export. apply machine_get. done.
Qed.

(** ** Any interleaving *)

(** A step of the machine by one of these calls, after what it did. *)
Definition machine_step (calls : gmap nat IcCall) (log : list (nat * IcEv)) (s s' : gmap Uuid Incident) : Prop :=
  exists t c past, calls !! t = Some c /\ past `prefix_of` thread_log t log /\ incident_step c past s s'.

Lemma machine_step_mono calls calls' log log' s s' :
  calls ⊆ calls' -> log `prefix_of` log' -> machine_step calls log s s' -> machine_step calls' log' s s'.
Proof.
  intros Hc [l ->] (t & c & past & Ht & Hp & Hs). exists t, c, past. split; [by eapply lookup_weaken|]. split; [|done].
  rewrite thread_log_app. by apply prefix_app_r.
Qed.

Lemma reachable_machine admits s0 d w :
  rtc (pool_step (incident_body durable hash_values) admits) (pool_init s0 d) w ->
  rtc (machine_step (fst <$> pl_threads w) (pl_log w)) s0 (pl_state w).
Proof.
  apply (pool_guarantees (incident_body durable hash_values) admits stays_or_steps
           (fun calls s log => rtc (machine_step calls log) s0 s)); [apply machine_body|done| |].
  - intros calls s log i c Hi. apply rtc_subrel. intros s1 s2. apply machine_step_mono; [by apply insert_subseteq|done].
  - intros calls s log i c s' evs Hi Hr Hs.
    assert (Hr' : rtc (machine_step calls (log ++ map (pair i) evs)) s0 s).
    { eapply rtc_subrel; [|exact Hr]. intros s1 s2. apply machine_step_mono; [done|by apply prefix_app_r]. }
    destruct Hs as [[->|Hs]| ->]; [done| |done]. eapply rtc_r; [exact Hr'|]. exists i, c, (thread_log i log).
    split; [done|]. split; [|done]. rewrite thread_log_app. by apply prefix_app_r.
Qed.

Lemma trim_subseteq fuel s : trim_incidents hash_values fuel s ⊆ s.
Proof.
  revert s. induction fuel as [|fuel IH]; intros s; cbn; [done|]. destruct (_ <=? _)%nat; [done|].
  destruct (min_by_key _ _) as [i|]; [|done]. etransitivity; [apply IH|apply delete_subseteq].
Qed.

(** *** Verification *)
Definition verified (i : Incident) : Prop :=
  iv_status_code (in_verification i) = lit "succeeded" \/ in_status i = IncResolved \/
  exists r, in_resolution i = Some r /\ rs_code r ∈ [lit "repair-verified"; lit "operator-closed-resolved"].

(** A change set was said to be committed, or a fleet change to have succeeded. *)
Definition success_told (past : list IcEv) : Prop :=
  (exists id c, was_told past (IcChangeGet id) (Ok c) /\ cs_execution_state c = Committed) \/
  (exists id r, was_told past (IcFleetGet id) (Ok r) /\ mc_execution_state r = FxSucceeded).

Ltac other_code H :=
  rewrite !elem_of_cons, elem_of_nil in H; destruct H as [H|[H|[]]]; vm_compute in H; discriminate H.

Lemma refreshed_verified past link next now i :
  outcome_told past link next -> verified (refreshed_incident now next i) -> success_told past.
Proof.
  intros [(c & Hc & _ & ->)|(r & Hr & _ & ->)].
  - intros Hv. left. exists (ic_id link), c. split; [done|]. unfold verified, refreshed_incident in Hv.
    destruct (cs_execution_state c); cbn in Hv; try done;
      destruct Hv as [Hv|[Hv|(x & Hx & Hin)]]; try done; injection Hx as <-; other_code Hin.
  - intros Hv. right. exists (ic_id link), r. split; [done|]. unfold verified, refreshed_incident in Hv.
    destruct (mc_execution_state r); cbn in Hv; try done;
      destruct Hv as [Hv|[Hv|(x & Hx & Hin)]]; try done; injection Hx as <-; other_code Hin.
Qed.

Lemma drafted_unverified request run_id evidence metrics timeline duration :
  ~ verified (drafted_incident request run_id evidence metrics timeline duration).
Proof.
  unfold drafted_incident. destruct (diagnose _ _) as [[cause hyps] fix_]. unfold verified, diagnosed_status. cbn.
  intros [Hc|[Hc|(r & Hc & _)]]; [discriminate Hc| |discriminate Hc]. by destruct (str_eqb _ _).
Qed.

(** One step: an incident that is verified was so before, or has just been told. *)
Lemma step_verified c past s s' id i :
  incident_step c past s s' -> s' !! id = Some i -> in_recovery_state i = IncLive -> verified i ->
  (exists i0, s !! id = Some i0 /\ in_recovery_state i0 = IncLive /\ verified i0) \/
  (c = CaRefresh id /\ success_told past).
Proof.
  assert (Hone : forall id1 f (i1 : Incident), s !! id1 = Some i1 -> in_recovery_state (f i1) = in_recovery_state i1 ->
    (<[id1 := f i1]> s) !! id = Some i -> in_recovery_state i = IncLive -> verified i ->
    (id1 = id /\ i = f i1 /\ in_recovery_state i1 = IncLive) \/
    (exists i0, s !! id = Some i0 /\ in_recovery_state i0 = IncLive /\ verified i0)).
  { intros id1 f i1 Hi1 Hrec Hi Hlive Hv. apply lookup_insert_Some in Hi as [[-> <-]|[_ Hi]]; [|right; eauto].
    left. rewrite Hrec in Hlive. done. }
  intros [now records _ _ _ _|request run_id evidence metrics timeline duration _ _ _ new s1|id1 link now i1 _ Hi1 Hok
    |id1 link next now i1 -> Hi1 Htold|id1 request owner summary now i1 _ _ _ Hi1 Hok|id1 request now i1 _ Hi1 Hok] Hi Hlive Hv.
  - exfalso. enough (Hall : forall l (m : gmap Uuid Incident), (forall k x, m !! k = Some x -> in_recovery_state x = IncMetadataOnly) ->
      forall k x, foldl (fun (items : gmap Uuid Incident) r => <[pn_id r := recovered_incident now r]> items) m l !! k = Some x ->
        in_recovery_state x = IncMetadataOnly).
    { rewrite (Hall records ∅) with (k := id) in Hlive; [done| |exact Hi]. intros k x Hx. by rewrite lookup_empty in Hx. }
    induction l as [|r l IH]; intros m Hm; [exact Hm|]. cbn. apply IH. intros k x [[_ <-]|[_ Hx]]%lookup_insert_Some; [done|eauto].
  - left. pose proof (lookup_weaken _ _ _ _ Hi (trim_subseteq _ _)) as Hi'. subst s1.
    apply lookup_insert_Some in Hi' as [[_ <-]|[_ Hi']]; [|eauto]. by apply drafted_unverified in Hv.
  - left. destruct (Hone id1 (attached now link) i1 Hi1 eq_refl Hi Hlive Hv) as [(-> & -> & Hl)|Hold]; [|done].
    exists i1. split_and!; [done..|]. destruct Hv as [Hv|[Hv|Hv]]; [left; exact Hv|discriminate Hv|right; right; exact Hv].
  - assert (Hrec : in_recovery_state (refreshed_incident now next i1) = in_recovery_state i1)
      by (unfold refreshed_incident; by destruct next as [[? ?] ?]).
    destruct (Hone id1 (refreshed_incident now next) i1 Hi1 Hrec Hi Hlive Hv) as [(-> & -> & Hl)|Hold]; [|by left].
    right. split; [done|]. by eapply refreshed_verified.
  - left. destruct (Hone id1 (handed_off now owner summary) i1 Hi1 eq_refl Hi Hlive Hv) as [(-> & -> & Hl)|Hold]; [|done].
    by exists i1.
  - left. destruct (Hone id1 (closed now (cr_code request)) i1 Hi1 eq_refl Hi Hlive Hv) as [(-> & -> & Hl)|Hold]; [|done].
    exists i1. split_and!; [done..|]. destruct Hv as [Hv|[Hv|(r & Hr & Hin)]]; [left; exact Hv|discriminate Hv|].
    injection Hr as <-. cbn in Hin. unfold close_refused in Hok. rewrite !orb_false_iff in Hok. destruct Hok as [[_ Hok] _].
    left. destruct (cr_code request); cbn in Hok.
    + by apply negb_false_iff, str_eqb_eq in Hok.
    + other_code Hin.
    + other_code Hin.
Qed.

(** *** What an incident keeps *)
Record kept (i i' : Incident) : Prop := {
  kept_id : in_id i' = in_id i;
  kept_run : in_agent_run_id i' = in_agent_run_id i;
  kept_pack : in_pack i' = in_pack i;
  kept_severity : in_severity i' = in_severity i;
  kept_symptoms : in_symptoms i' = in_symptoms i;
  kept_targets : in_targets i' = in_targets i;
  kept_evidence : in_evidence i' = in_evidence i;
  kept_references : in_evidence_references i' = in_evidence_references i;
  kept_comparisons : in_comparisons i' = in_comparisons i;
  kept_hypotheses : in_hypotheses i' = in_hypotheses i;
  kept_cause : in_root_cause i' = in_root_cause i;
  kept_fix : in_proposed_fix i' = in_proposed_fix i;
  kept_recovery : in_recovery_state i' = in_recovery_state i;
  kept_timeline : in_timeline i `prefix_of` in_timeline i';
  kept_link : in_change_set i' = in_change_set i \/ in_recovery_state i = IncLive;
}.

Lemma kept_refl i : kept i i.
Proof. split; try done. by left. Qed.

Lemma kept_trans i1 i2 i3 : kept i1 i2 -> kept i2 i3 -> kept i1 i3.
Proof.
  intros [] []. split; try congruence; [by etransitivity|].
  destruct kept_link0, kept_link1; try (right; congruence). left. congruence.
Qed.

Lemma step_kept c past s s' id i :
  incident_step c past s s' -> c <> CaLoad -> s !! id = Some i ->
  (exists i', s' !! id = Some i' /\ kept i i') \/ (exists request, c = CaRun request /\ s' !! id = None).
Proof.
  assert (Hone : forall id1 (i1 i1' : Incident), s !! id1 = Some i1 -> kept i1 i1' -> s !! id = Some i ->
    exists i', <[id1 := i1']> s !! id = Some i' /\ kept i i').
  { intros id1 i1 i1' Hi1 Hk Hi. destruct (decide (id1 = id)) as [->|Hne].
    - rewrite lookup_insert_eq. exists i1'. split; [done|]. by rewrite Hi1 in Hi; injection Hi as <-.
    - rewrite lookup_insert_ne by done. exists i. split; [done|apply kept_refl]. }
  intros [now records -> _ _ _|request run_id evidence metrics timeline duration -> _ Hnone new s1|id1 link now i1 _ Hi1 Hok
    |id1 link next now i1 _ Hi1 _|id1 request owner summary now i1 _ _ _ Hi1 _|id1 request now i1 _ Hi1 _] Hload Hi;
    [done| |left; eapply Hone; [exact Hi1| |exact Hi]..].
  - destruct (trim_incidents hash_values (size s1) s1 !! id) as [i'|] eqn:Hi'; [left|right; by exists request].
    exists i'. split; [done|]. pose proof (lookup_weaken _ _ _ _ Hi' (trim_subseteq _ _)) as Hs. subst s1.
    apply lookup_insert_Some in Hs as [[<- _]|[_ Hs]]; [by rewrite Hnone in Hi|].
    rewrite Hi in Hs. injection Hs as <-. apply kept_refl.
  - split; try done; [by apply prefix_app_r|]. right. unfold attach_refused in Hok.
    rewrite !orb_false_iff, negb_false_iff, bool_decide_eq_true in Hok. by destruct Hok as [[[[? _] _] _] _].
  - unfold refreshed_incident. destruct next as [[status code] resolution].
    split; try done; [|by left]. cbn. case_bool_decide; [done|by apply prefix_app_r].
  - split; try done; [by apply prefix_app_r|by left].
  - split; try done; [by apply prefix_app_r|by left].
Qed.

(** C25. Nothing is called repaired that was not.  However calls interleave, a live
    incident whose verification is recorded as succeeded, whose status is resolved,
    or that was closed as resolved, has had a refresh that was told that the change
    set it asked about is committed, or that the fleet change has succeeded. *)
Theorem resolved_incidents_are_verified admits d w id i :
  rtc (pool_step (incident_body durable hash_values) admits) (pool_init ∅ d) w ->
  pl_state w !! id = Some i -> in_recovery_state i = IncLive -> verified i ->
  exists t p, pl_threads w !! t = Some (CaRefresh id, p) /\ success_told (thread_log t (pl_log w)).
Proof.
  intros Hw. apply reachable_machine in Hw. revert i.
  assert (Hgoal : forall s s', rtc (machine_step (fst <$> pl_threads w) (pl_log w)) s s' ->
    (forall i, s !! id = Some i -> in_recovery_state i = IncLive -> verified i ->
       exists t p, pl_threads w !! t = Some (CaRefresh id, p) /\ success_told (thread_log t (pl_log w))) ->
    forall i, s' !! id = Some i -> in_recovery_state i = IncLive -> verified i ->
       exists t p, pl_threads w !! t = Some (CaRefresh id, p) /\ success_told (thread_log t (pl_log w)));
    [|eapply Hgoal; [exact Hw|]; intros i Hi; by rewrite lookup_empty in Hi].
  induction 1 as [s|s1 s2 s3 (t & c & past & Ht & Hpast & Hs) _ IH]; intros Hinit; [exact Hinit|].
  apply IH. intros i Hi Hlive Hv.
  destruct (step_verified c past s1 s2 id i Hs Hi Hlive Hv) as [(i1 & Hi1 & Hl1 & Hv1)|[-> Htold]]; [eauto|].
  rewrite lookup_fmap in Ht. destruct (pl_threads w !! t) as [[c' p]|] eqn:Hp; [|done]. injection Ht as ->.
  exists t, p. split; [done|]. destruct Hpast as [rest ->].
  destruct Htold as [(k & x & Hx & Hrest)|(k & x & Hx & Hrest)]; [left|right]; exists k, x; unfold was_told in *;
    (split; [set_solver|done]).
Qed.
(** *** What is dropped *)

(** Every incident is stored under its own identifier. *)
Definition keyed (s : gmap Uuid Incident) : Prop := forall id i, s !! id = Some i -> in_id i = id.

Lemma keyed_insert s i : keyed s -> keyed (<[in_id i := i]> s).
Proof. intros Hs id j [[<- <-]|[_ Hj]]%lookup_insert_Some; [done|by apply Hs]. Qed.

Lemma step_keyed c past s s' : incident_step c past s s' -> keyed s -> keyed s'.
Proof.
  assert (Hchange : forall id i i', keyed s -> s !! id = Some i -> in_id i' = in_id i -> keyed (<[id := i']> s)).
  { intros id i i' Hs Hi Hid. rewrite <- (Hs _ _ Hi), <- Hid. by apply keyed_insert. }
  intros [now records _ _ _ _|request run_id evidence metrics timeline duration _ _ _ new s1|id1 link now i1 _ Hi1 _
    |id1 link next now i1 _ Hi1 _|id1 request owner summary now i1 _ _ _ Hi1 _|id1 request now i1 _ Hi1 _] Hs;
    [| |by eapply Hchange| |by eapply Hchange..].
  - assert (Hall : forall l m, keyed m -> keyed (foldl (fun (items : gmap Uuid Incident) r => <[pn_id r := recovered_incident now r]> items) m l)).
    { induction l as [|r l IH]; intros m Hm; cbn; [done|]. by apply IH, (keyed_insert m (recovered_incident now r)). }
    apply Hall. by intros id i ?%lookup_empty_Some.
  - intros id i Hi. pose proof (lookup_weaken _ _ _ _ Hi (trim_subseteq _ _)) as Hin. subst s1.
    assert (Hnew : in_id new = ir_id request).
    { subst new. unfold drafted_incident. by destruct (diagnose _ _) as [[? ?] ?]. }
    pose proof (keyed_insert s new Hs) as Hk. rewrite Hnew in Hk. exact (Hk id i Hin).
  - eapply Hchange; [done..|]. unfold refreshed_incident. by destruct next as [[? ?] ?].
Qed.

Hypothesis hash_values_all : forall m, hash_values m ≡ₚ map snd (map_to_list m).

(** The time by which an incident is old. *)
Definition reported_at (i : Incident) : N := first_event_time (in_timeline i).

Lemma trim_leaves fuel s : (MAX_INCIDENTS <= size s)%nat -> (MAX_INCIDENTS <= size (trim_incidents hash_values fuel s))%nat.
Proof.
  revert s. induction fuel as [|fuel IH]; intros s Hs; cbn [trim_incidents]; [done|].
  destruct (Nat.leb_spec (size s) MAX_INCIDENTS) as [|Hsize]; [done|]. destruct (min_by_key _ _) as [oldest|]; [|done].
  apply IH. destruct (s !! in_id oldest) eqn:Ho; [rewrite map_size_delete_Some by eauto; lia|by rewrite map_size_delete_None].
Qed.

(** What is trimmed is older than all that stays, and no more is trimmed than there is
    room for. *)
Lemma trim_drops fuel s id i :
  keyed s -> s !! id = Some i -> trim_incidents hash_values fuel s !! id = None ->
  (MAX_INCIDENTS < size s)%nat /\ (MAX_INCIDENTS <= size (trim_incidents hash_values fuel s))%nat /\
  forall k j, trim_incidents hash_values fuel s !! k = Some j -> (reported_at i <= reported_at j)%N.
Proof.
  revert s. induction fuel as [|fuel IH]; intros s Hs Hi; cbn [trim_incidents]; [by rewrite Hi|].
  destruct (Nat.leb_spec (size s) MAX_INCIDENTS) as [|Hsize]; [by rewrite Hi|].
  destruct (min_by_key _ _) as [oldest|] eqn:Hold; [|by rewrite Hi].
  apply min_by_key_some in Hold as [Hin Hmin]. rewrite hash_values_all in Hin.
  apply list_elem_of_fmap in Hin as ([k o] & -> & Ho%elem_of_map_to_list). cbn [snd] in *. rewrite (Hs _ _ Ho).
  assert (Hall : forall k' j, s !! k' = Some j -> (reported_at o <= reported_at j)%N).
  { intros k' j Hj. apply Hmin. rewrite hash_values_all. apply list_elem_of_fmap. exists (k', j). split; [done|].
    by apply elem_of_map_to_list. }
  assert (Hsize' : size (delete k s) = pred (size s)) by (rewrite map_size_delete_Some; [done|by eexists]).
  destruct (decide (k = id)) as [->|Hne].
  - assert (o = i) as -> by congruence. intros _. split; [done|]. split.
    + by apply trim_leaves; lia.
    + intros k' j Hj. apply (Hall k'). eapply lookup_weaken; [exact Hj|]. etransitivity; [apply trim_subseteq|apply delete_subseteq].
  - intros Hnone. destruct (IH (delete k s)) as (_ & Hleft & Holder); [|by rewrite lookup_delete_ne|done|done].
    intros k' j [_ Hj]%lookup_delete_Some. by apply Hs.
Qed.

(** A step of the pool is a step of the machine, by a call that has not ended. *)
Lemma pool_step_machine admits d w w' :
  reached (incident_body durable hash_values) admits ∅ d w -> pool_step (incident_body durable hash_values) admits w w' ->
  pl_state w' = pl_state w \/
  exists t c p past, pl_threads w !! t = Some (c, p) /\ (forall r, p <> Done r) /\ incident_step c past (pl_state w) (pl_state w').
Proof.
  intros Hr Hstep.
  destruct (pool_observes_state (incident_body durable hash_values) admits ∅ d (fun _ _ _ => True)
              (fun c ms s s' => stays_or_steps c (events_of ms) s s') (fun _ _ _ => True)
              (fun c => guarantees_observes (stays_or_steps c) [] _ (machine_body c)) w w' Hr Hstep)
    as [Hsame|(t & c & p & ms & Ht & Hp & _ & [Hsame|Hs])]; [by left|by left|right].
  exists t, c, p, (events_of ms). by split_and!.
Qed.

Lemma reached_keyed admits d w : reached (incident_body durable hash_values) admits ∅ d w -> keyed (pl_state w).
Proof.
  apply (reached_ind _ _ _ _ (fun w => keyed (pl_state w))); [intros id i Hi; cbn in Hi; by rewrite lookup_empty in Hi|].
  intros w1 w2 Hr Hk Hstep. destruct (pool_step_machine admits d w1 w2 Hr Hstep) as [->|(t & c & p & past & _ & _ & Hs)]; [done|].
  by eapply step_keyed.
Qed.

(** An investigation has dropped [i] for want of room, as the oldest. *)
Definition dropped_as_oldest {B} (i : Incident) (w w' : pool (gmap Uuid Incident) (list PersistedIncident) IcQuery IcAnswer IcCall B) : Prop :=
  exists t request p, pl_threads w !! t = Some (CaRun request, p) /\
    pl_state w !! ir_id request = None /\ (MAX_INCIDENTS <= size (pl_state w))%nat /\
    (MAX_INCIDENTS <= size (pl_state w'))%nat /\ pl_state w' !! in_id i = None /\
    forall k j, pl_state w' !! k = Some j -> (reported_at i <= reported_at j)%N.

Lemma step_drops c past s s' id i :
  incident_step c past s s' -> c <> CaLoad -> keyed s -> s !! id = Some i ->
  (exists i', s' !! id = Some i' /\ kept i i') \/
  (exists request, c = CaRun request /\ s !! ir_id request = None /\ (MAX_INCIDENTS <= size s)%nat /\
     (MAX_INCIDENTS <= size s')%nat /\ s' !! id = None /\ forall k j, s' !! k = Some j -> (reported_at i <= reported_at j)%N).
Proof.
  intros Hs Hload Hk Hi. destruct (step_kept c past s s' id i Hs Hload Hi) as [?|(request & -> & Hnone)]; [by left|right].
  exists request. split; [done|].
  inversion Hs as [|request' run_id evidence metrics timeline duration [= <-] Hvalid Hnew new s1| | | |]; subst; [done| |done..].
  assert (Hs1 : s1 !! id = Some i) by (unfold s1; rewrite lookup_insert_ne; [done|congruence]).
  assert (Hsize : size s1 = S (size s)) by (unfold s1; by rewrite map_size_insert_None).
  assert (Hk1 : keyed s1).
  { assert (Hid : in_id new = ir_id request) by (unfold new, drafted_incident; by destruct (diagnose _ _) as [[? ?] ?]).
    pose proof (keyed_insert s new Hk) as Hn. by rewrite Hid in Hn. }
  destruct (trim_drops (size s1) s1 id i Hk1 Hs1 Hnone) as (Hbig & Hleft & Hold). split_and!; [done|lia|done|done|done].
Qed.

(** C26. However calls interleave, with the tools, the cache, the change sets, the fleet
    and the disk answering what they will: an incident that is stored at some time is
    still there at any later one, about the same targets, with the same evidence, the
    same root cause and the same proposed fix, and with everything its timeline said, in
    its order, before anything it says since; or there was a step at which an
    investigation of another incident dropped it - kept until then - because two thousand
    were stored, none of those that stayed being older.  No load of the incidents may be
    under way or start in between. *)
Theorem incident_record_is_kept admits d w0 w id i0 :
  reached (incident_body durable hash_values) admits ∅ d w0 -> later (incident_body durable hash_values) admits w0 w ->
  pl_state w0 !! id = Some i0 ->
  (forall t p, pl_threads w !! t = Some (CaLoad, p) -> exists r, pl_threads w0 !! t = Some (CaLoad, Done r)) ->
  (exists i, pl_state w !! id = Some i /\ kept i0 i) \/
  (exists w1 w2 i1, later (incident_body durable hash_values) admits w0 w1 /\
     pool_step (incident_body durable hash_values) admits w1 w2 /\ later (incident_body durable hash_values) admits w2 w /\
     pl_state w1 !! id = Some i1 /\ kept i0 i1 /\ dropped_as_oldest i1 w1 w2).
Proof.
  intros Hr0 Hlater Hi0 Hload. pose proof (reached_later _ _ _ _ _ _ Hr0 Hlater) as Hr. unfold later in Hlater.
  enough (Hgoal : forall w1, later (incident_body durable hash_values) admits w0 w1 -> later (incident_body durable hash_values) admits w1 w ->
    (exists i, pl_state w1 !! id = Some i /\ kept i0 i) \/
    (exists v1 v2 i1, later (incident_body durable hash_values) admits w0 v1 /\
       pool_step (incident_body durable hash_values) admits v1 v2 /\ later (incident_body durable hash_values) admits v2 w1 /\
       pl_state v1 !! id = Some i1 /\ kept i0 i1 /\ dropped_as_oldest i1 v1 v2)) by (by apply Hgoal).
  apply (rtc_ind_r (R := pool_step (incident_body durable hash_values) admits) (fun w1 =>
    later (incident_body durable hash_values) admits w1 w -> _)); [intros _; left; exists i0; split; [done|apply kept_refl]|].
  intros w1 w2 H01 Hstep IH H2w. assert (H1w : later (incident_body durable hash_values) admits w1 w) by (by eapply rtc_l).
  destruct (IH H1w) as [(i1 & Hi1 & Hk1)|(v1 & v2 & i1 & ? & ? & H21 & Hrest)].
  2: { right. exists v1, v2, i1. split_and!; try done; try apply Hrest. by eapply rtc_r. }
  destruct (pool_step_machine admits d w1 w2 (reached_later _ _ _ _ _ _ Hr0 H01) Hstep) as [->|(t & c & p & past & Ht & Hp & Hs)];
    [left; by exists i1|].
  assert (Hc : c <> CaLoad).
  { intros ->. destruct (later_call _ _ _ _ _ _ _ H1w Ht) as [p' Hp']. destruct (Hload t p' Hp') as [r Hd].
    pose proof (later_done _ _ _ _ _ _ _ H01 Hd) as Hd'. rewrite Ht in Hd'. injection Hd' as ->. by destruct (Hp r). }
  pose proof (reached_keyed admits d w1 (reached_later _ _ _ _ _ _ Hr0 H01)) as Hkeyed.
  destruct (step_drops c past _ _ id i1 Hs Hc Hkeyed Hi1) as [(i2 & Hi2 & Hk2)|(request & -> & Hdrop)].
  - left. exists i2. split; [done|]. by eapply kept_trans.
  - right. exists w1, w2, i1. split_and!; try done. exists t, request, p. rewrite (Hkeyed _ _ Hi1). split; [done|]. tauto.
Qed.
End Machine.

(** ** Diagnosis *)
Lemma sort_by_ext {A} (leb leb' : A -> A -> bool) l :
  (forall a b, a ∈ l -> b ∈ l -> leb a b = leb' a b) -> sort_by leb l = sort_by leb' l.
Proof.
  assert (Hins : forall x k, (forall y, y ∈ k -> leb x y = leb' x y) -> insert_by leb x k = insert_by leb' x k).
  { intros x k Hk. induction k as [|y k IH]; [done|]. cbn. rewrite Hk by set_solver. case_match; [done|].
    f_equal. apply IH. set_solver. }
  intros Hl. unfold sort_by. induction l as [|x l IH]; [done|]. cbn [foldr]. rewrite <- IH by set_solver.
  apply Hins. intros y Hy. apply Hl; [set_solver|]. change (y ∈ sort_by leb l) in Hy.
  rewrite sort_by_perm in Hy. set_solver.
Qed.

(** The [f32]s of the hundredths are ordered as the hundredths. *)
Definition hundredths_agree (n m : nat) : bool :=
  Bool.eqb (SFleb (hundredths_f32 (N.of_nat n)) (hundredths_f32 (N.of_nat m))) (n <=? m)%nat.
Definition valid_hundredths (n : nat) : bool := valid_confidence (hundredths_f32 (N.of_nat n)).

Lemma forallb_seq (P : nat -> bool) k n : forallb P (seq 0 k) = true -> (n < k)%nat -> P n = true.
Proof. rewrite Forallb_forall. intros Hall Hn. apply Hall, elem_of_seq. lia. Qed.

Lemma hundredths_all_agree : forallb (fun n => forallb (hundredths_agree n) (seq 0 101)) (seq 0 101) = true.
Proof. vm_compute. reflexivity. Qed.
Lemma hundredths_all_valid : forallb valid_hundredths (seq 0 101) = true.
Proof. vm_compute. reflexivity. Qed.

Lemma hundredths_leb n m : (n <= 100 -> m <= 100 -> SFleb (hundredths_f32 n) (hundredths_f32 m) = (n <=? m))%N.
Proof.
  intros Hn Hm.
  pose proof (forallb_seq _ _ (N.to_nat n) hundredths_all_agree ltac:(lia)) as Hrow. cbv beta in Hrow.
  pose proof (forallb_seq _ _ (N.to_nat m) Hrow ltac:(lia)) as Hx. unfold hundredths_agree in Hx.
  rewrite !N2Nat.id in Hx. apply eqb_prop in Hx. rewrite Hx.
  destruct (N.leb_spec n m), (Nat.leb_spec (N.to_nat n) (N.to_nat m)); lia || done.
Qed.

Lemma hundredths_valid n : (n <= 100)%N -> valid_confidence (hundredths_f32 n) = true.
Proof.
  intros Hn. pose proof (forallb_seq _ _ (N.to_nat n) hundredths_all_valid ltac:(lia)) as Hx.
  unfold valid_hundredths in Hx. by rewrite N2Nat.id in Hx.
Qed.

Section Diagnosis.
Context `{IncidentExternals}.

Definition sound_candidate (item : IncidentEvidence) (c : Candidate) : Prop :=
  cd_evidence c = ie_id item /\ tr_success (ie_result item) = true /\
  (cd_confidence c <= 98)%N /\ str_eqb (cd_code c) INCONCLUSIVE = false.

Ltac one_candidate H :=
  repeat match type of H with
         | context [if ?b then _ else _] => destruct b
         end;
  first [ by apply elem_of_nil in H
        | apply list_elem_of_singleton in H; subst; split_and!; [done|done|cbn; lia|vm_compute; reflexivity] ].

Lemma candidates_sound item c : c ∈ candidates_of item -> sound_candidate item c.
Proof.
  unfold candidates_of, sound_candidate. destruct (tr_success _) eqn:Hs; cbn [negb]; [|by intros ?%elem_of_nil].
  destruct (tr_data _) as [[d|disks|svc|d|d|d|d|d|d|d]|]; try (by intros ?%elem_of_nil); intros Hc; try (one_candidate Hc).
  unfold inspect_diagnostic in Hc.
  destruct (str_eqb (dd_category d) _); [one_candidate Hc|]. destruct (str_eqb (dd_category d) _); [one_candidate Hc|].
  destruct (str_eqb (dd_category d) _).
  { unfold inspect_docker in Hc. rewrite !elem_of_app in Hc. destruct Hc as [Hc|[Hc|Hc]]; one_candidate Hc. }
  destruct (str_eqb (dd_category d) _); [unfold inspect_logs in Hc; one_candidate Hc|].
  destruct (str_eqb (dd_category d) _); [|by apply elem_of_nil in Hc].
  destruct (as_str _); [one_candidate Hc|by apply elem_of_nil in Hc].
Qed.

Definition all_candidates (evidence : list IncidentEvidence) : list Candidate := concat (map candidates_of evidence).

Lemma all_candidates_sound evidence c :
  c ∈ all_candidates evidence -> exists item, item ∈ evidence /\ c ∈ candidates_of item /\ sound_candidate item c.
Proof.
  unfold all_candidates. intros Hc. apply list_elem_of_In, in_concat in Hc as (l & Hl & Hc).
  apply in_map_iff in Hl as (item & <- & Hitem). exists item. apply list_elem_of_In in Hitem, Hc.
  split_and!; [done|done|]. by apply candidates_sound.
Qed.

(** The most confident candidate comes first. *)
Lemma ranked_head evidence c rest :
  ranked (all_candidates evidence) = c :: rest ->
  forall x, x ∈ all_candidates evidence -> (cd_confidence x <= cd_confidence c)%N.
Proof.
  unfold ranked. rewrite (sort_by_ext _ (fun a b => cd_confidence b <=? cd_confidence a)%N).
  2: { intros a b (? & _ & _ & _ & _ & Ha & _)%all_candidates_sound (? & _ & _ & _ & _ & Hb & _)%all_candidates_sound.
       by apply hundredths_leb; lia. }
  intros Hr x Hx.
  assert (Hs : StronglySorted (fun a b => (cd_confidence b <=? cd_confidence a)%N = true) (c :: rest)).
  { rewrite <- Hr. apply sort_by_sorted.
    - intros a b Hab. apply N.leb_gt in Hab. apply N.leb_le. lia.
    - intros a b d Hab Hbd. apply N.leb_le in Hab, Hbd. apply N.leb_le. lia. }
  rewrite <- (sort_by_perm (fun a b => cd_confidence b <=? cd_confidence a)%N), Hr in Hx.
  apply elem_of_cons in Hx as [->|Hx]; [lia|]. apply StronglySorted_inv in Hs as [_ Hall].
  rewrite Forall_forall in Hall. by apply N.leb_le, Hall.
Qed.

Lemma ranked_elem evidence c : c ∈ ranked (all_candidates evidence) <-> c ∈ all_candidates evidence.
Proof. unfold ranked. by rewrite sort_by_perm. Qed.

Lemma elem_of_take_in {A} n (l : list A) x : x ∈ take n l -> x ∈ l.
Proof. intros (i & Hi & _)%elem_of_take. by eapply list_elem_of_lookup_2. Qed.

(** What is cited, and with what confidence. *)
Lemma diagnose_cites pack evidence :
  let cause := fst (fst (diagnose pack evidence)) in
  (evidence <> [] -> rc_evidence_ids cause <> []) /\
  (forall id, id ∈ rc_evidence_ids cause -> exists item, item ∈ evidence /\ ie_id item = id) /\
  valid_confidence (rc_confidence cause) = true.
Proof.
  unfold diagnose. fold (all_candidates evidence).
  destruct (ranked (all_candidates evidence)) as [|c rest] eqn:Hr.
  - rewrite str_eqb_refl. cbn [fst rc_evidence_ids rc_confidence]. split_and!.
    + by destruct evidence.
    + intros id (item & -> & Hi)%list_elem_of_fmap. exists item. split; [|done]. by eapply elem_of_take_in.
    + by apply hundredths_valid.
  - assert (Hin : forall x, x ∈ c :: rest -> x ∈ all_candidates evidence) by (intros x; by rewrite <- Hr, ranked_elem).
    destruct (all_candidates_sound evidence c) as (_ & _ & _ & _ & _ & Hconf & Hcode); [apply Hin; set_solver|].
    rewrite Hcode. destruct (fix_for pack (cd_code c)) as [[? ?] ?].
    cbn [fst rc_evidence_ids rc_confidence List.filter]. rewrite str_eqb_refl. split_and!; [done| |apply hundredths_valid; lia].
    intros id (x & -> & Hx)%list_elem_of_fmap.
    assert (Hx' : x ∈ all_candidates evidence).
    { apply Hin. apply elem_of_cons in Hx as [->|Hx]; [set_solver|]. apply elem_of_filterb in Hx as [Hx _]. set_solver. }
    apply all_candidates_sound in Hx' as (item & Hi & _ & Hid & _). by exists item.
Qed.

(** A diagnosis rests on its evidence.  The root cause cites evidence, and only of
    this incident, whenever there is any; its confidence is between nothing and
    certainty.  It is inconclusive exactly when no evidence suggests a cause; else
    each piece cited is a success and suggests that very cause, no evidence suggests
    another with more confidence, and the hypotheses, five at most, are suggestions of the
    evidence, supported when they are the cause.  A repair needs a change set exactly
    when there is a cause, and one of a full disk never deletes by itself. *)
Theorem diagnosis_rests_on_evidence pack evidence cause hypotheses fix_ :
  diagnose pack evidence = (cause, hypotheses, fix_) ->
  (evidence <> [] -> rc_evidence_ids cause <> []) /\
  (forall id, id ∈ rc_evidence_ids cause -> exists item, item ∈ evidence /\ ie_id item = id) /\
  valid_confidence (rc_confidence cause) = true /\
  (rc_code cause = INCONCLUSIVE <-> all_candidates evidence = []) /\
  (rc_code cause <> INCONCLUSIVE ->
     exists confidence, rc_confidence cause = hundredths_f32 confidence /\
     (forall x, x ∈ all_candidates evidence -> cd_confidence x <= confidence)%N /\
     forall id, id ∈ rc_evidence_ids cause -> exists item c, item ∈ evidence /\ ie_id item = id /\
       tr_success (ie_result item) = true /\ c ∈ candidates_of item /\ cd_code c = rc_code cause) /\
  (length hypotheses <= 5)%nat /\
  (forall h, h ∈ hypotheses -> exists c, c ∈ all_candidates evidence /\ hy_code h = cd_code c /\
     hy_evidence_ids h = [cd_evidence c] /\ (hy_supported h = true <-> hy_code h = rc_code cause)) /\
  px_change_set_required fix_ = negb (str_eqb (rc_code cause) INCONCLUSIVE) /\
  px_dangerous_deletion_blocked fix_ = bool_decide (pack = PackDisk).
Proof.
  intros Hd. pose proof (diagnose_cites pack evidence) as Hcites. rewrite Hd in Hcites. cbv zeta in Hcites. cbn [fst] in Hcites.
  destruct Hcites as (Hne & Hcited & Hvalid). split; [exact Hne|]. split; [exact Hcited|]. split; [exact Hvalid|].
  clear Hne Hcited Hvalid. revert Hd. unfold diagnose. fold (all_candidates evidence). intros Hd.
  set (chosen := match ranked (all_candidates evidence) with
    | c :: _ => (cd_code c, cd_confidence c,
                 map cd_evidence (List.filter (fun x => str_eqb (cd_code x) (cd_code c)) (ranked (all_candidates evidence))))
    | [] => (INCONCLUSIVE, 35%N, map ie_id (take 3 evidence)) end) in Hd.
  destruct chosen as [[code confidence] ids] eqn:Hchosen. subst chosen.
  set (hyps := map _ (take 5 _)) in Hd.
  assert (Hparts : cause = {| rc_code := code; rc_confidence := hundredths_f32 confidence; rc_evidence_ids := ids |} /\
    hypotheses = hyps /\ px_change_set_required fix_ = negb (str_eqb code INCONCLUSIVE) /\
    px_dangerous_deletion_blocked fix_ = bool_decide (pack = PackDisk)).
  { destruct (str_eqb code INCONCLUSIVE) eqn:Hcode; [|destruct (fix_for pack code) as [[? ?] ?]];
      injection Hd as <- <- <-; cbn; by rewrite ?Hcode. }
  destruct Hparts as (-> & -> & Hfix & Hdisk). cbn [rc_code rc_confidence rc_evidence_ids].
  assert (Hhyps : (length hyps <= 5)%nat /\ forall h, h ∈ hyps -> exists c, c ∈ all_candidates evidence /\
    hy_code h = cd_code c /\ hy_evidence_ids h = [cd_evidence c] /\ (hy_supported h = true <-> hy_code h = code)).
  { subst hyps. split; [rewrite length_map, length_take; lia|]. intros h (c & -> & Hc)%list_elem_of_fmap.
    exists c. split_and!; [|done|done|apply str_eqb_eq]. apply ranked_elem.
    by eapply elem_of_take_in. }
  destruct Hhyps as [Hlen Hhyps]. clearbody hyps. clear Hd.
  destruct (ranked (all_candidates evidence)) as [|c rest] eqn:Hr.
  - injection Hchosen as <- <- <-.
    assert (Hnone : all_candidates evidence = []).
    { destruct (all_candidates evidence) as [|x l] eqn:Hl; [done|]. exfalso.
      assert (Hx : x ∈ ranked (all_candidates evidence)) by (apply ranked_elem; rewrite Hl; set_solver).
      rewrite Hl, Hr in Hx. by apply elem_of_nil in Hx. }
    by split_and!.
  - injection Hchosen as <- <- <-.
    assert (Hc : c ∈ all_candidates evidence) by (apply ranked_elem; rewrite Hr; set_solver).
    destruct (all_candidates_sound _ _ Hc) as (citem & _ & _ & _ & _ & Hconf & Hcode).
    assert (Hcited : forall id, id ∈ map cd_evidence (List.filter (fun x => str_eqb (cd_code x) (cd_code c)) (c :: rest)) ->
      exists item x, item ∈ evidence /\ ie_id item = id /\ tr_success (ie_result item) = true /\
        x ∈ candidates_of item /\ cd_code x = cd_code c).
    { intros id (x & -> & Hx)%list_elem_of_fmap. apply elem_of_filterb in Hx as [Hx Hxc%str_eqb_eq].
      rewrite <- Hr, ranked_elem in Hx. apply all_candidates_sound in Hx as (item & Hi & Hxi & Hid & Hs & _).
      exists item, x. by split_and!. }
    split_and!; [| |done|done|done|done].
    + split; [|intros Hnone; rewrite Hnone in Hc; by apply elem_of_nil in Hc].
      intros Hinc. by rewrite Hinc, str_eqb_refl in Hcode.
    + intros _. exists (cd_confidence c). split_and!; [done| |done]. by eapply ranked_head.
Qed.
End Diagnosis.

(** ** Investigation *)
Definition reads_only (i : NativeToolInvocation) : Prop :=
  is_Some (cache_suffix i) /\ (risk_rank (risk_of i) <= 1)%N.

Ltac each_reads :=
  repeat match goal with
         | |- Forall _ (_ ++ _) => apply Forall_app; split
         | |- Forall _ (_ :: _) => constructor
         | |- Forall _ [] => constructor
         | |- reads_only _ => split; [eexists; reflexivity|vm_compute; discriminate]
         end.

Ltac count := cbn; rewrite ?length_app, ?length_map; cbn; rewrite ?length_map; lia.

Lemma plan_for_reads request plan :
  plan_for request = Ok plan ->
  (exists rest, plan = InvSystemInfo :: rest) /\ Forall reads_only plan /\ (length plan <= 11 + length (ir_dependencies request))%nat.
Proof.
  unfold plan_for. intros (tools & Ht & [= <-])%bind_ok.
  enough (Forall reads_only tools /\ (length tools <= 10 + length (ir_dependencies request))%nat) as [? ?].
  { split; [eauto|]. split; [constructor; [|done]; each_reads|cbn; lia]. }
  destruct (ir_pack request).
  - apply bind_ok in Ht as (host & _ & (url & _ & (upstream & Hup & [= <-])%bind_ok)%bind_ok).
    assert (Hu : Forall reads_only upstream /\ (length upstream <= 1)%nat).
    { destruct (ir_upstream_host request); [apply bind_ok in Hup as (port & _ & [= <-])|injection Hup as <-];
        (split; [each_reads|cbn; lia]). }
    destruct Hu. split; [each_reads; done|count].
  - injection Ht as <-. unfold plan_nginx, add_service, optional_file. split.
    + each_reads; repeat case_match; each_reads.
    + repeat case_match; count.
  - apply bind_ok in Ht as (container & _ & [= <-]). unfold optional_file. split.
    + each_reads; repeat case_match; each_reads.
    + repeat case_match; count.
  - injection Ht as <-. unfold plan_disk. cbn [map concat app DISK_PATHS]. split; [each_reads|cbn; lia].
  - apply bind_ok in Ht as (service & _ & [= <-]). unfold add_service, optional_file. split.
    + each_reads; repeat case_match; each_reads. apply Forall_map, Forall_true. intros d. each_reads.
    + repeat case_match; count.
Qed.

Section Investigation.
Context `{Externals, IncidentExternals} (request : IncidentRequest).

(** What an investigation asks the tools for. *)
Definition planned_read (nr : NativeToolRequest) : Prop :=
  nr_session_id nr ∈ ir_targets request /\ nr_authority nr = None /\ reads_only (nr_invocation nr) /\
  exists plan, plan_for request = Ok plan /\ nr_invocation nr ∈ plan.
Definition asks_planned (past : list IcEv) (q : IcQuery) : Prop :=
  match q with
  | IcReads requests => Forall planned_read requests /\ NoDup requests
  | IcChangeGet _ | IcFleetGet _ | IcLoad => False
  | _ => True
  end.

Lemma asks_then {B} past (q : IcQuery) (k : IcAnswer q -> proc (gmap Uuid Incident) (list PersistedIncident) IcQuery IcAnswer B) Post :
  asks_planned past q -> (forall a, follows asks_planned (past ++ [EvAsked q a]) (k a) Post) ->
  follows asks_planned past (a ← ask q; k a) Post.
Proof. by split. Qed.

Definition plan_size (p : ReadPlan) : nat := length (rp_results p) + length (rp_pending p).
Definition plan_ok (session : Uuid) (all : list NativeToolInvocation) (p : ReadPlan) : Prop :=
  (forall i, i ∈ rp_pending p -> i ∈ all /\ exists k, cache_key session i = Some k /\ k ∈ rp_unique p) /\
  NoDup (rp_pending p).

Lemma gather_follows session all invocations p past :
  plan_ok session all p -> (forall i, i ∈ invocations -> i ∈ all) ->
  follows asks_planned past (gather_reads session invocations p) (fun _ p' =>
    plan_ok session all p' /\ (plan_size p <= plan_size p' <= plan_size p + length invocations)%nat /\
    match invocations with
    | i :: _ => is_Some (cache_suffix i) -> rp_unique p = [] -> (plan_size p < plan_size p')%nat
    | [] => True
    end).
Proof.
  revert p past. induction invocations as [|i rest IH]; intros p past Hp Hin; cbn [gather_reads length].
  { split_and!; [done|lia|lia|done]. }
  assert (Hrest : forall i', i' ∈ rest -> i' ∈ all) by (intros; apply Hin; set_solver).
  destruct (cache_key session i) as [key|] eqn:Hk.
  2: { eapply follows_mono; [by apply IH|]. intros _ p' (Hp' & Hs & _). split_and!; [done|lia|lia|].
       intros [suffix Hsuf]. unfold cache_key in Hk. by rewrite Hsuf in Hk. }
  destruct (str_in (rp_unique p) key) eqn:Hu.
  - eapply follows_mono; [apply IH; [exact Hp|done]|]. unfold plan_size. cbn. intros _ p' (Hp' & Hs & _).
    split_and!; [done|lia|lia|]. intros _ Hnil. by rewrite Hnil in Hu.
  - apply asks_then; [done|]. intros now. apply asks_then; [done|]. intros cached.
    eapply follows_mono; [apply IH; [|done]|].
    + destruct Hp as [Hp Hnd]. destruct cached; cbn.
      * split; [|done]. intros i' Hi'. destruct (Hp i' Hi') as (Ha & k & Hk' & Hku). split; [done|]. exists k. cbn. set_solver.
      * split; cbn.
        -- intros i' [Hi'| ->%list_elem_of_singleton]%elem_of_app.
           ++ destruct (Hp i' Hi') as (Ha & k & Hk' & Hku). split; [done|]. exists k. set_solver.
           ++ split; [apply Hin; set_solver|]. exists key. set_solver.
        -- apply NoDup_app. split; [done|]. split; [|apply NoDup_singleton].
           intros i' Hi' ->%list_elem_of_singleton. destruct (Hp i Hi') as (_ & k & Hk' & Hku).
           rewrite Hk in Hk'. injection Hk' as <-. by apply str_in_spec in Hku; rewrite Hu in Hku.
    + unfold plan_size. destruct cached; cbn; rewrite ?length_app; cbn; intros _ p' (Hp' & Hs & _);
        (split_and!; [done|lia|lia|lia]).
Qed.

Lemma risk_filter_length (pending : list NativeToolInvocation) :
  sum_list (map (fun r => length (List.filter (fun i => (risk_rank (risk_of i) =? risk_rank r)%N) pending)) [R0; R1; R2; R3; R4])
  = length pending.
Proof.
  induction pending as [|i pending IH]; [done|]. cbn [map sum_list sum_list_with length List.filter risk_rank] in *. unfold id in *.
  destruct (risk_of i); cbn [risk_rank N.eqb Pos.eqb length]; lia.
Qed.

Lemma risk_groups_length pending : length (concat (risk_groups pending)) = length pending.
Proof.
  etransitivity; [|apply risk_filter_length]. unfold risk_groups.
  induction [R0; R1; R2; R3; R4] as [|r l IH]; [done|]. cbn [map List.filter sum_list].
  case_bool_decide as Hnil; cbn [negb concat]; [by rewrite Hnil, IH|]. by rewrite length_app, IH.
Qed.

Lemma risk_groups_elem pending group : group ∈ risk_groups pending ->
  (forall i, i ∈ group -> i ∈ pending) /\ (NoDup pending -> NoDup group).
Proof.
  intros [(r & -> & _)%list_elem_of_fmap _]%elem_of_filterb. split.
  - intros i Hi. by apply elem_of_filterb in Hi as [? _].
  - intros Hnd. apply NoDup_ListNoDup, List.NoDup_filter. by apply NoDup_ListNoDup.
Qed.

Lemma keep_reads_follows past session group answer n results metrics :
  follows asks_planned past (keep_reads session group answer n results metrics) (fun _ r =>
    length (fst r) = (length results + length group)%nat).
Proof.
  revert past n results metrics. induction group as [|i group IH]; intros past n results metrics; cbn [keep_reads].
  { cbn. lia. }
  apply follows_mbind, follows_lift. intros result _. apply asks_then; [done|]. intros [].
  eapply follows_mono; [apply IH|]. cbn. intros _ r ->. rewrite length_app. cbn. lia.
Qed.

Lemma read_groups_follows past run_id session groups results metrics :
  session ∈ ir_targets request ->
  (forall group, group ∈ groups -> NoDup group /\ forall i, i ∈ group -> reads_only i /\ exists plan, plan_for request = Ok plan /\ i ∈ plan) ->
  follows asks_planned past (read_groups run_id session groups results metrics) (fun _ r =>
    length (fst r) = (length results + length (concat groups))%nat).
Proof.
  intros Hsession. revert past results metrics. induction groups as [|g rest IH]; intros past results metrics Hg; cbn [read_groups].
  { cbn. lia. }
  apply asks_then.
  { destruct (Hg g ltac:(set_solver)) as [Hnd Hall]. split.
    - apply Forall_map, Forall_forall. intros i Hi. destruct (Hall i Hi). by split_and!.
    - apply NoDup_fmap_2; [|done]. intros x y [= ->]. done. }
  intros answer. apply follows_mbind. eapply follows_mono; [apply keep_reads_follows|]. intros past' kept Hkept.
  eapply follows_mono; [apply IH; intros; apply Hg; set_solver|]. cbn. intros _ r ->. rewrite Hkept, length_app. lia.
Qed.

Lemma incident_reads_follows past run_id session plan metrics :
  session ∈ ir_targets request -> plan_for request = Ok plan ->
  follows asks_planned past (incident_reads run_id session plan metrics) (fun _ r =>
    (1 <= length (fst r) <= length plan)%nat).
Proof.
  intros Hsession Hplan. destruct (plan_for_reads request plan Hplan) as ([rest ->] & Hreads & _).
  unfold incident_reads. apply follows_mbind. eapply follows_mono.
  { apply (gather_follows session (InvSystemInfo :: rest)); [|done]. split; [intros i Hi; by apply elem_of_nil in Hi|constructor]. }
  intros past' p ([Hp Hnd] & Hs & Hpos). specialize (Hpos ltac:(eexists; reflexivity) eq_refl).
  eapply follows_mono; [apply read_groups_follows; [done|]|].
  - intros group Hg. destruct (risk_groups_elem _ _ Hg) as [Hin Hndg]. split; [by apply Hndg|]. intros i Hi.
    destruct (Hp i (Hin i Hi)) as [Hall _]. rewrite Forall_forall in Hreads. split; [by apply Hreads|]. eauto.
  - intros ? r Hr. cbv beta in Hr. rewrite risk_groups_length in Hr. rewrite Hr. unfold plan_size in Hs, Hpos. cbn in Hs, Hpos |- *. lia.
Qed.

(** *** The evidence *)
Definition from_tool (targets : list Uuid) (item : IncidentEvidence) : Prop :=
  ie_target_id item ∈ targets /\ starts_with (ie_source item) (lit "tool.") = true.

Lemma collect_follows past target results :
  follows asks_planned past (collect_evidence target results) (fun _ evidence =>
    length evidence = length results /\ Forall (from_tool [target]) evidence).
Proof.
  revert past. induction results as [|r rest IH]; intros past; cbn [collect_evidence].
  { split; [done|constructor]. }
  apply asks_then; [done|]. intros id. apply follows_mbind.
  eapply follows_mono; [apply IH|]. intros past' evidence [Hl Hf]. split; [cbn; by rewrite Hl|]. constructor; [|done].
  split; [set_solver|]. cbn [ie_source]. apply starts_with_app.
Qed.

Lemma investigate_follows past run_id targets metrics :
  (forall t, t ∈ targets -> t ∈ ir_targets request) ->
  follows asks_planned past (investigate request run_id targets metrics) (fun _ r =>
    Forall (from_tool targets) (fst r) /\ (length (fst r) <= MAX_TOOL_CALLS_PER_TARGET * length targets)%nat /\
    (targets <> [] -> fst r <> [])).
Proof.
  revert past metrics. induction targets as [|t targets IH]; intros past metrics Hin; cbn [investigate].
  { split_and!; [constructor|cbn; lia|done]. }
  apply follows_mbind, follows_lift. intros plan Hplan. apply follows_mbind, follows_lift.
  intros [] Hlen%reject_if_ok%Nat.ltb_ge. apply follows_mbind.
  eapply follows_mono; [apply incident_reads_follows; [apply Hin; set_solver|done]|]. intros past1 read Hread. cbv beta in Hread.
  apply follows_mbind. eapply follows_mono; [apply collect_follows|]. intros past2 evidence [Hl Hf].
  apply follows_mbind. eapply follows_mono; [apply IH; intros; apply Hin; set_solver|].
  intros past3 others (Ho & Hol & _). cbn [fst snd mret proc_ret follows]. cbn -[MAX_TOOL_CALLS_PER_TARGET Nat.mul]. split_and!.
  - apply Forall_app. split; [eapply Forall_impl; [exact Hf|]|eapply Forall_impl; [exact Ho|]];
      intros item [Ht Hs]; (split; [set_solver|done]).
  - rewrite length_app. cbn [length]. rewrite Nat.mul_succ_r. lia.
  - intros _ Hnil. apply app_eq_nil in Hnil as [-> _]. cbn in Hl. lia.
Qed.

(** The incident an investigation ends with. *)
Lemma incident_run_follows durable hash_values :
  follows asks_planned [] (incident_run durable hash_values request) (fun _ i =>
    validate_incident_request request = Ok tt /\
    exists run_id evidence metrics t1 t2 t3 t4 duration,
      i = drafted_incident request run_id evidence metrics
            (investigation_timeline t1 t2 t3 t4 (rc_code (fst (fst (diagnose (ir_pack request) evidence))))) duration /\
      Forall (from_tool (ir_targets request)) evidence /\
      (length evidence <= MAX_TOOL_CALLS_PER_TARGET * length (ir_targets request))%nat /\ evidence <> []).
Proof.
  unfold incident_run. apply follows_mbind, follows_lift. intros [] Hvalid. apply follows_mbind. intros s.
  destruct (reject_if _ _) as [[]|e]; cbn [follows]; [|done].
  apply asks_then; [done|]. intros started. apply asks_then; [done|]. intros run_id.
  apply asks_then; [done|]. intros t1. apply asks_then; [done|]. intros t2.
  apply follows_mbind. eapply follows_mono; [by apply investigate_follows|]. intros past' [evidence metrics] (Hf & Hl & Hne).
  cbn [fst] in Hf, Hl, Hne.
  apply asks_then; [done|]. intros t3. apply asks_then; [done|]. intros t4. apply asks_then; [done|]. intros ended.
  assert (Hempty : ir_targets request <> []).
  { intros Hnil. unfold validate_incident_request in Hvalid. apply reject_if_ok in Hvalid.
    rewrite !orb_false_iff, bool_decide_eq_false in Hvalid. by destruct Hvalid as [[[[[[[[[[? _] _] _] _] _] _] _] _] _] _]. }
  assert (Hpost : validate_incident_request request = Ok tt /\ exists run_id0 evidence0 metrics0 u1 u2 u3 u4 duration,
    drafted_incident request run_id evidence metrics
      (investigation_timeline t1 t2 t3 t4 (rc_code (fst (fst (diagnose (ir_pack request) evidence))))) (ended - started)
    = drafted_incident request run_id0 evidence0 metrics0
      (investigation_timeline u1 u2 u3 u4 (rc_code (fst (fst (diagnose (ir_pack request) evidence0))))) duration /\
    Forall (from_tool (ir_targets request)) evidence0 /\
    (length evidence0 <= MAX_TOOL_CALLS_PER_TARGET * length (ir_targets request))%nat /\ evidence0 <> []).
  { split; [done|]. exists run_id, evidence, metrics, t1, t2, t3, t4, (ended - started)%N. split_and!; try done. by apply Hne. }
  intros s'. case_bool_decide; cbn [negb]; [|done]. unfold incident_save. destruct durable; cbn [follows].
  - intros saved. cbn [snd]. destruct saved; exact Hpost || exact I.
  - exact Hpost.
Qed.
End Investigation.

(** ** What is saved of an incident *)

(** *** Comparisons *)
Lemma dedup_sorted l :
  StronglySorted (fun a b => cv_target_id a <= cv_target_id b)%N l ->
  StronglySorted (fun a b => cv_target_id a < cv_target_id b)%N (dedup_targets l) /\
  forall v, v ∈ dedup_targets l -> v ∈ l.
Proof.
  induction 1 as [|v l Hl [IH Hin] Hv]; cbn [dedup_targets]; [split; [constructor|done]|].
  rewrite Forall_forall in Hv. destruct (dedup_targets l) as [|w rest] eqn:Hd.
  { split; [repeat constructor|set_solver]. }
  apply StronglySorted_inv in IH as [Hrest Hw]. rewrite Forall_forall in Hw.
  assert (Hvw : (cv_target_id v <= cv_target_id w)%N) by (apply Hv, Hin; set_solver).
  destruct (cv_target_id v =? cv_target_id w)%N eqn:E; breflect.
  - split; [|set_solver]. constructor; [done|]. apply Forall_forall. intros x Hx. rewrite E. by apply Hw.
  - split; [|set_solver]. constructor; [by constructor; [|apply Forall_forall]|].
    apply Forall_forall. intros x [->|Hx]%elem_of_cons; [lia|]. specialize (Hw x Hx). lia.
Qed.

Lemma sorted_targets_nodup l :
  StronglySorted (fun a b => cv_target_id a < cv_target_id b)%N l -> NoDup (map cv_target_id l).
Proof.
  induction 1 as [|v l _ IH Hv]; [constructor|]. constructor; [|done].
  intros (x & Hx & Hin)%list_elem_of_fmap. rewrite Forall_forall in Hv. specialize (Hv x Hin). cbn in Hv, Hx. lia.
Qed.

Lemma comparison_targets targets entry c :
  NoDup targets -> (forall v, v ∈ snd entry -> cv_target_id v ∈ targets) -> comparison_of targets entry = Some c ->
  exact_targets (map cv_target_id (co_values c)) = exact_targets targets /\ co_dimension c = fst entry.
Proof.
  intros Hnd Hin. unfold comparison_of. destruct (length _ =? length targets)%nat eqn:Hlen; cbn [negb]; [|done].
  intros [= <-]. cbn [co_values co_dimension]. split; [|done]. apply Nat.eqb_eq in Hlen.
  destruct (dedup_sorted _ (sort_by_key_sorted cv_target_id (snd entry))) as [Hs Helem].
  apply sorted_targets_nodup in Hs. set (l := dedup_targets _) in *.
  assert (Hperm : map cv_target_id l ≡ₚ targets).
  { apply submseteq_length_Permutation; [|rewrite length_map; lia]. apply NoDup_submseteq; [done|].
    intros t (v & -> & Hv)%list_elem_of_fmap. apply Hin. apply Helem in Hv. by rewrite sort_by_key_perm in Hv. }
  unfold exact_targets. apply set_eq. intros t. rewrite !elem_of_list_to_set. by rewrite Hperm.
Qed.

Section Comparisons.
Context `{IncidentExternals}.

Lemma signal_dimension item dimension signal : comparison_signal item = Some (dimension, signal) -> dimension <> [].
Proof.
  unfold comparison_signal. destruct (tr_data _) as [[d|disks|svc|d|d|d|d|d|d|d]|]; cbn; try done;
    try (intros [= <- _]; done).
  unfold diagnostic_comparison. repeat case_match; try done; intros [= <- _]; done.
Qed.

Lemma signals_elem evidence m dimension values :
  foldl add_signal m evidence !! dimension = Some values ->
  (forall v, v ∈ values -> (exists old, m !! dimension = Some old /\ v ∈ old) \/
     exists item, item ∈ evidence /\ cv_target_id v = ie_target_id item) /\
  (m !! dimension <> None \/ dimension <> []).
Proof.
  revert m. induction evidence as [|item evidence IH]; intros m; cbn [foldl].
  { intros Hd. split; [eauto|]. left. by rewrite Hd. }
  intros Hd. apply IH in Hd as [Hv Hne]. unfold add_signal in Hv, Hne.
  destruct (comparison_signal item) as [[d sig]|] eqn:Hs.
  2: { split; [|done]. intros v Hin. destruct (Hv v Hin) as [?|(x & Hx & ?)]; [by left|right; exists x; set_solver]. }
  split.
  - intros v Hin. destruct (Hv v Hin) as [(old & Hold & Hvo)|(x & Hx & ?)]; [|right; exists x; set_solver].
    apply lookup_insert_Some in Hold as [[-> <-]|[_ Hold]]; [|left; eauto].
    apply elem_of_app in Hvo as [Hvo| ->%list_elem_of_singleton].
    + destruct (m !! dimension) as [old|]; cbn in Hvo; [left; eauto|by apply elem_of_nil in Hvo].
    + right. exists item. cbn. set_solver.
  - destruct Hne as [Hne|Hne]; [|by right]. destruct (decide (d = dimension)) as [<-|Hdd].
    + right. by eapply signal_dimension.
    + left. by rewrite lookup_insert_ne in Hne.
Qed.

Lemma compared_targets targets evidence c :
  NoDup targets -> (forall item, item ∈ evidence -> ie_target_id item ∈ targets) ->
  c ∈ compare_targets targets evidence ->
  co_dimension c <> [] /\ exact_targets (map cv_target_id (co_values c)) = exact_targets targets.
Proof.
  intros Hnd Hev. unfold compare_targets. destruct (_ <? 2)%nat; [by intros ?%elem_of_nil|].
  rewrite sort_by_perm. intros ([dimension values] & Hin & Hc)%list_elem_of_omap. apply elem_of_map_to_list in Hin.
  apply signals_elem in Hin as [Hv [Hne|Hne]]; [by rewrite lookup_empty in Hne|].
  destruct (comparison_targets targets (dimension, values) c Hnd) as [Ht Hd]; [|done|by rewrite Hd].
  cbn. intros v Hvin. destruct (Hv v Hvin) as [(old & Hold & _)|(item & Hi & ->)]; [by rewrite lookup_empty in Hold|by apply Hev].
Qed.
End Comparisons.

(** *** What an investigation saves *)

(** The bounds that the check of a saved comparison makes on what hosts answer. *)
Definition short_signals (comparisons : list IncidentComparison) : Prop :=
  forall c, c ∈ comparisons -> (blen (co_dimension c) <= 128)%N /\
    forall v, v ∈ co_values c -> (blen (cv_signal v) <= 256)%N.

Lemma validated_targets request :
  validate_incident_request request = Ok tt ->
  ir_targets request <> [] /\ (length (ir_targets request) <= INCIDENT_MAX_TARGETS)%nat /\
  size (exact_targets (ir_targets request)) = length (ir_targets request) /\ NoDup (ir_targets request) /\
  (length (ir_dependencies request) <= 8)%nat.
Proof.
  unfold validate_incident_request. rewrite reject_if_ok.
  rewrite !orb_false_iff, !bool_decide_eq_false, !Nat.ltb_ge, !negb_false_iff, Nat.eqb_eq.
  intros ((((((((((? & ?) & Hsize) & _) & _) & _) & ?) & _) & _) & _) & _). split_and!; try done.
  by apply size_nodup.
Qed.

Section Saved.
Context `{Externals, IncidentExternals}.

(** What the check of a record says of its evidence and of its comparisons. *)
Lemma loaded_short i :
  in_evidence_references i = map evidence_reference (in_evidence i) ->
  valid_persisted_incident (persisted_incident i) = true ->
  NoDup (map ie_id (in_evidence i)) /\ short_signals (in_comparisons i).
Proof.
  intros Hrefs. unfold valid_persisted_incident. rewrite !andb_true_iff. intros [[[_ Hev] Hcomp] _]. split.
  - unfold valid_evidence in Hev. cbn [persisted_incident pn_evidence_references] in Hev. rewrite Hrefs, map_map in Hev.
    assert (Hmap : map (fun x => er_id (evidence_reference x)) (in_evidence i) = map ie_id (in_evidence i)) by (by apply map_ext).
    rewrite !andb_true_iff, Hmap in Hev. destruct Hev as [[[_ Hsize%Nat.eqb_eq] _] _]. apply size_nodup.
    by rewrite Hsize, !length_map.
  - intros c Hc. rewrite Forallb_forall in Hcomp. specialize (Hcomp c Hc). unfold valid_comparison in Hcomp.
    rewrite !andb_true_iff in Hcomp. destruct Hcomp as [[[_ Hd%N.leb_le] _] Hv]. split; [exact Hd|].
    intros v Hin. rewrite Forallb_forall in Hv. by apply N.leb_le, (Hv v Hin).
Qed.

Lemma drafted_loads request run_id evidence metrics t1 t2 t3 t4 duration :
  validate_incident_request request = Ok tt -> Forall (from_tool (ir_targets request)) evidence ->
  (length evidence <= MAX_TOOL_CALLS_PER_TARGET * length (ir_targets request))%nat -> evidence <> [] ->
  let i := drafted_incident request run_id evidence metrics
             (investigation_timeline t1 t2 t3 t4 (rc_code (fst (fst (diagnose (ir_pack request) evidence))))) duration in
  valid_persisted_incident (persisted_incident i) = true <->
  NoDup (map ie_id (in_evidence i)) /\ short_signals (in_comparisons i).
Proof.
  intros Hvalid Hfrom Hlen Hne i. split.
  { apply loaded_short. unfold i, drafted_incident. by destruct (diagnose _ _) as [[? ?] ?]. }
  intros [Hids Hshort]. revert Hids Hshort. unfold i. clear i. destruct (validated_targets request Hvalid) as (Ht & Hmax & Hsize & Hnd & _).
  destruct (diagnose_cites (ir_pack request) evidence) as (Hcite & Hcited & Hconf). unfold drafted_incident.
  destruct (diagnose (ir_pack request) evidence) as [[cause hyps] fix_]. cbn [fst] in *. cbv zeta.
  cbn [in_evidence in_comparisons]. intros Hids Hshort. rewrite Forall_forall in Hfrom.
  unfold valid_persisted_incident. cbn [persisted_incident pn_schema_version pn_targets pn_timeline pn_model pn_root_cause
    pn_comparisons pn_change_set in_targets in_timeline in_model in_root_cause in_comparisons in_change_set].
  assert (Hev : valid_evidence (persisted_incident
    (drafted_incident request run_id evidence metrics (investigation_timeline t1 t2 t3 t4 (rc_code cause)) duration)) = true ->
    True) by done. clear Hev.
  rewrite !andb_true_iff. split_and!; try done.
  - by apply negb_true_iff, bool_decide_eq_false.
  - by apply Nat.leb_le.
  - by apply Nat.eqb_eq.
  - unfold valid_evidence. cbn [persisted_incident pn_root_cause pn_evidence_references pn_targets in_root_cause
      in_evidence_references in_targets]. rewrite map_map.
    assert (Hmap : map (fun x => er_id (evidence_reference x)) evidence = map ie_id evidence) by (by apply map_ext).
    rewrite !andb_true_iff, Hmap. split_and!.
    + apply negb_true_iff, bool_decide_eq_false. by apply Hcite.
    + apply Forallb_forall. intros id Hid. apply bool_decide_eq_true, elem_of_list_to_set.
      destruct (Hcited id Hid) as (item & Hi & <-). by apply list_elem_of_fmap_2.
    + apply Nat.eqb_eq. rewrite size_list_to_set, !length_map; [done|done].
    + rewrite length_map. by apply Nat.leb_le.
    + apply Forallb_forall. intros x (item & -> & Hi)%list_elem_of_fmap. destruct (Hfrom item Hi) as [Htarget Hsource].
      apply andb_true_iff. split; [|done]. by apply bool_decide_eq_true, elem_of_list_to_set.
  - apply Forallb_forall. intros c Hc. destruct (Hshort c Hc) as [Hd Hs].
    destruct (compared_targets (ir_targets request) evidence c Hnd) as [Hdne Htargets]; [|exact Hc|].
    { intros item Hi. by destruct (Hfrom item Hi). }
    unfold valid_comparison. rewrite !andb_true_iff. split_and!.
    + by destruct (co_dimension c).
    + by apply N.leb_le.
    + by apply bool_decide_eq_true.
    + apply Forallb_forall. intros v Hv. by apply N.leb_le, Hs.
Qed.

(** C27. An investigation only reads, and it is known when what it leaves can be read
    back.  Whatever the tools, the cache, the clock and the disk answer, and however it
    ends, it asks the tools for nothing but the reads of its plan, on its targets, under
    no authority, none twice in a batch; it never asks the change sets, the fleets or the
    file.  When it ends with an incident - about ten targets at most, with no more than
    twenty pieces of evidence for each - that incident passes the check made of every
    record when the file is loaded exactly when the identifiers drawn for its evidence
    differ and no signal that was compared is longer than the check allows: an
    investigation does not bound what hosts answer, and one long signal makes its record,
    and so the file, unreadable. *)
Theorem investigated_incident_loads durable hash_values request {E : Type}
    (answer : E -> forall q, IcAnswer q * E) save s env o s' env' log :
  run answer save (incident_run durable hash_values request) s env [] = (o, s', env', log) ->
  (forall l1 q a l2, log = l1 ++ EvAsked q a :: l2 -> asks_planned request l1 q) /\
  forall i, o = Some (Ok i) ->
    (length (in_targets i) <= 10)%nat /\ (length (in_evidence i) <= 20 * length (in_targets i))%nat /\
    (valid_persisted_incident (persisted_incident i) = true <->
     NoDup (map ie_id (in_evidence i)) /\ short_signals (in_comparisons i)).
Proof.
  intros Hrun. split.
  - destruct (follows_run_calls answer save _ _ _ _ _ _ _ _ _ _ _ (incident_run_follows request durable hash_values) Hrun)
      as (evs & -> & Hcalls). exact Hcalls.
  - intros i ->. destruct (follows_run answer save _ _ _ _ _ _ _ _ _ _ _ (incident_run_follows request durable hash_values) Hrun)
      as (evs & -> & Hvalid & run_id & evidence & metrics & t1 & t2 & t3 & t4 & duration & -> & Hfrom & Hlen & Hne).
    pose proof (drafted_loads request run_id evidence metrics t1 t2 t3 t4 duration Hvalid Hfrom Hlen Hne) as Hloads.
    destruct (validated_targets request Hvalid) as (_ & Hmax & _ & _ & _). revert Hloads. unfold drafted_incident.
    destruct (diagnose (ir_pack request) evidence) as [[cause hyps] fix_]. cbn [in_targets in_evidence]. intros Hloads.
    split_and!; [exact Hmax|exact Hlen|exact Hloads].
Qed.
End Saved.

(** ** Concrete runs *)
#[local] Existing Instance quoting_externals.
#[local] Instance sample_incident_externals : IncidentExternals := {
  json_to_string v := match v with JBool b => bool_str b | _ => lit "value" end;
  is_alphanumeric := is_ascii_alphanumeric }.

Definition map_values (m : gmap Uuid Incident) : list Incident := map snd (map_to_list m).

(** A disk of which so many percent are used. *)
Definition used_disk (percent : N) : DiskUsage :=
  {| du_mount := lit "/"; du_used_bytes := percent; du_total_bytes := 100;
     du_usage_percent := f64_bits (f64_of_N percent) |}.
Definition read_result (invocation : NativeToolInvocation) : ToolResult :=
  {| tr_invocation_id := 0; tr_tool_name := invocation_name invocation; tr_success := true; tr_summary := lit "read";
     tr_data := match invocation with InvSystemDisk => Some (TDSystemDisk [used_disk 97]) | _ => None end;
     tr_error_code := None; tr_warnings := []; tr_started_at_epoch_ms := 10; tr_duration_ms := 1; tr_truncated := false;
     tr_cancelled := false; tr_untrusted_remote_data := true |}.

(** Fresh identifiers, an empty cache, tools that read a full disk, and a change set
    in a given state. *)
Definition ic_answer (state : ExecutionState) (next : N) (q : IcQuery) : IcAnswer q :=
  match q return IcAnswer q with
  | IcNow => next
  | IcNewId => next
  | IcLoad => Ok []
  | IcCacheGet _ _ _ => None
  | IcCachePut _ _ _ _ => tt
  | IcReads requests => fun n =>
      match requests !! n with Some r => Ok (read_result (nr_invocation r)) | None => Err InvalidOperation end
  | IcChangeGet id => Ok (with_execution state (sample_change id 4))
  | IcFleetGet _ => Err InvalidOperation
  end.
Definition ic_answering (state : ExecutionState) (next : N) (q : IcQuery) : IcAnswer q * N :=
  (ic_answer state next q, (next + 1)%N).
Definition ic_saving (saved : AppResult unit) (next : N) (records : list PersistedIncident) : AppResult unit * N :=
  (saved, next).

Definition disk_request (targets : list Uuid) : IncidentRequest :=
  {| ir_id := 1; ir_pack := PackDisk; ir_severity := Sev2; ir_targets := targets; ir_symptoms := [lit "full"];
     ir_host := None; ir_port := None; ir_url := None; ir_service := None; ir_container := None;
     ir_config_path := None; ir_upstream_host := None; ir_upstream_port := None; ir_dependencies := [] |}.

(** An operation alone, the disk failing or not. *)
Definition alone {A} (saved : AppResult unit) (state : ExecutionState)
    (p : proc (gmap Uuid Incident) (list PersistedIncident) IcQuery IcAnswer A) (s : gmap Uuid Incident) :=
  run (ic_answering state) (ic_saving saved) p s 100%N [].
Definition state_of {X E L} (o : option (AppResult X) * gmap Uuid Incident * E * L) : gmap Uuid Incident :=
  snd (fst (fst o)).
Definition investigated :=
  alone (Ok tt) NotStarted (incident_run true map_values (disk_request [4; 5]%N)) ∅.
Definition stored : gmap Uuid Incident := state_of investigated.

(** What the incident says, in short. *)
Definition incident_stage (s : gmap Uuid Incident) : option (IncidentStatus * str * str * nat) :=
  (fun i => (in_status i, rc_code (in_root_cause i), iv_status_code (in_verification i), length (in_timeline i)))
    <$> s !! 1%N.

Example full_disks_are_found :
  incident_stage stored = Some (IncAwaitingApproval, lit "filesystem-capacity-exhausted", lit "not-started", 4%nat) /\
  (in_comparisons <$> stored !! 1%N)
  = Some [{| co_dimension := lit "disk-max-percent"; co_drift := false;
             co_values := map (fun t => {| cv_target_id := t; cv_signal := lit "97.0" |}) [4; 5]%N |}].
Proof. split; vm_compute; reflexivity. Qed.

Lemma investigated_incident_loads_witness :
  exists i, fst (fst (fst investigated)) = Some (Ok i) /\
    valid_persisted_incident (persisted_incident i) = true.
Proof.
  assert (Hi : exists i, fst (fst (fst investigated)) = Some (Ok i) /\
    bool_decide (NoDup (map ie_id (in_evidence i))) = true /\
    forallb (fun c => (blen (co_dimension c) <=? 128)%N && forallb (fun v => blen (cv_signal v) <=? 256)%N (co_values c))
      (in_comparisons i) = true).
  { eexists. split; [vm_compute; reflexivity|]. split; vm_compute; reflexivity. }
  destruct Hi as (i & Hi & Hids%bool_decide_eq_true & Hshort). exists i. split; [exact Hi|].
  assert (Hrun : investigated = (Some (Ok i), stored, snd (fst investigated), snd investigated)).
  { unfold stored, state_of. rewrite <- Hi. by destruct investigated as [[[? ?] ?] ?]. }
  apply (investigated_incident_loads true map_values (disk_request [4; 5]%N) (ic_answering NotStarted) (ic_saving (Ok tt))
           ∅ 100%N _ _ _ _ Hrun); [done|]. split; [exact Hids|].
  intros c Hc. rewrite Forallb_forall in Hshort. specialize (Hshort c Hc). cbv beta in Hshort.
  apply andb_true_iff in Hshort as [Hd%N.leb_le Hv]. split; [exact Hd|].
  intros v Hin. rewrite Forallb_forall in Hv. by apply N.leb_le, (Hv v Hin).
Defined.

(** The evidence of that investigation. *)
Definition disk_evidence (id : Uuid) (percent : N) : IncidentEvidence :=
  {| ie_id := id; ie_target_id := 4; ie_source := lit "tool.system.disk"; ie_summary := lit "read";
     ie_result := {| tr_invocation_id := 0; tr_tool_name := SystemDisk; tr_success := true; tr_summary := lit "read";
       tr_data := Some (TDSystemDisk [used_disk percent]); tr_error_code := None; tr_warnings := [];
       tr_started_at_epoch_ms := 10; tr_duration_ms := 1; tr_truncated := false; tr_cancelled := false;
       tr_untrusted_remote_data := true |} |}.

Lemma diagnosis_rests_on_evidence_witness :
  let cause := fst (fst (diagnose PackDisk [disk_evidence 8 40; disk_evidence 9 95])) in
  rc_code cause = lit "filesystem-capacity-exhausted" /\ rc_evidence_ids cause = [9%N] /\
  exists item, item ∈ [disk_evidence 8 40; disk_evidence 9 95] /\ ie_id item = 9%N.
Proof.
  set (evidence := [disk_evidence 8 40; disk_evidence 9 95]). cbv zeta.
  split; [vm_compute; reflexivity|]. split; [vm_compute; reflexivity|].
  destruct (diagnose PackDisk evidence) as [[cause hyps] fix_] eqn:Hd.
  apply (diagnosis_rests_on_evidence PackDisk evidence cause hyps fix_ Hd).
  assert (Hc : cause = fst (fst (diagnose PackDisk evidence))) by (by rewrite Hd). rewrite Hc.
  apply list_elem_of_lookup_2 with 0%nat. vm_compute. reflexivity.
Defined.

(** *** Interleaved calls *)
Definition linked (version : N) : IncidentChangeSet :=
  {| ic_kind := lit "single"; ic_id := 7; ic_version := version; ic_exact_target_ids := [5; 4]%N |}.
Definition ic_call (state : ExecutionState) (t : nat) (c : IcCall) : list (act IcQuery IcAnswer IcCall) :=
  ActCall t c :: imap (fun n _ => ActTurn t (ic_answer state (200 + N.of_nat n)) (Ok tt)) (repeat tt 120).
Definition ic_pool : Type := pool (gmap Uuid Incident) (list PersistedIncident) IcQuery IcAnswer IcCall IcReply.
Definition ic_played (s : gmap Uuid Incident) (l : list (act IcQuery IcAnswer IcCall)) : ic_pool :=
  foldl (play (incident_body true map_values) (fun _ _ => True)) (pool_init s []) l.

(** An incident that is investigated, linked to a change set, and refreshed when that
    is committed. *)
Definition repaired :=
  ic_played ∅ (ic_call NotStarted 0 (CaRun (disk_request [4; 5]%N)) ++ ic_call NotStarted 1 (CaAttach 1 (linked 1))
               ++ ic_call Committed 2 (CaRefresh 1)).

Lemma resolved_incidents_are_verified_witness :
  incident_stage (pl_state repaired)
  = Some (IncResolved, lit "filesystem-capacity-exhausted", lit "succeeded", 6%nat) /\
  exists t p, pl_threads repaired !! t = Some (CaRefresh 1, p) /\ success_told (thread_log t (pl_log repaired)).
Proof.
  assert (Hs : incident_stage (pl_state repaired)
    = Some (IncResolved, lit "filesystem-capacity-exhausted", lit "succeeded", 6%nat)) by (vm_compute; reflexivity).
  split; [exact Hs|].
  assert (Hi : exists i, pl_state repaired !! 1%N = Some i /\ in_recovery_state i = IncLive /\ in_status i = IncResolved).
  { eexists. split; [vm_compute; reflexivity|]. split; reflexivity. }
  destruct Hi as (i & Hi & Hlive & Hst).
  apply (resolved_incidents_are_verified true map_values (fun _ _ => True) [] repaired 1 i (plays_steps _ _ _ _) Hi Hlive).
  right. by left.
Defined.

(** An incident that was investigated, and what is done with it later. *)
Definition ic_continued (w : ic_pool) (l : list (act IcQuery IcAnswer IcCall)) : ic_pool :=
  foldl (play (incident_body true map_values) (fun _ _ => True)) w l.
Definition reported : ic_pool := ic_played ∅ (ic_call NotStarted 0 (CaRun (disk_request [4; 5]%N))).
Definition handled : ic_pool :=
  ic_continued reported (ic_call NotStarted 1 (CaAttach 1 (linked 1)) ++ ic_call Committed 2 (CaRefresh 1)
    ++ ic_call Committed 3 (CaHandoff 1 {| hr_owner := lit "ops"; hr_summary := lit "watch it" |})
    ++ ic_call Committed 4 (CaClose 1 {| cr_code := ClosureResolved; cr_summary := lit "done" |})).

(** The calls of a pool, all of one kind. *)
Lemma calls_are (ok : IcCall -> bool) (w : ic_pool) :
  forallb (fun x => ok (fst (snd x))) (map_to_list (pl_threads w)) = true ->
  forall t c p, pl_threads w !! t = Some (c, p) -> ok c = true.
Proof. rewrite Forallb_forall. intros Hall t c p Ht. apply elem_of_map_to_list in Ht. exact (Hall _ Ht). Qed.
Definition of_incident_1 (c : IcCall) : bool :=
  match c with CaLoad => false | CaRun request => (ir_id request =? 1)%N | _ => true end.

Lemma incident_record_is_kept_witness :
  incident_stage (pl_state handled)
  = Some (IncClosed, lit "filesystem-capacity-exhausted", lit "succeeded", 8%nat) /\
  exists i0, pl_state reported !! 1%N = Some i0 /\ exists i, pl_state handled !! 1%N = Some i /\ kept i0 i.
Proof.
  split; [vm_compute; reflexivity|].
  assert (Hi : exists i0, pl_state reported !! 1%N = Some i0) by (eexists; vm_compute; reflexivity).
  destruct Hi as [i0 Hi]. exists i0. split; [exact Hi|].
  destruct (incident_record_is_kept true map_values (fun m => reflexivity _) (fun _ _ => True) [] reported handled 1 i0
              (plays_steps _ _ _ _) (plays_steps _ _ _ _) Hi) as [Hkept|(w1 & w2 & i1 & _ & Hstep & H2 & Hi1 & _ & Hdrop)].
  - intros t p Ht. by apply (calls_are of_incident_1 handled) in Ht; [|vm_compute; reflexivity].
  - exact Hkept.
  - exfalso. destruct Hdrop as (t & request & p & Ht & Hnew & _).
    destruct (later_call _ _ _ _ _ _ _ (rtc_l _ _ _ _ Hstep H2) Ht) as [p' Ht'].
    apply (calls_are of_incident_1 handled) in Ht'; [|vm_compute; reflexivity]. apply N.eqb_eq in Ht'. congruence.
Defined.

(** *** Recovery *)

(** What is read back and saved again is what was read, unless it was active; and
    recovery settles it: what it saves, a second recovery leaves as it is. *)
Lemma recovery_is_settled now now' r :
  (pn_schema_version r = INCIDENT_SCHEMA_VERSION -> was_active (pn_status r) = false ->
     persisted_incident (recovered_incident now r) = r) /\
  persisted_incident (recovered_incident now' (persisted_incident (recovered_incident now r)))
  = persisted_incident (recovered_incident now r) /\
  (valid_persisted_incident r = true ->
     was_active (pn_status r) = false \/ (length (pn_timeline r) < MAX_INCIDENT_TIMELINE_EVENTS)%nat ->
     valid_persisted_incident (persisted_incident (recovered_incident now r)) = true).
Proof.
  split_and!.
  - destruct r as [v ? ? ? ? st ? ? ? ? ? ? ? ? ? owner ? ?]. cbn. intros -> Ha. unfold persisted_incident, recovered_incident.
    cbn. rewrite Ha. by destruct owner.
  - unfold persisted_incident, recovered_incident. cbn. destruct (pn_handoff_owner r); cbn;
      destruct (was_active (pn_status r)) eqn:Ha; cbn; rewrite ?Ha; done.
  - set (r' := persisted_incident (recovered_incident now r)).
    assert (He : valid_evidence r' = valid_evidence r) by done. unfold valid_persisted_incident. rewrite He. subst r'. cbn.
    intros Hv Hlen. rewrite !andb_true_iff in Hv. rewrite !andb_true_iff.
    destruct Hv as [[[[[[[[[[[_ ?] ?] ?] Ht] Hl] ?] ?] ?] ?] ?] ?]. split_and!; try done; try tauto.
    + destruct (was_active _); [|exact Ht]. by destruct (pn_timeline r).
    + destruct (was_active _); [|exact Hl]. rewrite length_app. cbn [length]. apply Nat.leb_le.
      unfold MAX_INCIDENT_TIMELINE_EVENTS in *. destruct Hlen; [done|lia].
Qed.

(** *** Where the service departs from what it means *)

(** A closed incident is opened again by a refresh, which looks at neither its status
    nor its closure. *)
Example closed_incident_reopens :
  incident_stage (pl_state (ic_played (pl_state handled) (ic_call Executing 9 (CaRefresh 1))))
  = Some (IncExecuting, lit "filesystem-capacity-exhausted", lit "pending", 9%nat).
Proof. vm_compute. reflexivity. Qed.

(** A new change set inherits the verification of the one it replaces: the incident is
    closed as resolved although the new one was never executed. *)
Definition other_link : IncidentChangeSet :=
  {| ic_kind := lit "single"; ic_id := 8; ic_version := 1; ic_exact_target_ids := [5; 4]%N |}.
Example new_change_set_is_closed_unexecuted :
  let s := pl_state (ic_played (pl_state repaired) (ic_call NotStarted 0 (CaAttach 1 other_link)
             ++ ic_call NotStarted 1 (CaClose 1 {| cr_code := ClosureResolved; cr_summary := lit "done" |}))) in
  incident_stage s = Some (IncClosed, lit "filesystem-capacity-exhausted", lit "succeeded", 8%nat) /\
  (in_change_set <$> s !! 1%N) = Some (Some other_link).
Proof. split; vm_compute; reflexivity. Qed.

(** What a change set did while a refresh waited for it is recorded of the change set
    that was attached meanwhile. *)
Definition ic_turn (state : ExecutionState) (t : nat) : act IcQuery IcAnswer IcCall := ActTurn t (ic_answer state 300) (Ok tt).
Example refresh_credits_another_change_set :
  let s := pl_state (ic_played stored (ic_call NotStarted 0 (CaAttach 1 (linked 1))
             ++ [ActCall 1 (CaRefresh 1); ic_turn Committed 1; ic_turn Committed 1]
             ++ ic_call NotStarted 2 (CaAttach 1 other_link) ++ repeat (ic_turn NotStarted 1) 4)) in
  incident_stage s = Some (IncResolved, lit "filesystem-capacity-exhausted", lit "succeeded", 7%nat) /\
  (in_change_set <$> s !! 1%N) = Some (Some other_link).
Proof. split; vm_compute; reflexivity. Qed.

(** The targets of a link are compared as sets, and those of a record are also counted:
    a link that names a target twice is accepted, and its record does not load. *)
Example repeated_targets_do_not_load :
  let link := {| ic_kind := lit "single"; ic_id := 7; ic_version := 1; ic_exact_target_ids := [5; 4; 4]%N |} in
  let s := pl_state (ic_played stored (ic_call NotStarted 0 (CaAttach 1 link))) in
  (in_change_set <$> s !! 1%N) = Some (Some link) /\
  (valid_persisted_incident ∘ persisted_incident <$> s !! 1%N) = Some false.
Proof. split; vm_compute; reflexivity. Qed.

(** Nothing bounds a timeline as it grows: the event after the five hundred and
    twelfth, of a handoff say, makes a record that does not load. *)
Lemma long_timelines_do_not_load now owner summary i :
  length (in_timeline i) = MAX_INCIDENT_TIMELINE_EVENTS ->
  valid_persisted_incident (persisted_incident (handed_off now owner summary i)) = false.
Proof.
  intros Hl. apply not_true_is_false. unfold valid_persisted_incident. rewrite !andb_true_iff.
  intros (((((((_ & Hlen) & _) & _) & _) & _) & _) & _). cbn [handed_off update_incident persisted_incident pn_timeline in_timeline] in Hlen.
  apply Nat.leb_le in Hlen. rewrite length_app, Hl in Hlen. cbn in Hlen. unfold MAX_INCIDENT_TIMELINE_EVENTS in Hlen. lia.
Qed.

(** An investigation whose save fails is an error, and its incident is there: the same
    request cannot be made again. *)
Example unsaved_incident_stays :
  let first := alone (Err Storage) NotStarted (incident_run true map_values (disk_request [4]%N)) ∅ in
  fst (fst (fst first)) = Some (Err Storage) /\
  incident_stage (state_of first)
  = Some (IncAwaitingApproval, lit "filesystem-capacity-exhausted", lit "not-started", 4%nat) /\
  fst (fst (fst (alone (Ok tt) NotStarted (incident_run true map_values (disk_request [4]%N)) (state_of first))))
  = Some (Err InvalidOperation).
Proof. split_and!; vm_compute; reflexivity. Qed.
