(* ===== verification/Catalog.v ===== *)
(** * The catalog of servers (storage/catalog_database.rs, groups/service.rs, profiles/service.rs)

    Groups and profiles live in two tables of one database.  [GroupService] and
    [ProfileService] share one lock, which every operation holds from its first
    statement to its last, so that an operation is a transaction of the [Db] monad:
    over the tables, and over an oracle that says of each statement whether it
    fails.  A [replace_*] is one SQL transaction: it refuses a repeated primary key
    and leaves the table as it was when it fails.  Identifiers and times are
    arguments.  The text that a row is stored as (serde_json, uuid) is not modelled. *)
From S2P Require Import Prelude Str Errors RunState Externals.

(** ** Data (domain/group.rs, domain/profile.rs) *)
Record HostGroup := {
  hg_id : Uuid; hg_name : str; hg_sort_order : Z; hg_collapsed : bool; hg_created_at : str; hg_updated_at : str }.

Inductive OsDistribution :=
  | OsUbuntu | OsDebian | OsFedora | OsCentos | OsRedHat | OsRockyLinux | OsAlmaLinux | OsArchLinux | OsManjaro
  | OsOpenSuse | OsAlpineLinux | OsAmazonLinux | OsOracleLinux | OsLinuxMint | OsKaliLinux | OsGentoo | OsVoidLinux
  | OsNixOs | OsMacOs | OsFreeBsd | OsLinux.

Inductive AuthMethod := AuthPassword | AuthPrivateKey.
Inductive KeySource := KeyFile (path : str) | KeyVault (key_id : Uuid).

Record BastionRoute := {
  br_bastion_id : Uuid; br_provider : str; br_asset_id : str; br_account_id : option str; br_api_base_url : option str;
  br_org_id : option str; br_cli_path : option str; br_cluster_name : option str; br_insecure : bool }.
#[export] Instance bastion_route_eq_dec : EqDecision BastionRoute.
Proof. solve_decision. Defined.
Inductive ConnectionRoute := RouteDirect | RouteJumpHost (profile_id : Uuid) | RouteBastion (b : BastionRoute).
#[export] Instance connection_route_eq_dec : EqDecision ConnectionRoute.
Proof. solve_decision. Defined.

Record ServerProfile := {
  sp_id : Uuid; sp_name : str; sp_host : str; sp_port : N; sp_username : str; sp_group_id : option Uuid;
  sp_auth_method : AuthMethod; sp_key_source : option KeySource; sp_connection_route : ConnectionRoute;
  sp_sort_order : Z; sp_created_at : str; sp_updated_at : str; sp_last_connected_at : option str;
  sp_os_distribution : option OsDistribution }.

Record CreateProfileRequest := {
  cp_name : str; cp_host : str; cp_port : N; cp_username : str; cp_group_id : option Uuid;
  cp_auth_method : AuthMethod; cp_key_source : option KeySource; cp_connection_route : ConnectionRoute }.
Record UpdateProfileRequest := {
  up_id : Uuid; up_name : str; up_host : str; up_port : N; up_username : str; up_group_id : option Uuid;
  up_auth_method : AuthMethod; up_key_source : option KeySource; up_connection_route : ConnectionRoute;
  up_sort_order : Z }.
Record UpdateGroupRequest := { ug_id : Uuid; ug_name : str; ug_sort_order : Z; ug_collapsed : bool }.

(** [i32] *)
Definition I32_MAX : Z := 2147483647.
Definition i32_try_from (n : nat) : option Z := opt_filter (fun z => (z <=? I32_MAX)%Z) (Some (Z.of_nat n)).

(** [max().unwrap_or(-1).saturating_add(1)] *)
Definition order_after (orders : list Z) : Z :=
  Z.min (match orders with [] => -1 | z :: rest => foldl Z.max z rest end + 1) I32_MAX.

(** ** The database *)
Record CatalogDb := { cd_groups : list HostGroup; cd_profiles : list ServerProfile }.

(** Of each statement to come: whether it fails. *)
Abbreviation Oracle := (list bool) (only parsing).
Definition Db (A : Type) : Type := Oracle -> CatalogDb -> AppResult A * Oracle * CatalogDb.
#[export] Instance db_ret : MRet Db := fun _ a o db => (Ok a, o, db).
#[export] Instance db_bind : MBind Db := fun _ _ f p o db =>
  match p o db with
  | (Ok a, o', db') => f a o' db'
  | (Err e, o', db') => (Err e, o', db')
  end.
Definition db_lift {A} (r : AppResult A) : Db A := fun o db => (r, o, db).

(** A statement: [Storage] when it fails, else what it does with the tables. *)
Definition statement {A} (f : CatalogDb -> AppResult (A * CatalogDb)) : Db A := fun o db =>
  if default false (head o) then (Err Storage, tail o, db)
  else match f db with
       | Ok (a, db') => (Ok a, tail o, db')
       | Err e => (Err e, tail o, db)
       end.

Section Catalog.
Context `{Externals}.

(** [ORDER BY sort_order, id], where [id] is the text of a [Uuid]. *)
Definition row_leb {R} (order : R -> Z) (id : R -> Uuid) (a b : R) : bool :=
  (order a <? order b)%Z
  || ((order a =? order b)%Z && str_leb (uuid_display (id a)) (uuid_display (id b))).

Definition list_groups : Db (list HostGroup) :=
  statement (fun db => Ok (sort_by (row_leb hg_sort_order hg_id) (cd_groups db), db)).

(** [parse_port] refuses a row with port 0. *)
Definition list_profiles : Db (list ServerProfile) :=
  statement (fun db =>
    reject_if (existsb (fun p => sp_port p =? 0)%N (cd_profiles db)) Storage ;;
    Ok (sort_by (row_leb sp_sort_order sp_id) (cd_profiles db), db)).

Definition distinct_ids {R} (id : R -> Uuid) (rows : list R) : bool := bool_decide (NoDup (map id rows)).

Definition replace_groups (groups : list HostGroup) : Db unit :=
  statement (fun db =>
    reject_if (negb (distinct_ids hg_id groups)) Storage ;;
    Ok (tt, {| cd_groups := groups; cd_profiles := cd_profiles db |})).
Definition replace_profiles (profiles : list ServerProfile) : Db unit :=
  statement (fun db =>
    reject_if (negb (distinct_ids sp_id profiles)) Storage ;;
    Ok (tt, {| cd_groups := cd_groups db; cd_profiles := profiles |})).

(** ** Groups (groups/service.rs) *)
Definition validate_group_name (name : str) : AppResult str :=
  let trimmed := trim name in
  reject_if (is_empty trimmed || (50 <? length trimmed)%nat) InvalidGroup ;; Ok trimmed.

Definition by_order {R} (order : R -> Z) (rows : list R) : list R :=
  sort_by (fun a b => order a <=? order b)%Z rows.

Definition groups_list : Db (list HostGroup) :=
  groups ← list_groups; mret (by_order hg_sort_order groups).

Definition new_group (id : Uuid) (now name : str) (groups : list HostGroup) : HostGroup :=
  {| hg_id := id; hg_name := name; hg_sort_order := order_after (map hg_sort_order groups); hg_collapsed := false;
     hg_created_at := now; hg_updated_at := now |}.

Definition groups_create (id : Uuid) (now name : str) : Db HostGroup :=
  name ← db_lift (validate_group_name name);
  groups ← list_groups;
  let group := new_group id now name groups in
  replace_groups (groups ++ [group]) ;;
  mret group.

(** The validated names, each once, in the order they are met. *)
Fixpoint validated_names (names : list str) (seen : list str) : AppResult (list str) :=
  match names with
  | [] => Ok []
  | name :: rest =>
      name ← validate_group_name name;
      if str_in seen name then validated_names rest seen
      else others ← validated_names rest (name :: seen); Ok (name :: others)
  end.

(** What the loop of [ensure_groups_by_name] holds. *)
Record Ensured := { en_ids : gmap str Uuid; en_groups : list HostGroup; en_created : nat }.

Definition ensure_one (fresh : nat -> Uuid * str) (e : Ensured) (name : str) : Ensured :=
  match en_ids e !! name with
  | Some _ => e
  | None =>
      let '(id, now) := fresh (en_created e) in
      {| en_ids := <[name := id]> (en_ids e); en_groups := en_groups e ++ [new_group id now name (en_groups e)];
         en_created := S (en_created e) |}
  end.

Definition ensure_groups_by_name (fresh : nat -> Uuid * str) (names : list str) : Db (gmap str Uuid * nat) :=
  validated ← db_lift (validated_names names []);
  groups ← list_groups;
  let ids := foldl (fun m g => <[hg_name g := hg_id g]> m) (∅ : gmap str Uuid) groups in
  let e := foldl (ensure_one fresh) {| en_ids := ids; en_groups := groups; en_created := 0 |} validated in
  (if (0 <? en_created e)%nat then replace_groups (en_groups e) else mret tt) ;;
  mret (en_ids e, en_created e).

Definition updated_group (now name : str) (request : UpdateGroupRequest) (g : HostGroup) : HostGroup :=
  {| hg_id := hg_id g; hg_name := name; hg_sort_order := ug_sort_order request; hg_collapsed := ug_collapsed request;
     hg_created_at := hg_created_at g; hg_updated_at := now |}.

(** [iter_mut().find(..)]: the first row that satisfies the test, changed. *)
Fixpoint change_first {R} (test : R -> bool) (f : R -> R) (rows : list R) : option (R * list R) :=
  match rows with
  | [] => None
  | r :: rest =>
      if test r then Some (f r, f r :: rest)
      else match change_first test f rest with Some (r', rest') => Some (r', r :: rest') | None => None end
  end.

Definition groups_update (now : str) (request : UpdateGroupRequest) : Db HostGroup :=
  name ← db_lift (validate_group_name (ug_name request));
  db_lift (reject_if (ug_sort_order request <? 0)%Z InvalidGroup) ;;
  groups ← list_groups;
  changed ← db_lift (ok_or (change_first (fun g => hg_id g =? ug_id request)%N (updated_group now name request) groups)
                       GroupNotFound);
  replace_groups (snd changed) ;;
  mret (fst changed).

Definition ungrouped (now : str) (id : Uuid) (p : ServerProfile) : ServerProfile :=
  if bool_decide (sp_group_id p = Some id) then
    {| sp_id := sp_id p; sp_name := sp_name p; sp_host := sp_host p; sp_port := sp_port p; sp_username := sp_username p;
       sp_group_id := None; sp_auth_method := sp_auth_method p; sp_key_source := sp_key_source p;
       sp_connection_route := sp_connection_route p; sp_sort_order := sp_sort_order p; sp_created_at := sp_created_at p;
       sp_updated_at := now; sp_last_connected_at := sp_last_connected_at p; sp_os_distribution := sp_os_distribution p |}
  else p.

Definition groups_delete (now : str) (id : Uuid) : Db unit :=
  groups ← list_groups;
  let kept := List.filter (fun g => negb (hg_id g =? id)%N) groups in
  db_lift (reject_if (length kept =? length groups)%nat GroupNotFound) ;;
  profiles ← list_profiles;
  replace_profiles (map (ungrouped now id) profiles) ;;
  replace_groups kept.

Definition group_at (now : str) (order : Z) (g : HostGroup) : HostGroup :=
  {| hg_id := hg_id g; hg_name := hg_name g; hg_sort_order := order; hg_collapsed := hg_collapsed g;
     hg_created_at := hg_created_at g; hg_updated_at := now |}.

(** The loop of [reorder]: the n-th identifier gets order n. *)
Fixpoint reorder_rows {R} (same : R -> Uuid -> bool) (place : Z -> R -> R) (e : AppError) (n : nat) (ids : list Uuid)
    (rows : list R) : AppResult (list R) :=
  match ids with
  | [] => Ok rows
  | id :: rest =>
      order ← ok_or (i32_try_from n) e;
      changed ← ok_or (change_first (fun r => same r id) (place order) rows) e;
      reorder_rows same place e (S n) rest (snd changed)
  end.

Definition same_ids (ids expected : list Uuid) : bool :=
  (length ids =? length expected)%nat
  && bool_decide ((list_to_set ids : gset Uuid) = list_to_set expected).

Definition groups_reorder (now : str) (ordered_ids : list Uuid) : Db (list HostGroup) :=
  groups ← list_groups;
  db_lift (reject_if (negb (same_ids ordered_ids (map hg_id groups))) InvalidGroup) ;;
  placed ← db_lift (reorder_rows (fun g id => hg_id g =? id)%N (group_at now) InvalidGroup 0 ordered_ids groups);
  let sorted := by_order hg_sort_order placed in
  replace_groups sorted ;;
  mret sorted.

(** ** Profiles (profiles/service.rs) *)
Definition validate_fields (name host : str) (port : N) (username : str) : AppResult (str * str * str) :=
  let name := trim name in
  let host := trim host in
  let username := trim username in
  reject_if (is_empty name || (100 <? length name)%nat || is_empty host || (255 <? length host)%nat
             || existsb is_whitespace host || (port =? 0)%N || is_empty username || (255 <? length username)%nat)
    InvalidProfile ;;
  Ok (name, host, username).

Definition validate_auth (auth : AuthMethod) (key_source : option KeySource) : AppResult (option KeySource) :=
  match auth, key_source with
  | AuthPassword, None => Ok None
  | AuthPrivateKey, Some (KeyFile path) =>
      let path := trim path in
      reject_if (is_empty path || (4096 <? blen path)%N || contains_char path 0) InvalidProfile ;;
      Ok (Some (KeyFile path))
  | AuthPrivateKey, Some (KeyVault id) => Ok (Some (KeyVault id))
  | _, _ => Err InvalidProfile
  end.

Definition is_direct (r : ConnectionRoute) : bool := match r with RouteDirect => true | _ => false end.
Definition jumps_to (id : Uuid) (p : ServerProfile) : bool :=
  match sp_connection_route p with RouteJumpHost used => (used =? id)%N | _ => false end.

Definition validate_route (route : ConnectionRoute) (current : option Uuid) (profiles : list ServerProfile) :
    AppResult unit :=
  match route with
  | RouteDirect => Ok tt
  | RouteBastion b => reject_if (is_empty (trim (br_provider b))) InvalidProfile
  | RouteJumpHost id =>
      reject_if (bool_decide (Some id = current)) InvalidJumpHost ;;
      jump ← ok_or (List.find (fun p => sp_id p =? id)%N profiles) InvalidJumpHost;
      reject_if (negb (bool_decide (sp_connection_route jump = RouteDirect))) InvalidJumpHost
  end.

Definition profile_order_after (profiles : list ServerProfile) (group : option Uuid) : Z :=
  order_after (map sp_sort_order (List.filter (fun p => bool_decide (sp_group_id p = group)) profiles)).

Definition validate_group (group : option Uuid) : Db unit :=
  match group with
  | None => mret tt
  | Some id =>
      groups ← list_groups;
      db_lift (reject_if (negb (existsb (fun g => hg_id g =? id)%N groups)) InvalidGroup)
  end.

Definition profiles_list : Db (list ServerProfile) :=
  profiles ← list_profiles; mret (by_order sp_sort_order profiles).

Definition profiles_get (id : Uuid) : Db ServerProfile :=
  profiles ← list_profiles; db_lift (ok_or (List.find (fun p => sp_id p =? id)%N profiles) ProfileNotFound).

Definition profiles_create (id : Uuid) (now : str) (r : CreateProfileRequest) : Db ServerProfile :=
  fields ← db_lift (validate_fields (cp_name r) (cp_host r) (cp_port r) (cp_username r));
  key_source ← db_lift (validate_auth (cp_auth_method r) (cp_key_source r));
  validate_group (cp_group_id r) ;;
  profiles ← list_profiles;
  db_lift (validate_route (cp_connection_route r) None profiles) ;;
  let '(name, host, username) := fields in
  let profile :=
    {| sp_id := id; sp_name := name; sp_host := host; sp_port := cp_port r; sp_username := username;
       sp_group_id := cp_group_id r; sp_auth_method := cp_auth_method r; sp_key_source := key_source;
       sp_connection_route := cp_connection_route r; sp_sort_order := profile_order_after profiles (cp_group_id r);
       sp_created_at := now; sp_updated_at := now; sp_last_connected_at := None; sp_os_distribution := None |} in
  replace_profiles (profiles ++ [profile]) ;;
  mret profile.

Definition updated_profile (now : str) (fields : str * str * str) (key_source : option KeySource) (order : Z)
    (endpoint_changed : bool) (r : UpdateProfileRequest) (p : ServerProfile) : ServerProfile :=
  let '(name, host, username) := fields in
  {| sp_id := sp_id p; sp_name := name; sp_host := host; sp_port := up_port r; sp_username := username;
     sp_group_id := up_group_id r; sp_auth_method := up_auth_method r; sp_key_source := key_source;
     sp_connection_route := up_connection_route r; sp_sort_order := order; sp_created_at := sp_created_at p;
     sp_updated_at := now; sp_last_connected_at := sp_last_connected_at p;
     sp_os_distribution := if endpoint_changed then None else sp_os_distribution p |}.

Definition profiles_update (now : str) (r : UpdateProfileRequest) : Db ServerProfile :=
  fields ← db_lift (validate_fields (up_name r) (up_host r) (up_port r) (up_username r));
  key_source ← db_lift (validate_auth (up_auth_method r) (up_key_source r));
  db_lift (reject_if (up_sort_order r <? 0)%Z InvalidProfile) ;;
  validate_group (up_group_id r) ;;
  profiles ← list_profiles;
  db_lift (validate_route (up_connection_route r) (Some (up_id r)) profiles) ;;
  db_lift (reject_if (negb (is_direct (up_connection_route r)) && existsb (jumps_to (up_id r)) profiles)
             ProfileInUseAsJumpHost) ;;
  existing ← db_lift (ok_or (List.find (fun p => sp_id p =? up_id r)%N profiles) ProfileNotFound);
  let endpoint_changed :=
    negb (str_eqb (sp_host existing) (snd (fst fields))) || negb (sp_port existing =? up_port r)%N in
  let order := if bool_decide (sp_group_id existing = up_group_id r) then up_sort_order r
               else profile_order_after profiles (up_group_id r) in
  changed ← db_lift (ok_or (change_first (fun p => sp_id p =? up_id r)%N
                              (updated_profile now fields key_source order endpoint_changed r) profiles) ProfileNotFound);
  replace_profiles (snd changed) ;;
  mret (fst changed).

Definition profiles_delete (id : Uuid) : Db unit :=
  profiles ← list_profiles;
  db_lift (reject_if (existsb (jumps_to id) profiles) ProfileInUseAsJumpHost) ;;
  let kept := List.filter (fun p => negb (sp_id p =? id)%N) profiles in
  db_lift (reject_if (length kept =? length profiles)%nat ProfileNotFound) ;;
  replace_profiles kept.

Definition connected_profile (now : str) (detected : option OsDistribution) (p : ServerProfile) : ServerProfile :=
  {| sp_id := sp_id p; sp_name := sp_name p; sp_host := sp_host p; sp_port := sp_port p; sp_username := sp_username p;
     sp_group_id := sp_group_id p; sp_auth_method := sp_auth_method p; sp_key_source := sp_key_source p;
     sp_connection_route := sp_connection_route p; sp_sort_order := sp_sort_order p; sp_created_at := sp_created_at p;
     sp_updated_at := now; sp_last_connected_at := Some now;
     sp_os_distribution := match sp_os_distribution p with None => detected | known => known end |}.

Definition mark_connected (now : str) (id : Uuid) (detected : option OsDistribution) : Db ServerProfile :=
  profiles ← list_profiles;
  changed ← db_lift (ok_or (change_first (fun p => sp_id p =? id)%N (connected_profile now detected) profiles)
                       ProfileNotFound);
  replace_profiles (snd changed) ;;
  mret (fst changed).

Definition profile_at (now : str) (order : Z) (p : ServerProfile) : ServerProfile :=
  {| sp_id := sp_id p; sp_name := sp_name p; sp_host := sp_host p; sp_port := sp_port p; sp_username := sp_username p;
     sp_group_id := sp_group_id p; sp_auth_method := sp_auth_method p; sp_key_source := sp_key_source p;
     sp_connection_route := sp_connection_route p; sp_sort_order := order; sp_created_at := sp_created_at p;
     sp_updated_at := now; sp_last_connected_at := sp_last_connected_at p; sp_os_distribution := sp_os_distribution p |}.

Definition in_group (group : option Uuid) (p : ServerProfile) : bool := bool_decide (sp_group_id p = group).

Definition profiles_reorder (now : str) (group : option Uuid) (ordered_ids : list Uuid) : Db (list ServerProfile) :=
  validate_group group ;;
  profiles ← list_profiles;
  db_lift (reject_if (negb (same_ids ordered_ids (map sp_id (List.filter (in_group group) profiles)))) InvalidProfile) ;;
  placed ← db_lift (reorder_rows (fun p id => (sp_id p =? id)%N && in_group group p) (profile_at now) InvalidProfile
                      0 ordered_ids profiles);
  let sorted := by_order sp_sort_order placed in
  replace_profiles sorted ;;
  mret sorted.

(** *** Import *)
Record ImportUpsertRequest := {
  iu_name : str; iu_host : str; iu_port : N; iu_username : str; iu_group_id : option Uuid; iu_auth_method : AuthMethod;
  iu_key_source : option KeySource; iu_source_id : option str; iu_jump_source_id : option str; iu_password : option str }.
Record ImportUpsertOutcome := { io_profile_id : Uuid; io_created : bool; io_password : option str }.
Record ImportUpsertBatchResult := {
  ib_outcomes : list ImportUpsertOutcome; ib_profiles_created : nat; ib_profiles_updated : nat; ib_jumps_wired : nat }.

(** [PreparedImportUpsert]: the same fields, validated. *)
Definition prepare_import (item : ImportUpsertRequest) : AppResult ImportUpsertRequest :=
  fields ← validate_fields (iu_name item) (iu_host item) (iu_port item) (iu_username item);
  key_source ← validate_auth (iu_auth_method item) (iu_key_source item);
  let '(name, host, username) := fields in
  Ok {| iu_name := name; iu_host := host; iu_port := iu_port item; iu_username := username;
        iu_group_id := iu_group_id item; iu_auth_method := iu_auth_method item; iu_key_source := key_source;
        iu_source_id := iu_source_id item; iu_jump_source_id := iu_jump_source_id item;
        iu_password := iu_password item |}.

Definition same_endpoint (item : ImportUpsertRequest) (p : ServerProfile) : bool :=
  str_eqb (sp_host p) (iu_host item) && (sp_port p =? iu_port item)%N && str_eqb (sp_username p) (iu_username item).

(** A profile of the item's fields, with what is kept of another. *)
Definition imported_profile (id : Uuid) (route : ConnectionRoute) (order : Z) (created updated : str)
    (connected : option str) (os : option OsDistribution) (item : ImportUpsertRequest) : ServerProfile :=
  {| sp_id := id; sp_name := iu_name item; sp_host := iu_host item; sp_port := iu_port item;
     sp_username := iu_username item; sp_group_id := iu_group_id item; sp_auth_method := iu_auth_method item;
     sp_key_source := iu_key_source item; sp_connection_route := route; sp_sort_order := order;
     sp_created_at := created; sp_updated_at := updated; sp_last_connected_at := connected; sp_os_distribution := os |}.

(** What the first loop of [upsert_import_batch] holds. *)
Record ImportState := {
  is_profiles : list ServerProfile; is_outcomes : list ImportUpsertOutcome; is_created : nat; is_updated : nat;
  is_sources : gmap str Uuid; is_jumps : list (Uuid * str) }.

Definition import_one (fresh : nat -> Uuid * str) (s : ImportState) (item : ImportUpsertRequest) : ImportState :=
  let profiles := is_profiles s in
  let '(id, now) := fresh (length (is_outcomes s)) in
  let '(profile, matched, profiles') :=
    match List.find (same_endpoint item) profiles with
    | Some existing =>
        let order := if bool_decide (sp_group_id existing = iu_group_id item) then sp_sort_order existing
                     else profile_order_after profiles (iu_group_id item) in
        let updated := imported_profile (sp_id existing) (sp_connection_route existing) order (sp_created_at existing) now
                         (sp_last_connected_at existing) (sp_os_distribution existing) item in
        (updated, true, default profiles (snd <$> change_first (same_endpoint item) (fun _ => updated) profiles))
    | None =>
        let created := imported_profile id RouteDirect (profile_order_after profiles (iu_group_id item)) now now None None item in
        (created, false, profiles ++ [created])
    end in
  {| is_profiles := profiles';
     is_outcomes := is_outcomes s ++ [{| io_profile_id := sp_id profile; io_created := negb matched;
                                         io_password := iu_password item |}];
     is_created := if matched : bool then is_created s else S (is_created s);
     is_updated := if matched : bool then S (is_updated s) else is_updated s;
     is_sources := match iu_source_id item with Some source => <[source := sp_id profile]> (is_sources s) | None => is_sources s end;
     is_jumps := match iu_jump_source_id item with Some jump => is_jumps s ++ [(sp_id profile, jump)] | None => is_jumps s end |}.

Definition wired (now : str) (jump : Uuid) (p : ServerProfile) : ServerProfile :=
  {| sp_id := sp_id p; sp_name := sp_name p; sp_host := sp_host p; sp_port := sp_port p; sp_username := sp_username p;
     sp_group_id := sp_group_id p; sp_auth_method := sp_auth_method p; sp_key_source := sp_key_source p;
     sp_connection_route := RouteJumpHost jump; sp_sort_order := sp_sort_order p; sp_created_at := sp_created_at p;
     sp_updated_at := now; sp_last_connected_at := sp_last_connected_at p; sp_os_distribution := sp_os_distribution p |}.

(** One turn of the second loop: the profiles, and how many jumps are wired. *)
Definition wire_jump (now : nat -> str) (sources : gmap str Uuid) (s : list ServerProfile * nat) (pending : Uuid * str) :
    list ServerProfile * nat :=
  let '(profiles, count) := s in
  let '(id, source) := pending in
  match sources !! source with
  | None => s
  | Some jump_id =>
      match List.find (fun p => sp_id p =? jump_id)%N profiles with
      | None => s
      | Some jump =>
          if negb (is_direct (sp_connection_route jump)) then s
          else if existsb (jumps_to id) profiles then s
          else match List.find (fun p => sp_id p =? id)%N profiles with
               | None => s
               | Some profile =>
                   if jumps_to jump_id profile then (profiles, S count)
                   else (default profiles (snd <$> change_first (fun p => sp_id p =? id)%N (wired (now count) jump_id) profiles),
                         S count)
               end
      end
  end.

Definition upsert_import_batch (fresh : nat -> Uuid * str) (now : nat -> str) (items : list ImportUpsertRequest) :
    Db ImportUpsertBatchResult :=
  if bool_decide (items = []) then
    mret {| ib_outcomes := []; ib_profiles_created := 0; ib_profiles_updated := 0; ib_jumps_wired := 0 |}
  else
    prepared ← db_lift (try_map prepare_import items);
    groups ← list_groups;
    db_lift (reject_if (existsb (fun item => match iu_group_id item with
                                             | Some id => negb (existsb (fun g => hg_id g =? id)%N groups)
                                             | None => false
                                             end) prepared) InvalidGroup) ;;
    profiles ← list_profiles;
    let s := foldl (import_one fresh)
               {| is_profiles := profiles; is_outcomes := []; is_created := 0; is_updated := 0; is_sources := ∅;
                  is_jumps := [] |} prepared in
    let '(wired, jumps) := foldl (wire_jump now (is_sources s)) (is_profiles s, 0%nat) (is_jumps s) in
    replace_profiles wired ;;
    mret {| ib_outcomes := is_outcomes s; ib_profiles_created := is_created s; ib_profiles_updated := is_updated s;
            ib_jumps_wired := jumps |}.
End Catalog.

(** ** The services as a whole *)
Inductive CatalogCall :=
  | CcGroups | CcCreateGroup (id : Uuid) (now name : str) | CcEnsureGroups (fresh : nat -> Uuid * str) (names : list str)
  | CcUpdateGroup (now : str) (request : UpdateGroupRequest) | CcDeleteGroup (now : str) (id : Uuid)
  | CcReorderGroups (now : str) (ids : list Uuid)
  | CcProfiles | CcGetProfile (id : Uuid) | CcCreateProfile (id : Uuid) (now : str) (request : CreateProfileRequest)
  | CcImport (fresh : nat -> Uuid * str) (now : nat -> str) (items : list ImportUpsertRequest)
  | CcUpdateProfile (now : str) (request : UpdateProfileRequest) | CcDeleteProfile (id : Uuid)
  | CcConnected (now : str) (id : Uuid) (detected : option OsDistribution)
  | CcReorderProfiles (now : str) (group : option Uuid) (ids : list Uuid).

Definition catalog_call `{Externals} (c : CatalogCall) : Db unit :=
  match c with
  | CcGroups => groups_list ;; mret tt
  | CcCreateGroup id now name => groups_create id now name ;; mret tt
  | CcEnsureGroups fresh names => ensure_groups_by_name fresh names ;; mret tt
  | CcUpdateGroup now request => groups_update now request ;; mret tt
  | CcDeleteGroup now id => groups_delete now id
  | CcReorderGroups now ids => groups_reorder now ids ;; mret tt
  | CcProfiles => profiles_list ;; mret tt
  | CcGetProfile id => profiles_get id ;; mret tt
  | CcCreateProfile id now request => profiles_create id now request ;; mret tt
  | CcImport fresh now items => upsert_import_batch fresh now items ;; mret tt
  | CcUpdateProfile now request => profiles_update now request ;; mret tt
  | CcDeleteProfile id => profiles_delete id
  | CcConnected now id detected => mark_connected now id detected ;; mret tt
  | CcReorderProfiles now group ids => profiles_reorder now group ids ;; mret tt
  end.

(** Calls one after the other, each with the fate of its statements. *)
Definition catalog_after `{Externals} (calls : list (CatalogCall * list bool)) (db : CatalogDb) : CatalogDb :=
  foldl (fun db c => snd (catalog_call (fst c) (snd c) db)) db calls.
