(* ===== verification/CatalogTheorems.v ===== *)
(** * What holds of the catalog of servers

    Whatever statements fail, the operations of the group and profile services keep
    the catalog consistent: identifiers are unique, groups exist, fields are valid,
    and a jump host is reached directly - or is the profile itself, which only an
    import can make it.  A reordering takes exactly the order given. *)
From S2P Require Import Prelude Str Errors RunState Externals Catalog.
From stdpp Require Import sorting.

(** ** Consistency *)

(** What routes depend on. *)
Definition links (profiles : list ServerProfile) : list (Uuid * ConnectionRoute) :=
  map (fun p => (sp_id p, sp_connection_route p)) profiles.
(** A jump host is reached directly; or it is its own jump host, where [self] allows it. *)
Definition jumps_ok (self : Prop) (l : list (Uuid * ConnectionRoute)) : Prop :=
  forall i j, (i, RouteJumpHost j) ∈ l -> (j, RouteDirect) ∈ l \/ (self /\ i = j).

(** A profile that its own validation leaves as it is. *)
Definition fields_ok (p : ServerProfile) : Prop :=
  validate_fields (sp_name p) (sp_host p) (sp_port p) (sp_username p) = Ok (sp_name p, sp_host p, sp_username p) /\
  validate_auth (sp_auth_method p) (sp_key_source p) = Ok (sp_key_source p) /\ (0 <= sp_sort_order p)%Z.
Definition grouped (groups : list HostGroup) (group : option Uuid) : Prop :=
  forall g, group = Some g -> g ∈ map hg_id groups.
Definition profile_ok (groups : list HostGroup) (p : ServerProfile) : Prop :=
  fields_ok p /\ grouped groups (sp_group_id p).
Definition group_ok (g : HostGroup) : Prop :=
  validate_group_name (hg_name g) = Ok (hg_name g) /\ (0 <= hg_sort_order g)%Z.

Record catalog_ok (self : Prop) (db : CatalogDb) : Prop := {
  consistent_group_ids : NoDup (map hg_id (cd_groups db));
  consistent_profile_ids : NoDup (map sp_id (cd_profiles db));
  consistent_groups : Forall group_ok (cd_groups db);
  consistent_profiles : Forall (profile_ok (cd_groups db)) (cd_profiles db);
  consistent_jumps : jumps_ok self (links (cd_profiles db));
}.

Section Consistency.
(** Whether a profile may be its own jump host. *)
Context (self : Prop).
#[local] Abbreviation consistent := (catalog_ok self).
#[local] Abbreviation jumps_fit := (jumps_ok self).

(** ** A logic of transactions

    Whatever the oracle: [Post] of the result, or an error that leaves the tables
    consistent. *)
Definition holds {A} (db : CatalogDb) (p : Db A) (Post : A -> CatalogDb -> Prop) : Prop :=
  forall o, match p o db with
            | (Ok a, _, db') => Post a db'
            | (Err _, _, db') => consistent db'
            end.

Lemma holds_bind {A B} db (p : Db A) (f : A -> Db B) Post :
  holds db p (fun a db' => holds db' (f a) Post) -> holds db (p ≫= f) Post.
Proof.
  intros Hp o. specialize (Hp o). unfold mbind, db_bind. destruct (p o db) as [[[a|e] o'] db']; [apply Hp|done].
Qed.
Lemma holds_lift {A} db (r : AppResult A) (Post : A -> CatalogDb -> Prop) :
  consistent db -> (forall a, r = Ok a -> Post a db) -> holds db (db_lift r) Post.
Proof. intros Hdb HP o. destruct r; cbn; auto. Qed.
Lemma holds_ret {A} db (a : A) (Post : A -> CatalogDb -> Prop) : Post a db -> holds db (mret a) Post.
Proof. by intros HP o. Qed.
Lemma holds_mono {A} db (p : Db A) (Post Post' : A -> CatalogDb -> Prop) :
  holds db p Post -> (forall a db', Post a db' -> Post' a db') -> holds db p Post'.
Proof. intros Hp HP o. specialize (Hp o). destruct (p o db) as [[[a|e] o'] db']; auto. Qed.

Section Statements.
Context `{Externals}.

Lemma holds_list_groups db (Post : list HostGroup -> CatalogDb -> Prop) :
  consistent db -> (forall groups, groups ≡ₚ cd_groups db -> Post groups db) -> holds db list_groups Post.
Proof.
  intros Hdb HP o. unfold list_groups, statement. destruct (default false (head o)); [done|]. apply HP, sort_by_perm.
Qed.
Lemma holds_list_profiles db (Post : list ServerProfile -> CatalogDb -> Prop) :
  consistent db -> (forall profiles, profiles ≡ₚ cd_profiles db -> Post profiles db) -> holds db list_profiles Post.
Proof.
  intros Hdb HP o. unfold list_profiles, statement. destruct (default false (head o)); [done|].
  destruct (reject_if _ _) as [[]|e]; [|done]. apply HP, sort_by_perm.
Qed.
Lemma holds_replace_groups db groups (Post : unit -> CatalogDb -> Prop) :
  consistent db ->
  (NoDup (map hg_id groups) -> Post tt {| cd_groups := groups; cd_profiles := cd_profiles db |}) ->
  holds db (replace_groups groups) Post.
Proof.
  intros Hdb HP o. unfold replace_groups, statement. destruct (default false (head o)); [done|].
  unfold distinct_ids. case_bool_decide; cbn; auto.
Qed.
Lemma holds_replace_profiles db profiles (Post : unit -> CatalogDb -> Prop) :
  consistent db ->
  (NoDup (map sp_id profiles) -> Post tt {| cd_groups := cd_groups db; cd_profiles := profiles |}) ->
  holds db (replace_profiles profiles) Post.
Proof.
  intros Hdb HP o. unfold replace_profiles, statement. destruct (default false (head o)); [done|].
  unfold distinct_ids. case_bool_decide; cbn; auto.
Qed.

Lemma holds_validate_group db group (Post : unit -> CatalogDb -> Prop) :
  consistent db -> (grouped (cd_groups db) group -> Post tt db) -> holds db (validate_group group) Post.
Proof.
  intros Hdb HP. destruct group as [id|]; cbn [validate_group]; [|by apply holds_ret, HP; intros g Hg].
  apply holds_bind, holds_list_groups; [done|]. intros groups Hg. apply holds_lift; [done|].
  intros [] Hr%reject_if_ok%negb_false_iff. apply HP. intros g [= <-].
  apply Existsb_exists in Hr as (x & Hx & <-%N.eqb_eq). rewrite Hg in Hx. by apply list_elem_of_fmap_2.
Qed.
End Statements.

(** ** Tables *)
Lemma change_first_some {R} (test : R -> bool) f rows r rows' :
  change_first test f rows = Some (r, rows') ->
  exists l1 x l2, rows = l1 ++ x :: l2 /\ test x = true /\ (forall y, y ∈ l1 -> test y = false) /\
    r = f x /\ rows' = l1 ++ f x :: l2.
Proof.
  revert rows'. induction rows as [|x rows IH]; intros rows'; cbn; [done|]. destruct (test x) eqn:Hx.
  - intros [= <- <-]. exists [], x, rows. split_and!; try done. intros y Hy. by apply elem_of_nil in Hy.
  - destruct (change_first test f rows) as [[r1 rows1]|]; [|done]. intros [= -> <-].
    destruct (IH rows1 eq_refl) as (l1 & y & l2 & -> & Hy & Hl & -> & ->). exists (x :: l1), y, l2. split_and!; try done.
    intros z [->|Hz]%elem_of_cons; auto.
Qed.

Lemma change_first_none {R} (test : R -> bool) f rows :
  change_first test f rows = None -> forall x, x ∈ rows -> test x = false.
Proof.
  induction rows as [|y rows IH]; cbn; [intros _ x Hx; by apply elem_of_nil in Hx|]. destruct (test y) eqn:Hy; [done|].
  destruct (change_first test f rows) as [[? ?]|]; [done|]. intros _ x [->|Hx]%elem_of_cons; [done|by apply IH].
Qed.

Lemma find_some_elem {R} (test : R -> bool) rows x : List.find test rows = Some x -> x ∈ rows /\ test x = true.
Proof. intros Hx%List.find_some. by rewrite list_elem_of_In. Qed.

Lemma find_split {R} (test : R -> bool) l1 x l2 :
  (forall y, y ∈ l1 -> test y = false) -> test x = true -> List.find test (l1 ++ x :: l2) = Some x.
Proof.
  induction l1 as [|y l1 IH]; intros Hl1 Hx; cbn; [by rewrite Hx|]. rewrite Hl1 by set_solver. apply IH; [set_solver|done].
Qed.

Lemma jumps_perm l l' : l ≡ₚ l' -> jumps_fit l -> jumps_fit l'.
Proof. intros Hp Hl i j Hij. rewrite <- Hp in Hij |- *. by apply Hl. Qed.

Lemma links_perm ps ps' : ps ≡ₚ ps' -> links ps ≡ₚ links ps'.
Proof. apply Permutation_map. Qed.
Lemma links_ids ps : map fst (links ps) = map sp_id ps.
Proof. unfold links. by rewrite map_map. Qed.
Lemma links_elem ps p : p ∈ ps -> (sp_id p, sp_connection_route p) ∈ links ps.
Proof. apply (list_elem_of_fmap_2 (fun p => (sp_id p, sp_connection_route p))). Qed.
Lemma links_inv ps i r : (i, r) ∈ links ps -> exists p, p ∈ ps /\ sp_id p = i /\ sp_connection_route p = r.
Proof. intros (p & [= -> ->] & Hp)%list_elem_of_fmap. eauto. Qed.

(** The route of one profile changed. *)
Lemma jumps_ok_set l1 i r0 r l2 :
  jumps_fit (l1 ++ (i, r0) :: l2) ->
  (r = RouteDirect \/ forall k, (k, RouteJumpHost i) ∉ l1 ++ (i, r0) :: l2) ->
  (forall j, r = RouteJumpHost j -> (j <> i /\ (j, RouteDirect) ∈ l1 ++ (i, r0) :: l2) \/ (self /\ i = j)) ->
  jumps_fit (l1 ++ (i, r) :: l2).
Proof.
  intros Hok Hunused Hr k j. rewrite !elem_of_app, !elem_of_cons. intros Hkj.
  assert (Hcase : (k = i /\ r = RouteJumpHost j) \/ (k, RouteJumpHost j) ∈ l1 ++ (i, r0) :: l2).
  { destruct Hkj as [?|[[= <- <-]|?]]; [right; set_solver|by left|right; set_solver]. }
  assert (Hd : ((j, RouteDirect) ∈ l1 ++ (i, r0) :: l2 /\ (j = i -> r = RouteDirect)) \/ (self /\ k = j)).
  { destruct Hcase as [[-> Hrj]|Hold].
    - destruct (Hr j Hrj) as [[Hne Hin]|?]; [left; by split|by right].
    - destruct (Hok k j Hold) as [Hin|?]; [left|by right]. split; [done|]. intros ->.
      destruct Hunused as [?|Hno]; [done|by destruct (Hno k)]. }
  destruct Hd as [[Hd Hji]|?]; [left|by right]. rewrite elem_of_app, elem_of_cons in Hd.
  destruct Hd as [?|[[= -> _]|?]]; [auto|rewrite Hji by done; auto|auto].
Qed.

Lemma jumps_ok_app l i r :
  jumps_fit l -> (forall j, r = RouteJumpHost j -> (j, RouteDirect) ∈ l) -> jumps_fit (l ++ [(i, r)]).
Proof.
  intros Hl Hr k j. rewrite !elem_of_app, !list_elem_of_singleton. intros [Hkj|[= <- <-]].
  - destruct (Hl k j Hkj); auto.
  - left. left. by apply Hr.
Qed.

(** *** Valid fields *)
Lemma validate_fields_ok name host port username fields :
  validate_fields name host port username = Ok fields ->
  fields = (trim name, trim host, trim username) /\
  validate_fields (trim name) (trim host) port (trim username) = Ok fields /\ (port =? 0)%N = false.
Proof.
  unfold validate_fields. intros (u & Hr & [= <-])%bind_ok. rewrite !trim_idem, Hr. split_and!; [done|done|].
  apply reject_if_ok in Hr. rewrite !orb_false_iff in Hr. tauto.
Qed.
Lemma validate_auth_ok auth source source' :
  validate_auth auth source = Ok source' -> validate_auth auth source' = Ok source'.
Proof.
  destruct auth, source as [[path|id]|]; cbn; try done; try (by intros [= <-]).
  intros (u & Hr & [= <-])%bind_ok. cbn. rewrite trim_idem, Hr. done.
Qed.
Lemma validate_group_name_ok name name' :
  validate_group_name name = Ok name' -> validate_group_name name' = Ok name'.
Proof. unfold validate_group_name. intros (u & Hr & [= <-])%bind_ok. by rewrite trim_idem, Hr. Qed.

Lemma foldl_max_le z l : (z <= foldl Z.max z l)%Z.
Proof. revert z. induction l as [|x l IH]; intros z; cbn; [lia|]. specialize (IH (Z.max z x)). lia. Qed.
Lemma order_after_nonneg orders : Forall (fun z => 0 <= z)%Z orders -> (0 <= order_after orders)%Z.
Proof.
  unfold order_after, I32_MAX. intros Ho. destruct orders as [|z rest]; [lia|].
  apply Forall_cons in Ho as [Hz _]. pose proof (foldl_max_le z rest). lia.
Qed.
Lemma profile_order_nonneg groups profiles group :
  Forall (profile_ok groups) profiles -> (0 <= profile_order_after profiles group)%Z.
Proof.
  intros Hp. apply order_after_nonneg, Forall_map, Forall_forall. intros p [Hin _]%elem_of_filterb.
  rewrite Forall_forall in Hp. by destruct (Hp p Hin) as [(_ & _ & ?) _].
Qed.

(** ** Every operation keeps the catalog consistent *)
Definition keeps_catalog {A} (p : Db A) : Prop := forall db, consistent db -> holds db p (fun _ db' => consistent db').

Lemma holds_ends {A} (p : Db A) : keeps_catalog p -> keeps_catalog (p ;; mret tt).
Proof.
  intros Hp db Hdb. apply holds_bind. eapply holds_mono; [by apply Hp|]. intros a db' Hdb'. by apply holds_ret.
Qed.

Section Operations.
Context `{Externals}.

Lemma saved_profiles db profiles :
  consistent db -> Forall (profile_ok (cd_groups db)) profiles -> jumps_fit (links profiles) ->
  holds db (replace_profiles profiles) (fun _ db' => consistent db').
Proof. intros [] Hp Hj. apply holds_replace_profiles; [done|]. intros Hn. by split. Qed.

Lemma saved_groups db groups :
  consistent db -> Forall group_ok groups ->
  (forall p g, p ∈ cd_profiles db -> sp_group_id p = Some g -> g ∈ map hg_id groups) ->
  holds db (replace_groups groups) (fun _ db' => consistent db').
Proof.
  intros [] Hg Hp. apply holds_replace_groups; [done|]. intros Hn. split; try done. cbn.
  rewrite Forall_forall in consistent_profiles0 |- *. intros p Hin. destruct (consistent_profiles0 p Hin) as [Hf _].
  split; [done|]. intros g. by apply Hp.
Qed.

Lemma grown_groups db groups groups' :
  consistent db -> groups ≡ₚ cd_groups db -> (forall g, g ∈ map hg_id groups -> g ∈ map hg_id groups') ->
  forall p g, p ∈ cd_profiles db -> sp_group_id p = Some g -> g ∈ map hg_id groups'.
Proof.
  intros [] Hg Hin p g Hp Hsome. apply Hin. rewrite Hg. rewrite Forall_forall in consistent_profiles0.
  destruct (consistent_profiles0 p Hp) as [_ Hgr]. by apply Hgr.
Qed.

Lemma listed_groups db groups : consistent db -> groups ≡ₚ cd_groups db -> Forall group_ok groups.
Proof. intros [] ->. done. Qed.
Lemma listed_profiles db profiles :
  consistent db -> profiles ≡ₚ cd_profiles db ->
  Forall (profile_ok (cd_groups db)) profiles /\ jumps_fit (links profiles) /\ NoDup (map sp_id profiles).
Proof.
  intros [] Hp. split_and!; [by rewrite Hp| |by rewrite Hp]. eapply jumps_perm; [|done]. by apply links_perm.
Qed.

Lemma new_group_ok id now name groups :
  Forall group_ok groups -> validate_group_name name = Ok name -> group_ok (new_group id now name groups).
Proof.
  intros Hg Hn. split; [done|]. apply order_after_nonneg, Forall_map. eapply Forall_impl; [exact Hg|]. by intros g [_ ?].
Qed.

(** *** Groups *)
Lemma keeps_groups_list : keeps_catalog groups_list.
Proof. intros db Hdb. apply holds_bind, holds_list_groups; [done|]. intros groups _. by apply holds_ret. Qed.

Lemma keeps_groups_create id now name : keeps_catalog (groups_create id now name).
Proof.
  intros db Hdb. apply holds_bind, holds_lift; [done|]. intros name' Hn. apply holds_bind, holds_list_groups; [done|].
  intros groups Hg. pose proof (listed_groups db groups Hdb Hg) as Hok. apply holds_bind.
  eapply holds_mono; [apply saved_groups; [done| |]|by intros [] db' Hdb'; apply holds_ret].
  - apply Forall_app. split; [done|]. constructor; [|done]. apply new_group_ok; [done|by eapply validate_group_name_ok].
  - eapply grown_groups; [done..|]. intros g. rewrite map_app. set_solver.
Qed.

Lemma validated_names_ok names seen l : validated_names names seen = Ok l -> Forall (fun n => validate_group_name n = Ok n) l.
Proof.
  revert seen l. induction names as [|n names IH]; intros seen l; cbn; [intros [= <-]; constructor|].
  intros (n' & Hn & Hl)%bind_ok. destruct (str_in seen n'); [by eapply IH|].
  apply bind_ok in Hl as (others & Ho & [= <-]). constructor; [by eapply validate_group_name_ok|by eapply IH].
Qed.

Lemma keeps_ensure_groups fresh names : keeps_catalog (ensure_groups_by_name fresh names).
Proof.
  intros db Hdb. apply holds_bind, holds_lift; [done|]. intros validated Hv%validated_names_ok.
  apply holds_bind, holds_list_groups; [done|]. intros groups Hg. pose proof (listed_groups db groups Hdb Hg) as Hok.
  cbv zeta. match goal with |- context [foldl (ensure_one fresh) ?e _] => set (e0 := e) end.
  assert (He : forall l e, Forall (fun n => validate_group_name n = Ok n) l -> Forall group_ok (en_groups e) ->
    (forall g, g ∈ map hg_id groups -> g ∈ map hg_id (en_groups e)) ->
    Forall group_ok (en_groups (foldl (ensure_one fresh) e l)) /\
    forall g, g ∈ map hg_id groups -> g ∈ map hg_id (en_groups (foldl (ensure_one fresh) e l))).
  { induction l as [|n l IH]; intros e Hl Hgs Hin; [done|]. apply Forall_cons in Hl as [Hn Hl]. cbn. apply IH; [done|..];
      unfold ensure_one; destruct (en_ids e !! n); try done; destruct (fresh _) as [id now]; cbn [en_groups].
    - apply Forall_app. split; [done|]. constructor; [by apply new_group_ok|done].
    - intros g Hgin. rewrite map_app. apply elem_of_app. left. by apply Hin. }
  destruct (He validated e0) as [Hgs Hin]; [done..|]. set (e := foldl _ e0 validated) in *. apply holds_bind.
  destruct (0 <? en_created e)%nat; [|by apply holds_ret, holds_ret].
  eapply holds_mono; [apply saved_groups; [done..|by eapply grown_groups]|]. intros [] db' Hdb'. by apply holds_ret.
Qed.

Lemma keeps_groups_update now r : keeps_catalog (groups_update now r).
Proof.
  intros db Hdb. apply holds_bind, holds_lift; [done|]. intros name Hn%validate_group_name_ok.
  apply holds_bind, holds_lift; [done|]. intros [] Ho%reject_if_ok. apply holds_bind, holds_list_groups; [done|].
  intros groups Hg. pose proof (listed_groups db groups Hdb Hg) as Hok. apply holds_bind, holds_lift; [done|].
  intros [g groups'] (l1 & x & l2 & -> & _ & _ & -> & ->)%ok_or_ok%change_first_some. apply holds_bind. cbn [fst snd].
  eapply holds_mono; [apply saved_groups; [done| |]|by intros [] db' Hdb'; apply holds_ret].
  - rewrite Forall_app, Forall_cons in Hok |- *. destruct Hok as (? & _ & ?). split_and!; try done. split; [exact Hn|by apply Z.ltb_ge].
  - eapply grown_groups; [done..|]. intros i. by rewrite !map_app.
Qed.

Lemma ungrouped_links now id ps : links (map (ungrouped now id) ps) = links ps.
Proof.
  unfold links. rewrite map_map. apply map_ext. intros p. unfold ungrouped. by case_bool_decide.
Qed.

Lemma keeps_groups_delete now id : keeps_catalog (groups_delete now id).
Proof.
  intros db Hdb. apply holds_bind, holds_list_groups; [done|]. intros groups Hg.
  pose proof (listed_groups db groups Hdb Hg) as Hok. apply holds_bind, holds_lift; [done|]. intros [] _.
  apply holds_bind, holds_list_profiles; [done|]. intros profiles Hp.
  destruct (listed_profiles db profiles Hdb Hp) as (Hpok & Hj & _). apply holds_bind.
  assert (Hmap : Forall (profile_ok (cd_groups db)) (map (ungrouped now id) profiles)).
  { apply Forall_map. eapply Forall_impl; [exact Hpok|]. intros p [Hf Hgr]. unfold ungrouped. case_bool_decide; [|done].
    split; [exact Hf|]. by intros g Hno. }
  apply holds_replace_profiles; [done|]. intros Hnd.
  assert (Hdb' : consistent {| cd_groups := cd_groups db; cd_profiles := map (ungrouped now id) profiles |}).
  { destruct Hdb. split; try done. cbn. by rewrite ungrouped_links. }
  apply saved_groups; [done| |].
  - apply Forall_forall. intros g [Hin _]%elem_of_filterb. rewrite Forall_forall in Hok. by apply Hok.
  - cbn. intros p g (q & -> & Hq)%list_elem_of_fmap Hgr.
    assert (Hne : g <> id /\ sp_group_id q = Some g).
    { unfold ungrouped in Hgr. case_bool_decide as Hid; [done|]. split; [|done]. intros ->. by destruct Hid. }
    destruct Hne as [Hne Hqg]. rewrite Forall_forall in Hpok. destruct (Hpok q Hq) as [_ Hin].
    destruct (list_elem_of_fmap_1 _ _ _ (Hin g Hqg)) as (h & -> & Hh). apply list_elem_of_fmap_2, elem_of_filterb.
    split; [by rewrite Hg|]. by apply negb_true_iff, N.eqb_neq.
Qed.

(** A reordering changes no row but in its order. *)
Lemma reorder_rows_ok {R B} (same : R -> Uuid -> bool) place e (key : R -> B) (ok : R -> Prop) n ids rows rows' :
  (forall z r, key (place z r) = key r) -> (forall z r, (0 <= z)%Z -> ok r -> ok (place z r)) ->
  reorder_rows same place e n ids rows = Ok rows' -> Forall ok rows ->
  map key rows' = map key rows /\ Forall ok rows'.
Proof.
  intros Hkey Hplace. revert n rows. induction ids as [|id ids IH]; intros n rows; cbn [reorder_rows]; [by intros [= <-]|].
  intros (order & Ho & ([r rows1] & Hc & Hrest)%bind_ok)%bind_ok Hok.
  apply ok_or_ok in Ho. unfold i32_try_from in Ho. apply opt_filter_some in Ho as [[= <-] _].
  apply ok_or_ok, change_first_some in Hc as (l1 & x & l2 & -> & _ & _ & -> & ->). cbn [snd] in Hrest.
  rewrite Forall_app, Forall_cons in Hok. destruct Hok as (H1 & Hx & H2).
  apply IH in Hrest as [Hmap Hrest]; [|apply Forall_app; split; [done|constructor; [apply Hplace; [lia|done]|done]]].
  split; [|done]. rewrite Hmap, !map_app. cbn [map]. by rewrite Hkey.
Qed.

Lemma group_at_ok now z g : (0 <= z)%Z -> group_ok g -> group_ok (group_at now z g).
Proof. by intros Hz [? _]. Qed.
Lemma profile_at_ok now groups z p : (0 <= z)%Z -> profile_ok groups p -> profile_ok groups (profile_at now z p).
Proof. by intros Hz [(? & ? & _) ?]. Qed.

Lemma by_order_perm {R} (order : R -> Z) rows : by_order order rows ≡ₚ rows.
Proof. apply sort_by_perm. Qed.

Lemma keeps_groups_reorder now ids : keeps_catalog (groups_reorder now ids).
Proof.
  intros db Hdb. apply holds_bind, holds_list_groups; [done|]. intros groups Hg.
  pose proof (listed_groups db groups Hdb Hg) as Hok. apply holds_bind, holds_lift; [done|]. intros [] _.
  apply holds_bind, holds_lift; [done|]. intros placed Hplaced.
  destruct (reorder_rows_ok _ (group_at now) _ hg_id group_ok _ _ _ _ (fun z r => eq_refl) (group_at_ok now) Hplaced Hok)
    as [Hids Hpl].
  apply holds_bind. eapply holds_mono; [apply saved_groups; [done| |]|by intros [] db' Hdb'; apply holds_ret].
  - by rewrite by_order_perm.
  - eapply grown_groups; [done..|]. intros g. by rewrite by_order_perm, Hids.
Qed.

(** *** Profiles *)
Lemma keeps_profiles_list : keeps_catalog profiles_list.
Proof. intros db Hdb. apply holds_bind, holds_list_profiles; [done|]. intros profiles _. by apply holds_ret. Qed.
Lemma keeps_profiles_get id : keeps_catalog (profiles_get id).
Proof. intros db Hdb. apply holds_bind, holds_list_profiles; [done|]. intros profiles _. by apply holds_lift. Qed.

Lemma validate_route_ok route current profiles u :
  validate_route route current profiles = Ok u ->
  forall j, route = RouteJumpHost j -> Some j <> current /\ (j, RouteDirect) ∈ links profiles.
Proof.
  intros Hr j ->. cbn in Hr. apply bind_ok in Hr as ([] & Hc%reject_if_ok & (jump & Hf & Hd)%bind_ok).
  apply bool_decide_eq_false in Hc. split; [done|]. apply ok_or_ok, find_some_elem in Hf as [Hin <-%N.eqb_eq].
  apply reject_if_ok, negb_false_iff, bool_decide_eq_true in Hd. rewrite <- Hd. by apply links_elem.
Qed.

Lemma jumps_to_none id profiles :
  existsb (jumps_to id) profiles = false -> forall k, (k, RouteJumpHost id) ∉ links profiles.
Proof.
  intros Hex k (p & Hp & _ & Hr)%links_inv. rewrite Existsb_false in Hex. specialize (Hex p Hp).
  unfold jumps_to in Hex. rewrite Hr in Hex. by rewrite N.eqb_refl in Hex.
Qed.

Lemma keeps_profiles_create id now r : keeps_catalog (profiles_create id now r).
Proof.
  intros db Hdb. apply holds_bind, holds_lift; [done|]. intros fields Hf. apply holds_bind, holds_lift; [done|].
  intros source Hs. apply holds_bind, holds_validate_group; [done|]. intros Hgr.
  apply holds_bind, holds_list_profiles; [done|]. intros profiles Hp.
  destruct (listed_profiles db profiles Hdb Hp) as (Hok & Hj & _). apply holds_bind, holds_lift; [done|].
  intros [] Hroute. pose proof (validate_route_ok _ _ _ _ Hroute) as Hdirect.
  apply validate_fields_ok in Hf as (-> & Hf & _). apply holds_bind.
  eapply holds_mono; [apply saved_profiles; [done| |]|by intros [] db' Hdb'; apply holds_ret].
  - apply Forall_app. split; [done|]. constructor; [|done]. split; [|done]. split_and!; [exact Hf|by eapply validate_auth_ok|].
    by eapply profile_order_nonneg.
  - unfold links. rewrite map_app. cbn. apply jumps_ok_app; [exact Hj|]. intros j Hrj. by apply Hdirect.
Qed.

Lemma keeps_profiles_update now r : keeps_catalog (profiles_update now r).
Proof.
  intros db Hdb. apply holds_bind, holds_lift; [done|]. intros fields Hf. apply holds_bind, holds_lift; [done|].
  intros source Hs. apply holds_bind, holds_lift; [done|]. intros [] Ho%reject_if_ok%Z.ltb_ge.
  apply holds_bind, holds_validate_group; [done|]. intros Hgr. apply holds_bind, holds_list_profiles; [done|].
  intros profiles Hp. destruct (listed_profiles db profiles Hdb Hp) as (Hok & Hj & _).
  apply holds_bind, holds_lift; [done|]. intros [] Hroute. pose proof (validate_route_ok _ _ _ _ Hroute) as Hdirect.
  apply holds_bind, holds_lift; [done|]. intros [] Hused%reject_if_ok. apply holds_bind, holds_lift; [done|].
  intros existing _. set (changed_endpoint := negb _ || negb _). set (order := if bool_decide _ then _ else _).
  assert (Horder : (0 <= order)%Z) by (subst order; case_bool_decide; [done|by eapply profile_order_nonneg]).
  apply holds_bind, holds_lift; [done|].
  intros [p profiles'] (l1 & x & l2 & -> & Hx%N.eqb_eq & _ & -> & ->)%ok_or_ok%change_first_some. apply holds_bind.
  apply validate_fields_ok in Hf as (-> & Hf & _). cbn [fst snd].
  eapply holds_mono; [apply saved_profiles; [done| |]|by intros [] db' Hdb'; apply holds_ret].
  - rewrite Forall_app, Forall_cons in Hok |- *. destruct Hok as (H1 & _ & H2). split_and!; try done.
    split; [|exact Hgr]. split_and!; [exact Hf|by eapply validate_auth_ok|exact Horder].
  - unfold links in *. rewrite map_app in Hj, Hdirect |- *. cbn in Hj, Hdirect |- *. rewrite Hx in *.
    eapply jumps_ok_set; [exact Hj| |].
    + apply andb_false_iff in Hused as [Hd|Hno].
      * left. apply negb_false_iff in Hd. by destruct (up_connection_route r).
      * right. pose proof (jumps_to_none _ _ Hno) as Hn. unfold links in Hn. rewrite map_app in Hn. cbn in Hn.
        by rewrite Hx in Hn.
    + intros j Hrj. destruct (Hdirect j Hrj) as [Hne Hin]. left. split; [congruence|done].
Qed.

Lemma keeps_profiles_delete id : keeps_catalog (profiles_delete id).
Proof.
  intros db Hdb. apply holds_bind, holds_list_profiles; [done|]. intros profiles Hp.
  destruct (listed_profiles db profiles Hdb Hp) as (Hok & Hj & _). apply holds_bind, holds_lift; [done|].
  intros [] Hused%reject_if_ok. pose proof (jumps_to_none _ _ Hused) as Hno. apply holds_bind, holds_lift; [done|]. intros [] _.
  apply saved_profiles; [done| |].
  - apply Forall_forall. intros p [Hin _]%elem_of_filterb. rewrite Forall_forall in Hok. by apply Hok.
  - intros k j (p & [Hin Hk]%elem_of_filterb & <- & Hr)%links_inv.
    destruct (Hj (sp_id p) j) as [Hd|?]; [rewrite <- Hr; by apply links_elem|left|by right].
    destruct (links_inv profiles j RouteDirect Hd) as (q & Hq & <- & <-).
    apply links_elem, elem_of_filterb. split; [done|]. apply negb_true_iff, N.eqb_neq. intros Hqid.
    apply (Hno (sp_id p)). rewrite <- Hqid, <- Hr. by apply links_elem.
Qed.

(** A profile changed in nothing that routes, groups or fields depend on. *)
Lemma saved_same db profiles l1 x y l2 :
  consistent db -> profiles ≡ₚ cd_profiles db -> profiles = l1 ++ x :: l2 ->
  (profile_ok (cd_groups db) x -> profile_ok (cd_groups db) y) -> sp_id y = sp_id x ->
  sp_connection_route y = sp_connection_route x ->
  holds db (replace_profiles (l1 ++ y :: l2)) (fun _ db' => consistent db').
Proof.
  intros Hdb Hp -> Hy Hid Hr. destruct (listed_profiles db _ Hdb Hp) as (Hok & Hj & _). apply saved_profiles; [done| |].
  - rewrite Forall_app, Forall_cons in Hok |- *. naive_solver.
  - unfold links in *. rewrite map_app in *. cbn in *. by rewrite Hid, Hr.
Qed.

Lemma keeps_mark_connected now id detected : keeps_catalog (mark_connected now id detected).
Proof.
  intros db Hdb. apply holds_bind, holds_list_profiles; [done|]. intros profiles Hp. apply holds_bind, holds_lift; [done|].
  intros [p profiles'] (l1 & x & l2 & Hl & _ & _ & -> & ->)%ok_or_ok%change_first_some. apply holds_bind. cbn [fst snd].
  eapply holds_mono; [eapply saved_same; [done|exact Hp|exact Hl|done..]|by intros [] db' Hdb'; apply holds_ret].
Qed.

Lemma keeps_profiles_reorder now group ids : keeps_catalog (profiles_reorder now group ids).
Proof.
  intros db Hdb. apply holds_bind, holds_validate_group; [done|]. intros _. apply holds_bind, holds_list_profiles; [done|].
  intros profiles Hp. destruct (listed_profiles db profiles Hdb Hp) as (Hok & Hj & _).
  apply holds_bind, holds_lift; [done|]. intros [] _. apply holds_bind, holds_lift; [done|]. intros placed Hplaced.
  destruct (reorder_rows_ok _ (profile_at now) _ (fun p => (sp_id p, sp_connection_route p)) (profile_ok (cd_groups db)) _ _ _ _
              (fun z r => eq_refl) (profile_at_ok now (cd_groups db))
              Hplaced Hok) as [Hlinks Hpl].
  apply holds_bind. eapply holds_mono; [apply saved_profiles; [done| |]|by intros [] db' Hdb'; apply holds_ret].
  - by rewrite by_order_perm.
  - eapply jumps_perm; [apply links_perm; symmetry; apply by_order_perm|]. unfold links. by rewrite Hlinks.
Qed.
End Operations.

(** *** Import *)
Definition Endpoint : Type := str * N * str.
Definition endpoint (p : ServerProfile) : Endpoint := (sp_host p, sp_port p, sp_username p).
Definition import_endpoint (item : ImportUpsertRequest) : Endpoint :=
  (trim (iu_host item), iu_port item, trim (iu_username item)).

(** No entry is reached through an entry that is the same server. *)
Definition plain_import (items : list ImportUpsertRequest) : Prop :=
  forall a b source, a ∈ items -> b ∈ items -> iu_jump_source_id a = Some source -> iu_source_id b = Some source ->
    import_endpoint a <> import_endpoint b.

(** The identifiers with their endpoints. *)
Definition ends (profiles : list ServerProfile) : list (Uuid * Endpoint) := map (fun p => (sp_id p, endpoint p)) profiles.

Definition import_ok (groups : list HostGroup) (item : ImportUpsertRequest) : Prop :=
  validate_fields (iu_name item) (iu_host item) (iu_port item) (iu_username item)
    = Ok (iu_name item, iu_host item, iu_username item) /\
  validate_auth (iu_auth_method item) (iu_key_source item) = Ok (iu_key_source item) /\ grouped groups (iu_group_id item).

Lemma prepare_import_ok item item' :
  prepare_import item = Ok item' ->
  import_endpoint item' = import_endpoint item /\ (trim (iu_host item'), iu_port item', trim (iu_username item')) =
    (iu_host item', iu_port item', iu_username item') /\
  iu_source_id item' = iu_source_id item /\ iu_jump_source_id item' = iu_jump_source_id item /\
  validate_fields (iu_name item') (iu_host item') (iu_port item') (iu_username item')
    = Ok (iu_name item', iu_host item', iu_username item') /\
  validate_auth (iu_auth_method item') (iu_key_source item') = Ok (iu_key_source item').
Proof.
  intros (fields & Hf & (source & Hs & He)%bind_ok)%bind_ok. apply validate_fields_ok in Hf as (-> & Hf & _).
  apply validate_auth_ok in Hs. cbn in He. injection He as <-. unfold import_endpoint. cbn -[trim]. rewrite !trim_idem. by split_and!.
Qed.

Lemma same_endpoint_spec item p :
  same_endpoint item p = true <-> endpoint p = (iu_host item, iu_port item, iu_username item).
Proof.
  unfold same_endpoint, endpoint. rewrite !andb_true_iff, !str_eqb_eq, N.eqb_eq. split; [by intros [[-> ->] ->]|].
  by intros [= -> -> ->].
Qed.

(** Where the loop has come to: what it has made of the items it has met. *)
Record importing (groups : list HostGroup) (met : list ImportUpsertRequest) (s : ImportState) : Prop := {
  importing_ok : Forall (profile_ok groups) (is_profiles s);
  importing_jumps_ok : jumps_fit (links (is_profiles s));
  importing_jumps : forall id source, (id, source) ∈ is_jumps s ->
    exists item, item ∈ met /\ iu_jump_source_id item = Some source /\
      (id, (iu_host item, iu_port item, iu_username item)) ∈ ends (is_profiles s);
  importing_sources : forall source id, is_sources s !! source = Some id ->
    exists item, item ∈ met /\ iu_source_id item = Some source /\
      (id, (iu_host item, iu_port item, iu_username item)) ∈ ends (is_profiles s);
}.

(** What one turn makes of the profiles. *)
Lemma imported_profiles groups item profiles profile profiles' :
  import_ok groups item -> Forall (profile_ok groups) profiles -> jumps_fit (links profiles) ->
  ((exists l1 x l2, profiles = l1 ++ x :: l2 /\ same_endpoint item x = true /\
      sp_id profile = sp_id x /\ sp_connection_route profile = sp_connection_route x /\ profiles' = l1 ++ profile :: l2) \/
   (sp_connection_route profile = RouteDirect /\ profiles' = profiles ++ [profile])) ->
  endpoint profile = (iu_host item, iu_port item, iu_username item) -> profile_ok groups profile ->
  Forall (profile_ok groups) profiles' /\ jumps_fit (links profiles') /\
  (forall x, x ∈ ends profiles -> x ∈ ends profiles') /\ (sp_id profile, endpoint profile) ∈ ends profiles'.
Proof.
  intros Hitem Hok Hj Hcase Hend Hp. destruct Hcase as [(l1 & x & l2 & -> & Hx%same_endpoint_spec & Hid & Hr & ->)|[Hr ->]].
  - assert (Hsame : ends (l1 ++ profile :: l2) = ends (l1 ++ x :: l2)).
    { unfold ends. rewrite !map_app. cbn. by rewrite Hid, Hend, Hx. }
    split_and!.
    + rewrite Forall_app, Forall_cons in Hok |- *. naive_solver.
    + unfold links in *. rewrite map_app in *. cbn in *. by rewrite Hid, Hr.
    + by rewrite Hsame.
    + unfold ends. rewrite map_app. cbn. set_solver.
  - split_and!.
    + apply Forall_app. split; [done|]. by constructor.
    + unfold links. rewrite map_app. cbn. rewrite Hr. by apply jumps_ok_app.
    + unfold ends. rewrite map_app. set_solver.
    + unfold ends. rewrite map_app. cbn. set_solver.
Qed.

Lemma import_one_ok groups fresh met s item :
  import_ok groups item -> importing groups met s -> importing groups (met ++ [item]) (import_one fresh s item).
Proof.
  intros Hitem [Hok Hj Hjumps Hsources]. unfold import_one. destruct (fresh _) as [id now].
  set (chosen := match List.find (same_endpoint item) (is_profiles s) with Some _ => _ | None => _ end).
  assert (Hchosen : let '(profile, _, profiles') := chosen in
    Forall (profile_ok groups) profiles' /\ jumps_fit (links profiles') /\
    (forall x, x ∈ ends (is_profiles s) -> x ∈ ends profiles') /\
    (sp_id profile, (iu_host item, iu_port item, iu_username item)) ∈ ends profiles').
  { destruct Hitem as (Hfields & Hauth & Hgr).
    assert (Hnew : forall id route order created updated connected os, (0 <= order)%Z ->
      profile_ok groups (imported_profile id route order created updated connected os item)).
    { intros. split; [|exact Hgr]. by split_and!. }
    assert (Horder : (0 <= profile_order_after (is_profiles s) (iu_group_id item))%Z) by (by eapply profile_order_nonneg).
    subst chosen. destruct (List.find _ _) as [existing|] eqn:Hfind.
    - set (order := if bool_decide _ then _ else _). set (updated := imported_profile _ _ _ _ _ _ _ _).
      apply find_some_elem in Hfind as Hex. destruct Hex as [Hin Hsame].
      assert (Hup : profile_ok groups updated).
      { apply Hnew. subst order. case_bool_decide; [|done]. rewrite Forall_forall in Hok. by destruct (Hok _ Hin) as [(_ & _ & ?) _]. }
      destruct (change_first (same_endpoint item) (fun _ => updated) (is_profiles s)) as [[r rows]|] eqn:Hc; cbn [fmap option_fmap option_map snd default].
      + apply change_first_some in Hc as (l1 & x & l2 & Hl & Hx & Hl1 & _ & ->).
        assert (x = existing) as ->.
        { rewrite Hl, find_split in Hfind by done. by injection Hfind. }
        eapply (imported_profiles groups item (is_profiles s) updated); try done. left. by exists l1, existing, l2.
      + by rewrite (change_first_none _ _ _ Hc existing Hin) in Hsame.
    - eapply (imported_profiles groups item (is_profiles s)); try done; by right. }
  clearbody chosen. destruct chosen as [[profile matched] profiles']. destruct Hchosen as (Hok' & Hj' & Hends & Hme).
  split; cbn [is_profiles is_jumps is_sources]; [done|done| |].
  - assert (Hold : forall i source, (i, source) ∈ is_jumps s -> exists it, it ∈ met ++ [item] /\
      iu_jump_source_id it = Some source /\ (i, (iu_host it, iu_port it, iu_username it)) ∈ ends profiles').
    { intros i source (it & ? & ? & ?)%Hjumps. exists it. split_and!; [set_solver|done|by apply Hends]. }
    intros i source. destruct (iu_jump_source_id item) as [jump|] eqn:Hji; [|apply Hold].
    rewrite elem_of_app, list_elem_of_singleton. intros [?|[= -> ->]]; [by apply Hold|]. exists item.
    split_and!; [set_solver|done|done].
  - assert (Hold : forall source i, is_sources s !! source = Some i -> exists it, it ∈ met ++ [item] /\
      iu_source_id it = Some source /\ (i, (iu_host it, iu_port it, iu_username it)) ∈ ends profiles').
    { intros source i (it & ? & ? & ?)%Hsources. exists it. split_and!; [set_solver|done|by apply Hends]. }
    intros source i. destruct (iu_source_id item) as [own|] eqn:Hsi; [|apply Hold].
    intros [[-> <-]|[_ ?]]%lookup_insert_Some; [|by apply Hold]. exists item. split_and!; [set_solver|done|done].
Qed.

(** The second loop. *)
Lemma wire_jump_ok groups now sources profiles n id source :
  (forall jump, sources !! source = Some jump -> jump <> id \/ self) ->
  Forall (profile_ok groups) profiles -> jumps_fit (links profiles) ->
  let profiles' := fst (wire_jump now sources (profiles, n) (id, source)) in
  Forall (profile_ok groups) profiles' /\ jumps_fit (links profiles').
Proof.
  intros Hne Hok Hj. unfold wire_jump. destruct (sources !! source) as [jump_id|]; [|done].
  destruct (List.find _ _) as [jump|] eqn:Hjump; [|done]. destruct (negb _) eqn:Hd; [done|].
  destruct (existsb (jumps_to id) profiles) eqn:Hno; [done|].
  destruct (List.find (fun p => sp_id p =? id)%N profiles) as [profile|]; [|done].
  destruct (jumps_to jump_id profile); [done|]. cbn zeta. cbn [fst].
  destruct (change_first _ _ _) as [[r rows]|] eqn:Hc; [|done].
  change (default profiles (snd <$> Some (r, rows))) with rows.
  apply change_first_some in Hc as (l1 & x & l2 & -> & Hx%N.eqb_eq & _ & _ & ->). split.
  - rewrite Forall_app, Forall_cons in Hok |- *. destruct Hok as (? & Hx' & ?). split_and!; done.
  - apply find_some_elem in Hjump as [Hin Hid%N.eqb_eq]. apply links_elem in Hin.
    assert (Hdirect : sp_connection_route jump = RouteDirect)
      by (apply negb_false_iff in Hd; by destruct (sp_connection_route jump)).
    rewrite Hdirect, Hid in Hin. pose proof (jumps_to_none _ _ Hno) as Hn.
    unfold links in *. rewrite map_app in *. cbn in *. rewrite Hx in *.
    eapply jumps_ok_set; [exact Hj|by right|]. intros j [= <-].
    destruct (decide (id = jump_id)) as [->|]; [right|by left]. split; [|done]. by destruct (Hne _ eq_refl).
Qed.

Lemma wire_jump_ids now sources s pending : map sp_id (fst (wire_jump now sources s pending)) = map sp_id (fst s).
Proof.
  destruct s as [profiles n], pending as [id source]. unfold wire_jump. destruct (sources !! source); [|done].
  destruct (List.find _ _); [|done]. destruct (negb _); [done|]. destruct (existsb _ _); [done|].
  destruct (List.find _ _); [|done]. destruct (jumps_to _ _); [done|]. cbn [fst].
  destruct (change_first _ _ _) as [[r rows]|] eqn:Hc; [|done].
  apply change_first_some in Hc as (l1 & x & l2 & -> & _ & _ & _ & ->). cbn. by rewrite !map_app.
Qed.

Lemma wire_jumps_ok groups now sources pending profiles n :
  (forall id source jump, (id, source) ∈ pending -> sources !! source = Some jump -> jump <> id \/ self) ->
  Forall (profile_ok groups) profiles -> jumps_fit (links profiles) ->
  let profiles' := fst (foldl (wire_jump now sources) (profiles, n) pending) in
  Forall (profile_ok groups) profiles' /\ jumps_fit (links profiles').
Proof.
  cbn zeta. revert profiles n. induction pending as [|[id source] pending IH]; intros profiles n Hne Hok Hj; [done|].
  cbn [foldl]. destruct (wire_jump_ok groups now sources profiles n id source) as [Hok' Hj']; [|done..|].
  { intros jump. apply Hne. set_solver. }
  destruct (wire_jump now sources (profiles, n) (id, source)) as [profiles' n']. apply IH; [|done..].
  intros i s jump Hin. apply Hne. set_solver.
Qed.
Lemma wire_jumps_ids now sources pending s : map sp_id (fst (foldl (wire_jump now sources) s pending)) = map sp_id (fst s).
Proof.
  revert s. induction pending as [|p pending IH]; intros s; [done|]. cbn [foldl]. by rewrite IH, wire_jump_ids.
Qed.

Section Importing.
Context `{Externals}.

Lemma keeps_import fresh now items : plain_import items \/ self -> keeps_catalog (upsert_import_batch fresh now items).
Proof.
  intros Hplain db Hdb. unfold upsert_import_batch. case_bool_decide; [by apply holds_ret|].
  apply holds_bind, holds_lift; [done|]. intros prepared Hprep%try_map_ok. apply holds_bind, holds_list_groups; [done|].
  intros groups Hg. apply holds_bind, holds_lift; [done|]. intros [] Hgroups%reject_if_ok.
  apply holds_bind, holds_list_profiles; [done|]. intros profiles Hp.
  destruct (listed_profiles db profiles Hdb Hp) as (Hok & Hj & _).
  assert (Hitems : Forall (import_ok (cd_groups db)) prepared).
  { apply Forall_forall. intros item Hin. apply list_elem_of_lookup_1 in Hin as [k Hk].
    destruct (Forall2_lookup_r _ _ _ _ _ Hprep Hk) as (raw & _ & Hraw). apply prepare_import_ok in Hraw as (_ & _ & _ & _ & Hf & Ha).
    split_and!; [exact Hf|exact Ha|]. intros g Hsome. rewrite Existsb_false in Hgroups.
    specialize (Hgroups item (list_elem_of_lookup_2 _ _ _ Hk)). rewrite Hsome in Hgroups.
    apply negb_false_iff, Existsb_exists in Hgroups as (x & Hx & <-%N.eqb_eq). rewrite Hg in Hx. by apply list_elem_of_fmap_2. }
  cbv zeta. match goal with |- context [foldl (import_one fresh) ?s0 _] => set (start := s0) end.
  assert (Hstart : importing (cd_groups db) [] start).
  { split; [done|done|intros i s Hin; subst start; cbn in Hin; by apply elem_of_nil in Hin|intros s i Hin; subst start; cbn in Hin; by apply lookup_empty_Some in Hin]. }
  assert (Hloop : forall rest met s, Forall (import_ok (cd_groups db)) rest -> importing (cd_groups db) met s ->
    importing (cd_groups db) (met ++ rest) (foldl (import_one fresh) s rest)).
  { induction rest as [|item rest IH]; intros met s Hr Hs; [by rewrite app_nil_r|]. apply Forall_cons in Hr as [Hi Hr].
    cbn [foldl]. rewrite cons_middle, app_assoc. apply IH; [done|]. by apply import_one_ok. }
  specialize (Hloop prepared [] start Hitems Hstart). cbn [app] in Hloop. set (s := foldl _ start prepared) in *.
  destruct (foldl (wire_jump now (is_sources s)) (is_profiles s, 0%nat) (is_jumps s)) as [wired jumps] eqn:Hwire.
  assert (Hw : wired = fst (foldl (wire_jump now (is_sources s)) (is_profiles s, 0%nat) (is_jumps s))) by (by rewrite Hwire).
  apply holds_bind, holds_replace_profiles; [done|]. intros Hnd. apply holds_ret.
  assert (Hids : NoDup (map sp_id (is_profiles s))) by (rewrite Hw, wire_jumps_ids in Hnd; exact Hnd).
  destruct Hloop as [Hpok Hpj Hjumps Hsources].
  destruct (wire_jumps_ok (cd_groups db) now (is_sources s) (is_jumps s) (is_profiles s) 0) as [Hok' Hj']; [|done..|].
  { intros id source jump Hpending Hsource. destruct Hplain as [Hplain|?]; [left; intros ->|by right]. destruct (Hjumps _ _ Hpending) as (a & Ha & Haj & Hae).
    destruct (Hsources _ _ Hsource) as (b & Hb & Hbs & Hbe).
    apply list_elem_of_lookup_1 in Ha as [ka Hka]. apply list_elem_of_lookup_1 in Hb as [kb Hkb].
    destruct (Forall2_lookup_r _ _ _ _ _ Hprep Hka) as (a0 & Ha0 & (Hea & Hra & _ & Hja & _)%prepare_import_ok).
    destruct (Forall2_lookup_r _ _ _ _ _ Hprep Hkb) as (b0 & Hb0 & (Heb & Hrb & Hsb & _)%prepare_import_ok).
    apply (Hplain a0 b0 source); [by eapply list_elem_of_lookup_2..|congruence|congruence|]. rewrite <- Hea, <- Heb.
    unfold import_endpoint. rewrite Hra, Hrb.
    apply list_elem_of_fmap in Hae as (p & Hpe & Hpin). apply list_elem_of_fmap in Hbe as (q & Hqe & Hqin).
    assert (p = q) as ->; [|congruence]. injection Hpe as Hpid _. injection Hqe as Hqid _.
    apply list_elem_of_lookup_1 in Hpin as [kp Hkp]. apply list_elem_of_lookup_1 in Hqin as [kq Hkq].
    assert (kp = kq) as ->; [|congruence]. apply (NoDup_lookup _ kp kq id Hids); rewrite list_lookup_fmap; rewrite ?Hkp, ?Hkq; cbn; congruence. }
  rewrite <- Hw in Hok', Hj'. destruct Hdb. by split.
Qed.

(** ** Any sequence of calls *)
Definition plain_call (c : CatalogCall) : Prop :=
  match c with CcImport _ _ items => plain_import items | _ => True end.

Lemma keeps_call c : plain_call c \/ self -> keeps_catalog (catalog_call c).
Proof.
  intros Hc. destruct c; cbn [catalog_call];
    first [ apply holds_ends;
            first [ apply keeps_groups_list | apply keeps_groups_create | apply keeps_ensure_groups | apply keeps_groups_update
                  | apply keeps_groups_reorder | apply keeps_profiles_list | apply keeps_profiles_get
                  | apply keeps_profiles_create | by apply keeps_import | apply keeps_profiles_update
                  | apply keeps_mark_connected | apply keeps_profiles_reorder ]
          | apply keeps_groups_delete | apply keeps_profiles_delete ].
Qed.

Lemma catalog_kept calls db :
  consistent db -> (forall c o, (c, o) ∈ calls -> plain_call c) \/ self -> consistent (catalog_after calls db).
Proof.
  revert db. induction calls as [|[c o] calls IH]; intros db Hdb Hplain; [done|]. cbn. apply IH.
  - assert (Hc : plain_call c \/ self) by (destruct Hplain as [Hplain|?]; [left; apply (Hplain c o); set_solver|by right]).
    pose proof (keeps_call c Hc db Hdb o) as Hk. by destruct (catalog_call c o db) as [[[a|e] o'] db'].
  - destruct Hplain as [Hplain|?]; [left|by right]. intros c' o' Hin. apply (Hplain c' o'). set_solver.
Qed.
End Importing.
End Consistency.

Abbreviation consistent := (catalog_ok False).

(** C29. The catalog stays consistent.  Whatever calls the group and profile services are
    given, in whatever order, and whichever statements of the database fail, even
    between the two saves of the deletion of a group: identifiers are unique, every
    profile is in a group that exists or in none, its fields are what validation
    accepts, orders are not negative, and a profile that is reached through a jump
    host is reached through a profile that exists and is itself reached directly, or
    else is its own jump host.  Only an import makes a profile its own jump host: when
    every import given reaches no entry through one that is the same server, every jump
    host is a profile that exists and is reached directly. *)
Theorem catalog_stays_consistent `{Externals} calls db :
  (catalog_ok True db -> catalog_ok True (catalog_after calls db)) /\
  (consistent db -> (forall c o, (c, o) ∈ calls -> plain_call c) -> consistent (catalog_after calls db)).
Proof. split; intros; apply catalog_kept; auto. Qed.

(** ** Reordering *)
Fixpoint position (id : Uuid) (ids : list Uuid) : option nat :=
  match ids with
  | [] => None
  | x :: rest => if (x =? id)%N then Some 0%nat else S <$> position id rest
  end.

Lemma position_lookup id ids k : position id ids = Some k -> ids !! k = Some id.
Proof.
  revert k. induction ids as [|x ids IH]; intros k; cbn; [done|]. destruct (N.eqb_spec x id) as [->|_]; [by intros [= <-]|].
  intros (j & Hj & ->)%fmap_Some. by apply IH.
Qed.
Lemma position_elem id ids : id ∈ ids -> is_Some (position id ids).
Proof.
  induction ids as [|x ids IH]; [by intros ?%elem_of_nil|]. cbn. destruct (N.eqb_spec x id) as [->|Hne]; [eauto|].
  intros [?|Hin]%elem_of_cons; [done|]. destruct (IH Hin) as [k ->]. cbn. eauto.
Qed.
Lemma position_none id ids : id ∉ ids -> position id ids = None.
Proof.
  intros Hn. destruct (position id ids) as [k|] eqn:Hk; [|done]. by apply position_lookup, list_elem_of_lookup_2 in Hk.
Qed.
Lemma lookup_position id ids k : NoDup ids -> ids !! k = Some id -> position id ids = Some k.
Proof.
  intros Hnd Hk. destruct (position_elem id ids) as [j Hj]; [by eapply list_elem_of_lookup_2|]. rewrite Hj.
  apply position_lookup in Hj. f_equal. by eapply NoDup_lookup.
Qed.

Section Reorder.
Context {R : Type} (key : R -> Uuid) (order : R -> Z) (test : R -> bool) (place : Z -> R -> R)
  (place_key : forall z r, key (place z r) = key r) (place_test : forall z r, test (place z r) = test r)
  (place_order : forall z r, order (place z r) = z).

(** A row where the n-th of the identifiers is given order n. *)
Definition placed (n : nat) (ids : list Uuid) (r : R) : R :=
  match position (key r) ids with
  | Some k => if test r then place (Z.of_nat (n + k)) r else r
  | None => r
  end.

Lemma reorder_rows_exact e n ids rows :
  NoDup (map key rows) -> NoDup ids -> (forall id, id ∈ ids -> id ∈ map key (List.filter test rows)) ->
  (Z.of_nat (n + length ids) <= I32_MAX + 1)%Z ->
  reorder_rows (fun r id => (key r =? id)%N && test r) place e n ids rows = Ok (map (placed n ids) rows).
Proof.
  revert n rows. induction ids as [|id ids IH]; intros n rows Hk Hids Hin Hmax; cbn [reorder_rows].
  { f_equal. symmetry. by apply map_id. }
  apply NoDup_cons in Hids as [Hnew Hids]. cbn [length] in Hmax.
  assert (Hn : i32_try_from n = Some (Z.of_nat n)).
  { unfold i32_try_from, opt_filter. replace (Z.of_nat n <=? I32_MAX)%Z with true; [done|]. symmetry. apply Z.leb_le. lia. }
  rewrite Hn. cbn [ok_or mbind result_bind].
  destruct (change_first (fun r => (key r =? id)%N && test r) (place (Z.of_nat n)) rows) as [[r rows1]|] eqn:Hc.
  2: { exfalso. destruct (list_elem_of_fmap_1 _ _ _ (Hin id ltac:(set_solver))) as (x & Hx & [Hxr Hxt]%elem_of_filterb).
       pose proof (change_first_none _ _ _ Hc x Hxr) as Hf. cbv beta in Hf. by rewrite Hx, N.eqb_refl, Hxt in Hf. }
  apply change_first_some in Hc as (l1 & x & l2 & -> & [Hx%N.eqb_eq Hxt]%andb_true_iff & _ & _ & ->).
  cbn [ok_or mbind result_bind snd]. rewrite map_app in Hk. cbn [map] in Hk. rewrite Hx in Hk.
  apply NoDup_app in Hk as (Hk1 & Hkx & [Hk2 Hk3]%NoDup_cons).
  assert (Hother : forall y, key y <> id -> placed n (id :: ids) y = placed (S n) ids y).
  { intros y Hy. unfold placed. cbn [position]. rewrite (proj2 (N.eqb_neq id (key y))) by done.
    destruct (position (key y) ids) as [k|]; cbn [fmap option_fmap option_map]; [|done]. by rewrite Nat.add_succ_r. }
  rewrite IH.
  - f_equal. rewrite !map_app. cbn [map]. f_equal; [|f_equal].
    + apply map_ext_in. intros y Hy%list_elem_of_In. symmetry. apply Hother. intros Hyid.
      apply (Hkx (key y)); [by apply list_elem_of_fmap_2|]. rewrite Hyid. set_solver.
    + unfold placed. rewrite place_key, Hx, position_none by done. cbn [position]. by rewrite N.eqb_refl, Hxt, Nat.add_0_r.
    + apply map_ext_in. intros y Hy%list_elem_of_In. symmetry. apply Hother. intros Hyid.
      apply Hk2. rewrite <- Hyid. by apply list_elem_of_fmap_2.
  - rewrite map_app. cbn [map]. rewrite place_key, Hx. apply NoDup_app. split_and!; [done|done|by apply NoDup_cons].
  - done.
  - intros i Hi. destruct (list_elem_of_fmap_1 _ _ _ (Hin i ltac:(set_solver))) as (y & -> & [Hy Hyt]%elem_of_filterb).
    apply elem_of_app in Hy as [Hy|[->|Hy]%elem_of_cons].
    + apply list_elem_of_fmap_2, elem_of_filterb. set_solver.
    + rewrite <- (place_key (Z.of_nat n)). apply list_elem_of_fmap_2, elem_of_filterb. rewrite place_test. set_solver.
    + apply list_elem_of_fmap_2, elem_of_filterb. set_solver.
  - lia.
Qed.

Lemma placed_key n ids r : key (placed n ids r) = key r.
Proof. unfold placed. destruct (position _ _); [destruct (test r)|]; by rewrite ?place_key. Qed.
Lemma placed_test n ids r : test (placed n ids r) = test r.
Proof. unfold placed. destruct (position _ _); [|done]. destruct (test r) eqn:Ht; [by rewrite place_test|done]. Qed.

Lemma StronglySorted_filter {A} (le : A -> A -> Prop) f l :
  StronglySorted le l -> StronglySorted le (List.filter f l).
Proof.
  induction 1 as [|x l _ IH Hx]; cbn; [constructor|]. destruct (f x); [|done]. constructor; [done|].
  rewrite Forall_forall in Hx |- *. intros y [Hy _]%elem_of_filterb. by apply Hx.
Qed.

(** However the rows are then sorted by their order, those that pass the test are in
    the order of the identifiers. *)
Lemma placed_order ids rows sorted :
  NoDup ids -> map key (List.filter test rows) ≡ₚ ids ->
  sorted ≡ₚ map (placed 0 ids) rows -> StronglySorted (fun a b => order a <= order b)%Z sorted ->
  map key (List.filter test sorted) = ids.
Proof.
  intros Hids Hkeys Hperm Hs.
  assert (Hsame : map key (List.filter test (map (placed 0 ids) rows)) = map key (List.filter test rows)).
  { clear - place_key place_test. induction rows as [|r rows IH]; [done|]. cbn [map List.filter]. rewrite placed_test.
    destruct (test r); cbn [map]; rewrite ?placed_key, IH; done. }
  assert (Hfperm : map key (List.filter test sorted) ≡ₚ ids).
  { rewrite <- Hkeys, <- Hsame. apply Permutation_map. clear - Hperm. induction Hperm; cbn; repeat case_match; try done;
      [by constructor|apply Permutation_swap|by etransitivity]. }
  set (le := fun a b : Uuid => (default 0%nat (position a ids) <= default 0%nat (position b ids))%nat).
  apply (StronglySorted_unique_strong le); [| | |exact Hfperm].
  - intros a b Ha Hb Hab Hba. unfold le in Hab, Hba. rewrite Hfperm in Ha.
    destruct (position_elem a ids Ha) as [i Hi], (position_elem b ids Hb) as [j Hj]. rewrite Hi, Hj in Hab, Hba. cbn in Hab, Hba.
    assert (i = j) as -> by lia. apply position_lookup in Hi, Hj. congruence.
  - assert (Horder : forall r, r ∈ List.filter test sorted -> exists k, position (key r) ids = Some k /\ order r = Z.of_nat k).
    { intros r Hr. assert (Hk : key r ∈ ids) by (rewrite <- Hfperm; by apply list_elem_of_fmap_2).
      destruct (position_elem _ _ Hk) as [k Hpos]. exists k. split; [done|]. apply elem_of_filterb in Hr as [Hr Ht].
      rewrite Hperm in Hr. apply list_elem_of_fmap in Hr as (r0 & -> & _). rewrite placed_key in Hpos. rewrite placed_test in Ht.
      unfold placed. by rewrite Hpos, Ht, place_order. }
    clear Hfperm. apply (StronglySorted_filter _ test) in Hs. revert Horder. induction Hs as [|r l _ IH Hr]; intros Horder; [constructor|].
    cbn [map]. constructor; [apply IH; intros; apply Horder; set_solver|]. apply Forall_map, Forall_forall. intros y Hy.
    rewrite Forall_forall in Hr. specialize (Hr y Hy).
    destruct (Horder r ltac:(set_solver)) as (i & Hi & Hri), (Horder y ltac:(set_solver)) as (j & Hj & Hyj).
    unfold le. rewrite Hi, Hj. cbn. lia.
  - clear - Hids. assert (Hle : forall i j a b, (i <= j)%nat -> ids !! i = Some a -> ids !! j = Some b -> le a b).
    { intros i j a b Hij Ha Hb. unfold le. rewrite (lookup_position _ _ _ Hids Ha), (lookup_position _ _ _ Hids Hb). done. }
    clearbody le. clear Hids. revert Hle. induction ids as [|x l IH]; intros Hle; [constructor|]. constructor.
    + apply IH. intros i j a b Hij Ha Hb. apply (Hle (S i) (S j)); [lia|done|done].
    + apply Forall_forall. intros y Hy. apply list_elem_of_lookup_1 in Hy as [k Hk]. by apply (Hle 0 (S k)); [lia| |].
Qed.
End Reorder.

Lemma same_ids_spec ids expected : NoDup expected -> same_ids ids expected = true <-> ids ≡ₚ expected.
Proof.
  intros Hnd. unfold same_ids. rewrite andb_true_iff, Nat.eqb_eq, bool_decide_eq_true. split.
  - intros [Hlen Hset]. symmetry. apply submseteq_length_Permutation; [|lia]. apply NoDup_submseteq; [done|].
    intros x Hx. rewrite <- (elem_of_list_to_set (C := gset Uuid)), Hset. by rewrite elem_of_list_to_set.
  - intros Hp. split; [by rewrite Hp|]. apply set_eq. intros x. rewrite !elem_of_list_to_set. by rewrite Hp.
Qed.

Lemma filter_perm {A} (f : A -> bool) l l' : l ≡ₚ l' -> List.filter f l ≡ₚ List.filter f l'.
Proof. induction 1; cbn; repeat case_match; try done; [by constructor|apply Permutation_swap|by etransitivity]. Qed.
Lemma NoDup_filter_map {A B} (f : A -> bool) (key : A -> B) l : NoDup (map key l) -> NoDup (map key (List.filter f l)).
Proof.
  induction l as [|x l IH]; cbn; [done|]. intros [Hx Hl]%NoDup_cons. destruct (f x); [|by apply IH]. cbn.
  apply NoDup_cons. split; [|by apply IH]. intros (y & Hy & [Hin _]%elem_of_filterb)%list_elem_of_fmap. apply Hx. rewrite Hy.
  by apply list_elem_of_fmap_2.
Qed.
Lemma by_order_sorted {R} (order : R -> Z) rows : StronglySorted (fun a b => order a <= order b)%Z (by_order order rows).
Proof.
  eapply StronglySorted_weaken; [|apply sort_by_sorted]; cbv beta.
  - intros a b Hab. by apply Z.leb_le.
  - intros a b Hab. apply Z.leb_gt in Hab. apply Z.leb_le. lia.
  - intros a b c Hab Hbc. apply Z.leb_le in Hab, Hbc. apply Z.leb_le. lia.
Qed.

Section Reordered.
Context `{Externals}.

Lemma ports_ok db : consistent db -> existsb (fun p => sp_port p =? 0)%N (cd_profiles db) = false.
Proof.
  intros []. apply Existsb_false. intros p Hp. rewrite Forall_forall in consistent_profiles0.
  destruct (consistent_profiles0 p Hp) as [(Hf & _) _]. by apply validate_fields_ok in Hf as (_ & _ & ?).
Qed.

(** What the statements answer when none of them fails. *)
Lemma list_groups_works db : list_groups [] db = (Ok (sort_by (row_leb hg_sort_order hg_id) (cd_groups db)), [], db).
Proof. done. Qed.
Lemma list_profiles_works db :
  consistent db -> list_profiles [] db = (Ok (sort_by (row_leb sp_sort_order sp_id) (cd_profiles db)), [], db).
Proof. intros Hdb. unfold list_profiles, statement. cbn [head default]. by rewrite ports_ok. Qed.
Lemma replace_profiles_works db rows :
  NoDup (map sp_id rows) -> replace_profiles rows [] db = (Ok tt, [], {| cd_groups := cd_groups db; cd_profiles := rows |}).
Proof. intros Hnd. unfold replace_profiles, statement, distinct_ids. cbn [head default]. by rewrite bool_decide_true. Qed.

Lemma validate_group_works db group :
  validate_group group [] db = (Ok tt, [], db) /\ grouped (cd_groups db) group \/
  validate_group group [] db = (Err InvalidGroup, [], db) /\ ~ grouped (cd_groups db) group.
Proof.
  destruct group as [id|]; [|by left]. cbn [validate_group]. unfold mbind, db_bind. rewrite list_groups_works. unfold db_lift, grouped.
  destruct (existsb _ _) eqn:He; cbn [negb reject_if]; [left|right]; split; try done.
  - intros g [= <-]. apply Existsb_exists in He as (x & Hx & <-%N.eqb_eq). rewrite sort_by_perm in Hx. by apply list_elem_of_fmap_2.
  - intros Hg. rewrite Existsb_false in He. destruct (list_elem_of_fmap_1 _ _ _ (Hg id eq_refl)) as (x & -> & Hx).
    specialize (He x). rewrite sort_by_perm in He. specialize (He Hx). by rewrite N.eqb_refl in He.
Qed.

(** A reordering does exactly what it is asked, or nothing.  When the identifiers are
    those of the profiles of the group, each once, in any order, and no statement
    fails, it succeeds: no profile changes but those, each in its order and its time
    only, and from then on the profiles of the group are listed in the order given;
    with other identifiers, or for a group that does not exist, it is refused and
    nothing changes. *)
Theorem profiles_reordered_exactly now group ids db :
  consistent db -> (Z.of_nat (length (cd_profiles db)) <= I32_MAX)%Z ->
  let mine := map sp_id (List.filter (in_group group) (cd_profiles db)) in
  let '(result, _, db') := profiles_reorder now group ids [] db in
  (grouped (cd_groups db) group -> ids ≡ₚ mine ->
     cd_groups db' = cd_groups db /\
     cd_profiles db' ≡ₚ map (placed sp_id (in_group group) (profile_at now) 0 ids) (cd_profiles db) /\
     exists rows listed, result = Ok rows /\ profiles_list [] db' = (Ok listed, [], db') /\
       map sp_id (List.filter (in_group group) rows) = ids /\ map sp_id (List.filter (in_group group) listed) = ids) /\
  (~ (grouped (cd_groups db) group /\ ids ≡ₚ mine) -> is_ok result = false /\ db' = db).
Proof.
  intros Hdb Hmax. cbn zeta. unfold profiles_reorder, mbind, db_bind.
  destruct (validate_group_works db group) as [[-> Hgr]|[-> Hgr]]; [|split; [done|by split]].
  rewrite list_profiles_works by done. set (listing := sort_by _ (cd_profiles db)).
  assert (Hl : listing ≡ₚ cd_profiles db) by apply sort_by_perm. destruct (listed_profiles False db listing Hdb Hl) as (Hok & Hj & Hnd).
  assert (Hmine : map sp_id (List.filter (in_group group) listing) ≡ₚ map sp_id (List.filter (in_group group) (cd_profiles db)))
    by (apply Permutation_map, filter_perm, Hl).
  assert (Hndm : NoDup (map sp_id (List.filter (in_group group) listing))) by (by apply NoDup_filter_map).
  unfold db_lift. destruct (same_ids ids _) eqn:Hsame.
  2: { cbn. split; [|done]. intros _ Hids. exfalso. apply not_true_iff_false in Hsame. apply Hsame.
       apply same_ids_spec; [done|]. by rewrite Hmine. }
  apply same_ids_spec in Hsame; [|done]. cbn [negb reject_if].
  assert (Hids : NoDup ids) by (by rewrite Hsame).
  assert (Hlen : (length ids <= length (cd_profiles db))%nat).
  { rewrite Hsame, length_map, <- Hl. apply List.filter_length_le. }
  rewrite (reorder_rows_exact sp_id sp_sort_order (in_group group) (profile_at now) ltac:(done) ltac:(done) ltac:(done) InvalidProfile 0 ids listing Hnd Hids);
    [|intros id Hid; by rewrite <- Hsame|cbn; lia].
  set (rows := map (placed sp_id (in_group group) (profile_at now) 0 ids) listing).
  assert (Hrows : map sp_id rows = map sp_id listing).
  { unfold rows. rewrite map_map. apply map_ext. intros p. by apply placed_key. }
  rewrite replace_profiles_works by (rewrite by_order_perm, Hrows; done).
  assert (Hdone : forall sorted, sorted ≡ₚ rows -> StronglySorted (fun a b => sp_sort_order a <= sp_sort_order b)%Z sorted ->
    map sp_id (List.filter (in_group group) sorted) = ids).
  { intros sorted Hp Hs. eapply (placed_order sp_id sp_sort_order (in_group group) (profile_at now)); done. }
  split; [|intros Hno; destruct Hno; by rewrite <- Hmine].
  intros _ _. split; [done|]. cbn [cd_profiles]. split.
  { rewrite by_order_perm. unfold rows. by rewrite Hl. }
  assert (Hdb' : consistent {| cd_groups := cd_groups db; cd_profiles := by_order sp_sort_order rows |}).
  { pose proof (keeps_profiles_reorder False now group ids db Hdb []) as Hk. unfold profiles_reorder, mbind, db_bind in Hk.
    destruct (validate_group_works db group) as [[Hv _]|[_ Hv]]; [|by destruct Hv]. rewrite Hv, list_profiles_works in Hk by done.
    fold listing in Hk. unfold db_lift in Hk. rewrite (proj2 (same_ids_spec ids _ Hndm) Hsame) in Hk. cbn [negb reject_if] in Hk.
    rewrite (reorder_rows_exact sp_id sp_sort_order (in_group group) (profile_at now) ltac:(done) ltac:(done) ltac:(done) InvalidProfile 0 ids listing Hnd Hids) in Hk;
      [|intros id Hid; by rewrite <- Hsame|cbn; lia].
    fold rows in Hk. by rewrite replace_profiles_works in Hk by (rewrite by_order_perm, Hrows; done). }
  eexists _, _. split; [reflexivity|]. split.
  { unfold profiles_list, mbind, db_bind. rewrite list_profiles_works by done. reflexivity. }
  split; [apply Hdone; [apply by_order_perm|apply by_order_sorted]|]. apply Hdone; [|apply by_order_sorted].
  rewrite by_order_perm, sort_by_perm. apply by_order_perm.
Qed.
End Reordered.

(** ** Concrete calls *)
#[local] Existing Instance quoting_externals.

Definition empty_catalog : CatalogDb := {| cd_groups := []; cd_profiles := [] |}.
Definition server (name : String.string) (group : option Uuid) (route : ConnectionRoute) : CreateProfileRequest :=
  {| cp_name := lit name; cp_host := lit " h "; cp_port := 22; cp_username := lit "root"; cp_group_id := group;
     cp_auth_method := AuthPassword; cp_key_source := None; cp_connection_route := route |}.
Arguments server name%_string group route.

(** A group with two profiles, one of them reached through a third; the deletion of
    the group fails after its first save. *)
Definition catalog_calls : list (CatalogCall * list bool) :=
  [(CcCreateGroup 1 (lit "t") (lit " web "), []);
   (CcCreateProfile 2 (lit "t") (server "a" (Some 1%N) RouteDirect), []);
   (CcCreateProfile 3 (lit "t") (server "b" None RouteDirect), [false; true]);
   (CcCreateProfile 3 (lit "t") (server "b" None RouteDirect), []);
   (CcCreateProfile 4 (lit "t") (server "c" (Some 1%N) (RouteJumpHost 3)), []);
   (CcReorderProfiles (lit "u") (Some 1%N) [4; 2]%N, []);
   (CcDeleteProfile 3, []);
   (CcCreateProfile 5 (lit "t") (server "d" None (RouteJumpHost 4)), []);
   (CcDeleteGroup (lit "v") 1, [false; false; false; true])].
Definition sample_catalog (n : nat) : CatalogDb := catalog_after (take n catalog_calls) empty_catalog.
Definition catalog_view (db : CatalogDb) : list Uuid * list (Uuid * option Uuid * Z) :=
  (map hg_id (cd_groups db), map (fun p => (sp_id p, sp_group_id p, sp_sort_order p)) (cd_profiles db)).

Example catalog_runs :
  catalog_view (sample_catalog 6) = ([1%N], [(3, None, 0%Z); (4, Some 1, 0%Z); (2, Some 1, 1%Z)]%N) /\
  catalog_view (sample_catalog 9) = ([1%N], [(3, None, 0%Z); (4, None, 0%Z); (2, None, 1%Z)]%N).
Proof. split; vm_compute; reflexivity. Qed.

Lemma empty_consistent self : catalog_ok self empty_catalog.
Proof. split; [constructor..|]. intros i j Hij. by apply elem_of_nil in Hij. Qed.

(** Two entries of an import on the same server, one reached through the other. *)
Definition bounced (source : String.string) (jump : option str) : ImportUpsertRequest :=
  {| iu_name := lit source; iu_host := lit "h"; iu_port := 22; iu_username := lit "root"; iu_group_id := None;
     iu_auth_method := AuthPassword; iu_key_source := None; iu_source_id := Some (lit source); iu_jump_source_id := jump;
     iu_password := None |}.
Definition bounced_calls : list (CatalogCall * list bool) :=
  [(CcImport (fun n => (N.of_nat n + 1, lit "t")%N) (fun _ => lit "t") [bounced "a" None; bounced "b" (Some (lit "a"))], [])].

Lemma catalog_stays_consistent_witness :
  catalog_view (sample_catalog 9) = ([1%N], [(3, None, 0%Z); (4, None, 0%Z); (2, None, 1%Z)]%N) /\
  consistent (sample_catalog 9) /\ catalog_ok True (catalog_after bounced_calls empty_catalog).
Proof.
  split; [vm_compute; reflexivity|]. split.
  - apply (proj2 (catalog_stays_consistent catalog_calls empty_catalog) (empty_consistent False)).
    intros c o Hin. unfold catalog_calls in Hin. rewrite !elem_of_cons, elem_of_nil in Hin.
    destruct Hin as [[= -> _]|[[= -> _]|[[= -> _]|[[= -> _]|[[= -> _]|[[= -> _]|[[= -> _]|[[= -> _]|[[= -> _]|[]]]]]]]]]];
      exact I.
  - exact (proj1 (catalog_stays_consistent bounced_calls empty_catalog) (empty_consistent True)).
Defined.

Lemma sample_consistent n : consistent (sample_catalog n).
Proof.
  assert (Hall : forall calls db, consistent db -> Forall (fun c => plain_call (fst c)) calls -> consistent (catalog_after calls db)).
  { induction calls as [|[c o] calls IH]; intros db Hdb Hp; [done|]. apply Forall_cons in Hp as [Hc Hp]. cbn. apply IH; [|done].
    pose proof (keeps_call False c (or_introl Hc) db Hdb o) as Hk. by destruct (catalog_call c o db) as [[[a|e] o'] db']. }
  apply Hall; [apply empty_consistent|]. apply Forall_take. repeat constructor.
Qed.

Lemma profiles_reordered_exactly_witness :
  exists rows, fst (fst (profiles_reorder (lit "u") (Some 1%N) [4; 2]%N [] (sample_catalog 5))) = Ok rows /\
    map sp_id (List.filter (in_group (Some 1%N)) rows) = [4; 2]%N.
Proof.
  pose proof (profiles_reordered_exactly (lit "u") (Some 1%N) [4; 2]%N (sample_catalog 5) (sample_consistent 5) ltac:(vm_compute; discriminate)) as Hr.
  cbv zeta in Hr. destruct (profiles_reorder (lit "u") (Some 1%N) [4; 2]%N [] (sample_catalog 5)) as [[result o] db'].
  destruct Hr as [Hr _].
  assert (Hmine : map sp_id (List.filter (in_group (Some 1%N)) (cd_profiles (sample_catalog 5))) = [2; 4]%N) by (vm_compute; reflexivity).
  assert (Hgroups : map hg_id (cd_groups (sample_catalog 5)) = [1%N]) by (vm_compute; reflexivity).
  rewrite Hmine in Hr. unfold grouped in Hr. rewrite Hgroups in Hr.
  destruct Hr as (_ & _ & rows & listed & Hrows & _ & Hids & _); [intros g [= <-]; set_solver|apply Permutation_swap|].
  exists rows. split; [exact Hrows|exact Hids].
Defined.

(** *** Where the services depart from what they mean *)

(** An entry of an import whose jump host is an entry of the same server becomes a
    profile that is its own jump host, which creating or updating one refuses. *)
Example import_wires_itself :
  let db := catalog_after bounced_calls empty_catalog in
  map (fun p => (sp_id p, sp_connection_route p)) (cd_profiles db) = [(1%N, RouteJumpHost 1)] /\
  validate_route (RouteJumpHost 1) (Some 1%N) (cd_profiles db) = Err InvalidJumpHost.
Proof. split; vm_compute; reflexivity. Qed.

(** A profile that lost its group with the rest of it keeps its place among others. *)
Example ungrouped_orders_repeat :
  map (fun p => (sp_id p, sp_sort_order p)) (List.filter (in_group None) (cd_profiles (sample_catalog 9)))
  = [(3, 0%Z); (4, 0%Z); (2, 1%Z)]%N.
Proof. vm_compute. reflexivity. Qed.
