(* ===== verification/KnownHosts.v ===== *)
(** * Host keys (known_hosts/service.rs, domain/known_host.rs)

    A key that a host shows is prepared as an attempt, trusted by the user or known
    already, and consumed once by the connection that it is for.  The attempts are in
    memory behind a lock, and the known hosts are a table of the catalog; a state is
    both.  Every operation of [KnownHostService] is a [proc] whose sections hold the
    lock on the attempts, the write lock, or none for a single statement; saving
    replaces the table in one transaction.  Whether a listing fails, the clocks and the
    random identifiers are answered from outside.  The clocks are read before the
    section that uses the time. *)
From S2P Require Import Prelude Str Errors RunState Process.

(** [str::to_lowercase], of the Unicode tables. *)
Class CaseExternals := { str_to_lowercase : str -> str }.

(** [Duration::from_secs(120)], an [Instant] being in nanoseconds. *)
Definition ATTEMPT_LIFETIME : N := 120 * 10 ^ 9.

(** ** Data *)
Record KnownHost := {
  kh_route_scope : str; kh_host : str; kh_port : N; kh_key_type : str; kh_fingerprint : str;
  kh_created_at : str; kh_updated_at : str }.
Record HostKeyInfo := { hk_key_type : str; hk_fingerprint : str }.
Inductive HostVerificationStatus := HvUnknown | HvTrusted.
#[export] Instance host_status_eq_dec : EqDecision HostVerificationStatus.
Proof. solve_decision. Defined.
Record HostVerification := {
  hv_attempt_id : Uuid; hv_host : str; hv_port : N; hv_key_type : str; hv_fingerprint : str;
  hv_status : HostVerificationStatus; hv_route_scope : str }.
Record VerificationAttempt := {
  va_route_scope : str; va_host : str; va_port : N; va_key_type : str; va_fingerprint : str; va_approved : bool;
  va_expires_at : N }.

(** [KnownHostService], with the table. *)
Record KnownHostState := { kn_attempts : gmap Uuid VerificationAttempt; kn_hosts : list KnownHost }.

Definition set_attempts (attempts : gmap Uuid VerificationAttempt) (s : KnownHostState) : KnownHostState :=
  {| kn_attempts := attempts; kn_hosts := kn_hosts s |}.

(** [(route_scope, host, port)], the primary key, and its order. *)
Definition host_key (k : KnownHost) : str * str * N := (kh_route_scope k, kh_host k, kh_port k).
Definition host_leb (a b : KnownHost) : bool :=
  if str_eqb (kh_route_scope a) (kh_route_scope b) then
    if str_eqb (kh_host a) (kh_host b) then (kh_port a <=? kh_port b)%N else str_leb (kh_host a) (kh_host b)
  else str_leb (kh_route_scope a) (kh_route_scope b).
Definition is_host (key : str * str * N) (k : KnownHost) : bool := bool_decide (host_key k = key).

(** ** Normal forms *)
Section KnownHosts.
Context `{CaseExternals}.

Definition normalize_scope (scope : str) : AppResult str :=
  let scope := str_to_lowercase (trim scope) in
  reject_if (is_empty scope || (512 <? blen scope)%N || existsb is_whitespace scope) InvalidProfile ;; Ok scope.

Definition normalize_endpoint (host : str) (port : N) : AppResult str :=
  let host := str_to_lowercase (trim host) in
  reject_if (is_empty host || existsb is_whitespace host || (port =? 0)%N) InvalidProfile ;; Ok host.

(** ** Operations *)
Inductive KhQuery := KhInstant | KhTimestamp | KhNewId | KhListFails.
Definition KhAnswer (q : KhQuery) : Type :=
  match q with KhInstant => N | KhTimestamp => str | KhNewId => Uuid | KhListFails => bool end.
Abbreviation KhProc := (proc KnownHostState (list KnownHost) KhQuery KhAnswer) (only parsing).
Abbreviation KhHeld := (held KnownHostState (list KnownHost)) (only parsing).

(** [SELECT .. ORDER BY route_scope, host, port]; a row with port 0 is refused. *)
Definition listed_hosts (fails : bool) (hosts : list KnownHost) : AppResult (list KnownHost) :=
  reject_if (fails || existsb (fun k => kh_port k =? 0)%N hosts) Storage ;; Ok (sort_by host_leb hosts).

(** [repository.save]: all rows replaced, or none when a primary key is repeated. *)
Definition save_hosts (hosts : list KnownHost) (s : KnownHostState) (s' : KnownHostState) : KhHeld unit :=
  if bool_decide (NoDup (map host_key hosts)) then
    Save s hosts (fun saved => match saved with Ok _ => (s', Ok tt) | Err e => (s, Err e) end)
  else Leave s (Err Storage).

Definition repository_list : KhProc (list KnownHost) :=
  fails ← ask KhListFails; locked (fun s => Leave s (listed_hosts fails (kn_hosts s))).

Definition key_status (observed : HostKeyInfo) (known : option KnownHost) : AppResult HostVerificationStatus :=
  match known with
  | Some known =>
      if str_eqb (kh_key_type known) (hk_key_type observed) && str_eqb (kh_fingerprint known) (hk_fingerprint observed)
      then Ok HvTrusted else Err HostKeyChanged
  | None => Ok HvUnknown
  end.

Definition prepared_attempt (scope host : str) (port : N) (observed : HostKeyInfo) (status : HostVerificationStatus)
    (now : N) : VerificationAttempt :=
  {| va_route_scope := scope; va_host := host; va_port := port; va_key_type := hk_key_type observed;
     va_fingerprint := hk_fingerprint observed; va_approved := bool_decide (status = HvTrusted);
     va_expires_at := now + ATTEMPT_LIFETIME |}.

Definition prepare_scoped (scope host : str) (port : N) (observed : HostKeyInfo) : KhProc HostVerification :=
  scope ← lift (normalize_scope scope);
  host ← lift (normalize_endpoint host port);
  known_hosts ← repository_list;
  status ← lift (key_status observed (List.find (is_host (scope, host, port)) known_hosts));
  id ← ask KhNewId;
  now ← ask KhInstant;
  locked (fun s =>
    Leave (set_attempts (<[id := prepared_attempt scope host port observed status now]> (kn_attempts s)) s) (Ok tt)) ;;
  mret {| hv_attempt_id := id; hv_host := host; hv_port := port; hv_key_type := hk_key_type observed;
          hv_fingerprint := hk_fingerprint observed; hv_status := status; hv_route_scope := scope |}.

Definition approved_attempt (a : VerificationAttempt) : VerificationAttempt :=
  {| va_route_scope := va_route_scope a; va_host := va_host a; va_port := va_port a; va_key_type := va_key_type a;
     va_fingerprint := va_fingerprint a; va_approved := true; va_expires_at := va_expires_at a |}.

Definition known_host_of (stamp : str) (a : VerificationAttempt) : KnownHost :=
  {| kh_route_scope := va_route_scope a; kh_host := va_host a; kh_port := va_port a; kh_key_type := va_key_type a;
     kh_fingerprint := va_fingerprint a; kh_created_at := stamp; kh_updated_at := stamp |}.

Definition without_host (key : str * str * N) (hosts : list KnownHost) : list KnownHost :=
  List.filter (fun k => negb (is_host key k)) hosts.

Definition attempt_key (a : VerificationAttempt) : str * str * N := (va_route_scope a, va_host a, va_port a).

Definition trust (id : Uuid) (remember : bool) : KhProc unit :=
  now ← ask KhInstant;
  stamp ← ask KhTimestamp;
  fails ← ask KhListFails;
  locked (fun s =>
    match opt_filter (fun a => now <? va_expires_at a)%N (kn_attempts s !! id) with
    | None => Leave s (Err HostVerificationExpired)
    | Some a =>
        let attempts := <[id := approved_attempt a]> (kn_attempts s) in
        if remember then
          match listed_hosts fails (kn_hosts s) with
          | Err e => Leave s (Err e)
          | Ok hosts =>
              let hosts := sort_by host_leb (without_host (attempt_key a) hosts ++ [known_host_of stamp a]) in
              save_hosts hosts s {| kn_attempts := attempts; kn_hosts := hosts |}
          end
        else Leave (set_attempts attempts s) (Ok tt)
    end).

Definition kh_cancel (id : Uuid) : KhProc unit :=
  locked (fun s => Leave (set_attempts (delete id (kn_attempts s)) s) (Ok tt)).

Definition consumable (now : N) (scope host : str) (port : N) (a : VerificationAttempt) : bool :=
  (now <? va_expires_at a)%N && va_approved a && bool_decide (attempt_key a = (scope, host, port)).

Definition consume_scoped (id : Uuid) (scope host : str) (port : N) : KhProc str :=
  scope ← lift (normalize_scope scope);
  host ← lift (normalize_endpoint host port);
  now ← ask KhInstant;
  locked (fun s =>
    Leave (set_attempts (delete id (kn_attempts s)) s)
      (va_fingerprint <$>
         ok_or (opt_filter (consumable now scope host port) (kn_attempts s !! id)) HostVerificationExpired)).

Definition kh_list : KhProc (list KnownHost) :=
  hosts ← repository_list; mret (sort_by host_leb hosts).

Definition remove_scoped (scope host : str) (port : N) : KhProc unit :=
  scope ← lift (normalize_scope scope);
  host ← lift (normalize_endpoint host port);
  fails ← ask KhListFails;
  locked (fun s =>
    match listed_hosts fails (kn_hosts s) with
    | Err e => Leave s (Err e)
    | Ok hosts =>
        let kept := without_host (scope, host, port) hosts in
        if (length kept =? length hosts)%nat then Leave s (Err HostKeyUnknown)
        else save_hosts kept s {| kn_attempts := kn_attempts s; kn_hosts := kept |}
    end).

(** The wrappers of the direct route. *)
Definition direct : str := lit "direct".
Definition prepare (host : str) (port : N) (observed : HostKeyInfo) : KhProc HostVerification :=
  prepare_scoped direct host port observed.
Definition consume (id : Uuid) (host : str) (port : N) : KhProc str := consume_scoped id direct host port.
Definition kh_remove (host : str) (port : N) : KhProc unit := remove_scoped direct host port.

(** ** The service as a whole *)
Inductive KhCall :=
  | KhPrepare (scope host : str) (port : N) (observed : HostKeyInfo)
  | KhTrust (id : Uuid) (remember : bool)
  | KhCancel (id : Uuid)
  | KhConsume (id : Uuid) (scope host : str) (port : N)
  | KhList
  | KhRemove (scope host : str) (port : N).
Inductive KhReply :=
  | RUnit | RVerification (v : HostVerification) | RFingerprint (f : str) | RHosts (hosts : list KnownHost).

Definition kh_reply {A} (f : A -> KhReply) (p : KhProc A) : KhProc KhReply := a ← p; mret (f a).
Definition kh_body (c : KhCall) : KhProc KhReply :=
  match c with
  | KhPrepare scope host port observed => kh_reply RVerification (prepare_scoped scope host port observed)
  | KhTrust id remember => kh_reply (fun _ => RUnit) (trust id remember)
  | KhCancel id => kh_reply (fun _ => RUnit) (kh_cancel id)
  | KhConsume id scope host port => kh_reply RFingerprint (consume_scoped id scope host port)
  | KhList => kh_reply RHosts kh_list
  | KhRemove scope host port => kh_reply (fun _ => RUnit) (remove_scoped scope host port)
  end.
End KnownHosts.
