(* ===== verification/KnownHostsTheorems.v ===== *)
(** * What holds of host keys

    However the calls interleave: a connection goes through on a key that was shown
    for that very endpoint and confirmed, or known; and a key that is known for an
    endpoint changes only by a removal or by an explicit trust. *)
From S2P Require Import Prelude Str Errors RunState Process History KnownHosts.

Section Theorems.
Context `{CaseExternals}.

Abbreviation KhPool := (pool KnownHostState (list KnownHost) KhQuery KhAnswer KhCall KhReply) (only parsing).
Abbreviation Calls := (gmap nat (KhCall * proc KnownHostState (list KnownHost) KhQuery KhAnswer KhReply)) (only parsing).

(** The name of an endpoint in its normal form. *)
Definition named (scope host : str) (port : N) (key : str * str * N) : Prop :=
  normalize_scope scope = Ok (fst (fst key)) /\ normalize_endpoint host port = Ok (snd (fst key)) /\ port = snd key.

(** A key that is known of an endpoint. *)
Definition known_in (s : KnownHostState) (key : str * str * N) (key_type fingerprint : str) : Prop :=
  exists k, k ∈ kn_hosts s /\ host_key k = key /\ kh_key_type k = key_type /\ kh_fingerprint k = fingerprint.

(** ** The steps *)
Inductive kh_step (c : KhCall) (past : list KnownHostState) (s : KnownHostState) : KnownHostState -> Prop :=
  | kh_same : kh_step c past s s
  | kh_prepared scope host port observed scope' host' status now id :
      c = KhPrepare scope host port observed -> named scope host port (scope', host', port) ->
      (status = HvTrusted -> exists s1, s1 ∈ past ++ [s] /\
         known_in s1 (scope', host', port) (hk_key_type observed) (hk_fingerprint observed)) ->
      kh_step c past s (set_attempts (<[id := prepared_attempt scope' host' port observed status now]> (kn_attempts s)) s)
  | kh_trusted id remember a :
      c = KhTrust id remember -> kn_attempts s !! id = Some a ->
      kh_step c past s (set_attempts (<[id := approved_attempt a]> (kn_attempts s)) s)
  | kh_remembered id a stamp hosts :
      c = KhTrust id true -> kn_attempts s !! id = Some a ->
      hosts ≡ₚ without_host (attempt_key a) (kn_hosts s) ++ [known_host_of stamp a] -> NoDup (map host_key hosts) ->
      kh_step c past s {| kn_attempts := <[id := approved_attempt a]> (kn_attempts s); kn_hosts := hosts |}
  | kh_dropped id :
      c = KhCancel id \/ (exists scope host port, c = KhConsume id scope host port) ->
      kh_step c past s (set_attempts (delete id (kn_attempts s)) s)
  | kh_removed scope host port key hosts :
      c = KhRemove scope host port -> named scope host port key -> hosts ≡ₚ without_host key (kn_hosts s) ->
      NoDup (map host_key hosts) -> kh_step c past s {| kn_attempts := kn_attempts s; kn_hosts := hosts |}.

(** What a call that has ended says of the states before. *)
Definition kh_ended (c : KhCall) (past : list KnownHostState) (r : AppResult KhReply) : Prop :=
  match c, r with
  | KhConsume id scope host port, Ok (RFingerprint fingerprint) =>
      exists l s a, past = l ++ [s; set_attempts (delete id (kn_attempts s)) s] /\ kn_attempts s !! id = Some a /\
        va_approved a = true /\ named scope host port (attempt_key a) /\ va_fingerprint a = fingerprint
  | KhPrepare scope host port observed, Ok (RVerification v) =>
      named scope host port (hv_route_scope v, hv_host v, hv_port v) /\
      hv_key_type v = hk_key_type observed /\ hv_fingerprint v = hk_fingerprint observed /\
      exists s, s ∈ past /\
        key_status observed (List.find (is_host (hv_route_scope v, hv_host v, hv_port v)) (sort_by host_leb (kn_hosts s)))
        = Ok (hv_status v)
  | _, _ => True
  end.

Abbreviation certified c := (certifies (kh_step c)) (only parsing).

Lemma listed_hosts_perm fails hosts l : listed_hosts fails hosts = Ok l -> l = sort_by host_leb hosts.
Proof. unfold listed_hosts. intros (u & _ & [= <-])%bind_ok. done. Qed.

Lemma certified_lift {A B} c past (r : AppResult A) (k : A -> proc KnownHostState (list KnownHost) KhQuery KhAnswer B) Post :
  (forall e, Post past (Err e)) -> (forall a, r = Ok a -> certified c past (k a) Post) -> certified c past (a ← lift r; k a) Post.
Proof. destruct r as [a|e]; cbn; auto. Qed.

(** The listing: a section that leaves the state. *)
Lemma certified_listing {B} c past (k : list KnownHost -> proc KnownHostState (list KnownHost) KhQuery KhAnswer B) Post :
  (forall past' e, Post past' (Err e)) ->
  (forall past' s, s ∈ past' -> certified c past' (k (sort_by host_leb (kn_hosts s))) Post) ->
  certified c past (hosts ← repository_list; k hosts) Post.
Proof.
  intros He Hk fails past' s Hp. split; [apply kh_same|]. destruct (listed_hosts fails (kn_hosts s)) as [l|e] eqn:Hl.
  - apply listed_hosts_perm in Hl as ->. cbn. apply Hk. set_solver.
  - apply He.
Qed.

Lemma without_perm key hosts hosts' : hosts ≡ₚ hosts' -> without_host key hosts ≡ₚ without_host key hosts'.
Proof. unfold without_host. induction 1; cbn; repeat case_match; try done; [by constructor|apply Permutation_swap|by etransitivity]. Qed.

Lemma find_host_in key hosts k : List.find (is_host key) hosts = Some k -> k ∈ hosts /\ host_key k = key.
Proof. intros [Hin Hk]%List.find_some. split; [by apply list_elem_of_In|]. by apply bool_decide_eq_true in Hk. Qed.

Lemma body_certified call : certified call [] (kh_body call) (kh_ended call).
Proof.
  destruct call as [scope host port observed|id remember|id|id scope host port| |scope host port]; cbn [kh_body];
    unfold kh_reply; apply certifies_bind.
  - unfold prepare_scoped. apply certified_lift; [done|]. intros scope' Hscope. apply certified_lift; [done|].
    intros host' Hhost. apply certified_listing; [done|]. intros past s Hs. apply certified_lift; [done|].
    intros status Hstatus id now past' s' Hp. split.
    + eapply kh_prepared; [done|done|]. intros ->. exists s. split.
      * destruct Hp as [rest ->]. set_solver.
      * unfold key_status in Hstatus. destruct (List.find _ _) as [k|] eqn:Hf; [|done].
        destruct (str_eqb _ _ && _) eqn:Hk; [|done]. apply andb_true_iff in Hk as [Ht%str_eqb_eq Hfp%str_eqb_eq].
        apply find_host_in in Hf as [Hin Hkey]. rewrite sort_by_perm in Hin. by exists k.
    + cbn. split_and!; try done. exists s. split; [|exact Hstatus]. destruct Hp as [rest Hrest].
      change [s'; ?x] with ([s'] ++ [x]). rewrite app_assoc, Hrest. set_solver.
  - intros now stamp fails past' s _. destruct (opt_filter _ _) as [a|] eqn:Ha; [|split; [apply kh_same|done]].
    apply opt_filter_some in Ha as [Ha _]. destruct remember; [|split; [by eapply kh_trusted|done]].
    destruct (listed_hosts fails (kn_hosts s)) as [l|e] eqn:Hl; [|split; [apply kh_same|done]].
    apply listed_hosts_perm in Hl as ->. unfold save_hosts. case_bool_decide as Hnd; [|split; [apply kh_same|done]].
    intros [[]|e]; (split; [|done]); [|apply kh_same]. eapply kh_remembered; [done|done| |done].
    rewrite sort_by_perm. by rewrite (without_perm _ _ _ (sort_by_perm host_leb (kn_hosts s))).
  - intros past' s _. split; [apply kh_dropped; by left|done].
  - unfold consume_scoped. apply certified_lift; [done|]. intros scope' Hscope. apply certified_lift; [done|].
    intros host' Hhost now past' s _. split; [apply kh_dropped; right; eauto|].
    destruct (opt_filter _ _) as [a|] eqn:Ha; [|done]. apply opt_filter_some in Ha as [Ha Hc].
    unfold consumable in Hc. rewrite !andb_true_iff, bool_decide_eq_true in Hc. destruct Hc as [[_ Happ] Hkey].
    cbn. exists past', s, a. rewrite Hkey. by split_and!.
  - unfold kh_list. apply certified_listing; [done|]. intros past s _. done.
  - unfold remove_scoped. apply certified_lift; [done|]. intros scope' Hscope. apply certified_lift; [done|].
    intros host' Hhost fails past' s _. destruct (listed_hosts fails (kn_hosts s)) as [l|e] eqn:Hl; [|split; [apply kh_same|done]].
    apply listed_hosts_perm in Hl as ->. destruct (_ =? _)%nat; [split; [apply kh_same|done]|].
    unfold save_hosts. case_bool_decide as Hnd; [|split; [apply kh_same|done]].
    intros [[]|e]; (split; [|done]); [|apply kh_same].
    eapply (kh_removed _ _ _ scope host port (scope', host', port)); [done|done| |done].
    apply without_perm, sort_by_perm.
Qed.

(** ** Attempts *)

(** A preparation of this very endpoint was shown this key. *)
Definition shown (calls : Calls) (a : VerificationAttempt) : Prop :=
  exists t p scope host port observed, calls !! t = Some (KhPrepare scope host port observed, p) /\
    named scope host port (attempt_key a) /\ hk_key_type observed = va_key_type a /\ hk_fingerprint observed = va_fingerprint a.

(** The attempt was trusted, or the endpoint was known by this key. *)
Definition confirmed (calls : Calls) (past : list KnownHostState) (id : Uuid) (a : VerificationAttempt) : Prop :=
  (exists t p remember, calls !! t = Some (KhTrust id remember, p)) \/
  (exists s, s ∈ past /\ known_in s (attempt_key a) (va_key_type a) (va_fingerprint a)).

Record sound_state (calls : Calls) (past : list KnownHostState) (s : KnownHostState) : Prop := {
  sound_hosts : NoDup (map host_key (kn_hosts s));
  sound_shown : forall id a, kn_attempts s !! id = Some a -> shown calls a;
  sound_confirmed : forall id a, kn_attempts s !! id = Some a -> va_approved a = true -> confirmed calls (past ++ [s]) id a;
}.

Lemma confirmed_mono calls past past' id a :
  (forall s, s ∈ past -> s ∈ past') -> confirmed calls past id a -> confirmed calls past' id a.
Proof. intros Hp [?|(s & Hs & ?)]; [by left|right]. exists s. auto. Qed.

Lemma sound_step calls past s s' :
  sound_state calls past s ->
  s' = s \/ (exists t c p, calls !! t = Some (c, p) /\ kh_step c past s s') -> sound_state calls (past ++ [s]) s'.
Proof.
  intros Hsound Hstep.
  assert (Hsame : sound_state calls (past ++ [s]) s).
  { destruct Hsound as [Hn Hs Hc]. split; [done|done|]. intros id a Ha Happ. eapply confirmed_mono; [|by eapply Hc]. set_solver. }
  destruct Hstep as [->|(t & c & p & Ht & Hstep)]; [done|]. destruct Hsame as [Hn Hs Hc].
  assert (Hlater : forall (s2 : KnownHostState) id a, confirmed calls ((past ++ [s]) ++ [s]) id a -> confirmed calls ((past ++ [s]) ++ [s2]) id a).
  { intros s2 id a. apply confirmed_mono. set_solver. }
  assert (Htrust : forall id a (s2 : KnownHostState), (exists remember, c = KhTrust id remember) -> kn_attempts s !! id = Some a ->
    NoDup (map host_key (kn_hosts s2)) -> kn_attempts s2 = <[id := approved_attempt a]> (kn_attempts s) ->
    sound_state calls (past ++ [s]) s2).
  { intros id a s2 [remember ->] Ha Hnd Hatt. split; [done|rewrite Hatt..].
    - intros i b [[<- <-]|[_ Hb]]%lookup_insert_Some; [|by eapply Hs]. exact (Hs id a Ha).
    - intros i b [[<- <-]|[_ Hb]]%lookup_insert_Some Happ; [left; eauto|]. by eapply Hlater, Hc. }
  destruct Hstep as [|scope host port observed scope' host' status now id -> Hnamed Hknown|id remember a -> Ha|id a stamp hosts -> Ha _ Hnd
    |id _|scope host port key hosts -> _ _ Hnd].
  - by split.
  - split; [done|..]; cbn [set_attempts kn_attempts].
    + intros i a [[_ <-]|[_ Ha]]%lookup_insert_Some; [|by eapply Hs]. by exists t, p, scope, host, port, observed.
    + intros i a [[_ <-]|[_ Ha]]%lookup_insert_Some Happ; [|by eapply Hlater, Hc].
      right. cbn in Happ. apply bool_decide_eq_true in Happ. destruct (Hknown Happ) as (s1 & Hin & Hk). exists s1.
      split; [set_solver|exact Hk].
  - by eapply (Htrust id a); [eauto|done..].
  - by eapply (Htrust id a); [eauto|done..].
  - split; [done|..]; cbn [set_attempts kn_attempts]; intros i a [_ Ha]%lookup_delete_Some; [by eapply Hs|].
    intros Happ. by eapply Hlater, Hc.
  - split; [done|exact Hs|]. intros i a Ha Happ. by eapply Hlater, Hc.
Qed.

Definition no_attempts (hosts : list KnownHost) : KnownHostState := {| kn_attempts := ∅; kn_hosts := hosts |}.

Lemma sound_states hosts (w : KhPool) states :
  NoDup (map host_key hosts) -> historied kh_step kh_ended (no_attempts hosts) w states ->
  forall l s rest, states = l ++ s :: rest -> sound_state (pl_threads w) l s.
Proof.
  intros Hnd Hh. eapply (historied_states _ _ _ _ _ _ Hh).
  - split; [done|..]; intros id a Ha; cbn in Ha; by apply lookup_empty_Some in Ha.
  - intros l s s' Hs Hstep. by apply sound_step.
Qed.

(** C30. A connection goes through on a key that was confirmed.  However calls interleave,
    a consumption that answers with a fingerprint has taken an attempt away, so that it
    serves once; the attempt was for exactly this route, host and port; a preparation
    of this endpoint was shown this very key; and either that attempt was trusted, or
    the endpoint was known by this key at some time before. *)
Theorem host_keys_are_confirmed admits hosts d (w : KhPool) t id scope host port fingerprint :
  rtc (pool_step kh_body admits) (pool_init (no_attempts hosts) d) w -> NoDup (map host_key hosts) ->
  pl_threads w !! t = Some (KhConsume id scope host port, Done (Ok (RFingerprint fingerprint))) ->
  exists states l s a rest, historied kh_step kh_ended (no_attempts hosts) w states /\
    states = l ++ s :: set_attempts (delete id (kn_attempts s)) s :: rest /\
    kn_attempts s !! id = Some a /\ va_approved a = true /\ named scope host port (attempt_key a) /\
    va_fingerprint a = fingerprint /\ shown (pl_threads w) a /\ confirmed (pl_threads w) (l ++ [s]) id a.
Proof.
  intros Hw Hnd Ht. destruct (pool_history _ _ _ _ body_certified _ _ _ Hw) as [states Hh].
  destruct Hh as (Hhead & Hlast & Hs & Hthreads). destruct (Hthreads _ _ _ Ht) as (past & [rest ->] & Hend).
  destruct Hend as (l & s & a & -> & Ha & Happ & Hnamed & Hfp). rewrite <- app_assoc in *. cbn in *.
  set (states := l ++ s :: _) in *. assert (Hh : historied kh_step kh_ended (no_attempts hosts) w states) by done.
  destruct (sound_states hosts w states Hnd Hh l s _ eq_refl) as [_ Hshown Hconf].
  exists states, l, s, a, rest. split_and!; try done; [by eapply Hshown|by eapply Hconf].
Qed.

(** ** Known keys *)
Lemma without_elem key hosts k : k ∈ without_host key hosts <-> k ∈ hosts /\ host_key k <> key.
Proof. unfold without_host. rewrite elem_of_filterb. unfold is_host. by rewrite negb_true_iff, bool_decide_eq_false. Qed.

(** A key that is known of an endpoint changes only by consent.  However calls
    interleave, there is one key at most for an endpoint; where the known hosts of an
    endpoint differ from one state to the next, the endpoint was removed by name, or an
    attempt for it was trusted and remembered, and its key is then the key shown to a
    preparation of that endpoint; and a preparation that answers found the endpoint
    unknown, or known by the key it was shown. *)
Theorem known_hosts_change_by_consent admits hosts d (w : KhPool) :
  rtc (pool_step kh_body admits) (pool_init (no_attempts hosts) d) w -> NoDup (map host_key hosts) ->
  exists states, historied kh_step kh_ended (no_attempts hosts) w states /\
    (forall s, s ∈ states -> NoDup (map host_key (kn_hosts s))) /\
    (forall l s s' rest key, states = l ++ s :: s' :: rest ->
       (forall k, host_key k = key -> (k ∈ kn_hosts s' <-> k ∈ kn_hosts s)) \/
       (exists t p scope host port, pl_threads w !! t = Some (KhRemove scope host port, p) /\ named scope host port key) \/
       (exists t p id a, pl_threads w !! t = Some (KhTrust id true, p) /\ kn_attempts s !! id = Some a /\
          attempt_key a = key /\ shown (pl_threads w) a /\
          forall k, k ∈ kn_hosts s' -> host_key k = key -> kh_key_type k = va_key_type a /\ kh_fingerprint k = va_fingerprint a)) /\
    (forall t scope host port observed v, pl_threads w !! t = Some (KhPrepare scope host port observed, Done (Ok (RVerification v))) ->
       let key := (hv_route_scope v, hv_host v, hv_port v) in
       named scope host port key /\ exists s, s ∈ states /\
         (forall k, k ∈ kn_hosts s -> host_key k = key ->
            kh_key_type k = hk_key_type observed /\ kh_fingerprint k = hk_fingerprint observed /\ hv_status v = HvTrusted) /\
         (hv_status v = HvTrusted -> known_in s key (hk_key_type observed) (hk_fingerprint observed))).
Proof.
  intros Hw Hnd. destruct (pool_history _ _ _ _ body_certified _ _ _ Hw) as [states Hh]. exists states. split; [done|].
  pose proof (sound_states hosts w states Hnd Hh) as Hsound.
  assert (Hdistinct : forall s, s ∈ states -> NoDup (map host_key (kn_hosts s))).
  { intros s (l & rest & Heq)%list_elem_of_split. by destruct (Hsound l s rest Heq). }
  split; [exact Hdistinct|]. destruct Hh as (_ & _ & Hs & Hthreads). split.
  - intros l s s' rest key Heq. destruct (Hsound l s (s' :: rest) Heq) as [_ Hshown _].
    destruct (Hs l s s' rest Heq) as [->|(t & c & p & Ht & Hstep)]; [by left|].
    destruct Hstep as [|scope host port observed scope' host' status now id -> _ _|id remember a -> _|id a stamp hosts' -> Ha Hp _
      |id _|scope host port key' hosts' -> Hnamed Hp _]; try (by left).
    + destruct (decide (attempt_key a = key)) as [Hk|Hk].
      * right. right. exists t, p, id, a. split_and!; try done; [by eapply Hshown|]. cbn. intros k Hin Hkey.
        rewrite Hp in Hin. apply elem_of_app in Hin as [[_ Hne]%without_elem| ->%list_elem_of_singleton]; [congruence|done].
      * left. intros k Hkey. cbn. rewrite Hp, elem_of_app, without_elem, list_elem_of_singleton. split; [|naive_solver congruence].
        intros [[? _]| ->]; [done|]. by destruct Hk.
    + destruct (decide (key' = key)) as [->|Hk]; [right; left; by exists t, p, scope, host, port|]. left.
      intros k Hkey. cbn. rewrite Hp, without_elem. naive_solver congruence.
  - intros t scope host port observed v Ht. destruct (Hthreads _ _ _ Ht) as (past & [rest ->] & Hend).
    destruct Hend as (Hnamed & _ & _ & s & Hin & Hstatus). split; [done|]. exists s. split; [set_solver|].
    assert (Hn : NoDup (map host_key (kn_hosts s))) by (apply Hdistinct; set_solver).
    unfold key_status in Hstatus. destruct (List.find _ _) as [k0|] eqn:Hf.
    + destruct (str_eqb _ _ && _) eqn:Hk; [|done]. apply andb_true_iff in Hk as [Hty%str_eqb_eq Hfp%str_eqb_eq].
      apply find_host_in in Hf as [Hk0 Hkey0]. rewrite sort_by_perm in Hk0. injection Hstatus as Hstatus. split.
      * intros k Hk Hkey. assert (k = k0) as ->; [|by rewrite <- Hstatus].
        apply list_elem_of_lookup_1 in Hk as [i Hi]. apply list_elem_of_lookup_1 in Hk0 as [j Hj].
        assert (i = j) as ->; [|congruence].
        apply (NoDup_lookup _ i j (host_key k) Hn); rewrite list_lookup_fmap; rewrite ?Hi, ?Hj; cbn; congruence.
      * intros _. by exists k0.
    + injection Hstatus as Hstatus. split; [|by rewrite <- Hstatus]. intros k Hk Hkey. exfalso.
      assert (Hno : is_host (hv_route_scope v, hv_host v, hv_port v) k = false).
      { apply (List.find_none _ _ Hf), list_elem_of_In. by rewrite sort_by_perm. }
      unfold is_host in Hno. by rewrite bool_decide_true in Hno.
Qed.
End Theorems.

(** ** Runs *)
#[local] Instance ascii_case : CaseExternals := {| str_to_lowercase := to_ascii_lowercase |}.

Definition kh_answer (id : Uuid) (q : KhQuery) : KhAnswer q :=
  match q return KhAnswer q with KhInstant => 0%N | KhTimestamp => lit "now" | KhNewId => id | KhListFails => false end.
Definition kh_call (id : Uuid) (t : nat) (c : KhCall) : list (act KhQuery KhAnswer KhCall) :=
  ActCall t c :: repeat (ActTurn t (kh_answer id) (Ok tt)) 8.
Definition kh_played (hosts : list KnownHost) (l : list (act KhQuery KhAnswer KhCall)) :=
  foldl (play kh_body (fun _ _ => True)) (pool_init (no_attempts hosts) hosts) l.
Definition sample_key (f : string) : HostKeyInfo := {| hk_key_type := lit "ssh-ed25519"; hk_fingerprint := lit f |}.
Definition seen (f : string) : KhCall := KhPrepare (lit "direct") (lit "Example.COM") 22 (sample_key f).
Definition ended (w : pool KnownHostState (list KnownHost) KhQuery KhAnswer KhCall KhReply) (t : nat) : option (AppResult KhReply) :=
  match pl_threads w !! t with Some (_, Done r) => Some r | _ => None end.
Definition known_fingerprints (w : pool KnownHostState (list KnownHost) KhQuery KhAnswer KhCall KhReply) : list (str * str) :=
  map (fun k => (kh_host k, kh_fingerprint k)) (kn_hosts (pl_state w)).

(** A key that is shown, trusted and remembered, and consumed. *)
Definition connected :=
  kh_played [] (kh_call 7 0 (seen "first") ++ kh_call 0 1 (KhTrust 7 true)
                ++ kh_call 0 2 (KhConsume 7 (lit "DIRECT") (lit " example.com ") 22)).

Lemma host_keys_are_confirmed_witness :
  ended connected 2 = Some (Ok (RFingerprint (lit "first"))) /\
  exists states, historied kh_step kh_ended (no_attempts []) connected states /\
    exists l s a, l ++ [s] `prefix_of` states /\ kn_attempts s !! 7%N = Some a /\ confirmed (pl_threads connected) (l ++ [s]) 7 a.
Proof.
  split; [vm_compute; reflexivity|].
  assert (Ht : pl_threads connected !! 2%nat
    = Some (KhConsume 7 (lit "DIRECT") (lit " example.com ") 22, Done (Ok (RFingerprint (lit "first"))))) by (vm_compute; reflexivity).
  destruct (host_keys_are_confirmed (fun _ _ => True) [] [] connected 2 7 _ _ _ _ (plays_steps _ _ _ _) (NoDup_nil_2) Ht)
    as (states & l & s & a & rest & Hh & Heq & Ha & _ & _ & _ & _ & Hc).
  exists states. split; [exact Hh|]. exists l, s, a. split_and!; [|exact Ha|exact Hc].
  eexists. rewrite Heq, <- app_assoc. reflexivity.
Defined.

Lemma known_hosts_change_by_consent_witness :
  known_fingerprints connected = [(lit "example.com", lit "first")] /\
  exists states, historied kh_step kh_ended (no_attempts []) connected states /\
    (forall s, s ∈ states -> NoDup (map host_key (kn_hosts s))).
Proof.
  split; [vm_compute; reflexivity|].
  destruct (known_hosts_change_by_consent (fun _ _ => True) [] [] connected (plays_steps _ _ _ _) (NoDup_nil_2))
    as (states & Hh & Hd & _).
  by exists states.
Defined.

(** A known key that has changed is refused, and an attempt serves once. *)
Definition refused :=
  kh_played [] (kh_call 7 0 (seen "first") ++ kh_call 0 1 (KhTrust 7 true) ++ kh_call 8 2 (seen "second")
                ++ kh_call 0 3 (KhConsume 7 (lit "direct") (lit "example.com") 22)
                ++ kh_call 0 4 (KhConsume 7 (lit "direct") (lit "example.com") 22)).
Example changed_key_is_refused :
  ended refused 2 = Some (Err HostKeyChanged) /\ ended refused 3 = Some (Ok (RFingerprint (lit "first"))) /\
  ended refused 4 = Some (Err HostVerificationExpired).
Proof. split_and!; vm_compute; reflexivity. Qed.

(** The status is of the moment of the preparation.  Of two attempts that were
    prepared while the host was unknown, with two keys, trusting the second replaces
    the key that the first has made known, and nothing says that the key has changed. *)
Definition replaced :=
  kh_played [] (kh_call 7 0 (seen "first") ++ kh_call 8 1 (seen "second") ++ kh_call 0 2 (KhTrust 7 true)
                ++ kh_call 0 3 (KhTrust 8 true)).
Example stale_attempt_replaces_key :
  ended replaced 3 = Some (Ok RUnit) /\ known_fingerprints replaced = [(lit "example.com", lit "second")].
Proof. split; vm_compute; reflexivity. Qed.

(** And an attempt that found the host trusted still serves after the host is removed. *)
Definition forgotten :=
  kh_played [] (kh_call 7 0 (seen "first") ++ kh_call 0 1 (KhTrust 7 true) ++ kh_call 8 2 (seen "first")
                ++ kh_call 0 3 (KhRemove (lit "direct") (lit "example.com") 22)
                ++ kh_call 0 4 (KhConsume 8 (lit "direct") (lit "example.com") 22)).
Example removed_host_still_served :
  known_fingerprints forgotten = [] /\ ended forgotten 4 = Some (Ok (RFingerprint (lit "first"))).
Proof. split; vm_compute; reflexivity. Qed.
