(* ===== verification/BastionFlow.v ===== *)
(** * Bastion flows (connection/flow.rs, connection/bastion/, providers/jumpserver/auth.rs)

    A connection through a bastion is a flow: authentication, which may wait for the
    user, the choice of an asset and of an account, the connection, and its handing
    over.  [BastionFlowService] keeps the flows in a map behind a lock; every operation
    is a [proc] whose sections hold it and which asks the provider without it.  The
    providers, the clock and the random identifiers are answered from outside; the
    clock is read before the section that uses the time, once for all flows.  [order]
    is the order of the hash map of the flows. *)
From S2P Require Import Prelude Str Json Errors NumText RunState Catalog Process.

(** [Duration::from_secs(300)], an [Instant] being in nanoseconds. *)
Definition FLOW_LIFETIME : N := 300 * 10 ^ 9.
Definition MAX_FLOWS : nat := 32.

(** ** Data of the providers *)
Inductive BastionCredential :=
  | CrPassword (username : str) (transient_password : option str)
  | CrSshKey (username : str) (transient_passphrase : option str)
  | CrToken (transient_token username_hint : option str)
  | CrAccessKey (key_id : str) (transient_secret : option str)
  | CrBrowserSso (username_hint : option str)
  | CrExternalAgent (username : str).

Record BastionPrincipal := { bp_username : str; bp_display_name : option str }.
Record AuthSession := {
  au_id : Uuid; au_bastion_id : Uuid; au_provider : str; au_principal : BastionPrincipal; au_provider_state : list N;
  au_expires_at : option Z; au_helper_cli_override : option str }.
Record AuthChoice := { ac_id : str; ac_label : str }.
Inductive AuthChallenge :=
  | ChPassword (id message : str) | ChTotp (id message : str) | ChSmsCode (id message : str) (masked_target : option str)
  | ChConfirm (id message : str) | ChChoice (id message : str) (choices : list AuthChoice)
  | ChText (id message : str) (secret : bool).
Inductive ExternalAuthAction :=
  | OpenBrowser (url : str) (callback_uri : option str)
  | DeviceCode (verification_uri user_code : str) (expires_in_secs : N)
  | QrCode (payload : str).
Inductive AuthChallengeResponse :=
  | RePassword (id password : str) | ReTotp (id code : str) | ReSmsCode (id code : str) | ReConfirm (id : str) (accepted : bool)
  | ReChoice (id choice_id : str) | ReText (id value : str) | ReExternalCompleted (id : str) | ReCancel (id : str).
Inductive AuthStepResult :=
  | StepAuthenticated (s : AuthSession)
  | StepChallenge (pending : AuthSession) (challenge : AuthChallenge)
  | StepExternalAction (pending : AuthSession) (action : ExternalAuthAction).

Inductive BastionProtocol := PrSsh | PrSftp | PrScp | PrRdp | PrVnc | PrTelnet | PrCustom (name : str).
Record AssetProtocol := { apr_protocol : BastionProtocol; apr_port : option N; apr_enabled : bool }.
Record BastionAsset := {
  ba_provider : str; ba_remote_id : str; ba_name : str; ba_address : option str; ba_platform : option str;
  ba_protocols : list AssetProtocol; ba_node_path : option str; ba_labels : list (str * str); ba_metadata : json }.
Record AssetQuery := {
  aq_search : option str; aq_node : option str; aq_protocol : option BastionProtocol; aq_page : N; aq_page_size : N }.
Record AssetPage := { pg_items : list BastionAsset; pg_page : N; pg_page_size : N; pg_has_more : bool }.
Record BastionAccount := {
  bc_remote_id : option str; bc_username : str; bc_display_name : option str; bc_privileged : bool;
  bc_secret_managed : bool; bc_metadata : json }.

Record BastionPorts := { po_api : option N; po_ssh : option N; po_web : option N }.
(** [tls] is set only to skip the verification. *)
Record BastionEndpoint := {
  be_id : Uuid; be_provider : str; be_name : str; be_host : str; be_ports : BastionPorts; be_insecure_tls : bool;
  be_provider_config : json }.
Record BastionConnectOptions := {
  bo_request_sftp : bool; bo_request_port_forward : bool; bo_agent_forwarding : bool; bo_locale : option str;
  bo_transient_ssh_password : option str }.
Record TerminalOptions := { to_term : str; to_cols : N; to_rows : N }.
Record BastionConnectRequest := {
  rq_asset : BastionAsset; rq_account : BastionAccount; rq_protocol : BastionProtocol;
  rq_terminal : option TerminalOptions; rq_options : BastionConnectOptions }.
Record BastionSessionMetadata := {
  bm_session_id : option str; bm_provider : str; bm_asset_id : str; bm_account : str; bm_recording : bool;
  bm_command_audit : bool; bm_file_audit : bool; bm_started_at : Z }.
(** The channels of a connection are not data. *)
Record BastionConnection := { cn_connection_id : str; cn_metadata : BastionSessionMetadata }.

Inductive BastionError :=
  | BeNetwork | BeAuthenticationFailed | BeAuthenticationExpired | BeMfaRequired | BePermissionDenied | BeAssetNotFound
  | BeAccountNotAllowed | BeProtocolUnsupported | BeCapabilityUnavailable | BeSessionRejected | BeSessionExpired
  | BeProviderUnavailable | BeProviderVersionUnsupported | BeProviderProtocolError | BeTimeout | BeCancelled
  | BeHelperMissing | BeHelperVersionMismatch | BeHelperProxyFailed | BeInternal.

Definition map_bastion_error (error : BastionError) : AppError :=
  match error with
  | BeAuthenticationFailed | BeMfaRequired | BeAuthenticationExpired => BastionAuthFailed
  | BePermissionDenied | BeAccountNotAllowed | BeAssetNotFound => BastionPermissionDenied
  | BeCancelled => BastionUnavailable
  | BeProviderUnavailable | BeProviderVersionUnsupported => BastionProviderNotFound
  | BeNetwork => ConnectionRefused
  | BeTimeout => ConnectionTimeout
  | BeHelperMissing => HelperMissing
  | BeHelperVersionMismatch => HelperVersionMismatch
  | BeHelperProxyFailed => HelperProxyFailed
  | BeSessionRejected => BastionUnavailable
  | _ => BastionUnavailable
  end.
Definition provider_answer {A} (r : result BastionError A) : AppResult A :=
  match r with Ok a => Ok a | Err e => Err (map_bastion_error e) end.

(** ** Endpoints *)
Record ParsedApiBaseUrl := { pa_scheme : str; pa_host : str; pa_port : N; pa_base_url : str }.

Definition COLON : chr := 58.
Definition SLASH : chr := 47.
(** [rest.split('/').next().unwrap_or("").trim()] *)
Definition authority_of (rest : str) : str := trim (from_option fst rest (split_once (N.eqb SLASH) rest)).
Definition usable_authority (a : str) : bool := negb (is_empty a) && negb (existsb (N.eqb 64) a).

Definition parse_api_base_url (raw : str) : option ParsedApiBaseUrl :=
  let trimmed := trim_end_matches (N.eqb SLASH) (trim raw) in
  if is_empty trimmed then None else
  '(scheme, rest) ← match strip_prefix trimmed (lit "https://") with
                    | Some rest => Some (lit "https", rest)
                    | None => pair (lit "http") <$> strip_prefix trimmed (lit "http://")
                    end;
  let authority := authority_of rest in
  if negb (usable_authority authority) then None else
  let default_port := if str_eqb scheme (lit "http") then 80%N else 443%N in
  '(host, port) ← match strip_prefix authority (lit "[") with
                  | Some host =>
                      '(name, after) ← split_once (N.eqb 93) host;
                      port ← match strip_prefix after (lit ":") with
                             | Some port_text => parse_u16 port_text
                             | None => if is_empty after then Some default_port else None
                             end;
                      Some (name, port)
                  | None =>
                      match rsplit_once COLON authority with
                      | Some (host, port_text) =>
                          if existsb (N.eqb COLON) host then None else pair host <$> parse_u16 port_text
                      | None => Some (authority, default_port)
                      end
                  end;
  if is_empty host || (port =? 0)%N then None
  else Some {| pa_scheme := scheme; pa_host := host; pa_port := port; pa_base_url := scheme ++ lit "://" ++ authority |}.

Definition first_prefix (s : str) (prefixes : list str) : str :=
  default s (List.find (fun _ => true) (omap (strip_prefix s) prefixes)).

Definition normalize_koko_host (raw : str) : option str :=
  let trimmed := trim raw in
  if is_empty trimmed || existsb is_whitespace trimmed then None else
  match parse_api_base_url trimmed with
  | Some parsed => Some (pa_host parsed)
  | None =>
      let authority := authority_of (first_prefix trimmed [lit "https://"; lit "http://"; lit "HTTPS://"; lit "HTTP://"]) in
      if negb (usable_authority authority) then None else
      host ← match strip_prefix authority (lit "[") with
             | Some host => fst <$> split_once (N.eqb 93) host
             | None =>
                 match rsplit_once COLON authority with
                 | Some (host, port_text) =>
                     if existsb (N.eqb COLON) host then None
                     else Some (if bool_decide (is_Some (parse_u16 port_text)) then host else authority)
                 | None => Some authority
                 end
             end;
      if is_empty host then None else Some host
  end.
Definition normalize_koko_ssh_port (port : N) : N :=
  if (port =? 0)%N || (port =? 80)%N || (port =? 443)%N then 2222%N else port.

Definition non_empty (value : str) : option str := if is_empty (trim value) then None else Some (trim value).

Record HelperCliDefaults := { hd_boundary : option str; hd_teleport : option str }.
Definition for_provider (d : HelperCliDefaults) (provider : str) : option str :=
  if str_eqb provider (lit "boundary") then hd_boundary d
  else if str_eqb provider (lit "teleport") then hd_teleport d else None.

Definition port_or (fallback port : N) : N := if (port =? 0)%N then fallback else port.
Definition string_field (key : string) (o : option str) : list (str * json) :=
  match o with Some s => [(lit key, JString s)] | None => [] end.

(** The configuration is given as the list of its fields, in the order of insertion. *)
Definition mock_or_profile_endpoint (bastion_id : Uuid) (provider : str) (profile : ServerProfile)
    (helper_defaults : HelperCliDefaults) : BastionEndpoint :=
  let on := fun name => str_eqb provider (lit name) in
  let ssh_port :=
    if on "jumpserver" then normalize_koko_ssh_port (port_or 2222 (sp_port profile))
    else if on "teleport" then port_or 3080 (sp_port profile)
    else if on "boundary" then port_or 9200 (sp_port profile)
    else port_or 22 (sp_port profile) in
  let '(api_base_url, org_id, cli_path, cluster_name, insecure) :=
    match sp_connection_route profile with
    | RouteBastion b =>
        (br_api_base_url b ≫= non_empty, br_org_id b ≫= non_empty,
         match br_cli_path b ≫= non_empty with Some p => Some p | None => for_provider helper_defaults provider end,
         br_cluster_name b ≫= non_empty, br_insecure b)
    | _ => (None, None, for_provider helper_defaults provider, None, false)
    end in
  let '(web_port, config) :=
    match api_base_url with
    | Some base =>
        (pa_port <$> parse_api_base_url base,
         string_field "apiBaseUrl" (Some (trim_end_matches (N.eqb SLASH) base)) ++ string_field "orgId" org_id)
    | None =>
        if on "jumpserver" then (Some 443%N, string_field "orgId" org_id)
        else if on "teleport" then (Some (port_or 443 (sp_port profile)), [])
        else (Some 443%N, [])
    end in
  let config := config ++ string_field "cliPath" cli_path ++ string_field "clusterName" cluster_name
                ++ (if insecure : bool then [(lit "insecure", JBool true)] else [])
                ++ (if on "teleport" then string_field "teleportUser" (non_empty (sp_username profile)) else []) in
  let base_host := pa_host <$> (api_base_url ≫= parse_api_base_url) in
  let host :=
    if on "jumpserver" then
      default (trim (sp_host profile))
        (opt_filter (fun h => negb (is_empty h))
           (match normalize_koko_host (sp_host profile) with Some h => Some h | None => base_host end))
    else if negb (is_empty (trim (sp_host profile))) then sp_host profile
    else default [] base_host in
  {| be_id := bastion_id; be_provider := provider; be_name := sp_name profile; be_host := host;
     be_ports := {| po_api := web_port; po_ssh := Some ssh_port; po_web := web_port |};
     be_insecure_tls := insecure; be_provider_config := JObject config |}.

(** ** Flows *)
Inductive BastionSessionState :=
  | BsIdle | BsProbing | BsAuthenticating | BsAwaitingUser (challenge : AuthChallenge)
  | BsAwaitingExternalAuth (action : ExternalAuthAction) | BsAuthenticated | BsDiscoveringAssets | BsSelectingAsset
  | BsDiscoveringAccounts | BsSelectingAccount | BsConnecting | BsConnected | BsDisconnected | BsFailed (code : str).

Record BastionFlow := {
  bf_profile_id : Uuid; bf_bastion_id : Uuid; bf_provider : str; bf_preferred_asset_id : option str;
  bf_preferred_account_id : option str; bf_state : BastionSessionState; bf_auth_session : option AuthSession;
  bf_asset_cache : gmap str BastionAsset; bf_selected_asset : option BastionAsset;
  bf_selected_account : option BastionAccount; bf_connection : option BastionConnection;
  bf_gateway_host : option str; bf_gateway_port : option N; bf_expires_at : N }.

Definition set_flow_state (st : BastionSessionState) (f : BastionFlow) : BastionFlow :=
  {| bf_profile_id := bf_profile_id f; bf_bastion_id := bf_bastion_id f; bf_provider := bf_provider f;
     bf_preferred_asset_id := bf_preferred_asset_id f; bf_preferred_account_id := bf_preferred_account_id f;
     bf_state := st; bf_auth_session := bf_auth_session f; bf_asset_cache := bf_asset_cache f;
     bf_selected_asset := bf_selected_asset f; bf_selected_account := bf_selected_account f;
     bf_connection := bf_connection f; bf_gateway_host := bf_gateway_host f; bf_gateway_port := bf_gateway_port f;
     bf_expires_at := bf_expires_at f |}.
Definition set_auth_session (s : AuthSession) (f : BastionFlow) : BastionFlow :=
  {| bf_profile_id := bf_profile_id f; bf_bastion_id := bf_bastion_id f; bf_provider := bf_provider f;
     bf_preferred_asset_id := bf_preferred_asset_id f; bf_preferred_account_id := bf_preferred_account_id f;
     bf_state := bf_state f; bf_auth_session := Some s; bf_asset_cache := bf_asset_cache f;
     bf_selected_asset := bf_selected_asset f; bf_selected_account := bf_selected_account f;
     bf_connection := bf_connection f; bf_gateway_host := bf_gateway_host f; bf_gateway_port := bf_gateway_port f;
     bf_expires_at := bf_expires_at f |}.
Definition set_asset_cache (cache : gmap str BastionAsset) (f : BastionFlow) : BastionFlow :=
  {| bf_profile_id := bf_profile_id f; bf_bastion_id := bf_bastion_id f; bf_provider := bf_provider f;
     bf_preferred_asset_id := bf_preferred_asset_id f; bf_preferred_account_id := bf_preferred_account_id f;
     bf_state := bf_state f; bf_auth_session := bf_auth_session f; bf_asset_cache := cache;
     bf_selected_asset := bf_selected_asset f; bf_selected_account := bf_selected_account f;
     bf_connection := bf_connection f; bf_gateway_host := bf_gateway_host f; bf_gateway_port := bf_gateway_port f;
     bf_expires_at := bf_expires_at f |}.
Definition set_selected_asset (a : BastionAsset) (f : BastionFlow) : BastionFlow :=
  {| bf_profile_id := bf_profile_id f; bf_bastion_id := bf_bastion_id f; bf_provider := bf_provider f;
     bf_preferred_asset_id := bf_preferred_asset_id f; bf_preferred_account_id := bf_preferred_account_id f;
     bf_state := bf_state f; bf_auth_session := bf_auth_session f; bf_asset_cache := bf_asset_cache f;
     bf_selected_asset := Some a; bf_selected_account := bf_selected_account f;
     bf_connection := bf_connection f; bf_gateway_host := bf_gateway_host f; bf_gateway_port := bf_gateway_port f;
     bf_expires_at := bf_expires_at f |}.
Definition set_selected_account (a : BastionAccount) (f : BastionFlow) : BastionFlow :=
  {| bf_profile_id := bf_profile_id f; bf_bastion_id := bf_bastion_id f; bf_provider := bf_provider f;
     bf_preferred_asset_id := bf_preferred_asset_id f; bf_preferred_account_id := bf_preferred_account_id f;
     bf_state := bf_state f; bf_auth_session := bf_auth_session f; bf_asset_cache := bf_asset_cache f;
     bf_selected_asset := bf_selected_asset f; bf_selected_account := Some a;
     bf_connection := bf_connection f; bf_gateway_host := bf_gateway_host f; bf_gateway_port := bf_gateway_port f;
     bf_expires_at := bf_expires_at f |}.
Definition set_connection (c : BastionConnection) (f : BastionFlow) : BastionFlow :=
  {| bf_profile_id := bf_profile_id f; bf_bastion_id := bf_bastion_id f; bf_provider := bf_provider f;
     bf_preferred_asset_id := bf_preferred_asset_id f; bf_preferred_account_id := bf_preferred_account_id f;
     bf_state := bf_state f; bf_auth_session := bf_auth_session f; bf_asset_cache := bf_asset_cache f;
     bf_selected_asset := bf_selected_asset f; bf_selected_account := bf_selected_account f;
     bf_connection := Some c; bf_gateway_host := bf_gateway_host f; bf_gateway_port := bf_gateway_port f;
     bf_expires_at := bf_expires_at f |}.
Definition set_gateway (host : str) (port : N) (f : BastionFlow) : BastionFlow :=
  {| bf_profile_id := bf_profile_id f; bf_bastion_id := bf_bastion_id f; bf_provider := bf_provider f;
     bf_preferred_asset_id := bf_preferred_asset_id f; bf_preferred_account_id := bf_preferred_account_id f;
     bf_state := bf_state f; bf_auth_session := bf_auth_session f; bf_asset_cache := bf_asset_cache f;
     bf_selected_asset := bf_selected_asset f; bf_selected_account := bf_selected_account f;
     bf_connection := bf_connection f; bf_gateway_host := Some host; bf_gateway_port := Some port;
     bf_expires_at := bf_expires_at f |}.

(** *** What the interface sees *)
Inductive BastionFlowUiState :=
  | UiAuthenticating | UiAwaitingUser | UiAuthenticated | UiDiscoveringAssets | UiSelectingAsset | UiDiscoveringAccounts
  | UiSelectingAccount | UiConnecting | UiConnected | UiFailed | UiCancelled.
Record BastionFlowSnapshot := {
  sn_flow_id : Uuid; sn_profile_id : Uuid; sn_bastion_id : Uuid; sn_provider : str; sn_state : BastionFlowUiState;
  sn_challenge : option AuthChallenge; sn_external_action : option ExternalAuthAction; sn_selected_asset_id : option str;
  sn_selected_account : option str; sn_session_metadata : option BastionSessionMetadata; sn_error_code : option str }.

Definition snapshot_of (flow_id : Uuid) (flow : BastionFlow) : BastionFlowSnapshot :=
  let '(state, challenge, external_action, error_code) :=
    match bf_state flow with
    | BsAuthenticating | BsProbing => (UiAuthenticating, None, None, None)
    | BsAwaitingUser challenge => (UiAwaitingUser, Some challenge, None, None)
    | BsAwaitingExternalAuth action => (UiAwaitingUser, None, Some action, None)
    | BsAuthenticated => (UiAuthenticated, None, None, None)
    | BsDiscoveringAssets => (UiDiscoveringAssets, None, None, None)
    | BsSelectingAsset => (UiSelectingAsset, None, None, None)
    | BsDiscoveringAccounts => (UiDiscoveringAccounts, None, None, None)
    | BsSelectingAccount => (UiSelectingAccount, None, None, None)
    | BsConnecting => (UiConnecting, None, None, None)
    | BsConnected => (UiConnected, None, None, None)
    | BsDisconnected | BsIdle => (UiCancelled, None, None, None)
    | BsFailed code => (UiFailed, None, None, Some code)
    end in
  {| sn_flow_id := flow_id; sn_profile_id := bf_profile_id flow; sn_bastion_id := bf_bastion_id flow;
     sn_provider := bf_provider flow; sn_state := state; sn_challenge := challenge; sn_external_action := external_action;
     sn_selected_asset_id := ba_remote_id <$> bf_selected_asset flow;
     sn_selected_account := bc_username <$> bf_selected_account flow;
     sn_session_metadata := cn_metadata <$> bf_connection flow; sn_error_code := error_code |}.

(** ** The service

    An identifier is asked for a flow of a provider; the code does not say which. *)
Abbreviation Flows := (gmap Uuid BastionFlow) (only parsing).

Inductive BfQuery :=
  | BfInstant | BfNewId (provider : str)
  | BfStartAuth (provider : str) (endpoint : BastionEndpoint) (credential : BastionCredential)
  | BfContinueAuth (provider : str) (session : AuthSession) (response : AuthChallengeResponse)
  | BfListAssets (provider : str) (session : AuthSession) (query : AssetQuery)
  | BfListAccounts (provider : str) (session : AuthSession) (asset : BastionAsset)
  | BfConnect (provider : str) (session : AuthSession) (request : BastionConnectRequest)
  | BfResolveGateway (provider : str) (session : AuthSession) (asset : BastionAsset) (account : BastionAccount)
  | BfSpawnLogin (session : AuthSession)
  | BfOpenUrl (url : str).
Definition BfAnswer (q : BfQuery) : Type :=
  match q with
  | BfInstant => N
  | BfNewId _ => Uuid
  | BfStartAuth _ _ _ | BfContinueAuth _ _ _ => result BastionError AuthStepResult
  | BfListAssets _ _ _ => result BastionError AssetPage
  | BfListAccounts _ _ _ => result BastionError (list BastionAccount)
  | BfConnect _ _ _ => result BastionError BastionConnection
  | BfResolveGateway _ _ _ _ => result BastionError (str * N)
  | BfSpawnLogin _ => result BastionError unit
  | BfOpenUrl _ => bool
  end.
Abbreviation BfProc := (proc (gmap Uuid BastionFlow) unit BfQuery BfAnswer) (only parsing).
Abbreviation BfHeld := (held (gmap Uuid BastionFlow) unit) (only parsing).

Definition flow_live (now : N) (f : BastionFlow) : bool := (now <? bf_expires_at f)%N.

(** [get] and what is read of the flow. *)
Definition flow_get (now : N) (flows : Flows) (flow_id : Uuid) : AppResult BastionFlow :=
  ok_or (opt_filter (flow_live now) (flows !! flow_id)) BastionUnavailable.
Definition reading {X} (now : N) (flow_id : Uuid) (f : BastionFlow -> AppResult X) (flows : Flows) : BfHeld X :=
  Leave flows (flow ← flow_get now flows flow_id; f flow).

(** [get_mut] and what is written to the flow; one that has expired is removed. *)
Definition changing {X} (now : N) (flow_id : Uuid) (f : BastionFlow -> AppResult X * BastionFlow) (flows : Flows) : BfHeld X :=
  match flows !! flow_id with
  | None => Leave flows (Err BastionUnavailable)
  | Some flow =>
      if flow_live now flow then let '(r, flow') := f flow in Leave (<[flow_id := flow']> flows) r
      else Leave (delete flow_id flows) (Err BastionUnavailable)
  end.
Definition change (flow_id : Uuid) (f : BastionFlow -> BastionFlow) : BfProc unit :=
  now ← ask BfInstant; locked (changing now flow_id (fun flow => (Ok tt, f flow))).

Section Service.
Context (registered : str -> bool) (order : Flows -> list (Uuid * BastionFlow)).

Definition require_provider (id : str) : BfProc unit := lift (reject_if (negb (registered id)) BastionProviderNotFound).

Definition flow_from_auth_step (step : AuthStepResult) (flow : BastionFlow) : BastionFlow :=
  match step with
  | StepChallenge pending challenge => set_flow_state (BsAwaitingUser challenge) (set_auth_session pending flow)
  | StepExternalAction pending action => set_flow_state (BsAwaitingExternalAuth action) (set_auth_session pending flow)
  | StepAuthenticated session => set_flow_state BsAuthenticated (set_auth_session session flow)
  end.

(** [min_by_key]: the first of the least. *)
Definition oldest_flow (l : list (Uuid * BastionFlow)) : option Uuid :=
  match l with
  | [] => None
  | x :: rest =>
      Some (fst (foldl (fun least y => if (bf_expires_at (snd y) <? bf_expires_at (snd least))%N then y else least) x rest))
  end.
Definition make_room (now : N) (flows : Flows) : Flows :=
  let flows := filter (fun x : Uuid * BastionFlow => flow_live now (snd x) = true) flows in
  if (MAX_FLOWS <=? size flows)%nat then
    match oldest_flow (order flows) with Some oldest => delete oldest flows | None => flows end
  else flows.
Definition insert_flow (flow : BastionFlow) : BfProc Uuid :=
  now ← ask BfInstant;
  id ← ask (BfNewId (bf_provider flow));
  locked (fun flows => Leave (<[id := flow]> (make_room now flows)) (Ok id)).

Definition snapshot (flow_id : Uuid) : BfProc BastionFlowSnapshot :=
  now ← ask BfInstant; locked (reading now flow_id (fun flow => Ok (snapshot_of flow_id flow))).

Definition past_authentication (st : BastionSessionState) : bool :=
  match st with
  | BsAuthenticated | BsDiscoveringAssets | BsSelectingAsset | BsDiscoveringAccounts | BsSelectingAccount
  | BsConnecting | BsConnected => true
  | _ => false
  end.
Definition session_of (flow : BastionFlow) : AppResult AuthSession := ok_or (bf_auth_session flow) BastionAuthFailed.
Definition require_auth_session (flow_id : Uuid) : BfProc (str * AuthSession) :=
  now ← ask BfInstant;
  locked (reading now flow_id (fun flow =>
    session ← session_of flow;
    reject_if (negb (past_authentication (bf_state flow))) BastionAwaitingUser ;;
    Ok (bf_provider flow, session))).

(** [provider.m(..).await.map_err(map_bastion_error)?] *)
Definition list_remote_assets (provider : str) (session : AuthSession) (query : AssetQuery) : BfProc AssetPage :=
  require_provider provider ;;
  page ← ask (BfListAssets provider session query);
  lift (provider_answer page).

Definition cached_page (page : AssetPage) (flow : BastionFlow) : BastionFlow :=
  set_asset_cache (foldl (fun cache a => <[ba_remote_id a := a]> cache) (bf_asset_cache flow) (pg_items page)) flow.

Definition list_assets (flow_id : Uuid) (query : AssetQuery) : BfProc AssetPage :=
  '(provider_id, session) ← require_auth_session flow_id;
  change flow_id (set_flow_state BsDiscoveringAssets) ;;
  page ← list_remote_assets provider_id session query;
  change flow_id (fun flow => set_flow_state BsSelectingAsset (cached_page page flow)) ;;
  mret page.

Definition selected_of (flow : BastionFlow) : AppResult (str * AuthSession * BastionAsset) :=
  session ← session_of flow;
  asset ← ok_or (bf_selected_asset flow) BastionPermissionDenied;
  Ok (bf_provider flow, session, asset).

Definition list_accounts (flow_id : Uuid) : BfProc (list BastionAccount) :=
  now ← ask BfInstant;
  '(provider_id, session, asset) ← locked (reading now flow_id selected_of);
  require_provider provider_id ;;
  answer ← ask (BfListAccounts provider_id session asset);
  accounts ← lift (provider_answer answer);
  change flow_id (set_flow_state BsSelectingAccount) ;;
  mret accounts.

Definition names_account (account_username : str) (item : BastionAccount) : bool :=
  str_eqb (bc_username item) account_username
  || bool_decide (bc_remote_id item = Some account_username)
  || bool_decide (bc_display_name item = Some account_username)
  || bool_decide (json_get (bc_metadata item) (lit "jumpserverAlias") ≫= as_str = Some account_username).

Definition os_login (account_username : str) : BastionAccount :=
  {| bc_remote_id := Some account_username; bc_username := account_username; bc_display_name := None;
     bc_privileged := str_eqb account_username (lit "root"); bc_secret_managed := true;
     bc_metadata := JObject [(lit "kind", jstr "osLogin")] |}.

Definition select_account (flow_id : Uuid) (account_username : str) : BfProc BastionFlowSnapshot :=
  accounts ← list_accounts flow_id;
  now ← ask BfInstant;
  provider_id ← locked (reading now flow_id (fun flow => Ok (bf_provider flow)));
  account ← lift (ok_or
    (match List.find (names_account account_username) accounts with
     | Some account => Some account
     | None =>
         if (str_eqb provider_id (lit "boundary") || str_eqb provider_id (lit "teleport"))
            && negb (is_empty (trim account_username))
         then Some (os_login account_username) else None
     end) BastionPermissionDenied);
  change flow_id (fun flow => set_flow_state BsConnecting (set_selected_account account flow)) ;;
  snapshot flow_id.

Definition advance_after_asset (flow_id : Uuid) : BfProc unit :=
  now ← ask BfInstant;
  preferred ← locked (reading now flow_id (fun flow => Ok (bf_preferred_account_id flow)));
  chosen ← match preferred with
           | Some account => r ← caught (select_account flow_id account); mret (is_ok r)
           | None => mret false
           end;
  if chosen : bool then mret tt else change flow_id (set_flow_state BsSelectingAccount).

Definition boundary_asset (asset_id : str) : BastionAsset :=
  {| ba_provider := lit "boundary"; ba_remote_id := asset_id; ba_name := asset_id; ba_address := None;
     ba_platform := Some (lit "linux");
     ba_protocols := [{| apr_protocol := PrSsh; apr_port := Some 22%N; apr_enabled := true |}];
     ba_node_path := None; ba_labels := []; ba_metadata := JObject [] |}.

Definition find_remote_asset (flow_id : Uuid) (asset_id : str) : BfProc BastionAsset :=
  '(provider_id, session) ← require_auth_session flow_id;
  page ← list_remote_assets provider_id session
           {| aq_search := None; aq_node := None; aq_protocol := None; aq_page := 0; aq_page_size := 200 |};
  change flow_id (cached_page page) ;;
  lift (ok_or
    (match List.find (fun item => str_eqb (ba_remote_id item) asset_id) (pg_items page) with
     | Some item => Some item
     | None => if str_eqb provider_id (lit "boundary") then Some (boundary_asset asset_id) else None
     end) BastionPermissionDenied).

Definition with_asset (asset : BastionAsset) (flow : BastionFlow) : BastionFlow :=
  set_flow_state BsDiscoveringAccounts
    (set_selected_asset asset (set_asset_cache (<[ba_remote_id asset := asset]> (bf_asset_cache flow)) flow)).

Definition select_asset (flow_id : Uuid) (asset_id : str) : BfProc BastionFlowSnapshot :=
  let asset_id := trim asset_id in
  lift (reject_if (is_empty asset_id) BastionPermissionDenied) ;;
  now ← ask BfInstant;
  cached ← locked (reading now flow_id (fun flow => Ok (bf_asset_cache flow !! asset_id)));
  asset ← match cached with Some asset => mret asset | None => find_remote_asset flow_id asset_id end;
  change flow_id (with_asset asset) ;;
  advance_after_asset flow_id ;;
  snapshot flow_id.

Definition advance_after_authenticated (flow_id : Uuid) : BfProc unit :=
  now ← ask BfInstant;
  preferred ← locked (reading now flow_id (fun flow =>
    Ok (match bf_state flow with BsAuthenticated => Some (bf_preferred_asset_id flow) | _ => None end)));
  match preferred with
  | None => mret tt
  | Some (Some asset_id) => select_asset flow_id asset_id ;; mret tt
  | Some None => change flow_id (set_flow_state BsSelectingAsset)
  end.

Definition is_missing (secret : option str) : bool := from_option is_empty true secret.
Definition check_credential (credential : BastionCredential) : AppResult unit :=
  match credential with
  | CrPassword username secret => reject_if (is_empty (trim username) || is_missing secret) BastionAuthFailed
  | CrAccessKey key_id secret => reject_if (is_empty (trim key_id) || is_missing secret) BastionAuthFailed
  | CrToken token _ => reject_if (is_missing token) BastionAuthFailed
  | CrBrowserSso _ => Ok tt
  | _ => Err BastionUnavailable
  end.
Definition credential_account (credential : BastionCredential) : option str :=
  match credential with
  | CrToken _ (Some hint) | CrBrowserSso (Some hint) | CrPassword hint _ | CrExternalAgent hint => non_empty hint
  | _ => None
  end.
Definition preferred_account (route : BastionRoute) (profile : ServerProfile) (credential : BastionCredential) : option str :=
  let explicit := br_account_id route ≫= non_empty in
  if str_eqb (br_provider route) (lit "teleport") then explicit
  else match explicit with
       | Some a => Some a
       | None => match credential_account credential with Some a => Some a | None => non_empty (sp_username profile) end
       end.

Definition new_flow (route : BastionRoute) (profile : ServerProfile) (credential : BastionCredential) (now : N) : BastionFlow :=
  {| bf_profile_id := sp_id profile; bf_bastion_id := br_bastion_id route; bf_provider := br_provider route;
     bf_preferred_asset_id := non_empty (br_asset_id route);
     bf_preferred_account_id := preferred_account route profile credential; bf_state := BsAuthenticating;
     bf_auth_session := None; bf_asset_cache := ∅; bf_selected_asset := None; bf_selected_account := None;
     bf_connection := None; bf_gateway_host := None; bf_gateway_port := None; bf_expires_at := now + FLOW_LIFETIME |}.

Definition start (profile : ServerProfile) (credential : BastionCredential) (helper_defaults : HelperCliDefaults) :
    BfProc BastionFlowSnapshot :=
  match sp_connection_route profile with
  | RouteBastion route =>
      let provider := br_provider route in
      require_provider provider ;;
      lift (check_credential credential) ;;
      answer ← ask (BfStartAuth provider (mock_or_profile_endpoint (br_bastion_id route) provider profile helper_defaults)
                      credential);
      step ← lift (provider_answer answer);
      now ← ask BfInstant;
      flow_id ← insert_flow (flow_from_auth_step step (new_flow route profile credential now));
      advance_after_authenticated flow_id ;;
      snapshot flow_id
  | _ => lift (Err InvalidProfile)
  end.

Definition continue_auth (flow_id : Uuid) (response : AuthChallengeResponse) : BfProc BastionFlowSnapshot :=
  now ← ask BfInstant;
  '(provider_id, session) ← locked (changing now flow_id (fun flow =>
    (match bf_state flow with
     | BsAwaitingUser _ | BsAwaitingExternalAuth _ => pair (bf_provider flow) <$> session_of flow
     | _ => Err BastionUnavailable
     end, flow)));
  require_provider provider_id ;;
  answer ← ask (BfContinueAuth provider_id session response);
  step ← lift (provider_answer answer);
  change flow_id (flow_from_auth_step step) ;;
  advance_after_authenticated flow_id ;;
  snapshot flow_id.

(** *** The connection *)
Definition default_options : BastionConnectOptions :=
  {| bo_request_sftp := false; bo_request_port_forward := false; bo_agent_forwarding := false; bo_locale := None;
     bo_transient_ssh_password := None |}.
Definition FINGERPRINT_PREFIX : str := lit "fingerprint:".
Definition attach_fingerprint (options : BastionConnectOptions) (fingerprint : str) : BastionConnectOptions :=
  {| bo_request_sftp := bo_request_sftp options; bo_request_port_forward := bo_request_port_forward options;
     bo_agent_forwarding := bo_agent_forwarding options; bo_locale := Some (FINGERPRINT_PREFIX ++ fingerprint);
     bo_transient_ssh_password := bo_transient_ssh_password options |}.
Definition fingerprint_from_options (options : BastionConnectOptions) : option str :=
  opt_filter (fun f => negb (is_empty f)) (bo_locale options ≫= fun value => strip_prefix value FINGERPRINT_PREFIX).
Definition with_password (password : option str) (options : BastionConnectOptions) : BastionConnectOptions :=
  match password with
  | Some p => {| bo_request_sftp := bo_request_sftp options; bo_request_port_forward := bo_request_port_forward options;
                 bo_agent_forwarding := bo_agent_forwarding options; bo_locale := bo_locale options;
                 bo_transient_ssh_password := Some p |}
  | None => options
  end.

Definition chosen_of (flow : BastionFlow) : AppResult (str * AuthSession * BastionAsset * BastionAccount) :=
  session ← session_of flow;
  asset ← ok_or (bf_selected_asset flow) BastionPermissionDenied;
  account ← ok_or (bf_selected_account flow) BastionPermissionDenied;
  Ok (bf_provider flow, session, asset, account).

Definition connect_options (provider_id : str) (expected_fingerprint ssh_password : option str) : AppResult BastionConnectOptions :=
  options ← if str_eqb provider_id (lit "teleport") || str_eqb provider_id (lit "boundary") then Ok default_options
            else attach_fingerprint default_options <$> ok_or expected_fingerprint HostVerificationExpired;
  Ok (with_password ssh_password options).

Definition connect (flow_id : Uuid) (cols rows : N) (expected_fingerprint ssh_password : option str) :
    BfProc BastionFlowSnapshot :=
  now ← ask BfInstant;
  '(provider_id, session, asset, account) ← locked (changing now flow_id (fun flow =>
    (chosen_of flow, set_flow_state BsConnecting flow)));
  require_provider provider_id ;;
  options ← lift (connect_options provider_id expected_fingerprint ssh_password);
  answer ← ask (BfConnect provider_id session
    {| rq_asset := asset; rq_account := account; rq_protocol := PrSsh;
       rq_terminal := Some {| to_term := lit "xterm-256color"; to_cols := cols; to_rows := rows |};
       rq_options := options |});
  connection ← lift (provider_answer answer);
  change flow_id (fun flow => set_flow_state BsConnected (set_connection connection flow)) ;;
  snapshot flow_id.

Definition resolve_gateway_endpoint (flow_id : Uuid) : BfProc (str * N) :=
  now ← ask BfInstant;
  '(provider_id, session, asset, account) ← locked (reading now flow_id chosen_of);
  require_provider provider_id ;;
  answer ← ask (BfResolveGateway provider_id session asset account);
  '(host, port) ← lift (provider_answer answer);
  change flow_id (set_gateway host port) ;;
  mret (host, port).

Definition gateway_endpoint (flow_id : Uuid) : BfProc (str * N) :=
  now ← ask BfInstant;
  locked (reading now flow_id (fun flow =>
    match bf_gateway_host flow, bf_gateway_port flow with
    | Some host, Some port => Ok (host, port)
    | _, _ => Err BastionUnavailable
    end)).

Definition take_connection (flow_id profile_id : Uuid) : BfProc (BastionConnection * str) :=
  now ← ask BfInstant;
  locked (fun flows =>
    match flows !! flow_id with
    | None => Leave flows (Err BastionUnavailable)
    | Some flow =>
        if negb (flow_live now flow) then Leave (delete flow_id flows) (Err BastionUnavailable)
        else if negb (bf_profile_id flow =? profile_id)%N then Leave flows (Err InvalidProfile)
        else match bf_state flow, bf_connection flow with
             | BsConnected, Some connection => Leave (delete flow_id flows) (Ok (connection, bf_provider flow))
             | _, _ => Leave flows (Err BastionUnavailable)
             end
    end).

Definition flow_cancel (flow_id : Uuid) : BfProc unit := locked (fun flows => Leave (delete flow_id flows) (Ok tt)).

Definition open_external_browser (flow_id : Uuid) : BfProc unit :=
  now ← ask BfInstant;
  '(provider_id, session, url) ← locked (reading now flow_id (fun flow =>
    match bf_state flow with
    | BsAwaitingExternalAuth (OpenBrowser url _) => Ok (bf_provider flow, bf_auth_session flow, url)
    | BsAwaitingExternalAuth _ => Ok (bf_provider flow, bf_auth_session flow, [])
    | _ => Err BastionUnavailable
    end));
  if str_eqb provider_id (lit "teleport") then
    session ← lift (ok_or session BastionAuthFailed);
    require_provider (lit "teleport") ;;
    answer ← ask (BfSpawnLogin session);
    lift (provider_answer answer)
  else
    let trimmed := trim url in
    lift (reject_if (is_empty trimmed || negb (starts_with trimmed (lit "https://") || starts_with trimmed (lit "http://")))
            BastionUnavailable) ;;
    opened ← ask (BfOpenUrl trimmed);
    lift (reject_if (negb opened) BastionUnavailable).

(** ** The service as a whole *)
Inductive BfCall :=
  | BcStart (profile : ServerProfile) (credential : BastionCredential) (helper_defaults : HelperCliDefaults)
  | BcContinue (flow_id : Uuid) (response : AuthChallengeResponse)
  | BcListAssets (flow_id : Uuid) (query : AssetQuery) | BcSelectAsset (flow_id : Uuid) (asset_id : str)
  | BcListAccounts (flow_id : Uuid) | BcSelectAccount (flow_id : Uuid) (account : str)
  | BcConnect (flow_id : Uuid) (cols rows : N) (expected_fingerprint ssh_password : option str)
  | BcResolveGateway (flow_id : Uuid) | BcGateway (flow_id : Uuid) | BcTake (flow_id profile_id : Uuid)
  | BcCancel (flow_id : Uuid) | BcSnapshot (flow_id : Uuid) | BcOpenBrowser (flow_id : Uuid).
Inductive BfReply :=
  | BrSnapshot (s : BastionFlowSnapshot) | BrPage (p : AssetPage) | BrAccounts (l : list BastionAccount)
  | BrEndpoint (host : str) (port : N) | BrConnection (c : BastionConnection) (provider : str) | BrUnit.

Definition bf_body (c : BfCall) : BfProc BfReply :=
  match c with
  | BcStart profile credential defaults => s ← start profile credential defaults; mret (BrSnapshot s)
  | BcContinue id response => s ← continue_auth id response; mret (BrSnapshot s)
  | BcListAssets id query => p ← list_assets id query; mret (BrPage p)
  | BcSelectAsset id asset => s ← select_asset id asset; mret (BrSnapshot s)
  | BcListAccounts id => l ← list_accounts id; mret (BrAccounts l)
  | BcSelectAccount id account => s ← select_account id account; mret (BrSnapshot s)
  | BcConnect id cols rows fingerprint password => s ← connect id cols rows fingerprint password; mret (BrSnapshot s)
  | BcResolveGateway id => '(host, port) ← resolve_gateway_endpoint id; mret (BrEndpoint host port)
  | BcGateway id => '(host, port) ← gateway_endpoint id; mret (BrEndpoint host port)
  | BcTake id profile => '(c, provider) ← take_connection id profile; mret (BrConnection c provider)
  | BcCancel id => flow_cancel id ;; mret BrUnit
  | BcSnapshot id => s ← snapshot id; mret (BrSnapshot s)
  | BcOpenBrowser id => open_external_browser id ;; mret BrUnit
  end.
End Service.
