(* ===== verification/BastionFlowTheorems.v ===== *)
(** * What holds of bastion flows

    In any interleaving of any calls, a provider is only asked with what that provider
    has answered before: the session of a step of its authentication, an asset and an
    account that it has listed; a connection is asked for with what the flow of its call
    held then, and with the fingerprint of that call; and there are never more flows than
    the bound.  What does not hold: the samples at the end. *)
From S2P Require Import Prelude Str Json Errors NumText RunState Catalog Process Rely Observe BastionFlow.

Abbreviation BfEv := (event unit BfQuery BfAnswer) (only parsing).

(** ** What a provider has answered *)
Definition step_session (step : AuthStepResult) : AuthSession :=
  match step with StepAuthenticated s | StepChallenge s _ | StepExternalAction s _ => s end.

(** No identifier is given to flows of two providers. *)
Definition fresh (log : list BfEv) : Prop :=
  forall p p' id, EvAsked (BfNewId p) id ∈ log -> EvAsked (BfNewId p') id ∈ log -> p = p'.
Definition owned (log : list BfEv) (id : Uuid) (provider : str) : Prop := EvAsked (BfNewId provider) id ∈ log.

(** The session was answered by a step of the authentication. *)
Definition stepped (log : list BfEv) (provider : str) (s : AuthSession) : Prop :=
  fresh log -> exists step, step_session step = s /\
    ((exists e c, EvAsked (BfStartAuth provider e c) (Ok step) ∈ log) \/
     (exists s0 r, EvAsked (BfContinueAuth provider s0 r) (Ok step) ∈ log)).
(** The asset was listed, or is the one a profile of Boundary names. *)
Definition offered_asset (log : list BfEv) (provider : str) (a : BastionAsset) : Prop :=
  fresh log ->
  (exists s q page, EvAsked (BfListAssets provider s q) (Ok page) ∈ log /\ a ∈ pg_items page) \/
  (provider = lit "boundary" /\ exists id, a = boundary_asset id).
Definition names_login (provider : str) : Prop := provider = lit "boundary" \/ provider = lit "teleport".
(** The account was listed, or is an explicit login where that is allowed. *)
Definition offered_account (log : list BfEv) (provider : str) (a : BastionAccount) : Prop :=
  fresh log ->
  (exists s asset l, EvAsked (BfListAccounts provider s asset) (Ok l) ∈ log /\ a ∈ l) \/
  (names_login provider /\ exists name, a = os_login name).
Definition connected_as (log : list BfEv) (provider : str) (c : BastionConnection) : Prop :=
  fresh log -> exists s request, EvAsked (BfConnect provider s request) (Ok c) ∈ log.

Record flow_sourced (log : list BfEv) (f : BastionFlow) : Prop := {
  fo_session s : bf_auth_session f = Some s -> stepped log (bf_provider f) s;
  fo_cache key a : bf_asset_cache f !! key = Some a -> ba_remote_id a = key /\ offered_asset log (bf_provider f) a;
  fo_asset a : bf_selected_asset f = Some a -> offered_asset log (bf_provider f) a;
  fo_account a : bf_selected_account f = Some a -> offered_account log (bf_provider f) a;
  fo_connection c : bf_connection f = Some c -> connected_as log (bf_provider f) c;
}.
Definition flows_sourced (log : list BfEv) (flows : gmap Uuid BastionFlow) : Prop :=
  (size flows <= MAX_FLOWS)%nat /\ map_Forall (fun id f => owned log id (bf_provider f) /\ flow_sourced log f) flows.

(** *** More answers *)
Lemma fresh_before log log' : log `prefix_of` log' -> fresh log' -> fresh log.
Proof. intros Hl Hf p p' id Hp Hp'. eapply Hf; by eapply elem_of_prefix. Qed.
Lemma stepped_grows log log' p s : log `prefix_of` log' -> stepped log p s -> stepped log' p s.
Proof.
  intros Hl Hs Hf. destruct (Hs (fresh_before _ _ Hl Hf)) as (step & He & [(e & c & Hin)|(s0 & r & Hin)]); exists step;
    eauto 8 using elem_of_prefix.
Qed.
Lemma offered_asset_grows log log' p a : log `prefix_of` log' -> offered_asset log p a -> offered_asset log' p a.
Proof.
  intros Hl Ha Hf. destruct (Ha (fresh_before _ _ Hl Hf)) as [(s & q & page & He & Hin)|?]; [left|by right].
  exists s, q, page. eauto using elem_of_prefix.
Qed.
Lemma offered_account_grows log log' p a : log `prefix_of` log' -> offered_account log p a -> offered_account log' p a.
Proof.
  intros Hl Ha Hf. destruct (Ha (fresh_before _ _ Hl Hf)) as [(s & q & page & He & Hin)|?]; [left|by right].
  exists s, q, page. eauto using elem_of_prefix.
Qed.
Lemma connected_as_grows log log' p c : log `prefix_of` log' -> connected_as log p c -> connected_as log' p c.
Proof. intros Hl Hc Hf. destruct (Hc (fresh_before _ _ Hl Hf)) as (s & r & He). exists s, r. by eapply elem_of_prefix. Qed.
Lemma owned_grows log log' id p : log `prefix_of` log' -> owned log id p -> owned log' id p.
Proof. intros Hl Hc. by eapply elem_of_prefix. Qed.
Lemma flow_sourced_grows log log' f : log `prefix_of` log' -> flow_sourced log f -> flow_sourced log' f.
Proof.
  intros Hl [Hs Hc Ha Hac Hcn].
  split; [eauto using stepped_grows| |eauto using offered_asset_grows|eauto using offered_account_grows|eauto using connected_as_grows].
  intros key a Hk. destruct (Hc key a Hk). eauto using offered_asset_grows.
Qed.
Lemma flows_sourced_grows log e flows : flows_sourced log flows -> flows_sourced (log ++ [e]) flows.
Proof.
  intros [Hsize Hall]. split; [done|]. intros id f Hf. destruct (Hall id f Hf) as [Ho Hs].
  assert (Hl : log `prefix_of` log ++ [e]) by by apply prefix_app_r.
  split; [by apply (owned_grows log)|by apply (flow_sourced_grows log)].
Qed.

(** What was true of fewer answers is. *)
Ltac prefixes :=
  match goal with
  | |- ?a `prefix_of` ?a => reflexivity
  | H : ?a `prefix_of` ?b |- ?a `prefix_of` _ => etransitivity; [exact H|prefixes]
  end.
Ltac still :=
  match goal with
  | H : owned _ ?i ?p |- owned _ ?i ?p => solve [eapply owned_grows; [|exact H]; prefixes]
  | H : stepped _ ?p ?s |- stepped _ ?p ?s => solve [eapply stepped_grows; [|exact H]; prefixes]
  | H : offered_asset _ ?p ?s |- offered_asset _ ?p ?s => solve [eapply offered_asset_grows; [|exact H]; prefixes]
  | H : offered_account _ ?p ?s |- offered_account _ ?p ?s => solve [eapply offered_account_grows; [|exact H]; prefixes]
  | H : ?x ∈ _ |- ?x ∈ _ => solve [eapply elem_of_prefix; [exact H|prefixes]]
  end.

Section Flows.
Context (registered : str -> bool) (order : gmap Uuid BastionFlow -> list (Uuid * BastionFlow)).
Hypothesis order_lists : forall m, order m ≡ₚ map_to_list m.

(** What is asked, given the answers before. *)
Definition asked_soundly (log : list BfEv) (q : BfQuery) : Prop :=
  match q with
  | BfInstant | BfNewId _ => True
  | BfStartAuth p _ c => registered p = true /\ check_credential c = Ok tt
  | BfContinueAuth p s _ | BfListAssets p s _ => registered p = true /\ stepped log p s
  | BfListAccounts p s a => registered p = true /\ stepped log p s /\ offered_asset log p a
  | BfResolveGateway p s a c => registered p = true /\ stepped log p s /\ offered_asset log p a /\ offered_account log p c
  | BfConnect p s request =>
      registered p = true /\ stepped log p s /\ offered_asset log p (rq_asset request) /\
      offered_account log p (rq_account request)
  | BfSpawnLogin s => registered (lit "teleport") = true /\ stepped log (lit "teleport") s
  | BfOpenUrl url => starts_with url (lit "https://") = true \/ starts_with url (lit "http://") = true
  end.

Abbreviation rel := (relies flows_sourced asked_soundly) (only parsing).

(** A fact of the answers so far and of the value, when there is one. *)
Definition gives {A} (F : list BfEv -> A -> Prop) (log : list BfEv) (r : AppResult A) : Prop :=
  match r with Ok a => F log a | Err _ => True end.
Definition anything {A} (log : list BfEv) (a : A) : Prop := True.

Lemma rel_bind {A B} past (p : proc _ _ BfQuery BfAnswer A) (f : A -> proc _ _ BfQuery BfAnswer B) F F' :
  rel past p (gives F) -> (forall log a, past `prefix_of` log -> F log a -> rel log (f a) (gives F')) ->
  rel past (p ≫= f) (gives F').
Proof.
  intros Hp Hf. apply relies_bind. eapply relies_mono; [exact Hp|]. intros log [a|e] Hl HF; cbn in *; [by apply Hf|done].
Qed.
Lemma rel_lift {A} past (r : AppResult A) (F : list BfEv -> A -> Prop) :
  (forall a, r = Ok a -> F past a) -> rel past (lift r) (gives F).
Proof. intros Hr. apply relies_lift. destruct r; [by apply Hr|done]. Qed.
Lemma rel_ret {A} past (a : A) (F : list BfEv -> A -> Prop) : F past a -> rel past (mret a) (gives F).
Proof. done. Qed.
Lemma rel_ask past q (F : list BfEv -> BfAnswer q -> Prop) :
  (forall log, past `prefix_of` log -> asked_soundly log q /\ forall a, F (log ++ [EvAsked q a]) a) ->
  rel past (ask q) (gives F).
Proof. done. Qed.
Lemma rel_weaken {A} past (p : proc _ _ BfQuery BfAnswer A) (F F' : list BfEv -> A -> Prop) :
  rel past p (gives F) -> (forall log a, past `prefix_of` log -> F log a -> F' log a) -> rel past p (gives F').
Proof. intros Hp HF. eapply relies_mono; [exact Hp|]. intros log [a|e] Hl; cbn; auto. Qed.

(** *** Sections *)
Lemma rel_asking {B} past q (k : BfAnswer q -> proc _ _ BfQuery BfAnswer B) F :
  asked_soundly past q -> (forall log log', log `prefix_of` log' -> asked_soundly log q -> asked_soundly log' q) ->
  (forall log a, past `prefix_of` log -> EvAsked q a ∈ log -> rel log (k a) (gives F)) ->
  rel past (ask q ≫= k) (gives F).
Proof.
  intros Hq Hgrows Hk. apply relies_bind. unfold ask. cbn [relies]. intros log Hl. split; [by eapply Hgrows|]. intros a.
  apply Hk; [by apply prefix_app_r|set_solver].
Qed.
Lemma rel_instant {B} past (k : N -> proc _ _ BfQuery BfAnswer B) F :
  (forall log now, past `prefix_of` log -> rel log (k now) (gives F)) -> rel past (ask BfInstant ≫= k) (gives F).
Proof. intros Hk. apply (rel_asking past BfInstant); [done|done|]. intros log now Hl _. by apply Hk. Qed.

Lemma rel_reading {X} past now id (f : BastionFlow -> AppResult X) F :
  (forall log flow a, past `prefix_of` log -> owned log id (bf_provider flow) -> flow_sourced log flow -> f flow = Ok a -> F log a) ->
  rel past (locked (reading now id f)) (gives F).
Proof.
  intros Hf. apply relies_locked. intros log flows Hl [Hsize Hall]. split; [done|]. unfold flow_get.
  destruct (flows !! id) as [flow|] eqn:Hflow; cbn; [|done]. destruct (flow_live now flow); cbn; [|done].
  destruct (f flow) as [a|] eqn:Ha; cbn; [|done]. destruct (Hall _ _ Hflow). by eapply Hf.
Qed.

Lemma rel_changing {X} past now id (f : BastionFlow -> AppResult X * BastionFlow) F :
  (forall log flow, past `prefix_of` log -> owned log id (bf_provider flow) -> flow_sourced log flow ->
     bf_provider (snd (f flow)) = bf_provider flow /\ flow_sourced log (snd (f flow)) /\ forall a, fst (f flow) = Ok a -> F log a) ->
  rel past (locked (changing now id f)) (gives F).
Proof.
  intros Hf. apply relies_locked. intros log flows Hl [Hsize Hall]. unfold changing.
  destruct (flows !! id) as [flow|] eqn:Hflow; [|done]. destruct (flow_live now flow).
  - destruct (Hall _ _ Hflow) as [Hown Hsrc]. destruct (Hf log flow Hl Hown Hsrc) as (Hprov & Hnew & Hpost).
    destruct (f flow) as [r flow']. cbn in *. split; [|destruct r; [by apply Hpost|done]].
    split; [by rewrite map_size_insert_Some by eauto|]. apply map_Forall_insert_2; [by rewrite Hprov|done].
  - split; [|done]. split; [|by apply map_Forall_delete]. rewrite map_size_delete_Some by eauto. lia.
Qed.

Lemma rel_change past id f :
  (forall log flow, past `prefix_of` log -> owned log id (bf_provider flow) -> flow_sourced log flow ->
     bf_provider (f flow) = bf_provider flow /\ flow_sourced log (f flow)) ->
  rel past (change id f) (gives anything).
Proof.
  intros Hf. apply rel_instant. intros log now Hl. apply rel_changing.
  intros log' flow Hl' Hown Hflow. destruct (Hf log' flow) as [? ?]; [by etransitivity|done..].
Qed.

Lemma rel_provider past id : rel past (require_provider registered id) (gives (fun _ _ => registered id = true)).
Proof. apply rel_lift. intros []. unfold reject_if. by destruct (registered id). Qed.

(** A change that keeps what the flow refers to. *)
Lemma sourced_state log st f : flow_sourced log f -> flow_sourced log (set_flow_state st f).
Proof. by intros []. Qed.

Lemma rel_snapshot past id : rel past (snapshot id) (gives anything).
Proof. apply rel_instant. intros log now Hl. by apply rel_reading. Qed.

Lemma session_of_sourced log f s : flow_sourced log f -> session_of f = Ok s -> stepped log (bf_provider f) s.
Proof. intros Hf. unfold session_of. destruct (bf_auth_session f) eqn:Hs; [|done]. intros [= <-]. by apply Hf. Qed.

Lemma rel_auth_session past id :
  rel past (require_auth_session id) (gives (fun log x => owned log id (fst x) /\ stepped log (fst x) (snd x))).
Proof.
  apply rel_instant. intros log now Hl. apply rel_reading.
  intros log' flow [p s] Hl' Hown Hflow (s' & Hs & Hr)%bind_ok. apply bind_ok in Hr as (u & _ & [= <- <-]). cbn.
  split; [done|by apply session_of_sourced].
Qed.

(** *** Assets *)
Definition listed_page (provider : str) (log : list BfEv) (page : AssetPage) : Prop :=
  exists s q, EvAsked (BfListAssets provider s q) (Ok page) ∈ log.

Lemma provider_answer_ok {A} (r : result BastionError A) a : provider_answer r = Ok a -> r = Ok a.
Proof. destruct r; [by intros [= ->]|done]. Qed.

Lemma rel_list_remote past provider s q :
  stepped past provider s -> rel past (list_remote_assets registered provider s q) (gives (listed_page provider)).
Proof.
  intros Hs. apply (rel_bind _ _ _ _ _ (rel_provider past provider)). intros log _ Hl Hreg. apply rel_asking.
  - split; [done|]. by eapply stepped_grows.
  - intros l1 l2 Hll [? ?]. split; [done|]. by eapply stepped_grows.
  - intros log' a _ Ha. apply rel_lift. intros page ->%provider_answer_ok. by exists s, q.
Qed.

Lemma listed_page_grows log log' p page : log `prefix_of` log' -> listed_page p log page -> listed_page p log' page.
Proof. intros Hl (s & q & He). exists s, q. by eapply elem_of_prefix. Qed.

Lemma cached_page_lookup (l : list BastionAsset) (cache : gmap str BastionAsset) (key : str) (a : BastionAsset) :
  foldl (fun (cache : gmap str BastionAsset) a => <[ba_remote_id a := a]> cache) cache l !! key = Some a ->
  (ba_remote_id a = key /\ a ∈ l) \/ cache !! key = Some a.
Proof.
  revert cache. induction l as [|x l IH]; intros cache; cbn; [by right|]. intros [[? ?]|Hc]%IH; [left; set_solver|].
  apply lookup_insert_Some in Hc as [[<- <-]|[_ ?]]; [left; set_solver|by right].
Qed.

Lemma sourced_page log page f : (fresh log -> listed_page (bf_provider f) log page) -> flow_sourced log f -> flow_sourced log (cached_page page f).
Proof.
  intros Hp [Hs Hc Ha Hac Hcn]. split; try done. cbn. intros key a [[Hk Hin]|Hold]%cached_page_lookup; [|by apply Hc].
  split; [done|]. intros (s & q & He)%Hp. left. by exists s, q, page.
Qed.
Lemma owned_once log id p p' : fresh log -> owned log id p -> owned log id p' -> p = p'.
Proof. intros Hf. apply Hf. Qed.

Lemma rel_list_assets past id q : rel past (list_assets registered id q) (gives anything).
Proof.
  apply (rel_bind _ _ _ _ _ (rel_auth_session past id)). intros l1 [p s] _ [Hown Hs]. cbn in Hown, Hs.
  eapply rel_bind; [apply rel_change; intros; split; [done|by apply sourced_state]|]. intros l2 _ Hl2 _.
  eapply rel_bind; [apply rel_list_remote; still|]. intros l3 page Hl3 Hpage.
  eapply rel_bind; [|done]. apply rel_change. intros l4 flow Hl4 Hown' Hflow. split; [done|].
  apply sourced_state, sourced_page; [|done]. intros Hf.
  rewrite <- (owned_once l4 id p _ Hf); [by eapply listed_page_grows|still|done].
Qed.

(** *** Accounts *)
Definition listed_accounts (id : Uuid) (log : list BfEv) (l : list BastionAccount) : Prop :=
  exists p s asset, owned log id p /\ EvAsked (BfListAccounts p s asset) (Ok l) ∈ log.

Lemma selected_of_sourced log f p s a :
  flow_sourced log f -> selected_of f = Ok (p, s, a) -> p = bf_provider f /\ stepped log p s /\ offered_asset log p a.
Proof.
  intros Hf (s' & Hs & (a' & Ha & [= <- <- <-])%bind_ok)%bind_ok. split_and!; [done|by apply session_of_sourced|].
  apply Hf. by destruct (bf_selected_asset f); [injection Ha as ->|].
Qed.

Lemma rel_list_accounts past id : rel past (list_accounts registered id) (gives (listed_accounts id)).
Proof.
  apply rel_instant. intros l0 now _.
  eapply (rel_bind _ _ _ (fun log x => let '(p, s, a) := x in owned log id p /\ stepped log p s /\ offered_asset log p a)).
  { apply rel_reading. intros log flow [[p s] a] _ Hown Hsrc Hsel.
    by destruct (selected_of_sourced _ _ _ _ _ Hsrc Hsel) as (-> & Hs & Ha). }
  intros l1 [[p s] a] _ (Hown & Hs & Ha).
  apply (rel_bind _ _ _ _ _ (rel_provider l1 p)). intros l2 _ Hl2 Hreg. apply rel_asking.
  - split_and!; [done|still..].
  - intros g1 g2 Hg (? & ? & ?). split_and!; [done|still..].
  - intros l3 answer Hl3 Hin. eapply (rel_bind _ _ _ (fun _ l => answer = Ok l)); [by apply rel_lift; intros l ->%provider_answer_ok|].
    intros l4 l Hl4 ->. eapply rel_bind; [apply rel_change; intros; split; [done|by apply sourced_state]|].
    intros l5 _ Hl5 _. apply rel_ret. exists p, s, a. split; still.
Qed.

Lemma rel_state past id st : rel past (change id (set_flow_state st)) (gives anything).
Proof. apply rel_change. intros. split; [done|by apply sourced_state]. Qed.

Lemma sourced_account log a f :
  offered_account log (bf_provider f) a -> flow_sourced log f -> flow_sourced log (set_selected_account a f).
Proof. intros Ha [Hs Hc Hx Hac Hcn]. split; try done. cbn. by intros b [= <-]. Qed.
Lemma sourced_asset log a f :
  offered_asset log (bf_provider f) a -> flow_sourced log f -> flow_sourced log (with_asset a f).
Proof.
  intros Ha [Hs Hc Hx Hac Hcn]. split; try done; cbn; [|by intros b [= <-]].
  intros key b [[<- <-]|[_ Hb]]%lookup_insert_Some; [done|by apply Hc].
Qed.
Lemma sourced_session log s f : stepped log (bf_provider f) s -> flow_sourced log f -> flow_sourced log (set_auth_session s f).
Proof. intros Ha [Hs Hc Hx Hac Hcn]. split; try done. cbn. by intros b [= <-]. Qed.
Lemma sourced_connection log c f :
  connected_as log (bf_provider f) c -> flow_sourced log f -> flow_sourced log (set_connection c f).
Proof. intros Ha [Hs Hc Hx Hac Hcn]. split; try done. cbn. by intros b [= <-]. Qed.

(** A choice written to the flow it was made for. *)
Definition account_for (id : Uuid) (log : list BfEv) (a : BastionAccount) : Prop :=
  exists p, owned log id p /\ offered_account log p a.
Definition asset_for (id : Uuid) (log : list BfEv) (a : BastionAsset) : Prop :=
  exists p, owned log id p /\ offered_asset log p a.
Lemma account_for_flow id log log' a p : log `prefix_of` log' -> account_for id log a -> owned log' id p -> offered_account log' p a.
Proof.
  intros Hl (q & Hq & Ha) Hp Hf. assert (q = p) as -> by (apply (owned_once log' id); [exact Hf|still|done]).
  by eapply offered_account_grows.
Qed.
Lemma asset_for_flow id log log' a p : log `prefix_of` log' -> asset_for id log a -> owned log' id p -> offered_asset log' p a.
Proof.
  intros Hl (q & Hq & Ha) Hp Hf. assert (q = p) as -> by (apply (owned_once log' id); [exact Hf|still|done]).
  by eapply offered_asset_grows.
Qed.

Lemma chosen_account id log provider accounts name a :
  listed_accounts id log accounts -> owned log id provider ->
  match List.find (names_account name) accounts with
  | Some account => Some account
  | None => if (str_eqb provider (lit "boundary") || str_eqb provider (lit "teleport")) && negb (is_empty (trim name))
            then Some (os_login name) else None
  end = Some a -> account_for id log a.
Proof.
  intros (p & s & asset & Hp & Hl) Hown Ha. exists p. split; [done|]. intros Hf.
  destruct (List.find _ accounts) as [b|] eqn:Hfind.
  - injection Ha as ->. left. apply find_some in Hfind as [Hin _]. exists s, asset, accounts.
    by rewrite <- list_elem_of_In in Hin.
  - right. destruct (_ && _) eqn:Hn; [|done]. injection Ha as <-. apply andb_prop in Hn as [Hn _].
    split; [|by eexists]. rewrite (owned_once _ _ _ _ Hf Hp Hown).
    by apply orb_prop in Hn as [->%str_eqb_eq| ->%str_eqb_eq]; [left|right].
Qed.

Lemma rel_select_account past id name : rel past (select_account registered id name) (gives anything).
Proof.
  apply (rel_bind _ _ _ _ _ (rel_list_accounts past id)). intros l1 accounts _ Hacc. apply rel_instant. intros l2 now Hl2.
  eapply (rel_bind _ _ _ (fun log p => owned log id p)).
  { apply rel_reading. by intros log flow p _ Hown _ [= <-]. }
  intros l3 provider Hl3 Hown.
  eapply (rel_bind _ _ _ (fun log a => account_for id log a)).
  { apply rel_lift. intros a Ha. eapply chosen_account; [|exact Hown|by apply ok_or_ok in Ha].
    destruct Hacc as (p & s & asset & Hp & Hl). exists p, s, asset. split; still. }
  intros l4 a Hl4 Ha. eapply rel_bind; [|intros l5 _ _ _; apply rel_snapshot]. apply rel_change.
  intros l5 flow Hl5 Hown' Hsrc. split; [done|]. apply sourced_state, sourced_account; [|done].
  by eapply account_for_flow.
Qed.

Lemma rel_advance_after_asset past id : rel past (advance_after_asset registered id) (gives anything).
Proof.
  apply rel_instant. intros l0 now _. eapply (rel_bind _ _ _ anything); [by apply rel_reading|]. intros l1 preferred _ _.
  eapply (rel_bind _ _ _ anything).
  - destruct preferred as [name|]; [|done]. apply relies_bind, relies_caught.
    eapply relies_mono; [apply rel_select_account|]. by intros log [r|e].
  - intros l2 [] _ _; [done|apply rel_state].
Qed.

Lemma rel_find_remote past id asset_id : rel past (find_remote_asset registered id asset_id) (gives (asset_for id)).
Proof.
  apply (rel_bind _ _ _ _ _ (rel_auth_session past id)). intros l1 [p s] _ [Hown Hs]. cbn in Hown, Hs.
  eapply rel_bind; [apply rel_list_remote; still|]. intros l2 page Hl2 Hpage.
  eapply (rel_bind _ _ _ anything).
  { apply rel_change. intros l3 flow Hl3 Hown' Hsrc. split; [done|]. apply sourced_page; [|done]. intros Hf.
    rewrite <- (owned_once l3 id p _ Hf); [by eapply listed_page_grows|still|done]. }
  intros l3 _ Hl3 _. apply rel_lift. intros a Ha%ok_or_ok. exists p. split; [still|]. intros Hf.
  destruct (List.find _ (pg_items page)) as [b|] eqn:Hfind.
  - injection Ha as ->. left. apply find_some in Hfind as [Hin _]. destruct Hpage as (s0 & q & Hq).
    exists s0, q, page. rewrite <- list_elem_of_In in Hin. split; [still|done].
  - right. destruct (str_eqb p (lit "boundary")) eqn:Hb; [|done]. injection Ha as <-. apply str_eqb_eq in Hb.
    split; [done|by eexists].
Qed.

Lemma rel_select_asset past id asset_id : rel past (select_asset registered id asset_id) (gives anything).
Proof.
  eapply (rel_bind _ _ _ anything); [by apply rel_lift|]. intros l0 _ _ _. apply rel_instant. intros l1 now _.
  eapply (rel_bind _ _ _ (fun log o => forall a, o = Some a -> asset_for id log a)).
  { apply rel_reading. intros log flow o _ Hown Hsrc [= <-] a Ha. eexists. split; [exact Hown|].
    by apply (fo_cache _ _ Hsrc _ _ Ha). }
  intros l2 cached Hl2 Hcached.
  eapply (rel_bind _ _ _ (asset_for id)).
  { destruct cached as [a|]; [apply rel_ret; by apply Hcached|apply rel_find_remote]. }
  intros l3 a Hl3 Ha. eapply (rel_bind _ _ _ anything).
  { apply rel_change. intros l4 flow Hl4 Hown Hsrc. split; [done|]. apply sourced_asset; [|done].
    by eapply asset_for_flow. }
  intros l4 _ _ _. eapply rel_bind; [apply rel_advance_after_asset|]. intros l5 _ _ _. apply rel_snapshot.
Qed.

(** *** Authentication *)
Lemma rel_advance_after_auth past id : rel past (advance_after_authenticated registered id) (gives anything).
Proof.
  apply rel_instant. intros l0 now _. eapply (rel_bind _ _ _ anything); [by apply rel_reading|].
  intros l1 [[asset_id|]|] _ _; [|apply rel_state|done].
  eapply rel_bind; [apply rel_select_asset|done].
Qed.

Lemma sourced_step log step f :
  stepped log (bf_provider f) (step_session step) -> flow_sourced log f ->
  bf_provider (flow_from_auth_step step f) = bf_provider f /\ flow_sourced log (flow_from_auth_step step f).
Proof. intros Hs Hf. destruct step; (split; [done|]); by apply sourced_state, sourced_session. Qed.

Lemma oldest_flow_in l id : oldest_flow l = Some id -> id ∈ l.*1.
Proof.
  destruct l as [|x rest]; [done|]. cbn. intros [= <-]. revert x. induction rest as [|y rest IH]; intros x; cbn; [set_solver|].
  specialize (IH (if (bf_expires_at (snd y) <? bf_expires_at (snd x))%N then y else x)). destruct (_ <? _)%N; set_solver.
Qed.

Lemma make_room_bound now flows : (size flows <= MAX_FLOWS)%nat -> (size (make_room order now flows) < MAX_FLOWS)%nat.
Proof.
  intros Hs. unfold make_room. set (live := filter _ flows).
  assert (Hl : (size live <= size flows)%nat) by apply map_size_filter_le || (apply map_subseteq_size, map_filter_subseteq).
  destruct (Nat.leb_spec MAX_FLOWS (size live)); [|done].
  destruct (oldest_flow (order live)) as [oldest|] eqn:Ho.
  - apply oldest_flow_in in Ho. rewrite order_lists in Ho. apply list_elem_of_fmap in Ho as ([k f] & -> & Hk%elem_of_map_to_list).
    rewrite map_size_delete_Some by eauto. unfold MAX_FLOWS in *. lia.
  - assert (Hn : order live = []) by (by destruct (order live)).
    pose proof (order_lists live) as Hp. rewrite Hn in Hp. symmetry in Hp. apply Permutation_nil_r, map_to_list_empty_iff in Hp.
    rewrite Hp, map_size_empty in *. unfold MAX_FLOWS in *. lia.
Qed.
Lemma make_room_subset now flows : make_room order now flows ⊆ flows.
Proof.
  unfold make_room. destruct (_ <=? _)%nat; [destruct (oldest_flow _)|]; [|apply map_filter_subseteq..].
  etransitivity; [apply delete_subseteq|apply map_filter_subseteq].
Qed.

Lemma rel_insert past flow : flow_sourced past flow -> rel past (insert_flow order flow) (gives anything).
Proof.
  intros Hflow. apply rel_instant. intros l0 now Hl0. apply rel_asking; [done|done|]. intros l1 id Hl1 Hid.
  apply relies_locked. intros log flows Hl [Hsize Hall]. split; [|done]. split.
  - apply make_room_bound with (now := now) in Hsize. destruct (make_room order now flows !! id) eqn:Hold.
    + rewrite map_size_insert_Some by eauto. lia.
    + rewrite map_size_insert_None by done. lia.
  - apply map_Forall_insert_2.
    + split; [by eapply elem_of_prefix|]. eapply flow_sourced_grows; [|exact Hflow]. prefixes.
    + intros key f Hf. apply Hall. by eapply lookup_weaken, make_room_subset.
Qed.

Lemma rel_start past profile credential defaults : rel past (start registered order profile credential defaults) (gives anything).
Proof.
  unfold start. destruct (sp_connection_route profile) as [ | |route]; [done|done|].
  apply (rel_bind _ _ _ _ _ (rel_provider past _)). intros l1 _ _ Hreg.
  eapply (rel_bind _ _ _ (fun _ _ => check_credential credential = Ok tt)); [by apply rel_lift; intros []|].
  intros l2 _ _ Hcred. apply rel_asking; [done|done|]. intros l3 answer _ Hin.
  eapply (rel_bind _ _ _ (fun _ step => answer = Ok step)); [by apply rel_lift; intros l ->%provider_answer_ok|].
  intros l4 step Hl4 ->. apply rel_instant. intros l5 now Hl5.
  eapply rel_bind.
  - apply rel_insert. eapply sourced_step; [|by split].
    intros _. exists step. split; [done|]. left. exists (mock_or_profile_endpoint (br_bastion_id route) (br_provider route) profile defaults), credential. cbn. still.
  - intros l6 id _ _. eapply rel_bind; [apply rel_advance_after_auth|]. intros l7 _ _ _. apply rel_snapshot.
Qed.

Lemma rel_continue past id response : rel past (continue_auth registered id response) (gives anything).
Proof.
  apply rel_instant. intros l0 now _.
  eapply (rel_bind _ _ _ (fun log x => owned log id (fst x) /\ stepped log (fst x) (snd x))).
  { apply rel_changing. intros log flow _ Hown Hsrc. split_and!; [done|done|]. cbn. intros [p s] Hr.
    assert (Hs : pair (bf_provider flow) <$> session_of flow = Ok (p, s)) by (by destruct (bf_state flow)).
    destruct (session_of flow) as [s'|] eqn:Hs'; [|done]. injection Hs as <- <-. split; [done|by apply session_of_sourced]. }
  intros l1 [p s] _ [Hown Hs]. cbn in Hown, Hs. apply (rel_bind _ _ _ _ _ (rel_provider l1 p)). intros l2 _ Hl2 Hreg.
  apply rel_asking; [split; [done|still]|by intros g1 g2 Hg [? ?]; split; [done|still]|]. intros l3 answer Hl3 Hin.
  eapply (rel_bind _ _ _ (fun _ step => answer = Ok step)); [by apply rel_lift; intros l ->%provider_answer_ok|].
  intros l4 step Hl4 ->. eapply (rel_bind _ _ _ anything).
  - apply rel_change. intros l5 flow Hl5 Hown' Hsrc. apply sourced_step; [|done]. intros Hf. exists step. split; [done|].
    right. exists s, response. rewrite <- (owned_once l5 id p _ Hf); [still|still|done].
  - intros l5 _ _ _. eapply rel_bind; [apply rel_advance_after_auth|]. intros l7 _ _ _. apply rel_snapshot.
Qed.

(** *** The connection *)
Definition chosen_soundly (id : Uuid) (log : list BfEv) (x : str * AuthSession * BastionAsset * BastionAccount) : Prop :=
  let '(p, s, a, c) := x in owned log id p /\ stepped log p s /\ offered_asset log p a /\ offered_account log p c.

Lemma chosen_of_sourced id log f x :
  owned log id (bf_provider f) -> flow_sourced log f -> chosen_of f = Ok x -> chosen_soundly id log x.
Proof.
  destruct x as [[[p s] a] c]. intros Hown Hf (s' & Hs & (a' & Ha%ok_or_ok & (c' & Hc%ok_or_ok & [= <- <- <- <-])%bind_ok)%bind_ok)%bind_ok.
  split_and!; [done|by apply session_of_sourced|by apply Hf|by apply Hf].
Qed.

Lemma rel_connect past id cols rows fingerprint password :
  rel past (connect registered id cols rows fingerprint password) (gives anything).
Proof.
  apply rel_instant. intros l0 now _. eapply (rel_bind _ _ _ (chosen_soundly id)).
  { apply rel_changing. intros log flow _ Hown Hsrc. split_and!; [done|by apply sourced_state|]. intros x. by apply chosen_of_sourced. }
  intros l1 [[[p s] a] c] _ (Hown & Hs & Ha & Hc). apply (rel_bind _ _ _ _ _ (rel_provider l1 p)). intros l2 _ Hl2 Hreg.
  eapply (rel_bind _ _ _ anything); [by apply rel_lift|]. intros l3 options Hl3 _. apply rel_asking.
  - split_and!; [done|still..].
  - intros g1 g2 Hg (? & ? & ? & ?). split_and!; [done|still..].
  - intros l4 answer Hl4 Hin. eapply (rel_bind _ _ _ (fun _ c => answer = Ok c)); [by apply rel_lift; intros l ->%provider_answer_ok|].
    intros l5 connection Hl5 ->. eapply (rel_bind _ _ _ anything); [|intros l6 _ _ _; apply rel_snapshot].
    apply rel_change. intros l6 flow Hl6 Hown' Hsrc. split; [done|]. apply sourced_state, sourced_connection; [|done].
    intros Hf. rewrite <- (owned_once l6 id p _ Hf); [|still|done]. eexists s, _.
    eapply elem_of_prefix; [exact Hin|prefixes].
Qed.

Lemma rel_resolve past id : rel past (resolve_gateway_endpoint registered id) (gives anything).
Proof.
  apply rel_instant. intros l0 now _. eapply (rel_bind _ _ _ (chosen_soundly id)).
  { apply rel_reading. intros log flow x _ Hown Hsrc. by apply chosen_of_sourced. }
  intros l1 [[[p s] a] c] _ (Hown & Hs & Ha & Hc). apply (rel_bind _ _ _ _ _ (rel_provider l1 p)). intros l2 _ Hl2 Hreg.
  apply rel_asking.
  - split_and!; [done|still..].
  - intros g1 g2 Hg (? & ? & ? & ?). split_and!; [done|still..].
  - intros l4 answer _ _. eapply (rel_bind _ _ _ anything); [by apply rel_lift|].
    intros l5 [host port] Hl5 _. eapply (rel_bind _ _ _ anything); [|done].
    apply rel_change. intros l6 flow _ _ []. done.
Qed.

Definition handed_over (log : list BfEv) (x : BastionConnection * str) : Prop := connected_as log (snd x) (fst x).
Lemma rel_take past id profile : rel past (take_connection id profile) (gives handed_over).
Proof.
  apply rel_instant. intros l0 now _. apply relies_locked. intros log flows _ [Hsize Hall].
  destruct (flows !! id) as [flow|] eqn:Hflow; [|done]. destruct (Hall _ _ Hflow) as [_ Hsrc].
  assert (Hdel : flows_sourced log (delete id flows)).
  { split; [rewrite map_size_delete_Some by eauto; lia|by apply map_Forall_delete]. }
  destruct (negb (flow_live now flow)); [done|]. destruct (negb _); [done|].
  destruct (bf_state flow); try done. destruct (bf_connection flow) as [c|] eqn:Hc; [|done].
  split; [done|]. by apply Hsrc.
Qed.

Lemma rel_cancel past id : rel past (flow_cancel id) (gives anything).
Proof.
  apply relies_locked. intros log flows _ [Hsize Hall]. split; [|done]. split; [|by apply map_Forall_delete].
  etransitivity; [|exact Hsize]. apply map_subseteq_size, delete_subseteq.
Qed.

Lemma rel_open_browser past id : rel past (open_external_browser registered id) (gives anything).
Proof.
  apply rel_instant. intros l0 now _.
  eapply (rel_bind _ _ _ (fun log (x : str * option AuthSession * str) =>
            forall s, snd (fst x) = Some s -> stepped log (fst (fst x)) s)).
  { apply rel_reading. intros log flow [[p o] url] _ _ Hsrc Hr. destruct (bf_state flow) as [| | | |[]| | | | | | | | |]; try done;
      injection Hr as <- <- <-; apply Hsrc. }
  intros l1 [[p o] url] _ Hs. cbn [fst snd] in Hs. cbn [fst snd]. destruct (str_eqb p (lit "teleport")) eqn:Hp.
  - apply str_eqb_eq in Hp as ->. eapply (rel_bind _ _ _ (fun log s => stepped log (lit "teleport") s)).
    { apply rel_lift. by intros s ->%ok_or_ok; apply Hs. }
    intros l2 s _ Hst. apply (rel_bind _ _ _ _ _ (rel_provider l2 _)). intros l3 _ Hl3 Hreg.
    apply rel_asking; [split; [done|still]|by intros g1 g2 Hg [? ?]; split; [done|still]|]. intros l4 answer _ _. by apply rel_lift.
  - eapply (rel_bind _ _ _ (fun _ _ => asked_soundly l1 (BfOpenUrl (trim url)))).
    { apply rel_lift. intros [] Hr. unfold reject_if in Hr. destruct (_ || _) eqn:Hb; [done|].
      apply orb_false_elim in Hb as [_ Hb%negb_false_iff%orb_prop]. done. }
    intros l2 _ _ Hurl. apply rel_asking; [done|done|]. intros l3 opened _ _. by apply rel_lift.
Qed.

(** *** All calls *)
Definition reply_sound (log : list BfEv) (r : BfReply) : Prop :=
  match r with BrConnection c provider => connected_as log provider c | _ => True end.

Lemma rel_body c : rel [] (bf_body registered order c) (gives reply_sound).
Proof.
  destruct c; cbn [bf_body]; eapply rel_bind;
    [apply rel_start|done|apply rel_continue|done|apply rel_list_assets|done|apply rel_select_asset|done
    |apply rel_list_accounts|done|apply rel_select_account|done|apply rel_connect|done
    |apply rel_resolve|by intros log [] _ _
    |apply (rel_instant _ _ anything); intros l0 now _; by apply rel_reading|by intros log [] _ _
    |apply rel_take|by intros log [] _ ?|apply rel_cancel|done|apply rel_snapshot|done|apply rel_open_browser|done].
Qed.
End Flows.

(** ** What a connection is asked for with *)
Section Connections.
Context (registered : str -> bool) (order : gmap Uuid BastionFlow -> list (Uuid * BastionFlow)).
Abbreviation BfMoment := (moment (gmap Uuid BastionFlow) unit BfQuery BfAnswer) (only parsing).

(** The options carry the fingerprint and the password that the call was given; only a
    provider that verifies the host itself is asked without a fingerprint. *)
Definition options_given (provider : str) (fingerprint password : option str) (options : BastionConnectOptions) : Prop :=
  (names_login provider /\ options = with_password password default_options) \/
  (~ names_login provider /\ exists f, fingerprint = Some f /\ options = with_password password (attach_fingerprint default_options f)).

(** It is asked for the flow that the call names, as the service held it then: with its
    provider, its session, and the asset and the account selected in it. *)
Definition connects (c : BfCall) (ms : list BfMoment) (q : BfQuery) : Prop :=
  match q with
  | BfConnect provider session request =>
      exists id cols rows fingerprint password now flows flow,
        c = BcConnect id cols rows fingerprint password /\ ms = [Did (EvAsked BfInstant now); Saw flows] /\
        flows !! id = Some flow /\ bf_provider flow = provider /\ bf_auth_session flow = Some session /\
        bf_selected_asset flow = Some (rq_asset request) /\ bf_selected_account flow = Some (rq_account request) /\
        options_given provider fingerprint password (rq_options request)
  | _ => True
  end.

Lemma connect_options_given provider fingerprint password options :
  connect_options provider fingerprint password = Ok options -> options_given provider fingerprint password options.
Proof.
  unfold connect_options. intros (base & Hbase & [= <-])%bind_ok. unfold options_given, names_login.
  destruct (str_eqb provider (lit "teleport")) eqn:Ht; [apply str_eqb_eq in Ht; left; injection Hbase as <-; auto|].
  destruct (str_eqb provider (lit "boundary")) eqn:Hb; [apply str_eqb_eq in Hb; left; injection Hbase as <-; auto|].
  right. split.
  - intros [->| ->]; [by vm_compute in Hb|by vm_compute in Ht].
  - destruct fingerprint as [f|]; [|done]. injection Hbase as <-. by exists f.
Qed.

Definition no_connect (q : BfQuery) : Prop := match q with BfConnect _ _ _ => False | _ => True end.

Ltac quiet :=
  repeat match goal with
  | |- asks_only _ (_ ≫= _) => apply asks_only_bind; [|intros ?]
  | |- asks_only _ (caught _) => apply asks_only_caught
  | |- asks_only _ (lift _) => exact I
  | |- asks_only _ (mret _) => exact I
  | |- asks_only _ (ask _) => split; [exact I|intros ?; exact I]
  | |- asks_only _ (locked _) => intros ?; exact I
  | |- asks_only _ (if ?b then _ else _) => destruct b
  | |- asks_only _ (match ?x with _ => _ end) => destruct x
  | |- asks_only _ (let '(_, _) := ?x in _) => destruct x
  end.

Lemma snapshot_quiet id : asks_only no_connect (snapshot id).
Proof. unfold snapshot. quiet. Qed.
Lemma change_quiet id f : asks_only no_connect (change id f).
Proof. unfold change. quiet. Qed.
Lemma list_assets_quiet id query : asks_only no_connect (list_assets registered id query).
Proof. unfold list_assets, require_auth_session, list_remote_assets, require_provider. quiet; apply change_quiet. Qed.
Lemma list_accounts_quiet id : asks_only no_connect (list_accounts registered id).
Proof. unfold list_accounts, require_provider. quiet; apply change_quiet. Qed.
Lemma select_account_quiet id account : asks_only no_connect (select_account registered id account).
Proof.
  unfold select_account. quiet; first [apply list_accounts_quiet|apply change_quiet|apply snapshot_quiet].
Qed.
Lemma select_asset_quiet id asset : asks_only no_connect (select_asset registered id asset).
Proof.
  unfold select_asset, advance_after_asset, find_remote_asset, require_auth_session, list_remote_assets, require_provider.
  quiet; first [apply select_account_quiet|apply change_quiet|apply snapshot_quiet].
Qed.
Lemma authenticated_quiet id : asks_only no_connect (advance_after_authenticated registered id).
Proof. unfold advance_after_authenticated. quiet; first [apply select_asset_quiet|apply change_quiet]. Qed.
Lemma start_quiet profile credential defaults : asks_only no_connect (start registered order profile credential defaults).
Proof.
  unfold start, require_provider, insert_flow. quiet; first [apply authenticated_quiet|apply snapshot_quiet].
Qed.
Lemma continue_quiet id response : asks_only no_connect (continue_auth registered id response).
Proof.
  unfold continue_auth, require_provider. quiet; first [apply authenticated_quiet|apply change_quiet|apply snapshot_quiet].
Qed.
Lemma browser_quiet id : asks_only no_connect (open_external_browser registered id).
Proof. unfold open_external_browser, require_provider. quiet. Qed.

Abbreviation obs c ms p Post := (observes (connects c) (fun _ _ _ => True) ms p Post) (only parsing).

Lemma obs_quiet {A} c ms (p : proc (gmap Uuid BastionFlow) unit BfQuery BfAnswer A) :
  asks_only no_connect p -> obs c ms p (fun _ _ => True).
Proof. apply observes_asks_only. by intros ms' []. Qed.

Lemma connect_obs id cols rows fingerprint password :
  obs (BcConnect id cols rows fingerprint password) [] (connect registered id cols rows fingerprint password) (fun _ _ => True).
Proof.
  unfold connect. apply observes_bind. split; [done|]. intros now. apply observes_bind. intros flows. unfold changing.
  destruct (flows !! id) as [flow|] eqn:Hflow; [|done]. destruct (flow_live now flow); [|done]. split; [done|].
  unfold chosen_of, session_of. destruct (bf_auth_session flow) as [session|] eqn:Hs; [|done].
  destruct (bf_selected_asset flow) as [asset|] eqn:Ha; [|done]. destruct (bf_selected_account flow) as [account|] eqn:Hac; [|done].
  cbn [ok_or mbind result_bind observes app]. apply observes_bind, observes_lift. intros [] _. apply observes_bind, observes_lift. intros options Ho.
  apply observes_bind. split.
  { exists id, cols, rows, fingerprint, password, now, flows, flow. split_and!; try done. by apply connect_options_given. }
  intros answer. apply observes_bind, observes_lift. intros connection _. apply obs_quiet. quiet; [apply change_quiet|apply snapshot_quiet].
Qed.

Lemma body_connects c : obs c [] (bf_body registered order c) (fun _ _ => True).
Proof.
  destruct c; cbn [bf_body]; apply observes_bind; try (eapply observes_mono; [apply connect_obs|done]);
    (eapply observes_mono; [apply obs_quiet|intros ms r _; try destruct r; done]);
    first [apply start_quiet|apply continue_quiet|apply list_assets_quiet|apply select_asset_quiet|apply list_accounts_quiet
          |apply select_account_quiet|apply snapshot_quiet|apply browser_quiet|idtac];
    unfold resolve_gateway_endpoint, gateway_endpoint, take_connection, flow_cancel, require_provider; quiet; apply change_quiet.
Qed.
End Connections.

(** ** In any interleaving *)

(** C31. However calls interleave and whatever the providers answer: a provider is asked
    only when it is registered, with a session that a step of its own authentication
    answered, an asset that it has listed (or, for Boundary, one made of the identifier
    that was asked for) and an account that it has listed (or, for Boundary and Teleport,
    a login that was named), as long as no identifier is drawn for flows of two providers.
    A connection is asked for by a call for one flow: with the provider, the session, the
    asset and the account that this flow held then, and with the fingerprint and the
    password of that call, without a fingerprint only from Boundary and Teleport, which
    verify the host.  A browser is opened on http or https only; a connection that is
    handed over was answered by that provider; and there are never more than 32 flows. *)
Theorem bastion_follows_its_provider registered order admits w :
  (forall m, order m ≡ₚ map_to_list m) ->
  rtc (pool_step (bf_body registered order) admits) (pool_init ∅ tt) w ->
  (size (pl_state w) <= MAX_FLOWS)%nat /\
  (forall l1 q a l2, all_events w = l1 ++ EvAsked q a :: l2 -> asked_soundly registered l1 q) /\
  (forall l1 t provider session request a l2, pl_log w = l1 ++ (t, EvAsked (BfConnect provider session request) a) :: l2 ->
     exists id cols rows fingerprint password p w0 flow,
       pl_threads w !! t = Some (BcConnect id cols rows fingerprint password, p) /\
       reached (bf_body registered order) admits ∅ tt w0 /\ later (bf_body registered order) admits w0 w /\
       pl_log w0 `prefix_of` l1 /\ pl_state w0 !! id = Some flow /\
       bf_provider flow = provider /\ bf_auth_session flow = Some session /\
       bf_selected_asset flow = Some (rq_asset request) /\ bf_selected_account flow = Some (rq_account request) /\
       options_given provider fingerprint password (rq_options request)) /\
  (forall t call c provider, pl_threads w !! t = Some (call, Done (Ok (BrConnection c provider))) ->
     connected_as (all_events w) provider c).
Proof.
  intros Horder Hw.
  destruct (pool_relies flows_sourced (asked_soundly registered) flows_sourced_grows (bf_body registered order) admits
              (fun _ => gives reply_sound) ∅ tt w) as ([Hsize _] & Hasked & Hthreads); [by apply rel_body| |done|].
  { split; [rewrite map_size_empty; unfold MAX_FLOWS; lia|by intros ??[]%lookup_empty_Some]. }
  split_and!; [done|done| |].
  - intros l1 t provider session request a l2 Hlog.
    destruct (pool_observes _ _ _ _ _ _ _ (body_connects registered order) w l1 t _ a l2 Hw Hlog)
      as (w1 & c & p & ms & Hw1 & <- & Ht & Hl & id & cols & rows & f & pw & now & flows & flow & -> & -> & Hflow & Hrest).
    destruct (lived_split _ _ _ _ t [_] flows [] w1 Hl) as (w0 & Hl0 & <- & Hw0 & _).
    destruct (later_call _ _ _ _ _ _ _ Hw1 Ht) as [p' Hp'].
    exists id, cols, rows, f, pw, p', w0, flow. split; [done|]. split; [by eapply lived_reached|].
    split; [unfold later in *; by etransitivity|]. split; [by eapply later_log|done].
  - intros t call c provider Ht. destruct (Hthreads _ _ _ Ht) as (past & Hpast & Hc). cbn in Hc. by eapply connected_as_grows.
Qed.

(** ** Runs *)
Definition sample_route : BastionRoute :=
  {| br_bastion_id := 5; br_provider := lit "jumpserver"; br_asset_id := []; br_account_id := None;
     br_api_base_url := Some (lit "https://jump.example.com:8443/"); br_org_id := None; br_cli_path := None;
     br_cluster_name := None; br_insecure := false |}.
Definition sample_profile : ServerProfile :=
  {| sp_id := 1; sp_name := lit "web"; sp_host := lit "https://jump.example.com/koko"; sp_port := 443; sp_username := lit "ops";
     sp_group_id := None; sp_auth_method := AuthPassword; sp_key_source := None; sp_connection_route := RouteBastion sample_route;
     sp_sort_order := 0; sp_created_at := []; sp_updated_at := []; sp_last_connected_at := None; sp_os_distribution := None |}.
Definition no_helpers : HelperCliDefaults := {| hd_boundary := None; hd_teleport := None |}.
Definition sample_session (principal : string) : AuthSession :=
  {| au_id := 3; au_bastion_id := 5; au_provider := lit "jumpserver";
     au_principal := {| bp_username := lit principal; bp_display_name := None |}; au_provider_state := [];
     au_expires_at := None; au_helper_cli_override := None |}.
Definition sample_asset (id : string) : BastionAsset :=
  {| ba_provider := lit "jumpserver"; ba_remote_id := lit id; ba_name := lit id; ba_address := None; ba_platform := None;
     ba_protocols := []; ba_node_path := None; ba_labels := []; ba_metadata := JObject [] |}.
Definition sample_account (name : string) : BastionAccount :=
  {| bc_remote_id := None; bc_username := lit name; bc_display_name := None; bc_privileged := false;
     bc_secret_managed := true; bc_metadata := JObject [] |}.
Definition sample_connection : BastionConnection :=
  {| cn_connection_id := lit "c1";
     cn_metadata := {| bm_session_id := None; bm_provider := lit "jumpserver"; bm_asset_id := lit "db"; bm_account := lit "dba";
                       bm_recording := true; bm_command_audit := true; bm_file_audit := true; bm_started_at := 0 |} |}.

(** Two assets, each with an account of its own. *)
Definition bf_answer (step : AuthStepResult) (q : BfQuery) : BfAnswer q :=
  match q return BfAnswer q with
  | BfInstant => 0%N
  | BfNewId _ => 9%N
  | BfStartAuth _ _ _ => Ok step
  | BfContinueAuth _ _ _ => Ok (StepAuthenticated (sample_session "ops"))
  | BfListAssets _ _ _ =>
      Ok {| pg_items := [sample_asset "db"; sample_asset "web"]; pg_page := 0; pg_page_size := 200; pg_has_more := false |}
  | BfListAccounts _ _ asset => Ok [if str_eqb (ba_remote_id asset) (lit "db") then sample_account "dba" else sample_account "www"]
  | BfConnect _ _ _ => Ok sample_connection
  | BfResolveGateway _ _ _ _ => Ok (lit "gw", 2222%N)
  | BfSpawnLogin _ => Ok tt
  | BfOpenUrl _ => true
  end.
Definition bf_call (step : AuthStepResult) (t : nat) (c : BfCall) : list (act BfQuery BfAnswer BfCall) :=
  ActCall t c :: repeat (ActTurn t (bf_answer step) (Ok tt)) 40.
Definition bf_pool : Type := pool (gmap Uuid BastionFlow) unit BfQuery BfAnswer BfCall BfReply.
Definition bf_played (step : AuthStepResult) (calls : list BfCall) : bf_pool :=
  foldl (play (bf_body (fun p => str_eqb p (lit "jumpserver")) map_to_list) (fun _ _ => True)) (pool_init ∅ tt)
    (concat (imap (bf_call step) calls)).
Definition bf_ended (w : bf_pool) (t : nat) : option (AppResult BfReply) :=
  match pl_threads w !! t with Some (_, Done r) => Some r | _ => None end.
Definition bf_failed (w : bf_pool) (t : nat) : option AppError :=
  match bf_ended w t with Some (Err e) => Some e | _ => None end.
Definition connect_requests (w : bf_pool) : list (str * str * str) :=
  omap (fun e => match e with
                 | EvAsked (BfConnect _ s request) _ =>
                     Some (bp_username (au_principal s), ba_remote_id (rq_asset request), bc_username (rq_account request))
                 | _ => None end) (all_events w).
Definition asset_sessions (w : bf_pool) : list str :=
  omap (fun e => match e with EvAsked (BfListAssets _ s _) _ => Some (bp_username (au_principal s)) | _ => None end) (all_events w).
Definition start_call : BfCall := BcStart sample_profile (CrPassword (lit "ops") (Some (lit "pw"))) no_helpers.
Definition connect_call : BfCall := BcConnect 9 80 24 (Some (lit "SHA256:abc")) None.
Definition all_query : AssetQuery := {| aq_search := None; aq_node := None; aq_protocol := None; aq_page := 0; aq_page_size := 50 |}.

Definition connected_flow : bf_pool :=
  bf_played (StepAuthenticated (sample_session "ops"))
    [start_call; BcListAssets 9 all_query; BcSelectAsset 9 (lit " db "); BcSelectAccount 9 (lit "dba"); connect_call; BcTake 9 1].

Lemma bastion_follows_its_provider_witness :
  connect_requests connected_flow = [(lit "ops", lit "db", lit "dba")] /\
  connected_as (all_events connected_flow) (lit "jumpserver") sample_connection /\ (size (pl_state connected_flow) <= MAX_FLOWS)%nat.
Proof.
  split; [vm_compute; reflexivity|].
  assert (Ht : pl_threads connected_flow !! 5%nat = Some (BcTake 9 1, Done (Ok (BrConnection sample_connection (lit "jumpserver")))))
    by (vm_compute; reflexivity).
  destruct (bastion_follows_its_provider (fun p => str_eqb p (lit "jumpserver")) map_to_list (fun _ _ => True) connected_flow)
    as (Hsize & _ & _ & Hc); [done|apply plays_steps|].
  split; [exact (Hc _ _ _ _ Ht)|exact Hsize].
Defined.

(** The endpoint that the provider is given: the host of the profile without scheme and
    path, and a port for SSH that is not that of the web. *)
Example jumpserver_endpoint :
  let e := mock_or_profile_endpoint 5 (lit "jumpserver") sample_profile no_helpers in
  be_host e = lit "jump.example.com" /\ po_ssh (be_ports e) = Some 2222%N /\ po_api (be_ports e) = Some 8443%N /\
  be_provider_config e = JObject [(lit "apiBaseUrl", jstr "https://jump.example.com:8443")].
Proof. split_and!; vm_compute; reflexivity. Qed.

(** [connect] marks the flow as connecting before it looks whether anything was
    chosen.  A flow that waits for a second factor is then stuck: the code is refused;
    and the provider is asked with the session that is still pending. *)
Definition stranded_flow : bf_pool :=
  bf_played (StepChallenge (sample_session "pending") (ChTotp (lit "c") (lit "code")))
    [start_call; connect_call; BcContinue 9 (ReTotp (lit "c") (lit "123456")); BcListAssets 9 all_query].
Example connect_strands_authentication :
  bf_failed stranded_flow 1 = Some BastionPermissionDenied /\ bf_failed stranded_flow 2 = Some BastionUnavailable /\
  asset_sessions stranded_flow = [lit "pending"].
Proof. split_and!; vm_compute; reflexivity. Qed.

(** The account that was selected for one asset stays when another is selected: the
    connection is asked for with the account of the other, which the provider has not
    listed for it. *)
Definition crossed_flow : bf_pool :=
  bf_played (StepAuthenticated (sample_session "ops"))
    [start_call; BcSelectAsset 9 (lit "db"); BcSelectAccount 9 (lit "dba"); BcSelectAsset 9 (lit "web"); connect_call].
Example account_of_another_asset :
  bf_failed crossed_flow 4 = None /\ connect_requests crossed_flow = [(lit "ops", lit "web", lit "dba")].
Proof. split; vm_compute; reflexivity. Qed.
