(* ===== verification/PluginExpr.v ===== *)
(** * Workflows of plugins: definitions and expressions (plugins/workflow/)

    A plugin describes a workflow as data: steps that name an action, with inputs that
    may hold expressions, and a condition.  [PluginError] is given as the [AppError] it
    becomes, which drops the texts that no code reads.  The text of a floating-point
    number, written by serde_json, is a parameter.  A slice that is out of range panics:
    where the source has one the result is an option, [None] a panic. *)
From S2P Require Import Prelude Str Json Errors.

(** ** The definition of a workflow (ast.rs) *)
Inductive StepFailurePolicy := OnFailureAbort | OnFailureContinue.
Inductive PrivilegeMode := PrivilegeNone | PrivilegeSudo.
#[export] Instance privilege_mode_eq_dec : EqDecision PrivilegeMode.
Proof. solve_decision. Defined.
Record RetryPolicy := { rp_max_attempts : N; rp_delay : option str }.
Record WorkflowStep := {
  ws_id : str; ws_uses : str; ws_with : json; ws_condition : option str; ws_timeout : option str;
  ws_retry : option RetryPolicy; ws_on_failure : option StepFailurePolicy }.
Record WorkflowMetadata := { wm_id : str; wm_name : str; wm_description : option str }.
Record WorkflowDefinition := {
  wd_api_version : str; wd_kind : str; wd_metadata : WorkflowMetadata; wd_inputs : option json;
  wd_steps : list WorkflowStep; wd_outputs : option json }.

(** ** Its validation (validator.rs) *)
Definition SUPPORTED_API_VERSION : str := lit "runory/v1".
Definition SUPPORTED_KIND : str := lit "Workflow".
Definition MAX_RETRY_ATTEMPTS : N := 5.
Definition ALLOWED_ACTIONS : list str := map lit [
  "system.detect"; "system.command_exists"; "system.disk"; "system.memory"; "system.preflight_report";
  "network.tcp_check"; "ssh.command"; "remote.fs.read"; "remote.fs.write"; "remote.fs.write_env"; "remote.fs.mkdir";
  "remote.fs.symlink"; "template.render"; "git.clone"; "git.rev_parse"; "git.fetch"; "git.checkout"; "python.detect";
  "python.venv"; "python.pip.install"; "systemd.install"; "systemd.daemon_reload"; "systemd.enable"; "systemd.restart";
  "systemd.reload"; "systemd.status"; "nginx.test"; "nginx.reload"; "http.check"; "database.migration";
  "changeset.checkpoint"; "release.activate"]%string.
Definition is_allowed_action (action_id : str) : bool := str_in ALLOWED_ACTIONS action_id.

Definition blank (s : str) : bool := is_empty (trim s).
Definition retry_invalid (r : RetryPolicy) : bool :=
  (rp_max_attempts r =? 0)%N || (MAX_RETRY_ATTEMPTS <? rp_max_attempts r)%N.
Definition step_invalid (seen : list str) (step : WorkflowStep) : bool :=
  blank (ws_id step) || str_in seen (ws_id step) || negb (is_allowed_action (ws_uses step))
  || from_option retry_invalid false (ws_retry step) || from_option blank false (ws_timeout step).
(** [seen] are the identifiers of the steps before. *)
Fixpoint validate_steps (seen : list str) (steps : list WorkflowStep) : AppResult unit :=
  match steps with
  | [] => Ok tt
  | step :: rest => reject_if (step_invalid seen step) PluginWorkflowInvalid ;; validate_steps (ws_id step :: seen) rest
  end.
Definition is_nil {A} (l : list A) : bool := match l with [] => true | _ => false end.
Definition validate_workflow (d : WorkflowDefinition) : AppResult unit :=
  reject_if (negb (str_eqb (wd_api_version d) SUPPORTED_API_VERSION) || negb (str_eqb (wd_kind d) SUPPORTED_KIND)
             || blank (wm_id (wd_metadata d)) || blank (wm_name (wd_metadata d)) || is_nil (wd_steps d))
            PluginWorkflowInvalid ;;
  validate_steps [] (wd_steps d).

(** ** Expressions (expressions.rs) *)

(** [s.find(needle)], with the text before and the text after the needle. *)
Fixpoint find_str (needle s : str) : option (str * str) :=
  if starts_with s needle then Some ([], drop (length needle) s) else
  match s with
  | [] => None
  | c :: t => match find_str needle t with Some (before, after) => Some (c :: before, after) | None => None end
  end.

Record Scope := {
  sc_inputs : json; sc_host_id : option str; sc_host_os : option str; sc_step_outputs : gmap str json }.

Section Text.
Context (float_text : N -> str).

Definition number_text (n : json_number) : str :=
  match n with JPosInt n => dec n | JNegInt z => lit (pretty z) | JFloat bits => float_text bits end.
Definition json_to_string (v : json) : AppResult str :=
  match v with
  | JNull => Ok []
  | JBool b => Ok (if b then lit "true" else lit "false")
  | JNumber n => Ok (number_text n)
  | JString s => Ok s
  | _ => Err PluginWorkflowInvalid
  end.

Definition resolve_path (path : str) (scope : Scope) : AppResult str :=
  match split (N.eqb 46) path with
  | [a; key] =>
      if str_eqb a (lit "inputs") then json_to_string (default JNull (json_get (sc_inputs scope) key))
      else if str_eqb a (lit "host") && str_eqb key (lit "id") then Ok (default [] (sc_host_id scope))
      else if str_eqb a (lit "host") && str_eqb key (lit "os") then Ok (default [] (sc_host_os scope))
      else Err PluginWorkflowInvalid
  | [a; step_id; o; key] =>
      if str_eqb a (lit "steps") && str_eqb o (lit "outputs") then
        outputs ← ok_or (sc_step_outputs scope !! step_id) PluginWorkflowInvalid;
        json_to_string (default JNull (json_get outputs key))
      else Err PluginWorkflowInvalid
  | _ => Err PluginWorkflowInvalid
  end.

(** [rest] gets shorter by four characters at least. *)
Fixpoint resolve_from (fuel : nat) (rest : str) (scope : Scope) : AppResult str :=
  match fuel with
  | O => Ok rest
  | S fuel =>
      match find_str (lit "{{") rest with
      | None => Ok rest
      | Some (before, after_open) =>
          '(expr, after) ← ok_or (find_str (lit "}}") after_open) PluginWorkflowInvalid;
          value ← resolve_path (trim expr) scope;
          others ← resolve_from fuel after scope;
          Ok (before ++ value ++ others)
      end
  end.
Definition resolve_expression (template : str) (scope : Scope) : AppResult str :=
  resolve_from (S (length template)) template scope.

(** [token[1..token.len() - 1]] panics on a token of one quote. *)
Definition quoted_by (q : chr) (token : str) : bool :=
  bool_decide (head token = Some q) && bool_decide (last token = Some q).
Definition parse_literal_or_path (token : str) (scope : Scope) : option (AppResult str) :=
  if quoted_by 34 token || quoted_by 39 token then
    if (length token <? 2)%nat then None else Some (Ok (removelast (tail token)))
  else if eq_ignore_ascii_case token (lit "true") || eq_ignore_ascii_case token (lit "false")
  then Some (Ok (to_ascii_lowercase token))
  else if forallb (fun c => is_ascii_digit c || (c =? 46)%N || (c =? 45)%N) token then Some (Ok token)
  else Some (resolve_path token scope).

Definition compare_with (f : str -> str -> bool) (left right : str) (scope : Scope) : option (AppResult bool) :=
  match resolve_path (trim left) scope with
  | Err e => Some (Err e)
  | Ok l => (fun r : AppResult str => f l <$> r) <$> parse_literal_or_path (trim right) scope
  end.
Definition evaluate_condition (condition : str) (scope : Scope) : option (AppResult bool) :=
  let trimmed := trim condition in
  if is_empty trimmed then Some (Ok true)
  else if eq_ignore_ascii_case trimmed (lit "true") then Some (Ok true)
  else if eq_ignore_ascii_case trimmed (lit "false") then Some (Ok false)
  else match find_str (lit " contains ") trimmed with
  | Some (l, r) => compare_with contains l r scope
  | None =>
      match find_str (lit "==") trimmed with
      | Some (l, r) => compare_with str_eqb l r scope
      | None =>
          match find_str (lit "!=") trimmed with
          | Some (l, r) => compare_with (fun a b => negb (str_eqb a b)) l r scope
          | None => Some (Err PluginWorkflowInvalid)
          end
      end
  end.

Definition is_template (s : str) : bool := contains s (lit "{{").
Fixpoint resolve_json_value (v : json) (scope : Scope) : AppResult json :=
  match v with
  | JString s => if is_template s then JString <$> resolve_expression s scope else Ok v
  | JArray items =>
      JArray <$> (fix go items := match items with
                  | [] => Ok []
                  | item :: rest => x ← resolve_json_value item scope; xs ← go rest; Ok (x :: xs)
                  end) items
  | JObject m =>
      JObject <$> (fix go m := match m with
                   | [] => Ok []
                   | (k, item) :: rest => x ← resolve_json_value item scope; xs ← go rest; Ok ((k, x) :: xs)
                   end) m
  | other => Ok other
  end.
End Text.

(** [value_has_unresolved] (planner.rs). *)
Fixpoint value_has_unresolved (v : json) : bool :=
  match v with
  | JString s => is_template s
  | JArray items => existsb value_has_unresolved items
  | JObject m => existsb (fun kv => value_has_unresolved (snd kv)) m
  | _ => false
  end.

(** [evaluate_when]: the expressions of a host menu. *)
Definition when_is (trimmed : str) (subject op literal : string) : bool :=
  let text := fun q => lit subject ++ lit op ++ [q] ++ lit literal ++ [q] in
  str_eqb trimmed (text 34%N) || str_eqb trimmed (text 39%N).
Definition evaluate_when (when : str) (host_os host_arch : option str) (tags : list str) : AppResult bool :=
  let trimmed := trim when in
  let os := default [] host_os in
  let arch := default [] host_arch in
  if when_is trimmed "host.os" " == " "linux" then Ok (eq_ignore_ascii_case os (lit "linux"))
  else if when_is trimmed "host.os" " == " "windows" then Ok (eq_ignore_ascii_case os (lit "windows"))
  else if when_is trimmed "host.arch" " == " "x86_64" then Ok (str_eqb arch (lit "x86_64") || str_eqb arch (lit "amd64"))
  else if when_is trimmed "host.tags" " contains " "production" then Ok (str_in tags (lit "production"))
  else Err PluginWorkflowInvalid.
