(* ===== verification/PluginWorkflow.v ===== *)
(** * The workflows of plugins: planning and execution (plugins/workflow/planner.rs, executor.rs)

    [plan] resolves what it can of a workflow's definition, checks the permissions of
    every step, lets each action plan, and stores the result; [execute] takes a stored
    plan, checks everything again, executes the change set it is bound to and then the
    steps one by one.  The executor keeps plans, cancellation tokens and events behind
    three locks; no section touches two.  The registry of plugins, the actions, the
    sessions, the change-set service, the files and the records of runs are answered
    from outside; serde_yaml, serde_json and Uuid::parse_str are parameters.  Paths are
    those of Unix.  A file given to serde_json is its bytes. *)
From S2P Require Import Prelude Str Json Errors Externals RunState Tools Policy Decision Evidence Process ChangeSets.
From S2P Require Import PluginExpr PluginPolicy.

(** ** Data (state.rs, api.rs, manifest/model.rs) *)
Inductive WorkflowRunState :=
  | WrCreated | WrPlanning | WrAwaitingApproval | WrRunning | WrSucceeded | WrFailed | WrCancelled | WrRollingBack
  | WrRolledBack | WrInterrupted.
Definition run_state_as_str (s : WorkflowRunState) : str :=
  lit match s with
  | WrCreated => "Created" | WrPlanning => "Planning" | WrAwaitingApproval => "AwaitingApproval" | WrRunning => "Running"
  | WrSucceeded => "Succeeded" | WrFailed => "Failed" | WrCancelled => "Cancelled" | WrRollingBack => "RollingBack"
  | WrRolledBack => "RolledBack" | WrInterrupted => "Interrupted"
  end%string.
Inductive WorkflowStepState := WsPending | WsSkipped | WsPlanned | WsRunning | WsSucceeded | WsFailed | WsCancelled.
Definition step_state_as_str (s : WorkflowStepState) : str :=
  lit match s with
  | WsPending => "Pending" | WsSkipped => "Skipped" | WsPlanned => "Planned" | WsRunning => "Running"
  | WsSucceeded => "Succeeded" | WsFailed => "Failed" | WsCancelled => "Cancelled"
  end%string.

Record WorkflowStepRecord := {
  sr_step_id : str; sr_action_id : str; sr_state : WorkflowStepState; sr_summary : option str; sr_error_code : option str;
  sr_stdout : option str; sr_stderr : option str; sr_exit_code : option Z }.
Record WorkflowRunRecord := {
  rr_run_id : str; rr_plugin_id : str; rr_plugin_version : str; rr_workflow_id : str; rr_host_id : option str;
  rr_state : WorkflowRunState; rr_steps : list WorkflowStepRecord; rr_error_code : option str }.
Record WorkflowStepStatusDto := {
  ss_step_id : str; ss_action_id : str; ss_state : WorkflowStepState; ss_summary : option str; ss_error_code : option str;
  ss_stdout : option str; ss_stderr : option str; ss_exit_code : option Z }.
Record WorkflowRunDto := {
  rd_run_id : str; rd_plugin_id : str; rd_plugin_version : str; rd_workflow_id : str; rd_host_id : option str;
  rd_state : WorkflowRunState; rd_steps : list WorkflowStepStatusDto; rd_error_code : option str }.
Definition status_dto (s : WorkflowStepRecord) : WorkflowStepStatusDto :=
  {| ss_step_id := sr_step_id s; ss_action_id := sr_action_id s; ss_state := sr_state s; ss_summary := sr_summary s;
     ss_error_code := sr_error_code s; ss_stdout := sr_stdout s; ss_stderr := sr_stderr s; ss_exit_code := sr_exit_code s |}.
Definition to_dto (run : WorkflowRunRecord) : WorkflowRunDto :=
  {| rd_run_id := rr_run_id run; rd_plugin_id := rr_plugin_id run; rd_plugin_version := rr_plugin_version run;
     rd_workflow_id := rr_workflow_id run; rd_host_id := rr_host_id run; rd_state := rr_state run;
     rd_steps := map status_dto (rr_steps run); rd_error_code := rr_error_code run |}.

Record WorkflowPlanRequest := {
  wr_plugin_id : str; wr_workflow_id : str; wr_host_id : option str; wr_session_id : option str; wr_inputs : json }.
Record WorkflowContribution := { wc_id : str; wc_file : str; wc_input_schema : option str }.
(** What [require_enabled] answers of a plugin and its manifest. *)
Record EnabledPlugin := {
  ep_id : str; ep_version : str; ep_install_path : str; ep_workflows : list WorkflowContribution }.

Inductive WorkflowEvent :=
  | WeStarted (run_id workflow_id : str) | WeStepStarted (run_id step_id : str)
  | WeStepOutput (run_id step_id : str) (stdout_preview : option str)
  | WeStepCompleted (run_id step_id : str) (state : WorkflowStepState)
  | WeCompleted (run_id : str) (state : WorkflowRunState).

(** Of an [ActionContext] what is data; the operating system of the host is never known. *)
Record ActionContext := {
  ax_run_id : str; ax_plugin_id : str; ax_plugin_version : str; ax_workflow_id : str; ax_host_id : option str;
  ax_session_id : option Uuid; ax_plugin_root : str }.

Record StoredPlan := {
  sp_plan : WorkflowPlan; sp_definition : WorkflowDefinition; sp_request : WorkflowPlanRequest; sp_plugin_root : str;
  sp_plugin_version : str; sp_changeset_covered_steps : list str; sp_bound_change_set : option (Uuid * N) }.

(** [insert_run]: the plan and the inputs are stored as their texts. *)
Record WorkflowRunRow := {
  rw_id : str; rw_plugin_id : str; rw_plugin_version : str; rw_workflow_id : str; rw_host_id : option str;
  rw_session_id : option str; rw_state : WorkflowRunState; rw_plan : WorkflowPlan; rw_inputs : json }.

(** ** The service *)
Record Executor := {
  wx_plans : gmap str StoredPlan; wx_run_tokens : gmap str bool; wx_polled_events : list WorkflowEvent }.
Definition no_plans : Executor := {| wx_plans := ∅; wx_run_tokens := ∅; wx_polled_events := [] |}.

Inductive WxQuery :=
  | WqNewId
  | WqRequireEnabled (plugin_id : str) | WqLoadPermissions (plugin_id : str) | WqPermissions (plugin_id : str)
  | WqProfileId (session : Uuid) | WqReadText (path : str) | WqReadBytes (path : str)
  | WqPlanAction (action_id : str) (ctx : ActionContext) (input : json)
  | WqExecuteAction (action_id : str) (ctx : ActionContext) (input : json)
  | WqDraft (request : ChangeSetDraftRequest) | WqCheckPolicy (id : Uuid) (version : N) (context : PolicyCheckContext)
  | WqGetChangeSet (id : Uuid) | WqApprove (id : Uuid) (version : N) | WqExecuteChangeSet (id : Uuid) (version : N)
  | WqInsertRun (row : WorkflowRunRow)
  | WqInsertStep (id run_id step_id action : str) (risk : RiskLevel)
  | WqUpdateStep (id : str) (result : ActionResult)
  | WqUpdateRun (run_id : str) (state : WorkflowRunState) (error_code : option str).
Definition WxAnswer (q : WxQuery) : Type :=
  match q with
  | WqNewId => Uuid
  | WqRequireEnabled _ => AppResult EnabledPlugin
  | WqPermissions _ => AppResult (list PermissionGrant)
  | WqProfileId _ => AppResult Uuid
  | WqReadText _ => option str
  | WqReadBytes _ => option (list N)
  | WqPlanAction _ _ _ => AppResult ActionPlan
  | WqExecuteAction _ _ _ => AppResult ActionResult
  | WqDraft _ | WqCheckPolicy _ _ _ | WqGetChangeSet _ | WqApprove _ _ | WqExecuteChangeSet _ _ => AppResult ChangeSet
  | WqLoadPermissions _ | WqInsertRun _ | WqInsertStep _ _ _ _ _ | WqUpdateStep _ _ | WqUpdateRun _ _ _ => AppResult unit
  end.
Abbreviation WxProc := (proc Executor unit WxQuery WxAnswer) (only parsing).

(** What an action says of an input without the host. *)
Record WorkflowAction := {
  wa_required_capabilities : json -> AppResult (list PluginCapability); wa_risk : json -> AppResult RiskLevel }.

(** [Path::join] and [Path::starts_with]; the root is absolute. *)
Definition path_join (root relative : str) : str :=
  if starts_with relative (lit "/") then relative
  else if ends_with root (lit "/") then root ++ relative else root ++ lit "/" ++ relative.
Definition path_components (path : str) : list str :=
  List.filter (fun part => negb (is_empty part || str_eqb part (lit "."))) (split (N.eqb 47) path).
Definition path_starts_with (path root : str) : bool :=
  bool_decide (path_components root `prefix_of` path_components path)
  && Bool.eqb (starts_with path (lit "/")) (starts_with root (lit "/")).

(** Errors of a service that a plugin may not learn. *)
Definition or_denied {A} (r : AppResult A) : AppResult A := match r with Ok a => Ok a | Err _ => Err PluginPolicyDenied end.

Section Workflows.
Context `{Externals} (float_text : N -> str) (parse_uuid : str -> option Uuid) (parse_yaml : str -> option WorkflowDefinition)
  (parse_json : list N -> option json) (actions : str -> option WorkflowAction) (has_change_sets has_policies : bool).

(** A value that may be a panic. *)
Definition attempt {A} (o : option (AppResult A)) : WxProc A := match o with Some r => lift r | None => Panicked end.
Definition emit_workflow_event (event : WorkflowEvent) : WxProc unit :=
  locked (fun s => Leave {| wx_plans := wx_plans s; wx_run_tokens := wx_run_tokens s;
                            wx_polled_events := wx_polled_events s ++ [event] |} (Ok tt)).

Definition parse_session_id (raw : option str) : AppResult (option Uuid) :=
  match raw with
  | None => Ok None
  | Some s => if blank s then Ok None else Some <$> ok_or (parse_uuid s) PluginWorkflowInvalid
  end.

Definition load_workflow_file (plugin_root relative : str) : WxProc WorkflowDefinition :=
  let path := path_join plugin_root relative in
  lift (reject_if (negb (path_starts_with path plugin_root)) PluginWorkflowInvalid) ;;
  text ← ask (WqReadText path);
  text ← lift (ok_or text PluginWorkflowNotFound);
  definition ← lift (ok_or (parse_yaml text) PluginWorkflowInvalid);
  lift (validate_workflow definition) ;;
  mret definition.

Definition find_workflow (plugin : EnabledPlugin) (workflow_id : str) : AppResult WorkflowContribution :=
  ok_or (List.find (fun w => str_eqb (wc_id w) workflow_id) (ep_workflows plugin)) PluginWorkflowNotFound.

Definition require_enabled (plugin_id : str) : WxProc EnabledPlugin := answer ← ask (WqRequireEnabled plugin_id); lift answer.
Definition load_plugin (plugin_id : str) : WxProc unit := answer ← ask (WqLoadPermissions plugin_id); lift answer.

(** [require_for_host] for each capability. *)
Fixpoint require_all (plugin_id : str) (host_id : option str) (capabilities : list PluginCapability) : WxProc unit :=
  match capabilities with
  | [] => mret tt
  | capability :: rest =>
      answer ← ask (WqPermissions plugin_id);
      grants ← lift answer;
      lift (reject_if (negb (granted_for_host grants capability host_id)) PluginPermissionDenied) ;;
      require_all plugin_id host_id rest
  end.

(** ** Planning (planner.rs) *)
Definition plan_scope (inputs : json) (host_id : option str) : Scope :=
  {| sc_inputs := inputs; sc_host_id := host_id; sc_host_os := None; sc_step_outputs := ∅ |}.
Definition skipped_plan (uses : str) : ActionPlan :=
  {| al_action_id := uses; al_risk := R0; al_summary := uses ++ lit " (skipped by condition)"; al_changes := [];
     al_requires_approval := false |}.
Definition runtime_plan (uses : str) (risk : RiskLevel) : ActionPlan :=
  {| al_action_id := uses; al_risk := risk; al_summary := uses ++ lit " (<resolved at runtime>)"; al_changes := [];
     al_requires_approval := risk_requires_approval risk |}.
Definition resolved_or_raw (step : WorkflowStep) (scope : Scope) : json :=
  match resolve_json_value float_text (ws_with step) scope with Ok v => v | Err _ => ws_with step end.

Definition known_false (condition : option str) (scope : Scope) : WxProc bool :=
  match condition with
  | None => mret false
  | Some cond =>
      match evaluate_condition float_text cond scope with
      | Some (Ok b) => mret (negb b)
      | Some (Err _) => mret false
      | None => Panicked
      end
  end.
Definition plan_action (ctx : ActionContext) (inputs : json) (step : WorkflowStep) : WxProc WorkflowStepPlan :=
  action ← lift (ok_or (actions (ws_uses step)) PluginActionNotFound);
  let input := resolved_or_raw step (plan_scope inputs (ax_host_id ctx)) in
  let has_runtime_values := value_has_unresolved input in
  capabilities ← lift (wa_required_capabilities action input);
  require_all (ax_plugin_id ctx) (ax_host_id ctx) capabilities ;;
  plan ← if has_runtime_values
         then mret (runtime_plan (ws_uses step) (match wa_risk action input with Ok r => r | Err _ => R3 end))
         else (answer ← ask (WqPlanAction (ws_uses step) ctx input); lift answer);
  mret {| wsp_step_id := ws_id step; wsp_action_id := ws_uses step; wsp_plan := plan;
          wsp_has_runtime_values := has_runtime_values |}.
Definition plan_step (ctx : ActionContext) (inputs : json) (step : WorkflowStep) : WxProc WorkflowStepPlan :=
  skipped ← known_false (ws_condition step) (plan_scope inputs (ax_host_id ctx));
  if skipped : bool then
    mret {| wsp_step_id := ws_id step; wsp_action_id := ws_uses step; wsp_plan := skipped_plan (ws_uses step);
            wsp_has_runtime_values := false |}
  else plan_action ctx inputs step.
Fixpoint plan_steps (ctx : ActionContext) (inputs : json) (steps : list WorkflowStep) : WxProc (list WorkflowStepPlan) :=
  match steps with
  | [] => mret []
  | step :: rest => p ← plan_step ctx inputs step; ps ← plan_steps ctx inputs rest; mret (p :: ps)
  end.
Definition max_plan_risk (plans : list WorkflowStepPlan) : RiskLevel :=
  foldl (fun m p => if (risk_rank m <? risk_rank (al_risk (wsp_plan p)))%N then al_risk (wsp_plan p) else m) R0 plans.
Definition planner_plan (definition : WorkflowDefinition) (ctx : ActionContext) (inputs : json) : WxProc WorkflowPlan :=
  lift (validate_workflow definition) ;;
  plans ← plan_steps ctx inputs (wd_steps definition);
  id ← ask WqNewId;
  mret {| wp_id := uuid_display id; wp_plugin_id := ax_plugin_id ctx; wp_plugin_version := ax_plugin_version ctx;
          wp_workflow_id := wm_id (wd_metadata definition); wp_host_id := ax_host_id ctx; wp_risk := max_plan_risk plans;
          wp_requires_approval := existsb (fun p => al_requires_approval (wsp_plan p)) plans; wp_steps := plans;
          wp_changeset := None |}.

(** ** [WorkflowExecutor::plan] *)
Definition with_host (host : str) (r : WorkflowPlanRequest) : WorkflowPlanRequest :=
  {| wr_plugin_id := wr_plugin_id r; wr_workflow_id := wr_workflow_id r; wr_host_id := Some host;
     wr_session_id := wr_session_id r; wr_inputs := wr_inputs r |}.
(** The host of a session is that of its profile. *)
Definition bind_host (request : WorkflowPlanRequest) : WxProc WorkflowPlanRequest :=
  session ← lift (parse_session_id (wr_session_id request));
  match session with
  | None => mret request
  | Some session_id =>
      answer ← ask (WqProfileId session_id);
      profile ← lift (or_denied answer);
      let profile := uuid_display profile in
      lift (reject_if (from_option (fun host => negb (str_eqb host profile)) false (wr_host_id request)) PluginPolicyDenied) ;;
      mret (with_host profile request)
  end.

Definition draft_request (plan : WorkflowPlan) (mapping : ChangeSetMapping) (agent_run_id session_id : Uuid) : ChangeSetDraftRequest :=
  {| dr_agent_run_id := agent_run_id; dr_session_id := session_id;
     dr_title := lit "plugin:" ++ wp_plugin_id plan ++ lit ":" ++ wp_workflow_id plan; dr_steps := mp_drafts mapping |}.
Definition plugin_policy_context (server_id : Uuid) : PolicyCheckContext :=
  {| pcc_target := {| pt_server_id := server_id; pt_group_id := None; pt_environment := None |}; pcc_target_count := 1;
     pcc_execution_strategy := Sequential; pcc_source := SourceAgentRuntime |}.
Definition draft_plugin_changeset (plan : WorkflowPlan) (mapping : ChangeSetMapping) (session_id server_id : Uuid) :
    WxProc ChangeSet :=
  lift (reject_if (is_nil (mp_drafts mapping)) PluginPolicyDenied) ;;
  agent_run_id ← match parse_uuid (wp_id plan) with Some id => mret id | None => ask WqNewId end;
  answer ← ask (WqDraft (draft_request plan mapping agent_run_id session_id));
  drafted ← lift (or_denied answer);
  answer ← ask (WqCheckPolicy (cs_id drafted) (cs_version drafted) (plugin_policy_context server_id));
  checked ← lift (or_denied answer);
  lift (reject_if (from_option (fun e => negb (permits_execution e)) false (cs_policy_evaluation checked)) PluginPolicyDenied) ;;
  mret checked.

Definition bound_summary (drafted : option ChangeSet) (s : PluginChangeSetSummary) : PluginChangeSetSummary :=
  {| su_plan_id := su_plan_id s; su_plugin_id := su_plugin_id s; su_plugin_version := su_plugin_version s;
     su_workflow_id := su_workflow_id s; su_risk := su_risk s; su_requires_changeset := true;
     su_requires_approval := su_requires_approval s; su_operations := su_operations s;
     su_change_set_id := match drafted with Some c => Some (uuid_display (cs_id c)) | None => su_change_set_id s end;
     su_change_set_version := match drafted with Some c => Some (cs_version c) | None => su_change_set_version s end |}.
Definition with_changeset (summary : PluginChangeSetSummary) (plan : WorkflowPlan) : WorkflowPlan :=
  {| wp_id := wp_id plan; wp_plugin_id := wp_plugin_id plan; wp_plugin_version := wp_plugin_version plan;
     wp_workflow_id := wp_workflow_id plan; wp_host_id := wp_host_id plan; wp_risk := wp_risk plan;
     wp_requires_approval := wp_requires_approval plan; wp_steps := wp_steps plan; wp_changeset := Some summary |}.

(** The change set of a plan, when it has one to draft and a session to draft it for. *)
Definition draft_for_session (request : WorkflowPlanRequest) (plan : WorkflowPlan) (mapping : ChangeSetMapping) :
    WxProc (option ChangeSet) :=
  if is_nil (mp_drafts mapping) then mret None else
  session ← lift (parse_session_id (wr_session_id request));
  match session with
  | Some session_id =>
      if has_change_sets && has_policies then
        let server_id := default session_id (wr_host_id request ≫= parse_uuid) in
        drafted ← draft_plugin_changeset plan mapping session_id server_id;
        mret (Some drafted)
      else mret None
  | None => mret None
  end.

Definition plan_context (plugin : EnabledPlugin) (request : WorkflowPlanRequest) (session_id : option Uuid) : ActionContext :=
  {| ax_run_id := []; ax_plugin_id := ep_id plugin; ax_plugin_version := ep_version plugin;
     ax_workflow_id := wr_workflow_id request; ax_host_id := wr_host_id request; ax_session_id := session_id;
     ax_plugin_root := ep_install_path plugin |}.

Definition store_plan (stored : StoredPlan) : WxProc unit :=
  locked (fun s => Leave {| wx_plans := <[wp_id (sp_plan stored) := stored]> (wx_plans s); wx_run_tokens := wx_run_tokens s;
                            wx_polled_events := wx_polled_events s |} (Ok tt)).

Definition workflow_plan (request : WorkflowPlanRequest) : WxProc WorkflowPlan :=
  request ← bind_host request;
  plugin ← require_enabled (wr_plugin_id request);
  load_plugin (wr_plugin_id request) ;;
  contrib ← lift (find_workflow plugin (wr_workflow_id request));
  definition ← load_workflow_file (ep_install_path plugin) (wc_file contrib);
  lift (validate_workflow definition) ;;
  session_id ← lift (parse_session_id (wr_session_id request));
  plan ← planner_plan definition (plan_context plugin request session_id) (wr_inputs request);
  mapping ← lift (enforce_changeset_mappability plan);
  let summary := plugin_plan_to_changeset_summary plan in
  drafted ← draft_for_session request plan mapping;
  let plan := with_changeset (if is_nil (mp_drafts mapping) then summary else bound_summary drafted summary) plan in
  answer ← ask (WqInsertRun {| rw_id := wp_id plan; rw_plugin_id := ep_id plugin; rw_plugin_version := ep_version plugin;
                               rw_workflow_id := wr_workflow_id request; rw_host_id := wr_host_id request;
                               rw_session_id := wr_session_id request; rw_state := WrAwaitingApproval; rw_plan := plan;
                               rw_inputs := wr_inputs request |});
  lift answer ;;
  store_plan {| sp_plan := plan; sp_definition := definition; sp_request := request; sp_plugin_root := ep_install_path plugin;
                sp_plugin_version := ep_version plugin; sp_changeset_covered_steps := mp_covered_step_ids mapping;
                sp_bound_change_set := (fun c => (cs_id c, cs_version c)) <$> drafted |} ;;
  mret plan.

(** ** Execution *)
Definition is_cancelled (run_id : str) : WxProc bool :=
  locked (fun s => Leave s (Ok (default false (wx_run_tokens s !! run_id)))).
Definition set_token (run_id : str) (token : option bool) : WxProc unit :=
  locked (fun s => Leave {| wx_plans := wx_plans s;
                            wx_run_tokens := match token with
                                             | Some cancelled => <[run_id := cancelled]> (wx_run_tokens s)
                                             | None => delete run_id (wx_run_tokens s)
                                             end;
                            wx_polled_events := wx_polled_events s |} (Ok tt)).

(** *** A run in progress *)
Record Progress := { pr_run : WorkflowRunRecord; pr_step_outputs : gmap str json }.
Definition set_run_state (st : WorkflowRunState) (run : WorkflowRunRecord) : WorkflowRunRecord :=
  {| rr_run_id := rr_run_id run; rr_plugin_id := rr_plugin_id run; rr_plugin_version := rr_plugin_version run;
     rr_workflow_id := rr_workflow_id run; rr_host_id := rr_host_id run; rr_state := st; rr_steps := rr_steps run;
     rr_error_code := rr_error_code run |}.
Definition set_run_steps (steps : list WorkflowStepRecord) (run : WorkflowRunRecord) : WorkflowRunRecord :=
  {| rr_run_id := rr_run_id run; rr_plugin_id := rr_plugin_id run; rr_plugin_version := rr_plugin_version run;
     rr_workflow_id := rr_workflow_id run; rr_host_id := rr_host_id run; rr_state := rr_state run; rr_steps := steps;
     rr_error_code := rr_error_code run |}.
(** A step that has not run an action: its summary stays unless it is given. *)
Definition set_step_state (st : WorkflowStepState) (summary error_code : option str) (r : WorkflowStepRecord) : WorkflowStepRecord :=
  {| sr_step_id := sr_step_id r; sr_action_id := sr_action_id r; sr_state := st;
     sr_summary := match summary with Some s => Some s | None => sr_summary r end;
     sr_error_code := match error_code with Some c => Some c | None => sr_error_code r end;
     sr_stdout := sr_stdout r; sr_stderr := sr_stderr r; sr_exit_code := sr_exit_code r |}.
Definition set_step_result (res : ActionResult) (r : WorkflowStepRecord) : WorkflowStepRecord :=
  {| sr_step_id := sr_step_id r; sr_action_id := sr_action_id r; sr_state := WsSucceeded; sr_summary := sr_summary r;
     sr_error_code := sr_error_code r; sr_stdout := ar_stdout res; sr_stderr := ar_stderr res; sr_exit_code := ar_exit_code res |}.
Definition on_step (i : nat) (f : WorkflowStepRecord -> WorkflowStepRecord) (p : Progress) : Progress :=
  {| pr_run := set_run_steps (alter f i (rr_steps (pr_run p))) (pr_run p); pr_step_outputs := pr_step_outputs p |}.

Definition find_step_plan (plan : WorkflowPlan) (step_id : str) : option ActionPlan :=
  wsp_plan <$> List.find (fun p => str_eqb (wsp_step_id p) step_id) (wp_steps plan).
Definition initial_step (plan : WorkflowPlan) (s : WorkflowStep) : WorkflowStepRecord :=
  {| sr_step_id := ws_id s; sr_action_id := ws_uses s; sr_state := WsPending;
     sr_summary := al_summary <$> find_step_plan plan (ws_id s); sr_error_code := None; sr_stdout := None; sr_stderr := None;
     sr_exit_code := None |}.
Definition initial_run (definition : WorkflowDefinition) (plan : WorkflowPlan) (ctx : ActionContext) : WorkflowRunRecord :=
  {| rr_run_id := ax_run_id ctx; rr_plugin_id := ax_plugin_id ctx; rr_plugin_version := ax_plugin_version ctx;
     rr_workflow_id := wm_id (wd_metadata definition); rr_host_id := ax_host_id ctx; rr_state := WrRunning;
     rr_steps := map (initial_step plan) (wd_steps definition); rr_error_code := None |}.

(** *** One step *)
Definition cleared_execution (action : WorkflowAction) (ctx : ActionContext) (uses : str) (input : json) : WxProc ActionResult :=
  plugin ← require_enabled (ax_plugin_id ctx);
  lift (reject_if (negb (str_eqb (ep_version plugin) (ax_plugin_version ctx))) PluginPlanStale) ;;
  capabilities ← lift (wa_required_capabilities action input);
  require_all (ax_plugin_id ctx) (ax_host_id ctx) capabilities ;;
  answer ← ask (WqExecuteAction uses ctx input);
  lift answer.

Definition keep_result (ctx : ActionContext) (step : WorkflowStep) (res : ActionResult) : WxProc ActionResult :=
  match sanitize res with
  | None => Panicked
  | Some res =>
      match ar_stdout res with
      | None => mret tt
      | Some out =>
          match truncate_preview out 4096 with
          | None => Panicked
          | Some preview => emit_workflow_event (WeStepOutput (ax_run_id ctx) (ws_id step) (Some preview))
          end
      end ;;
      ask (WqUpdateStep (ws_id step) res) ;;
      mret res
  end.

(** The error of the last attempt, or the result of the first that succeeds. *)
Fixpoint attempts (n : nat) (action : WorkflowAction) (ctx : ActionContext) (step : WorkflowStep) (input : json)
    (last_err : AppError) : WxProc (AppResult ActionResult) :=
  match n with
  | O => mret (Err last_err)
  | S n =>
      cancelled ← is_cancelled (ax_run_id ctx);
      if cancelled : bool then mret (Err PluginCancelled) else
      execution ← caught (cleared_execution action ctx (ws_uses step) input);
      match execution with
      | Ok res => res ← keep_result ctx step res; mret (Ok res)
      | Err err => attempts n action ctx step input err
      end
  end.
Definition max_attempts (step : WorkflowStep) : nat :=
  from_option (fun r => Nat.max (Nat.min (N.to_nat (rp_max_attempts r)) 5) 1) 1%nat (ws_retry step).

(** How a step leaves the run: it goes on, or the run has ended. *)
Inductive Turn := Going (p : Progress) | Ended (dto : WorkflowRunDto).

Definition step_completed (ctx : ActionContext) (step : WorkflowStep) (st : WorkflowStepState) : WxProc unit :=
  emit_workflow_event (WeStepCompleted (ax_run_id ctx) (ws_id step) st).
Definition end_run (ctx : ActionContext) (st : WorkflowRunState) (error_code : option str) : WxProc unit :=
  ask (WqUpdateRun (ax_run_id ctx) st error_code) ;; emit_workflow_event (WeCompleted (ax_run_id ctx) st).

Definition cancel_from (i : nat) (steps : list WorkflowStepRecord) : list WorkflowStepRecord :=
  take i steps ++ map (fun r => match sr_state r with WsPending => set_step_state WsCancelled None None r | _ => r end) (drop i steps).

Definition execute_step (ctx : ActionContext) (scope : Scope) (i : nat) (step : WorkflowStep) (p : Progress) : WxProc Turn :=
  let p := on_step i (set_step_state WsRunning None None) p in
  emit_workflow_event (WeStepStarted (ax_run_id ctx) (ws_id step)) ;;
  action ← lift (ok_or (actions (ws_uses step)) PluginActionNotFound);
  input ← lift (resolve_json_value float_text (ws_with step) scope);
  result ← attempts (max_attempts step) action ctx step input PluginExecutionFailed;
  match result with
  | Ok res =>
      step_completed ctx step WsSucceeded ;;
      mret (Going {| pr_run := pr_run (on_step i (set_step_result res) p);
                     pr_step_outputs := <[ws_id step := ar_outputs res]> (pr_step_outputs p) |})
  | Err err =>
      step_completed ctx step WsFailed ;;
      match ws_on_failure step with
      | Some OnFailureContinue => mret (Going (on_step i (set_step_state WsFailed None (Some (error_code err))) p))
      | _ =>
          end_run ctx (if decide (err = PluginCancelled) then WrCancelled else WrFailed) (Some (error_code err)) ;;
          lift (Err err)
      end
  end.

Definition run_workflow_step (ctx : ActionContext) (covered : list str) (inputs : json) (i : nat) (step : WorkflowStep) (p : Progress) :
    WxProc Turn :=
  cancelled ← is_cancelled (ax_run_id ctx);
  if cancelled : bool then
    end_run ctx WrCancelled (Some (error_code PluginCancelled)) ;;
    mret (Ended (to_dto (set_run_state WrCancelled (set_run_steps (cancel_from i (rr_steps (pr_run p))) (pr_run p)))))
  else
    let scope := {| sc_inputs := inputs; sc_host_id := ax_host_id ctx; sc_host_os := None; sc_step_outputs := pr_step_outputs p |} in
    should_run ← match ws_condition step with
                 | Some cond => attempt (evaluate_condition float_text cond scope)
                 | None => mret true
                 end;
    if negb should_run then
      step_completed ctx step WsSkipped ;; mret (Going (on_step i (set_step_state WsSkipped None None) p))
    else if str_in covered (ws_id step) then
      step_completed ctx step WsSucceeded ;;
      mret (Going (on_step i (set_step_state WsSucceeded (Some (lit "executed via ChangeSet")) None) p))
    else execute_step ctx scope i step p.

Fixpoint run_from (ctx : ActionContext) (covered : list str) (inputs : json) (i : nat) (steps : list WorkflowStep) (p : Progress) :
    WxProc WorkflowRunDto :=
  match steps with
  | [] => end_run ctx WrSucceeded None ;; mret (to_dto (set_run_state WrSucceeded (pr_run p)))
  | step :: rest =>
      turn ← run_workflow_step ctx covered inputs i step p;
      match turn with Ended dto => mret dto | Going p => run_from ctx covered inputs (S i) rest p end
  end.

Fixpoint insert_steps (run_id : str) (plan : WorkflowPlan) (steps : list WorkflowStep) : WxProc unit :=
  match steps with
  | [] => mret tt
  | s :: rest =>
      id ← ask WqNewId;
      ask (WqInsertStep (uuid_display id) run_id (ws_id s) (ws_uses s)
             (default R0 (al_risk <$> find_step_plan plan (ws_id s)))) ;;
      insert_steps run_id plan rest
  end.
Definition run_steps (definition : WorkflowDefinition) (plan : WorkflowPlan) (ctx : ActionContext) (inputs : json)
    (covered : list str) : WxProc WorkflowRunDto :=
  let run := initial_run definition plan ctx in
  answer ← ask (WqInsertRun {| rw_id := rr_run_id run; rw_plugin_id := rr_plugin_id run; rw_plugin_version := rr_plugin_version run;
                               rw_workflow_id := rr_workflow_id run; rw_host_id := rr_host_id run; rw_session_id := None;
                               rw_state := WrRunning; rw_plan := plan; rw_inputs := inputs |});
  lift answer ;;
  insert_steps (rr_run_id run) plan (wd_steps definition) ;;
  emit_workflow_event (WeStarted (rr_run_id run) (wm_id (wd_metadata definition))) ;;
  run_from ctx covered inputs 0 (wd_steps definition) {| pr_run := run; pr_step_outputs := ∅ |}.

(** *** [WorkflowExecutor::execute] *)
Definition take_plan (plan_id : str) : WxProc StoredPlan :=
  locked (fun s => Leave {| wx_plans := delete plan_id (wx_plans s); wx_run_tokens := wx_run_tokens s;
                            wx_polled_events := wx_polled_events s |} (ok_or (wx_plans s !! plan_id) PluginWorkflowNotFound)).
Definition validate_session_target (request : WorkflowPlanRequest) : WxProc unit :=
  session ← lift (parse_session_id (wr_session_id request));
  match session with
  | None => mret tt
  | Some session_id =>
      answer ← ask (WqProfileId session_id);
      profile ← lift (or_denied answer);
      lift (reject_if (negb (bool_decide (wr_host_id request = Some (uuid_display profile)))) PluginPolicyDenied)
  end.
Fixpoint preflight_steps (request : WorkflowPlanRequest) (steps : list WorkflowStep) : WxProc unit :=
  match steps with
  | [] => mret tt
  | step :: rest =>
      action ← lift (ok_or (actions (ws_uses step)) PluginActionNotFound);
      capabilities ← lift (wa_required_capabilities action (resolved_or_raw step (plan_scope (wr_inputs request) (wr_host_id request))));
      require_all (wr_plugin_id request) (wr_host_id request) capabilities ;;
      preflight_steps request rest
  end.
Definition preflight_permissions (stored : StoredPlan) : WxProc unit :=
  validate_session_target (sp_request stored) ;; preflight_steps (sp_request stored) (wd_steps (sp_definition stored)).

(** [app] says whether there is an application handle, which holds the tools. *)
Definition execute_bound_changeset (id : Uuid) (version : N) (app : bool) : WxProc unit :=
  lift (reject_if (negb has_change_sets) PluginPolicyDenied) ;;
  answer ← ask (WqGetChangeSet id);
  current ← lift (or_denied answer);
  lift (reject_if (negb (cs_version current =? version)%N) PluginVersionIncompatible) ;;
  lift (reject_if (negb app) PluginPolicyDenied) ;;
  answer ← ask (WqApprove id version);
  lift (or_denied answer) ;;
  lift (reject_if (negb has_policies) PluginPolicyDenied) ;;
  answer ← ask (WqExecuteChangeSet id version);
  lift (match answer with Ok _ => Ok tt | Err _ => Err PluginExecutionFailed end).

Definition run_context (stored : StoredPlan) (run_id : str) (session_id : option Uuid) : ActionContext :=
  let request := sp_request stored in
  {| ax_run_id := run_id; ax_plugin_id := wr_plugin_id request; ax_plugin_version := sp_plugin_version stored;
     ax_workflow_id := wr_workflow_id request; ax_host_id := wr_host_id request; ax_session_id := session_id;
     ax_plugin_root := sp_plugin_root stored |}.

Definition workflow_execute (plan_id : str) (app : bool) : WxProc WorkflowRunDto :=
  stored ← take_plan plan_id;
  plugin ← require_enabled (wr_plugin_id (sp_request stored));
  lift (reject_if (negb (str_eqb (ep_version plugin) (sp_plugin_version stored))) PluginVersionIncompatible) ;;
  load_plugin (wr_plugin_id (sp_request stored)) ;;
  preflight_permissions stored ;;
  lift (reject_if (negb (is_nil (mp_drafts (map_plan_to_change_steps (sp_plan stored))))
                   && bool_decide (sp_bound_change_set stored = None)) PluginPolicyDenied) ;;
  match sp_bound_change_set stored with
  | Some (id, version) => execute_bound_changeset id version app
  | None => mret tt
  end ;;
  id ← ask WqNewId;
  let run_id := uuid_display id in
  set_token run_id (Some false) ;;
  session_id ← lift (parse_session_id (wr_session_id (sp_request stored)));
  result ← caught (run_steps (sp_definition stored) (sp_plan stored) (run_context stored run_id session_id)
                     (wr_inputs (sp_request stored)) (sp_changeset_covered_steps stored));
  set_token run_id None ;;
  lift result.

(** *** The other calls *)
Definition workflow_cancel (run_id : str) : WxProc unit :=
  locked (fun s => match wx_run_tokens s !! run_id with
                   | Some _ => Leave {| wx_plans := wx_plans s; wx_run_tokens := <[run_id := true]> (wx_run_tokens s);
                                        wx_polled_events := wx_polled_events s |} (Ok tt)
                   | None => Leave s (Err PluginWorkflowNotFound)
                   end) ;;
  ask (WqUpdateRun run_id WrCancelled (Some (error_code PluginCancelled))) ;;
  mret tt.
Definition polled_events : WxProc (list WorkflowEvent) := locked (fun s => Leave s (Ok (wx_polled_events s))).

Definition opt_json (o : option str) : json := from_option JString JNull o.
Definition get_form (plugin_id workflow_id : str) : WxProc json :=
  plugin ← require_enabled plugin_id;
  contrib ← lift (find_workflow plugin workflow_id);
  definition ← load_workflow_file (ep_install_path plugin) (wc_file contrib);
  input_schema ← match wc_input_schema contrib with
                 | Some schema_path =>
                     bytes ← ask (WqReadBytes (path_join (ep_install_path plugin) schema_path));
                     bytes ← lift (ok_or bytes PluginWorkflowNotFound);
                     mret (default JNull (parse_json bytes))
                 | None => mret JNull
                 end;
  mret (JObject [(lit "pluginId", JString plugin_id); (lit "workflowId", JString workflow_id);
                 (lit "name", JString (wm_name (wd_metadata definition)));
                 (lit "description", opt_json (wm_description (wd_metadata definition))); (lit "inputSchema", input_schema)]).

Inductive WxCall :=
  | WxForm (plugin_id workflow_id : str) | WxPlan (request : WorkflowPlanRequest) | WxExecute (plan_id : str) (app : bool)
  | WxCancel (run_id : str) | WxEvents.
Inductive WxReply :=
  | WyForm (form : json) | WyPlan (plan : WorkflowPlan) | WyRun (run : WorkflowRunDto) | WyEvents (l : list WorkflowEvent) | WyUnit.
Definition wx_body (c : WxCall) : WxProc WxReply :=
  match c with
  | WxForm plugin_id workflow_id => v ← get_form plugin_id workflow_id; mret (WyForm v)
  | WxPlan request => p ← workflow_plan request; mret (WyPlan p)
  | WxExecute plan_id app => r ← workflow_execute plan_id app; mret (WyRun r)
  | WxCancel run_id => workflow_cancel run_id ;; mret WyUnit
  | WxEvents => l ← polled_events; mret (WyEvents l)
  end.
End Workflows.
