(* ===== verification/PluginTheorems.v ===== *)
(** * What holds of plugins

    Templates resolve to their text with each expression replaced, once; every
    mutating change of an accepted plan is accounted for; an action runs only after
    the registry, the version and every permission were asked again, all of it for the
    stored plan that the call took; a run's report says what was executed of that plan.  What does not hold: the samples at the end. *)
From S2P Require Import Prelude Str Json Errors NumText Externals RunState Tools Policy Decision Evidence Process Observe ChangeSets.
From S2P Require Import PluginExpr PluginPolicy PluginWorkflow.

(** ** Templates *)

(** A doubled character is found where it first occurs. *)
Lemma find_doubled x (a b : str) :
  contains (a ++ [x]) [x; x] = false -> find_str [x; x] (a ++ x :: x :: b) = Some (a, b).
Proof.
  induction a as [|c a IH]; intros Hc.
  - cbn. by rewrite !N.eqb_refl.
  - cbn [app contains] in Hc. apply orb_false_iff in Hc as [Hs Hc].
    cbn [app find_str]. replace (starts_with (c :: a ++ x :: x :: b) [x; x]) with false; [by rewrite (IH Hc)|].
    rewrite <- Hs. by destruct a.
Qed.
Lemma find_nothing needle s : contains s needle = false -> find_str needle s = None.
Proof.
  induction s as [|c s IH]; cbn; intros [Hs Hc]%orb_false_iff; rewrite Hs; [done|]. by rewrite (IH Hc).
Qed.
Lemma find_shorter needle s a b : needle <> [] -> find_str needle s = Some (a, b) -> (length b < length s)%nat.
Proof.
  intros Hn. revert a. induction s as [|c s IH]; intros a; cbn [find_str].
  - by destruct needle.
  - destruct (starts_with (c :: s) needle) eqn:Hs.
    + intros [= <- <-]. rewrite length_drop. destruct needle; cbn; [done|lia].
    + destruct (find_str needle s) as [[a' b']|] eqn:Hf; [|done]. intros [= <- <-]. specialize (IH a' eq_refl). cbn. lia.
Qed.

Section Templates.
Context (float_text : N -> str).

(** Any fuel that is more than the length of the text is enough. *)
Lemma resolve_fuel_enough scope n m rest :
  (length rest < n)%nat -> (length rest < m)%nat -> resolve_from float_text n rest scope = resolve_from float_text m rest scope.
Proof.
  revert m rest. induction n as [|n IH]; intros m rest Hn Hm; [lia|]. destruct m as [|m]; [lia|]. cbn [resolve_from].
  destruct (find_str (lit "{{") rest) as [[before open]|] eqn:Ho; [|done].
  destruct (find_str (lit "}}") open) as [[expr after]|] eqn:Hc; [|done]. cbn.
  apply find_shorter in Ho; [|done]. apply find_shorter in Hc; [|done].
  destruct (resolve_path float_text (trim expr) scope); [|done]. cbn. rewrite (IH m after) by lia. done.
Qed.

(** A template as its texts, its expressions and the text that follows them. *)
Fixpoint template_of (pieces : list (str * str)) (tail : str) : str :=
  match pieces with
  | [] => tail
  | (text, expr) :: rest => text ++ lit "{{" ++ expr ++ lit "}}" ++ template_of rest tail
  end.
Definition plain (piece : str * str) : Prop :=
  contains (fst piece ++ [123%N]) (lit "{{") = false /\ contains (snd piece ++ [125%N]) (lit "}}") = false.

Lemma template_of_length pieces tail : (length pieces <= length (template_of pieces tail))%nat.
Proof. induction pieces as [|[text expr] pieces IH]; [cbn; lia|]. cbn [template_of length]. rewrite !length_app. change (length (lit "{{")) with 2%nat. lia. Qed.

Lemma resolve_template scope pieces tail n :
  Forall plain pieces -> contains tail (lit "{{") = false -> (length pieces < n)%nat ->
  resolve_from float_text n (template_of pieces tail) scope =
  (fun values => concat (zip_with app (map fst pieces) values) ++ tail)
    <$> try_map (fun piece => resolve_path float_text (trim (snd piece)) scope) pieces.
Proof.
  intros Hp Ht. revert n. induction Hp as [|[text expr] pieces [Htext Hexpr] _ IH]; intros n Hn; (destruct n as [|n]; [cbn in Hn; lia|]).
  - cbn [resolve_from template_of]. by rewrite find_nothing.
  - cbn [fst snd] in *. cbn [resolve_from template_of].
    change (lit "{{") with [123%N; 123%N] in *. change (lit "}}") with [125%N; 125%N] in *. cbn [app].
    rewrite (find_doubled 123%N text _ Htext), (find_doubled 125%N expr _ Hexpr). cbn [ok_or mbind result_bind try_map snd].
    destruct (resolve_path float_text (trim expr) scope) as [value|e]; [|done]. cbn [mbind result_bind].
    rewrite IH by (cbn in Hn; lia). destruct (try_map _ pieces) as [values|e]; [|done]. cbn. by rewrite <- !app_assoc.
Qed.

(** A template resolves to its texts with each expression replaced by its value, from
    left to right, or to the first error; a value is not looked at again, so that
    braces in an input stay text. *)
Theorem template_resolves_once scope pieces tail :
  Forall plain pieces -> contains tail (lit "{{") = false ->
  resolve_expression float_text (template_of pieces tail) scope =
  (fun values => concat (zip_with app (map fst pieces) values) ++ tail)
    <$> try_map (fun piece => resolve_path float_text (trim (snd piece)) scope) pieces.
Proof. intros Hp Ht. apply resolve_template; [done|done|]. pose proof (template_of_length pieces tail). lia. Qed.
End Templates.

Definition sample_scope : Scope :=
  {| sc_inputs := JObject [(lit "name", jstr "{{ host.id }}")]; sc_host_id := Some (lit "h1"); sc_host_os := None;
     sc_step_outputs := ∅ |}.
Lemma template_resolves_once_witness :
  resolve_expression (fun _ => []) (lit "hi {{ inputs.name }} on {{host.id}}!") sample_scope = Ok (lit "hi {{ host.id }} on h1!").
Proof.
  replace (lit "hi {{ inputs.name }} on {{host.id}}!") with
    (template_of [(lit "hi ", lit " inputs.name "); (lit " on ", lit "host.id")] (lit "!")) by (vm_compute; reflexivity).
  rewrite (template_resolves_once (fun _ => []) sample_scope [(lit "hi ", lit " inputs.name "); (lit " on ", lit "host.id")] (lit "!"));
    [vm_compute; reflexivity|repeat constructor|reflexivity].
Defined.

(** A token that is one quote is cut from its second character to its first: a panic,
    in the planning of any workflow that has such a condition, which nothing refuses. *)
Example lone_quote_panics :
  evaluate_condition (fun _ => []) (lit "host.id == '") sample_scope = None.
Proof. vm_compute. reflexivity. Qed.

(** ** The changes of a plan *)
Definition sample_step_plan (id : string) (changes : list PlannedChange) : WorkflowStepPlan :=
  {| wsp_step_id := lit id; wsp_action_id := lit "a";
     wsp_plan := {| al_action_id := lit "a"; al_risk := R2; al_summary := []; al_changes := changes; al_requires_approval := true |};
     wsp_has_runtime_values := false |}.
Definition sample_plan (steps : list WorkflowStepPlan) : WorkflowPlan :=
  {| wp_id := lit "p"; wp_plugin_id := lit "acme.web"; wp_plugin_version := lit "1.0.0"; wp_workflow_id := lit "deploy";
     wp_host_id := None; wp_risk := R2; wp_requires_approval := true; wp_steps := steps; wp_changeset := None |}.

(** Every change of an accepted plan passed the tool policy; one that changes the host
    is of a kind that plugins carry out themselves, or is a step of the change set; and
    a step counts as covered exactly when some change of it is such a step. *)
Theorem plan_changes_accounted plan mapping :
  enforce_changeset_mappability plan = Ok mapping ->
  forall step change, step ∈ wp_steps plan -> change ∈ al_changes (wsp_plan step) ->
    require_tool_policy_for_change change = Ok tt /\
    (planned_change_is_mutating change = true ->
       plugin_owned change = true \/ managed_command change = true \/
       exists draft, change_to_draft change = Some draft /\ draft ∈ mp_drafts mapping /\
         wsp_step_id step ∈ mp_covered_step_ids mapping).
Proof.
  intros (oks & Hpolicy & (u & Hmapped & [= <-])%bind_ok)%bind_ok step change Hstep Hchange.
  apply try_map_ok in Hpolicy. apply reject_if_ok, negb_false_iff in Hmapped.
  assert (Hall : change ∈ flat_map (fun s => al_changes (wsp_plan s)) (wp_steps plan)).
  { apply list_elem_of_In, in_flat_map. exists step. by rewrite <- !list_elem_of_In. }
  split.
  - apply list_elem_of_lookup_1 in Hall as [i Hi]. destruct (Forall2_lookup_l _ _ _ _ _ Hpolicy Hi) as ([] & _ & Hok). done.
  - intros Hmut. destruct (plugin_owned change) eqn:Howned; [by left|]. destruct (managed_command change) eqn:Hmanaged; [by right; left|].
    right. right.
    assert (Hin : change_to_draft change ∈ step_drafts step).
    { apply list_elem_of_omap. exists change. split; [done|]. unfold mapped. by rewrite Hmut, Howned, Hmanaged. }
    destruct (change_to_draft change) as [draft|] eqn:Hdraft.
    + exists draft. assert (Hd : draft ∈ omap id (step_drafts step)) by (apply list_elem_of_omap; by exists (Some draft)).
      split_and!; [done| |].
      * apply list_elem_of_In, in_flat_map. exists step. by rewrite <- !list_elem_of_In.
      * apply list_elem_of_In, in_map, filter_In. rewrite <- list_elem_of_In. split; [done|].
        by destruct (omap id (step_drafts step)); [apply elem_of_nil in Hd|].
    + exfalso. unfold map_plan_to_change_steps in Hmapped. cbn in Hmapped. destruct (flat_map _ _) eqn:Hflat in Hmapped; [|done].
      enough (Hmem : (wsp_step_id step ++ lit ":" ++ wsp_action_id step) ∈ @nil str) by by apply elem_of_nil in Hmem.
      rewrite <- Hflat. apply list_elem_of_In, in_flat_map. exists step. rewrite <- !list_elem_of_In. split; [done|].
      apply list_elem_of_omap. by exists None.
Qed.

Definition restart_nginx : WorkflowPlan :=
  sample_plan [sample_step_plan "write" [PcRemoteFileWrite (lit "/etc/nginx/nginx.conf")];
               sample_step_plan "restart" [PcRemoteCommand (lit "systemctl") [lit "restart"; lit "nginx"] PrivilegeSudo]].
Lemma plan_changes_accounted_witness :
  enforce_changeset_mappability restart_nginx = Ok (map_plan_to_change_steps restart_nginx) /\
  exists draft, change_to_draft (PcRemoteCommand (lit "systemctl") [lit "restart"; lit "nginx"] PrivilegeSudo) = Some draft /\
    draft ∈ mp_drafts (map_plan_to_change_steps restart_nginx).
Proof.
  assert (Hok : enforce_changeset_mappability restart_nginx = Ok (map_plan_to_change_steps restart_nginx)) by (vm_compute; reflexivity).
  split; [exact Hok|].
  destruct (plan_changes_accounted restart_nginx _ Hok
              (sample_step_plan "restart" [PcRemoteCommand (lit "systemctl") [lit "restart"; lit "nginx"] PrivilegeSudo])
              (PcRemoteCommand (lit "systemctl") [lit "restart"; lit "nginx"] PrivilegeSudo)) as [_ Hmut]; [set_solver|set_solver|].
  destruct (Hmut ltac:(vm_compute; reflexivity)) as [Hx|[Hx|(draft & Hd & Hin & _)]];
    [vm_compute in Hx; discriminate|vm_compute in Hx; discriminate|by exists draft].
Defined.

(** What is judged to change nothing: any program of python, any package that pip
    installs, any git command that is not in the lists; these need no change set. *)
Example interpreters_are_read_only :
  let passes := fun exe args =>
    let change := PcRemoteCommand (lit exe) (map lit args) PrivilegeNone in
    planned_change_is_mutating change = false /\ require_tool_policy_for_change change = Ok tt in
  passes "python3" ["-c"; "import shutil; shutil.rmtree('/srv')"]%string /\
  passes "pip" ["install"; "leftpad"]%string /\ passes "git" ["reset"; "--hard"]%string /\
  passes "curl" ["-X"; "DELETE"; "http://localhost/x"]%string.
Proof. cbv zeta beta. split_and!; vm_compute; reflexivity. Qed.

(** A step of which one change is a step of the change set counts as covered whole,
    and its action is then skipped: the link that [release.activate] switches never is. *)
Example covered_step_drops_the_rest :
  mp_covered_step_ids (map_plan_to_change_steps
    (sample_plan [sample_step_plan "activate" [PcRemoteFileWrite (lit "/srv/app/current"); PcServiceRestart (lit "app")]]))
    = [lit "activate"] /\
  mp_drafts (map_plan_to_change_steps
    (sample_plan [sample_step_plan "activate" [PcRemoteFileWrite (lit "/srv/app/current"); PcServiceRestart (lit "app")]]))
    = [DraftServiceRestart (lit "app")].
Proof. split; vm_compute; reflexivity. Qed.

(** ** What is kept of an output *)
Example second_secret_is_kept :
  redact_plugin_secrets (lit "password=one password=two") = lit "password=******** password=two".
Proof. vm_compute. reflexivity. Qed.
(** A preview is cut at byte 4096: a panic when a character lies across it, after the
    action has run. *)
Example preview_panics : truncate_preview (repeat 97%N 4095 ++ [233%N]) 4096 = None.
Proof. vm_compute. reflexivity. Qed.

(** ** What one operation asked before *)
Abbreviation WxEv := (event unit WxQuery WxAnswer) (only parsing).

Definition executes_action (e : WxEv) : bool :=
  match e with EvAsked (WqExecuteAction _ _ _) _ => true | _ => false end.
Definition no_actions (evs : list WxEv) : Prop := Forall (fun e => executes_action e = false) evs.

(** What a step's templates and its condition are read against. *)
Definition run_scope (ctx : ActionContext) (inputs : json) (outputs : gmap str json) : Scope :=
  {| sc_inputs := inputs; sc_host_id := ax_host_id ctx; sc_host_os := None; sc_step_outputs := outputs |}.

Section Clearance.
Context `{Externals} (float_text : N -> str) (parse_uuid : str -> option Uuid) (parse_yaml : str -> option WorkflowDefinition)
  (parse_json : list N -> option json) (actions : str -> option WorkflowAction) (has_change_sets has_policies : bool).

(** The answers of the registry about each of the capabilities, one after the other. *)
Definition permissions_asked (plugin_id : str) (answers : list (list PermissionGrant)) : list WxEv :=
  map (fun grants => EvAsked (WqPermissions plugin_id) (Ok grants)) answers.
Definition all_granted (host_id : option str) (capabilities : list PluginCapability) (answers : list (list PermissionGrant)) : Prop :=
  Forall2 (fun capability grants => granted_for_host grants capability host_id = true) capabilities answers.

(** Immediately before, the plugin was enabled at the version of the context, and then
    every capability of the input was granted for the host. *)
Definition cleared (past : list WxEv) (uses : str) (ctx : ActionContext) (input : json) : Prop :=
  exists action capabilities plugin earlier answers,
    actions uses = Some action /\ wa_required_capabilities action input = Ok capabilities /\
    past = earlier ++ EvAsked (WqRequireEnabled (ax_plugin_id ctx)) (Ok plugin) :: permissions_asked (ax_plugin_id ctx) answers /\
    ep_version plugin = ax_plugin_version ctx /\ all_granted (ax_host_id ctx) capabilities answers.
Definition permitted (past : list WxEv) (uses : str) (ctx : ActionContext) (input : json) : Prop :=
  exists action capabilities earlier answers,
    actions uses = Some action /\ wa_required_capabilities action input = Ok capabilities /\
    past = earlier ++ permissions_asked (ax_plugin_id ctx) answers /\ all_granted (ax_host_id ctx) capabilities answers.
(** The session of a run is one of the host it was permitted for. *)
Definition on_host (past : list WxEv) (ctx : ActionContext) : Prop :=
  forall session, ax_session_id ctx = Some session ->
    exists profile, EvAsked (WqProfileId session) (Ok profile) ∈ past /\ ax_host_id ctx = Some (uuid_display profile).

(** The context is that of a run of the plan, and the input that of one of its steps,
    which the change set does not cover. *)
Definition of_plan (stored : StoredPlan) (uses : str) (ctx : ActionContext) (input : json) : Prop :=
  (exists run_id session, ctx = run_context stored run_id session /\
     parse_session_id parse_uuid (wr_session_id (sp_request stored)) = Ok session) /\
  exists step outputs, step ∈ wd_steps (sp_definition stored) /\ ws_uses step = uses /\
    str_in (sp_changeset_covered_steps stored) (ws_id step) = false /\
    resolve_json_value float_text (ws_with step) (run_scope ctx (wr_inputs (sp_request stored)) outputs) = Ok input.

(** The change set that the plan is bound to was found at the version it is bound at. *)
Definition bound_is_current (stored : StoredPlan) (past : list WxEv) (id : Uuid) (version : N) : Prop :=
  sp_bound_change_set stored = Some (id, version) /\
  exists current, EvAsked (WqGetChangeSet id) (Ok current) ∈ past /\ cs_version current = version.

(** What an operation may ask, that has taken the plan [taken] or none. *)
Definition asked_cleared (taken : option StoredPlan) (past : list WxEv) (q : WxQuery) : Prop :=
  match q with
  | WqExecuteAction uses ctx input =>
      (exists stored, taken = Some stored /\ of_plan stored uses ctx input) /\ cleared past uses ctx input /\ on_host past ctx
  | WqPlanAction uses ctx input => permitted past uses ctx input /\ on_host past ctx
  | WqApprove id version => exists stored, taken = Some stored /\ bound_is_current stored past id version
  | WqExecuteChangeSet id version =>
      has_policies = true /\ (exists stored, taken = Some stored /\ bound_is_current stored past id version) /\
      exists approved, EvAsked (WqApprove id version) (Ok approved) ∈ past
  | WqDraft request => dr_steps request <> []
  | _ => True
  end.

Lemma on_host_grows past past' ctx : past `prefix_of` past' -> on_host past ctx -> on_host past' ctx.
Proof. intros Hl Hc s Hs. destruct (Hc s Hs) as (p & Hp & Hh). exists p. split; [by eapply elem_of_prefix|done]. Qed.

Section Rules.
Context (taken : option StoredPlan).
#[local] Abbreviation cl :=
  (follows (S := Executor) (R := unit) (Q := WxQuery) (Ans := WxAnswer) (asked_cleared taken)) (only parsing).

(** The rules, for an operation that executes no action. *)
Definition grown {A} (past : list WxEv) (past' : list WxEv) (a : A) : Prop := exists l, past' = past ++ l /\ no_actions l.

Lemma grown_prefix {A} past past' (a : A) : grown past past' a -> past `prefix_of` past'.
Proof. intros (l & -> & _). by eexists. Qed.
Lemma grown_trans {A B C} p1 p2 p3 (a : A) (b : B) (c : C) : grown p1 p2 a -> grown p2 p3 b -> grown p1 p3 c.
Proof.
  intros (l1 & -> & H1) (l2 & -> & H2). exists (l1 ++ l2). split; [by rewrite app_assoc|]. by apply Forall_app.
Qed.
Lemma grown_refl {A} past (a : A) : grown past past a.
Proof. exists []. rewrite app_nil_r. split; [done|constructor]. Qed.
Lemma grown_asked {A} past q (ans : WxAnswer q) (a : A) :
  executes_action (EvAsked q ans) = false -> grown past (past ++ [EvAsked q ans]) a.
Proof. intros Hq. exists [EvAsked q ans]. split; [done|]. by constructor. Qed.
Lemma permissions_grown {A} past plugin_id answers (a : A) : grown past (past ++ permissions_asked plugin_id answers) a.
Proof. exists (permissions_asked plugin_id answers). split; [done|]. unfold no_actions, permissions_asked. by apply Forall_map, Forall_true. Qed.

Lemma cl_bind {A B} past (p : proc _ _ WxQuery WxAnswer A) (f : A -> proc _ _ WxQuery WxAnswer B) F Post :
  cl past p F -> (forall past' a, F past' a -> cl past' (f a) Post) -> cl past (p ≫= f) Post.
Proof. intros Hp Hf. apply follows_mbind. eapply follows_mono; [exact Hp|done]. Qed.
Lemma cl_asking {B} past q (k : WxAnswer q -> proc _ _ WxQuery WxAnswer B) Post :
  asked_cleared taken past q -> (forall a, cl (past ++ [EvAsked q a]) (k a) Post) -> cl past (ask q ≫= k) Post.
Proof. intros Hq Hk. apply follows_mbind, follows_ask; done. Qed.
Lemma cl_lift {A B} past (r : AppResult A) (k : A -> proc _ _ WxQuery WxAnswer B) Post :
  (forall a, r = Ok a -> cl past (k a) Post) -> cl past (lift r ≫= k) Post.
Proof. intros Hk. apply follows_mbind, follows_lift. done. Qed.
Lemma cl_ask past q (F : list WxEv -> WxAnswer q -> Prop) :
  asked_cleared taken past q -> (forall a, F (past ++ [EvAsked q a]) a) -> cl past (ask q) F.
Proof. by split. Qed.
Lemma cl_done {A} past (r : AppResult A) (F : list WxEv -> A -> Prop) : (forall a, r = Ok a -> F past a) -> cl past (lift r) F.
Proof. intros HF. by apply follows_lift. Qed.
(** A section that does not save. *)
Lemma cl_section {X} past (section : Executor -> held Executor unit X) (F : list WxEv -> X -> Prop) :
  (forall s, match section s with Leave _ r => forall x, r = Ok x -> F past x | Save _ _ _ => False end) ->
  cl past (locked section) F.
Proof. intros Hs s. specialize (Hs s). destruct (section s) as [s' [x|e]|]; [by apply Hs|done|done]. Qed.
Lemma cl_emit past event F : F past tt -> cl past (emit_workflow_event event) F.
Proof. intros HF. apply cl_section. intros s [] _. done. Qed.

Lemma prefix_snoc {X} (l l' : list X) x : l `prefix_of` l' -> l `prefix_of` l' ++ [x].
Proof. intros Hl. by apply prefix_app_r. Qed.

Lemma require_all_cleared past plugin_id host_id capabilities Post :
  (forall answers, all_granted host_id capabilities answers -> Post (past ++ permissions_asked plugin_id answers) tt) ->
  cl past (require_all plugin_id host_id capabilities) Post.
Proof.
  revert past Post. induction capabilities as [|capability rest IH]; intros past Post HP; cbn [require_all].
  - specialize (HP []). rewrite app_nil_r in HP. apply HP. constructor.
  - apply cl_asking; [done|]. intros answer. apply cl_lift. intros grants ->. apply cl_lift.
    intros [] Hg%reject_if_ok%negb_false_iff. apply IH. intros answers Hall. rewrite <- app_assoc. apply (HP (grants :: answers)).
    by constructor.
Qed.
Lemma require_all_grown past plugin_id host_id capabilities : cl past (require_all plugin_id host_id capabilities) (grown past).
Proof. apply require_all_cleared. intros answers _. apply permissions_grown. Qed.
Lemma require_enabled_asked past plugin_id :
  cl past (require_enabled plugin_id) (fun past' plugin =>
    past' = past ++ [EvAsked (WqRequireEnabled plugin_id) (Ok plugin)]).
Proof. apply cl_asking; [done|]. intros answer. apply cl_done. by intros plugin ->. Qed.
Lemma load_plugin_grown past plugin_id : cl past (load_plugin plugin_id) (grown past).
Proof. apply cl_asking; [done|]. intros answer. apply cl_done. intros [] _. by apply grown_asked. Qed.

Lemma cl_ret {A} past (a : A) (F : list WxEv -> A -> Prop) : F past a -> cl past (mret a) F.
Proof. done. Qed.
Lemma grown_ret {A} past (a : A) : cl past (mret a) (grown past).
Proof. apply cl_ret, grown_refl. Qed.

(** *** Planning *)
Lemma load_workflow_grown past root relative : cl past (load_workflow_file parse_yaml root relative) (grown past).
Proof.
  apply cl_lift. intros [] _. apply cl_asking; [done|]. intros text. apply cl_lift. intros t _. apply cl_lift. intros d _.
  apply cl_lift. intros [] _. by apply grown_asked.
Qed.

Lemma plan_step_grown past ctx inputs step : on_host past ctx -> cl past (plan_step float_text actions ctx inputs step) (grown past).
Proof.
  intros Hc. eapply (cl_bind _ _ _ (fun past' _ => past' = past)).
  { unfold known_false. destruct (ws_condition step); [|done]. by destruct (evaluate_condition _ _ _) as [[]|]. }
  intros past' [] ->; [apply grown_ret|]. apply cl_lift. intros action Ha%ok_or_ok. apply cl_lift. intros capabilities Hcaps.
  eapply cl_bind.
  { apply require_all_cleared with (Post := fun past' _ => exists answers, past' = past ++ permissions_asked (ax_plugin_id ctx) answers /\
      all_granted (ax_host_id ctx) capabilities answers). eauto. }
  intros p2 [] (answers & -> & Hall).
  pose proof (permissions_grown past (ax_plugin_id ctx) answers tt) as Hg.
  eapply (cl_bind _ _ _ (grown past)); [|intros p3 plan Hp3; exact Hp3].
  destruct (value_has_unresolved _); [exact Hg|].
  apply cl_asking; [|intros answer; apply cl_done; intros plan _; eapply grown_trans; [exact Hg|by apply (grown_asked _ _ _ tt)]].
  split; [|eapply on_host_grows; [|done]; by apply prefix_app_r]. by exists action, capabilities, past, answers.
  Unshelve. all: exact tt.
Qed.
Lemma plan_steps_grown past ctx inputs steps : on_host past ctx -> cl past (plan_steps float_text actions ctx inputs steps) (grown past).
Proof.
  revert past. induction steps as [|step rest IH]; intros past Hc; cbn [plan_steps]; [apply grown_ret|].
  eapply cl_bind; [by apply plan_step_grown|]. intros p1 p H1.
  eapply cl_bind; [apply IH; eapply on_host_grows; [by eapply grown_prefix|done]|].
  intros p2 ps H2. cbn. by eapply grown_trans.
Qed.

(** The change set of a plan, with what was asked for it. *)
Definition drafted_for (past : list WxEv) (drafts : list ChangeStepDraft) (id : Uuid) (version : N) : Prop :=
  exists request drafted checked context,
    EvAsked (WqDraft request) (Ok drafted) ∈ past /\ dr_steps request = drafts /\
    EvAsked (WqCheckPolicy (cs_id drafted) (cs_version drafted) context) (Ok checked) ∈ past /\
    cs_id checked = id /\ cs_version checked = version /\
    forall e, cs_policy_evaluation checked = Some e -> permits_execution e = true.

Lemma drafted_for_grows past past' drafts id version :
  past `prefix_of` past' -> drafted_for past drafts id version -> drafted_for past' drafts id version.
Proof.
  intros Hl (r & d & k & c & Hd & Hs & Hk & Hrest). exists r, d, k, c.
  split; [by eapply elem_of_prefix|]. split; [done|]. split; [by eapply elem_of_prefix|done].
Qed.

Lemma draft_drafted past plan mapping session server :
  cl past (draft_plugin_changeset parse_uuid plan mapping session server)
    (fun past' checked => past `prefix_of` past' /\ drafted_for past' (mp_drafts mapping) (cs_id checked) (cs_version checked)).
Proof.
  apply cl_lift. intros [] Hn%reject_if_ok.
  eapply (cl_bind _ _ _ (grown past)).
  { destruct (parse_uuid (wp_id plan)); [apply grown_ret|]. apply cl_ask; [done|]. intros a. by apply grown_asked. }
  intros p1 id H1%grown_prefix. apply cl_asking; [cbn; by destruct (mp_drafts mapping)|]. intros answer. apply cl_lift.
  intros drafted Hd. apply cl_asking; [done|]. intros answer'. apply cl_lift. intros checked Hk. apply cl_lift. intros [] Hp%reject_if_ok.
  destruct answer as [drafted'|]; [|done]. injection Hd as ->. destruct answer' as [checked'|]; [|done]. injection Hk as ->.
  split; [by do 2 apply prefix_snoc|].
  exists (draft_request plan mapping id session), drafted, checked, (plugin_policy_context server).
  split_and!; [set_solver|done|set_solver|done|done|]. intros e He. rewrite He in Hp. cbn in Hp. by apply negb_false_iff.
Qed.

(** The session of the request is one of the host it is given. *)
Definition target_known (past : list WxEv) (request : WorkflowPlanRequest) : Prop :=
  forall session, parse_session_id parse_uuid (wr_session_id request) = Ok (Some session) ->
    exists profile, EvAsked (WqProfileId session) (Ok profile) ∈ past /\ wr_host_id request = Some (uuid_display profile).

Lemma target_on_host past past' request ctx :
  past `prefix_of` past' -> target_known past request ->
  parse_session_id parse_uuid (wr_session_id request) = Ok (ax_session_id ctx) -> ax_host_id ctx = wr_host_id request -> on_host past' ctx.
Proof.
  intros Hl Ht Hs Hh session Hsession. rewrite Hsession in Hs. destruct (Ht session Hs) as (p & Hp & Hhost).
  exists p. split; [by eapply elem_of_prefix|congruence].
Qed.

Lemma or_denied_ok {A} (r : AppResult A) a : or_denied r = Ok a -> r = Ok a.
Proof. destruct r; [by intros [= ->]|done]. Qed.

(** The request of a plan is the one that was made, but for the host of its session. *)
Definition request_of (request request' : WorkflowPlanRequest) : Prop :=
  wr_plugin_id request' = wr_plugin_id request /\ wr_workflow_id request' = wr_workflow_id request /\
  wr_session_id request' = wr_session_id request /\ wr_inputs request' = wr_inputs request.

Lemma bind_host_known past request :
  cl past (bind_host parse_uuid request) (fun past' request' => target_known past' request' /\ request_of request request').
Proof.
  apply cl_lift. intros [session|] Hs; [|split; [by intros s Hs'; congruence|done]].
  apply cl_asking; [done|]. intros answer. apply cl_lift. intros profile ->%or_denied_ok. apply cl_lift. intros [] _.
  split; [|done]. intros s Hs'. cbn in Hs'. assert (session = s) as -> by congruence. exists profile. split; [set_solver|done].
Qed.

Lemma draft_for_session_drafted past request plan mapping :
  cl past (draft_for_session parse_uuid has_change_sets has_policies request plan mapping) (fun past' drafted =>
    past `prefix_of` past' /\
    forall c, drafted = Some c -> drafted_for past' (mp_drafts mapping) (cs_id c) (cs_version c)).
Proof.
  unfold draft_for_session. destruct (is_nil _); [done|]. apply cl_lift. intros [s|] _; [|done]. destruct (_ && _); [|done].
  eapply cl_bind; [apply draft_drafted|]. intros p1 checked [Hl Hd]. apply cl_ret. split; [done|]. by intros c [= <-].
Qed.

Lemma planner_grown past definition ctx inputs :
  on_host past ctx -> cl past (planner_plan float_text actions definition ctx inputs) (grown past).
Proof.
  intros Hc. apply cl_lift. intros [] _. eapply cl_bind; [by apply plan_steps_grown|]. intros p1 plans H1.
  apply cl_asking; [done|]. intros id. apply cl_ret. eapply grown_trans; [exact H1|]. by apply (grown_asked _ _ _ tt).
Qed.

(** *** One step of a run *)
Section Run.
Context (stored : StoredPlan) (run_id : str) (session : option Uuid).
Let ctx : ActionContext := run_context stored run_id session.
Let inputs : json := wr_inputs (sp_request stored).
Let covered : list str := sp_changeset_covered_steps stored.
Hypothesis Htaken : taken = Some stored.
Hypothesis Hsession : parse_session_id parse_uuid (wr_session_id (sp_request stored)) = Ok session.

(** The condition of the step is [b], read against some outputs of the steps before. *)
Definition judged (step : WorkflowStep) (b : bool) : Prop :=
  match ws_condition step with
  | None => b = true
  | Some cond => exists outputs, evaluate_condition float_text cond (run_scope ctx inputs outputs) = Some (Ok b)
  end.

(** The step's action was executed in [evs], in the context of the run, with the step's
    input resolved, and answered what was sanitized to [res]. *)
Definition executed_as (evs : list WxEv) (step : WorkflowStep) (res : ActionResult) : Prop :=
  exists outputs input raw, resolve_json_value float_text (ws_with step) (run_scope ctx inputs outputs) = Ok input /\
    EvAsked (WqExecuteAction (ws_uses step) ctx input) (Ok raw) ∈ evs /\ sanitize raw = Some res.

(** What the record of a step says of a run that has passed it, [evs] being what the run
    did at this step. *)
Definition settled (evs : list WxEv) (step : WorkflowStep) (r : WorkflowStepRecord) : Prop :=
  sr_step_id r = ws_id step /\ sr_action_id r = ws_uses step /\
  match sr_state r with
  | WsSkipped => judged step false /\ evs = []
  | WsSucceeded =>
      judged step true /\
      ((str_in covered (ws_id step) = true /\ sr_summary r = Some (lit "executed via ChangeSet") /\ evs = []) \/
       (str_in covered (ws_id step) = false /\
        exists res, executed_as evs step res /\ sr_stdout r = ar_stdout res /\ sr_stderr r = ar_stderr res /\ sr_exit_code r = ar_exit_code res))
  | WsFailed => judged step true /\ str_in covered (ws_id step) = false /\ ws_on_failure step = Some OnFailureContinue /\ is_Some (sr_error_code r)
  | _ => False
  end.

Lemma cleared_execution_runs past action step input outputs :
  actions (ws_uses step) = Some action -> on_host past ctx ->
  step ∈ wd_steps (sp_definition stored) -> str_in covered (ws_id step) = false ->
  resolve_json_value float_text (ws_with step) (run_scope ctx inputs outputs) = Ok input ->
  cl past (cleared_execution action ctx (ws_uses step) input)
    (fun past' raw => exists l, past' = past ++ l /\ EvAsked (WqExecuteAction (ws_uses step) ctx input) (Ok raw) ∈ l).
Proof.
  intros Ha Hc Hin Hcov Hres. unfold cleared_execution.
  eapply cl_bind; [apply require_enabled_asked|]. intros p1 plugin ->.
  apply cl_lift. intros [] Hv%reject_if_ok%negb_false_iff%str_eqb_eq. apply cl_lift. intros capabilities Hcaps.
  eapply cl_bind.
  { apply require_all_cleared with (Post := fun past' _ => exists answers, past' = (past ++ [EvAsked (WqRequireEnabled (ax_plugin_id ctx)) (Ok plugin)])
      ++ permissions_asked (ax_plugin_id ctx) answers /\ all_granted (ax_host_id ctx) capabilities answers). eauto. }
  intros p1 [] (answers & -> & Hall). rewrite <- app_assoc. cbn [app]. apply cl_asking.
  - split_and!; [|by exists action, capabilities, plugin, past, answers|eapply on_host_grows; [|done]; by apply prefix_app_r].
    exists stored. split; [done|]. split; [by exists run_id, session|]. by exists step, outputs.
  - intros answer. apply cl_done. intros raw ->. rewrite <- app_assoc. eexists. split; [done|]. set_solver.
Qed.

Lemma keep_result_follows past step raw :
  cl past (keep_result ctx step raw) (fun past' res => past `prefix_of` past' /\ sanitize raw = Some res).
Proof.
  unfold keep_result. destruct (sanitize raw) as [res|]; [|done]. eapply (cl_bind _ _ _ (fun past' _ => past' = past)).
  { destruct (ar_stdout res); [|done]. destruct (truncate_preview _ _); [|done]. by apply cl_emit. }
  intros p1 [] ->. apply cl_asking; [done|]. intros answer. split; [|done]. by apply prefix_snoc.
Qed.

Lemma is_cancelled_keeps past : cl past (is_cancelled run_id) (fun past' _ => past' = past).
Proof. by apply cl_section. Qed.

Lemma attempts_run past n action step input outputs err :
  actions (ws_uses step) = Some action -> on_host past ctx ->
  step ∈ wd_steps (sp_definition stored) -> str_in covered (ws_id step) = false ->
  resolve_json_value float_text (ws_with step) (run_scope ctx inputs outputs) = Ok input ->
  cl past (attempts n action ctx step input err)
    (fun past' r => exists l, past' = past ++ l /\ forall res, r = Ok res -> executed_as l step res).
Proof.
  intros Ha Hc Hin Hcov Hres. revert past err Hc. induction n as [|n IH]; intros past err Hc; cbn [attempts].
  { apply cl_ret. exists []. by rewrite app_nil_r. }
  eapply cl_bind; [apply is_cancelled_keeps|]. intros p1 [] ->.
  { apply cl_ret. exists []. by rewrite app_nil_r. }
  eapply cl_bind.
  { apply (follows_caught_past _ _ _ (fun past' raw => exists l, past' = past ++ l /\ EvAsked (WqExecuteAction (ws_uses step) ctx input) (Ok raw) ∈ l)
             (fun past' r => exists l, past' = past ++ l /\ forall raw, r = Ok raw -> EvAsked (WqExecuteAction (ws_uses step) ctx input) (Ok raw) ∈ l));
      [by eapply cleared_execution_runs|]. intros p2 r [l Hl] Hr. destruct r as [raw|e]; [|by exists l].
    destruct Hr as (l' & -> & Hraw). exists l'. split; [done|]. by intros raw' [= <-]. }
  intros p2 [raw|e] (l & -> & Hraw).
  - eapply cl_bind; [apply keep_result_follows|]. intros p3 res [[l' ->] Hs]. apply cl_ret.
    exists (l ++ l'). split; [by rewrite app_assoc|]. intros res' [= <-]. exists outputs, input, raw.
    split_and!; [done|apply elem_of_app; left; by apply Hraw|done].
  - eapply follows_mono; [apply IH; eapply on_host_grows; [|done]; by apply prefix_app_r|].
    intros p3 r (l' & -> & Hr). exists (l ++ l'). split; [by rewrite app_assoc|].
    intros res Hok. destruct (Hr res Hok) as (o & inp & raw & H1 & H2 & H3). exists o, inp, raw.
    split_and!; [done|apply elem_of_app; by right|done].
Qed.

(** A run that began at [start] and has passed the steps [before], one after the other. *)
Definition passed (start past : list WxEv) (before : list WorkflowStep) (recs : list WorkflowStepRecord) : Prop :=
  exists turns, past = start ++ concat turns /\ Forall3 settled turns before recs.

Lemma passed_next start past evs before step recs r :
  passed start past before recs -> settled evs step r -> passed start (past ++ evs) (before ++ [step]) (recs ++ [r]).
Proof.
  intros (turns & -> & Hset) Hs. exists (turns ++ [evs]). split; [by rewrite concat_app, <- app_assoc; cbn; rewrite app_nil_r|].
  apply Forall3_app; [done|]. apply Forall3_cons; [done|constructor].
Qed.

Lemma passed_length start past before recs : passed start past before recs -> length recs = length before.
Proof. intros (turns & _ & Hset). by rewrite <- (Forall3_length_lm _ _ _ _ Hset), (Forall3_length_lr _ _ _ _ Hset). Qed.

(** The records of a run before step [length before]. *)
Definition at_step (start past : list WxEv) (before rest : list WorkflowStep) (p : Progress) : Prop :=
  rr_run_id (pr_run p) = run_id /\
  exists recs, rr_steps (pr_run p) = recs ++ map (initial_step (sp_plan stored)) rest /\ passed start past before recs.

Lemma alter_next {X} (f : X -> X) l x r : alter f (length l) (l ++ x :: r) = l ++ f x :: r.
Proof. induction l as [|y l IH]; [done|]. cbn. f_equal. apply IH. Qed.

Lemma at_step_next start past evs before step rest p f :
  at_step start past before (step :: rest) p -> settled evs step (f (initial_step (sp_plan stored) step)) ->
  at_step start (past ++ evs) (before ++ [step]) rest (on_step (length before) f p).
Proof.
  intros (Hid & recs & Hrecs & Hset) Hnew. split; [done|]. exists (recs ++ [f (initial_step (sp_plan stored) step)]). split.
  - cbn. rewrite Hrecs, <- (passed_length _ _ _ _ Hset). cbn [map]. by rewrite alter_next, <- app_assoc.
  - by apply passed_next.
Qed.

Lemma on_step_twice i f g p : on_step i g (on_step i f p) = on_step i (fun r => g (f r)) p.
Proof. unfold on_step. cbn. f_equal. unfold set_run_steps. cbn. f_equal. apply list_alter_alter_eq. Qed.
Lemma at_step_outputs start past before rest p outputs :
  at_step start past before rest p -> at_step start past before rest {| pr_run := pr_run p; pr_step_outputs := outputs |}.
Proof. done. Qed.

(** A report of a run that was cancelled before a step of [rest]. *)
Definition cancelled_at (start past : list WxEv) (before rest : list WorkflowStep) (dto : WorkflowRunDto) : Prop :=
  rd_state dto = WrCancelled /\ rd_run_id dto = run_id /\
  exists recs cut fin, rd_steps dto = map status_dto (recs ++ cut) /\
    (exists passed_at, past = passed_at ++ fin /\ passed start passed_at before recs) /\ no_actions fin /\
    Forall2 (fun s r => sr_step_id r = ws_id s /\ sr_state r = WsCancelled) rest cut.

(** How a turn leaves a run that was before [step]. *)
Definition turned (start past : list WxEv) (before : list WorkflowStep) (step : WorkflowStep)
    (rest : list WorkflowStep) (past' : list WxEv) (turn : Turn) : Prop :=
  past `prefix_of` past' /\
  match turn with
  | Going p => at_step start past' (before ++ [step]) rest p
  | Ended dto => cancelled_at start past' before (step :: rest) dto
  end.

Lemma execute_step_turns start past before step rest outputs p :
  on_host past ctx -> at_step start past before (step :: rest) p -> judged step true ->
  step ∈ wd_steps (sp_definition stored) -> str_in covered (ws_id step) = false ->
  cl past (execute_step float_text actions ctx (run_scope ctx inputs outputs) (length before) step p) (turned start past before step rest).
Proof.
  intros Hc Hat Hj Hin Hcov. unfold execute_step. eapply (cl_bind _ _ _ (fun past' _ => past' = past)); [by apply cl_emit|]. intros p1 [] ->.
  apply cl_lift. intros action Ha%ok_or_ok. apply cl_lift. intros input Hres.
  eapply cl_bind; [by eapply attempts_run|]. intros p2 [res|err] (l & -> & Hrun).
  - eapply (cl_bind _ _ _ (fun past' _ => past' = past ++ l)); [by apply cl_emit|]. intros p3 [] ->. apply cl_ret. split; [by apply prefix_app_r|].
    apply at_step_outputs. rewrite on_step_twice. eapply at_step_next; [exact Hat|].
    split; [done|]. split; [done|]. cbn. split; [done|]. right. split; [done|].
    exists res. split; [by apply Hrun|done].
  - eapply (cl_bind _ _ _ (fun past' _ => past' = past ++ l)); [by apply cl_emit|]. intros p3 [] ->.
    assert (Habort : cl (past ++ l) (end_run ctx (if decide (err = PluginCancelled) then WrCancelled else WrFailed) (Some (error_code err)) ;;
                            lift (Err err)) (turned start past before step rest)).
    { eapply (cl_bind _ _ _ (fun _ _ => True)); [|done]. apply cl_asking; [done|]. intros a. by apply cl_emit. }
    destruct (ws_on_failure step) as [[]|] eqn:Hpolicy; [done| |done]. apply cl_ret. split; [by apply prefix_app_r|].
    rewrite on_step_twice. eapply at_step_next; [exact Hat|]. split; [done|]. split; [done|]. cbn. by split_and!.
Qed.

Lemma cancel_from_split recs l : cancel_from (length recs) (recs ++ l)
  = recs ++ map (fun r => match sr_state r with WsPending => set_step_state WsCancelled None None r | _ => r end) l.
Proof. unfold cancel_from. by rewrite take_app_length, drop_app_length. Qed.

Lemma run_step_turns start past before step rest p :
  on_host past ctx -> at_step start past before (step :: rest) p -> step ∈ wd_steps (sp_definition stored) ->
  cl past (run_workflow_step float_text actions ctx covered inputs (length before) step p) (turned start past before step rest).
Proof.
  intros Hc Hat Hin. unfold run_workflow_step. eapply cl_bind; [apply is_cancelled_keeps|]. intros p1 [] ->.
  - apply follows_mbind. unfold end_run. apply cl_asking; [done|]. intros a. apply cl_emit. apply cl_ret. split; [by apply prefix_app_r|].
    destruct Hat as (Hid & recs & Hrecs & Hset). split_and!; [done..|]. exists recs. do 2 eexists. split_and!.
    + cbn [rd_steps to_dto rr_steps set_run_state set_run_steps]. rewrite Hrecs, <- (passed_length _ _ _ _ Hset), cancel_from_split. done.
    + by exists past.
    + by constructor.
    + generalize (step :: rest). intros l. induction l as [|s l IH]; cbn; by constructor.
  - eapply (cl_bind _ _ _ (fun past' b => past' = past /\ judged step b)).
    { unfold judged. destruct (ws_condition step) as [cond|]; [|done].
      destruct (evaluate_condition _ _ _) as [[b|]|] eqn:He; [|done..]. apply cl_ret. split; [done|]. by eexists. }
    intros p1 should [-> Hshould]. destruct should; cbn [negb].
    + destruct (str_in covered (ws_id step)) eqn:Hcov; [|by apply execute_step_turns].
      eapply (cl_bind _ _ _ (fun past' _ => past' = past)); [by apply cl_emit|]. intros p3 [] ->. apply cl_ret. split; [done|].
      rewrite <- (app_nil_r past). eapply at_step_next; [exact Hat|].
      split; [done|]. split; [done|]. cbn. split; [done|]. by left.
    + eapply (cl_bind _ _ _ (fun past' _ => past' = past)); [by apply cl_emit|]. intros p3 [] ->. apply cl_ret. split; [done|].
      rewrite <- (app_nil_r past). eapply at_step_next; [exact Hat|]. split; [done|]. split; [done|]. by split.
Qed.

(** What a run's report says: the run succeeded and every step is settled, or it was
    cancelled and the steps before some step are. *)
Definition reported (start past : list WxEv) (steps : list WorkflowStep) (dto : WorkflowRunDto) : Prop :=
  (rd_state dto = WrSucceeded /\ rd_run_id dto = run_id /\
   exists recs fin passed_at, rd_steps dto = map status_dto recs /\ past = passed_at ++ fin /\ passed start passed_at steps recs /\ no_actions fin) \/
  (exists before rest, steps = before ++ rest /\ cancelled_at start past before rest dto).

Lemma run_from_reports start past before rest p :
  on_host past ctx -> at_step start past before rest p -> before ++ rest = wd_steps (sp_definition stored) ->
  cl past (run_from float_text actions ctx covered inputs (length before) rest p)
    (fun past' dto => reported start past' (before ++ rest) dto).
Proof.
  revert past before p. induction rest as [|step rest IH]; intros past before p Hc Hat Hsteps; cbn [run_from].
  - apply follows_mbind. unfold end_run. apply cl_asking; [done|]. intros a. apply cl_emit. apply cl_ret. left.
    destruct Hat as (Hid & recs & Hrecs & Hset). cbn [map] in Hrecs. rewrite app_nil_r in Hrecs. rewrite app_nil_r.
    split_and!; [done..|]. exists recs. do 2 eexists. split_and!; [cbn; by rewrite Hrecs|done|done|by constructor].
  - assert (Hin : step ∈ wd_steps (sp_definition stored)) by (rewrite <- Hsteps; set_solver).
    eapply cl_bind; [by apply run_step_turns|]. intros p1 [p'|dto] [Hl Hturn].
    + specialize (IH p1 (before ++ [step]) p' ltac:(by eapply on_host_grows) Hturn).
      rewrite length_app, <- app_assoc in IH. cbn in IH. rewrite Nat.add_1_r in IH. by apply IH.
    + apply cl_ret. right. by exists before, (step :: rest).
Qed.

Lemma insert_steps_grown past plan steps : cl past (insert_steps run_id plan steps) (grown past).
Proof.
  revert past. induction steps as [|s rest IH]; intros past; cbn [insert_steps]; [apply grown_ret|].
  apply cl_asking; [done|]. intros id. apply cl_asking; [done|]. intros a. eapply follows_mono; [apply IH|].
  intros l [] (l' & -> & Hn). exists (EvAsked WqNewId id :: EvAsked _ a :: l').
  split; [by rewrite <- !app_assoc|]. constructor; [done|]. by constructor.
Qed.

(** The report of the run, which did nothing with actions before its first step. *)
Definition run_report (past past' : list WxEv) (dto : WorkflowRunDto) : Prop :=
  exists start, grown past start tt /\ reported start past' (wd_steps (sp_definition stored)) dto.

Lemma run_steps_reports past :
  on_host past ctx ->
  cl past (run_steps float_text actions (sp_definition stored) (sp_plan stored) ctx inputs covered) (run_report past).
Proof.
  intros Hc. unfold run_steps. apply cl_asking; [done|]. intros answer. apply cl_lift. intros [] _.
  eapply cl_bind; [apply insert_steps_grown|]. intros p1 [] H1.
  eapply (cl_bind _ _ _ (fun past' _ => past' = p1)); [by apply cl_emit|]. intros p2 [] ->.
  assert (Hg : grown past p1 tt).
  { destruct H1 as (l & -> & Hn). rewrite <- app_assoc. eexists. split; [done|]. by constructor. }
  eapply follows_mono.
  - apply (run_from_reports p1 p1 []); [eapply on_host_grows; [by eapply grown_prefix|done]| |done].
    split; [done|]. exists []. split; [done|]. exists []. rewrite app_nil_r. split; [done|constructor].
  - intros p3 dto Hr. by exists p1.
Qed.
End Run.

(** *** What comes before a run *)
Lemma validate_target_known past request :
  cl past (validate_session_target parse_uuid request) (fun past' _ => grown past past' tt /\ target_known past' request).
Proof.
  apply cl_lift. intros [session|] Hs; [|split; [apply grown_refl|by intros s Hs'; congruence]].
  apply cl_asking; [done|]. intros answer. apply cl_lift. intros profile ->%or_denied_ok. apply cl_done.
  intros [] Hh%reject_if_ok%negb_false_iff%bool_decide_eq_true_1. split; [by apply grown_asked|].
  intros s Hs'. assert (session = s) as -> by congruence. exists profile. split; [set_solver|done].
Qed.
Lemma preflight_grown past request steps : cl past (preflight_steps float_text actions request steps) (grown past).
Proof.
  revert past. induction steps as [|s rest IH]; intros past; cbn [preflight_steps]; [apply grown_ret|].
  apply cl_lift. intros action _. apply cl_lift. intros capabilities _. eapply cl_bind; [apply require_all_grown|].
  intros p1 [] H1. eapply follows_mono; [apply IH|]. intros p2 [] H2. by eapply grown_trans.
Qed.
Lemma bound_changeset_grown past stored id version app :
  taken = Some stored -> sp_bound_change_set stored = Some (id, version) ->
  cl past (execute_bound_changeset has_change_sets has_policies id version app) (grown past).
Proof.
  intros Ht Hb. unfold execute_bound_changeset. apply cl_lift. intros [] _. apply cl_asking; [done|]. intros answer. apply cl_lift.
  intros current ->%or_denied_ok. apply cl_lift. intros [] Hv%reject_if_ok%negb_false_iff%N.eqb_eq. apply cl_lift. intros [] _.
  assert (Hcur : forall l, exists stored0, taken = Some stored0 /\
            bound_is_current stored0 ((past ++ [EvAsked (WqGetChangeSet id) (Ok current)]) ++ l) id version).
  { intros l. exists stored. split; [done|]. split; [done|]. exists current. split; [set_solver|done]. }
  apply cl_asking; [specialize (Hcur []); by rewrite app_nil_r in Hcur|].
  intros answer. apply cl_lift. intros approved ->%or_denied_ok. apply cl_lift.
  intros [] Hp%reject_if_ok%negb_false_iff. apply cl_asking.
  - split_and!; [done|apply Hcur|exists approved; set_solver].
  - intros answer. apply cl_done. intros [] _. rewrite <- !app_assoc. eexists. split; [done|]. by repeat constructor.
Qed.
End Rules.

Lemma form_follows plugin_id workflow_id :
  follows (asked_cleared None) [] (get_form parse_yaml parse_json plugin_id workflow_id) (fun _ _ => True).
Proof.
  unfold get_form. eapply cl_bind; [apply require_enabled_asked|].
  intros p1 plugin _. apply cl_lift. intros contrib _. eapply cl_bind; [apply load_workflow_grown|]. intros p2 definition _.
  eapply (cl_bind _ _ _ _ (fun _ _ => True)); [|done]. destruct (wc_input_schema contrib); [|done].
  apply cl_asking; [done|]. intros bytes. by apply cl_lift.
Qed.

(** ** The whole calls, with what they found *)
Abbreviation WxMoment := (moment Executor unit WxQuery WxAnswer) (only parsing).

(** The plan that the call took when it began. *)
Definition took (c : WxCall) (ms : list WxMoment) (stored : StoredPlan) : Prop :=
  exists plan_id app s ms', c = WxExecute plan_id app /\ ms = Saw s :: ms' /\ wx_plans s !! plan_id = Some stored.
Definition call_cleared (c : WxCall) (ms : list WxMoment) (q : WxQuery) : Prop :=
  exists taken, (forall stored, taken = Some stored -> took c ms stored) /\ asked_cleared taken (events_of ms) q.

(** The report of an execution: it is that of a run of the plan taken. *)
Definition plan_report (stored : StoredPlan) (evs : list WxEv) (dto : WorkflowRunDto) : Prop :=
  exists session before, no_actions before /\
    parse_session_id parse_uuid (wr_session_id (sp_request stored)) = Ok session /\
    run_report stored (rd_run_id dto) session before evs dto.
Definition reply_true (c : WxCall) (ms : list WxMoment) (reply : WxReply) : Prop :=
  match reply with
  | WyRun dto => exists stored, took c ms stored /\ plan_report stored (events_of ms) dto
  | _ => True
  end.

(** A plan is stored by a call that found the plugin enabled at its version; its change
    set, when it has one, was drafted of the changes of the plan and passed the policy. *)
Definition planned_by (request : WorkflowPlanRequest) (stored : StoredPlan) (past : list WxEv) : Prop :=
  request_of request (sp_request stored) /\
  (exists plugin, EvAsked (WqRequireEnabled (wr_plugin_id request)) (Ok plugin) ∈ past /\
     ep_version plugin = sp_plugin_version stored /\ ep_install_path plugin = sp_plugin_root stored) /\
  sp_changeset_covered_steps stored = mp_covered_step_ids (map_plan_to_change_steps (sp_plan stored)) /\
  forall id version, sp_bound_change_set stored = Some (id, version) ->
    drafted_for past (mp_drafts (map_plan_to_change_steps (sp_plan stored))) id version.
Definition stores (c : WxCall) (ms : list WxMoment) (s s' : Executor) : Prop :=
  forall id stored, wx_plans s' !! id = Some stored ->
    wx_plans s !! id = Some stored \/ exists request, c = WxPlan request /\ planned_by request stored (events_of ms).
Definition keeps_plans (s s' : Executor) : Prop := forall id stored, wx_plans s' !! id = Some stored -> wx_plans s !! id = Some stored.

Abbreviation obs c ms p Post := (observes (call_cleared c) (stores c) ms p Post) (only parsing).

Lemma planned_by_grows request stored past past' :
  past `prefix_of` past' -> planned_by request stored past -> planned_by request stored past'.
Proof.
  intros Hl (H1 & (plugin & Hp & H2) & H3 & H4). split_and!; [done| |done|].
  - exists plugin. split; [by eapply elem_of_prefix|done].
  - intros id version Hb. eapply drafted_for_grows; [exact Hl|by apply H4].
Qed.

(** *** The sections of a run keep the plans *)
Lemma set_token_keeps run_id token : sections_do keeps_plans (set_token run_id token).
Proof. split; [by intros s id stored|done]. Qed.
Ltac keep_plans :=
  repeat match goal with
  | |- sections_do _ (_ ≫= _) => apply sections_bind; [|intros ?]
  | |- sections_do _ (caught _) => apply sections_caught
  | |- sections_do _ (lift _) => exact I
  | |- sections_do _ (mret _) => exact I
  | |- sections_do _ (ask _) => intros ?; exact I
  | |- sections_do _ (emit_workflow_event _) => split; [by intros s id stored|done]
  | |- sections_do _ (set_token _ _) => apply set_token_keeps
  | |- sections_do _ (is_cancelled _) => split; [by intros s id stored|done]
  | |- sections_do _ (if ?b then _ else _) => destruct b
  | |- sections_do _ (match ?x with _ => _ end) => destruct x
  | |- sections_do _ Panicked => exact I
  end.

Lemma require_all_keeps plugin_id host_id capabilities : sections_do keeps_plans (require_all plugin_id host_id capabilities).
Proof. induction capabilities as [|x rest IH]; cbn [require_all]; keep_plans; apply IH. Qed.
Lemma cleared_execution_keeps action ctx uses input : sections_do keeps_plans (cleared_execution action ctx uses input).
Proof. unfold cleared_execution, require_enabled. keep_plans. apply require_all_keeps. Qed.
Lemma keep_result_keeps ctx step res : sections_do keeps_plans (keep_result ctx step res).
Proof. unfold keep_result. keep_plans. Qed.
Lemma attempts_keeps n action ctx step input err : sections_do keeps_plans (attempts n action ctx step input err).
Proof.
  revert err. induction n as [|n IH]; intros err; cbn [attempts]; keep_plans; [apply cleared_execution_keeps|apply keep_result_keeps|apply IH].
Qed.
Lemma run_step_keeps ctx covered inputs i step p : sections_do keeps_plans (run_workflow_step float_text actions ctx covered inputs i step p).
Proof.
  unfold run_workflow_step, execute_step, end_run, step_completed, attempt. keep_plans; apply attempts_keeps.
Qed.
Lemma run_from_keeps ctx covered inputs i steps p : sections_do keeps_plans (run_from float_text actions ctx covered inputs i steps p).
Proof.
  revert i p. induction steps as [|step rest IH]; intros i p; cbn [run_from]; unfold end_run; keep_plans; [apply run_step_keeps|apply IH].
Qed.
Lemma insert_steps_keeps run_id plan steps : sections_do keeps_plans (insert_steps run_id plan steps).
Proof. induction steps as [|s rest IH]; cbn [insert_steps]; keep_plans. apply IH. Qed.
Lemma run_steps_keeps definition plan ctx inputs covered :
  sections_do keeps_plans (run_steps float_text actions definition plan ctx inputs covered).
Proof. unfold run_steps. keep_plans; [apply insert_steps_keeps|apply run_from_keeps]. Qed.
Lemma preflight_keeps stored : sections_do keeps_plans (preflight_permissions float_text parse_uuid actions stored).
Proof.
  unfold preflight_permissions, validate_session_target. keep_plans.
  induction (wd_steps (sp_definition stored)) as [|s rest IH]; cbn [preflight_steps]; keep_plans; [apply require_all_keeps|apply IH].
Qed.

(** *** Execution *)
Definition after_taking (stored : StoredPlan) (app : bool) : proc Executor unit WxQuery WxAnswer WorkflowRunDto :=
  plugin ← require_enabled (wr_plugin_id (sp_request stored));
  lift (reject_if (negb (str_eqb (ep_version plugin) (sp_plugin_version stored))) PluginVersionIncompatible) ;;
  load_plugin (wr_plugin_id (sp_request stored)) ;;
  preflight_permissions float_text parse_uuid actions stored ;;
  lift (reject_if (negb (is_nil (mp_drafts (map_plan_to_change_steps (sp_plan stored))))
                   && bool_decide (sp_bound_change_set stored = None)) PluginPolicyDenied) ;;
  match sp_bound_change_set stored with
  | Some (id, version) => execute_bound_changeset has_change_sets has_policies id version app
  | None => mret tt
  end ;;
  id ← ask WqNewId;
  set_token (uuid_display id) (Some false) ;;
  session_id ← lift (parse_session_id parse_uuid (wr_session_id (sp_request stored)));
  result ← caught (run_steps float_text actions (sp_definition stored) (sp_plan stored) (run_context stored (uuid_display id) session_id)
                     (wr_inputs (sp_request stored)) (sp_changeset_covered_steps stored));
  set_token (uuid_display id) None ;;
  lift result.

Lemma execute_takes plan_id app :
  workflow_execute float_text parse_uuid actions has_change_sets has_policies plan_id app =
  stored ← take_plan plan_id; after_taking stored app.
Proof. done. Qed.

Lemma after_taking_keeps stored app : sections_do keeps_plans (after_taking stored app).
Proof.
  unfold after_taking, require_enabled, load_plugin, execute_bound_changeset. keep_plans; [apply preflight_keeps|apply run_steps_keeps].
Qed.

Lemma after_taking_reports stored app :
  follows (asked_cleared (Some stored)) [] (after_taking stored app) (plan_report stored).
Proof.
  unfold after_taking. eapply cl_bind; [apply require_enabled_asked|]. intros p1 plugin ->. apply cl_lift. intros [] _.
  eapply cl_bind; [apply load_plugin_grown|]. intros p2 [] H2.
  eapply (cl_bind _ _ _ _ (fun p4 _ => exists p3, grown p2 p3 tt /\ target_known p3 (sp_request stored) /\ grown p3 p4 tt)).
  { unfold preflight_permissions. eapply cl_bind; [apply validate_target_known|]. intros p3 [] [H3 Ht].
    eapply follows_mono; [apply preflight_grown|]. intros p4 [] H4. by exists p3. }
  intros p4 [] (p3 & H3 & Ht & H4). apply cl_lift. intros [] _.
  eapply (cl_bind _ _ _ _ (grown p4)).
  { destruct (sp_bound_change_set stored) as [[id version]|] eqn:Hb; [by eapply bound_changeset_grown|apply grown_ret]. }
  intros p5 [] H5. apply cl_asking; [done|]. intros id.
  set (p6 := p5 ++ [EvAsked WqNewId id]). assert (H6 : grown p5 p6 tt) by by apply grown_asked.
  eapply (cl_bind _ _ _ _ (fun past' _ => past' = p6)); [by apply cl_section|]. intros p7 [] ->.
  apply cl_lift. intros session Hs.
  assert (Hon : on_host p6 (run_context stored (uuid_display id) session)).
  { eapply (target_on_host p3); [|exact Ht|exact Hs|done]. etransitivity; [exact (grown_prefix _ _ _ H4)|].
    etransitivity; [exact (grown_prefix _ _ _ H5)|exact (grown_prefix _ _ _ H6)]. }
  assert (Hquiet : no_actions p6).
  { assert (H1 : grown [] [EvAsked (WqRequireEnabled (wr_plugin_id (sp_request stored))) (Ok plugin)] tt) by by apply (grown_asked []).
    destruct (grown_trans _ _ _ tt tt tt H1 (grown_trans _ _ _ tt tt tt H2 (grown_trans _ _ _ tt tt tt H3
                (grown_trans _ _ _ tt tt tt H4 (grown_trans _ _ _ tt tt tt H5 H6))))) as (l & Hl & Hn). by rewrite Hl. }
  eapply cl_bind.
  { apply (follows_caught _ _ _ (run_report stored (uuid_display id) session p6)
             (fun past' r => forall dto, r = Ok dto -> run_report stored (uuid_display id) session p6 past' dto)).
    - by apply run_steps_reports.
    - by intros past' r Hr dto ->. }
  intros p8 r Hr. eapply (cl_bind _ _ _ _ (fun past' _ => past' = p8)); [by apply cl_section|]. intros p9 [] ->.
  apply cl_done. intros dto Hdto. specialize (Hr dto Hdto). exists session, p6. split_and!; [done..|].
  assert (Hid : rd_run_id dto = uuid_display id).
  { destruct Hr as (start & _ & [(_ & Hid & _)|(before & rest & _ & _ & Hid & _)]); done. }
  by rewrite Hid.
Qed.

Lemma execute_obs plan_id app :
  obs (WxExecute plan_id app) [] (workflow_execute float_text parse_uuid actions has_change_sets has_policies plan_id app)
    (fun ms dto => exists stored, took (WxExecute plan_id app) ms stored /\ plan_report stored (events_of ms) dto).
Proof.
  rewrite execute_takes. apply observes_bind. intros s. split.
  { intros id stored. cbn. intros [_ Hid]%lookup_delete_Some. by left. }
  destruct (wx_plans s !! plan_id) as [stored|] eqn:Hs; [|done].
  refine (_ : observes _ _ [Saw s] (after_taking stored app) _).
  assert (Htook : forall ms, [Saw s] `prefix_of` ms -> took (WxExecute plan_id app) ms stored).
  { intros ms [ms' ->]. by exists plan_id, app, s, ms'. }
  eapply observes_mono.
  - apply (observes_follows (asked_cleared (Some stored)) _ _ keeps_plans [Saw s] _ (plan_report stored)).
    + intros ms q Hp Hq. exists (Some stored). split; [|done]. intros stored' [= <-]. by apply Htook.
    + intros ms s1 s2 Hk id st Hst. left. by apply Hk.
    + apply after_taking_keeps.
    + apply after_taking_reports.
  - intros ms dto [Hp Hr]. exists stored. split; [by apply Htook|done].
Qed.

(** *** Planning *)
Lemma stores_nothing c ms s s' : keeps_plans s s' -> stores c ms s s'.
Proof. intros Hk id stored Hs. left. by apply Hk. Qed.

Lemma obs_ask c ms q (Post : list WxMoment -> WxAnswer q -> Prop) :
  asked_cleared None (events_of ms) q -> (forall a, Post (ms ++ [Did (EvAsked q a)]) a) -> obs c ms (ask q) Post.
Proof. intros Hq HP. split; [by exists None|done]. Qed.

(** A part of a call that takes no plan and keeps those there are. *)
Lemma obs_part {A} c past (p : proc Executor unit WxQuery WxAnswer A) (F : list WxEv -> A -> Prop) ms (Post : list WxMoment -> A -> Prop) :
  events_of ms = past -> sections_do keeps_plans p -> follows (asked_cleared None) past p F ->
  (forall ms' a, F (events_of ms') a -> Post ms' a) -> obs c ms p Post.
Proof.
  intros <- Hk Hf HP. eapply observes_mono.
  - apply (observes_follows (asked_cleared None) _ _ keeps_plans ms _ F); [| |exact Hk|exact Hf].
    + intros ms' q _ Hq. by exists None.
    + intros ms' s s'. apply stores_nothing.
  - intros ms' a [_ HF]. by apply HP.
Qed.

Lemma load_workflow_keeps root relative : sections_do keeps_plans (load_workflow_file parse_yaml root relative).
Proof. unfold load_workflow_file. keep_plans. Qed.
Lemma plan_steps_keeps ctx inputs steps : sections_do keeps_plans (plan_steps float_text actions ctx inputs steps).
Proof.
  induction steps as [|step rest IH]; cbn [plan_steps]; unfold plan_step, known_false, plan_action; keep_plans;
    first [apply require_all_keeps|apply IH].
Qed.
Lemma planner_keeps definition ctx inputs : sections_do keeps_plans (planner_plan float_text actions definition ctx inputs).
Proof. unfold planner_plan. keep_plans. apply plan_steps_keeps. Qed.
Lemma draft_keeps request plan mapping :
  sections_do keeps_plans (draft_for_session parse_uuid has_change_sets has_policies request plan mapping).
Proof. unfold draft_for_session, draft_plugin_changeset. keep_plans. Qed.
Lemma bind_host_keeps request : sections_do keeps_plans (bind_host parse_uuid request).
Proof. unfold bind_host. keep_plans. Qed.

Lemma mapping_of plan mapping : enforce_changeset_mappability plan = Ok mapping -> mapping = map_plan_to_change_steps plan.
Proof. intros (oks & _ & (u & _ & [= <-])%bind_ok)%bind_ok. done. Qed.

Lemma plan_obs request :
  obs (WxPlan request) [] (workflow_plan float_text parse_uuid parse_yaml actions has_change_sets has_policies request) (fun _ _ => True).
Proof.
  unfold workflow_plan. apply observes_bind. eapply obs_part; [done|apply bind_host_keeps|apply bind_host_known|].
  intros ms1 request' [Ht Hreq]. apply observes_bind. eapply obs_part; [done|unfold require_enabled; keep_plans|apply require_enabled_asked|].
  intros ms2 plugin H2. apply observes_bind. eapply obs_part; [done|unfold load_plugin; keep_plans|apply load_plugin_grown|].
  intros ms3 [] H3. apply observes_bind, observes_lift. intros contrib _.
  apply observes_bind. eapply obs_part; [done|apply load_workflow_keeps|apply load_workflow_grown|]. intros ms4 definition H4.
  apply observes_bind, observes_lift. intros [] _. apply observes_bind, observes_lift. intros session Hs.
  assert (Hl4 : events_of ms1 `prefix_of` events_of ms4).
  { rewrite H2 in H3. etransitivity; [|exact (grown_prefix _ _ _ H4)]. eapply prefix_app_l. exact (grown_prefix _ _ _ H3). }
  assert (Hplugin : EvAsked (WqRequireEnabled (wr_plugin_id request')) (Ok plugin) ∈ events_of ms4).
  { eapply elem_of_prefix; [|etransitivity; [exact (grown_prefix _ _ _ H3)|exact (grown_prefix _ _ _ H4)]]. rewrite H2. set_solver. }
  apply observes_bind. eapply obs_part; [done|apply planner_keeps|apply planner_grown; by eapply target_on_host|].
  intros ms5 plan H5%grown_prefix. apply observes_bind, observes_lift. intros mapping ->%mapping_of.
  apply observes_bind. eapply obs_part; [done|apply draft_keeps|apply draft_for_session_drafted|]. intros ms6 drafted [H6 Hd].
  apply observes_bind, obs_ask; [done|]. intros answer. apply observes_bind, observes_lift. intros [] _.
  apply observes_bind. intros s. split; [|done].
  intros id stored. cbn. intros [[_ <-]|[_ Hid]]%lookup_insert_Some; [right|by left]. exists request. split; [done|].
  rewrite events_of_app. assert (Hgrow : events_of ms4 `prefix_of` events_of ms6) by by etransitivity.
  destruct Hreq as (Hreq & Hrest). split_and!; cbn [sp_request sp_plugin_version sp_plugin_root sp_plan sp_changeset_covered_steps sp_bound_change_set].
  - by split.
  - exists plugin. split; [|done]. rewrite <- Hreq. apply elem_of_app. left. by eapply elem_of_prefix.
  - done.
  - intros i v. destruct drafted as [c|]; [|done]. cbn. intros [= <- <-].
    apply (drafted_for_grows (events_of ms6)); [by apply prefix_app_r|by apply Hd].
Qed.

(** Every call. *)
Lemma body_observed c :
  obs c [] (wx_body float_text parse_uuid parse_yaml parse_json actions has_change_sets has_policies c) (reply_true c).
Proof.
  destruct c as [plugin_id workflow_id|request|plan_id app|run_id|]; cbn [wx_body]; apply observes_bind.
  - eapply (obs_part _ _ _ (fun _ _ => True)); [done| |apply form_follows|done].
    unfold get_form, require_enabled. keep_plans. apply load_workflow_keeps.
  - eapply observes_mono; [apply plan_obs|done].
  - eapply observes_mono; [apply execute_obs|done].
  - unfold workflow_cancel. apply observes_bind. intros s. cbn. destruct (wx_run_tokens s !! run_id); (split; [apply stores_nothing; by intros id stored|]); [|done].
    split; [by exists None|done].
  - intros s. split; [apply stores_nothing; by intros id stored|done].
Qed.

End Clearance.

(** ** In any interleaving *)
Section Pool.
Context `{Externals} (float_text : N -> str) (parse_uuid : str -> option Uuid) (parse_yaml : str -> option WorkflowDefinition)
  (parse_json : list N -> option json) (actions : str -> option WorkflowAction) (has_change_sets has_policies : bool).
#[local] Abbreviation body := (wx_body float_text parse_uuid parse_yaml parse_json actions has_change_sets has_policies) (only parsing).
#[local] Abbreviation WxPool := (pool Executor unit WxQuery WxAnswer WxCall WxReply) (only parsing).
Context (admits : WxPool -> WxCall -> Prop).
#[local] Abbreviation wx_reached := (reached body admits no_plans tt) (only parsing).
#[local] Abbreviation wx_later := (later body admits) (only parsing).

(** [stored] was put into the executor by a planning call. *)
Definition was_planned (w : WxPool) (stored : StoredPlan) : Prop :=
  exists i request p, pl_threads w !! i = Some (WxPlan request, p) /\ planned_by request stored (thread_log i (pl_log w)).

Lemma thread_log_prefix i l l' : l `prefix_of` l' -> thread_log (Q := WxQuery) (Ans := WxAnswer) (R := unit) i l `prefix_of` thread_log i l'.
Proof. intros [m ->]. rewrite thread_log_app. by apply prefix_app_r. Qed.

Lemma plans_are_planned w id stored :
  wx_reached w -> wx_plans (pl_state w) !! id = Some stored -> was_planned w stored.
Proof.
  intros Hr. revert w Hr id stored. refine (reached_ind _ _ _ _ _ _ _); [done|].
  intros w w' Hr IH Hstep id stored Hid.
  assert (Hkeep : forall i request p, pl_threads w !! i = Some (WxPlan request, p) ->
            planned_by request stored (thread_log i (pl_log w)) -> was_planned w' stored).
  { intros i request p Hi Hp. pose proof (rtc_once _ _ Hstep : later _ _ w w') as Hl.
    destruct (later_call _ _ _ _ _ _ _ Hl Hi) as [p' Hp']. exists i, request, p'. split; [done|].
    eapply planned_by_grows; [apply thread_log_prefix; by eapply later_log|done]. }
  destruct (pool_observes_state body admits no_plans tt _ _ _
              (body_observed float_text parse_uuid parse_yaml parse_json actions has_change_sets has_policies) w w' Hr Hstep)
    as [Hsame|(t & c & p & ms & Ht & _ & Hlived & Hst)].
  - rewrite Hsame in Hid. destruct (IH id stored Hid) as (i & request & p & Hi & Hp). by eapply Hkeep.
  - destruct (Hst id stored Hid) as [Hold|(request & -> & Hp)].
    + destruct (IH id stored Hold) as (i & request & q & Hi & Hp). by eapply Hkeep.
    + eapply Hkeep; [exact Ht|]. by rewrite (lived_log _ _ _ _ _ _ _ Hlived).
Qed.

(** Call [t] of [w] is an execution that took [stored], a plan that the executor held
    under the identifier that was given, before it did anything else; and that plan was
    made by a planning call. *)
Definition plan_taken (w : WxPool) (t : nat) (stored : StoredPlan) : Prop :=
  exists plan_id app p w0, pl_threads w !! t = Some (WxExecute plan_id app, p) /\
    wx_reached w0 /\ wx_later w0 w /\ thread_log t (pl_log w0) = [] /\
    wx_plans (pl_state w0) !! plan_id = Some stored /\ was_planned w0 stored.

Lemma took_plan w t c p ms stored :
  pl_threads w !! t = Some (c, p) -> lived body admits no_plans tt t ms w -> took c ms stored -> plan_taken w t stored.
Proof.
  intros Ht Hl (plan_id & app & s & ms' & -> & -> & Hs).
  destruct (lived_split _ _ _ _ t [] s ms' w Hl) as (w0 & Hl0 & <- & Hw0 & _).
  assert (Hr0 : wx_reached w0) by by eapply lived_reached.
  exists plan_id, app, p, w0. split_and!; try done; [by rewrite (lived_log _ _ _ _ _ _ _ Hl0)|by eapply plans_are_planned].
Qed.

Lemma later_taken w w' t stored : wx_later w w' -> plan_taken w t stored -> plan_taken w' t stored.
Proof.
  intros Hl (plan_id & app & p & w0 & Ht & Hr & Hl0 & Hrest). destruct (later_call _ _ _ _ _ _ _ Hl Ht) as [p' Hp'].
  exists plan_id, app, p', w0. split; [done|]. split; [done|]. split; [|done]. unfold later in *. by etransitivity.
Qed.

(** C32. However calls interleave and whatever is answered: an action is executed only by
    a call that took a stored plan, in the context of a run of that plan, with the
    resolved input of one of its steps that its change set does not cover, and immediately
    before the plugin was found enabled at the version the plan was made with and every
    capability of exactly that input was granted for the host; an action plans only
    with its capabilities granted; a session is used for the host it belongs to.  A
    change set is approved and executed only when it is the one the plan taken is bound
    to, at the version bound, at which it was found, and executed after that approval.
    A plan that is taken was stored by a planning call, which had found the plugin at the
    plan's version and, for a bound change set, had it drafted of the changes of that plan
    and let through by the policy at the version bound. *)
Theorem plugin_actions_are_cleared w :
  wx_reached w ->
  forall l1 t q a l2, pl_log w = l1 ++ (t, EvAsked q a) :: l2 ->
    exists taken, (forall stored, taken = Some stored -> plan_taken w t stored) /\
      asked_cleared float_text parse_uuid actions has_policies taken (thread_log t l1) q.
Proof.
  intros Hr l1 t q a l2 Hlog.
  destruct (pool_observes body admits no_plans tt _ _ _
              (body_observed float_text parse_uuid parse_yaml parse_json actions has_change_sets has_policies) w l1 t q a l2 Hr Hlog)
    as (w1 & c & p & ms & Hw1 & <- & Ht & Hl & taken & Htook & Hq).
  exists taken. rewrite (lived_log _ _ _ _ _ _ _ Hl). split; [|done].
  intros stored Hs. eapply later_taken; [exact Hw1|]. by eapply took_plan; [..|by apply Htook].
Qed.

(** C33. However calls interleave: the report of an execution is that of a run of the plan
    it took, which the executor held under the identifier that was given.  What the call
    did, after no action at all, falls into one part for each step of the plan's
    definition, in order, and the record of the step agrees with its part: the step was
    skipped with nothing done, its condition being false; or its condition is true and it
    counts as covered by the change set, with nothing done; or it failed where that is
    allowed; or its action was executed in its part, in the context of the run with the
    step's resolved input, and the record carries exactly the sanitized result.  A report
    that was cancelled is such a report up to some step, and cancelled from there on;
    after the last part no action was executed. *)
Theorem plugin_reports_are_true w :
  wx_reached w ->
  forall t call dto, pl_threads w !! t = Some (call, Done (Ok (WyRun dto))) ->
    exists stored, plan_taken w t stored /\ plan_report float_text parse_uuid stored (thread_log t (pl_log w)) dto.
Proof.
  intros Hr t call dto Ht.
  destruct (pool_observes_done body admits no_plans tt _ _ _
              (body_observed float_text parse_uuid parse_yaml parse_json actions has_change_sets has_policies) w t call (WyRun dto) Hr Ht)
    as (ms & Hl & stored & Htook & Hrep).
  exists stored. rewrite (lived_log _ _ _ _ _ _ _ Hl). split; [by eapply took_plan|done].
Qed.
End Pool.

(** ** Runs *)
#[local] Existing Instance quoting_externals.

Definition sample_step (id uses : string) (condition : option str) : WorkflowStep :=
  {| ws_id := lit id; ws_uses := lit uses; ws_with := JObject []; ws_condition := condition; ws_timeout := None; ws_retry := None;
     ws_on_failure := None |}.
Definition sample_definition (steps : list WorkflowStep) : WorkflowDefinition :=
  {| wd_api_version := lit "runory/v1"; wd_kind := lit "Workflow";
     wd_metadata := {| wm_id := lit "deploy"; wm_name := lit "Deploy"; wm_description := None |}; wd_inputs := None;
     wd_steps := steps; wd_outputs := None |}.
Definition sample_plugin : EnabledPlugin :=
  {| ep_id := lit "acme.web"; ep_version := lit "1.0.0"; ep_install_path := lit "/plugins/acme.web";
     ep_workflows := [{| wc_id := lit "deploy"; wc_file := lit "deploy.yaml"; wc_input_schema := None |}] |}.
Definition sample_grant : PermissionGrant :=
  {| pg_plugin_id := lit "acme.web"; pg_capability := CapSshExec; pg_granted := true; pg_hosts := [dec 7] |}.
Definition sample_action (id : str) : option WorkflowAction :=
  Some {| wa_required_capabilities := fun _ => Ok [CapSshExec]; wa_risk := fun _ => Ok R2 |}.
Definition changes_of (action_id : str) : list PlannedChange :=
  if str_eqb action_id (lit "remote.fs.write") then [PcRemoteFileWrite (lit "/etc/app.conf")]
  else if str_eqb action_id (lit "release.activate") then [PcRemoteFileWrite (lit "/srv/app/current"); PcServiceRestart (lit "app")]
  else if str_eqb action_id (lit "systemd.restart") then [PcServiceRestart (lit "app")] else [].
Definition sample_change_set (request : ChangeSetDraftRequest) : ChangeSet := drafted request 8 (fun _ => 0%N).
Definition sample_draft : ChangeSetDraftRequest := {| dr_agent_run_id := 5; dr_session_id := 3; dr_title := []; dr_steps := [] |}.
Definition wx_answer (q : WxQuery) : WxAnswer q :=
  match q return WxAnswer q with
  | WqNewId => 5%N
  | WqRequireEnabled _ => Ok sample_plugin
  | WqPermissions _ => Ok [sample_grant]
  | WqProfileId _ => Ok 7%N
  | WqReadText _ => Some []
  | WqReadBytes _ => None
  | WqPlanAction action_id _ _ =>
      Ok {| al_action_id := action_id; al_risk := R2; al_summary := action_id; al_changes := changes_of action_id;
            al_requires_approval := true |}
  | WqExecuteAction _ _ _ =>
      Ok {| ar_outputs := JObject []; ar_stdout := Some (lit "token=abc"); ar_stderr := None; ar_exit_code := Some 0%Z |}
  | WqDraft request => Ok (sample_change_set request)
  | WqCheckPolicy _ _ _ => Ok (sample_change_set sample_draft)
  | WqGetChangeSet _ => Ok (sample_change_set sample_draft)
  | WqApprove _ _ => Ok (sample_change_set sample_draft)
  | WqExecuteChangeSet _ _ => Ok (sample_change_set sample_draft)
  | WqLoadPermissions _ | WqInsertRun _ | WqInsertStep _ _ _ _ _ | WqUpdateStep _ _ | WqUpdateRun _ _ _ => Ok tt
  end.
Definition sample_workflow_body (steps : list WorkflowStep) : WxCall -> proc Executor unit WxQuery WxAnswer WxReply :=
  wx_body (fun _ => []) parse_u64 (fun _ => Some (sample_definition steps)) (fun _ => None) sample_action true true.
Definition sample_workflow_request : WorkflowPlanRequest :=
  {| wr_plugin_id := lit "acme.web"; wr_workflow_id := lit "deploy"; wr_host_id := None; wr_session_id := Some (lit "3");
     wr_inputs := JObject [] |}.
Definition wx_pool : Type := pool Executor unit WxQuery WxAnswer WxCall WxReply.
(** Planned and executed, alone. *)
Definition deployed (steps : list WorkflowStep) : wx_pool :=
  foldl (play (sample_workflow_body steps) (fun _ _ => True)) (pool_init no_plans tt)
    (ActCall 0%nat (WxPlan sample_workflow_request) :: repeat (ActTurn 0%nat wx_answer (Ok tt)) 40
     ++ ActCall 1%nat (WxExecute (dec 5) true) :: repeat (ActTurn 1%nat wx_answer (Ok tt)) 90).
(** What was executed, in order: change sets and actions. *)
Definition executions (w : wx_pool) : list str :=
  omap (fun e => match e with
                 | EvAsked (WqExecuteChangeSet _ _) _ => Some (lit "change set")
                 | EvAsked (WqExecuteAction uses _ _) _ => Some uses
                 | _ => None end) (map snd (pl_log w)).
Definition report_of (w : wx_pool) : option (AppResult (WorkflowRunState * list (str * WorkflowStepState * option str))) :=
  match pl_threads w !! 1%nat with
  | Some (_, Done (Ok (WyRun dto))) => Some (Ok (rd_state dto, map (fun s => (ss_step_id s, ss_state s, ss_stdout s)) (rd_steps dto)))
  | Some (_, Done (Err e)) => Some (Err e)
  | _ => None
  end.
Definition update_states (w : wx_pool) : list WorkflowRunState :=
  omap (fun e => match e with EvAsked (WqUpdateRun _ st _) _ => Some st | _ => None end) (map snd (pl_log w)).

Definition two_steps : wx_pool := deployed [sample_step "write" "remote.fs.write" None; sample_step "restart" "systemd.restart" None].

(** The change set of a plan is executed before the first step: the service is
    restarted before the file is written that it is to be restarted for. *)
Example restarted_before_written :
  executions two_steps = [lit "change set"; lit "remote.fs.write"] /\
  report_of two_steps = Some (Ok (WrSucceeded, [(lit "write", WsSucceeded, Some (lit "token=********")); (lit "restart", WsSucceeded, None)])).
Proof. split; vm_compute; reflexivity. Qed.

Definition write_event (ctx : ActionContext) (input : json) (a : AppResult ActionResult) : nat * WxEv :=
  (1%nat, EvAsked (WqExecuteAction (lit "remote.fs.write") ctx input) a).
Definition two_steps_yaml (text : str) : option WorkflowDefinition :=
  Some (sample_definition [sample_step "write" "remote.fs.write" None; sample_step "restart" "systemd.restart" None]).
Definition taken_in (w : wx_pool) (stored : StoredPlan) : Prop :=
  plan_taken (fun _ => []) parse_u64 two_steps_yaml (fun _ => None) sample_action true true (fun _ _ => True) w 1 stored.
Lemma plugin_actions_are_cleared_witness :
  (exists l1 a l2 ctx input stored, pl_log two_steps = l1 ++ write_event ctx input a :: l2 /\ taken_in two_steps stored /\
     of_plan (fun _ => []) parse_u64 stored (lit "remote.fs.write") ctx input /\
     cleared sample_action (thread_log 1 l1) (lit "remote.fs.write") ctx input /\ on_host (thread_log 1 l1) ctx) /\
  exists l1 a l2 stored, pl_log two_steps = l1 ++ (1%nat, EvAsked (WqExecuteChangeSet 8 1) a) :: l2 /\ taken_in two_steps stored /\
    bound_is_current stored (thread_log 1 l1) 8 1.
Proof.
  pose proof (plugin_actions_are_cleared (fun _ => []) parse_u64 two_steps_yaml (fun _ => None) sample_action true true (fun _ _ => True)
                two_steps (plays_steps _ _ _ _)) as Hcleared.
  split.
  - assert (Hlog : exists l1 a l2 ctx input, pl_log two_steps = l1 ++ write_event ctx input a :: l2).
    { exists (firstn 28 (pl_log two_steps)). vm_compute. do 4 eexists. reflexivity. }
    destruct Hlog as (l1 & a & l2 & ctx & input & Hlog).
    destruct (Hcleared l1 1%nat (WqExecuteAction (lit "remote.fs.write") ctx input) a l2 Hlog)
      as (taken & Htaken & (stored & Hs & Hof) & Hcl & Hon).
    exists l1, a, l2, ctx, input, stored. split_and!; [exact Hlog|by apply Htaken|exact Hof|exact Hcl|exact Hon].
  - assert (Hlog : exists n a l2, pl_log two_steps = firstn n (pl_log two_steps) ++ (1%nat, EvAsked (WqExecuteChangeSet 8 1) a) :: l2).
    { exists 19%nat. vm_compute. do 2 eexists. reflexivity. }
    destruct Hlog as (n & a & l2 & Hlog).
    destruct (Hcleared _ 1%nat (WqExecuteChangeSet 8 1) a l2 Hlog) as (taken & Htaken & _ & (stored & Hs & Hb) & _).
    exists (firstn n (pl_log two_steps)), a, l2, stored. split_and!; [exact Hlog|by apply Htaken|exact Hb].
Defined.

Lemma plugin_reports_are_true_witness :
  exists dto stored, pl_threads two_steps !! 1%nat = Some (WxExecute (dec 5) true, Done (Ok (WyRun dto))) /\
    taken_in two_steps stored /\ plan_report (fun _ => []) parse_u64 stored (thread_log 1 (pl_log two_steps)) dto.
Proof.
  assert (Hdto : exists dto, pl_threads two_steps !! 1%nat = Some (WxExecute (dec 5) true, Done (Ok (WyRun dto)))).
  { vm_compute. eexists. reflexivity. }
  destruct Hdto as [dto Hdto].
  destruct (plugin_reports_are_true (fun _ => []) parse_u64 two_steps_yaml (fun _ => None) sample_action true true (fun _ _ => True)
              two_steps (plays_steps _ _ _ _) 1%nat _ dto Hdto) as (stored & Ht & Hr).
  exists dto, stored. split_and!; [exact Hdto|exact Ht|exact Hr].
Defined.

(** A step that is covered as a whole is never executed, whatever else it was to change. *)
Definition activation : wx_pool := deployed [sample_step "activate" "release.activate" None].
Example activation_is_skipped :
  executions activation = [lit "change set"] /\
  report_of activation = Some (Ok (WrSucceeded, [(lit "activate", WsSucceeded, None)])).
Proof. split; vm_compute; reflexivity. Qed.

(** A condition that cannot be evaluated when its step is reached ends the run without a
    word: its record stays Running, and no event says that it has ended. *)
Definition dangling : wx_pool :=
  deployed [sample_step "read" "remote.fs.read" None;
            sample_step "next" "system.detect" (Some (lit "steps.other.outputs.ok == 'yes'"))].
Example run_stays_running :
  report_of dangling = Some (Err PluginWorkflowInvalid) /\ update_states dangling = [] /\
  executions dangling = [lit "remote.fs.read"].
Proof. split_and!; vm_compute; reflexivity. Qed.
