(* ===== verification/SqliteTables.v ===== *)
(** * The tables of runory-agent.db (agent/sqlite.rs)

    The database as the schema of version 4 has it: a table with a text key is a map,
    one that is read in the order of a column a list; a column keeps the text or the
    64-bit integer that is written to it.  [Sql] is a sequence of statements: each may
    fail, as an oracle says, with the error that the code maps the failure to.
    [with_tx] is a transaction under the lock of the connection, [with_conn] a
    sequence of statements that commit one by one. *)
From S2P Require Import Prelude Str RunState Externals Decision Approval Events Stores FleetRun FleetControl.

(** ** Texts and integers *)

(** [serde_json] on a type: its compact text and what a text is read as.  The types
    that are stored here have no map with keys that are not strings, so that writing
    one does not fail. *)
Class Serde (A : Type) := { to_json : A -> str; from_json : str -> option A }.

(** Code that is not in the repository: [Uuid::parse_str], [serde_json], the order in
    which SQLite yields the rows of a table that is not sorted, and its [json_extract]. *)
Class SqlExternals := {
  uuid_parse : str -> option Uuid;
  scan : forall R, gmap str R -> list (str * R);
  event_serde :: Serde AgentEvent;
  call_serde :: Serde PreparedToolCall;
  command_serde :: Serde PreparedCommandProposal;
  interrupt_serde :: Serde PendingInterruptRef;
  budget_serde :: Serde BudgetCheckpoint;
  ids_serde :: Serde (list Uuid);
  bindings_serde :: Serde (list FleetTargetBinding);
  type_of_json : str -> option (option str);
}.
Arguments scan {_ R} m.

(** [n as i64] and [z as u64]. *)
Definition as_i64 (n : N) : Z :=
  let z := (Z.of_N n mod 18446744073709551616)%Z in
  if (z <? 9223372036854775808)%Z then z else (z - 18446744073709551616)%Z.
Definition as_u64 (z : Z) : N := Z.to_N (z mod 18446744073709551616).

(** The names serde gives the states. *)
Definition state_name (s : AgentRunStateV2) : str :=
  lit match s with
  | Created => "created" | Running => "running" | Reasoning => "reasoning" | Acting => "acting"
  | Observing => "observing" | AwaitingApproval => "awaiting_approval" | AwaitingUser => "awaiting_user"
  | Diagnosed => "diagnosed" | PlanningChange => "planning_change" | ExecutingChange => "executing_change"
  | Verifying => "verifying" | RollingBack => "rolling_back" | Paused => "paused" | Completed => "completed"
  | Failed => "failed" | Cancelled => "cancelled"
  end%string.
Definition approval_state_name (s : ApprovalRequestState) : str :=
  lit match s with
  | Pending => "pending" | Granted => "granted" | Rejected => "rejected" | Invalidated => "invalidated"
  end%string.

(** The value of an enumeration that has the name. *)
Definition parse_name {A} (name : A -> str) (all : list A) (raw : str) : result AgentStoreError A :=
  ok_or (List.find (fun a => str_eqb (name a) raw) all) StoreCorrupt.
Definition parse_state : str -> result AgentStoreError AgentRunStateV2 := parse_name state_name ALL_STATES.
Definition parse_approval_state : str -> result AgentStoreError ApprovalRequestState :=
  parse_name approval_state_name [Pending; Granted; Rejected; Invalidated].

Definition parse_uuid `{SqlExternals} (raw : str) : result AgentStoreError Uuid := ok_or (uuid_parse raw) StoreCorrupt.
Definition read_json {A} `{Serde A} (raw : str) : result AgentStoreError A := ok_or (from_json raw) StoreCorrupt.
Definition read_option {A B} (read : A -> result AgentStoreError B) (o : option A) : result AgentStoreError (option B) :=
  match o with None => Ok None | Some a => b ← read a; Ok (Some b) end.

(** ** Rows

    Columns that are always written as the same constant, and read by nothing, are
    left out. *)
Record RunRow := {
  rr_state : str; rr_next_event_seq : Z; rr_target_profile_ids : str; rr_metrics_json : str; rr_created_at : Z;
  rr_updated_at : Z }.
Record EventRow := { er_run_id : str; er_seq : Z; er_timestamp_ms : Z; er_event_json : str }.
Record MessageRow := { me_id : str; me_run_id : str; me_role : str; me_content : str; me_created_at : Z }.
Record ToolCallRow := {
  tc_run_id : str; tc_tool_name : str; tc_authorization : str; tc_state : str; tc_requested_seq : Z }.
Record ToolResultRow := { ts_success : bool; ts_error_code : option str; ts_summary : str; ts_completed_at : Z }.
Record ObservationRow := { ob_id : str; ob_run_id : str; ob_seq : Z; ob_content : str; ob_created_at : Z }.
Record ApprovalRow := {
  aw_run_id : str; aw_tool_call_id : str; aw_tool_name : str; aw_arguments_hash : str; aw_target_ids : str;
  aw_risk : str; aw_policy_version : Z; aw_policy_hash : str; aw_precondition_ref : option str;
  aw_change_set_id : option str; aw_change_set_version : option Z; aw_state : str; aw_created_at : Z;
  aw_decided_at : option Z }.
Record CheckpointRow := {
  ck_state : str; ck_event_cursor : Z; ck_pending_interrupt : option str; ck_budget_state : str; ck_target_ids : str;
  ck_fact_snapshot : str; ck_created_at : Z; ck_updated_at : Z }.

(** The fleets. *)
Record FleetRunRow := {
  fw_version : Z; fw_state : str; fw_production : Z; fw_failure_policy : str; fw_graph_digest : str;
  fw_recovery_state : str; fw_created_at : Z; fw_updated_at : Z }.
Record FleetTargetRow := { tw_run : str; tw_ordinal : Z; tw_profile_id : str; tw_session_id : str; tw_role : option str }.
Record FleetStageRow := {
  sw_run : str; sw_ordinal : Z; sw_id : str; sw_target_ids : str; sw_dependency_ids : str; sw_strategy : str;
  sw_concurrency : Z; sw_state : str }.
Record FleetChildRow := {
  cw_run : str; cw_stage_id : str; cw_target_id : str; cw_agent_run_id : option str; cw_attempt : Z; cw_state : str;
  cw_error_code : option str }.
Record FleetApprovalRow := {
  pw_run : str; pw_version : Z; pw_graph_digest : str; pw_targets : str; pw_policy_version : Z; pw_policy_hash : str;
  pw_state : str; pw_invalidation_code : option str; pw_created_at : Z; pw_decided_at : option Z }.
Record FleetEventRow := {
  vw_run : str; vw_seq : Z; vw_timestamp_ms : Z; vw_kind : str; vw_state : str; vw_approval_id : option str;
  vw_code : option str }.

Record FleetTables := {
  ft_runs : gmap str FleetRunRow; ft_targets : list FleetTargetRow; ft_stages : list FleetStageRow;
  ft_children : list FleetChildRow; ft_approvals : gmap str FleetApprovalRow; ft_events : list FleetEventRow }.

Record AgentDb := {
  db_runs : gmap str RunRow; db_events : list EventRow; db_messages : list MessageRow;
  db_tool_calls : gmap str ToolCallRow; db_tool_results : gmap str ToolResultRow;
  db_observations : list ObservationRow; db_approvals : gmap str ApprovalRow;
  db_checkpoints : gmap str CheckpointRow; db_pending : gmap str str; db_fleets : FleetTables }.

Definition empty_fleets : FleetTables :=
  {| ft_runs := ∅; ft_targets := []; ft_stages := []; ft_children := []; ft_approvals := ∅; ft_events := [] |}.
Definition empty_db : AgentDb :=
  {| db_runs := ∅; db_events := []; db_messages := []; db_tool_calls := ∅; db_tool_results := ∅;
     db_observations := []; db_approvals := ∅; db_checkpoints := ∅; db_pending := ∅; db_fleets := empty_fleets |}.

Definition set_runs (runs : gmap str RunRow) (d : AgentDb) : AgentDb :=
  {| db_runs := runs; db_events := db_events d; db_messages := db_messages d; db_tool_calls := db_tool_calls d;
     db_tool_results := db_tool_results d; db_observations := db_observations d; db_approvals := db_approvals d;
     db_checkpoints := db_checkpoints d; db_pending := db_pending d; db_fleets := db_fleets d |}.
Definition set_events (events : list EventRow) (d : AgentDb) : AgentDb :=
  {| db_runs := db_runs d; db_events := events; db_messages := db_messages d; db_tool_calls := db_tool_calls d;
     db_tool_results := db_tool_results d; db_observations := db_observations d; db_approvals := db_approvals d;
     db_checkpoints := db_checkpoints d; db_pending := db_pending d; db_fleets := db_fleets d |}.
Definition set_messages (messages : list MessageRow) (d : AgentDb) : AgentDb :=
  {| db_runs := db_runs d; db_events := db_events d; db_messages := messages; db_tool_calls := db_tool_calls d;
     db_tool_results := db_tool_results d; db_observations := db_observations d; db_approvals := db_approvals d;
     db_checkpoints := db_checkpoints d; db_pending := db_pending d; db_fleets := db_fleets d |}.
Definition set_tool_calls (calls : gmap str ToolCallRow) (d : AgentDb) : AgentDb :=
  {| db_runs := db_runs d; db_events := db_events d; db_messages := db_messages d; db_tool_calls := calls;
     db_tool_results := db_tool_results d; db_observations := db_observations d; db_approvals := db_approvals d;
     db_checkpoints := db_checkpoints d; db_pending := db_pending d; db_fleets := db_fleets d |}.
Definition set_tool_results (results : gmap str ToolResultRow) (d : AgentDb) : AgentDb :=
  {| db_runs := db_runs d; db_events := db_events d; db_messages := db_messages d; db_tool_calls := db_tool_calls d;
     db_tool_results := results; db_observations := db_observations d; db_approvals := db_approvals d;
     db_checkpoints := db_checkpoints d; db_pending := db_pending d; db_fleets := db_fleets d |}.
Definition set_observations (observations : list ObservationRow) (d : AgentDb) : AgentDb :=
  {| db_runs := db_runs d; db_events := db_events d; db_messages := db_messages d; db_tool_calls := db_tool_calls d;
     db_tool_results := db_tool_results d; db_observations := observations; db_approvals := db_approvals d;
     db_checkpoints := db_checkpoints d; db_pending := db_pending d; db_fleets := db_fleets d |}.
Definition set_approvals (approvals : gmap str ApprovalRow) (d : AgentDb) : AgentDb :=
  {| db_runs := db_runs d; db_events := db_events d; db_messages := db_messages d; db_tool_calls := db_tool_calls d;
     db_tool_results := db_tool_results d; db_observations := db_observations d; db_approvals := approvals;
     db_checkpoints := db_checkpoints d; db_pending := db_pending d; db_fleets := db_fleets d |}.
Definition set_checkpoints (checkpoints : gmap str CheckpointRow) (d : AgentDb) : AgentDb :=
  {| db_runs := db_runs d; db_events := db_events d; db_messages := db_messages d; db_tool_calls := db_tool_calls d;
     db_tool_results := db_tool_results d; db_observations := db_observations d; db_approvals := db_approvals d;
     db_checkpoints := checkpoints; db_pending := db_pending d; db_fleets := db_fleets d |}.
Definition set_pending (pending : gmap str str) (d : AgentDb) : AgentDb :=
  {| db_runs := db_runs d; db_events := db_events d; db_messages := db_messages d; db_tool_calls := db_tool_calls d;
     db_tool_results := db_tool_results d; db_observations := db_observations d; db_approvals := db_approvals d;
     db_checkpoints := db_checkpoints d; db_pending := pending; db_fleets := db_fleets d |}.
Definition set_fleets (fleets : FleetTables) (d : AgentDb) : AgentDb :=
  {| db_runs := db_runs d; db_events := db_events d; db_messages := db_messages d; db_tool_calls := db_tool_calls d;
     db_tool_results := db_tool_results d; db_observations := db_observations d; db_approvals := db_approvals d;
     db_checkpoints := db_checkpoints d; db_pending := db_pending d; db_fleets := fleets |}.

(** ** Statements *)

(** Of each statement to come: whether it fails. *)
Abbreviation SqlOracle := (list bool) (only parsing).
Definition Sql (A : Type) : Type := SqlOracle -> AgentDb -> result AgentStoreError A * SqlOracle * AgentDb.
#[export] Instance sql_ret : MRet Sql := fun _ a o d => (Ok a, o, d).
#[export] Instance sql_bind : MBind Sql := fun _ _ f p o d =>
  match p o d with
  | (Ok a, o', d') => f a o' d'
  | (Err e, o', d') => (Err e, o', d')
  end.

Definition sql_lift {A} (r : result AgentStoreError A) : Sql A := fun o d => (r, o, d).

(** A statement, with the error a failure is mapped to; a constraint that is violated
    is a failure. *)
Definition statement {A} (e : AgentStoreError) (f : AgentDb -> option (A * AgentDb)) : Sql A := fun o d =>
  if default false (head o) then (Err e, tail o, d)
  else match f d with
       | Some (a, d') => (Ok a, tail o, d')
       | None => (Err e, tail o, d)
       end.
Definition execute (f : AgentDb -> option AgentDb) : Sql unit :=
  statement PersistenceFailed (fun d => pair tt <$> f d).
Definition query {A} (e : AgentStoreError) (f : AgentDb -> A) : Sql A := statement e (fun d => Some (f d, d)).

(** [conn.prepare(..)?] and then the rows. *)
Definition select {A} (f : AgentDb -> A) : Sql A :=
  query PersistenceFailed (fun _ => tt) ;; query StoreCorrupt f.

(** [let _ = tx.execute(..)] *)
Definition ignored (p : Sql unit) : Sql unit := fun o d =>
  let '(_, o', d') := p o d in (Ok tt, o', d').

(** [for x in l { f(x)?; }] *)
Fixpoint for_each {A} (f : A -> Sql unit) (l : list A) : Sql unit :=
  match l with [] => mret tt | x :: rest => f x ;; for_each f rest end.

(** [conn.transaction()?; f(&tx)?; tx.commit()?] under the lock. *)
Definition with_tx {A} (f : Sql A) (o : SqlOracle) : store_op AgentDb A := fun l =>
  if poisoned l then (Err StoreUnavailable, l)
  else if default false (head o) then (Err PersistenceFailed, l)
  else match f (tail o) (held l) with
       | (Ok a, o', d') =>
           if default false (head o') then (Err PersistenceFailed, l)
           else (Ok a, {| poisoned := false; held := d' |})
       | (Err e, _, _) => (Err e, l)
       end.

(** [f(&conn)] under the lock. *)
Definition with_conn {A} (f : Sql A) (o : SqlOracle) : store_op AgentDb A := fun l =>
  if poisoned l then (Err StoreUnavailable, l)
  else let '(r, _, d') := f o (held l) in (r, {| poisoned := false; held := d' |}).
