(* ===== verification/Sqlite.v ===== *)
(** * The durable agent store (agent/sqlite.rs, agent/sqlite_history.rs)

    [SqliteAgentDatabase] behind the traits of agent/repository.rs, the bundle that is
    written at an interrupt, recovery on startup, and the history that the interface
    shows.  What is written of events and pending actions passes through
    [redact_secrets] as the JSON text it is stored as.  Random identifiers and the
    clock are arguments. *)
From S2P Require Import Prelude Str RunState Externals Decision Approval Context Events Stores SqliteTables.

(** The result of [redact_secrets] without the flag. *)
Definition redacted (text : str) : str := fst (redact_secrets text).
Arguments redacted text : simpl never.

Section Sqlite.
Context `{Externals, SqlExternals}.

(** ** Runs *)
Definition run_row (old : option RunRow) (r : AgentRun) : RunRow :=
  match old with
  | None =>
      {| rr_state := state_name (run_state r); rr_next_event_seq := as_i64 (peek_next_event_seq r);
         rr_target_profile_ids := lit "[]"; rr_metrics_json := lit "{}";
         rr_created_at := as_i64 (created_at_epoch_ms r); rr_updated_at := as_i64 (updated_at_epoch_ms r) |}
  | Some old =>
      {| rr_state := state_name (run_state r); rr_next_event_seq := as_i64 (peek_next_event_seq r);
         rr_target_profile_ids := rr_target_profile_ids old; rr_metrics_json := rr_metrics_json old;
         rr_created_at := rr_created_at old; rr_updated_at := as_i64 (updated_at_epoch_ms r) |}
  end.

Definition upsert_run (r : AgentRun) : Sql unit :=
  execute (fun d =>
    let key := uuid_display (run_id r) in
    Some (set_runs (<[key := run_row (db_runs d !! key) r]> (db_runs d)) d)).

(** [SELECT id FROM .. WHERE id = ?1] *)
Definition has_row {R} (table : AgentDb -> gmap str R) (key : str) : Sql bool :=
  query PersistenceFailed (fun d => bool_decide (is_Some (table d !! key))).

Definition insert_run_new (r : AgentRun) : Sql unit :=
  exists_ ← has_row db_runs (uuid_display (run_id r));
  if exists_ : bool then sql_lift (Err RunAlreadyExists) else upsert_run r.

Definition run_of_row (key : str) (row : RunRow) : result AgentStoreError AgentRun :=
  id ← parse_uuid key;
  s ← parse_state (rr_state row);
  Ok (from_persisted id s (as_u64 (rr_created_at row)) (as_u64 (rr_updated_at row)) (as_u64 (rr_next_event_seq row))).

Definition load_run (id : Uuid) : Sql (option AgentRun) :=
  row ← query StoreCorrupt (fun d => db_runs d !! uuid_display id);
  sql_lift (read_option (run_of_row (uuid_display id)) row).

(** ** Events *)
Definition of_run (key : str) (e : EventRow) : bool := str_eqb (er_run_id e) key.

(** [COALESCE(MAX(seq), 0)] *)
Definition max_seq (seqs : list Z) : Z := match seqs with [] => 0%Z | z :: rest => foldl Z.max z rest end.

Definition event_row (e : AgentEventEnvelope) : EventRow :=
  {| er_run_id := uuid_display (ev_run_id e); er_seq := as_i64 (ev_seq e);
     er_timestamp_ms := as_i64 (ev_timestamp_epoch_ms e); er_event_json := redacted (to_json (ev_event e)) |}.

Definition append_event (e : AgentEventEnvelope) : Sql unit :=
  let key := uuid_display (ev_run_id e) in
  last ← query PersistenceFailed (fun d => max_seq (map er_seq (List.filter (of_run key) (db_events d))));
  sql_lift (reject_if (as_i64 (ev_seq e) <=? last)%Z (EventSequenceInvalid (as_u64 last) (ev_seq e))) ;;
  execute (fun d =>
    if bool_decide (is_Some (db_runs d !! key))
       && negb (existsb (fun r => of_run key r && (er_seq r =? er_seq (event_row e))%Z) (db_events d))
    then Some (set_events (db_events d ++ [event_row e]) d) else None).

(** *** Side tables *)
Definition change_call (f : ToolCallRow -> ToolCallRow) (id : Uuid) : Sql unit :=
  execute (fun d => Some (set_tool_calls (alter f (uuid_display id) (db_tool_calls d)) d)).
Definition authorized_call (authorization : str) (c : ToolCallRow) : ToolCallRow :=
  {| tc_run_id := tc_run_id c; tc_tool_name := tc_tool_name c; tc_authorization := authorization;
     tc_state := tc_state c; tc_requested_seq := tc_requested_seq c |}.
Definition call_in_state (state : str) (c : ToolCallRow) : ToolCallRow :=
  {| tc_run_id := tc_run_id c; tc_tool_name := tc_tool_name c; tc_authorization := tc_authorization c;
     tc_state := state; tc_requested_seq := tc_requested_seq c |}.

(** [INSERT OR REPLACE INTO tool_results], which refers to a row of [tool_calls]. *)
Definition put_result (id : Uuid) (row : ToolResultRow) : Sql unit :=
  execute (fun d =>
    if bool_decide (is_Some (db_tool_calls d !! uuid_display id))
    then Some (set_tool_results (<[uuid_display id := row]> (db_tool_results d)) d) else None).

Definition add_message (fresh : Uuid) (role content : str) (e : AgentEventEnvelope) : Sql unit :=
  let row := {| me_id := uuid_display fresh; me_run_id := uuid_display (ev_run_id e); me_role := role;
                me_content := redacted content; me_created_at := as_i64 (ev_timestamp_epoch_ms e) |} in
  execute (fun d =>
    if bool_decide (is_Some (db_runs d !! me_run_id row))
       && negb (existsb (fun m => str_eqb (me_id m) (me_id row)) (db_messages d))
    then Some (set_messages (db_messages d ++ [row]) d) else None).

Definition project_event_side_tables (fresh : Uuid) (e : AgentEventEnvelope) : Sql unit :=
  let run := uuid_display (ev_run_id e) in
  let now := as_i64 (ev_timestamp_epoch_ms e) in
  match ev_event e with
  | UserMessageAdded content => add_message fresh (lit "user") content e
  | AssistantMessageAdded content => add_message fresh (lit "assistant") content e
  | ToolRequested id name =>
      execute (fun d =>
        if bool_decide (is_Some (db_tool_calls d !! uuid_display id)) then Some d
        else if bool_decide (is_Some (db_runs d !! run)) then
          Some (set_tool_calls (<[uuid_display id :=
                  {| tc_run_id := run; tc_tool_name := name; tc_authorization := lit "pending";
                     tc_state := lit "requested"; tc_requested_seq := as_i64 (ev_seq e) |}]> (db_tool_calls d)) d)
        else None)
  | ToolAutoAuthorized id => ignored (change_call (authorized_call (lit "auto")) id)
  | ToolApprovalRequired id =>
      ignored (change_call (fun c => call_in_state (lit "awaiting_approval")
                                       (authorized_call (lit "approval_required") c)) id)
  | ToolCompleted id =>
      ignored (change_call (call_in_state (lit "completed")) id) ;;
      put_result id {| ts_success := true; ts_error_code := None; ts_summary := lit "completed"; ts_completed_at := now |}
  | ToolFailed id code =>
      ignored (change_call (call_in_state (lit "failed")) id) ;;
      put_result id {| ts_success := false; ts_error_code := Some (redacted code); ts_summary := lit "failed";
                       ts_completed_at := now |}
  | ObservationAdded summary =>
      let row := {| ob_id := uuid_display fresh; ob_run_id := run; ob_seq := as_i64 (ev_seq e);
                    ob_content := redacted summary; ob_created_at := now |} in
      execute (fun d =>
        if bool_decide (is_Some (db_runs d !! run))
           && negb (existsb (fun o => str_eqb (ob_id o) (ob_id row)) (db_observations d))
        then Some (set_observations (db_observations d ++ [row]) d) else None)
  | _ => mret tt
  end.

Definition event_of_row (row : EventRow) : result AgentStoreError AgentEventEnvelope :=
  event ← read_json (er_event_json row);
  id ← parse_uuid (er_run_id row);
  Ok {| ev_run_id := id; ev_seq := as_u64 (er_seq row); ev_timestamp_epoch_ms := as_u64 (er_timestamp_ms row);
        ev_event := event |}.

Definition by_seq (rows : list EventRow) : list EventRow := sort_by (fun a b => er_seq a <=? er_seq b)%Z rows.

(** [WHERE run_id = ?1 AND seq > ?2 ORDER BY seq ASC] *)
Definition events_above (key : str) (after : Z) (d : AgentDb) : list EventRow :=
  by_seq (List.filter (fun e => of_run key e && (after <? er_seq e)%Z) (db_events d)).

Definition load_events_after (id : Uuid) (after_seq : N) : Sql (list AgentEventEnvelope) :=
  rows ← select (events_above (uuid_display id) (as_i64 after_seq));
  sql_lift (try_map event_of_row rows).

(** ** Approvals *)
Definition approval_row (old : option ApprovalRow) (a : ApprovalRequest) : ApprovalRow :=
  match old with
  | None =>
      {| aw_run_id := uuid_display (ap_run_id a); aw_tool_call_id := uuid_display (ap_tool_call_id a);
         aw_tool_name := ap_tool_name a; aw_arguments_hash := ap_arguments_hash a;
         aw_target_ids := to_json (ap_target_ids a); aw_risk := ap_risk a;
         aw_policy_version := as_i64 (ap_policy_version a); aw_policy_hash := ap_policy_hash a;
         aw_precondition_ref := ap_precondition_ref a; aw_change_set_id := uuid_display <$> ap_change_set_id a;
         aw_change_set_version := as_i64 <$> ap_change_set_version a; aw_state := approval_state_name (ap_state a);
         aw_created_at := as_i64 (ap_created_at_epoch_ms a); aw_decided_at := as_i64 <$> ap_decided_at_epoch_ms a |}
  | Some old =>
      {| aw_run_id := aw_run_id old; aw_tool_call_id := aw_tool_call_id old; aw_tool_name := aw_tool_name old;
         aw_arguments_hash := aw_arguments_hash old; aw_target_ids := aw_target_ids old; aw_risk := aw_risk old;
         aw_policy_version := aw_policy_version old; aw_policy_hash := aw_policy_hash old;
         aw_precondition_ref := aw_precondition_ref old; aw_change_set_id := aw_change_set_id old;
         aw_change_set_version := aw_change_set_version old; aw_state := approval_state_name (ap_state a);
         aw_created_at := aw_created_at old; aw_decided_at := as_i64 <$> ap_decided_at_epoch_ms a |}
  end.

Definition upsert_approval (a : ApprovalRequest) : Sql unit :=
  let key := uuid_display (ap_id a) in
  execute (fun d =>
    let old := db_approvals d !! key in
    if bool_decide (is_Some old) || bool_decide (is_Some (db_runs d !! uuid_display (ap_run_id a)))
    then Some (set_approvals (<[key := approval_row old a]> (db_approvals d)) d) else None).

Definition approval_of_row (key : str) (row : ApprovalRow) : result AgentStoreError ApprovalRequest :=
  targets ← read_json (aw_target_ids row);
  id ← parse_uuid key;
  run ← parse_uuid (aw_run_id row);
  call ← parse_uuid (aw_tool_call_id row);
  change ← read_option parse_uuid (aw_change_set_id row);
  s ← parse_approval_state (aw_state row);
  Ok {| ap_id := id; ap_run_id := run; ap_tool_call_id := call; ap_tool_name := aw_tool_name row;
        ap_arguments_hash := aw_arguments_hash row; ap_target_ids := targets; ap_risk := aw_risk row;
        ap_policy_version := as_u64 (aw_policy_version row); ap_policy_hash := aw_policy_hash row;
        ap_precondition_ref := aw_precondition_ref row; ap_change_set_id := change;
        ap_change_set_version := as_u64 <$> aw_change_set_version row; ap_state := s;
        ap_created_at_epoch_ms := as_u64 (aw_created_at row);
        ap_decided_at_epoch_ms := as_u64 <$> aw_decided_at row |}.

Definition load_approval (id : Uuid) : Sql (option ApprovalRequest) :=
  row ← query StoreCorrupt (fun d => db_approvals d !! uuid_display id);
  sql_lift (read_option (approval_of_row (uuid_display id)) row).

(** ** Checkpoints *)
Definition checkpoint_row (now : N) (old : option CheckpointRow) (c : AgentCheckpoint) : CheckpointRow :=
  {| ck_state := state_name (cp_state c); ck_event_cursor := as_i64 (cp_event_cursor c);
     ck_pending_interrupt := (fun p => redacted (to_json p)) <$> cp_pending_interrupt c;
     ck_budget_state := to_json (cp_budget c); ck_target_ids := to_json (cp_target_ids c);
     ck_fact_snapshot := if is_empty (cp_fact_snapshot c) then lit "[]" else cp_fact_snapshot c;
     ck_created_at := match old with None => as_i64 (cp_created_at_epoch_ms c) | Some old => ck_created_at old end;
     ck_updated_at := as_i64 now |}.

Definition upsert_checkpoint (now : N) (c : AgentCheckpoint) : Sql unit :=
  let key := uuid_display (cp_run_id c) in
  execute (fun d =>
    let old := db_checkpoints d !! key in
    if bool_decide (is_Some old) || bool_decide (is_Some (db_runs d !! key))
    then Some (set_checkpoints (<[key := checkpoint_row now old c]> (db_checkpoints d)) d) else None).

Definition checkpoint_of_row (key : str) (row : CheckpointRow) : result AgentStoreError AgentCheckpoint :=
  pending ← read_option read_json (ck_pending_interrupt row);
  id ← parse_uuid key;
  s ← parse_state (ck_state row);
  budget ← read_json (ck_budget_state row);
  targets ← read_json (ck_target_ids row);
  Ok {| cp_run_id := id; cp_state := s; cp_event_cursor := as_u64 (ck_event_cursor row);
        cp_pending_interrupt := pending; cp_budget := budget; cp_target_ids := targets;
        cp_fact_snapshot := ck_fact_snapshot row; cp_created_at_epoch_ms := as_u64 (ck_created_at row) |}.

Definition load_checkpoint (id : Uuid) : Sql (option AgentCheckpoint) :=
  row ← query StoreCorrupt (fun d => db_checkpoints d !! uuid_display id);
  sql_lift (read_option (checkpoint_of_row (uuid_display id)) row).

(** ** Pending actions *)
Definition FORBIDDEN_FIELDS : list str := [lit "password"; lit "passphrase"; lit "private_key"; lit "vault_master"].

Definition put_row (id : Uuid) (json : str) : Sql unit :=
  execute (fun d => Some (set_pending (<[uuid_display id := json]> (db_pending d)) d)).

Definition put_pending_call (call : PreparedToolCall) : Sql unit :=
  let json := redacted (to_json call) in
  sql_lift (reject_if (contains_any (to_ascii_lowercase json) FORBIDDEN_FIELDS) PersistenceFailed) ;;
  put_row (tool_call_id call) json.

Definition load_pending {A} `{Serde A} (id : Uuid) : Sql (option A) :=
  json ← query StoreCorrupt (fun d => db_pending d !! uuid_display id);
  sql_lift (read_option read_json json).

Definition put_pending_command (command : PreparedCommandProposal) : Sql unit :=
  let json := to_json command in
  let '(sanitized, changed) := redact_secrets json in
  sql_lift (reject_if (changed || negb (str_eqb sanitized json)) PersistenceFailed) ;;
  put_row (command_id command) json.

(** ** The traits *)
Definition sqlite_insert (r : AgentRun) : SqlOracle -> store_op AgentDb unit := with_tx (insert_run_new r).
Definition sqlite_get (id : Uuid) : SqlOracle -> store_op AgentDb (option AgentRun) := with_conn (load_run id).
Definition save_existing (r : AgentRun) : Sql unit :=
  exists_ ← has_row db_runs (uuid_display (run_id r));
  if exists_ : bool then upsert_run r else sql_lift (Err RunNotFound).
Definition sqlite_save (r : AgentRun) : SqlOracle -> store_op AgentDb unit := with_tx (save_existing r).

Definition with_metrics (metrics : str) (now : N) (row : RunRow) : RunRow :=
  {| rr_state := rr_state row; rr_next_event_seq := rr_next_event_seq row;
     rr_target_profile_ids := rr_target_profile_ids row; rr_metrics_json := metrics;
     rr_created_at := rr_created_at row; rr_updated_at := as_i64 now |}.
Definition update_metrics (id : Uuid) (metrics : str) (now : N) : Sql unit :=
  known ← statement PersistenceFailed (fun d =>
    Some (bool_decide (is_Some (db_runs d !! uuid_display id)),
          set_runs (alter (with_metrics metrics now) (uuid_display id) (db_runs d)) d));
  sql_lift (reject_if (negb known) RunNotFound).
Definition sqlite_save_metrics (id : Uuid) (metrics : str) (now : N) : SqlOracle -> store_op AgentDb unit :=
  with_tx (update_metrics id metrics now).

Definition append_projected (fresh : Uuid) (e : AgentEventEnvelope) : Sql unit :=
  append_event e ;; project_event_side_tables fresh e.
Definition sqlite_append (fresh : Uuid) (e : AgentEventEnvelope) : SqlOracle -> store_op AgentDb unit :=
  with_tx (append_projected fresh e).
Definition sqlite_events_after (id : Uuid) (after_seq : N) : SqlOracle -> store_op AgentDb (list AgentEventEnvelope) :=
  with_conn (load_events_after id after_seq).
Definition sqlite_all_events (id : Uuid) : SqlOracle -> store_op AgentDb (list AgentEventEnvelope) :=
  sqlite_events_after id 0.

Definition sqlite_approval_insert (a : ApprovalRequest) : SqlOracle -> store_op AgentDb unit :=
  with_tx (upsert_approval a).
Definition sqlite_approval_get (id : Uuid) : SqlOracle -> store_op AgentDb (option ApprovalRequest) :=
  with_conn (load_approval id).
Definition save_existing_approval (a : ApprovalRequest) : Sql unit :=
  exists_ ← has_row db_approvals (uuid_display (ap_id a));
  if exists_ : bool then upsert_approval a else sql_lift (Err ApprovalNotFound).
Definition sqlite_approval_save (a : ApprovalRequest) : SqlOracle -> store_op AgentDb unit :=
  with_tx (save_existing_approval a).

Definition pending_row (key : str) (row : str * ApprovalRow) : bool :=
  str_eqb (aw_run_id (snd row)) key && str_eqb (aw_state (snd row)) (lit "pending").
Definition load_pending_for_run (id : Uuid) : Sql (option ApprovalRequest) :=
  found ← query StoreCorrupt (fun d => fst <$> List.find (pending_row (uuid_display id)) (scan (db_approvals d)));
  match found with
  | Some key => approval ← sql_lift (parse_uuid key); load_approval approval
  | None => mret None
  end.
Definition sqlite_pending_for_run (id : Uuid) : SqlOracle -> store_op AgentDb (option ApprovalRequest) :=
  with_conn (load_pending_for_run id).

Definition sqlite_checkpoint_save (now : N) (c : AgentCheckpoint) : SqlOracle -> store_op AgentDb unit :=
  with_tx (upsert_checkpoint now c).
Definition sqlite_checkpoint_get (id : Uuid) : SqlOracle -> store_op AgentDb (option AgentCheckpoint) :=
  with_conn (load_checkpoint id).

Definition sqlite_put (call : PreparedToolCall) : SqlOracle -> store_op AgentDb unit := with_tx (put_pending_call call).
Definition sqlite_pending_get (id : Uuid) : SqlOracle -> store_op AgentDb (option PreparedToolCall) :=
  with_conn (load_pending id).
Definition delete_pending (id : Uuid) : Sql unit :=
  execute (fun d => Some (set_pending (delete (uuid_display id) (db_pending d)) d)).
Definition sqlite_remove (id : Uuid) : SqlOracle -> store_op AgentDb unit := with_conn (delete_pending id).
Definition sqlite_put_command (c : PreparedCommandProposal) : SqlOracle -> store_op AgentDb unit :=
  with_tx (put_pending_command c).
Definition sqlite_get_command (id : Uuid) : SqlOracle -> store_op AgentDb (option PreparedCommandProposal) :=
  with_conn (load_pending id).
Definition sqlite_remove_command (id : Uuid) : SqlOracle -> store_op AgentDb unit := sqlite_remove id.

(** ** The bundle of an interrupt *)
Definition write_bundle (fresh : nat -> Uuid) (now : N) (r : AgentRun) (events : list AgentEventEnvelope)
    (checkpoint : AgentCheckpoint) (approval : option ApprovalRequest) (call : option PreparedToolCall) : Sql unit :=
  upsert_run r ;;
  for_each (fun x => append_projected (fst x) (snd x)) (imap (fun n e => (fresh n, e)) events) ;;
  upsert_checkpoint now checkpoint ;;
  (match approval with Some a => upsert_approval a | None => mret tt end) ;;
  (match call with Some c => put_pending_call c | None => mret tt end).
Definition persist_interrupt_bundle (fresh : nat -> Uuid) (now : N) (r : AgentRun) (events : list AgentEventEnvelope)
    (checkpoint : AgentCheckpoint) (approval : option ApprovalRequest) (call : option PreparedToolCall) :
    SqlOracle -> store_op AgentDb unit :=
  with_tx (write_bundle fresh now r events checkpoint approval call).

(** ** Startup *)
Record RecoveredRun := { rec_run_id : Uuid; rec_state : AgentRunStateV2; rec_interrupted : bool }.

Definition paused_row (now : N) (row : RunRow) : RunRow :=
  {| rr_state := state_name Paused; rr_next_event_seq := rr_next_event_seq row;
     rr_target_profile_ids := rr_target_profile_ids row; rr_metrics_json := rr_metrics_json row;
     rr_created_at := rr_created_at row; rr_updated_at := as_i64 now |}.
Definition paused_checkpoint (now : N) (row : CheckpointRow) : CheckpointRow :=
  {| ck_state := state_name Paused; ck_event_cursor := ck_event_cursor row;
     ck_pending_interrupt := ck_pending_interrupt row; ck_budget_state := ck_budget_state row;
     ck_target_ids := ck_target_ids row; ck_fact_snapshot := ck_fact_snapshot row;
     ck_created_at := ck_created_at row; ck_updated_at := as_i64 now |}.

Fixpoint recover_rows (now : N) (rows : list (str * str)) : Sql (list RecoveredRun) :=
  match rows with
  | [] => mret []
  | (key, text) :: rest =>
      id ← sql_lift (parse_uuid key);
      s ← sql_lift (parse_state text);
      if is_terminal s then recover_rows now rest
      else if is_interrupt s || bool_decide (s = Created) then
        others ← recover_rows now rest;
        mret ({| rec_run_id := id; rec_state := s; rec_interrupted := false |} :: others)
      else
        execute (fun d => Some (set_runs (alter (paused_row now) key (db_runs d)) d)) ;;
        ignored (execute (fun d => Some (set_checkpoints (alter (paused_checkpoint now) key (db_checkpoints d)) d))) ;;
        others ← recover_rows now rest;
        mret ({| rec_run_id := id; rec_state := Paused; rec_interrupted := true |} :: others)
  end.
Definition recover_body (now : N) : Sql (list RecoveredRun) :=
  rows ← select (fun d => map (fun x => (fst x, rr_state (snd x))) (scan (db_runs d)));
  recover_rows now rows.
Definition recover_on_startup (now : N) : SqlOracle -> store_op AgentDb (list RecoveredRun) := with_tx (recover_body now).

Definition load_resumable : Sql (list AgentRun) :=
  rows ← select (fun d => scan (db_runs d));
  runs ← sql_lift (try_map (fun x => run_of_row (fst x) (snd x)) rows);
  mret (List.filter (fun r => negb (is_terminal (run_state r))) runs).
Definition list_resumable_runs : SqlOracle -> store_op AgentDb (list AgentRun) := with_conn load_resumable.

(** ** History (agent/sqlite_history.rs) *)
Record AgentHistoryEntry := { he_run : AgentRun; he_goal : str; he_target_ids : list Uuid }.
Record AgentHistoryDetail := { hd_run : AgentRun; hd_events : list AgentEventEnvelope; hd_truncated : bool }.

(** [COALESCE(c.target_ids, r.target_profile_ids)] *)
Definition target_text (d : AgentDb) (key : str) (row : RunRow) : str :=
  from_option ck_target_ids (rr_target_profile_ids row) (db_checkpoints d !! key).

Definition load_history_targets (id : Uuid) : Sql (list Uuid) :=
  text ← statement RunNotFound (fun d =>
    let key := uuid_display id in row ← db_runs d !! key; Some (target_text d key row, d));
  sql_lift (read_json text).
Definition history_targets (id : Uuid) : SqlOracle -> store_op AgentDb (list Uuid) := with_conn (load_history_targets id).

Definition with_targets (targets : str) (row : RunRow) : RunRow :=
  {| rr_state := rr_state row; rr_next_event_seq := rr_next_event_seq row; rr_target_profile_ids := targets;
     rr_metrics_json := rr_metrics_json row; rr_created_at := rr_created_at row; rr_updated_at := rr_updated_at row |}.
Definition record_history_target (id target : Uuid) : SqlOracle -> store_op AgentDb unit :=
  with_conn (execute (fun d => Some (set_runs (alter (with_targets (to_json [target])) (uuid_display id) (db_runs d)) d))).

(** The first message of the user, in the order of its time and of its row. *)
Definition goal_of (d : AgentDb) (key : str) : str :=
  from_option me_content []
    (head (sort_by (fun a b => me_created_at a <=? me_created_at b)%Z
             (List.filter (fun m => str_eqb (me_run_id m) key && str_eqb (me_role m) (lit "user")) (db_messages d)))).

(** [ORDER BY r.updated_at DESC, r.created_at DESC, r.id DESC] *)
Definition history_leb (a b : str * RunRow) : bool :=
  let '(ka, ra) := a in
  let '(kb, rb) := b in
  (rr_updated_at rb <? rr_updated_at ra)%Z
  || ((rr_updated_at rb =? rr_updated_at ra)%Z
      && ((rr_created_at rb <? rr_created_at ra)%Z
          || ((rr_created_at rb =? rr_created_at ra)%Z && str_leb kb ka))).

(** [EXISTS (SELECT 1 FROM json_each(..) WHERE value = ?1)]: malformed text is an error. *)
Definition targets_include (target : option Uuid) (text : str) : result AgentStoreError bool :=
  match target with
  | None => Ok true
  | Some id => ids ← read_json text; Ok (existsb (fun x => str_eqb (uuid_display x) (uuid_display id)) ids)
  end.

Fixpoint filter_rows (d : AgentDb) (target : option Uuid) (rows : list (str * RunRow)) :
    result AgentStoreError (list (str * RunRow)) :=
  match rows with
  | [] => Ok []
  | (key, row) :: rest =>
      keep ← targets_include target (target_text d key row);
      others ← filter_rows d target rest;
      Ok (if keep : bool then (key, row) :: others else others)
  end.

Definition history_entry (d : AgentDb) (x : str * RunRow) : result AgentStoreError AgentHistoryEntry :=
  let '(key, row) := x in
  run ← run_of_row key row;
  targets ← read_json (target_text d key row);
  Ok {| he_run := run; he_goal := firstn 200 (redacted (goal_of d key)); he_target_ids := targets |}.

Definition history_rows (target : option Uuid) (d : AgentDb) : result AgentStoreError (list AgentHistoryEntry) :=
  rows ← filter_rows d target (scan (db_runs d));
  try_map (history_entry d) (firstn 50 (sort_by history_leb rows)).
Definition recent_history (target : option Uuid) : SqlOracle -> store_op AgentDb (list AgentHistoryEntry) :=
  with_conn (entries ← select (history_rows target); sql_lift entries).

(** *** The detail of a run *)
Definition MAX_HISTORY_EVENTS : nat := 500.
Definition MAX_HISTORY_BYTES : N := 1024 * 1024.
Definition MAX_PREVIEW_BYTES : N := 8 * 1024.

(** The event with its output cut, and whether it was. *)
Definition cut_preview (e : AgentEvent) : AgentEvent * bool :=
  match e with
  | CommandCompleted id code preview ms =>
      if (MAX_PREVIEW_BYTES <? blen preview)%N then (CommandCompleted id code (take_bytes MAX_PREVIEW_BYTES preview) ms, true)
      else (e, false)
  | CommandFailed id code preview error ms =>
      if (MAX_PREVIEW_BYTES <? blen preview)%N then (CommandFailed id code (take_bytes MAX_PREVIEW_BYTES preview) error ms, true)
      else (e, false)
  | _ => (e, false)
  end.

(** The rows in descending order, taken until a bound is met: what was taken, the
    newest first, and whether something was left out.  A row whose text is not JSON
    fails when it is reached. *)
Fixpoint detail_rows (id : Uuid) (rows : list EventRow) (taken : nat) (bytes : N) :
    result AgentStoreError (list AgentEventEnvelope * bool) :=
  match rows with
  | [] => Ok ([], false)
  | row :: rest =>
      kind ← ok_or (type_of_json (er_event_json row)) StoreCorrupt;
      match kind with
      | None => detail_rows id rest taken bytes
      | Some kind =>
          if str_eqb kind (lit "tool_output_chunk") then detail_rows id rest taken bytes
          else
            let bytes := (bytes + blen (er_event_json row))%N in
            if (taken =? MAX_HISTORY_EVENTS)%nat || (MAX_HISTORY_BYTES <? bytes)%N then Ok ([], true)
            else
              event ← read_json (redacted (er_event_json row));
              let '(event, cut) := cut_preview event in
              others ← detail_rows id rest (S taken) bytes;
              Ok ({| ev_run_id := id; ev_seq := as_u64 (er_seq row);
                     ev_timestamp_epoch_ms := as_u64 (er_timestamp_ms row); ev_event := event |} :: fst others,
                  cut || snd others)
      end
  end.

Definition load_history_detail (id : Uuid) : Sql AgentHistoryDetail :=
  found ← load_run id;
  run ← sql_lift (ok_or found RunNotFound);
  rows ← select (fun d => rev (by_seq (List.filter (of_run (uuid_display id)) (db_events d))));
  detail ← sql_lift (detail_rows id rows 0 0);
  mret {| hd_run := run; hd_events := rev (fst detail); hd_truncated := snd detail |}.
Definition history_detail (id : Uuid) : SqlOracle -> store_op AgentDb AgentHistoryDetail := with_conn (load_history_detail id).
End Sqlite.
