(* ===== verification/SqliteTheorems.v ===== *)
(** * What holds of the durable agent store

    The tables refine the stores in memory, as long as what is written survives the
    redaction of its JSON text; and what the tables add: an approval that is bound
    once, recovery, and atomic bundles. *)
From stdpp Require Import sorting.
From S2P Require Import Prelude Str RunState Externals Decision Approval Context Events Stores SqliteTables Sqlite.

(** ** What is documented of the code outside *)

(** A JSON object in compact form: one line that is not empty; what is read as one
    ends with a brace; a value that the type can hold is read back. *)
Class JsonLaws (A : Type) `{Serde A} := {
  representable : A -> Prop;
  json_read_back a : representable a -> from_json (to_json a) = Some a;
  json_one_line a : to_json a <> [] /\ 10%N ∉ to_json a;
  json_ends t a : from_json t = Some a -> last (trim t) = Some 125%N;
}.

Class SqlLaws `{Externals, SqlExternals} := {
  sql_uuid u : uuid_parse (uuid_display u) = Some u;
  sql_scan R (m : gmap str R) : scan m ≡ₚ map_to_list m;
  event_laws :: JsonLaws AgentEvent;
  call_laws :: JsonLaws PreparedToolCall;
  command_laws :: JsonLaws PreparedCommandProposal;
  interrupt_laws :: JsonLaws PendingInterruptRef;
  budget_laws :: JsonLaws BudgetCheckpoint;
  ids_read_back (l : list Uuid) : from_json (to_json l) = Some l;
}.

(** ** Integers and names *)
Definition fits64 (n : N) : Prop := (n < 18446744073709551616)%N.
Definition fits63 (n : N) : Prop := (n < 9223372036854775808)%N.

Lemma as_u64_i64 n : fits64 n -> as_u64 (as_i64 n) = n.
Proof.
  unfold fits64, as_u64, as_i64. intros Hn. rewrite (Z.mod_small (Z.of_N n)) by lia.
  destruct (Z.ltb_spec (Z.of_N n) 9223372036854775808); [rewrite Z.mod_small by lia; lia|].
  rewrite <- (Z_mod_plus_full _ 1), Z.mod_small by lia. lia.
Qed.

Lemma as_i64_small n : fits63 n -> as_i64 n = Z.of_N n.
Proof.
  unfold fits63, as_i64. intros Hn. rewrite (Z.mod_small (Z.of_N n)) by lia. by rewrite (proj2 (Z.ltb_lt _ _)) by lia.
Qed.

Lemma as_i64_pos n z : fits64 n -> (0 <= z < as_i64 n)%Z -> fits63 n.
Proof.
  unfold fits64, fits63, as_i64. intros Hn. rewrite (Z.mod_small (Z.of_N n)) by lia.
  destruct (Z.ltb_spec (Z.of_N n) 9223372036854775808); lia.
Qed.

Lemma parse_state_name s : parse_state (state_name s) = Ok s.
Proof. by destruct s; vm_compute. Qed.
Lemma parse_approval_name s : parse_approval_state (approval_state_name s) = Ok s.
Proof. by destruct s; vm_compute. Qed.

(** ** Redacted texts *)
Lemma redacted_line t : t <> [] -> 10%N ∉ t -> redacted t = redact_line t.
Proof.
  intros Hne Hl. unfold redacted, redact_secrets. cbn [fst]. rewrite lines_none; [done..|].
  intros c Hc ->. done.
Qed.

Lemma trim_closed (s : str) (c : chr) : is_whitespace c = false -> last (trim (s ++ [c])) = Some c.
Proof.
  intros Hc. unfold trim, trim_matches, trim_end_matches, trim_start_matches.
  assert (Hd : exists s', drop_while is_whitespace (s ++ [c]) = s' ++ [c]).
  { clear - Hc. induction s as [|x s IH]; cbn; [rewrite Hc; by exists []|]. destruct (is_whitespace x); [done|by exists (x :: s)]. }
  destruct Hd as [s' ->]. rewrite rev_app_distr. cbn. rewrite Hc. cbn. rewrite rev_involutive. apply last_snoc.
Qed.

Section Redaction.
Context {A : Type} `{JsonLaws A}.

Lemma plain_survives (a : A) : sensitive_line (to_json a) = false -> redacted (to_json a) = to_json a.
Proof. intros Hs. destruct (json_one_line a) as [Hne Hl]. rewrite redacted_line by done. unfold redact_line. by rewrite Hs. Qed.

(** A text that was redacted is not the text of a value. *)
Lemma sensitive_unreadable (a : A) : sensitive_line (to_json a) = true -> from_json (A := A) (redacted (to_json a)) = None.
Proof.
  intros Hs. destruct (json_one_line a) as [Hne Hl]. rewrite redacted_line by done. unfold redact_line. rewrite Hs.
  destruct (from_json _) as [b|] eqn:Hb; [|done]. exfalso. apply json_ends in Hb.
  change (lit "=[REDACTED]") with (lit "=[REDACTED" ++ [93%N]) in Hb. rewrite app_assoc, trim_closed in Hb by done. done.
Qed.

Definition survives (a : A) : Prop := from_json (redacted (to_json a)) = Some a.

Lemma survives_iff (a : A) : representable a -> survives a <-> sensitive_line (to_json a) = false.
Proof.
  intros Ha. unfold survives. destruct (sensitive_line (to_json a)) eqn:Hs.
  - by rewrite (sensitive_unreadable a Hs).
  - rewrite (plain_survives a Hs). split; [done|]. intros _. by apply json_read_back.
Qed.
End Redaction.

Section Refinement.
Context `{SqlLaws}.

(** ** The stores in memory, together *)
Record Memory := {
  mm_runs : run_map; mm_events : event_map; mm_approvals : approval_map; mm_checkpoints : gmap N AgentCheckpoint;
  mm_calls : gmap N PreparedToolCall; mm_commands : gmap N PreparedCommandProposal }.
Definition no_memory : Memory :=
  {| mm_runs := ∅; mm_events := ∅; mm_approvals := ∅; mm_checkpoints := ∅; mm_calls := ∅; mm_commands := ∅ |}.

(** A write of a store that is not poisoned, and what is left of the memory. *)
Definition on_runs (f : store_op run_map unit) (m : Memory) : result AgentStoreError unit * Memory :=
  let '(r, l) := f {| poisoned := false; held := mm_runs m |} in
  (r, {| mm_runs := held l; mm_events := mm_events m; mm_approvals := mm_approvals m;
         mm_checkpoints := mm_checkpoints m; mm_calls := mm_calls m; mm_commands := mm_commands m |}).
Definition on_events (f : store_op event_map unit) (m : Memory) : result AgentStoreError unit * Memory :=
  let '(r, l) := f {| poisoned := false; held := mm_events m |} in
  (r, {| mm_runs := mm_runs m; mm_events := held l; mm_approvals := mm_approvals m;
         mm_checkpoints := mm_checkpoints m; mm_calls := mm_calls m; mm_commands := mm_commands m |}).
Definition on_approvals (f : store_op approval_map unit) (m : Memory) : result AgentStoreError unit * Memory :=
  let '(r, l) := f {| poisoned := false; held := mm_approvals m |} in
  (r, {| mm_runs := mm_runs m; mm_events := mm_events m; mm_approvals := held l;
         mm_checkpoints := mm_checkpoints m; mm_calls := mm_calls m; mm_commands := mm_commands m |}).
Definition on_checkpoints (f : store_op (gmap N AgentCheckpoint) unit) (m : Memory) : result AgentStoreError unit * Memory :=
  let '(r, l) := f {| poisoned := false; held := mm_checkpoints m |} in
  (r, {| mm_runs := mm_runs m; mm_events := mm_events m; mm_approvals := mm_approvals m;
         mm_checkpoints := held l; mm_calls := mm_calls m; mm_commands := mm_commands m |}).
Definition on_calls (f : store_op (gmap N PreparedToolCall) unit) (m : Memory) : result AgentStoreError unit * Memory :=
  let '(r, l) := f {| poisoned := false; held := mm_calls m |} in
  (r, {| mm_runs := mm_runs m; mm_events := mm_events m; mm_approvals := mm_approvals m;
         mm_checkpoints := mm_checkpoints m; mm_calls := held l; mm_commands := mm_commands m |}).
Definition on_commands (f : store_op (gmap N PreparedCommandProposal) unit) (m : Memory) : result AgentStoreError unit * Memory :=
  let '(r, l) := f {| poisoned := false; held := mm_commands m |} in
  (r, {| mm_runs := mm_runs m; mm_events := mm_events m; mm_approvals := mm_approvals m;
         mm_checkpoints := mm_checkpoints m; mm_calls := mm_calls m; mm_commands := held l |}).

(** ** What the tables hold of it *)
Definition run_fits (r : AgentRun) : Prop :=
  fits64 (created_at_epoch_ms r) /\ fits64 (updated_at_epoch_ms r) /\ fits64 (next_event_seq r) /\ (1 <= next_event_seq r)%N.
Definition run_is (id : Uuid) (r : AgentRun) (row : RunRow) : Prop :=
  run_id r = id /\ run_fits r /\ rr_state row = state_name (run_state r) /\ rr_next_event_seq row = as_i64 (next_event_seq r) /\
  rr_created_at row = as_i64 (created_at_epoch_ms r) /\ rr_updated_at row = as_i64 (updated_at_epoch_ms r).

Definition event_fits (e : AgentEventEnvelope) : Prop :=
  fits64 (ev_seq e) /\ fits64 (ev_timestamp_epoch_ms e) /\ survives (ev_event e).
Record log_stored (id : Uuid) (log : list AgentEventEnvelope) (rows : list EventRow) : Prop := {
  ls_rows : rows = map event_row log;
  ls_sorted : StronglySorted (fun a b => ev_seq a < ev_seq b)%N log;
  ls_events : Forall (fun e => ev_run_id e = id /\ (0 < ev_seq e)%N /\ fits63 (ev_seq e) /\ event_fits e) log;
}.

Definition approval_fits (a : ApprovalRequest) : Prop :=
  fits64 (ap_policy_version a) /\ from_option fits64 True (ap_change_set_version a) /\
  fits64 (ap_created_at_epoch_ms a) /\ from_option fits64 True (ap_decided_at_epoch_ms a).
Definition approval_is (id : Uuid) (a : ApprovalRequest) (row : ApprovalRow) : Prop :=
  ap_id a = id /\ approval_fits a /\ row = approval_row None a.

Definition checkpoint_fits (c : AgentCheckpoint) : Prop :=
  fits64 (cp_event_cursor c) /\ fits64 (cp_created_at_epoch_ms c) /\ from_option survives True (cp_pending_interrupt c) /\
  representable (cp_budget c) /\ cp_fact_snapshot c <> [].
Definition checkpoint_is (id : Uuid) (c : AgentCheckpoint) (row : CheckpointRow) : Prop :=
  cp_run_id c = id /\ checkpoint_fits c /\ exists now, row = checkpoint_row now None c.

(** One entry or none on both sides. *)
Definition same_entry {A R} (P : A -> R -> Prop) (a : option A) (r : option R) : Prop :=
  match a, r with Some a, Some r => P a r | None, None => True | _, _ => False end.
Definition known_keys {R} (table : gmap str R) : Prop := forall key, is_Some (table !! key) -> exists id, key = uuid_display id.

Definition pending_is (id : Uuid) (call : option PreparedToolCall) (command : option PreparedCommandProposal)
    (row : option str) : Prop :=
  match call, command with
  | Some c, None => tool_call_id c = id /\ survives c /\ row = Some (redacted (to_json c))
  | None, Some c => command_id c = id /\ from_json (to_json c) = Some c /\ row = Some (to_json c)
  | None, None => row = None
  | Some _, Some _ => False
  end.

Record stored (d : AgentDb) (m : Memory) : Prop := {
  st_runs id : same_entry (run_is id) (mm_runs m !! id) (db_runs d !! uuid_display id);
  st_events id : log_stored id (default [] (mm_events m !! id)) (List.filter (of_run (uuid_display id)) (db_events d));
  st_approvals id : same_entry (approval_is id) (mm_approvals m !! id) (db_approvals d !! uuid_display id);
  st_approval_keys : known_keys (db_approvals d);
  st_checkpoints id : same_entry (checkpoint_is id) (mm_checkpoints m !! id) (db_checkpoints d !! uuid_display id);
  st_pending id : pending_is id (mm_calls m !! id) (mm_commands m !! id) (db_pending d !! uuid_display id);
  st_run_keys : known_keys (db_runs d);
}.

(** The tables that [stored] is about. *)
Definition same_core (d d' : AgentDb) : Prop :=
  db_runs d' = db_runs d /\ db_events d' = db_events d /\ db_approvals d' = db_approvals d /\
  db_checkpoints d' = db_checkpoints d /\ db_pending d' = db_pending d.
Lemma stored_core d d' m : same_core d d' -> stored d m -> stored d' m.
Proof. intros (Hr & He & Ha & Hc & Hp) [? ? ? ? ? ? ?]. split; intros; rewrite ?Hr, ?He, ?Ha, ?Hc, ?Hp; auto. Qed.

Lemma stored_empty : stored empty_db no_memory.
Proof.
  split; cbn; intros; rewrite ?lookup_empty; try done.
  - split; [done|constructor..].
  - intros key [row Hrow]. by rewrite lookup_empty in Hrow.
  - intros key [row Hrow]. by rewrite lookup_empty in Hrow.
Qed.

(** ** Statements *)
Lemma sql_bind_ok {A B} (p : Sql A) (f : A -> Sql B) o d b o' d' :
  (p ≫= f) o d = (Ok b, o', d') -> exists a o1 d1, p o d = (Ok a, o1, d1) /\ f a o1 d1 = (Ok b, o', d').
Proof. unfold mbind, sql_bind. destruct (p o d) as [[[a|e] o1] d1]; [eauto 10|done]. Qed.
Lemma statement_ok {A} e (f : AgentDb -> option (A * AgentDb)) o d a o' d' :
  statement e f o d = (Ok a, o', d') -> f d = Some (a, d').
Proof. unfold statement. destruct (default _ _); [done|]. destruct (f d) as [[x y]|]; [by intros [= -> _ ->]|done]. Qed.
Lemma query_ok {A} e (f : AgentDb -> A) o d a o' d' : query e f o d = (Ok a, o', d') -> a = f d /\ d' = d.
Proof. by intros [= -> ->]%statement_ok. Qed.
Lemma execute_ok f o d o' d' : execute f o d = (Ok tt, o', d') -> f d = Some d'.
Proof. intros Hf%statement_ok. destruct (f d); cbn in Hf; congruence. Qed.
Lemma select_ok {A} (f : AgentDb -> A) o d a o' d' : select f o d = (Ok a, o', d') -> a = f d /\ d' = d.
Proof. intros (u & o1 & d1 & [_ ->]%query_ok & Hq)%sql_bind_ok. by apply query_ok in Hq. Qed.
Lemma lift_ok {A} (r : result AgentStoreError A) o d a o' d' : sql_lift r o d = (Ok a, o', d') -> r = Ok a /\ d' = d.
Proof. by intros [= -> _ ->]. Qed.
Lemma with_tx_ok {A} (f : Sql A) o l a l' :
  with_tx f o l = (Ok a, l') -> exists o1 d', f (tail o) (held l) = (Ok a, o1, d') /\ l' = {| poisoned := false; held := d' |}.
Proof.
  unfold with_tx. destruct (poisoned l); [done|]. destruct (default _ _); [done|].
  destruct (f _ _) as [[[x|e] o1] d'] eqn:Hf; [|done]. destruct (default _ _); [done|]. intros [= -> <-]. eauto.
Qed.
Lemma with_tx_err {A} (f : Sql A) o l e l' : with_tx f o l = (Err e, l') -> l' = l.
Proof.
  unfold with_tx. destruct (poisoned l); [congruence|]. destruct (default _ _); [congruence|].
  destruct (f _ _) as [[[x|e'] o1] d'] eqn:Hf; [|congruence]. destruct (default _ _); congruence.
Qed.

(** A body that succeeds does what a write in memory does. *)
Definition simulates (p : Sql unit) (w : Memory -> result AgentStoreError unit * Memory) (m : Memory) : Prop :=
  forall o d o' d', stored d m -> p o d = (Ok tt, o', d') -> exists m', w m = (Ok tt, m') /\ stored d' m'.

Definition then_memory (w1 w2 : Memory -> result AgentStoreError unit * Memory) (m : Memory) :
    result AgentStoreError unit * Memory :=
  match w1 m with (Ok _, m1) => w2 m1 | (Err e, _) => (Err e, m) end.

Lemma simulates_then p1 p2 w1 w2 m :
  simulates p1 w1 m -> (forall m1, w1 m = (Ok tt, m1) -> simulates p2 w2 m1) ->
  simulates (p1 ;; p2) (then_memory w1 w2) m.
Proof.
  intros H1' H2' o d o' d' Hd (u & o1 & d1 & Hp1 & Hp2)%sql_bind_ok. destruct u.
  destruct (H1' _ _ _ _ Hd Hp1) as (m1 & Hw & Hd1). unfold then_memory. rewrite Hw. by eapply H2'.
Qed.

(** ** Each write *)
Lemma display_inj a b : uuid_display a = uuid_display b -> a = b.
Proof. intros Hd. enough (Some a = Some b) by congruence. by rewrite <- !sql_uuid, Hd. Qed.

Lemma same_entry_insert {A R} (P : Uuid -> A -> R -> Prop) (mem : gmap N A) (table : gmap str R) (id : Uuid) a row :
  (forall i, same_entry (P i) (mem !! i) (table !! uuid_display i)) -> P id a row ->
  forall i, same_entry (P i) (<[id := a]> mem !! i) (<[uuid_display id := row]> table !! uuid_display i).
Proof.
  intros Hall Hp i. destruct (decide (i = id)) as [->|Hi]; [by rewrite !lookup_insert_eq|].
  rewrite !lookup_insert_ne; [apply Hall|by intros ->%display_inj|congruence].
Qed.

Lemma known_keys_insert {R} (table : gmap str R) id row : known_keys table -> known_keys (<[uuid_display id := row]> table).
Proof. intros Hk key [x [[<- _]|[_ Hx]]%lookup_insert_Some]; [eauto|]. apply Hk. eauto. Qed.

(** What may be written over what there is. *)
Definition run_over (r : AgentRun) (m : Memory) : Prop :=
  run_fits r /\ forall old, mm_runs m !! run_id r = Some old -> created_at_epoch_ms old = created_at_epoch_ms r.
Definition run_put (r : AgentRun) : store_op run_map unit := with_write (fun runs => (Ok tt, <[run_id r := r]> runs)).

Lemma simulates_upsert_run r m : run_over r m -> simulates (upsert_run r) (on_runs (run_put r)) m.
Proof.
  intros [Hfits Hold] o d o' d' [? ? ? ? ? ? ?] [= <-]%execute_ok. eexists. split; [reflexivity|].
  split; cbn; intros; auto; [|by apply known_keys_insert]. apply same_entry_insert; [done|]. split; [done|]. split; [done|].
  specialize (st_runs0 (run_id r)). destruct (mm_runs m !! run_id r) as [old|] eqn:Hm, (db_runs d !! _) as [row|] eqn:Hd; cbn in st_runs0;
    try done. destruct st_runs0 as (_ & _ & _ & _ & Hc & _). rewrite (Hold old eq_refl) in Hc. by split_and!.
Qed.

Lemma has_row_ok {R} (table : AgentDb -> gmap str R) key o d b o' d' :
  has_row table key o d = (Ok b, o', d') -> b = bool_decide (is_Some (table d !! key)) /\ d' = d.
Proof. intros Hq. unfold has_row in Hq. by apply query_ok in Hq. Qed.

Lemma same_entry_some {A R} (P : A -> R -> Prop) a r : same_entry P a r -> bool_decide (is_Some r) = bool_decide (is_Some a).
Proof. destruct a, r; cbn; intros Hs; try done; by case_bool_decide; case_bool_decide; try naive_solver. Qed.

Lemma same_entry_is_some {A R} (P : A -> R -> Prop) a r : same_entry P a r -> is_Some a -> is_Some r.
Proof. intros Hs [x ->]. destruct r; [eauto|done]. Qed.

Lemma simulates_insert_run r m : run_fits r -> simulates (insert_run_new r) (on_runs (run_insert r)) m.
Proof.
  intros Hfits o d o' d' Hd (b & o1 & d1 & [-> ->]%has_row_ok & Hb)%sql_bind_ok.
  rewrite (same_entry_some _ _ _ (st_runs _ _ Hd (run_id r))) in Hb.
  case_bool_decide as Hm; [done|].
  assert (Hr : run_over r m) by (split; [done|]; intros old Ho; destruct Hm; eauto).
  destruct (simulates_upsert_run r m Hr _ _ _ _ Hd Hb) as (m' & Hw & Hm').
  exists m'. split; [|done]. rewrite <- Hw. unfold on_runs, run_insert, run_put, with_write. cbn. by rewrite bool_decide_false.
Qed.

Lemma simulates_save_run r m : run_over r m -> simulates (save_existing r) (on_runs (run_save r)) m.
Proof.
  intros Hr o d o' d' Hd (b & o1 & d1 & [-> ->]%has_row_ok & Hb)%sql_bind_ok.
  rewrite (same_entry_some _ _ _ (st_runs _ _ Hd (run_id r))) in Hb.
  case_bool_decide as Hm; [|done]. destruct (simulates_upsert_run r m Hr _ _ _ _ Hd Hb) as (m' & Hw & Hm').
  exists m'. split; [|done]. rewrite <- Hw. unfold on_runs, run_save, run_put, with_write. cbn. by rewrite bool_decide_true.
Qed.

(** *** Events *)
Lemma max_from_base (z : Z) (l : list Z) : (z <= foldl Z.max z l)%Z /\ forall x, x ∈ l -> (x <= foldl Z.max z l)%Z.
Proof.
  revert z. induction l as [|y l IH]; intros z; cbn; [split; [lia|by intros x Hx%elem_of_nil]|].
  destruct (IH (Z.max z y)) as [Hb Hl]. split; [lia|]. intros x [->|Hx]%elem_of_cons; [lia|auto].
Qed.
Lemma max_in (z : Z) (l : list Z) : foldl Z.max z l = z \/ foldl Z.max z l ∈ l.
Proof.
  revert z. induction l as [|y l IH]; intros z; cbn; [by left|].
  destruct (IH (Z.max z y)) as [Hm|Hm]; [|right; set_solver]. rewrite Hm.
  destruct (Z.max_spec z y) as [[_ ->]|[_ ->]]; [right; set_solver|by left].
Qed.

Lemma max_seq_log id log rows :
  log_stored id log rows -> max_seq (map er_seq rows) = Z.of_N (from_option ev_seq 0%N (last log)).
Proof.
  intros [-> Hs He]. rewrite map_map. cbn [event_row er_seq].
  assert (Hmap : map (fun e => as_i64 (ev_seq e)) log = map (fun e => Z.of_N (ev_seq e)) log).
  { apply map_ext_in. intros e Hin%list_elem_of_In. rewrite Forall_forall in He. apply as_i64_small. by apply He. }
  rewrite Hmap. clear Hmap. destruct (last log) as [y|] eqn:Hy; cbn.
  2: { apply last_None in Hy as ->. done. }
  destruct log as [|x log]; [done|]. cbn [map max_seq].
  assert (Hmax : forall e, e ∈ x :: log -> (ev_seq e <= ev_seq y)%N).
  { intros e Hin. destruct (StronglySorted_last _ _ y e Hs Hy Hin) as [->|]; lia. }
  assert (Hin : y ∈ x :: log) by (apply last_Some_elem_of in Hy; done).
  destruct (max_from_base (Z.of_N (ev_seq x)) (map (fun e => Z.of_N (ev_seq e)) log)) as [Hb Hl].
  assert (Hge : (Z.of_N (ev_seq y) <= foldl Z.max (Z.of_N (ev_seq x)) (map (fun e => Z.of_N (ev_seq e)) log))%Z).
  { apply elem_of_cons in Hin as [->|Hin]; [done|]. apply Hl, list_elem_of_fmap. eauto. }
  destruct (max_in (Z.of_N (ev_seq x)) (map (fun e => Z.of_N (ev_seq e)) log)) as [Hm|Hm].
  - specialize (Hmax x ltac:(set_solver)). lia.
  - apply list_elem_of_fmap_1 in Hm as (e & Hm & Hine). specialize (Hmax e ltac:(set_solver)). lia.
Qed.

Lemma of_run_event key e : of_run key (event_row e) = str_eqb (uuid_display (ev_run_id e)) key.
Proof. done. Qed.
Lemma str_eqb_display a b : str_eqb (uuid_display a) (uuid_display b) = (a =? b)%N.
Proof.
  destruct (N.eqb_spec a b) as [->|Hne]; [by rewrite str_eqb_refl|].
  apply not_true_iff_false. by intros ->%str_eqb_eq%display_inj.
Qed.

Lemma simulates_append e m : event_fits e -> simulates (append_event e) (on_events (event_append e)) m.
Proof.
  intros (Hseq & Hts & Hsv) o d o' d' Hd (last_ & o1 & d1 & [-> ->]%query_ok & Hp)%sql_bind_ok.
  apply sql_bind_ok in Hp as (u & o2 & d2 & [Hlt ->]%lift_ok & Hp). apply reject_if_ok, Z.leb_gt in Hlt.
  rewrite (max_seq_log _ _ _ (st_events _ _ Hd (ev_run_id e))) in Hlt.
  apply execute_ok in Hp. destruct (bool_decide _ && _); [|done]. injection Hp as <-.
  set (log := default [] (mm_events m !! ev_run_id e)) in *.
  assert (Hsmall : fits63 (ev_seq e)) by (eapply as_i64_pos; [done|]; split; [|exact Hlt]; lia).
  rewrite as_i64_small in Hlt by done.
  assert (Hmem : (ev_seq e <=? from_option ev_seq 0%N (last log))%N = false) by (apply N.leb_gt; lia).
  unfold on_events, event_append, with_write. cbn. fold log. rewrite Hmem. eexists. split; [reflexivity|].
  destruct Hd as [? Hev ? ? ? ? ?]. split; cbn; intros; auto.
  rewrite List.filter_app. cbn [List.filter]. rewrite of_run_event, str_eqb_display.
  destruct (N.eqb_spec (ev_run_id e) id) as [<-|Hne].
  2: { rewrite lookup_insert_ne by done. rewrite app_nil_r. apply Hev. }
  rewrite lookup_insert_eq. cbn. destruct (Hev (ev_run_id e)) as [Hrows Hs He]. fold log in Hrows, Hs, He.
  assert (Hok : log_ok (ev_run_id e) (log ++ [e])).
  { apply log_ok_snoc; [split; [done|]|done|by apply N.leb_gt in Hmem].
    eapply Forall_impl; [exact He|]. by intros x (? & ? & _). }
  split.
  - by rewrite Hrows, map_app.
  - apply Hok.
  - apply Forall_app. split; [done|]. apply Forall_singleton. split_and!; try done. lia.
Qed.

Lemma put_result_core id row o d o' d' : put_result id row o d = (Ok tt, o', d') -> same_core d d'.
Proof. intros Hp%execute_ok. case_bool_decide; [|done]. by injection Hp as <-. Qed.
Lemma ignored_core p o d o' d' :
  (forall o0 d0 r o1 d1, p o0 d0 = (r, o1, d1) -> same_core d0 d1) -> ignored p o d = (Ok tt, o', d') -> same_core d d'.
Proof. unfold ignored. intros Hp. destruct (p o d) as [[r o1] d1] eqn:Hr. intros [= _ <-]. by eapply Hp. Qed.
Lemma same_core_refl d : same_core d d.
Proof. done. Qed.
Lemma same_core_trans d1 d2 d3 : same_core d1 d2 -> same_core d2 d3 -> same_core d1 d3.
Proof. unfold same_core. intuition congruence. Qed.
Lemma change_call_core f id o d r o' d' : change_call f id o d = (r, o', d') -> same_core d d'.
Proof. unfold change_call, execute, statement. destruct (default _ _); cbn; by intros [= _ _ <-]. Qed.
Lemma add_message_core fresh role content e o d o' d' : add_message fresh role content e o d = (Ok tt, o', d') -> same_core d d'.
Proof. intros Hp%execute_ok. destruct (bool_decide _ && _); [|done]. by injection Hp as <-. Qed.

Lemma ret_core o d o' d' : (mret tt : Sql unit) o d = (Ok tt, o', d') -> same_core d d'.
Proof. unfold mret, sql_ret. by intros [= _ <-]. Qed.

Lemma project_core fresh e o d o' d' : project_event_side_tables fresh e o d = (Ok tt, o', d') -> same_core d d'.
Proof.
  unfold project_event_side_tables.
  destruct (ev_event e); try apply ret_core; try apply add_message_core;
    try (apply ignored_core; intros; by eapply change_call_core).
  - intros Hp%execute_ok. repeat case_bool_decide; try done; by injection Hp as <-.
  - intros (u & o1 & d1 & Hi & Hp)%sql_bind_ok. destruct u. eapply same_core_trans; [|by eapply put_result_core].
    eapply ignored_core; [|exact Hi]. intros. by eapply change_call_core.
  - intros (u & o1 & d1 & Hi & Hp)%sql_bind_ok. destruct u. eapply same_core_trans; [|by eapply put_result_core].
    eapply ignored_core; [|exact Hi]. intros. by eapply change_call_core.
  - intros Hp%execute_ok. destruct (bool_decide _ && _); [|done]. by injection Hp as <-.
Qed.

Lemma simulates_append_projected fresh e m :
  event_fits e -> simulates (append_projected fresh e) (on_events (event_append e)) m.
Proof.
  intros He o d o' d' Hd (u & o1 & d1 & Ha & Hp)%sql_bind_ok. destruct u.
  destruct (simulates_append e m He _ _ _ _ Hd Ha) as (m' & Hw & Hm'). exists m'. split; [done|].
  eapply stored_core; [by eapply project_core|done].
Qed.

(** *** Approvals *)

(** All but the decision is as it was. *)
Definition same_binding (a b : ApprovalRequest) : Prop :=
  ap_run_id a = ap_run_id b /\ ap_tool_call_id a = ap_tool_call_id b /\ ap_tool_name a = ap_tool_name b /\
  ap_arguments_hash a = ap_arguments_hash b /\ ap_target_ids a = ap_target_ids b /\ ap_risk a = ap_risk b /\
  ap_policy_version a = ap_policy_version b /\ ap_policy_hash a = ap_policy_hash b /\
  ap_precondition_ref a = ap_precondition_ref b /\ ap_change_set_id a = ap_change_set_id b /\
  ap_change_set_version a = ap_change_set_version b /\ ap_created_at_epoch_ms a = ap_created_at_epoch_ms b.
Definition approval_over (a : ApprovalRequest) (m : Memory) : Prop :=
  approval_fits a /\ forall old, mm_approvals m !! ap_id a = Some old -> same_binding old a.

Lemma approval_row_over old a : same_binding old a -> approval_row (Some (approval_row None old)) a = approval_row None a.
Proof. intros (? & ? & ? & ? & ? & ? & ? & ? & ? & ? & ? & ?). cbn. congruence. Qed.


Lemma simulates_upsert_approval a m : approval_over a m -> simulates (upsert_approval a) (on_approvals (approval_insert a)) m.
Proof.
  intros [Hfits Hold] o d o' d' [? ? Hap ? ? ? ?] Hp%execute_ok. cbv zeta in Hp. destruct (_ || _); [|done]. injection Hp as <-.
  eexists. split; [reflexivity|]. split; cbn; intros; auto; [|by apply known_keys_insert].
  apply same_entry_insert; [done|]. split; [done|]. split; [done|].
  specialize (Hap (ap_id a)). destruct (mm_approvals m !! ap_id a) as [old|] eqn:Hm, (db_approvals d !! _) as [row|] eqn:Hd; cbn in Hap;
    try done. destruct Hap as (_ & _ & ->). apply approval_row_over. by apply Hold.
Qed.

Lemma simulates_save_approval a m : approval_over a m -> simulates (save_existing_approval a) (on_approvals (approval_save a)) m.
Proof.
  intros Ha o d o' d' Hd (b & o1 & d1 & [-> ->]%has_row_ok & Hb)%sql_bind_ok.
  rewrite (same_entry_some _ _ _ (st_approvals _ _ Hd (ap_id a))) in Hb.
  case_bool_decide as Hm; [|done]. destruct (simulates_upsert_approval a m Ha _ _ _ _ Hd Hb) as (m' & Hw & Hm').
  exists m'. split; [|done]. rewrite <- Hw. unfold on_approvals, approval_save, approval_insert, with_write. cbn.
  by rewrite bool_decide_true.
Qed.

(** *** Checkpoints and pending actions *)
Definition checkpoint_over (c : AgentCheckpoint) (m : Memory) : Prop :=
  checkpoint_fits c /\
  forall old, mm_checkpoints m !! cp_run_id c = Some old -> cp_created_at_epoch_ms old = cp_created_at_epoch_ms c.

Lemma simulates_upsert_checkpoint now c m :
  checkpoint_over c m -> simulates (upsert_checkpoint now c) (on_checkpoints (checkpoint_save c)) m.
Proof.
  intros [Hfits Hold] o d o' d' [? ? ? ? Hck ? ?] Hp%execute_ok. cbv zeta in Hp. destruct (_ || _); [|done]. injection Hp as <-.
  eexists. split; [reflexivity|]. split; cbn; intros; auto.
  apply same_entry_insert; [done|]. split; [done|]. split; [done|]. exists now.
  specialize (Hck (cp_run_id c)).
  destruct (mm_checkpoints m !! cp_run_id c) as [old|] eqn:Hm, (db_checkpoints d !! _) as [row|] eqn:Hd; cbn in Hck; try done.
  destruct Hck as (_ & _ & now' & ->). unfold checkpoint_row. cbn. by rewrite (Hold old eq_refl).
Qed.

Definition call_over (c : PreparedToolCall) (m : Memory) : Prop := survives c /\ mm_commands m !! tool_call_id c = None.
Definition command_over (c : PreparedCommandProposal) (m : Memory) : Prop :=
  representable c /\ mm_calls m !! command_id c = None.

Lemma put_row_ok id json o d o' d' :
  put_row id json o d = (Ok tt, o', d') -> d' = set_pending (<[uuid_display id := json]> (db_pending d)) d.
Proof. by intros [= <-]%execute_ok. Qed.

Lemma simulates_put_call c m : call_over c m -> simulates (put_pending_call c) (on_calls (pending_put c)) m.
Proof.
  intros [Hsv Hno] o d o' d' [? ? ? ? ? Hpe ?] (u & o1 & d1 & [_ ->]%lift_ok & ->%put_row_ok)%sql_bind_ok.
  eexists. split; [reflexivity|]. split; cbn; intros; auto.
  destruct (decide (id = tool_call_id c)) as [->|Hne]; [by rewrite !lookup_insert_eq, Hno|].
  rewrite !lookup_insert_ne; [apply Hpe|intros Hd%display_inj; congruence|congruence].
Qed.

Lemma simulates_put_command c m : command_over c m -> simulates (put_pending_command c) (on_commands (put_command c)) m.
Proof.
  intros [Hrep Hno] o d o' d' [? ? ? ? ? Hpe ?]. unfold put_pending_command. destruct (redact_secrets _) as [t b].
  intros (u & o1 & d1 & [_ ->]%lift_ok & ->%put_row_ok)%sql_bind_ok.
  eexists. split; [reflexivity|]. split; cbn; intros; auto.
  destruct (decide (id = command_id c)) as [->|Hne].
  - rewrite !lookup_insert_eq, Hno. split; [done|]. split; [by apply json_read_back|done].
  - rewrite !lookup_insert_ne; [apply Hpe|intros Hd%display_inj; congruence|congruence].
Qed.

Lemma delete_pending_ok id o d o' d' :
  delete_pending id o d = (Ok tt, o', d') -> d' = set_pending (delete (uuid_display id) (db_pending d)) d.
Proof. by intros [= <-]%execute_ok. Qed.

Lemma simulates_remove_call id m :
  mm_commands m !! id = None -> simulates (delete_pending id) (on_calls (pending_remove id)) m.
Proof.
  intros Hno o d o' d' [? ? ? ? ? Hpe ?] ->%delete_pending_ok. eexists. split; [reflexivity|]. split; cbn; intros i; auto.
  destruct (decide (i = id)) as [->|Hne]; [by rewrite !lookup_delete_eq, Hno|].
  rewrite !lookup_delete_ne; [apply Hpe|intros Hd%display_inj; congruence|congruence].
Qed.

Lemma simulates_remove_command id m :
  mm_calls m !! id = None -> simulates (delete_pending id) (on_commands (remove_command id)) m.
Proof.
  intros Hno o d o' d' [? ? ? ? ? Hpe ?] ->%delete_pending_ok. eexists. split; [reflexivity|]. split; cbn; intros i; auto.
  destruct (decide (i = id)) as [->|Hne]; [by rewrite !lookup_delete_eq, Hno|].
  rewrite !lookup_delete_ne; [apply Hpe|intros Hd%display_inj; congruence|congruence].
Qed.

(** ** Reads *)
Lemma run_read_back id r row : run_is id r row -> run_of_row (uuid_display id) row = Ok r.
Proof.
  intros (<- & (Hc & Hu & Hq & Hp) & Hs & Hn & Hcr & Hup). unfold run_of_row, parse_uuid. rewrite sql_uuid. cbn.
  rewrite Hs, parse_state_name. cbn. rewrite Hn, Hcr, Hup, !as_u64_i64 by done. unfold from_persisted.
  rewrite N.max_l by done. by destruct r.
Qed.

Lemma as_u64_i64_option o : from_option fits64 True o -> as_u64 <$> (as_i64 <$> o) = o.
Proof. destruct o as [n|]; cbn; [|done]. intros Hn. by rewrite as_u64_i64. Qed.

Lemma approval_read_back id a row : approval_is id a row -> approval_of_row (uuid_display id) row = Ok a.
Proof.
  intros (<- & (Hp & Hv & Hc & Hd) & ->). unfold approval_of_row, parse_uuid, read_json. cbn.
  rewrite ids_read_back. cbn. rewrite !sql_uuid. cbn.
  assert (Hchange : read_option (fun raw => ok_or (uuid_parse raw) StoreCorrupt) (uuid_display <$> ap_change_set_id a) = Ok (ap_change_set_id a)).
  { destruct (ap_change_set_id a); cbn; [by rewrite sql_uuid|done]. }
  unfold parse_uuid. rewrite Hchange. cbn. rewrite parse_approval_name. cbn.
  rewrite !as_u64_i64, !as_u64_i64_option by done. by destruct a.
Qed.

Lemma checkpoint_read_back id c row : checkpoint_is id c row -> checkpoint_of_row (uuid_display id) row = Ok c.
Proof.
  intros (<- & (Hcur & Hcr & Hint & Hb & Hf) & now & ->). unfold checkpoint_of_row, parse_uuid, read_json. cbn.
  assert (Hpending : read_option (fun raw => ok_or (from_json raw) StoreCorrupt) ((fun p => redacted (to_json p)) <$> cp_pending_interrupt c)
                     = Ok (cp_pending_interrupt c)).
  { destruct (cp_pending_interrupt c) as [p|]; cbn in *; [|done]. unfold survives in Hint. by rewrite Hint. }
  unfold read_json. cbn in Hpending. rewrite Hpending. cbn. rewrite sql_uuid. cbn. rewrite parse_state_name. cbn.
  rewrite (json_read_back (cp_budget c)) by done. cbn. rewrite ids_read_back. cbn. rewrite !as_u64_i64 by done.
  destruct (is_empty _) eqn:He; [by apply is_empty_true in He|]. by destruct c.
Qed.

Lemma event_read_back id e :
  ev_run_id e = id /\ (0 < ev_seq e)%N /\ fits63 (ev_seq e) /\ event_fits e -> event_of_row (event_row e) = Ok e.
Proof.
  intros (<- & _ & _ & Hs & Ht & Hv). unfold event_of_row, parse_uuid, read_json. cbn. unfold survives in Hv.
  rewrite Hv. cbn. rewrite sql_uuid. cbn. rewrite !as_u64_i64 by done. by destruct e.
Qed.

Lemma try_map_back {A B} (f : A -> result AgentStoreError B) (g : B -> A) l :
  (forall b, b ∈ l -> f (g b) = Ok b) -> try_map f (map g l) = Ok l.
Proof.
  induction l as [|b l IH]; cbn; intros Hf; [done|]. rewrite Hf by set_solver. cbn. rewrite IH; [done|]. set_solver.
Qed.

Lemma map_filter_comm {A B} (f : A -> B) (p : B -> bool) (q : A -> bool) l :
  (forall a, a ∈ l -> p (f a) = q a) -> List.filter p (map f l) = map f (List.filter q l).
Proof.
  induction l as [|a l IH]; cbn; intros Hp; [done|]. rewrite (Hp a ltac:(set_solver)), IH by set_solver. by destruct (q a).
Qed.

Lemma filter_andb {A} (p q : A -> bool) l : List.filter (fun x => p x && q x) l = List.filter q (List.filter p l).
Proof. induction l as [|a l IH]; cbn; [done|]. destruct (p a); cbn; [by destruct (q a); rewrite IH|done]. Qed.

Lemma events_above_log d id log after :
  log_stored id log (List.filter (of_run (uuid_display id)) (db_events d)) -> fits63 after ->
  events_above (uuid_display id) (as_i64 after) d = map event_row (List.filter (fun e => after <? ev_seq e)%N log).
Proof.
  intros [Hr Hs He] Ha. unfold events_above. rewrite (filter_andb (of_run (uuid_display id))), Hr.
  rewrite Forall_forall in He.
  rewrite (map_filter_comm _ _ (fun e => after <? ev_seq e)%N).
  2: { intros e Hin. cbn. rewrite !as_i64_small by (try apply (He e Hin); done).
       destruct (N.ltb_spec after (ev_seq e)); [apply Z.ltb_lt|apply Z.ltb_ge]; lia. }
  unfold by_seq. apply sort_by_id.
  assert (Hs' : StronglySorted (fun a b => ev_seq a < ev_seq b)%N (List.filter (fun e => after <? ev_seq e)%N log)).
  { destruct (filter_above_split after log Hs) as (seen & Heq & _). rewrite Heq in Hs. by apply sorting.StronglySorted_app_1_r in Hs. }
  assert (Hf : forall e, e ∈ List.filter (fun e => after <? ev_seq e)%N log -> fits63 (ev_seq e)).
  { intros e [Hin _]%elem_of_filterb. apply (He e Hin). }
  revert Hs' Hf. generalize (List.filter (fun e => after <? ev_seq e)%N log). clear. intros l Hs Hf.
  induction Hs as [|a l Hs IH Ha]; cbn; constructor; [apply IH; set_solver|].
  apply Forall_forall. intros row (b & -> & Hb)%list_elem_of_fmap. rewrite Forall_forall in Ha. specialize (Ha b Hb).
  cbn. rewrite !as_i64_small by (apply Hf; set_solver). apply Z.leb_le. lia.
Qed.

Lemma read_entry {A R} (P : A -> R -> Prop) (read : R -> result AgentStoreError A) a r :
  same_entry P a r -> (forall a r, P a r -> read r = Ok a) -> read_option read r = Ok a.
Proof. destruct a, r; cbn; intros Hp Hr; try done. by rewrite (Hr _ _ Hp). Qed.

Lemma with_conn_ok {A} (f : Sql A) l r d' :
  poisoned l = false -> f [] (held l) = (r, [], d') -> fst (with_conn f [] l) = r.
Proof. unfold with_conn. by intros -> ->. Qed.

Section Reads.
Context (l : Locked AgentDb) (m : Memory) (Hl : poisoned l = false) (Hd : stored (held l) m).

Lemma reads_run id : fst (sqlite_get id [] l) = Ok (mm_runs m !! id).
Proof.
  apply with_conn_ok with (held l); [done|]. unfold load_run, mbind, sql_bind. cbn. unfold sql_lift.
  by rewrite (read_entry _ _ _ _ (st_runs _ _ Hd id) (run_read_back id)).
Qed.

Lemma reads_events id after : fits63 after ->
  fst (sqlite_events_after id after [] l) = Ok (List.filter (fun e => after <? ev_seq e)%N (default [] (mm_events m !! id))).
Proof.
  intros Ha. apply with_conn_ok with (held l); [done|]. unfold load_events_after, select, mbind, sql_bind. cbn. unfold sql_lift.
  pose proof (st_events _ _ Hd id) as Hlog. rewrite (events_above_log _ _ _ _ Hlog Ha). rewrite try_map_back; [done|].
  intros e [Hin _]%elem_of_filterb. pose proof (ls_events _ _ _ Hlog) as He. rewrite Forall_forall in He.
  by apply (event_read_back id), He.
Qed.

Lemma reads_approval id : fst (sqlite_approval_get id [] l) = Ok (mm_approvals m !! id).
Proof.
  apply with_conn_ok with (held l); [done|]. unfold load_approval, mbind, sql_bind. cbn. unfold sql_lift.
  by rewrite (read_entry _ _ _ _ (st_approvals _ _ Hd id) (approval_read_back id)).
Qed.

Lemma reads_checkpoint id : fst (sqlite_checkpoint_get id [] l) = Ok (mm_checkpoints m !! id).
Proof.
  apply with_conn_ok with (held l); [done|]. unfold load_checkpoint, mbind, sql_bind. cbn. unfold sql_lift.
  by rewrite (read_entry _ _ _ _ (st_checkpoints _ _ Hd id) (checkpoint_read_back id)).
Qed.

Lemma reads_call id : mm_commands m !! id = None -> fst (sqlite_pending_get id [] l) = Ok (mm_calls m !! id).
Proof.
  intros Hno. apply with_conn_ok with (held l); [done|]. unfold load_pending, mbind, sql_bind. cbn. unfold sql_lift.
  pose proof (st_pending _ _ Hd id) as Hp. unfold pending_is in Hp. rewrite Hno in Hp. destruct (mm_calls m !! id) as [c|].
  - destruct Hp as (_ & Hsv & Hrow). unfold survives in Hsv. rewrite Hrow. cbn. unfold read_json. cbn in Hsv. by rewrite Hsv.
  - by rewrite Hp.
Qed.

Lemma reads_command id : mm_calls m !! id = None -> fst (sqlite_get_command id [] l) = Ok (mm_commands m !! id).
Proof.
  intros Hno. apply with_conn_ok with (held l); [done|]. unfold load_pending, mbind, sql_bind. cbn. unfold sql_lift.
  pose proof (st_pending _ _ Hd id) as Hp. unfold pending_is in Hp. rewrite Hno in Hp. destruct (mm_commands m !! id) as [c|].
  - destruct Hp as (_ & Hsv & Hrow). rewrite Hrow. cbn. unfold read_json. by rewrite Hsv.
  - by rewrite Hp.
Qed.

Lemma reads_pending_approval id :
  exists found, fst (sqlite_pending_for_run id [] l) = Ok found /\
    match found with
    | Some a => mm_approvals m !! ap_id a = Some a /\ pending_of id a = true
    | None => forall i a, mm_approvals m !! i = Some a -> pending_of id a = false
    end.
Proof.
  assert (Hrow : forall i a row, approval_is i a row -> pending_row (uuid_display id) (uuid_display i, row) = pending_of id a).
  { intros i a row (_ & _ & ->). unfold pending_row, pending_of. cbn. rewrite str_eqb_display. f_equal.
    by destruct (ap_state a). }
  unfold sqlite_pending_for_run. destruct (List.find (pending_row (uuid_display id)) (scan (db_approvals (held l)))) as [[key row]|] eqn:Hf.
  - destruct (find_some_b _ _ _ Hf) as [Hin Hp]. rewrite (sql_scan _ (db_approvals (held l))) in Hin. apply elem_of_map_to_list in Hin.
    destruct (st_approval_keys _ _ Hd key ltac:(eauto)) as [i ->]. pose proof (st_approvals _ _ Hd i) as Hs. rewrite Hin in Hs.
    destruct (mm_approvals m !! i) as [a|] eqn:Ha; [|done]. cbn in Hs. exists (Some a). split.
    + apply with_conn_ok with (held l); [done|]. unfold load_pending_for_run, load_approval, mbind, sql_bind. cbn. rewrite Hf. cbn.
      unfold sql_lift, parse_uuid. rewrite sql_uuid. cbn. rewrite Hin. cbn. by rewrite (approval_read_back _ _ _ Hs).
    + rewrite <- (Hrow _ _ _ Hs). destruct Hs as (-> & _). done.
  - exists None. split.
    + apply with_conn_ok with (held l); [done|]. unfold load_pending_for_run, mbind, sql_bind. cbn. by rewrite Hf.
    + intros i a Ha. pose proof (st_approvals _ _ Hd i) as Hs. rewrite Ha in Hs.
      destruct (db_approvals (held l) !! uuid_display i) as [row|] eqn:Hi; [|done]. cbn in Hs. rewrite <- (Hrow _ _ _ Hs).
      apply (proj1 (find_none_b _ _) Hf). rewrite (sql_scan _ (db_approvals (held l))). by apply elem_of_map_to_list.
Qed.
End Reads.

(** ** Sessions *)
Inductive StoreCall :=
  | ScInsert (r : AgentRun) | ScSave (r : AgentRun) | ScAppend (fresh : Uuid) (e : AgentEventEnvelope)
  | ScApprove (a : ApprovalRequest) | ScSaveApproval (a : ApprovalRequest) | ScCheckpoint (now : N) (c : AgentCheckpoint)
  | ScPut (c : PreparedToolCall) | ScRemove (id : Uuid) | ScPutCommand (c : PreparedCommandProposal)
  | ScRemoveCommand (id : Uuid)
  | ScBundle (fresh : nat -> Uuid) (now : N) (r : AgentRun) (events : list AgentEventEnvelope) (c : AgentCheckpoint)
             (approval : option ApprovalRequest) (call : option PreparedToolCall).

Definition sqlite_call (c : StoreCall) : SqlOracle -> store_op AgentDb unit :=
  match c with
  | ScInsert r => sqlite_insert r
  | ScSave r => sqlite_save r
  | ScAppend fresh e => sqlite_append fresh e
  | ScApprove a => sqlite_approval_insert a
  | ScSaveApproval a => sqlite_approval_save a
  | ScCheckpoint now c => sqlite_checkpoint_save now c
  | ScPut c => sqlite_put c
  | ScRemove id => sqlite_remove id
  | ScPutCommand c => sqlite_put_command c
  | ScRemoveCommand id => sqlite_remove_command id
  | ScBundle fresh now r events c approval call => persist_interrupt_bundle fresh now r events c approval call
  end.

Abbreviation write := (Memory -> result AgentStoreError unit * Memory) (only parsing).
Definition no_write : write := fun m => (Ok tt, m).
Fixpoint append_all (events : list AgentEventEnvelope) : write :=
  match events with
  | [] => no_write
  | e :: rest => then_memory (on_events (event_append e)) (append_all rest)
  end.

(** The same call on the stores in memory; the bundle, which they do not have, is its
    writes one after the other. *)
Definition memory_call (c : StoreCall) : write :=
  match c with
  | ScInsert r => on_runs (run_insert r)
  | ScSave r => on_runs (run_save r)
  | ScAppend _ e => on_events (event_append e)
  | ScApprove a => on_approvals (approval_insert a)
  | ScSaveApproval a => on_approvals (approval_save a)
  | ScCheckpoint _ c => on_checkpoints (checkpoint_save c)
  | ScPut c => on_calls (pending_put c)
  | ScRemove id => on_calls (pending_remove id)
  | ScPutCommand c => on_commands (put_command c)
  | ScRemoveCommand id => on_commands (remove_command id)
  | ScBundle _ _ r events c approval call =>
      then_memory (on_runs (run_put r))
        (then_memory (append_all events)
           (then_memory (on_checkpoints (checkpoint_save c))
              (then_memory (match approval with Some a => on_approvals (approval_insert a) | None => no_write end)
                           (match call with Some c => on_calls (pending_put c) | None => no_write end))))
  end.

(** What may be written: numbers of the width of a column, JSON that survives
    redaction, and over a record only what the code changes of it. *)
Definition may_write (c : StoreCall) (m : Memory) : Prop :=
  match c with
  | ScInsert r => run_fits r
  | ScSave r => run_over r m
  | ScAppend _ e => event_fits e
  | ScApprove a | ScSaveApproval a => approval_over a m
  | ScCheckpoint _ c => checkpoint_over c m
  | ScPut c => call_over c m
  | ScRemove id => mm_commands m !! id = None
  | ScPutCommand c => command_over c m
  | ScRemoveCommand id => mm_calls m !! id = None
  | ScBundle _ _ r events c approval call =>
      run_over r m /\ Forall event_fits events /\ checkpoint_over c m /\
      from_option (fun a => approval_over a m) True approval /\ from_option (fun c => call_over c m) True call
  end.

(** *** The writes touch one store each *)
Definition same_stores (m m' : Memory) : Prop :=
  mm_checkpoints m' = mm_checkpoints m /\ mm_approvals m' = mm_approvals m /\ mm_commands m' = mm_commands m.
Lemma on_runs_stores f m r m' : on_runs f m = (r, m') -> same_stores m m'.
Proof. unfold on_runs. destruct (f _) as [x l]. by intros [= _ <-]. Qed.
Lemma on_events_stores f m r m' : on_events f m = (r, m') -> same_stores m m'.
Proof. unfold on_events. destruct (f _) as [x l]. by intros [= _ <-]. Qed.
Lemma append_all_stores events m m' : append_all events m = (Ok tt, m') -> same_stores m m'.
Proof.
  revert m. induction events as [|e events IH]; intros m; cbn [append_all]; [by intros [= <-]|]. unfold then_memory.
  destruct (on_events _ m) as [[[]|?] m1] eqn:He; [|done]. intros Hr. apply IH in Hr. apply on_events_stores in He.
  unfold same_stores in *. intuition congruence.
Qed.

Lemma simulates_none m : simulates (mret tt) no_write m.
Proof. intros o d o' d' Hd Hr. unfold mret, sql_ret in Hr. injection Hr as _ <-. exists m. done. Qed.

Lemma simulates_append_all fresh events m k :
  Forall event_fits events ->
  simulates (for_each (fun x => append_projected (fst x) (snd x)) (imap (fun n e => (fresh (k + n)%nat, e)) events)) (append_all events) m.
Proof.
  revert m k. induction events as [|e events IH]; intros m k Hf; cbn; [apply simulates_none|].
  apply Forall_cons in Hf as [He Hf]. apply simulates_then; [by apply simulates_append_projected|]. intros m1 _.
  rewrite (imap_ext _ (fun n e => (fresh (S k + n)%nat, e))); [by apply IH|]. intros n x _. cbn. f_equal. f_equal. lia.
Qed.

Lemma simulates_bundle fresh now r events c approval call m :
  may_write (ScBundle fresh now r events c approval call) m ->
  simulates (write_bundle fresh now r events c approval call) (memory_call (ScBundle fresh now r events c approval call)) m.
Proof.
  intros (Hr & He & Hc & Ha & Hcall). unfold write_bundle. cbn [memory_call].
  apply simulates_then; [by apply simulates_upsert_run|]. intros m1 (Hck1 & Hap1 & Hco1)%on_runs_stores.
  apply simulates_then; [by apply (simulates_append_all fresh events m1 0)|]. intros m2 (Hck2 & Hap2 & Hco2)%append_all_stores.
  apply simulates_then.
  { apply simulates_upsert_checkpoint. destruct Hc as [Hf Hold]. split; [done|]. by rewrite Hck2, Hck1. }
  intros m3 Hm3. assert (Hm3' : mm_approvals m3 = mm_approvals m2 /\ mm_commands m3 = mm_commands m2).
  { unfold on_checkpoints, checkpoint_save, with_write in Hm3. cbn in Hm3. by injection Hm3 as <-. }
  destruct Hm3' as [Hap3 Hco3]. apply simulates_then.
  - destruct approval as [a|]; [|apply simulates_none]. apply simulates_upsert_approval. destruct Ha as [Hf Hold].
    split; [done|]. by rewrite Hap3, Hap2, Hap1.
  - intros m4 Hm4. assert (Hco4 : mm_commands m4 = mm_commands m3).
    { destruct approval as [a|]; [|by injection Hm4 as <-].
      unfold on_approvals, approval_insert, with_write in Hm4. cbn in Hm4. by injection Hm4 as <-. }
    destruct call as [x|]; [|apply simulates_none]. apply simulates_put_call. destruct Hcall as [Hs Hno].
    split; [done|]. by rewrite Hco4, Hco3, Hco2, Hco1.
Qed.

(** *** One call *)
Lemma tx_call (p : Sql unit) (w : write) o l m :
  simulates p w m -> stored (held l) m -> poisoned l = false ->
  match with_tx p o l with
  | (Ok _, l') => exists m', w m = (Ok tt, m') /\ stored (held l') m' /\ poisoned l' = false
  | (Err _, l') => l' = l
  end.
Proof.
  intros Hs Hd Hl. destruct (with_tx p o l) as [[u|e] l'] eqn:Hw; [|by eapply with_tx_err].
  destruct u. apply with_tx_ok in Hw as (o1 & d' & Hp & ->). destruct (Hs _ _ _ _ Hd Hp) as (m' & Hm & Hd'). by exists m'.
Qed.

Lemma conn_call (f : AgentDb -> option AgentDb) (w : write) o l m :
  simulates (execute f) w m -> stored (held l) m -> poisoned l = false ->
  match with_conn (execute f) o l with
  | (Ok _, l') => exists m', w m = (Ok tt, m') /\ stored (held l') m' /\ poisoned l' = false
  | (Err _, l') => l' = l
  end.
Proof.
  intros Hs Hd Hl. unfold with_conn. rewrite Hl. destruct (execute f o (held l)) as [[[u|e] o1] d'] eqn:Hp.
  - destruct u. destruct (Hs _ _ _ _ Hd Hp) as (m' & Hm & Hd'). by exists m'.
  - unfold execute, statement in Hp. destruct l as [b d]. cbn in *. subst b. f_equal.
    destruct (default _ _); [congruence|]. destruct (f d); cbn in Hp; congruence.
Qed.

Lemma call_refines c o l m :
  may_write c m -> stored (held l) m -> poisoned l = false ->
  match sqlite_call c o l with
  | (Ok _, l') => exists m', memory_call c m = (Ok tt, m') /\ stored (held l') m' /\ poisoned l' = false
  | (Err _, l') => l' = l
  end.
Proof.
  intros Hm Hd Hl. destruct c; cbn [sqlite_call]; try apply tx_call; try apply conn_call; try done; cbn in Hm.
  - by apply simulates_insert_run.
  - by apply simulates_save_run.
  - by apply simulates_append_projected.
  - by apply simulates_upsert_approval.
  - by apply simulates_save_approval.
  - by apply simulates_upsert_checkpoint.
  - by apply simulates_put_call.
  - by apply simulates_remove_call.
  - by apply simulates_put_command.
  - by apply simulates_remove_command.
  - by apply simulates_bundle.
Qed.

(** Calls to a new database, any of whose statements may fail, next to the stores in
    memory, which are given the calls that succeeded. *)
Inductive session : Locked AgentDb -> Memory -> Prop :=
  | session_opened : session {| poisoned := false; held := empty_db |} no_memory
  | session_called l m c o :
      session l m -> may_write c m ->
      session (snd (sqlite_call c o l)) (if is_ok (fst (sqlite_call c o l)) then snd (memory_call c m) else m).

Lemma session_stored l m : session l m -> stored (held l) m /\ poisoned l = false.
Proof.
  induction 1 as [|l m c o Hs [Hd Hl] Hm]; [split; [apply stored_empty|done]|].
  pose proof (call_refines c o l m Hm Hd Hl) as Hc. destruct (sqlite_call c o l) as [[u|e] l']; cbn.
  - by destruct Hc as (m' & -> & Hd' & Hl').
  - by subst l'.
Qed.

(** *** What is accepted *)

(** What a write refers to is there, and its text passes the guards. *)
Definition accepted_event (fresh : Uuid) (e : AgentEventEnvelope) (d : AgentDb) : Prop :=
  match ev_event e with
  | UserMessageAdded _ | AssistantMessageAdded _ => uuid_display fresh ∉ map me_id (db_messages d)
  | ToolCompleted id | ToolFailed id _ => is_Some (db_tool_calls d !! uuid_display id)
  | ObservationAdded _ => uuid_display fresh ∉ map ob_id (db_observations d)
  | _ => True
  end.
Definition accepted (c : StoreCall) (d : AgentDb) (m : Memory) : Prop :=
  match c with
  | ScAppend fresh e => is_Some (mm_runs m !! ev_run_id e) /\ fits63 (ev_seq e) /\ accepted_event fresh e d
  | ScApprove a => is_Some (mm_runs m !! ap_run_id a) \/ is_Some (mm_approvals m !! ap_id a)
  | ScCheckpoint _ c => is_Some (mm_runs m !! cp_run_id c) \/ is_Some (mm_checkpoints m !! cp_run_id c)
  | ScPut c => contains_any (to_ascii_lowercase (redacted (to_json c))) FORBIDDEN_FIELDS = false
  | ScPutCommand c => sensitive_line (to_json c) = false
  | ScBundle _ _ _ _ _ _ _ => False
  | _ => True
  end.

Lemma tx_result (p : Sql unit) l r :
  poisoned l = false -> (exists d', p [] (held l) = (r, [], d')) -> fst (with_tx p [] l) = r.
Proof. intros Hl [d' Hp]. unfold with_tx. rewrite Hl. cbn. rewrite Hp. by destruct r as [[]|]. Qed.

Lemma execute_runs f d d' : f d = Some d' -> execute f [] d = (Ok tt, [], d').
Proof. unfold execute, statement. cbn. by intros ->. Qed.
Lemma sql_bind_runs {A B} (p : Sql A) (f : A -> Sql B) d a d1 : p [] d = (Ok a, [], d1) -> (p ≫= f) [] d = f a [] d1.
Proof. unfold mbind, sql_bind. by intros ->. Qed.

Lemma fresh_row {R} (name : R -> str) (rows : list R) key :
  key ∉ map name rows -> existsb (fun r => str_eqb (name r) key) rows = false.
Proof.
  intros Hn. apply Existsb_false. intros r Hr. apply not_true_iff_false. intros He%str_eqb_eq. apply Hn.
  rewrite <- He. by apply list_elem_of_fmap_2.
Qed.

Lemma put_result_runs id row d :
  is_Some (db_tool_calls d !! uuid_display id) -> exists d', put_result id row [] d = (Ok tt, [], d').
Proof. intros Hc. eexists. apply execute_runs. by rewrite bool_decide_true. Qed.

Lemma change_call_runs f id d :
  ignored (change_call f id) [] d = (Ok tt, [], set_tool_calls (alter f (uuid_display id) (db_tool_calls d)) d).
Proof. done. Qed.

Lemma project_runs fresh e d :
  is_Some (db_runs d !! uuid_display (ev_run_id e)) -> accepted_event fresh e d ->
  exists d', project_event_side_tables fresh e [] d = (Ok tt, [], d').
Proof.
  intros Hrun. unfold accepted_event, project_event_side_tables.
  assert (Hadd : forall role content, uuid_display fresh ∉ map me_id (db_messages d) ->
    exists d', add_message fresh role content e [] d = (Ok tt, [], d')).
  { intros role content Hf. eexists. apply execute_runs. cbn. rewrite bool_decide_true by done. by rewrite fresh_row. }
  destruct (ev_event e); try (intros _; eexists; reflexivity); try (apply Hadd).
  - intros _. destruct (decide (is_Some (db_tool_calls d !! uuid_display tool_call_id))) as [Hk|Hk]; eexists;
      apply execute_runs; [by rewrite bool_decide_true|]. rewrite bool_decide_false by done. by rewrite bool_decide_true.
  - intros Hc. erewrite sql_bind_runs by apply change_call_runs. apply put_result_runs. cbn. rewrite lookup_alter_eq.
    destruct Hc as [c ->]. eauto.
  - intros Hc. erewrite sql_bind_runs by apply change_call_runs. apply put_result_runs. cbn. rewrite lookup_alter_eq.
    destruct Hc as [c ->]. eauto.
  - intros Hf. eexists. apply execute_runs. cbn. rewrite bool_decide_true by done. by rewrite fresh_row.
Qed.

Lemma append_event_runs e d m :
  stored d m -> is_Some (mm_runs m !! ev_run_id e) -> fits63 (ev_seq e) ->
  (exists u, fst (on_events (event_append e) m) = Ok u /\
     append_event e [] d = (Ok tt, [], set_events (db_events d ++ [event_row e]) d)) \/
  (exists err, fst (on_events (event_append e) m) = Err err /\ append_event e [] d = (Err err, [], d)).
Proof.
  intros Hd Hrun Hseq. unfold append_event. erewrite sql_bind_runs by reflexivity.
  pose proof (st_events _ _ Hd (ev_run_id e)) as Hlog. rewrite (max_seq_log _ _ _ Hlog), as_i64_small by done.
  unfold on_events, event_append, with_write. cbn [poisoned held]. set (log := default [] _) in *.
  destruct (N.leb_spec (ev_seq e) (from_option ev_seq 0%N (last log))) as [Hle|Hlt].
  - rewrite (proj2 (Z.leb_le _ _)) by lia. right. eexists. split; [reflexivity|]. unfold mbind, sql_bind. cbn.
    repeat f_equal. unfold as_u64. rewrite Z.mod_small; [lia|].
    assert (Hsmall : fits63 (from_option ev_seq 0%N (last log))).
    { destruct (last log) as [y|] eqn:Hy; cbn; [|unfold fits63; lia]. apply last_Some_elem_of in Hy.
      pose proof (ls_events _ _ _ Hlog) as He. rewrite Forall_forall in He. by apply He. }
    unfold fits63 in Hsmall. lia.
  - rewrite (proj2 (Z.leb_gt _ _)) by lia. left. eexists. split; [reflexivity|]. erewrite sql_bind_runs by reflexivity.
    apply execute_runs. rewrite bool_decide_true.
    2: { by eapply same_entry_is_some; [apply (st_runs _ _ Hd)|]. }
    cbn [andb]. rewrite (proj2 (Existsb_false _ _)); [done|]. intros row Hin. apply andb_false_iff.
    destruct (of_run (uuid_display (ev_run_id e)) row) eqn:Hr; [right|by left]. apply Z.eqb_neq. cbn.
    assert (Hrow : row ∈ List.filter (of_run (uuid_display (ev_run_id e))) (db_events d)) by by apply elem_of_filterb.
    destruct Hlog as [Hrows Hs He]. rewrite Hrows in Hrow. apply list_elem_of_fmap in Hrow as (x & -> & Hx). cbn.
    rewrite Forall_forall in He. rewrite !as_i64_small by (try apply (He x Hx); done).
    destruct (last log) as [y|] eqn:Hy; cbn in Hlt; [|apply last_None in Hy; fold log in Hx; rewrite Hy in Hx; by apply elem_of_nil in Hx].
    destruct (StronglySorted_last _ _ y x Hs Hy Hx) as [->|]; lia.
Qed.

Lemma has_row_runs {R} (table : AgentDb -> gmap str R) key d :
  has_row table key [] d = (Ok (bool_decide (is_Some (table d !! key))), [], d).
Proof. done. Qed.

Lemma same_decision {A R} (P : A -> R -> Prop) a r : same_entry P a r -> is_Some r <-> is_Some a.
Proof. destruct a, r; cbn; try done; intros _; split; eauto. Qed.

Lemma accepted_answers c l m :
  may_write c m -> accepted c (held l) m -> stored (held l) m -> poisoned l = false ->
  fst (sqlite_call c [] l) = fst (memory_call c m).
Proof.
  intros Hm Hacc Hd Hl. destruct c; cbn [sqlite_call memory_call] in *; try (apply tx_result; [done|]).
  - unfold insert_run_new. erewrite sql_bind_runs by apply has_row_runs.
    rewrite (same_entry_some _ _ _ (st_runs _ _ Hd (run_id r))). unfold on_runs, run_insert, with_write. cbn.
    case_bool_decide; eexists; reflexivity.
  - unfold save_existing. erewrite sql_bind_runs by apply has_row_runs.
    rewrite (same_entry_some _ _ _ (st_runs _ _ Hd (run_id r))). unfold on_runs, run_save, with_write. cbn.
    case_bool_decide; eexists; reflexivity.
  - destruct Hacc as (Hrun & Hseq & Hacc). unfold append_projected.
    destruct (append_event_runs e (held l) m Hd Hrun Hseq) as [([] & Hw & Hp)|(err & Hw & Hp)]; rewrite Hw.
    + erewrite sql_bind_runs by apply Hp. apply project_runs; [|done]. cbn.
      by eapply same_entry_is_some; [apply (st_runs _ _ Hd)|].
    + exists (held l). unfold mbind, sql_bind. by rewrite Hp.
  - eexists. apply execute_runs. cbv zeta. rewrite orb_true_intro; [done|].
    destruct Hacc as [Ha|Ha]; [right|left]; apply bool_decide_eq_true; by eapply same_entry_is_some; [apply Hd|].
  - unfold save_existing_approval. erewrite sql_bind_runs by apply has_row_runs.
    rewrite (same_entry_some _ _ _ (st_approvals _ _ Hd (ap_id a))). unfold on_approvals, approval_save, with_write. cbn.
    case_bool_decide as Ha; cbn; [|eexists; reflexivity].
    rewrite (bool_decide_true (is_Some (db_approvals (held l) !! _))); [by eexists|].
    by eapply same_entry_is_some; [apply (st_approvals _ _ Hd)|].
  - eexists. apply execute_runs. cbv zeta. rewrite orb_true_intro; [done|].
    destruct Hacc as [Ha|Ha]; [right|left]; apply bool_decide_eq_true; by eapply same_entry_is_some; [apply Hd|].
  - unfold put_pending_call. rewrite Hacc. eexists. reflexivity.
  - unfold sqlite_remove, with_conn. by rewrite Hl.
  - unfold put_pending_command, redact_secrets. destruct (json_one_line c) as [Hne Hlf].
    assert (Hlines : lines (to_json c) = [to_json c]) by (apply lines_none; [done|]; by intros x Hx ->).
    rewrite Hlines. cbn [map existsb join]. unfold redact_line. rewrite Hacc, str_eqb_refl. eexists. reflexivity.
  - unfold sqlite_remove_command, sqlite_remove, with_conn. by rewrite Hl.
  - done.
Qed.

(** C34. The tables refine the stores in memory, for the writes that [may_write] admits:
    numbers that fit their columns, text whose redaction as JSON is itself, and over a
    row that is there a run or a checkpoint with its time of creation and an approval
    with its binding; and a pending call and a pending command never under one
    identifier, which share a table.  In a session of such calls, whichever statements
    fail: a call that succeeds is one that succeeds in memory, and one that does not
    leaves the database as it was, the bundle of an interrupt included; and every read answers what the stores in memory answer.  A call
    of which no statement fails also answers what they answer, an error or not, when it
    is one that [accepted] admits: what it refers to is in the tables (the run of an
    event, the call of a result), its fresh identifiers are new, its text passes the
    guards of pending actions; the bundle, which the stores in memory do not have, is
    not among them.  Outside these conditions the two differ: an event without its run
    is refused by the tables only ([event_without_run]), and an event that redaction
    changes is stored and then hides its log (C36). *)
Theorem sqlite_refines_memory l m :
  session l m ->
  (forall c o, may_write c m ->
     match sqlite_call c o l with
     | (Ok _, l') => exists m', memory_call c m = (Ok tt, m') /\ session l' m'
     | (Err _, l') => l' = l
     end) /\
  (forall c, may_write c m -> accepted c (held l) m -> fst (sqlite_call c [] l) = fst (memory_call c m)) /\
  (forall id, fst (sqlite_get id [] l) = Ok (mm_runs m !! id)) /\
  (forall id after, fits63 after ->
     fst (sqlite_events_after id after [] l) = events_after id after {| poisoned := false; held := mm_events m |}) /\
  (forall id, fst (sqlite_approval_get id [] l) = Ok (mm_approvals m !! id)) /\
  (forall id, fst (sqlite_checkpoint_get id [] l) = Ok (mm_checkpoints m !! id)) /\
  (forall id, mm_commands m !! id = None -> fst (sqlite_pending_get id [] l) = Ok (mm_calls m !! id)) /\
  (forall id, mm_calls m !! id = None -> fst (sqlite_get_command id [] l) = Ok (mm_commands m !! id)) /\
  (forall id, exists found, fst (sqlite_pending_for_run id [] l) = Ok found /\
     match found with
     | Some a => mm_approvals m !! ap_id a = Some a /\ pending_of id a = true
     | None => forall i a, mm_approvals m !! i = Some a -> pending_of id a = false
     end).
Proof.
  intros Hs. destruct (session_stored l m Hs) as [Hd Hl]. split_and!; intros.
  - pose proof (call_refines c o l m ltac:(done) Hd Hl) as Hc. pose proof (session_called l m c o Hs ltac:(done)) as Hn.
    destruct (sqlite_call c o l) as [[u|e] l']; [|done]. destruct Hc as (m' & Hw & _). exists m'. split; [done|].
    cbn in Hn. by rewrite Hw in Hn.
  - by apply accepted_answers.
  - by apply reads_run.
  - unfold events_after, with_read. cbn. by apply reads_events.
  - by apply reads_approval.
  - by apply reads_checkpoint.
  - by apply reads_call.
  - by apply reads_command.
  - by apply reads_pending_approval.
Qed.
End Refinement.
