(* ===== verification/SqliteFacts.v ===== *)
(** * What the agent tables keep

    No write forgets: events and messages are only added, and an approval keeps what
    it is bound to.  What the redaction of an event's JSON costs; what recovery does, and
    what it leaves when a statement fails. *)
From stdpp Require Import sorting.
From S2P Require Import Prelude Str NumText RunState Externals Decision Approval Context Events Stores SqliteTables Sqlite SqliteTheorems.

Section Facts.
Context `{SqlLaws}.

(** ** Growth *)

(** The row of an approval but for its decision. *)
Definition bound_columns (row : ApprovalRow) : ApprovalRow :=
  {| aw_run_id := aw_run_id row; aw_tool_call_id := aw_tool_call_id row; aw_tool_name := aw_tool_name row;
     aw_arguments_hash := aw_arguments_hash row; aw_target_ids := aw_target_ids row; aw_risk := aw_risk row;
     aw_policy_version := aw_policy_version row; aw_policy_hash := aw_policy_hash row;
     aw_precondition_ref := aw_precondition_ref row; aw_change_set_id := aw_change_set_id row;
     aw_change_set_version := aw_change_set_version row; aw_state := []; aw_created_at := aw_created_at row;
     aw_decided_at := None |}.

(** [f] of a row that is there stays. *)
Definition kept_rows {R X} (f : R -> X) (t t' : gmap str R) : Prop :=
  forall key row, t !! key = Some row -> exists row', t' !! key = Some row' /\ f row' = f row.

Record grown (d d' : AgentDb) : Prop := {
  gr_runs : kept_rows rr_created_at (db_runs d) (db_runs d');
  gr_events : db_events d `prefix_of` db_events d';
  gr_messages : db_messages d `prefix_of` db_messages d';
  gr_observations : db_observations d `prefix_of` db_observations d';
  gr_approvals : kept_rows bound_columns (db_approvals d) (db_approvals d');
  gr_checkpoints : kept_rows ck_created_at (db_checkpoints d) (db_checkpoints d');
  gr_calls : kept_rows (fun c => (tc_run_id c, tc_tool_name c, tc_requested_seq c)) (db_tool_calls d) (db_tool_calls d');
}.

Lemma kept_rows_refl {R X} (f : R -> X) t : kept_rows f t t.
Proof. intros key row Hr. eauto. Qed.
Lemma kept_rows_trans {R X} (f : R -> X) t1 t2 t3 : kept_rows f t1 t2 -> kept_rows f t2 t3 -> kept_rows f t1 t3.
Proof. intros H12 H23 key row (r2 & Hr2 & He2)%H12. destruct (H23 _ _ Hr2) as (r3 & Hr3 & He3). exists r3. split; [done|congruence]. Qed.
Lemma kept_insert {R X} (f : R -> X) t key row :
  (forall old, t !! key = Some old -> f row = f old) -> kept_rows f t (<[key := row]> t).
Proof.
  intros Hf k r Hr. destruct (decide (k = key)) as [->|Hne]; [|exists r; by rewrite lookup_insert_ne].
  exists row. rewrite lookup_insert_eq. split; [done|by apply Hf].
Qed.
Lemma kept_alter {R X} (f : R -> X) (g : R -> R) t key : (forall r, f (g r) = f r) -> kept_rows f t (alter g key t).
Proof.
  intros Hg k r Hr. destruct (decide (k = key)) as [->|Hne]; [|exists r; by rewrite lookup_alter_ne].
  exists (g r). by rewrite lookup_alter_eq, Hr, Hg.
Qed.

#[export] Instance grown_refl : Reflexive grown.
Proof. intros d. split; try apply kept_rows_refl; done. Qed.
#[export] Instance grown_trans : Transitive grown.
Proof. intros d1 d2 d3 [] []. split; try (by eapply kept_rows_trans); by etransitivity. Qed.

(** A body after which the database has grown, whatever its end. *)
Definition growing {A} (p : Sql A) : Prop := forall o d r o' d', p o d = (r, o', d') -> grown d d'.

Lemma growing_bind {A B} (p : Sql A) (f : A -> Sql B) : growing p -> (forall a, growing (f a)) -> growing (p ≫= f).
Proof.
  intros Hp Hf o d r o' d'. unfold mbind, sql_bind. destruct (p o d) as [[[a|e] o1] d1] eqn:H1'; intros Hr.
  - transitivity d1; [by eapply Hp|by eapply Hf].
  - injection Hr as <- <- <-. by eapply Hp.
Qed.
Lemma growing_lift {A} (r : result AgentStoreError A) : growing (sql_lift r).
Proof. by intros o d r' o' d' [= _ _ <-]. Qed.
Lemma growing_ret {A} (a : A) : growing (mret a).
Proof. intros o d r' o' d' Hr. unfold mret, sql_ret in Hr. by injection Hr as _ _ <-. Qed.
Lemma growing_statement {A} e (f : AgentDb -> option (A * AgentDb)) :
  (forall d a d', f d = Some (a, d') -> grown d d') -> growing (statement e f).
Proof.
  intros Hf o d r o' d'. unfold statement. destruct (default _ _); [by intros [= _ _ <-]|].
  destruct (f d) as [[a x]|] eqn:Hd; intros [= _ _ <-]; [by eapply Hf|done].
Qed.
Lemma growing_execute f : (forall d d', f d = Some d' -> grown d d') -> growing (execute f).
Proof. intros Hf. apply growing_statement. intros d a d' Hd. destruct (f d) as [x|] eqn:Hx; cbn in Hd; [|done]. injection Hd as _ <-. by apply Hf. Qed.
Lemma growing_query {A} e (f : AgentDb -> A) : growing (query e f).
Proof. apply growing_statement. by intros d a d' [= _ <-]. Qed.
Lemma growing_select {A} (f : AgentDb -> A) : growing (select f).
Proof. apply growing_bind; [apply growing_query|]. intros _. apply growing_query. Qed.
Lemma growing_ignored p : growing p -> growing (ignored p).
Proof. intros Hp o d r o' d'. unfold ignored. destruct (p o d) as [[r1 o1] d1] eqn:H1'. intros [= _ _ <-]. by eapply Hp. Qed.
Lemma growing_each {A} (f : A -> Sql unit) l : (forall a, growing (f a)) -> growing (for_each f l).
Proof. intros Hf. induction l as [|a l IH]; cbn; [apply growing_ret|]. apply growing_bind; [apply Hf|done]. Qed.
Lemma growing_if {A} (b : bool) (p q : Sql A) : growing p -> growing q -> growing (if b then p else q).
Proof. by destruct b. Qed.

#[local] Hint Resolve growing_bind growing_lift growing_ret growing_query growing_select growing_ignored growing_each
  growing_if kept_rows_refl : core.

Lemma grown_runs d runs : kept_rows rr_created_at (db_runs d) runs -> grown d (set_runs runs d).
Proof. intros Hr. split; cbn; auto. Qed.

Lemma growing_upsert_run r : growing (upsert_run r).
Proof.
  apply growing_execute. intros d d' [= <-]. apply grown_runs, kept_insert. by intros old ->.
Qed.
Lemma growing_has_row {R} (table : AgentDb -> gmap str R) key : growing (has_row table key).
Proof. apply growing_query. Qed.
#[local] Hint Resolve growing_upsert_run growing_has_row : core.

Lemma growing_append_event e : growing (append_event e).
Proof.
  unfold append_event. apply growing_bind; [auto|]. intros last. apply growing_bind; [auto|]. intros _.
  apply growing_execute. intros d d'. destruct (bool_decide _ && _); [|done]. intros [= <-].
  split; cbn; auto. by apply prefix_app_r.
Qed.

Lemma growing_change_call f id :
  (forall c, (tc_run_id (f c), tc_tool_name (f c), tc_requested_seq (f c)) = (tc_run_id c, tc_tool_name c, tc_requested_seq c)) ->
  growing (change_call f id).
Proof. intros Hf. apply growing_execute. intros d d' [= <-]. split; cbn; auto. by apply kept_alter. Qed.
Lemma growing_put_result id row : growing (put_result id row).
Proof. apply growing_execute. intros d d'. case_bool_decide; [|done]. intros [= <-]. split; cbn; auto. Qed.
#[local] Hint Resolve growing_append_event growing_put_result : core.

Lemma growing_project fresh e : growing (project_event_side_tables fresh e).
Proof.
  assert (Hmsg : forall role content, growing (add_message fresh role content e)).
  { intros role content. apply growing_execute. intros d d'. destruct (bool_decide _ && _); [|done]. intros [= <-].
    split; cbn; auto. by apply prefix_app_r. }
  unfold project_event_side_tables. destruct (ev_event e); auto; try (apply growing_ignored; by apply growing_change_call).
  - apply growing_execute. intros d d'. case_bool_decide as Hk; [by intros [= <-]|]. case_bool_decide; [|done].
    intros [= <-]. split; cbn; auto. apply kept_insert. intros old Ho. destruct Hk. eauto.
  - apply growing_bind; [apply growing_ignored; by apply growing_change_call|auto].
  - apply growing_bind; [apply growing_ignored; by apply growing_change_call|auto].
  - apply growing_execute. intros d d'. destruct (bool_decide _ && _); [|done]. intros [= <-].
    split; cbn; auto. by apply prefix_app_r.
Qed.

Lemma growing_upsert_approval a : growing (upsert_approval a).
Proof.
  apply growing_execute. intros d d'. cbv zeta. destruct (_ || _); [|done]. intros [= <-].
  split; cbn; auto. apply kept_insert. by intros old ->.
Qed.
Lemma growing_upsert_checkpoint now c : growing (upsert_checkpoint now c).
Proof.
  apply growing_execute. intros d d'. cbv zeta. destruct (_ || _); [|done]. intros [= <-].
  split; cbn; auto. apply kept_insert. by intros old ->.
Qed.
Lemma growing_put_row id json : growing (put_row id json).
Proof. apply growing_execute. intros d d' [= <-]. split; cbn; auto. Qed.
Lemma growing_put_call c : growing (put_pending_call c).
Proof. apply growing_bind; [auto|]. intros _. apply growing_put_row. Qed.
Lemma growing_put_command c : growing (put_pending_command c).
Proof. unfold put_pending_command. destruct (redact_secrets _). apply growing_bind; [auto|]. intros _. apply growing_put_row. Qed.
#[local] Hint Resolve growing_project growing_upsert_approval growing_upsert_checkpoint growing_put_call growing_put_command : core.

Lemma growing_tx {A} (p : Sql A) o l : growing p -> grown (held l) (held (snd (with_tx p o l))).
Proof.
  intros Hp. unfold with_tx. destruct (poisoned l); [done|]. destruct (default _ _); [done|].
  destruct (p _ _) as [[[a|e] o1] d'] eqn:Hr; [|done]. destruct (default _ _); cbn; [done|by eapply Hp].
Qed.
Lemma growing_conn {A} (p : Sql A) o l : growing p -> grown (held l) (held (snd (with_conn p o l))).
Proof.
  intros Hp. unfold with_conn. destruct (poisoned l); [done|]. destruct (p _ _) as [[r o1] d'] eqn:Hr. by eapply Hp.
Qed.

Lemma call_grows c o l : grown (held l) (held (snd (sqlite_call c o l))).
Proof.
  destruct c; cbn [sqlite_call]; try (apply growing_tx; auto).
  - unfold insert_run_new. auto 6.
  - unfold save_existing. auto 6.
  - unfold append_projected. auto.
  - unfold save_existing_approval. auto 6.
  - apply growing_conn, growing_execute. intros d d' [= <-]. split; cbn; auto.
  - apply growing_conn, growing_execute. intros d d' [= <-]. split; cbn; auto.
  - unfold write_bundle. apply growing_bind; [auto|]. intros _. apply growing_bind.
    { apply growing_each. intros x. unfold append_projected. auto. }
    intros _. apply growing_bind; [auto|]. intros _. apply growing_bind; [by destruct approval; auto|].
    intros _. destruct call; auto.
Qed.

Lemma growing_recover now rows : growing (recover_rows now rows).
Proof.
  induction rows as [|[key text] rows IH]; cbn; [auto|]. apply growing_bind; [auto|]. intros id.
  apply growing_bind; [auto|]. intros s. apply growing_if; [done|]. apply growing_if; [auto|].
  apply growing_bind.
  { apply growing_execute. intros d d' [= <-]. apply grown_runs. by apply kept_alter. }
  intros _. apply growing_bind; [|auto]. apply growing_ignored, growing_execute. intros d d' [= <-].
  split; cbn; auto. by apply kept_alter.
Qed.

Lemma recovery_grows now o l : grown (held l) (held (snd (recover_on_startup now o l))).
Proof. apply growing_tx. unfold recover_body. apply growing_bind; [auto|]. intros rows. apply growing_recover. Qed.

(** ** Later calls *)
Inductive StoreStep := StCall (c : StoreCall) | StRecover (now : N).
Definition store_step (l : Locked AgentDb) (s : StoreStep * SqlOracle) : Locked AgentDb :=
  match fst s with
  | StCall c => snd (sqlite_call c (snd s) l)
  | StRecover now => snd (recover_on_startup now (snd s) l)
  end.
Definition later (steps : list (StoreStep * SqlOracle)) (l : Locked AgentDb) : Locked AgentDb := foldl store_step l steps.

Lemma later_grows steps l : grown (held l) (held (later steps l)).
Proof.
  revert l. induction steps as [|[s o] steps IH]; intros l; [done|]. cbn. etransitivity; [|apply IH].
  destruct s; [apply call_grows|apply recovery_grows].
Qed.

Lemma tx_poisoned {A} (p : Sql A) o l : poisoned (snd (with_tx p o l)) = poisoned l.
Proof.
  unfold with_tx. destruct (poisoned l) eqn:Hl; [done|]. destruct (default _ _); [done|].
  destruct (p _ _) as [[[a|e] o1] d']; [|done]. by destruct (default _ _).
Qed.
Lemma conn_poisoned {A} (p : Sql A) o l : poisoned (snd (with_conn p o l)) = poisoned l.
Proof. unfold with_conn. destruct (poisoned l) eqn:Hl; [done|]. by destruct (p _ _) as [[r o1] d']. Qed.
Lemma later_poisoned steps l : poisoned (later steps l) = poisoned l.
Proof.
  revert l. induction steps as [|[s o] steps IH]; intros l; [done|]. unfold later in *. cbn. rewrite IH.
  destruct s as [[]|]; try apply tx_poisoned; apply conn_poisoned.
Qed.

(** ** Approvals *)
Lemma approval_columns key row row' a a' :
  bound_columns row' = bound_columns row -> approval_of_row key row = Ok a -> approval_of_row key row' = Ok a' ->
  same_binding a a'.
Proof.
  intros [= Hr Hc Hn Hh Ht Hri Hv Hp Hpre Hcs Hcv Hcr] Ha Ha'. unfold approval_of_row in *.
  rewrite Hr, Hc, Hn, Hh, Ht, Hri, Hv, Hp, Hpre, Hcs, Hcv, Hcr in Ha'.
  repeat (apply bind_ok in Ha as (? & ? & Ha)). repeat (apply bind_ok in Ha' as (? & ? & Ha')).
  injection Ha as <-. injection Ha' as <-. unfold same_binding. cbn. split_and!; congruence.
Qed.

Lemma read_approval_inv id l a :
  fst (sqlite_approval_get id [] l) = Ok a ->
  poisoned l = false /\ read_option (approval_of_row (uuid_display id)) (db_approvals (held l) !! uuid_display id) = Ok a.
Proof.
  unfold sqlite_approval_get, with_conn. destruct (poisoned l); [done|]. unfold load_approval, mbind, sql_bind. cbn. done.
Qed.

(** C35. An approval stays bound to what it was asked for.  Whatever is called after it was
    read, in whatever order, whichever statements fail, recovery included: the
    approval is not lost, and when it is read again only its decision and the time of
    it can have changed: not the run, the call, the arguments' hash, the targets, the
    risk, the policy or the change set. *)
Theorem approval_binding_is_kept id a l steps :
  fst (sqlite_approval_get id [] l) = Ok (Some a) ->
  fst (sqlite_approval_get id [] (later steps l)) <> Ok None /\
  forall a', fst (sqlite_approval_get id [] (later steps l)) = Ok (Some a') -> ap_id a' = ap_id a /\ same_binding a a'.
Proof.
  intros (Hl & Hread)%read_approval_inv. destruct (db_approvals (held l) !! _) as [row|] eqn:Hrow; [|done]. cbn in Hread.
  apply bind_ok in Hread as (x & Hread & [= ->]).
  destruct (gr_approvals _ _ (later_grows steps l) _ _ Hrow) as (row' & Hrow' & Hb).
  split.
  - intros (_ & Hr)%read_approval_inv. rewrite Hrow' in Hr. cbn in Hr. by apply bind_ok in Hr as (? & _ & ?).
  - intros a' (_ & Hr)%read_approval_inv. rewrite Hrow' in Hr. cbn in Hr. apply bind_ok in Hr as (y & Hr & [= ->]).
    split; [|by eapply approval_columns].
    unfold approval_of_row in *. repeat (apply bind_ok in Hr as (? & ? & Hr)). repeat (apply bind_ok in Hread as (? & ? & Hread)).
    injection Hr as <-. injection Hread as <-. cbn. congruence.
Qed.

(** ** Redacted events *)
Lemma try_map_corrupt {A B} (f : A -> result AgentStoreError B) l x :
  (forall y e, f y = Err e -> e = StoreCorrupt) -> x ∈ l -> is_ok (f x) = false -> try_map f l = Err StoreCorrupt.
Proof.
  intros Hall. induction l as [|y l IH]; [by intros ?%elem_of_nil|]. intros Hin Hx. cbn.
  destruct (f y) as [b|e] eqn:Hy; [|by rewrite (Hall _ _ Hy)]. apply elem_of_cons in Hin as [->|Hin]; [by rewrite Hy in Hx|].
  cbn. by rewrite (IH Hin Hx).
Qed.
Lemma event_errors row e : event_of_row row = Err e -> e = StoreCorrupt.
Proof.
  unfold event_of_row, read_json, parse_uuid. destruct (from_json _); cbn; [|congruence]. destruct (uuid_parse _); cbn; congruence.
Qed.

Lemma appended_row fresh e o l l' :
  sqlite_append fresh e o l = (Ok tt, l') -> event_row e ∈ db_events (held l') /\ poisoned l' = false.
Proof.
  intros (o1 & d' & Hp & ->)%with_tx_ok. apply sql_bind_ok in Hp as (u & o2 & d2 & Ha & Hp). destruct u. cbn. split; [|done].
  apply project_core in Hp as (_ & -> & _). apply sql_bind_ok in Ha as (last & o3 & d3 & [-> ->]%query_ok & Ha).
  apply sql_bind_ok in Ha as (u & o4 & d4 & [_ ->]%lift_ok & Ha%execute_ok).
  destruct (bool_decide _ && _); [|done]. injection Ha as <-. cbn. set_solver.
Qed.

(** C36. An event whose JSON has a word of the redaction makes the log of its run unreadable.
    Its text is one line, which is redacted as a whole when it is stored: what is
    stored is not JSON, and from then on, whatever is called, every read of the log
    from before the event fails; while the append has answered that it succeeded. *)
Theorem redacted_event_hides_log fresh e o l l' steps after :
  sensitive_line (to_json (ev_event e)) = true -> fits63 (ev_seq e) -> (after < ev_seq e)%N ->
  sqlite_append fresh e o l = (Ok tt, l') ->
  fst (sqlite_events_after (ev_run_id e) after [] (later steps l')) = Err StoreCorrupt.
Proof.
  intros Hs Hseq Hafter (Hrow & Hl)%appended_row. unfold sqlite_events_after, with_conn. rewrite later_poisoned, Hl.
  unfold load_events_after, select, mbind, sql_bind. cbn. unfold sql_lift. cbn.
  apply try_map_corrupt with (event_row e); [apply event_errors| |].
  - unfold events_above, by_seq. rewrite sort_by_perm. apply elem_of_filterb. split.
    + destruct (gr_events _ _ (later_grows steps l')) as [rest ->]. set_solver.
    + rewrite of_run_event, str_eqb_refl. cbn. unfold fits63 in Hseq.
      rewrite !as_i64_small by (unfold fits63; lia). apply Z.ltb_lt. lia.
  - unfold event_of_row, read_json. cbn. by rewrite (sensitive_unreadable (ev_event e) Hs).
Qed.

(** ** Recovery *)
Definition recovered_run (now : N) (r : AgentRun) : AgentRun :=
  if is_active (run_state r) then
    {| run_id := run_id r; run_state := Paused; created_at_epoch_ms := created_at_epoch_ms r;
       updated_at_epoch_ms := now; next_event_seq := next_event_seq r |}
  else r.
Definition recovered_entry (now : N) (r : AgentRun) : RecoveredRun :=
  {| rec_run_id := run_id r; rec_state := run_state (recovered_run now r); rec_interrupted := is_active (run_state r) |}.
Definition open_runs (runs : list AgentRun) : list AgentRun := List.filter (fun r => negb (is_terminal (run_state r))) runs.

Definition with_runs (runs : run_map) (m : Memory) : Memory :=
  {| mm_runs := runs; mm_events := mm_events m; mm_approvals := mm_approvals m; mm_checkpoints := mm_checkpoints m;
     mm_calls := mm_calls m; mm_commands := mm_commands m |}.
Definition with_checkpoints (checkpoints : gmap N AgentCheckpoint) (m : Memory) : Memory :=
  {| mm_runs := mm_runs m; mm_events := mm_events m; mm_approvals := mm_approvals m; mm_checkpoints := checkpoints;
     mm_calls := mm_calls m; mm_commands := mm_commands m |}.
Definition paused_at (c : AgentCheckpoint) : AgentCheckpoint :=
  {| cp_run_id := cp_run_id c; cp_state := Paused; cp_event_cursor := cp_event_cursor c;
     cp_pending_interrupt := cp_pending_interrupt c; cp_budget := cp_budget c; cp_target_ids := cp_target_ids c;
     cp_fact_snapshot := cp_fact_snapshot c; cp_created_at_epoch_ms := cp_created_at_epoch_ms c |}.

Lemma state_cases s : is_terminal s = false -> is_interrupt s || bool_decide (s = Created) = negb (is_active s).
Proof. by destruct s. Qed.

Lemma known_keys_alter {R} (f : R -> R) (key : str) (table : gmap str R) : known_keys table -> known_keys (alter f key table).
Proof.
  intros Hk k [x Hx]. apply Hk. destruct (decide (k = key)) as [->|Hne]; [|rewrite lookup_alter_ne in Hx by done; eauto].
  rewrite lookup_alter_eq in Hx. by destruct (table !! key); [eauto|].
Qed.

Lemma stored_paused_run now d m r :
  stored d m -> fits64 now -> mm_runs m !! run_id r = Some r -> is_active (run_state r) = true ->
  stored (set_runs (alter (paused_row now) (uuid_display (run_id r)) (db_runs d)) d)
         (with_runs (<[run_id r := recovered_run now r]> (mm_runs m)) m).
Proof.
  intros [Hr ? ? ? ? ? Hk] Hnow Hm Ha. split; cbn; auto; [|by apply known_keys_alter]. intros id.
  destruct (decide (id = run_id r)) as [->|Hne].
  - rewrite lookup_insert_eq, lookup_alter_eq. specialize (Hr (run_id r)). rewrite Hm in Hr.
    destruct (db_runs d !! _) as [row|]; [|done]. cbn in *. unfold recovered_run. rewrite Ha.
    destruct Hr as (_ & (Hc & Hu & Hs & Hp) & _ & Hn & Hcr & _). by split_and!.
  - rewrite lookup_insert_ne, lookup_alter_ne; [apply Hr|intros Hd%display_inj; congruence|congruence].
Qed.

Lemma stored_paused_checkpoint now d m id :
  stored d m ->
  stored (set_checkpoints (alter (paused_checkpoint now) (uuid_display id) (db_checkpoints d)) d)
         (with_checkpoints (alter paused_at id (mm_checkpoints m)) m).
Proof.
  intros [? ? ? ? Hc ? ?]. split; cbn; auto. intros i. destruct (decide (i = id)) as [->|Hne].
  - rewrite !lookup_alter_eq. specialize (Hc id). destruct (mm_checkpoints m !! id) as [c|], (db_checkpoints d !! _) as [row|];
      cbn in *; try done. destruct Hc as (Hi & (Hcur & Hcr & Hint & Hb & Hf) & n & ->). split; [done|]. split; [by split_and!|].
    by exists now.
  - rewrite !lookup_alter_ne; [apply Hc|intros Hd%display_inj; congruence|congruence].
Qed.

(** The checkpoints before and after: those of interrupted runs may be paused. *)
Definition paused_some (runs : run_map) (before after : gmap N AgentCheckpoint) : Prop :=
  forall id, after !! id = before !! id \/
    exists r, runs !! id = Some r /\ is_active (run_state r) = true /\ after !! id = paused_at <$> before !! id.

(** Whether a run is among the interrupted ones. *)
Definition interrupted_in (runs : list AgentRun) (id : Uuid) : bool :=
  existsb (fun r => (run_id r =? id)%N && is_active (run_state r)) runs.
(** Exactly those are paused. *)
Definition paused_exactly (interrupted : N -> bool) (before after : gmap N AgentCheckpoint) : Prop :=
  forall id, after !! id = (if interrupted id then paused_at <$> before !! id else before !! id).
Definition was_interrupted (runs : run_map) (id : N) : bool :=
  match runs !! id with Some r => is_active (run_state r) | None => false end.

Lemma interrupted_stored runs m id :
  (forall r, r ∈ runs <-> m !! run_id r = Some r) -> (forall r, m !! id = Some r -> run_id r = id) ->
  interrupted_in runs id = was_interrupted m id.
Proof.
  intros Hin Hkey. unfold was_interrupted. apply eq_true_iff_eq. unfold interrupted_in. rewrite Existsb_exists. split.
  - intros (r & Hr%Hin & [<-%N.eqb_eq Ha]%andb_true_iff). by rewrite Hr.
  - destruct (m !! id) as [r|] eqn:Hr; [|done]. intros Ha. exists r. specialize (Hkey r eq_refl). subst id.
    split; [by apply Hin|]. by rewrite N.eqb_refl.
Qed.

Lemma interrupted_not id runs : id ∉ map run_id runs -> interrupted_in runs id = false.
Proof.
  intros Hid. apply Existsb_false. intros r Hr. apply andb_false_iff. left. apply N.eqb_neq. intros <-.
  by apply Hid, list_elem_of_fmap_2.
Qed.

(** Statements that are not made to fail. *)
Lemma lift_spends {A} (r : result AgentStoreError A) o d x : sql_lift r o d = x -> snd (fst x) = o.
Proof. by intros <-. Qed.
Lemma statement_spends {A} e (f : AgentDb -> option (A * AgentDb)) d x : statement e f [] d = x -> snd (fst x) = [].
Proof. intros <-. unfold statement. cbn. by destruct (f d) as [[? ?]|]. Qed.
Lemma ignored_done f d d1 x : f d = Some d1 -> ignored (execute f) [] d = x -> x = (Ok tt, [], d1).
Proof. intros Hf <-. unfold ignored, execute, statement. cbn. by rewrite Hf. Qed.

Definition recover_all (now : N) (runs : list AgentRun) (m : run_map) : run_map :=
  foldl (fun m r => <[run_id r := recovered_run now r]> m) m runs.

Lemma recover_all_lookup now runs m id :
  NoDup (map run_id runs) -> (forall r, r ∈ runs -> m !! run_id r = Some r) ->
  recover_all now runs m !! id =
    (if bool_decide (id ∈ map run_id runs) then recovered_run now <$> m !! id else m !! id).
Proof.
  revert m. induction runs as [|r runs IH]; intros m Hnd Hin; cbn; [by rewrite bool_decide_false by set_solver|].
  apply NoDup_cons in Hnd as [Hr Hnd]. unfold recover_all in *. cbn. rewrite IH; [|done|].
  - destruct (decide (id = run_id r)) as [->|Hne].
    + rewrite bool_decide_false, bool_decide_true by set_solver. rewrite lookup_insert_eq, Hin by set_solver. done.
    + rewrite lookup_insert_ne by done. destruct (decide (id ∈ map run_id runs)) as [Hi|Hi].
      * by rewrite !bool_decide_true by set_solver.
      * by rewrite !bool_decide_false by set_solver.
  - intros x Hx. rewrite lookup_insert_ne; [apply Hin; set_solver|]. intros He. apply Hr. rewrite He.
    by apply list_elem_of_fmap_2.
Qed.

Definition run_text (r : AgentRun) : str * str := (uuid_display (run_id r), state_name (run_state r)).

Lemma entry_active now r : is_active (run_state r) = true ->
  recovered_entry now r = {| rec_run_id := run_id r; rec_state := Paused; rec_interrupted := true |}.
Proof. unfold recovered_entry, recovered_run. by intros ->. Qed.
Lemma entry_quiet now r : is_active (run_state r) = false ->
  recovered_entry now r = {| rec_run_id := run_id r; rec_state := run_state r; rec_interrupted := false |}.
Proof. unfold recovered_entry, recovered_run. by intros ->. Qed.

(** One interrupted run, before the others. *)
Lemma recover_active now r runs d m o rec o' d' :
  (forall d m o rec, stored d m -> NoDup (map run_id runs) -> (forall r, r ∈ runs -> mm_runs m !! run_id r = Some r) ->
     recover_rows now (map run_text runs) o d = (Ok rec, o', d') ->
     rec = map (recovered_entry now) (open_runs runs) /\
     exists checkpoints, paused_some (mm_runs m) (mm_checkpoints m) checkpoints /\
       (o = [] -> paused_exactly (interrupted_in runs) (mm_checkpoints m) checkpoints) /\
       stored d' (with_checkpoints checkpoints (with_runs (recover_all now runs (mm_runs m)) m))) ->
  stored d m -> fits64 now -> NoDup (map run_id runs) -> run_id r ∉ map run_id runs ->
  (forall x, x ∈ r :: runs -> mm_runs m !! run_id x = Some x) -> is_active (run_state r) = true ->
  (execute (fun d => Some (set_runs (alter (paused_row now) (uuid_display (run_id r)) (db_runs d)) d)) ;;
   ignored (execute (fun d => Some (set_checkpoints (alter (paused_checkpoint now) (uuid_display (run_id r)) (db_checkpoints d)) d))) ;;
   others ← recover_rows now (map run_text runs);
   mret ({| rec_run_id := run_id r; rec_state := Paused; rec_interrupted := true |} :: others)) o d = (Ok rec, o', d') ->
  rec = map (recovered_entry now) (r :: open_runs runs) /\
  exists checkpoints, paused_some (mm_runs m) (mm_checkpoints m) checkpoints /\
    (o = [] -> paused_exactly (interrupted_in (r :: runs)) (mm_checkpoints m) checkpoints) /\
    stored d' (with_checkpoints checkpoints (with_runs (recover_all now (r :: runs) (mm_runs m)) m)).
Proof.
  intros IH Hd Hnow Hnd Hr Hin Ha ([] & o3 & d3 & Hrun & Hp)%sql_bind_ok.
  assert (Ho3 : o = [] -> o3 = []) by (intros ->; by apply statement_spends in Hrun). apply execute_ok in Hrun as [= <-].
  apply sql_bind_ok in Hp as ([] & o4 & d4 & Hck & Hp).
  apply sql_bind_ok in Hp as (others & o5 & d5 & Hp & Hret). unfold mret, sql_ret in Hret. injection Hret as <- -> ->.
  pose proof (stored_paused_run now d m r Hd Hnow (Hin r ltac:(set_solver)) Ha) as Hd3.
  assert (Hd4 : exists ck, (ck = mm_checkpoints m \/ ck = alter paused_at (run_id r) (mm_checkpoints m)) /\
    (o = [] -> o4 = [] /\ ck = alter paused_at (run_id r) (mm_checkpoints m)) /\
    stored d4 (with_checkpoints ck (with_runs (<[run_id r := recovered_run now r]> (mm_runs m)) m))).
  { destruct (default false (head o3)) eqn:Hfails.
    - exists (mm_checkpoints m). unfold ignored, execute, statement in Hck. rewrite Hfails in Hck. injection Hck as _ <-.
      split; [by left|]. split; [intros ->%Ho3; done|by destruct m].
    - exists (alter paused_at (run_id r) (mm_checkpoints m)). unfold ignored, execute, statement in Hck. rewrite Hfails in Hck.
      cbn in Hck. injection Hck as <- <-. split; [by right|]. split; [by intros ->%Ho3|].
      exact (stored_paused_checkpoint now _ _ (run_id r) Hd3). }
  destruct Hd4 as (ck & Hck' & Hall & Hd4).
  apply (IH _ _ _ _ Hd4) in Hp as (-> & ck2 & Hck2 & Hex & Hst); [|done|].
  2: { intros x Hx. cbn. rewrite lookup_insert_ne; [apply Hin; set_solver|]. intros He. apply Hr. rewrite He. by apply list_elem_of_fmap_2. }
  split; [cbn [map]; by rewrite entry_active|]. exists ck2. split; [|split; [|exact Hst]]; intros i.
  - specialize (Hck2 i). cbn in Hck2. destruct (decide (i = run_id r)) as [->|Hne].
    + destruct Hck2 as [->|(x & Hx & Hxa & _)].
      * destruct Hck' as [-> | ->]; [by left|]. right. exists r. rewrite lookup_alter_eq. split; [apply Hin; set_solver|done].
      * exfalso. rewrite lookup_insert_eq in Hx. injection Hx as <-. unfold recovered_run in Hxa. by rewrite Ha in Hxa.
    + assert (Hcki : ck !! i = mm_checkpoints m !! i) by (destruct Hck' as [-> | ->]; [done|by rewrite lookup_alter_ne]).
      rewrite Hcki in Hck2. rewrite lookup_insert_ne in Hck2 by done. exact Hck2.
  - destruct (Hall i) as [-> ->]. intros k. specialize (Hex eq_refl k). cbn in Hex. rewrite Hex. unfold interrupted_in at 2. cbn.
    rewrite Ha, andb_true_r. destruct (N.eqb_spec (run_id r) k) as [<-|Hne]; cbn.
    + by rewrite interrupted_not, lookup_alter_eq.
    + rewrite lookup_alter_ne by done. done.
Qed.

Lemma recover_rows_ok now runs d m o rec o' d' :
  stored d m -> fits64 now -> NoDup (map run_id runs) -> (forall r, r ∈ runs -> mm_runs m !! run_id r = Some r) ->
  recover_rows now (map run_text runs) o d = (Ok rec, o', d') ->
  rec = map (recovered_entry now) (open_runs runs) /\
  exists checkpoints, paused_some (mm_runs m) (mm_checkpoints m) checkpoints /\
    (o = [] -> paused_exactly (interrupted_in runs) (mm_checkpoints m) checkpoints) /\
    stored d' (with_checkpoints checkpoints (with_runs (recover_all now runs (mm_runs m)) m)).
Proof.
  intros Hd Hnow. revert d m o rec Hd. induction runs as [|r runs IH]; intros d m o rec Hd Hnd Hin; cbn [map recover_rows run_text].
  { intros Hr. unfold mret, sql_ret in Hr. injection Hr as <- <- <-. split; [done|]. exists (mm_checkpoints m).
    split; [by left|]. split; [by intros _ id|by destruct m]. }
  apply NoDup_cons in Hnd as [Hr Hnd]. intros (id & o1 & d1 & Hlift & Hp)%sql_bind_ok.
  pose proof (lift_spends _ _ _ _ Hlift) as Ho1. cbn in Ho1. subst o1. apply lift_ok in Hlift as [Hid ->].
  unfold parse_uuid in Hid. rewrite sql_uuid in Hid. injection Hid as <-.
  apply sql_bind_ok in Hp as (s & o2 & d2 & Hlift & Hp). pose proof (lift_spends _ _ _ _ Hlift) as Ho2. cbn in Ho2. subst o2.
  apply lift_ok in Hlift as [Hs ->]. rewrite parse_state_name in Hs. injection Hs as <-.
  assert (Hrest : forall x, x ∈ runs -> run_id x <> run_id r).
  { intros x Hx He. apply Hr. rewrite <- He. by apply list_elem_of_fmap_2. }
  assert (Hquiet : is_active (run_state r) = false -> <[run_id r := recovered_run now r]> (mm_runs m) = mm_runs m).
  { intros Ha. unfold recovered_run. rewrite Ha. apply insert_id, Hin. set_solver. }
  unfold open_runs. cbn [List.filter].
  assert (Hidle : is_active (run_state r) = false -> forall before after,
    paused_exactly (interrupted_in runs) before after -> paused_exactly (interrupted_in (r :: runs)) before after).
  { intros Ha before after Hex i. unfold interrupted_in. cbn. rewrite Ha, andb_false_r. apply Hex. }
  destruct (is_terminal (run_state r)) eqn:Ht; cbn [negb].
  { assert (Ha : is_active (run_state r) = false) by (by destruct (run_state r)).
    apply (IH _ _ _ _ Hd) in Hp as (-> & ck & Hck & Hex & Hst); [|done|intros; apply Hin; set_solver]. split; [done|]. exists ck.
    split; [done|]. split; [by intros ->; apply Hidle, Hex|]. unfold recover_all in *. cbn. by rewrite Hquiet. }
  rewrite state_cases in Hp by done. destruct (is_active (run_state r)) eqn:Ha; cbn [negb] in Hp.
  - by apply (recover_active now r runs d m o rec o' d' IH).
  - apply sql_bind_ok in Hp as (others & o5 & d5 & Hp & Hret). unfold mret, sql_ret in Hret. injection Hret as <- <- <-.
    apply (IH _ _ _ _ Hd) in Hp as (-> & ck & Hck & Hex & Hst); [|done|intros; apply Hin; set_solver].
    split; [cbn [map]; by rewrite entry_quiet|]. exists ck. split; [done|]. split; [by intros ->; apply Hidle, Hex|].
    unfold recover_all in *. cbn. by rewrite Hquiet.
Qed.

Lemma forall2_choice {A B} (P : A -> B -> Prop) l : (forall x, x ∈ l -> exists y, P x y) -> exists l', Forall2 P l l'.
Proof.
  induction l as [|x l IH]; intros Hl; [by exists []|]. destruct (Hl x ltac:(set_solver)) as [y Hy].
  destruct IH as [l' Hl']; [set_solver|]. exists (y :: l'). by constructor.
Qed.

Lemma run_rows d m :
  stored d m -> exists runs,
    map (fun x => (fst x, rr_state (snd x))) (scan (db_runs d)) = map run_text runs /\
    NoDup (map run_id runs) /\ forall r, r ∈ runs <-> mm_runs m !! run_id r = Some r.
Proof.
  intros Hd.
  assert (Hchoice : forall x, x ∈ scan (db_runs d) -> exists r, fst x = uuid_display (run_id r) /\ rr_state (snd x) = state_name (run_state r) /\
    mm_runs m !! run_id r = Some r).
  { intros [key row] Hx. rewrite (sql_scan _ (db_runs d)) in Hx. apply elem_of_map_to_list in Hx.
    destruct (st_run_keys _ _ Hd key ltac:(eauto)) as [id ->]. pose proof (st_runs _ _ Hd id) as Hs. rewrite Hx in Hs.
    destruct (mm_runs m !! id) as [r|] eqn:Hm; [|done]. exists r. destruct Hs as (<- & _ & Hst & _). by split_and!. }
  destruct (forall2_choice _ _ Hchoice) as [runs Hruns]. exists runs.
  assert (Hkeys : map fst (scan (db_runs d)) = map uuid_display (map run_id runs)).
  { clear Hchoice. induction Hruns as [|x r l runs (Hx & _) _ IH]; cbn; [done|]. by rewrite Hx, IH. }
  assert (Hnd : NoDup (map run_id runs)).
  { apply (NoDup_fmap_1 uuid_display). change (uuid_display <$> map run_id runs) with (map uuid_display (map run_id runs)).
    rewrite <- Hkeys. rewrite (sql_scan _ (db_runs d)). apply NoDup_fst_map_to_list. }
  split_and!; [|done|].
  - clear Hchoice Hkeys Hnd. induction Hruns as [|x r l runs (Hx & Hst & _) _ IH]; cbn; [done|]. unfold run_text at 1. by rewrite Hx, Hst, IH.
  - intros r. split.
    + intros Hr. apply list_elem_of_lookup_1 in Hr as [n Hn]. destruct (Forall2_lookup_r _ _ _ _ _ Hruns Hn) as (x & _ & _ & _ & Hm). done.
    + intros Hm. pose proof (st_runs _ _ Hd (run_id r)) as Hs. rewrite Hm in Hs.
      destruct (db_runs d !! uuid_display (run_id r)) as [row|] eqn:Hrow; [|done].
      apply elem_of_map_to_list in Hrow. rewrite <- (sql_scan _ (db_runs d)) in Hrow.
      apply list_elem_of_lookup_1 in Hrow as [n Hn]. destruct (Forall2_lookup_l _ _ _ _ _ Hruns Hn) as (r' & Hr' & Hk & _ & Hm').
      apply display_inj in Hk. rewrite Hk in Hm. assert (r' = r) as -> by congruence. by apply list_elem_of_lookup_2 in Hr'.
Qed.

Lemma recover_rows_runs now runs d :
  exists rec d', recover_rows now (map run_text runs) [] d = (Ok rec, [], d').
Proof.
  revert d. induction runs as [|r runs IH]; intros d; cbn [map recover_rows run_text]; [by repeat eexists|].
  assert (Hid : sql_lift (parse_uuid (uuid_display (run_id r))) [] d = (Ok (run_id r), [], d)).
  { unfold sql_lift, parse_uuid. by rewrite sql_uuid. }
  rewrite (sql_bind_runs _ _ _ _ _ Hid).
  assert (Hs : sql_lift (parse_state (state_name (run_state r))) [] d = (Ok (run_state r), [], d)).
  { unfold sql_lift. by rewrite parse_state_name. }
  rewrite (sql_bind_runs _ _ _ _ _ Hs). destruct (is_terminal _); [apply IH|]. destruct (_ || _).
  - destruct (IH d) as (rec & d' & Hr). rewrite (sql_bind_runs _ _ _ _ _ Hr). by repeat eexists.
  - erewrite sql_bind_runs by reflexivity. erewrite sql_bind_runs by reflexivity.
    match goal with |- context [recover_rows now (map run_text runs) ≫= _] => idtac end.
    match goal with |- exists _ _, (_ ≫= _) [] ?x = _ => destruct (IH x) as (rec & d' & Hr) end.
    rewrite (sql_bind_runs _ _ _ _ _ Hr). by repeat eexists.
Qed.

(** C37. Recovery pauses what was under way, and nothing else.  On startup, after any session:
    when recovery succeeds, every run that was in an active state is paused, every other
    is as it was, so that none is active; what is reported are the runs that have not
    ended, each with whether it was interrupted; events, approvals and pending actions
    are untouched, and of the checkpoints only the state of interrupted runs changes:
    exactly those are paused when no statement fails, while the failure of the statement
    that pauses a checkpoint is ignored - recovery then succeeds, with the run paused and
    its checkpoint as it was.  When recovery answers an error nothing has changed; when
    no statement fails it succeeds. *)
Theorem recovery_pauses_active_runs now o l m :
  session l m -> fits64 now ->
  let '(result, l') := recover_on_startup now o l in
  (o = [] -> is_ok result = true) /\
  match result with
  | Err _ => l' = l
  | Ok recovered =>
      (exists runs, recovered = map (recovered_entry now) (open_runs runs) /\ NoDup (map run_id runs) /\
         forall r, r ∈ runs <-> mm_runs m !! run_id r = Some r) /\
      (forall id, fst (sqlite_get id [] l') = Ok (recovered_run now <$> mm_runs m !! id)) /\
      (forall id r, fst (sqlite_get id [] l') = Ok (Some r) -> is_active (run_state r) = false) /\
      (forall id after, fits63 after -> fst (sqlite_events_after id after [] l') = fst (sqlite_events_after id after [] l)) /\
      (forall id, fst (sqlite_approval_get id [] l') = fst (sqlite_approval_get id [] l)) /\
      (forall id, mm_commands m !! id = None -> fst (sqlite_pending_get id [] l') = fst (sqlite_pending_get id [] l)) /\
      (forall id, mm_calls m !! id = None -> fst (sqlite_get_command id [] l') = fst (sqlite_get_command id [] l)) /\
      exists checkpoints, paused_some (mm_runs m) (mm_checkpoints m) checkpoints /\
        (o = [] -> paused_exactly (was_interrupted (mm_runs m)) (mm_checkpoints m) checkpoints) /\
        forall id, fst (sqlite_checkpoint_get id [] l') = Ok (checkpoints !! id)
  end.
Proof.
  intros Hs Hnow. destruct (session_stored l m Hs) as [Hd Hl].
  destruct (run_rows _ _ Hd) as (runs & Hrows & Hnd & Hin). destruct (recover_on_startup now o l) as [result l'] eqn:Hr. split.
  { intros ->. unfold recover_on_startup in Hr. destruct (recover_rows_runs now runs (held l)) as (rec & d' & Hrec).
    assert (Hbody : recover_body now [] (held l) = (Ok rec, [], d')).
    { unfold recover_body. erewrite sql_bind_runs by reflexivity. by rewrite Hrows. }
    unfold with_tx in Hr. rewrite Hl in Hr. cbn in Hr. rewrite Hbody in Hr. cbn in Hr. by injection Hr as <- _. }
  destruct result as [recovered|e]; [|by eapply with_tx_err]. apply with_tx_ok in Hr as (o1 & d' & Hbody & ->).
  unfold recover_body in Hbody. apply sql_bind_ok in Hbody as (rows & o2 & d2 & Hselect & Hbody).
  assert (Ho2 : o = [] -> o2 = []) by (intros ->; cbn in Hselect; by injection Hselect). apply select_ok in Hselect as [-> ->].
  rewrite Hrows in Hbody. apply (recover_rows_ok now runs _ m) in Hbody as (-> & ck & Hck & Hex & Hst); [|done|done|done|by intros r; apply Hin].
  set (l' := {| poisoned := false; held := d' |}). set (m' := with_checkpoints ck _) in Hst.
  assert (Hruns : forall id, mm_runs m' !! id = recovered_run now <$> mm_runs m !! id).
  { intros id. cbn. rewrite recover_all_lookup; [|done|by intros r; apply Hin]. case_bool_decide as Hid; [done|].
    destruct (mm_runs m !! id) as [r|] eqn:Hm; [|done]. exfalso. apply Hid. pose proof (st_runs _ _ Hd id) as Hsm.
    rewrite Hm in Hsm. destruct (db_runs (held l) !! uuid_display id); [|done]. destruct Hsm as (<- & _).
    apply list_elem_of_fmap_2. by apply Hin. }
  assert (Hget : forall id, fst (sqlite_get id [] l') = Ok (recovered_run now <$> mm_runs m !! id)).
  { intros id. by rewrite (reads_run l' m' eq_refl Hst), Hruns. }
  split_and!; [by eauto|exact Hget| | | | | |].
  - intros id r Hg. rewrite Hget in Hg. injection Hg as Hg. apply fmap_Some in Hg as (x & _ & ->).
    unfold recovered_run. by destruct (is_active (run_state x)) eqn:Ha.
  - intros id after Ha. by rewrite (reads_events l' m' eq_refl Hst id after Ha), (reads_events l m Hl Hd id after Ha).
  - intros id. by rewrite (reads_approval l' m' eq_refl Hst), (reads_approval l m Hl Hd).
  - intros id Hno. by rewrite (reads_call l' m' eq_refl Hst id Hno), (reads_call l m Hl Hd id Hno).
  - intros id Hno. by rewrite (reads_command l' m' eq_refl Hst id Hno), (reads_command l m Hl Hd id Hno).
  - exists ck. split; [done|]. split; [|intros id; by rewrite (reads_checkpoint l' m' eq_refl Hst)].
    intros Ho id. rewrite (Hex (Ho2 Ho) id), (interrupted_stored runs (mm_runs m) id Hin); [done|].
    intros r Hm. pose proof (st_runs _ _ Hd id) as Hsm. rewrite Hm in Hsm.
    destruct (db_runs (held l) !! uuid_display id); [|done]. by destruct Hsm.
Qed.
End Facts.

(** ** Runs *)

(** A [serde_json] that writes the messages of a user, and lists of identifiers. *)
Definition plain_char (c : chr) : bool := negb ((c =? 10)%N || (c =? 34)%N || (c =? 92)%N).
Definition quoted (s : string) : str := map (fun c => if (c =? 39)%N then 34%N else c) (lit s).
Definition message_head : str := quoted "{'type':'user_message_added','payload':{'content':'".
Definition message_tail : str := lit "}}".
Definition message_json (e : AgentEvent) : str :=
  match e with
  | UserMessageAdded content => if forallb plain_char content then message_head ++ content ++ 34%N :: message_tail else lit "{}"
  | _ => lit "{}"
  end.
Definition message_of_json (t : str) : option AgentEvent :=
  rest ← strip_prefix t message_head;
  parts ← split_once (N.eqb 34) rest;
  if str_eqb (snd parts) message_tail then Some (UserMessageAdded (fst parts)) else None.
Definition number_of_text (t : str) : option N := if all_digits t then Some (digits_value t) else None.

Definition list_json (l : list Uuid) : str := dec (Npos (encode l)).
Definition list_of_json (t : str) : option (list Uuid) :=
  match number_of_text t with Some (Npos p) => decode p | _ => None end.

#[local] Instance no_serde {A} : Serde A := {| to_json _ := lit "{}"; from_json _ := None |}.
#[local] Instance sample_externals : Externals := quoting_externals.
#[local] Instance sample_sql : SqlExternals := {|
  uuid_parse := number_of_text;
  scan R m := map_to_list m;
  event_serde := {| to_json := message_json; from_json := message_of_json |};
  call_serde := no_serde; command_serde := no_serde; interrupt_serde := no_serde; budget_serde := no_serde;
  ids_serde := {| to_json := list_json; from_json := list_of_json |};
  bindings_serde := no_serde;
  type_of_json _ := None;
|}.

Lemma no_serde_laws A : @JsonLaws A no_serde.
Proof. refine {| representable _ := False |}; [done| |done]. intros a. split; [done|]. by apply (bool_decide_unpack _); vm_compute. Qed.

Definition plain_message (e : AgentEvent) : Prop :=
  match e with UserMessageAdded content => forallb plain_char content = true | _ => False end.

Lemma tail_closed : message_tail = lit "}" ++ [125%N].
Proof. vm_compute. reflexivity. Qed.
Lemma frame_one_line : forallb (fun c => negb (c =? 10)%N) (message_head ++ 34%N :: message_tail) = true.
Proof. vm_compute. reflexivity. Qed.
#[local] Opaque message_head message_tail.

Lemma message_read_back content :
  forallb plain_char content = true ->
  message_of_json (message_head ++ content ++ 34%N :: message_tail) = Some (UserMessageAdded content).
Proof.
  intros Hp. unfold message_of_json, strip_prefix. rewrite starts_with_app, drop_app_length. cbn -[str_eqb].
  rewrite split_once_sep; [cbn -[str_eqb]; by rewrite str_eqb_refl| |done].
  intros c Hc. rewrite Forallb_forall in Hp. specialize (Hp c Hc). unfold plain_char in Hp.
  apply negb_true_iff, orb_false_iff in Hp as [Hp _]. apply orb_false_iff in Hp as [_ Hp]. by rewrite N.eqb_sym.
Qed.

Lemma message_one_line content :
  forallb plain_char content = true -> 10%N ∉ message_head ++ content ++ 34%N :: message_tail.
Proof.
  rewrite Forallb_forall. intros Hp Hin. pose proof frame_one_line as Hf. rewrite Forallb_forall in Hf.
  assert (Hc : 10%N ∈ message_head ++ 34%N :: message_tail \/ 10%N ∈ content).
  { revert Hin. rewrite !elem_of_app. tauto. }
  destruct Hc as [Hc|Hc]; [by specialize (Hf _ Hc)|by specialize (Hp _ Hc)].
Qed.

Lemma split_once_suffix p (s a b : str) : split_once p s = Some (a, b) -> exists y, s = y ++ b.
Proof.
  revert a. induction s as [|c s IH]; intros a; cbn; [done|]. destruct (p c); [intros [= _ <-]; by exists [c]|].
  destruct (split_once p s) as [[u v]|] eqn:Hr; [|done]. intros [= _ ->]. destruct (IH u eq_refl) as [y ->]. by exists (c :: y).
Qed.

Lemma message_ends t e : message_of_json t = Some e -> last (trim t) = Some 125%N.
Proof.
  unfold message_of_json. intros (rest & Hrest & Ht)%bind_Some. apply bind_Some in Ht as ([a b] & Hsp & Ht). cbn in Ht.
  destruct (str_eqb b message_tail) eqn:Hb; [|done]. apply str_eqb_eq in Hb as ->. unfold strip_prefix in Hrest.
  destruct (starts_with t message_head) eqn:Hs; [|done]. apply starts_with_spec in Hs as [x ->].
  rewrite drop_app_length in Hrest. injection Hrest as ->. destruct (split_once_suffix _ _ _ _ Hsp) as [y ->].
  rewrite tail_closed, !app_assoc. by apply trim_closed.
Qed.

Lemma message_laws : @JsonLaws AgentEvent (@event_serde sample_sql).
Proof.
  refine {| representable := plain_message |}.
  - intros [] Hp; try done. cbn in Hp. cbn. rewrite Hp. by apply message_read_back.
  - assert (Hbare : lit "{}" <> [] /\ 10%N ∉ lit "{}") by (split; [done|by apply (bool_decide_unpack _); vm_compute]).
    intros []; try done. cbn. destruct (forallb _ _) eqn:Hp; [|done]. split; [|by apply message_one_line].
    intros He%(f_equal length). rewrite !length_app in He. cbn in He. lia.
  - apply message_ends.
Qed.

Lemma number_read_back n : number_of_text (dec n) = Some n.
Proof. unfold number_of_text. by rewrite all_digits_dec, digits_value_dec. Qed.
Lemma list_read_back l : list_of_json (list_json l) = Some l.
Proof. unfold list_of_json, list_json. rewrite number_read_back. apply decode_encode. Qed.

#[local] Instance sample_laws : SqlLaws := {|
  sql_uuid := number_read_back; sql_scan R m := Permutation_refl (map_to_list m); event_laws := message_laws;
  call_laws := no_serde_laws _; command_laws := no_serde_laws _; interrupt_laws := no_serde_laws _;
  budget_laws := no_serde_laws _; ids_read_back := list_read_back |}.

(** A run with a message, an approval that is granted, and the state it was in when the
    program ended. *)
Definition said (n : N) (text : string) : AgentEventEnvelope :=
  {| ev_run_id := 7; ev_seq := n; ev_timestamp_epoch_ms := 5; ev_event := UserMessageAdded (lit text) |}.
Definition asked (s : ApprovalRequestState) : ApprovalRequest :=
  {| ap_id := 9; ap_run_id := 7; ap_tool_call_id := 3; ap_tool_name := lit "service.restart"; ap_arguments_hash := lit "ab";
     ap_target_ids := [4]%N; ap_risk := lit "high"; ap_policy_version := 1; ap_policy_hash := lit "cd";
     ap_precondition_ref := None; ap_change_set_id := None; ap_change_set_version := None; ap_state := s;
     ap_created_at_epoch_ms := 6; ap_decided_at_epoch_ms := None |}.
Definition sample_calls : list StoreCall :=
  [ScInsert (with_created_at 7 5); ScAppend 100 (said 1 "disk is full"); ScApprove (asked Pending);
   ScSaveApproval (asked Granted); ScSave (set_state (with_created_at 7 5) Acting 8)].
Definition next_pair (p : Locked AgentDb * Memory) (c : StoreCall) : Locked AgentDb * Memory :=
  (snd (sqlite_call c [] (fst p)), if is_ok (fst (sqlite_call c [] (fst p))) then snd (memory_call c (snd p)) else snd p).
Definition sample_pair (n : nat) : Locked AgentDb * Memory :=
  foldl next_pair ({| poisoned := false; held := empty_db |}, no_memory) (firstn n sample_calls).

Lemma sample_next n c :
  session (fst (sample_pair n)) (snd (sample_pair n)) -> firstn (S n) sample_calls = firstn n sample_calls ++ [c] ->
  may_write c (snd (sample_pair n)) -> session (fst (sample_pair (S n))) (snd (sample_pair (S n))).
Proof.
  intros Hs Hc Hw. unfold sample_pair at 1 2. rewrite Hc, foldl_app. cbn [foldl]. fold (sample_pair n).
  unfold next_pair. cbn [fst snd]. by apply session_called.
Qed.

Lemma sample_session : session (fst (sample_pair 5)) (snd (sample_pair 5)).
Proof.
  assert (Hf : forall n, (n < 101)%N -> fits64 n) by (unfold fits64; lia).
  assert (Hap : approval_fits (asked Pending) /\ approval_fits (asked Granted)) by (unfold approval_fits; cbn; split_and!; try apply Hf; try done; lia).
  eapply sample_next; [|reflexivity|]; [eapply sample_next; [|reflexivity|]; [eapply sample_next; [|reflexivity|];
    [eapply sample_next; [|reflexivity|]; [eapply sample_next; [|reflexivity|]; [apply session_opened|]|]|]|]|].
  - cbn. unfold run_fits. cbn. split_and!; try apply Hf; lia.
  - split_and!; [apply Hf; cbn; lia|apply Hf; cbn; lia|]. vm_compute. reflexivity.
  - split; [apply Hap|]. intros old Ho. vm_compute in Ho. discriminate Ho.
  - split; [apply Hap|]. intros old Ho. vm_compute in Ho. injection Ho as <-. unfold same_binding. cbn. done.
  - split; [unfold run_fits; cbn; split_and!; try apply Hf; lia|]. intros old Ho. vm_compute in Ho. injection Ho as <-. reflexivity.
Qed.

Lemma sqlite_refines_memory_witness :
  fst (sqlite_all_events 7 [] (fst (sample_pair 5))) = Ok [said 1 "disk is full"] /\
  fst (sqlite_events_after 7 0 [] (fst (sample_pair 5)))
  = events_after 7 0 {| poisoned := false; held := mm_events (snd (sample_pair 5)) |}.
Proof.
  split; [vm_compute; reflexivity|].
  destruct (sqlite_refines_memory _ _ sample_session) as (_ & _ & _ & Hev & _).
  apply (Hev 7%N 0%N). unfold fits63. lia.
Defined.

Definition approval_steps : list (StoreStep * list bool) :=
  [(StCall (ScSaveApproval (asked Granted)), []); (StRecover 50, [])].

Lemma approval_binding_is_kept_witness :
  fst (sqlite_approval_get 9 [] (later approval_steps (fst (sample_pair 3)))) = Ok (Some (asked Granted)) /\
  same_binding (asked Pending) (asked Granted).
Proof.
  assert (Hg : fst (sqlite_approval_get 9 [] (later approval_steps (fst (sample_pair 3)))) = Ok (Some (asked Granted)))
    by (vm_compute; reflexivity).
  split; [exact Hg|].
  assert (H0 : fst (sqlite_approval_get 9 [] (fst (sample_pair 3))) = Ok (Some (asked Pending))) by (vm_compute; reflexivity).
  destruct (approval_binding_is_kept 9 (asked Pending) (fst (sample_pair 3)) approval_steps H0) as [_ Hb].
  exact (proj2 (Hb _ Hg)).
Defined.

Definition token_store : Locked AgentDb := snd (sqlite_append 101 (said 2 "rotate the api token") [] (fst (sample_pair 5))).

Lemma redacted_event_hides_log_witness :
  fst (sqlite_append 101 (said 2 "rotate the api token") [] (fst (sample_pair 5))) = Ok tt /\
  fst (sqlite_events_after 7 0 [] (later approval_steps token_store)) = Err StoreCorrupt.
Proof.
  assert (Ha : sqlite_append 101 (said 2 "rotate the api token") [] (fst (sample_pair 5)) = (Ok tt, token_store)).
  { unfold token_store. destruct (sqlite_append _ _ _ _) as [r l'] eqn:Hr. assert (Hok : r = Ok tt); [|by subst r].
    change r with (fst (r, l')). rewrite <- Hr. vm_compute. reflexivity. }
  split; [by rewrite Ha|].
  apply (redacted_event_hides_log 101 (said 2 "rotate the api token") [] (fst (sample_pair 5)) token_store approval_steps 0);
    [vm_compute; reflexivity|unfold fits63; cbn; lia|cbn; lia|exact Ha].
Defined.

Lemma recovery_pauses_active_runs_witness :
  let '(result, l') := recover_on_startup 50 [] (fst (sample_pair 5)) in
  result = Ok [{| rec_run_id := 7; rec_state := Paused; rec_interrupted := true |}] /\
  forall id r, fst (sqlite_get id [] l') = Ok (Some r) -> is_active (run_state r) = false.
Proof.
  pose proof (recovery_pauses_active_runs 50 [] (fst (sample_pair 5)) (snd (sample_pair 5)) sample_session ltac:(unfold fits64; lia)) as Hr.
  assert (Hresult : fst (recover_on_startup 50 [] (fst (sample_pair 5)))
    = Ok [{| rec_run_id := 7; rec_state := Paused; rec_interrupted := true |}]) by (vm_compute; reflexivity).
  destruct (recover_on_startup 50 [] (fst (sample_pair 5))) as [result l']. cbn in Hresult. subst result.
  split; [reflexivity|]. exact (proj1 (proj2 (proj2 (proj2 Hr)))).
Defined.

(** An event of a run that is not there: the foreign key of the table refuses it, the
    stores in memory take it. *)
Example event_without_run :
  fst (sqlite_append 101 (said 1 "hello") [] {| poisoned := false; held := empty_db |}) = Err PersistenceFailed /\
  fst (memory_call (ScAppend 101 (said 1 "hello")) no_memory) = Ok tt.
Proof. split; vm_compute; reflexivity. Qed.

(** The statement that pauses the checkpoint fails: the run is paused, its checkpoint is
    not, and nothing says so. *)
Definition sample_checkpoint : AgentCheckpoint :=
  {| cp_run_id := 7; cp_state := Acting; cp_event_cursor := 1; cp_pending_interrupt := None;
     cp_budget := {| bc_rounds_used := 1; bc_tool_calls_used := 1; bc_elapsed_ms := 1 |};
     cp_target_ids := [4]%N; cp_fact_snapshot := []; cp_created_at_epoch_ms := 9 |}.
Definition checkpoint_state (l : Locked AgentDb) : option str := ck_state <$> db_checkpoints (held l) !! uuid_display 7.
Definition run_row_state (l : Locked AgentDb) : option str := rr_state <$> db_runs (held l) !! uuid_display 7.
Example unpaused_checkpoint_is_ignored :
  let before := snd (sqlite_checkpoint_save 9 sample_checkpoint [] (fst (sample_pair 5))) in
  let paused := recover_on_startup 50 [] before in
  let failed := recover_on_startup 50 [false; false; false; false; true] before in
  checkpoint_state before = Some (state_name Acting) /\
  checkpoint_state (snd paused) = Some (state_name Paused) /\ run_row_state (snd paused) = Some (state_name Paused) /\
  fst failed = fst paused /\ run_row_state (snd failed) = Some (state_name Paused) /\
  checkpoint_state (snd failed) = Some (state_name Acting).
Proof. vm_compute. split_and!; reflexivity. Qed.

(** A goal that names a token is not a secret, and its redacted form has the word still:
    what the controller has redacted is redacted again, as JSON. *)
Example redacted_goal_is_lost :
  fst (redact_secrets (lit "api token: abc")) = lit "api token=[REDACTED]" /\
  fst (sqlite_all_events 7 [] (snd (sqlite_append 101 (said 2 "api token=[REDACTED]") [] (fst (sample_pair 5))))) = Err StoreCorrupt.
Proof. split; vm_compute; reflexivity. Qed.
