(* ===== verification/SqliteFleet.v ===== *)
(** * Durable fleets (agent/sqlite.rs)

    [FleetRunStore] and [FleetControlStore] of [SqliteAgentDatabase]: a fleet is one
    row with its targets, stages and children in tables of their own, which are
    written anew with every save; its approvals, and its numbered events, of which the
    last 512 are kept.  [order] is the order of the hash map in the check of a plan. *)
From S2P Require Import Prelude Str RunState Externals FleetRun FleetControl Stores SqliteTables Sqlite.

(** ** Names *)
Definition fleet_state_name (s : FleetRunStateV2) : str :=
  lit match s with
  | FlDraft => "draft" | FlValidatingTargets => "validating_targets" | FlInvestigating => "investigating"
  | FlPlanning => "planning" | FlAwaitingApproval => "awaiting_approval" | FlApproved => "approved"
  | FlExecuting => "executing" | FlVerifying => "verifying" | FlPausedForReview => "paused_for_review"
  | FlSucceeded => "succeeded" | FlFailed => "failed" | FlRollingBack => "rolling_back"
  | FlRolledBack => "rolled_back" | FlRollbackFailed => "rollback_failed" | FlInterrupted => "interrupted"
  | FlCancelled => "cancelled"
  end%string.
Definition FLEET_STATES : list FleetRunStateV2 :=
  [FlDraft; FlValidatingTargets; FlInvestigating; FlPlanning; FlAwaitingApproval; FlApproved; FlExecuting; FlVerifying;
   FlPausedForReview; FlSucceeded; FlFailed; FlRollingBack; FlRolledBack; FlRollbackFailed; FlInterrupted; FlCancelled].
Definition stage_state_name (s : FleetStageStateV2) : str :=
  lit match s with
  | StPending => "pending" | StReady => "ready" | StRunning => "running" | StAwaitingApproval => "awaiting_approval"
  | StVerifying => "verifying" | StSucceeded => "succeeded" | StFailed => "failed" | StBlocked => "blocked"
  | StCancelled => "cancelled" | StRollbackPending => "rollback_pending" | StRolledBack => "rolled_back"
  | StRollbackFailed => "rollback_failed"
  end%string.
Definition STAGE_STATES : list FleetStageStateV2 :=
  [StPending; StReady; StRunning; StAwaitingApproval; StVerifying; StSucceeded; StFailed; StBlocked; StCancelled;
   StRollbackPending; StRolledBack; StRollbackFailed].
Definition strategy_name (s : FleetExecutionStrategyV2) : str :=
  lit match s with
  | FxSequential => "sequential" | FxCanary => "canary" | FxRollingBatch => "rolling_batch" | FxParallel => "parallel"
  end%string.
Definition failure_policy_name (p : FleetFailurePolicyV2) : str :=
  lit match p with
  | FpStop => "stop" | FpPauseForReview => "pause_for_review" | FpContinue => "continue" | FpRollback => "rollback"
  end%string.
Definition recovery_name (r : FleetRecoveryStateV2) : str :=
  lit match r with FrLive => "live" | FrMetadataOnly => "metadata_only" end%string.
Definition fleet_approval_name (s : FleetApprovalStateV2) : str :=
  lit match s with
  | FaPending => "pending" | FaGranted => "granted" | FaRejected => "rejected" | FaInvalidated => "invalidated"
  end%string.
Definition event_kind_name (k : FleetEventKindV2) : str :=
  lit match k with
  | FeDraftCreated => "draft_created" | FeApprovalRequired => "approval_required" | FeApprovalGranted => "approval_granted"
  | FeApprovalRejected => "approval_rejected" | FeApprovalInvalidated => "approval_invalidated"
  | FeChildClaimed => "child_claimed" | FeStateChanged => "state_changed" | FeRecoveryInterrupted => "recovery_interrupted"
  end%string.

(** [parse_fleet_enum] at each type. *)
Definition parse_fleet_state := parse_name fleet_state_name FLEET_STATES.
Definition parse_stage_state := parse_name stage_state_name STAGE_STATES.
Definition parse_strategy := parse_name strategy_name [FxSequential; FxCanary; FxRollingBatch; FxParallel].
Definition parse_failure_policy := parse_name failure_policy_name [FpStop; FpPauseForReview; FpContinue; FpRollback].
Definition parse_recovery := parse_name recovery_name [FrLive; FrMetadataOnly].
Definition parse_fleet_approval := parse_name fleet_approval_name [FaPending; FaGranted; FaRejected; FaInvalidated].
Definition parse_event_kind :=
  parse_name event_kind_name [FeDraftCreated; FeApprovalRequired; FeApprovalGranted; FeApprovalRejected;
                              FeApprovalInvalidated; FeChildClaimed; FeStateChanged; FeRecoveryInterrupted].

(** [u64::try_from], also of a [usize], and [u32::try_from]. *)
Definition checked_u64 (z : Z) : result AgentStoreError N := reject_if (z <? 0)%Z StoreCorrupt ;; Ok (Z.to_N z).
Definition checked_u32 (z : Z) : result AgentStoreError N :=
  reject_if ((z <? 0)%Z || (Z.of_N U32_MAX <? z)%Z) StoreCorrupt ;; Ok (Z.to_N z).

(** ** Tables *)
Definition fleets (f : FleetTables -> option FleetTables) : Sql unit :=
  execute (fun d => t ← f (db_fleets d); Some (set_fleets t d)).

Definition set_ft_runs (x : gmap str FleetRunRow) (t : FleetTables) : FleetTables :=
  {| ft_runs := x; ft_targets := ft_targets t; ft_stages := ft_stages t; ft_children := ft_children t;
     ft_approvals := ft_approvals t; ft_events := ft_events t |}.
Definition set_ft_targets (x : list FleetTargetRow) (t : FleetTables) : FleetTables :=
  {| ft_runs := ft_runs t; ft_targets := x; ft_stages := ft_stages t; ft_children := ft_children t;
     ft_approvals := ft_approvals t; ft_events := ft_events t |}.
Definition set_ft_stages (x : list FleetStageRow) (t : FleetTables) : FleetTables :=
  {| ft_runs := ft_runs t; ft_targets := ft_targets t; ft_stages := x; ft_children := ft_children t;
     ft_approvals := ft_approvals t; ft_events := ft_events t |}.
Definition set_ft_children (x : list FleetChildRow) (t : FleetTables) : FleetTables :=
  {| ft_runs := ft_runs t; ft_targets := ft_targets t; ft_stages := ft_stages t; ft_children := x;
     ft_approvals := ft_approvals t; ft_events := ft_events t |}.
Definition set_ft_approvals (x : gmap str FleetApprovalRow) (t : FleetTables) : FleetTables :=
  {| ft_runs := ft_runs t; ft_targets := ft_targets t; ft_stages := ft_stages t; ft_children := ft_children t;
     ft_approvals := x; ft_events := ft_events t |}.
Definition set_ft_events (x : list FleetEventRow) (t : FleetTables) : FleetTables :=
  {| ft_runs := ft_runs t; ft_targets := ft_targets t; ft_stages := ft_stages t; ft_children := ft_children t;
     ft_approvals := ft_approvals t; ft_events := x |}.

(** A row may be added: its fleet is there, and no row of the fleet has one of its keys. *)
Definition may_add {R} (run : R -> str) (clash : R -> R -> bool) (rows : list R) (t : FleetTables) (row : R) : bool :=
  bool_decide (is_Some (ft_runs t !! run row)) && negb (existsb (fun r => str_eqb (run r) (run row) && clash r row) rows).

Section Fleets.
Context `{Externals, SqlExternals} (order : gmap Uuid N -> list (Uuid * N)).

(** ** Writing a fleet *)
Definition fleet_row (old : option FleetRunRow) (r : FleetRunV2) : FleetRunRow :=
  {| fw_version := as_i64 (fr_version r); fw_state := fleet_state_name (fr_state r);
     fw_production := if fr_production r then 1%Z else 0%Z; fw_failure_policy := failure_policy_name (fr_failure_policy r);
     fw_graph_digest := fr_graph_digest r; fw_recovery_state := recovery_name (fr_recovery_state r);
     fw_created_at := from_option fw_created_at (as_i64 (fr_created_at r)) old;
     fw_updated_at := as_i64 (fr_updated_at r) |}.

Definition target_row (run : str) (t : FleetTargetBinding) : FleetTargetRow :=
  {| tw_run := run; tw_ordinal := as_i64 (ftb_ordinal t); tw_profile_id := uuid_display (ftb_profile_id t);
     tw_session_id := uuid_display (ftb_session_id t); tw_role := ftb_role t |}.
Definition target_clash (a b : FleetTargetRow) : bool :=
  (tw_ordinal a =? tw_ordinal b)%Z || str_eqb (tw_profile_id a) (tw_profile_id b)
  || str_eqb (tw_session_id a) (tw_session_id b).
Definition add_target (row : FleetTargetRow) : Sql unit :=
  fleets (fun t => if may_add tw_run target_clash (ft_targets t) t row
                   then Some (set_ft_targets (ft_targets t ++ [row]) t) else None).

Definition stage_row (run : str) (ordinal : nat) (s : FleetStage) : FleetStageRow :=
  {| sw_run := run; sw_ordinal := as_i64 (N.of_nat ordinal); sw_id := uuid_display (fs_id s);
     sw_target_ids := to_json (fs_target_ids s); sw_dependency_ids := to_json (fs_depends_on s);
     sw_strategy := strategy_name (fs_strategy s); sw_concurrency := as_i64 (fs_concurrency_limit s);
     sw_state := stage_state_name (fs_state s) |}.
Definition stage_clash (a b : FleetStageRow) : bool := (sw_ordinal a =? sw_ordinal b)%Z || str_eqb (sw_id a) (sw_id b).
Definition add_stage (row : FleetStageRow) : Sql unit :=
  fleets (fun t => if may_add sw_run stage_clash (ft_stages t) t row
                   then Some (set_ft_stages (ft_stages t ++ [row]) t) else None).

Definition child_row (run : str) (c : FleetChildRun) : FleetChildRow :=
  {| cw_run := run; cw_stage_id := uuid_display (fc_stage_id c); cw_target_id := uuid_display (fc_target_id c);
     cw_agent_run_id := uuid_display <$> fc_agent_run_id c; cw_attempt := as_i64 (fc_attempt c);
     cw_state := stage_state_name (fc_state c); cw_error_code := fc_error_code c |}.
Definition child_clash (a b : FleetChildRow) : bool :=
  str_eqb (cw_stage_id a) (cw_stage_id b) && str_eqb (cw_target_id a) (cw_target_id b)
  && (cw_attempt a =? cw_attempt b)%Z.
Definition add_child (row : FleetChildRow) : Sql unit :=
  fleets (fun t => if may_add cw_run child_clash (ft_children t) t row
                   then Some (set_ft_children (ft_children t ++ [row]) t) else None).

Definition other_than {R} (run : R -> str) (key : str) (rows : list R) : list R :=
  List.filter (fun r => negb (str_eqb (run r) key)) rows.

Definition has_fleet (key : str) : Sql bool :=
  query PersistenceFailed (fun d => bool_decide (is_Some (ft_runs (db_fleets d) !! key))).

Definition write_fleet_run (r : FleetRunV2) (insert_only : bool) : Sql unit :=
  sql_lift (match validate_metadata order r with Ok _ => Ok tt | Err _ => Err StoreCorrupt end) ;;
  let key := uuid_display (fr_id r) in
  (if insert_only then
     known ← has_fleet key; sql_lift (reject_if known RunAlreadyExists)
   else mret tt) ;;
  fleets (fun t => Some (set_ft_runs (<[key := fleet_row (ft_runs t !! key) r]> (ft_runs t)) t)) ;;
  fleets (fun t => Some (set_ft_children (other_than cw_run key (ft_children t)) t)) ;;
  fleets (fun t => Some (set_ft_stages (other_than sw_run key (ft_stages t)) t)) ;;
  fleets (fun t => Some (set_ft_targets (other_than tw_run key (ft_targets t)) t)) ;;
  for_each (fun t => add_target (target_row key t)) (fr_targets r) ;;
  for_each (fun x => add_stage (stage_row key (fst x) (snd x))) (imap pair (fr_stages r)) ;;
  for_each (fun c => add_child (child_row key c)) (fr_children r).

(** ** Reading a fleet *)
Definition target_of_row (row : FleetTargetRow) : result AgentStoreError FleetTargetBinding :=
  profile ← parse_uuid (tw_profile_id row);
  session ← parse_uuid (tw_session_id row);
  ordinal ← checked_u64 (tw_ordinal row);
  Ok {| ftb_profile_id := profile; ftb_session_id := session; ftb_role := tw_role row; ftb_ordinal := ordinal |}.

Definition stage_of_row (row : FleetStageRow) : result AgentStoreError FleetStage :=
  id ← parse_uuid (sw_id row);
  targets ← read_json (sw_target_ids row);
  depends ← read_json (sw_dependency_ids row);
  strategy ← parse_strategy (sw_strategy row);
  limit ← checked_u64 (sw_concurrency row);
  s ← parse_stage_state (sw_state row);
  Ok {| fs_id := id; fs_summary := []; fs_target_ids := targets; fs_depends_on := depends; fs_strategy := strategy;
        fs_concurrency_limit := limit; fs_state := s |}.

Definition child_of_row (row : FleetChildRow) : result AgentStoreError FleetChildRun :=
  stage ← parse_uuid (cw_stage_id row);
  target ← parse_uuid (cw_target_id row);
  run ← read_option parse_uuid (cw_agent_run_id row);
  attempt ← checked_u32 (cw_attempt row);
  s ← parse_stage_state (cw_state row);
  Ok {| fc_stage_id := stage; fc_target_id := target; fc_agent_run_id := run; fc_attempt := attempt; fc_state := s;
        fc_error_code := cw_error_code row |}.

Definition child_leb (a b : FleetChildRow) : bool :=
  if str_eqb (cw_stage_id a) (cw_stage_id b) then
    if str_eqb (cw_target_id a) (cw_target_id b) then (cw_attempt a <=? cw_attempt b)%Z
    else str_leb (cw_target_id a) (cw_target_id b)
  else str_leb (cw_stage_id a) (cw_stage_id b).

Definition rows_of {R} (run : R -> str) (leb : R -> R -> bool) (key : str) (rows : list R) : list R :=
  sort_by leb (List.filter (fun r => str_eqb (run r) key) rows).

Definition flag_of (z : Z) : result AgentStoreError bool :=
  if (z =? 0)%Z then Ok false else if (z =? 1)%Z then Ok true else Err StoreCorrupt.

Definition load_fleet_run (id : Uuid) : Sql (option FleetRunV2) :=
  let key := uuid_display id in
  row ← query StoreCorrupt (fun d => ft_runs (db_fleets d) !! key);
  match row with
  | None => mret None
  | Some row =>
      target_rows ← select (fun d => rows_of tw_run (fun a b => tw_ordinal a <=? tw_ordinal b)%Z key (ft_targets (db_fleets d)));
      targets ← sql_lift (try_map target_of_row target_rows);
      stage_rows ← select (fun d => rows_of sw_run (fun a b => sw_ordinal a <=? sw_ordinal b)%Z key (ft_stages (db_fleets d)));
      stages ← sql_lift (try_map stage_of_row stage_rows);
      child_rows ← select (fun d => rows_of cw_run child_leb key (ft_children (db_fleets d)));
      children ← sql_lift (try_map child_of_row child_rows);
      sql_lift (
        id ← parse_uuid key;
        version ← checked_u64 (fw_version row);
        s ← parse_fleet_state (fw_state row);
        production ← flag_of (fw_production row);
        policy ← parse_failure_policy (fw_failure_policy row);
        _ ← parse_recovery (fw_recovery_state row);
        created ← checked_u64 (fw_created_at row);
        updated ← checked_u64 (fw_updated_at row);
        let run := {| fr_id := id; fr_version := version; fr_state := s; fr_production := production;
                      fr_failure_policy := policy; fr_targets := targets; fr_stages := stages; fr_children := children;
                      fr_graph_digest := fw_graph_digest row; fr_recovery_state := FrMetadataOnly;
                      fr_created_at := created; fr_updated_at := updated |} in
        match validate_metadata order run with Ok _ => Ok (Some run) | Err _ => Err StoreCorrupt end)
  end.

(** ** Events *)
Definition MAX_DURABLE_FLEET_EVENTS : Z := 512.

Definition of_fleet (key : str) (e : FleetEventRow) : bool := str_eqb (vw_run e) key.
Definition last_seq (key : str) (t : FleetTables) : Z := max_seq (map vw_seq (List.filter (of_fleet key) (ft_events t))).

Definition fleet_event_row (e : FleetEventEnvelopeV2) : FleetEventRow :=
  {| vw_run := uuid_display (fev_fleet_run_id e); vw_seq := as_i64 (fev_seq e);
     vw_timestamp_ms := as_i64 (fev_timestamp_ms e); vw_kind := event_kind_name (fev_kind e);
     vw_state := fleet_state_name (fev_state e); vw_approval_id := uuid_display <$> fev_approval_id e;
     vw_code := fev_code e |}.

(** The sum is no integer when it overflows, which fails when it is read as one. *)
Definition I64_MAX : Z := 9223372036854775807.
Definition append_fleet_event (e : FleetEventEnvelopeV2) : Sql unit :=
  let key := uuid_display (fev_fleet_run_id e) in
  expected ← statement PersistenceFailed (fun d =>
    let last := last_seq key (db_fleets d) in
    if (last <? I64_MAX)%Z then Some ((last + 1)%Z, d) else None);
  next ← sql_lift (checked_u64 expected);
  (if (next =? fev_seq e)%N then mret tt
   else last ← sql_lift (checked_u64 (expected - 1)); sql_lift (Err (EventSequenceInvalid last (fev_seq e)))) ;;
  fleets (fun t => if may_add vw_run (fun a b => vw_seq a =? vw_seq b)%Z (ft_events t) t (fleet_event_row e)
                   then Some (set_ft_events (ft_events t ++ [fleet_event_row e]) t) else None) ;;
  fleets (fun t =>
    let oldest := (last_seq key t - MAX_DURABLE_FLEET_EVENTS)%Z in
    Some (set_ft_events (List.filter (fun r => negb (of_fleet key r && (vw_seq r <=? oldest)%Z)) (ft_events t)) t)).

Definition fleet_event_of_row (run : Uuid) (row : FleetEventRow) : result AgentStoreError FleetEventEnvelopeV2 :=
  seq ← checked_u64 (vw_seq row);
  time ← checked_u64 (vw_timestamp_ms row);
  kind ← parse_event_kind (vw_kind row);
  s ← parse_fleet_state (vw_state row);
  approval ← read_option parse_uuid (vw_approval_id row);
  Ok {| fev_fleet_run_id := run; fev_seq := seq; fev_timestamp_ms := time; fev_kind := kind; fev_state := s;
        fev_approval_id := approval; fev_code := vw_code row |}.

Definition load_fleet_events (run : Uuid) (after_seq : N) : Sql (list FleetEventEnvelopeV2) :=
  rows ← select (fun d =>
    sort_by (fun a b => vw_seq a <=? vw_seq b)%Z
      (List.filter (fun e => of_fleet (uuid_display run) e && (as_i64 after_seq <? vw_seq e)%Z) (ft_events (db_fleets d))));
  sql_lift (try_map (fleet_event_of_row run) rows).

(** ** Approvals *)
Definition fleet_approval_row (a : FleetApprovalV2) : FleetApprovalRow :=
  {| pw_run := uuid_display (fa_fleet_run_id a); pw_version := as_i64 (fa_fleet_version a);
     pw_graph_digest := fa_graph_digest a; pw_targets := to_json (fa_targets a);
     pw_policy_version := as_i64 (fa_policy_version a); pw_policy_hash := fa_policy_hash a;
     pw_state := fleet_approval_name (fa_state a); pw_invalidation_code := fa_invalidation_code a;
     pw_created_at := as_i64 (fa_created_at a); pw_decided_at := as_i64 <$> fa_decided_at a |}.

Definition insert_fleet_approval_row (a : FleetApprovalV2) : Sql unit :=
  let key := uuid_display (fa_id a) in
  fleets (fun t =>
    if bool_decide (is_Some (ft_runs t !! pw_run (fleet_approval_row a))) && negb (bool_decide (is_Some (ft_approvals t !! key)))
    then Some (set_ft_approvals (<[key := fleet_approval_row a]> (ft_approvals t)) t) else None).

Definition decided_row (a : FleetApprovalV2) (row : FleetApprovalRow) : FleetApprovalRow :=
  {| pw_run := pw_run row; pw_version := pw_version row; pw_graph_digest := pw_graph_digest row;
     pw_targets := pw_targets row; pw_policy_version := pw_policy_version row; pw_policy_hash := pw_policy_hash row;
     pw_state := fleet_approval_name (fa_state a); pw_invalidation_code := fa_invalidation_code a;
     pw_created_at := pw_created_at row; pw_decided_at := as_i64 <$> fa_decided_at a |}.

Definition decide_approval_row (a : FleetApprovalV2) : Sql unit :=
  let key := uuid_display (fa_id a) in
  known ← statement PersistenceFailed (fun d =>
    let t := db_fleets d in
    Some (bool_decide (is_Some (ft_approvals t !! key)),
          set_fleets (set_ft_approvals (alter (decided_row a) key (ft_approvals t)) t) d));
  sql_lift (reject_if (negb known) ApprovalNotFound).

Definition fleet_approval_of_row (key : str) (row : FleetApprovalRow) : result AgentStoreError FleetApprovalV2 :=
  id ← parse_uuid key;
  run ← parse_uuid (pw_run row);
  version ← checked_u64 (pw_version row);
  targets ← read_json (pw_targets row);
  policy ← checked_u64 (pw_policy_version row);
  s ← parse_fleet_approval (pw_state row);
  created ← checked_u64 (pw_created_at row);
  decided ← read_option checked_u64 (pw_decided_at row);
  reject_if (negb (blen (pw_graph_digest row) =? 64)%N || is_empty (pw_policy_hash row)) StoreCorrupt ;;
  Ok {| fa_id := id; fa_fleet_run_id := run; fa_fleet_version := version; fa_graph_digest := pw_graph_digest row;
        fa_targets := targets; fa_policy_version := policy; fa_policy_hash := pw_policy_hash row; fa_state := s;
        fa_invalidation_code := pw_invalidation_code row; fa_created_at := created; fa_decided_at := decided |}.

Definition load_fleet_approval (id : Uuid) : Sql (option FleetApprovalV2) :=
  row ← query StoreCorrupt (fun d => ft_approvals (db_fleets d) !! uuid_display id);
  sql_lift (read_option (fleet_approval_of_row (uuid_display id)) row).

(** ** The stores *)
Definition created_event (r : FleetRunV2) : FleetEventEnvelopeV2 :=
  {| fev_fleet_run_id := fr_id r; fev_seq := 1; fev_timestamp_ms := fr_created_at r; fev_kind := FeDraftCreated;
     fev_state := fr_state r; fev_approval_id := None; fev_code := None |}.

Definition insert_fleet_run (r : FleetRunV2) : SqlOracle -> store_op AgentDb unit :=
  with_tx (write_fleet_run r true ;; append_fleet_event (created_event r)).
Definition save_fleet_body (r : FleetRunV2) : Sql unit :=
  known ← has_fleet (uuid_display (fr_id r));
  if known : bool then write_fleet_run r false else sql_lift (Err RunNotFound).
Definition save_fleet_run (r : FleetRunV2) : SqlOracle -> store_op AgentDb unit := with_tx (save_fleet_body r).
Definition get_fleet_run (id : Uuid) : SqlOracle -> store_op AgentDb (option FleetRunV2) := with_conn (load_fleet_run id).

(** [ORDER BY created_at, id] *)
Definition fleet_leb (a b : str * FleetRunRow) : bool :=
  (fw_created_at (snd a) <? fw_created_at (snd b))%Z
  || ((fw_created_at (snd a) =? fw_created_at (snd b))%Z && str_leb (fst a) (fst b)).
Fixpoint load_listed (keys : list str) : Sql (list FleetRunV2) :=
  match keys with
  | [] => mret []
  | key :: rest =>
      id ← sql_lift (parse_uuid key);
      found ← load_fleet_run id;
      run ← sql_lift (ok_or found StoreCorrupt);
      others ← load_listed rest;
      mret (run :: others)
  end.
Definition list_fleet_runs : SqlOracle -> store_op AgentDb (list FleetRunV2) :=
  with_conn (keys ← select (fun d => map fst (sort_by fleet_leb (scan (ft_runs (db_fleets d))))); load_listed keys).

Definition in_flight_states : list FleetRunStateV2 :=
  [FlValidatingTargets; FlInvestigating; FlPlanning; FlApproved; FlExecuting; FlVerifying; FlRollingBack].
Definition interrupted_row (now : N) (row : FleetRunRow) : FleetRunRow :=
  if str_in (map fleet_state_name in_flight_states) (fw_state row) then
    {| fw_version := fw_version row; fw_state := fleet_state_name FlInterrupted; fw_production := fw_production row;
       fw_failure_policy := fw_failure_policy row; fw_graph_digest := fw_graph_digest row;
       fw_recovery_state := fw_recovery_state row; fw_created_at := fw_created_at row; fw_updated_at := as_i64 now |}
  else row.
Definition metadata_row (row : FleetRunRow) : FleetRunRow :=
  {| fw_version := fw_version row; fw_state := fw_state row; fw_production := fw_production row;
     fw_failure_policy := fw_failure_policy row; fw_graph_digest := fw_graph_digest row;
     fw_recovery_state := recovery_name FrMetadataOnly; fw_created_at := fw_created_at row;
     fw_updated_at := fw_updated_at row |}.
Definition recovered_approval_row (now : N) (row : FleetApprovalRow) : FleetApprovalRow :=
  if str_in (map fleet_approval_name [FaPending; FaGranted]) (pw_state row) then
    {| pw_run := pw_run row; pw_version := pw_version row; pw_graph_digest := pw_graph_digest row;
       pw_targets := pw_targets row; pw_policy_version := pw_policy_version row; pw_policy_hash := pw_policy_hash row;
       pw_state := fleet_approval_name FaInvalidated; pw_invalidation_code := Some FLEET_APPROVAL_RECOVERED;
       pw_created_at := pw_created_at row; pw_decided_at := Some (as_i64 now) |}
  else row.

Definition recover_fleets_body (now : N) : Sql nat :=
  changed ← statement PersistenceFailed (fun d =>
    let t := db_fleets d in
    Some (length (List.filter (fun x => str_in (map fleet_state_name in_flight_states) (fw_state (snd x)))
                    (map_to_list (ft_runs t))),
          set_fleets (set_ft_runs (interrupted_row now <$> ft_runs t) t) d));
  fleets (fun t => Some (set_ft_runs (metadata_row <$> ft_runs t) t)) ;;
  fleets (fun t => Some (set_ft_approvals (recovered_approval_row now <$> ft_approvals t) t)) ;;
  mret changed.
Definition recover_fleet_runs (now : N) : SqlOracle -> store_op AgentDb nat := with_tx (recover_fleets_body now).

Definition insert_fleet_approval (r : FleetRunV2) (a : FleetApprovalV2) (e : FleetEventEnvelopeV2) :
    SqlOracle -> store_op AgentDb unit :=
  with_tx (write_fleet_run r false ;; insert_fleet_approval_row a ;; append_fleet_event e).
Definition decide_fleet_approval (r : FleetRunV2) (a : FleetApprovalV2) (e : FleetEventEnvelopeV2) :
    SqlOracle -> store_op AgentDb unit :=
  with_tx (write_fleet_run r false ;; decide_approval_row a ;; append_fleet_event e).
Definition get_fleet_approval (id : Uuid) : SqlOracle -> store_op AgentDb (option FleetApprovalV2) :=
  with_conn (load_fleet_approval id).
Definition fleet_events_after (run : Uuid) (after_seq : N) : SqlOracle -> store_op AgentDb (list FleetEventEnvelopeV2) :=
  with_conn (load_fleet_events run after_seq).

Definition persist_fleet_schedule (r : FleetRunV2) (children : list AgentRun) (events : list FleetEventEnvelopeV2) :
    SqlOracle -> store_op AgentDb unit :=
  with_tx (write_fleet_run r false ;; for_each insert_run_new children ;; for_each append_fleet_event events).
End Fleets.
