(* ===== verification/SqliteFleetTheorems.v ===== *)
(** * What holds of the durable fleets

    A fleet that was saved is read back as its metadata: without the summaries of its
    stages, and never live.  The log of a fleet stays numbered without a gap and keeps
    its last 512 events.  After recovery no fleet is under way and no approval stands. *)
From stdpp Require Import sorting.
From S2P Require Import Prelude Str RunState Externals FleetRun FleetControl Stores SqliteTables Sqlite SqliteTheorems.
From S2P Require Import SqliteFacts SqliteFleet.

(** ** Statements *)
Lemma sql_bind_eq {A B} (p : Sql A) (f : A -> Sql B) o d r o1 d1 :
  p o d = (r, o1, d1) -> (p ≫= f) o d = match r with Ok a => f a o1 d1 | Err e => (Err e, o1, d1) end.
Proof. intros Hp. unfold mbind, sql_bind. rewrite Hp. by destruct r. Qed.

Lemma fleets_ok f o d o' d' :
  fleets f o d = (Ok tt, o', d') -> exists t, f (db_fleets d) = Some t /\ d' = set_fleets t d.
Proof.
  intros Hf%execute_ok. destruct (f (db_fleets d)) as [t|] eqn:Ht; cbn in Hf; [|done]. injection Hf as <-. eauto.
Qed.

(** Rows that are added one by one. *)
Section Adding.
Context {A R : Type} (row : A -> R) (get : FleetTables -> list R) (set : list R -> FleetTables -> FleetTables)
  (guard : FleetTables -> R -> bool).
Hypothesis get_set : forall x t, get (set x t) = x.
Hypothesis set_set : forall x y t, set x (set y t) = set x t.
Hypothesis set_get : forall t, set (get t) t = t.
Definition add_one (a : A) : Sql unit :=
  fleets (fun t => if guard t (row a) then Some (set (get t ++ [row a]) t) else None).
Definition with_added (l : list A) (d : AgentDb) : AgentDb :=
  set_fleets (set (get (db_fleets d) ++ map row l) (db_fleets d)) d.

Lemma with_added_cons a l d : with_added l (with_added [a] d) = with_added (a :: l) d.
Proof. unfold with_added. cbn. by rewrite get_set, set_set, <- app_assoc. Qed.
Lemma with_added_nil d : with_added [] d = d.
Proof. unfold with_added. cbn. rewrite app_nil_r, set_get. by destruct d. Qed.

Lemma for_each_added l o d o' d' : for_each add_one l o d = (Ok tt, o', d') -> d' = with_added l d.
Proof.
  revert o d. induction l as [|a l IH]; intros o d; cbn [for_each].
  { intros [= _ <-]. by rewrite with_added_nil. }
  intros ([] & o1 & d1 & (t & Ht & ->)%fleets_ok & Hl)%sql_bind_ok. destruct (guard _ _); [|done]. injection Ht as <-.
  apply IH in Hl as ->. apply (with_added_cons a l d).
Qed.

Lemma for_each_adds l d :
  (forall n a, l !! n = Some a -> guard (db_fleets (with_added (firstn n l) d)) (row a) = true) ->
  for_each add_one l [] d = (Ok tt, [], with_added l d).
Proof.
  revert d. induction l as [|a l IH]; intros d Hg; cbn [for_each].
  { by rewrite with_added_nil. }
  assert (Hone : add_one a [] d = (Ok tt, [], with_added [a] d)).
  { unfold add_one, fleets, execute, statement. cbn. specialize (Hg 0%nat a eq_refl).
    rewrite take_0, with_added_nil in Hg. by rewrite Hg. }
  rewrite (sql_bind_eq _ _ _ _ _ _ _ Hone), IH.
  - by rewrite with_added_cons.
  - intros n b Hb. rewrite with_added_cons. by apply (Hg (S n)).
Qed.
End Adding.

(** ** Rows of one fleet *)
Lemma filter_all {A} (p : A -> bool) l : (forall a, a ∈ l -> p a = true) -> List.filter p l = l.
Proof. induction l as [|a l IH]; cbn; intros Hp; [done|]. rewrite (Hp a), IH by set_solver. done. Qed.
Lemma filter_none {A} (p : A -> bool) l : (forall a, a ∈ l -> p a = false) -> List.filter p l = [].
Proof. induction l as [|a l IH]; cbn; intros Hp; [done|]. rewrite (Hp a), IH by set_solver. done. Qed.

Lemma others_of_key {R} (run : R -> str) key rows :
  List.filter (fun r => str_eqb (run r) key) (other_than run key rows) = [].
Proof.
  apply filter_none. intros r [_ Hr]%elem_of_filterb. by apply negb_true_iff.
Qed.
Lemma others_of_other {R} (run : R -> str) key key' rows : key' <> key ->
  List.filter (fun r => str_eqb (run r) key') (other_than run key rows) = List.filter (fun r => str_eqb (run r) key') rows.
Proof.
  intros Hne. unfold other_than. induction rows as [|r rows IH]; cbn; [done|]. destruct (str_eqb (run r) key) eqn:Hk; cbn.
  - apply str_eqb_eq in Hk. rewrite Hk. destruct (str_eqb key key') eqn:He; [apply str_eqb_eq in He; congruence|done].
  - by rewrite IH.
Qed.

Lemma rows_of_written {A R} (run : R -> str) leb key rows (row : A -> R) l :
  (forall a, run (row a) = key) -> rows_of run leb key (other_than run key rows ++ map row l) = sort_by leb (map row l).
Proof.
  intros Hrow. unfold rows_of. rewrite List.filter_app, others_of_key. cbn. f_equal. apply filter_all.
  intros r (a & -> & _)%list_elem_of_fmap. by rewrite Hrow, str_eqb_refl.
Qed.
Lemma rows_of_others {A R} (run : R -> str) leb key key' rows (row : A -> R) l :
  (forall a, run (row a) = key) -> key' <> key ->
  rows_of run leb key' (other_than run key rows ++ map row l) = rows_of run leb key' rows.
Proof.
  intros Hrow Hne. unfold rows_of. rewrite List.filter_app, others_of_other by done.
  rewrite (filter_none _ (map row l)), app_nil_r; [done|]. intros r (a & -> & _)%list_elem_of_fmap. rewrite Hrow.
  destruct (str_eqb key key') eqn:He; [apply str_eqb_eq in He; congruence|done].
Qed.

Lemma sort_by_map {A B} (f : A -> B) (leb : B -> B -> bool) l :
  sort_by leb (map f l) = map f (sort_by (fun a b => leb (f a) (f b)) l).
Proof.
  assert (Hins : forall a k, insert_by leb (f a) (map f k) = map f (insert_by (fun a b => leb (f a) (f b)) a k)).
  { intros a k. induction k as [|b k IH]; cbn; [done|]. case_match; [done|]. cbn. by rewrite IH. }
  induction l as [|a l IH]; cbn; [done|]. fold (sort_by leb (map f l)). rewrite IH. apply Hins.
Qed.

(** Rows that are numbered from some number on are in the order of their numbers. *)
Lemma numbered_sorted {R} (num : R -> Z) rows (k : Z) :
  (forall i r, rows !! i = Some r -> num r = (k + Z.of_nat i)%Z) ->
  StronglySorted (fun a b => (num a <=? num b)%Z = true) rows.
Proof.
  revert k. induction rows as [|r rows IH]; intros k Hn; constructor.
  - apply (IH (k + 1)%Z). intros i x Hx. rewrite (Hn (S i) x Hx). lia.
  - apply Forall_lookup. intros i x Hx. rewrite (Hn 0%nat r eq_refl), (Hn (S i) x Hx). lia.
Qed.

Lemma try_map_of {A B C} (f : A -> result AgentStoreError B) (g : C -> A) (h : C -> B) l :
  (forall c, c ∈ l -> f (g c) = Ok (h c)) -> try_map f (map g l) = Ok (map h l).
Proof.
  induction l as [|c l IH]; cbn; intros Hf; [done|]. rewrite Hf by set_solver. cbn. rewrite IH; [done|]. set_solver.
Qed.

(** ** What is durable of a fleet *)
Definition bare_stage (s : FleetStage) : FleetStage :=
  {| fs_id := fs_id s; fs_summary := []; fs_target_ids := fs_target_ids s; fs_depends_on := fs_depends_on s;
     fs_strategy := fs_strategy s; fs_concurrency_limit := fs_concurrency_limit s; fs_state := fs_state s |}.

Section Durable.
Context `{SqlLaws}.

(** The children in the order of the texts of their keys. *)
Definition sorted_children (l : list FleetChildRun) : list FleetChildRun :=
  sort_by (fun a b => child_leb (child_row [] a) (child_row [] b)) l.

(** The fleet as it is read back: metadata, with the time it was first written. *)
Definition durable (old : option FleetRunV2) (r : FleetRunV2) : FleetRunV2 :=
  {| fr_id := fr_id r; fr_version := fr_version r; fr_state := fr_state r; fr_production := fr_production r;
     fr_failure_policy := fr_failure_policy r; fr_targets := fr_targets r; fr_stages := map bare_stage (fr_stages r);
     fr_children := sorted_children (fr_children r); fr_graph_digest := fr_graph_digest r;
     fr_recovery_state := FrMetadataOnly; fr_created_at := from_option fr_created_at (fr_created_at r) old;
     fr_updated_at := fr_updated_at r |}.

Lemma bare_ids stages : map fs_id (map bare_stage stages) = map fs_id stages.
Proof. rewrite map_map. by apply map_ext. Qed.

Lemma bare_plan production targets stages : plan_wf production targets stages -> plan_wf production targets (map bare_stage stages).
Proof.
  intros [Ht Hne Hmax Hids Heach Hac]. split; rewrite ?bare_ids, ?length_map; try done.
  - by destruct stages.
  - intros s (s0 & -> & [] %Heach)%list_elem_of_fmap. by split.
  - intros x Hx. apply (Hac x). revert Hx.
    assert (Hsub : forall a b, depends (map bare_stage stages) a b -> depends stages a b).
    { intros a b (s & (s0 & -> & Hs)%list_elem_of_fmap & Ha & Hb). by exists s0. }
    generalize x at 1 3. intros y Hy. induction Hy as [a b|a b c Hab _ IH]; [apply tc_once; eauto|eapply tc_l; eauto].
Qed.

Lemma durable_wf old r : metadata_wf r -> metadata_wf (durable old r).
Proof.
  intros [Hp Hd Hc Hk]. split; cbn; [by apply bare_plan|done| |].
  - rewrite bare_ids. unfold sorted_children. by rewrite sort_by_perm.
  - unfold sorted_children. by rewrite sort_by_perm.
Qed.

(** The widths of the columns. *)
Definition fleet_fits (r : FleetRunV2) : Prop :=
  fits63 (fr_version r) /\ fits63 (fr_created_at r) /\ fits63 (fr_updated_at r) /\
  Forall (fun c => fc_attempt c <= U32_MAX)%N (fr_children r).

Lemma checked_u64_i64 n : fits63 n -> checked_u64 (as_i64 n) = Ok n.
Proof.
  intros Hn. rewrite as_i64_small by done. unfold checked_u64. rewrite (proj2 (Z.ltb_ge _ _)) by lia. cbn. by rewrite N2Z.id.
Qed.
Lemma checked_u32_i64 n : (n <= U32_MAX)%N -> checked_u32 (as_i64 n) = Ok n.
Proof.
  unfold U32_MAX. intros Hn. rewrite as_i64_small by (unfold fits63; lia). unfold checked_u32, U32_MAX.
  rewrite (proj2 (Z.ltb_ge _ _)), (proj2 (Z.ltb_ge _ _)) by lia. cbn. by rewrite N2Z.id.
Qed.
Lemma checked_u64_back z n : checked_u64 z = Ok n -> fits63 n \/ (9223372036854775808 <= z)%Z.
Proof.
  unfold checked_u64. destruct (Z.ltb_spec z 0); [done|]. intros [= <-]. unfold fits63. lia.
Qed.

Lemma target_read_back key t : fits63 (ftb_ordinal t) -> target_of_row (target_row key t) = Ok t.
Proof.
  intros Ht. unfold target_of_row, parse_uuid. cbn. rewrite !sql_uuid. cbn. rewrite checked_u64_i64 by done. by destruct t.
Qed.
Lemma parse_strategy_name s : parse_strategy (strategy_name s) = Ok s.
Proof. by destruct s; vm_compute. Qed.
Lemma parse_stage_name s : parse_stage_state (stage_state_name s) = Ok s.
Proof. by destruct s; vm_compute. Qed.
Lemma parse_fleet_name s : parse_fleet_state (fleet_state_name s) = Ok s.
Proof. by destruct s; vm_compute. Qed.
Lemma parse_policy_name s : parse_failure_policy (failure_policy_name s) = Ok s.
Proof. by destruct s; vm_compute. Qed.
Lemma parse_recovery_name s : parse_recovery (recovery_name s) = Ok s.
Proof. by destruct s; vm_compute. Qed.
Lemma parse_fleet_approval_name s : parse_fleet_approval (fleet_approval_name s) = Ok s.
Proof. by destruct s; vm_compute. Qed.
Lemma parse_event_kind_name k : parse_event_kind (event_kind_name k) = Ok k.
Proof. by destruct k; vm_compute. Qed.

Lemma stage_read_back key n s : fits63 (fs_concurrency_limit s) -> stage_of_row (stage_row key n s) = Ok (bare_stage s).
Proof.
  intros Hs. unfold stage_of_row, parse_uuid, read_json. cbn. rewrite sql_uuid. cbn. rewrite !ids_read_back. cbn.
  rewrite parse_strategy_name. cbn. rewrite checked_u64_i64 by done. cbn. by rewrite parse_stage_name.
Qed.
Lemma child_read_back key c : (fc_attempt c <= U32_MAX)%N -> child_of_row (child_row key c) = Ok c.
Proof.
  intros Hc. unfold child_of_row, parse_uuid. cbn. rewrite !sql_uuid. cbn.
  assert (Hrun : read_option (fun raw => ok_or (uuid_parse raw) StoreCorrupt) (uuid_display <$> fc_agent_run_id c) = Ok (fc_agent_run_id c)).
  { destruct (fc_agent_run_id c); cbn; [by rewrite sql_uuid|done]. }
  unfold parse_uuid. rewrite Hrun. cbn. rewrite checked_u32_i64 by done. cbn. rewrite parse_stage_name. by destruct c.
Qed.

(** ** Writing *)
Context (order : gmap Uuid N -> list (Uuid * N)).
Hypothesis order_lists : lists_entries order.

Definition fleet_written (r : FleetRunV2) (d : AgentDb) : AgentDb :=
  let key := uuid_display (fr_id r) in
  let t := db_fleets d in
  set_fleets
    {| ft_runs := <[key := fleet_row (ft_runs t !! key) r]> (ft_runs t);
       ft_targets := other_than tw_run key (ft_targets t) ++ map (target_row key) (fr_targets r);
       ft_stages := other_than sw_run key (ft_stages t) ++ map (fun x => stage_row key (fst x) (snd x)) (imap pair (fr_stages r));
       ft_children := other_than cw_run key (ft_children t) ++ map (child_row key) (fr_children r);
       ft_approvals := ft_approvals t; ft_events := ft_events t |} d.

Lemma add_targets key l o d o' d' :
  for_each (fun t => add_target (target_row key t)) l o d = (Ok tt, o', d') ->
  d' = with_added (target_row key) ft_targets set_ft_targets l d.
Proof.
  apply (for_each_added (target_row key) ft_targets set_ft_targets (fun t row => may_add tw_run target_clash (ft_targets t) t row));
    [done..|by intros []].
Qed.
Lemma add_stages key l o d o' d' :
  for_each (fun x => add_stage (stage_row key (fst x) (snd x))) l o d = (Ok tt, o', d') ->
  d' = with_added (fun x => stage_row key (fst x) (snd x)) ft_stages set_ft_stages l d.
Proof.
  apply (for_each_added (fun x => stage_row key (fst x) (snd x)) ft_stages set_ft_stages
           (fun t row => may_add sw_run stage_clash (ft_stages t) t row)); [done..|by intros []].
Qed.
Lemma add_children key l o d o' d' :
  for_each (fun c => add_child (child_row key c)) l o d = (Ok tt, o', d') ->
  d' = with_added (child_row key) ft_children set_ft_children l d.
Proof.
  apply (for_each_added (child_row key) ft_children set_ft_children (fun t row => may_add cw_run child_clash (ft_children t) t row));
    [done..|by intros []].
Qed.

Lemma valid_metadata r : (match validate_metadata order r with Ok _ => Ok tt | Err _ => Err StoreCorrupt end) = Ok tt ->
  metadata_wf r.
Proof. by destruct (validate_metadata_cases order r order_lists) as [[? ->]|[? [e ->]]]. Qed.

Lemma write_fleet_ok r insert_only o d o' d' :
  write_fleet_run order r insert_only o d = (Ok tt, o', d') -> metadata_wf r /\ d' = fleet_written r d.
Proof.
  intros (u & o1 & d1 & [Hv ->]%lift_ok & Hp)%sql_bind_ok. destruct u. apply valid_metadata in Hv. split; [done|].
  apply sql_bind_ok in Hp as ([] & o2 & d2 & Hi & Hp).
  assert (d2 = d) as ->.
  { destruct insert_only; [|by injection Hi]. apply sql_bind_ok in Hi as (b & o3 & d3 & [_ ->]%query_ok & Hi).
    by apply lift_ok in Hi as [_ ->]. }
  clear Hi. apply sql_bind_ok in Hp as ([] & o3 & d3 & (t3 & [= <-] & ->)%fleets_ok & Hp).
  apply sql_bind_ok in Hp as ([] & o4 & d4 & (t4 & [= <-] & ->)%fleets_ok & Hp).
  apply sql_bind_ok in Hp as ([] & o5 & d5 & (t5 & [= <-] & ->)%fleets_ok & Hp).
  apply sql_bind_ok in Hp as ([] & o6 & d6 & (t6 & [= <-] & ->)%fleets_ok & Hp).
  apply sql_bind_ok in Hp as ([] & o7 & d7 & Ht & Hp).
  apply sql_bind_ok in Hp as ([] & o8 & d8 & Hs & Hc).
  apply add_targets in Ht. apply add_stages in Hs. apply add_children in Hc. by rewrite Hc, Hs, Ht.
Qed.

(** ** Reading *)
Definition fleet_rows (id : Uuid) (t : FleetTables) :
    option FleetRunRow * list FleetTargetRow * list FleetStageRow * list FleetChildRow :=
  let key := uuid_display id in
  (ft_runs t !! key, rows_of tw_run (fun a b => tw_ordinal a <=? tw_ordinal b)%Z key (ft_targets t),
   rows_of sw_run (fun a b => sw_ordinal a <=? sw_ordinal b)%Z key (ft_stages t), rows_of cw_run child_leb key (ft_children t)).

Definition read_rows (id : Uuid) (row : option FleetRunRow) (ts : list FleetTargetRow) (ss : list FleetStageRow)
    (cs : list FleetChildRow) : result AgentStoreError (option FleetRunV2) :=
  match row with
  | None => Ok None
  | Some row =>
      targets ← try_map target_of_row ts; stages ← try_map stage_of_row ss; children ← try_map child_of_row cs;
      id ← parse_uuid (uuid_display id);
      version ← checked_u64 (fw_version row);
      s ← parse_fleet_state (fw_state row);
      production ← flag_of (fw_production row);
      policy ← parse_failure_policy (fw_failure_policy row);
      _ ← parse_recovery (fw_recovery_state row);
      created ← checked_u64 (fw_created_at row);
      updated ← checked_u64 (fw_updated_at row);
      let run := {| fr_id := id; fr_version := version; fr_state := s; fr_production := production;
                    fr_failure_policy := policy; fr_targets := targets; fr_stages := stages; fr_children := children;
                    fr_graph_digest := fw_graph_digest row; fr_recovery_state := FrMetadataOnly;
                    fr_created_at := created; fr_updated_at := updated |} in
      match validate_metadata order run with Ok _ => Ok (Some run) | Err _ => Err StoreCorrupt end
  end.

Lemma load_fleet_eq id d :
  load_fleet_run order id [] d =
    (let '(row, ts, ss, cs) := fleet_rows id (db_fleets d) in read_rows id row ts ss cs, [], d).
Proof.
  unfold load_fleet_run, select, query, statement, fleet_rows, read_rows, sql_lift, mret, sql_ret, mbind, sql_bind. cbn -[rows_of].
  destruct (ft_runs (db_fleets d) !! _) as [row|]; [|done]. cbn -[rows_of].
  destruct (try_map target_of_row _); [|done]. cbn -[rows_of]. destruct (try_map stage_of_row _); [|done].
  cbn -[rows_of]. by destruct (try_map child_of_row _).
Qed.

Lemma get_fleet_eq id l :
  poisoned l = false ->
  fst (get_fleet_run order id [] l) = let '(row, ts, ss, cs) := fleet_rows id (db_fleets (held l)) in read_rows id row ts ss cs.
Proof. intros Hl. unfold get_fleet_run, with_conn. by rewrite Hl, load_fleet_eq. Qed.

Lemma written_rows r d :
  let key := uuid_display (fr_id r) in
  fleet_rows (fr_id r) (db_fleets (fleet_written r d)) =
    (Some (fleet_row (ft_runs (db_fleets d) !! key) r),
     sort_by (fun a b => tw_ordinal a <=? tw_ordinal b)%Z (map (target_row key) (fr_targets r)),
     sort_by (fun a b => sw_ordinal a <=? sw_ordinal b)%Z (map (fun x => stage_row key (fst x) (snd x)) (imap pair (fr_stages r))),
     sort_by child_leb (map (child_row key) (fr_children r))).
Proof. unfold fleet_rows. cbn -[rows_of other_than]. rewrite lookup_insert_eq. by rewrite !rows_of_written. Qed.

Lemma written_others r d id : id <> fr_id r -> fleet_rows id (db_fleets (fleet_written r d)) = fleet_rows id (db_fleets d).
Proof.
  intros Hid. assert (Hk : uuid_display id <> uuid_display (fr_id r)) by (intros Hd%display_inj; congruence).
  unfold fleet_rows. cbn -[rows_of other_than]. rewrite lookup_insert_ne by congruence. by rewrite !rows_of_others by done.
Qed.

Lemma few_targets r s : metadata_wf r -> s ∈ fr_stages r -> fits63 (fs_concurrency_limit s).
Proof.
  intros [Hp _ _ _] Hs. pose proof (pw_each _ _ _ Hp s Hs) as [_ Hnd Hsub _ _ _ _ Hlim _ _].
  assert (Hlen : (length (fs_target_ids s) <= length (map ftb_profile_id (fr_targets r)))%nat).
  { by apply submseteq_length, NoDup_submseteq. }
  rewrite length_map in Hlen. pose proof (tw_max _ (FleetRun.pw_targets _ _ _ Hp)). unfold list_lenN in Hlim. unfold fits63. lia.
Qed.

Lemma sorted_targets key r : metadata_wf r ->
  sort_by (fun a b => tw_ordinal a <=? tw_ordinal b)%Z (map (target_row key) (fr_targets r)) = map (target_row key) (fr_targets r).
Proof.
  intros [Hp _ _ _]. apply sort_by_id, (numbered_sorted tw_ordinal _ 0). intros i x Hx.
  change (map (target_row key) (fr_targets r)) with (target_row key <$> fr_targets r) in Hx.
  rewrite list_lookup_fmap in Hx. destruct (fr_targets r !! i) as [t|] eqn:Ht; [|done]. injection Hx as <-. cbn.
  pose proof (tw_max _ (FleetRun.pw_targets _ _ _ Hp)). apply lookup_lt_Some in Ht as Hi.
  rewrite (tw_ordinals _ (FleetRun.pw_targets _ _ _ Hp) _ _ Ht), as_i64_small by (unfold fits63; lia). lia.
Qed.

Lemma sorted_stages key r : metadata_wf r ->
  sort_by (fun a b => sw_ordinal a <=? sw_ordinal b)%Z (map (fun x => stage_row key (fst x) (snd x)) (imap pair (fr_stages r)))
  = map (fun x => stage_row key (fst x) (snd x)) (imap pair (fr_stages r)).
Proof.
  intros [Hp _ _ _]. apply sort_by_id, (numbered_sorted sw_ordinal _ 0). intros i x Hx.
  change (map ?f ?l) with (f <$> l) in Hx. rewrite list_lookup_fmap, list_lookup_imap in Hx.
  destruct (fr_stages r !! i) as [s|] eqn:Hs; [|done]. injection Hx as <-. cbn.
  pose proof (pw_stages_max _ _ _ Hp). apply lookup_lt_Some in Hs as Hi.
  rewrite as_i64_small by (unfold fits63; lia). lia.
Qed.

Lemma imap_pair_snd {A B} (f : A -> B) (l : list A) : map (fun x => f (snd x)) (imap pair l) = map f l.
Proof.
  apply list_eq. intros i. change (map ?f ?l) with (f <$> l). rewrite !list_lookup_fmap, list_lookup_imap. by destruct (l !! i).
Qed.

(** The time of creation that a later write leaves. *)
Lemma read_created r d old :
  (let '(row, ts, ss, cs) := fleet_rows (fr_id r) (db_fleets d) in read_rows (fr_id r) row ts ss cs) = Ok old ->
  fits63 (fr_created_at r) ->
  checked_u64 (from_option fw_created_at (as_i64 (fr_created_at r)) (ft_runs (db_fleets d) !! uuid_display (fr_id r)))
  = Ok (from_option fr_created_at (fr_created_at r) old).
Proof.
  unfold fleet_rows, read_rows. destruct (ft_runs (db_fleets d) !! _) as [row|]; [|intros [= <-]; by apply checked_u64_i64].
  cbn [from_option]. intros Hr Hfits. cbn -[rows_of validate_metadata] in Hr.
  repeat match type of Hr with
  | mbind _ ?x = _ => destruct x eqn:?; cbn -[rows_of validate_metadata] in Hr; [|done]
  end.
  destruct (validate_metadata _ _); [|done]. by injection Hr as <-.
Qed.

Lemma written_read_back r d old :
  metadata_wf r -> fleet_fits r ->
  (let '(row, ts, ss, cs) := fleet_rows (fr_id r) (db_fleets d) in read_rows (fr_id r) row ts ss cs) = Ok old ->
  (let '(row, ts, ss, cs) := fleet_rows (fr_id r) (db_fleets (fleet_written r d)) in read_rows (fr_id r) row ts ss cs)
  = Ok (Some (durable old r)).
Proof.
  intros Hw (Hver & Hcr & Hup & Hat) Hold. rewrite written_rows. cbv zeta. rewrite sorted_targets, sorted_stages by done.
  unfold read_rows.
  rewrite (try_map_of _ (target_row _) id), map_id.
  2: { intros t Ht. apply (target_read_back _ t). pose proof (tw_max _ (FleetRun.pw_targets _ _ _ (mw_plan _ Hw))).
       apply list_elem_of_lookup_1 in Ht as [i Ht]. apply lookup_lt_Some in Ht as Hi.
       rewrite (tw_ordinals _ (FleetRun.pw_targets _ _ _ (mw_plan _ Hw)) _ _ Ht). unfold fits63. lia. }
  cbn [mbind result_bind].
  rewrite (try_map_of _ (fun x => stage_row (uuid_display (fr_id r)) (fst x) (snd x)) (fun x => bare_stage (snd x))), imap_pair_snd.
  2: { intros [n s] (i & s' & [= -> ->] & Hs)%elem_of_lookup_imap. apply stage_read_back.
       eapply few_targets; [done|]. by apply list_elem_of_lookup_2 in Hs. }
  cbn [mbind result_bind]. rewrite sort_by_map, (try_map_of _ (child_row _) id), map_id.
  2: { intros c Hc. rewrite sort_by_perm in Hc. apply (child_read_back _ c). rewrite Forall_forall in Hat. by apply Hat. }
  cbn [mbind result_bind]. unfold parse_uuid. rewrite sql_uuid. cbn -[sort_by validate_metadata].
  rewrite (checked_u64_i64 (fr_version r)) by done. cbn -[sort_by validate_metadata]. rewrite parse_fleet_name. cbn -[sort_by validate_metadata].
  assert (Hflag : flag_of (if fr_production r then 1%Z else 0%Z) = Ok (fr_production r)) by (by destruct (fr_production r)).
  rewrite Hflag. cbn -[sort_by validate_metadata]. rewrite parse_policy_name. cbn -[sort_by validate_metadata].
  rewrite parse_recovery_name. cbn -[sort_by validate_metadata].
  rewrite (read_created _ _ _ Hold) by done. cbn -[sort_by validate_metadata]. rewrite (checked_u64_i64 (fr_updated_at r)) by done.
  cbn -[sort_by validate_metadata]. change (validate_metadata order _) with (validate_metadata order (durable old r)).
  destruct (validate_metadata_cases order (durable old r) order_lists) as [[_ ->]|[Hno _]]; [done|].
  by destruct Hno; apply durable_wf.
Qed.

(** ** Without failures *)
Lemma row_fits {A R} (run : R -> str) (clash : R -> R -> bool) key rows (row : A -> R) l t n a :
  is_Some (ft_runs t !! key) -> (forall b, run (row b) = key) ->
  (forall i b, (i < n)%nat -> l !! i = Some b -> clash (row b) (row a) = false) ->
  may_add run clash (other_than run key rows ++ map row (firstn n l)) t (row a) = true.
Proof.
  intros Ht Hrow Hc. unfold may_add. rewrite Hrow, bool_decide_true by done. cbn. apply negb_true_iff.
  rewrite existsb_app. apply orb_false_iff. split; apply Existsb_false.
  - intros r [_ Hr]%elem_of_filterb. apply negb_true_iff in Hr. by rewrite Hr.
  - intros r (b & -> & [i Hb]%list_elem_of_lookup_1)%list_elem_of_fmap. rewrite Hrow, str_eqb_refl. cbn.
    apply lookup_take_Some in Hb as [Hb Hi]. by apply (Hc i).
Qed.

Lemma display_ne (a b : Uuid) : a <> b -> str_eqb (uuid_display a) (uuid_display b) = false.
Proof. intros Hab. rewrite str_eqb_display. by apply N.eqb_neq. Qed.

Lemma distinct_lookup {A B} (f : A -> B) l i j a b :
  NoDup (map f l) -> (i < j)%nat -> l !! i = Some a -> l !! j = Some b -> f a <> f b.
Proof.
  intros Hnd Hij Ha Hb Heq. assert (i = j); [|lia].
  apply (NoDup_lookup (f <$> l) i j (f a)); [done| |]; rewrite list_lookup_fmap; [by rewrite Ha|by rewrite Hb, Heq].
Qed.

Lemma targets_no_clash key r i j a b : metadata_wf r -> (i < j)%nat ->
  fr_targets r !! i = Some a -> fr_targets r !! j = Some b -> target_clash (target_row key a) (target_row key b) = false.
Proof.
  intros [Hp _ _ _] Hij Ha Hb. destruct (FleetRun.pw_targets _ _ _ Hp) as [_ Hmax Hord Hprof Hsess]. unfold target_clash. cbn.
  apply lookup_lt_Some in Hb as Hj. rewrite (Hord _ _ Ha), (Hord _ _ Hb), !as_i64_small by (unfold fits63; lia).
  rewrite (display_ne (ftb_profile_id a)) by (by apply (distinct_lookup ftb_profile_id _ i j _ _ Hprof)).
  rewrite (display_ne (ftb_session_id a)) by (by apply (distinct_lookup ftb_session_id _ i j _ _ Hsess)). rewrite !orb_false_r. lia.
Qed.
Lemma stages_no_clash key r i j a b : metadata_wf r -> (i < j)%nat ->
  imap pair (fr_stages r) !! i = Some a -> imap pair (fr_stages r) !! j = Some b ->
  stage_clash (stage_row key (fst a) (snd a)) (stage_row key (fst b) (snd b)) = false.
Proof.
  intros [Hp _ _ _] Hij. rewrite !list_lookup_imap. destruct (fr_stages r !! i) as [x|] eqn:Hx; [|done].
  destruct (fr_stages r !! j) as [y|] eqn:Hy; [|done]. cbn. intros [= <-] [= <-]. unfold stage_clash. cbn.
  pose proof (pw_stages_max _ _ _ Hp). apply lookup_lt_Some in Hy as Hj. rewrite !as_i64_small by (unfold fits63; lia).
  rewrite (display_ne (fs_id x)) by (by apply (distinct_lookup fs_id _ i j _ _ (pw_ids _ _ _ Hp))). rewrite orb_false_r. lia.
Qed.
Lemma children_no_clash key r i j a b : metadata_wf r -> fleet_fits r -> (i < j)%nat ->
  fr_children r !! i = Some a -> fr_children r !! j = Some b -> child_clash (child_row key a) (child_row key b) = false.
Proof.
  intros [_ _ _ Hk] (_ & _ & _ & Hat) Hij Ha Hb. pose proof (distinct_lookup child_key _ _ _ _ _ Hk Hij Ha Hb) as Hne.
  rewrite Forall_lookup in Hat. pose proof (Hat _ _ Ha). pose proof (Hat _ _ Hb). unfold U32_MAX in *. unfold child_clash. cbn.
  rewrite !as_i64_small by (unfold fits63; lia). apply not_true_iff_false.
  intros [[Hs Htg]%andb_true_iff Hatt]%andb_true_iff. rewrite str_eqb_display in Hs, Htg. apply N.eqb_eq in Hs, Htg.
  apply Hne. unfold child_key. f_equal; [by f_equal|lia].
Qed.

Lemma write_fleet_runs r d :
  metadata_wf r -> fleet_fits r -> write_fleet_run order r false [] d = (Ok tt, [], fleet_written r d).
Proof.
  intros Hw Hfits. enough (exists d', write_fleet_run order r false [] d = (Ok tt, [], d')) as [d' Hd'].
  { rewrite Hd'. by apply write_fleet_ok in Hd' as [_ ->]. }
  unfold write_fleet_run.
  destruct (validate_metadata_cases order r order_lists) as [[_ Hv]|[Hno _]]; [|done].
  erewrite sql_bind_eq by (unfold sql_lift; rewrite Hv; reflexivity). cbv beta zeta iota.
  erewrite sql_bind_eq by reflexivity. cbv beta iota.
  do 4 (erewrite sql_bind_eq by reflexivity; cbv beta iota).
  set (key := uuid_display (fr_id r)).
  assert (Hin : forall x, is_Some ((<[key := fleet_row x r]> (ft_runs (db_fleets d))) !! key)).
  { intros x. rewrite lookup_insert_eq. eauto. }
  erewrite sql_bind_eq.
  2: { apply (for_each_adds (target_row key) ft_targets set_ft_targets (fun t row => may_add tw_run target_clash (ft_targets t) t row));
         [done..|by intros []|]. intros n a Ha. apply (row_fits tw_run); [apply Hin|done|].
       intros i b Hi Hb. by eapply targets_no_clash. }
  cbv beta iota. erewrite sql_bind_eq.
  2: { apply (for_each_adds (fun x => stage_row key (fst x) (snd x)) ft_stages set_ft_stages
                (fun t row => may_add sw_run stage_clash (ft_stages t) t row));
         [done..|by intros []|]. intros n a Ha.
       apply (row_fits sw_run stage_clash key _ (fun x => stage_row key (fst x) (snd x))); [apply Hin|done|].
       intros i b Hi Hb. by eapply stages_no_clash. }
  cbv beta iota. eexists.
  apply (for_each_adds (child_row key) ft_children set_ft_children (fun t row => may_add cw_run child_clash (ft_children t) t row));
    [done..|by intros []|]. intros n a Ha. apply (row_fits cw_run); [apply Hin|done|].
  intros i b Hi Hb. by eapply children_no_clash.
Qed.

Lemma append_event_ok e o d o' d' :
  append_fleet_event e o d = (Ok tt, o', d') ->
  let key := uuid_display (fev_fleet_run_id e) in
  let t := db_fleets d in
  let rows := ft_events t ++ [fleet_event_row e] in
  (last_seq key t < I64_MAX)%Z /\ (0 <= last_seq key t + 1)%Z /\ fev_seq e = Z.to_N (last_seq key t + 1) /\
  d' = set_fleets (set_ft_events (List.filter (fun r => negb (of_fleet key r &&
         (vw_seq r <=? last_seq key (set_ft_events rows t) - MAX_DURABLE_FLEET_EVENTS)%Z)) rows) t) d.
Proof.
  intros (z & o1 & d1 & Hz%statement_ok & Hp)%sql_bind_ok. cbv zeta in Hz.
  destruct (Z.ltb_spec (last_seq (uuid_display (fev_fleet_run_id e)) (db_fleets d)) I64_MAX); [|done]. injection Hz as <- <-.
  apply sql_bind_ok in Hp as (n & o2 & d2 & [Hn ->]%lift_ok & Hp).
  unfold checked_u64 in Hn. destruct (Z.ltb_spec (last_seq (uuid_display (fev_fleet_run_id e)) (db_fleets d) + 1) 0) as [|Hpos]; [done|].
  injection Hn as <-. apply sql_bind_ok in Hp as ([] & o3 & d3 & Hs & Hp).
  destruct (N.eqb_spec (Z.to_N (last_seq (uuid_display (fev_fleet_run_id e)) (db_fleets d) + 1)) (fev_seq e)) as [He|].
  2: { by apply sql_bind_ok in Hs as (? & ? & ? & _ & [? _]%lift_ok). }
  injection Hs as _ <-. apply sql_bind_ok in Hp as ([] & o4 & d4 & (t4 & Ht4 & ->)%fleets_ok & (t5 & [= <-] & ->)%fleets_ok).
  destruct (may_add _ _ _ _ _) eqn:Hadd; [|done]. injection Ht4 as <-. by split_and!.
Qed.

Lemma append_event_rows e o d o' d' id :
  append_fleet_event e o d = (Ok tt, o', d') -> fleet_rows id (db_fleets d') = fleet_rows id (db_fleets d).
Proof. by intros (_ & _ & _ & ->)%append_event_ok. Qed.

Lemma fleet_op_written op o l l' r :
  op = insert_fleet_run order r \/ op = save_fleet_run order r -> op o l = (Ok tt, l') ->
  metadata_wf r /\ poisoned l' = false /\
  forall id, fleet_rows id (db_fleets (held l')) = fleet_rows id (db_fleets (fleet_written r (held l))).
Proof.
  intros [-> | ->] (o1 & d' & Hp & ->)%with_tx_ok.
  - apply sql_bind_ok in Hp as ([] & o2 & d2 & [Hw ->]%write_fleet_ok & Hp). split_and!; [done..|].
    intros id. exact (append_event_rows _ _ _ _ _ id Hp).
  - apply sql_bind_ok in Hp as (b & o2 & d2 & [_ ->]%query_ok & Hp). destruct b; [|by apply lift_ok in Hp as [? _]].
    apply write_fleet_ok in Hp as [Hw ->]. by split_and!.
Qed.

(** C38. A fleet that is written is read back as its durable metadata: its summaries are
    empty, it is never live, its children come in the order of the texts of their keys,
    and it was created when it first was; every other fleet is as it was.  A write that
    fails changes nothing, and one that meets no failing statement succeeds for every
    well-formed fleet that is there. *)
Theorem saved_fleet_reads_back op o l old r :
  op = insert_fleet_run order r \/ op = save_fleet_run order r ->
  fleet_fits r -> fst (get_fleet_run order (fr_id r) [] l) = Ok old ->
  let '(result, l') := op o l in
  (result = Ok tt ->
     metadata_wf r /\ fst (get_fleet_run order (fr_id r) [] l') = Ok (Some (durable old r)) /\
     forall id, id <> fr_id r -> fst (get_fleet_run order id [] l') = fst (get_fleet_run order id [] l)) /\
  (result <> Ok tt -> l' = l) /\
  (metadata_wf r -> is_Some old -> fst (save_fleet_run order r [] l) = Ok tt).
Proof.
  intros Hop Hfits Hold.
  assert (Hl : poisoned l = false).
  { unfold get_fleet_run, with_conn in Hold. by destruct (poisoned l). }
  rewrite get_fleet_eq in Hold by done.
  destruct (op o l) as [result l'] eqn:Hr. split_and!.
  - intros ->. destruct (fleet_op_written _ _ _ _ _ Hop Hr) as (Hw & Hl' & Hrows). split; [done|].
    rewrite get_fleet_eq, Hrows by done. split; [by apply written_read_back|].
    intros id Hid. rewrite !get_fleet_eq, Hrows, written_others by done. done.
  - intros Hne. destruct result as [[]|e]; [done|]. destruct Hop as [-> | ->]; by eapply with_tx_err.
  - intros Hw Hsome. unfold save_fleet_run, with_tx. rewrite Hl. cbn [head default tail].
    assert (Hknown : is_Some (ft_runs (db_fleets (held l)) !! uuid_display (fr_id r))).
    { destruct Hsome as [r0 ->]. unfold fleet_rows, read_rows in Hold. by destruct (ft_runs _ !! _). }
    assert (Hbody : save_fleet_body order r [] (held l) = (Ok tt, [], fleet_written r (held l))).
    { unfold save_fleet_body. erewrite sql_bind_eq by reflexivity. cbv beta iota. rewrite bool_decide_true by done.
      by apply write_fleet_runs. }
    by rewrite Hbody.
Qed.
End Durable.

(** ** The log of a fleet *)
Section Log.
Context `{SqlLaws} (order : gmap Uuid N -> list (Uuid * N)).
Hypothesis order_lists : lists_entries order.

Definition log_rows (key : str) (d : AgentDb) : list FleetEventRow := List.filter (of_fleet key) (ft_events (db_fleets d)).
Definition newest {A} (l : list A) : list A := drop (length l - 512) l.

Definition numbered (first : Z) (rows : list FleetEventRow) : Prop :=
  forall i r, rows !! i = Some r -> vw_seq r = (first + Z.of_nat i)%Z.
Definition logs_kept (d : AgentDb) : Prop :=
  forall key, (length (log_rows key d) <= 512)%nat /\ exists first, (1 <= first)%Z /\ numbered first (log_rows key d).

Lemma numbered_max first rows :
  (1 <= first)%Z -> numbered first rows ->
  max_seq (map vw_seq rows) = if bool_decide (rows = []) then 0%Z else (first + Z.of_nat (length rows) - 1)%Z.
Proof.
  intros Hf. induction rows as [|r rows IH] using rev_ind; intros Hn; [done|].
  rewrite bool_decide_false by (by destruct rows). rewrite map_app, length_app. cbn [map length].
  assert (Hlast : vw_seq r = (first + Z.of_nat (length rows))%Z).
  { apply Hn. rewrite lookup_app_r, Nat.sub_diag by lia. done. }
  destruct rows as [|x rows]; [cbn in *; lia|].
  assert (Hrows : numbered first (x :: rows)).
  { intros i y Hi. apply Hn. by apply lookup_app_l_Some. }
  specialize (IH Hrows). rewrite bool_decide_false in IH by done. cbn [max_seq map] in IH |- *.
  cbn [map app max_seq]. rewrite foldl_app. cbn [foldl]. rewrite IH, Hlast. cbn [length]. lia.
Qed.

Lemma numbered_drop first rows z :
  numbered first rows ->
  List.filter (fun r => negb (vw_seq r <=? z)%Z) rows = drop (Z.to_nat (z + 1 - first)) rows.
Proof.
  revert first. induction rows as [|r rows IH]; intros first Hn; [by rewrite drop_nil|].
  assert (Hr : vw_seq r = first) by (rewrite (Hn 0%nat r eq_refl); lia). cbn [List.filter]. rewrite Hr.
  assert (Hrows : numbered (first + 1) rows).
  { intros i x Hx. rewrite (Hn (S i) x Hx). lia. }
  rewrite (IH _ Hrows). destruct (Z.leb_spec first z); cbn [negb].
  - replace (Z.to_nat (z + 1 - first)) with (S (Z.to_nat (z + 1 - (first + 1)))) by lia. done.
  - replace (Z.to_nat (z + 1 - first)) with 0%nat by lia. by replace (Z.to_nat (z + 1 - (first + 1))) with 0%nat by lia.
Qed.

Lemma filter_and_key {R} (p q : R -> bool) (s : R -> bool) rows :
  (forall r, p r = true -> q r = s r) ->
  List.filter p (List.filter q rows) = List.filter s (List.filter p rows).
Proof.
  intros Hs. induction rows as [|r rows IH]; cbn; [done|].
  destruct (p r) eqn:Hp; cbn.
  - rewrite <- (Hs r Hp). destruct (q r); cbn; rewrite ?Hp; by rewrite IH.
  - destruct (q r); cbn; rewrite ?Hp; done.
Qed.

Lemma newest_short {A} (l : list A) : (length l <= 512)%nat -> newest l = l.
Proof. intros Hl. unfold newest. by replace (length l - 512)%nat with 0%nat by lia. Qed.
Lemma newest_app {A} (l k : list A) : newest (newest l ++ k) = newest (l ++ k).
Proof.
  unfold newest. rewrite !length_app, length_drop.
  destruct (decide (length l <= 512)%nat) as [Hl|Hl].
  - replace (length l - 512)%nat with 0%nat by lia. cbn. by rewrite Nat.sub_0_r.
  - replace (length l + length k - 512)%nat with (length l - 512 + length k)%nat by lia.
    rewrite <- (drop_drop (l ++ k)), (drop_app_le l k (length l - 512)) by lia. f_equal. lia.
Qed.

(** [es] are added to the logs, which keep their newest events; nothing else is. *)
Definition logged (d : AgentDb) (es : list FleetEventEnvelopeV2) (d' : AgentDb) : Prop :=
  logs_kept d ->
  logs_kept d' /\ Forall (fun e => fits63 (fev_seq e) /\ (0 < fev_seq e)%N) es /\
  forall key, log_rows key d'
    = newest (log_rows key d ++ map fleet_event_row (List.filter (fun e => str_eqb (uuid_display (fev_fleet_run_id e)) key) es)).

Lemma logged_nothing d d' : ft_events (db_fleets d') = ft_events (db_fleets d) -> logged d [] d'.
Proof.
  intros He Hk. assert (Hrows : forall key, log_rows key d' = log_rows key d) by (intros key; unfold log_rows; by rewrite He).
  split_and!; [intros key; by rewrite Hrows|done|]. intros key. cbn. rewrite app_nil_r, Hrows, newest_short; [done|]. apply Hk.
Qed.

Lemma logged_then d d1 d2 es1 es2 : logged d es1 d1 -> logged d1 es2 d2 -> logged d (es1 ++ es2) d2.
Proof.
  intros H1' H2' Hk. destruct (H1' Hk) as (Hk1 & Hf1 & Hr1). destruct (H2' Hk1) as (Hk2 & Hf2 & Hr2).
  split_and!; [done|by apply Forall_app|]. intros key. by rewrite Hr2, Hr1, newest_app, List.filter_app, map_app, app_assoc.
Qed.

(** The rows that are left after the oldest of a fleet are deleted. *)
Definition trimmed (key : str) (z : Z) (rows : list FleetEventRow) : list FleetEventRow :=
  List.filter (fun r => negb (of_fleet key r && (vw_seq r <=? z)%Z)) rows.

Lemma trimmed_own key z rows first :
  numbered first (List.filter (of_fleet key) rows) ->
  List.filter (of_fleet key) (trimmed key z rows) = drop (Z.to_nat (z + 1 - first)) (List.filter (of_fleet key) rows).
Proof.
  intros Hn. unfold trimmed. rewrite (filter_and_key _ _ (fun r => negb (vw_seq r <=? z)%Z)) by (by intros r ->).
  by apply numbered_drop.
Qed.
Lemma trimmed_other key key' z rows :
  key' <> key -> List.filter (of_fleet key') (trimmed key z rows) = List.filter (of_fleet key') rows.
Proof.
  intros Hne. unfold trimmed. rewrite (filter_and_key _ _ (fun _ => true)), filter_all; [done..|].
  intros r Hr. unfold of_fleet in *. apply str_eqb_eq in Hr. rewrite Hr.
  destruct (str_eqb key' key) eqn:Hk'; [by apply str_eqb_eq in Hk'|done].
Qed.

(** The next row of a fleet continues its numbers. *)
Lemma numbered_next d key row :
  logs_kept d -> vw_seq row = (last_seq key (db_fleets d) + 1)%Z ->
  (0 <= last_seq key (db_fleets d))%Z /\ exists first, (1 <= first)%Z /\ numbered first (log_rows key d ++ [row]).
Proof.
  intros Hk Hrow. destruct (Hk key) as [Hlen (first & Hfirst & Hnum)].
  assert (Hlast : last_seq key (db_fleets d) = if bool_decide (log_rows key d = []) then 0%Z
                    else (first + Z.of_nat (length (log_rows key d)) - 1)%Z) by exact (numbered_max first _ Hfirst Hnum).
  split; [rewrite Hlast; case_bool_decide; lia|]. exists (if bool_decide (log_rows key d = []) then 1%Z else first).
  split; [case_bool_decide; lia|]. intros i r [Hi|[Hle Hi]]%lookup_app_Some.
  - rewrite bool_decide_false by (by intros Hnil; rewrite Hnil in Hi). by apply Hnum.
  - apply list_lookup_singleton_Some in Hi as [Hi <-]. rewrite Hrow, Hlast.
    case_bool_decide as Hc; [rewrite Hc in *; cbn in *|]; lia.
Qed.

Lemma logged_append e o d o' d' : append_fleet_event e o d = (Ok tt, o', d') -> logged d [e] d'.
Proof.
  intros (Hmax & Hpos & Hseq & Hd')%append_event_ok Hk. set (key := uuid_display (fev_fleet_run_id e)) in *.
  assert (Hfits : fits63 (fev_seq e)) by (unfold fits63, I64_MAX in *; lia).
  assert (Hrow : vw_seq (fleet_event_row e) = (last_seq key (db_fleets d) + 1)%Z) by (cbn; rewrite as_i64_small by done; lia).
  destruct (numbered_next d key _ Hk Hrow) as (Hlast & first & Hfirst & Hall).
  set (all := log_rows key d ++ [fleet_event_row e]) in *.
  assert (Hfil : List.filter (of_fleet key) (ft_events (db_fleets d) ++ [fleet_event_row e]) = all).
  { rewrite List.filter_app. unfold all. f_equal. cbn. unfold of_fleet. cbn. fold key. by rewrite str_eqb_refl. }
  assert (Hnew : last_seq key (set_ft_events (ft_events (db_fleets d) ++ [fleet_event_row e]) (db_fleets d))
                 = (first + Z.of_nat (length all) - 1)%Z).
  { unfold last_seq. cbn [ft_events set_ft_events]. rewrite Hfil, (numbered_max first) by done.
    by rewrite bool_decide_false by (by destruct (log_rows key d)). }
  rewrite Hnew in Hd'. change (List.filter _ _) with (trimmed key (first + Z.of_nat (length all) - 1 - MAX_DURABLE_FLEET_EVENTS)
    (ft_events (db_fleets d) ++ [fleet_event_row e])) in Hd'.
  assert (Hrows : log_rows key d' = newest all).
  { rewrite Hd'. unfold log_rows. cbn [db_fleets set_fleets ft_events set_ft_events].
    rewrite (trimmed_own _ _ _ first), Hfil by (by rewrite Hfil). unfold newest, MAX_DURABLE_FLEET_EVENTS. f_equal. lia. }
  assert (Hother : forall key', key' <> key -> log_rows key' d' = log_rows key' d /\ str_eqb key key' = false).
  { intros key' Hne. assert (Hf : str_eqb key key' = false) by (apply not_true_iff_false; by intros ?%str_eqb_eq).
    split; [|done]. rewrite Hd'. unfold log_rows. cbn [db_fleets set_fleets ft_events set_ft_events].
    rewrite trimmed_other, List.filter_app by done. cbn [List.filter]. unfold of_fleet at 2. cbn [vw_run fleet_event_row]. fold key.
    by rewrite Hf, app_nil_r. }
  clear Hd'. split_and!.
  - intros key'. destruct (decide (key' = key)) as [->|Hne]; [|destruct (Hother _ Hne) as [-> _]; apply Hk]. rewrite Hrows. split.
    + unfold newest. rewrite length_drop. lia.
    + exists (first + Z.of_nat (length all - 512))%Z. split; [lia|]. intros i r. unfold newest. rewrite lookup_drop. intros ->%Hall. lia.
  - constructor; [|done]. split; [done|]. rewrite Hseq. lia.
  - intros key'. cbn [List.filter]. fold key. destruct (decide (key' = key)) as [->|Hne].
    + rewrite str_eqb_refl. exact Hrows.
    + destruct (Hother _ Hne) as [-> ->]. cbn [map]. rewrite app_nil_r, newest_short; [done|]. apply Hk.
Qed.

(** *** Calls *)
Inductive FleetCall :=
  | FcInsert (r : FleetRunV2) | FcSave (r : FleetRunV2) | FcApprove (r : FleetRunV2) (a : FleetApprovalV2) (e : FleetEventEnvelopeV2)
  | FcDecide (r : FleetRunV2) (a : FleetApprovalV2) (e : FleetEventEnvelopeV2)
  | FcSchedule (r : FleetRunV2) (children : list AgentRun) (es : list FleetEventEnvelopeV2) | FcRecover (now : N).
Definition fleet_body (c : FleetCall) : Sql unit :=
  match c with
  | FcInsert r => write_fleet_run order r true ;; append_fleet_event (created_event r)
  | FcSave r => save_fleet_body order r
  | FcApprove r a e => write_fleet_run order r false ;; insert_fleet_approval_row a ;; append_fleet_event e
  | FcDecide r a e => write_fleet_run order r false ;; decide_approval_row a ;; append_fleet_event e
  | FcSchedule r children es => write_fleet_run order r false ;; for_each insert_run_new children ;; for_each append_fleet_event es
  | FcRecover now => recover_fleets_body now ;; mret tt
  end.
Definition call_events (c : FleetCall) : list FleetEventEnvelopeV2 :=
  match c with
  | FcInsert r => [created_event r] | FcSave _ | FcRecover _ => []
  | FcApprove _ _ e | FcDecide _ _ e => [e] | FcSchedule _ _ es => es
  end.
(** The methods of the traits. *)
Definition fleet_call (c : FleetCall) (o : SqlOracle) (l : Locked AgentDb) : result AgentStoreError unit * Locked AgentDb :=
  match c with
  | FcInsert r => insert_fleet_run order r o l
  | FcSave r => save_fleet_run order r o l
  | FcApprove r a e => insert_fleet_approval order r a e o l
  | FcDecide r a e => decide_fleet_approval order r a e o l
  | FcSchedule r children es => persist_fleet_schedule order r children es o l
  | FcRecover now => let '(r, l') := recover_fleet_runs now o l in (match r with Ok _ => Ok tt | Err e => Err e end, l')
  end.
Definition fleet_later (calls : list (FleetCall * SqlOracle)) (l : Locked AgentDb) : Locked AgentDb :=
  foldl (fun l c => snd (fleet_call (fst c) (snd c) l)) l calls.
Definition opened : Locked AgentDb := {| poisoned := false; held := empty_db |}.

Lemma fleet_call_body c o l :
  fleet_call c o l = with_tx (fleet_body c) o l.
Proof.
  destruct c; try reflexivity. unfold fleet_call, recover_fleet_runs, with_tx, fleet_body. destruct (poisoned l); [done|].
  destruct (default _ _); [done|]. unfold mbind at 1, sql_bind at 1. destruct (recover_fleets_body _ _ _) as [[[n|e] o1] d1]; [|done].
  cbn. by destruct (default _ _).
Qed.

Lemma logged_write r b o d o' d' : write_fleet_run order r b o d = (Ok tt, o', d') -> logged d [] d'.
Proof. intros [_ ->]%write_fleet_ok; [|done]. by apply logged_nothing. Qed.
Lemma logged_run r o d o' d' : insert_run_new r o d = (Ok tt, o', d') -> logged d [] d'.
Proof.
  intros (b & o1 & d1 & [-> ->]%query_ok & Hp)%sql_bind_ok. case_bool_decide; [by apply lift_ok in Hp as [? _]|].
  apply execute_ok in Hp. injection Hp as <-. by apply logged_nothing.
Qed.
Lemma logged_each {A} (f : A -> Sql unit) (es : A -> list FleetEventEnvelopeV2) l :
  (forall a o d o' d', f a o d = (Ok tt, o', d') -> logged d (es a) d') ->
  forall o d o' d', for_each f l o d = (Ok tt, o', d') -> logged d (flat_map es l) d'.
Proof.
  intros Hf. induction l as [|a l IH]; intros o d o' d'; cbn [for_each].
  - intros [= _ <-]. by apply logged_nothing.
  - intros ([] & o1 & d1 & Ha & Hl)%sql_bind_ok. cbn. eapply logged_then; eauto.
Qed.

Lemma fleet_body_logged c o d o' d' : fleet_body c o d = (Ok tt, o', d') -> logged d (call_events c) d'.
Proof.
  destruct c; cbn [fleet_body call_events].
  - intros ([] & o1 & d1 & Hw%logged_write & He%logged_append)%sql_bind_ok. exact (logged_then _ _ _ [] _ Hw He).
  - intros (b & o1 & d1 & [-> ->]%query_ok & Hp)%sql_bind_ok. case_bool_decide; [by eapply logged_write|by apply lift_ok in Hp as [? _]].
  - intros ([] & o1 & d1 & Hw%logged_write & Hp)%sql_bind_ok. apply sql_bind_ok in Hp as ([] & o2 & d2 & Ha & He%logged_append).
    refine (logged_then _ _ _ [] _ Hw (logged_then _ _ _ [] _ _ He)). apply fleets_ok in Ha as (t & Ht & ->).
    destruct (_ && _); [|done]. injection Ht as <-. by apply logged_nothing.
  - intros ([] & o1 & d1 & Hw%logged_write & Hp)%sql_bind_ok. apply sql_bind_ok in Hp as ([] & o2 & d2 & Ha & He%logged_append).
    refine (logged_then _ _ _ [] _ Hw (logged_then _ _ _ [] _ _ He)).
    apply sql_bind_ok in Ha as (b & o3 & d3 & Hs%statement_ok & [_ ->]%lift_ok). injection Hs as _ <-. by apply logged_nothing.
  - intros ([] & o1 & d1 & Hw%logged_write & Hp)%sql_bind_ok. apply sql_bind_ok in Hp as ([] & o2 & d2 & Hc & He).
    apply (logged_each _ (fun _ => []) _ logged_run) in Hc. apply (logged_each _ (fun e => [e]) _ logged_append) in He.
    assert (Hnil : flat_map (fun _ : AgentRun => []) children = ([] : list FleetEventEnvelopeV2)) by (clear; by induction children).
    assert (Hes : flat_map (fun e : FleetEventEnvelopeV2 => [e]) es = es) by (clear; induction es; cbn; congruence).
    rewrite Hnil in Hc. rewrite Hes in He. exact (logged_then _ _ _ [] _ Hw (logged_then _ _ _ [] _ Hc He)).
  - intros (n & o1 & d1 & Hp & [= _ <-])%sql_bind_ok. apply sql_bind_ok in Hp as (n' & o2 & d2 & Hs%statement_ok & Hp).
    injection Hs as _ <-. apply sql_bind_ok in Hp as ([] & o3 & d3 & (t3 & [= <-] & ->)%fleets_ok & Hp).
    apply sql_bind_ok in Hp as ([] & o4 & d4 & (t4 & [= <-] & ->)%fleets_ok & [= _ _ <-]). by apply logged_nothing.
Qed.

Lemma fleet_call_ok c o l l' :
  fleet_call c o l = (Ok tt, l') -> poisoned l = false /\ poisoned l' = false /\ logged (held l) (call_events c) (held l').
Proof.
  rewrite fleet_call_body. intros Hc. assert (Hl : poisoned l = false) by (unfold with_tx in Hc; by destruct (poisoned l)).
  apply with_tx_ok in Hc as (o1 & d' & Hb%fleet_body_logged & ->). done.
Qed.
Lemma fleet_call_err c o l e l' : fleet_call c o l = (Err e, l') -> l' = l.
Proof. rewrite fleet_call_body. apply with_tx_err. Qed.

Lemma fleet_later_kept calls l : poisoned l = false -> logs_kept (held l) ->
  poisoned (fleet_later calls l) = false /\ logs_kept (held (fleet_later calls l)).
Proof.
  revert l. induction calls as [|[c o] calls IH]; intros l Hl Hk; [done|]. cbn. destruct (fleet_call c o l) as [[[]|e] l'] eqn:Hc.
  - apply fleet_call_ok in Hc as (_ & Hl' & Hlog). apply IH; [done|]. by apply Hlog.
  - apply fleet_call_err in Hc as ->. by apply IH.
Qed.

(** *** Reads of the log *)
Lemma filter_sorted {R} (leb : R -> R -> bool) (p : R -> bool) l :
  StronglySorted (fun a b => leb a b = true) l -> StronglySorted (fun a b => leb a b = true) (List.filter p l).
Proof.
  induction 1 as [|a l _ IH Ha]; cbn; [constructor|]. destruct (p a); [|done]. constructor; [done|].
  apply Forall_forall. intros b [Hb _]%elem_of_filterb. rewrite Forall_forall in Ha. auto.
Qed.

Lemma try_map_filter {A B} (f : A -> result AgentStoreError B) (p : A -> bool) (q : B -> bool) l k :
  (forall a b, a ∈ l -> f a = Ok b -> p a = q b) -> try_map f l = Ok k ->
  try_map f (List.filter p l) = Ok (List.filter q k).
Proof.
  revert k. induction l as [|a l IH]; cbn; intros k Hp; [by intros [= <-]|].
  destruct (f a) as [b|] eqn:Hb; [|done]. cbn. destruct (try_map f l) as [k'|] eqn:Hk; [|done]. cbn. intros [= <-]. cbn.
  rewrite <- (Hp a b) by (done || set_solver). specialize (IH k' (fun a b Ha => Hp a b ltac:(set_solver)) eq_refl).
  destruct (p a); cbn; [by rewrite Hb, IH|done].
Qed.
Lemma try_map_lookup {A B} (f : A -> result AgentStoreError B) l k :
  try_map f l = Ok k -> length k = length l /\ forall i b, k !! i = Some b -> exists a, l !! i = Some a /\ f a = Ok b.
Proof.
  revert k. induction l as [|a l IH]; cbn; intros k; [intros [= <-]; split; [done|by intros i b]|].
  destruct (f a) as [b|] eqn:Hb; [|done]. cbn. destruct (try_map f l) as [k'|]; [|done]. cbn. intros [= <-].
  destruct (IH k' eq_refl) as [Hlen Hk]. split; [cbn; congruence|]. intros [|i] x; cbn; [|apply Hk]. intros [= <-]. eauto.
Qed.
Lemma try_map_app {A B} (f : A -> result AgentStoreError B) l1 l2 k1 k2 :
  try_map f l1 = Ok k1 -> try_map f l2 = Ok k2 -> try_map f (l1 ++ l2) = Ok (k1 ++ k2).
Proof.
  revert k1. induction l1 as [|a l1 IH]; cbn; intros k1; [by intros [= <-]|]. destruct (f a); [|done]. cbn.
  destruct (try_map f l1) as [k|]; [|done]. cbn. intros [= <-] H2'. by rewrite (IH k eq_refl H2').
Qed.
Lemma try_map_newest {A B} (f : A -> result AgentStoreError B) l k : try_map f l = Ok k -> try_map f (newest l) = Ok (newest k).
Proof.
  intros Hk. destruct (try_map_lookup _ _ _ Hk) as [Hlen _]. unfold newest. rewrite Hlen. clear Hlen. revert k Hk.
  generalize (length l - 512)%nat as n. revert l. intros l n. revert l. induction n as [|n IH]; intros [|a l] k; cbn; try by intros [= <-].
  - intros Hk. by rewrite drop_0.
  - destruct (f a); [|done]. cbn. destruct (try_map f l) as [k'|] eqn:Hk; [|done]. intros [= <-]. cbn. by apply IH.
Qed.

Lemma read_log id after l :
  poisoned l = false -> logs_kept (held l) -> fits63 after ->
  fst (fleet_events_after id after [] l)
  = try_map (fleet_event_of_row id) (List.filter (fun r => Z.of_N after <? vw_seq r)%Z (log_rows (uuid_display id) (held l))).
Proof.
  intros Hl Hk Hafter. unfold fleet_events_after, with_conn. rewrite Hl. unfold load_fleet_events.
  erewrite sql_bind_eq by reflexivity. cbv beta iota. unfold sql_lift. cbn [fst]. f_equal.
  rewrite as_i64_small by done. destruct (Hk (uuid_display id)) as [_ (first & _ & Hnum)].
  assert (Hand : forall rows, List.filter (fun e => of_fleet (uuid_display id) e && (Z.of_N after <? vw_seq e)%Z) rows
    = List.filter (fun e => Z.of_N after <? vw_seq e)%Z (List.filter (of_fleet (uuid_display id)) rows)).
  { clear. intros rows. induction rows as [|e rows IH]; cbn; [done|]. destruct (of_fleet _ e); cbn; rewrite IH; done. }
  rewrite Hand. apply sort_by_id, (filter_sorted (fun a b => vw_seq a <=? vw_seq b)%Z), (numbered_sorted _ _ first). exact Hnum.
Qed.

Lemma event_of_row_seq id row e : fleet_event_of_row id row = Ok e ->
  fev_fleet_run_id e = id /\ fev_seq e = Z.to_N (vw_seq row) /\ (0 <= vw_seq row)%Z.
Proof.
  unfold fleet_event_of_row. intros (n & Hn & He)%bind_ok. apply bind_ok in He as (time & _ & He).
  apply bind_ok in He as (kind & _ & He). apply bind_ok in He as (s & _ & He). apply bind_ok in He as (a & _ & [= <-]).
  unfold checked_u64 in Hn. destruct (Z.ltb_spec (vw_seq row) 0); [done|]. by injection Hn as <-.
Qed.
Lemma event_row_read id e : fev_fleet_run_id e = id -> fits63 (fev_seq e) -> fits63 (fev_timestamp_ms e) ->
  fleet_event_of_row id (fleet_event_row e) = Ok e.
Proof.
  intros <- Hs Ht. unfold fleet_event_of_row. cbn. rewrite !checked_u64_i64 by done. cbn. rewrite parse_event_kind_name. cbn.
  rewrite parse_fleet_name. cbn.
  assert (Hid : read_option parse_uuid (uuid_display <$> fev_approval_id e) = Ok (fev_approval_id e)).
  { unfold parse_uuid. destruct (fev_approval_id e); cbn; [by rewrite sql_uuid|done]. }
  rewrite Hid. by destruct e.
Qed.

(** C39. The log of a fleet is bounded and has no gap.  After any calls, whichever statements
    fail: a log that can be read has at most 512 events, numbered one after the other
    from some number on, and a read from a cursor answers exactly what is above it; a
    call that succeeds adds its own events of the fleet at the end, the oldest being
    dropped; one that fails changes nothing. *)
Theorem fleet_log_has_no_gap calls id log :
  let l := fleet_later calls opened in
  fst (fleet_events_after id 0 [] l) = Ok log ->
  (length log <= 512)%nat /\
  (exists first, (1 <= first)%N /\
     forall i e, log !! i = Some e -> fev_fleet_run_id e = id /\ fev_seq e = (first + N.of_nat i)%N) /\
  (forall after, fits63 after ->
     fst (fleet_events_after id after [] l) = Ok (List.filter (fun e => after <? fev_seq e)%N log)) /\
  forall c o, let '(result, l') := fleet_call c o l in
    match result with
    | Err _ => l' = l
    | Ok _ =>
        Forall (fun e => fits63 (fev_timestamp_ms e)) (call_events c) ->
        fst (fleet_events_after id 0 [] l')
        = Ok (newest (log ++ List.filter (fun e => fev_fleet_run_id e =? id)%N (call_events c)))
    end.
Proof.
  intros l Hlog.
  destruct (fleet_later_kept calls opened eq_refl) as [Hl Hk].
  { intros key. split; [cbn; lia|]. exists 1%Z. split; [done|]. by intros i r. }
  fold l in Hl, Hk. assert (H0' : fits63 0) by (unfold fits63; lia).
  assert (Hread : forall l0, poisoned l0 = false -> logs_kept (held l0) ->
    fst (fleet_events_after id 0 [] l0) = try_map (fleet_event_of_row id) (log_rows (uuid_display id) (held l0))).
  { intros l0 Hl0 Hk0. rewrite read_log by done. rewrite filter_all; [done|]. intros r Hr.
    destruct (Hk0 (uuid_display id)) as [_ (first & Hf & Hn)]. apply list_elem_of_lookup_1 in Hr as [i Hr%Hn]. lia. }
  rewrite Hread in Hlog by done. destruct (try_map_lookup _ _ _ Hlog) as [Hlen Hat].
  destruct (Hk (uuid_display id)) as [Hmax (first & Hf & Hn)]. split_and!.
  - lia.
  - exists (Z.to_N first). split; [lia|]. intros i e (row & Hrow & (Hid & Hs & _)%event_of_row_seq)%Hat. split; [done|].
    rewrite Hs, (Hn _ _ Hrow). lia.
  - intros after Hafter. rewrite read_log by done. apply try_map_filter; [|done]. intros row e _ (_ & -> & Hpos)%event_of_row_seq. lia.
  - intros c o. destruct (fleet_call c o l) as [[[]|e] l'] eqn:Hc; [|by eapply fleet_call_err].
    intros Htime. apply fleet_call_ok in Hc as (_ & Hl' & Hlogged). destruct (Hlogged Hk) as (Hk' & Hseq & Hrows).
    rewrite Hread, Hrows by done. apply try_map_newest, try_map_app; [done|].
    rewrite (List.filter_ext _ (fun e => fev_fleet_run_id e =? id)%N) by (intros e; apply str_eqb_display).
    rewrite (try_map_of _ fleet_event_row (fun e => e)), map_id; [done|]. intros e [He Hid%N.eqb_eq]%elem_of_filterb.
    rewrite Forall_forall in Hseq, Htime. apply event_row_read; [done|by apply Hseq|by apply Htime].
Qed.
End Log.
