(* ===== verification/SqliteFleetFacts.v ===== *)
(** * What recovery leaves of the durable fleets

    After a restart no fleet is under way and no approval stands; and a fleet that was
    read from the tables can neither be approved nor go on.  The samples at which the
    theorems about durable fleets are applied. *)
From S2P Require Import Prelude Str RunState Externals Decision FleetRun FleetControl FleetCoordinator Stores SqliteTables Sqlite.
From S2P Require Import SqliteTheorems SqliteFacts SqliteFleet SqliteFleetTheorems FleetTheorems.

Section Restart.
Context `{SqlLaws} (order : gmap Uuid N -> list (Uuid * N)).
Hypothesis order_lists : lists_entries order.

(** ** What recovery does to a fleet and to an approval *)
Definition interrupted (now : N) (r : FleetRunV2) : FleetRunV2 :=
  if bool_decide (fr_state r ∈ in_flight_states) then set_fleet_state FlInterrupted now r else r.
Definition invalidated (now : N) (a : FleetApprovalV2) : FleetApprovalV2 :=
  if bool_decide (fa_state a ∈ [FaPending; FaGranted]) then
    {| fa_id := fa_id a; fa_fleet_run_id := fa_fleet_run_id a; fa_fleet_version := fa_fleet_version a;
       fa_graph_digest := fa_graph_digest a; fa_targets := fa_targets a; fa_policy_version := fa_policy_version a;
       fa_policy_hash := fa_policy_hash a; fa_state := FaInvalidated;
       fa_invalidation_code := Some FLEET_APPROVAL_RECOVERED; fa_created_at := fa_created_at a;
       fa_decided_at := Some now |}
  else a.

Lemma parse_name_back {A} (name : A -> str) all raw (a : A) : parse_name name all raw = Ok a -> raw = name a.
Proof.
  unfold parse_name. destruct (List.find _ _) as [x|] eqn:Hf; [|done]. intros [= <-].
  apply find_some in Hf as [_ Hx]. by apply str_eqb_eq in Hx.
Qed.

Lemma in_flight_name s : str_in (map fleet_state_name in_flight_states) (fleet_state_name s) = bool_decide (s ∈ in_flight_states).
Proof. by destruct s; vm_compute. Qed.
Lemma standing_name s :
  str_in (map fleet_approval_name [FaPending; FaGranted]) (fleet_approval_name s) = bool_decide (s ∈ [FaPending; FaGranted]).
Proof. by destruct s; vm_compute. Qed.

Lemma recovered_read now id row ts ss cs r :
  fits63 now -> read_rows order id (Some row) ts ss cs = Ok (Some r) ->
  read_rows order id (Some (metadata_row (interrupted_row now row))) ts ss cs = Ok (Some (interrupted now r)).
Proof.
  intros Hnow (targets & Ht & Hr)%bind_ok. apply bind_ok in Hr as (stages & Hs & Hr). apply bind_ok in Hr as (children & Hc & Hr).
  apply bind_ok in Hr as (id' & Hid & Hr). apply bind_ok in Hr as (version & Hv & Hr). apply bind_ok in Hr as (s & Hst & Hr).
  apply bind_ok in Hr as (production & Hp & Hr). apply bind_ok in Hr as (policy & Hpo & Hr). apply bind_ok in Hr as (u & Hrec & Hr).
  apply bind_ok in Hr as (created & Hcr & Hr). apply bind_ok in Hr as (updated & Hup & Hr). cbv zeta in Hr.
  set (run := Build_FleetRunV2 _ _ _ _ _ _ _ _ _ _ _ _) in Hr.
  destruct (validate_metadata_cases order run order_lists) as [[Hw Hval]|[_ [e Hval]]]; rewrite Hval in Hr; [|done].
  injection Hr as <-.
  assert (Hw' : metadata_wf (interrupted now run)) by (unfold interrupted; case_bool_decide; [by destruct Hw|done]).
  destruct (validate_metadata_cases order (interrupted now run) order_lists) as [[_ Hval']|[]]; [|done].
  pose proof (parse_name_back _ _ _ _ Hst) as Hname.
  unfold read_rows. rewrite Ht, Hs, Hc, Hid. cbn [mbind result_bind].
  unfold interrupted_row. rewrite Hname, in_flight_name.
  unfold interrupted in Hval' |- *. cbn [fr_state run] in Hval' |- *.
  case_bool_decide; cbn [metadata_row fw_version fw_state fw_production fw_failure_policy fw_graph_digest fw_recovery_state fw_created_at fw_updated_at];
    rewrite Hv, Hp, Hpo, Hcr, ?Hup, ?checked_u64_i64 by done; cbn [mbind result_bind];
    rewrite ?Hst, ?parse_fleet_name, ?parse_recovery_name; cbn [mbind result_bind]; rewrite ?Hp, ?Hpo, ?Hcr, ?Hup; cbn [mbind result_bind].
  - match goal with |- match validate_metadata order ?x with _ => _ end = _ => change x with (set_fleet_state FlInterrupted now run) end.
    by rewrite Hval'.
  - match goal with |- match validate_metadata order ?x with _ => _ end = _ => change x with run end. by rewrite Hval'.
Qed.

Lemma fleet_approval_read now key row a :
  fits63 now -> fleet_approval_of_row key row = Ok a ->
  fleet_approval_of_row key (recovered_approval_row now row) = Ok (invalidated now a).
Proof.
  intros Hnow (id & Hid & Ha)%bind_ok. apply bind_ok in Ha as (run & Hrun & Ha). apply bind_ok in Ha as (version & Hv & Ha).
  apply bind_ok in Ha as (targets & Ht & Ha). apply bind_ok in Ha as (policy & Hp & Ha). apply bind_ok in Ha as (s & Hs & Ha).
  apply bind_ok in Ha as (created & Hc & Ha). apply bind_ok in Ha as (decided & Hd & Ha). apply bind_ok in Ha as (u & Hu & [= <-]).
  pose proof (parse_name_back _ _ _ _ Hs) as Hname. unfold recovered_approval_row. rewrite Hname, standing_name.
  unfold invalidated. cbn [fa_state]. unfold fleet_approval_of_row.
  case_bool_decide; rewrite Hid; cbn [mbind result_bind pw_run pw_version pw_targets pw_policy_version pw_state pw_created_at
    pw_decided_at pw_graph_digest pw_policy_hash pw_invalidation_code];
    rewrite Hrun; cbn [mbind result_bind]; rewrite Hv; cbn [mbind result_bind]; rewrite Ht; cbn [mbind result_bind];
    rewrite Hp; cbn [mbind result_bind].
  - rewrite parse_fleet_approval_name. cbn [mbind result_bind]. rewrite Hc. cbn [mbind result_bind read_option].
    rewrite checked_u64_i64 by done. cbn [mbind result_bind]. by rewrite Hu.
  - rewrite Hs. cbn [mbind result_bind]. rewrite Hc. cbn [mbind result_bind]. rewrite Hd. cbn [mbind result_bind]. by rewrite Hu.
Qed.

(** ** The theorem *)
Definition refuses {A} (p : result coord_stop A * FleetRunV2) (r : FleetRunV2) : Prop :=
  (exists e, fst p = Err e) /\ snd p = r.

(** A fleet that is not live. *)
Lemma metadata_is_inert r : fr_recovery_state r = FrMetadataOnly ->
  (forall new version hash t, fleet_bind new r version hash t = Err FLEET_APPROVAL_RECOVERED) /\
  (forall a version hash, fleet_validate a r version hash <> Ok tt) /\
  (forall next t, fleet_transition_to next t r = Err FpeInvalidTransition) /\
  (forall a version hash states, validate_authority_for_states r a version hash states = false) /\
  (forall child outcome code t, refuses (record_outcome child outcome code t r) r) /\
  (forall t, refuses (fleet_pause t r) r) /\ (forall t, refuses (fleet_cancel t r) r).
Proof.
  intros Hrec. unfold refuses. split_and!.
  - intros. unfold fleet_bind. by rewrite Hrec.
  - intros. unfold fleet_validate. rewrite Hrec. by destruct (negb _).
  - intros. unfold fleet_transition_to. by rewrite Hrec.
  - intros. unfold validate_authority_for_states. by rewrite Hrec.
  - intros. unfold record_outcome. rewrite Hrec. cbn. eauto.
  - intros. unfold fleet_pause. rewrite Hrec. cbn. eauto.
  - intros. unfold fleet_cancel. rewrite Hrec. cbn. eauto.
Qed.

Lemma read_metadata id row ts ss cs r :
  read_rows order id row ts ss cs = Ok (Some r) -> fr_recovery_state r = FrMetadataOnly.
Proof.
  destruct row as [row|]; [|done]. cbn -[validate_metadata]. intros Hr.
  repeat match type of Hr with _ ≫= _ = Ok _ => apply bind_ok in Hr as (? & _ & Hr) end.
  destruct (validate_metadata _ _); [|done]. by injection Hr as <-.
Qed.

Lemma recovered_tables now o d n o' d' :
  recover_fleets_body now o d = (Ok n, o', d') ->
  db_fleets d' = set_ft_approvals (recovered_approval_row now <$> ft_approvals (db_fleets d))
                   (set_ft_runs (metadata_row <$> (interrupted_row now <$> ft_runs (db_fleets d))) (db_fleets d)).
Proof.
  intros (n' & o1 & d1 & Hs%statement_ok & Hp)%sql_bind_ok. injection Hs as _ <-.
  apply sql_bind_ok in Hp as ([] & o2 & d2 & (t2 & [= <-] & ->)%fleets_ok & Hp).
  by apply sql_bind_ok in Hp as ([] & o3 & d3 & (t3 & [= <-] & ->)%fleets_ok & [= _ _ <-]).
Qed.

(** C40. A restart leaves nothing under way.  When recovery succeeds: every fleet that was
    read before is read after, interrupted if it was in flight and otherwise as it was;
    every approval that was read is read, invalidated if it was pending or granted and
    otherwise as it was.  A fleet that is read from the tables, after that or at any
    time, is metadata: no approval can be bound to it or validated against it, no
    authority holds for it, and no operation moves it.  When a statement fails nothing
    changes, and when none does recovery succeeds. *)
Theorem fleet_restart_is_inert now o l :
  fits63 now ->
  let '(result, l') := recover_fleet_runs now o l in
  (poisoned l = false -> o = [] -> is_ok result = true) /\
  (is_ok result = false -> l' = l) /\
  (is_ok result = true ->
     (forall id found, fst (get_fleet_run order id [] l) = Ok found ->
        fst (get_fleet_run order id [] l') = Ok (interrupted now <$> found)) /\
     (forall id found, fst (get_fleet_approval id [] l) = Ok found ->
        fst (get_fleet_approval id [] l') = Ok (invalidated now <$> found))) /\
  (forall id r, fst (get_fleet_run order id [] l') = Ok (Some r) ->
     (forall new version hash t, fleet_bind new r version hash t = Err FLEET_APPROVAL_RECOVERED) /\
     (forall a version hash, fleet_validate a r version hash <> Ok tt) /\
     (forall next t, fleet_transition_to next t r = Err FpeInvalidTransition) /\
     (forall a version hash states, validate_authority_for_states r a version hash states = false) /\
     (forall child outcome code t, refuses (record_outcome child outcome code t r) r) /\
     (forall t, refuses (fleet_pause t r) r) /\ (forall t, refuses (fleet_cancel t r) r)).
Proof.
  intros Hnow. destruct (recover_fleet_runs now o l) as [result l'] eqn:Hr. split_and!.
  - intros Hl ->. unfold recover_fleet_runs, with_tx in Hr. rewrite Hl in Hr. cbn in Hr. by injection Hr as <- <-.
  - destruct result; [done|]. intros _. by eapply with_tx_err.
  - destruct result as [n|]; [|done]. intros _.
    assert (Hl : poisoned l = false) by (unfold recover_fleet_runs, with_tx in Hr; by destruct (poisoned l)).
    apply with_tx_ok in Hr as (o1 & d' & Htables%recovered_tables & ->). split.
    + intros id found. rewrite !get_fleet_eq by done. unfold fleet_rows. cbn [held]. rewrite Htables.
      cbn [ft_runs ft_targets ft_stages ft_children set_ft_approvals set_ft_runs]. rewrite !lookup_fmap.
      destruct (ft_runs _ !! _) as [row|]; cbn [fmap option_fmap option_map]; [|by intros [= <-]].
      intros Hrow. destruct found as [r|]; [by apply recovered_read|]. exfalso. cbn -[validate_metadata] in Hrow.
      repeat match type of Hrow with _ ≫= _ = Ok _ => apply bind_ok in Hrow as (? & _ & Hrow) end.
      by destruct (validate_metadata _ _).
    + intros id found. unfold get_fleet_approval, with_conn. rewrite Hl. cbn [poisoned held]. unfold load_fleet_approval.
      erewrite sql_bind_eq by reflexivity. erewrite sql_bind_eq by reflexivity. cbn [fst sql_lift]. rewrite Htables.
      cbn [ft_approvals set_ft_approvals]. rewrite lookup_fmap.
      destruct (ft_approvals _ !! _) as [row|]; cbn [fmap option_fmap option_map read_option]; [|by intros [= <-]].
      intros (a & Ha & [= <-])%bind_ok. rewrite (fleet_approval_read now _ _ a) by done. done.
  - intros id r Hget. apply metadata_is_inert.
    assert (Hl' : poisoned l' = false) by (unfold get_fleet_run, with_conn in Hget; by destruct (poisoned l')).
    rewrite get_fleet_eq in Hget by done. unfold fleet_rows in Hget. by eapply read_metadata.
Qed.
End Restart.

(** ** Samples *)
#[local] Existing Instance sample_externals.
#[local] Existing Instance sample_sql.
#[local] Existing Instance sample_laws.

Definition first_fleet : FleetRunV2 :=
  let r := sample_fleet FpStop sample_stages in
  {| fr_id := fr_id r; fr_version := fr_version r; fr_state := fr_state r; fr_production := fr_production r;
     fr_failure_policy := fr_failure_policy r; fr_targets := fr_targets r; fr_stages := fr_stages r;
     fr_children := fr_children r; fr_graph_digest := repeat 97%N 64; fr_recovery_state := fr_recovery_state r;
     fr_created_at := fr_created_at r; fr_updated_at := fr_updated_at r |}.
Definition inserted_fleet : Locked AgentDb := snd (insert_fleet_run sample_order first_fleet [] opened).
Definition executing_fleet : FleetRunV2 := set_fleet_state FlExecuting 2 first_fleet.
Definition fleet_under_way : Locked AgentDb := snd (save_fleet_run sample_order executing_fleet [] inserted_fleet).

Lemma first_fits : fleet_fits first_fleet /\ fleet_fits executing_fleet.
Proof. by split; apply (bool_decide_unpack _); vm_compute. Qed.

Lemma saved_fleet_reads_back_witness :
  fst (save_fleet_run sample_order executing_fleet [] inserted_fleet) = Ok tt /\
  fst (get_fleet_run sample_order 7 [] fleet_under_way) = Ok (Some (durable (Some (durable None first_fleet)) executing_fleet)).
Proof.
  assert (Hold : fst (get_fleet_run sample_order (fr_id executing_fleet) [] inserted_fleet) = Ok (Some (durable None first_fleet)))
    by (vm_compute; reflexivity).
  pose proof (saved_fleet_reads_back sample_order sample_order_lists (save_fleet_run sample_order executing_fleet) []
    inserted_fleet _ executing_fleet (or_intror eq_refl) (proj2 first_fits) Hold) as Hs.
  assert (Hok : fst (save_fleet_run sample_order executing_fleet [] inserted_fleet) = Ok tt) by (vm_compute; reflexivity).
  split; [exact Hok|]. unfold fleet_under_way. destruct (save_fleet_run _ _ _ _) as [result l']. cbn in Hok. subst result.
  exact (proj1 (proj2 (proj1 Hs eq_refl))).
Defined.

Lemma fleet_log_has_no_gap_witness :
  fst (fleet_events_after 7 0 [] inserted_fleet) = Ok [created_event first_fleet] /\
  fst (fleet_events_after 7 0 [] (snd (fleet_call sample_order (FcSave executing_fleet) [] inserted_fleet)))
  = Ok [created_event first_fleet].
Proof.
  assert (Hlog : fst (fleet_events_after 7 0 [] (fleet_later sample_order [(FcInsert first_fleet, [])] opened))
                 = Ok [created_event first_fleet]) by (vm_compute; reflexivity).
  split; [exact Hlog|].
  destruct (fleet_log_has_no_gap sample_order sample_order_lists [(FcInsert first_fleet, [])] 7 _ Hlog) as (_ & _ & _ & Hcall).
  specialize (Hcall (FcSave executing_fleet) []).
  assert (Hok : fst (fleet_call sample_order (FcSave executing_fleet) [] inserted_fleet) = Ok tt) by (vm_compute; reflexivity).
  change (fleet_later sample_order [(FcInsert first_fleet, [])] opened) with inserted_fleet in Hcall.
  destruct (fleet_call _ _ _ _) as [result l']. cbn in Hok. subst result. exact (Hcall (Forall_nil_2 _)).
Defined.

Lemma fleet_restart_is_inert_witness :
  exists r, fst (get_fleet_run sample_order 7 [] (snd (recover_fleet_runs 9 [] fleet_under_way))) = Ok (Some r) /\
    fr_state r = FlInterrupted /\ fleet_transition_to FlExecuting 10 r = Err FpeInvalidTransition.
Proof.
  assert (Hnow : fits63 9) by (unfold fits63; lia).
  pose proof (fleet_restart_is_inert sample_order sample_order_lists 9 [] fleet_under_way Hnow) as Hr.
  assert (Hold : fst (get_fleet_run sample_order 7 [] fleet_under_way)
    = Ok (Some (durable (Some (durable None first_fleet)) executing_fleet))) by (vm_compute; reflexivity).
  assert (Hl : poisoned fleet_under_way = false) by (vm_compute; reflexivity).
  destruct (recover_fleet_runs 9 [] fleet_under_way) as [result l']. destruct Hr as (Hok & _ & Hread & Hinert).
  pose proof (proj1 (Hread (Hok Hl eq_refl)) _ _ Hold) as Hget. exists (interrupted 9 (durable (Some (durable None first_fleet)) executing_fleet)).
  split; [exact Hget|]. split; [reflexivity|]. exact (proj1 (proj2 (proj2 (Hinert _ _ Hget))) _ _).
Defined.
